(* ===== verification/_CoqProject ===== *)
-Q . S2P
Prelude.v
FileType.v
SectorLocks.v
Limiter.v
HarmonyDB.v
Float64.v
Resources.v
TaskEngine.v
TaskEngineFacts.v
Capacity.v
Cluster.v
PollerFacts.v
Singleton.v
EngineExamples.v
Sender.v
SlotMgr.v
IPThrottle.v
Codec.v
VanillaProof.v
Memtree.v
TreeD.v
TreeDFacts.v
TreeDBuild.v
Promise.v
BatchTimeout.v
SealPipeline.v
SealPipelineFacts.v
GoStd.v
StorageIndex.v
StorageIndexFacts.v
IndexDbLocks.v
IndexInterface.v
LocalStorage.v
LocalFacts.v
LocalIndex.v
LocalIndexFacts.v
TaskStorage.v
StorageGC.v
GCMarkFacts.v
GCSweep.v
GCSweepFacts.v
EndpointGC.v
DealData.v
DealDataFacts.v
DealIngest.v
DealIngestFacts.v
DealAlloc.v
DealAllocFacts.v
SectorData.v
DealExamples.v
WdPostProof.v
WdPostProofFacts.v
CtlAddr.v
WdPost.v
WdPostFacts.v
WdPostExamples.v
Winning.v
WinningFacts.v
WinningExamples.v
CachedProof.v
PdpProve.v
EthSender.v
ChainSched.v
MsgWatch.v
EthWatch.v
CachedReader.v
Prefetch.v
ParkPiece.v
ParkPieceFacts.v
ParkWorld.v
ParkFix.v
DataCid.v
DataCidFacts.v
PostVProof.v
PostVProofFacts.v
AuxFiles.v
PartialFile.v
PartialFileFacts.v
SnapPipeline.v
SnapFacts.v
