(* ===== verification/Prelude.v ===== *)
(** * Curio: a verification library

    Curio runs a Filecoin storage provider as a cluster of equal nodes.  The
    nodes share one SQL database and nothing else: all long-running work is a
    row of [harmony_task], and every node takes rows, runs them in goroutines and
    records the outcome.  On top of this engine the program seals sectors, sends
    messages to the chain, proves what it stores and serves clients.  This
    library models the parts that carry the program's own logic, as executable
    functions translated from the Go sources, and proves what makes them
    correct.

    ** The files

    - [Prelude.v]: integers of Go at their width, time, results, tactics, sums
      over lists, rule induction on step relations.
    - [FileType.v]: [lib/storiface/filetype.go]; sets of sector file types as bit
      sets, allow and deny lists, space accounting, the name of a sector and its
      parser.
    - [SectorLocks.v]: [lib/paths/index_locks.go]; the table of sector locks with
      its pointers, and goroutines that wait, hold, give up and release.
    - [Limiter.v]: [harmony/taskhelp]; limiters over shared int32 cells,
      background names, retry delays, the in-place filter.
    - [HarmonyDB.v]: the tables of the engine and one function per SQL statement
      of [harmony/harmonytask] and [harmony/resources].
    - [Float64.v]: binary64 arithmetic of GPU amounts.
    - [Resources.v]: [harmony/resources/resources.go]; registration, heartbeat,
      reaping of silent machines.
    - [TaskEngine.v]: [harmony/harmonytask/harmonytask.go] and
      [task_type_handler.go]; [AddTask], [considerWork], the capacity check,
      completion, the poller, start-up.  [StorageOps] is the interface through
      which the engine claims storage.
    - [TaskEngineFacts.v], [Capacity.v], [Cluster.v], [PollerFacts.v]: what the
      operations do, the accounting of a node, many nodes over one database
      with crashes and faults, and the poller: as steps of that system, and what an
      iteration of it starts.
    - [Singleton.v]: [harmony/harmonytask/singleton_task.go].
    - [EngineExamples.v]: a concrete cluster, to which the theorems are applied.
    - [Sender.v]: [tasks/message/sender.go]; the send task cut at its statements,
      interleaved over all nodes, and [Send].
    - [SlotMgr.v]: [lib/slotmgr/slotmgr.go]; slots of batch sealing, their
      condition variable and their users.
    - [IPThrottle.v]: [pdp/ip_offense_throttle.go].
    - [Codec.v], [VanillaProof.v]: readers and writers with their contract, and
      the binary form of PoRep proofs, [lib/proof/porep_vproof_bin_encode.go]
      and [porep_vproof_bin_decode.go].
    - [Memtree.v]: [lib/proof/merkle_sha254_memtree.go], [merkle_proof_memtree.go],
      [tree_size.go], [verify.go]; Merkle trees in a buffer and their proofs.
    - [TreeD.v], [TreeDFacts.v], [TreeDBuild.v]: [lib/proof/treed_build.go]; the
      tree of a sector's data, hashed in chunks by goroutines that share a file.
    - [Promise.v]: [lib/promise/promise.go].
    - [BatchTimeout.v], [SealPipeline.v], [SealPipelineFacts.v]:
      [tasks/seal/batch_timeout.go], [poller.go], [poller_precommit_msg.go],
      [poller_commit_msg.go] and the completion statements of the seal tasks.
    - [GoStd.v]: what the storage code uses of Go's library: splitting and
      joining strings, the unspecified order of map iteration (class [Enum]),
      the algorithm of [sort.SliceStable] (its result for a less function that
      is not an order is observable).
    - [StorageIndex.v], [StorageIndexFacts.v]: [lib/paths/db_index.go] and
      [index.go]; the tables of the sector index and its operations.
    - [IndexDbLocks.v]: the sector locks that [db_index.go] keeps in columns of
      the index, with their expiry, and nodes that take, lose and drop them.
    - [IndexInterface.v]: [SectorIndex], what the index offers to the stores, its
      contract [SectorIndexSpec], and the database index as an instance.
    - [LocalStorage.v], [LocalFacts.v]: [lib/paths/local.go]; the paths of a node
      as objects with their free space and reservations.
    - [LocalIndex.v], [LocalIndexFacts.v]: the operations of [local.go] that
      talk to the index, written against [SectorIndex].
    - [TaskStorage.v]: [lib/ffi/task_storage.go]; the storage of a task, with its
      reservations as objects that are released once, which implements the
      engine's [StorageOps].
    - [StorageGC.v], [GCMarkFacts.v]: [tasks/gc/storage_gc_mark.go]; which files
      are marked for removal.
    - [GCSweep.v], [GCSweepFacts.v]: [tasks/gc/storage_gc_sweep.go], [Remove] of
      [lib/paths/remote.go] and its handler on other nodes; removing approved
      files, written against [SectorIndex] and [SectorHolders].
    - [EndpointGC.v]: [tasks/gc/storage_endpoint_gc.go]; removing dead URLs.
    - [DealData.v], [DealDataFacts.v]: [lib/filler/filler.go] and
      [lib/dealdata/dealdata.go]; where the pieces and fillers of a sector lie.
    - [DealIngest.v], [DealIngestFacts.v]: the tables of open sectors and the
      ways in which they start to seal, [market/storageingest/deal_ingest_seal.go],
      [deal_ingest_snap.go] and [seal_now.go], with the SQL functions they call.
    - [DealAlloc.v], [DealAllocFacts.v]: [AllocatePieceToSector] of both
      ingesters and [tasks/seal/sector_num_alloc.go].
    - [SectorData.v], [DealExamples.v]: the readers of a sector's pieces over
      these tables, all ingesters together, and a concrete miner.
    - [WdPostProof.v], [WdPostProofFacts.v]: [tasks/window/compute_do.go] and
      [faults_simple.go]; proving the partitions of a deadline, the sectors that
      are skipped, and the sectors that are declared recovered.
    - [CtlAddr.v]: [lib/multictladdr] and the preparation of PoSt messages; from
      which address a message is sent.
    - [WdPost.v], [WdPostFacts.v], [WdPostExamples.v]: [tasks/window/compute_task.go],
      [submit_task.go] and [recover_task.go]; the tables of window PoSt, its
      tasks, and the handlers that create them on head changes.
    - [Winning.v], [WinningFacts.v], [WinningExamples.v]:
      [tasks/winning/winning_task.go] and [inclusion_check_task.go]; the loop that
      creates mining tasks, mining itself and the check that a block was included.
    - [CachedProof.v]: [lib/proof/cached_proof.go]; inclusion proofs from a cached
      layer of a tree.
    - [PdpProve.v]: [GenerateProofs] of [tasks/pdp/task_prove.go],
      [tasks/pdp/task_save_cache.go] and the store of layers in
      [market/indexstore/indexstore.go]; proofs of possession.
    - [EthSender.v]: [tasks/message/sender_eth.go]; as [Sender.v], for transactions
      of Ethereum.
    - [ChainSched.v]: [lib/chainsched/chain_sched.go]; which head changes the
      handlers see.
    - [MsgWatch.v], [EthWatch.v]: [tasks/message/watch.go], [watch_eth.go],
      [eth_tx_manager.go] and [watch_eth_gc.go]; the tables of waits and the nodes
      that share them.
    - [CachedReader.v], [Prefetch.v]: [lib/cachedreader]; readers of pieces that
      are shared and counted, and the buffer between a goroutine that reads ahead and
      its client.
    - [ParkPiece.v], [ParkPieceFacts.v], [ParkWorld.v], [ParkFix.v]:
      [lib/parkpiece/upsert.go], [tasks/piece/task_park_piece.go],
      [task_cleanup_piece.go], [task_fix_park_piece_unique.go] and the statements of
      [market/mk20/mk20_upload.go] on their rows; the tables of
      pieces and their users, all tasks on them together, and the repair of duplicates.
    - [DataCid.v], [DataCidFacts.v]: [lib/proof/datacid.go]; the
      commitment of a stream, whose buffers are hashed by goroutines.
    - [PostVProof.v], [PostVProofFacts.v]:
      [lib/proof/post_vproof_types.go], [post_vproof_bin_decode.go],
      [post_vproof_verify.go] and [porep_vproof_challenges.go]; vanilla proofs of
      window PoSt, their binary form and their check.
    - [AuxFiles.v]: [lib/proof/t_aux_types.go], [t_aux_gen.go] and [p_aux_util.go]; the
      files that describe the trees of a sector.
    - [PartialFile.v], [PartialFileFacts.v]:
      [lib/partialfile/partialfile.go]; unsealed files with a record of what they hold.
    - [SnapPipeline.v], [SnapFacts.v]: [tasks/snap], with [AllocationCheck] and the
      clean-up of its rows; the pipeline of sector updates, its tasks and messages.

    ** How the code is modelled

    A table is a finite map from its key to a record of its columns, and a
    statement is a function on tables.  A transaction is atomic; whether it
    fails, and whether a statement that reports an error was applied, is an
    input.  What several goroutines or nodes do at once is a step relation
    whose steps are critical sections or single statements; a process may die
    between any two of them.  Code outside the repository (the chain node, the
    wallet, hash functions, provers, the buffer pool, the implementation of a
    task) appears as arguments, with what is relied on as named hypotheses
    ([honest], [pool_ahead], the length of a hash).  Integers wrap where the
    source's type can overflow.  Logging, metrics and error texts are dropped.

    ** What is shown

    - The engine: no task runs on two goroutines at once
      ([cluster_no_double_run]), no node takes more than it has
      ([cluster_within_capacity]), work is only taken from the unowned pool
      ([considerWork_takes_unowned]), every branch of recording a completion and
      the retry budget ([record_tx_branches], [retry_budget]), recording ends
      ([recordCompletion_ends]), restarts and reaping lose no work
      ([restart_recovers_all], [cleanup_reclaims_dead_work]), what adding a task
      leaves, also when the answer to the commit is lost ([AddTask_outcome]), an
      iteration of the poller is a sequence of the steps for which all of this
      holds ([poller_iteration_refines]) and starts only tasks that are ready, on a
      node that may take them and has room ([poller_starts_ready]), and cordoned nodes
      are idle ([cordoned_node_idle]).
    - Singletons: at most one task of the type, due or requested
      ([singleton_at_most_one], [singleton_extra_spec], [run_now_honoured]).
    - Messages: no nonce is used for two accepted messages ([no_nonce_reuse]), unless
      a task was run again after its refusal was recorded
      ([refused_message_pushed_again]); a run returns and gives its lock back ([Do_releases]), [Send] queues only
      what is affordable ([Send_spec]); a transaction of Ethereum is accepted at most
      once and with a nonce of its own, with the same exception ([eth_sends_once]).
    - Watching: head changes are delivered in rounds ([Run_rounds]); a message is
      recorded as executed only when the chain says so and a wait has one owner
      ([waits_true], [eth_waits_true]), an update takes exactly the waits it should
      ([watch_update_exact]), and the watcher of Ethereum ends up with the newest
      head ([eth_watch_current]).
    - Readers: a shared reader is never used or closed after it was closed
      ([shared_reader_safe]); what a client reads ahead of is what its source
      gave, in order ([prefetch_fifo]).
    - Sealing: the stages of a sector keep their order under pollers with
      outdated rows ([pipeline_stage_order], [seal_poll_refines]), unless a reset and a
      poller that saw the row before it meet ([stale_start_after_reset]), batches are
      bounded and homogeneous ([seal_batches_bounded],
      [GroupBatchRows_partition], [EvalBatchTimeout_spec]).
    - Slots: a slot is never shared and no wake-up is lost ([slot_exclusive],
      [no_lost_wakeup]).
    - Locks, file types, limiters, promises: exclusion and exact counters
      ([sector_lock_exclusion], [sector_lock_counters]), a leak on a failed try
      ([failed_trylock_leaks_entry]), lists and names ([Allowed_permitted],
      [SubAllowed_denied], [ParseSectorID_SectorName], [space_use_exact]),
      [limiter_group_count], [SliceIfFound_spec], [promise_history].
    - Proofs: the binary form is a bijection between proofs and accepted bytes
      ([commit1_roundtrip], [commit1_canonical]); memory trees are built and
      proved completely, and proofs are sound up to collisions
      ([memtree_proofs]); the parallel builder leaves in its
      file the bytes of the memory tree, in every interleaving, and returns
      ([treed_equiv], [treed_returns]), unless the stream ends early or a write fails
      ([short_stream_accepted], [write_error_sleeps]); a proof from a cached layer is the proof
      of the whole tree ([cached_proof_equiv]); the commitment of a stream is that of its
      bytes however it is cut and hashed ([data_cid_equiv]); an accepted vanilla proof
      opens the tree of the sector it names ([post_vanilla_sound]), an honest one is
      accepted ([honest_accepted]), and where the check panics or accepts too much
      ([odd_step_panics], [empty_proof_accepted]); the description of a sector's trees is
      written as it is read ([ensure_taux], [taux_roundtrip], [paux_roundtrip]); a data set is proved completely,
      every challenge by the proof of the leaf it draws ([possession_proved]), saving a
      layer makes a piece ready for it ([save_layer_ready]), a layer that was
      written in part is kept ([partial_layer_kept]), and deleting layers ends
      ([DeletePDPLayer_done]).
    - Partial files: whatever is stored and freed, a file is the map of the bytes it holds
      ([partial_file_refines]); a handle that forgets what it marked, and a file that
      claims to be complete ([second_mark_forgets], [create_interrupted]).
    - Parked pieces: refs, counters, rows and stored data agree whatever runs at
      the same time, and no ref is lost ([parked_pieces_safe]), apart from rows that an
      upload has written ([upload_misleads]); the repair brings the
      unique index back ([fix_restores_index]); what an upsert gives
      ([Upsert_spec]), how duplicates come about ([fallback_race]), and a piece that
      can be neither deleted nor given back ([reset_conflict]).
    - Throttle: removing entries is not observable ([throttle_refines]) and
      bursts block ([burst_blocks]).
    - Sector index: declaring a batch, deduplicated and cut into concurrent
      parts, is declaring its sectors one by one ([batch_declare_equiv],
      [subBatches_partition]); where a sector can be allocated and who holds it
      ([best_alloc_spec], [find_sector_holders], [find_sector_fetch]); attaching
      and detaching paths ([attach_info], [StorageDetach_spec]); locks in the
      database exclude each other until they expire and agree with their
      columns ([db_lock_exclusion], [db_lock_columns]), unless a locked file is declared
      on a further path ([declare_defeats_lock]), and the loop that takes
      one returns ([StorageLock_returns]).
    - Local storage: the reserved bytes of a path are those of the reservations
      that are out ([reservations_exact]) and never promise space twice
      ([reservations_fit]); what [AcquireSector] returns is well formed
      ([acquire_well_formed]); a redeclaration makes the index agree with the
      directory ([declare_sync]); removing copies keeps the primary ones
      ([remove_copies_safe]).
    - Task storage: a claim that fails, or is completed, is undone exactly, whatever
      the task has released of it before ([claim_undone]), for every index.
    - Garbage collection: which files are marked, exactly ([mark_exact]), also of pinned
      sectors ([pin_ignored]); only approved marks are removed and the sweep ends
      ([sweep_safe], [sweep_ends]), but a copy that is declared during an iteration can
      go with them ([late_copy_removed]); how long an endpoint is down, and what is
      left of its path ([liveness_streak], [endpoint_cleanup]).
    - Deals: sector numbers are given out once ([sector_numbers_unique]); the
      tables of pieces keep their shape under all ingesters
      ([ingest_tables_ok]), no piece is lost when sealing starts
      ([no_piece_lost]), a sector to upgrade can be upgraded
      ([upgrade_choice]), and what was collected covers its sector exactly
      ([ingested_sector_layout]), unless a piece is larger than the sector
      ([oversized_piece_accepted]).
    - Window PoSt: parameters are only handed out for a verified proof of exactly
      the sectors the chain wants proved, less the skipped ones
      ([window_proof_sound]); sectors are declared recovered exactly when they
      can be proved ([recovered_exact]); every partition of a deadline gets a
      task ([partitions_scheduled]), up to the first miner that does not prove yet
      ([waiting_miner_stops]), and what is submitted was computed for its
      partition and comes from the one task that serves it, between the opening and the
      close of its deadline ([wdpost_submissions], [submitted_at_close]).
    - Sector updates: rows keep the order of their stages under all tasks and
      crashes, messages are bounded and say of a sector what its row and the chain
      say ([snap_updates_safe]); the scheduling loops end ([schedules_end]); a
      sector that a batch left out is marked as submitted with it
      ([skipped_marked_submitted]), and one sector that the chain shows with
      another commitment stops the confirmation of all
      ([one_sector_blocks_all]).
    - Mining: two blocks submitted for a miner have different epochs and no
      common parent ([no_slashing]), unless a task whose base is marked as lost runs
      again ([lost_task_slashed]), and a known won block is never left out of
      the next base ([won_block_in_base]).

    ** Bounds and fuel

    Loops of the source that are not structural have a bound that is shown to
    be enough or to stand for the loop: the level loops of Merkle trees run 64
    times ([level_counts_pow], [level_sizes_pow]; from zero the loop does not
    end, [level_sizes_zero]), reading a slice is bounded by the bytes that are
    left because every element has one ([read_loop_write]), retry loops are
    driven by the list of their faults, and waiting loops are steps of a
    relation.  The parallel tree builder allocates the 64 levels of the source,
    and a run of it has a bounded number of steps ([treed_returns]).  The loops
    of the stable sort shrink an interval of the slice in
    every round, and their fuel is the length of that interval or of the slice.

    ** What is not modelled

    Task bodies (what is sealed, proved or sent), I/O of the file system and of
    HTTP, the JSON forms, the web interface, the deal protocols, generated
    bindings, and the provers in Rust and C++.  Of [lib/paths] the remote store
    (apart from [Remove]), the transfers and the stash files are left out.  Of
    proofs of possession the proving periods and the watchers of contract events
    are left out.  Of snap deals the reset of task ids by hand and the proofs made for
    others are left out, and of the market the protocols and the retrieval
    side. *)

From stdpp Require Import base gmap sets list strings.
From Stdlib Require Import ZArith Lia SpecFloat.

#[global] Open Scope Z_scope.

(** ** Fixed-width integers of Go *)

(** The value of an unsigned [w]-bit conversion. *)
Definition wrap_u (w x : Z) : Z := x mod 2 ^ w.

(** The value of a signed (two's complement) [w]-bit conversion. *)
Definition wrap_s (w x : Z) : Z := (x + 2 ^ (w - 1)) mod 2 ^ w - 2 ^ (w - 1).

Definition u64 (x : Z) : Z := wrap_u 64 x.
Definition i64 (x : Z) : Z := wrap_s 64 x.
Definition i32 (x : Z) : Z := wrap_s 32 x.
Definition u32 (x : Z) : Z := wrap_u 32 x.

#[global] Arguments u64 x : simpl never.
#[global] Arguments i64 x : simpl never.
#[global] Arguments i32 x : simpl never.
#[global] Arguments u32 x : simpl never.

Definition max_i64 : Z := 2 ^ 63 - 1.
Definition min_i64 : Z := - 2 ^ 63.
Definition in_i64 (x : Z) : Prop := min_i64 <= x <= max_i64.
Definition in_i32 (x : Z) : Prop := - 2 ^ 31 <= x < 2 ^ 31.
Definition in_u64 (x : Z) : Prop := 0 <= x < 2 ^ 64.

(** ** Time

    A [time.Time] is its distance in nanoseconds from the zero time of Go
    (year 1), so the zero value is [0]; a [time.Duration] is an [int64] number
    of nanoseconds.  [Time.Sub] saturates at the ends of the [int64] range. *)
Definition time := Z.
Definition duration := Z.
Definition clamp_i64 (x : Z) : Z := Z.max min_i64 (Z.min max_i64 x).
Definition time_sub (a b : time) : duration := clamp_i64 (a - b).
Definition time_add (t : time) (d : duration) : time := t + d.
Definition time_before (a b : time) : bool := a <? b.

Definition Millisecond : duration := 1000000.
Definition Second : duration := 1000 * Millisecond.
Definition Minute : duration := 60 * Second.

(** ** Results

    A Go pair [(value, error)] where the value is only used when the error is
    nil. *)
Inductive result (A E : Type) : Type :=
| Ok (a : A)
| Err (e : E).
Arguments Ok {A E} a.
Arguments Err {A E} e.

Definition is_ok {A E} (r : result A E) : bool :=
  match r with Ok _ => true | Err _ => false end.

Declare Scope go_scope.
Delimit Scope go_scope with go.
Notation "'let?' x := c1 'in' c2" :=
  (match c1 with Ok x => c2 | Err e => Err e end)
  (at level 10, x pattern, c1 at level 100, c2 at level 200) : go_scope.

(** ** Tactics *)

(** Splits every [if] of the goal or of a hypothesis on a boolean test. *)
Ltac case_ifs :=
  repeat match goal with
  | |- context [if ?b then _ else _] => destruct b eqn:?
  | H : context [if ?b then _ else _] |- _ => destruct b eqn:?
  end.

(** Turns boolean tests into the propositions they decide. *)
Ltac bool_props :=
  repeat match goal with
  | H : (_ && _)%bool = true |- _ => apply andb_true_iff in H as [??]
  | H : (_ && _)%bool = false |- _ => apply andb_false_iff in H
  | H : (_ || _)%bool = false |- _ => apply orb_false_iff in H as [??]
  | H : (_ || _)%bool = true |- _ => apply orb_true_iff in H
  | H : negb _ = true |- _ => apply negb_true_iff in H
  | H : negb _ = false |- _ => apply negb_false_iff in H
  | H : (_ <? _) = true |- _ => apply Z.ltb_lt in H
  | H : (_ <? _) = false |- _ => apply Z.ltb_ge in H
  | H : (_ <=? _) = true |- _ => apply Z.leb_le in H
  | H : (_ <=? _) = false |- _ => apply Z.leb_gt in H
  | H : (_ >? _) = true |- _ => rewrite Z.gtb_ltb in H
  | H : (_ >? _) = false |- _ => rewrite Z.gtb_ltb in H
  | H : (_ >=? _) = true |- _ => rewrite Z.geb_leb in H
  | H : (_ >=? _) = false |- _ => rewrite Z.geb_leb in H
  | H : (_ =? _) = true |- _ => apply Z.eqb_eq in H
  | H : (_ =? _) = false |- _ => apply Z.eqb_neq in H
  | H : bool_decide _ = true |- _ => apply bool_decide_eq_true in H
  | H : bool_decide _ = false |- _ => apply bool_decide_eq_false in H
  end.

(** ** Widths *)

Lemma wrap_u_small w x : 0 <= x < 2 ^ w -> wrap_u w x = x.
Proof. intros H. unfold wrap_u. by apply Z.mod_small. Qed.

Lemma wrap_s_small w x : 0 < w -> - 2 ^ (w - 1) <= x < 2 ^ (w - 1) -> wrap_s w x = x.
Proof.
  intros Hw H. unfold wrap_s.
  assert (2 ^ w = 2 * 2 ^ (w - 1)) as E
    by (rewrite <- Z.pow_succ_r by lia; f_equal; lia).
  rewrite Z.mod_small by lia. lia.
Qed.

Lemma u64_small x : in_u64 x -> u64 x = x.
Proof. apply wrap_u_small. Qed.

Lemma u64_range x : in_u64 (u64 x).
Proof. unfold in_u64, u64, wrap_u. apply Z.mod_pos_bound. lia. Qed.

Lemma i64_small x : in_i64 x -> i64 x = x.
Proof.
  unfold in_i64, min_i64, max_i64, i64. intros H.
  apply wrap_s_small; [lia|]. change (2 ^ (64 - 1)) with (2 ^ 63). lia.
Qed.

Lemma i32_small x : in_i32 x -> i32 x = x.
Proof. unfold in_i32, i32. intros H. apply wrap_s_small; [lia|]. exact H. Qed.

Lemma clamp_i64_small x : in_i64 x -> clamp_i64 x = x.
Proof. unfold in_i64, clamp_i64. lia. Qed.

Create Rewrite HintDb widths.
#[export] Hint Rewrite u64_small i64_small i32_small clamp_i64_small
  using (unfold in_u64, in_i64, in_i32, min_i64, max_i64 in *; lia) : widths.

(** ** Invariants of transition systems *)

Section Reach.
Context {S : Type} (step : S -> S -> Prop).

(** Rule induction on the closure of a step relation. *)
Lemma rtc_invariant (I : S -> Prop) :
  (forall s s', I s -> step s s' -> I s') ->
  forall s s', rtc step s s' -> I s -> I s'.
Proof. intros Hstep s s' Hr. induction Hr; eauto. Qed.

(** The same for a property that relates the start and the end of a run. *)
Lemma rtc_relation (R : S -> S -> Prop) :
  (forall s, R s s) -> (forall a b c, R a b -> R b c -> R a c) ->
  (forall s s', step s s' -> R s s') ->
  forall s s', rtc step s s' -> R s s'.
Proof. intros Hrefl Htrans Hstep s s' Hr. induction Hr; eauto. Qed.

End Reach.

(** ** Sums over lists *)

Definition Zsum {A} (f : A -> Z) (l : list A) : Z := foldr (fun x s => f x + s) 0 l.

#[global] Arguments Zsum {A} f l : simpl never.

Lemma Zsum_nil {A} (f : A -> Z) : Zsum f [] = 0.
Proof. reflexivity. Qed.

Lemma Zsum_cons {A} (f : A -> Z) x l : Zsum f (x :: l) = f x + Zsum f l.
Proof. reflexivity. Qed.

Lemma Zsum_app {A} (f : A -> Z) l k : Zsum f (l ++ k) = Zsum f l + Zsum f k.
Proof.
  induction l as [|a l IH]; [rewrite Zsum_nil; simpl; lia|].
  change ((a :: l) ++ k) with (a :: (l ++ k)). rewrite !Zsum_cons, IH. lia.
Qed.

Lemma Zsum_nonneg {A} (f : A -> Z) l : (forall x, x ∈ l -> 0 <= f x) -> 0 <= Zsum f l.
Proof.
  induction l as [|a l IH]; intros H; [done|]. rewrite Zsum_cons.
  assert (0 <= f a) by (apply H; left).
  assert (0 <= Zsum f l) by (apply IH; intros x Hx; apply H; by right). lia.
Qed.

Lemma Zsum_ext {A} (f g : A -> Z) l : (forall x, x ∈ l -> f x = g x) -> Zsum f l = Zsum g l.
Proof.
  induction l as [|a l IH]; intros H; [done|]. rewrite !Zsum_cons.
  rewrite (H a) by left. rewrite IH; [done|]. intros x Hx. apply H. by right.
Qed.

Lemma Zsum_elem_le {A} (f : A -> Z) l x :
  (forall y, y ∈ l -> 0 <= f y) -> x ∈ l -> f x <= Zsum f l.
Proof.
  intros Hpos Hx. induction l as [|a l IH]; [by apply not_elem_of_nil in Hx|].
  rewrite Zsum_cons.
  assert (0 <= Zsum f l) by (apply Zsum_nonneg; intros; apply Hpos; by right).
  assert (0 <= f a) by (apply Hpos; left).
  apply elem_of_cons in Hx as [->|Hx]; [lia|].
  assert (f x <= Zsum f l); [|lia]. apply IH; [|done]. intros. apply Hpos. by right.
Qed.

Lemma Zsum_fmap {A B} (f : B -> Z) (g : A -> B) l : Zsum f (g <$> l) = Zsum (fun x => f (g x)) l.
Proof. induction l as [|x l IH]; [done|]. rewrite fmap_cons, !Zsum_cons. by rewrite IH. Qed.

Lemma Zsum_perm {A} (f : A -> Z) l k : l ≡ₚ k -> Zsum f l = Zsum f k.
Proof. induction 1; rewrite ?Zsum_cons; lia. Qed.

Lemma filter_twice {A} (f g : A -> bool) l : List.filter f (List.filter g l) = List.filter (fun x => g x && f x) l.
Proof. induction l as [|x l IH]; [done|]. cbn. destruct (g x); cbn; [|done]. by rewrite IH. Qed.

(** ** Strings *)

Lemma append_empty_r (s : string) : s +:+ "" = s.
Proof.
  induction s as [|a s IH]; [done|].
  change (String a s +:+ "") with (String a (s +:+ "")). by rewrite IH.
Qed.
