(* ===== verification/FileType.v ===== *)
(** * Sector file types ([lib/storiface/filetype.go])

    A [SectorFileType] is a Go [int] used as a bit set; the model keeps it a [Z]
    with the bit operations of the source.  [SectorPaths] is the record of one
    path per file type.  The scanner of [ParseSectorID] ([fmt.Sscanf] with the
    format [s-t0%d-%d] into two [uint64]) is modelled on ASCII text. *)

From stdpp Require Import base sets list strings pretty.
From Stdlib Require Import ZArith Lia Ascii.
From S2P Require Import Prelude.

Definition SectorFileType := Z.

Definition FTUnsealed : SectorFileType := Z.shiftl 1 0.
Definition FTSealed : SectorFileType := Z.shiftl 1 1.
Definition FTCache : SectorFileType := Z.shiftl 1 2.
Definition FTUpdate : SectorFileType := Z.shiftl 1 3.
Definition FTUpdateCache : SectorFileType := Z.shiftl 1 4.
Definition FTPiece : SectorFileType := Z.shiftl 1 5.
Definition FTKey : SectorFileType := Z.shiftl 1 6.
Definition FileTypes : Z := 7.

Definition PathTypes : list SectorFileType :=
  [FTUnsealed; FTSealed; FTCache; FTUpdate; FTUpdateCache; FTPiece; FTKey].

Definition FTNone : SectorFileType := 0.

Definition FTAll : SectorFileType := foldl (fun out pathType => Z.lor out pathType) 0 PathTypes.

Definition FSOverheadDen : Z := 10.

(** The overhead maps: a missing key is [None] (the [ok] of the Go lookup). *)
Definition FSOverheadSeal (t : SectorFileType) : option Z :=
  if t =? FTUnsealed then Some FSOverheadDen
  else if t =? FTSealed then Some FSOverheadDen
  else if t =? FTUpdate then Some FSOverheadDen
  else if t =? FTUpdateCache then Some (FSOverheadDen * 2 + 1)
  else if t =? FTCache then Some 141
  else if t =? FTPiece then Some FSOverheadDen
  else if t =? FTKey then Some (FSOverheadDen * 11 + 1)
  else None.

Definition FsOverheadFinalized (t : SectorFileType) : option Z :=
  if t =? FTUnsealed then Some FSOverheadDen
  else if t =? FTSealed then Some FSOverheadDen
  else if t =? FTUpdate then Some FSOverheadDen
  else if t =? FTUpdateCache then Some 1
  else if t =? FTCache then Some 1
  else if t =? FTPiece then Some FSOverheadDen
  else if t =? FTKey then Some FSOverheadDen
  else None.

Inductive ft_error := UnknownType (s : string) | NoSealOverhead (t : SectorFileType)
  | NoFinalizedOverhead (t : SectorFileType) | ScanError.

Definition TypeFromString (s : string) : result SectorFileType ft_error :=
  if bool_decide (s = "unsealed"%string) then Ok FTUnsealed
  else if bool_decide (s = "sealed"%string) then Ok FTSealed
  else if bool_decide (s = "cache"%string) then Ok FTCache
  else if bool_decide (s = "update"%string) then Ok FTUpdate
  else if bool_decide (s = "update-cache"%string) then Ok FTUpdateCache
  else if bool_decide (s = "piece"%string) then Ok FTPiece
  else if bool_decide (s = "key"%string) then Ok FTKey
  else Err (UnknownType s).

(** [String] on a single known type; [None] is the default case of the switch. *)
Definition known_name (t : SectorFileType) : option string :=
  if t =? FTUnsealed then Some "unsealed"%string
  else if t =? FTSealed then Some "sealed"%string
  else if t =? FTCache then Some "cache"%string
  else if t =? FTUpdate then Some "update"%string
  else if t =? FTUpdateCache then Some "update-cache"%string
  else if t =? FTPiece then Some "piece"%string
  else if t =? FTKey then Some "key"%string
  else None.

(** [AllSet] lists the set bits in the order of [PathTypes]. *)
Definition AllSet (t : SectorFileType) : list SectorFileType :=
  List.filter (fun fileType => negb (Z.land fileType t =? 0)) PathTypes.

(** [Strings] calls [String] on members of [PathTypes] only, which all have a
    known name, so the default case of [String] is not reached from it. *)
Definition Strings (t : SectorFileType) : list string :=
  omap known_name (AllSet t).

(** [fmt.Sprintf] of a [[]string] with the verb [v]: the elements between
    brackets, separated by one space. *)
Fixpoint join_space (l : list string) : string :=
  match l with
  | [] => EmptyString
  | [x] => x
  | x :: l' => (x +:+ " " +:+ join_space l')%string
  end.

Definition String_ (t : SectorFileType) : string :=
  match known_name t with
  | Some s => s
  | None =>
      ("<unknown " +:+ pretty t +:+ " [" +:+
       join_space (Strings (Z.land t (Z.shiftl 1 FileTypes - 1))) +:+ "]>")%string
  end.

Definition Has (t singleType : SectorFileType) : bool := Z.land t singleType =? singleType.

(** The accumulation loop shared by [SealSpaceUse] and [StoreSpaceUse], over
    the remaining path types, in [uint64]. *)
Fixpoint space_loop (overhead : SectorFileType -> option Z) (noinfo : SectorFileType -> ft_error)
    (t : SectorFileType) (ssize : Z) (pts : list SectorFileType) (need : Z) : result Z ft_error :=
  match pts with
  | [] => Ok need
  | pathType :: pts' =>
      if negb (Has t pathType) then space_loop overhead noinfo t ssize pts' need
      else match overhead pathType with
           | None => Err (noinfo pathType)
           | Some oh =>
               space_loop overhead noinfo t ssize pts'
                 (u64 (need + u64 (u64 oh * u64 ssize) / FSOverheadDen))
           end
  end.

Definition SealSpaceUse (t : SectorFileType) (ssize : Z) : result Z ft_error :=
  space_loop FSOverheadSeal NoSealOverhead t ssize PathTypes 0.

Definition StoreSpaceUse (t : SectorFileType) (ssize : Z) : result Z ft_error :=
  space_loop FsOverheadFinalized NoFinalizedOverhead t ssize PathTypes 0.

(** One iteration of each loop of [SubAllowed]; a name that does not parse is
    skipped. *)
Definition allow_step (denyMask : SectorFileType) (allowType : string) : SectorFileType :=
  match TypeFromString allowType with
  | Ok pt => Z.land denyMask (Z.lnot pt)
  | Err _ => denyMask
  end.

Definition deny_step (denyMask : SectorFileType) (denyType : string) : SectorFileType :=
  match TypeFromString denyType with
  | Ok pt => Z.lor denyMask pt
  | Err _ => denyMask
  end.

Definition SubAllowed (t : SectorFileType) (allowTypes denyTypes : list string) : SectorFileType :=
  let denyMask := 0 in
  let denyMask :=
    if (0 <? length allowTypes)%nat
    then foldl allow_step (Z.lnot denyMask) allowTypes
    else denyMask in
  let denyMask := foldl deny_step denyMask denyTypes in
  Z.land t denyMask.

Definition Unset (t toUnset : SectorFileType) : SectorFileType := Z.ldiff t toUnset.

Definition AnyAllowed (t : SectorFileType) (allowTypes denyTypes : list string) : bool :=
  negb (SubAllowed t allowTypes denyTypes =? t).

Definition Allowed (t : SectorFileType) (allowTypes denyTypes : list string) : bool :=
  SubAllowed t allowTypes denyTypes =? 0.

(** The array [[FileTypes]bool] of [All]. *)
Definition All (t : SectorFileType) : list bool :=
  map (fun i => Z.land t (Z.shiftl 1 (Z.of_nat i)) >? 0) (seq 0 (Z.to_nat FileTypes)).

#[global] Arguments All t : simpl never.

Definition IsNone (t : SectorFileType) : bool := t =? 0.

(** ** Sector identifiers and paths *)

Record SectorID := mkSectorID { Miner : Z; Number : Z }.

Record SectorPaths := mkSectorPaths {
  ID : SectorID;
  Unsealed : string;
  Sealed : string;
  Cache : string;
  Update : string;
  UpdateCache : string;
  Piece : string;
  Key : string
}.

Definition zeroSectorID : SectorID := mkSectorID 0 0.
Definition zeroSectorPaths : SectorPaths :=
  mkSectorPaths zeroSectorID "" "" "" "" "" "" "".

(** [PathByType] panics on anything that is not one of the seven types. *)
Definition PathByType (sps : SectorPaths) (fileType : SectorFileType) : option string :=
  if fileType =? FTUnsealed then Some (Unsealed sps)
  else if fileType =? FTSealed then Some (Sealed sps)
  else if fileType =? FTCache then Some (Cache sps)
  else if fileType =? FTUpdate then Some (Update sps)
  else if fileType =? FTUpdateCache then Some (UpdateCache sps)
  else if fileType =? FTPiece then Some (Piece sps)
  else if fileType =? FTKey then Some (Key sps)
  else None.

Definition SetPathByType (sps : SectorPaths) (fileType : SectorFileType) (p : string) : SectorPaths :=
  let '(mkSectorPaths i un se ca up uc pi ke) := sps in
  if fileType =? FTUnsealed then mkSectorPaths i p se ca up uc pi ke
  else if fileType =? FTSealed then mkSectorPaths i un p ca up uc pi ke
  else if fileType =? FTCache then mkSectorPaths i un se p up uc pi ke
  else if fileType =? FTUpdate then mkSectorPaths i un se ca p uc pi ke
  else if fileType =? FTUpdateCache then mkSectorPaths i un se ca up p pi ke
  else if fileType =? FTPiece then mkSectorPaths i un se ca up uc p ke
  else if fileType =? FTKey then mkSectorPaths i un se ca up uc pi p
  else sps.

Fixpoint HasAllSet_loop (sp : SectorPaths) (l : list SectorFileType) : option bool :=
  match l with
  | [] => Some true
  | fileType :: l' =>
      match PathByType sp fileType with
      | None => None
      | Some p => if bool_decide (p = ""%string) then Some false else HasAllSet_loop sp l'
      end
  end.

Definition HasAllSet (sp : SectorPaths) (ft : SectorFileType) : option bool :=
  HasAllSet_loop sp (AllSet ft).

Fixpoint Subset_loop (sp out : SectorPaths) (l : list SectorFileType) : option SectorPaths :=
  match l with
  | [] => Some out
  | fileType :: l' =>
      match PathByType sp fileType with
      | None => None
      | Some p => Subset_loop sp (SetPathByType out fileType p) l'
      end
  end.

Definition set_ID (sp : SectorPaths) (i : SectorID) : SectorPaths :=
  let '(mkSectorPaths _ un se ca up uc pi ke) := sp in mkSectorPaths i un se ca up uc pi ke.

Definition Subset (sp : SectorPaths) (filter : SectorFileType) : option SectorPaths :=
  match Subset_loop sp zeroSectorPaths (AllSet filter) with
  | None => None
  | Some out => Some (set_ID out (ID sp))
  end.

Record PathsWithIDs := mkPathsWithIDs { Paths : SectorPaths; IDs : SectorPaths }.

Definition PathsWithIDs_HasAllSet (p : PathsWithIDs) (ft : SectorFileType) : option bool :=
  match HasAllSet (Paths p) ft with
  | None => None
  | Some false => Some false
  | Some true => HasAllSet (IDs p) ft
  end.

(** ** [SectorName] and [ParseSectorID] *)

Definition SectorName (sid : SectorID) : string :=
  ("s-t0" +:+ pretty (Miner sid) +:+ "-" +:+ pretty (Number sid))%string.

(** The input of the scanner, character by character. *)
Definition chars := list ascii.

Definition is_space (c : ascii) : bool :=
  let n := nat_of_ascii c in (bool_decide (9 <= n <= 13) || bool_decide (n = 32))%nat.

Definition digit_of (c : ascii) : option Z :=
  let n := Z.of_nat (nat_of_ascii c) in
  if (48 <=? n) && (n <=? 57) then Some (n - 48) else None.

(** A literal of the format: its characters must appear as they are. *)
Fixpoint match_literal (lit inp : chars) : option chars :=
  match lit, inp with
  | [], _ => Some inp
  | c :: lit', d :: inp' => if bool_decide (c = d) then match_literal lit' inp' else None
  | _ :: _, [] => None
  end.

(** [ss.SkipSpace] with newlines significant: a newline is an error, [None]. *)
Fixpoint skip_space (inp : chars) : option chars :=
  match inp with
  | [] => Some []
  | c :: inp' =>
      if bool_decide (c = "010"%char) then None
      else if is_space c then skip_space inp' else Some inp
  end.

(** The longest prefix of decimal digits, with its value, and what follows. *)
Fixpoint scan_digits (acc : Z) (inp : chars) : Z * chars :=
  match inp with
  | [] => (acc, [])
  | c :: inp' =>
      match digit_of c with
      | Some d => scan_digits (10 * acc + d) inp'
      | None => (acc, inp)
      end
  end.

(** The verb [%d] into a [uint64]: blanks, at least one digit, and a value
    that fits 64 bits. *)
Definition scan_uint (inp : chars) : option (Z * chars) :=
  match skip_space inp with
  | None => None
  | Some inp =>
      match inp with
      | [] => None
      | c :: _ =>
          match digit_of c with
          | None => None
          | Some _ =>
              let '(v, rest) := scan_digits 0 inp in
              if v <? 2 ^ 64 then Some (v, rest) else None
          end
      end
  end.

Fixpoint to_chars (s : string) : chars :=
  match s with EmptyString => [] | String c s' => c :: to_chars s' end.

(** [fmt.Sscanf] stops at the end of the format: trailing input is ignored. *)
Definition ParseSectorID (baseName : string) : result SectorID ft_error :=
  match match_literal (to_chars "s-t0") (to_chars baseName) with
  | None => Err ScanError
  | Some inp =>
      match scan_uint inp with
      | None => Err ScanError
      | Some (mid, inp) =>
          match match_literal (to_chars "-") inp with
          | None => Err ScanError
          | Some inp =>
              match scan_uint inp with
              | None => Err ScanError
              | Some (n, _) => Ok (mkSectorID mid n)
              end
          end
      end
  end.

(** ** Bits *)

Lemma land_bit_pos t i : 0 <= i -> (Z.land t (Z.shiftl 1 i) >? 0) = Z.testbit t i.
Proof.
  intros Hi. rewrite Z.shiftl_1_l.
  assert (Z.land t (2 ^ i) = if Z.testbit t i then 2 ^ i else 0) as ->.
  { apply Z.bits_inj'. intros k Hk. rewrite Z.land_spec, Z.pow2_bits_eqb by lia.
    destruct (Z.eqb_spec i k) as [->|Hne].
    - destruct (Z.testbit t k); [by rewrite Z.pow2_bits_true by lia | by rewrite Z.bits_0].
    - rewrite andb_false_r. destruct (Z.testbit t i); [|by rewrite Z.bits_0].
      by rewrite Z.pow2_bits_false by lia. }
  pose proof (Z.pow_pos_nonneg 2 i ltac:(lia) Hi).
  destruct (Z.testbit t i); rewrite Z.gtb_ltb; [apply Z.ltb_lt|apply Z.ltb_ge]; lia.
Qed.

Lemma length_All t : length (All t) = 7%nat.
Proof. reflexivity. Qed.

(** Entry [i] of [All] is bit [i]. *)
Lemma All_lookup t i : (i < 7)%nat -> All t !! i = Some (Z.testbit t (Z.of_nat i)).
Proof.
  intros Hi. unfold All. rewrite list_lookup_fmap.
  rewrite lookup_seq_lt by exact Hi. simpl. by rewrite land_bit_pos by lia.
Qed.

(** A type of [PathTypes] is the [i]-th single bit. *)
Lemma PathTypes_lookup ft : ft ∈ PathTypes -> exists i, 0 <= i < 7 /\ ft = Z.shiftl 1 i.
Proof.
  unfold PathTypes. rewrite !elem_of_cons, elem_of_nil.
  intros [->|[->|[->|[->|[->|[->|[->|[]]]]]]]];
    [exists 0|exists 1|exists 2|exists 3|exists 4|exists 5|exists 6]; split; (lia || done).
Qed.

Lemma single_in_PathTypes i : 0 <= i < 7 -> Z.shiftl 1 i ∈ PathTypes.
Proof.
  intros Hi. apply list_elem_of_lookup. exists (Z.to_nat i).
  destruct (Z.to_nat i) as [|[|[|[|[|[|[|]]]]]]] eqn:E; try lia;
    (replace i with (Z.of_nat (Z.to_nat i)) by lia); rewrite E; reflexivity.
Qed.

Lemma land_single_zero t i :
  0 <= i -> (Z.land (Z.shiftl 1 i) t =? 0) = negb (Z.testbit t i).
Proof.
  intros Hi. rewrite <- (land_bit_pos t i) by lia. rewrite (Z.land_comm t).
  assert (0 <= Z.land (Z.shiftl 1 i) t).
  { apply Z.land_nonneg. left. rewrite Z.shiftl_1_l. apply Z.pow_nonneg. lia. }
  rewrite Z.gtb_ltb. destruct (Z.eqb_spec (Z.land (Z.shiftl 1 i) t) 0);
    destruct (Z.ltb_spec 0 (Z.land (Z.shiftl 1 i) t)); simpl; lia || done.
Qed.

Lemma Has_single t i : 0 <= i -> Has t (Z.shiftl 1 i) = Z.testbit t i.
Proof.
  intros Hi. unfold Has. rewrite Z.shiftl_1_l.
  destruct (Z.testbit t i) eqn:E.
  - apply Z.eqb_eq, Z.bits_inj'. intros k Hk. rewrite Z.land_spec, Z.pow2_bits_eqb by lia.
    destruct (Z.eqb_spec i k) as [->|]; [by rewrite E | by rewrite andb_false_r].
  - apply Z.eqb_neq. intros H. apply (f_equal (fun z => Z.testbit z i)) in H.
    rewrite Z.land_spec, E, Z.pow2_bits_true in H by lia. done.
Qed.

Lemma elem_of_AllSet t ft : ft ∈ AllSet t <-> ft ∈ PathTypes /\ Has t ft = true.
Proof.
  unfold AllSet. rewrite list_elem_of_In, filter_In, <- list_elem_of_In.
  split; intros [Hin H]; (split; [done|]);
    destruct (PathTypes_lookup ft Hin) as (i & Hi & ->);
    rewrite Has_single, land_single_zero, negb_involutive in * by lia; done.
Qed.

(** ** Names *)

Lemma TypeFromString_bit s pt :
  TypeFromString s = Ok pt <-> pt ∈ PathTypes /\ known_name pt = Some s.
Proof.
  split.
  - unfold TypeFromString. intros H. repeat (case_bool_decide; [injection H as <-; subst;
      split; [unfold PathTypes; set_solver|reflexivity]|]). done.
  - intros [Hin Hn]. unfold PathTypes in Hin. rewrite !elem_of_cons, elem_of_nil in Hin.
    destruct Hin as [->|[->|[->|[->|[->|[->|[->|[]]]]]]]]; injection Hn as <-; reflexivity.
Qed.

(** The bit of [denyMask] after the loops of [SubAllowed]: bit [i] of a mask is
    cleared when [i] is the bit of an allowed name and set when it is the bit
    of a denied one. *)
Definition names_bit (l : list string) (i : Z) : bool :=
  existsb (fun s => match TypeFromString s with Ok pt => Z.testbit pt i | Err _ => false end) l.

Lemma allow_loop_bit l mask i : 0 <= i ->
  Z.testbit (foldl allow_step mask l) i = (Z.testbit mask i && negb (names_bit l i))%bool.
Proof.
  intros Hi. revert mask. induction l as [|s l IH]; intros mask; simpl.
  - by rewrite andb_true_r.
  - rewrite IH. unfold allow_step. destruct (TypeFromString s) as [pt|]; simpl; [|done].
    rewrite Z.land_spec, Z.lnot_spec by done.
    by destruct (Z.testbit mask i), (Z.testbit pt i), (names_bit l i).
Qed.

Lemma deny_loop_bit l mask i :
  Z.testbit (foldl deny_step mask l) i = (Z.testbit mask i || names_bit l i)%bool.
Proof.
  revert mask. induction l as [|s l IH]; intros mask; simpl.
  - by rewrite orb_false_r.
  - rewrite IH. unfold deny_step. destruct (TypeFromString s) as [pt|]; simpl; [|done].
    rewrite Z.lor_spec. by rewrite orb_assoc.
Qed.

(** Bit [i] of [SubAllowed]: set in [t], and either excluded by a non-empty
    allow list or named by the deny list. *)
Lemma SubAllowed_bit t allow deny i : 0 <= i ->
  Z.testbit (SubAllowed t allow deny) i =
  (Z.testbit t i &&
   (((0 <? length allow)%nat && negb (names_bit allow i)) || names_bit deny i))%bool.
Proof.
  intros Hi. unfold SubAllowed. rewrite Z.land_spec, deny_loop_bit. f_equal. f_equal.
  destruct (0 <? length allow)%nat; simpl.
  - rewrite allow_loop_bit, Z.lnot_spec, Z.bits_0 by done. done.
  - apply Z.bits_0.
Qed.

Lemma names_bit_spec l i ft : 0 <= i < 7 -> ft = Z.shiftl 1 i ->
  names_bit l i = true <-> exists s, s ∈ l /\ known_name ft = Some s.
Proof.
  intros Hi ->. unfold names_bit. rewrite existsb_exists.
  pose proof (single_in_PathTypes i Hi) as Hin.
  split.
  - intros (s & Hs & Hb). exists s. rewrite list_elem_of_In. split; [done|].
    destruct (TypeFromString s) as [pt|] eqn:E; [|done].
    apply TypeFromString_bit in E as [Hpt Hname].
    destruct (PathTypes_lookup pt Hpt) as (j & Hj & ->).
    rewrite Z.shiftl_1_l, Z.pow2_bits_eqb in Hb by lia. apply Z.eqb_eq in Hb as <-. done.
  - intros (s & Hs & Hname). exists s. rewrite <- list_elem_of_In. split; [done|].
    rewrite (proj2 (TypeFromString_bit s (Z.shiftl 1 i)) (conj Hin Hname)).
    rewrite Z.shiftl_1_l. apply Z.pow2_bits_true. lia.
Qed.

(** ** The scanner reads back what [SectorName] prints *)

Lemma to_chars_app s1 s2 : to_chars (s1 +:+ s2) = to_chars s1 ++ to_chars s2.
Proof. induction s1; simpl; [done|]. by rewrite IHs1. Qed.

Lemma digit_of_char (x : N) : (x < 10)%N -> digit_of (pretty_N_char x) = Some (Z.of_N x).
Proof.
  intros H. assert (x = 0 \/ x = 1 \/ x = 2 \/ x = 3 \/ x = 4 \/ x = 5 \/ x = 6 \/ x = 7
    \/ x = 8 \/ x = 9)%N as [->|[->|[->|[->|[->|[->|[->|[->|[->| ->]]]]]]]]] by lia;
    reflexivity.
Qed.

(** Scanning the printed digits of [x] accumulates [x]. *)
Lemma scan_digits_go (x : N) s :
  scan_digits 0 (to_chars (pretty_N_go x s)) = scan_digits (Z.of_N x) (to_chars s).
Proof.
  revert s. induction (N.lt_wf_0 x) as [x _ IH]; intros s.
  destruct (decide (0 < x)%N) as [Hx|Hx].
  - rewrite pretty_N_go_step by done. rewrite IH by (apply N.div_lt; lia). simpl.
    rewrite digit_of_char by (apply N.mod_lt; lia). f_equal.
    pose proof (N.div_mod x 10 ltac:(lia)). lia.
  - assert (x = 0)%N as -> by lia. by rewrite pretty_N_go_0.
Qed.

Lemma pretty_N_go_app (x : N) s1 s2 : pretty_N_go x (s1 +:+ s2) = pretty_N_go x s1 +:+ s2.
Proof.
  revert s1. induction (N.lt_wf_0 x) as [x _ IH]; intros s1.
  destruct (decide (0 < x)%N) as [Hx|Hx].
  - rewrite (pretty_N_go_step x (s1 +:+ s2)), (pretty_N_go_step x s1) by done.
    rewrite <- (IH (x / 10)%N) by (apply N.div_lt; lia). done.
  - assert (x = 0)%N as -> by lia. by rewrite !pretty_N_go_0.
Qed.

(** What the verb [%d] sees first in a printed number: a digit. *)
Lemma pretty_go_head (x : N) s : (0 < x)%N ->
  exists c s' d, pretty_N_go x s = String c s' /\ digit_of c = Some d.
Proof.
  revert s. induction (N.lt_wf_0 x) as [x _ IH]; intros s Hx.
  rewrite pretty_N_go_step by done. destruct (decide (0 < x / 10)%N) as [H|H].
  - apply IH; [apply N.div_lt; lia|done].
  - assert (x / 10 = 0)%N as -> by (by apply N.le_0_r, N.nlt_ge). rewrite pretty_N_go_0.
    do 3 eexists. split; [done|]. apply digit_of_char, N.mod_lt. lia.
Qed.

Lemma skip_space_digit c inp d : digit_of c = Some d -> skip_space (c :: inp) = Some (c :: inp).
Proof.
  intros H. destruct c as [[] [] [] [] [] [] [] []]; (reflexivity || (vm_compute in H; done)).
Qed.

(** [%d] reads a printed [uint64] back and stops at the first non-digit. *)
Lemma scan_uint_pretty x rest :
  in_u64 x -> (forall c rest', to_chars rest = c :: rest' -> digit_of c = None) ->
  scan_uint (to_chars (pretty x +:+ rest)) = Some (x, to_chars rest).
Proof.
  intros Hx Hrest. destruct x as [|p|p]; [| |unfold in_u64 in Hx; lia].
  - change (pretty 0 +:+ rest) with ("0" +:+ rest). unfold scan_uint. cbn [to_chars String.append].
    change (to_chars ("0" +:+ rest)) with ("0"%char :: to_chars rest).
    rewrite (skip_space_digit _ _ 0) by done. simpl. destruct (to_chars rest) as [|a l] eqn:E; [done|].
    simpl. by rewrite (Hrest a l).
  - change (pretty (Z.pos p)) with (pretty_N_go (N.pos p) "").
    rewrite <- (pretty_N_go_app (N.pos p) "" rest). change ("" +:+ rest) with rest.
    destruct (pretty_go_head (N.pos p) rest) as (c & s' & d & Hs & Hd); [lia|].
    pose proof (scan_digits_go (N.pos p) rest) as Hscan. rewrite Hs in *.
    unfold scan_uint. cbn [to_chars] in *. rewrite (skip_space_digit _ _ d), Hd, Hscan by done.
    cbn [Z.of_N]. assert (scan_digits (Z.pos p) (to_chars rest) = (Z.pos p, to_chars rest)) as ->.
    { destruct (to_chars rest) as [|a l] eqn:E; [done|]. simpl. by rewrite (Hrest a l). }
    unfold in_u64 in Hx. by rewrite (proj2 (Z.ltb_lt (Z.pos p) (2 ^ 64))) by lia.
Qed.

(** the directory name of a sector parses back to the sector: for every
    miner id and sector number that fit a [uint64], [ParseSectorID] applied to
    [SectorName] returns the same identifier. *)
Theorem ParseSectorID_SectorName (sid : SectorID) :
  in_u64 (Miner sid) -> in_u64 (Number sid) -> ParseSectorID (SectorName sid) = Ok sid.
Proof.
  intros Hm Hn. destruct sid as [m n]; simpl in *. unfold ParseSectorID, SectorName.
  cbn [Miner Number].
  change (to_chars ("s-t0" +:+ pretty m +:+ "-" +:+ pretty n))
    with ("s"%char :: "-"%char :: "t"%char :: "0"%char :: to_chars (pretty m +:+ "-" +:+ pretty n)).
  cbn [match_literal to_chars]. rewrite !bool_decide_eq_true_2 by done. cbn [match_literal].
  rewrite scan_uint_pretty; [|done|].
  2: { intros c r H. by injection H as <- _. }
  change (to_chars ("-" +:+ pretty n)) with ("-"%char :: to_chars (pretty n)).
  cbn [match_literal]. rewrite bool_decide_eq_true_2 by done.
  rewrite <- (append_empty_r (pretty n)). by rewrite scan_uint_pretty.
Qed.

Lemma ParseSectorID_SectorName_witness :
  ParseSectorID (SectorName (mkSectorID 1000 18446744073709551615))
  = Ok (mkSectorID 1000 18446744073709551615).
Proof. apply ParseSectorID_SectorName; unfold in_u64; simpl; lia. Defined.

(** A type is permitted by the lists of a storage path when the allow list is
    empty or names it, and the deny list does not. *)
Definition permitted (allow deny : list string) (ft : SectorFileType) : Prop :=
  exists name, known_name ft = Some name /\ (allow = [] \/ name ∈ allow) /\ name ∉ deny.

Lemma known_name_PathTypes ft : ft ∈ PathTypes -> exists name, known_name ft = Some name.
Proof.
  unfold PathTypes. rewrite !elem_of_cons, elem_of_nil.
  intros [->|[->|[->|[->|[->|[->|[->|[]]]]]]]]; eexists; reflexivity.
Qed.

(** The bit of a known type in the two name lists, as membership of its name. *)
Lemma denied_bit allow deny i : 0 <= i < 7 ->
  (((0 <? length allow)%nat && negb (names_bit allow i)) || names_bit deny i)%bool = true <->
  ~ permitted allow deny (Z.shiftl 1 i).
Proof.
  intros Hi. destruct (known_name_PathTypes _ (single_in_PathTypes i Hi)) as [name Hname].
  assert (forall l, names_bit l i = true <-> name ∈ l) as Hbit.
  { intros l. rewrite (names_bit_spec l i _ Hi eq_refl). split; [|eauto].
    intros (s & Hs & E). congruence. }
  assert (permitted allow deny (Z.shiftl 1 i) <-> (allow = [] \/ name ∈ allow) /\ name ∉ deny) as ->.
  { unfold permitted. split; [|by eauto]. intros (s & E & H). by replace name with s by congruence. }
  rewrite orb_true_iff, andb_true_iff, negb_true_iff, <- not_true_iff_false, !Hbit.
  assert ((0 <? length allow)%nat = true <-> allow <> []) as ->.
  { destruct allow; simpl; split; done. }
  destruct (decide (allow = [])), (decide (name ∈ allow)), (decide (name ∈ deny)); tauto.
Qed.

(** [SubAllowed] returns exactly the file types of its receiver that the
    allow and deny lists of a path do NOT permit (the complement of what its
    comment says it returns). *)
Theorem SubAllowed_denied (t : SectorFileType) (allow deny : list string) (ft : SectorFileType) :
  ft ∈ AllSet (SubAllowed t allow deny) <-> ft ∈ AllSet t /\ ~ permitted allow deny ft.
Proof.
  rewrite !elem_of_AllSet. split.
  - intros [Hin H]. destruct (PathTypes_lookup ft Hin) as (i & Hi & ->).
    rewrite Has_single in * by lia. rewrite SubAllowed_bit in H by lia.
    apply andb_true_iff in H as [H1 H2]. by apply denied_bit in H2.
  - intros [[Hin H] Hp]. destruct (PathTypes_lookup ft Hin) as (i & Hi & ->).
    rewrite Has_single in * by lia. rewrite SubAllowed_bit by lia.
    by rewrite H, (proj2 (denied_bit allow deny i Hi) Hp).
Qed.

(** A set of known types is empty exactly when it lists nothing. *)
Lemma AllSet_nil t : 0 <= t < 128 -> AllSet t = [] -> t = 0.
Proof.
  intros Ht H. apply Z.bits_inj'. intros k Hk. rewrite Z.bits_0.
  destruct (decide (k < 7)) as [Hlt|Hge].
  - apply not_true_iff_false. intros E.
    assert (Z.shiftl 1 k ∈ AllSet t) as Hin; [|rewrite H in Hin; by apply not_elem_of_nil in Hin].
    apply elem_of_AllSet. rewrite Has_single by lia. split; [|done]. apply single_in_PathTypes. lia.
  - destruct (decide (t = 0)) as [->|]; [apply Z.bits_0|]. apply Z.bits_above_log2; [lia|].
    apply Z.log2_lt_pow2; [lia|]. assert (2 ^ 7 <= 2 ^ k) by (apply Z.pow_le_mono_r; lia). lia.
Qed.

Lemma SubAllowed_range t allow deny : 0 <= t < 128 -> 0 <= SubAllowed t allow deny < 128.
Proof.
  intros Ht. unfold SubAllowed. set (m := foldl deny_step _ _).
  replace t with (Z.land t (Z.ones 7)) by (rewrite Z.land_ones, Z.mod_small by lia; done).
  rewrite <- Z.land_assoc, (Z.land_comm (Z.ones 7)), Z.land_assoc, Z.land_ones by lia.
  change 128 with (2 ^ 7). apply Z.mod_pos_bound. lia.
Qed.

#[export] Instance permitted_dec allow deny ft : Decision (permitted allow deny ft).
Proof.
  unfold permitted. destruct (known_name ft) as [name|] eqn:E.
  - destruct (decide ((allow = [] \/ name ∈ allow) /\ name ∉ deny)) as [H|H]; [left; eauto|right].
    intros (s & Es & Hs). by replace s with name in Hs by congruence.
  - right. intros (s & Es & _). done.
Defined.

(** [Allowed] holds of a set of known file types exactly when every type in
    it is permitted: the allow list is empty or names it, and the deny list
    does not; names that are no file type are ignored on both lists, but an
    allow list of such names only is not an empty list. *)
Theorem Allowed_permitted (t : SectorFileType) (allow deny : list string) :
  0 <= t < 128 ->
  Allowed t allow deny = true <-> forall ft, ft ∈ AllSet t -> permitted allow deny ft.
Proof.
  intros Ht. unfold Allowed. rewrite Z.eqb_eq. split.
  - intros H ft Hft. destruct (decide (permitted allow deny ft)) as [|Hn]; [done|]. exfalso.
    assert (ft ∈ AllSet (SubAllowed t allow deny)) as Hin by (by apply SubAllowed_denied).
    rewrite H in Hin. by apply not_elem_of_nil in Hin.
  - intros H. apply AllSet_nil; [by apply SubAllowed_range|].
    destruct (AllSet (SubAllowed t allow deny)) as [|ft l] eqn:E; [done|]. exfalso.
    assert (ft ∈ AllSet (SubAllowed t allow deny)) as Hin by (rewrite E; left).
    apply SubAllowed_denied in Hin as [Hin Hn]. by apply Hn, H.
Qed.

Lemma Allowed_permitted_witness :
  Allowed (Z.lor FTSealed FTCache) ["sealed"; "cache"; "bogus"]%string ["unsealed"]%string = true
  /\ permitted ["sealed"; "cache"; "bogus"]%string ["unsealed"]%string FTCache.
Proof.
  split; [reflexivity|].
  apply (proj1 (Allowed_permitted (Z.lor FTSealed FTCache) ["sealed"; "cache"; "bogus"]%string
    ["unsealed"]%string ltac:(vm_compute; split; congruence))); [reflexivity|].
  apply (bool_decide_unpack _). vm_compute. exact I.
Defined.

(** ** Space accounting *)

Lemma space_loop_exact overhead noinfo t ssize pts need :
  0 <= ssize -> 0 <= need ->
  (forall pt, pt ∈ pts -> exists oh, overhead pt = Some oh /\ 0 <= oh <= 141) ->
  need + Z.of_nat (length pts) * (141 * ssize) < 2 ^ 64 ->
  space_loop overhead noinfo t ssize pts need =
  Ok (need + Zsum (fun pt => if Has t pt then default 0 (overhead pt) * ssize / FSOverheadDen else 0) pts).
Proof.
  intros Hs. revert need. induction pts as [|pt pts IH]; intros need Hneed Hoh Hb.
  - cbn [space_loop]. by rewrite Zsum_nil, Z.add_0_r.
  - cbn [space_loop length] in *. rewrite Zsum_cons.
    assert (forall pt', pt' ∈ pts -> exists oh, overhead pt' = Some oh /\ 0 <= oh <= 141) as Htl
      by (intros; apply Hoh; by right).
    destruct (Has t pt); cbn [negb]; [|rewrite IH by (done || lia); by rewrite Z.add_0_l].
    destruct (Hoh pt ltac:(left)) as (oh & -> & Hr). cbn [default].
    assert (0 <= oh * ssize / FSOverheadDen <= 141 * ssize).
    { unfold FSOverheadDen. split; [apply Z.div_pos; nia|]. apply Z.div_le_upper_bound; nia. }
    rewrite (u64_small oh), (u64_small ssize), (u64_small (oh * ssize)) by (unfold in_u64; nia).
    rewrite (u64_small (need + _)) by (unfold in_u64; nia).
    rewrite IH by (done || nia). f_equal. unfold id. lia.
Qed.

Lemma overhead_known pt : pt ∈ PathTypes ->
  (exists oh, FSOverheadSeal pt = Some oh /\ 0 <= oh <= 141) /\
  (exists oh, FsOverheadFinalized pt = Some oh /\ 0 <= oh <= 141).
Proof.
  unfold PathTypes. rewrite !elem_of_cons, elem_of_nil.
  intros [->|[->|[->|[->|[->|[->|[->|[]]]]]]]];
    (split; eexists; (split; [reflexivity|]; vm_compute; split; congruence)).
Qed.

(** the [uint64] space accounting of [SealSpaceUse] and [StoreSpaceUse] is
    exact up to sector sizes of 2^53 bytes: no error, no wrap-around, the sum of
    overhead * size / 10 over the types that are set. *)
Theorem space_use_exact (t : SectorFileType) (ssize : Z) :
  0 <= ssize <= 2 ^ 53 ->
  SealSpaceUse t ssize =
    Ok (Zsum (fun pt => if Has t pt then default 0 (FSOverheadSeal pt) * ssize / 10 else 0) PathTypes) /\
  StoreSpaceUse t ssize =
    Ok (Zsum (fun pt => if Has t pt then default 0 (FsOverheadFinalized pt) * ssize / 10 else 0) PathTypes).
Proof.
  intros Hs. assert (length PathTypes = 7%nat) as Hl by done.
  split; unfold SealSpaceUse, StoreSpaceUse; rewrite space_loop_exact; try done; try lia;
    intros pt Hpt; by apply overhead_known.
Qed.

Lemma space_use_exact_witness :
  SealSpaceUse FTCache (64 * 2 ^ 30) = Ok 968944621977 /\
  StoreSpaceUse FTCache (64 * 2 ^ 30) = Ok 6871947673.
Proof. apply (space_use_exact FTCache (64 * 2 ^ 30)). lia. Defined.
