(* ===== verification/SectorLocks.v ===== *)
(** * Sector file locks ([lib/paths/index_locks.go])

    The lock table is modelled with its pointers: [locks] maps a sector to the
    address of a [sectorLock] in [heap], which the goroutines that wait for or
    hold the lock share.  Every critical section of the source (under
    [indexLocks.lk], or under the mutex of the condition variable of one
    [sectorLock]) is one step.  The counters are [uint], 64 bits wide. *)

From stdpp Require Import base gmap sets list sorting.
From Stdlib Require Import ZArith Lia.
From S2P Require Import Prelude FileType.

#[export] Instance SectorID_eq_dec : EqDecision SectorID.
Proof. solve_decision. Defined.

#[export] Instance SectorID_countable : Countable SectorID.
Proof.
  refine (inj_countable' (fun s => (Miner s, Number s)) (fun p => mkSectorID p.1 p.2) _).
  by intros [].
Defined.

(** ** One sector lock *)

Record sectorLock := mkSectorLock {
  lk_r : list Z;              (* one read count per file type *)
  lk_w : SectorFileType;
  lk_refs : Z
}.

(** The loop [for i, set := range t.All() { if set { l.r[i] = h(l.r[i]) } }]. *)
Definition for_set (h : Z -> Z) (t : SectorFileType) (rs : list Z) : list Z :=
  zip_with (fun (set : bool) c => if set then h c else c) (All t) rs.
#[global] Arguments for_set h t rs : simpl never.

(** [&sectorLock{}] *)
Definition newSectorLock : sectorLock := mkSectorLock (replicate 7 0) 0 0.

Definition canLock (l : sectorLock) (read write : SectorFileType) : bool :=
  forallb (fun bc => negb (bc.1 && (bc.2 >? 0))) (zip (All write) (lk_r l)) &&
  ((Z.land (lk_w l) read =? 0) && (Z.land (lk_w l) write =? 0)).

Definition tryLock (l : sectorLock) (read write : SectorFileType) : sectorLock * bool :=
  if negb (canLock l read write) then (l, false)
  else
    (mkSectorLock (for_set (fun c => u64 (c + 1)) read (lk_r l))
       (Z.lor (lk_w l) write) (lk_refs l), true).

Definition unlock (l : sectorLock) (read write : SectorFileType) : sectorLock :=
  mkSectorLock (for_set (fun c => u64 (c - 1)) read (lk_r l))
    (Z.land (lk_w l) (Z.lnot write)) (lk_refs l).

Definition set_refs (l : sectorLock) (n : Z) : sectorLock := mkSectorLock (lk_r l) (lk_w l) n.

(** ** The lock table and its goroutines *)

(** The method passed to [lockWith]: [tryLockSafe] gives up at once, [lock]
    waits for its condition variable. *)
Inductive lockFn := tryLockSafe | lock.

Inductive phase := Attempting (f : lockFn) | Holding.

Record goroutine := mkGoroutine {
  g_sector : SectorID;
  g_slk : nat;                (* the pointer [slk] *)
  g_read : SectorFileType;
  g_write : SectorFileType;
  g_phase : phase
}.

Record indexLocks := mkIndexLocks {
  heap : gmap nat sectorLock;
  next_ptr : nat;
  locks : gmap SectorID nat;
  threads : list goroutine
}.

Definition emptyIndexLocks : indexLocks := mkIndexLocks ∅ 0 ∅ [].

Inductive lock_error := UnknownFileTypes | LockCancelled | FailedToAcquire.

(** The argument checks of [lockWith]: [Ok false] is its early
    [return false, nil]. *)
Definition lockWith_check (read write : SectorFileType) : result bool lock_error :=
  if Z.lor read write =? 0 then Ok false
  else if Z.lor read write >? Z.shiftl 1 FileTypes - 1 then Err UnknownFileTypes
  else Ok true.

(** The first critical section of [lockWith]: find or create the lock, count
    the reference. *)
Definition lockWith_enter (i : indexLocks) (f : lockFn) (sector : SectorID)
    (read write : SectorFileType) : indexLocks :=
  let '(p, i) :=
    match locks i !! sector with
    | Some p => (p, i)
    | None =>
        (next_ptr i,
         mkIndexLocks (<[next_ptr i := newSectorLock]> (heap i)) (S (next_ptr i))
           (<[sector := next_ptr i]> (locks i)) (threads i))
    end in
  let slk := default newSectorLock (heap i !! p) in
  mkIndexLocks (<[p := set_refs slk (u64 (lk_refs slk + 1))]> (heap i)) (next_ptr i) (locks i)
    (mkGoroutine sector p read write (Attempting f) :: threads i).

(** One evaluation of [tryLock] by goroutine [g] (of [rest]); on failure
    [tryLockSafe] returns and [lock] waits. *)
Definition lockWith_attempt (i : indexLocks) (g : goroutine) (before after : list goroutine)
    : indexLocks :=
  let slk := default newSectorLock (heap i !! g_slk g) in
  let '(slk', ok) := tryLock slk (g_read g) (g_write g) in
  let h := <[g_slk g := slk']> (heap i) in
  if ok then
    mkIndexLocks h (next_ptr i) (locks i)
      (before ++ mkGoroutine (g_sector g) (g_slk g) (g_read g) (g_write g) Holding :: after)
  else
    match g_phase g with
    | Attempting tryLockSafe => mkIndexLocks h (next_ptr i) (locks i) (before ++ after)
    | _ => mkIndexLocks h (next_ptr i) (locks i) (before ++ g :: after)
    end.

(** A waiting [lock] whose context is cancelled: [cond.Wait] returns the error
    and so does [lockWith]. *)
Definition lockWith_cancel (i : indexLocks) (before after : list goroutine) : indexLocks :=
  mkIndexLocks (heap i) (next_ptr i) (locks i) (before ++ after).

(** The goroutine that [lockWith] leaves behind, after [ctx.Done()]. *)
Definition lockWith_release (i : indexLocks) (g : goroutine) (before after : list goroutine)
    : indexLocks :=
  let slk := default newSectorLock (heap i !! g_slk g) in
  let slk := unlock slk (g_read g) (g_write g) in
  let slk := set_refs slk (u64 (lk_refs slk - 1)) in
  let lks := if lk_refs slk =? 0 then delete (g_sector g) (locks i) else locks i in
  mkIndexLocks (<[g_slk g := slk]> (heap i)) (next_ptr i) lks (before ++ after).

(** [StorageTryLock] run without interference from its own caller: enter, then
    one attempt.  The boolean is its result. *)
Definition StorageTryLock (i : indexLocks) (sector : SectorID) (read write : SectorFileType)
    : indexLocks * result bool lock_error :=
  match lockWith_check read write with
  | Err e => (i, Err e)
  | Ok false => (i, Ok false)
  | Ok true =>
      let i1 := lockWith_enter i tryLockSafe sector read write in
      match threads i1 with
      | [] => (i1, Ok false)
      | g :: rest =>
          let i2 := lockWith_attempt i1 g [] rest in
          (i2, Ok (tryLock (default newSectorLock (heap i1 !! g_slk g)) read write).2)
      end
  end.

(** [StorageGetLocks]: for every entry of the table, in the order of [ids] (the
    range over the map), the write flags and the read counts. *)
Record SectorLockInfo := mkSectorLockInfo {
  li_sector : SectorID; li_write : list Z; li_read : list Z }.

Definition lock_info (i : indexLocks) (id : SectorID) : option SectorLockInfo :=
  match locks i !! id with
  | None => None
  | Some p =>
      match heap i !! p with
      | None => None
      | Some l => Some (mkSectorLockInfo id (map (fun b : bool => if b then 1 else 0) (All (lk_w l))) (lk_r l))
      end
  end.

(** [sort.Slice] by sector number.  Entries with equal numbers (of different
    miners) may come in any order; here they keep the order of the range. *)
Definition by_number (a b : SectorLockInfo) : Prop :=
  Number (li_sector a) <= Number (li_sector b).

#[export] Instance by_number_dec a b : Decision (by_number a b).
Proof. unfold by_number. apply _. Defined.

Definition StorageGetLocks (i : indexLocks) : list SectorLockInfo :=
  merge_sort by_number
    (omap (lock_info i) (map_to_list (locks i)).*1).

(** [StorageLock] turns the result of [lockWith] into an error. *)
Definition StorageLock_result (res : result bool lock_error) : result unit lock_error :=
  match res with
  | Err e => Err e
  | Ok false => Err FailedToAcquire
  | Ok true => Ok tt
  end.

(** The steps of the system.  The side condition of [step_enter] bounds the runs
    to those in which no [uint] counter is exhausted. *)
Inductive lock_step : indexLocks -> indexLocks -> Prop :=
| step_enter i f sector read write :
    lockWith_check read write = Ok true ->
    (forall p slk, heap i !! p = Some slk -> lk_refs slk < 2 ^ 64 - 1) ->
    Z.of_nat (length (threads i)) < 2 ^ 64 - 1 ->
    lock_step i (lockWith_enter i f sector read write)
| step_attempt i g before after f :
    threads i = before ++ g :: after -> g_phase g = Attempting f ->
    lock_step i (lockWith_attempt i g before after)
| step_cancel i g before after :
    threads i = before ++ g :: after -> g_phase g = Attempting lock ->
    lock_step i (lockWith_cancel i before after)
| step_release i g before after :
    threads i = before ++ g :: after -> g_phase g = Holding ->
    lock_step i (lockWith_release i g before after).

(** ** The invariant *)

Definition holds (p : nat) (g : goroutine) : bool :=
  match g_phase g with Holding => bool_decide (g_slk g = p) | _ => false end.

Definition b2z (b : bool) : Z := if b then 1 else 0.

(** The number of holders of lock [p] that read, write, or do both with type [i]. *)
Definition readers (p : nat) (i : Z) (l : list goroutine) : Z :=
  Zsum (fun g => b2z (holds p g && Z.testbit (g_read g) i)) l.
Definition writers (p : nat) (i : Z) (l : list goroutine) : Z :=
  Zsum (fun g => b2z (holds p g && Z.testbit (g_write g) i)) l.
Definition readwriters (p : nat) (i : Z) (l : list goroutine) : Z :=
  Zsum (fun g => b2z (holds p g && (Z.testbit (g_read g) i && Z.testbit (g_write g) i))) l.
Definition users (p : nat) (l : list goroutine) : Z :=
  Zsum (fun g => b2z (bool_decide (g_slk g = p))) l.

(** What the fields of lock [p] say about the goroutines that hold it. *)
Record lock_inv (p : nat) (slk : sectorLock) (l : list goroutine) : Prop := {
  inv_len : length (lk_r slk) = 7%nat;
  inv_r : forall i, (i < 7)%nat -> lk_r slk !! i = Some (readers p (Z.of_nat i) l);
  inv_w : forall i, 0 <= i < 7 -> Z.testbit (lk_w slk) i = (writers p i l >? 0);
  inv_one : forall i, 0 <= i < 7 -> writers p i l <= 1;
  inv_excl : forall i, 0 <= i < 7 -> 0 < writers p i l -> readers p i l = readwriters p i l
}.

Record table_inv (i : indexLocks) : Prop := {
  tinv_bound : Z.of_nat (length (threads i)) < 2 ^ 64;
  tinv_fresh : forall p, (next_ptr i <= p)%nat -> heap i !! p = None;
  tinv_locks : forall s p, locks i !! s = Some p -> is_Some (heap i !! p);
  tinv_inj : forall s s' p, locks i !! s = Some p -> locks i !! s' = Some p -> s = s';
  tinv_threads : forall g, g ∈ threads i -> locks i !! g_sector g = Some (g_slk g);
  tinv_lock : forall p slk, heap i !! p = Some slk -> lock_inv p slk (threads i);
  tinv_refs : forall p slk, heap i !! p = Some slk ->
    users p (threads i) <= lk_refs slk < 2 ^ 64
}.

(** ** Counting *)

Lemma b2z_range b : 0 <= b2z b <= 1.
Proof. destruct b; simpl; lia. Qed.

Lemma count_mid (f : goroutine -> Z) l1 g l2 : Zsum f (l1 ++ g :: l2) = f g + Zsum f (l1 ++ l2).
Proof. rewrite !Zsum_app, Zsum_cons. lia. Qed.

Lemma count_range (f : goroutine -> bool) l : 0 <= Zsum (fun g => b2z (f g)) l <= Z.of_nat (length l).
Proof.
  induction l as [|g l IH]; [done|]. rewrite Zsum_cons.
  pose proof (b2z_range (f g)). simpl length. lia.
Qed.

Lemma count_le (f h : goroutine -> bool) l :
  (forall g, g ∈ l -> f g = true -> h g = true) ->
  Zsum (fun g => b2z (f g)) l <= Zsum (fun g => b2z (h g)) l.
Proof.
  induction l as [|g l IH]; intros H; [done|]. rewrite !Zsum_cons.
  assert (b2z (f g) <= b2z (h g)).
  { destruct (f g) eqn:E; [rewrite (H g ltac:(left) E); done|]. simpl. by destruct (h g). }
  assert (Zsum (fun g => b2z (f g)) l <= Zsum (fun g => b2z (h g)) l); [|lia].
  apply IH. intros; apply H; [by right|done].
Qed.

Lemma readwriters_le p i l : 0 <= readwriters p i l <= readers p i l.
Proof.
  split; [apply count_range|]. apply count_le. intros g _ H. bool_props. by rewrite H, H0.
Qed.

Lemma readers_range p i l : 0 <= readers p i l <= Z.of_nat (length l).
Proof. apply count_range. Qed.

Lemma writers_range p i l : 0 <= writers p i l <= Z.of_nat (length l).
Proof. apply count_range. Qed.

Lemma holds_attempting p g f : g_phase g = Attempting f -> holds p g = false.
Proof. intros H. unfold holds. by rewrite H. Qed.

(** A goroutine that does not hold [p] does not count there. *)
Lemma counts_skip p i l1 g l2 : holds p g = false ->
  readers p i (l1 ++ g :: l2) = readers p i (l1 ++ l2) /\
  writers p i (l1 ++ g :: l2) = writers p i (l1 ++ l2) /\
  readwriters p i (l1 ++ g :: l2) = readwriters p i (l1 ++ l2).
Proof.
  intros H. unfold readers, writers, readwriters. rewrite !count_mid, H. simpl. lia.
Qed.

Lemma counts_holder p i l1 g l2 : holds p g = true ->
  readers p i (l1 ++ g :: l2) = b2z (Z.testbit (g_read g) i) + readers p i (l1 ++ l2) /\
  writers p i (l1 ++ g :: l2) = b2z (Z.testbit (g_write g) i) + writers p i (l1 ++ l2) /\
  readwriters p i (l1 ++ g :: l2) =
    b2z (Z.testbit (g_read g) i && Z.testbit (g_write g) i) + readwriters p i (l1 ++ l2).
Proof.
  intros H. unfold readers, writers, readwriters. rewrite !count_mid, H. simpl. lia.
Qed.

(** [lock_inv] only depends on the counts. *)
Lemma lock_inv_counts p slk l l' :
  (forall i, readers p i l = readers p i l' /\ writers p i l = writers p i l' /\
             readwriters p i l = readwriters p i l') ->
  lock_inv p slk l -> lock_inv p slk l'.
Proof.
  intros Hc [H1 H2 H3 H4 H5]. split; [done|intros i Hi..].
  - rewrite <- (proj1 (Hc (Z.of_nat i))). auto.
  - rewrite <- (proj1 (proj2 (Hc i))). auto.
  - rewrite <- (proj1 (proj2 (Hc i))). auto.
  - destruct (Hc i) as (<- & <- & <-). auto.
Qed.

Lemma lock_inv_skip p slk l1 g l2 : holds p g = false ->
  lock_inv p slk (l1 ++ g :: l2) <-> lock_inv p slk (l1 ++ l2).
Proof.
  intros Hg. split; apply lock_inv_counts; intros i;
    destruct (counts_skip p i l1 g l2 Hg) as (-> & -> & ->); done.
Qed.

Lemma lock_inv_refs p slk n l : lock_inv p slk l -> lock_inv p (set_refs slk n) l.
Proof. intros [H1 H2 H3 H4 H5]. by split. Qed.

(** ** Acquiring and releasing *)

Lemma canLock_spec slk read write i :
  length (lk_r slk) = 7%nat -> canLock slk read write = true -> 0 <= i < 7 ->
  (Z.testbit write i = true -> exists c, lk_r slk !! Z.to_nat i = Some c /\ c <= 0) /\
  (Z.testbit read i = true \/ Z.testbit write i = true -> Z.testbit (lk_w slk) i = false).
Proof.
  intros Hlen H Hi. unfold canLock in H. bool_props. split.
  - intros Hw. destruct (lookup_lt_is_Some_2 (lk_r slk) (Z.to_nat i)) as [c Hc]; [lia|].
    exists c. split; [done|]. rewrite forallb_forall in H.
    assert (In (true, c) (zip (All write) (lk_r slk))) as Hin.
    { apply list_elem_of_In, list_elem_of_lookup. exists (Z.to_nat i).
      apply lookup_zip_with_Some. exists true, c. split; [done|]. split; [|done].
      rewrite All_lookup by lia. rewrite Z2Nat.id by lia. by rewrite Hw. }
    specialize (H _ Hin). simpl in H. bool_props. lia.
  - intros Hrw. apply (f_equal (fun z => Z.testbit z i)) in H0, H1.
    rewrite Z.land_spec, Z.bits_0 in H0, H1.
    destruct Hrw as [E|E]; [rewrite E, andb_true_r in H0 | rewrite E, andb_true_r in H1]; done.
Qed.

(** Bumping the read counters of the types of [read]. *)
Lemma bump_lookup h read rs i c :
  (i < 7)%nat -> rs !! i = Some c ->
  for_set h read rs !! i = Some (if Z.testbit read (Z.of_nat i) then h c else c).
Proof.
  intros Hi Hc. apply lookup_zip_with_Some. do 2 eexists. split; [done|].
  by rewrite All_lookup.
Qed.

Lemma bump_length h read rs : length rs = 7%nat -> length (for_set h read rs) = 7%nat.
Proof. intros H. unfold for_set. rewrite length_zip_with, length_All, H. done. Qed.

Lemma gtb_0_false z : (z >? 0) = false <-> z <= 0.
Proof. rewrite Z.gtb_ltb, Z.ltb_ge. done. Qed.

Lemma gtb_0_true z : (z >? 0) = true <-> 0 < z.
Proof. rewrite Z.gtb_ltb, Z.ltb_lt. done. Qed.

(** A successful [tryLock] by a goroutine that becomes a holder keeps the
    invariant. *)
Lemma tryLock_inv p slk slk' g l1 l2 :
  lock_inv p slk (l1 ++ l2) -> Z.of_nat (length (l1 ++ l2)) < 2 ^ 64 - 1 -> holds p g = true ->
  tryLock slk (g_read g) (g_write g) = (slk', true) -> lock_inv p slk' (l1 ++ g :: l2).
Proof.
  intros [Hlen Hr Hw Hone Hexcl] Hb Hg. unfold tryLock.
  destruct (canLock slk (g_read g) (g_write g)) eqn:E; [|done]. cbn [negb]. intros [= <-].
  split; cbn [lk_r lk_w unlock]; [by apply bump_length|intros i Hi..];
    [destruct (counts_holder p (Z.of_nat i) l1 g l2 Hg) as (E1 & E2 & E3)
    |destruct (counts_holder p i l1 g l2 Hg) as (E1 & E2 & E3);
     destruct (canLock_spec slk _ _ i Hlen E Hi) as [Cw Crw]..].
  - erewrite bump_lookup by eauto. rewrite E1. f_equal.
    pose proof (readers_range p (Z.of_nat i) (l1 ++ l2)).
    destruct (Z.testbit (g_read g) (Z.of_nat i)); simpl; [rewrite u64_small|]; unfold in_u64; lia.
  - rewrite Z.lor_spec, Hw, E2 by done. pose proof (writers_range p i (l1 ++ l2)).
    destruct (Z.testbit (g_write g) i); simpl b2z; [|by rewrite orb_false_r].
    rewrite orb_true_r. symmetry. apply gtb_0_true. lia.
  - rewrite E2. specialize (Hone i Hi). destruct (Z.testbit (g_write g) i) eqn:Ew; simpl; [|lia].
    rewrite (Hw i Hi), gtb_0_false in Crw. specialize (Crw (or_intror eq_refl)). lia.
  - rewrite E1, E2, E3. intros Hpos. pose proof (readwriters_le p i (l1 ++ l2)).
    destruct (Z.testbit (g_write g) i) eqn:Ew.
    + destruct (Cw eq_refl) as (c & Hc & Hc0). rewrite (Hr (Z.to_nat i)) in Hc by lia.
      rewrite Z2Nat.id in Hc by lia. injection Hc as <-.
      destruct (Z.testbit (g_read g) i); simpl; lia.
    + rewrite andb_false_r. simpl in *. rewrite (Hw i Hi), gtb_0_false in Crw.
      destruct (Z.testbit (g_read g) i); simpl; [|by rewrite Hexcl].
      specialize (Crw (or_introl eq_refl)). lia.
Qed.

(** [unlock] by a holder keeps the invariant for the others. *)
Lemma unlock_inv p slk g l1 l2 :
  lock_inv p slk (l1 ++ g :: l2) -> Z.of_nat (length (l1 ++ g :: l2)) < 2 ^ 64 ->
  holds p g = true -> lock_inv p (unlock slk (g_read g) (g_write g)) (l1 ++ l2).
Proof.
  intros [Hlen Hr Hw Hone Hexcl] Hb Hg.
  split; cbn [lk_r lk_w unlock]; [by apply bump_length|intros i Hi..];
    [destruct (counts_holder p (Z.of_nat i) l1 g l2 Hg) as (E1 & E2 & E3)
    |destruct (counts_holder p i l1 g l2 Hg) as (E1 & E2 & E3)..].
  - erewrite bump_lookup by eauto. rewrite E1. f_equal.
    pose proof (readers_range p (Z.of_nat i) (l1 ++ g :: l2)).
    pose proof (readers_range p (Z.of_nat i) (l1 ++ l2)).
    destruct (Z.testbit (g_read g) (Z.of_nat i)); simpl in *; [rewrite u64_small|]; unfold in_u64; lia.
  - rewrite Z.land_spec, Z.lnot_spec, Hw by lia. specialize (Hone i Hi).
    pose proof (writers_range p i (l1 ++ l2)). rewrite E2 in *.
    destruct (Z.testbit (g_write g) i); simpl in *; [|by rewrite andb_true_r].
    rewrite andb_false_r. symmetry. apply gtb_0_false. lia.
  - specialize (Hone i Hi). rewrite E2 in Hone. pose proof (b2z_range (Z.testbit (g_write g) i)). lia.
  - intros Hpos. specialize (Hone i Hi). specialize (Hexcl i Hi). rewrite E1, E2, E3 in *.
    pose proof (readwriters_le p i (l1 ++ l2)).
    destruct (Z.testbit (g_write g) i); simpl in *; [lia|].
    rewrite andb_false_r in Hexcl. simpl in Hexcl.
    pose proof (b2z_range (Z.testbit (g_read g) i)). lia.
Qed.

(** ** Every step keeps the invariant *)

Lemma users_mid p l1 g l2 :
  users p (l1 ++ g :: l2) = b2z (bool_decide (g_slk g = p)) + users p (l1 ++ l2).
Proof. apply count_mid. Qed.

Lemma users_nonneg p l : 0 <= users p l.
Proof. apply count_range. Qed.

Lemma users_pos p l g : g ∈ l -> g_slk g = p -> 0 < users p l.
Proof.
  intros Hin Hp. apply list_elem_of_split in Hin as (l1 & l2 & ->). rewrite users_mid.
  rewrite bool_decide_eq_true_2 by done. pose proof (users_nonneg p (l1 ++ l2)). simpl. lia.
Qed.

Lemma lock_inv_new p l : (forall g, g ∈ l -> g_slk g <> p) -> lock_inv p newSectorLock l.
Proof.
  intros H. assert (forall g, g ∈ l -> holds p g = false) as Hh.
  { intros g Hg. unfold holds. destruct (g_phase g); [done|].
    apply bool_decide_eq_false. by apply H. }
  assert (forall f : goroutine -> bool, Zsum (fun g => b2z (holds p g && f g)) l = 0) as Hz.
  { intros f. rewrite (Zsum_ext _ (fun _ => 0)); [|intros g Hg; by rewrite (Hh g Hg)].
    clear. induction l; [done|]. by rewrite Zsum_cons, IHl. }
  split; [done|intros i Hi..]; unfold readers, writers, readwriters; rewrite ?Hz; try done.
  - by apply lookup_replicate_2.
  - apply Z.bits_0.
Qed.

Lemma table_inv_init : table_inv emptyIndexLocks.
Proof. split; simpl; try done. intros g Hg. by apply not_elem_of_nil in Hg. Qed.

(** Counting the reference of a goroutine that joins lock [p]. *)
Lemma enter_counted i f sector read write p slk :
  table_inv i -> locks i !! sector = Some p -> heap i !! p = Some slk -> lk_refs slk < 2 ^ 64 - 1 ->
  Z.of_nat (length (threads i)) < 2 ^ 64 - 1 ->
  table_inv (mkIndexLocks (<[p := set_refs slk (u64 (lk_refs slk + 1))]> (heap i)) (next_ptr i) (locks i)
    (mkGoroutine sector p read write (Attempting f) :: threads i)).
Proof.
  intros [Hb Hf Hl Hinj Ht Hlk Hr] Hs Hp Hrefs Hlen.
  pose proof (users_nonneg p (threads i)). pose proof (Hr p slk Hp).
  split; simpl; [lia|..].
  - intros q Hq. rewrite lookup_insert_ne; [by apply Hf|]. intros ->. by rewrite (Hf q Hq) in Hp.
  - intros s q Hq. destruct (decide (p = q)) as [<-|]; [by rewrite lookup_insert_eq|].
    rewrite lookup_insert_ne by done. by apply (Hl s).
  - done.
  - intros g Hg. apply elem_of_cons in Hg as [->|Hg]; [done|by apply Ht].
  - intros q slk' Hq. apply (lock_inv_skip q slk' [] _ (threads i)); [done|].
    apply lookup_insert_Some in Hq as [[<- <-]|[Hne Hq]]; [|by apply Hlk].
    by apply lock_inv_refs, Hlk.
  - intros q slk' Hq. set (g := mkGoroutine sector p read write (Attempting f)).
    change (g :: threads i) with ([] ++ g :: threads i). rewrite users_mid. cbn [app g_slk g].
    apply lookup_insert_Some in Hq as [[<- <-]|[Hne Hq]].
    + rewrite bool_decide_eq_true_2 by done. cbn [b2z lk_refs set_refs].
      rewrite u64_small by (unfold in_u64; lia). lia.
    + rewrite bool_decide_eq_false_2 by done. cbn [b2z]. rewrite Z.add_0_l. by apply Hr.
Qed.

Lemma step_enter_inv i f sector read write :
  table_inv i -> (forall p slk, heap i !! p = Some slk -> lk_refs slk < 2 ^ 64 - 1) ->
  Z.of_nat (length (threads i)) < 2 ^ 64 - 1 -> table_inv (lockWith_enter i f sector read write).
Proof.
  intros Hi Hrefs Hlen. unfold lockWith_enter. destruct (locks i !! sector) as [p|] eqn:Hs.
  - destruct (tinv_locks i Hi _ _ Hs) as [slk Hp]. rewrite Hp. simpl. eapply enter_counted; eauto.
  - set (i' := mkIndexLocks (<[next_ptr i := newSectorLock]> (heap i)) (S (next_ptr i))
      (<[sector := next_ptr i]> (locks i)) (threads i)).
    assert (forall g, g ∈ threads i -> g_slk g <> next_ptr i) as Hfree.
    { intros g Hg Heq. destruct (tinv_locks i Hi (g_sector g) (g_slk g)) as [x Hx];
        [by apply Hi|]. rewrite Heq, (tinv_fresh i Hi) in Hx by lia. done. }
    assert (table_inv i') as Hi'.
    { destruct Hi as [Hb Hf Hl Hinj Ht Hlk Hr]. split; simpl; [done|..].
      - intros q Hq. rewrite lookup_insert_ne by lia. apply Hf. lia.
      - intros s q Hq. apply lookup_insert_Some in Hq as [[<- <-]|[Hne Hq]]; [by rewrite lookup_insert_eq|].
        destruct (Hl s q Hq) as [x Hx]. rewrite lookup_insert_ne; [eauto|]. intros E.
        by rewrite Hf in Hx by lia.
      - intros s s' q H1 H2.
        apply lookup_insert_Some in H1 as [[<- <-]|[Hn1 H1]], H2 as [[Hs' Hq]|[Hn2 H2]]; eauto; exfalso.
        + destruct (Hl _ _ H2) as [x Hx]. by rewrite Hf in Hx by lia.
        + destruct (Hl _ _ H1) as [x Hx]. by rewrite Hf in Hx by lia.
      - intros g Hg. rewrite lookup_insert_ne; [by apply Ht|]. intros E.
        by rewrite E, (Ht g Hg) in Hs.
      - intros q slk Hq. apply lookup_insert_Some in Hq as [[<- <-]|[Hne Hq]]; [by apply lock_inv_new|eauto].
      - intros q slk Hq. apply lookup_insert_Some in Hq as [[<- <-]|[Hne Hq]]; [|eauto]. simpl.
        assert (users (next_ptr i) (threads i) = 0) as ->; [|lia].
        unfold users. rewrite (Zsum_ext _ (fun _ => 0)).
        { clear. induction (threads i); [done|]. by rewrite Zsum_cons, IHl. }
        intros g Hg. rewrite bool_decide_eq_false_2; [done|]. by apply Hfree. }
    change (table_inv (let slk := default newSectorLock (heap i' !! next_ptr i) in
      mkIndexLocks (<[next_ptr i := set_refs slk (u64 (lk_refs slk + 1))]> (heap i')) (next_ptr i') (locks i')
        (mkGoroutine sector (next_ptr i) read write (Attempting f) :: threads i'))).
    simpl. rewrite lookup_insert_eq. simpl default.
    apply (enter_counted i'); simpl; rewrite ?lookup_insert_eq; try done.
Qed.

(** Replacing goroutine [g] by [g'] (same lock) or dropping it, with a new value
    for the lock it uses: what is left to check. *)
Lemma table_inv_update i g slk slk' l1 l2 l' :
  table_inv i -> threads i = l1 ++ g :: l2 -> heap i !! g_slk g = Some slk ->
  (length l' <= length (threads i))%nat ->
  (forall h, h ∈ l' -> locks i !! g_sector h = Some (g_slk h)) ->
  (forall q, q <> g_slk g -> forall s, lock_inv q s (threads i) -> lock_inv q s l') ->
  (forall q, q <> g_slk g -> users q l' = users q (threads i)) ->
  lock_inv (g_slk g) slk' l' -> users (g_slk g) l' <= lk_refs slk' < 2 ^ 64 ->
  table_inv (mkIndexLocks (<[g_slk g := slk']> (heap i)) (next_ptr i) (locks i) l').
Proof.
  intros [Hb Hf Hl Hinj Ht Hlk Hr] Hth Hp Hlen Hsec Hother Husers Hinv Hrefs.
  split; simpl; [lia|..|done|done| |].
  - intros q Hq. rewrite lookup_insert_ne; [by apply Hf|]. intros E. rewrite (Hf (g_slk g)) in Hp by lia. done.
  - intros s q Hq. destruct (decide (g_slk g = q)) as [<-|]; [by rewrite lookup_insert_eq|].
    rewrite lookup_insert_ne by done. by apply (Hl s).
  - intros q s Hq. apply lookup_insert_Some in Hq as [[<- <-]|[Hne Hq]]; [done|]. eauto.
  - intros q s Hq. apply lookup_insert_Some in Hq as [[<- <-]|[Hne Hq]]; [done|]. rewrite Husers by done. eauto.
Qed.

Lemma holds_other p g : p <> g_slk g -> holds p g = false.
Proof. intros H. unfold holds. destruct (g_phase g); [done|]. by apply bool_decide_eq_false. Qed.

Lemma tryLock_refs slk read write : lk_refs (tryLock slk read write).1 = lk_refs slk.
Proof. unfold tryLock. by destruct (canLock slk read write). Qed.

Lemma tryLock_fail slk read write slk' : tryLock slk read write = (slk', false) -> slk' = slk.
Proof. unfold tryLock. destruct (canLock slk read write); simpl; congruence. Qed.

Lemma users_drop p l1 g l2 : users p (l1 ++ l2) <= users p (l1 ++ g :: l2).
Proof. rewrite users_mid. pose proof (b2z_range (bool_decide (g_slk g = p))). lia. Qed.

Lemma users_other p l1 g l2 : p <> g_slk g -> users p (l1 ++ g :: l2) = users p (l1 ++ l2).
Proof. intros H. rewrite users_mid, bool_decide_eq_false_2 by done. done. Qed.

Lemma table_lock i g : table_inv i -> g ∈ threads i -> exists slk, heap i !! g_slk g = Some slk.
Proof. intros Hi Hg. apply (tinv_locks i Hi (g_sector g)). by apply Hi. Qed.

Lemma elem_of_mid (l1 l2 : list goroutine) h g : h ∈ l1 ++ l2 -> h ∈ l1 ++ g :: l2.
Proof. rewrite !elem_of_app, elem_of_cons. tauto. Qed.

Lemma step_attempt_inv i g l1 l2 f :
  table_inv i -> threads i = l1 ++ g :: l2 -> g_phase g = Attempting f ->
  table_inv (lockWith_attempt i g l1 l2).
Proof.
  intros Hi Hth Hph. assert (g ∈ threads i) as Hg by (rewrite Hth; set_solver).
  destruct (table_lock i g Hi Hg) as [slk Hp]. unfold lockWith_attempt. rewrite Hp. simpl default.
  destruct (tryLock slk (g_read g) (g_write g)) as [slk' ok] eqn:E.
  pose proof (tryLock_refs slk (g_read g) (g_write g)) as Hrefs. rewrite E in Hrefs. simpl in Hrefs.
  pose proof (holds_attempting (g_slk g) g f Hph) as Hnh.
  pose proof (tinv_lock i Hi _ _ Hp) as Hinv. rewrite Hth in Hinv.
  pose proof (tinv_refs i Hi _ _ Hp) as Hr.
  pose proof (tinv_bound i Hi) as Hb. rewrite Hth, length_app in Hb. simpl in Hb.
  destruct ok.
  - set (g' := mkGoroutine (g_sector g) (g_slk g) (g_read g) (g_write g) Holding).
    assert (g_slk g' = g_slk g) as Hs by done.
    apply (table_inv_update i g slk slk' l1 l2); try done.
    + rewrite Hth, !length_app. done.
    + intros h Hh. apply elem_of_app in Hh as [Hh|Hh]; [|apply elem_of_cons in Hh as [->|Hh]].
      1,3: apply Hi; rewrite Hth; set_solver. by apply (tinv_threads i Hi g).
    + intros q Hq s. rewrite Hth, !lock_inv_skip by (by apply holds_other). done.
    + intros q Hq. rewrite Hth, !users_other by done. done.
    + apply (tryLock_inv _ slk _ g'); [|rewrite length_app; lia|by apply bool_decide_eq_true|done].
      by apply lock_inv_skip in Hinv.
    + rewrite Hrefs. rewrite Hth, users_mid in Hr. rewrite users_mid. done.
  - apply tryLock_fail in E as ->.
    assert (mkIndexLocks (<[g_slk g:=slk]> (heap i)) (next_ptr i) (locks i) (l1 ++ g :: l2) = i) as Hid.
    { rewrite insert_id, <- Hth by done. by destruct i. }
    rewrite Hph. destruct f; [|by rewrite Hid].
    apply (table_inv_update i g slk slk l1 l2); try done.
    + rewrite Hth, !length_app. simpl. lia.
    + intros h Hh. apply Hi. rewrite Hth. by apply elem_of_mid.
    + intros q Hq s. rewrite Hth, lock_inv_skip by (by apply holds_other). done.
    + intros q Hq. by rewrite Hth, users_other.
    + by apply lock_inv_skip in Hinv.
    + rewrite Hth in Hr. pose proof (users_drop (g_slk g) l1 g l2). lia.
Qed.

Lemma step_cancel_inv i g l1 l2 f :
  table_inv i -> threads i = l1 ++ g :: l2 -> g_phase g = Attempting f ->
  table_inv (lockWith_cancel i l1 l2).
Proof.
  intros Hi Hth Hph. destruct Hi as [Hb Hf Hl Hinj Ht Hlk Hr]. split; simpl; try done.
  - rewrite Hth, length_app in Hb. rewrite length_app. simpl in Hb. lia.
  - intros h Hh. apply Ht. rewrite Hth. by apply elem_of_mid.
  - intros p slk Hp. apply Hlk in Hp. rewrite Hth in Hp.
    apply lock_inv_skip in Hp; [done|]. eapply holds_attempting; eauto.
  - intros p slk Hp. apply Hr in Hp. rewrite Hth in Hp. pose proof (users_drop p l1 g l2). lia.
Qed.

(** Removing the table entry of a sector nobody uses. *)
Lemma table_inv_delete i s :
  table_inv i -> (forall g, g ∈ threads i -> g_sector g <> s) ->
  table_inv (mkIndexLocks (heap i) (next_ptr i) (delete s (locks i)) (threads i)).
Proof.
  intros [Hb Hf Hl Hinj Ht Hlk Hr] Hno. split; simpl; try done.
  - intros s' p Hp. apply lookup_delete_Some in Hp as [_ Hp]. eauto.
  - intros s1 s2 p H1 H2. apply lookup_delete_Some in H1 as [_ H1], H2 as [_ H2]. eauto.
  - intros g Hg. rewrite lookup_delete_ne; [by apply Ht|]. intros E. by apply (Hno g).
Qed.

Lemma step_release_inv i g l1 l2 :
  table_inv i -> threads i = l1 ++ g :: l2 -> g_phase g = Holding ->
  table_inv (lockWith_release i g l1 l2).
Proof.
  intros Hi Hth Hph. assert (g ∈ threads i) as Hg by (rewrite Hth; set_solver).
  destruct (table_lock i g Hi Hg) as [slk Hp]. unfold lockWith_release. rewrite Hp. simpl default.
  assert (holds (g_slk g) g = true) as Hh by (unfold holds; rewrite Hph; by apply bool_decide_eq_true).
  pose proof (tinv_lock i Hi _ _ Hp) as Hinv. pose proof (tinv_bound i Hi) as Hb.
  pose proof (tinv_refs i Hi _ _ Hp) as Hr. rewrite Hth in Hinv, Hb, Hr.
  rewrite users_mid, bool_decide_eq_true_2 in Hr by done. simpl in Hr.
  pose proof (users_nonneg (g_slk g) (l1 ++ l2)).
  set (slk' := set_refs (unlock slk (g_read g) (g_write g)) (u64 (lk_refs slk - 1))).
  assert (lk_refs slk' = lk_refs slk - 1) as Hrefs by (simpl; rewrite u64_small; unfold in_u64; lia).
  assert (table_inv (mkIndexLocks (<[g_slk g := slk']> (heap i)) (next_ptr i) (locks i) (l1 ++ l2))) as Hbase.
  { apply (table_inv_update i g slk slk' l1 l2); try done.
    + rewrite Hth, !length_app. simpl. lia.
    + intros h Hin. apply Hi. rewrite Hth. by apply elem_of_mid.
    + intros q Hq s. rewrite Hth, lock_inv_skip by (by apply holds_other). done.
    + intros q Hq. by rewrite Hth, users_other.
    + apply lock_inv_refs. by apply unlock_inv.
    + rewrite Hrefs. lia. }
  change (lk_refs (unlock slk (g_read g) (g_write g))) with (lk_refs slk). fold slk'.
  destruct (Z.eqb_spec (lk_refs slk') 0) as [E|E]; [|done].
  apply (table_inv_delete _ (g_sector g)) in Hbase; [done|]. simpl. intros h Hin Hsec.
  assert (locks i !! g_sector h = Some (g_slk h)) as H1 by (apply Hi; rewrite Hth; by apply elem_of_mid).
  rewrite Hsec, (tinv_threads i Hi g Hg) in H1. injection H1 as H1.
  pose proof (users_pos (g_slk g) (l1 ++ l2) h Hin (eq_sym H1)). lia.
Qed.

Lemma lock_step_inv i i' : table_inv i -> lock_step i i' -> table_inv i'.
Proof.
  intros Hi Hs. destruct Hs;
    eauto using step_enter_inv, step_attempt_inv, step_cancel_inv, step_release_inv.
Qed.

Lemma reachable_inv i : rtc lock_step emptyIndexLocks i -> table_inv i.
Proof.
  intros Hr. eapply (rtc_invariant lock_step table_inv); eauto using lock_step_inv, table_inv_init.
Qed.

(** ** Properties of reachable lock tables *)

(** C3: mutual exclusion of the sector locks: in every state the lock table can
    reach, when two goroutines hold a lock on the same sector, a file type one
    of them writes is neither read nor written by the other. *)
Theorem sector_lock_exclusion (i : indexLocks) (l1 l2 l3 : list goroutine) (g h : goroutine) (t : Z) :
  rtc lock_step emptyIndexLocks i -> threads i = l1 ++ g :: l2 ++ h :: l3 ->
  g_phase g = Holding -> g_phase h = Holding -> g_sector g = g_sector h -> 0 <= t < 7 ->
  (Z.testbit (g_write g) t = true -> Z.testbit (Z.lor (g_read h) (g_write h)) t = false) /\
  (Z.testbit (g_write h) t = true -> Z.testbit (Z.lor (g_read g) (g_write g)) t = false).
Proof.
  intros Hreach Hth Hg Hh Hsec Ht. pose proof (reachable_inv i Hreach) as Hi.
  assert (g ∈ threads i /\ h ∈ threads i) as [Hgi Hhi] by (rewrite Hth; set_solver).
  assert (g_slk h = g_slk g) as Hslk.
  { pose proof (tinv_threads i Hi g Hgi) as H1. pose proof (tinv_threads i Hi h Hhi) as H2.
    rewrite Hsec in H1. congruence. }
  destruct (table_lock i g Hi Hgi) as [slk Hp].
  destruct (tinv_lock i Hi _ _ Hp) as [_ _ _ Hone Hexcl].
  specialize (Hone t Ht). specialize (Hexcl t Ht). rewrite Hth in Hone, Hexcl.
  assert (holds (g_slk g) g = true /\ holds (g_slk g) h = true) as [H1 H2].
  { unfold holds. rewrite Hg, Hh. by rewrite !bool_decide_eq_true_2. }
  destruct (counts_holder (g_slk g) t l1 g (l2 ++ h :: l3) H1) as (R1 & W1 & B1).
  rewrite app_assoc in R1, W1, B1.
  destruct (counts_holder (g_slk g) t (l1 ++ l2) h l3 H2) as (R2 & W2 & B2).
  rewrite R1, W1, B1, R2, W2, B2 in *.
  pose proof (readwriters_le (g_slk g) t ((l1 ++ l2) ++ l3)).
  pose proof (writers_range (g_slk g) t ((l1 ++ l2) ++ l3)).
  rewrite !Z.lor_spec.
  destruct (Z.testbit (g_read g) t), (Z.testbit (g_write g) t), (Z.testbit (g_read h) t),
    (Z.testbit (g_write h) t); simpl in *; split; intros; try done; exfalso; lia.
Qed.

(** the counters of a lock are exact: in every reachable state the read
    count of a file type is the number of goroutines that hold the lock with
    that type for reading, so the decrement of [unlock] never underflows, and
    the write mask has exactly the types some holder writes. *)
Theorem sector_lock_counters (i : indexLocks) (sector : SectorID) (p : nat) (slk : sectorLock) (t : Z) :
  rtc lock_step emptyIndexLocks i -> locks i !! sector = Some p -> heap i !! p = Some slk -> 0 <= t < 7 ->
  lk_r slk !! Z.to_nat t = Some (readers p t (threads i)) /\
  Z.testbit (lk_w slk) t = (writers p t (threads i) >? 0) /\
  (forall g, g ∈ threads i -> g_sector g = sector -> g_phase g = Holding ->
     Z.testbit (g_read g) t = true -> 1 <= readers p t (threads i)).
Proof.
  intros Hreach Hs Hp Ht. pose proof (reachable_inv i Hreach) as Hi.
  destruct (tinv_lock i Hi _ _ Hp) as [_ Hr Hw _ _].
  split; [|split].
  - rewrite (Hr (Z.to_nat t)) by lia. by rewrite Z2Nat.id by lia.
  - by apply Hw.
  - intros g Hg Hsec Hph Hb. pose proof (tinv_threads i Hi g Hg) as E.
    rewrite Hsec, Hs in E. injection E as ->.
    apply list_elem_of_split in Hg as (l1 & l2 & ->).
    assert (holds (g_slk g) g = true) as Hh by (unfold holds; rewrite Hph; by apply bool_decide_eq_true).
    destruct (counts_holder (g_slk g) t l1 g l2 Hh) as (-> & _ & _). rewrite Hb. simpl.
    pose proof (readers_range (g_slk g) t (l1 ++ l2)). lia.
Qed.

(** ** The reference a failed attempt leaves behind *)

(** The lock of [sector] counts more references than goroutines use it. *)
Definition leaked (i : indexLocks) (sector : SectorID) : Prop :=
  exists p slk, locks i !! sector = Some p /\ heap i !! p = Some slk /\
                users p (threads i) < lk_refs slk.

Lemma leaked_insert i h' n lks l' sector p slk q s' :
  locks i !! sector = Some p -> heap i !! p = Some slk -> lks !! sector = Some p ->
  h' = <[q := s']> (heap i) ->
  (q = p -> users p l' < lk_refs s') -> (q <> p -> users p l' < lk_refs slk) ->
  leaked (mkIndexLocks h' n lks l') sector.
Proof.
  intros Hs Hp Hl -> H1 H2. exists p. destruct (decide (q = p)) as [->|Hne].
  - exists s'. simpl. rewrite lookup_insert_eq. auto.
  - exists slk. simpl. rewrite lookup_insert_ne by done. auto.
Qed.

Lemma leaked_enter i f s read write sector :
  table_inv i -> (forall p slk, heap i !! p = Some slk -> lk_refs slk < 2 ^ 64 - 1) ->
  leaked i sector -> leaked (lockWith_enter i f s read write) sector.
Proof.
  intros Hi Hb (p & slk & Hs & Hp & Hlt). pose proof (users_nonneg p (threads i)) as Hu.
  unfold lockWith_enter. destruct (locks i !! s) as [q|] eqn:Hq.
  - destruct (tinv_locks i Hi _ _ Hq) as [sq Hsq]. rewrite Hsq. simpl default.
    specialize (Hb _ _ Hsq). pose proof (tinv_refs i Hi _ _ Hsq) as Hrq.
    pose proof (users_nonneg q (threads i)).
    set (g := mkGoroutine s q read write (Attempting f)).
    change (g :: threads i) with ([] ++ g :: threads i).
    eapply leaked_insert; eauto; rewrite users_mid; simpl; intros E.
    + subst q. rewrite bool_decide_eq_true_2, u64_small by (done || (unfold in_u64; lia)).
      assert (sq = slk) as -> by congruence. simpl. lia.
    + rewrite bool_decide_eq_false_2 by done. simpl. lia.
  - simpl. rewrite lookup_insert_eq. simpl default.
    assert (s <> sector) by congruence.
    assert (next_ptr i <> p) by (intros <-; rewrite (tinv_fresh i Hi) in Hp by lia; done).
    exists p, slk. simpl. rewrite !lookup_insert_ne by done. split; [done|]. split; [done|].
    set (g := mkGoroutine s (next_ptr i) read write (Attempting f)).
    change (g :: threads i) with ([] ++ g :: threads i). by rewrite users_other.
Qed.

Lemma leaked_attempt i g l1 l2 sector :
  table_inv i -> threads i = l1 ++ g :: l2 -> leaked i sector ->
  leaked (lockWith_attempt i g l1 l2) sector.
Proof.
  intros Hi Hth (p & slk & Hs & Hp & Hlt). assert (g ∈ threads i) as Hg by (rewrite Hth; set_solver).
  destruct (table_lock i g Hi Hg) as [sg Hsg]. unfold lockWith_attempt. rewrite Hsg. simpl default.
  destruct (tryLock sg (g_read g) (g_write g)) as [sg' ok] eqn:E.
  pose proof (tryLock_refs sg (g_read g) (g_write g)) as Hrefs. rewrite E in Hrefs. simpl in Hrefs.
  rewrite Hth in Hlt. pose proof (users_drop p l1 g l2).
  assert (g_slk g = p -> lk_refs sg' = lk_refs slk) as Hsame by (intros; subst p; congruence).
  assert (forall g', g_slk g' = g_slk g -> users p (l1 ++ g' :: l2) = users p (l1 ++ g :: l2)) as Hmid
    by (intros g' Hg'; by rewrite !users_mid, Hg').
  destruct ok; [|destruct (g_phase g) as [[]|]];
    eapply leaked_insert; eauto; intros Eq; rewrite ?(Hsame Eq); try lia; by rewrite Hmid.
Qed.

Lemma leaked_release i g l1 l2 sector :
  table_inv i -> threads i = l1 ++ g :: l2 -> leaked i sector ->
  leaked (lockWith_release i g l1 l2) sector.
Proof.
  intros Hi Hth (p & slk & Hs & Hp & Hlt). assert (g ∈ threads i) as Hg by (rewrite Hth; set_solver).
  destruct (table_lock i g Hi Hg) as [sg Hsg]. unfold lockWith_release. rewrite Hsg. simpl default.
  pose proof (tinv_refs i Hi _ _ Hsg) as Hrg. pose proof (users_drop p l1 g l2) as Hd.
  rewrite Hth in Hlt, Hrg. rewrite users_mid, bool_decide_eq_true_2 in Hrg by done. simpl in Hrg.
  pose proof (users_nonneg (g_slk g) (l1 ++ l2)).
  change (lk_refs (unlock sg (g_read g) (g_write g))) with (lk_refs sg). simpl lk_refs.
  rewrite (u64_small (lk_refs sg - 1)) by (unfold in_u64; lia).
  assert (g_slk g = p -> lk_refs sg = lk_refs slk /\ users p (l1 ++ g :: l2) = 1 + users p (l1 ++ l2)) as Hsame.
  { intros Ep. split; [subst p; congruence|]. by rewrite users_mid, bool_decide_eq_true_2. }
  eapply leaked_insert; eauto; [|intros Eq; simpl; destruct (Hsame Eq); lia|intros; lia].
  destruct (Z.eqb_spec (lk_refs sg - 1) 0) as [E0|]; [|done].
  rewrite lookup_delete_ne; [done|]. intros Eq. pose proof (tinv_threads i Hi g Hg) as Ht.
  rewrite Eq, Hs in Ht. injection Ht as Ht. destruct (Hsame (eq_sym Ht)). rewrite <- Ht in *. lia.
Qed.

Lemma leaked_step i i' sector :
  table_inv i -> leaked i sector -> lock_step i i' -> leaked i' sector.
Proof.
  intros Hi Hl Hstep. destruct Hstep; eauto using leaked_enter, leaked_attempt, leaked_release.
  destruct Hl as (p & slk & Hs & Hp & Hlt). exists p, slk. rewrite H in Hlt.
  pose proof (users_drop p before g after). simpl. auto with lia.
Qed.

Lemma leaked_forever i i' sector :
  table_inv i -> leaked i sector -> rtc lock_step i i' -> leaked i' sector.
Proof.
  intros Hi Hl Hr. induction Hr as [|i j k Hs Hr IH]; [done|].
  apply IH; eauto using lock_step_inv, leaked_step.
Qed.

(** A failed attempt that gives up leaves one reference nobody uses. *)
Lemma failed_attempt_leaks i g l1 l2 slk :
  table_inv i -> threads i = l1 ++ g :: l2 -> g_phase g = Attempting tryLockSafe ->
  heap i !! g_slk g = Some slk -> (tryLock slk (g_read g) (g_write g)).2 = false ->
  leaked (lockWith_attempt i g l1 l2) (g_sector g).
Proof.
  intros Hi Hth Hph Hp Hf. assert (g ∈ threads i) as Hg by (rewrite Hth; set_solver).
  unfold lockWith_attempt. rewrite Hp. simpl default.
  destruct (tryLock slk (g_read g) (g_write g)) as [slk' ok] eqn:E. simpl in Hf. subst ok.
  apply tryLock_fail in E as ->. rewrite Hph. exists (g_slk g), slk. simpl.
  split; [by apply Hi|]. rewrite lookup_insert_eq. split; [done|].
  pose proof (tinv_refs i Hi _ _ Hp) as Hr.
  rewrite Hth, users_mid, bool_decide_eq_true_2 in Hr by done. simpl in Hr. lia.
Qed.

(** a [StorageTryLock] that fails leaks the table entry of its sector: the
    reference it counted is never given back, so from then on, whatever the
    goroutines do and even when all of them have released the lock, the entry
    is never deleted. *)
Theorem failed_trylock_leaks_entry (i i' j : indexLocks) (sector : SectorID) (read write : SectorFileType) :
  rtc lock_step emptyIndexLocks i ->
  (forall p slk, heap i !! p = Some slk -> lk_refs slk < 2 ^ 64 - 1) ->
  Z.of_nat (length (threads i)) < 2 ^ 64 - 1 ->
  lockWith_check read write = Ok true ->
  StorageTryLock i sector read write = (i', Ok false) ->
  rtc lock_step i' j -> is_Some (locks j !! sector).
Proof.
  intros Hreach Hb Hlen Hc Htry Hr. pose proof (reachable_inv i Hreach) as Hi.
  unfold StorageTryLock in Htry. rewrite Hc in Htry.
  set (i1 := lockWith_enter i tryLockSafe sector read write) in *.
  assert (table_inv i1) as Hi1 by (by apply step_enter_inv).
  destruct (threads i1) as [|g rest] eqn:Hth.
  { unfold i1, lockWith_enter in Hth. destruct (locks i !! sector); done. }
  assert (g_sector g = sector /\ g_read g = read /\ g_write g = write /\ g_phase g = Attempting tryLockSafe)
    as (Es & Er & Ew & Eph).
  { unfold i1, lockWith_enter in Hth. destruct (locks i !! sector); injection Hth as <- _; done. }
  assert (g ∈ threads i1) as Hg by (rewrite Hth; left).
  destruct (table_lock i1 g Hi1 Hg) as [slk Hp]. rewrite Hp in Htry. simpl in Htry.
  injection Htry as Hi' Hfail. subst read write.
  assert (leaked i' sector) as Hl.
  { rewrite <- Hi', <- Es. by eapply (failed_attempt_leaks i1 g [] rest). }
  assert (table_inv i') as Hi'inv by (rewrite <- Hi'; by eapply (step_attempt_inv i1 g [] rest)).
  destruct (leaked_forever i' j sector Hi'inv Hl Hr) as (p & s & -> & _). by eexists.
Qed.

(** ** A concrete run

    A reader of the sealed file, then a goroutine that reads the sealed file
    and writes the cache, then a failing attempt to write the sealed file. *)

Definition ex_sector : SectorID := mkSectorID 1000 7.
Definition ex1 : indexLocks := lockWith_enter emptyIndexLocks tryLockSafe ex_sector FTSealed 0.
Definition ex_g1 : goroutine := mkGoroutine ex_sector 0 FTSealed 0 (Attempting tryLockSafe).
Definition ex2 : indexLocks := lockWith_attempt ex1 ex_g1 [] [].
Definition ex3 : indexLocks := lockWith_enter ex2 lock ex_sector FTSealed FTCache.
Definition ex_g2 : goroutine := mkGoroutine ex_sector 0 FTSealed FTCache (Attempting lock).
Definition ex_h1 : goroutine := mkGoroutine ex_sector 0 FTSealed 0 Holding.
Definition ex4 : indexLocks := lockWith_attempt ex3 ex_g2 [] [ex_h1].
Definition ex_h2 : goroutine := mkGoroutine ex_sector 0 FTSealed FTCache Holding.

Lemma refs_bound_check (h : gmap nat sectorLock) :
  bool_decide (map_Forall (fun _ slk => lk_refs slk < 2 ^ 64 - 1) h) = true ->
  forall p slk, h !! p = Some slk -> lk_refs slk < 2 ^ 64 - 1.
Proof. intros H. apply bool_decide_eq_true in H. exact H. Qed.

Lemma ex_run : rtc lock_step emptyIndexLocks ex4.
Proof.
  apply rtc_l with ex1; [apply step_enter; [reflexivity|apply refs_bound_check; reflexivity|reflexivity]|].
  apply rtc_l with ex2; [apply (step_attempt ex1 ex_g1 [] [] tryLockSafe); reflexivity|].
  apply rtc_l with ex3; [apply step_enter; [reflexivity|apply refs_bound_check; reflexivity|reflexivity]|].
  apply rtc_l with ex4; [apply (step_attempt ex3 ex_g2 [] [ex_h1] lock); reflexivity|].
  apply rtc_refl.
Qed.

Lemma sector_lock_exclusion_witness :
  threads ex4 = [ex_h2; ex_h1] /\ Z.testbit (g_write ex_h2) 2 = true /\
  Z.testbit (Z.lor (g_read ex_h1) (g_write ex_h1)) 2 = false.
Proof.
  split; [reflexivity|]. split; [reflexivity|].
  apply (proj1 (sector_lock_exclusion ex4 [] [] [] ex_h2 ex_h1 2 ex_run eq_refl eq_refl eq_refl eq_refl
    ltac:(lia))). reflexivity.
Defined.

Lemma sector_lock_counters_witness :
  readers 0 1 (threads ex4) = 2 /\
  exists slk, heap ex4 !! 0%nat = Some slk /\ lk_r slk !! 1%nat = Some (readers 0 1 (threads ex4)).
Proof.
  split; [reflexivity|]. eexists. split; [reflexivity|].
  apply (proj1 (sector_lock_counters ex4 ex_sector 0 _ 1 ex_run eq_refl eq_refl ltac:(lia))).
Defined.

Lemma failed_trylock_leaks_entry_witness :
  exists i', StorageTryLock ex4 ex_sector 0 FTSealed = (i', Ok false) /\ is_Some (locks i' !! ex_sector).
Proof.
  eexists. split; [reflexivity|].
  eapply (failed_trylock_leaks_entry ex4 _ _ ex_sector 0 FTSealed ex_run);
    [apply refs_bound_check; reflexivity|reflexivity|reflexivity|reflexivity|apply rtc_refl].
Defined.
