(* ===== verification/Limiter.v ===== *)
(** * Task helpers ([harmony/taskhelp])

    [MaxCounter] limits the number of running tasks.  Its two counters are
    pointers to [atomic.Int32] cells; [Instance] makes a counter with a cell of
    its own that shares the other cell with its siblings, so the cells live in
    an explicit memory.  [SliceIfFound] works in place on its slice. *)

From stdpp Require Import base gmap sets list strings.
From Stdlib Require Import ZArith Lia.
From S2P Require Import Prelude.

Module Taskhelp.

(** ** Memory of [atomic.Int32] cells *)

Record mem := mkMem { cells : gmap nat Z; brk : nat }.

Definition emptyMem : mem := mkMem ∅ 0.

Definition Load (c : mem) (p : nat) : Z := default 0 (cells c !! p).

Definition CellAdd (c : mem) (p : nat) (delta : Z) : mem :=
  mkMem (<[p := i32 (Load c p + delta)]> (cells c)) (brk c).

(** [new(atomic.Int32)] *)
Definition NewCell (c : mem) : nat * mem := (brk c, mkMem (<[brk c := 0]> (cells c)) (S (brk c))).

(** ** [MaxCounter] *)

Record MaxCounter := mkMaxCounter { maxN : Z; current : nat; currentThis : nat }.

Definition MaxOf (m : MaxCounter) : Z := maxN m.

Definition Active (m : MaxCounter) (c : mem) : Z := Load c (current m).

Definition ActiveThis (m : MaxCounter) (c : mem) : Z := Load c (currentThis m).

Definition AtMax (m : MaxCounter) (c : mem) : bool :=
  (MaxOf m >? 0) && (Active m c >=? MaxOf m).

Definition UnlimitedHeadroom : Z := 1000000.

Definition Headroom (m : MaxCounter) (c : mem) : Z :=
  if maxN m <=? 0 then UnlimitedHeadroom else MaxOf m - Active m c.

Definition Add (m : MaxCounter) (c : mem) (n : Z) : mem :=
  CellAdd (CellAdd c (current m) (i32 n)) (currentThis m) (i32 n).

Definition Instance_ (m : MaxCounter) (c : mem) : MaxCounter * mem :=
  let '(p, c) := NewCell c in (mkMaxCounter (maxN m) (current m) p, c).

Definition Max (n : Z) (c : mem) : MaxCounter * mem :=
  let '(p, c) := NewCell c in
  let '(q, c) := NewCell c in
  (mkMaxCounter n p q, c).

(** ** Retry delays *)

Definition RetryWaitLinear (initial increment : duration) (retries : Z) : duration :=
  i64 (initial + i64 (i64 retries * increment)).

(** ** [SliceIfFound] *)

(** The assignment [slice[a], slice[b] = slice[b], slice[a]]; indices in range. *)
Definition swap {T} (slice : list T) (a b : nat) : list T :=
  match slice !! a, slice !! b with
  | Some x, Some y => <[b := x]> (<[a := y]> slice)
  | _, _ => slice
  end.

(** The loop from index [i], [n] elements from the end; [v] is read from the
    slice when the iteration starts. *)
Fixpoint sift {T} (f : T -> bool) (n i ct : nat) (slice : list T) : list T * nat :=
  match n with
  | O => (slice, ct)
  | S n' =>
      match slice !! i with
      | None => (slice, ct)
      | Some v =>
          if f v then sift f n' (S i) (S ct) (swap slice ct i)
          else sift f n' (S i) ct slice
      end
  end.

(** The slice after the call, the returned subslice and the flag. *)
Definition SliceIfFound {T} (f : T -> bool) (slice : list T) : list T * (list T * bool) :=
  let '(slice', ct) := sift f (length slice) 0 0 slice in
  if (ct =? 0)%nat then (slice', (slice', false))
  else (slice', (take ct slice', true)).

(** ** Background tasks *)

Definition BackgroundTask (name : string) : string := "bg:" +:+ name.

Definition IsBackgroundTask (name : string) : bool := String.prefix "bg:" name.

(** ** The counters of a group *)

Lemma Load_CellAdd_eq c p d : Load (CellAdd c p d) p = i32 (Load c p + d).
Proof. unfold Load at 1, CellAdd. simpl. by rewrite lookup_insert_eq. Qed.

Lemma Load_CellAdd_ne c p q d : p <> q -> Load (CellAdd c p d) q = Load c q.
Proof. intros H. unfold Load, CellAdd. simpl. by rewrite lookup_insert_ne. Qed.

(** A limiter whose two cells are distinct. *)
Definition limiter_wf (m : MaxCounter) : Prop := current m <> currentThis m.

Lemma Add_current m c n : limiter_wf m ->
  Active m (Add m c n) = i32 (Active m c + i32 n).
Proof.
  intros H. unfold Active, Add. rewrite Load_CellAdd_ne by (intros E; apply H; congruence).
  by rewrite Load_CellAdd_eq.
Qed.

Lemma Add_this m c n : limiter_wf m ->
  ActiveThis m (Add m c n) = i32 (ActiveThis m c + i32 n).
Proof.
  intros H. unfold ActiveThis, Add. rewrite Load_CellAdd_eq. f_equal. f_equal.
  by apply Load_CellAdd_ne.
Qed.

Lemma Add_other m c n p : p <> current m -> p <> currentThis m -> Load (Add m c n) p = Load c p.
Proof. intros H1 H2. unfold Add. by rewrite !Load_CellAdd_ne. Qed.

(** Counters that share the cell [p] and have distinct cells of their own. *)
Definition group_ok (p : nat) (ms : list MaxCounter) : Prop :=
  NoDup (currentThis <$> ms) /\ forall m, m ∈ ms -> current m = p /\ currentThis m <> p.

Definition group_sum (ms : list MaxCounter) (c : mem) : Z := Zsum (fun m => ActiveThis m c) ms.

Lemma i32_add_mod a b : i32 (i32 a + b) = i32 (a + b).
Proof.
  unfold i32, wrap_s. f_equal. set (h := 2 ^ (32 - 1)). set (M := 2 ^ 32).
  replace ((a + h) mod M - h + b + h) with ((a + h) mod M + b) by lia.
  rewrite Z.add_mod_idemp_l by done. f_equal. lia.
Qed.

Lemma i32_add_mod_r a b : i32 (a + i32 b) = i32 (a + b).
Proof. rewrite Z.add_comm, i32_add_mod. f_equal. lia. Qed.

Lemma group_sum_Add p ms c m n : group_ok p ms -> m ∈ ms ->
  i32 (group_sum ms (Add m c n)) = i32 (group_sum ms c + n).
Proof.
  intros [Hnd Hg] Hm. pose proof (Hg m Hm) as [Hcur Hthis].
  apply list_elem_of_split in Hm as (l1 & l2 & ->).
  assert (forall x, x ∈ l1 ++ l2 -> ActiveThis x (Add m c n) = ActiveThis x c) as Hother.
  { intros x Hx. apply Add_other.
    - rewrite Hcur. apply Hg. rewrite !elem_of_app, elem_of_cons in *. tauto.
    - rewrite fmap_app, fmap_cons in Hnd. apply NoDup_app in Hnd as (_ & Hd & Hnd).
      apply NoDup_cons in Hnd as [Hn _]. apply elem_of_app in Hx as [Hx|Hx].
      + intros E. apply (Hd (currentThis x)); [by apply list_elem_of_fmap_2|]. rewrite E. left.
      + intros E. apply Hn. rewrite <- E. by apply list_elem_of_fmap_2. }
  unfold group_sum. rewrite !Zsum_app, !Zsum_cons.
  rewrite (Zsum_ext _ (fun x => ActiveThis x c) l1), (Zsum_ext _ (fun x => ActiveThis x c) l2)
    by (intros x Hx; apply Hother; set_solver).
  rewrite Add_this by (unfold limiter_wf; congruence).
  set (a := Zsum _ l1). set (b := Zsum _ l2). set (x := ActiveThis m c).
  replace (a + (i32 (x + i32 n) + b)) with (a + b + i32 (x + i32 n)) by lia.
  rewrite i32_add_mod_r. replace (a + b + (x + i32 n)) with (a + b + x + i32 n) by lia.
  rewrite i32_add_mod_r. f_equal. lia.
Qed.

Lemma group_Add p ms c m n : group_ok p ms -> m ∈ ms ->
  Load c p = i32 (group_sum ms c) -> Load (Add m c n) p = i32 (group_sum ms (Add m c n)).
Proof.
  intros Hg Hm H. destruct (proj2 Hg m Hm) as [Hcur Hthis].
  rewrite (group_sum_Add p) by done. rewrite <- i32_add_mod, <- H, <- Hcur.
  change (Load (Add m c n) (current m)) with (Active m (Add m c n)).
  rewrite Add_current by (unfold limiter_wf; congruence). by rewrite i32_add_mod_r.
Qed.

(** [k] instances of one counter, as [harmonytask.New] makes one per task type
    that shares the limiter. *)
Fixpoint instances (k : nat) (m : MaxCounter) (c : mem) : list MaxCounter * mem :=
  match k with
  | O => ([], c)
  | S k' =>
      let '(i, c) := Instance_ m c in
      let '(ins, c) := instances k' m c in
      (i :: ins, c)
  end.

(** A sequence of [Add] calls on the counters of a list. *)
Fixpoint adds (ms : list MaxCounter) (c : mem) (ops : list (nat * Z)) : mem :=
  match ops with
  | [] => c
  | (k, n) :: ops' =>
      match ms !! k with
      | Some m => adds ms (Add m c n) ops'
      | None => adds ms c ops'
      end
  end.

Lemma instances_spec k m c ms c' : instances k m c = (ms, c') -> (current m < brk c)%nat ->
  group_ok (current m) ms /\ (forall x, x ∈ ms -> maxN x = maxN m) /\
  (forall x, x ∈ ms -> (brk c <= currentThis x)%nat) /\
  (forall x, x ∈ ms -> ActiveThis x c' = 0) /\
  (forall p, (p < brk c)%nat -> Load c' p = Load c p) /\ length ms = k.
Proof.
  revert c ms c'. induction k as [|k IH]; intros c ms c' Hi Hlt; simpl in Hi.
  - injection Hi as <- <-. split; [split; [apply NoDup_nil_2|]|];
      repeat split; try done; intros; exfalso; by eapply not_elem_of_nil.
  - destruct (instances k m _) as [ins c2] eqn:E. injection Hi as <- <-.
    destruct (IH _ _ _ E) as ((Hnd & Hg) & Hn & Hb & Hz & Hl & Hk); [simpl; lia|]. simpl in Hb.
    assert (Load c2 (brk c) = 0) as Hz0.
    { rewrite Hl by (simpl; lia). unfold Load. simpl. by rewrite lookup_insert_eq. }
    split; [split|].
    + rewrite fmap_cons. constructor; [|done]. simpl. intros Hin.
      apply list_elem_of_fmap_1 in Hin as (x & Ex & Hx). specialize (Hb x Hx). lia.
    + intros x Hx. apply elem_of_cons in Hx as [->|Hx]; [simpl; split; [done|lia]|by apply Hg].
    + repeat split.
      * intros x Hx. apply elem_of_cons in Hx as [->|Hx]; [done|by apply Hn].
      * intros x Hx. apply elem_of_cons in Hx as [->|Hx]; [simpl; lia|]. specialize (Hb x Hx). lia.
      * intros x Hx. apply elem_of_cons in Hx as [->|Hx]; [done|by apply Hz].
      * intros p Hp. rewrite Hl by (simpl; lia). unfold Load. simpl. by rewrite lookup_insert_ne by lia.
      * simpl. by rewrite Hk.
Qed.

Lemma adds_group p ms c ops : group_ok p ms ->
  Load c p = i32 (group_sum ms c) -> Load (adds ms c ops) p = i32 (group_sum ms (adds ms c ops)).
Proof.
  intros Hg. revert c. induction ops as [|[k n] ops IH]; intros c H; [done|]. simpl.
  destruct (ms !! k) as [m|] eqn:E; [|by apply IH].
  apply IH. eapply group_Add; eauto. by eapply list_elem_of_lookup_2.
Qed.

(** the instances of one limiter share its counter: after [Max n] and [k]
    calls of [Instance], and any sequence of [Add] calls on the instances, the
    group count that [AtMax] and [Headroom] use is the [int32] sum of the
    per-instance counts. *)
Theorem limiter_group_count (n : Z) (k : nat) (c : mem) (ops : list (nat * Z)) :
  let '(m, c1) := Max n c in
  let '(ms, c2) := instances k m c1 in
  let c3 := adds ms c2 ops in
  forall x, x ∈ ms ->
    MaxOf x = n /\ Active x c3 = i32 (Zsum (fun y => ActiveThis y c3) ms).
Proof.
  destruct (Max n c) as [m c1] eqn:Em. unfold Max in Em. simpl in Em. injection Em as <- <-.
  destruct (instances k _ _) as [ms c2] eqn:Ei.
  destruct (instances_spec _ _ _ _ _ Ei) as (Hg & Hn & Hb & Hz & Hl & Hk); [simpl; lia|].
  simpl in *. intros x Hx. split; [by apply Hn|].
  unfold Active. rewrite (proj1 (proj2 Hg x Hx)). apply adds_group; [done|].
  rewrite Hl by lia. unfold group_sum.
  rewrite (Zsum_ext _ (fun _ => 0)) by (intros y Hy; by apply Hz).
  unfold Load. simpl. rewrite lookup_insert_ne, lookup_insert_eq by lia. simpl.
  assert (Zsum (fun _ : MaxCounter => 0) ms = 0) as ->; [|done].
  clear. induction ms as [|a l IH]; [done|]. by rewrite Zsum_cons, IH.
Qed.

(** ** [SliceIfFound] selects without reordering *)

Lemma swap_mid {T} (A B C : list T) (b v : T) :
  swap (A ++ (b :: B) ++ v :: C) (length A) (length A + length (b :: B)) = (A ++ [v]) ++ (B ++ [b]) ++ C.
Proof.
  unfold swap.
  assert ((A ++ (b :: B) ++ v :: C) !! length A = Some b) as -> by (by apply list_lookup_middle).
  assert ((A ++ (b :: B) ++ v :: C) !! (length A + length (b :: B))%nat = Some v) as ->.
  { rewrite app_assoc. apply list_lookup_middle. by rewrite length_app. }
  rewrite (insert_app_r_alt A), Nat.sub_diag by lia. cbn [app].
  change (<[0%nat:=v]> (b :: B ++ v :: C)) with (v :: B ++ v :: C).
  replace (A ++ v :: B ++ v :: C) with ((A ++ v :: B) ++ v :: C) by (by rewrite <- app_assoc).
  rewrite insert_app_r_alt by (rewrite length_app; simpl; lia).
  replace (length A + length (b :: B) - length (A ++ v :: B))%nat with 0%nat
    by (rewrite length_app; simpl; lia).
  change (<[0%nat:=b]> (v :: C)) with (b :: C). by rewrite <- !app_assoc.
Qed.

Lemma swap_same {T} (A C : list T) (v : T) :
  swap (A ++ v :: C) (length A) (length A) = (A ++ [v]) ++ C.
Proof.
  unfold swap. rewrite list_lookup_middle by done. rewrite list_insert_insert_eq.
  rewrite list_insert_id by (by apply list_lookup_middle). by rewrite <- app_assoc.
Qed.

Lemma sift_spec {T} (f : T -> bool) (C A B : list T) :
  Forall (fun x => f x = false) B ->
  exists B', sift f (length C) (length A + length B) (length A) (A ++ B ++ C) =
    (A ++ List.filter f C ++ B', (length A + length (List.filter f C))%nat) /\
    B' ≡ₚ B ++ List.filter (fun x => negb (f x)) C.
Proof.
  revert A B. induction C as [|v C IH]; intros A B HB; cbn [sift length List.filter].
  - exists B. rewrite !app_nil_r, Nat.add_0_r. by rewrite app_nil_l.
  - rewrite app_assoc, list_lookup_middle by (by rewrite length_app). rewrite <- app_assoc.
    destruct (f v) eqn:Ev; cbn [negb].
    + assert (exists B2, swap (A ++ B ++ v :: C) (length A) (length A + length B) = (A ++ [v]) ++ B2 ++ C
        /\ B2 ≡ₚ B /\ length B2 = length B) as (B2 & -> & HP & HL).
      { destruct B as [|b B].
        - exists []. rewrite Nat.add_0_r. split; [apply swap_same|done].
        - exists (B ++ [b]). split; [apply swap_mid|]. split; [by rewrite Permutation_app_comm|].
          rewrite length_app. simpl. lia. }
      destruct (IH (A ++ [v]) B2) as (B' & E & HB'); [by rewrite HP|].
      rewrite length_app, HL in E. cbn [length] in E.
      replace (length A + 1 + length B)%nat with (S (length A + length B)) in E by lia.
      replace (length A + 1)%nat with (S (length A)) in E by lia.
      exists B'. rewrite E. split; [|by rewrite HB', HP]. f_equal; [by rewrite <- app_assoc|].
      simpl. lia.
    + destruct (IH A (B ++ [v])) as (B' & E & HB').
      { apply Forall_app. split; [done|]. by constructor. }
      rewrite length_app, <- app_assoc in E. cbn [length app] in E.
      replace (length A + (length B + 1))%nat with (S (length A + length B)) in E by lia.
      exists B'. rewrite E. split; [done|]. by rewrite HB', <- app_assoc.
Qed.

Lemma sift_none {T} (f : T -> bool) n i ct (slice : list T) :
  (forall x, In x slice -> f x = false) -> sift f n i ct slice = (slice, ct).
Proof.
  intros H. revert i. induction n as [|n IH]; intros i; [done|]. simpl.
  destruct (slice !! i) as [v|] eqn:E; [|done].
  rewrite H by (apply list_elem_of_In; by eapply list_elem_of_lookup_2). apply IH.
Qed.

(** [SliceIfFound] rearranges its slice in place into a permutation of it
    and, when some element satisfies the predicate, returns exactly the
    satisfying elements in their original order with [true]; when none does,
    it returns the unchanged slice with [false]. *)
Theorem SliceIfFound_spec {T} (f : T -> bool) (slice : list T) :
  (SliceIfFound f slice).1 ≡ₚ slice /\
  (SliceIfFound f slice).2 =
    if existsb f slice then (List.filter f slice, true) else (slice, false).
Proof.
  unfold SliceIfFound. destruct (existsb f slice) eqn:Ex.
  - destruct (sift_spec f slice [] []) as (B' & E & HB'); [done|].
    cbn [app length Nat.add] in E, HB'. rewrite E.
    assert (length (List.filter f slice) <> 0)%nat as Hlen.
    { apply existsb_exists in Ex as (y & Hy & Hf). intros Hl. apply length_zero_iff_nil in Hl.
      assert (In y (List.filter f slice)) as Hin by (by apply filter_In). by rewrite Hl in Hin. }
    rewrite (proj2 (Nat.eqb_neq _ _) Hlen). cbn [fst snd]. split; [|by rewrite take_app_length].
    rewrite HB'. clear. induction slice as [|a l IH]; [done|]. cbn [List.filter].
    destruct (f a); cbn [negb app]; [by rewrite IH|]. by rewrite <- Permutation_middle, IH.
  - rewrite sift_none; [done|]. intros x Hx. apply not_true_iff_false. intros Hf.
    apply not_true_iff_false in Ex. apply Ex, existsb_exists. eauto.
Qed.

End Taskhelp.
