(* ===== verification/HarmonyDB.v ===== *)
(** * The harmony tables and the SQL of the task engine

    The tables that [harmony/harmonytask] and [harmony/resources] use, and one
    function per SQL statement of those files.  [ext] stands for every other
    table of the database, which the callbacks of task implementations change
    in the same transaction.  The schema is that of
    [harmony/harmonydb/sql]: deleting a machine sets the [owner_id] of its tasks
    to NULL, deleting a task sets the [task_id] of its singleton to NULL, and
    serial ids are not given back by a rollback. *)

From stdpp Require Import base gmap sets list strings sorting.
From Stdlib Require Import ZArith Lia SpecFloat.
From S2P Require Import Prelude.

Abbreviation TaskID := Z (only parsing).

Record task_row := mkTask {
  t_name : string;
  t_owner : option Z;
  t_added_by : Z;
  t_previous : option Z;
  t_posted : time;
  t_update : time;
  t_retries : Z
}.

Record history_row := mkHistory {
  hs_id : Z;
  hs_task : Z;
  hs_name : string;
  hs_posted : time;
  hs_work_start : time;
  hs_work_end : time;
  hs_result : bool;
  hs_host : string;
  hs_err : string
}.

Record machine_row := mkMachine {
  m_host : string;
  m_cpu : Z;
  m_ram : Z;
  m_gpu : spec_float;
  m_last_contact : time;
  m_unschedulable : bool;
  m_restart_request : option time
}.

Record singleton_row := mkSingleton {
  s_task_id : option Z;
  s_last_run : time;
  s_run_now : bool
}.

Record db (X : Type) := mkDB {
  tasks : gmap Z task_row;                (* harmony_task *)
  task_seq : Z;                           (* next serial id of harmony_task *)
  history : list history_row;             (* harmony_task_history, oldest first *)
  events : list (Z * Z * Z);              (* sectors_pipeline_events *)
  machines : gmap Z machine_row;          (* harmony_machines *)
  machine_seq : Z;
  singletons : gmap string singleton_row; (* harmony_task_singletons *)
  ext : X                                 (* every other table *)
}.
Arguments mkDB {X} tasks task_seq history events machines machine_seq singletons ext.
Arguments tasks {X} d : rename.
Arguments task_seq {X} d : rename.
Arguments history {X} d : rename.
Arguments events {X} d : rename.
Arguments machines {X} d : rename.
Arguments machine_seq {X} d : rename.
Arguments singletons {X} d : rename.
Arguments ext {X} d : rename.

(** Errors of a statement or a commit, as [IsErrUniqueContraint] and
    [IsErrSerialization] classify them. *)
Inductive dberr := UniqueConstraint | Serialization | OtherError.

Section Statements.
Context {X : Type}.
Implicit Types d : db X.

Definition with_tasks d (t : gmap Z task_row) : db X :=
  mkDB t (task_seq d) (history d) (events d) (machines d) (machine_seq d) (singletons d) (ext d).
Definition with_ext d (x : X) : db X :=
  mkDB (tasks d) (task_seq d) (history d) (events d) (machines d) (machine_seq d) (singletons d) x.
Definition with_singletons d (s : gmap string singleton_row) : db X :=
  mkDB (tasks d) (task_seq d) (history d) (events d) (machines d) (machine_seq d) s (ext d).
Definition with_machines d (m : gmap Z machine_row) : db X :=
  mkDB (tasks d) (task_seq d) (history d) (events d) m (machine_seq d) (singletons d) (ext d).

Definition set_owner (o : option Z) (r : task_row) : task_row :=
  mkTask (t_name r) o (t_added_by r) (t_previous r) (t_posted r) (t_update r) (t_retries r).

(** [INSERT INTO harmony_task (name, added_by, posted_time) VALUES ($1, $2,
    CURRENT_TIMESTAMP) RETURNING id]: the other columns take their defaults. *)
Definition insert_task d (name : string) (added_by : Z) (now : time) : db X * TaskID :=
  (mkDB (<[task_seq d := mkTask name None added_by None now now 0]> (tasks d)) (task_seq d + 1)
     (history d) (events d) (machines d) (machine_seq d) (singletons d) (ext d), task_seq d).

(** What a rollback keeps of a transaction that had inserted one task: the
    serial id is spent. *)
Definition rollback_insert d : db X :=
  mkDB (tasks d) (task_seq d + 1) (history d) (events d) (machines d) (machine_seq d)
    (singletons d) (ext d).

(** [ON DELETE SET NULL] of [harmony_task_singletons.task_id]. *)
Definition singleton_unref (id : TaskID) (s : singleton_row) : singleton_row :=
  if decide (s_task_id s = Some id) then mkSingleton None (s_last_run s) (s_run_now s) else s.

(** [DELETE FROM harmony_task WHERE id=$1] *)
Definition delete_task d (id : TaskID) : db X :=
  with_singletons (with_tasks d (delete id (tasks d))) (singleton_unref id <$> singletons d).

(** [UPDATE harmony_task SET owner_id=NULL, retries=$1,
    update_time=CURRENT_TIMESTAMP WHERE id=$2] *)
Definition disown_failed d (id : TaskID) (retries : Z) (now : time) : db X :=
  with_tasks d (alter (fun r => mkTask (t_name r) None (t_added_by r) (t_previous r) (t_posted r) now retries)
                  id (tasks d)).

(** [UPDATE harmony_task SET owner_id=NULL WHERE id=$1 AND owner_id=$2] *)
Definition disown_if_owner d (id : TaskID) (owner : Z) : db X :=
  with_tasks d (alter (fun r => if decide (t_owner r = Some owner) then set_owner None r else r) id (tasks d)).

(** [UPDATE harmony_task SET owner_id = NULL WHERE id = ANY($1)] *)
Definition disown_all d (ids : list TaskID) : db X :=
  with_tasks d (foldr (fun id ts => alter (set_owner None) id ts) (tasks d) ids).

(** The rows of [JOIN unnest($2) ... ORDER BY array_position($2, t.id)]: an id
    that occurs several times in the array gives as many adjacent rows, at the
    place of its first occurrence. *)
Fixpoint nub (ids : list TaskID) : list TaskID :=
  match ids with
  | [] => []
  | x :: l => x :: List.filter (fun y => negb (y =? x)) (nub l)
  end.

Definition by_array_position (ids : list TaskID) : list TaskID :=
  mbind (fun x => List.filter (fun y => y =? x) ids) (nub ids).

(** A row the claim may take: present, without an owner, not locked by a
    concurrent transaction ([FOR UPDATE SKIP LOCKED]). *)
Definition claimable d (locked : TaskID -> bool) (id : TaskID) : bool :=
  match tasks d !! id with
  | Some r => bool_decide (t_owner r = None) && negb (locked id)
  | None => false
  end.

(** The claim of [considerWork]: the first [limit] claimable rows get the owner,
    and their ids are returned.  A negative limit is an error of the database,
    and so is an owner that is no machine (the foreign key of [owner_id]). *)
Definition claim_tasks d (locked : TaskID -> bool) (owner : Z) (ids : list TaskID) (limit : Z)
    : option (db X * list TaskID) :=
  if limit <? 0 then None
  else if bool_decide (machines d !! owner = None) then None
  else
    let candidates := take (Z.to_nat limit) (List.filter (claimable d locked) (by_array_position ids)) in
    let claimed := nub candidates in
    Some (with_tasks d (foldr (fun id ts => alter (set_owner (Some owner)) id ts) (tasks d) claimed), claimed).

(** [SELECT id, update_time, retries FROM harmony_task WHERE owner_id IS NULL
    AND name=$1 ORDER BY update_time LIMIT 512] *)
Definition by_update (a b : TaskID * task_row) : Prop := t_update a.2 <= t_update b.2.

#[export] Instance by_update_dec a b : Decision (by_update a b).
Proof. unfold by_update. apply _. Defined.

Definition select_unowned d (name : string) : list (TaskID * task_row) :=
  take 512 (merge_sort by_update
    (List.filter (fun p => bool_decide (t_owner p.2 = None) && bool_decide (t_name p.2 = name))
       (map_to_list (tasks d)))).

(** [SELECT id FROM harmony_task WHERE owner_id = $1 AND name=$2 ...]: whether
    it returns a row. *)
Definition has_assigned d (owner : Z) (name : string) : bool :=
  existsb (fun p => bool_decide (t_owner p.2 = Some owner) && bool_decide (t_name p.2 = name))
    (map_to_list (tasks d)).

(** [SELECT id, name from harmony_task WHERE owner_id=$1] *)
Definition select_owned d (owner : Z) : list (TaskID * string) :=
  map (fun p => (p.1, t_name p.2))
    (List.filter (fun p => bool_decide (t_owner p.2 = Some owner)) (map_to_list (tasks d))).

(** [INSERT INTO harmony_task_history ... RETURNING id]; the serial id is the
    number of rows written so far plus one. *)
Definition insert_history d (task : TaskID) (name : string) (posted wstart wend : time)
    (done : bool) (host err : string) : db X * Z :=
  let hid := Z.of_nat (length (history d)) + 1 in
  (mkDB (tasks d) (task_seq d)
     (history d ++ [mkHistory hid task name posted wstart wend done host err])
     (events d) (machines d) (machine_seq d) (singletons d) (ext d), hid).

(** [append_sector_pipeline_events] *)
Definition append_event d (sp sector hid : Z) : db X :=
  mkDB (tasks d) (task_seq d) (history d)
    (if decide ((sp, sector, hid) ∈ events d) then events d else events d ++ [(sp, sector, hid)])
    (machines d) (machine_seq d) (singletons d) (ext d).

(** ** Machines *)

(** [ON DELETE SET NULL] of [harmony_task.owner_id]. *)
Definition disown_machines (dead : Z -> bool) (r : task_row) : task_row :=
  match t_owner r with
  | Some o => if dead o then set_owner None r else r
  | None => r
  end.

(** [DELETE FROM harmony_machines WHERE last_contact < CURRENT_TIMESTAMP - $1] *)
Definition delete_stale_machines d (now : time) (timeout : duration) : db X * Z :=
  let stale m := m_last_contact m <? now - timeout in
  let dead o := match machines d !! o with Some m => stale m | None => false end in
  (with_tasks
     (with_machines d (filter (fun p => stale p.2 = false) (machines d)))
     (disown_machines dead <$> tasks d),
   Z.of_nat (length (List.filter (fun p => stale p.2) (map_to_list (machines d))))).

End Statements.
