(* ===== verification/Float64.v ===== *)
(** * [float64]

    GPU amounts are [float64]: the model uses the IEEE 754 binary64 operations
    of the standard library's [SpecFloat].  The lemmas relate the comparison of
    two floats to the truncation of a float to an integer. *)

From stdpp Require Import base tactics.
From Stdlib Require Import ZArith Lia SpecFloat.
From S2P Require Import Prelude.

Definition float64 := spec_float.
Definition f64_sub (a b : float64) : float64 := SFsub 53 1024 a b.
Definition f64_mul (a b : float64) : float64 := SFmul 53 1024 a b.
Definition f64_div (a b : float64) : float64 := SFdiv 53 1024 a b.
Definition f64_ltb (a b : float64) : bool := SFltb a b.

(** [float64(n)] of an integer: round to nearest. *)
Definition f64_of_Z (n : Z) : float64 := binary_normalize 53 1024 n 0 false.

(** [int(f)] of a finite float: truncation towards zero.  The conversion of an
    infinity or a NaN, which Go leaves to the implementation, is given as 0. *)
Definition Z_of_f64 (f : float64) : Z :=
  match f with
  | S754_finite s m e =>
      let v := if 0 <=? e then Z.pos m * 2 ^ e else Z.pos m / 2 ^ (- e) in
      if s then - v else v
  | _ => 0
  end.

(** ** Size of a mantissa *)

Lemma digits2_pos_bounds p : 2 ^ (Z.pos (digits2_pos p) - 1) <= Z.pos p < 2 ^ Z.pos (digits2_pos p).
Proof.
  induction p as [p IH|p IH|]; cbn [digits2_pos]; [| |cbn; lia].
  all: rewrite Pos2Z.inj_succ; set (d := Z.pos (digits2_pos p)) in *.
  all: assert (0 < d) by (unfold d; lia).
  all: replace (Z.succ d - 1) with (Z.succ (d - 1)) by lia.
  all: rewrite !Z.pow_succ_r by lia; lia.
Qed.

Lemma Zdigits2_bound m : Z.abs m < 2 ^ Zdigits2 m.
Proof.
  destruct m as [|p|p]; cbn [Zdigits2 Z.abs]; [lia| |]; apply digits2_pos_bounds.
Qed.

Lemma shr_1_abs r : Z.abs (shr_m (shr_1 r)) = Z.abs (shr_m r) / 2.
Proof.
  destruct r as [m b s]. destruct m as [|[p|p|]|[p|p|]]; cbn [shr_1 shr_m Z.abs]; try done.
  all: first [apply (Z.div_unique _ _ _ 1); lia | apply (Z.div_unique _ _ _ 0); lia].
Qed.

Lemma iter_shr_abs p r : Z.abs (shr_m (iter_pos shr_1 p r)) = Z.abs (shr_m r) / 2 ^ Z.pos p.
Proof.
  revert r. induction p as [p IH|p IH|]; intros r; cbn [iter_pos].
  - rewrite !IH, shr_1_abs, !Z.div_div by lia. f_equal.
    rewrite Pos2Z.inj_xI.
    replace (2 * Z.pos p + 1) with (1 + (Z.pos p + Z.pos p)) by lia.
    rewrite !Z.pow_add_r by lia. lia.
  - rewrite !IH, Z.div_div by lia. f_equal.
    change (Z.pos p~0) with (2 * Z.pos p).
    replace (2 * Z.pos p) with (Z.pos p + Z.pos p) by lia. by rewrite Z.pow_add_r by lia.
  - by rewrite shr_1_abs.
Qed.

Lemma shr_record_of_loc_m m l : shr_m (shr_record_of_loc m l) = m.
Proof. by destruct l as [|[]]. Qed.

(** Shifting to the exponent of the format leaves at most 53 bits. *)
Lemma shr_fexp_small m e l : Z.abs (shr_m (shr_fexp 53 1024 m e l).1) < 2 ^ 53.
Proof.
  unfold shr_fexp, shr. pose proof (Zdigits2_bound m) as Hb.
  set (n := fexp 53 1024 (Zdigits2 m + e) - e).
  assert (Zdigits2 m - 53 <= n) as Hn by (unfold n, fexp; lia). clearbody n.
  assert (0 <= Zdigits2 m) by (by destruct m).
  assert (n <= 0 -> Z.abs m < 2 ^ 53) as Hsmall.
  { intros ?. eapply Z.lt_le_trans; [exact Hb|]. apply Z.pow_le_mono_r; lia. }
  destruct n as [|p|p]; cbn [fst]; rewrite ?shr_record_of_loc_m; [apply Hsmall; lia| |apply Hsmall; lia].
  rewrite iter_shr_abs, shr_record_of_loc_m. apply Z.div_lt_upper_bound; [lia|].
  eapply Z.lt_le_trans; [exact Hb|]. rewrite <- Z.pow_add_r by lia. apply Z.pow_le_mono_r; lia.
Qed.

Lemma round_mantissa_small sx mx ex lx s m e :
  binary_round_aux 53 1024 sx mx ex lx = S754_finite s m e -> Z.pos m < 2 ^ 53.
Proof.
  unfold binary_round_aux. destruct (shr_fexp _ _ mx ex lx) as [mrs' e'].
  set (m2 := round_nearest_even _ _). pose proof (shr_fexp_small m2 e' loc_Exact) as Hs.
  destruct (shr_fexp _ _ m2 e' loc_Exact) as [mrs'' e'']. cbn [fst] in Hs.
  destruct (shr_m mrs'') as [|p|p]; try done. case_ifs; [|done]. intros [= _ <- _]. lia.
Qed.

Lemma f64_div_mantissa a b s m e : f64_div a b = S754_finite s m e -> Z.pos m < 2 ^ 53.
Proof.
  unfold f64_div, SFdiv. destruct a, b; try done.
  destruct (SFdiv_core_binary _ _ _ _ _ _) as [[mz ez] lz]. apply round_mantissa_small.
Qed.

(** ** Integers below 2^53 are exact *)

Lemma iter_xO m d : Z.pos (Pos.iter xO m d) = Z.pos m * 2 ^ Z.pos d.
Proof.
  revert m. induction d as [|d IH] using Pos.peano_ind; intros m; [cbn; lia|].
  rewrite Pos.iter_succ, Pos2Z.inj_xO, IH, Pos2Z.inj_succ, Z.pow_succ_r by lia. lia.
Qed.

Lemma digits2_unique p d : 2 ^ (d - 1) <= Z.pos p < 2 ^ d -> Z.pos (digits2_pos p) = d.
Proof.
  intros H. pose proof (digits2_pos_bounds p) as Hb. set (c := Z.pos (digits2_pos p)) in *.
  assert (0 < c) by (unfold c; lia). destruct (Z.lt_total c d) as [Hlt|[He|Hgt]]; [|done|].
  - assert (2 ^ c <= 2 ^ (d - 1)) by (apply Z.pow_le_mono_r; lia). lia.
  - assert (2 ^ d <= 2 ^ (c - 1)) by (apply Z.pow_le_mono_r; lia). lia.
Qed.

(** A mantissa of 53 bits in the range of exponents is its own rounding. *)
Lemma round_exact m e : 2 ^ 52 <= Z.pos m < 2 ^ 53 -> -1074 <= e <= 971 ->
  binary_round_aux 53 1024 false (Z.pos m) e loc_Exact = S754_finite false m e.
Proof.
  intros Hm He. assert (Z.pos (digits2_pos m) = 53) as Hd by (apply digits2_unique; done).
  assert (shr_fexp 53 1024 (Z.pos m) e loc_Exact = (Build_shr_record (Z.pos m) false false, e)) as Hs.
  { unfold shr_fexp, shr. cbn [Zdigits2 shr_record_of_loc]. rewrite Hd.
    replace (fexp 53 1024 (53 + e) - e) with 0 by (unfold fexp, emin; lia). done. }
  unfold binary_round_aux. rewrite Hs. cbn [shr_m loc_of_shr_record round_nearest_even].
  rewrite Hs. cbn [shr_m]. by rewrite (proj2 (Z.leb_le _ _)) by lia.
Qed.

Lemma f64_of_Z_exact n : 0 < n < 2 ^ 53 ->
  exists m e, f64_of_Z n = S754_finite false m e /\ 2 ^ 52 <= Z.pos m < 2 ^ 53 /\
    e <= 0 /\ Z.pos m = n * 2 ^ (- e).
Proof.
  intros Hn. destruct n as [|p|p]; [lia| |lia]. pose proof (digits2_pos_bounds p) as Hb.
  set (D := Z.pos (digits2_pos p)) in *. assert (0 < D) by (unfold D; lia).
  assert (D <= 53) as HD.
  { destruct (Z.le_gt_cases D 53); [done|]. assert (2 ^ 53 <= 2 ^ (D - 1)) by (apply Z.pow_le_mono_r; lia). lia. }
  unfold f64_of_Z. cbn [binary_normalize]. unfold binary_round, shl_align. fold D.
  replace (fexp 53 1024 (D + 0)) with (D - 53) by (unfold fexp, emin; lia). rewrite Z.sub_0_r.
  assert (2 ^ 52 <= Z.pos p * 2 ^ (53 - D) < 2 ^ 53) as Hr.
  { replace (2 ^ 52) with (2 ^ (D - 1) * 2 ^ (53 - D)) by (rewrite <- Z.pow_add_r by lia; f_equal; lia).
    replace (2 ^ 53) with (2 ^ D * 2 ^ (53 - D)) by (rewrite <- Z.pow_add_r by lia; f_equal; lia).
    pose proof (Z.pow_pos_nonneg 2 (53 - D)). nia. }
  destruct (D - 53) as [|q|q] eqn:E; [|lia|].
  - replace (53 - D) with 0 in Hr by lia. exists p, 0. rewrite round_exact by lia.
    split; [done|]. cbn. lia.
  - replace (53 - D) with (Z.pos q) in Hr by lia. exists (Pos.iter xO p q), (Z.neg q).
    rewrite round_exact; [|rewrite iter_xO; exact Hr|lia].
    split; [done|]. rewrite iter_xO. split; [exact Hr|]. split; [lia|done].
Qed.

(** A quotient that compares below an integer is truncated to at most it. *)
Lemma f64_div_trunc_le a b n : 0 <= n < 2 ^ 53 ->
  f64_ltb (f64_div a b) (f64_of_Z n) = true -> Z_of_f64 (f64_div a b) <= n.
Proof.
  intros Hn Hlt. destruct (f64_div a b) as [s|s| |s m e] eqn:Ed; cbn [Z_of_f64]; try lia.
  assert (0 <= (if 0 <=? e then Z.pos m * 2 ^ e else Z.pos m / 2 ^ (- e))) as Hpos.
  { case_ifs; bool_props; [pose proof (Z.pow_nonneg 2 e); nia|]. apply Z.div_pos; [lia|].
    apply Z.pow_pos_nonneg; lia. }
  destruct s; [lia|]. clear Hpos. pose proof (f64_div_mantissa _ _ _ _ _ Ed) as Hm.
  destruct (Z.eq_dec n 0) as [->|Hn0]; [done|].
  destruct (f64_of_Z_exact n) as (mn & en & Hf & Hmn & Hen & Hv); [lia|]. rewrite Hf in Hlt.
  unfold f64_ltb, SFltb in Hlt. cbn [SFcompare] in Hlt.
  assert (e < en \/ e = en /\ (m < mn)%positive) as Hc.
  { destruct (Z.compare_spec e en) as [->| |]; [right|by left|done].
    split; [done|]. unfold Pos.lt. change (Pos.compare m mn) with (Pos.compare_cont Eq m mn).
    by destruct (Pos.compare_cont Eq m mn). }
  assert (Z.pos m < n * 2 ^ (- e)) as Hlt'.
  { destruct Hc as [Hlt'|[-> Hlt']]; [|lia].
    assert (2 ^ (- en) * 2 ^ (en - e) = 2 ^ (- e)) as Hp by (rewrite <- Z.pow_add_r by lia; f_equal; lia).
    rewrite <- Hp, Z.mul_assoc, <- Hv.
    assert (2 <= 2 ^ (en - e)) by (apply (Z.pow_le_mono_r 2 1); lia). nia. }
  destruct (0 <=? e) eqn:He; bool_props.
  - assert (e = 0) as -> by lia. rewrite Z.pow_0_r. lia.
  - apply Z.lt_le_incl, Z.div_lt_upper_bound; [apply Z.pow_pos_nonneg; lia|lia].
Qed.
