(* ===== verification/Resources.v ===== *)
(** * Machine resources ([harmony/resources/resources.go])

    The resources of a node, its registration in [harmony_machines], its
    heartbeat, and the reaping of machines that look dead. *)

From stdpp Require Import base gmap sets list strings.
From Stdlib Require Import ZArith Lia.
From S2P Require Import Prelude Float64 HarmonyDB.

(** ** Resources *)

Record Resources := mkResources {
  Cpu : Z;
  Gpu : float64;
  Ram : Z;
  MachineID : Z;
  Storage : bool      (* whether the [Storage] interface is set *)
}.

Definition LOOKS_DEAD_TIMEOUT : duration := 10 * Minute.

(** [CleanupMachines]: the error of the statement ([fail]) is logged only. *)
Definition CleanupMachines {X} (d : db X) (fail : bool) (now : time) : db X * Z :=
  if fail then (d, 0)
  else delete_stale_machines d now
         (Z.quot LOOKS_DEAD_TIMEOUT Millisecond * Millisecond).

(** ** Registration *)

Definition register_update (res : Resources) (now : time) (m : machine_row) : machine_row :=
  mkMachine (m_host m) (Cpu res) (Ram res) (Gpu res) now (m_unschedulable m) (m_restart_request m).

(** The upsert of [Register]: update every row of the host, or insert one when
    there is none; [Scan] takes the id of the first row returned. *)
Definition register_upsert {X} (d : db X) (host : string) (res : Resources) (now : time) : db X * option Z :=
  let mine := List.filter (fun p => bool_decide (m_host p.2 = host)) (map_to_list (machines d)) in
  match mine with
  | [] =>
      (mkDB (tasks d) (task_seq d) (history d) (events d)
         (<[machine_seq d := mkMachine host (Cpu res) (Ram res) (Gpu res) now false None]> (machines d))
         (machine_seq d + 1) (singletons d) (ext d), Some (machine_seq d))
  | (id, _) :: _ =>
      (with_machines d
         ((fun m => if bool_decide (m_host m = host) then register_update res now m else m) <$> machines d),
       Some id)
  end.

Inductive register_error := InspectFailed | UpsertFailed | NoOwnerID.

Definition Register {X} (d : db X) (host : string) (inspector : option Resources)
    (upsert_fail cleanup_fail : bool) (now : time) : result (db X * Resources) register_error :=
  match inspector with
  | None => Err InspectFailed
  | Some res =>
      if upsert_fail then Err UpsertFailed
      else
        let '(d, ownerID) := register_upsert d host res now in
        match ownerID with
        | None => Err NoOwnerID
        | Some id =>
            let '(d, _) := CleanupMachines d cleanup_fail now in
            Ok (d, mkResources (Cpu res) (Gpu res) (Ram res) id (Storage res))
        end
  end.

(** The heartbeat of the goroutine that [Register] starts, once a minute:
    [UPDATE harmony_machines SET last_contact=CURRENT_TIMESTAMP where id=$1]. *)
Definition heartbeat {X} (d : db X) (shutdown : bool) (id : Z) (now : time) : db X :=
  if shutdown then d
  else
    with_machines d
      (alter (fun m => mkMachine (m_host m) (m_cpu m) (m_ram m) (m_gpu m) now (m_unschedulable m)
                         (m_restart_request m)) id (machines d)).

(** ** Properties *)

Lemma lookup_stale_tasks {X} (d : db X) now timeout id :
  tasks (delete_stale_machines d now timeout).1 !! id =
  disown_machines (fun o => match machines d !! o with
                            | Some m => m_last_contact m <? now - timeout
                            | None => false end) <$> tasks d !! id.
Proof. unfold delete_stale_machines. simpl. by rewrite lookup_fmap. Qed.

Lemma lookup_live_machine {X} (d : db X) now timeout o m :
  machines (delete_stale_machines d now timeout).1 !! o = Some m <->
  machines d !! o = Some m /\ now - timeout <= m_last_contact m.
Proof.
  unfold delete_stale_machines. simpl. rewrite map_lookup_filter_Some. simpl.
  by rewrite Z.ltb_ge.
Qed.

(** Every owner of a task is a machine of the table (the foreign key). *)
Definition owners_registered {X} (d : db X) : Prop :=
  forall id r o, tasks d !! id = Some r -> t_owner r = Some o -> is_Some (machines d !! o).

(** [CleanupMachines] reclaims exactly the work of dead machines: a task
    whose owner has been silent for more than ten minutes loses its owner and
    nothing else, every other task row is unchanged, only the silent machines
    are deleted, and every remaining owner is still a registered machine. *)
Theorem cleanup_reclaims_dead_work {X} (d : db X) (now : time) :
  owners_registered d ->
  let d' := (CleanupMachines d false now).1 in
  let dead o := exists m, machines d !! o = Some m /\ m_last_contact m < now - LOOKS_DEAD_TIMEOUT in
  (forall o m, machines d' !! o = Some m <-> machines d !! o = Some m /\ ~ dead o) /\
  (forall id r, tasks d !! id = Some r ->
     (forall o, t_owner r = Some o -> dead o -> tasks d' !! id = Some (set_owner None r)) /\
     ((forall o, t_owner r = Some o -> ~ dead o) -> tasks d' !! id = Some r)) /\
  owners_registered d' /\ history d' = history d /\ ext d' = ext d.
Proof.
  intros Hreg. unfold CleanupMachines.
  replace (Z.quot LOOKS_DEAD_TIMEOUT Millisecond * Millisecond) with LOOKS_DEAD_TIMEOUT by reflexivity.
  set (d' := (delete_stale_machines d now LOOKS_DEAD_TIMEOUT).1). cbn zeta.
  set (dead := fun o => exists m, machines d !! o = Some m /\ m_last_contact m < now - LOOKS_DEAD_TIMEOUT).
  assert (forall o m, machines d' !! o = Some m <-> machines d !! o = Some m /\ ~ dead o) as Hm.
  { intros o m. unfold d'. rewrite lookup_live_machine. unfold dead. split.
    - intros [Ho Hl]. split; [done|]. intros (m' & Ho' & Hlt). rewrite Ho in Ho'. injection Ho' as <-. lia.
    - intros [Ho Hn]. split; [done|]. destruct (Z.lt_ge_cases (m_last_contact m) (now - LOOKS_DEAD_TIMEOUT));
        [exfalso; apply Hn; eauto|done]. }
  split; [done|]. split; [|split; [|done]].
  - intros id r Hr. unfold d'. rewrite lookup_stale_tasks, Hr. simpl. unfold disown_machines.
    destruct (t_owner r) as [o|] eqn:Eo; [|split; [done|done]]. split.
    + intros o' [= <-] (m & -> & Hlt). by rewrite (proj2 (Z.ltb_lt _ _) Hlt).
    + intros Hn. destruct (machines d !! o) as [m|] eqn:Em; [|done].
      destruct (Z.ltb_spec (m_last_contact m) (now - LOOKS_DEAD_TIMEOUT)) as [Hlt|]; [|done].
      exfalso. apply (Hn o eq_refl). unfold dead. eauto.
  - intros id r o Hr Ho. unfold d' in Hr. rewrite lookup_stale_tasks in Hr.
    apply fmap_Some in Hr as (r0 & Hr0 & ->). unfold disown_machines in Ho.
    destruct (t_owner r0) as [o0|] eqn:Eo; [|congruence].
    destruct (Hreg id r0 o0 Hr0 Eo) as [m Em]. rewrite Em in Ho.
    destruct (Z.ltb_spec (m_last_contact m) (now - LOOKS_DEAD_TIMEOUT)) as [|Hge]; [done|].
    rewrite Eo in Ho. injection Ho as <-. exists m. unfold d'. by apply lookup_live_machine.
Qed.
