(* ===== verification/TaskEngine.v ===== *)
(** * The task engine ([harmony/harmonytask])

    [taskTypeHandler] and [TaskEngine]: adding tasks, the capacity check, taking
    work, recording completion, the poller, start-up.  An engine is one node;
    the database is shared, so every operation takes and returns both.  Time,
    the answers of the task implementation ([CanAccept], [Do], [IAmBored]) and
    the failures of database calls are arguments.  Logs and metrics are not
    modelled. *)

From stdpp Require Import base gmap sets list strings.
From Stdlib Require Import ZArith Lia.
From S2P Require Import Prelude Float64 HarmonyDB Limiter Resources.
Import Taskhelp.

Definition POLL_DURATION : duration := 3 * Second.
Definition POLL_NEXT_DURATION : duration := 100 * Millisecond.
Definition CLEANUP_FREQUENCY : duration := 5 * Minute.
Definition FOLLOW_FREQUENCY : duration := 1 * Minute.
Definition STORAGE_FAILURE_TIMEOUT : duration := 3 * Minute.

Inductive WorkSource := WorkSourcePoller | WorkSourceRecover | WorkSourceIAmBored.

#[export] Instance WorkSource_eq_dec : EqDecision WorkSource.
Proof. solve_decision. Defined.

(** The [resources.Storage] interface of a task type, over the storage state of
    the node: [Claim] reserves space for a task and [Release] is the cleanup
    function it returns. *)
Class StorageOps (ST : Type) := {
  HasCapacity : ST -> string -> bool;
  Claim : ST -> string -> TaskID -> option ST;
  Release : ST -> string -> TaskID -> ST
}.

(** [TaskTypeDetails], with what a handler adds to it. *)
Record handler := mkHandler {
  h_name : string;
  h_max : MaxCounter;
  h_cost : Resources;
  h_max_failures : Z;                            (* uint *)
  h_retry_wait : option (Z -> duration);
  h_can_yield : bool;
  h_overrides : option (list string);            (* keys of SchedulingOverrides *)
  h_time_sensitive : bool;
  h_storage_failures : gmap TaskID time
}.

Definition with_failures (h : handler) (f : gmap TaskID time) : handler :=
  mkHandler (h_name h) (h_max h) (h_cost h) (h_max_failures h) (h_retry_wait h) (h_can_yield h)
    (h_overrides h) (h_time_sensitive h) f.

(** A goroutine of [considerWork]: in [Do], or (with the result of [Do]) in
    [recordCompletion]. *)
Inductive run_phase :=
| Working
| Recording (done : bool) (doErr : option string) (workEnd : time).

Record run := mkRun {
  r_handler : nat;
  r_task : TaskID;
  r_sector : option (Z * Z);
  r_start : time;
  r_phase : run_phase
}.

Record engine (ST : Type) := mkEngine {
  e_owner : Z;                     (* ownerID *)
  e_host : string;                 (* hostAndPort *)
  e_reg : Resources;
  e_max_headroom : Z;              (* MaxHeadroom *)
  e_handlers : list handler;
  e_mem : mem;                     (* the counters of the limiters *)
  e_storage : ST;
  e_yield : bool;                  (* yieldBackground *)
  e_last_cleanup : time;
  e_last_follow : time;
  e_follows : list (string * list string);
  e_exited : bool;                 (* os.Exit was called *)
  e_running : list run
}.
Arguments mkEngine {ST}.
Arguments e_owner {ST} e : rename.
Arguments e_host {ST} e : rename.
Arguments e_reg {ST} e : rename.
Arguments e_max_headroom {ST} e : rename.
Arguments e_handlers {ST} e : rename.
Arguments e_mem {ST} e : rename.
Arguments e_storage {ST} e : rename.
Arguments e_yield {ST} e : rename.
Arguments e_last_cleanup {ST} e : rename.
Arguments e_last_follow {ST} e : rename.
Arguments e_follows {ST} e : rename.
Arguments e_exited {ST} e : rename.
Arguments e_running {ST} e : rename.

(** ** Resources *)

(** One iteration of the loop of [ResourcesAvailable]. *)
Definition sub_handler (c : mem) (tmp : Resources) (t : handler) : Resources :=
  let ct := ActiveThis (h_max t) c in
  let cost := h_cost t in
  let ramUsed := u64 (u64 ct * Ram cost) in
  mkResources
    (i64 (Cpu tmp - i64 (ct * Cpu cost)))
    (f64_sub (Gpu tmp) (f64_mul (f64_of_Z ct) (Gpu cost)))
    (if ramUsed >=? Ram tmp then 0 else u64 (Ram tmp - ramUsed))
    (MachineID tmp) (Storage tmp).

Definition ResourcesAvailable {ST} (e : engine ST) : Resources :=
  foldl (sub_handler (e_mem e)) (e_reg e) (e_handlers e).

Inductive capacity_error := AtMaxAlready | OutOfCpu | OutOfRam | OutOfGpu | OutOfStorage.

Section Engine.
Context {X ST : Type} `{StorageOps ST}.
Implicit Types (e : engine ST) (d : db X) (h : handler).

Definition AssertMachineHasCapacity e h : result Z capacity_error :=
  let r := ResourcesAvailable e in
  let headroom := e_max_headroom e in
  if AtMax (h_max h) (e_mem e) then Err AtMaxAlready
  else if i64 (Cpu r - Cpu (h_cost h)) <? 0 then Err OutOfCpu
  else
    let headroom :=
      if Cpu (h_cost h) >? 0 then
        let cpuHeadroom := Z.quot (Cpu r) (Cpu (h_cost h)) in
        if cpuHeadroom <? headroom then cpuHeadroom else headroom
      else headroom in
    if Ram (h_cost h) >? Ram r then Err OutOfRam
    else
      let headroom :=
        if Ram (h_cost h) >? 0 then
          let ramHeadroom := Ram r / Ram (h_cost h) in
          if ramHeadroom <? u64 headroom then i64 ramHeadroom else headroom
        else headroom in
      if f64_ltb (f64_sub (Gpu r) (Gpu (h_cost h))) (f64_of_Z 0) then Err OutOfGpu
      else
        let headroom :=
          if f64_ltb (f64_of_Z 0) (Gpu (h_cost h)) then
            let gpuHeadroom := f64_div (Gpu r) (Gpu (h_cost h)) in
            if f64_ltb gpuHeadroom (f64_of_Z headroom) then Z_of_f64 gpuHeadroom else headroom
          else headroom in
        if Storage (h_cost h) && negb (HasCapacity (e_storage e) (h_name h)) then Err OutOfStorage
        else Ok headroom.

(** ** Adding a task *)

Definition option_list {A} (o : option A) : list A :=
  match o with Some a => [a] | None => [] end.

(** The callback of [AddTask], inside the transaction. *)
Definition extra := TaskID -> db X -> result (db X * bool) dberr.

(** A fault of the database during one run of the transaction: at the insert,
    before the callback; at the commit, after it, which is rolled back; or of the
    connection after the database has committed, which is reported as an error
    of neither of the classes that [AddTask] looks for. *)
Inductive tx_fault := NoFault | InsertFault (err : dberr) | CommitFault (err : dberr) | CommitLost.

(** One run of the transaction: the task row is inserted and the callback
    decides.  Returned: the database, what [BeginTransaction] returns (whether it
    committed, or an error), and the id when the callback agreed to the task,
    whatever became of the commit. *)
Definition add_tx e h (ex : extra) (fault : tx_fault) d (now : time)
    : db X * result bool dberr * option TaskID :=
  let '(d1, tID) := insert_task d (h_name h) (e_owner e) now in
  match fault with
  | InsertFault err => (rollback_insert d, Err err, None)
  | _ =>
      match ex tID d1 with
      | Err err => (rollback_insert d, Err err, None)
      | Ok (d2, true) =>
          match fault with
          | CommitFault err => (rollback_insert d, Err err, Some tID)
          | CommitLost => (d2, Err OtherError, Some tID)
          | _ => (d2, Ok true, Some tID)
          end
      | Ok (_, false) => (rollback_insert d, Ok false, None)
      end
  end.

(** [AddTask]: a unique constraint says that the task is there already, a
    serialization error is retried, any other error is given up on; [faults] lists
    the faults of the successive attempts, none after its end (a callback that goes
    on returning serialization errors is cut off there).  [AddTask] returns
    nothing; the result here is the database, and the ids for which the callback
    returned true, which the callback that [IAmBored] gets collects. *)
Fixpoint AddTask e h (ex : extra) (faults : list tx_fault) d (now : time) : db X * list TaskID :=
  match faults with
  | [] => let '(d', _, ag) := add_tx e h ex NoFault d now in (d', option_list ag)
  | fault :: faults' =>
      match add_tx e h ex fault d now with
      | (d', Err UniqueConstraint, ag) => (d', option_list ag)
      | (d', Err Serialization, ag) =>
          let '(d'', ags) := AddTask e h ex faults' d' now in (d'', option_list ag ++ ags)
      | (d', Err OtherError, ag) => (d', option_list ag)
      | (d', Ok _, ag) => (d', option_list ag)
      end
  end.

(** ** Taking work *)

(** The answers of the environment during one [considerWork]. *)
Record work_env := mkWorkEnv {
  we_can_accept : WorkSource -> list TaskID -> option (list TaskID); (* None: an error *)
  we_locked : TaskID -> bool;       (* rows locked by other transactions *)
  we_claim_err : bool;              (* the claim statement fails *)
  we_disown_err : bool;             (* the statement that gives tasks back fails *)
  we_sector : TaskID -> option (Z * Z);
  we_now : time
}.

(** The filter on recent storage failures, which drops the expired entries it
    meets. *)
Fixpoint filter_failures (now : time) (fails : gmap TaskID time) (ids : list TaskID)
    : gmap TaskID time * list TaskID :=
  match ids with
  | [] => (fails, [])
  | tID :: ids' =>
      match fails !! tID with
      | None =>
          let '(fails', l) := filter_failures now fails ids' in (fails', tID :: l)
      | Some v =>
          if time_sub now v >? STORAGE_FAILURE_TIMEOUT then
            let '(fails', l) := filter_failures now (delete tID fails) ids' in (fails', tID :: l)
          else filter_failures now fails ids'
      end
  end.

(** The loop of storage claims: the tasks that got space, those that did not,
    and the failure times. *)
Fixpoint claim_storage (name : string) (now : time) (st : ST) (fails : gmap TaskID time)
    (ids : list TaskID) : ST * gmap TaskID time * list TaskID * list TaskID :=
  match ids with
  | [] => (st, fails, [], [])
  | tID :: ids' =>
      match Claim st name tID with
      | None =>
          let '(st', fails', good, failed) := claim_storage name now st (<[tID := now]> fails) ids' in
          (st', fails', good, tID :: failed)
      | Some st1 =>
          let '(st', fails', good, failed) := claim_storage name now st1 fails ids' in
          (st', fails', tID :: good, failed)
      end
  end.

Definition set_handler e (k : nat) h : engine ST :=
  mkEngine (e_owner e) (e_host e) (e_reg e) (e_max_headroom e) (<[k := h]> (e_handlers e)) (e_mem e)
    (e_storage e) (e_yield e) (e_last_cleanup e) (e_last_follow e) (e_follows e) (e_exited e) (e_running e).

Definition set_storage e (st : ST) : engine ST :=
  mkEngine (e_owner e) (e_host e) (e_reg e) (e_max_headroom e) (e_handlers e) (e_mem e)
    st (e_yield e) (e_last_cleanup e) (e_last_follow e) (e_follows e) (e_exited e) (e_running e).

Definition set_runs e (c : mem) (rs : list run) : engine ST :=
  mkEngine (e_owner e) (e_host e) (e_reg e) (e_max_headroom e) (e_handlers e) c
    (e_storage e) (e_yield e) (e_last_cleanup e) (e_last_follow e) (e_follows e) (e_exited e) rs.

(** The last part of [considerWork]: claim storage for the tasks taken, give the
    others back, count and start the rest. *)
Definition start_work e (k : nat) h (env : work_env) d (tIDs : list TaskID)
    : engine ST * db X * bool :=
  let begin e d tIDs :=
    (set_runs e (Add (h_max h) (e_mem e) (Z.of_nat (length tIDs)))
       (e_running e ++ map (fun tID => mkRun k tID (we_sector env tID) (we_now env) Working) tIDs),
     d, true) in
  if Storage (h_cost h) then
    let '(st, fails, goodTIDs, failedTIDs) :=
      claim_storage (h_name h) (we_now env) (e_storage e) (h_storage_failures h) tIDs in
    let e := set_storage (set_handler e k (with_failures h fails)) st in
    if (0 <? length failedTIDs)%nat then
      let d := if we_disown_err env then d else disown_all d failedTIDs in
      if (length goodTIDs =? 0)%nat then (e, d, false) else begin e d goodTIDs
    else begin e d tIDs
  else begin e d tIDs.

Definition considerWork e d (k : nat) (from : WorkSource) (ids : list TaskID) (env : work_env)
    : engine ST * db X * bool :=
  match e_handlers e !! k with
  | None => (e, d, false)
  | Some h =>
      if (length ids =? 0)%nat then (e, d, true)
      else if AtMax (h_max h) (e_mem e) then (e, d, false)
      else
        match AssertMachineHasCapacity e h with
        | Err _ => (e, d, false)
        | Ok maxAcceptable =>
            match we_can_accept env from ids with
            | None => (e, d, false)
            | Some tIDs =>
                if (length tIDs =? 0)%nat then (e, d, false)
                else
                  let headroomUntilMax := Headroom (h_max h) (e_mem e) in
                  let maxAcceptable :=
                    if maxAcceptable >? headroomUntilMax then headroomUntilMax else maxAcceptable in
                  let '(fails, tIDs) := filter_failures (we_now env) (h_storage_failures h) tIDs in
                  let h := with_failures h fails in
                  let e := set_handler e k h in
                  if decide (from = WorkSourceRecover) then start_work e k h env d tIDs
                  else if we_claim_err env then (e, d, false)
                  else
                    match claim_tasks d (we_locked env) (e_owner e) tIDs maxAcceptable with
                    | None => (e, d, false)
                    | Some (d, tasksAccepted) =>
                        if (length tasksAccepted =? 0)%nat then (e, d, false)
                        else
                          let tIDs := if (length tasksAccepted =? length tIDs)%nat then tIDs else tasksAccepted in
                          start_work e k h env d tIDs
                    end
            end
        end
  end.

(** [stillOwned], the callback of [Do]; [None] is a failed query. *)
Definition stillOwned e h d (query_fail : bool) (tID : TaskID) : bool :=
  if (IsBackgroundTask (h_name h) || h_can_yield h) && e_yield e then false
  else if query_fail then false
  else
    match tasks d !! tID with
    | Some r => bool_decide (t_owner r = Some (e_owner e))
    | None => false
    end.

(** ** Completion *)

(** The transaction of [recordCompletion]; [None] is an error (rolled back). *)
Definition record_tx e h d (tID : TaskID) (sectorID : option (Z * Z)) (workStart workEnd : time)
    (done : bool) (doErr : option string) (now : time) : option (db X) :=
  match tasks d !! tID with
  | None => None                        (* the SELECT finds no row *)
  | Some r =>
      let retries := t_retries r in
      let '(d1, res) :=
        if done then
          (delete_task d tID,
           match doErr with Some err => "non-failing error: " +:+ err | None => "" end)
        else
          let res := match doErr with Some err => "error: " +:+ err | None => "unspecified error" end in
          let deleteTask := (h_max_failures h >? 0) && (retries >=? h_max_failures h - 1) in
          (if deleteTask then delete_task d tID else disown_failed d tID (retries + 1) now, res) in
      let '(d2, hid) :=
        insert_history d1 tID (h_name h) (t_posted r) workStart workEnd done (e_host e) res in
      Some (match sectorID with
            | Some (sp, num) => append_event d2 sp num hid
            | None => d2
            end)
  end.

(** The deferred function of the goroutine of [considerWork] when [Do] returns
    (or panics: then [done] is false and there is no error): the counters and
    the storage are given back, then the completion is recorded. *)
Definition finish_do e (r : run) (before after : list run) (done : bool) (doErr : option string)
    (now : time) : engine ST :=
  match e_handlers e !! r_handler r with
  | None => e
  | Some h =>
      let e := set_runs e (Add (h_max h) (e_mem e) (-1))
        (before ++ mkRun (r_handler r) (r_task r) (r_sector r) (r_start r) (Recording done doErr now) :: after) in
      if Storage (h_cost h) then set_storage e (Release (e_storage e) (h_name h) (r_task r)) else e
  end.

(** One attempt of the retry loop of [recordCompletion]; [fault]: the
    transaction fails.  On success the goroutine ends (its [follows] are those
    of the task type); on failure it sleeps and tries again. *)
Definition record_attempt e d (r : run) (before after : list run) (fault : bool) (now : time)
    : engine ST * db X :=
  match e_handlers e !! r_handler r, r_phase r with
  | Some h, Recording done doErr workEnd =>
      if fault then (e, d)
      else
        match record_tx e h d (r_task r) (r_sector r) (r_start r) workEnd done doErr now with
        | None => (e, d)
        | Some d' => (set_runs e (e_mem e) (before ++ after), d')
        end
  | _, _ => (e, d)
  end.

(** [recordCompletion] of a goroutine that runs undisturbed: attempts with the
    given faults, then one without; [None] when that one fails too, so that the
    loop goes on for ever. *)
Fixpoint recordCompletion e h d (tID : TaskID) (sectorID : option (Z * Z)) (workStart workEnd : time)
    (done : bool) (doErr : option string) (faults : list bool) (now : time) : option (db X) :=
  match faults with
  | [] => record_tx e h d tID sectorID workStart workEnd done doErr now
  | true :: faults' => recordCompletion e h d tID sectorID workStart workEnd done doErr faults' now
  | false :: faults' =>
      match record_tx e h d tID sectorID workStart workEnd done doErr now with
      | Some d' => Some d'
      | None => recordCompletion e h d tID sectorID workStart workEnd done doErr faults' now
      end
  end.

(** ** The poller *)

(** [FlatMap] over the unowned tasks: those whose retry delay has passed. *)
Definition ready_tasks h (now : time) (rows : list (TaskID * task_row)) : list TaskID :=
  map fst (List.filter (fun p =>
    match h_retry_wait h with
    | None => true
    | Some wait =>
        if t_retries p.2 =? 0 then true else time_sub now (t_update p.2) >? wait (t_retries p.2)
    end) rows).

(** The environment of one poll: per handler, the answers for [considerWork],
    whether reading the work fails, whether reading the overrides fails, and
    the tasks [IAmBored] adds ([None]: it is nil), with its error. *)
Record poll_env := mkPollEnv {
  pe_work : nat -> work_env;
  pe_read_err : nat -> bool;
  pe_override_err : nat -> bool;
  pe_bored : nat -> option (list (extra * list tx_fault) * bool);
  pe_bored_work : nat -> work_env;
  pe_cleanup_err : bool;
  pe_now : time
}.

(** Whether an unschedulable node may still run tasks of this type. *)
Definition override_found e h d (err : bool) : bool :=
  match h_overrides h with
  | None => false
  | Some names => if err then false else existsb (has_assigned d (e_owner e)) names
  end.

(** The first loop of [pollerTryAllWork], from handler [k] on, [n] handlers. *)
Fixpoint poll_handlers (n k : nat) e d (schedulable : bool) (env : poll_env) : engine ST * db X * bool :=
  match n with
  | O => (e, d, false)
  | S n' =>
      match e_handlers e !! k with
      | None => (e, d, false)
      | Some v =>
          if negb schedulable && negb (override_found e v d (pe_override_err env k))
          then poll_handlers n' (S k) e d schedulable env
          else
            match AssertMachineHasCapacity e v with
            | Err _ => poll_handlers n' (S k) e d schedulable env
            | Ok _ =>
                if pe_read_err env k then poll_handlers n' (S k) e d schedulable env
                else
                  let unowned := ready_tasks v (pe_now env) (select_unowned d (h_name v)) in
                  if (0 <? length unowned)%nat then
                    let '(e, d, accepted) := considerWork e d k WorkSourcePoller unowned (pe_work env k) in
                    if accepted then (e, d, true)
                    else poll_handlers n' (S k) e d schedulable env
                  else poll_handlers n' (S k) e d schedulable env
            end
      end
  end.

(** The tasks [IAmBored] adds, in order; [added] collects the ids whose callback
    agreed. *)
Fixpoint bored_adds e h (calls : list (extra * list tx_fault)) d (now : time) (added : list TaskID)
    : db X * list TaskID :=
  match calls with
  | [] => (d, added)
  | (ex, faults) :: calls' =>
      let '(d', agreed) := AddTask e h ex faults d now in
      bored_adds e h calls' d' now (added ++ agreed)
  end.

(** The second loop of [pollerTryAllWork]. *)
Fixpoint bored_handlers (n k : nat) e d (env : poll_env) : engine ST * db X :=
  match n with
  | O => (e, d)
  | S n' =>
      match e_handlers e !! k with
      | None => (e, d)
      | Some v =>
          match AssertMachineHasCapacity e v, pe_bored env k with
          | Ok _, Some (calls, err) =>
              let '(d, added) := bored_adds e v calls d (pe_now env) [] in
              if err then bored_handlers n' (S k) e d env
              else if (0 <? length added)%nat then
                let '(e, d, _) := considerWork e d k WorkSourceIAmBored added (pe_bored_work env k) in
                bored_handlers n' (S k) e d env
              else bored_handlers n' (S k) e d env
          | _, _ => bored_handlers n' (S k) e d env
          end
      end
  end.

Definition set_last_cleanup e (t : time) : engine ST :=
  mkEngine (e_owner e) (e_host e) (e_reg e) (e_max_headroom e) (e_handlers e) (e_mem e)
    (e_storage e) (e_yield e) t (e_last_follow e) (e_follows e) (e_exited e) (e_running e).

Definition pollerTryAllWork e d (schedulable : bool) (env : poll_env) : engine ST * db X * bool :=
  let '(e, d) :=
    if time_sub (pe_now env) (e_last_cleanup e) >? CLEANUP_FREQUENCY then
      (set_last_cleanup e (pe_now env), (CleanupMachines d (pe_cleanup_err env) (pe_now env)).1)
    else (e, d) in
  let '(e, d, accepted) := poll_handlers (length (e_handlers e)) 0 e d schedulable env in
  if accepted then (e, d, true)
  else if negb schedulable then (e, d, false)
  else
    let '(e, d) := bored_handlers (length (e_handlers e)) 0 e d env in
    (e, d, false).

Definition set_flags e (yield exited : bool) (last_follow : time) : engine ST :=
  mkEngine (e_owner e) (e_host e) (e_reg e) (e_max_headroom e) (e_handlers e) (e_mem e)
    (e_storage e) yield (e_last_cleanup e) last_follow (e_follows e) exited (e_running e).

(** [restartIfNoTasksPending]; [fail] are the errors of the count and of the
    update. *)
Definition restartIfNoTasksPending e d (count_fail unset_fail : bool) : engine ST * db X :=
  if count_fail then (e, d)
  else if (length (select_owned d (e_owner e)) =? 0)%nat then
    if unset_fail then (e, d)
    else
      (set_flags e (e_yield e) true (e_last_follow e),
       with_machines d ((fun m => if bool_decide (m_host m = e_host e)
         then mkMachine (m_host m) (m_cpu m) (m_ram m) (m_gpu m) (m_last_contact m) false None
         else m) <$> machines d))
  else (e, d).

(** [checkNodeFlags]: the row of this host; [None] is the error of the query or
    of a missing row. *)
Definition checkNodeFlags e d (fail count_fail unset_fail : bool) : engine ST * db X * option bool :=
  if fail then (e, d, None)
  else
    match List.filter (fun p => bool_decide (m_host p.2 = e_host e)) (map_to_list (machines d)) with
    | [] => (e, d, None)
    | (_, m) :: _ =>
        let '(e, d) :=
          match m_restart_request m with
          | Some _ => restartIfNoTasksPending e d count_fail unset_fail
          | None => (e, d)
          end in
        (e, d, Some (negb (m_unschedulable m)))
    end.

(** [followWorkInDB].  Its first query names the alias [h] of a table that the
    FROM clause does not introduce, which the database refuses; the loop is not
    entered when there is nothing to follow.  Either way only the time of the
    last check changes. *)
Definition followWorkInDB e (now : time) : engine ST :=
  set_flags e (e_yield e) (e_exited e) now.

(** One iteration of the loop of [poller], after the timer fires: the state and
    the delay before the next one. *)
Definition poller_iteration e d (flag_fail count_fail unset_fail : bool) (env : poll_env)
    : engine ST * db X * duration :=
  let '(e, d, flags) := checkNodeFlags e d flag_fail count_fail unset_fail in
  match flags with
  | None => (e, d, POLL_DURATION)
  | Some schedulable =>
      if e_exited e then (e, d, POLL_DURATION)
      else
        let e := set_flags e (negb schedulable) (e_exited e) (e_last_follow e) in
        let '(e, d, accepted) := pollerTryAllWork e d schedulable env in
        let nextWait := if accepted then POLL_NEXT_DURATION else POLL_DURATION in
        if negb schedulable then (e, d, nextWait)
        else
          let e := if time_sub (pe_now env) (e_last_follow e) >? FOLLOW_FREQUENCY
                   then followWorkInDB e (pe_now env) else e in
          (e, d, nextWait)
  end.

(** [GracefullyTerminate] leaves its loop after a pass that finds no running
    time-sensitive task. *)
Definition may_terminate e : bool :=
  forallb (fun h => negb (h_time_sensitive h && (Active (h_max h) (e_mem e) >? 0))) (e_handlers e).

(** ** Start-up *)

Record task_details := mkDetails {
  td_name : string;
  td_max : option MaxCounter;
  td_cost : Resources;
  td_max_failures : Z;
  td_retry_wait : option (Z -> duration);
  td_can_yield : bool;
  td_overrides : option (list string);
  td_time_sensitive : bool
}.

Inductive new_error := RegisterFailed (r : register_error) | NotRegistered (name : string)
  | NameTooLong (name : string) | SelectFailed.

(** The loop of [New] over the implementations. *)
Fixpoint new_handlers (registry : gset string) (impls : list task_details) (c : mem)
    : result (list handler * mem) new_error :=
  match impls with
  | [] => Ok ([], c)
  | td :: impls' =>
      let '(mx, c) := match td_max td with Some m => (m, c) | None => Max 0 c end in
      let '(inst, c) := Instance_ mx c in
      if decide (td_name td ∉ registry) then Err (NotRegistered (td_name td))
      else if (16 <? String.length (td_name td))%nat then Err (NameTooLong (td_name td))
      else
        match new_handlers registry impls' c with
        | Err err => Err err
        | Ok (hs, c) =>
            Ok (mkHandler (td_name td) inst (td_cost td) (td_max_failures td) (td_retry_wait td)
                  (td_can_yield td) (td_overrides td) (td_time_sensitive td) ∅ :: hs, c)
        end
  end.

(** [e.taskMap[name]]: the last handler registered under the name. *)
Fixpoint task_map_from (k : nat) (hs : list handler) (name : string) : option nat :=
  match hs with
  | [] => None
  | h :: hs' =>
      match task_map_from (S k) hs' name with
      | Some j => Some j
      | None => if bool_decide (h_name h = name) then Some k else None
      end
  end.

Definition taskMap e (name : string) : option nat := task_map_from 0 (e_handlers e) name.

(** The loop of [New] that resurrects the work this node had taken before; the
    environment of each [considerWork], and whether giving a task back fails. *)
Fixpoint resurrect e d (work : list (TaskID * string)) (env : TaskID -> work_env) (unlock_fail : TaskID -> bool)
    : engine ST * db X :=
  match work with
  | [] => (e, d)
  | (id, name) :: work' =>
      let '(e, d, kept) :=
        match taskMap e name with
        | None => (e, d, false)
        | Some k => considerWork e d k WorkSourceRecover [id] (env id)
        end in
      let d := if kept then d else if unlock_fail id then d else disown_if_owner d id (e_owner e) in
      resurrect e d work' env unlock_fail
  end.

(** [New], up to the start of the poller and of the adders. *)
Definition New d (impls : list task_details) (registry : gset string) (host : string)
    (inspector : option Resources) (fails : bool * bool * bool) (maxHeadroom : Z) (c : mem) (st : ST)
    (env : TaskID -> work_env) (unlock_fail : TaskID -> bool) (now : time)
    : db X * result (engine ST) new_error :=
  let '(upsert_fail, cleanup_fail, select_fail) := fails in
  match Register d host inspector upsert_fail cleanup_fail now with
  | Err err => (d, Err (RegisterFailed err))
  | Ok (d, reg) =>
      match new_handlers registry impls c with
      | Err err => (d, Err err)
      | Ok (hs, c) =>
          let e := mkEngine (MachineID reg) host reg maxHeadroom hs c st false now 0 [] false [] in
          if select_fail then (d, Err SelectFailed)
          else
            let '(e, d) := resurrect e d (select_owned d (e_owner e)) env unlock_fail in
            (d, Ok e)
      end
  end.

End Engine.
