(* ===== verification/TaskEngineFacts.v ===== *)
(** * Facts about the task engine

    What each operation of [TaskEngine] does to the engine and to the tables,
    as lemmas on its result, and the properties of one node: the branches of
    the completion transaction, the retry budget, adding a task. *)

From stdpp Require Import base gmap sets list strings.
From Stdlib Require Import ZArith Lia.
From S2P Require Import Prelude Float64 HarmonyDB Limiter Resources TaskEngine.
Import Taskhelp.

(** ** Updates of many rows *)

Lemma lookup_alter_all {A} (f : A -> A) (ids : list Z) (m : gmap Z A) j :
  (forall x, f (f x) = f x) ->
  foldr (fun id ts => alter f id ts) m ids !! j = if decide (j ∈ ids) then f <$> m !! j else m !! j.
Proof.
  intros Hf. induction ids as [|i ids IH]; cbn [foldr].
  - by rewrite decide_False by apply not_elem_of_nil.
  - destruct (decide (j = i)) as [->|Hne].
    + rewrite lookup_alter_eq, IH. destruct (decide (i ∈ i :: ids)) as [_|Hn]; [|destruct Hn; left].
      case_decide; [|done]. destruct (m !! i); simpl; [by rewrite Hf|done].
    + rewrite lookup_alter_ne by done. rewrite IH. pose proof (elem_of_cons ids j i).
      repeat case_decide; tauto.
Qed.

Lemma set_owner_idem o r : set_owner o (set_owner o r) = set_owner o r.
Proof. done. Qed.

(** ** The claim *)

Lemma elem_of_filter_b {A} (f : A -> bool) (l : list A) x : x ∈ List.filter f l <-> f x = true /\ x ∈ l.
Proof. rewrite !list_elem_of_In, filter_In. tauto. Qed.

Lemma NoDup_filter_b {A} (f : A -> bool) (l : list A) : NoDup l -> NoDup (List.filter f l).
Proof. rewrite !NoDup_ListNoDup. apply List.NoDup_filter. Qed.

Lemma elem_of_nub ids x : x ∈ nub ids <-> x ∈ ids.
Proof.
  induction ids as [|y l IH]; cbn [nub]; [done|]. rewrite !elem_of_cons, elem_of_filter_b, IH.
  destruct (Z.eqb_spec x y); simpl; [subst; tauto|]. split; [tauto|]. intros [?|?]; [done|tauto].
Qed.

Lemma NoDup_nub ids : NoDup (nub ids).
Proof.
  induction ids as [|y l IH]; cbn [nub]; [apply NoDup_nil_2|]. constructor; [|by apply NoDup_filter_b].
  rewrite elem_of_filter_b, Z.eqb_refl. by intros [? _].
Qed.

Lemma length_filter_b {A} (f : A -> bool) (l : list A) : (length (List.filter f l) <= length l)%nat.
Proof. induction l as [|a l IH]; simpl; [done|]. destruct (f a); simpl; lia. Qed.

Lemma length_nub ids : (length (nub ids) <= length ids)%nat.
Proof.
  induction ids as [|y l IH]; cbn [nub length]; [done|].
  etrans; [apply le_n_S, length_filter_b|lia].
Qed.

Lemma elem_of_by_array_position ids x : x ∈ by_array_position ids -> x ∈ ids.
Proof.
  unfold by_array_position. intros (y & Hx & _)%list_elem_of_bind. by apply elem_of_filter_b in Hx as [_ ?].
Qed.

Section Facts.
Context {X ST : Type} `{StorageOps ST}.
Implicit Types (e : engine ST) (d : db X) (h : handler).

(** A database that differs from another at most in the rows of the tasks. *)
Definition only_tasks d d' : Prop := d' = with_tasks d (tasks d').

Lemma only_tasks_with d ts : only_tasks d (with_tasks d ts).
Proof. done. Qed.

Lemma only_tasks_refl d : only_tasks d d.
Proof. by destruct d. Qed.

Lemma only_tasks_trans d1 d2 d3 : only_tasks d1 d2 -> only_tasks d2 d3 -> only_tasks d1 d3.
Proof. unfold only_tasks. intros -> ->. done. Qed.

Lemma only_tasks_eq d d' : only_tasks d d' -> (forall id, tasks d' !! id = tasks d !! id) -> d' = d.
Proof.
  intros -> Hr. assert (tasks d' = tasks d) as -> by (apply map_eq; exact Hr). by destruct d.
Qed.

Lemma claimable_unowned d locked id : claimable d locked id = true ->
  exists r, tasks d !! id = Some r /\ t_owner r = None.
Proof.
  unfold claimable. destruct (tasks d !! id) as [r|]; [|done]. intros [Ho _]%andb_true_iff.
  exists r. bool_props. done.
Qed.

Lemma claim_tasks_spec d locked owner ids limit d' claimed :
  claim_tasks d locked owner ids limit = Some (d', claimed) ->
  is_Some (machines d !! owner) /\ 0 <= limit /\ only_tasks d d' /\ NoDup claimed /\ claimed ⊆ ids /\
  Z.of_nat (length claimed) <= limit /\
  (forall id, id ∈ claimed -> exists r, tasks d !! id = Some r /\ t_owner r = None) /\
  (forall id, tasks d' !! id =
     if decide (id ∈ claimed) then set_owner (Some owner) <$> tasks d !! id else tasks d !! id).
Proof.
  unfold claim_tasks. destruct (Z.ltb_spec limit 0); [done|]. case_bool_decide as Hm; [done|].
  set (cand := take _ _). intros [= <- <-].
  assert (forall id, id ∈ nub cand -> claimable d locked id = true /\ id ∈ ids) as Hc.
  { intros id Hid. rewrite elem_of_nub in Hid. unfold cand in Hid. apply elem_of_take in Hid as (i & Hi & _).
    apply list_elem_of_lookup_2, elem_of_filter_b in Hi as [? Hi]. split; [done|].
    by apply elem_of_by_array_position. }
  split; [by apply not_eq_None_Some|]. split; [done|]. split; [apply only_tasks_with|].
  split; [apply NoDup_nub|]. split; [intros id Hid; by apply Hc|]. split.
  - pose proof (length_nub cand). assert (length cand <= Z.to_nat limit)%nat by apply firstn_le_length.
    lia.
  - split; [intros id Hid; eapply claimable_unowned, Hc, Hid|].
    intros id. cbn [tasks with_tasks]. by rewrite lookup_alter_all by apply set_owner_idem.
Qed.

(** ** Storage *)

Lemma filter_failures_sublist now fails ids fails' l :
  filter_failures now fails ids = (fails', l) -> sublist l ids.
Proof.
  revert fails fails' l. induction ids as [|t ids IH]; intros fails fails' l; cbn [filter_failures].
  - by intros [= _ <-].
  - destruct (fails !! t) as [v|].
    + case_ifs.
      * destruct (filter_failures _ _ ids) as [f2 l2] eqn:E. intros [= <- <-]. constructor. eauto.
      * intros E. apply sublist_cons. eauto.
    + destruct (filter_failures _ _ ids) as [f2 l2] eqn:E. intros [= <- <-]. constructor. eauto.
Qed.

Lemma filter_failures_keeps now fails ids :
  (forall t, t ∈ ids -> fails !! t = None) -> filter_failures now fails ids = (fails, ids).
Proof.
  induction ids as [|t ids IH]; intros Hn; cbn [filter_failures]; [done|].
  rewrite Hn by left. by rewrite IH by (intros; apply Hn; by right).
Qed.

Lemma claim_storage_split name now (st : ST) fails ids st' fails' good failed :
  claim_storage name now st fails ids = (st', fails', good, failed) ->
  sublist good ids /\ ids ≡ₚ good ++ failed.
Proof.
  revert st fails st' fails' good failed.
  induction ids as [|t ids IH]; intros st fails st' fails' good failed; cbn [claim_storage].
  - by intros [= _ _ <- <-].
  - destruct (Claim st name t) as [st1|].
    + destruct (claim_storage name now st1 fails ids) as [[[s2 f2] g2] x2] eqn:E.
      intros [= <- <- <- <-]. destruct (IH _ _ _ _ _ _ E) as [Hs Hp]. split; [by constructor|].
      cbn. by rewrite <- Hp.
    + destruct (claim_storage name now st _ ids) as [[[s2 f2] g2] x2] eqn:E.
      intros [= <- <- <- <-]. destruct (IH _ _ _ _ _ _ E) as [Hs Hp]. split; [by apply sublist_cons|].
      rewrite <- Permutation_middle. by rewrite <- Hp.
Qed.

Lemma claim_storage_fails name now (st : ST) fails ids st' fails' good failed t :
  claim_storage name now st fails ids = (st', fails', good, failed) ->
  t ∉ ids -> fails' !! t = fails !! t.
Proof.
  revert st fails st' fails' good failed.
  induction ids as [|u ids IH]; intros st fails st' fails' good failed; cbn [claim_storage].
  - by intros [= _ <- _ _].
  - intros E [Hne Hni]%not_elem_of_cons. destruct (Claim st name u) as [st1|].
    + destruct (claim_storage name now st1 fails ids) as [[[s2 f2] g2] x2] eqn:E2.
      injection E as <- <- <- <-. eauto.
    + destruct (claim_storage name now st _ ids) as [[[s2 f2] g2] x2] eqn:E2.
      injection E as <- <- <- <-. rewrite (IH _ _ _ _ _ _ E2 Hni). by rewrite lookup_insert_ne.
Qed.

(** ** Taking work *)

(** A handler without its storage failures: what taking work leaves alone. *)
Definition static h : handler := with_failures h ∅.

(** Engines of the same node with the same task types. *)
Definition same_node e e' : Prop :=
  e_owner e' = e_owner e /\ e_host e' = e_host e /\ e_reg e' = e_reg e /\
  e_max_headroom e' = e_max_headroom e /\ static <$> e_handlers e' = static <$> e_handlers e.

Lemma same_node_refl e : same_node e e.
Proof. done. Qed.

Lemma same_node_trans e1 e2 e3 : same_node e1 e2 -> same_node e2 e3 -> same_node e1 e3.
Proof. unfold same_node. intuition congruence. Qed.

Lemma same_node_handler e e' k h : same_node e e' -> e_handlers e !! k = Some h ->
  exists h', e_handlers e' !! k = Some h' /\ static h' = static h.
Proof.
  intros (_ & _ & _ & _ & Hh) Hk. apply (f_equal (fun l => l !! k)) in Hh.
  rewrite !list_lookup_fmap, Hk in Hh. cbn in Hh. apply fmap_Some in Hh as (h' & -> & E). eauto.
Qed.

Lemma same_node_set_handler e k h fails : e_handlers e !! k = Some h ->
  same_node e (set_handler e k (with_failures h fails)).
Proof.
  intros Hk. unfold same_node, set_handler. cbn. repeat split.
  rewrite list_fmap_insert. apply list_insert_id. by rewrite list_lookup_fmap, Hk.
Qed.

(** The storage failures of every handler change only at the given tasks. *)
Definition fails_within e e' (ids : list TaskID) : Prop :=
  forall k h', e_handlers e' !! k = Some h' -> exists h, e_handlers e !! k = Some h /\
    forall t, t ∉ ids -> h_storage_failures h !! t = None -> h_storage_failures h' !! t = None.

Lemma fails_within_refl e ids : fails_within e e ids.
Proof. intros k h Hk. eauto. Qed.

Lemma fails_within_set e k h fails ids : e_handlers e !! k = Some h ->
  (forall t, t ∉ ids -> h_storage_failures h !! t = None -> fails !! t = None) ->
  fails_within e (set_handler e k (with_failures h fails)) ids.
Proof.
  intros Hk Hf j h'. cbn. destruct (decide (j = k)) as [->|Hne].
  - rewrite list_lookup_insert_eq by (by eapply lookup_lt_Some). intros [= <-]. eauto.
  - rewrite list_lookup_insert_ne by done. eauto.
Qed.

Lemma fails_within_trans e1 e2 e3 ids : fails_within e1 e2 ids -> fails_within e2 e3 ids ->
  fails_within e1 e3 ids.
Proof.
  intros H1 H2 k h3 Hk3. destruct (H2 k h3 Hk3) as (h2 & Hk2 & F2).
  destruct (H1 k h2 Hk2) as (h1 & Hk1 & F1). exists h1. split; [done|]. intros t Ht Hn. eauto.
Qed.

(** The outcome of an attempt to start the tasks [tIDs] as handler [k]: those of
    [started] run, the others may have been given back. *)
Record starts e d (k : nat) h (env : work_env) (tIDs started : list TaskID) e' d' (acc : bool) : Prop := {
  st_sub : sublist started tIDs;
  st_run : e_running e' = e_running e ++
    map (fun t => mkRun k t (we_sector env t) (we_now env) Working) started;
  st_mem : e_mem e' = Add (h_max h) (e_mem e) (Z.of_nat (length started)) \/
           started = [] /\ e_mem e' = e_mem e;
  st_node : same_node e e';
  st_db : only_tasks d d';
  st_rows : forall id, tasks d' !! id = tasks d !! id \/
    (id ∈ tIDs /\ (id ∉ started) /\ tasks d' !! id = (set_owner None <$> tasks d !! id));
  st_refused : acc = false -> started = [];
  st_accepted : acc = true -> tIDs <> [] -> started <> [];
  st_fails : fails_within e e' tIDs
}.

Lemma disown_all_rows d ids id : tasks (disown_all d ids) !! id =
  if decide (id ∈ ids) then set_owner None <$> tasks d !! id else tasks d !! id.
Proof. unfold disown_all. cbn. by rewrite lookup_alter_all by apply set_owner_idem. Qed.

Lemma start_work_starts e k h env d tIDs e' d' acc :
  start_work e k h env d tIDs = (e', d', acc) -> NoDup tIDs -> e_handlers e !! k = Some h ->
  exists started, starts e d k h env tIDs started e' d' acc.
Proof.
  unfold start_work. intros E Hnd Hk. destruct (Storage (h_cost h)).
  2: { injection E as <- <- <-. exists tIDs.
       constructor; [done|done|by left|done|apply only_tasks_refl|by left|done|done|].
       exact (fails_within_refl e tIDs). }
  destruct (claim_storage _ _ _ _ tIDs) as [[[st fails] good] failed] eqn:Ec.
  destruct (claim_storage_split _ _ _ _ _ _ _ _ _ Ec) as [Hsub Hp].
  set (e1 := set_storage (set_handler e k (with_failures h fails)) st) in *.
  assert (same_node e e1) as Hn by (by apply (same_node_set_handler e k h fails)).
  assert (fails_within e e1 tIDs) as Hf.
  { apply (fails_within_set e k h fails); [done|]. intros t Ht Hn0.
    by rewrite (claim_storage_fails _ _ _ _ _ _ _ _ _ _ Ec Ht). }
  destruct failed as [|t failed]; cbn [length Nat.ltb Nat.leb] in E.
  - rewrite app_nil_r in Hp. injection E as <- <- <-. exists tIDs.
    constructor; [done|done|by left|done|apply only_tasks_refl|by left|done|done|done].
  - set (d1 := if we_disown_err env then d else disown_all d (t :: failed)) in *.
    assert (only_tasks d d1) as Hd1 by (unfold d1; destruct (we_disown_err env); [apply only_tasks_refl|apply only_tasks_with]).
    assert (forall id, id ∈ t :: failed -> id ∈ tIDs /\ id ∉ good) as Hdis.
    { intros id Hid. rewrite Hp in Hnd |- *. apply NoDup_app in Hnd as (_ & Hnd & _).
      split; [apply elem_of_app; by right|]. intros ?. by apply (Hnd id). }
    assert (forall id, tasks d1 !! id = tasks d !! id \/
      id ∈ tIDs /\ (id ∉ good) /\ tasks d1 !! id = set_owner None <$> tasks d !! id) as Hrows.
    { intros id. unfold d1. destruct (we_disown_err env); [by left|]. rewrite disown_all_rows.
      case_decide as Hid; [right; destruct (Hdis id Hid); done|by left]. }
    destruct good as [|g good]; cbn [length Nat.eqb] in E; injection E as <- <- <-.
    + exists []. constructor; [by apply sublist_nil_l|by rewrite app_nil_r|by right|done|done|done|done|done|done].
    + exists (g :: good). constructor; [done|done|by left|done|done|done|done|done|done].
Qed.

(** The tasks of a claim that took as many as it was given are those given. *)
Lemma claimed_all (claimed tIDs : list TaskID) : NoDup claimed -> claimed ⊆ tIDs ->
  length claimed = length tIDs -> claimed ≡ₚ tIDs.
Proof.
  intros Hnd Hsub Hlen. apply submseteq_length_Permutation; [|lia]. by apply NoDup_submseteq.
Qed.

(** The outcome of [considerWork] for handler [k]: nothing happened, or the
    tasks [tIDs] were claimed (or, on recovery, were given by [CanAccept]) and an
    attempt was made to start them. *)
Inductive considers e d (k : nat) (from : WorkSource) (ids : list TaskID) (env : work_env)
    : engine ST -> db X -> bool -> Prop :=
| considers_nothing acc e' :
    same_node e e' -> e_mem e' = e_mem e -> e_running e' = e_running e -> fails_within e e' [] ->
    (acc = true -> ids = []) ->
    considers e d k from ids env e' d acc
| considers_claim h n e1 d1 tIDs started e' d' acc :
    from <> WorkSourceRecover -> e_handlers e !! k = Some h ->
    AssertMachineHasCapacity e h = Ok n ->
    same_node e e1 -> e_mem e1 = e_mem e -> e_running e1 = e_running e -> fails_within e e1 [] ->
    NoDup tIDs -> tIDs <> [] ->
    Z.of_nat (length tIDs) <= n -> Z.of_nat (length tIDs) <= Headroom (h_max h) (e_mem e) ->
    is_Some (machines d !! e_owner e) ->
    (exists accepted, we_can_accept env from ids = Some accepted /\ tIDs ⊆ accepted) ->
    only_tasks d d1 ->
    (forall id, id ∈ tIDs -> exists r, tasks d !! id = Some r /\ t_owner r = None) ->
    (forall id, tasks d1 !! id =
       if decide (id ∈ tIDs) then set_owner (Some (e_owner e)) <$> tasks d !! id else tasks d !! id) ->
    starts e1 d1 k h env tIDs started e' d' acc ->
    considers e d k from ids env e' d' acc
| considers_recover h n e1 accepted tIDs started e' d' acc :
    from = WorkSourceRecover -> e_handlers e !! k = Some h ->
    AssertMachineHasCapacity e h = Ok n ->
    same_node e e1 -> e_mem e1 = e_mem e -> e_running e1 = e_running e -> fails_within e e1 [] ->
    we_can_accept env from ids = Some accepted -> accepted <> [] -> sublist tIDs accepted ->
    ((forall t, t ∈ accepted -> h_storage_failures h !! t = None) -> tIDs = accepted) ->
    NoDup tIDs ->
    starts e1 d k h env tIDs started e' d' acc ->
    considers e d k from ids env e' d' acc.

Lemma starts_static e d k h h' env tIDs started e' d' acc : h_max h = h_max h' ->
  starts e d k h env tIDs started e' d' acc -> starts e d k h' env tIDs started e' d' acc.
Proof. intros Hm []. constructor; try done. by rewrite <- Hm. Qed.

Lemma filter_failures_fails now fails ids fails' l t :
  filter_failures now fails ids = (fails', l) -> fails !! t = None -> fails' !! t = None.
Proof.
  revert fails fails' l. induction ids as [|u ids IH]; intros fails fails' l; cbn [filter_failures].
  - by intros [= <- _].
  - destruct (fails !! u) as [v|].
    + case_ifs; [|by eauto].
      destruct (filter_failures _ _ ids) as [f2 l2] eqn:E. intros [= <- <-] Hn. eapply IH; [done|].
      rewrite lookup_delete_None. by right.
    + destruct (filter_failures _ _ ids) as [f2 l2] eqn:E. intros [= <- <-]. eauto.
Qed.

(** Closes a branch in which [considerWork] returns early. *)
Ltac considers_nothing E :=
  injection E as <- <- <-; first [by apply considers_nothing; [..|apply fails_within_refl|]
                                 | by apply considers_nothing].

(** The part of [considerWork] after the claim. *)
Lemma claimed_considers e d k from ids env h n e1 accepted tIDs limit fails d1 claimed e' d' acc :
  from <> WorkSourceRecover -> e_handlers e !! k = Some h -> AssertMachineHasCapacity e h = Ok n ->
  e1 = set_handler e k (with_failures h fails) -> fails_within e e1 [] ->
  we_can_accept env from ids = Some accepted -> sublist tIDs accepted ->
  limit <= n -> limit <= Headroom (h_max h) (e_mem e) ->
  claim_tasks d (we_locked env) (e_owner e) tIDs limit = Some (d1, claimed) -> claimed <> [] ->
  start_work e1 k (with_failures h fails) env d1
    (if (length claimed =? length tIDs)%nat then tIDs else claimed) = (e', d', acc) ->
  considers e d k from ids env e' d' acc.
Proof.
  intros Hr Hk En He1 Hf1 Eacc Hsub Hln Hlh Ec Hcne E.
  destruct (claim_tasks_spec _ _ _ _ _ _ _ Ec) as (Hreg & Hlim & Hd1 & Hnd & Hcs & Hlen & Hun & Hrows).
  set (tIDs' := if (length claimed =? length tIDs)%nat then tIDs else claimed) in *.
  assert (tIDs' ≡ₚ claimed) as HP.
  { unfold tIDs'. destruct (Nat.eqb_spec (length claimed) (length tIDs)); [|done].
    symmetry. by apply claimed_all. }
  assert (NoDup tIDs') as Hnd' by (by rewrite HP).
  assert (e_handlers e1 !! k = Some (with_failures h fails)) as Hk1.
  { subst e1. cbn. apply list_lookup_insert_eq. by eapply lookup_lt_Some. }
  destruct (start_work_starts _ _ _ _ _ _ _ _ _ E Hnd' Hk1) as (started & Hst).
  assert (length tIDs' = length claimed) as HL by (by rewrite HP).
  eapply (considers_claim e d k from ids env h n e1 d1 tIDs' started); try done; try (by subst e1); try lia.
  - subst e1. by apply same_node_set_handler.
  - intros HE. rewrite HE in HL. by destruct claimed.
  - exists accepted. split; [done|]. rewrite HP, Hcs. by apply sublist_subseteq.
  - intros id Hid. rewrite HP in Hid. by apply Hun.
  - intros id. rewrite Hrows. assert (id ∈ tIDs' <-> id ∈ claimed) by (by rewrite HP).
    repeat case_decide; tauto.
  - by eapply starts_static, Hst.
Qed.

Lemma considerWork_considers e d k from ids env e' d' acc :
  considerWork e d k from ids env = (e', d', acc) ->
  (from = WorkSourceRecover -> forall l, we_can_accept env from ids = Some l -> NoDup l) ->
  considers e d k from ids env e' d' acc.
Proof.
  intros E Honce. unfold considerWork in E.
  destruct (e_handlers e !! k) as [h|] eqn:Hk; [|considers_nothing E].
  destruct (Nat.eqb_spec (length ids) 0) as [Hl%nil_length_inv|_]; [considers_nothing E|].
  destruct (AtMax (h_max h) (e_mem e)); [considers_nothing E|].
  destruct (AssertMachineHasCapacity e h) as [n|] eqn:En; [|considers_nothing E].
  destruct (we_can_accept env from ids) as [accepted|] eqn:Eacc; [|considers_nothing E].
  destruct (Nat.eqb_spec (length accepted) 0) as [_|Hne]; [considers_nothing E|].
  destruct (filter_failures _ _ accepted) as [fails tIDs] eqn:Ef.
  pose proof (filter_failures_sublist _ _ _ _ _ Ef) as Hsub.
  set (e1 := set_handler e k (with_failures h fails)) in *.
  assert (same_node e e1) as Hn1 by (by apply same_node_set_handler).
  assert (fails_within e e1 []) as Hf1.
  { apply fails_within_set; [done|]. intros t _ Ht. by eapply filter_failures_fails. }
  destruct (decide (from = WorkSourceRecover)) as [Hr|Hr].
  - assert (NoDup tIDs) as Hnd.
    { eapply sublist_NoDup; [|exact Hsub]. by apply Honce. }
    edestruct start_work_starts as (started & Hst); [exact E|done| |].
    { apply list_lookup_insert_eq. by eapply lookup_lt_Some. }
    eapply (considers_recover e d k from ids env h n e1 accepted tIDs started); try done.
    + by intros ->.
    + intros Hnone. rewrite filter_failures_keeps in Ef by done. by injection Ef.
    + by eapply starts_static, Hst.
  - destruct (we_claim_err env); [considers_nothing E|].
    destruct (claim_tasks _ _ _ _ _) as [[d1 claimed]|] eqn:Ec; [|considers_nothing E].
    destruct (Nat.eqb_spec (length claimed) 0) as [Hl%nil_length_inv|Hl].
    + destruct (claim_tasks_spec _ _ _ _ _ _ _ Ec) as (_ & _ & Hd1 & _ & _ & _ & _ & Hrows).
      rewrite (only_tasks_eq d d1) in E; [considers_nothing E|done|]. subst claimed. intros id. by rewrite Hrows.
    + eapply claimed_considers; [..|exact Ec|by intros ->|exact E]; try done.
      all: destruct (Z.gtb_spec n (Headroom (h_max h) (e_mem e))); lia.
Qed.

(** work is only taken from the pool of unowned tasks: whatever
    [considerWork] starts for the poller or for [IAmBored] was an existing task
    without an owner, is claimed for this node before it runs, was accepted by
    [CanAccept], is started once and fits the headroom of its limiter; a task
    that has an owner keeps its row, and no row changes but in its owner. *)
Theorem considerWork_takes_unowned e d k h from ids env e' d' acc :
  from <> WorkSourceRecover -> e_handlers e !! k = Some h ->
  considerWork e d k from ids env = (e', d', acc) ->
  exists started,
    e_running e' = e_running e ++ map (fun t => mkRun k t (we_sector env t) (we_now env) Working) started /\
    NoDup started /\
    Z.of_nat (length started) <= Z.max 0 (Headroom (h_max h) (e_mem e)) /\
    (forall id, id ∈ started ->
       (exists accepted, we_can_accept env from ids = Some accepted /\ id ∈ accepted) /\
       exists r, tasks d !! id = Some r /\ t_owner r = None /\
         tasks d' !! id = Some (set_owner (Some (e_owner e)) r)) /\
    (forall id r, tasks d !! id = Some r -> t_owner r <> None -> tasks d' !! id = Some r) /\
    (forall id, set_owner None <$> tasks d' !! id = set_owner None <$> tasks d !! id) /\
    (acc = false -> started = []) /\ only_tasks d d'.
Proof.
  intros Hr Hk E. apply considerWork_considers in E; [|done].
  destruct E as [acc e' Hn Hm Hrun Hf Hacc
    |h' n e1 d1 tIDs started e' d' acc _ Hk' Ecap Hn1 Hm1 Hr1 Hf1 Hnd Hne Hln Hlh Hreg (accepted & Hac & Hsub) Hd1 Hun Hrows Hst|]; [| |done].
  - exists []. rewrite app_nil_r. split; [done|]. split; [apply NoDup_nil_2|]. split; [simpl; lia|].
    split; [by intros ? ?%not_elem_of_nil|]. do 3 (split; [done|]). apply only_tasks_refl.
  - rewrite Hk in Hk'. injection Hk' as <-. destruct Hst as [Hss Hrun Hmem Hnode Hdb Hsr Href Hacc Hfw].
    exists started. rewrite Hr1 in Hrun. split; [done|].
    split; [by eapply sublist_NoDup|]. split; [apply sublist_length in Hss; lia|]. split.
    { intros id Hid. assert (id ∈ tIDs) as Hid' by (by eapply elem_of_sublist). split; [eauto|].
      destruct (Hun id Hid') as (r & Er & Ho). exists r. split; [done|]. split; [done|].
      destruct (Hsr id) as [->|(_ & Hni & _)]; [|done]. by rewrite Hrows, decide_True, Er. }
    split.
    { intros id r Er Ho. assert (id ∉ tIDs) as Hni.
      { intros Hid. destruct (Hun id Hid) as (r' & Er' & Ho'). congruence. }
      destruct (Hsr id) as [->|(? & _)]; [|done]. by rewrite Hrows, decide_False. }
    split; [|split; [done|by eapply only_tasks_trans]].
    intros id. assert (set_owner None <$> tasks d1 !! id = set_owner None <$> tasks d !! id) as <-.
    { rewrite Hrows. case_decide; [|done]. by destruct (tasks d !! id). }
    destruct (Hsr id) as [->|(_ & _ & ->)]; [done|]. by destruct (tasks d1 !! id).
Qed.

(** ** Adding a task *)

(** A database in which [n] serial ids of the task table were spent. *)
Definition spend d (n : Z) : db X :=
  mkDB (tasks d) (task_seq d + n) (history d) (events d) (machines d) (machine_seq d) (singletons d) (ext d).

Lemma spend_0 d : spend d 0 = d.
Proof. destruct d. unfold spend. cbn. by rewrite Z.add_0_r. Qed.

Lemma spend_spend d n m : spend (spend d n) m = spend d (n + m).
Proof. unfold spend. cbn. by rewrite Z.add_assoc. Qed.

(** What one transaction of [AddTask] leaves: a spent id, or what the callback did
    to the inserted row, also when the answer to the commit is lost. *)
Lemma add_tx_cases e h ex fault d now :
  (exists res ag, add_tx e h ex fault d now = (spend d 1, res, ag) /\ res <> Ok true) \/
  (exists d' res, add_tx e h ex fault d now = (d', res, Some (task_seq d)) /\
     (res = Ok true \/ res = Err OtherError /\ fault = CommitLost) /\
     ex (task_seq d) (insert_task d (h_name h) (e_owner e) now).1 = Ok (d', true)).
Proof.
  unfold add_tx. cbn [insert_task fst]. destruct fault as [|err|err|]; try (left; by eauto);
    destruct (ex _ _) as [[d2 []]|] eqn:E; try (left; by eauto); right; eauto 8.
Qed.

(** [AddTask] leaves spent ids, or these and what one run of the callback did. *)
Lemma AddTask_outcome e h (ex : extra) faults d now :
  let '(d', agreed) := AddTask e h ex faults d now in
  exists n, 0 <= n /\
    (d' = spend d n \/
     task_seq d + n ∈ agreed /\
     ex (task_seq d + n) (insert_task (spend d n) (h_name h) (e_owner e) now).1 = Ok (d', true)).
Proof.
  revert d. induction faults as [|f faults IH]; intros d; cbn [AddTask].
  - destruct (add_tx_cases e h ex NoFault d now) as [(res & ag & -> & _)|(d' & res & -> & _ & Hex)].
    + exists 1. by split; [lia|left].
    + exists 0. rewrite spend_0, Z.add_0_r. split; [lia|]. right. split; [cbn [option_list]; left|done].
  - destruct (add_tx_cases e h ex f d now) as [(res & ag & -> & _)|(d' & res & -> & Hres & Hex)].
    + destruct res as [b|[]]; try (exists 1; by split; [lia|left]).
      specialize (IH (spend d 1)). destruct (AddTask e h ex faults (spend d 1) now) as [d'' ags].
      destruct IH as (n & Hn & IH). exists (1 + n). split; [lia|]. rewrite spend_spend in IH.
      cbn [spend task_seq] in IH. rewrite Z.add_assoc. destruct IH as [->|[Hag Hex]]; [by left|right].
      split; [apply elem_of_app; by right|exact Hex].
    + destruct Hres as [->|[-> _]]; exists 0; rewrite spend_0, Z.add_0_r; (split; [lia|]; right; split; [cbn [option_list]; left|done]).
Qed.

(** ** Completion *)

(** Whether a failed attempt was the last one allowed. *)
Definition exhausted h (retries : Z) : bool :=
  (h_max_failures h >? 0) && (retries >=? h_max_failures h - 1).

(** The row that the completion of a task leaves. *)
Definition completed_row h (done : bool) (r : task_row) (now : time) : option task_row :=
  if done || exhausted h (t_retries r) then None
  else Some (mkTask (t_name r) None (t_added_by r) (t_previous r) (t_posted r) now (t_retries r + 1)).

(** The text of the history row. *)
Definition result_text (done : bool) (doErr : option string) : string :=
  match done, doErr with
  | true, None => ""
  | true, Some err => "non-failing error: " +:+ err
  | false, None => "unspecified error"
  | false, Some err => "error: " +:+ err
  end.

(** The database that a completion leaves. *)
Definition completed_db e h d (tID : TaskID) (sec : option (Z * Z)) (ws we : time) (done : bool)
    (doErr : option string) (now : time) (r : task_row) : db X :=
  let d1 := if done || exhausted h (t_retries r) then delete_task d tID
            else disown_failed d tID (t_retries r + 1) now in
  let '(d2, hid) := insert_history d1 tID (h_name h) (t_posted r) ws we done (e_host e) (result_text done doErr) in
  match sec with Some (sp, num) => append_event d2 sp num hid | None => d2 end.

Lemma record_tx_some e h d tID sec ws we done doErr now r : tasks d !! tID = Some r ->
  record_tx e h d tID sec ws we done doErr now =
  Some (completed_db e h d tID sec ws we done doErr now r).
Proof.
  intros Er. unfold record_tx, completed_db, exhausted. rewrite Er.
  by destruct done; [|destruct (_ && _)]; destruct doErr.
Qed.

Lemma record_tx_rows e h d tID sec ws we done doErr now d' r :
  tasks d !! tID = Some r ->
  record_tx e h d tID sec ws we done doErr now = Some d' ->
  tasks d' !! tID = completed_row h done r now /\
  (forall j, j <> tID -> tasks d' !! j = tasks d !! j).
Proof.
  intros Er E. rewrite (record_tx_some _ _ _ _ _ _ _ _ _ _ _ Er) in E. injection E as <-.
  unfold completed_db, completed_row.
  destruct (done || _); destruct sec as [[sp num]|]; cbn;
    rewrite ?lookup_delete_eq, ?lookup_alter_eq, ?Er;
    (split; [done|]); intros j Hj; by rewrite ?lookup_delete_ne, ?lookup_alter_ne by done.
Qed.

Lemma record_tx_total e h d tID sec ws we done doErr now :
  is_Some (tasks d !! tID) <-> is_Some (record_tx e h d tID sec ws we done doErr now).
Proof.
  destruct (tasks d !! tID) as [r|] eqn:Er; [by rewrite (record_tx_some _ _ _ _ _ _ _ _ _ _ _ Er)|].
  unfold record_tx. by rewrite Er.
Qed.

(** the completion transaction, on every branch: it fails exactly when the
    row of the task is gone; otherwise a finished task and a task that failed
    for the last allowed time are deleted, any other failed task goes back to
    the pool with one more retry, no other task row changes, and exactly one
    history row is written, with the outcome and its text, and linked to the
    sector of a pipeline task. *)
Theorem record_tx_branches e h d tID sec ws we done doErr now :
  match tasks d !! tID, record_tx e h d tID sec ws we done doErr now with
  | None, res => res = None
  | Some r, Some d' =>
      tasks d' = partial_alter (fun _ => completed_row h done r now) tID (tasks d) /\
      (exists hid, history d' = history d ++
         [mkHistory hid tID (h_name h) (t_posted r) ws we done (e_host e) (result_text done doErr)] /\
         forall sp num, sec = Some (sp, num) -> (sp, num, hid) ∈ events d') /\
      ext d' = ext d /\ machines d' = machines d
  | Some _, None => False
  end.
Proof.
  destruct (tasks d !! tID) as [r|] eqn:Er; [|by unfold record_tx; rewrite Er].
  destruct (record_tx _ _ _ _ _ _ _ _ _ _) as [d'|] eqn:E.
  2: by rewrite (record_tx_some _ _ _ _ _ _ _ _ _ _ _ Er) in E.
  destruct (record_tx_rows _ _ _ _ _ _ _ _ _ _ _ _ Er E) as [Hr Ho]. split.
  { apply map_eq. intros j. destruct (decide (j = tID)) as [->|Hj]; [by rewrite lookup_partial_alter_eq|].
    by rewrite lookup_partial_alter_ne, Ho. }
  rewrite (record_tx_some _ _ _ _ _ _ _ _ _ _ _ Er) in E. injection E as <-.
  assert (forall ev (x : Z * Z * Z), x ∈ (if decide (x ∈ ev) then ev else ev ++ [x])) as Hin.
  { intros ev x. case_decide; [done|]. apply elem_of_app. right. by left. }
  unfold completed_db. split.
  - exists (Z.of_nat (length (history d)) + 1).
    destruct (done || _); destruct sec as [[sp num]|]; cbn; (split; [done|]);
      intros ?? Hs; inversion Hs; subst; apply Hin.
  - by destruct (done || _); destruct sec as [[sp num]|].
Qed.

(** Successive failed attempts at one task, each with its error and time. *)
Fixpoint fail_times e h d (tID : TaskID) (attempts : list (option string * time)) : option (db X) :=
  match attempts with
  | [] => Some d
  | (doErr, now) :: l =>
      match record_tx e h d tID None now now false doErr now with
      | Some d' => fail_times e h d' tID l
      | None => None
      end
  end.

Lemma fail_times_app e h tID l1 l2 d :
  fail_times e h d tID (l1 ++ l2) =
  match fail_times e h d tID l1 with Some d' => fail_times e h d' tID l2 | None => None end.
Proof.
  revert d. induction l1 as [|[err now] l1 IH]; intros d; [done|]. cbn [app fail_times].
  by destruct (record_tx _ _ _ _ _ _ _ _ _ _).
Qed.

Lemma fail_times_retries e h tID attempts d r :
  tasks d !! tID = Some r ->
  (h_max_failures h = 0 \/ t_retries r + Z.of_nat (length attempts) < h_max_failures h) ->
  exists d' r', fail_times e h d tID attempts = Some d' /\ tasks d' !! tID = Some r' /\
    t_retries r' = t_retries r + Z.of_nat (length attempts) /\
    (attempts = [] -> r' = r) /\ (attempts <> [] -> t_owner r' = None).
Proof.
  revert d r. induction attempts as [|[err now] l IH]; intros d r Er Hb; cbn [fail_times length].
  - exists d, r. repeat split; try done. simpl. lia.
  - destruct (record_tx _ _ _ _ _ _ _ _ _ _) as [d1|] eqn:E.
    2: by rewrite (record_tx_some _ _ _ _ _ _ _ _ _ _ _ Er) in E.
    destruct (record_tx_rows _ _ _ _ _ _ _ _ _ _ _ _ Er E) as [Hr _].
    unfold completed_row in Hr. cbn [orb] in Hr.
    assert (exhausted h (t_retries r) = false) as Hx.
    { unfold exhausted. cbn [length] in Hb. destruct (Z.gtb_spec (h_max_failures h) 0); [|done]. cbn [andb].
      destruct Hb; [lia|]. destruct (Z.geb_spec (t_retries r) (h_max_failures h - 1)); [lia|done]. }
    rewrite Hx in Hr. destruct (IH d1 _ Hr) as (d' & r' & -> & Hr' & Hret & Heq & Hown).
    { cbn [t_retries]. cbn [length] in Hb. lia. }
    exists d', r'. split; [done|]. split; [done|]. cbn [t_retries] in Hret. split; [lia|].
    split; [done|]. intros _. destruct l as [|a l]; [by rewrite Heq|by apply Hown].
Qed.

(** a task type gets exactly its [MaxFailures] attempts: as long as it has
    failed fewer times (or when the limit is 0, which means none) a failed task
    goes back to the pool, unowned, with its number of failures recorded, and
    the failure that reaches the limit deletes it. *)
Theorem retry_budget e h tID d r attempts last now :
  tasks d !! tID = Some r -> t_retries r = 0 ->
  (h_max_failures h = 0 \/ Z.of_nat (length attempts) < h_max_failures h) ->
  exists d1 r1, fail_times e h d tID attempts = Some d1 /\ tasks d1 !! tID = Some r1 /\
    t_retries r1 = Z.of_nat (length attempts) /\ (attempts <> [] -> t_owner r1 = None) /\
    (h_max_failures h = Z.of_nat (length attempts) + 1 ->
     exists d2, fail_times e h d tID (attempts ++ [(last, now)]) = Some d2 /\ tasks d2 !! tID = None).
Proof.
  intros Er Hr0 Hb. destruct (fail_times_retries e h tID attempts d r Er) as (d1 & r1 & E1 & Er1 & Hr1 & _ & Ho).
  { rewrite Hr0. lia. }
  exists d1, r1. split; [done|]. split; [done|]. split; [lia|]. split; [done|]. intros Hmax.
  rewrite fail_times_app, E1. cbn [fail_times].
  destruct (record_tx e h d1 tID None now now false last now) as [d2|] eqn:E2.
  - exists d2. split; [done|]. destruct (record_tx_rows _ _ _ _ _ _ _ _ _ _ _ _ Er1 E2) as [-> _].
    unfold completed_row, exhausted. rewrite Hr1, Hr0, Hmax.
    rewrite (proj2 (Z.gtb_lt _ _)), (proj2 (Z.geb_le _ _)) by lia. done.
  - by rewrite (record_tx_some _ _ _ _ _ _ _ _ _ _ _ Er1) in E2.
Qed.

End Facts.
