(* ===== verification/Capacity.v ===== *)
(** * The accounting of a node's resources

    An engine knows what its goroutines use only through the [int32] counters of
    its limiters.  [counts_ok] says that the counters agree with the goroutines
    that are in [Do], and that what these use fits the machine and the limits;
    every change of the engine preserves it. *)

From stdpp Require Import base gmap sets list strings.
From Stdlib Require Import ZArith Lia.
From S2P Require Import Prelude Float64 HarmonyDB Limiter Resources TaskEngine TaskEngineFacts.
Import Taskhelp.

(** ** Sums *)

Lemma Zsum_add {A} (f g : A -> Z) l : Zsum (fun x => f x + g x) l = Zsum f l + Zsum g l.
Proof. induction l as [|a l IH]; [done|]. rewrite !Zsum_cons, IH. lia. Qed.

Lemma Zsum_zero {A} (f : A -> Z) l : (forall x, x ∈ l -> f x = 0) -> Zsum f l = 0.
Proof.
  induction l as [|a l IH]; intros Hz; [done|]. rewrite Zsum_cons, (Hz a) by left.
  rewrite IH; [done|]. intros x Hx. apply Hz. by right.
Qed.

(** A sum of which only the element with a given key counts. *)
Lemma Zsum_key {A} (key : A -> nat) (f : A -> Z) l x : NoDup (key <$> l) -> x ∈ l ->
  Zsum (fun y => if decide (key y = key x) then f y else 0) l = f x.
Proof.
  intros Hnd Hx. apply list_elem_of_split in Hx as (l1 & l2 & ->).
  rewrite fmap_app, fmap_cons in Hnd. apply NoDup_app in Hnd as (_ & Hd & [Hn _]%NoDup_cons).
  rewrite Zsum_app, Zsum_cons, decide_True by done. rewrite !Zsum_zero; [lia| |].
  - intros y Hy. rewrite decide_False; [done|]. intros E. apply Hn. rewrite <- E. by apply list_elem_of_fmap_2.
  - intros y Hy. rewrite decide_False; [done|]. intros E. apply (Hd (key y)); [by apply list_elem_of_fmap_2|].
    rewrite E. left.
Qed.

(** ** What is in use *)

(** The goroutines of handler [k] that are in [Do]. *)
Definition is_working (k : nat) (r : run) : bool :=
  (r_handler r =? k)%nat && match r_phase r with Working => true | Recording _ _ _ => false end.

Definition working (k : nat) (rs : list run) : Z := Zsum (fun r => if is_working k r then 1 else 0) rs.

(** The handlers' share of a resource, by the counters. *)
Definition used (f : Resources -> Z) (hs : list handler) (c : mem) : Z :=
  Zsum (fun h => ActiveThis (h_max h) c * f (h_cost h)) hs.

(** The tasks counted in the group of a limiter. *)
Definition group_active (h : handler) (hs : list handler) (c : mem) : Z :=
  Zsum (fun h' => if decide (current (h_max h') = current (h_max h)) then ActiveThis (h_max h') c else 0) hs.

Record counts_ok (hs : list handler) (reg : Resources) (c : mem) (rs : list run) : Prop := {
  ok_this : NoDup ((fun h => currentThis (h_max h)) <$> hs);
  ok_sep : forall h h', h ∈ hs -> h' ∈ hs -> current (h_max h) <> currentThis (h_max h');
  ok_share : forall h h', h ∈ hs -> h' ∈ hs -> current (h_max h) = current (h_max h') ->
    maxN (h_max h) = maxN (h_max h');
  ok_cost : forall h, h ∈ hs -> 0 <= Cpu (h_cost h) <= max_i64 /\ 0 <= Ram (h_cost h);
  ok_cpu_reg : Cpu reg <= max_i64;
  ok_ram_reg : Ram reg < 2 ^ 64;
  ok_len : Z.of_nat (length rs) < 2 ^ 31;
  ok_active : forall k h, hs !! k = Some h -> ActiveThis (h_max h) c = working k rs;
  ok_group : forall h, h ∈ hs -> Active (h_max h) c = group_active h hs c;
  ok_runs : forall r, r ∈ rs -> (r_handler r < length hs)%nat;
  ok_cpu : used Cpu hs c <= Cpu reg;
  ok_ram : used Ram hs c <= Ram reg;
  ok_max : forall h, h ∈ hs -> 0 < maxN (h_max h) -> Active (h_max h) c <= maxN (h_max h)
}.

Lemma working_bounds k rs : 0 <= working k rs <= Z.of_nat (length rs).
Proof.
  unfold working. induction rs as [|r rs IH]; [done|]. rewrite Zsum_cons. cbn [length].
  destruct (is_working k r); lia.
Qed.

Lemma Zsum_seq {A} (F : A -> Z) (G : nat -> Z) (l : list A) : (forall k x, l !! k = Some x -> F x = G k) ->
  Zsum F l = Zsum G (seq 0 (length l)).
Proof.
  revert G. induction l as [|a l IH]; intros G HG; [done|]. cbn [length seq].
  rewrite !Zsum_cons, (HG 0%nat a eq_refl), (IH (fun k => G (S k))) by (intros k x; apply (HG (S k))).
  by rewrite <- fmap_S_seq, Zsum_fmap.
Qed.

(** The same sum, over the handlers and over the goroutines. *)
Lemma working_weighted (w : nat -> Z) n rs : (forall r, r ∈ rs -> (r_handler r < n)%nat) ->
  Zsum (fun k => working k rs * w k) (seq 0 n) =
  Zsum (fun r => if is_working (r_handler r) r then w (r_handler r) else 0) rs.
Proof.
  induction rs as [|r rs IH]; intros Hin; [by apply Zsum_zero|].
  rewrite Zsum_cons, <- IH by (intros x Hx; apply Hin; by right).
  rewrite (Zsum_ext _ (fun k => (if is_working k r then 1 else 0) * w k + working k rs * w k))
    by (intros k _; unfold working; rewrite Zsum_cons; lia).
  rewrite Zsum_add. f_equal. destruct (is_working (r_handler r) r) eqn:E.
  - rewrite <- (Zsum_key id w (seq 0 n) (r_handler r)).
    + apply Zsum_ext. intros k _. unfold is_working in *. unfold id.
      destruct (Nat.eqb_spec (r_handler r) k) as [->|Hne]; [|rewrite decide_False by congruence; done].
      rewrite decide_True by done. rewrite Nat.eqb_refl in E. rewrite E. lia.
    + rewrite list_fmap_id. apply NoDup_seq.
    + apply elem_of_seq. specialize (Hin r). split; [lia|]. apply Hin. left.
  - apply Zsum_zero. intros k _. unfold is_working in *. rewrite Nat.eqb_refl in E. cbn [andb] in E.
    rewrite E, andb_false_r. lia.
Qed.

Section Counts.
Context {hs : list handler} {reg : Resources} {c : mem} {rs : list run}.
Hypothesis Hok : counts_ok hs reg c rs.

Lemma active_bounds h : h ∈ hs -> 0 <= ActiveThis (h_max h) c <= Z.of_nat (length rs).
Proof.
  intros (k & Hk)%list_elem_of_lookup. rewrite (ok_active _ _ _ _ Hok k h Hk). apply working_bounds.
Qed.

Lemma used_term_nonneg (f : Resources -> Z) h : (forall x, x ∈ hs -> 0 <= f (h_cost x)) -> h ∈ hs ->
  0 <= ActiveThis (h_max h) c * f (h_cost h).
Proof. intros Hf Hh. pose proof (active_bounds h Hh). specialize (Hf h Hh). nia. Qed.

(** The loop of [ResourcesAvailable] computes exactly what is left: no
    subtraction wraps and the RAM is not clamped. *)
Lemma available_from l tmp : (forall h, h ∈ l -> h ∈ hs) ->
  used Cpu l c <= Cpu tmp -> Cpu tmp <= max_i64 -> used Ram l c <= Ram tmp -> Ram tmp < 2 ^ 64 ->
  Cpu (foldl (sub_handler c) tmp l) = Cpu tmp - used Cpu l c /\
  Ram (foldl (sub_handler c) tmp l) = Ram tmp - used Ram l c.
Proof.
  revert tmp. induction l as [|h l IH]; intros tmp Hin Hc Hcm Hr Hrm; cbn [foldl].
  - unfold used. rewrite !Zsum_nil. lia.
  - unfold used in Hc, Hr |- *. rewrite Zsum_cons in Hc, Hr. rewrite !Zsum_cons.
    assert (forall f, (forall x, x ∈ hs -> 0 <= f (h_cost x)) -> 0 <= used f l c) as Hnn.
    { intros f Hf. apply Zsum_nonneg. intros x Hx. apply used_term_nonneg; [done|]. apply Hin. by right. }
    assert (0 <= used Cpu l c) as Hnc by (apply Hnn; intros; by apply (ok_cost _ _ _ _ Hok)).
    assert (0 <= used Ram l c) as Hnr by (apply Hnn; intros; by apply (ok_cost _ _ _ _ Hok)).
    assert (h ∈ hs) as Hh by (apply Hin; left).
    pose proof (used_term_nonneg Cpu h (fun x Hx => proj1 (proj1 (ok_cost _ _ _ _ Hok x Hx))) Hh) as Htc.
    pose proof (used_term_nonneg Ram h (fun x Hx => proj2 (ok_cost _ _ _ _ Hok x Hx)) Hh) as Htr.
    pose proof (active_bounds h Hh) as Ha. pose proof (ok_len _ _ _ _ Hok) as Hlen.
    unfold used in Hnc, Hnr.
    assert (Cpu (sub_handler c tmp h) = Cpu tmp - ActiveThis (h_max h) c * Cpu (h_cost h)) as E1.
    { unfold sub_handler. cbn [Cpu]. unfold max_i64 in *.
      rewrite (i64_small (_ * _)), i64_small by (unfold in_i64, min_i64, max_i64; lia). done. }
    assert (Ram (sub_handler c tmp h) = Ram tmp - ActiveThis (h_max h) c * Ram (h_cost h)) as E2.
    { unfold sub_handler. cbn [Ram]. rewrite (u64_small (ActiveThis _ _)) by (unfold in_u64; lia).
      rewrite (u64_small (_ * _)) by (unfold in_u64; lia).
      destruct (Z.geb_spec (ActiveThis (h_max h) c * Ram (h_cost h)) (Ram tmp)); [lia|].
      apply u64_small. unfold in_u64. lia. }
    destruct (IH (sub_handler c tmp h)) as [-> ->]; rewrite ?E1, ?E2; unfold used in *; try lia.
    intros x Hx. apply Hin. by right.
Qed.

(** ** Changing the counters *)

Lemma used_by_runs (f : Resources -> Z) :
  used f hs c = Zsum (fun r => if is_working (r_handler r) r
    then match hs !! r_handler r with Some h => f (h_cost h) | None => 0 end else 0) rs.
Proof.
  rewrite <- (working_weighted (fun k => match hs !! k with Some h => f (h_cost h) | None => 0 end) (length hs))
    by apply Hok.
  apply Zsum_seq. intros k h Hk. by rewrite Hk, (ok_active _ _ _ _ Hok k h Hk).
Qed.

Lemma group_term_nonneg h y : y ∈ hs ->
  0 <= if decide (current (h_max y) = current (h_max h)) then ActiveThis (h_max y) c else 0.
Proof. intros Hy. case_decide; [apply active_bounds, Hy|done]. Qed.

Lemma group_by_runs h :
  group_active h hs c = Zsum (fun r => if is_working (r_handler r) r
    then match hs !! r_handler r with
         | Some h' => if decide (current (h_max h') = current (h_max h)) then 1 else 0 | None => 0 end else 0) rs.
Proof.
  rewrite <- (working_weighted (fun k => match hs !! k with
    | Some h' => if decide (current (h_max h') = current (h_max h)) then 1 else 0 | None => 0 end) (length hs))
    by apply Hok.
  apply Zsum_seq. intros k x Hk. rewrite Hk, <- (ok_active _ _ _ _ Hok k x Hk). case_decide; lia.
Qed.

Lemma group_bounds h : 0 <= group_active h hs c <= Z.of_nat (length rs).
Proof.
  split.
  { apply Zsum_nonneg. intros x. apply group_term_nonneg. }
  rewrite group_by_runs. generalize rs. intros l. induction l as [|r l IH]; [done|]. rewrite Zsum_cons. cbn [length].
  destruct (is_working (r_handler r) r); [|lia]. destruct (hs !! r_handler r); [case_decide|]; lia.
Qed.

Section Change.
Context (k : nat) (h : handler) (n : Z).
Hypothesis Hk : hs !! k = Some h.
Hypothesis Hn : -1 <= n < 2 ^ 31.
Hypothesis Hlo : 0 <= ActiveThis (h_max h) c + n.
Hypothesis Hhi : Z.of_nat (length rs) + n < 2 ^ 31.

Let Hh : h ∈ hs := list_elem_of_lookup_2 _ _ _ Hk.

Lemma add_wf : limiter_wf (h_max h).
Proof using Hok Hh. apply (ok_sep _ _ _ _ Hok); apply Hh. Qed.

Lemma add_this h' : h' ∈ hs -> ActiveThis (h_max h') (Add (h_max h) c n) =
  ActiveThis (h_max h') c + (if decide (currentThis (h_max h') = currentThis (h_max h)) then n else 0).
Proof using Hok Hn Hlo Hhi Hh.
  intros Hh'. case_decide as E.
  - unfold ActiveThis at 1 2. rewrite E.
    change (ActiveThis (h_max h) (Add (h_max h) c n) = ActiveThis (h_max h) c + n).
    rewrite Add_this by apply add_wf. pose proof (active_bounds h Hh).
    rewrite (i32_small n) by (unfold in_i32; lia). apply i32_small. unfold in_i32. lia.
  - rewrite Z.add_0_r. apply Add_other; [|done]. intros E'. by apply (ok_sep _ _ _ _ Hok h h').
Qed.

Lemma used_add (f : Resources -> Z) : used f hs (Add (h_max h) c n) = used f hs c + n * f (h_cost h).
Proof using Hok Hn Hlo Hhi Hh.
  unfold used. rewrite (Zsum_ext _ (fun x => ActiveThis (h_max x) c * f (h_cost x) +
    (if decide (currentThis (h_max x) = currentThis (h_max h)) then n * f (h_cost x) else 0))).
  - rewrite Zsum_add. f_equal.
    apply (Zsum_key (fun x => currentThis (h_max x)) (fun x => n * f (h_cost x))); [apply Hok|done].
  - intros x Hx. rewrite add_this by done. case_decide; lia.
Qed.

Lemma group_add h' : group_active h' hs (Add (h_max h) c n) =
  group_active h' hs c + (if decide (current (h_max h) = current (h_max h')) then n else 0).
Proof using Hok Hn Hlo Hhi Hh.
  unfold group_active. rewrite (Zsum_ext _ (fun x =>
    (if decide (current (h_max x) = current (h_max h')) then ActiveThis (h_max x) c else 0) +
    (if decide (currentThis (h_max x) = currentThis (h_max h))
     then if decide (current (h_max x) = current (h_max h')) then n else 0 else 0))).
  - rewrite Zsum_add. f_equal. apply (Zsum_key (fun x => currentThis (h_max x))
      (fun x => if decide (current (h_max x) = current (h_max h')) then n else 0)); [apply Hok|done].
  - intros x Hx. rewrite add_this by done. repeat case_decide; lia.
Qed.

Lemma active_add h' : h' ∈ hs -> Active (h_max h') (Add (h_max h) c n) =
  Active (h_max h') c + (if decide (current (h_max h) = current (h_max h')) then n else 0).
Proof using Hok Hn Hlo Hhi Hh.
  intros Hh'. case_decide as E.
  - unfold Active. rewrite <- E.
    change (Active (h_max h) (Add (h_max h) c n) = Active (h_max h) c + n).
    rewrite Add_current by apply add_wf. rewrite (ok_group _ _ _ _ Hok h Hh).
    assert (0 <= group_active h hs c + n) as Hg.
    { pose proof (Zsum_elem_le (fun x => if decide (current (h_max x) = current (h_max h))
        then ActiveThis (h_max x) c else 0) hs h) as Hle. cbv beta in Hle.
      rewrite (decide_True (P := current (h_max h) = current (h_max h))) in Hle by done.
      unfold group_active. specialize (Hle (fun y Hy => group_term_nonneg h y Hy) Hh). lia. }
    pose proof (group_bounds h). rewrite (i32_small n) by (unfold in_i32; lia).
    apply i32_small. unfold in_i32. lia.
  - rewrite Z.add_0_r. apply Add_other; [done|]. by apply (ok_sep _ _ _ _ Hok h' h).
Qed.

(** [Add] by [n] keeps the accounts when the goroutines change by as much and
    there is room. *)
Lemma counts_change rs' :
  (forall j, working j rs' = working j rs + (if decide (j = k) then n else 0)) ->
  Z.of_nat (length rs') < 2 ^ 31 -> (forall r, r ∈ rs' -> (r_handler r < length hs)%nat) ->
  used Cpu hs c + n * Cpu (h_cost h) <= Cpu reg -> used Ram hs c + n * Ram (h_cost h) <= Ram reg ->
  (0 < maxN (h_max h) -> Active (h_max h) c + n <= maxN (h_max h)) ->
  counts_ok hs reg (Add (h_max h) c n) rs'.
Proof using Hok Hn Hlo Hhi Hh Hk.
  intros Hw Hlen Hruns Hcpu Hram Hmax. constructor; try apply Hok; try done.
  - intros j h' Hj. rewrite add_this by (by eapply list_elem_of_lookup_2). rewrite Hw.
    rewrite (ok_active _ _ _ _ Hok j h' Hj). f_equal.
    assert (currentThis (h_max h') = currentThis (h_max h) <-> j = k) as Hiff.
    { split; [|intros ->; congruence]. intros E.
      eapply (NoDup_lookup _ j k _ (ok_this _ _ _ _ Hok)); rewrite list_lookup_fmap.
      - by rewrite Hj.
      - rewrite Hk. cbn. congruence. }
    repeat case_decide; tauto.
  - intros h' Hh'. rewrite active_add, group_add by done. f_equal. by apply Hok.
  - by rewrite used_add.
  - by rewrite used_add.
  - intros h' Hh' Hpos. rewrite active_add by done. case_decide as E.
    + rewrite <- (ok_share _ _ _ _ Hok h h') in Hpos |- * by done. unfold Active. rewrite <- E. by apply Hmax.
    + rewrite Z.add_0_r. by apply Hok.
Qed.

End Change.

End Counts.

(** ** The accounts of an engine *)

Section Engine.
Context {X ST : Type} `{StorageOps ST}.
Implicit Types (e : engine ST) (d : db X) (h : handler).

Definition engine_ok e : Prop :=
  counts_ok (static <$> e_handlers e) (e_reg e) (e_mem e) (e_running e) /\
  0 <= e_max_headroom e < 2 ^ 31.

Lemma foldl_static c tmp hs : foldl (sub_handler c) tmp (static <$> hs) = foldl (sub_handler c) tmp hs.
Proof. revert tmp. induction hs as [|h hs IH]; intros tmp; [done|]. apply IH. Qed.

Lemma available_exact e : engine_ok e ->
  Cpu (ResourcesAvailable e) = Cpu (e_reg e) - used Cpu (static <$> e_handlers e) (e_mem e) /\
  Ram (ResourcesAvailable e) = Ram (e_reg e) - used Ram (static <$> e_handlers e) (e_mem e).
Proof.
  intros [Hok _]. unfold ResourcesAvailable. rewrite <- foldl_static.
  apply (available_from Hok); try apply Hok. done.
Qed.

Lemma used_nonneg e : engine_ok e ->
  0 <= used Cpu (static <$> e_handlers e) (e_mem e) /\ 0 <= used Ram (static <$> e_handlers e) (e_mem e).
Proof.
  intros [Hok _]. split; apply Zsum_nonneg; intros x Hx; apply (used_term_nonneg Hok); try done;
    intros y Hy; apply (ok_cost _ _ _ _ Hok y Hy).
Qed.

(** One stage of the capacity check keeps a bound on what is left. *)
Lemma quot_headroom n r cost : 0 <= r -> 0 <= cost -> 0 <= n ->
  let n' := if cost >? 0 then if r / cost <? n then r / cost else n else n in
  0 <= n' <= n /\ n' * cost <= r.
Proof.
  intros Hr Hc Hn. cbv zeta. destruct (Z.gtb_spec cost 0) as [Hpos|]; [|nia].
  pose proof (Z.div_pos r cost Hr Hpos). pose proof (Z.mul_div_le r cost Hpos).
  destruct (Z.ltb_spec (r / cost) n); [nia|]. split; [lia|].
  transitivity (cost * (r / cost)); [nia|lia].
Qed.

Lemma capacity_room e h n : engine_ok e -> static h ∈ static <$> e_handlers e ->
  AssertMachineHasCapacity e h = Ok n ->
  AtMax (h_max h) (e_mem e) = false /\ n <= e_max_headroom e /\
  Z.max 1 n * Cpu (h_cost h) <= Cpu (ResourcesAvailable e) /\
  Z.max 1 n * Ram (h_cost h) <= Ram (ResourcesAvailable e).
Proof.
  intros He Hin E. destruct (available_exact e He) as [Hcpu Hram]. destruct (used_nonneg e He) as [Huc Hur].
  destruct He as [Hok Hhd]. destruct (ok_cost _ _ _ _ Hok _ Hin) as [Hcc Hcr]. cbn in Hcc, Hcr.
  pose proof (ok_cpu _ _ _ _ Hok). pose proof (ok_ram _ _ _ _ Hok).
  pose proof (ok_cpu_reg _ _ _ _ Hok). pose proof (ok_ram_reg _ _ _ _ Hok).
  unfold AssertMachineHasCapacity in E. set (r := ResourcesAvailable e) in *. cbv zeta in E.
  destruct (AtMax (h_max h) (e_mem e)); [done|]. split; [done|].
  rewrite i64_small in E by (unfold in_i64, min_i64, max_i64 in *; lia).
  destruct (Z.ltb_spec (Cpu r - Cpu (h_cost h)) 0) as [|Hc]; [done|].
  set (n1 := if Cpu (h_cost h) >? 0 then if Z.quot (Cpu r) (Cpu (h_cost h)) <? e_max_headroom e
    then Z.quot (Cpu r) (Cpu (h_cost h)) else e_max_headroom e else e_max_headroom e) in E.
  assert (0 <= n1 <= e_max_headroom e /\ n1 * Cpu (h_cost h) <= Cpu r) as [Hn1 Hn1c].
  { unfold n1. destruct (Z.gtb_spec (Cpu (h_cost h)) 0) as [Hpos|]; [|nia].
    rewrite Z.quot_div_nonneg by lia.
    pose proof (quot_headroom (e_max_headroom e) (Cpu r) (Cpu (h_cost h))) as Hq. cbv zeta in Hq.
    rewrite (proj2 (Z.gtb_lt _ _) Hpos) in Hq. apply Hq; lia. }
  clearbody n1. destruct (Z.gtb_spec (Ram (h_cost h)) (Ram r)) as [|Hr]; [done|].
  set (n2 := if Ram (h_cost h) >? 0 then if Ram r / Ram (h_cost h) <? u64 n1
    then i64 (Ram r / Ram (h_cost h)) else n1 else n1) in E.
  assert (0 <= n2 <= n1 /\ n2 * Ram (h_cost h) <= Ram r) as [Hn2 Hn2r].
  { unfold n2. pose proof (quot_headroom n1 (Ram r) (Ram (h_cost h))) as Hq. cbv zeta in Hq.
    rewrite u64_small by (unfold in_u64; lia). destruct (Z.gtb_spec (Ram (h_cost h)) 0) as [Hpos|]; [|nia].
    destruct (Z.ltb_spec (Ram r / Ram (h_cost h)) n1) as [Hlt|]; [|apply Hq; lia].
    pose proof (Z.div_pos (Ram r) (Ram (h_cost h))).
    rewrite i64_small by (unfold in_i64, min_i64, max_i64; lia). apply Hq; lia. }
  clearbody n2. destruct (f64_ltb (f64_sub _ _) _); [done|].
  assert (n <= n2) as Hn.
  { destruct (_ && _); [done|]. injection E as <-. destruct (f64_ltb _ (Gpu (h_cost h))); [|done].
    destruct (f64_ltb (f64_div _ _) (f64_of_Z n2)) eqn:Eg; [|done]. apply f64_div_trunc_le; [lia|done]. }
  split; [lia|]. nia.
Qed.

(** ** Every change of the engine keeps the accounts *)

Lemma working_app k rs1 rs2 : working k (rs1 ++ rs2) = working k rs1 + working k rs2.
Proof. apply Zsum_app. Qed.

Lemma working_new j k (f : TaskID -> option (Z * Z)) t ids :
  working j (map (fun id => mkRun k id (f id) t Working) ids) =
  if decide (j = k) then Z.of_nat (length ids) else 0.
Proof.
  unfold working. induction ids as [|id ids IH]; [by case_decide|]. cbn [map]. rewrite Zsum_cons, IH.
  unfold is_working. cbn [r_handler r_phase length]. rewrite andb_true_r.
  destruct (Nat.eqb_spec k j); case_decide; lia.
Qed.

Lemma headroom_room m c n : AtMax m c = false -> Active m c <= MaxOf m \/ MaxOf m <= 0 ->
  n <= Headroom m c \/ n <= 1 -> 0 < maxN m -> Active m c + n <= maxN m.
Proof.
  unfold AtMax, Headroom, MaxOf. intros Ha Hm Hn Hpos.
  rewrite (proj2 (Z.gtb_lt _ _)) in Ha by lia. cbn [andb] in Ha. bool_props.
  destruct (Z.leb_spec (maxN m) 0); lia.
Qed.

Lemma same_node_elem e e' k h : same_node e e' -> e_handlers e !! k = Some h ->
  (static <$> e_handlers e') !! k = Some (static h).
Proof. intros (_ & _ & _ & _ & ->) Hk. by rewrite list_lookup_fmap, Hk. Qed.

(** Starting tasks that the capacity check has room for. *)
Lemma starts_ok e d k h n env e1 d1 tIDs started e' d' acc :
  engine_ok e -> e_handlers e !! k = Some h -> AssertMachineHasCapacity e h = Ok n ->
  same_node e e1 -> e_mem e1 = e_mem e -> e_running e1 = e_running e ->
  (Z.of_nat (length tIDs) <= n /\ Z.of_nat (length tIDs) <= Headroom (h_max h) (e_mem e) \/
   Z.of_nat (length tIDs) <= 1) ->
  starts e1 d1 k h env tIDs started e' d' acc ->
  Z.of_nat (length (e_running e')) < 2 ^ 31 ->
  engine_ok e'.
Proof.
  intros He Hk Ecap Hn1 Hm1 Hr1 Hlen Hst Hfit.
  destruct Hst as [Hsub Hrun Hmem Hnode _ _ _ _ _]. apply sublist_length in Hsub.
  pose proof (same_node_trans _ _ _ Hn1 Hnode) as Hn. rewrite Hm1 in Hmem. rewrite Hr1 in Hrun.
  destruct (capacity_room e h n He) as (Hat & _ & Hc & Hr);
    [apply list_elem_of_fmap_2; by eapply list_elem_of_lookup_2|done|].
  destruct (available_exact e He) as [Hac Har]. destruct He as [Hok Hhd].
  pose proof (same_node_elem _ _ _ _ (same_node_refl e) Hk) as Hks.
  destruct Hn as (_ & _ & Hreg & Hmh & Hhs). unfold engine_ok. rewrite Hreg, Hmh, Hhs. split; [|done].
  destruct Hmem as [->|[-> ->]].
  2: { rewrite app_nil_r in Hrun. by rewrite Hrun. }
  assert (Z.of_nat (length (e_running e')) = Z.of_nat (length (e_running e)) + Z.of_nat (length started)) as HL
    by (rewrite Hrun, length_app, length_map; lia).
  destruct (ok_cost _ _ _ _ Hok (static h)) as [Hc0 Hr0]; [by eapply list_elem_of_lookup_2|]. cbn in Hc0, Hr0.
  assert (Z.of_nat (length started) <= Z.max 1 n) as Hs by lia.
  apply (counts_change Hok k (static h) (Z.of_nat (length started)) Hks); try lia.
  - cbn. pose proof (active_bounds Hok (static h)). cbn in *.
    assert (static h ∈ static <$> e_handlers e) by (by eapply list_elem_of_lookup_2). intuition lia.
  - intros j. rewrite Hrun, working_app, working_new. done.
  - intros r Hr'. rewrite Hrun in Hr'. apply elem_of_app in Hr' as [Hr'|Hr']; [by apply Hok|].
    apply list_elem_of_fmap in Hr' as (t & -> & _). cbn. by eapply lookup_lt_Some.
  - cbn. nia.
  - cbn. nia.
  - cbn. intros Hpos. apply headroom_room; [done| |lia|done].
    destruct (Z.le_gt_cases (MaxOf (h_max h)) 0) as [|Hp]; [by right|left].
    apply (ok_max _ _ _ _ Hok (static h)); [by eapply list_elem_of_lookup_2|done].
Qed.

(** An engine that differs in nothing the accounts speak of. *)
Lemma engine_ok_same e e' : engine_ok e -> same_node e e' -> e_mem e' = e_mem e ->
  e_running e' = e_running e -> engine_ok e'.
Proof. unfold engine_ok. intros Hok (_ & _ & -> & -> & ->) -> ->. done. Qed.

(** [CanAccept] on recovery returns a part of the ids it was given. *)
Definition accepts_some (env : work_env) : Prop :=
  forall ids l, we_can_accept env WorkSourceRecover ids = Some l -> l ⊆+ ids.

Lemma considers_ok e d k from ids env e' d' acc :
  engine_ok e -> considers e d k from ids env e' d' acc ->
  (from = WorkSourceRecover -> accepts_some env /\ (length ids <= 1)%nat) ->
  Z.of_nat (length (e_running e')) < 2 ^ 31 -> engine_ok e'.
Proof.
  intros He Hc Hrec Hfit. destruct Hc as [acc e' Hn Hm Hr _ _
    |h n e1 d1 tIDs started e' d' acc _ Hk Ecap Hn1 Hm1 Hr1 _ _ _ Hln Hlh _ _ _ _ _ Hst
    |h n e1 accepted tIDs started e' d' acc Hfrom Hk Ecap Hn1 Hm1 Hr1 _ Hac _ Hsub _ _ Hst].
  - by eapply engine_ok_same.
  - eapply starts_ok; try done. left. lia.
  - eapply starts_ok; try done. right. destruct (Hrec Hfrom) as [Hsome Hl]. rewrite Hfrom in Hac.
    apply Hsome in Hac. apply submseteq_length in Hac. apply sublist_length in Hsub. lia.
Qed.

Lemma working_elem_pos k rs r : r ∈ rs -> is_working k r = true -> 1 <= working k rs.
Proof.
  intros Hr Hw. etrans; [|apply (Zsum_elem_le (fun x => if is_working k x then 1 else 0) rs r)];
    [by rewrite Hw|by intros y _; destruct (is_working k y)|done].
Qed.

Lemma elem_of_replace {A} (l1 l2 : list A) x y : y ∈ l1 ++ x :: l2 -> y ∈ l1 \/ y = x \/ y ∈ l2.
Proof. by rewrite elem_of_app, elem_of_cons. Qed.

Lemma finish_do_ok e r before after done doErr now :
  engine_ok e -> e_running e = before ++ r :: after -> r_phase r = Working ->
  engine_ok (finish_do e r before after done doErr now).
Proof.
  intros [Hok Hhd] Hrun Hph. unfold finish_do. destruct (e_handlers e !! r_handler r) as [h|] eqn:Hk; [|done].
  set (e1 := set_runs e _ _). assert (engine_ok e1) as He1; [|by destruct (Storage (h_cost h))].
  pose proof (same_node_elem _ _ _ _ (same_node_refl e) Hk) as Hks. split; [|done]. cbn.
  assert (static h ∈ static <$> e_handlers e) as Hin by (by eapply list_elem_of_lookup_2).
  assert (is_working (r_handler r) r = true) as Hw by (unfold is_working; by rewrite Nat.eqb_refl, Hph).
  assert (r ∈ e_running e) as Hr by (rewrite Hrun; apply elem_of_app; right; left).
  destruct (ok_cost _ _ _ _ Hok (static h) Hin) as [Hc0 Hr0]. cbn in Hc0, Hr0.
  pose proof (ok_len _ _ _ _ Hok). pose proof (ok_cpu _ _ _ _ Hok). pose proof (ok_ram _ _ _ _ Hok).
  apply (counts_change Hok (r_handler r) (static h) (-1) Hks); try lia.
  - rewrite (ok_active _ _ _ _ Hok _ _ Hks). pose proof (working_elem_pos _ _ _ Hr Hw). lia.
  - intros j. rewrite Hrun, !working_app. unfold working. rewrite !Zsum_cons.
    unfold is_working at 2. cbn [r_phase r_handler]. rewrite andb_false_r.
    assert (is_working j r = bool_decide (j = r_handler r)) as ->.
    { unfold is_working. rewrite Hph, andb_true_r. case_bool_decide; subst; [apply Nat.eqb_refl|].
      by apply Nat.eqb_neq. }
    case_bool_decide; case_decide; lia || done.
  - rewrite Hrun in *. rewrite length_app in *. cbn [length] in *. done.
  - intros x [Hx|[->|Hx]]%elem_of_replace; cbn [r_handler]; apply (ok_runs _ _ _ _ Hok); rewrite ?Hrun; try done;
      apply elem_of_app; rewrite elem_of_cons; tauto.
  - cbn. lia.
  - cbn. lia.
  - intros Hpos. pose proof (ok_max _ _ _ _ Hok (static h) Hin Hpos). lia.
Qed.

Lemma drop_recording_ok e r before after : engine_ok e -> e_running e = before ++ r :: after ->
  r_phase r <> Working -> engine_ok (set_runs e (e_mem e) (before ++ after)).
Proof.
  intros [Hok Hhd] Hrun Hph. split; [|done]. cbn.
  pose proof (ok_len _ _ _ _ Hok) as Hl. rewrite Hrun, length_app in Hl. cbn [length] in Hl.
  constructor; try apply Hok; [rewrite length_app; lia| |].
  - intros k h Hk. rewrite (ok_active _ _ _ _ Hok k h Hk), Hrun, !working_app. f_equal.
    unfold working. rewrite Zsum_cons. unfold is_working at 1.
    destruct (r_phase r); [done|]. by rewrite andb_false_r.
  - intros x Hx. apply (ok_runs _ _ _ _ Hok). rewrite Hrun.
    rewrite elem_of_app in Hx. rewrite elem_of_app, elem_of_cons. tauto.
Qed.

Lemma record_attempt_ok e d r before after fault now :
  engine_ok e -> e_running e = before ++ r :: after -> engine_ok (record_attempt e d r before after fault now).1.
Proof.
  intros He Hrun. unfold record_attempt. destruct (e_handlers e !! r_handler r); [|done].
  destruct (r_phase r) as [|dn doErr we] eqn:Hph; [done|]. destruct fault; [done|].
  destruct (record_tx _ _ _ _ _ _ _ _ _ _); [|done]. eapply drop_recording_ok; [done..|]. by rewrite Hph.
Qed.

End Engine.

(** ** Start-up *)

(** The limiters that task types bring along: their group cells exist and are
    zero, and counters that share a cell share the limit. *)
Record impls_ok (impls : list task_details) (c : mem) : Prop := {
  im_cell : forall td m, td ∈ impls -> td_max td = Some m -> (current m < brk c)%nat /\ Load c (current m) = 0;
  im_share : forall td td' m m', td ∈ impls -> td' ∈ impls -> td_max td = Some m -> td_max td' = Some m' ->
    current m = current m' -> maxN m = maxN m';
  im_cost : forall td, td ∈ impls -> 0 <= Cpu (td_cost td) <= max_i64 /\ 0 <= Ram (td_cost td)
}.

(** The handlers that [New] makes, from memory [c] to memory [c']. *)
Record fresh_handlers (impls : list task_details) (c : mem) (hs : list handler) (c' : mem) : Prop := {
  fh_brk : (brk c <= brk c')%nat;
  fh_old : forall p, (p < brk c)%nat -> Load c' p = Load c p;
  fh_this : NoDup ((fun h => currentThis (h_max h)) <$> hs);
  fh_range : forall h, h ∈ hs -> (brk c <= currentThis (h_max h) < brk c')%nat;
  fh_current : forall h, h ∈ hs ->
    (exists td m, td ∈ impls /\ td_max td = Some m /\ current (h_max h) = current m /\ maxN (h_max h) = maxN m) \/
    ((brk c <= current (h_max h) < brk c')%nat /\ maxN (h_max h) = 0);
  fh_sep : forall h h', h ∈ hs -> h' ∈ hs -> current (h_max h) <> currentThis (h_max h');
  fh_zero : forall h, h ∈ hs -> Load c' (currentThis (h_max h)) = 0 /\ Load c' (current (h_max h)) = 0;
  fh_cost : forall h, h ∈ hs -> exists td, td ∈ impls /\ h_cost h = td_cost td;
  fh_fails : forall h, h ∈ hs -> h_storage_failures h = ∅
}.

Lemma Load_NewCell c p : Load (NewCell c).2 p = if decide (p = brk c) then 0 else Load c p.
Proof.
  unfold Load, NewCell. cbn. case_decide; [subst; by rewrite lookup_insert_eq|by rewrite lookup_insert_ne].
Qed.

Lemma impls_ok_later td impls c c1 : impls_ok (td :: impls) c -> (brk c <= brk c1)%nat ->
  (forall p, (p < brk c)%nat -> Load c1 p = Load c p) -> impls_ok impls c1.
Proof.
  intros [Hc Hs Hk] Hb Hl. constructor.
  - intros t m Ht Hm. destruct (Hc t m) as [? Hz]; [by right|done|]. rewrite Hl by done. split; [lia|done].
  - intros t t' m m' Ht Ht'. apply Hs; by right.
  - intros t Ht. apply Hk. by right.
Qed.

(** Adding a handler in front: its own cell is new, its group cell is that of
    its task type or new. *)
Lemma fresh_cons td impls c c1 h hs c' :
  impls_ok (td :: impls) c -> fresh_handlers impls c1 hs c' ->
  (brk c < brk c1)%nat -> (forall p, (p < brk c)%nat -> Load c1 p = Load c p) ->
  (brk c <= currentThis (h_max h) < brk c1)%nat -> Load c1 (currentThis (h_max h)) = 0 ->
  Load c1 (current (h_max h)) = 0 -> current (h_max h) <> currentThis (h_max h) ->
  ((exists m, td_max td = Some m /\ current (h_max h) = current m /\ maxN (h_max h) = maxN m) \/
   ((brk c <= current (h_max h) < brk c1)%nat /\ maxN (h_max h) = 0)) ->
  h_cost h = td_cost td -> h_storage_failures h = ∅ ->
  fresh_handlers (td :: impls) c (h :: hs) c'.
Proof.
  intros Him [Hb Ho Ht Hr Hc Hs Hz Hk Hf] Hb1 Ho1 Hr1 Hz1 Hz2 Hs1 Hc1 Hk1 Hf1.
  assert (forall t m, t ∈ td :: impls -> td_max t = Some m -> (current m < brk c)%nat) as Hlow
    by (intros t m Hin Hm; by apply (im_cell _ _ Him t m)).
  assert (current (h_max h) < brk c1)%nat as Hhc.
  { destruct Hc1 as [(m & Hm & -> & _)|[? _]]; [|lia]. assert (current m < brk c)%nat; [|lia].
    apply (Hlow td); [left|done]. }
  constructor.
  - lia.
  - intros p Hp. rewrite Ho, Ho1 by lia. done.
  - rewrite fmap_cons. constructor; [|done]. intros (x & Ex & Hx)%list_elem_of_fmap.
    specialize (Hr x Hx). lia.
  - intros x [->|Hx]%elem_of_cons; [lia|]. specialize (Hr x Hx). lia.
  - intros x [->|Hx]%elem_of_cons.
    + destruct Hc1 as [(m & Hm & ? & ?)|[? ?]]; [left; exists td, m; repeat split; try done; left|right; lia].
    + destruct (Hc x Hx) as [(t & m & Ht' & Hm & ?)|[? ?]]; [left; exists t, m; repeat split; try tauto; by right|right; lia].
  - intros x y [->|Hx]%elem_of_cons [->|Hy]%elem_of_cons; [done| | |by apply Hs].
    + specialize (Hr y Hy). lia.
    + destruct (Hc x Hx) as [(t & m & Ht' & Hm & -> & _)|[? ?]]; [|lia].
      assert (current m < brk c)%nat; [|lia]. apply (Hlow t); [by right|done].
  - intros x [->|Hx]%elem_of_cons; [|by apply Hz]. rewrite !Ho by lia. done.
  - intros x [->|Hx]%elem_of_cons; [exists td; split; [left|done]|].
    destruct (Hk x Hx) as (t & Ht' & ?). exists t. split; [by right|done].
  - intros x [->|Hx]%elem_of_cons; [done|by apply Hf].
Qed.

(** The limiter of a task type: the one it brings, or a new one without limit. *)
Lemma details_limiter td impls c mx c0 : impls_ok (td :: impls) c ->
  match td_max td with Some m => (m, c) | None => Max 0 c end = (mx, c0) ->
  (brk c <= brk c0)%nat /\ (current mx < brk c0)%nat /\
  (forall p, (p < brk c)%nat -> Load c0 p = Load c p) /\ Load c0 (current mx) = 0 /\
  (td_max td = Some mx \/ ((brk c <= current mx)%nat /\ maxN mx = 0)).
Proof.
  intros Him E. destruct (td_max td) as [m|] eqn:Em.
  - injection E as <- <-. destruct (im_cell _ _ Him td m) as [? ?]; [left|done|]. auto 6.
  - unfold Max in E. cbn [NewCell] in E. injection E as <- <-. cbn [brk current maxN].
    assert (forall p, Load (NewCell (NewCell c).2).2 p = if decide (p = S (brk c)) then 0 else
      if decide (p = brk c) then 0 else Load c p) as HL by (intros p; by rewrite !Load_NewCell).
    split; [lia|]. split; [lia|]. split; [|split; [|right; lia]].
    + intros p Hp. etrans; [apply HL|]. rewrite !decide_False by lia. done.
    + etrans; [apply HL|]. rewrite decide_False, decide_True by lia. done.
Qed.

Lemma new_handlers_fresh registry impls c hs c' :
  impls_ok impls c -> new_handlers registry impls c = Ok (hs, c') -> fresh_handlers impls c hs c'.
Proof.
  revert c hs c'. induction impls as [|td impls IH]; intros c hs c' Him E; cbn [new_handlers] in E.
  - injection E as <- <-. constructor; try (intros; exfalso; by eapply not_elem_of_nil); try done.
    apply NoDup_nil_2.
  - destruct (match td_max td with Some m => (m, c) | None => Max 0 c end) as [mx c0] eqn:Emx.
    destruct (details_limiter _ _ _ _ _ Him Emx) as (Hb0 & Hcm & Hold & Hzero & Hmx).
    destruct (Instance_ mx c0) as [inst c1] eqn:Ei.
    assert (c1 = (NewCell c0).2 /\ inst = mkMaxCounter (maxN mx) (current mx) (brk c0)) as [-> ->].
    { unfold Instance_ in Ei. cbn in Ei. by injection Ei as <- <-. }
    destruct (decide _); [done|]. destruct (16 <? _)%nat; [done|].
    destruct (new_handlers registry impls _) as [[hs1 c2]|] eqn:En; [|done]. injection E as <- <-.
    assert (forall p, (p < brk c)%nat -> Load (NewCell c0).2 p = Load c p) as Hold1.
    { intros p Hp. rewrite Load_NewCell, decide_False by lia. by apply Hold. }
    assert (brk (NewCell c0).2 = S (brk c0)) as Hb1 by done.
    eapply (fresh_cons td impls c (NewCell c0).2); cbn -[Load NewCell]; rewrite ?Hb1; try done; try lia.
    + eapply IH; [|done]. eapply impls_ok_later; [done|cbn; lia|done].
    + by rewrite Load_NewCell, decide_True.
    + by rewrite Load_NewCell, decide_False by lia.
    + destruct Hmx as [Hm|[? ?]]; [left; by exists mx|right; lia].
Qed.

(** A fresh engine, before it resurrects any work, keeps its accounts. *)
Lemma fresh_counts_ok impls c hs c' reg :
  impls_ok impls c -> fresh_handlers impls c hs c' ->
  0 <= Cpu reg <= max_i64 -> 0 <= Ram reg < 2 ^ 64 ->
  counts_ok (static <$> hs) reg c' [].
Proof.
  intros Him Hf Hcr Hrr.
  assert (forall h, h ∈ static <$> hs -> exists h', h' ∈ hs /\ h_max h = h_max h' /\ h_cost h = h_cost h') as Hst.
  { intros h (h' & -> & Hh')%list_elem_of_fmap. by exists h'. }
  assert (forall f, used f (static <$> hs) c' = 0) as Hu.
  { intros f. apply Zsum_zero. intros h (h' & Hh' & -> & _)%Hst. unfold ActiveThis.
    by rewrite (proj1 (fh_zero _ _ _ _ Hf h' Hh')). }
  constructor; try done; rewrite ?Hu; try lia; try (intros; exfalso; by eapply not_elem_of_nil).
  - rewrite <- list_fmap_compose. apply Hf.
  - intros h h' (x & Hx & -> & _)%Hst (y & Hy & -> & _)%Hst. by apply Hf.
  - intros h h' (x & Hx & -> & _)%Hst (y & Hy & -> & _)%Hst Ecur.
    destruct (fh_current _ _ _ _ Hf x Hx) as [(t & m & Ht & Hm & Ex & ->)|[? Ex]],
      (fh_current _ _ _ _ Hf y Hy) as [(t' & m' & Ht' & Hm' & Ey & ->)|[? Ey]]; [| | |congruence].
    + eapply (im_share _ _ Him t t'); congruence.
    + destruct (im_cell _ _ Him t m Ht Hm). lia.
    + destruct (im_cell _ _ Him t' m' Ht' Hm'). lia.
  - intros h (x & Hx & _ & ->)%Hst. destruct (fh_cost _ _ _ _ Hf x Hx) as (t & Ht & ->). by apply (im_cost _ _ Him).
  - intros k h Hk. apply list_elem_of_lookup_2, Hst in Hk as (x & Hx & -> & _).
    by apply (fh_zero _ _ _ _ Hf x).
  - intros h (x & Hx & Ex & _)%Hst. transitivity 0.
    + unfold Active. rewrite Ex. by apply (fh_zero _ _ _ _ Hf x).
    + symmetry. apply Zsum_zero. intros y (z & Hz & Ey & _)%Hst. case_decide; [|done]. unfold ActiveThis.
      rewrite Ey. by apply (fh_zero _ _ _ _ Hf z).
  - intros h (x & Hx & -> & _)%Hst Hpos. unfold Active. rewrite (proj2 (fh_zero _ _ _ _ Hf x Hx)). lia.
Qed.
