(* ===== verification/Cluster.v ===== *)
(** * The cluster

    Nodes run the task engine against one database.  A cluster step is one
    atomic action of one node: adding a task, taking work, a goroutine leaving
    [Do], an attempt to record a completion, start-up (after a crash or not), a
    crash, the reaping of silent machines, and changes that concern neither the
    tasks nor the goroutines (heartbeats, node flags).  Reaping is assumed to
    be right: a machine it removes has no goroutine at work. *)

From stdpp Require Import base gmap sets list strings.
From Stdlib Require Import ZArith Lia.
From S2P Require Import Prelude Float64 HarmonyDB Limiter Resources TaskEngine TaskEngineFacts Capacity.
Import Taskhelp.

Section Cluster.
Context {X ST : Type} `{StorageOps ST}.
Implicit Types (e : engine ST) (d : db X) (h : handler) (ns : gmap string (engine ST)).

Definition cluster : Type := db X * gmap string (engine ST).

(** What the callback of [AddTask] leaves alone. *)
Definition callback_ok (ex : extra) : Prop :=
  forall t d d' b, ex t d = Ok (d', b) ->
    tasks d' = tasks d /\ task_seq d' = task_seq d /\ machines d' = machines d /\ machine_seq d' = machine_seq d.

(** The reaper is right about the machines it deletes: a node with goroutines
    was heard of within the timeout. *)
Definition heard ns d (now : time) : Prop :=
  forall host e m, ns !! host = Some e -> e_running e <> [] -> machines d !! e_owner e = Some m ->
    now - LOOKS_DEAD_TIMEOUT <= m_last_contact m.

(** Changes of the database that concern neither the tasks nor which machines
    there are. *)
Definition same_tables d d' : Prop :=
  tasks d' = tasks d /\ task_seq d' = task_seq d /\ machine_seq d' = machine_seq d /\
  forall id, m_host <$> machines d' !! id = m_host <$> machines d !! id.

Definition fits e : Prop := Z.of_nat (length (e_running e)) < 2 ^ 31.

(** The conditions on the start of a node: its resources and task types are
    well-formed and [CanAccept] answers with part of what it is asked. *)
Record start_ok (impls : list task_details) (c : mem) (inspector : option Resources) (hd : Z)
    (env : TaskID -> work_env) : Prop := {
  so_impls : impls_ok impls c;
  so_res : forall r, inspector = Some r -> 0 <= Cpu r <= max_i64 /\ 0 <= Ram r < 2 ^ 64;
  so_headroom : 0 <= hd < 2 ^ 31;
  so_accept : forall id, accepts_some (env id)
}.

Inductive cl_step : cluster -> cluster -> Prop :=
| cs_add d ns host e h ex faults now d' agreed :
    ns !! host = Some e -> callback_ok ex ->
    AddTask e h ex faults d now = (d', agreed) ->
    cl_step (d, ns) (d', ns)
| cs_consider d ns host e k from ids env e' d' acc :
    ns !! host = Some e -> from <> WorkSourceRecover ->
    considerWork e d k from ids env = (e', d', acc) -> fits e' ->
    cl_step (d, ns) (d', <[host := e']> ns)
| cs_finish d ns host e before r after done doErr now :
    ns !! host = Some e -> e_running e = before ++ r :: after -> r_phase r = Working ->
    cl_step (d, ns) (d, <[host := finish_do e r before after done doErr now]> ns)
| cs_record d ns host e before r after fault now :
    ns !! host = Some e -> e_running e = before ++ r :: after -> r_phase r <> Working ->
    cl_step (d, ns) ((record_attempt e d r before after fault now).2,
                     <[host := (record_attempt e d r before after fault now).1]> ns)
| cs_start d ns impls registry host inspector fails hd c st env unlock_fail now d' e' :
    start_ok impls c inspector hd env -> heard (delete host ns) d now ->
    New d impls registry host inspector fails hd c st env unlock_fail now = (d', Ok e') -> fits e' ->
    cl_step (d, ns) (d', <[host := e']> ns)
| cs_start_fail d ns impls registry host inspector fails hd c st env unlock_fail now d' err :
    heard (delete host ns) d now ->
    New d impls registry host inspector fails hd c st env unlock_fail now = (d', Err err) ->
    cl_step (d, ns) (d', delete host ns)
| cs_crash d ns host : cl_step (d, ns) (d, delete host ns)
| cs_cleanup d ns fail now :
    heard ns d now -> cl_step (d, ns) ((CleanupMachines d fail now).1, ns)
| cs_other d ns host e e' d' :
    ns !! host = Some e -> same_node e e' -> e_mem e' = e_mem e -> e_running e' = e_running e ->
    same_tables d d' -> cl_step (d, ns) (d', <[host := e']> ns).

(** ** The invariant *)

(** Every goroutine works on a task that its node owns. *)
Definition runs_owned d e : Prop :=
  forall r, r ∈ e_running e -> exists row, tasks d !! r_task r = Some row /\ t_owner row = Some (e_owner e).

Definition node_ok d e : Prop :=
  runs_owned d e /\ NoDup (r_task <$> e_running e) /\ engine_ok e.

Definition db_ok d : Prop :=
  owners_registered d /\ (forall id, is_Some (machines d !! id) -> id < machine_seq d) /\
  (forall id, is_Some (tasks d !! id) -> id < task_seq d).

(** The identity of a node: its host, and its machine as long as it has one. *)
Definition identity_ok d (host : string) e : Prop :=
  e_host e = host /\ e_owner e < machine_seq d /\
  forall m, machines d !! e_owner e = Some m -> m_host m = host.

Definition cl_ok (s : cluster) : Prop :=
  db_ok s.1 /\
  (forall host e, s.2 !! host = Some e -> identity_ok s.1 host e /\ node_ok s.1 e) /\
  (forall host1 e1 host2 e2, s.2 !! host1 = Some e1 -> s.2 !! host2 = Some e2 ->
     e_owner e1 = e_owner e2 -> host1 = host2).

(** A change of the database that takes no task away from the machine [o]. *)
Definition keeps_owned (o : Z) d d' : Prop :=
  forall id row, tasks d !! id = Some row -> t_owner row = Some o ->
    exists row', tasks d' !! id = Some row' /\ t_owner row' = Some o.

(** A change of the machines that brings no old one back and renames none. *)
Definition keeps_machines d d' : Prop :=
  machine_seq d <= machine_seq d' /\
  forall id m', machines d' !! id = Some m' -> id < machine_seq d -> exists m, machines d !! id = Some m /\ m_host m' = m_host m.

Lemma keeps_owned_refl o d : keeps_owned o d d.
Proof. intros id row. eauto. Qed.

Lemma keeps_owned_trans o d1 d2 d3 : keeps_owned o d1 d2 -> keeps_owned o d2 d3 -> keeps_owned o d1 d3.
Proof. intros H1 H2 id row Hr Ho. destruct (H1 _ _ Hr Ho) as (row' & ? & ?). eauto. Qed.

Lemma keeps_owned_tasks o d d' : tasks d' = tasks d -> keeps_owned o d d'.
Proof. intros E id row. rewrite E. eauto. Qed.

Lemma runs_owned_keeps d d' e : runs_owned d e -> keeps_owned (e_owner e) d d' -> runs_owned d' e.
Proof. intros Hr Hk r Hin. destruct (Hr r Hin) as (row & ? & ?). eauto. Qed.

Lemma identity_keeps d d' host e : identity_ok d host e -> keeps_machines d d' -> identity_ok d' host e.
Proof.
  intros (? & ? & Hm) [Hs Hk]. split; [done|]. split; [lia|]. intros m' Hm'.
  destruct (Hk _ _ Hm') as (m & Hm0 & ->); [done|]. by apply Hm.
Qed.

Lemma keeps_machines_refl d d' : machines d' = machines d -> machine_seq d' = machine_seq d -> keeps_machines d d'.
Proof. intros E1 E2. split; [lia|]. rewrite E1. eauto. Qed.

(** A step of the database alone. *)
Lemma cl_ok_db d d' ns : cl_ok (d, ns) -> db_ok d' -> keeps_machines d d' ->
  (forall host e, ns !! host = Some e -> e_running e <> [] -> keeps_owned (e_owner e) d d') ->
  cl_ok (d', ns).
Proof.
  intros (Hdb & Hn & Hd) Hdb' Hm Hk. split; [done|]. split; [|done]. intros host e He.
  destruct (Hn host e He) as (Hi & Hr & Hnd & Ho). split; [by eapply identity_keeps|].
  split; [|done]. intros r Hin. eapply runs_owned_keeps; [done| |done]. apply (Hk host); [done|].
  intros E. rewrite E in Hin. by apply not_elem_of_nil in Hin.
Qed.

(** A step of one node and the database. *)
Lemma cl_ok_node d d' ns host e e' : cl_ok (d, ns) -> ns !! host = Some e -> db_ok d' -> keeps_machines d d' ->
  e_host e' = e_host e -> e_owner e' = e_owner e -> node_ok d' e' ->
  (forall o, o <> e_owner e -> keeps_owned o d d') ->
  cl_ok (d', <[host := e']> ns).
Proof.
  intros (Hdb & Hn & Hd) He Hdb' Hm Hh Ho Hok Hk. cbn in *. split; [done|]. split.
  - intros host2 e2. cbn. intros [[<- <-]|[Hne He2]]%lookup_insert_Some.
    + destruct (Hn host e He) as [Hi _]. split; [|done]. apply (identity_keeps d d'); [|done].
      destruct Hi as (? & ? & ?). unfold identity_ok. rewrite Hh, Ho. done.
    + destruct (Hn host2 e2 He2) as (Hi & Hr & Hnd & Hok2). split; [by eapply identity_keeps|].
      split; [|done]. eapply runs_owned_keeps; [done|]. apply Hk. intros E. apply Hne.
      by apply (Hd host e host2 e2).
  - intros h1 e1 h2 e2. cbn.
    intros [[<- <-]|[Hne1 He1]]%lookup_insert_Some [[<- <-]|[Hne2 He2]]%lookup_insert_Some; [done|..].
    + rewrite Ho. by apply (Hd host e h2 e2).
    + rewrite Ho. intros E. by apply (Hd h1 e1 host e).
    + by apply (Hd h1 e1 h2 e2).
Qed.

(** ** Adding a task *)

(** The tables grew by unowned tasks with new ids. *)
Record grows d d' : Prop := {
  gr_rows : forall id row, tasks d' !! id = Some row ->
    tasks d !! id = Some row \/ (task_seq d <= id < task_seq d' /\ t_owner row = None);
  gr_keep : forall id row, tasks d !! id = Some row -> id < task_seq d -> tasks d' !! id = Some row;
  gr_seq : task_seq d <= task_seq d';
  gr_machines : machines d' = machines d;
  gr_mseq : machine_seq d' = machine_seq d
}.

Lemma grows_spend d n : 0 <= n -> grows d (spend d n).
Proof. intros Hn. constructor; cbn; auto with lia. Qed.

Lemma grows_trans d1 d2 d3 : grows d1 d2 -> grows d2 d3 -> grows d1 d3.
Proof.
  intros [R1 K1 S1 M1 Q1] [R2 K2 S2 M2 Q2]. constructor; [| |lia|congruence|congruence].
  - intros id row [Hr|[? ?]]%R2; [|right; split; [lia|done]].
    destruct (R1 _ _ Hr) as [|[? ?]]; [by left|right; split; [lia|done]].
  - intros id row Hr Hlt. apply K2; [by apply K1|lia].
Qed.

Lemma add_tx_grows e h ex fault d now : callback_ok ex -> grows d (add_tx e h ex fault d now).1.1.
Proof.
  intros Hcb. destruct (add_tx_cases e h ex fault d now) as [(res & ag & -> & _)|(d' & res & -> & _ & Hex)];
    [by apply grows_spend|].
  destruct (Hcb _ _ _ _ Hex) as (Ht & Hs & Hm & Hq). cbn in *. constructor; cbn; rewrite ?Ht, ?Hs; try done; try lia.
  - intros id row [[<- <-]|[_ ?]]%lookup_insert_Some; [right; split; [lia|done]|by left].
  - intros id row Hr Hlt. rewrite lookup_insert_ne by lia. done.
Qed.

Lemma AddTask_grows e h ex faults d now : callback_ok ex -> grows d (AddTask e h ex faults d now).1.
Proof.
  intros Hcb. revert d. induction faults as [|f faults IH]; intros d; cbn [AddTask].
  - pose proof (add_tx_grows e h ex NoFault d now Hcb) as Hg.
    by destruct (add_tx e h ex NoFault d now) as [[d1 res] ag].
  - pose proof (add_tx_grows e h ex f d now Hcb) as Hg.
    destruct (add_tx e h ex f d now) as [[d1 [id|[]]] ag]; try done.
    specialize (IH d1). destruct (AddTask e h ex faults d1 now) as [d2 ags].
    by eapply grows_trans.
Qed.

Lemma grows_ok d d' ns : cl_ok (d, ns) -> grows d d' -> cl_ok (d', ns).
Proof.
  intros Hok [R K S M Q]. pose proof (proj1 Hok) as (Hreg & Hmk & Htk). cbn in *.
  eapply cl_ok_db; [done| | |].
  - split; [|split].
    + intros id row o Hr Ho. rewrite M. destruct (R _ _ Hr) as [|[_ ?]]; [eauto|congruence].
    + intros id. rewrite M, Q. apply Hmk.
    + intros id [row Hr]. destruct (R _ _ Hr) as [Hr'|[? _]]; [|lia].
      assert (id < task_seq d) by (apply Htk; eauto). lia.
  - by apply keeps_machines_refl.
  - intros host e _ _ id row Hr Ho. exists row. split; [|done]. apply K; [done|]. apply Htk. eauto.
Qed.

(** ** Taking work *)

(** The tables after a change of owners only. *)
Lemma db_ok_only_tasks d d' : db_ok d -> only_tasks d d' ->
  (forall id, is_Some (tasks d' !! id) -> is_Some (tasks d !! id)) ->
  (forall id row o, tasks d' !! id = Some row -> t_owner row = Some o -> is_Some (machines d !! o)) ->
  db_ok d'.
Proof.
  intros (Hreg & Hmk & Htk) Ho Hrows Hown. rewrite Ho. unfold db_ok, owners_registered. cbn.
  split; [done|]. split; [done|]. intros id Hid. auto.
Qed.

Lemma only_tasks_machines d d' : only_tasks d d' -> keeps_machines d d'.
Proof. intros ->. by apply keeps_machines_refl. Qed.

Lemma lookup_owner_cases (f : task_row -> task_row) (P : Prop) `{Decision P} (o : option task_row) row :
  (if decide P then f <$> o else o) = Some row ->
  o = Some row \/ P /\ exists row0, o = Some row0 /\ row = f row0.
Proof. case_decide; [|by left]. intros (row0 & -> & ->)%fmap_Some. right. eauto. Qed.

(** The goroutines of a node after it started some tasks. *)
Lemma new_runs_tasks k (f : TaskID -> option (Z * Z)) t (ids : list TaskID) :
  r_task <$> map (fun id => mkRun k id (f id) t Working) ids = ids.
Proof. induction ids as [|id ids IH]; [done|]. cbn [map]. rewrite fmap_cons. by rewrite IH. Qed.

(** The rows after a claim of the tasks [tIDs] for [o] of which [started] run. *)
Section Claimed.
Context (d d1 d' : db X) (o : Z) (tIDs started : list TaskID).
Hypothesis Hun : forall id, id ∈ tIDs -> exists r, tasks d !! id = Some r /\ t_owner r = None.
Hypothesis Hrows : forall id, tasks d1 !! id =
  if decide (id ∈ tIDs) then set_owner (Some o) <$> tasks d !! id else tasks d !! id.
Hypothesis Hsr : forall id, tasks d' !! id = tasks d1 !! id \/
  (id ∈ tIDs /\ (id ∉ started) /\ tasks d' !! id = (set_owner None <$> tasks d1 !! id)).

Lemma claimed_keeps o' : keeps_owned o' d d'.
Proof using Hun Hrows Hsr.
  intros id row Hrow Ho. assert (id ∉ tIDs) as Hni.
  { intros Hid. destruct (Hun id Hid) as (r' & ? & ?). congruence. }
  exists row. split; [|done]. destruct (Hsr id) as [->|(? & _)]; [|done]. by rewrite Hrows, decide_False.
Qed.

Lemma claimed_back id row' : tasks d' !! id = Some row' -> exists row, tasks d !! id = Some row /\
  (t_owner row' = None \/ t_owner row' = t_owner row \/ t_owner row' = Some o).
Proof using Hrows Hsr.
  intros Hrow'. assert (forall x, tasks d1 !! id = Some x -> exists row, tasks d !! id = Some row /\
    (t_owner x = t_owner row \/ t_owner x = Some o)) as H1.
  { intros x Hx. rewrite Hrows in Hx. apply lookup_owner_cases in Hx as [?|(_ & y & ? & ->)]; eauto. }
  destruct (Hsr id) as [E|(_ & _ & E)]; rewrite E in Hrow'.
  - destruct (H1 _ Hrow') as (row & ? & ?). eauto.
  - apply fmap_Some in Hrow' as (x & Hx & ->). destruct (H1 _ Hx) as (row & ? & ?). eauto.
Qed.

Lemma claimed_started t : t ∈ started -> t ∈ tIDs ->
  exists row, tasks d' !! t = Some row /\ t_owner row = Some o.
Proof using Hun Hrows Hsr.
  intros Ht Hi. destruct (Hun t Hi) as (row & Hrow & _). exists (set_owner (Some o) row). split; [|done].
  destruct (Hsr t) as [->|(_ & ? & _)]; [|done]. by rewrite Hrows, decide_True, Hrow by auto.
Qed.

End Claimed.

(** Taking new tasks: started tasks join the goroutines, no owned task is
    touched. *)
Lemma considers_claim_ok d e k from ids env e' d' acc :
  from <> WorkSourceRecover -> db_ok d -> node_ok d e ->
  considers e d k from ids env e' d' acc -> fits e' ->
  db_ok d' /\ node_ok d' e' /\ keeps_machines d d' /\ forall o, keeps_owned o d d'.
Proof.
  intros Hfrom Hdb (Hr & Hnd & Hok) Hc Hfit.
  assert (engine_ok e') as Hok' by (by eapply considers_ok).
  destruct Hc as [acc e' Hn Hm Hrun _ _
    |h n e1 d1 tIDs started e' d' acc _ Hk Ecap Hn1 Hm1 Hr1 _ HndT _ _ _ Hreg _ Hd1 Hun Hrows Hst|]; [| |done].
  { split; [done|]. split; [|split; [by apply keeps_machines_refl|intros; apply keeps_owned_refl]].
    unfold node_ok, runs_owned. destruct Hn as (-> & _). by rewrite Hrun. }
  destruct Hst as [Hss Hrun Hmem Hnode Hdb' Hsr _ _ _]. rewrite Hr1 in Hrun.
  pose proof (only_tasks_trans _ _ _ Hd1 Hdb') as Hdd.
  pose proof (claimed_keeps d d1 d' _ tIDs started Hun Hrows Hsr) as Hko.
  pose proof (claimed_back d d1 d' _ tIDs started Hrows Hsr) as Hback.
  split; [|split; [|split; [by apply only_tasks_machines|done]]].
  - eapply db_ok_only_tasks; [done|done| |].
    + intros id [row' Hrow']. destruct (Hback _ _ Hrow') as (row & -> & _). done.
    + intros id row' o Hrow' Ho. destruct (Hback _ _ Hrow') as (row & Hrow & [?|[E|E]]); [congruence| |].
      * apply (proj1 Hdb id row o); [done|congruence].
      * rewrite E in Ho. by injection Ho as <-.
  - destruct (same_node_trans _ _ _ Hn1 Hnode) as (Hown & _).
    assert (forall t, t ∈ started -> t ∈ tIDs) as Hsub by (intros t Ht; by eapply elem_of_sublist).
    split; [|split; [|done]].
    + intros r Hin. rewrite Hown. rewrite Hrun in Hin. apply elem_of_app in Hin as [Hin|Hin].
      * destruct (Hr r Hin) as (row & ? & ?). by eapply Hko.
      * apply list_elem_of_fmap in Hin as (t & -> & Ht). cbn. eapply claimed_started; eauto.
    + rewrite Hrun, fmap_app, new_runs_tasks. apply NoDup_app. split; [done|].
      split; [|by eapply sublist_NoDup]. intros t (r & -> & Hin)%list_elem_of_fmap Ht.
      destruct (Hr r Hin) as (row & ? & ?). destruct (Hun (r_task r) (Hsub _ Ht)) as (row' & ? & ?). congruence.
Qed.

(** ** Ending work *)

Lemma finish_do_same e r before after done doErr now :
  e_running e = before ++ r :: after ->
  same_node e (finish_do e r before after done doErr now) /\
  forall x, x ∈ e_running (finish_do e r before after done doErr now) ->
    exists y, y ∈ e_running e /\ r_task x = r_task y.
Proof.
  intros Hrun. unfold finish_do. destruct (e_handlers e !! r_handler r) as [h|].
  2: { split; [done|]. eauto. }
  assert (forall x, x ∈ before ++ mkRun (r_handler r) (r_task r) (r_sector r) (r_start r) (Recording done doErr now) :: after ->
    exists y, y ∈ e_running e /\ r_task x = r_task y) as Hx.
  { intros x [Hx|[->|Hx]]%elem_of_replace; rewrite Hrun.
    - exists x. split; [apply elem_of_app; by left|done].
    - exists r. split; [apply elem_of_app; right; left|done].
    - exists x. split; [apply elem_of_app; right; by right|done]. }
  destruct (Storage (h_cost h)); (split; [done|exact Hx]).
Qed.

Lemma finish_do_tasks e r before after done doErr now : e_running e = before ++ r :: after ->
  r_task <$> e_running (finish_do e r before after done doErr now) = r_task <$> e_running e.
Proof.
  intros Hrun. unfold finish_do. destruct (e_handlers e !! r_handler r) as [h|]; [|done].
  by destruct (Storage (h_cost h)); cbn; rewrite Hrun, !fmap_app, !fmap_cons.
Qed.

Lemma finish_do_node_ok d e r before after done doErr now :
  node_ok d e -> e_running e = before ++ r :: after -> r_phase r = Working ->
  node_ok d (finish_do e r before after done doErr now).
Proof.
  intros (Hr & Hnd & Hok) Hrun Hph.
  destruct (finish_do_same e r before after done doErr now Hrun) as [(Hown & _) Hx].
  split; [|split; [by rewrite finish_do_tasks|by apply finish_do_ok]].
  intros x Hin. destruct (Hx x Hin) as (y & Hy & ->). rewrite Hown. by apply Hr.
Qed.

(** Recording a completion changes the row of its task only. *)
Lemma record_tx_frame e h d tID sec ws we done doErr now d' :
  record_tx e h d tID sec ws we done doErr now = Some d' ->
  (forall j, j <> tID -> tasks d' !! j = tasks d !! j) /\
  (forall row', tasks d' !! tID = Some row' -> is_Some (tasks d !! tID) /\ t_owner row' = None) /\
  task_seq d' = task_seq d /\ machines d' = machines d /\ machine_seq d' = machine_seq d.
Proof.
  intros E. destruct (tasks d !! tID) as [r|] eqn:Er; [|unfold record_tx in E; by rewrite Er in E].
  destruct (record_tx_rows _ _ _ _ _ _ _ _ _ _ _ _ Er E) as [Hr Ho]. split; [done|]. split.
  { intros row'. rewrite Hr. unfold completed_row. destruct (_ || _); [done|]. intros [= <-]. done. }
  rewrite (record_tx_some _ _ _ _ _ _ _ _ _ _ _ Er) in E. injection E as <-. unfold completed_db.
  destruct (_ || _); by destruct sec as [[]|].
Qed.

Lemma NoDup_drop_mid {A} (l1 l2 : list A) x : NoDup (l1 ++ x :: l2) -> NoDup (l1 ++ l2) /\ (x ∉ l1 ++ l2).
Proof.
  rewrite <- Permutation_middle. by intros [? ?]%NoDup_cons.
Qed.

Lemma record_attempt_node_ok d ns e host r before after fault now :
  cl_ok (d, ns) -> ns !! host = Some e -> e_running e = before ++ r :: after ->
  cl_ok ((record_attempt e d r before after fault now).2,
         <[host := (record_attempt e d r before after fault now).1]> ns).
Proof.
  intros Hcl He Hrun. pose proof Hcl as (Hdb & Hn & Hd). cbn in Hdb, Hn, Hd.
  destruct (Hn host e He) as (_ & Hr & Hnd & Hok).
  assert (engine_ok (record_attempt e d r before after fault now).1) as Hok' by (by apply record_attempt_ok).
  assert (cl_ok (d, <[host := e]> ns)) as Hsame by (by rewrite insert_id).
  revert Hok'. unfold record_attempt. destruct (e_handlers e !! r_handler r) as [h|]; [|done].
  destruct (r_phase r) as [|dn doErr we]; [done|]. destruct fault; [done|].
  destruct (record_tx _ _ _ _ _ _ _ _ _ _) as [d'|] eqn:E; [|done]. cbn [fst snd]. intros Hok'.
  destruct (record_tx_frame _ _ _ _ _ _ _ _ _ _ _ E) as (Ho & Hself & Hs & Hm & Hq).
  assert (r ∈ e_running e) as Hin by (rewrite Hrun; apply elem_of_app; right; left).
  destruct (Hr r Hin) as (row0 & Hrow0 & Hown0).
  rewrite Hrun, fmap_app, fmap_cons in Hnd. apply NoDup_drop_mid in Hnd as [Hnd Hni].
  rewrite <- fmap_app in Hnd, Hni.
  eapply cl_ok_node; [done|done| |by apply keeps_machines_refl|done|done| |].
  - destruct Hdb as (Hreg & Hmk & Htk). split; [|split].
    + intros id row o Hrow Hrow'. rewrite Hm. destruct (decide (id = r_task r)) as [->|Hne].
      * apply Hself in Hrow as [_ ?]. congruence.
      * rewrite Ho in Hrow by done. eauto.
    + intros id. rewrite Hm, Hq. apply Hmk.
    + intros id [row Hrow]. rewrite Hs. apply Htk. destruct (decide (id = r_task r)) as [->|Hne]; [done|].
      rewrite <- Ho by done. eauto.
  - split; [|split; [done|done]]. intros x Hx. cbn in Hx |- *.
    destruct (Hr x) as (row & ? & ?).
    { rewrite Hrun. rewrite elem_of_app in Hx. rewrite elem_of_app, elem_of_cons. tauto. }
    exists row. split; [|done]. rewrite Ho; [done|]. intros E'. apply Hni. rewrite <- E'.
    by apply list_elem_of_fmap_2.
  - intros o Hne id row Hrow Hrow'. exists row. split; [|done]. rewrite Ho; [done|].
    intros ->. congruence.
Qed.

(** ** Start-up *)

(** No handler remembers a storage failure of the task. *)
Definition no_failure e (id : TaskID) : Prop :=
  forall k h, e_handlers e !! k = Some h -> h_storage_failures h !! id = None.

Lemma sublist_singleton {A} (l : list A) (x : A) : sublist l [x] -> l = [] \/ l = [x].
Proof. intros Hs. inversion Hs as [|? ? ? Hn|? ? ? Hn]; apply sublist_nil_r in Hn; subst; auto. Qed.

Lemma submseteq_singleton {A} (l : list A) (x : A) : l ⊆+ [x] -> l = [] \/ l = [x].
Proof.
  intros Hs. pose proof (submseteq_length _ _ Hs) as Hl. destruct l as [|a [|b l]]; [by left| |simpl in Hl; lia].
  right. by assert (a ∈ [x]) as ->%list_elem_of_singleton by (eapply elem_of_submseteq; [left|exact Hs]).
Qed.

(** Recovering one task. *)
Lemma recover_one e d k id env e' d' acc :
  considerWork e d k WorkSourceRecover [id] env = (e', d', acc) -> accepts_some env -> no_failure e id ->
  engine_ok e -> fits e' ->
  engine_ok e' /\ same_node e e' /\ fails_within e e' [id] /\ only_tasks d d' /\
  (forall j, j <> id -> tasks d' !! j = tasks d !! j) /\
  (acc = true -> tasks d' !! id = tasks d !! id /\
     exists r, e_running e' = e_running e ++ [r] /\ r_task r = id) /\
  (acc = false -> e_running e' = e_running e /\
     (tasks d' !! id = tasks d !! id \/ tasks d' !! id = set_owner None <$> tasks d !! id)).
Proof.
  intros E Hsome Hnf Hok Hfit.
  assert (forall l, we_can_accept env WorkSourceRecover [id] = Some l -> NoDup l) as Honce.
  { intros l [->| ->]%Hsome%submseteq_singleton; [apply NoDup_nil_2|apply NoDup_singleton]. }
  apply considerWork_considers in E; [|done].
  assert (engine_ok e') as Hok' by (eapply considers_ok; [done|done| |done]; intros _; split; [done|simpl; lia]).
  split; [done|]. inversion E as [acc0 e0 Hn Hm Hrun Hf Hacc| |h n e1 accepted tIDs started e0 d0 acc0 _ Hk Ecap Hn1 Hm1 Hr1 Hf1 Hac Hne Hsub Hall HndT Hst]; subst; [|done|].
  - split; [done|]. split; [|split; [apply only_tasks_refl|split; [done|split; [|by auto]]]].
    + intros k' h' Hk'. destruct (Hf k' h' Hk') as (h & ? & Hfn). exists h. split; [done|].
      intros t _. apply Hfn, not_elem_of_nil.
    + intros Ht. by specialize (Hacc Ht).
  - destruct (submseteq_singleton _ _ (Hsome _ _ Hac)) as [->| ->]; [done|].
    assert (tIDs = [id]) as -> by (apply Hall; intros t ->%list_elem_of_singleton; by eapply Hnf).
    destruct Hst as [Hss Hrun Hmem Hnode Hdb Hsr Href Hacc Hfw]. rewrite Hr1 in Hrun.
    split; [by eapply same_node_trans|]. split.
    { eapply fails_within_trans; [|done]. intros k' h' Hk'. destruct (Hf1 k' h' Hk') as (h2 & ? & Hfn).
      exists h2. split; [done|]. intros t _. apply Hfn, not_elem_of_nil. }
    split; [done|]. split; [|split].
    + intros j Hj. destruct (Hsr j) as [?|(->%list_elem_of_singleton & _)]; done.
    + intros ->. destruct (sublist_singleton _ _ Hss) as [->| ->]; [by destruct (Hacc eq_refl)|].
      split; [|by eexists]. destruct (Hsr id) as [?|(_ & Hni & _)]; [done|]. destruct Hni. left.
    + intros ->. rewrite (Href eq_refl), app_nil_r in Hrun. split; [done|].
      destruct (Hsr id) as [?|(_ & _ & ?)]; auto.
Qed.

(** A node with the tasks it still has to recover. *)
Record recovering d e (ids : list TaskID) : Prop := {
  rc_node : node_ok d e;
  rc_db : db_ok d;
  rc_nodup : NoDup ids;
  rc_row : forall id, id ∈ ids -> exists row, tasks d !! id = Some row /\ t_owner row = Some (e_owner e);
  rc_idle : forall id, id ∈ ids -> id ∉ r_task <$> e_running e;
  rc_fail : forall id, id ∈ ids -> no_failure e id
}.

(** The outcome for one task: it runs, or it does not and may have been given
    back. *)
Record recovered d e (id : TaskID) (kept : bool) d' e' : Prop := {
  rd_ok : engine_ok e';
  rd_node : same_node e e';
  rd_fails : fails_within e e' [id];
  rd_db : only_tasks d d';
  rd_other : forall j, j <> id -> tasks d' !! j = tasks d !! j;
  rd_kept : kept = true -> tasks d' !! id = tasks d !! id /\
    exists r, e_running e' = e_running e ++ [r] /\ r_task r = id;
  rd_lost : kept = false -> e_running e' = e_running e /\
    (tasks d' !! id = tasks d !! id \/ tasks d' !! id = (set_owner None <$> tasks d !! id))
}.

Lemma recovered_keeps d e id kept d' e' o : recovered d e id kept d' e' ->
  (exists row, tasks d !! id = Some row /\ t_owner row = Some (e_owner e)) ->
  o <> e_owner e -> keeps_owned o d d'.
Proof.
  intros Hrd (row0 & Hrow0 & Ho0) Hne j row Hrow Ho. exists row. split; [|done].
  rewrite (rd_other _ _ _ _ _ _ Hrd); [done|]. intros ->. congruence.
Qed.

Lemma recovered_row d e id kept d' e' row' : recovered d e id kept d' e' -> tasks d' !! id = Some row' ->
  tasks d !! id = Some row' \/ (kept = false /\ t_owner row' = None /\ is_Some (tasks d !! id)).
Proof.
  intros [_ _ _ _ _ Hk Hl] Hr. destruct kept.
  - left. by rewrite <- (proj1 (Hk eq_refl)).
  - destruct (Hl eq_refl) as [_ [E|E]]; rewrite E in Hr; [by left|right].
    apply fmap_Some in Hr as (row & -> & ->). split; [done|]. split; [done|]. by eexists.
Qed.

Lemma recovered_db_ok d e id kept d' e' : db_ok d -> recovered d e id kept d' e' -> db_ok d'.
Proof.
  intros Hdb Hrd. eapply db_ok_only_tasks; [done|apply Hrd| |].
  - intros j [row' Hr]. destruct (decide (j = id)) as [->|Hne].
    + destruct (recovered_row _ _ _ _ _ _ _ Hrd Hr) as [->|(_ & _ & ?)]; done.
    + rewrite <- (rd_other _ _ _ _ _ _ Hrd) by done. by rewrite Hr.
  - intros j row' o Hr Ho. apply (proj1 Hdb j row'); [|done]. destruct (decide (j = id)) as [->|Hne].
    + destruct (recovered_row _ _ _ _ _ _ _ Hrd Hr) as [|(_ & ? & _)]; [done|congruence].
    + by rewrite <- (rd_other _ _ _ _ _ _ Hrd).
Qed.

(** After one task, the node goes on with the others. *)
Lemma recovered_next d e id ids kept d' e' :
  recovering d e (id :: ids) -> recovered d e id kept d' e' -> recovering d' e' ids.
Proof.
  intros [(Hr & Hnd & Hok) Hdb Hnd2 Hrow Hidle Hfail] Hrd.
  apply NoDup_cons in Hnd2 as [Hni Hnd2].
  assert (forall j, j ∈ ids -> j <> id) as Hne by (intros j Hj ->; done).
  pose proof (recovered_db_ok _ _ _ _ _ _ Hdb Hrd) as Hdb'.
  destruct (Hrow id) as (row0 & Hrow0 & Ho0); [left|].
  assert (id ∉ r_task <$> e_running e) as Hid by (apply Hidle; left).
  destruct Hrd as [Hok' (Hown & _) Hfw Hd Hoth Hk Hl].
  assert (exists l, e_running e' = e_running e ++ l /\ (l = [] \/ exists r, l = [r] /\ r_task r = id /\ kept = true)) as (l & Hrun & Hlr).
  { destruct kept.
    - destruct (Hk eq_refl) as (_ & r & E & ?). exists [r]. split; [done|]. right. by exists r.
    - exists []. rewrite app_nil_r. split; [by apply Hl|by left]. }
  constructor; try done.
  - split; [|split; [|done]].
    + intros r Hin. rewrite Hown, Hrun in *. apply elem_of_app in Hin as [Hin|Hin].
      * rewrite Hoth; [by apply Hr|]. intros E. apply Hid. rewrite <- E. by apply list_elem_of_fmap_2.
      * destruct Hlr as [->|(r' & -> & Er & ->)]; [by apply not_elem_of_nil in Hin|].
        apply list_elem_of_singleton in Hin as ->. rewrite Er, (proj1 (Hk eq_refl)). eauto.
    + rewrite Hrun, fmap_app. destruct Hlr as [->|(r' & -> & Er & ->)]; [by rewrite app_nil_r|].
      apply NoDup_app. split; [done|]. split; [|apply NoDup_singleton].
      intros t Ht ->%list_elem_of_singleton. by rewrite Er in Ht.
  - intros j Hj. rewrite Hown, Hoth by auto. apply Hrow. by right.
  - intros j Hj. rewrite Hrun, fmap_app, elem_of_app. intros [Hin|Hin].
    + revert Hin. apply Hidle. by right.
    + destruct Hlr as [->|(r' & -> & Er & _)]; [by apply not_elem_of_nil in Hin|].
      apply list_elem_of_singleton in Hin. apply (Hne j Hj). congruence.
  - intros j Hj k h' Hk'. destruct (Hfw k h' Hk') as (h & Hh & Hf). apply Hf.
    + intros ->%list_elem_of_singleton. by apply (Hne id Hj).
    + eapply Hfail; [by right|done].
Qed.

(** Goroutines only join while work is taken. *)
Lemma considerWork_mono e d k from ids env e' d' acc :
  considerWork e d k from ids env = (e', d', acc) -> e_running e `prefix_of` e_running e'.
Proof.
  assert (forall e0 h d0 l e1 d1 a, start_work e0 k h env d0 l = (e1, d1, a) ->
    e_running e0 `prefix_of` e_running e1) as Hsw.
  { intros e0 h d0 l e1 d1 a. unfold start_work. destruct (Storage (h_cost h)).
    - destruct (claim_storage _ _ _ _ l) as [[[st fails] good] failed].
      destruct (0 <? length failed)%nat; [destruct (length good =? 0)%nat|]; intros [= <- <- <-]; cbn;
        first [done|by apply prefix_app_r].
    - intros [= <- <- <-]. cbn. by apply prefix_app_r. }
  unfold considerWork. intros E.
  destruct (e_handlers e !! k) as [h|]; [|by injection E as <- <- <-].
  destruct (length ids =? 0)%nat; [by injection E as <- <- <-|].
  destruct (AtMax _ _); [by injection E as <- <- <-|].
  destruct (AssertMachineHasCapacity e h); [|by injection E as <- <- <-].
  destruct (we_can_accept env from ids) as [l|]; [|by injection E as <- <- <-].
  destruct (length l =? 0)%nat; [by injection E as <- <- <-|].
  destruct (filter_failures _ _ l) as [fails l2]. destruct (decide _); [exact (Hsw _ _ _ _ _ _ _ E)|].
  destruct (we_claim_err env); [by injection E as <- <- <-|].
  destruct (claim_tasks _ _ _ _ _) as [[d1 cl]|]; [|by injection E as <- <- <-].
  destruct (length cl =? 0)%nat; [by injection E as <- <- <-|]. exact (Hsw _ _ _ _ _ _ _ E).
Qed.

Lemma fits_prefix e e' : e_running e `prefix_of` e_running e' -> fits e' -> fits e.
Proof. intros Hp%prefix_length. unfold fits. lia. Qed.

(** One iteration of [resurrect]. *)
Definition resurrect_one e d (id : TaskID) (name : string) (env : work_env) (unlock_fail : bool)
    : engine ST * db X * bool :=
  let '(e, d, kept) :=
    match taskMap e name with
    | None => (e, d, false)
    | Some k => considerWork e d k WorkSourceRecover [id] env
    end in
  (e, if kept then d else if unlock_fail then d else disown_if_owner d id (e_owner e), kept).

Lemma resurrect_cons e d id name work env uf :
  resurrect e d ((id, name) :: work) env uf =
  let '(e1, d1, _) := resurrect_one e d id name (env id) (uf id) in resurrect e1 d1 work env uf.
Proof.
  cbn [resurrect]. unfold resurrect_one.
  by destruct (taskMap e name) as [k|]; [destruct (considerWork _ _ _ _ _ _) as [[e1 d1] kept]|].
Qed.

Lemma resurrect_one_mono e d id name env uf :
  e_running e `prefix_of` e_running (resurrect_one e d id name env uf).1.1.
Proof.
  unfold resurrect_one. destruct (taskMap e name) as [k|]; [|done].
  destruct (considerWork _ _ _ _ _ _) as [[e1 d1] kept] eqn:E. by apply considerWork_mono in E.
Qed.

Lemma resurrect_mono e d work env uf : e_running e `prefix_of` e_running (resurrect e d work env uf).1.
Proof.
  revert e d. induction work as [|[id name] work IH]; intros e d; [done|]. rewrite resurrect_cons.
  pose proof (resurrect_one_mono e d id name (env id) (uf id)) as Hp.
  destruct (resurrect_one _ _ _ _ _ _) as [[e1 d1] kept]. by etrans; [|apply IH].
Qed.

Lemma disown_if_owner_rows d id o j : tasks (disown_if_owner d id o) !! j =
  if decide (j = id) then (fun r => if decide (t_owner r = Some o) then set_owner None r else r) <$> tasks d !! j
  else tasks d !! j.
Proof.
  unfold disown_if_owner. cbn. case_decide as E; [subst; by rewrite lookup_alter_eq|by rewrite lookup_alter_ne].
Qed.

(** Every outcome of an iteration; a task that is not kept is not owned any more
    unless giving it back failed. *)
Lemma resurrect_one_recovered e d id name env uf e' d' kept :
  resurrect_one e d id name env uf = (e', d', kept) -> accepts_some env -> no_failure e id ->
  engine_ok e -> fits e' ->
  recovered d e id kept d' e' /\
  (uf = false -> kept = false -> forall row, tasks d' !! id = Some row -> t_owner row <> Some (e_owner e)).
Proof.
  intros E Hsome Hnf Hok Hfit. unfold resurrect_one in E.
  set (w := match taskMap e name with None => (e, d, false)
            | Some k => considerWork e d k WorkSourceRecover [id] env end) in E.
  destruct w as [[e1 d1] kept1] eqn:Em. unfold w in Em. injection E as <- <- <-.
  assert (recovered d e id kept1 d1 e1) as Hrd.
  { destruct (taskMap e name) as [k|].
    - destruct (recover_one _ _ _ _ _ _ _ _ Em Hsome Hnf Hok Hfit) as (? & ? & ? & ? & ? & ? & ?). by constructor.
    - injection Em as <- <- <-. constructor; try done; [apply fails_within_refl|apply only_tasks_refl|].
      intros _. split; [done|by left]. }
  destruct kept1; [by split|]. destruct uf; [by split|].
  assert (e_owner e1 = e_owner e) as Ho by apply (rd_node _ _ _ _ _ _ Hrd).
  destruct Hrd as [? ? ? Hd Hoth Hk Hl]. split.
  - constructor; try done.
    + eapply only_tasks_trans; [done|apply only_tasks_with].
    + intros j Hj. rewrite disown_if_owner_rows, decide_False by done. by apply Hoth.
    + intros _. split; [by apply Hl|]. rewrite disown_if_owner_rows, decide_True by done.
      destruct (Hl eq_refl) as [_ [->| ->]]; destruct (tasks d !! id) as [row|]; cbn; auto;
        case_decide; auto.
  - intros _ _ row. rewrite disown_if_owner_rows, decide_True, Ho by done.
    intros (r & _ & ->)%fmap_Some. by case_decide.
Qed.

(** The whole of [resurrect]. *)
Lemma resurrect_recovers work e d env uf e' d' :
  resurrect e d work env uf = (e', d') -> (forall id, accepts_some (env id)) ->
  recovering d e (fst <$> work) -> fits e' ->
  recovering d' e' [] /\ same_node e e' /\ only_tasks d d' /\
  (forall o, o <> e_owner e -> keeps_owned o d d') /\
  ((forall id, uf id = false) ->
   (forall id row, tasks d !! id = Some row -> t_owner row = Some (e_owner e) ->
      id ∈ r_task <$> e_running e \/ id ∈ fst <$> work) ->
   forall id row, tasks d' !! id = Some row -> t_owner row = Some (e_owner e) -> id ∈ r_task <$> e_running e').
Proof.
  revert e d. induction work as [|[id name] work IH]; intros e d E Hsome Hrc Hfit.
  - cbn in E. injection E as <- <-. split; [done|]. split; [done|]. split; [apply only_tasks_refl|].
    split; [intros; apply keeps_owned_refl|]. intros _ Hall id row Hr Ho.
    destruct (Hall id row Hr Ho) as [|Hin]; [done|by apply not_elem_of_nil in Hin].
  - rewrite resurrect_cons in E. destruct (resurrect_one _ _ _ _ _ _) as [[e1 d1] kept] eqn:E1.
    assert (fits e1) as Hfit1.
    { eapply fits_prefix; [|done]. pose proof (resurrect_mono e1 d1 work env uf) as Hp. by rewrite E in Hp. }
    rewrite fmap_cons in Hrc. cbn [fst] in Hrc.
    destruct (resurrect_one_recovered _ _ _ _ _ _ _ _ _ E1 (Hsome id)) as [Hrd Hgive];
      [apply Hrc; left|apply Hrc|done|].
    pose proof (recovered_next _ _ _ _ _ _ _ Hrc Hrd) as Hrc1.
    destruct (IH _ _ E Hsome Hrc1 Hfit) as (Hrc' & Hn' & Hd' & Hk' & Hall').
    assert (e_owner e1 = e_owner e) as Ho by apply (rd_node _ _ _ _ _ _ Hrd). rewrite Ho in Hk', Hall'.
    split; [done|]. split; [eapply same_node_trans; [apply Hrd|done]|].
    split; [eapply only_tasks_trans; [apply Hrd|done]|]. split.
    { intros o Hne. eapply keeps_owned_trans; [|by apply Hk'].
      eapply recovered_keeps; [done|apply Hrc; left|done]. }
    intros Huf Hall. apply Hall'; [done|]. intros j row Hr Hown.
    assert (forall t, t ∈ r_task <$> e_running e -> t ∈ r_task <$> e_running e1) as Hmono.
    { intros t. pose proof (resurrect_one_mono e d id name (env id) (uf id)) as [l Hl]. rewrite E1 in Hl. cbn in Hl.
      rewrite Hl, fmap_app, elem_of_app. by left. }
    destruct (decide (j = id)) as [->|Hne].
    + destruct kept; [|by destruct (Hgive (Huf id) eq_refl row Hr)].
      left. destruct (rd_kept _ _ _ _ _ _ Hrd eq_refl) as (_ & r & -> & <-).
      rewrite fmap_app, elem_of_app. right. left.
    + rewrite (rd_other _ _ _ _ _ _ Hrd) in Hr by done.
      destruct (Hall j row Hr Hown) as [|Hin]; [left; by apply Hmono|].
      rewrite fmap_cons, elem_of_cons in Hin. destruct Hin; [done|by right].
Qed.

(** ** Registration and reaping *)

Lemma cleanup_ok d ns fail now : cl_ok (d, ns) -> heard ns d now -> cl_ok ((CleanupMachines d fail now).1, ns).
Proof.
  intros Hcl Hheard. unfold CleanupMachines. destruct fail; [done|].
  replace (Z.quot LOOKS_DEAD_TIMEOUT Millisecond * Millisecond) with LOOKS_DEAD_TIMEOUT by reflexivity.
  set (d' := (delete_stale_machines d now LOOKS_DEAD_TIMEOUT).1).
  pose proof (proj1 Hcl) as (Hreg & Hmk & Htk). cbn in Hreg, Hmk, Htk.
  assert (forall id row', tasks d' !! id = Some row' -> exists row, tasks d !! id = Some row /\
    (row' = row /\ (forall o, t_owner row = Some o -> is_Some (machines d' !! o)) \/ row' = set_owner None row)) as Hback.
  { intros id row' Hr. unfold d' in Hr. rewrite lookup_stale_tasks in Hr.
    apply fmap_Some in Hr as (row & Hrow & ->). exists row. split; [done|]. unfold disown_machines.
    destruct (t_owner row) as [o|] eqn:Eo; [|left; split; [done|congruence]].
    destruct (Hreg id row o Hrow Eo) as [m Hm]. rewrite Hm.
    destruct (Z.ltb_spec (m_last_contact m) (now - LOOKS_DEAD_TIMEOUT)) as [|Hge]; [by right|left].
    split; [done|]. intros o' [= <-]. exists m. unfold d'. by apply lookup_live_machine. }
  eapply cl_ok_db; [done| | |].
  - split; [|split].
    + intros id row' o Hr Ho. destruct (Hback _ _ Hr) as (row & Hrow & [[-> Hm]| ->]); [by apply Hm|done].
    + intros id [m Hm]. apply lookup_live_machine in Hm as [Hm _]. apply Hmk. eauto.
    + intros id [row' Hr]. apply Htk. destruct (Hback _ _ Hr) as (row & -> & _). eauto.
  - split; [done|]. intros id m Hm. apply lookup_live_machine in Hm as [Hm _]. eauto.
  - intros host e He Hrun id row Hrow Ho. exists row. split; [|done]. unfold d'. rewrite lookup_stale_tasks, Hrow.
    cbn. f_equal. unfold disown_machines. rewrite Ho. destruct (machines d !! e_owner e) as [m|] eqn:Em; [|done].
    specialize (Hheard host e m He Hrun Em). by rewrite (proj2 (Z.ltb_ge _ _)) by lia.
Qed.

(** The upsert of a host that no live node has. *)
Record registered d ns (host : string) (now : time) d' (id : Z) : Prop := {
  rg_ok : cl_ok (d', ns);
  rg_lt : id < machine_seq d';
  rg_host : forall m, machines d' !! id = Some m -> m_host m = host;
  rg_new : forall host2 e2, ns !! host2 = Some e2 -> e_owner e2 <> id;
  rg_heard : heard ns d now -> heard ns d' now
}.

Lemma db_ok_machines d d' : db_ok d -> tasks d' = tasks d -> task_seq d' = task_seq d ->
  (forall id, is_Some (machines d !! id) -> is_Some (machines d' !! id)) ->
  (forall id, is_Some (machines d' !! id) -> id < machine_seq d') -> db_ok d'.
Proof.
  intros (Hreg & Hmk & Htk) Ht Hs Hk Hlt. split; [|split; [done|by rewrite Ht, Hs]].
  intros id row o. rewrite Ht. eauto.
Qed.

Lemma other_hosts ns host host2 e2 : ns !! host = None -> ns !! host2 = Some e2 -> host2 <> host.
Proof. intros Hn H2 ->. congruence. Qed.

Lemma upsert_insert d ns host now m0 : cl_ok (d, ns) -> m_host m0 = host ->
  registered d ns host now
    (mkDB (tasks d) (task_seq d) (history d) (events d) (<[machine_seq d := m0]> (machines d))
       (machine_seq d + 1) (singletons d) (ext d)) (machine_seq d).
Proof.
  intros Hcl Hm0. pose proof Hcl as (Hdb & Hn & _). pose proof Hdb as (_ & Hmk & _). cbn in Hdb, Hn, Hmk.
  set (d' := mkDB _ _ _ _ _ _ _ _).
  assert (forall o, o < machine_seq d -> machines d' !! o = machines d !! o) as Hold.
  { intros o Ho. cbn. by rewrite lookup_insert_ne by lia. }
  constructor.
  - eapply cl_ok_db; [done| | |intros; by apply keeps_owned_tasks].
    + eapply db_ok_machines; [done..| |].
      * intros i Hi. rewrite Hold by (by apply Hmk). done.
      * intros i [m Hm]. cbn in Hm |- *. apply lookup_insert_Some in Hm as [[<- _]|[_ Hm]]; [lia|].
        assert (i < machine_seq d); [|lia]. apply Hmk. eauto.
    + split; [cbn; lia|]. intros i m Hm Hi. rewrite Hold in Hm by done. eauto.
  - cbn. lia.
  - intros m. cbn. rewrite lookup_insert_eq. by intros [= <-].
  - intros host2 e2 H2 Ho. destruct (Hn _ _ H2) as ((_ & Hlt & _) & _). lia.
  - intros Hh host2 e2 m H2 Hrun. destruct (Hn _ _ H2) as ((_ & Hlt & _) & _). rewrite Hold by done. by eapply Hh.
Qed.

Lemma upsert_update d ns host res now id m0 : cl_ok (d, ns) -> ns !! host = None ->
  machines d !! id = Some m0 -> m_host m0 = host ->
  registered d ns host now (with_machines d
    ((fun m => if bool_decide (m_host m = host) then register_update res now m else m) <$> machines d)) id.
Proof.
  intros Hcl Hhost Hid Hm0. pose proof Hcl as (Hdb & Hn & _). pose proof Hdb as (_ & Hmk & _). cbn in Hdb, Hn, Hmk.
  set (d' := with_machines d _).
  assert (forall o m', machines d' !! o = Some m' -> exists m, machines d !! o = Some m /\ m_host m' = m_host m /\
    (m_host m <> host -> m' = m)) as Hback.
  { intros o m'. unfold d'. cbn. rewrite lookup_fmap. intros (m & -> & ->)%fmap_Some. exists m.
    case_bool_decide; done. }
  constructor.
  - eapply cl_ok_db; [done| | |intros; by apply keeps_owned_tasks].
    + eapply db_ok_machines; [done..| |].
      * intros i Hi. unfold d'. cbn. by rewrite lookup_fmap, fmap_is_Some.
      * intros i [m Hm]. destruct (Hback _ _ Hm) as (m1 & Hm1 & _). apply Hmk. eauto.
    + split; [done|]. intros i m Hm _. destruct (Hback _ _ Hm) as (m1 & Hm1 & Eh & _). eauto.
  - apply Hmk. eauto.
  - intros m Hm. destruct (Hback _ _ Hm) as (m1 & Hm1 & -> & _). congruence.
  - intros host2 e2 H2 Ho. destruct (Hn _ _ H2) as ((_ & _ & Hmh) & _). rewrite Ho in Hmh.
    apply (other_hosts _ _ _ _ Hhost H2). rewrite <- Hm0. symmetry. by apply Hmh.
  - intros Hh host2 e2 m H2 Hrun Hm. destruct (Hn _ _ H2) as ((_ & _ & Hmh) & _).
    destruct (Hback _ _ Hm) as (m1 & Hm1 & _ & Hsame).
    rewrite Hsame by (rewrite (Hmh m1 Hm1); by eapply other_hosts). by eapply Hh.
Qed.

Lemma upsert_registered d ns host res now d' oid :
  cl_ok (d, ns) -> ns !! host = None -> register_upsert d host res now = (d', oid) ->
  exists id, oid = Some id /\ registered d ns host now d' id.
Proof.
  intros Hcl Hhost E. unfold register_upsert in E. destruct (List.filter _ _) as [|[id m0] rest] eqn:Ef.
  - injection E as <- <-. eexists. split; [done|]. by apply upsert_insert.
  - injection E as <- <-. exists id. split; [done|].
    assert ((id, m0) ∈ List.filter (fun p : Z * machine_row => bool_decide (m_host p.2 = host)) (map_to_list (machines d)))
      as Hin by (rewrite Ef; left).
    apply elem_of_filter_b in Hin as [Hb Hin]. apply elem_of_map_to_list in Hin. bool_props.
    by eapply upsert_update.
Qed.

Lemma Register_ok d ns host inspector f1 f2 now d' reg :
  cl_ok (d, ns) -> ns !! host = None -> heard ns d now ->
  Register d host inspector f1 f2 now = Ok (d', reg) ->
  cl_ok (d', ns) /\ MachineID reg < machine_seq d' /\
  (forall m, machines d' !! MachineID reg = Some m -> m_host m = host) /\
  (forall host2 e2, ns !! host2 = Some e2 -> e_owner e2 <> MachineID reg) /\
  exists res, inspector = Some res /\ Cpu reg = Cpu res /\ Ram reg = Ram res.
Proof.
  intros Hcl Hhost Hh E. unfold Register in E. destruct inspector as [res|]; [|done].
  destruct f1; [done|]. destruct (register_upsert d host res now) as [d1 oid] eqn:Eu.
  destruct (upsert_registered _ _ _ _ _ _ _ Hcl Hhost Eu) as (id & -> & [Hok Hlt Hmh Hnew Hheard]).
  pose proof (cleanup_ok d1 ns f2 now Hok (Hheard Hh)) as Hok2.
  assert (machine_seq (CleanupMachines d1 f2 now).1 = machine_seq d1 /\
    forall o m, machines (CleanupMachines d1 f2 now).1 !! o = Some m -> machines d1 !! o = Some m) as [Hseq Hsub].
  { unfold CleanupMachines. destruct f2; [done|]. split; [done|]. intros o m Hm.
    by apply lookup_live_machine in Hm as [? _]. }
  destruct (CleanupMachines d1 f2 now) as [d2 n]. injection E as <- <-. cbn in *.
  split; [done|]. split; [lia|]. split; [intros m Hm; by apply Hmh, Hsub|]. split; [done|]. by exists res.
Qed.

(** ** The steps preserve the invariant *)

Lemma select_owned_NoDup d o : NoDup (fst <$> select_owned d o).
Proof.
  unfold select_owned. set (l := List.filter _ _).
  assert (fst <$> map (fun p : Z * task_row => (p.1, t_name p.2)) l = fst <$> l) as ->.
  { induction l as [|p l' IH]; [done|]. cbn [map]. by rewrite !fmap_cons, IH. }
  unfold l. pose proof (NoDup_fst_map_to_list (tasks d)) as Hnd. revert Hnd. generalize (map_to_list (tasks d)).
  intros l'. induction l' as [|p l' IH]; [done|]. cbn [List.filter]. rewrite fmap_cons. intros [Hni Hnd]%NoDup_cons.
  destruct (bool_decide _); [|by apply IH]. rewrite fmap_cons. constructor; [|by apply IH].
  intros (q & E & Hq)%list_elem_of_fmap. apply elem_of_filter_b in Hq as [_ Hq]. apply Hni. rewrite E.
  by apply list_elem_of_fmap_2.
Qed.

Lemma elem_of_select_owned d o id :
  id ∈ fst <$> select_owned d o <-> exists row, tasks d !! id = Some row /\ t_owner row = Some o.
Proof.
  unfold select_owned. rewrite list_elem_of_fmap. split.
  - intros ([i n] & -> & ([j row] & E & Hin)%list_elem_of_fmap). cbn in *. injection E as -> ->.
    apply elem_of_filter_b in Hin as [Hb Hin]. apply elem_of_map_to_list in Hin. bool_props. eauto.
  - intros (row & Hr & Ho). exists (id, t_name row). split; [done|]. apply list_elem_of_fmap.
    exists (id, row). split; [done|]. apply elem_of_filter_b. split; [by apply bool_decide_eq_true|].
    by apply elem_of_map_to_list.
Qed.

Lemma cl_ok_delete d ns host : cl_ok (d, ns) -> cl_ok (d, delete host ns).
Proof.
  intros (Hdb & Hn & Hd). split; [done|]. split.
  - intros h2 e2. cbn. intros [_ ?]%lookup_delete_Some. by apply Hn.
  - intros h1 e1 h2 e2. cbn. intros [_ ?]%lookup_delete_Some [_ ?]%lookup_delete_Some. by apply (Hd h1 e1 h2 e2).
Qed.

Lemma cl_ok_insert d ns host e : cl_ok (d, ns) -> identity_ok d host e -> node_ok d e ->
  (forall host2 e2, ns !! host2 = Some e2 -> e_owner e2 <> e_owner e) -> cl_ok (d, <[host := e]> ns).
Proof.
  intros (Hdb & Hn & Hd) Hi Ho Hnew. split; [done|]. split.
  - intros h2 e2. cbn. intros [[<- <-]|[_ ?]]%lookup_insert_Some; [done|]. by apply Hn.
  - intros h1 e1 h2 e2. cbn. intros [[<- <-]|[_ H1]]%lookup_insert_Some [[<- <-]|[_ H2]]%lookup_insert_Some Eo.
    + done.
    + by destruct (Hnew _ _ H2).
    + by destruct (Hnew _ _ H1).
    + by apply (Hd h1 e1 h2 e2).
Qed.

(** [New] brings up a node that recovers exactly the tasks its machine owns. *)
Lemma New_ok d ns impls registry host inspector fails hd c st env uf now d' e' :
  cl_ok (d, ns) -> ns !! host = None -> heard ns d now -> start_ok impls c inspector hd env ->
  New d impls registry host inspector fails hd c st env uf now = (d', Ok e') -> fits e' ->
  cl_ok (d', <[host := e']> ns) /\
  ((forall id, uf id = false) -> forall id row, tasks d' !! id = Some row -> t_owner row = Some (e_owner e') ->
     id ∈ r_task <$> e_running e').
Proof.
  intros Hcl Hhost Hh [Him Hres Hhd Hsome] E Hfit. unfold New in E. destruct fails as [[f1 f2] f3].
  destruct (Register d host inspector f1 f2 now) as [[d1 reg]|] eqn:Er; [|done].
  destruct (Register_ok _ _ _ _ _ _ _ _ _ Hcl Hhost Hh Er) as (Hcl1 & Hlt & Hmh & Hnew & res & Hins & Hcpu & Hram).
  destruct (new_handlers registry impls c) as [[hs c']|] eqn:En; [|done]. destruct f3; [done|].
  set (e0 := mkEngine _ _ _ _ _ _ _ _ _ _ _ _ _) in E.
  destruct (resurrect e0 d1 _ env uf) as [e1 d2] eqn:Ers. injection E as <- <-.
  pose proof (new_handlers_fresh _ _ _ _ _ Him En) as Hfr. destruct (Hres res Hins) as [Hc0 Hr0].
  assert (engine_ok e0) as Hok0.
  { split; [|done]. cbn. eapply fresh_counts_ok; [done|done|by rewrite Hcpu|by rewrite Hram]. }
  assert (node_ok d1 e0) as Hn0.
  { split; [|split; [apply NoDup_nil_2|done]]. intros r Hin. by apply not_elem_of_nil in Hin. }
  assert (recovering d1 e0 (fst <$> select_owned d1 (e_owner e0))) as Hrc.
  { constructor; [done|apply Hcl1|apply select_owned_NoDup| | |].
    - intros id. apply elem_of_select_owned.
    - intros id _. apply not_elem_of_nil.
    - intros id _ k h Hk. cbn in Hk. rewrite (fh_fails _ _ _ _ Hfr h) by (by eapply list_elem_of_lookup_2). done. }
  destruct (resurrect_recovers _ _ _ _ _ _ _ Ers Hsome Hrc Hfit) as (Hrc' & Hsame & Hd2 & Hk & Hall). split.
  - assert (cl_ok (d1, <[host := e0]> ns)) as Hcl2 by (by apply cl_ok_insert).
    rewrite <- (insert_insert_eq ns host e1 e0).
    eapply cl_ok_node; [done|by rewrite lookup_insert_eq|apply Hrc'|by apply only_tasks_machines|..|apply Hrc'|done];
      apply Hsame.
  - intros Huf id row Hr Ho. eapply Hall; [done| |done|]. 
    + intros j row' Hj Hjo. right. apply elem_of_select_owned. eauto.
    + destruct Hsame as (Heq & _). by rewrite <- Heq.
Qed.

Lemma New_fail_ok d ns impls registry host inspector fails hd c st env uf now d' err :
  cl_ok (d, ns) -> ns !! host = None -> heard ns d now ->
  New d impls registry host inspector fails hd c st env uf now = (d', Err err) -> cl_ok (d', ns).
Proof.
  intros Hcl Hhost Hh E. unfold New in E. destruct fails as [[f1 f2] f3].
  destruct (Register d host inspector f1 f2 now) as [[d1 reg]|] eqn:Er; [|by injection E as <- _].
  destruct (Register_ok _ _ _ _ _ _ _ _ _ Hcl Hhost Hh Er) as (Hcl1 & _).
  destruct (new_handlers registry impls c) as [[hs c']|]; [|by injection E as <- _].
  destruct f3; [by injection E as <- _|]. by destruct (resurrect _ _ _ _ _).
Qed.

Lemma same_tables_keeps d d' : same_tables d d' -> db_ok d -> db_ok d' /\ keeps_machines d d'.
Proof.
  intros (Ht & Hs & Hq & Hm) (Hreg & Hmk & Htk).
  assert (forall id, is_Some (machines d' !! id) <-> is_Some (machines d !! id)) as Hiff.
  { intros id. specialize (Hm id). rewrite <- (fmap_is_Some m_host (machines d' !! id)), Hm. apply fmap_is_Some. }
  split.
  - split; [|split].
    + intros id row o. rewrite Ht. intros Hr Ho. apply Hiff. eauto.
    + intros id Hid%Hiff. rewrite Hq. auto.
    + intros id. rewrite Ht, Hs. auto.
  - split; [lia|]. intros id m' Hm' _. specialize (Hm id). rewrite Hm' in Hm. symmetry in Hm. cbn in Hm.
    apply fmap_Some in Hm as (m & ? & ?). eauto.
Qed.

Lemma cl_step_ok s s' : cl_ok s -> cl_step s s' -> cl_ok s'.
Proof.
  intros Hcl Hs. destruct Hs as
    [d ns host e h ex faults now d' ag He Hcb E
    |d ns host e k from ids env e' d' acc He Hfrom E Hfit
    |d ns host e before r after dn doErr now He Hrun Hph
    |d ns host e before r after fault now He Hrun Hph
    |d ns impls registry host inspector fails hd c st env uf now d' e' Hso Hh E Hfit
    |d ns impls registry host inspector fails hd c st env uf now d' err Hh E
    |d ns host|d ns fail now Hh|d ns host e e' d' He Hn Hm Hrun Ht].
  - pose proof (AddTask_grows e h ex faults d now Hcb) as Hg. rewrite E in Hg. by eapply grows_ok.
  - pose proof Hcl as (Hdb & Hnodes & _). destruct (Hnodes host e He) as [_ Hok].
    pose proof (considerWork_considers _ _ _ _ _ _ _ _ _ E (fun Hf => match Hfrom Hf with end)) as Hc.
    destruct (considers_claim_ok _ _ _ _ _ _ _ _ _ Hfrom Hdb Hok Hc Hfit) as (Hdb' & Hok' & Hkm & Hko).
    assert (same_node e e') as (Ho & Hh & _).
    { destruct Hc as [| |]; [done| |done]. eapply same_node_trans; [done|]. by eapply st_node. }
    eapply cl_ok_node; eauto.
  - destruct (proj1 (proj2 Hcl) host e He) as [_ Hok]. pose proof (proj1 Hcl) as Hdb.
    destruct (finish_do_same e r before after dn doErr now Hrun) as [(Ho & Hh & _) _].
    eapply cl_ok_node; [done|done|done|by apply keeps_machines_refl|done|done| |intros; apply keeps_owned_refl].
    by apply finish_do_node_ok.
  - by eapply record_attempt_node_ok.
  - rewrite <- insert_delete_eq. eapply New_ok; eauto; [by apply cl_ok_delete|by apply lookup_delete_eq].
  - eapply New_fail_ok; eauto; [by apply cl_ok_delete|by apply lookup_delete_eq].
  - by apply cl_ok_delete.
  - by apply cleanup_ok.
  - destruct (proj1 (proj2 Hcl) host e He) as [_ (Hr & Hnd & Hok)].
    destruct (same_tables_keeps _ _ Ht (proj1 Hcl)) as [Hdb' Hkm]. destruct Hn as (Ho & Hh & Hn).
    eapply cl_ok_node; [done|done|done|done|done|done| |intros; apply keeps_owned_tasks, Ht].
    split; [|split; [by rewrite Hrun|]].
    + intros r. rewrite Hrun, Ho, (proj1 Ht). apply Hr.
    + by eapply engine_ok_same.
Qed.

(** ** What holds in every reachable state *)

(** The states a cluster reaches from a consistent database without nodes. *)
Definition reachable (s : cluster) : Prop := exists d0, db_ok d0 /\ rtc cl_step (d0, ∅) s.

Lemma reachable_ok s : reachable s -> cl_ok s.
Proof.
  intros (d0 & Hdb & Hr). apply (rtc_invariant cl_step cl_ok cl_step_ok _ _ Hr).
  split; [done|]. split; intros *; cbn; by rewrite lookup_empty.
Qed.

(** C1: no task is run twice at the same time: in every reachable state of the
    cluster two goroutines that hold the same task are the same goroutine of the
    same node.  Nodes may crash and restart at any point, transactions may fail,
    and claims may race, as long as a machine is reaped only when it has no
    goroutine left. *)
Theorem cluster_no_double_run (d : db X) ns host1 e1 i r1 host2 e2 j r2 :
  reachable (d, ns) ->
  ns !! host1 = Some e1 -> e_running e1 !! i = Some r1 ->
  ns !! host2 = Some e2 -> e_running e2 !! j = Some r2 ->
  r_task r1 = r_task r2 -> host1 = host2 /\ i = j.
Proof.
  intros Hr H1 Hi H2 Hj Et. destruct (reachable_ok _ Hr) as (_ & Hn & Hd). cbn in Hn, Hd.
  destruct (Hn _ _ H1) as (_ & Hown1 & Hnd & _). destruct (Hn _ _ H2) as (_ & Hown2 & _ & _).
  destruct (Hown1 r1) as (row1 & Hr1 & Ho1); [by eapply list_elem_of_lookup_2|].
  destruct (Hown2 r2) as (row2 & Hr2 & Ho2); [by eapply list_elem_of_lookup_2|].
  assert (host1 = host2) as -> by (apply (Hd host1 e1 host2 e2); congruence).
  split; [done|]. replace e2 with e1 in * by congruence.
  eapply (NoDup_lookup _ i j (r_task r1)); [exact Hnd|..]; rewrite list_lookup_fmap.
  - by rewrite Hi.
  - rewrite Hj. cbn. by rewrite Et.
Qed.

(** The amount of a resource that a goroutine uses while it is in [Do]. *)
Definition run_cost (f : Resources -> Z) e (r : run) : Z :=
  match r_phase r, e_handlers e !! r_handler r with
  | Working, Some h => f (h_cost h)
  | _, _ => 0
  end.

(** Whether a goroutine is in [Do] for a task type that shares the limiter. *)
Definition run_limited e (m : MaxCounter) (r : run) : Z :=
  match r_phase r, e_handlers e !! r_handler r with
  | Working, Some h => if decide (current (h_max h) = current m) then 1 else 0
  | _, _ => 0
  end.

Lemma run_sum e (F : option handler -> Z) : F None = 0 -> (forall h, F (Some (static h)) = F (Some h)) ->
  Zsum (fun r => match r_phase r with Working => F (e_handlers e !! r_handler r) | Recording _ _ _ => 0 end) (e_running e) =
  Zsum (fun r => if is_working (r_handler r) r then F ((static <$> e_handlers e) !! r_handler r) else 0) (e_running e).
Proof.
  intros Hz Hs. apply Zsum_ext. intros r _. unfold is_working. rewrite Nat.eqb_refl. cbn [andb].
  destruct (r_phase r); [|done]. rewrite list_lookup_fmap.
  destruct (e_handlers e !! r_handler r); cbn; [by rewrite Hs|done].
Qed.

(** C7: a node never takes on more than it has: in every reachable state the
    goroutines in [Do] together need at most the CPUs and the RAM the node
    registered, and no limiter, be it shared by several task types or not, has
    more of them than its maximum. *)
Theorem cluster_within_capacity (d : db X) ns host e :
  reachable (d, ns) -> ns !! host = Some e ->
  Zsum (run_cost Cpu e) (e_running e) <= Cpu (e_reg e) /\
  Zsum (run_cost Ram e) (e_running e) <= Ram (e_reg e) /\
  forall k h, e_handlers e !! k = Some h -> 0 < MaxOf (h_max h) ->
    Zsum (run_limited e (h_max h)) (e_running e) <= MaxOf (h_max h).
Proof.
  intros Hr He. destruct (reachable_ok _ Hr) as (_ & Hn & _). destruct (Hn _ _ He) as (_ & _ & _ & Hok & _).
  assert (forall f, Zsum (run_cost f e) (e_running e) = used f (static <$> e_handlers e) (e_mem e)) as Hu.
  { intros f. rewrite (used_by_runs Hok f).
    apply (run_sum e (fun o => match o with Some h => f (h_cost h) | None => 0 end)); done. }
  rewrite !Hu. split; [apply Hok|]. split; [apply Hok|]. intros k h Hk Hpos.
  assert (static h ∈ static <$> e_handlers e) as Hin by (apply list_elem_of_fmap_2; by eapply list_elem_of_lookup_2).
  pose proof (ok_max _ _ _ _ Hok (static h) Hin Hpos) as Hm. rewrite (ok_group _ _ _ _ Hok _ Hin) in Hm.
  rewrite (group_by_runs Hok) in Hm. etrans; [|exact Hm]. apply Z.eq_le_incl.
  apply (run_sum e (fun o => match o with
    | Some h' => if decide (current (h_max h') = current (h_max h)) then 1 else 0 | None => 0 end)); done.
Qed.

(** recording a completion always ends: in every reachable state the task of
    a goroutine that has left [Do] still exists and is owned by its node, so the
    transaction succeeds as soon as the database does, after any number of
    faults, and leaves that task unowned or deleted. *)
Theorem recordCompletion_ends (d : db X) ns host e r k h done doErr we faults now :
  reachable (d, ns) -> ns !! host = Some e -> r ∈ e_running e ->
  r_phase r = Recording done doErr we -> e_handlers e !! k = Some h ->
  exists d', recordCompletion e h d (r_task r) (r_sector r) (r_start r) we done doErr faults now = Some d' /\
    forall row, tasks d' !! r_task r = Some row -> t_owner row = None.
Proof.
  intros Hr He Hin Hph Hk. destruct (reachable_ok _ Hr) as (_ & Hn & _).
  destruct (Hn _ _ He) as (_ & Hown & _). destruct (Hown r Hin) as (row0 & Hrow & _).
  pose proof (record_tx_some e h d (r_task r) (r_sector r) (r_start r) we done doErr now row0 Hrow) as E.
  eexists. split; [|by apply record_tx_frame in E as (_ & Hs & _); intros row Hrow'; apply Hs].
  induction faults as [|[] faults IH]; cbn [recordCompletion]; [exact E|exact IH|]. by rewrite E.
Qed.

(** C35: a node that starts, also after a crash, picks up all the work its machine
    left: if no attempt to give a task back fails, then after [New] every task
    that is still assigned to the machine is being run by the new process, and
    by exactly one goroutine. *)
Theorem restart_recovers_all (d : db X) ns impls registry host inspector fails hd c st env uf now d' e' :
  reachable (d, ns) -> heard (delete host ns) d now -> start_ok impls c inspector hd env ->
  New d impls registry host inspector fails hd c st env uf now = (d', Ok e') -> fits e' ->
  (forall id, uf id = false) ->
  forall id row, tasks d' !! id = Some row -> t_owner row = Some (e_owner e') ->
    exists i r, e_running e' !! i = Some r /\ r_task r = id /\
      forall j r', e_running e' !! j = Some r' -> r_task r' = id -> j = i.
Proof.
  intros Hr Hh Hso E Hfit Huf id row Hrow Ho. pose proof (cl_ok_delete _ _ host (reachable_ok _ Hr)) as Hcl.
  destruct (New_ok _ _ _ _ _ _ _ _ _ _ _ _ _ _ _ Hcl (lookup_delete_eq ns host) Hh Hso E Hfit) as [Hcl' Hall].
  destruct (proj1 (proj2 Hcl') host e') as (_ & _ & Hnd & _); [cbn; by rewrite lookup_insert_eq|].
  destruct (proj1 (list_elem_of_lookup _ _) (Hall Huf id row Hrow Ho)) as (i & Hi).
  rewrite list_lookup_fmap in Hi. apply fmap_Some in Hi as (r & Hi & ->). exists i, r.
  split; [done|]. split; [done|]. intros j r' Hj Et. eapply (NoDup_lookup _ j i (r_task r) Hnd);
    rewrite list_lookup_fmap; [rewrite Hj; cbn; by rewrite Et|by rewrite Hi].
Qed.

End Cluster.
