(* ===== verification/PollerFacts.v ===== *)
(** * The poller, as steps of the cluster

    An iteration of the poller of one node is a sequence of the atomic steps of
    [Cluster], so what holds in every reachable state of the cluster holds after
    any number of iterations of its pollers.  What an iteration starts was ready, on a
    node that may take it.  A cordoned node takes nothing. *)

From stdpp Require Import base gmap sets list strings sorting.
From Stdlib Require Import ZArith Lia.
From S2P Require Import Prelude Float64 HarmonyDB Limiter Resources TaskEngine TaskEngineFacts Capacity Cluster.
Import Taskhelp.

Section Poller.
Context {X ST : Type} `{StorageOps ST}.
Implicit Types (e : engine ST) (d : db X) (h : handler) (ns : gmap string (engine ST)).

(** ** Goroutines only join during an iteration *)

Lemma poll_handlers_mono n k e d sch env :
  e_running e `prefix_of` e_running (poll_handlers n k e d sch env).1.1.
Proof.
  revert k e d. induction n as [|n IH]; intros k e d; cbn [poll_handlers]; [done|].
  destruct (e_handlers e !! k) as [v|]; [|done].
  destruct (_ && _); [apply IH|]. destruct (AssertMachineHasCapacity e v); [|apply IH].
  destruct (pe_read_err env k); [apply IH|]. destruct (0 <? _)%nat; [|apply IH].
  destruct (considerWork _ _ _ _ _ _) as [[e1 d1] acc] eqn:E. apply considerWork_mono in E.
  destruct acc; [done|]. by etrans; [|apply IH].
Qed.

Lemma bored_handlers_mono n k e d env : e_running e `prefix_of` e_running (bored_handlers n k e d env).1.
Proof.
  revert k e d. induction n as [|n IH]; intros k e d; cbn [bored_handlers]; [done|].
  destruct (e_handlers e !! k) as [v|]; [|done].
  destruct (AssertMachineHasCapacity e v); [|apply IH]. destruct (pe_bored env k) as [[calls err]|]; [|apply IH].
  destruct (bored_adds _ _ _ _ _ _) as [d1 added]. destruct err; [apply IH|]. destruct (0 <? _)%nat; [|apply IH].
  destruct (considerWork _ _ _ _ _ _) as [[e1 d2] acc] eqn:E. apply considerWork_mono in E.
  by etrans; [|apply IH].
Qed.

(** ** The loops *)

(** The callbacks of [IAmBored] are those of [AddTask]. *)
Definition bored_ok (env : poll_env) : Prop :=
  forall k calls err ex faults, pe_bored env k = Some (calls, err) -> (ex, faults) ∈ calls -> callback_ok (X := X) ex.

Lemma poll_handlers_steps n k e d sch env e' d' acc ns host :
  poll_handlers n k e d sch env = (e', d', acc) -> ns !! host = Some e -> fits e' ->
  rtc cl_step (d, ns) (d', <[host := e']> ns).
Proof.
  revert k e d ns. induction n as [|n IH]; intros k e d ns E He Hfit; cbn [poll_handlers] in E.
  - injection E as <- <- <-. by rewrite insert_id.
  - destruct (e_handlers e !! k) as [v|]; [|injection E as <- <- <-; by rewrite insert_id].
    destruct (_ && _); [by eapply IH|]. destruct (AssertMachineHasCapacity e v); [|by eapply IH].
    destruct (pe_read_err env k); [by eapply IH|]. destruct (0 <? _)%nat; [|by eapply IH].
    destruct (considerWork _ _ _ _ _ _) as [[e1 d1] acc1] eqn:Ec. destruct acc1.
    + injection E as <- <- <-. apply rtc_once. by eapply (cs_consider d ns host e k WorkSourcePoller).
    + assert (fits e1) as Hf1.
      { eapply fits_prefix; [|done]. pose proof (poll_handlers_mono n (S k) e1 d1 sch env) as Hp. by rewrite E in Hp. }
      eapply rtc_l; [by eapply (cs_consider d ns host e k WorkSourcePoller)|]. rewrite <- (insert_insert_eq ns host e' e1).
      eapply IH; [done|by rewrite lookup_insert_eq|done].
Qed.

Lemma bored_adds_steps e h calls d now added d' added' ns host :
  bored_adds e h calls d now added = (d', added') -> ns !! host = Some e ->
  (forall ex faults, (ex, faults) ∈ calls -> callback_ok ex) ->
  rtc cl_step (d, ns) (d', ns).
Proof.
  intros E He. revert d added E. induction calls as [|[ex faults] calls IH]; intros d added E Hcb; cbn [bored_adds] in E.
  - by injection E as <- <-.
  - destruct (AddTask e h ex faults d now) as [d1 ag] eqn:Ea.
    eapply rtc_l; [eapply (cs_add d ns host e h ex); [done|eapply Hcb; left|done]|].
    eapply IH; [done|]. intros ex' f' Hin. eapply Hcb. by right.
Qed.

Lemma bored_handlers_steps n k e d env e' d' ns host :
  bored_handlers n k e d env = (e', d') -> ns !! host = Some e -> bored_ok env -> fits e' ->
  rtc cl_step (d, ns) (d', <[host := e']> ns).
Proof.
  revert k e d ns. induction n as [|n IH]; intros k e d ns E He Hb Hfit; cbn [bored_handlers] in E.
  - injection E as <- <-. by rewrite insert_id.
  - destruct (e_handlers e !! k) as [v|]; [|injection E as <- <-; by rewrite insert_id].
    destruct (AssertMachineHasCapacity e v); [|by eapply IH].
    destruct (pe_bored env k) as [[calls err]|] eqn:Eb; [|by eapply IH].
    destruct (bored_adds _ _ _ _ _ _) as [d1 added] eqn:Ea.
    assert (rtc cl_step (d, ns) (d1, ns)) as Hr.
    { eapply bored_adds_steps; [done|done|]. intros ex faults. by eapply Hb. }
    etrans; [exact Hr|]. destruct err; [by eapply IH|]. destruct (0 <? _)%nat; [|by eapply IH].
    destruct (considerWork _ _ _ _ _ _) as [[e1 d2] acc1] eqn:Ec.
    assert (fits e1) as Hf1.
    { eapply fits_prefix; [|done]. pose proof (bored_handlers_mono n (S k) e1 d2 env) as Hp. by rewrite E in Hp. }
    eapply rtc_l; [by eapply (cs_consider d1 ns host e k WorkSourceIAmBored)|]. rewrite <- (insert_insert_eq ns host e' e1).
    eapply IH; [done|by rewrite lookup_insert_eq|done|done].
Qed.

Lemma other_step d ns host e e' d' : ns !! host = Some e -> same_node e e' -> e_mem e' = e_mem e ->
  e_running e' = e_running e -> same_tables d d' -> rtc cl_step (d, ns) (d', <[host := e']> ns).
Proof. intros. apply rtc_once. by eapply cs_other. Qed.

Lemma same_tables_refl d : same_tables d d.
Proof. done. Qed.

Lemma tryAllWork_steps e d sch env e' d' acc ns host :
  pollerTryAllWork e d sch env = (e', d', acc) -> ns !! host = Some e -> bored_ok env ->
  heard ns d (pe_now env) -> fits e' -> rtc cl_step (d, ns) (d', <[host := e']> ns).
Proof.
  intros E He Hb Hh Hfit. unfold pollerTryAllWork in E.
  set (cl := if time_sub _ _ >? _ then _ else _) in E. destruct cl as [e1 d1] eqn:Ecl.
  assert (rtc cl_step (d, ns) (d1, <[host := e1]> ns)) as H1.
  { unfold cl in Ecl. destruct (_ >? _); injection Ecl as <- <-; [|by rewrite insert_id].
    eapply rtc_l; [by apply (cs_cleanup d ns (pe_cleanup_err env) (pe_now env))|]. by eapply other_step. }
  etrans; [exact H1|]. clear cl Ecl H1 Hh.
  destruct (poll_handlers _ _ _ _ _ _) as [[e2 d2] acc2] eqn:Ep.
  assert (forall x, <[host := x]> (<[host := e1]> ns) = <[host := x]> ns) as Hii by (intros; apply insert_insert_eq).
  assert (forall x y, fits e2 -> rtc cl_step (d2, <[host := e2]> ns) (y, <[host := x]> ns) ->
    rtc cl_step (d1, <[host := e1]> ns) (y, <[host := x]> ns)) as Hgo.
  { intros x y Hf Hr. etrans; [|exact Hr]. rewrite <- (Hii e2). eapply poll_handlers_steps; [done|by rewrite lookup_insert_eq|done]. }
  destruct acc2; [injection E as <- <- <-; by apply Hgo|].
  destruct sch; cbn [negb] in E; [|injection E as <- <- <-; by apply Hgo].
  destruct (bored_handlers _ _ _ _ _) as [e3 d3] eqn:Eb. injection E as <- <- <-. apply Hgo.
  - eapply fits_prefix; [|done]. pose proof (bored_handlers_mono (length (e_handlers e2)) 0 e2 d2 env) as Hp.
    by rewrite Eb in Hp.
  - rewrite <- (insert_insert_eq ns host e3 e2). eapply bored_handlers_steps; [done|by rewrite lookup_insert_eq|done|done].
Qed.

(** ** Node flags *)

Lemma restart_steps e d cf uf e' d' ns host : restartIfNoTasksPending e d cf uf = (e', d') ->
  ns !! host = Some e ->
  rtc cl_step (d, ns) (d', <[host := e']> ns) /\ same_node e e' /\ e_running e' = e_running e /\
  e_mem e' = e_mem e /\
  forall o m', machines d' !! o = Some m' -> exists m, machines d !! o = Some m /\ m_last_contact m' = m_last_contact m.
Proof.
  intros E He. unfold restartIfNoTasksPending in E.
  assert ((e, d) = (e', d') -> rtc cl_step (d, ns) (d', <[host := e']> ns) /\ same_node e e' /\
    e_running e' = e_running e /\ e_mem e' = e_mem e /\ forall o m', machines d' !! o = Some m' ->
    exists m, machines d !! o = Some m /\ m_last_contact m' = m_last_contact m) as Hsame.
  { intros [= <- <-]. rewrite insert_id by done. split; [done|]. do 3 (split; [done|]). eauto. }
  destruct cf; [by apply Hsame|]. destruct (_ =? _)%nat; [|by apply Hsame]. destruct uf; [by apply Hsame|].
  injection E as <- <-. split; [|repeat split].
  - eapply other_step; [done..|]. repeat split. intros id. cbn. rewrite lookup_fmap.
    destruct (machines d !! id) as [m|]; [|done]. cbn. by case_bool_decide.
  - intros o m'. cbn. rewrite lookup_fmap. intros (m & -> & ->)%fmap_Some. exists m.
    case_bool_decide; done.
Qed.

Lemma checkNodeFlags_steps e d ff cf uf e' d' flags ns host : checkNodeFlags e d ff cf uf = (e', d', flags) ->
  ns !! host = Some e ->
  rtc cl_step (d, ns) (d', <[host := e']> ns) /\ same_node e e' /\ e_running e' = e_running e /\
  e_mem e' = e_mem e /\
  forall o m', machines d' !! o = Some m' -> exists m, machines d !! o = Some m /\ m_last_contact m' = m_last_contact m.
Proof.
  intros E He. assert (forall f, (e, d, f) = (e', d', flags) -> rtc cl_step (d, ns) (d', <[host := e']> ns) /\
    same_node e e' /\ e_running e' = e_running e /\ e_mem e' = e_mem e /\ forall o m', machines d' !! o = Some m' ->
    exists m, machines d !! o = Some m /\ m_last_contact m' = m_last_contact m) as Hsame.
  { intros f [= <- <- <-]. rewrite insert_id by done. split; [done|]. do 3 (split; [done|]). eauto. }
  unfold checkNodeFlags in E. destruct ff; [by eapply Hsame|].
  destruct (List.filter _ _) as [|[id m] rest]; [by eapply Hsame|].
  destruct (m_restart_request m); [|by eapply Hsame].
  destruct (restartIfNoTasksPending e d cf uf) as [e1 d1] eqn:Er. injection E as <- <- <-.
  by eapply restart_steps.
Qed.

Lemma poll_handlers_idle n k e d env :
  (forall j h, e_handlers e !! j = Some h -> override_found e h d (pe_override_err env j) = false) ->
  poll_handlers n k e d false env = (e, d, false).
Proof.
  intros Hno. revert k. induction n as [|n IH]; intros k; cbn [poll_handlers]; [done|].
  destruct (e_handlers e !! k) as [v|] eqn:Ek; [|done]. rewrite (Hno k v Ek). cbn [negb andb]. apply IH.
Qed.

(** An iteration of the poller of a node (reading the node flags, reaping
    silent machines, offering work to each task type in turn, [IAmBored], the
    follow check) is a sequence of atomic cluster steps, whatever the answers of
    the tasks and the faults of the database, provided the reaper does not take
    a live node for dead; so everything shown of reachable cluster states holds
    under running pollers. *)
Lemma poller_iteration_refines e d ff cf uf env e' d' wait ns host :
  poller_iteration e d ff cf uf env = (e', d', wait) -> ns !! host = Some e -> bored_ok env ->
  heard ns d (pe_now env) -> fits e' ->
  rtc cl_step (d, ns) (d', <[host := e']> ns).
Proof.
  intros E He Hb Hh Hfit. unfold poller_iteration in E.
  destruct (checkNodeFlags e d ff cf uf) as [[e1 d1] flags] eqn:Ef.
  destruct (checkNodeFlags_steps _ _ _ _ _ _ _ _ _ _ Ef He) as (Hr1 & Hn1 & Hrun1 & Hm1 & Hlc).
  destruct flags as [sch|]; [|injection E as <- <- <-; exact Hr1].
  destruct (e_exited e1); [injection E as <- <- <-; exact Hr1|]. etrans; [exact Hr1|].
  set (e2 := set_flags e1 (negb sch) false (e_last_follow e1)) in E.
  destruct (pollerTryAllWork e2 d1 sch env) as [[e3 d3] acc] eqn:Et.
  assert (e_running e' = e_running e3 /\ e_mem e' = e_mem e3 /\ same_node e3 e' /\ d' = d3) as (Hrun & Hmem & Hn & ->).
  { destruct sch; cbn [negb] in E; injection E as <- <- _; [|done]. by destruct (_ >? _). }
  assert (heard (<[host := e2]> ns) d1 (pe_now env)) as Hh2.
  { intros host2 e0 m [[<- <-]|[_ H2]]%lookup_insert_Some Hne Hm; destruct (Hlc _ _ Hm) as (m0 & Hm0 & ->).
    - apply (Hh host e m0 He); [cbn in Hne; by rewrite <- Hrun1|]. by rewrite <- (proj1 Hn1).
    - by apply (Hh host2 e0 m0). }
  assert (forall x, <[host := x]> (<[host := e1]> ns) = <[host := x]> ns) as Hii by (intros; apply insert_insert_eq).
  assert (forall x, <[host := x]> (<[host := e2]> ns) = <[host := x]> ns) as Hii2 by (intros; apply insert_insert_eq).
  assert (forall x, <[host := x]> (<[host := e3]> ns) = <[host := x]> ns) as Hii3 by (intros; apply insert_insert_eq).
  transitivity (d1, <[host := e2]> ns).
  { rewrite <- (Hii e2). by eapply other_step; [by rewrite lookup_insert_eq|..]. }
  transitivity (d3, <[host := e3]> ns).
  { rewrite <- (Hii2 e3). eapply tryAllWork_steps; [done|by rewrite lookup_insert_eq|done|done|].
    unfold fits in *. by rewrite <- Hrun. }
  rewrite <- (Hii3 e'). by eapply other_step; [by rewrite lookup_insert_eq|..].
Qed.

(** ** What an iteration starts *)

(** The rows of [d0] are those of [d1] up to their owners, and who had an owner keeps
    it. *)
Definition owners_only d1 d0 : Prop :=
  (forall id, set_owner None <$> tasks d0 !! id = set_owner None <$> tasks d1 !! id) /\
  (forall id r, tasks d1 !! id = Some r -> t_owner r <> None -> tasks d0 !! id = Some r).

Lemma owners_only_trans d1 d2 d3 : owners_only d1 d2 -> owners_only d2 d3 -> owners_only d1 d3.
Proof. intros [A1 B1] [A2 B2]. split; [intros id; by rewrite A2|]. intros id r Hr Ho. apply B2; [by apply B1|done]. Qed.

Lemma owners_only_unowned d1 d0 id r : owners_only d1 d0 -> tasks d0 !! id = Some r -> t_owner r = None ->
  tasks d1 !! id = Some r.
Proof.
  intros [A B] Hr Ho. specialize (A id). rewrite Hr in A. destruct (tasks d1 !! id) as [r1|] eqn:E1; [|done].
  destruct (t_owner r1) as [o|] eqn:E; [rewrite (B id r1 E1) in Hr by congruence; congruence|].
  assert (forall x, t_owner x = None -> set_owner None x = x) as Hid by (intros []; cbn; by intros ->).
  change (Some (set_owner None r) = Some (set_owner None r1)) in A. rewrite (Hid r Ho), (Hid r1 E) in A. done.
Qed.

(** The delay after a failure is over. *)
Definition waited h (now : time) (r : task_row) : Prop :=
  match h_retry_wait h with
  | None => True
  | Some wait => t_retries r = 0 \/ time_sub now (t_update r) > wait (t_retries r)
  end.

Lemma ready_tasks_spec h now d id : id ∈ ready_tasks h now (select_unowned d (h_name h)) ->
  exists r, tasks d !! id = Some r /\ t_owner r = None /\ t_name r = h_name h /\ waited h now r.
Proof.
  unfold ready_tasks, select_unowned. change (map fst ?l) with (fst <$> l). intros ([i r] & -> & Hin)%list_elem_of_fmap.
  apply elem_of_filter_b in Hin as [Hw Hin]. apply elem_of_take in Hin as (j & Hj%list_elem_of_lookup_2 & _).
  rewrite merge_sort_Permutation in Hj. apply elem_of_filter_b in Hj as [[Ho Hn]%andb_true_iff Hm].
  apply bool_decide_eq_true in Ho, Hn. apply elem_of_map_to_list in Hm. cbn [fst snd] in *. exists r. split_and!; try done.
  unfold waited. destruct (h_retry_wait h) as [wait|]; [|done]. destruct (Z.eqb_spec (t_retries r) 0); [by left|right].
  by apply Z.gtb_gt in Hw.
Qed.

Lemma considerWork_refused e d k from ids env e' d' : considerWork e d k from ids env = (e', d', false) -> e_mem e' = e_mem e.
Proof.
  assert (forall e0 h d0 l e1 d1, start_work e0 k h env d0 l = (e1, d1, false) -> e_mem e1 = e_mem e0) as Hsw.
  { intros e0 h d0 l e1 d1. unfold start_work. destruct (Storage (h_cost h)); [|done].
    destruct (claim_storage _ _ _ _ l) as [[[st fails] good] failed].
    destruct (0 <? length failed)%nat; [destruct (length good =? 0)%nat|]; by intros [= <- <-]. }
  unfold considerWork. intros E.
  destruct (e_handlers e !! k) as [h|]; [|by injection E as <- <-].
  destruct (length ids =? 0)%nat; [done|]. destruct (AtMax _ _); [by injection E as <- <-|].
  destruct (AssertMachineHasCapacity e h); [|by injection E as <- <-].
  destruct (we_can_accept env from ids) as [l|]; [|by injection E as <- <-].
  destruct (length l =? 0)%nat; [by injection E as <- <-|].
  destruct (filter_failures _ _ l) as [fails l2]. destruct (decide _); [exact (Hsw _ _ _ _ _ _ E)|].
  destruct (we_claim_err env); [by injection E as <- <-|].
  destruct (claim_tasks _ _ _ _ _) as [[d1 cl]|]; [|by injection E as <- <-].
  destruct (length cl =? 0)%nat; [by injection E as <- <-|]. exact (Hsw _ _ _ _ _ _ E).
Qed.

(** What one offer of work starts. *)
Lemma considerWork_batch e d k h from ids env e' d' acc : from <> WorkSourceRecover -> e_handlers e !! k = Some h ->
  considerWork e d k from ids env = (e', d', acc) ->
  same_node e e' /\ owners_only d d' /\ only_tasks d d' /\ exists started,
    e_running e' = e_running e ++ map (fun t => mkRun k t (we_sector env t) (we_now env) Working) started /\
    (acc = false -> started = []) /\ (acc = true -> ids <> [] -> started <> []) /\ NoDup started /\
    (started <> [] -> exists n, AssertMachineHasCapacity e h = Ok n /\
       Z.of_nat (length started) <= n /\ Z.of_nat (length started) <= Headroom (h_max h) (e_mem e)) /\
    forall id, id ∈ started -> (exists accepted, we_can_accept env from ids = Some accepted /\ id ∈ accepted) /\
      exists r, tasks d !! id = Some r /\ t_owner r = None.
Proof.
  intros Hr Hk E. destruct (considerWork_takes_unowned e d k h from ids env e' d' acc Hr Hk E)
    as (started & Hrun & Hnd & _ & Hst & Hown & Hrows & Href & Hot).
  apply considerWork_considers in E; [|done].
  destruct E as [acc e' Hn Hm Hrun' Hf Hacc
    |h' n e1 d1 tIDs started' e' d' acc _ Hk' Ecap Hn1 Hm1 Hr1 Hf1 _ Hne Hln Hlh Hreg _ Hd1 Hun Hrows' Hst'|]; [| |done].
  - split; [done|]. split; [done|]. split; [done|]. exists started. split; [done|].
    assert (started = []) as ->.
    { rewrite Hrun' in Hrun. rewrite <- (app_nil_r (e_running e)) in Hrun at 1. apply app_inv_head in Hrun. by destruct started. }
    split_and!; try done; [by intros Ht []; apply Hacc|by intros ? ?%not_elem_of_nil].
  - rewrite Hk in Hk'. injection Hk' as <-. destruct Hst' as [Hss Hrun' _ Hnode _ _ _ Hacc _].
    rewrite Hr1, Hrun in Hrun'. apply app_inv_head in Hrun'.
    assert (started = started') as <-.
    { apply (f_equal (map r_task)) in Hrun'. rewrite !map_map in Hrun'. cbn in Hrun'. by rewrite !map_id in Hrun'. }
    apply sublist_length in Hss. split; [by eapply same_node_trans|]. split; [done|]. split; [done|]. exists started.
    split_and!; try done; [by intros Ht _; apply Hacc| |].
    + intros _. exists n. split; [done|]. lia.
    + intros id Hid. destruct (Hst id Hid) as [Ha (r & H1 & H2 & _)]. split; [done|]. by exists r.
Qed.

(** [CanAccept] answers with tasks that it was offered. *)
Definition accepts_offered (env : @poll_env X) : Prop := forall k from ids l,
  (we_can_accept (pe_work env k) from ids = Some l -> l ⊆ ids) /\
  (we_can_accept (pe_bored_work env k) from ids = Some l -> l ⊆ ids).

(** Tasks that the poller may start from the table: all of one type [h], which the node
    may run now, no more than the machine and the limiter of the type have room for
    beside the tasks that run, each once, and each without an owner in [d1], of the
    type, and not waiting for its retry.  The room and the override are those of the
    node when it offers the type; types that were offered before and of which nothing was
    started can have changed storage failures and owners. *)
Definition polled_ok e d1 (sch : bool) (env : @poll_env X) (runs : list run) : Prop :=
  exists k h e0 d0 n, e_handlers e !! k = Some h /\ same_node e e0 /\ e_mem e0 = e_mem e /\ owners_only d1 d0 /\
    (sch = true \/ override_found e h d0 (pe_override_err env k) = true) /\
    AssertMachineHasCapacity e0 h = Ok n /\ Z.of_nat (length runs) <= n /\
    Z.of_nat (length runs) <= Headroom (h_max h) (e_mem e) /\ NoDup (r_task <$> runs) /\
    forall r, r ∈ runs -> r_handler r = k /\ r_phase r = Working /\
      exists row, tasks d1 !! r_task r = Some row /\ t_owner row = None /\ t_name row = h_name h /\ waited h (pe_now env) row.

Lemma static_fields h h' : static h' = static h -> h' = with_failures h (h_storage_failures h').
Proof. destruct h, h'. unfold static, with_failures. cbn. intros E. by injection E as <- <- <- <- <- <- <- <-. Qed.

Lemma same_node_sym e e' : same_node e e' -> same_node e' e.
Proof. unfold same_node. intuition congruence. Qed.

(** The types from [k] on, when those before have started nothing. *)
Lemma poll_handlers_batch n k e d sch env e' d' acc e1 d1 : accepts_offered env ->
  poll_handlers n k e d sch env = (e', d', acc) ->
  same_node e1 e -> e_mem e = e_mem e1 -> e_running e = e_running e1 -> owners_only d1 d ->
  same_node e1 e' /\ task_seq d' = task_seq d /\ exists polled, e_running e' = e_running e1 ++ polled /\
    (acc = true <-> polled <> []) /\ (polled <> [] -> polled_ok e1 d1 sch env polled).
Proof.
  intros Hacc. revert k e d. induction n as [|n IH]; intros k e d E Hn Hm Hrun Ho; cbn [poll_handlers] in E.
  { injection E as <- <- <-. split; [done|]. split; [done|]. exists []. by rewrite app_nil_r. }
  destruct (e_handlers e !! k) as [v|] eqn:Hk; [|injection E as <- <- <-; split; [done|]; split; [done|]; exists []; by rewrite app_nil_r].
  destruct (negb sch && _) eqn:Hs; [by eapply IH|]. destruct (AssertMachineHasCapacity e v); [|by eapply IH].
  destruct (pe_read_err env k); [by eapply IH|]. set (ids := ready_tasks v (pe_now env) (select_unowned d (h_name v))) in E.
  destruct (Nat.ltb_spec 0 (length ids)) as [Hids|]; [|by eapply IH].
  destruct (considerWork _ _ _ _ _ _) as [[e2 d2] acc2] eqn:Ec.
  destruct (considerWork_batch e d k v WorkSourcePoller ids (pe_work env k) e2 d2 acc2 ltac:(done) Hk Ec)
    as (Hn2 & Ho2 & Hot & started & Hr2 & Hfalse & Htrue & Hnd & Hcap & Hst).
  assert (same_node e1 e2) as Hn12 by (by eapply same_node_trans).
  destruct acc2.
  2: { rewrite (Hfalse eq_refl), app_nil_r in Hr2. apply considerWork_refused in Ec.
       replace (task_seq d) with (task_seq d2) by (by rewrite Hot).
       eapply (IH (S k) e2 d2); [done|done|congruence|congruence|by eapply owners_only_trans]. }
  injection E as <- <- <-. split; [done|]. split; [by rewrite Hot|]. rewrite Hrun in Hr2. eexists. split; [exact Hr2|].
  assert (started <> []) as Hne by (apply Htrue; [done|]; intros E; rewrite E in Hids; cbn in Hids; lia).
  split; [split; [|done]; intros _ E; by destruct started|]. intros _. destruct (Hcap Hne) as (c & Hc & Hl1 & Hl2).
  destruct (same_node_handler e e1 k v (same_node_sym _ _ Hn) Hk) as (h & Hk1 & Hh). apply static_fields in Hh.
  exists k, h, e, d, c. rewrite !length_map. change (r_task <$> map ?f started) with (map r_task (map f started)).
  rewrite map_map. cbn [r_task]. rewrite map_id. rewrite <- Hm. rewrite Hh in *. split_and!; try done.
  - apply andb_false_iff in Hs as [Hs%negb_false_iff|Hs%negb_false_iff]; [by left|right]. rewrite <- Hs.
    unfold override_found. by rewrite (proj1 Hn).
  - intros r (t & -> & Ht)%list_elem_of_fmap. cbn [r_handler r_phase r_task]. split_and!; try done.
    destruct (Hst t Ht) as [(l & Hl & Hin) _]. apply (proj1 (Hacc k WorkSourcePoller ids l) Hl) in Hin.
    destruct (ready_tasks_spec v (pe_now env) d t Hin) as (r & H1 & H2 & H3 & H4). exists r.
    split; [by eapply owners_only_unowned|]. done.
Qed.

(** The ids that a callback agrees to are new. *)
Lemma AddTask_agreed e h ex faults d now d' agreed : callback_ok ex -> AddTask e h ex faults d now = (d', agreed) ->
  forall t, t ∈ agreed -> task_seq d <= t.
Proof.
  intros Hcb. assert (forall f d d1 res ag, add_tx e h ex f d now = (d1, res, ag) ->
    task_seq d <= task_seq d1 /\ forall t, t ∈ option_list ag -> task_seq d <= t) as Htx.
  { intros f d0 d1 res ag E. pose proof (gr_seq _ _ (add_tx_grows e h ex f d0 now Hcb)) as Hg. rewrite E in Hg. split; [done|].
    unfold add_tx in E. cbn [insert_task] in E. intros t Ht. destruct f; try destruct (ex _ _) as [[d2 []]|];
      injection E as <- <- <-; cbn in Ht; (by apply not_elem_of_nil in Ht) || (apply list_elem_of_singleton in Ht; lia). }
  revert d d' agreed. induction faults as [|f faults IH]; intros d d' agreed E t Ht; cbn [AddTask] in E.
  - destruct (add_tx _ _ _ _ _ _) as [[d1 res] ag] eqn:Ea. injection E as <- <-. by eapply Htx.
  - destruct (add_tx _ _ _ _ _ _) as [[d1 res] ag] eqn:Ea. destruct (Htx _ _ _ _ _ Ea) as [Hs Hag].
    destruct res as [b|[]]; try (injection E as <- <-; by apply Hag).
    destruct (AddTask e h ex faults d1 now) as [d2 ags] eqn:E2. injection E as <- <-. apply elem_of_app in Ht as [Ht|Ht]; [by apply Hag|].
    specialize (IH _ _ _ E2 t Ht). lia.
Qed.

Lemma bored_adds_fresh e h calls d now added d' added' : (forall ex faults, (ex, faults) ∈ calls -> callback_ok ex) ->
  bored_adds e h calls d now added = (d', added') ->
  task_seq d <= task_seq d' /\ forall t, t ∈ added' -> t ∈ added \/ task_seq d <= t.
Proof.
  revert d added. induction calls as [|[ex faults] calls IH]; intros d added Hcb E; cbn [bored_adds] in E.
  { injection E as <- <-. split; [lia|]. by left. }
  assert (callback_ok ex) as Hex by (eapply Hcb; left).
  pose proof (gr_seq _ _ (AddTask_grows e h ex faults d now Hex)) as Hg.
  destruct (AddTask e h ex faults d now) as [d1 ag] eqn:Ea. cbn [fst] in Hg.
  destruct (IH d1 (added ++ ag) ltac:(intros ? ? ?; eapply Hcb; by right) E) as [Hs Ht]. split; [lia|].
  intros t [[Hin|Hin]%elem_of_app|Hin]%Ht; [by left| |right; lia]. right. by eapply AddTask_agreed.
Qed.

Lemma bored_handlers_batch n k e d env e' d' s0 : accepts_offered env -> bored_ok env ->
  bored_handlers n k e d env = (e', d') -> s0 <= task_seq d ->
  exists bored, e_running e' = e_running e ++ bored /\ forall r, r ∈ bored ->
    r_phase r = Working /\ s0 <= r_task r /\ exists calls, pe_bored env (r_handler r) = Some (calls, false).
Proof.
  intros Hacc Hb. revert k e d. induction n as [|n IH]; intros k e d E Hs; cbn [bored_handlers] in E.
  { injection E as <- <-. exists []. rewrite app_nil_r. split; [done|]. by intros ? ?%not_elem_of_nil. }
  destruct (e_handlers e !! k) as [v|] eqn:Hk.
  2: { injection E as <- <-. exists []. rewrite app_nil_r. split; [done|]. by intros ? ?%not_elem_of_nil. }
  destruct (AssertMachineHasCapacity e v); [|by eapply IH]. destruct (pe_bored env k) as [[calls err]|] eqn:Eb; [|by eapply IH].
  destruct (bored_adds _ _ _ _ _ _) as [d1 added] eqn:Ea.
  destruct (bored_adds_fresh e v calls d (pe_now env) [] d1 added ltac:(intros ? ?; by eapply Hb) Ea) as [Hs1 Hfresh].
  destruct err; [eapply IH; [exact E|lia]|]. destruct (0 <? _)%nat; [|eapply IH; [exact E|lia]].
  destruct (considerWork _ _ _ _ _ _) as [[e2 d2] acc2] eqn:Ec.
  destruct (considerWork_batch e d1 k v WorkSourceIAmBored added (pe_bored_work env k) e2 d2 acc2 ltac:(done) Hk Ec)
    as (_ & _ & Hot & started & Hr2 & _ & _ & _ & _ & Hst).
  destruct (IH (S k) e2 d2 E) as (bored & Hr & Hall); [rewrite Hot; cbn; lia|].
  eexists. split; [rewrite Hr, Hr2, <- app_assoc; reflexivity|].
  intros r [(t & -> & Ht)%list_elem_of_fmap|Hin]%elem_of_app; [|by apply Hall]. cbn [r_phase r_task r_handler].
  split; [done|]. split; [|by exists calls]. destruct (Hst t Ht) as [(l & Hl & Hin) _].
  apply (proj2 (Hacc k WorkSourceIAmBored added l) Hl), Hfresh in Hin as [Hin|?]; [by apply not_elem_of_nil in Hin|lia].
Qed.

(** What the row of the host says about taking work. *)
Definition node_flag e d (sch : bool) : Prop :=
  exists id m, machines d !! id = Some m /\ m_host m = e_host e /\ sch = negb (m_unschedulable m).

(** The tables after the reaping of silent machines, when it is due. *)
Definition reaped e d (env : @poll_env X) : db X :=
  if time_sub (pe_now env) (e_last_cleanup e) >? CLEANUP_FREQUENCY
  then (CleanupMachines d (pe_cleanup_err env) (pe_now env)).1 else d.

Lemma checkNodeFlags_works e d ff cf uf e' d' sch : checkNodeFlags e d ff cf uf = (e', d', Some sch) ->
  node_flag e d sch /\ (e_exited e' = false -> e' = e /\ d' = d).
Proof.
  unfold checkNodeFlags. destruct ff; [done|]. destruct (List.filter _ _) as [|[id m] rest] eqn:Ef; [done|].
  assert ((id, m) ∈ List.filter (fun p : Z * machine_row => bool_decide (m_host p.2 = e_host e)) (map_to_list (machines d)))
    as [Hh Hm]%elem_of_filter_b by (rewrite Ef; left).
  apply bool_decide_eq_true in Hh. apply elem_of_map_to_list in Hm. cbn [snd] in Hh.
  assert (node_flag e d (negb (m_unschedulable m))) as Hnf by (by exists id, m).
  destruct (m_restart_request m); [|by intros [= <- <- <-]].
  unfold restartIfNoTasksPending. destruct cf; [by intros [= <- <- <-]|]. destruct (_ =? _)%nat; [|by intros [= <- <- <-]].
  destruct uf; by intros [= <- <- <-].
Qed.

Lemma tryAllWork_batch e d sch env e' d' acc e1 : accepts_offered env -> bored_ok env ->
  pollerTryAllWork e d sch env = (e', d', acc) -> same_node e1 e -> e_mem e = e_mem e1 -> e_running e = e_running e1 ->
  exists polled bored, e_running e' = e_running e1 ++ polled ++ bored /\ (acc = true <-> polled <> []) /\
    (polled <> [] -> bored = [] /\ polled_ok e1 (reaped e d env) sch env polled) /\
    forall r, r ∈ bored -> sch = true /\ r_phase r = Working /\ task_seq (reaped e d env) <= r_task r /\
      exists calls, pe_bored env (r_handler r) = Some (calls, false).
Proof.
  intros Hacc Hb E Hn Hm Hrun. unfold pollerTryAllWork in E.
  set (cl := if _ >? _ then (set_last_cleanup e (pe_now env), _) else (e, d)) in E.
  assert (exists t, cl = (set_last_cleanup e t, reaped e d env)) as (t & Ecl).
  { unfold cl, reaped. destruct (_ >? _); [by eexists|]. exists (e_last_cleanup e). by destruct e. }
  rewrite Ecl in E. clear cl Ecl. set (d1 := reaped e d env) in *.
  destruct (poll_handlers _ _ _ _ _ _) as [[e2 d2] acc2] eqn:Ep.
  destruct (poll_handlers_batch _ _ (set_last_cleanup e t) d1 sch env e2 d2 acc2 e1 d1 Hacc Ep Hn Hm Hrun) as (Hn2 & Hs & polled & Hr & Ha & Hp).
  { split; [done|]. intros; done. }
  exists polled. destruct acc2.
  { injection E as <- <- <-. exists []. rewrite app_nil_r. split_and!; try done; [|by intros ? ?%not_elem_of_nil]. auto. }
  assert (polled = []) as -> by (destruct polled; [done|]; by destruct Ha as [_ Ha]; discriminate Ha).
  rewrite app_nil_r in Hr. destruct sch; cbn [negb] in E.
  2: { injection E as <- <- <-. exists []. rewrite !app_nil_r. split_and!; try done. by intros ? ?%not_elem_of_nil. }
  destruct (bored_handlers _ _ _ _ _) as [e3 d3] eqn:Eb. injection E as <- <- <-.
  destruct (bored_handlers_batch _ _ _ _ _ _ _ (task_seq d1) Hacc Hb Eb) as (bored & Hr3 & Hall); [lia|].
  exists bored. rewrite Hr3, Hr. split_and!; try done. intros r Hin. split; [done|]. by apply Hall.
Qed.

(** C34: an iteration of the poller starts only work that is ready.  What joins the goroutines
    of the node is either taken from the table or comes from [IAmBored], never both, and the
    next iteration comes early exactly if something was taken.  The tasks taken from
    the table are all of one type, which the node may run now: it is schedulable
    according to its row, or the type has a scheduling override with work assigned to the
    node; they are at most as many as the machine and the limiter of the type have room
    for, each is started once, and each is, in the tables after the reaping of silent machines, a
    task of the type without an owner whose delay after a failure is over.  The
    others are started only on a schedulable node and were added in this iteration by an
    [IAmBored] that returned no error.  Assumed of the task types: [CanAccept] answers
    with ids that it was offered, and the callbacks of [IAmBored] do not write the
    tables of the engine. *)
Theorem poller_starts_ready e d ff cf uf env e' d' wait :
  poller_iteration e d ff cf uf env = (e', d', wait) -> bored_ok env -> accepts_offered env ->
  let d1 := reaped e d env in
  exists polled bored, e_running e' = e_running e ++ polled ++ bored /\
    (wait = POLL_NEXT_DURATION <-> polled <> []) /\
    (polled <> [] -> bored = [] /\ exists sch, node_flag e d sch /\ polled_ok e d1 sch env polled) /\
    forall r, r ∈ bored -> node_flag e d true /\ r_phase r = Working /\ task_seq d1 <= r_task r /\
      exists calls, pe_bored env (r_handler r) = Some (calls, false).
Proof.
  intros E Hb Hacc. cbv zeta.
  assert (e_running e' = e_running e -> wait = POLL_DURATION -> exists polled bored : list run,
    e_running e' = e_running e ++ polled ++ bored /\ (wait = POLL_NEXT_DURATION <-> polled <> []) /\
    (polled <> [] -> bored = [] /\ exists sch, node_flag e d sch /\ polled_ok e (reaped e d env) sch env polled) /\
    forall r, r ∈ bored -> node_flag e d true /\ r_phase r = Working /\ task_seq (reaped e d env) <= r_task r /\
      exists calls, pe_bored env (r_handler r) = Some (calls, false)) as Hidle.
  { intros Hr ->. exists [], []. rewrite !app_nil_r. split_and!; try done. by intros ? ?%not_elem_of_nil. }
  unfold poller_iteration in E. destruct (checkNodeFlags e d ff cf uf) as [[e1 d1] flags] eqn:Ef.
  assert (e_running e1 = e_running e) as Hr1.
  { pose proof (checkNodeFlags_steps e d ff cf uf e1 d1 flags {["h"%string := e]} "h"%string Ef (lookup_singleton_eq _ _)) as (_ & _ & ? & _). done. }
  destruct flags as [sch|]; [|injection E as <- <- <-; by apply Hidle].
  destruct (checkNodeFlags_works _ _ _ _ _ _ _ _ Ef) as [Hnf Hsame].
  destruct (e_exited e1) eqn:Ex; [injection E as <- <- <-; by apply Hidle|]. destruct (Hsame eq_refl) as [-> ->].
  destruct (pollerTryAllWork _ _ _ _) as [[e2 d2] acc] eqn:Et.
  destruct (tryAllWork_batch _ _ _ _ _ _ _ e Hacc Hb Et) as (polled & bored & Hr & Ha & Hp & Hbo); [done..|].
  assert (e_running e' = e_running e2 /\ wait = if acc then POLL_NEXT_DURATION else POLL_DURATION) as [Hr2 Hw].
  { destruct sch; cbn [negb] in E; [|by injection E as <- <- <-]. injection E as <- _ <-. by destruct (_ >? _). }
  exists polled, bored. rewrite Hr2, Hw. split_and!; [done| | |].
  - rewrite <- Ha. by destruct acc.
  - intros Hne. destruct (Hp Hne) as [-> Hok]. split; [done|]. by exists sch.
  - intros r Hin. destruct (Hbo r Hin) as (-> & ?). done.
Qed.

(** a cordoned node takes no work: when the node is unschedulable and none of
    its task types has a scheduling override with work assigned to the node, an
    iteration of the work poller starts nothing and changes no row, apart from
    the reaping of silent machines. *)
Theorem cordoned_node_idle e d env e' d' accepted :
  pollerTryAllWork e d false env = (e', d', accepted) ->
  let d1 := if time_sub (pe_now env) (e_last_cleanup e) >? CLEANUP_FREQUENCY
            then (CleanupMachines d (pe_cleanup_err env) (pe_now env)).1 else d in
  (forall k h, e_handlers e !! k = Some h -> override_found e h d1 (pe_override_err env k) = false) ->
  accepted = false /\ d' = d1 /\ e_running e' = e_running e /\ e_mem e' = e_mem e.
Proof.
  unfold pollerTryAllWork. set (cl := if _ >? _ then (set_last_cleanup e (pe_now env), _) else (e, d)).
  assert (exists t, cl = (set_last_cleanup e t, if time_sub (pe_now env) (e_last_cleanup e) >? CLEANUP_FREQUENCY
    then (CleanupMachines d (pe_cleanup_err env) (pe_now env)).1 else d)) as (t & ->).
  { unfold cl. destruct (_ >? _); [by eexists|]. exists (e_last_cleanup e). by destruct e. }
  set (d1 := if _ >? _ then _ else d). intros E Hno.
  rewrite (poll_handlers_idle _ 0 (set_last_cleanup e t) d1 env Hno) in E. cbn [negb] in E.
  by injection E as <- <- <-.
Qed.

End Poller.
