(* ===== verification/Singleton.v ===== *)
(** * Singleton tasks ([harmony/harmonytask/singleton_task.go])

    A singleton task type has at most one task in the cluster and runs at most
    once per interval, or when the operator asks for it.  The adder of a node
    keeps the time of its last call and shares the flag of its task name with
    the poller of run-now requests. *)

From stdpp Require Import base gmap sets list strings.
From Stdlib Require Import ZArith Lia.
From S2P Require Import Prelude Float64 HarmonyDB Limiter Resources TaskEngine TaskEngineFacts.

(** [singletonRunNow.flags] *)
Abbreviation flags := (gmap string bool).

Definition registerSingletonRunNow (taskName : string) (fl : flags) : flags :=
  match fl !! taskName with Some _ => fl | None => <[taskName := false]> fl end.

Section Singleton.
Context {X ST : Type} `{StorageOps ST}.
Implicit Types (d : db X) (e : engine ST).

(** [SELECT id FROM harmony_task WHERE id = $1 AND name = $2]: whether there is
    such a task. *)
Definition active d (id : option Z) (name : string) : bool :=
  match id with
  | Some i => match tasks d !! i with Some r => bool_decide (t_name r = name) | None => false end
  | None => false
  end.

(** The upsert: the task id is replaced unless it names an active task, the run
    time unless the id is the same, and the request is cleared. *)
Definition singleton_upsert d (taskName : string) (taskID : TaskID) (now : time) : db X :=
  with_singletons d
    (<[taskName :=
        match singletons d !! taskName with
        | None => mkSingleton (Some taskID) now false
        | Some s =>
            mkSingleton (if active d (s_task_id s) taskName then s_task_id s else Some taskID)
              (if decide (s_task_id s = Some taskID) then s_last_run s else now) false
        end]> (singletons d)).

(** The callback given to [add]; [fault] is an error of one of its statements. *)
Definition singleton_extra (taskName : string) (minInterval : duration) (now : time) (fault : option dberr)
    : @extra X :=
  fun taskID d =>
    match fault with
    | Some err => Err err
    | None =>
        let shouldRun :=
          match singletons d !! taskName with
          | None => true
          | Some s =>
              if active d (s_task_id s) taskName then false
              else s_run_now s || time_before (time_add (s_last_run s) minInterval) now
          end in
        if negb shouldRun then Ok (d, false)
        else Ok (singleton_upsert d taskName taskID now, true)
    end.

(** One call of the adder, after [initOnce]: the flags, the time of the last call
    and, if [add] is called, the callback it is called with. *)
Definition SingletonTaskAdder (minInterval : duration) (taskName : string) (fl : flags) (lastCall now : time)
    (fault : option dberr) : flags * time * option (@extra X) :=
  let fl := registerSingletonRunNow taskName fl in
  let runNowTriggered := default false (fl !! taskName) in
  let fl := <[taskName := false]> fl in
  if negb runNowTriggered && (time_sub now lastCall <? minInterval) then (fl, lastCall, None)
  else (fl, now, Some (singleton_extra taskName minInterval now fault)).

(** One iteration of [singletonRunNowPoller]. *)
Definition singletonRunNowPoller (fl : flags) d (fail : bool) : flags :=
  if fail then fl
  else
    foldl (fun (fl : flags) name => if bool_decide (is_Some (fl !! name)) then <[name := true]> fl else fl) fl
      (fst <$> List.filter (fun p => s_run_now p.2) (map_to_list (singletons d))).

(** ** The callback *)

Lemma singleton_extra_agrees (taskName : string) minInterval now taskID d d' b :
  singleton_extra taskName minInterval now None taskID d = Ok (d', b) ->
  if b then
    (forall s, singletons d !! taskName = Some s -> active d (s_task_id s) taskName = false /\
       (s_run_now s = true \/ s_last_run s + minInterval < now)) /\
    d' = singleton_upsert d taskName taskID now
  else d' = d.
Proof.
  unfold singleton_extra. destruct (singletons d !! taskName) as [s|] eqn:Es.
  - destruct (active d (s_task_id s) taskName) eqn:Ea; [by intros [= <- <-]|].
    destruct (negb _) eqn:En; [by intros [= <- <-]|]. apply negb_false_iff, orb_true_iff in En. intros [= <- <-].
    split; [|done]. intros s' [= <-]. split; [done|]. unfold time_before, time_add in En. by rewrite Z.ltb_lt in En.
  - cbn. intros [= <- <-]. done.
Qed.

(** the callback of a singleton adder agrees to a new task only when no active
    task of the type is recorded and either the type never ran, or a run was
    requested, or the last one is more than the interval ago; then the record
    names the new task and the present time and the request is cleared, and no
    other row changes. *)
Theorem singleton_extra_spec (taskName : string) minInterval now taskID r d d' :
  tasks d !! taskID = Some r -> t_name r = taskName ->
  singleton_extra taskName minInterval now None taskID d = Ok (d', true) ->
  (forall s, singletons d !! taskName = Some s ->
     active d (s_task_id s) taskName = false /\
     (s_run_now s = true \/ s_last_run s + minInterval < now)) /\
  d' = with_singletons d (<[taskName := mkSingleton (Some taskID) now false]> (singletons d)).
Proof.
  intros Ht Hn E. destruct (singleton_extra_agrees _ _ _ _ _ _ _ E) as [Hs ->]. split; [done|].
  unfold singleton_upsert. destruct (singletons d !! taskName) as [s|] eqn:Es; [|done].
  destruct (Hs s eq_refl) as [Ha _]. rewrite Ha. rewrite decide_False; [done|].
  intros Ei. rewrite Ei in Ha. unfold active in Ha. rewrite Ht in Ha. by rewrite bool_decide_eq_true_2 in Ha.
Qed.

(** ** At most one task *)

(** Every task of the type is the recorded one. *)
Definition recorded (name : string) d : Prop :=
  forall id r, tasks d !! id = Some r -> t_name r = name ->
    exists s, singletons d !! name = Some s /\ s_task_id s = Some id.

(** What other transactions leave alone: the tasks of the type and its record. *)
Definition leaves (name : string) d d' : Prop :=
  singletons d' !! name = singletons d !! name /\
  forall id r, tasks d' !! id = Some r -> t_name r = name ->
    exists r0, tasks d !! id = Some r0 /\ t_name r0 = name.

(** The steps of the cluster, as far as one singleton type is concerned: its
    adder runs on some node, a task of any type is completed, and anything else
    that leaves the type alone (other task types, claims, reaping). *)
Inductive sg_step (name : string) (minInterval : duration) : db X -> db X -> Prop :=
| sg_add e h faults d now d' agreed : h_name h = name ->
    AddTask e h (singleton_extra name minInterval now None) faults d now = (d', agreed) ->
    sg_step name minInterval d d'
| sg_record e h d tID sec ws we done doErr now d' :
    record_tx e h d tID sec ws we done doErr now = Some d' -> sg_step name minInterval d d'
| sg_leave d d' : leaves name d d' -> sg_step name minInterval d d'.

Lemma recorded_leaves name d d' : recorded name d -> leaves name d d' -> recorded name d'.
Proof.
  intros Hr [Hs Ht] id r Hid Hn. destruct (Ht id r Hid Hn) as (r0 & Hr0 & Hn0). rewrite Hs. by eapply Hr.
Qed.

Lemma recorded_tx name iv e h fault d now : h_name h = name -> recorded name d ->
  recorded name (add_tx e h (singleton_extra name iv now None) fault d now).1.1.
Proof.
  intros Hh Hr. destruct (add_tx_cases e h (singleton_extra name iv now None) fault d now)
    as [(res & ag & -> & _)|(d' & res & -> & _ & Hex)]; [exact Hr|]. cbn [fst].
  destruct (singleton_extra_agrees _ _ _ _ _ _ _ Hex) as [Hs ->]. set (d1 := (insert_task _ _ _ _).1) in *.
  assert (tasks d1 !! task_seq d = Some (mkTask name None (e_owner e) None now now 0)) as Hnew.
  { cbn. rewrite Hh. by rewrite lookup_insert_eq. }
  assert (forall id r, id <> task_seq d -> tasks d1 !! id = Some r -> t_name r <> name) as Hold.
  { intros id r Hne Hid Hn. cbn in Hid. rewrite lookup_insert_ne in Hid by done.
    destruct (Hr id r Hid Hn) as (s & Es & Ei). destruct (Hs s Es) as [Ha _]. unfold active in Ha. rewrite Ei in Ha.
    cbn in Ha. rewrite lookup_insert_ne, Hid, bool_decide_eq_true_2 in Ha by done. done. }
  intros id r Hid Hn. unfold singleton_upsert in Hid |- *. cbn [tasks with_singletons] in Hid.
  destruct (decide (id = task_seq d)) as [->|Hne]; [|by destruct (Hold id r Hne Hid)].
  cbn [singletons with_singletons]. rewrite lookup_insert_eq. eexists. split; [done|].
  destruct (singletons d1 !! name) as [s|] eqn:Es; [|done]. cbn [s_task_id].
  destruct (Hs s eq_refl) as [-> _]. done.
Qed.

Lemma recorded_AddTask name iv e h faults d now : h_name h = name -> recorded name d ->
  recorded name (AddTask e h (singleton_extra name iv now None) faults d now).1.
Proof.
  intros Hh. revert d. induction faults as [|f faults IH]; intros d Hr; cbn [AddTask].
  - pose proof (recorded_tx name iv e h NoFault d now Hh Hr) as Hg.
    by destruct (add_tx e h _ NoFault d now) as [[d1 res] ag].
  - pose proof (recorded_tx name iv e h f d now Hh Hr) as Hg.
    destruct (add_tx e h _ f d now) as [[d1 [id|[]]] ag]; try done.
    specialize (IH d1 Hg). by destruct (AddTask e h _ faults d1 now) as [d2 ags].
Qed.

Lemma recorded_delete name d id : recorded name d -> recorded name (delete_task d id).
Proof.
  intros Hr j r Hj Hn. cbn in Hj. apply lookup_delete_Some in Hj as [Hne Hj]. destruct (Hr j r Hj Hn) as (s & Es & Ei). cbn.
  rewrite lookup_fmap, Es. cbn. exists s. split; [|done]. unfold singleton_unref. rewrite decide_False; [done|].
  congruence.
Qed.

Lemma recorded_record name e h d tID sec ws we done doErr now d' : recorded name d ->
  record_tx e h d tID sec ws we done doErr now = Some d' -> recorded name d'.
Proof.
  intros Hr E. destruct (tasks d !! tID) as [r|] eqn:Er; [|unfold record_tx in E; by rewrite Er in E].
  rewrite (record_tx_some _ _ _ _ _ _ _ _ _ _ _ Er) in E. injection E as <-. unfold completed_db.
  destruct (_ || _).
  - assert (recorded name (delete_task d tID)) as Hd by (by apply recorded_delete).
    by destruct sec as [[]|].
  - assert (recorded name (disown_failed d tID (t_retries r + 1) now)) as Hd.
    { eapply recorded_leaves; [exact Hr|]. split; [done|]. intros id r' Hid Hn. cbn in Hid.
      apply lookup_alter_Some in Hid as [(<- & r0 & Hr0 & ->)|[_ Hid]]; eauto. }
    by destruct sec as [[]|].
Qed.

(** a singleton task type has at most one task in the whole cluster at any
    time, whichever nodes run its adder, however often, and with whatever faults
    in their transactions (which the database serialises). *)
Theorem singleton_at_most_one (name : string) (minInterval : duration) d d' id1 r1 id2 r2 :
  (forall id r, tasks d !! id = Some r -> t_name r <> name) ->
  rtc (sg_step name minInterval) d d' ->
  tasks d' !! id1 = Some r1 -> t_name r1 = name -> tasks d' !! id2 = Some r2 -> t_name r2 = name ->
  id1 = id2.
Proof.
  intros Hinit Hr H1 N1 H2 N2.
  assert (recorded name d') as Hrec.
  { apply (rtc_invariant (sg_step name minInterval) (recorded name)) with (s := d); [|done|].
    - intros a b Ha Hst. revert Ha.
      destruct Hst as [e h faults x now y ag Hh E|e h x tID sec ws we dn doErr now y E|x y Hl]; intros Ha.
      + pose proof (recorded_AddTask name minInterval e h faults x now Hh Ha) as Hx. by rewrite E in Hx.
      + by eapply recorded_record.
      + by eapply recorded_leaves.
    - intros id r Hid Hn. by destruct (Hinit id r Hid). }
  destruct (Hrec _ _ H1 N1) as (s1 & E1 & I1). destruct (Hrec _ _ H2 N2) as (s2 & E2 & I2). congruence.
Qed.

(** ** Run-now requests *)

Lemma poller_sets (fl : flags) (names : list string) name : is_Some (fl !! name) -> name ∈ names ->
  foldl (fun (fl : flags) n => if bool_decide (is_Some (fl !! n)) then <[n := true]> fl else fl) fl names !! name = Some true.
Proof.
  intros Hs Hin. assert (forall l (f : flags), f !! name = Some true ->
    foldl (fun (fl : flags) n => if bool_decide (is_Some (fl !! n)) then <[n := true]> fl else fl) f l !! name = Some true) as Hkeep.
  { induction l as [|n l IH]; intros f Hf; cbn [foldl]; [done|]. apply IH. case_bool_decide; [|done].
    destruct (decide (n = name)) as [->|]; [by rewrite lookup_insert_eq|by rewrite lookup_insert_ne]. }
  revert fl Hs. induction names as [|n names IH]; intros fl Hs; [by apply not_elem_of_nil in Hin|]. cbn [foldl].
  apply elem_of_cons in Hin as [->|Hin].
  - apply Hkeep. rewrite bool_decide_eq_true_2 by done. by rewrite lookup_insert_eq.
  - apply IH; [done|]. case_bool_decide; [|done].
    destruct (decide (n = name)) as [->|]; [by rewrite lookup_insert_eq|by rewrite lookup_insert_ne].
Qed.

(** a run-now request is honoured: once the poller of a node has seen it, the
    next call of the node's adder goes to the database whatever the time of the
    last call, and if no task of the type is active its transaction adds one
    and clears the request. *)
Theorem run_now_honoured (name : string) (minInterval : duration) fl lastCall now d s e h :
  is_Some (fl !! name) -> singletons d !! name = Some s -> s_run_now s = true ->
  (forall id r, tasks d !! id = Some r -> t_name r <> name) -> s_task_id s <> Some (task_seq d) -> h_name h = name ->
  exists fl' ex d' id,
    SingletonTaskAdder minInterval name (singletonRunNowPoller fl d false) lastCall now None = (fl', now, Some ex) /\
    AddTask e h ex [] d now = (d', [id]) /\
    singletons d' !! name = Some (mkSingleton (Some id) now false) /\
    exists r, tasks d' !! id = Some r /\ t_name r = name /\ t_owner r = None.
Proof.
  intros Hfl Hs Hrun Hno Hseq Hh. unfold SingletonTaskAdder, singletonRunNowPoller.
  assert (name ∈ fst <$> List.filter (fun p => s_run_now p.2) (map_to_list (singletons d))) as Hin.
  { apply list_elem_of_fmap. exists (name, s). split; [done|]. apply elem_of_filter_b. split; [done|].
    by apply elem_of_map_to_list. }
  set (fl1 := foldl _ _ _). assert (fl1 !! name = Some true) as Hf by (by apply poller_sets).
  unfold registerSingletonRunNow. rewrite Hf, Hf. cbn [default negb andb].
  set (ex := singleton_extra _ _ _ _). set (d1 := (insert_task d (h_name h) (e_owner e) now).1).
  assert (active d1 (s_task_id s) name = false) as Ha.
  { unfold active. destruct (s_task_id s) as [i|]; [|done]. cbn. rewrite lookup_insert_ne by congruence.
    destruct (tasks d !! i) as [r|] eqn:Er; [|done]. apply bool_decide_eq_false_2. by apply (Hno i r). }
  assert (ex (task_seq d) d1 = Ok (singleton_upsert d1 name (task_seq d) now, true)) as Hex.
  { unfold ex, singleton_extra. change (singletons d1) with (singletons d). by rewrite Hs, Ha, Hrun. }
  eexists _, ex, _, (task_seq d). split; [done|]. cbn [AddTask]. unfold add_tx.
  change (insert_task d (h_name h) (e_owner e) now) with (d1, task_seq d). cbv beta iota. rewrite Hex. split; [done|].
  split.
  - unfold singleton_upsert. cbn [singletons with_singletons]. rewrite lookup_insert_eq.
    change (singletons d1) with (singletons d). rewrite Hs, Ha, decide_False by done. done.
  - eexists. cbn. rewrite lookup_insert_eq, Hh. done.
Qed.

End Singleton.
