(* ===== verification/EngineExamples.v ===== *)
(** * The engine on concrete inputs

    A cluster of one node with one task type (at most two tasks at a time, one
    CPU and 1 KiB each): the node starts, a task is added and taken, fails and
    is recorded.  The theorems of the engine are applied to these states. *)

From stdpp Require Import base gmap sets list strings.
From Stdlib Require Import ZArith Lia.
From S2P Require Import Prelude Float64 HarmonyDB Limiter Resources TaskEngine TaskEngineFacts Capacity Cluster PollerFacts Singleton.
Import Taskhelp.

(** A node without storage claims. *)
#[export] Instance no_storage : StorageOps unit := {
  HasCapacity _ _ := true;
  Claim st _ _ := Some st;
  Release st _ _ := st
}.

Definition ex_d0 : db unit := mkDB ∅ 1 [] [] ∅ 1 ∅ tt.
Definition ex_mem : mem := (Max 2 emptyMem).2.
Definition ex_limit : MaxCounter := (Max 2 emptyMem).1.
Definition ex_cost : Resources := mkResources 1 (f64_of_Z 0) 1024 0 false.
Definition ex_impls : list task_details := [mkDetails "Seal" (Some ex_limit) ex_cost 3 None false None false].
Definition ex_res : Resources := mkResources 4 (f64_of_Z 1) 1048576 0 false.

(** [CanAccept] takes all it is offered. *)
Definition ex_env : work_env := mkWorkEnv (fun _ ids => Some ids) (fun _ => false) false false (fun _ => None) 100.

Definition ex_start (d : db unit) : db unit * result (engine unit) new_error :=
  New d ex_impls {["Seal"]} "node:1" (Some ex_res) (false, false, false) 100 ex_mem tt
    (fun _ => ex_env) (fun _ => false) 100.

Definition ex_e0 : engine unit :=
  mkEngine 0 "" ex_res 0 [] emptyMem tt false 0 0 [] false [].

Definition ex_d1 : db unit := (ex_start ex_d0).1.
Definition ex_e1 : engine unit := match (ex_start ex_d0).2 with Ok e => e | Err _ => ex_e0 end.
Definition ex_handler : handler :=
  match e_handlers ex_e1 with h :: _ => h | [] => mkHandler "" ex_limit ex_cost 0 None false None false ∅ end.

Definition ex_agree : @extra unit := fun _ d => Ok (d, true).

Definition ex_d2 : db unit := (AddTask ex_e1 ex_handler ex_agree [] ex_d1 100).1.
Definition ex_taken : engine unit * db unit * bool := considerWork ex_e1 ex_d2 0 WorkSourcePoller [1] ex_env.
Definition ex_e3 : engine unit := ex_taken.1.1.
Definition ex_d3 : db unit := ex_taken.1.2.
Definition ex_run : run := mkRun 0 1 None 100 Working.
Definition ex_e4 : engine unit := finish_do ex_e3 ex_run [] [] false (Some "no gpu") 200.

Lemma ex_db_ok : db_ok ex_d0.
Proof.
  split; [|split]; [intros id r o|intros id [m Hm]|intros id [r Hr]]; cbn in *;
    try (intros Hr); rewrite lookup_empty in *; done.
Qed.

Lemma ex_accepts id : accepts_some ((fun _ : Z => ex_env) id).
Proof. by intros ids l [= <-]. Qed.

Lemma ex_start_ok : start_ok ex_impls ex_mem (Some ex_res) 100 (fun _ => ex_env).
Proof.
  constructor; [|by intros r [= <-]|done|apply ex_accepts].
  constructor.
  - intros td m ->%list_elem_of_singleton [= <-]. split; [cbn; lia|done].
  - by intros td td' m m' ->%list_elem_of_singleton ->%list_elem_of_singleton [= <-] [= <-].
  - intros td ->%list_elem_of_singleton. cbn. unfold max_i64. lia.
Qed.

Lemma ex_agree_ok : callback_ok ex_agree.
Proof. by intros t d d' b [= <- <-]. Qed.

Lemma ex_heard_none d now : heard (ST := unit) (X := unit) ∅ d now.
Proof. intros host e m. by rewrite lookup_empty. Qed.

Lemma ex_reach1 : reachable (ex_d1, <["node:1" := ex_e1]> ∅).
Proof.
  exists ex_d0. split; [apply ex_db_ok|]. apply rtc_once.
  eapply (cs_start ex_d0 ∅ ex_impls {["Seal"]} "node:1" (Some ex_res) (false, false, false) 100 ex_mem tt
    (fun _ => ex_env) (fun _ => false) 100); [apply ex_start_ok|rewrite delete_empty; apply ex_heard_none| |done].
  vm_compute. reflexivity.
Qed.

Lemma ex_reach2 : reachable (ex_d2, <["node:1" := ex_e1]> ∅).
Proof.
  destruct ex_reach1 as (d0 & Hdb & Hr). exists d0. split; [done|]. eapply rtc_r; [exact Hr|].
  eapply (cs_add _ _ "node:1" ex_e1 ex_handler ex_agree [] 100); [by rewrite lookup_insert_eq|apply ex_agree_ok|].
  vm_compute. reflexivity.
Qed.

Lemma ex_reach3 : reachable (ex_d3, <["node:1" := ex_e3]> ∅).
Proof.
  destruct ex_reach2 as (d0 & Hdb & Hr). exists d0. split; [done|]. eapply rtc_r; [exact Hr|].
  rewrite <- (insert_insert_eq ∅ "node:1" ex_e3 ex_e1).
  eapply (cs_consider _ _ "node:1" ex_e1 0 WorkSourcePoller [1] ex_env); [by rewrite lookup_insert_eq|done| |done].
  vm_compute. reflexivity.
Qed.

Lemma ex_reach4 : reachable (ex_d3, <["node:1" := ex_e4]> ∅).
Proof.
  destruct ex_reach3 as (d0 & Hdb & Hr). exists d0. split; [done|]. eapply rtc_r; [exact Hr|].
  rewrite <- (insert_insert_eq ∅ "node:1" ex_e4 ex_e3).
  eapply (cs_finish _ _ "node:1" ex_e3 [] ex_run []); [by rewrite lookup_insert_eq|vm_compute; reflexivity|done].
Qed.

(** ** The theorems at these states *)

Lemma considerWork_takes_unowned_witness :
  exists started,
    e_running ex_e3 = e_running ex_e1 ++ map (fun t => mkRun 0 t None 100 Working) started /\ NoDup started.
Proof.
  destruct (considerWork_takes_unowned ex_e1 ex_d2 0 ex_handler WorkSourcePoller [1] ex_env ex_e3 ex_d3 true)
    as (started & Hrun & Hnd & _); [discriminate|reflexivity|vm_compute; reflexivity|].
  exists started. split; [exact Hrun|exact Hnd].
Defined.

Lemma retry_budget_witness :
  exists d1 r1, fail_times ex_e1 ex_handler ex_d2 1 [(None, 5); (Some "x", 6)] = Some d1 /\
    tasks d1 !! 1 = Some r1 /\ t_retries r1 = 2.
Proof.
  destruct (retry_budget ex_e1 ex_handler 1 ex_d2 (mkTask "Seal" None 1 None 100 100 0)
    [(None, 5); (Some "x", 6)] None 7) as (d1 & r1 & H1 & H2 & H3 & _);
    [vm_compute; reflexivity|reflexivity|right; vm_compute; reflexivity|].
  exists d1, r1. split; [exact H1|]. split; [exact H2|exact H3].
Defined.

Lemma cluster_no_double_run_witness : "node:1" = "node:1" /\ 0%nat = 0%nat.
Proof.
  apply (cluster_no_double_run ex_d3 (<["node:1" := ex_e3]> ∅) "node:1" ex_e3 0 ex_run "node:1" ex_e3 0 ex_run
    ex_reach3); reflexivity.
Defined.

Lemma cluster_within_capacity_witness :
  Zsum (run_cost Cpu ex_e3) (e_running ex_e3) <= 4 /\ Zsum (run_cost Cpu ex_e3) (e_running ex_e3) = 1.
Proof.
  split; [|vm_compute; reflexivity].
  exact (proj1 (cluster_within_capacity ex_d3 (<["node:1" := ex_e3]> ∅) "node:1" ex_e3 ex_reach3 eq_refl)).
Defined.

Lemma recordCompletion_ends_witness :
  exists d', recordCompletion ex_e4 ex_handler ex_d3 1 None 100 200 false (Some "no gpu") [true; true] 300 = Some d' /\
    forall row, tasks d' !! 1 = Some row -> t_owner row = None.
Proof.
  apply (recordCompletion_ends ex_d3 (<["node:1" := ex_e4]> ∅) "node:1" ex_e4
    (mkRun 0 1 None 100 (Recording false (Some "no gpu") 200)) 0 ex_handler false (Some "no gpu") 200 [true; true] 300
    ex_reach4); [reflexivity| |reflexivity|reflexivity].
  vm_compute. left.
Defined.

(** The node crashes with its task and starts again. *)
Definition ex_e5 : engine unit := match (ex_start ex_d3).2 with Ok e => e | Err _ => ex_e0 end.

Lemma restart_recovers_all_witness :
  exists i r, e_running ex_e5 !! i = Some r /\ r_task r = 1 /\
    forall j r', e_running ex_e5 !! j = Some r' -> r_task r' = 1 -> j = i.
Proof.
  apply (restart_recovers_all ex_d3 (<["node:1" := ex_e3]> ∅) ex_impls {["Seal"]} "node:1" (Some ex_res)
    (false, false, false) 100 ex_mem tt (fun _ => ex_env) (fun _ => false) 100 (ex_start ex_d3).1 ex_e5 ex_reach3)
    with (row := mkTask "Seal" (Some 1) 1 None 100 100 0).
  - intros host e m Hl. rewrite delete_insert_id in Hl by reflexivity. rewrite lookup_empty in Hl. discriminate.
  - apply ex_start_ok.
  - vm_compute. reflexivity.
  - vm_compute. reflexivity.
  - reflexivity.
  - vm_compute. reflexivity.
  - vm_compute. reflexivity.
Defined.

Definition ex_poll (cleanup : time) : @poll_env unit :=
  mkPollEnv (fun _ => ex_env) (fun _ => false) (fun _ => false) (fun _ => None) (fun _ => ex_env) false cleanup.

Lemma poller_iteration_refines_witness :
  rtc cl_step (ex_d2, <["node:1" := ex_e1]> ∅)
    ((poller_iteration ex_e1 ex_d2 false false false (ex_poll 200)).1.2,
     <["node:1" := (poller_iteration ex_e1 ex_d2 false false false (ex_poll 200)).1.1]> (<["node:1" := ex_e1]> ∅)) /\
  length (e_running (poller_iteration ex_e1 ex_d2 false false false (ex_poll 200)).1.1) = 1%nat.
Proof.
  split; [|vm_compute; reflexivity].
  apply (poller_iteration_refines ex_e1 ex_d2 false false false (ex_poll 200) _ _ POLL_NEXT_DURATION).
  - vm_compute. reflexivity.
  - reflexivity.
  - intros k calls err ex faults Hb. discriminate Hb.
  - intros host e m Hl Hrun _. exfalso. apply Hrun. apply lookup_insert_Some in Hl as [[_ <-]|[_ Hl]];
      [reflexivity|rewrite lookup_empty in Hl; discriminate].
  - vm_compute. reflexivity.
Defined.

(** A type with a delay after failures; task 2 has failed twice and waits, task 3 has an
    owner. *)
Definition ex_waiting : handler :=
  mkHandler (h_name ex_handler) (h_max ex_handler) (h_cost ex_handler) 3 (Some (fun n => n * 100)) false None false ∅.
Definition ex_e6 : engine unit := set_handler ex_e1 0 ex_waiting.
Definition ex_d6 : db unit :=
  with_tasks ex_d2 (<[2 := mkTask "Seal" None 1 None 100 150 2]> (<[3 := mkTask "Seal" (Some 1) 1 None 100 100 0]> (tasks ex_d2))).

Lemma poller_starts_ready_witness :
  let it := poller_iteration ex_e6 ex_d6 false false false (ex_poll 200) in
  map r_task (e_running it.1.1) = [1] /\ it.2 = POLL_NEXT_DURATION /\
  exists polled sch, e_running it.1.1 = polled /\ node_flag ex_e6 ex_d6 sch /\
    polled_ok ex_e6 (reaped ex_e6 ex_d6 (ex_poll 200)) sch (ex_poll 200) polled.
Proof.
  intros it. split; [vm_compute; reflexivity|]. assert (it.2 = POLL_NEXT_DURATION) as Hw by (vm_compute; reflexivity). split; [done|].
  destruct (poller_starts_ready ex_e6 ex_d6 false false false (ex_poll 200) it.1.1 it.1.2 it.2) as (polled & bored & Hr & Hn & Hp & _).
  - unfold it. by destruct (poller_iteration _ _ _ _ _ _) as [[? ?] ?].
  - intros k calls err ex faults Hb. discriminate Hb.
  - intros k from ids l. split; by intros [= <-].
  - destruct (Hp (proj1 Hn Hw)) as (-> & sch & Hf & Hok). rewrite app_nil_r in Hr. by exists polled, sch.
Defined.

Lemma cordoned_node_idle_witness :
  e_running (pollerTryAllWork ex_e1 ex_d2 false (ex_poll 200)).1.1 = [] /\
  length (e_running (pollerTryAllWork ex_e1 ex_d2 true (ex_poll 200)).1.1) = 1%nat.
Proof.
  split; [|vm_compute; reflexivity].
  destruct (cordoned_node_idle ex_e1 ex_d2 (ex_poll 200) _ _ _ eq_refl) as (_ & _ & Hr & _); [|exact Hr].
  intros [|k] h Hk; [|destruct k; discriminate Hk]. injection Hk as <-. reflexivity.
Defined.

(** Machines 1 (silent for eleven minutes) and 2, with a task each. *)
Definition ex_reap : db unit :=
  mkDB {[ 5 := mkTask "Seal" (Some 1) 1 None 0 0 0; 6 := mkTask "Seal" (Some 2) 1 None 0 0 0 ]} 7 [] []
    {[ 1 := mkMachine "a" 1 1 (f64_of_Z 0) 0 false None;
       2 := mkMachine "b" 1 1 (f64_of_Z 0) (11 * Minute) false None ]} 3 ∅ tt.

Lemma cleanup_reclaims_dead_work_witness :
  tasks (CleanupMachines ex_reap false (11 * Minute)).1 !! 6 = Some (mkTask "Seal" (Some 2) 1 None 0 0 0) /\
  tasks (CleanupMachines ex_reap false (11 * Minute)).1 !! 5 = Some (mkTask "Seal" None 1 None 0 0 0).
Proof.
  destruct (cleanup_reclaims_dead_work ex_reap (11 * Minute)) as (_ & Ht & _).
  - intros id r o Hr Ho. cbn in Hr.
    apply lookup_insert_Some in Hr as [[_ <-]|[_ Hr]]; [injection Ho as <-; by eexists|].
    apply lookup_singleton_Some in Hr as [_ <-]. injection Ho as <-. by eexists.
  - split.
    + apply (Ht 6); [reflexivity|]. intros o [= <-] (m & [= <-] & Hlt). vm_compute in Hlt. discriminate.
    + refine (proj1 (Ht 5 (mkTask "Seal" (Some 1) 1 None 0 0 0) _) 1 _ _); [reflexivity|reflexivity|]. eexists. split; [reflexivity|reflexivity].
Defined.

(** ** Singletons *)

Definition ex_sg0 : db unit := mkDB ∅ 1 [] [] ∅ 1 {[ "Seal" := mkSingleton None 0 true ]} tt.
Definition ex_sg1 : db unit := (AddTask ex_e1 ex_handler (singleton_extra "Seal" 50 10 None) [] ex_sg0 10).1.

Lemma singleton_extra_spec_witness :
  singletons (singleton_upsert (insert_task ex_sg0 "Seal" 1 10).1 "Seal" 1 10) !! "Seal" = Some (mkSingleton (Some 1) 10 false).
Proof.
  destruct (singleton_extra_spec "Seal" 50 10 1 (mkTask "Seal" None 1 None 10 10 0) (insert_task ex_sg0 "Seal" 1 10).1
    (singleton_upsert (insert_task ex_sg0 "Seal" 1 10).1 "Seal" 1 10)) as [_ Hd];
    [reflexivity|reflexivity|vm_compute; reflexivity|].
  rewrite Hd. reflexivity.
Defined.

Lemma singleton_at_most_one_witness : is_Some (tasks ex_sg1 !! 1) /\ 1 = 1.
Proof.
  split; [vm_compute; by eexists|].
  apply (singleton_at_most_one (ST := unit) "Seal" 50 ex_sg0 ex_sg1 1 (mkTask "Seal" None 1 None 10 10 0) 1
    (mkTask "Seal" None 1 None 10 10 0)); try (vm_compute; reflexivity).
  - intros id r Hid. vm_compute in Hid. discriminate.
  - apply rtc_once. apply (sg_add "Seal" 50 ex_e1 ex_handler [] ex_sg0 10 ex_sg1 [1]);
      vm_compute; reflexivity.
Defined.

Lemma run_now_honoured_witness :
  exists d' id, AddTask ex_e1 ex_handler (singleton_extra "Seal" 50 10 None) [] ex_sg0 10 = (d', [id]) /\
    singletons d' !! "Seal" = Some (mkSingleton (Some id) 10 false).
Proof.
  destruct (run_now_honoured "Seal" 50 {[ "Seal" := false ]} 9 10 ex_sg0 (mkSingleton None 0 true) ex_e1 ex_handler)
    as (fl' & ex & d' & id & Ha & Hadd & Hs & _); try reflexivity.
  - by eexists.
  - intros id r Hid. vm_compute in Hid. discriminate.
  - discriminate.
  - exists d', id. split; [|exact Hs]. vm_compute in Ha. injection Ha as _ <-. exact Hadd.
Defined.
