(* ===== verification/Sender.v ===== *)
(** * Message sending ([tasks/message/sender.go])

    Messages wait in [message_sends] for a send task.  The task takes the lock of
    the sending key in [message_send_locks], gives the message the next nonce,
    stores it signed, pushes it to the message pool and records the result; the
    lock is released by a deferred statement.  [Do] is cut at its statements and
    calls, so that the tasks of several nodes interleave and may die anywhere.

    A message is its nonce: the content never changes and the signed form adds
    the nonce.  The unique index of the schema
    ([harmony/harmonydb/sql/20231103-chain_sends.sql]) is part of the model:
    two rows of a key may have the same nonce only if one of them was refused. *)

From stdpp Require Import base gmap sets list strings.
From Stdlib Require Import ZArith Lia.
From S2P Require Import Prelude HarmonyDB.

(** ** The tables *)

Record send_row := mkSend {
  sr_from : string;            (* from_key *)
  sr_nonce : option Z;         (* nonce *)
  sr_signed : option Z;        (* signed_data: the nonce of the signed message *)
  sr_success : option bool     (* send_success *)
}.

#[export] Instance send_row_eq_dec : EqDecision send_row.
Proof. solve_decision. Defined.

Abbreviation send_table := (gmap Z send_row).

(** The rows of [message_sends_success_index]. *)
Definition indexed (r : send_row) : bool := bool_decide (sr_success r <> Some false).

(** [UPDATE message_sends ... WHERE send_task_id = $t], refused by the unique
    index and, for a nonce that is no [bigint], by its column. *)
Definition update_send (t : TaskID) (r' : send_row) (rows : send_table) : option send_table :=
  match sr_nonce r' with
  | None => Some (<[t := r']> rows)
  | Some n =>
      if bool_decide (2 ^ 63 <= n) then None
      else if indexed r' &&
              existsb (fun p => negb (p.1 =? t) && indexed p.2 && bool_decide (sr_from p.2 = sr_from r') &&
                                bool_decide (sr_nonce p.2 = Some n)) (map_to_list rows)
      then None
      else Some (<[t := r']> rows)
  end.

(** [SELECT MAX(nonce) ... WHERE from_key = $1 AND send_success = true] *)
Definition max_opt (a b : option Z) : option Z :=
  match a, b with Some x, Some y => Some (Z.max x y) | Some x, None => Some x | None, _ => b end.

Definition max_nonce (from : string) (rows : send_table) : option Z :=
  foldr (fun p acc =>
    if bool_decide (sr_from p.2 = from) && bool_decide (sr_success p.2 = Some true)
    then max_opt (sr_nonce p.2) acc else acc) None (map_to_list rows).

(** [INSERT INTO message_send_locks ... ON CONFLICT ... WHERE task_id = $2]: the
    table and the number of rows. *)
Definition take_lock (from : string) (t : TaskID) (locks : gmap string Z) : gmap string Z * Z :=
  match locks !! from with
  | Some t' => if t' =? t then (locks, 1) else (locks, 0)
  | None => (<[from := t]> locks, 1)
  end.

(** [DELETE from message_send_locks WHERE from_key = $1 AND task_id = $2] *)
Definition release_lock (from : string) (t : TaskID) (locks : gmap string Z) : gmap string Z :=
  match locks !! from with
  | Some t' => if t' =? t then delete from locks else locks
  | None => locks
  end.

(** The nonce of a message: the one of the pool or the one after the last one
    recorded as sent. *)
Definition next_nonce (msgNonce : Z) (dbNonce : option Z) : Z :=
  match dbNonce with
  | Some n => if u64 (n + 1) >? msgNonce then u64 (n + 1) else msgNonce
  | None => msgNonce
  end.

(** ** [SendTask.Do] *)

(** Where a run of [Do] is. *)
Inductive pc :=
| AcquireLock (nonce signed : option Z)   (* the row was read; before the lock *)
| GetMpoolNonce                           (* locked, no nonce was assigned *)
| GetDbNonce (msgNonce : Z)
| SignAndStore (msgNonce : Z)
| Push (nonce : Z)
| Persist (nonce : Z) (sendSuccess : bool)
| Release (done_ err : bool).             (* the deferred release *)

(** What the environment answers: a statement or call works, or fails with or
    without having taken effect; the task is no longer owned; the nonce of the
    pool; the outcome of the push for the caller and for the pool. *)
Inductive answer :=
| Works
| Fails (applied : bool)
| NotOwned
| MpoolNonce (n : Z)
| PushResult (accepted ok : bool).

Record sender := mkSender {
  rows : send_table;                 (* message_sends *)
  locks : gmap string Z;             (* message_send_locks *)
  running : gmap Z pc;               (* the runs of Do, on any node *)
  pool : list (string * Z * Z)       (* messages the pool accepted: key, nonce, task *)
}.

Definition at_pc (t : TaskID) (p : pc) (s : sender) : sender :=
  mkSender (rows s) (locks s) (<[t := p]> (running s)) (pool s).

(** [Do] returns [(done, err)]. *)
Definition returns (t : TaskID) (s : sender) : sender :=
  mkSender (rows s) (locks s) (delete t (running s)) (pool s).

(** [SELECT ... FROM message_sends WHERE send_task_id = $1] *)
Definition Do_read (t : TaskID) (a : answer) (s : sender) : sender :=
  match a, rows s !! t with
  | Works, Some r => at_pc t (AcquireLock (sr_nonce r) (sr_signed r)) s
  | _, _ => s
  end.

(** One iteration of the loop for the lock, and the choice that follows it: the
    result is the point where [Do] goes on, [None] when it returns an error. *)
Definition Do_lock (t : TaskID) (r : send_row) (nonce signed : option Z) (a : answer) (s : sender)
    : sender * option pc :=
  match a with
  | NotOwned => (s, None)
  | Fails applied =>
      (if applied then mkSender (rows s) (take_lock (sr_from r) t (locks s)).1 (running s) (pool s) else s, None)
  | _ =>
      let '(l, cn) := take_lock (sr_from r) t (locks s) in
      let s := mkSender (rows s) l (running s) (pool s) in
      if cn =? 1 then
        match nonce, signed with
        | None, _ => (s, Some GetMpoolNonce)
        | Some _, Some n => (s, Some (Push n))
        | Some _, None => (s, Some (Release false true))
        end
      else (s, Some (AcquireLock nonce signed))
  end.

(** Signs and stores the message; a failing statement may have been applied. *)
Definition Do_sign (t : TaskID) (r : send_row) (msgNonce : Z) (a : answer) (s : sender) : sender * pc :=
  let rows' := update_send t (mkSend (sr_from r) (Some msgNonce) (Some msgNonce) (sr_success r)) (rows s) in
  let stored := match rows' with Some rs => mkSender rs (locks s) (running s) (pool s) | None => s end in
  match a with
  | Works => match rows' with Some _ => (stored, Push msgNonce) | None => (s, Release false true) end
  | Fails true => (stored, Release false true)
  | _ => (s, Release false true)
  end.

(** Stores the result of the push. *)
Definition Do_persist (t : TaskID) (r : send_row) (sendSuccess : bool) (a : answer) (s : sender) : sender * pc :=
  let rows' := update_send t (mkSend (sr_from r) (sr_nonce r) (sr_signed r) (Some sendSuccess)) (rows s) in
  let stored := match rows' with Some rs => mkSender rs (locks s) (running s) (pool s) | None => s end in
  match a with
  | Works => match rows' with Some _ => (stored, Release true false) | None => (s, Release false true) end
  | Fails true => (stored, Release false true)
  | _ => (s, Release false true)
  end.

(** The deferred release: a failure makes [Do] return an error. *)
Definition Do_release (t : TaskID) (r : send_row) (done_ err : bool) (a : answer) (s : sender)
    : sender * (bool * bool) :=
  let released := mkSender (rows s) (release_lock (sr_from r) t (locks s)) (running s) (pool s) in
  match a with
  | Works => (released, (done_, err))
  | Fails true => (released, (false, true))
  | _ => (s, (false, true))
  end.

(** One step of a run of [Do] of the task, with what [Do] returns if it ends. *)
Definition Do (t : TaskID) (a : answer) (s : sender) : option (sender * option (bool * bool)) :=
  match running s !! t, rows s !! t with
  | Some p, Some r =>
      Some match p with
      | AcquireLock nonce signed =>
          match Do_lock t r nonce signed a s with
          | (s', Some p') => (at_pc t p' s', None)
          | (s', None) => (returns t s', Some (false, true))
          end
      | GetMpoolNonce =>
          match a with
          | MpoolNonce n => (at_pc t (GetDbNonce n) s, None)
          | _ => (at_pc t (Release false true) s, None)
          end
      | GetDbNonce n =>
          match a with
          | Works => (at_pc t (SignAndStore (next_nonce n (max_nonce (sr_from r) (rows s)))) s, None)
          | _ => (at_pc t (Release false true) s, None)
          end
      | SignAndStore n => let '(s', p') := Do_sign t r n a s in (at_pc t p' s', None)
      | Push n =>
          let '(accepted, ok) := match a with PushResult acc ok => (acc, ok) | _ => (false, false) end in
          let pool' := if accepted : bool then (sr_from r, n, t) :: pool s else pool s in
          (at_pc t (Persist n ok) (mkSender (rows s) (locks s) (running s) pool'), None)
      | Persist n ok => let '(s', p') := Do_persist t r ok a s in (at_pc t p' s', None)
      | Release d e =>
          let '(s', res) := Do_release t r d e a s in (returns t s', Some res)
      end
  | _, _ => None
  end.

(** [CanAccept] *)
Definition CanAccept (signer : bool) (ids : list TaskID) : list TaskID :=
  match ids with
  | [] => []
  | _ => if negb signer then [] else ids
  end.

(** [TypeDetails().RetryWait] *)
Definition RetryWait (retries : Z) : duration := Z.min (i64 (Second * retries)) (i64 (Second * 10)).

(** ** All nodes together *)

(** What the pool promises: a message it accepted is below the next nonce it
    gives, unless the message is recorded as sent (the pool may lose those). *)
Definition pool_ahead (from : string) (m : Z) (s : sender) : Prop :=
  forall n t, (from, n, t) ∈ pool s ->
    n < m \/ exists r, rows s !! t = Some r /\ sr_success r = Some true.

Definition honest (t : TaskID) (a : answer) (s : sender) : Prop :=
  match a with
  | MpoolNonce m =>
      0 <= m /\ forall r, rows s !! t = Some r -> pool_ahead (sr_from r) m s
  | _ => True
  end.

(** The refusal of the message is recorded and the lock of its key is not the task's
    any more: all that is left of the task is to record its completion. *)
Definition refused_and_released (t : TaskID) (s : sender) : bool :=
  match rows s !! t with
  | Some r => bool_decide (sr_success r = Some false) && bool_decide (locks s !! sr_from r <> Some t)
  | None => false
  end.

(** The history of the tasks that the engine ran again in that situation, which it
    does when a node dies before the completion is recorded, or when the release
    reports an error. *)
Definition note_rerun (t : TaskID) (s : sender) (reruns : gset Z) : gset Z :=
  if refused_and_released t s then {[ t ]} ∪ reruns else reruns.

(** A state with that history; a task has one run at a time. *)
Inductive sender_step : sender * gset Z -> sender * gset Z -> Prop :=
| ss_insert t from s R :                     (* Send *)
    rows s !! t = None ->
    sender_step (s, R) (mkSender (<[t := mkSend from None None None]> (rows s)) (locks s) (running s) (pool s), R)
| ss_start t a s R : running s !! t = None -> sender_step (s, R) (Do_read t a s, note_rerun t s R)
| ss_do t a s s' res R : honest t a s -> Do t a s = Some (s', res) -> sender_step (s, R) (s', R)
| ss_die t s R : sender_step (s, R) (returns t s, R).

Definition no_messages : sender * gset Z := (mkSender ∅ ∅ ∅ [], ∅).

(** ** Statements *)

Lemma max_opt_ge a b n m : max_opt a b = Some m -> a = Some n \/ b = Some n -> n <= m.
Proof. destruct a, b; intros [= <-] [[= ->]|[= ->]]; lia. Qed.

Lemma max_opt_some a b : max_opt a b = a \/ max_opt a b = b.
Proof. destruct a as [x|], b as [y|]; cbn; try tauto. destruct (Z.max_spec x y) as [[_ ->]|[_ ->]]; tauto. Qed.

(** [MAX] is an upper bound, and the nonce of such a row. *)
Lemma max_nonce_spec from (rs : send_table) :
  (forall t r n, rs !! t = Some r -> sr_from r = from -> sr_success r = Some true -> sr_nonce r = Some n ->
     exists m, max_nonce from rs = Some m /\ n <= m) /\
  (forall m, max_nonce from rs = Some m -> exists t r, rs !! t = Some r /\ sr_from r = from /\
     sr_success r = Some true /\ sr_nonce r = Some m).
Proof.
  assert (forall t r, (t, r) ∈ map_to_list rs <-> rs !! t = Some r) as Hel by (intros; apply elem_of_map_to_list).
  unfold max_nonce. setoid_rewrite <- Hel. clear Hel. induction (map_to_list rs) as [|[t r] l IH]; cbn.
  - split; [intros t r n Hx; by apply not_elem_of_nil in Hx|done].
  - destruct IH as [IH1 IH2]. setoid_rewrite elem_of_cons. destruct (_ && _) eqn:E.
    + apply andb_true_iff in E as [Ef Es]. apply bool_decide_eq_true in Ef, Es. split.
      * intros t' r' n [[= -> ->]|Hin] Hf Hs Hn.
        -- rewrite Hn. destruct (foldr _ _ l) as [y|]; cbn; eexists; (split; [done|lia]).
        -- destruct (IH1 t' r' n Hin Hf Hs Hn) as (m & -> & Hle).
           destruct (sr_nonce r); cbn; eexists; (split; [done|lia]).
      * intros m Hm. destruct (max_opt_some (sr_nonce r) (foldr (fun p acc => if bool_decide (sr_from p.2 = from) &&
          bool_decide (sr_success p.2 = Some true) then max_opt (sr_nonce p.2) acc else acc) None l)) as [E|E];
          rewrite E in Hm; [by exists t, r; eauto 6|]. destruct (IH2 m Hm) as (t' & r' & ? & ?). eauto 6.
    + split.
      * intros t' r' n [[= -> ->]|Hin] Hf Hs Hn; [|eauto].
        rewrite !bool_decide_eq_true_2 in E by done. done.
      * intros m Hm. destruct (IH2 m Hm) as (t' & r' & ? & ?). eauto 6.
Qed.

Lemma update_send_spec t r' rs rs' : update_send t r' rs = Some rs' ->
  rs' = <[t := r']> rs /\
  forall n, sr_nonce r' = Some n -> n < 2 ^ 63 /\
    (indexed r' = true -> forall u r, u <> t -> rs !! u = Some r -> sr_from r = sr_from r' -> sr_nonce r = Some n ->
       indexed r = false).
Proof.
  unfold update_send. destruct (sr_nonce r') as [n|]; [|by intros [= <-]].
  case_bool_decide; [done|]. destruct (_ && _) eqn:E; [done|]. intros [= <-]. split; [done|].
  intros ? [= <-]. split; [lia|]. intros Hi u r Hu Hr Hf Hn. rewrite Hi in E. cbn in E.
  destruct (indexed r) eqn:Er; [|done]. exfalso.
  assert (existsb (fun p : Z * send_row => negb (p.1 =? t) && indexed p.2 && bool_decide (sr_from p.2 = sr_from r') &&
    bool_decide (sr_nonce p.2 = Some n)) (map_to_list rs) = true) as E'; [|by rewrite E in E'].
  apply existsb_exists. exists (u, r). split; [by apply list_elem_of_In, elem_of_map_to_list|].
  cbn. rewrite Er, !bool_decide_eq_true_2 by done. by rewrite (proj2 (Z.eqb_neq u t) Hu).
Qed.

Lemma take_lock_spec from t ls : 
  (forall f u, u <> t -> (take_lock from t ls).1 !! f = Some u <-> ls !! f = Some u) /\
  ((take_lock from t ls).2 = 1 -> (take_lock from t ls).1 !! from = Some t) /\
  (forall f, (take_lock from t ls).1 !! f = Some t -> ls !! f = Some t \/ f = from) /\
  (forall f, ls !! f = Some t -> (take_lock from t ls).1 !! f = Some t).
Proof.
  unfold take_lock. destruct (ls !! from) as [t'|] eqn:E.
  - destruct (t' =? t) eqn:Et; cbn.
    + apply Z.eqb_eq in Et as ->. naive_solver.
    + naive_solver.
  - cbn. split_and!.
    + intros f u Hu. destruct (decide (f = from)) as [->|Hf]; [rewrite lookup_insert_eq; naive_solver|].
      by rewrite lookup_insert_ne by done.
    + intros _. apply lookup_insert_eq.
    + intros f. destruct (decide (f = from)) as [->|Hf]; [tauto|]. rewrite lookup_insert_ne by done. tauto.
    + intros f Hf. destruct (decide (f = from)) as [->|Hf']; [by rewrite lookup_insert_eq|]. by rewrite lookup_insert_ne.
Qed.

Lemma release_lock_spec from t ls f u : u <> t -> release_lock from t ls !! f = Some u <-> ls !! f = Some u.
Proof.
  intros Hu. unfold release_lock. destruct (ls !! from) as [t'|] eqn:E; [|done].
  destruct (t' =? t) eqn:Et; [|done]. apply Z.eqb_eq in Et as ->.
  destruct (decide (f = from)) as [->|Hf]; [rewrite lookup_delete_eq; naive_solver|]. by rewrite lookup_delete_ne by done.
Qed.

Lemma release_lock_own from t ls f : release_lock from t ls !! f = Some t -> ls !! f = Some t.
Proof.
  unfold release_lock. destruct (ls !! from) as [t'|] eqn:E; [|done].
  destruct (t' =? t) eqn:Et; [|done]. destruct (decide (f = from)) as [->|Hf]; [by rewrite lookup_delete_eq|].
  by rewrite lookup_delete_ne by done.
Qed.

(** ** The invariant *)

Section Invariant.
(** The tasks that were run again after their refusal. *)
Context (R : gset Z).

Definition holding (p : pc) : bool := match p with AcquireLock _ _ => false | _ => true end.

(** What is known of the row of a task at each point of its run. *)
Definition pc_ok (t : TaskID) (r : send_row) (p : pc) (s : sender) : Prop :=
  match p with
  | AcquireLock n sg => sr_nonce r = n /\ sr_signed r = sg /\
      (t ∉ R -> sr_success r = Some false -> locks s !! sr_from r = Some t)
  | GetMpoolNonce => sr_nonce r = None
  | GetDbNonce m => sr_nonce r = None /\ 0 <= m /\ pool_ahead (sr_from r) m s
  | SignAndStore n => sr_nonce r = None /\ 0 <= n /\ forall n' t', (sr_from r, n', t') ∈ pool s -> n' < n
  | Push n | Persist n _ => sr_nonce r = Some n
  | Release _ _ => True
  end.

Definition run_ok (t : TaskID) (p : pc) (s : sender) : Prop :=
  exists r, rows s !! t = Some r /\ (holding p = true -> locks s !! sr_from r = Some t) /\ pc_ok t r p s.

Definition row_ok (r : send_row) : Prop :=
  sr_signed r = sr_nonce r /\ (forall n, sr_nonce r = Some n -> 0 <= n < 2 ^ 63) /\
  (sr_nonce r = None -> sr_success r = None).

(** A task claims the nonce of its message if the message is out or may still be
    sent. *)
Definition claims (f : string) (n : Z) (t : TaskID) (s : sender) : Prop :=
  (t ∉ R) /\
  ((f, n, t) ∈ pool s \/
   exists r, rows s !! t = Some r /\ sr_from r = f /\ sr_nonce r = Some n /\
     (sr_success r = Some false -> locks s !! f = Some t)).

(** [message_sends_success_index] *)
Definition index_ok (rs : send_table) : Prop :=
  forall t u r x n, rs !! t = Some r -> rs !! u = Some x -> sr_from r = sr_from x ->
    sr_nonce r = Some n -> sr_nonce x = Some n -> indexed r = true -> indexed x = true -> t = u.

Record sender_ok (s : sender) : Prop := {
  so_rows : forall t r, rows s !! t = Some r -> row_ok r;
  so_runs : forall t p, running s !! t = Some p -> run_ok t p s;
  so_pool : forall f n t, (f, n, t) ∈ pool s ->
    exists r, rows s !! t = Some r /\ sr_from r = f /\ sr_nonce r = Some n;
  so_claims : forall f n t u, claims f n t s -> claims f n u s -> t = u;
  so_index : index_ok (rows s)
}.

(** Every step of a task has this frame: it touches its own row, lock and run,
    and the pool and its row only under the lock. *)
Record frame (t : TaskID) (r r' : send_row) (s s' : sender) : Prop := {
  fr_row : rows s !! t = Some r;
  fr_row' : rows s' !! t = Some r';
  fr_rows : forall u, u <> t -> rows s' !! u = rows s !! u;
  fr_from : sr_from r' = sr_from r;
  fr_nonce : forall n, sr_nonce r = Some n -> sr_nonce r' = Some n;
  fr_locks : forall f u, u <> t -> locks s' !! f = Some u <-> locks s !! f = Some u;
  fr_runs : forall u, u <> t -> running s' !! u = running s !! u;
  fr_pool_keep : forall x, x ∈ pool s -> x ∈ pool s';
  fr_pool : forall f n u, (f, n, u) ∈ pool s' -> (f, n, u) ∈ pool s \/ f = sr_from r /\ u = t /\ sr_nonce r' = Some n;
  fr_locked : (r' = r /\ pool s' = pool s) \/ locks s !! sr_from r = Some t;
  fr_index : r' = r \/ forall n, sr_nonce r' = Some n -> indexed r' = true ->
    forall u x, u <> t -> rows s !! u = Some x -> sr_from x = sr_from r' -> sr_nonce x = Some n -> indexed x = false
}.

Lemma frame_index t r r' s s' : frame t r r' s s' -> index_ok (rows s) -> index_ok (rows s').
Proof.
  intros F I u v x y n Hx Hy Hf Hn Hn' Hi Hi'.
  assert (forall w z m, w <> t -> rows s' !! w = Some z -> sr_from z = sr_from r' -> sr_nonce z = Some m -> sr_nonce r' = Some m ->
    indexed r' = true -> indexed z = true -> False) as Hno.
  { intros w z m Hw Hz Hfz Hmz Hm Hi1 Hi2. rewrite (fr_rows _ _ _ _ _ F) in Hz by done. destruct (fr_index _ _ _ _ _ F) as [->|Hidx].
    - by apply Hw, (I w t z r m Hz (fr_row _ _ _ _ _ F)).
    - by rewrite (Hidx m Hm Hi1 w z Hw Hz Hfz Hmz) in Hi2. }
  destruct (decide (u = t)) as [->|Hu], (decide (v = t)) as [->|Hv]; [done|..].
  - rewrite (fr_row' _ _ _ _ _ F) in Hx. injection Hx as <-. by destruct (Hno v y n).
  - rewrite (fr_row' _ _ _ _ _ F) in Hy. injection Hy as <-. by destruct (Hno u x n).
  - rewrite (fr_rows _ _ _ _ _ F) in Hx, Hy by done. by apply (I u v x y n).
Qed.

Lemma frame_claims t r r' s s' f n u : frame t r r' s s' -> u <> t -> claims f n u s' -> claims f n u s.
Proof.
  intros F Hu [HR [Hp|(x & Hx & Hf & Hn & Hl)]]; (split; [done|]).
  - destruct (fr_pool _ _ _ _ _ F _ _ _ Hp) as [?|(_ & ? & _)]; [by left|done].
  - rewrite (fr_rows _ _ _ _ _ F) in Hx by done. right. exists x. split_and!; try done.
    intros Hs. by apply (fr_locks _ _ _ _ _ F); auto.
Qed.

(** A run of another task is not disturbed. *)
Lemma frame_run t r r' s s' u p : sender_ok s -> frame t r r' s s' -> u <> t -> run_ok u p s -> run_ok u p s'.
Proof.
  intros I F Hu (x & Hx & Hl & Hp). exists x. split; [by rewrite (fr_rows _ _ _ _ _ F)|].
  split; [intros Hh; apply (fr_locks _ _ _ _ _ F); auto|].
  assert (holding p = true -> forall n v, (sr_from x, n, v) ∈ pool s' -> (sr_from x, n, v) ∈ pool s) as Hpool.
  { intros Hh n v Hin. destruct (fr_locked _ _ _ _ _ F) as [[_ <-]|Hlt]; [done|].
    destruct (fr_pool _ _ _ _ _ F _ _ _ Hin) as [?|(Hf & _)]; [done|].
    specialize (Hl Hh). rewrite Hf in Hl. congruence. }
  destruct p as [n sg| |m|n|n|n b|d e]; cbn in Hp |- *; try done.
  - destruct Hp as (? & ? & Hs). split_and!; [done..|]. intros HR Hf. apply (fr_locks _ _ _ _ _ F); auto.
  - destruct Hp as (? & ? & Ha). split_and!; [done..|]. intros n v Hin.
    destruct (Ha n v (Hpool eq_refl _ _ Hin)) as [?|(y & Hy & Hs)]; [by left|]. right.
    destruct (decide (v = t)) as [->|Hv]; [|exists y; by rewrite (fr_rows _ _ _ _ _ F)].
    destruct (fr_locked _ _ _ _ _ F) as [[-> _]|Hlt].
    + exists r. rewrite (fr_row _ _ _ _ _ F) in Hy. injection Hy as <-. split; [apply (fr_row' _ _ _ _ _ F)|done].
    + exfalso. destruct (so_pool _ I _ _ _ (Hpool eq_refl _ _ Hin)) as (z & Hz & Hf & _).
      rewrite (fr_row _ _ _ _ _ F) in Hz. injection Hz as <-. specialize (Hl eq_refl). rewrite <- Hf in Hl. congruence.
  - destruct Hp as (? & ? & Ha). split_and!; [done..|]. eauto.
Qed.

(** A step within the frame keeps the invariant if the row and the run of the
    task are right and it claims no nonce that another task claims. *)
Lemma frame_ok t r r' s s' : sender_ok s -> frame t r r' s s' -> row_ok r' ->
  (forall p, running s' !! t = Some p -> run_ok t p s') ->
  (forall n u, claims (sr_from r) n t s' -> claims (sr_from r) n t s \/ ~ (u <> t /\ claims (sr_from r) n u s)) ->
  sender_ok s'.
Proof.
  intros I F Hr' Hrun Hcl.
  assert (forall f n u, claims f n t s' -> u <> t -> claims f n u s' -> False) as Hno.
  { intros f n u Ht Hu Hc. pose proof (frame_claims _ _ _ _ _ _ _ _ F Hu Hc) as Hc0.
    assert (f = sr_from r) as ->.
    { destruct Ht as [_ [Hp|(x & Hx & <- & _)]].
      - destruct (fr_pool _ _ _ _ _ F _ _ _ Hp) as [Hp0|(? & _)]; [|done].
        destruct (so_pool _ I _ _ _ Hp0) as (z & Hz & <- & _). rewrite (fr_row _ _ _ _ _ F) in Hz. by injection Hz as <-.
      - rewrite (fr_row' _ _ _ _ _ F) in Hx. injection Hx as <-. apply (fr_from _ _ _ _ _ F). }
    destruct (Hcl n u Ht) as [Ht0|Hn]; [|by apply Hn]. by apply Hu, (so_claims _ I (sr_from r) n). }
  constructor.
  - intros u x Hx. destruct (decide (u = t)) as [->|Hu].
    + rewrite (fr_row' _ _ _ _ _ F) in Hx. by injection Hx as <-.
    + rewrite (fr_rows _ _ _ _ _ F) in Hx by done. by eapply so_rows.
  - intros u p Hp. destruct (decide (u = t)) as [->|Hu]; [auto|].
    rewrite (fr_runs _ _ _ _ _ F) in Hp by done. eapply frame_run; eauto. by eapply so_runs.
  - intros f n u Hp. destruct (fr_pool _ _ _ _ _ F _ _ _ Hp) as [Hp0|(-> & -> & Hn)].
    + destruct (so_pool _ I _ _ _ Hp0) as (x & Hx & Hf & Hn). destruct (decide (u = t)) as [->|Hu].
      * rewrite (fr_row _ _ _ _ _ F) in Hx. injection Hx as <-. exists r'. split; [apply (fr_row' _ _ _ _ _ F)|].
        rewrite (fr_from _ _ _ _ _ F). split; [done|]. by apply (fr_nonce _ _ _ _ _ F).
      * exists x. by rewrite (fr_rows _ _ _ _ _ F).
    + exists r'. split; [apply (fr_row' _ _ _ _ _ F)|]. split; [apply (fr_from _ _ _ _ _ F)|done].
  - intros f n u v Hu Hv. destruct (decide (u = t)) as [->|Hut], (decide (v = t)) as [->|Hvt]; [done|..].
    + exfalso. by eapply (Hno f n v).
    + exfalso. by eapply (Hno f n u).
    + eapply (so_claims _ I f n); by eapply frame_claims.
  - eapply frame_index; [exact F|]. apply (so_index _ I).
Qed.

(** ** The steps keep the invariant *)

(** The frame of a step that changes the locks and the run only. *)
Lemma lock_frame t r s ls rn : rows s !! t = Some r ->
  (forall f u, u <> t -> ls !! f = Some u <-> locks s !! f = Some u) ->
  (forall u, u <> t -> rn !! u = running s !! u) ->
  frame t r r s (mkSender (rows s) ls rn (pool s)).
Proof. intros Hr Hl Hn. constructor; cbn; auto. Qed.

Lemma lock_step_ok t r s ls rn : sender_ok s -> rows s !! t = Some r ->
  (forall f u, u <> t -> ls !! f = Some u <-> locks s !! f = Some u) ->
  (forall u, u <> t -> rn !! u = running s !! u) ->
  (t ∉ R -> sr_success r = Some false -> ls !! sr_from r = Some t -> locks s !! sr_from r = Some t) ->
  (forall p, rn !! t = Some p -> run_ok t p (mkSender (rows s) ls rn (pool s))) ->
  sender_ok (mkSender (rows s) ls rn (pool s)).
Proof.
  intros I Hr Hl Hn Hs Hp. eapply (frame_ok t r r s); [done|by apply lock_frame|by eapply so_rows|done|].
  intros n u Hc. left. destruct Hc as [HR [Hc|(x & Hx & Hf & Hn' & Hl')]]; (split; [done|]); [by left|]. right. cbn in Hx, Hl'.
  rewrite Hr in Hx. injection Hx as <-. exists r. split_and!; auto.
Qed.

(** A step that only moves the run on. *)
Lemma at_pc_ok t p s : sender_ok s -> run_ok t p s -> sender_ok (at_pc t p s).
Proof.
  intros I (r & Hr & Hh & Hp). apply (lock_step_ok t r); [done..| |done|].
  - intros u Hu. by rewrite lookup_insert_ne.
  - intros p'. rewrite lookup_insert_eq. intros [= <-]. by exists r.
Qed.

Lemma returns_ok t s : sender_ok s -> sender_ok (returns t s).
Proof.
  intros I. destruct (running s !! t) as [p|] eqn:E.
  - destruct (so_runs _ I _ _ E) as (r & Hr & _). apply (lock_step_ok t r); [done..| |done|].
    + intros u Hu. by rewrite lookup_delete_ne.
    + intros p'. by rewrite lookup_delete_eq.
  - unfold returns. rewrite delete_id by done. by destruct s.
Qed.

Lemma running_row t p s r : sender_ok s -> running s !! t = Some p -> rows s !! t = Some r ->
  (holding p = true -> locks s !! sr_from r = Some t) /\ pc_ok t r p s.
Proof. intros I Hp Hr. destruct (so_runs _ I _ _ Hp) as (x & Hx & ?). rewrite Hr in Hx. by injection Hx as <-. Qed.

Lemma locks_run_swap t p rs ls rn pl : run_ok t p (mkSender rs ls rn pl) -> forall rn', run_ok t p (mkSender rs ls rn' pl).
Proof. done. Qed.

Lemma Do_lock_ok t r nonce signed a s s' o : sender_ok s -> rows s !! t = Some r ->
  running s !! t = Some (AcquireLock nonce signed) -> Do_lock t r nonce signed a s = (s', o) ->
  sender_ok (match o with Some p => at_pc t p s' | None => returns t s' end).
Proof.
  intros I Hr Hrun E. destruct (running_row _ _ _ _ I Hrun Hr) as [_ Hpc]. cbn in Hpc.
  destruct Hpc as (Hn & Hsg & Hs).
  pose proof (take_lock_spec (sr_from r) t (locks s)) as (Hl1 & Hl2 & _ & Hl4).
  assert (forall rn, (forall u, u <> t -> rn !! u = running s !! u) ->
    (forall p, rn !! t = Some p -> run_ok t p (mkSender (rows s) (take_lock (sr_from r) t (locks s)).1 rn (pool s))) ->
    sender_ok (mkSender (rows s) (take_lock (sr_from r) t (locks s)).1 rn (pool s))) as Hstep.
  { intros rn Hu Hp. apply (lock_step_ok t r); auto. }
  unfold Do_lock in E. destruct (take_lock (sr_from r) t (locks s)) as [l cn] eqn:Etl. cbn in *.
  assert (match (if cn =? 1 then match nonce, signed with
            | None, _ => Some GetMpoolNonce | Some _, Some n => Some (Push n)
            | Some _, None => Some (Release false true) end else Some (AcquireLock nonce signed)) with
          | Some p => sender_ok (at_pc t p (mkSender (rows s) l (running s) (pool s)))
          | None => True end) as Hgo.
  { destruct (cn =? 1) eqn:Ecn.
    - apply Z.eqb_eq in Ecn. destruct nonce as [n|]; [destruct signed as [n'|]|]; apply Hstep; cbn;
        try (intros u Hu; by rewrite lookup_insert_ne); intros p; rewrite lookup_insert_eq; intros [= <-];
        exists r; split_and!; auto; cbn; try done.
      destruct (so_rows _ I _ _ Hr) as [Hsn _]. congruence.
    - apply Hstep; cbn; [intros u Hu; by rewrite lookup_insert_ne|]. intros p. rewrite lookup_insert_eq.
      intros [= <-]. exists r. split_and!; [done|done|]. cbn. auto. }
  destruct a as [|[]| |m|acc ok]; cbn in E; try (destruct (cn =? 1); [destruct nonce as [|]; [destruct signed as [|]|]|]; injection E as <- <-; exact Hgo).
  - injection E as <- <-. apply Hstep; cbn; [intros u Hu; by rewrite lookup_delete_ne|]. intros p. by rewrite lookup_delete_eq.
  - injection E as <- <-. by apply returns_ok.
  - injection E as <- <-. by apply returns_ok.
Qed.

Lemma Do_release_ok t r d e a s s' res : sender_ok s -> rows s !! t = Some r ->
  Do_release t r d e a s = (s', res) -> sender_ok (returns t s').
Proof.
  intros I Hr E.
  assert (sender_ok (returns t (mkSender (rows s) (release_lock (sr_from r) t (locks s)) (running s) (pool s)))) as Hrel.
  { apply (lock_step_ok t r s); [done|done| | | |].
    - intros f u Hu. by apply release_lock_spec.
    - intros u Hu. by rewrite lookup_delete_ne.
    - intros _ _. apply release_lock_own.
    - intros p. cbn. by rewrite lookup_delete_eq. }
  unfold Do_release in E. destruct a as [|[]| | |]; injection E as <- <-; (exact Hrel || by apply returns_ok).
Qed.

Lemma Do_sign_ok t r n a s s' p : sender_ok s -> rows s !! t = Some r -> running s !! t = Some (SignAndStore n) ->
  Do_sign t r n a s = (s', p) -> sender_ok (at_pc t p s').
Proof.
  intros I Hr Hrun E. destruct (running_row _ _ _ _ I Hrun Hr) as [Hl (Hn & Hpos & Hpool)]. specialize (Hl eq_refl).
  assert (forall d e, sender_ok (at_pc t (Release d e) s)) as Hrel.
  { intros d e. apply at_pc_ok; [done|]. exists r. by split_and!. }
  unfold Do_sign in E. set (r' := mkSend _ _ _ _) in E. destruct (update_send t r' (rows s)) as [rs|] eqn:Eu.
  2:{ destruct a as [|[]| | |]; injection E as <- <-; apply Hrel. }
  apply update_send_spec in Eu as [-> Hu]. destruct (Hu n eq_refl) as [Hlt Hidx]. clear Hu.
  assert (forall p, p = Push n \/ p = Release false true ->
    sender_ok (at_pc t p (mkSender (<[t := r']> (rows s)) (locks s) (running s) (pool s)))) as Hst.
  { intros q Hq. eapply (frame_ok t r r' s); [done| | | |].
    - constructor; cbn; auto; try done.
      + by rewrite lookup_insert_eq.
      + intros u Hu. by rewrite lookup_insert_ne.
      + intros m Hm. by rewrite Hn in Hm.
      + intros u Hu. by rewrite lookup_insert_ne.
      + right. intros m [= <-] Hi. by apply Hidx.
    - split_and!; [done| |done]. intros m [= <-]. lia.
    - cbn. intros p'. rewrite lookup_insert_eq. intros [= <-]. exists r'. cbn. rewrite lookup_insert_eq.
      destruct Hq as [->| ->]; split_and!; auto; done.
    - intros m u Hct. assert (m = n) as ->.
      { destruct Hct as [_ [Hp|(x & Hx & _ & Hxn & _)]]; cbn in *.
        - destruct (so_pool _ I _ _ _ Hp) as (x & Hx & _ & Hxn). congruence.
        - rewrite lookup_insert_eq in Hx. injection Hx as <-. by injection Hxn as <-. }
      right. intros [Hu [_ [Hp|(x & Hx & Hf & Hxn & Hxl)]]].
      + apply Hpool in Hp. lia.
      + assert (sr_success r <> Some false -> indexed x = false) as Hi.
        { intros Hs. eapply (Hidx ltac:(by apply bool_decide_eq_true_2)); eauto. }
        destruct (decide (sr_success x = Some false)) as [Hxs|Hxs]; [specialize (Hxl Hxs); congruence|].
        unfold indexed in Hi. rewrite bool_decide_eq_true_2 in Hi by done.
        destruct (so_rows _ I _ _ Hr) as (_ & _ & Hnone). rewrite (Hnone Hn) in Hi. by discriminate Hi. }
  destruct a as [|[]| | |]; injection E as <- <-; auto.
Qed.

(** A task that holds its lock and has a nonce already claims it. *)
Lemma locked_claims t r n s : t ∉ R -> rows s !! t = Some r -> locks s !! sr_from r = Some t -> sr_nonce r = Some n ->
  claims (sr_from r) n t s.
Proof. intros HR Hr Hl Hn. split; [done|]. right. by exists r. Qed.

Lemma Do_push_ok t r n acc ok s : sender_ok s -> rows s !! t = Some r -> running s !! t = Some (Push n) ->
  sender_ok (at_pc t (Persist n ok)
    (mkSender (rows s) (locks s) (running s) (if acc : bool then (sr_from r, n, t) :: pool s else pool s))).
Proof.
  intros I Hr Hrun. destruct (running_row _ _ _ _ I Hrun Hr) as [Hl Hn]. specialize (Hl eq_refl). cbn in Hn.
  eapply (frame_ok t r r s); [done| |by eapply so_rows| |].
  - constructor; cbn; auto; try done.
    + intros u Hu. by rewrite lookup_insert_ne.
    + intros x Hx. destruct acc; [by right|done].
    + intros f m u. destruct acc; [rewrite elem_of_cons|tauto]. intros [[= -> -> ->]|?]; tauto.
  - cbn. intros p. rewrite lookup_insert_eq. intros [= <-]. exists r. by split_and!.
  - intros m u Hct. left. destruct Hct as [HR Hct]. assert (m = n) as ->; [|by apply locked_claims].
    destruct Hct as [Hp|(x & Hx & _ & Hxn & _)]; cbn in *; [|congruence].
    destruct acc; [apply elem_of_cons in Hp as [[= ->]|Hp]; [done|]|];
      destruct (so_pool _ I _ _ _ Hp) as (x & Hx & _ & Hxn); congruence.
Qed.

Lemma Do_persist_ok t r n ok a s s' p : sender_ok s -> rows s !! t = Some r -> running s !! t = Some (Persist n ok) ->
  Do_persist t r ok a s = (s', p) -> sender_ok (at_pc t p s').
Proof.
  intros I Hr Hrun E. destruct (running_row _ _ _ _ I Hrun Hr) as [Hl Hn]. specialize (Hl eq_refl). cbn in Hn.
  assert (forall d e, sender_ok (at_pc t (Release d e) s)) as Hrel.
  { intros d e. apply at_pc_ok; [done|]. exists r. by split_and!. }
  unfold Do_persist in E. set (r' := mkSend _ _ _ _) in E. destruct (update_send t r' (rows s)) as [rs|] eqn:Eu.
  2:{ destruct a as [|[]| | |]; injection E as <- <-; apply Hrel. }
  apply update_send_spec in Eu as [-> Hidx].
  assert (forall d e, sender_ok (at_pc t (Release d e) (mkSender (<[t := r']> (rows s)) (locks s) (running s) (pool s)))) as Hst.
  { intros d e. eapply (frame_ok t r r' s); [done| | | |].
    - constructor; cbn; auto; try done.
      + by rewrite lookup_insert_eq.
      + intros u Hu. by rewrite lookup_insert_ne.
      + intros u Hu. by rewrite lookup_insert_ne.
      + right. intros m Hm. by apply Hidx.
    - destruct (so_rows _ I _ _ Hr) as (? & ? & _). split_and!; cbn; [done..|]. by rewrite Hn.
    - cbn. intros p'. rewrite lookup_insert_eq. intros [= <-]. exists r'. cbn. by rewrite lookup_insert_eq.
    - intros m u Hct. left. destruct Hct as [HR Hct]. assert (m = n) as ->; [|by apply locked_claims].
      destruct Hct as [Hp|(x & Hx & _ & Hxn & _)]; cbn in *.
      + destruct (so_pool _ I _ _ _ Hp) as (x & Hx & _ & Hxn); congruence.
      + rewrite lookup_insert_eq in Hx. injection Hx as <-. cbn in Hxn. congruence. }
  destruct a as [|[]| | |]; injection E as <- <-; auto.
Qed.

(** The nonce that is computed is above every nonce of the key in the pool. *)
Lemma next_nonce_ahead t r m s : sender_ok s -> rows s !! t = Some r -> 0 <= m -> pool_ahead (sr_from r) m s ->
  0 <= next_nonce m (max_nonce (sr_from r) (rows s)) /\
  forall n u, (sr_from r, n, u) ∈ pool s -> n < next_nonce m (max_nonce (sr_from r) (rows s)).
Proof.
  intros I Hr Hm Ha. destruct (max_nonce_spec (sr_from r) (rows s)) as [Hge Hin]. unfold next_nonce.
  destruct (max_nonce (sr_from r) (rows s)) as [x|] eqn:Ex.
  - destruct (Hin x eq_refl) as (v & y & Hy & _ & _ & Hyn). destruct (so_rows _ I _ _ Hy) as (_ & Hb & _).
    specialize (Hb x Hyn). assert (u64 (x + 1) = x + 1) as -> by (apply u64_small; unfold in_u64; lia).
    split; [case_ifs; lia|]. intros n u Hp. enough (n < m \/ n <= x) by (case_ifs; bool_props; lia).
    destruct (Ha n u Hp) as [?|(z & Hz & Hzs)]; [by left|]. right.
    destruct (so_pool _ I _ _ _ Hp) as (z' & Hz' & Hf & Hzn). rewrite Hz in Hz'. injection Hz' as <-.
    destruct (Hge u z n Hz Hf Hzs Hzn) as (? & [= <-] & ?). done.
  - split; [done|]. intros n u Hp. destruct (Ha n u Hp) as [?|(z & Hz & Hzs)]; [done|]. exfalso.
    destruct (so_pool _ I _ _ _ Hp) as (z' & Hz' & Hf & Hzn). rewrite Hz in Hz'. injection Hz' as <-.
    by destruct (Hge u z n Hz Hf Hzs Hzn) as (? & ? & _).
Qed.

Lemma Do_ok t a s s' res : sender_ok s -> honest t a s -> Do t a s = Some (s', res) -> sender_ok s'.
Proof.
  intros I Ha E. unfold Do in E. destruct (running s !! t) as [p|] eqn:Hrun; [|done].
  destruct (rows s !! t) as [r|] eqn:Hr; [|done]. destruct (running_row _ _ _ _ I Hrun Hr) as [Hl Hpc].
  assert (holding p = true -> forall d e, sender_ok (at_pc t (Release d e) s)) as Hrel.
  { intros Hh d e. apply at_pc_ok; [done|]. exists r. by split_and!; auto. }
  destruct p as [nonce signed| |m|n|n|n ok|d e]; cbn in Hl, Hrel.
  - destruct (Do_lock t r nonce signed a s) as [s1 [q|]] eqn:El; injection E as <- <-;
      pose proof (Do_lock_ok _ _ _ _ _ _ _ _ I Hr Hrun El) as Hok; exact Hok.
  - destruct a as [| | |m|]; injection E as <- <-; auto. destruct Ha as [Hm Ha]. apply at_pc_ok; [done|].
    exists r. split_and!; auto. split_and!; auto.
  - destruct Hpc as (Hn & Hm & Hah). destruct a as [| | | |]; injection E as <- <-; auto. apply at_pc_ok; [done|].
    exists r. split; [done|]. split; [auto|]. split; [done|]. by apply (next_nonce_ahead t).
  - destruct (Do_sign t r n a s) as [s1 q] eqn:Es. injection E as <- <-. by eapply Do_sign_ok.
  - destruct a as [| | | |acc ok]; cbn in E; injection E as <- <-;
      [exact (Do_push_ok t r n false false s I Hr Hrun)..|exact (Do_push_ok t r n acc ok s I Hr Hrun)].
  - destruct (Do_persist t r ok a s) as [s1 q] eqn:Es. injection E as <- <-. by eapply Do_persist_ok.
  - destruct (Do_release t r d e a s) as [s1 q] eqn:Es. injection E as <- <-. by eapply Do_release_ok.
Qed.

(** A new row, without a nonce. *)
Lemma insert_ok t from s : sender_ok s -> rows s !! t = None ->
  sender_ok (mkSender (<[t := mkSend from None None None]> (rows s)) (locks s) (running s) (pool s)).
Proof.
  intros I Hr. set (rs := <[t := _]> (rows s)).
  assert (forall u x, rows s !! u = Some x -> rs !! u = Some x) as Hk.
  { intros u x Hx. unfold rs. by rewrite lookup_insert_ne by congruence. }
  assert (forall u x n, rs !! u = Some x -> sr_nonce x = Some n -> rows s !! u = Some x) as Hb.
  { intros u x n Hx Hn. unfold rs in Hx. destruct (decide (u = t)) as [->|Hu].
    - rewrite lookup_insert_eq in Hx. injection Hx as <-. done.
    - by rewrite lookup_insert_ne in Hx by done. }
  assert (forall f n u, claims f n u (mkSender rs (locks s) (running s) (pool s)) -> claims f n u s) as Hc.
  { intros f n u [HR [Hp|(x & Hx & Hf & Hn & Hl)]]; (split; [done|]); [by left|]. right. exists x. split_and!; eauto. }
  constructor; cbn.
  - intros u x Hx. unfold rs in Hx. destruct (decide (u = t)) as [->|Hu].
    + rewrite lookup_insert_eq in Hx. injection Hx as <-. by split_and!.
    + rewrite lookup_insert_ne in Hx by done. by eapply so_rows.
  - intros u p Hp. destruct (so_runs _ I _ _ Hp) as (x & Hx & Hl & Hpc). exists x. split; [by apply Hk|].
    split; [done|]. destruct p; try done. destruct Hpc as (? & ? & Hah). split_and!; [done..|].
    intros n v Hin. destruct (Hah n v Hin) as [?|(z & Hz & ?)]; [by left|]. right. exists z. split; [by apply Hk|done].
  - intros f n u Hp. destruct (so_pool _ I _ _ _ Hp) as (x & Hx & ?). exists x. split; [by apply Hk|done].
  - intros f n u v Hu Hv. by eapply (so_claims _ I f n); apply Hc.
  - intros u v x y n Hx Hy Hf Hn Hn'. apply (so_index _ I u v x y n); eauto.
Qed.
End Invariant.

(** The history only grows. *)
Lemma sender_ok_mono (R R' : gset Z) s : R ⊆ R' -> sender_ok R s -> sender_ok R' s.
Proof.
  intros HR I. constructor; try apply I.
  - intros t p Hp. destruct (so_runs _ _ I _ _ Hp) as (r & Hr & Hl & Hpc). exists r. split; [done|]. split; [done|].
    destruct p; try done. destruct Hpc as (? & ? & Hs). split_and!; [done..|]. intros Ht. apply Hs. by intros Ht'; apply Ht, HR.
  - intros f n t u [Ht Hc] [Hu Hc']. apply (so_claims _ _ I f n); (split; [|done]); [by intros Ht'; apply Ht, HR|by intros Hu'; apply Hu, HR].
Qed.

Lemma Do_read_ok (R : gset Z) t a s : sender_ok R s -> sender_ok (note_rerun t s R) (Do_read t a s).
Proof.
  intros I. assert (R ⊆ note_rerun t s R) as Hsub by (unfold note_rerun; destruct (refused_and_released t s); [apply union_subseteq_r|done]).
  pose proof (sender_ok_mono _ _ _ Hsub I) as I'. unfold Do_read. destruct a; try done. destruct (rows s !! t) as [r|] eqn:Hr; [|done].
  apply at_pc_ok; [done|]. exists r. split; [done|]. split; [done|]. split_and!; [done..|]. intros Ht Hs.
  destruct (decide (locks s !! sr_from r = Some t)) as [?|Hl]; [done|]. exfalso. apply Ht. unfold note_rerun, refused_and_released.
  rewrite Hr, !bool_decide_eq_true_2 by done. cbn [andb]. by apply elem_of_union_l, elem_of_singleton.
Qed.

Lemma sender_step_ok x y : sender_ok x.2 x.1 -> sender_step x y -> sender_ok y.2 y.1.
Proof.
  intros I Hs. destruct Hs as [t from s R Hr|t a s R Hrun|t a s s' res R Ha E|t s R]; cbn [fst snd] in *.
  - by apply insert_ok.
  - by apply Do_read_ok.
  - by eapply Do_ok.
  - by apply returns_ok.
Qed.

Lemma sender_ok_reach s R : rtc sender_step no_messages (s, R) -> sender_ok R s.
Proof.
  intros Hr. apply (rtc_invariant sender_step (fun x => sender_ok x.2 x.1) sender_step_ok _ _ Hr). constructor; cbn.
  - intros t r Hx. by rewrite lookup_empty in Hx.
  - intros t p Hx. by rewrite lookup_empty in Hx.
  - intros f n t Hx. by apply not_elem_of_nil in Hx.
  - intros f n t u [_ [Hx|(r & Hx & _)]]; [by apply not_elem_of_nil in Hx|cbn in Hx; by rewrite lookup_empty in Hx].
  - intros t u r x n Hx. by rewrite lookup_empty in Hx.
Qed.

(** C2: let the send tasks of all nodes interleave, die and fail at any statement, with
    pushes whose answers are lost, a pool whose next nonce is above the messages it
    accepted (those recorded as sent excepted), and runs of a task that do not overlap.
    Two messages of a key that the pool accepted with the same nonce are the same
    message, unless one of them was pushed by a task that was run again after its
    refusal was recorded and its lock released, which [refused_message_pushed_again]
    shows to happen.  Without exception, two rows of a key that were not refused do not
    share a nonce, and no two runs are past the lock of the same key. *)
Theorem no_nonce_reuse s R : rtc sender_step no_messages (s, R) ->
  (forall f n t u, (f, n, t) ∈ pool s -> (f, n, u) ∈ pool s -> t = u \/ t ∈ R \/ u ∈ R) /\
  (forall t u r x n, rows s !! t = Some r -> rows s !! u = Some x -> sr_from r = sr_from x ->
     sr_nonce r = Some n -> sr_nonce x = Some n -> indexed r = true -> indexed x = true -> t = u) /\
  (forall t u p q r x, running s !! t = Some p -> running s !! u = Some q -> holding p = true -> holding q = true ->
     rows s !! t = Some r -> rows s !! u = Some x -> sr_from r = sr_from x -> t = u).
Proof.
  intros Hr. pose proof (sender_ok_reach s R Hr) as I. split_and!.
  - intros f n t u Ht Hu. destruct (decide (t ∈ R)); [tauto|]. destruct (decide (u ∈ R)); [tauto|]. left.
    by apply (so_claims _ _ I f n); (split; [done|]); left.
  - apply (so_index _ _ I).
  - intros t u p q r x Hp Hq Hhp Hhq Ht Hu Hf.
    destruct (running_row _ _ _ _ _ I Hp Ht) as [Hl _], (running_row _ _ _ _ _ I Hq Hu) as [Hl' _].
    specialize (Hl Hhp). specialize (Hl' Hhq). rewrite Hf in Hl. congruence.
Qed.

(** Any run past the lock ends. *)
Fixpoint Do_run (t : TaskID) (answers : list answer) (s : sender) : option (sender * option (bool * bool)) :=
  match answers with
  | [] => Some (s, None)
  | a :: l =>
      match Do t a s with
      | Some (s', None) => Do_run t l s'
      | r => r
      end
  end.

(** The number of steps a run past the lock still takes. *)
Definition steps_left (p : pc) : nat :=
  match p with
  | AcquireLock _ _ => 7 | GetMpoolNonce => 6 | GetDbNonce _ => 5 | SignAndStore _ => 4 | Push _ => 3 | Persist _ _ => 2
  | Release _ _ => 1
  end.

Lemma update_send_lookup t r r' rs rs' : update_send t r' rs = Some rs' -> sr_from r' = sr_from r ->
  exists x, rs' !! t = Some x /\ sr_from x = sr_from r.
Proof. intros E Hf. apply update_send_spec in E as [-> _]. exists r'. by rewrite lookup_insert_eq. Qed.

(** One step past the lock: it returns at the release, or goes to an earlier
    measure with the same lock and key. *)
Lemma Do_progress t a s p r : running s !! t = Some p -> rows s !! t = Some r -> holding p = true ->
  match p with
  | Release d e => exists s' d' e', Do t a s = Some (s', Some (d', e')) /\ running s' !! t = None /\
      (a = Works -> d' = d /\ e' = e /\ locks s' = release_lock (sr_from r) t (locks s)) /\
      (a <> Works -> d' = false /\ e' = true)
  | _ => exists s' p' r', Do t a s = Some (s', None) /\ running s' !! t = Some p' /\ rows s' !! t = Some r' /\
      sr_from r' = sr_from r /\ locks s' = locks s /\ holding p' = true /\ (steps_left p' < steps_left p)%nat
  end.
Proof.
  intros Hrun Hr Hh. destruct p as [nonce signed| |m|n|n|n ok|d e]; [done|..]; unfold Do; rewrite Hrun, Hr.
  - destruct a; (do 3 eexists; split; [done|]; cbn; rewrite lookup_insert_eq; split_and!; [done..|cbn; lia]).
  - destruct a; (do 3 eexists; split; [done|]; cbn; rewrite lookup_insert_eq; split_and!; [done..|cbn; lia]).
  - unfold Do_sign. destruct (update_send t _ (rows s)) as [rs|] eqn:E.
    + destruct (update_send_lookup t r _ _ _ E eq_refl) as (x & Hx & Hf).
      destruct a as [|[]| | |]; (do 3 eexists; split; [done|]; cbn; rewrite lookup_insert_eq; split_and!; [done..|cbn; lia]).
    + destruct a as [|[]| | |]; (do 3 eexists; split; [done|]; cbn; rewrite lookup_insert_eq; split_and!; [done..|cbn; lia]).
  - destruct a; (do 3 eexists; split; [done|]; cbn; rewrite lookup_insert_eq; split_and!; [done..|cbn; lia]).
  - unfold Do_persist. destruct (update_send t _ (rows s)) as [rs|] eqn:E.
    + destruct (update_send_lookup t r _ _ _ E eq_refl) as (x & Hx & Hf).
      destruct a as [|[]| | |]; (do 3 eexists; split; [done|]; cbn; rewrite lookup_insert_eq; split_and!; [done..|cbn; lia]).
    + destruct a as [|[]| | |]; (do 3 eexists; split; [done|]; cbn; rewrite lookup_insert_eq; split_and!; [done..|cbn; lia]).
  - unfold Do_release. destruct a as [|[]| | |]; (do 3 eexists; split; [done|]; cbn; rewrite lookup_delete_eq; by split_and!).
Qed.

(** a run of [Do] that has the lock of its key returns after at most six more
    statements or calls whatever they answer; if the release works the lock of
    the key is free, otherwise [Do] returns an error so that the task is tried
    again. *)
Theorem Do_releases t r p s (answers : list answer) :
  running s !! t = Some p -> rows s !! t = Some r -> holding p = true -> locks s !! sr_from r = Some t ->
  (6 <= length answers)%nat ->
  exists s' d e, Do_run t answers s = Some (s', Some (d, e)) /\ running s' !! t = None /\
    (locks s' !! sr_from r = None \/ (d = false /\ e = true)).
Proof.
  intros Hrun Hr Hh Hl Hlen. assert (steps_left p <= length answers)%nat as Hm by (destruct p; cbn in *; [done|lia..]).
  clear Hlen. revert s p r Hrun Hr Hh Hl Hm. induction answers as [|a l IH]; intros s p r Hrun Hr Hh Hl Hm.
  { destruct p; cbn in Hm; lia. }
  pose proof (Do_progress t a s p r Hrun Hr Hh) as Hp.
  destruct p as [| | | | | |d e];
    [done|destruct Hp as (s' & p' & r' & E & Hrun' & Hr' & Hf & Hl' & Hh' & Hlt); cbn [Do_run]; rewrite E, <- Hf;
          apply (IH s' p' r'); [done..|by rewrite Hl', Hf|cbn [length] in Hm; lia]..|].
  destruct Hp as (s' & d' & e' & E & Hrun' & Hw & Hn). cbn [Do_run]. rewrite E. exists s', d', e'. split; [done|].
  split; [done|]. destruct a; try (right; apply Hn; discriminate). left. destruct (Hw eq_refl) as (_ & _ & ->).
  unfold release_lock. rewrite Hl, Z.eqb_refl. apply lookup_delete_eq.
Qed.

(** ** [Sender.Send] *)

Record message := mkMessage {
  mg_from : string;
  mg_to : string;
  mg_nonce : Z;
  mg_value : Z;
  mg_gas_limit : Z;
  mg_fee_cap : Z;
  mg_premium : option Z       (* None is types.EmptyInt *)
}.

Record MessageSendSpec := mkSpec { ms_uuid_zero : bool; ms_maximize : bool }.

Inductive send_error :=
| SpecNil | UuidNotZero | KeyAddress | NonceNotZero | GasEstimate | PremiumEstimate | Balance | NotEnoughFunds
| Marshal | AddTask | StatusQuery | NullValues | SendFailed (msg : string) | BadCid.

(** What one read of the status row finds. *)
Record send_status := mkStatus {
  st_signed_cid : option string; st_success : option bool; st_error : option string
}.

Section Send.
(** Code outside the repository: the cost of the gas of a message, the estimates
    of the chain node, the parser of content ids. *)
Context (RequiredFunds : message -> Z).
Context (GasEstimateMessageGas : message -> MessageSendSpec -> option message).
Context (GasEstimateGasPremium : message -> option Z).
Context {Cid : Type} (parse : string -> option Cid).

(** What [Send] does when the status row has a result. *)
Definition send_result (st : send_status) (success : bool) : result Cid send_error :=
  match st_signed_cid st, st_error st with
  | Some c, Some e =>
      if negb success then Err (SendFailed e)
      else match parse c with Some cid => Ok cid | None => Err BadCid end
  | _, _ => Err NullValues
  end.

(** The loop that waits for the send task, over the answers of its query, with
    the times it slept; without a result it is still waiting. *)
Fixpoint wait_exec (reads : list (option send_status)) (pollInterval : duration)
    : list duration * option (result Cid send_error) :=
  match reads with
  | [] => ([], None)
  | None :: _ => ([], Some (Err StatusQuery))
  | Some st :: reads' =>
      match st_success st with
      | None =>
          let next := i64 (pollInterval * 2) in
          let next := if next >? 5 * Second then 5 * Second else next in
          let '(sleeps, res) := wait_exec reads' next in
          (pollInterval :: sleeps, res)
      | Some b => ([], Some (send_result st b))
      end
  end.

(** The message that is queued: the checks and estimates before the task. *)
Definition prepare (maximizeFeeCap : bool) (mss : option MessageSendSpec) (key : option string) (balance : option Z)
    (msg : message) : result message send_error :=
  match mss with
  | None => Err SpecNil
  | Some mss =>
      if negb (ms_uuid_zero mss) then Err UuidNotZero
      else
        let mss := if maximizeFeeCap then mkSpec (ms_uuid_zero mss) true else mss in
        match key with
        | None => Err KeyAddress
        | Some fromA =>
            let msg := mkMessage fromA (mg_to msg) (mg_nonce msg) (mg_value msg) (mg_gas_limit msg)
                         (mg_fee_cap msg) (mg_premium msg) in
            if negb (mg_nonce msg =? 0) then Err NonceNotZero
            else
              let premiumWasNull := match mg_premium msg with None => true | Some p => p =? 0 end in
              match GasEstimateMessageGas msg mss with
              | None => Err GasEstimate
              | Some msg =>
                  match
                    if premiumWasNull then
                      match GasEstimateGasPremium msg with
                      | None => Err PremiumEstimate
                      | Some p =>
                          let p := if p >? mg_fee_cap msg then mg_fee_cap msg else p in
                          Ok (mkMessage (mg_from msg) (mg_to msg) (mg_nonce msg) (mg_value msg) (mg_gas_limit msg)
                                (mg_fee_cap msg) (Some p))
                      end
                    else Ok msg
                  with
                  | Err e => Err e
                  | Ok msg =>
                      match balance with
                      | None => Err Balance
                      | Some b => if b <? mg_value msg + RequiredFunds msg then Err NotEnoughFunds else Ok msg
                      end
                  end
              end
        end
  end.

(** [Send]: the row that is inserted with its task, the sleeps and the result.
    [added] is the id the task adder gives, with the outcome of the insert. *)
Definition Send (maximizeFeeCap : bool) (mss : option MessageSendSpec) (key : option string) (balance : option Z)
    (msg : message) (marshals : bool) (added : option TaskID) (reads : list (option send_status))
    : option (TaskID * send_row * message) * list duration * option (result Cid send_error) :=
  match prepare maximizeFeeCap mss key balance msg with
  | Err e => (None, [], Some (Err e))
  | Ok m =>
      if negb marshals then (None, [], Some (Err Marshal))
      else
        match added with
        | None => (None, [], Some (Err AddTask))
        | Some id =>
            let '(sleeps, res) := wait_exec reads (50 * Millisecond) in
            (Some (id, mkSend (mg_from m) None None None, m), sleeps, res)
        end
  end.

(** The intervals double up to five seconds. *)
Lemma wait_exec_pending pend reads d : 0 < d <= 5 * Second ->
  (forall st, st ∈ pend -> exists x, st = Some x /\ st_success x = None) ->
  fst (wait_exec (pend ++ reads) d) =
    ((fun k : nat => Z.min (d * 2 ^ Z.of_nat k) (5 * Second)) <$> seq 0 (length pend)) ++
    fst (wait_exec reads (Z.min (d * 2 ^ Z.of_nat (length pend)) (5 * Second))) /\
  snd (wait_exec (pend ++ reads) d) = snd (wait_exec reads (Z.min (d * 2 ^ Z.of_nat (length pend)) (5 * Second))).
Proof.
  revert d. induction pend as [|st pend IH]; intros d Hd Hp.
  { cbn [app length seq]. change (Z.of_nat 0) with 0. rewrite Z.pow_0_r, Z.mul_1_r, Z.min_l by lia. done. }
  destruct (Hp st ltac:(left)) as (x & -> & Hx). cbn [app wait_exec]. rewrite Hx.
  set (d' := if i64 (d * 2) >? 5 * Second then 5 * Second else i64 (d * 2)).
  assert (d' = Z.min (d * 2) (5 * Second)) as Ed.
  { unfold d'. rewrite i64_small by (unfold in_i64, min_i64, max_i64, Second, Millisecond in *; lia).
    rewrite Z.gtb_ltb. destruct (Z.ltb_spec (5 * Second) (d * 2)); lia. }
  assert (forall k : nat, Z.min (d' * 2 ^ Z.of_nat k) (5 * Second) = Z.min (d * 2 ^ Z.of_nat (S k)) (5 * Second)) as Ek.
  { intros k. rewrite Nat2Z.inj_succ, Z.pow_succ_r, Ed by lia. pose proof (Z.pow_pos_nonneg 2 (Z.of_nat k)).
    unfold Second, Millisecond in *. nia. }
  destruct (IH d' ltac:(unfold Second, Millisecond in *; lia) (fun s Hs => Hp s (list_elem_of_further _ _ _ Hs))) as [E1 E2].
  rewrite Ek in E1, E2. destruct (wait_exec (pend ++ reads) d') as [sl res]. cbn [fst snd] in *. subst sl res.
  split; [|done]. cbn [length seq]. rewrite fmap_cons. cbn [app]. change (Z.of_nat 0) with 0.
  rewrite Z.pow_0_r, Z.mul_1_r, (Z.min_l d) by lia. f_equal. f_equal. rewrite <- seq_shift. rewrite <- list_fmap_compose.
  apply list_fmap_ext. intros i k _. apply Ek.
Qed.

(** what [Send] queues is affordable and consistent: a row without nonce for
    the key of the account, of a message whose value and gas the balance
    covers and, if the caller gave no premium, whose premium is at most the fee
    cap.  It then returns what the first status with a result says, after
    sleeping 50 ms doubled at each read and never more than five seconds. *)
Theorem Send_spec (maximizeFeeCap : bool) mss key balance msg marshals added pend st b rest id row m sleeps res :
  Send maximizeFeeCap mss key balance msg marshals added (pend ++ Some st :: rest) = (Some (id, row, m), sleeps, res) ->
  (forall x, x ∈ pend -> exists y, x = Some y /\ st_success y = None) -> st_success st = Some b ->
  added = Some id /\ mg_nonce msg = 0 /\ row = mkSend (mg_from m) None None None /\
  (exists bal, balance = Some bal /\ mg_value m + RequiredFunds m <= bal) /\
  (mg_premium msg = None -> exists p, mg_premium m = Some p /\ p <= mg_fee_cap m) /\
  sleeps = (fun k : nat => Z.min (50 * Millisecond * 2 ^ Z.of_nat k) (5 * Second)) <$> seq 0 (length pend) /\
  res = Some (send_result st b).
Proof.
  intros E Hp Hb. unfold Send in E. destruct (prepare _ _ _ _ _) as [m0|] eqn:Ep; [|done].
  destruct marshals; [|done]. destruct added as [id0|]; [|done]. cbn [negb] in E.
  destruct (wait_exec_pending pend (Some st :: rest) (50 * Millisecond) ltac:(unfold Second, Millisecond; lia) Hp) as [E1 E2].
  cbn [wait_exec] in E1, E2. rewrite Hb in E1, E2. cbn [fst snd] in E1, E2. rewrite app_nil_r in E1.
  destruct (wait_exec (pend ++ _) _) as [sl rs]. cbn [fst snd] in E1, E2. injection E as <- <- <- <- <-.
  unfold prepare in Ep. destruct mss as [ms|]; [|done]. destruct (negb _); [done|]. destruct key as [k|]; [|done].
  cbn [mg_nonce] in Ep. destruct (negb (mg_nonce msg =? 0)) eqn:En; [done|]. bool_props.
  destruct (GasEstimateMessageGas _ _) as [m1|]; [|done].
  split; [done|]. split; [done|]. split; [done|]. cbn [mg_premium] in Ep.
  destruct (match mg_premium msg with None => true | Some p => p =? 0 end) eqn:Epr.
  - destruct (GasEstimateGasPremium m1) as [p|]; [|done]. destruct balance as [bal|]; [|done].
    destruct (bal <? _) eqn:Eb; [done|]. injection Ep as <-. bool_props. split; [by exists bal|].
    split; [|done]. intros _. eexists. split; [done|]. cbn. rewrite Z.gtb_ltb. destruct (Z.ltb_spec (mg_fee_cap m1) p); lia.
  - destruct balance as [bal|]; [|done]. destruct (bal <? _) eqn:Eb; [done|]. injection Ep as <-. bool_props.
    split; [by exists bal|]. split; [|done]. by intros Hn; rewrite Hn in Epr.
Qed.
End Send.

(** ** A key that sends two messages *)

(** Queue the task and run it: the answers of its run. *)
Definition ex_insert (t : TaskID) (s : sender) : sender :=
  mkSender (<[t := mkSend "f1" None None None]> (rows s)) (locks s) (running s) (pool s).

Definition ex_run (t : TaskID) (l : list answer) (s : sender) : sender :=
  match Do_run t l (Do_read t Works s) with Some (s', _) => s' | None => s end.

Definition ex_queued : sender := ex_insert 2 (ex_insert 1 no_messages.1).
(** The first message is accepted, the second when the pool lost the first. *)
Definition ex_first : sender :=
  ex_run 1 [Works; MpoolNonce 5; Works; Works; PushResult true true; Works; Works] ex_queued.
Definition ex_second : sender :=
  ex_run 2 [Works; MpoolNonce 5; Works; Works; PushResult true true; Works; Works] ex_first.

(** The answers of a run are honest at each step. *)
Fixpoint honest_run (t : TaskID) (l : list answer) (s : sender) : Prop :=
  match l with
  | [] => True
  | a :: l' => honest t a s /\ match Do t a s with Some (s', None) => honest_run t l' s' | _ => True end
  end.

Lemma Do_run_steps t l s s' res R : Do_run t l s = Some (s', res) -> honest_run t l s -> rtc sender_step (s, R) (s', R).
Proof.
  revert s. induction l as [|a l IH]; intros s E Hh; [by injection E as <- <-|].
  cbn in E. destruct Hh as [Ha Hl]. destruct (Do t a s) as [[s1 [x|]]|] eqn:Ed; [| |done].
  - injection E as <- <-. apply rtc_once. by eapply ss_do.
  - eapply rtc_l; [by eapply ss_do|]. by apply IH.
Qed.

(** A run of the task that is the first one, or one that is noted. *)
Lemma ex_run_steps t l s R R' : running s !! t = None -> note_rerun t s R = R' -> honest_run t l (Do_read t Works s) ->
  match Do_run t l (Do_read t Works s) with Some _ => True | None => False end -> rtc sender_step (s, R) (ex_run t l s, R').
Proof.
  intros Hm <- Hh Hrun. unfold ex_run. destruct (Do_run _ _ _) as [[s' res]|] eqn:E; [|done].
  eapply rtc_l; [by apply (ss_start t Works)|]. by eapply Do_run_steps.
Qed.

Lemma ex_queued_reachable : rtc sender_step no_messages (ex_queued, ∅).
Proof. eapply rtc_l; [by apply (ss_insert 1 "f1")|]. apply rtc_once. by apply (ss_insert 2 "f1"). Qed.

Lemma ex_second_reachable : rtc sender_step no_messages (ex_second, ∅).
Proof.
  etransitivity; [apply ex_queued_reachable|].
  transitivity (ex_first, ∅ : gset Z); (apply ex_run_steps; [vm_compute; reflexivity|vm_compute; reflexivity| |vm_compute; exact I]).
  - vm_compute. split_and!; try done. intros r _ n t Hx. by apply not_elem_of_nil in Hx.
  - cbn [honest_run]. split; [done|]. vm_compute. split_and!; try done.
    intros r [= <-] n t Hx. apply elem_of_cons in Hx as [[= -> ->]|Hx]; [|by apply not_elem_of_nil in Hx].
    right. eexists. split; reflexivity.
Qed.

Lemma no_nonce_reuse_witness :
  pool ex_second = [("f1", 6, 2); ("f1", 5, 1)] /\
  (forall f n t u, (f, n, t) ∈ pool ex_second -> (f, n, u) ∈ pool ex_second -> t = u \/ t ∈ (∅ : gset Z) \/ u ∈ (∅ : gset Z)).
Proof. split; [vm_compute; reflexivity|]. exact (proj1 (no_nonce_reuse ex_second ∅ ex_second_reachable)). Defined.

(** The first message is refused, the second accepted with the nonce this freed, and the
    first task is run again. *)
Definition ex_refused : sender :=
  ex_run 1 [Works; MpoolNonce 5; Works; Works; PushResult false false; Works; Works] ex_queued.
Definition ex_taken : sender :=
  ex_run 2 [Works; MpoolNonce 5; Works; Works; PushResult true true; Works; Works] ex_refused.
Definition ex_again : sender := ex_run 1 [Works; PushResult true true; Works; Works] ex_taken.

(** The exception of the theorem happens: if the process dies between the release
    of the lock and the record of the completion, a refused message is pushed
    again with a nonce that another message has by then. *)
Lemma refused_message_pushed_again :
  rtc sender_step no_messages (ex_again, {[ 1 ]}) /\ pool ex_again = [("f1", 5, 1); ("f1", 5, 2)].
Proof.
  split; [|vm_compute; reflexivity]. etransitivity; [apply ex_queued_reachable|].
  transitivity (ex_refused, ∅ : gset Z); [apply ex_run_steps; [vm_compute; reflexivity|vm_compute; reflexivity| |vm_compute; exact I]|].
  { vm_compute. split_and!; try done. intros r _ n t Hx. by apply not_elem_of_nil in Hx. }
  transitivity (ex_taken, ∅ : gset Z); (apply ex_run_steps; [vm_compute; reflexivity|vm_compute; reflexivity| |vm_compute; exact I]);
    vm_compute; split_and!; try done. intros r _ n t Hx. by apply not_elem_of_nil in Hx.
Qed.

Lemma Do_releases_witness :
  exists s' d e, Do_run 1 (replicate 6 (Fails false)) (at_pc 1 GetMpoolNonce
    (mkSender (rows ex_queued) {[ "f1" := 1 ]} ∅ [])) = Some (s', Some (d, e)) /\
    running s' !! 1 = None /\ (locks s' !! "f1" = None \/ (d = false /\ e = true)).
Proof.
  apply (Do_releases 1 (mkSend "f1" None None None) GetMpoolNonce); [reflexivity..|]. cbn. lia.
Defined.

Definition ex_msg : message := mkMessage "f01" "f02" 0 100 1000 5 None.

Lemma Send_spec_witness :
  let send := Send (fun m => mg_fee_cap m * mg_gas_limit m) (fun m _ => Some m) (fun _ => Some 9) (@Some string) in
  let out := send false (Some (mkSpec true false)) (Some "f1abc") (Some 6000) ex_msg true (Some 4)
    ([Some (mkStatus None None None); Some (mkStatus None None None)] ++
     Some (mkStatus (Some "bafy") (Some true) (Some "")) :: []) in
  snd out = Some (Ok "bafy") /\ snd (fst out) = [50 * Millisecond; 100 * Millisecond].
Proof.
  intros send out.
  destruct (Send_spec (fun m => mg_fee_cap m * mg_gas_limit m) (fun m _ => Some m) (fun _ => Some 9) (@Some string)
    false (Some (mkSpec true false)) (Some "f1abc") (Some 6000) ex_msg true (Some 4)
    [Some (mkStatus None None None); Some (mkStatus None None None)] (mkStatus (Some "bafy") (Some true) (Some "")) true []
    4 (mkSend "f1abc" None None None) (mkMessage "f1abc" "f02" 0 100 1000 5 (Some 5))
    (snd (fst out)) (snd out)) as (_ & _ & _ & _ & _ & Hs & Hr).
  - vm_compute. reflexivity.
  - intros x Hx. exists (mkStatus None None None). repeat (apply elem_of_cons in Hx as [->|Hx]; [done|]).
    by apply not_elem_of_nil in Hx.
  - reflexivity.
  - split; [exact Hr|]. rewrite Hs. vm_compute. reflexivity.
Defined.
