(* ===== verification/SlotMgr.v ===== *)
(** * Batch sealing slots ([lib/slotmgr/slotmgr.go])

    A machine that seals sectors in batches has a few slots of NVMe space.  A
    batch takes a free slot, seals in it, writes a row of [batch_sector_refs]
    per sector and leaves the slot to the sectors until each of them is
    finalized.  Callers wait for a free slot on a condition variable.  Metrics
    and the expvar page are left out. *)

From stdpp Require Import base gmap sets list strings.
From Stdlib Require Import ZArith Lia.
From S2P Require Import Prelude.

Definition SectorID : Type := Z * Z.

#[export] Instance SectorID_eq_dec : EqDecision SectorID.
Proof. unfold SectorID. apply _. Defined.
#[export] Instance SectorID_countable : Countable SectorID.
Proof. unfold SectorID. apply _. Defined.

Record slot := mkSlot { slotOffset : Z; sectors : gset SectorID; work : bool }.

(** [slots], with the callers of [Get] that wait in [cond.Wait] and those that
    were signalled and have not taken the lock again. *)
Record SlotMgr := mkMgr { slots : list slot; waiting : nat; woken : nat }.

(** A row of [batch_sector_refs]: sector, machine, slot. *)
Record ref := mkRef { rf_sector : SectorID; rf_machine : string; rf_slot : Z }.

(** [cond.Signal] *)
Definition Signal (m : SlotMgr) : SlotMgr :=
  match waiting m with
  | O => m
  | S w => mkMgr (slots m) w (S (woken m))
  end.

Definition free (s : slot) : bool := bool_decide (sectors s = ∅).

(** The slot that [lo.Find] gives for an offset, replaced. *)
Fixpoint update_slot (off : Z) (f : slot -> slot) (l : list slot) : option (list slot) :=
  match l with
  | [] => None
  | s :: l' => if slotOffset s =? off then Some (f s :: l') else (cons s) <$> update_slot off f l'
  end.

(** The refs of [NewSlotMgr], one after the other. *)
Fixpoint load_refs (l : list slot) (refs : list ref) : result (list slot) Z :=
  match refs with
  | [] => Ok l
  | r :: refs' =>
      match update_slot (rf_slot r) (fun s => mkSlot (slotOffset s) ({[ rf_sector r ]} ∪ sectors s) (work s)) l with
      | Some l' => load_refs l' refs'
      | None => Err (rf_slot r)
      end
  end.

Definition on_machine (machine : string) (refs : list ref) : list ref :=
  List.filter (fun r => bool_decide (rf_machine r = machine)) refs.

Definition NewSlotMgr (machine : string) (slotOffs : list Z) (refs : list ref) : result SlotMgr Z :=
  match load_refs ((fun off => mkSlot off ∅ false) <$> slotOffs) (on_machine machine refs) with
  | Ok l => Ok (mkMgr l 0 0)
  | Err e => Err e
  end.

(** One slot of [watchSingle]: the sectors without a ref are dropped; whether
    waiters are signalled. *)
Definition watch_slot (machine : string) (refs : list ref) (s : slot) : slot * bool :=
  let kept := filter (fun id => existsb (fun r => bool_decide (rf_sector r = id) && (rf_slot r =? slotOffset s))
                       (on_machine machine refs) = true) (sectors s) in
  (mkSlot (slotOffset s) kept (work s), bool_decide (kept = ∅)).

(** [watchSingle]; [fail] tells for which slot the query fails, which ends it. *)
Fixpoint watch_loop (machine : string) (refs : list ref) (fail : Z -> bool) (seen l : list slot) (m : SlotMgr)
    : SlotMgr * option Z :=
  match l with
  | [] => (mkMgr (rev seen) (waiting m) (woken m), None)
  | s :: l' =>
      if work s || free s then watch_loop machine refs fail (s :: seen) l' m
      else if fail (slotOffset s) then (mkMgr (rev seen ++ s :: l') (waiting m) (woken m), Some (slotOffset s))
      else
        let '(s', sig) := watch_slot machine refs s in
        watch_loop machine refs fail (s' :: seen) l' (if sig : bool then Signal m else m)
  end.

Definition watchSingle (machine : string) (refs : list ref) (fail : Z -> bool) (m : SlotMgr) : SlotMgr * option Z :=
  watch_loop machine refs fail [] (slots m) m.

(** The first free slot, filled. *)
Fixpoint take_slot (ids : list SectorID) (l : list slot) : option (Z * list slot) :=
  match l with
  | [] => None
  | s :: l' =>
      if free s then Some (slotOffset s, mkSlot (slotOffset s) (list_to_set ids) true :: l')
      else (fun p => (p.1, s :: p.2)) <$> take_slot ids l'
  end.

(** [Get] up to its return or to [cond.Wait]; a signalled caller goes through
    the same loop again.  Without ids it panics. *)
Inductive get_outcome := GetPanic | Got (off : Z) (m : SlotMgr) | GetWaits (m : SlotMgr).

Definition Get (ids : list SectorID) (m : SlotMgr) : get_outcome :=
  match ids with
  | [] => GetPanic
  | _ =>
      match take_slot ids (slots m) with
      | Some (off, l) => Got off (mkMgr l (waiting m) (woken m))
      | None => GetWaits (mkMgr (slots m) (S (waiting m)) (woken m))
      end
  end.

Definition MarkWorkDone (off : Z) (m : SlotMgr) : result SlotMgr Z :=
  match update_slot off (fun s => mkSlot (slotOffset s) (sectors s) false) (slots m) with
  | Some l => Ok (mkMgr l (waiting m) (woken m))
  | None => Err off
  end.

Definition AbortSlot (off : Z) (m : SlotMgr) : result SlotMgr Z :=
  match update_slot off (fun s => mkSlot (slotOffset s) ∅ false) (slots m) with
  | Some l => Ok (Signal (mkMgr l (waiting m) (woken m)))
  | None => Err off
  end.

(** The statement of [SectorDone] and its critical section. *)
Definition delete_refs (id : SectorID) (refs : list ref) : list ref :=
  List.filter (fun r => negb (bool_decide (rf_sector r = id))) refs.

Definition SectorDone (off : Z) (id : SectorID) (m : SlotMgr) : result SlotMgr Z :=
  match update_slot off (fun s => mkSlot (slotOffset s) (sectors s ∖ {[ id ]}) (work s)) (slots m),
        find (fun s => slotOffset s =? off) (slots m) with
  | Some l, Some s =>
      let m' := mkMgr l (waiting m) (woken m) in
      Ok (if bool_decide (sectors s ∖ {[ id ]} = ∅) then Signal m' else m')
  | _, _ => Err off
  end.

Definition Available (m : SlotMgr) : Z := Z.of_nat (length (List.filter free (slots m))).

(** ** The machine with its batches

    The callers of the manager: [SupraSeal.Do] takes a slot for its batch,
    aborts it on failure or stores the refs of its sectors in a transaction
    and then marks the work done; [FinalizeTask.Do] ends the stay of a sector;
    refs may also be deleted by the operator; the process may restart. *)
Record machine := mkMachine {
  mgr : SlotMgr;
  refs : list ref;                            (* batch_sector_refs *)
  batches : gmap Z (bool * list SectorID);    (* the batch working in a slot: refs stored or not, sectors *)
  finishing : list (SectorID * Z)             (* SectorDone between its statement and its lock *)
}.

Section Machine.
Context (host : string) (offs : list Z).

(** A caller enters the loop of [Get] for the first time or after a signal. *)
Inductive enters : SlotMgr -> SlotMgr -> Prop :=
| enter_new m : enters m m
| enter_woken l w k : enters (mkMgr l w (S k)) (mkMgr l w k).

Inductive machine_step : machine -> machine -> Prop :=
| my_get ids m off m' x :
    enters (mgr x) m -> Get ids m = Got off m' -> (forall id, id ∈ ids -> (id, off) ∉ finishing x) ->
    machine_step x (mkMachine m' (refs x) (<[off := (false, ids)]> (batches x)) (finishing x))
| my_wait ids m m' x :
    enters (mgr x) m -> Get ids m = GetWaits m' ->
    machine_step x (mkMachine m' (refs x) (batches x) (finishing x))
| my_abort off ids m' x :
    batches x !! off = Some (false, ids) -> AbortSlot off (mgr x) = Ok m' ->
    machine_step x (mkMachine m' (refs x) (delete off (batches x)) (finishing x))
| my_store off ids x :
    batches x !! off = Some (false, ids) ->
    machine_step x (mkMachine (mgr x) (((fun id => mkRef id host off) <$> ids) ++ refs x)
      (<[off := (true, ids)]> (batches x)) (finishing x))
| my_work_done off ids m' x :
    batches x !! off = Some (true, ids) -> MarkWorkDone off (mgr x) = Ok m' ->
    machine_step x (mkMachine m' (refs x) (delete off (batches x)) (finishing x))
| my_finish id off x :
    mkRef id host off ∈ refs x -> batches x !! off = None ->
    machine_step x (mkMachine (mgr x) (delete_refs id (refs x)) (batches x) ((id, off) :: finishing x))
| my_finished id off m' fin fin' x :
    finishing x = fin ++ (id, off) :: fin' -> SectorDone off id (mgr x) = Ok m' ->
    machine_step x (mkMachine m' (refs x) (batches x) (fin ++ fin'))
| my_watch fail m' e x :
    watchSingle host (refs x) fail (mgr x) = (m', e) ->
    machine_step x (mkMachine m' (refs x) (batches x) (finishing x))
| my_forget refs' x :
    refs' ⊆ refs x -> machine_step x (mkMachine (mgr x) refs' (batches x) (finishing x))
| my_restart m' x :
    NewSlotMgr host offs (refs x) = Ok m' -> machine_step x (mkMachine m' (refs x) ∅ []).

(** ** Lists of slots *)

Definition upd (off : Z) (f : slot -> slot) (s : slot) : slot := if slotOffset s =? off then f s else s.

Definition nfree (l : list slot) : nat := length (List.filter free l).

Lemma upd_other off f (l : list slot) : off ∉ (slotOffset <$> l) -> upd off f <$> l = l.
Proof.
  induction l as [|s l IH]; intros Hn; [done|]. rewrite fmap_cons in Hn. rewrite fmap_cons. apply not_elem_of_cons in Hn as [Hs Hn].
  rewrite IH by done. unfold upd. by rewrite (proj2 (Z.eqb_neq _ _) (not_eq_sym Hs)).
Qed.

Lemma update_slot_upd off f l l' : NoDup (slotOffset <$> l) -> update_slot off f l = Some l' ->
  l' = upd off f <$> l /\ exists s, s ∈ l /\ slotOffset s = off.
Proof.
  revert l'. induction l as [|s l IH]; intros l' Hd E; [done|]. rewrite fmap_cons in Hd. rewrite fmap_cons.
  apply NoDup_cons in Hd as [Hs Hd]. cbn in E. unfold upd at 1. destruct (slotOffset s =? off) eqn:Eo.
  - apply Z.eqb_eq in Eo. injection E as <-. rewrite upd_other by (by rewrite <- Eo). split; [done|].
    exists s. split; [left|done].
  - destruct (update_slot off f l) as [k|] eqn:Ek; [|done]. injection E as <-.
    destruct (IH k Hd eq_refl) as [-> (x & Hx & Hxo)]. split; [done|]. exists x. split; [by right|done].
Qed.

Lemma take_slot_upd ids l off l' : NoDup (slotOffset <$> l) -> take_slot ids l = Some (off, l') ->
  l' = upd off (fun _ => mkSlot off (list_to_set ids) true) <$> l /\
  (exists s, s ∈ l /\ slotOffset s = off /\ sectors s = ∅) /\ (ids <> [] -> S (nfree l') = nfree l).
Proof.
  revert l'. induction l as [|s l IH]; intros l' Hd E; [done|]. rewrite fmap_cons in Hd. rewrite fmap_cons.
  apply NoDup_cons in Hd as [Hs Hd]. cbn in E. unfold upd at 1. destruct (free s) eqn:Ef.
  - injection E as <- <-. rewrite Z.eqb_refl, upd_other by done. split; [done|]. split.
    + exists s. split; [left|]. split; [done|]. unfold free in Ef. by apply bool_decide_eq_true in Ef.
    + intros Hi. unfold nfree. cbn. rewrite Ef. unfold free at 1. cbn [sectors]. rewrite bool_decide_eq_false_2; [done|].
      destruct ids as [|i ids]; [done|]. cbn. clear. set_solver.
  - destruct (take_slot ids l) as [[o k]|] eqn:Ek; [|done]. injection E as <- <-.
    destruct (IH k Hd eq_refl) as [-> [(x & Hx & Hxo & Hxs) Hn]]. cbn [fst snd] in *. split; [|split].
    + f_equal. destruct (Z.eqb_spec (slotOffset s) o) as [E|]; [|done]. exfalso. apply Hs. rewrite E, <- Hxo.
      by apply list_elem_of_fmap_2.
    + exists x. split; [by right|done].
    + intros Hi. specialize (Hn Hi). unfold nfree in *. cbn. by rewrite Ef.
Qed.

Lemma take_slot_none ids l : take_slot ids l = None -> nfree l = 0%nat.
Proof.
  induction l as [|s l IH]; intros E; [done|]. cbn in E. unfold nfree in *. cbn. destruct (free s); [done|].
  destruct (take_slot ids l); [done|auto].
Qed.

(** The number of free slots after an update. *)
Lemma nfree_upd off f l s : NoDup (slotOffset <$> l) -> s ∈ l -> slotOffset s = off ->
  (nfree (upd off f <$> l) <= nfree l + (if free (f s) then 1 else 0))%nat.
Proof.
  induction l as [|x l IH]; intros Hd Hs Ho; [by apply not_elem_of_nil in Hs|]. rewrite fmap_cons in Hd. rewrite fmap_cons.
  apply NoDup_cons in Hd as [Hx Hd]. unfold nfree in *. cbn. unfold upd at 1. apply elem_of_cons in Hs as [->|Hs].
  - rewrite <- Ho, Z.eqb_refl, upd_other by done. destruct (free (f x)), (free x); cbn [length]; lia.
  - destruct (Z.eqb_spec (slotOffset x) off) as [E|].
    + exfalso. apply Hx. rewrite E, <- Ho. by apply list_elem_of_fmap_2.
    + specialize (IH Hd Hs Ho). destruct (free x); cbn [length]; lia.
Qed.

Lemma offsets_upd off f (l : list slot) : (forall s, slotOffset (f s) = slotOffset s \/ slotOffset (f s) = off) ->
  slotOffset <$> (upd off f <$> l) = slotOffset <$> l.
Proof.
  intros Hf. rewrite <- list_fmap_compose. apply list_fmap_ext. intros i s _. cbn. unfold upd.
  destruct (Z.eqb_spec (slotOffset s) off) as [E|]; [|done]. destruct (Hf s); congruence.
Qed.

Lemma elem_upd off f (l : list slot) x : x ∈ upd off f <$> l ->
  exists s, s ∈ l /\ ((slotOffset s = off /\ x = f s) \/ (slotOffset s <> off /\ x = s)).
Proof.
  intros (s & -> & Hs)%list_elem_of_fmap. exists s. split; [done|]. unfold upd.
  destruct (Z.eqb_spec (slotOffset s) off); auto.
Qed.

Lemma offset_inj (l : list slot) s x : NoDup (slotOffset <$> l) -> s ∈ l -> x ∈ l -> slotOffset s = slotOffset x -> s = x.
Proof.
  intros Hd Hs Hx E. apply list_elem_of_lookup in Hs as [i Hi], Hx as [j Hj].
  assert (i = j) as ->; [|congruence]. eapply (NoDup_lookup (slotOffset <$> l)); [done|..]; rewrite list_lookup_fmap.
  - by rewrite Hi.
  - by rewrite Hj; cbn; rewrite E.
Qed.

(** ** Wake-ups *)

(** While callers wait, every free slot has a signalled caller on its way. *)
Definition wake_ok (m : SlotMgr) : Prop := (0 < waiting m)%nat -> (nfree (slots m) <= woken m)%nat.

Lemma wake_signal l w k n : ((0 < w)%nat -> (n <= k)%nat) -> (nfree l <= n + 1)%nat -> wake_ok (Signal (mkMgr l w k)).
Proof. unfold wake_ok, Signal. destruct w as [|w]; cbn [waiting woken slots]; intros H1 H2 H3; [lia|]. specialize (H1 ltac:(lia)). lia. Qed.

Lemma wake_same l w k n : ((0 < w)%nat -> (n <= k)%nat) -> (nfree l <= n)%nat -> wake_ok (mkMgr l w k).
Proof. unfold wake_ok. cbn [waiting woken slots]. intros H1 H2 H3. specialize (H1 H3). lia. Qed.

Lemma Signal_slots m : slots (Signal m) = slots m.
Proof. unfold Signal. by destruct (waiting m). Qed.

Lemma nfree_app a b : nfree (a ++ b) = (nfree a + nfree b)%nat.
Proof. unfold nfree. by rewrite List.filter_app, List.length_app. Qed.

Definition watched (rs : list ref) (s s' : slot) : Prop :=
  s' = s \/ (work s = false /\ s' = (watch_slot host rs s).1).

Lemma watch_loop_spec rs fail l seen m m' e :
  watch_loop host rs fail seen l m = (m', e) ->
  ((0 < waiting m)%nat -> (nfree (rev seen ++ l) <= woken m)%nat) ->
  wake_ok m' /\ exists l', slots m' = rev seen ++ l' /\ Forall2 (watched rs) l l'.
Proof.
  revert seen m. induction l as [|s l IH]; intros seen m E Hw; cbn [watch_loop] in E.
  { injection E as <- <-. split; [|exists []; by rewrite app_nil_r]. by rewrite app_nil_r in Hw. }
  assert (forall x, rev (x :: seen) ++ l = rev seen ++ x :: l) as Hrev by (intros x; cbn; by rewrite <- app_assoc).
  destruct (work s || free s) eqn:Es.
  { destruct (IH (s :: seen) m E) as [? (l' & Hl & Hf)]; [by rewrite Hrev|]. split; [done|]. exists (s :: l').
    split; [rewrite Hl; cbn; by rewrite <- app_assoc|]. constructor; [by left|done]. }
  apply orb_false_iff in Es as [Hwk Hfr]. destruct (fail (slotOffset s)).
  { injection E as <- <-. split; [done|]. exists (s :: l). split; [done|]. apply Forall_Forall2_diag, Forall_forall.
    by left. }
  cbn [watch_slot] in E.
  set (s' := mkSlot (slotOffset s) _ _) in E. match type of E with context [if ?b then Signal m else m] => set (sig := b) in E end.
  assert (s' = (watch_slot host rs s).1 /\ sig = free s') as [Es' Hsig] by done.
  destruct (IH (s' :: seen) (if sig then Signal m else m) E) as [? (l' & Hl & Hf)].
  - rewrite Hrev, nfree_app. unfold nfree at 2. cbn. rewrite <- Hsig. rewrite nfree_app in Hw. unfold nfree at 2 in Hw.
    cbn in Hw. rewrite Hfr in Hw. fold (nfree l) in Hw. destruct sig; fold (nfree l); [|exact Hw].
    unfold Signal. destruct (waiting m) as [|w] eqn:Ew; [intros Hlt; rewrite Ew in Hlt; lia|]. cbn. intros _.
    specialize (Hw ltac:(lia)). unfold nfree in *. cbn. lia.
  - split; [done|]. exists (s' :: l'). split; [rewrite Hl; cbn; by rewrite <- app_assoc|].
    constructor; [right; done|done].
Qed.

Lemma watched_offset rs s s' : watched rs s s' -> slotOffset s' = slotOffset s.
Proof. by intros [->|[_ ->]]. Qed.

Lemma watched_offsets rs l l' : Forall2 (watched rs) l l' -> slotOffset <$> l' = slotOffset <$> l.
Proof. induction 1 as [|s s' l l' Hw _ IH]; [done|]. rewrite !fmap_cons. by rewrite IH, (watched_offset _ _ _ Hw). Qed.

Lemma watched_elem rs l l' x : Forall2 (watched rs) l l' -> x ∈ l' -> exists s, s ∈ l /\ watched rs s x.
Proof.
  intros Hf Hx. apply list_elem_of_lookup in Hx as [i Hi]. destruct (Forall2_lookup_r _ _ _ _ _ Hf Hi) as (s & Hs & Hw).
  exists s. split; [by eapply list_elem_of_lookup_2|done].
Qed.

Lemma watched_elem_l rs l l' s : Forall2 (watched rs) l l' -> s ∈ l -> exists x, x ∈ l' /\ watched rs s x.
Proof.
  intros Hf Hx. apply list_elem_of_lookup in Hx as [i Hi]. destruct (Forall2_lookup_l _ _ _ _ _ Hf Hi) as (x & Hs & Hw).
  exists x. split; [by eapply list_elem_of_lookup_2|done].
Qed.

(** ** The invariant *)

Record batch_ok (x : machine) (off : Z) (stored : bool) (ids : list SectorID) : Prop := {
  bo_ids : ids <> [];
  bo_slot : exists s, s ∈ slots (mgr x) /\ slotOffset s = off /\ work s = true /\ (forall id, id ∈ ids -> id ∈ sectors s);
  bo_finish : forall id, id ∈ ids -> (id, off) ∉ finishing x;
  bo_refs : stored = false -> forall r, r ∈ refs x -> rf_machine r = host -> rf_slot r <> off
}.

Record machine_ok (x : machine) : Prop := {
  mo_offsets : NoDup (slotOffset <$> slots (mgr x));
  mo_refs : forall r s, r ∈ refs x -> rf_machine r = host -> s ∈ slots (mgr x) -> slotOffset s = rf_slot r ->
    rf_sector r ∈ sectors s;
  mo_batches : forall off b ids, batches x !! off = Some (b, ids) -> batch_ok x off b ids;
  mo_finishing : forall id off, (id, off) ∈ finishing x -> mkRef id host off ∉ refs x;
  mo_wake : wake_ok (mgr x)
}.

Lemma on_machine_elem r (rs : list ref) : r ∈ on_machine host rs <-> r ∈ rs /\ rf_machine r = host.
Proof.
  unfold on_machine. rewrite !list_elem_of_In, List.filter_In. by rewrite bool_decide_eq_true.
Qed.

(** A slot that is being worked in is not free. *)
Lemma batch_not_free x off b ids s : machine_ok x -> batches x !! off = Some (b, ids) ->
  s ∈ slots (mgr x) -> slotOffset s = off -> sectors s <> ∅.
Proof.
  intros I Hb Hs Ho E. destruct (mo_batches _ I _ _ _ Hb) as [Hi (y & Hy & Hyo & _ & Hin) _ _].
  assert (y = s) as ->. { eapply offset_inj; [apply (mo_offsets _ I)|..]; congruence. }
  destruct ids as [|i ids]; [done|]. specialize (Hin i ltac:(left)). rewrite E in Hin. set_solver.
Qed.

(** A free slot has no refs. *)
Lemma free_no_refs x s r : machine_ok x -> s ∈ slots (mgr x) -> sectors s = ∅ -> r ∈ refs x -> rf_machine r = host ->
  rf_slot r <> slotOffset s.
Proof. intros I Hs E Hr Hm Ho. pose proof (mo_refs _ I r s Hr Hm Hs (eq_sym Ho)) as Hin. rewrite E in Hin. set_solver. Qed.

(** ** The steps keep the invariant *)

Lemma upd_keep off f (l : list slot) s : s ∈ l -> slotOffset s <> off -> s ∈ upd off f <$> l.
Proof.
  intros Hs Ho. apply list_elem_of_fmap. exists s. split; [|done]. unfold upd. by rewrite (proj2 (Z.eqb_neq _ _) Ho).
Qed.

Lemma upd_hit off f (l : list slot) s : s ∈ l -> slotOffset s = off -> f s ∈ upd off f <$> l.
Proof. intros Hs Ho. apply list_elem_of_fmap. exists s. split; [|done]. unfold upd. by rewrite Ho, Z.eqb_refl. Qed.

(** A batch goes on if its slot keeps its work and sectors. *)
Lemma batch_keep x x' off b ids : batch_ok x off b ids ->
  (forall s, s ∈ slots (mgr x) -> slotOffset s = off -> work s = true ->
     exists s', s' ∈ slots (mgr x') /\ slotOffset s' = off /\ work s' = true /\
       forall id, id ∈ ids -> id ∈ sectors s -> id ∈ sectors s') ->
  (forall id, id ∈ ids -> (id, off) ∈ finishing x' -> (id, off) ∈ finishing x) ->
  (b = false -> forall r, r ∈ refs x' -> rf_machine r = host -> rf_slot r = off -> r ∈ refs x) ->
  batch_ok x' off b ids.
Proof.
  intros [Hi (s & Hs & Ho & Hw & Hin) Hf Hr] Hk Hfin Hrefs. constructor; [done|..].
  - destruct (Hk s Hs Ho Hw) as (s' & ? & ? & ? & Hin'). exists s'. split_and!; auto.
  - intros id Hid Hx. by apply (Hf id Hid), Hfin.
  - intros Hb r Hr' Hm Ho'. by apply (Hr Hb r (Hrefs Hb r Hr' Hm Ho') Hm).
Qed.

Lemma enters_slots m m' : enters m m' -> slots m' = slots m /\ waiting m' = waiting m /\ (woken m <= S (woken m'))%nat.
Proof. intros [?|l w k]; cbn; split_and!; try done; lia. Qed.

Lemma get_ok ids m off m' x : machine_ok x -> enters (mgr x) m -> Get ids m = Got off m' ->
  (forall id, id ∈ ids -> (id, off) ∉ finishing x) ->
  machine_ok (mkMachine m' (refs x) (<[off := (false, ids)]> (batches x)) (finishing x)).
Proof.
  intros I He E Hfin. destruct (enters_slots _ _ He) as (Hsl & Hwt & Hwk). unfold Get in E.
  destruct ids as [|i0 ids0] eqn:Eids; [done|]. rewrite <- Eids in *. assert (ids <> []) as Hne by (by rewrite Eids). clear Eids.
  destruct (take_slot ids (slots m)) as [[o l]|] eqn:Et; [|done]. injection E as <- <-. rewrite Hsl in Et.
  destruct (take_slot_upd _ _ _ _ (mo_offsets _ I) Et) as (-> & (s0 & Hs0 & Ho0 & He0) & Hnf). specialize (Hnf Hne).
  constructor; cbn.
  - rewrite offsets_upd by (intros; by right). apply (mo_offsets _ I).
  - intros r s Hr Hm Hs Ho. apply elem_upd in Hs as (y & Hy & [[Hyo ->]|[Hyo ->]]).
    + exfalso. cbn in Ho. eapply (free_no_refs x s0 r I); eauto. congruence.
    + by apply (mo_refs _ I r y).
  - intros o' b ids' Hb. destruct (decide (o' = o)) as [->|Hno].
    + rewrite lookup_insert_eq in Hb. injection Hb as <- <-. constructor; [done| |done|].
      * exists (mkSlot o (list_to_set ids) true). split_and!; [|done|done|].
        -- apply (upd_hit o (fun _ => mkSlot o (list_to_set ids) true) _ s0 Hs0 Ho0).
        -- intros id Hid. cbn. by apply elem_of_list_to_set.
      * intros _ r Hr Hm <-. by eapply (free_no_refs x s0 r I).
    + rewrite lookup_insert_ne in Hb by done. apply (batch_keep x); [by apply mo_batches| |done|done].
      intros s Hs Ho Hw. exists s. split_and!; auto. cbn. apply upd_keep; [done|congruence].
  - apply (mo_finishing _ I).
  - intros Hlt. cbn [waiting slots woken] in *. rewrite Hwt in Hlt. pose proof (mo_wake _ I Hlt). lia.
Qed.

Lemma wait_ok ids m m' x : machine_ok x -> enters (mgr x) m -> Get ids m = GetWaits m' ->
  machine_ok (mkMachine m' (refs x) (batches x) (finishing x)).
Proof.
  intros I He E. destruct (enters_slots _ _ He) as (Hsl & _ & _). unfold Get in E. destruct ids as [|i ids]; [done|].
  destruct (take_slot (i :: ids) (slots m)) as [[o l]|] eqn:Et; [done|]. injection E as <-.
  constructor; cbn; rewrite ?Hsl.
  - apply (mo_offsets _ I).
  - apply (mo_refs _ I).
  - intros off b ids' Hb. apply (batch_keep x); [by apply mo_batches| |done|done]. intros s Hs Ho Hw. exists s. cbn.
    split_and!; auto.
  - apply (mo_finishing _ I).
  - intros _. cbn [slots woken]. rewrite <- Hsl, (take_slot_none _ _ Et). lia.
Qed.

Lemma abort_ok off ids m' x : machine_ok x -> batches x !! off = Some (false, ids) -> AbortSlot off (mgr x) = Ok m' ->
  machine_ok (mkMachine m' (refs x) (delete off (batches x)) (finishing x)).
Proof.
  intros I Hb E. unfold AbortSlot in E. destruct (update_slot _ _ _) as [l|] eqn:Eu; [|done]. injection E as <-.
  destruct (update_slot_upd _ _ _ _ (mo_offsets _ I) Eu) as (-> & s0 & Hs0 & Ho0).
  constructor; cbn; rewrite ?Signal_slots; cbn [slots].
  - rewrite offsets_upd by (intros; by left). apply (mo_offsets _ I).
  - intros r s Hr Hm Hs Ho. apply elem_upd in Hs as (y & Hy & [[Hyo ->]|[Hyo ->]]).
    + exfalso. cbn in Ho. by apply (bo_refs _ _ _ _ (mo_batches _ I _ _ _ Hb) eq_refl r Hr Hm); congruence.
    + by apply (mo_refs _ I r y).
  - intros o' b ids' Hb'. destruct (decide (o' = off)) as [->|Hno]; [by rewrite lookup_delete_eq in Hb'|].
    rewrite lookup_delete_ne in Hb' by done. apply (batch_keep x); [by apply mo_batches| |done|done].
    intros s Hs Ho Hw. exists s. cbn. rewrite Signal_slots. split_and!; auto. apply upd_keep; [done|congruence].
  - apply (mo_finishing _ I).
  - eapply wake_signal; [apply (mo_wake _ I)|]. etrans; [by apply (nfree_upd _ _ _ s0); [apply (mo_offsets _ I)|..]|].
    by case_match.
Qed.

Lemma store_ok off ids x : machine_ok x -> batches x !! off = Some (false, ids) ->
  machine_ok (mkMachine (mgr x) (((fun id => mkRef id host off) <$> ids) ++ refs x)
    (<[off := (true, ids)]> (batches x)) (finishing x)).
Proof.
  intros I Hb. pose proof (mo_batches _ I _ _ _ Hb) as B. constructor; cbn; [apply (mo_offsets _ I)|..|apply (mo_wake _ I)].
  - intros r s Hr Hm Hs Ho. apply elem_of_app in Hr as [(id & -> & Hid)%list_elem_of_fmap|Hr]; [|by apply (mo_refs _ I r s)].
    destruct (bo_slot _ _ _ _ B) as (s1 & Hs1 & Ho1 & _ & Hin). cbn in Ho |- *.
    assert (s1 = s) as <-; [|auto]. eapply offset_inj; [apply (mo_offsets _ I)|..]; congruence.
  - intros o' b ids' Hb'. destruct (decide (o' = off)) as [->|Hno].
    + rewrite lookup_insert_eq in Hb'. injection Hb' as <- <-. destruct B. by constructor.
    + rewrite lookup_insert_ne in Hb' by done. apply (batch_keep x); [by apply mo_batches| |done|].
      * intros s Hs Ho Hw. by exists s.
      * intros _ r Hr _ Ho. cbn in Hr. apply elem_of_app in Hr as [(id & -> & Hid)%list_elem_of_fmap|Hr]; [|done]. by cbn in Ho.
  - intros id o Hf Hr. apply elem_of_app in Hr as [(id' & [= -> ->] & Hid)%list_elem_of_fmap|Hr].
    + by apply (bo_finish _ _ _ _ B id').
    + by eapply (mo_finishing _ I).
Qed.

Lemma work_done_ok off ids m' x : machine_ok x -> batches x !! off = Some (true, ids) -> MarkWorkDone off (mgr x) = Ok m' ->
  machine_ok (mkMachine m' (refs x) (delete off (batches x)) (finishing x)).
Proof.
  intros I Hb E. unfold MarkWorkDone in E. destruct (update_slot _ _ _) as [l|] eqn:Eu; [|done]. injection E as <-.
  destruct (update_slot_upd _ _ _ _ (mo_offsets _ I) Eu) as (-> & s0 & Hs0 & Ho0).
  constructor; cbn.
  - rewrite offsets_upd by (intros; by left). apply (mo_offsets _ I).
  - intros r s Hr Hm Hs Ho. apply elem_upd in Hs as (y & Hy & [[Hyo ->]|[Hyo ->]]); by apply (mo_refs _ I r y).
  - intros o' b ids' Hb'. destruct (decide (o' = off)) as [->|Hno]; [by rewrite lookup_delete_eq in Hb'|].
    rewrite lookup_delete_ne in Hb' by done. apply (batch_keep x); [by apply mo_batches| |done|done].
    intros s Hs Ho Hw. exists s. cbn. split_and!; auto. apply upd_keep; [done|congruence].
  - apply (mo_finishing _ I).
  - eapply wake_same; [apply (mo_wake _ I)|]. assert (free (mkSlot (slotOffset s0) (sectors s0) false) = false) as Hf.
    { apply bool_decide_eq_false. cbn. by eapply batch_not_free. }
    etrans; [by apply (nfree_upd _ _ _ s0); [apply (mo_offsets _ I)|..]|]. cbv beta. rewrite Hf. lia.
Qed.

Lemma delete_refs_elem id (rs : list ref) r : r ∈ delete_refs id rs <-> r ∈ rs /\ rf_sector r <> id.
Proof.
  unfold delete_refs. rewrite !list_elem_of_In, List.filter_In. by rewrite negb_true_iff, bool_decide_eq_false.
Qed.

(** Fewer refs are no harm. *)
Lemma fewer_refs_ok (rs : list ref) x : machine_ok x -> rs ⊆ refs x ->
  machine_ok (mkMachine (mgr x) rs (batches x) (finishing x)).
Proof.
  intros I Hsub. constructor; cbn; [apply (mo_offsets _ I)|..|apply (mo_wake _ I)].
  - intros r s Hr. apply (mo_refs _ I r s). by apply Hsub.
  - intros off b ids Hb. apply (batch_keep x); [by apply mo_batches| |done|].
    + intros s Hs Ho Hw. by exists s.
    + intros _ r Hr _ _. by apply Hsub.
  - intros id off Hf Hr. by apply (mo_finishing _ I id off Hf), Hsub.
Qed.

Lemma finish_ok id off x : machine_ok x -> batches x !! off = None ->
  machine_ok (mkMachine (mgr x) (delete_refs id (refs x)) (batches x) ((id, off) :: finishing x)).
Proof.
  intros I Hb. assert (delete_refs id (refs x) ⊆ refs x) as Hsub by (intros r; rewrite delete_refs_elem; tauto).
  pose proof (fewer_refs_ok _ x I Hsub) as I'. constructor; cbn; try apply I'.
  - intros o b ids Hb'. apply (batch_keep (mkMachine (mgr x) (delete_refs id (refs x)) (batches x) (finishing x)));
      [by apply (mo_batches _ I')| | |done].
    + intros s Hs Ho Hw. by exists s.
    + intros i _ Hi. cbn in Hi |- *. apply elem_of_cons in Hi as [[= -> ->]|Hi]; [congruence|done].
  - intros i o Hi Hr. apply elem_of_cons in Hi as [[= -> ->]|Hi].
    + apply delete_refs_elem in Hr as [_ Hn]. by apply Hn.
    + by apply (mo_finishing _ I' i o).
Qed.

Lemma find_slot off (l : list slot) s : NoDup (slotOffset <$> l) -> s ∈ l -> slotOffset s = off ->
  find (fun s => slotOffset s =? off) l = Some s.
Proof.
  intros Hd Hs Ho. destruct (find _ l) as [y|] eqn:E.
  - apply find_some in E as [Hy Hyo]. apply Z.eqb_eq in Hyo. f_equal. eapply offset_inj; [done|by apply list_elem_of_In|done|congruence].
  - apply list_elem_of_In in Hs. pose proof (find_none _ _ E _ Hs) as Hf. cbn in Hf. by rewrite Ho, Z.eqb_refl in Hf.
Qed.

Lemma finished_ok id off m' fin fin' x : machine_ok x -> finishing x = fin ++ (id, off) :: fin' ->
  SectorDone off id (mgr x) = Ok m' -> machine_ok (mkMachine m' (refs x) (batches x) (fin ++ fin')).
Proof.
  intros I Hf E. unfold SectorDone in E. destruct (update_slot _ _ _) as [l|] eqn:Eu; [|done].
  destruct (update_slot_upd _ _ _ _ (mo_offsets _ I) Eu) as (-> & s0 & Hs0 & Ho0).
  rewrite (find_slot off _ s0 (mo_offsets _ I) Hs0 Ho0) in E. injection E as <-.
  assert ((id, off) ∈ finishing x) as Hin by (rewrite Hf, elem_of_app, elem_of_cons; tauto).
  assert (forall y, y ∈ fin ++ fin' -> y ∈ finishing x) as Hsub.
  { intros y. rewrite Hf, !elem_of_app, elem_of_cons. tauto. }
  match goal with |- machine_ok (mkMachine (if ?b then _ else _) _ _ _) => set (sig := b) end.
  set (l' := upd _ _ <$> slots (mgr x)).
  assert (slots (if sig then Signal (mkMgr l' (waiting (mgr x)) (woken (mgr x))) else mkMgr l' (waiting (mgr x)) (woken (mgr x))) = l')
    as Hsl by (destruct sig; rewrite ?Signal_slots; done).
  constructor; cbn [mgr refs batches finishing]; rewrite ?Hsl.
  - unfold l'. rewrite offsets_upd by (intros; by left). apply (mo_offsets _ I).
  - intros r s Hr Hm Hs Ho. apply elem_upd in Hs as (y & Hy & [[Hyo ->]|[Hyo ->]]); [|by apply (mo_refs _ I r y)].
    cbn in Ho |- *. pose proof (mo_refs _ I r y Hr Hm Hy Ho) as Hs. apply elem_of_difference. split; [done|].
    intros Hi%elem_of_singleton. apply (mo_finishing _ I id off Hin). 
    rewrite <- Hi, <- Hm, <- Hyo, Ho. by destruct r.
  - intros o b ids Hb. pose proof (mo_batches _ I _ _ _ Hb) as B. apply (batch_keep x); [done| | |done].
    + intros s Hs Ho Hw. cbn [mgr]. rewrite Hsl. destruct (decide (o = off)) as [->|Hno].
      * exists (mkSlot (slotOffset s) (sectors s ∖ {[id]}) (work s)). split_and!; [|done|done|].
        -- by apply (upd_hit off (fun s => mkSlot (slotOffset s) (sectors s ∖ {[id]}) (work s))).
        -- intros i Hi Hsi. cbn. apply elem_of_difference. split; [done|]. intros ->%elem_of_singleton.
           by apply (bo_finish _ _ _ _ B id).
      * exists s. split_and!; auto. apply upd_keep; [done|congruence].
    + intros i _. apply Hsub.
  - intros i o Hi. apply (mo_finishing _ I). by apply Hsub.
  - pose proof (nfree_upd off (fun s => mkSlot (slotOffset s) (sectors s ∖ {[id]}) (work s)) _ s0 (mo_offsets _ I) Hs0 Ho0) as Hn.
    change (free ((fun s => mkSlot (slotOffset s) (sectors s ∖ {[id]}) (work s)) s0)) with sig in Hn. fold l' in Hn.
    destruct sig.
    + eapply wake_signal; [apply (mo_wake _ I)|]. lia.
    + eapply wake_same; [apply (mo_wake _ I)|]. lia.
Qed.

Lemma watch_ok fail m' e x : machine_ok x -> watchSingle host (refs x) fail (mgr x) = (m', e) ->
  machine_ok (mkMachine m' (refs x) (batches x) (finishing x)).
Proof.
  intros I E. destruct (watch_loop_spec _ _ _ _ _ _ _ E) as [Hw (l' & Hl & Hf)]; [apply (mo_wake _ I)|].
  cbn in Hl. constructor; cbn [mgr refs batches finishing]; rewrite ?Hl; [|..|apply (mo_finishing _ I)|done].
  - rewrite (watched_offsets _ _ _ Hf). apply (mo_offsets _ I).
  - intros r s Hr Hm Hs Ho. destruct (watched_elem _ _ _ _ Hf Hs) as (y & Hy & [->|[_ ->]]); [by apply (mo_refs _ I r y)|].
    cbn in Ho |- *. apply elem_of_filter. split; [|by apply (mo_refs _ I r y)]. apply existsb_exists. exists r.
    split; [by apply list_elem_of_In, on_machine_elem|]. rewrite bool_decide_eq_true_2 by done. by rewrite Ho, Z.eqb_refl.
  - intros o b ids Hb. apply (batch_keep x); [by apply mo_batches| |done|done]. intros s Hs Ho Hwk.
    destruct (watched_elem_l _ _ _ _ Hf Hs) as (s' & Hs' & [->|[Hf' _]]); [|congruence]. exists s. cbn [mgr]. rewrite Hl.
    by split_and!.
Qed.

Lemma load_refs_spec rs l l' : NoDup (slotOffset <$> l) -> load_refs l rs = Ok l' ->
  slotOffset <$> l' = slotOffset <$> l /\
  (forall s', s' ∈ l' -> exists s, s ∈ l /\ slotOffset s' = slotOffset s /\ sectors s ⊆ sectors s' /\
     forall r, r ∈ rs -> rf_slot r = slotOffset s' -> rf_sector r ∈ sectors s').
Proof.
  revert l. induction rs as [|r rs IH]; intros l Hd E; cbn in E.
  { injection E as <-. split; [done|]. intros s Hs. exists s. split_and!; try done. intros r Hr. by apply not_elem_of_nil in Hr. }
  destruct (update_slot _ _ l) as [k|] eqn:Eu; [|done]. destruct (update_slot_upd _ _ _ _ Hd Eu) as (-> & _).
  match type of Eu with update_slot _ ?f _ = _ => set (g := f) in * end.
  assert (slotOffset <$> (upd (rf_slot r) g <$> l) = slotOffset <$> l) as Ho by (apply offsets_upd; by left).
  destruct (IH _ ltac:(by rewrite Ho) E) as [Hl Hs]. split; [by rewrite Hl|].
  intros s' Hs'. destruct (Hs s' Hs') as (y & Hy & Hyo & Hsub & Hr). apply elem_upd in Hy as (s & Hsl & Hcase).
  exists s. split; [done|]. destruct Hcase as [[Hso ->]|[Hso ->]].
  - split; [done|]. cbn in Hyo, Hsub. clear -Hsub Hr. split; [set_solver|]. intros r' [->|Hr']%elem_of_cons Heq; [clear Hr; set_solver|auto].
  - split_and!; [done..|]. intros r' [->|Hr']%elem_of_cons Heq; [congruence|auto].
Qed.

Lemma new_offsets (os : list Z) : slotOffset <$> ((fun off => mkSlot off ∅ false) <$> os) = os.
Proof. induction os as [|o os IH]; [done|]. rewrite !fmap_cons. by rewrite IH. Qed.

Lemma new_ok m (rs : list ref) : NoDup offs -> NewSlotMgr host offs rs = Ok m -> machine_ok (mkMachine m rs ∅ []).
Proof.
  intros Hd E. unfold NewSlotMgr in E. destruct (load_refs _ _) as [l|] eqn:El; [|done]. injection E as <-.
  pose proof (new_offsets offs) as Ho.
  destruct (load_refs_spec _ _ _ ltac:(by rewrite Ho) El) as [Hl Hs].
  constructor; cbn.
  - by rewrite Hl, Ho.
  - intros r s Hr Hm Hsl Hso. destruct (Hs s Hsl) as (y & _ & _ & _ & Hin). apply Hin; [by apply on_machine_elem|done].
  - intros o b ids Hb. by rewrite lookup_empty in Hb.
  - intros id o Hx. by apply not_elem_of_nil in Hx.
  - intros Hx. cbn in Hx. lia.
Qed.

Lemma machine_step_ok x y : NoDup offs -> machine_ok x -> machine_step x y -> machine_ok y.
Proof.
  intros Hd I Hs. destruct Hs.
  - by eapply get_ok.
  - by eapply wait_ok.
  - by eapply abort_ok.
  - by apply store_ok.
  - by eapply work_done_ok.
  - by apply finish_ok.
  - by eapply finished_ok.
  - by eapply watch_ok.
  - by apply fewer_refs_ok.
  - by apply new_ok.
Qed.

(** C23: a slot that [Get] gives to a batch is used by nobody else: in any
    interleaving of batches, aborts, finalizations, watches, deletions of refs
    by the operator and restarts, no batch works in it and no sector that is not
    finalized yet has its data there, and afterwards it holds exactly the
    sectors of the batch. *)
Theorem slot_exclusive rs0 m0 x ids m off m' : NoDup offs -> NewSlotMgr host offs rs0 = Ok m0 ->
  rtc machine_step (mkMachine m0 rs0 ∅ []) x -> enters (mgr x) m -> Get ids m = Got off m' ->
  batches x !! off = None /\ (forall r, r ∈ refs x -> rf_machine r = host -> rf_slot r <> off) /\
  exists s, s ∈ slots m' /\ slotOffset s = off /\ sectors s = list_to_set ids /\ work s = true.
Proof.
  intros Hd E Hr He Hg.
  assert (machine_ok x) as I by (eapply (rtc_invariant machine_step machine_ok); eauto using machine_step_ok, new_ok).
  destruct (enters_slots _ _ He) as (Hsl & _). unfold Get in Hg. destruct ids as [|i ids]; [done|].
  destruct (take_slot (i :: ids) (slots m)) as [[o l]|] eqn:Et; [|done]. injection Hg as <- <-. rewrite Hsl in Et.
  destruct (take_slot_upd _ _ _ _ (mo_offsets _ I) Et) as (-> & (s & Hs & Ho & Hes) & _). split_and!.
  - destruct (batches x !! o) as [[b js]|] eqn:Eb; [|done]. by destruct (batch_not_free _ _ _ _ _ I Eb Hs Ho).
  - intros r Hr' Hm. rewrite <- Ho. by eapply free_no_refs.
  - eexists. split; [by apply (upd_hit o (fun _ => mkSlot o (list_to_set (i :: ids)) true) _ s)|done].
Qed.

(** C37: no wake-up is lost: while callers of [Get] wait, every free slot has a
    caller that was signalled and will look for it, and refs of sectors that
    are not finalized keep their slot taken. *)
Theorem no_lost_wakeup rs0 m0 x : NoDup offs -> NewSlotMgr host offs rs0 = Ok m0 ->
  rtc machine_step (mkMachine m0 rs0 ∅ []) x ->
  ((0 < waiting (mgr x))%nat -> Available (mgr x) <= Z.of_nat (woken (mgr x))) /\
  forall r s, r ∈ refs x -> rf_machine r = host -> s ∈ slots (mgr x) -> slotOffset s = rf_slot r -> rf_sector r ∈ sectors s.
Proof.
  intros Hd E Hr.
  assert (machine_ok x) as I by (eapply (rtc_invariant machine_step machine_ok); eauto using machine_step_ok, new_ok).
  split; [|apply (mo_refs _ I)]. intros Hw. pose proof (mo_wake _ I Hw) as Hn. unfold Available. unfold nfree in Hn. lia.
Qed.
End Machine.

(** ** Two slots *)

Definition ex_refs : list ref := [mkRef (1000, 1) "a:1" 0; mkRef (1000, 9) "b:1" 64].
Definition ex_mgr : SlotMgr := mkMgr [mkSlot 0 {[ (1000, 1) ]} false; mkSlot 64 ∅ false] 0 0.
(** A batch takes the second slot, two more have to wait. *)
Definition ex_taken : SlotMgr := mkMgr [mkSlot 0 {[ (1000, 1) ]} false; mkSlot 64 {[ (1000, 2) ]} true] 0 0.
Definition ex_waiting : SlotMgr := mkMgr (slots ex_taken) 1 0.
(** The first sector is finalized, which wakes one of them. *)
Definition ex_woken : SlotMgr := mkMgr [mkSlot 0 ∅ false; mkSlot 64 {[ (1000, 2) ]} true] 1 1.

Lemma ex_run_machine : rtc (machine_step "a:1" [0; 64]) (mkMachine ex_mgr ex_refs ∅ [])
  (mkMachine ex_woken [mkRef (1000, 9) "b:1" 64] {[ 64 := (false, [(1000, 2)]) ]} []).
Proof.
  eapply rtc_l. { apply (my_get "a:1" [0; 64] [(1000, 2)] ex_mgr 64 ex_taken); [constructor|by vm_compute|]. intros ? _ Hx. by apply not_elem_of_nil in Hx. }
  eapply rtc_l. { apply (my_wait "a:1" [0; 64] [(1000, 3)] ex_taken ex_waiting); [constructor|by vm_compute]. }
  eapply rtc_l. { apply (my_wait "a:1" [0; 64] [(1000, 4)] ex_waiting (mkMgr (slots ex_taken) 2 0)); [constructor|by vm_compute]. }
  eapply rtc_l. { apply (my_finish "a:1" [0; 64] (1000, 1) 0); [left|done]. }
  apply rtc_once. apply (my_finished "a:1" [0; 64] (1000, 1) 0 ex_woken [] []); [done|by vm_compute].
Qed.

Lemma slot_exclusive_witness :
  exists m', Get [(1000, 3)] (mkMgr (slots ex_woken) 1 0) = Got 0 m' /\
  exists s, s ∈ slots m' /\ slotOffset s = 0 /\ sectors s = list_to_set [(1000, 3)] /\ work s = true.
Proof.
  eexists. split; [vm_compute; reflexivity|].
  apply (slot_exclusive "a:1" [0; 64] ex_refs ex_mgr (mkMachine ex_woken [mkRef (1000, 9) "b:1" 64] {[ 64 := (false, [(1000, 2)]) ]} [])
    [(1000, 3)] (mkMgr (slots ex_woken) 1 0) 0).
  - apply NoDup_cons; split; [by intros ?%list_elem_of_singleton|apply NoDup_singleton].
  - by vm_compute.
  - exact ex_run_machine.
  - apply enter_woken.
  - by vm_compute.
Defined.

Lemma no_lost_wakeup_witness : waiting ex_woken = 1%nat /\ Available ex_woken <= 1.
Proof.
  split; [reflexivity|]. apply (no_lost_wakeup "a:1" [0; 64] ex_refs ex_mgr
    (mkMachine ex_woken [mkRef (1000, 9) "b:1" 64] {[ 64 := (false, [(1000, 2)]) ]} [])); [| | |cbn; lia].
  - apply NoDup_cons; split; [by intros ?%list_elem_of_singleton|apply NoDup_singleton].
  - by vm_compute.
  - exact ex_run_machine.
Defined.
