(* ===== verification/IPThrottle.v ===== *)
(** * Throttling of client addresses ([pdp/ip_offense_throttle.go])

    The PDP service counts offenses per client address and kind, and blocks an
    address for a while when there are too many in a window.  Entries that can no
    longer matter are removed, for an address when it is seen and for all of
    them periodically. *)

From stdpp Require Import base gmap sets list strings.
From Stdlib Require Import ZArith Lia.
From S2P Require Import Prelude.

Record IPOffensePolicy := mkPolicy { Hits : Z; Window : duration; Block : duration; Reason : string }.

Record ipOffenseState := mkOffense { hits : Z; windowStart : time; blockedUntil : time }.

Abbreviation policies := (gmap string IPOffensePolicy).
Abbreviation offenses := (gmap string ipOffenseState).
Abbreviation throttle := (gmap string (gmap string ipOffenseState)).

Definition offenseStateExpired (st : ipOffenseState) (policy : IPOffensePolicy) (now : time) : bool :=
  if time_before now (blockedUntil st) then false
  else if (hits st >? 0) && (time_sub now (windowStart st) <? i64 (Window policy * 2)) then false
  else true.

Definition defaultIPOffensePolicies : policies :=
  {[ "bad_dataset_add" := mkPolicy 5 Minute (5 * Minute) "too many requests for unavailable data sets" ]}.

(** What an entry of kind [offense] is kept for by the clean-up. *)
Definition kept (pol : policies) (now : time) (e : string * ipOffenseState) : Prop :=
  match pol !! e.1 with
  | Some policy => offenseStateExpired e.2 policy now = false
  | None => False
  end.

#[export] Instance kept_dec pol now e : Decision (kept pol now e).
Proof. unfold kept. destruct (pol !! e.1); apply _. Defined.

Section Throttle.
Context (pol : policies).

Definition cleanupIPLocked (ip : string) (now : time) (t : throttle) : throttle :=
  match t !! ip with
  | None => t
  | Some offs =>
      let offs' := filter (kept pol now) offs in
      if bool_decide (offs' = ∅) then delete ip t else <[ip := offs']> t
  end.

Definition cleanupAll (now : time) (t : throttle) : throttle :=
  foldr (fun ip t => cleanupIPLocked ip now t) t (fst <$> map_to_list t).

(** The entry of an offense after one more: the part of [Record] after the entry
    was found or made.  [now2] is the clock of [time.Until]. *)
Definition record_hit (policy : IPOffensePolicy) (now now2 : time) (st : ipOffenseState)
    : ipOffenseState * (bool * duration * string) :=
  if time_before now (blockedUntil st) then (st, (true, time_sub (blockedUntil st) now2, Reason policy))
  else
    let st := if time_sub now (windowStart st) >=? Window policy then mkOffense 0 now (blockedUntil st) else st in
    let st := mkOffense (i64 (hits st + 1)) (windowStart st) (blockedUntil st) in
    if hits st <? Hits policy then (st, (false, 0, Reason policy))
    else (mkOffense 0 now (time_add now (Block policy)), (true, Block policy, Reason policy)).

Definition Record_ (ip offense : string) (now now2 : time) (t : throttle) : throttle * (bool * duration * string) :=
  match pol !! offense with
  | None => (t, (false, 0, ""))
  | Some policy =>
      if bool_decide (ip = "") then (t, (false, 0, Reason policy))
      else
        let t := cleanupIPLocked ip now t in
        let offs := default ∅ (t !! ip) in
        let st := default (mkOffense 0 now 0) (offs !! offense) in
        let '(st', res) := record_hit policy now now2 st in
        (<[ip := <[offense := st']> offs]> t, res)
  end.

(** The loop of [longestBlock] over the entries of an address. *)
Definition longest (now now2 : time) (offs : offenses) : bool * duration * string :=
  foldr (fun e acc =>
    let '(blocked, retryAfter, reason) := acc in
    if negb (time_before now (blockedUntil e.2)) then acc
    else
      let remaining := time_sub (blockedUntil e.2) now2 in
      if negb blocked || (remaining >? retryAfter)
      then (true, remaining, match pol !! e.1 with Some p => Reason p | None => "" end)
      else acc) (false, 0, "") (map_to_list offs).

Definition longestBlock (ip : string) (now now2 : time) (t : throttle) : throttle * (bool * duration * string) :=
  if bool_decide (ip = "") then (t, (false, 0, ""))
  else
    let t := cleanupIPLocked ip now t in
    match t !! ip with
    | None => (t, (false, 0, ""))
    | Some offs => (t, longest now now2 offs)
    end.

(** ** What the throttle promises

    Without any clean-up and any storage concern: one entry per address and
    kind, from the first offense on. *)
Definition spec_record (ip offense : string) (now now2 : time) (a : throttle) : throttle * (bool * duration * string) :=
  match pol !! offense with
  | None => (a, (false, 0, ""))
  | Some policy =>
      if bool_decide (ip = "") then (a, (false, 0, Reason policy))
      else
        let offs := default ∅ (a !! ip) in
        let st := default (mkOffense 0 now 0) (offs !! offense) in
        let '(st', res) := record_hit policy now now2 st in
        (<[ip := <[offense := st']> offs]> a, res)
  end.

Definition spec_check (ip : string) (now now2 : time) (a : throttle) : bool * duration :=
  if bool_decide (ip = "") then (false, 0) else (longest now now2 (default ∅ (a !! ip))).1.

(** A request is an offense, a check by the middleware, or the periodic
    clean-up, at a time and with the clock of [time.Until]. *)
Inductive request := Offense (ip offense : string) | Check_ (ip : string) | CleanupAll.

Definition serve (r : request) (now now2 : time) (t : throttle) : throttle * (bool * duration) :=
  match r with
  | Offense ip o => let '(t', res) := Record_ ip o now now2 t in (t', res.1)
  | Check_ ip => let '(t', res) := longestBlock ip now now2 t in (t', res.1)
  | CleanupAll => (cleanupAll now t, (false, 0))
  end.

Definition spec_serve (r : request) (now now2 : time) (a : throttle) : throttle * (bool * duration) :=
  match r with
  | Offense ip o => let '(a', res) := spec_record ip o now now2 a in (a', res.1)
  | Check_ ip => (a, spec_check ip now now2 a)
  | CleanupAll => (a, (false, 0))
  end.

Fixpoint answers (sv : request -> time -> time -> throttle -> throttle * (bool * duration))
    (l : list (request * time * time)) (t : throttle) : list (bool * duration) :=
  match l with
  | [] => []
  | (r, now, now2) :: l' => let '(t', res) := sv r now now2 t in res :: answers sv l' t'
  end.

(** Requests in the order of time. *)
Fixpoint in_order (now : time) (l : list (request * time * time)) : Prop :=
  match l with
  | [] => True
  | (_, n, n2) :: l' => now <= n /\ n <= n2 /\ in_order n l'
  end.

(** A policy whose block is at least as long as its window. *)
Definition policy_ok (p : IPOffensePolicy) : Prop :=
  0 < Window p <= Block p /\ Block p <= max_i64 / 2 /\ 0 < Hits p <= max_i64.

(** ** The clean-up is not observable *)

Definition lk (t : throttle) (ip off : string) : option ipOffenseState := t !! ip ≫= fun o => o !! off.

Definition entry_ok (p : IPOffensePolicy) (now : time) (s : ipOffenseState) : Prop :=
  0 <= hits s < Hits p /\ 0 <= windowStart s <= now /\
  (hits s = 0 -> blockedUntil s = windowStart s + Block p).

(** An entry that was kept, and the same entry of the specification. *)
Definition same_entry (now : time) (s s' : ipOffenseState) : Prop :=
  hits s = hits s' /\ windowStart s = windowStart s' /\
  (blockedUntil s = blockedUntil s' \/ (blockedUntil s <= now /\ blockedUntil s' <= now)).

Definition sim (p : IPOffensePolicy) (now : time) (c a : option ipOffenseState) : Prop :=
  match c, a with
  | Some s, Some s' => same_entry now s s' /\ entry_ok p now s /\ entry_ok p now s'
  | None, Some s' => offenseStateExpired s' p now = true /\ entry_ok p now s'
  | None, None => True
  | Some _, None => False
  end.

Definition throttle_sim (now : time) (t a : throttle) : Prop :=
  forall ip off, match pol !! off with
  | Some p => sim p now (lk t ip off) (lk a ip off)
  | None => lk t ip off = None /\ lk a ip off = None
  end.

Lemma time_sub_lt a b w : 0 <= w <= max_i64 -> (time_sub a b <? w) = (a - b <? w).
Proof.
  unfold time_sub, clamp_i64, max_i64, min_i64. intros Hw.
  destruct (Z.ltb_spec (a - b) w), (Z.ltb_spec (Z.max (- 2 ^ 63) (Z.min (2 ^ 63 - 1) (a - b))) w); try done; lia.
Qed.

Lemma policy_widths p : policy_ok p ->
  0 <= Window p <= max_i64 /\ i64 (Window p * 2) = Window p * 2 /\ 0 <= Window p * 2 <= max_i64.
Proof.
  intros (Hw & Hb & _). unfold in_i64, max_i64, min_i64 in *.
  assert ((2 ^ 63 - 1) / 2 = 2 ^ 62 - 1) as E by reflexivity. rewrite E in Hb.
  split_and!; try lia. apply i64_small. unfold in_i64, max_i64, min_i64. lia.
Qed.

(** An entry is expired when it neither blocks nor counts. *)
Lemma expired_iff p st now : policy_ok p ->
  offenseStateExpired st p now = true <->
  blockedUntil st <= now /\ (hits st <= 0 \/ Window p * 2 <= now - windowStart st).
Proof.
  intros Hp. destruct (policy_widths p Hp) as (_ & Hw & Hw2). unfold offenseStateExpired, time_before.
  rewrite Hw, time_sub_lt by done. destruct (Z.ltb_spec now (blockedUntil st)); [split; [done|lia]|].
  rewrite Z.gtb_ltb. destruct (Z.ltb_spec 0 (hits st)), (Z.ltb_spec (now - windowStart st) (Window p * 2)); cbn; split; try done; lia.
Qed.

Lemma sim_later p now now' c a : policy_ok p -> now <= now' -> sim p now c a -> sim p now' c a.
Proof.
  intros Hp Hle. unfold sim, same_entry, entry_ok. destruct c as [s|], a as [s'|]; try done.
  - intros ((? & ? & ?) & (? & ? & ?) & (? & ? & ?)). split_and!; lia || auto.
  - intros [He (? & ? & ?)]. apply (expired_iff p s' now Hp) in He. split; [apply (expired_iff p s' now' Hp); lia|]. split_and!; lia || auto.
Qed.

(** What the clean-up of an address leaves. *)
Lemma lk_cleanup ip now t ip' off : lk (cleanupIPLocked ip now t) ip' off =
  if decide (ip' = ip) then
    match lk t ip off with Some s => if decide (kept pol now (off, s)) then Some s else None | None => None end
  else lk t ip' off.
Proof.
  unfold cleanupIPLocked, lk. destruct (t !! ip) as [offs|] eqn:Et.
  - case_bool_decide as Ee.
    + case_decide as Ei; [subst ip'|by rewrite lookup_delete_ne by done]. rewrite lookup_delete_eq. cbn.
      destruct (offs !! off) as [s|] eqn:Es; [|done]. case_decide as Hk; [|done]. exfalso.
      assert (filter (kept pol now) offs !! off = Some s) as Hf by (by apply map_lookup_filter_Some). by rewrite Ee in Hf.
    + case_decide as Ei; [subst ip'|by rewrite lookup_insert_ne by done]. rewrite lookup_insert_eq. cbn.
      destruct (offs !! off) as [s|] eqn:Es; [|apply map_lookup_filter_None; by left].
      case_decide as Hk; [by apply map_lookup_filter_Some|]. apply map_lookup_filter_None. right. congruence.
  - case_decide as Ei; [subst ip'|done]. by rewrite Et.
Qed.

Lemma sim_cleanup now ip t a : (forall o p, pol !! o = Some p -> policy_ok p) ->
  throttle_sim now t a -> throttle_sim now (cleanupIPLocked ip now t) a.
Proof.
  intros Hpol Hs ip' off. specialize (Hs ip' off). rewrite lk_cleanup. case_decide as Ei; [subst ip'|done].
  destruct (pol !! off) as [p|] eqn:Ep.
  - specialize (Hpol off p Ep). destruct (lk t ip off) as [s|]; [|done]. case_decide as Hk; [done|].
    unfold kept in Hk. cbn in Hk. rewrite Ep in Hk. apply not_false_iff_true, (expired_iff p s now Hpol) in Hk.
    unfold sim in Hs |- *. destruct (lk a ip off) as [s'|]; [|done]. destruct Hs as ((Hh & Hw & Hb) & _ & He).
    split; [|done]. apply (expired_iff p s' now Hpol). rewrite <- Hh, <- Hw. destruct Hb; lia.
  - destruct Hs as [Ht Ha]. by rewrite Ht.
Qed.

Lemma sim_cleanup_all now t a : (forall o p, pol !! o = Some p -> policy_ok p) ->
  throttle_sim now t a -> throttle_sim now (cleanupAll now t) a.
Proof.
  intros Hpol Hs. unfold cleanupAll. induction (fst <$> map_to_list t) as [|ip l IH]; [done|]. cbn. by apply sim_cleanup.
Qed.

(** One more offense answers the same and leaves the same. *)
Lemma sim_hit p now now2 c a : policy_ok p -> 0 <= now -> sim p now c a ->
  let rc := record_hit p now now2 (default (mkOffense 0 now 0) c) in
  let ra := record_hit p now now2 (default (mkOffense 0 now 0) a) in
  rc.2 = ra.2 /\ sim p now (Some rc.1) (Some ra.1).
Proof.
  intros Hp Hnow Hs. destruct (policy_widths p Hp) as (Hw & _ & _). destruct Hp as (Hwin & Hblk & Hh).
  unfold record_hit, time_before. rewrite !Z.geb_leb, !Z.leb_antisym, !time_sub_lt by done.
  set (sc := default _ c). set (sa := default _ a).
  assert ((now <? blockedUntil sc) = (now <? blockedUntil sa) /\
    ((now <? blockedUntil sa) = true -> sc = sa /\ entry_ok p now sa)) as [Eb Hb].
  { unfold sc, sa, sim, same_entry in *. destruct c as [s|], a as [s'|]; cbn; try done.
    - destruct Hs as ((E1 & E2 & E3) & Ha & Hb). destruct (Z.ltb_spec now (blockedUntil s)), (Z.ltb_spec now (blockedUntil s')); try (split; [done|done]); try lia.
      split; [done|]. intros _. split; [|done]. destruct s, s'; cbn in *. f_equal; try done. lia.
    - destruct Hs as [He _]. apply (expired_iff p s' now (conj Hwin (conj Hblk Hh))) in He.
      rewrite (proj2 (Z.ltb_ge now 0) Hnow), (proj2 (Z.ltb_ge _ _) (proj1 He)). done.
    - rewrite (proj2 (Z.ltb_ge now 0) Hnow). done. }
  rewrite Eb. destruct (now <? blockedUntil sa) eqn:Ea.
  { destruct (Hb eq_refl) as [-> He]. cbn. split; [done|].
    split; [|by split]. unfold same_entry. split_and!; [done|done|by left]. }
  set (wc := if negb (now - windowStart sc <? Window p) then _ else sc).
  set (wa := if negb (now - windowStart sa <? Window p) then _ else sa).
  assert (hits wc = hits wa /\ windowStart wc = windowStart wa /\ blockedUntil wc <= now /\ blockedUntil wa <= now /\
          0 <= hits wa < Hits p /\ 0 <= windowStart wa <= now) as (E1 & E2 & Hc & Hd & Hhit & Hws).
  { apply Z.ltb_ge in Eb, Ea. unfold wc, wa, sc, sa, sim, same_entry, entry_ok in *. destruct c as [s|], a as [s'|]; cbn in *; try done.
    - destruct Hs as ((E1 & E2 & _) & Hs1 & Hs2). rewrite E1 in *. rewrite E2 in *.
      destruct (now - windowStart s' <? Window p); cbn; lia.
    - destruct Hs as [He (Hi1 & Hi2 & Hi3)]. apply (expired_iff p s' now (conj Hwin (conj Hblk Hh))) in He.
      rewrite Z.sub_diag. assert (Window p <= now - windowStart s') as Hge by (destruct (Z.eq_dec (hits s') 0); lia).
      rewrite (proj2 (Z.ltb_ge _ _) Hge). destruct (0 <? Window p); cbn; lia.
    - rewrite Z.sub_diag. destruct (0 <? Window p); cbn; lia. }
  clearbody wc wa. clear Hs Eb Ea Hb. cbn [hits windowStart blockedUntil]. rewrite E1, E2.
  assert (i64 (hits wa + 1) = hits wa + 1) as Ei.
  { apply i64_small. unfold in_i64, max_i64, min_i64 in *. lia. }
  rewrite Ei. destruct (Z.ltb_spec (hits wa + 1) (Hits p)) as [Hlt|Hge]; cbn; (split; [done|]); unfold sim, same_entry, entry_ok; cbn.
  - split_and!; lia || auto.
  - unfold time_add. split_and!; try lia; by left.
Qed.

Lemma lk_insert t ip off s ip' off' :
  lk (<[ip := <[off := s]> (default ∅ (t !! ip))]> t) ip' off' =
  if decide (ip' = ip /\ off' = off) then Some s else lk t ip' off'.
Proof.
  unfold lk. destruct (decide (ip' = ip)) as [->|Hi].
  - rewrite lookup_insert_eq. cbn. destruct (decide (off' = off)) as [->|Ho].
    + rewrite lookup_insert_eq, decide_True by done. done.
    + rewrite lookup_insert_ne, decide_False by naive_solver. by destruct (t !! ip).
  - by rewrite lookup_insert_ne, decide_False by naive_solver.
Qed.

Lemma sim_record now now2 ip off t a : (forall o p, pol !! o = Some p -> policy_ok p) -> 0 <= now ->
  throttle_sim now t a ->
  (Record_ ip off now now2 t).2 = (spec_record ip off now now2 a).2 /\
  throttle_sim now (Record_ ip off now now2 t).1 (spec_record ip off now now2 a).1.
Proof.
  intros Hpol Hnow Hs. unfold Record_, spec_record. destruct (pol !! off) as [p|] eqn:Ep; [|done].
  case_bool_decide; [done|]. pose proof (sim_cleanup now ip t a Hpol Hs) as Hs'. set (t1 := cleanupIPLocked ip now t) in *.
  pose proof (Hs' ip off) as He. rewrite Ep in He.
  assert (forall x : throttle, default ∅ (x !! ip) !! off = lk x ip off) as Hlk by (intros x; unfold lk; by destruct (x !! ip)).
  rewrite !Hlk. pose proof (sim_hit p now now2 _ _ (Hpol _ _ Ep) Hnow He) as [Er Hn].
  destruct (record_hit p now now2 (default _ (lk t1 ip off))) as [sc rc], (record_hit p now now2 (default _ (lk a ip off))) as [sa ra].
  cbn in Er, Hn |- *. split; [done|]. intros ip' off'. rewrite !lk_insert. specialize (Hs' ip' off').
  destruct (decide (ip' = ip /\ off' = off)) as [[-> ->]|]; [|done]. by rewrite Ep.
Qed.

(** ** The longest block *)

Definition blocking (now : time) (offs : offenses) (until : time) : Prop :=
  exists off s, offs !! off = Some s /\ blockedUntil s = until /\ now < until.

Lemma longest_spec now now2 offs :
  ((longest now now2 offs).1 = (false, 0) /\ forall u, ~ blocking now offs u) \/
  exists u, (longest now now2 offs).1 = (true, time_sub u now2) /\ blocking now offs u /\
    forall v, blocking now offs v -> time_sub v now2 <= time_sub u now2.
Proof.
  unfold blocking.
  assert (forall off s, offs !! off = Some s <-> (off, s) ∈ map_to_list offs) as Hel by (intros; by rewrite elem_of_map_to_list).
  setoid_rewrite Hel. clear Hel. unfold longest. induction (map_to_list offs) as [|[o e] l IH]; cbn.
  { left. split; [done|]. intros u (off & s & Hx & _). by apply not_elem_of_nil in Hx. }
  destruct (foldr _ _ l) as [[b r] rs]. cbn in IH. unfold time_before. setoid_rewrite elem_of_cons.
  destruct (Z.ltb_spec now (blockedUntil e)) as [Hb|Hb]; cbn.
  - destruct IH as [[[= -> ->] Hn]|(u & [= -> ->] & Hu & Hmax)]; cbn.
    + right. exists (blockedUntil e). split; [done|]. split; [by eauto 6|]. intros v (off & s & [[= -> ->]|Hin] & Hv & Hlt); [by subst v|].
      exfalso. eapply (Hn v). eauto.
    + right. rewrite Z.gtb_ltb. destruct (Z.ltb_spec (time_sub u now2) (time_sub (blockedUntil e) now2)) as [Hlt|Hge]; cbn.
      * exists (blockedUntil e). split; [done|]. split; [by eauto 6|].
        intros v (off & s & [[= -> ->]|Hin] & Hv & Hv'); [by subst v|]. etrans; [apply Hmax; eauto|lia].
      * exists u. split; [done|]. split; [destruct Hu as (off & s & ? & ?); eauto 6|].
        intros v (off & s & [[= -> ->]|Hin] & Hv & Hv'); [by subst v|]. apply Hmax; eauto.
  - assert (forall u, (exists off s, ((off, s) = (o, e) \/ (off, s) ∈ l) /\ blockedUntil s = u /\ now < u) ->
      exists off s, (off, s) ∈ l /\ blockedUntil s = u /\ now < u) as Hdrop.
    { intros u (off & s & [[= -> ->]|Hin] & Hu & Hlt); [lia|eauto]. }
    destruct IH as [[Er Hn]|(u & Er & (off & s & Hin & Hu) & Hmax)]; cbn.
    + left. split; [done|]. intros u Hu. by apply (Hn u), Hdrop.
    + right. exists u. split; [done|]. split; [by eauto 6|]. intros v Hv. by apply Hmax, Hdrop.
Qed.

(** The answer depends only on the ends of the blocks. *)
Lemma longest_ext now now2 o1 o2 : (forall u, blocking now o1 u <-> blocking now o2 u) ->
  (longest now now2 o1).1 = (longest now now2 o2).1.
Proof.
  intros He. destruct (longest_spec now now2 o1) as [[E1 H1]|(u & E1 & H1 & M1)], (longest_spec now now2 o2) as [[E2 H2]|(v & E2 & H2 & M2)].
  - by rewrite E1, E2.
  - exfalso. by apply (H1 v), He.
  - exfalso. by apply (H2 u), He.
  - rewrite E1, E2. f_equal. apply Z.le_antisymm; [apply M2; by apply He|apply M1; by apply He].
Qed.

Lemma sim_blocking now t a ip u : (forall o p, pol !! o = Some p -> policy_ok p) -> throttle_sim now t a ->
  blocking now (default ∅ (t !! ip)) u <-> blocking now (default ∅ (a !! ip)) u.
Proof.
  intros Hpol Hs. unfold blocking.
  assert (forall (x : throttle) off, default ∅ (x !! ip) !! off = lk x ip off) as Hlk by (intros x off; unfold lk; by destruct (x !! ip)).
  setoid_rewrite Hlk. split; intros (off & s & Hl & Hb & Hlt); specialize (Hs ip off); rewrite Hl in Hs.
  - destruct (pol !! off) as [p|] eqn:Ep; [|by destruct Hs]. unfold sim in Hs. destruct (lk a ip off) as [s'|] eqn:Ea; [|done].
    destruct Hs as ((_ & _ & Hbu) & _). exists off, s'. split; [done|]. lia.
  - destruct (pol !! off) as [p|] eqn:Ep; [|by destruct Hs]. unfold sim in Hs. destruct (lk t ip off) as [s'|] eqn:Ea.
    + destruct Hs as ((_ & _ & Hbu) & _). exists off, s'. split; [done|]. lia.
    + destruct Hs as [He _]. apply (expired_iff p s now (Hpol _ _ Ep)) in He. lia.
Qed.

Lemma longest_empty now now2 : (longest now now2 ∅).1 = (false, 0).
Proof. unfold longest. by rewrite map_to_list_empty. Qed.

Lemma sim_check now now2 ip t a : (forall o p, pol !! o = Some p -> policy_ok p) -> throttle_sim now t a ->
  (longestBlock ip now now2 t).2.1 = spec_check ip now now2 a /\ throttle_sim now (longestBlock ip now now2 t).1 a.
Proof.
  intros Hpol Hs. unfold longestBlock, spec_check. case_bool_decide; [done|].
  pose proof (sim_cleanup now ip t a Hpol Hs) as Hs'. set (t1 := cleanupIPLocked ip now t) in *.
  rewrite (longest_ext now now2 (default ∅ (a !! ip)) (default ∅ (t1 !! ip)))
    by (intros u; symmetry; by apply (sim_blocking now t1 a)).
  destruct (t1 !! ip) as [offs|] eqn:E; [done|]. cbn. by rewrite longest_empty.
Qed.

Lemma sim_serve r now now2 t a : (forall o p, pol !! o = Some p -> policy_ok p) -> 0 <= now -> throttle_sim now t a ->
  (serve r now now2 t).2 = (spec_serve r now now2 a).2 /\ throttle_sim now (serve r now now2 t).1 (spec_serve r now now2 a).1.
Proof.
  intros Hpol Hnow Hs. destruct r as [ip o|ip|]; cbn.
  - destruct (sim_record now now2 ip o t a Hpol Hnow Hs) as [E Hs'].
    destruct (Record_ ip o now now2 t), (spec_record ip o now now2 a). cbn in *. by rewrite E.
  - destruct (sim_check now now2 ip t a Hpol Hs) as [E Hs']. destruct (longestBlock ip now now2 t). done.
  - split; [done|]. by apply sim_cleanup_all.
Qed.

Lemma answers_sim l now t a : (forall o p, pol !! o = Some p -> policy_ok p) -> 0 <= now -> throttle_sim now t a ->
  in_order now l -> answers serve l t = answers spec_serve l a.
Proof.
  intros Hpol. revert now t a. induction l as [|[[r n] n2] l IH]; intros now t a Hnow Hs Ho; [done|].
  destruct Ho as (Hle & Hle2 & Ho). cbn.
  assert (throttle_sim n t a) as Hs1.
  { intros ip off. specialize (Hs ip off). destruct (pol !! off) eqn:Ep; [|done]. eapply sim_later; eauto. }
  destruct (sim_serve r n n2 t a Hpol ltac:(lia) Hs1) as [E Hs'].
  destruct (serve r n n2 t) as [t' res], (spec_serve r n n2 a) as [a' res']. cbn in *. subst res'. f_equal.
  apply (IH n); [lia|done..].
Qed.

(** removing entries is not observable: for every sequence of offenses,
    checks and clean-ups in the order of time, the throttle gives the answers
    of the specification that keeps one entry per address and kind forever,
    whenever blocks are at least as long as their windows. *)
Theorem throttle_refines (l : list (request * time * time)) :
  (forall o p, pol !! o = Some p -> policy_ok p) -> in_order 0 l ->
  answers serve l ∅ = answers spec_serve l ∅.
Proof.
  intros Hpol Ho. apply (answers_sim l 0); [done|done| |done]. intros ip off. unfold lk. rewrite lookup_empty.
  by destruct (pol !! off).
Qed.

(** ** A burst of offenses *)

Section Burst.
Context (ip o : string) (p : IPOffensePolicy) (Hp : pol !! o = Some p) (Hok : policy_ok p) (Hip : ip <> "").

Definition one (h : Z) (w bu : time) : throttle := {[ ip := {[ o := mkOffense h w bu ]} ]}.

Definition offense_at (t : time) : request * time * time := (Offense ip o, t, t).

(** One more offense in the window that has counted [h]. *)
Lemma spec_one h w t : 0 <= h < Hits p -> 0 <= w <= t -> t - w < Window p ->
  spec_serve (Offense ip o) t t (one h w 0) =
  if h + 1 <? Hits p then (one (h + 1) w 0, (false, 0)) else (one 0 t (t + Block p), (true, Block p)).
Proof.
  intros Hh Hw Ht. destruct (policy_widths p Hok) as (Hwin & _). destruct Hok as (_ & _ & Hhits).
  cbn. unfold spec_record. rewrite Hp, bool_decide_eq_false_2 by done. unfold one. rewrite lookup_singleton_eq. cbn.
  rewrite lookup_singleton_eq. cbn. unfold record_hit, time_before. cbn [blockedUntil windowStart hits].
  rewrite (proj2 (Z.ltb_ge t 0)) by lia. rewrite Z.geb_leb, Z.leb_antisym, time_sub_lt by done.
  rewrite (proj2 (Z.ltb_lt _ _) Ht). cbn [negb hits windowStart blockedUntil].
  assert (i64 (h + 1) = h + 1) as -> by (apply i64_small; unfold in_i64, max_i64, min_i64 in *; lia).
  destruct (h + 1 <? Hits p); by rewrite !insert_singleton_eq.
Qed.

Lemma spec_first t : 0 <= t -> spec_serve (Offense ip o) t t ∅ = spec_serve (Offense ip o) t t (one 0 t 0).
Proof.
  intros Ht. cbn. unfold spec_record. rewrite Hp, bool_decide_eq_false_2 by done. unfold one.
  rewrite lookup_singleton_eq, lookup_empty. cbn. rewrite lookup_singleton_eq, lookup_empty. cbn.
  destruct (record_hit p t t _) as [st res]. by rewrite !insert_singleton_eq, !insert_empty.
Qed.

Lemma burst_spec w ts t rest : forall h, 0 <= h -> h + Z.of_nat (length ts) + 1 = Hits p -> 0 <= w ->
  Forall (fun n => w <= n /\ n - w < Window p) (ts ++ [t]) ->
  answers spec_serve ((offense_at <$> (ts ++ [t])) ++ rest) (one h w 0) =
  replicate (length ts) (false, 0) ++ (true, Block p) :: answers spec_serve rest (one 0 t (t + Block p)).
Proof.
  induction ts as [|n ts IH]; intros h Hh Hlen Hw Hall.
  - cbn [app] in *. apply Forall_cons in Hall as [[Hn1 Hn2] _]. cbn [length] in Hlen. rewrite fmap_cons. cbn [app answers offense_at].
    rewrite spec_one by lia. rewrite (proj2 (Z.ltb_ge (h + 1) (Hits p))) by lia. done.
  - cbn [app length] in *. apply Forall_cons in Hall as [[Hn1 Hn2] Hall]. rewrite fmap_cons. cbn [app answers offense_at].
    rewrite spec_one by lia. rewrite (proj2 (Z.ltb_lt (h + 1) (Hits p))) by lia. cbn [replicate app]. f_equal.
    apply IH; [lia|lia|done|done].
Qed.

Lemma check_blocked t m : t <= m < t + Block p -> 
  spec_check ip m m (one 0 t (t + Block p)) = (true, t + Block p - m).
Proof.
  intros Hm. unfold spec_check. rewrite bool_decide_eq_false_2 by done. unfold one. rewrite lookup_singleton_eq. cbn.
  unfold longest. rewrite map_to_list_singleton. cbn. unfold time_before. rewrite (proj2 (Z.ltb_lt m _)) by lia. cbn.
  unfold time_sub. rewrite clamp_i64_small; [done|]. destruct Hok as (_ & Hb & _). unfold in_i64, max_i64, min_i64 in *.
  assert ((2 ^ 63 - 1) / 2 = 2 ^ 62 - 1) as E by reflexivity. rewrite E in Hb. lia.
Qed.
End Burst.

(** the offense that fills the count of its window blocks the address: of as
    many offenses as the policy allows within a window, all but the last are
    let through and the last is answered with the block, and a request at any
    time before the end of the block is refused with the time that is left. *)
Theorem burst_blocks (ip o : string) (p : IPOffensePolicy) (w t m : time) (ts : list time) :
  (forall o p, pol !! o = Some p -> policy_ok p) -> pol !! o = Some p -> ip <> "" ->
  Z.of_nat (length ts) + 1 = Hits p -> head (ts ++ [t]) = Some w -> 0 <= w ->
  Forall (fun n => w <= n /\ n - w < Window p) (ts ++ [t]) -> t <= m < t + Block p ->
  in_order 0 ((offense_at ip o <$> (ts ++ [t])) ++ [(Check_ ip, m, m)]) ->
  answers serve ((offense_at ip o <$> (ts ++ [t])) ++ [(Check_ ip, m, m)]) ∅ =
  replicate (length ts) (false, 0) ++ [(true, Block p); (true, t + Block p - m)].
Proof.
  intros Hpol Hp Hip Hlen Hhd Hw Hall Hm Ho. pose proof (Hpol o p Hp) as Hok.
  rewrite (answers_sim _ 0 ∅ ∅ Hpol ltac:(lia)); [| |done].
  2:{ intros ip' off. unfold lk. rewrite lookup_empty. by destruct (pol !! off). }
  transitivity (answers spec_serve ((offense_at ip o <$> (ts ++ [t])) ++ [(Check_ ip, m, m)]) (one ip o 0 w 0)).
  { destruct (ts ++ [t]) as [|n l]; [done|]. injection Hhd as ->. rewrite fmap_cons. cbn [app answers offense_at].
    by rewrite (spec_first ip o p Hp Hip w Hw). }
  rewrite (burst_spec ip o p Hp Hok Hip w ts t _ 0 ltac:(lia) ltac:(rewrite Z.add_0_l; exact Hlen) Hw Hall). f_equal. f_equal. cbn [answers spec_serve].
  by rewrite (check_blocked ip o p Hok Hip t m Hm).
Qed.
End Throttle.

(** ** The policies of the service *)

Lemma default_policies_ok o p : defaultIPOffensePolicies !! o = Some p -> policy_ok p.
Proof.
  intros H. unfold defaultIPOffensePolicies in H. apply lookup_singleton_Some in H as [_ <-]. unfold policy_ok. split_and!; vm_compute; done.
Qed.

Definition ex_requests : list (request * time * time) :=
  [(Offense "10.0.0.1" "bad_dataset_add", Second, Second); (CleanupAll, 300 * Second, 301 * Second);
   (Check_ "10.0.0.1", 302 * Second, 303 * Second)].

Lemma throttle_refines_witness :
  answers (serve defaultIPOffensePolicies) ex_requests ∅ = answers (spec_serve defaultIPOffensePolicies) ex_requests ∅.
Proof.
  apply (throttle_refines defaultIPOffensePolicies ex_requests); [exact default_policies_ok|].
  cbn. unfold Second, Millisecond. lia.
Defined.

Lemma burst_blocks_witness :
  answers (serve defaultIPOffensePolicies)
    ((offense_at "10.0.0.1" "bad_dataset_add" <$> ([1; 2; 3; 4] ++ [5])) ++ [(Check_ "10.0.0.1", 9, 9)]) ∅ =
  replicate 4 (false, 0) ++ [(true, 5 * Minute); (true, 5 + 5 * Minute - 9)].
Proof.
  apply (burst_blocks defaultIPOffensePolicies "10.0.0.1" "bad_dataset_add"
    (mkPolicy 5 Minute (5 * Minute) "too many requests for unavailable data sets") 1 5 9 [1; 2; 3; 4]);
    [exact default_policies_ok|reflexivity|done|reflexivity|reflexivity|lia| | |].
  - repeat constructor; unfold Minute, Second, Millisecond; cbn; lia.
  - unfold Minute, Second, Millisecond; cbn; lia.
  - cbn. lia.
Defined.
