(* ===== verification/Codec.v ===== *)
(** * Bytes, little-endian numbers, writers and readers ([lib/proof/bincode_util.go])

    A writer that may fail is an [option] of the bytes it wrote, a reader is a
    function from the bytes that are left.  [Codec] is the contract between an
    encoder and its decoder: what is written is read back, and only what would
    be written is accepted. *)

From stdpp Require Import base gmap sets list strings.
From Stdlib Require Import ZArith Lia Strings.Byte.
From S2P Require Import Prelude.

Abbreviation bytes := (list Byte.byte).

#[export] Instance byte_eq_dec : EqDecision Byte.byte := Byte.byte_eq_dec.

Definition byte_val (b : Byte.byte) : Z := Z.of_N (Byte.to_N b).
Definition byte_of (x : Z) : Byte.byte := default Byte.x00 (Byte.of_N (Z.to_N x)).

Lemma byte_of_val b : byte_of (byte_val b) = b.
Proof. by destruct b. Qed.

Lemma byte_val_range b : 0 <= byte_val b < 256.
Proof. unfold byte_val. pose proof (Byte.to_N_bounded b). lia. Qed.

Lemma byte_val_of x : 0 <= x < 256 -> byte_val (byte_of x) = x.
Proof.
  intros Hx. unfold byte_val, byte_of. destruct (Byte.of_N (Z.to_N x)) as [b|] eqn:E.
  - cbn. apply Byte.to_of_N in E. rewrite E. lia.
  - apply Byte.of_N_None_iff in E. lia.
Qed.

(** [binary.LittleEndian]: [n] bytes. *)
Fixpoint le_enc (n : nat) (x : Z) : bytes :=
  match n with
  | O => []
  | S n' => byte_of (x mod 256) :: le_enc n' (x / 256)
  end.

Fixpoint le_dec (l : bytes) : Z :=
  match l with
  | [] => 0
  | b :: l' => byte_val b + 256 * le_dec l'
  end.

Lemma le_enc_length n x : length (le_enc n x) = n.
Proof. revert x. induction n as [|n IH]; intros x; [done|]. cbn. by rewrite IH. Qed.

Lemma le_dec_enc n x : 0 <= x < 256 ^ Z.of_nat n -> le_dec (le_enc n x) = x.
Proof.
  revert x. induction n as [|n IH]; intros x Hx; [cbn in Hx |- *; lia|].
  rewrite Nat2Z.inj_succ, Z.pow_succ_r in Hx by lia. cbn. rewrite byte_val_of by (apply Z.mod_pos_bound; lia).
  rewrite IH; [pose proof (Z.div_mod x 256); lia|].
  split; [apply Z.div_pos; lia|]. apply Z.div_lt_upper_bound; lia.
Qed.

Lemma le_dec_range l : 0 <= le_dec l < 256 ^ Z.of_nat (length l).
Proof.
  induction l as [|b l IH]; [cbn; lia|]. cbn [le_dec length]. rewrite Nat2Z.inj_succ, Z.pow_succ_r by lia.
  pose proof (byte_val_range b). lia.
Qed.

Lemma le_enc_dec l : le_enc (length l) (le_dec l) = l.
Proof.
  induction l as [|b l IH]; [done|]. cbn. pose proof (byte_val_range b) as Hb.
  replace ((byte_val b + 256 * le_dec l) mod 256) with (byte_val b).
  - replace ((byte_val b + 256 * le_dec l) / 256) with (le_dec l); [by rewrite IH, byte_of_val|].
    apply (Z.div_unique _ _ _ (byte_val b)); lia.
  - apply (Z.mod_unique _ _ (le_dec l)); lia.
Qed.

(** ** Writers *)

(** A sequence of writes, which stops at the first error. *)
Definition then_write (a b : option bytes) : option bytes :=
  match a, b with Some x, Some y => Some (x ++ y) | _, _ => None end.

Infix "+++" := then_write (at level 60, right associativity) : go_scope.

(** A loop that writes the elements of a slice. *)
Fixpoint write_all {A} (f : A -> option bytes) (l : list A) : option bytes :=
  match l with
  | [] => Some []
  | x :: l' => then_write (f x) (write_all f l')
  end.

Definition WriteLE (size : nat) (x : Z) : option bytes := Some (le_enc size x).

(** [binary.Write] of an [int], which has no fixed size: always an error. *)
Definition WriteInt (x : Z) : option bytes := None.

(** ** Readers *)

Definition reader (A : Type) : Type := bytes -> option (A * bytes).

Definition ret {A} (x : A) : reader A := fun bs => Some (x, bs).
Definition fail {A} : reader A := fun _ => None.
Definition bind {A B} (p : reader A) (q : A -> reader B) : reader B :=
  fun bs => match p bs with Some (x, bs') => q x bs' | None => None end.

Notation "'read' x := p 'in' q" := (bind p (fun x => q))
  (at level 10, x pattern, p at level 100, q at level 200) : go_scope.

(** [io.ReadFull] of [n] bytes. *)
Definition ReadFull (n : nat) : reader bytes :=
  fun bs => if decide (n <= length bs)%nat then Some (take n bs, drop n bs) else None.

Definition ReadLE (size : nat) : reader Z := fun bs =>
  match ReadFull size bs with Some (b, bs') => Some (le_dec b, bs') | None => None end.

(** A loop that reads [n] elements.  Every element has at least one byte, so a
    number above the bytes that are left is an error anyway: the bytes bound
    the iterations. *)
Fixpoint read_loop {A} (p : reader A) (fuel : bytes) (n : Z) (bs : bytes) : option (list A * bytes) :=
  if n <=? 0 then Some ([], bs)
  else
    match fuel with
    | [] => None
    | _ :: fuel' =>
        match p bs with
        | None => None
        | Some (x, bs') =>
            match read_loop p fuel' (n - 1) bs' with
            | None => None
            | Some (l, bs'') => Some (x :: l, bs'')
            end
        end
    end.

Definition read_n {A} (p : reader A) (n : Z) : reader (list A) := fun bs => read_loop p bs n bs.

(** ** Encoders and their decoders *)

Class Codec {A} (ok : A -> Prop) (enc : A -> option bytes) (dec : reader A) : Prop := {
  codec_total : forall a, ok a -> exists p, enc a = Some p /\ p <> [];
  codec_dec : forall a p rest, ok a -> enc a = Some p -> dec (p ++ rest) = Some (a, rest);
  codec_enc : forall bs a rest, dec bs = Some (a, rest) -> ok a /\ exists p, enc a = Some p /\ bs = p ++ rest
}.

Lemma ReadFull_app n p rest : length p = n -> ReadFull n (p ++ rest) = Some (p, rest).
Proof.
  intros <-. unfold ReadFull. rewrite decide_True by (rewrite length_app; lia).
  by rewrite take_app_length, drop_app_length.
Qed.

Lemma ReadFull_inv n bs p rest : ReadFull n bs = Some (p, rest) -> length p = n /\ bs = p ++ rest.
Proof.
  unfold ReadFull. case_decide; [|done]. intros [= <- <-]. rewrite length_take, take_drop. split; [lia|done].
Qed.

(** Fixed-size numbers and arrays. *)
#[export] Instance le_codec (n : nat) :
  Codec (fun x => 0 <= x < 256 ^ Z.of_nat (S n)) (WriteLE (S n)) (ReadLE (S n)).
Proof.
  constructor.
  - intros a _. exists (le_enc (S n) a). split; [done|]. done.
  - intros a p rest Ha [= <-]. unfold ReadLE. change (byte_of (a mod 256) :: le_enc n (a / 256)) with (le_enc (S n) a).
    rewrite ReadFull_app by apply le_enc_length. by rewrite le_dec_enc.
  - intros bs a rest. unfold ReadLE. destruct (ReadFull (S n) bs) as [[p r]|] eqn:E; [|done]. intros [= <- <-].
    apply ReadFull_inv in E as [Hl ->]. split; [rewrite <- Hl; apply le_dec_range|]. exists p. split; [|done].
    unfold WriteLE. rewrite <- Hl. f_equal. apply le_enc_dec.
Qed.

#[export] Instance array_codec (n : nat) :
  Codec (fun b : bytes => length b = S n) (fun b => Some b) (ReadFull (S n)).
Proof.
  constructor.
  - intros a Ha. exists a. split; [done|]. by destruct a.
  - intros a p rest Ha [= <-]. by apply ReadFull_app.
  - intros bs a rest E. apply ReadFull_inv in E as [Hl ->]. split; [done|]. by exists a.
Qed.

(** Slices: the number of elements and the elements. *)
Definition write_slice {A} (f : A -> option bytes) (l : list A) : option bytes :=
  then_write (WriteLE 8 (Z.of_nat (length l))) (write_all f l).

Definition read_slice {A} (p : reader A) : reader (list A) := bind (ReadLE 8) (fun n => read_n p n).

Definition slice_ok {A} (ok : A -> Prop) (l : list A) : Prop := Forall ok l /\ in_u64 (Z.of_nat (length l)).

Section Slices.
Context {A} (ok : A -> Prop) (enc : A -> option bytes) (dec : reader A) `{!Codec ok enc dec}.

Lemma write_all_total l : Forall ok l -> exists p, write_all enc l = Some p /\ (length l <= length p)%nat.
Proof.
  induction 1 as [|a l Ha _ (p & E & Hp)]; [by exists []|]. cbn. destruct (codec_total a Ha) as (q & Eq & Hq).
  rewrite Eq, E. exists (q ++ p). split; [done|]. rewrite length_app. destruct q; [done|]. cbn. lia.
Qed.

Lemma read_loop_write l p rest fuel : Forall ok l -> write_all enc l = Some p -> (length l <= length fuel)%nat ->
  read_loop dec fuel (Z.of_nat (length l)) (p ++ rest) = Some (l, rest).
Proof.
  intros Hok. revert p fuel. induction Hok as [|a l Ha Hok IH]; intros p fuel E Hf; cbn in E.
  { injection E as <-. by destruct fuel. }
  destruct (enc a) as [q|] eqn:Eq; [|done]. destruct (write_all enc l) as [q'|]; [|done]. injection E as <-.
  cbn [length] in *. destruct fuel as [|f fuel]; [cbn in Hf; lia|]. cbn [read_loop].
  rewrite (proj2 (Z.leb_gt _ 0)) by lia. rewrite <- app_assoc, (codec_dec a q _ Ha Eq).
  replace (Z.of_nat (S (length l)) - 1) with (Z.of_nat (length l)) by lia. rewrite (IH q' fuel eq_refl); [done|].
  cbn in Hf. lia.
Qed.

Lemma read_loop_inv fuel n bs l rest : 0 <= n -> read_loop dec fuel n bs = Some (l, rest) ->
  Forall ok l /\ n = Z.of_nat (length l) /\ exists p, write_all enc l = Some p /\ bs = p ++ rest.
Proof.
  revert n bs l. induction fuel as [|f fuel IH]; intros n bs l Hn E; cbn [read_loop] in E; destruct (Z.leb_spec n 0) as [Hz|Hz].
  1,3: injection E as <- <-; split_and!; [done|cbn; lia|by exists []].
  { done. }
  destruct (dec bs) as [[a bs1]|] eqn:Ed; [|done]. destruct (read_loop dec fuel (n - 1) bs1) as [[l' bs2]|] eqn:El; [|done].
  injection E as <- <-. destruct (codec_enc _ _ _ Ed) as [Ha (q & Eq & ->)].
  destruct (IH (n - 1) bs1 l' ltac:(lia) El) as (Hl & Hlen & p & Ep & ->). split_and!; [by constructor|cbn; lia|].
  exists (q ++ p). cbn. rewrite Eq, Ep, app_assoc. done.
Qed.

#[export] Instance slice_codec : Codec (slice_ok ok) (write_slice enc) (read_slice dec).
Proof.
  constructor.
  - intros l [Hl _]. destruct (write_all_total l Hl) as (p & E & _). unfold write_slice. rewrite E. eexists. by split.
  - intros l p rest [Hl Hn] E. unfold write_slice in E. destruct (write_all enc l) as [q|] eqn:Eq; [|done]. cbn [then_write WriteLE] in E.
    apply (inj Some) in E. subst p. unfold read_slice, bind. rewrite <- app_assoc.
    rewrite (codec_dec (Codec := le_codec 7) (Z.of_nat (length l)) _ _ Hn eq_refl). unfold read_n.
    apply read_loop_write; [done|done|]. destruct (write_all_total l Hl) as (q' & Eq' & Hlen). rewrite Eq in Eq'. injection Eq' as <-.
    rewrite length_app. lia.
  - intros bs l rest E. unfold read_slice, bind in E. destruct (ReadLE 8 bs) as [[n bs1]|] eqn:En; [|done].
    destruct (codec_enc (Codec := le_codec 7) _ _ _ En) as [Hn (p & Ep & ->)]. unfold read_n in E.
    destruct (read_loop_inv _ _ _ _ _ (proj1 Hn) E) as (Hl & -> & q & Eq & ->). split; [by split|].
    exists (p ++ q). unfold write_slice. rewrite Ep, Eq. by rewrite app_assoc.
Qed.
End Slices.

(** ** Records

    A record is written field by field and read in the same order; the laws
    follow from those of the fields. *)


Lemma codec_pair {A B} (okA : A -> Prop) encA decA (okB : B -> Prop) encB decB :
  Codec okA encA decA -> Codec okB encB decB ->
  Codec (fun p => okA p.1 /\ okB p.2) (fun p => then_write (encA p.1) (encB p.2))
    (bind decA (fun a => bind decB (fun b => ret (a, b)))).
Proof.
  intros CA CB. constructor.
  - intros [a b] [Ha Hb]. cbn in *. destruct (codec_total a Ha) as (p & -> & Hp), (codec_total b Hb) as (q & -> & Hq).
    exists (p ++ q). split; [done|]. by destruct p.
  - intros [a b] p rest [Ha Hb] E. cbn in *. destruct (encA a) as [x|] eqn:Ex; [|done]. destruct (encB b) as [y|] eqn:Ey; [|done].
    apply (inj Some) in E. subst p. unfold bind, ret. rewrite <- app_assoc, (codec_dec a x _ Ha Ex). by rewrite (codec_dec b y _ Hb Ey).
  - intros bs [a b] rest. unfold bind, ret. destruct (decA bs) as [[a' bs1]|] eqn:Ea; [|done].
    destruct (decB bs1) as [[b' bs2]|] eqn:Eb; [|done]. intros [= <- <- <-].
    destruct (codec_enc _ _ _ Ea) as [Ha (x & Ex & ->)], (codec_enc _ _ _ Eb) as [Hb (y & Ey & ->)]. split; [done|].
    exists (x ++ y). cbn. rewrite Ex, Ey. by rewrite app_assoc.
Qed.

(** A record with a projection to the tuple of its fields. *)
Lemma codec_record {A B} (f : A -> B) (g : B -> A) (ok : B -> Prop) enc dec (okA : A -> Prop) encA (decA : reader A) :
  Codec ok enc dec -> (forall a, okA a -> g (f a) = a /\ ok (f a)) ->
  (forall b, ok b -> f (g b) = b /\ okA (g b)) -> (forall a, encA a = enc (f a)) ->
  (forall bs, decA bs = match dec bs with Some (b, r) => Some (g b, r) | None => None end) ->
  Codec okA encA decA.
Proof.
  intros C Hok Hfg He Hd. constructor.
  - intros a Ha. rewrite He. apply codec_total. by apply Hok.
  - intros a p rest Ha E. rewrite He in E. destruct (Hok a Ha) as [Hg Hb]. rewrite Hd, (codec_dec (f a) p rest Hb E). by rewrite Hg.
  - intros bs a rest E. rewrite Hd in E. destruct (dec bs) as [[b r]|] eqn:Eb; [|done]. injection E as <- <-.
    destruct (codec_enc _ _ _ Eb) as [Hb (p & Ep & ->)]. destruct (Hfg b Hb) as [Hf Ho]. split; [done|]. exists p.
    by rewrite He, Hf.
Qed.

(** The reader of a record against the reader of the tuple. *)
Ltac read_fields :=
  intros bs; unfold bind, ret;
  repeat match goal with |- context [match ?p ?b with Some _ => _ | None => _ end] =>
    lazymatch b with context [match _ with _ => _ end] => fail | _ => destruct (p b) as [[? ?]|] end end; reflexivity.
