(* ===== verification/VanillaProof.v ===== *)
(** * The binary form of vanilla PoRep proofs

    The types of [lib/proof/merkle.go] and [lib/proof/porep_vproof_types.go], the
    encoder of [porep_vproof_bin_encode.go] and the decoder of
    [porep_vproof_bin_decode.go].  Both hash domains are arrays of 32 bytes.  A
    slice of Go is a list; a number that is read before a [make] is not
    limited by memory here. *)

From stdpp Require Import base gmap sets list strings.
From Stdlib Require Import ZArith Lia.
From S2P Require Import Prelude Codec.

Local Open Scope go_scope.

(** ** Types *)

Abbreviation domain := bytes (only parsing).

Record PathElement := mkPathElement { Hashes : list domain; Index : Z }.
Record InclusionPath := mkInclusionPath { Path : list PathElement }.
Record SingleProof := mkSingleProof { sg_Root : domain; sg_Leaf : domain; sg_Path : InclusionPath }.
Record SubProof := mkSubProof { sb_BaseProof : InclusionPath; sb_SubProof : InclusionPath; sb_Root : domain; sb_Leaf : domain }.
Record TopProof := mkTopProof {
  tp_BaseProof : InclusionPath; tp_SubProof : InclusionPath; tp_TopProof : InclusionPath; tp_Root : domain; tp_Leaf : domain
}.
Record ProofData := mkProofData { Single : option SingleProof; Sub : option SubProof; Top : option TopProof }.
Record MerkleProof := mkMerkleProof { Data : ProofData }.
Record Column := mkColumn { cl_Index : Z; Rows : list domain; cl_H : option string (* any, skipped *) }.
Record ColumnProof := mkColumnProof { cp_Column : Column; InclusionProof : MerkleProof }.
Record ReplicaColumnProof := mkReplicaColumnProof {
  C_X : ColumnProof; DrgParents : list ColumnProof; ExpParents : list ColumnProof
}.
Record LabelingProof := mkLabelingProof { lp_Parents : list domain; lp_LayerIndex : Z; lp_Node : Z }.
Record EncodingProof := mkEncodingProof { ep_Parents : list domain; ep_LayerIndex : Z; ep_Node : Z }.
Record VanillaStackedProof := mkVanillaStackedProof {
  CommDProofs : MerkleProof;
  CommRLastProof : MerkleProof;
  ReplicaColumnProofs : ReplicaColumnProof;
  LabelingProofs : list LabelingProof;
  vs_EncodingProof : EncodingProof
}.
Record Commit1OutRaw := mkCommit1OutRaw {
  CommD : domain; CommR : domain; RegisteredProof : string; ReplicaID : domain; Seed : domain; c1_Ticket : domain;
  VanillaProofs : gmap string (list (list VanillaStackedProof))
}.

(** ** The encoder *)

Definition EncodeHasherDomain (h : domain) : option bytes := Some h.
Definition EncodeTicket (t : domain) : option bytes := Some t.
Definition EncodeCommitment (c : domain) : option bytes := Some c.

Definition EncodePathElement (pe : PathElement) : option bytes :=
  write_slice EncodeHasherDomain (Hashes pe) +++ WriteLE 8 (Index pe).

Definition EncodeInclusionPath (ip : InclusionPath) : option bytes := write_slice EncodePathElement (Path ip).

Definition EncodeSingleProof (sp : SingleProof) : option bytes :=
  EncodeHasherDomain (sg_Root sp) +++ EncodeHasherDomain (sg_Leaf sp) +++ EncodeInclusionPath (sg_Path sp).

Definition EncodeSubProof (sp : SubProof) : option bytes :=
  EncodeInclusionPath (sb_BaseProof sp) +++ EncodeInclusionPath (sb_SubProof sp) +++
  EncodeHasherDomain (sb_Root sp) +++ EncodeHasherDomain (sb_Leaf sp).

Definition EncodeTopProof (tp : TopProof) : option bytes :=
  EncodeInclusionPath (tp_BaseProof tp) +++ EncodeInclusionPath (tp_SubProof tp) +++
  EncodeInclusionPath (tp_TopProof tp) +++ EncodeHasherDomain (tp_Root tp) +++ EncodeHasherDomain (tp_Leaf tp).

Definition EncodeProofData (pd : ProofData) : option bytes :=
  match Single pd, Sub pd, Top pd with
  | Some s, _, _ => WriteLE 4 0 +++ EncodeSingleProof s
  | None, Some s, _ => WriteLE 4 1 +++ EncodeSubProof s
  | None, None, Some t => WriteLE 4 2 +++ EncodeTopProof t
  | None, None, None => None
  end.

Definition EncodeMerkleProof (m : MerkleProof) : option bytes := EncodeProofData (Data m).

Definition EncodeColumn (c : Column) : option bytes :=
  WriteLE 4 (cl_Index c) +++ write_slice EncodeHasherDomain (Rows c).

Definition EncodeColumnProof (cp : ColumnProof) : option bytes :=
  EncodeColumn (cp_Column cp) +++ EncodeMerkleProof (InclusionProof cp).

Definition EncodeReplicaColumnProof (rcp : ReplicaColumnProof) : option bytes :=
  EncodeColumnProof (C_X rcp) +++ write_slice EncodeColumnProof (DrgParents rcp) +++
  write_slice EncodeColumnProof (ExpParents rcp).

Definition EncodeLabelingProof (lp : LabelingProof) : option bytes :=
  write_slice EncodeHasherDomain (lp_Parents lp) +++ WriteLE 4 (lp_LayerIndex lp) +++ WriteLE 8 (lp_Node lp).

Definition EncodeEncodingProof (ep : EncodingProof) : option bytes :=
  write_slice EncodeHasherDomain (ep_Parents ep) +++ WriteLE 4 (ep_LayerIndex ep) +++ WriteLE 8 (ep_Node ep).

Definition EncodeVanillaStackedProof (v : VanillaStackedProof) : option bytes :=
  EncodeMerkleProof (CommDProofs v) +++ EncodeMerkleProof (CommRLastProof v) +++
  EncodeReplicaColumnProof (ReplicaColumnProofs v) +++ write_slice EncodeLabelingProof (LabelingProofs v) +++
  EncodeEncodingProof (vs_EncodingProof v).

(** Without proofs the number zero is written as an [int]. *)
Definition EncodeCommit1OutRaw (c : Commit1OutRaw) : option bytes :=
  match VanillaProofs c !! "StackedDrg32GiBV1" with
  | None => WriteInt 0
  | Some proofs => write_slice (write_slice EncodeVanillaStackedProof) proofs
  end +++
  EncodeCommitment (CommR c) +++ EncodeCommitment (CommD c) +++ EncodeCommitment (ReplicaID c) +++
  EncodeTicket (Seed c) +++ EncodeTicket (c1_Ticket c).

(** ** The decoder *)

Definition DecodeHasherDomain : reader domain := ReadFull 32.
Definition DecodeTicket : reader domain := ReadFull 32.
Definition DecodeCommitment : reader domain := ReadFull 32.

Definition DecodePathElement : reader PathElement :=
  read hashes := read_slice DecodeHasherDomain in
  read index := ReadLE 8 in
  ret (mkPathElement hashes index).

Definition DecodeInclusionPath : reader InclusionPath :=
  read path := read_slice DecodePathElement in
  ret (mkInclusionPath path).

Definition DecodeSingleProof : reader SingleProof :=
  read root := DecodeHasherDomain in
  read leaf := DecodeHasherDomain in
  read path := DecodeInclusionPath in
  ret (mkSingleProof root leaf path).

Definition DecodeSubProof : reader SubProof :=
  read base := DecodeInclusionPath in
  read sub := DecodeInclusionPath in
  read root := DecodeHasherDomain in
  read leaf := DecodeHasherDomain in
  ret (mkSubProof base sub root leaf).

Definition DecodeTopProof : reader TopProof :=
  read base := DecodeInclusionPath in
  read sub := DecodeInclusionPath in
  read top := DecodeInclusionPath in
  read root := DecodeHasherDomain in
  read leaf := DecodeHasherDomain in
  ret (mkTopProof base sub top root leaf).

Definition DecodeProofData : reader ProofData :=
  read proofType := ReadLE 4 in
  if proofType =? 0 then read s := DecodeSingleProof in ret (mkProofData (Some s) None None)
  else if proofType =? 1 then read s := DecodeSubProof in ret (mkProofData None (Some s) None)
  else if proofType =? 2 then read t := DecodeTopProof in ret (mkProofData None None (Some t))
  else Codec.fail.

Definition DecodeMerkleProof : reader MerkleProof :=
  read data := DecodeProofData in
  ret (mkMerkleProof data).

Definition DecodeColumn : reader Column :=
  read index := ReadLE 4 in
  read rows := read_slice DecodeHasherDomain in
  ret (mkColumn index rows None).

Definition DecodeColumnProof : reader ColumnProof :=
  read column := DecodeColumn in
  read inclusion := DecodeMerkleProof in
  ret (mkColumnProof column inclusion).

Definition DecodeReplicaColumnProof : reader ReplicaColumnProof :=
  read c_x := DecodeColumnProof in
  read drg := read_slice DecodeColumnProof in
  read exp := read_slice DecodeColumnProof in
  ret (mkReplicaColumnProof c_x drg exp).

Definition DecodeLabelingProof : reader LabelingProof :=
  read parents := read_slice DecodeHasherDomain in
  read layer := ReadLE 4 in
  read node := ReadLE 8 in
  ret (mkLabelingProof parents layer node).

Definition DecodeEncodingProof : reader EncodingProof :=
  read parents := read_slice DecodeHasherDomain in
  read layer := ReadLE 4 in
  read node := ReadLE 8 in
  ret (mkEncodingProof parents layer node).

Definition DecodeVanillaStackedProof : reader VanillaStackedProof :=
  read comm_d := DecodeMerkleProof in
  read comm_r := DecodeMerkleProof in
  read columns := DecodeReplicaColumnProof in
  read labeling := read_slice DecodeLabelingProof in
  read encoding := DecodeEncodingProof in
  ret (mkVanillaStackedProof comm_d comm_r columns labeling encoding).

(** The map has its key from the first inner slice on; bytes that are left are an
    error. *)
Definition DecodeCommit1OutRaw (bs : bytes) : option Commit1OutRaw :=
  match
    (read proofs := read_slice (read_slice DecodeVanillaStackedProof) in
     read commR := DecodeCommitment in
     read commD := DecodeCommitment in
     read replicaID := DecodeCommitment in
     read seed := DecodeTicket in
     read ticket := DecodeTicket in
     ret (mkCommit1OutRaw commD commR "StackedDrg32GiBV1_1" replicaID seed ticket
       (match proofs with [] => ∅ | _ => {[ "StackedDrg32GiBV1" := proofs ]} end))) bs
  with
  | Some (out, []) => Some out
  | _ => None
  end.

(** ** Values of the Go types

    Arrays have 32 bytes, numbers their width, and a proof is exactly one of
    single, sub and top. *)

Definition domain_ok (h : domain) : Prop := length h = 32%nat.
Definition u32_ok (x : Z) : Prop := 0 <= x < 256 ^ Z.of_nat 4.
Definition u64_ok (x : Z) : Prop := 0 <= x < 256 ^ Z.of_nat 8.

Definition PathElement_ok (pe : PathElement) : Prop := slice_ok domain_ok (Hashes pe) /\ u64_ok (Index pe).
Definition InclusionPath_ok (ip : InclusionPath) : Prop := slice_ok PathElement_ok (Path ip).
Definition SingleProof_ok (sp : SingleProof) : Prop :=
  domain_ok (sg_Root sp) /\ domain_ok (sg_Leaf sp) /\ InclusionPath_ok (sg_Path sp).
Definition SubProof_ok (sp : SubProof) : Prop :=
  InclusionPath_ok (sb_BaseProof sp) /\ InclusionPath_ok (sb_SubProof sp) /\ domain_ok (sb_Root sp) /\ domain_ok (sb_Leaf sp).
Definition TopProof_ok (tp : TopProof) : Prop :=
  InclusionPath_ok (tp_BaseProof tp) /\ InclusionPath_ok (tp_SubProof tp) /\ InclusionPath_ok (tp_TopProof tp) /\
  domain_ok (tp_Root tp) /\ domain_ok (tp_Leaf tp).
Definition ProofData_ok (pd : ProofData) : Prop :=
  match Single pd, Sub pd, Top pd with
  | Some s, None, None => SingleProof_ok s
  | None, Some s, None => SubProof_ok s
  | None, None, Some t => TopProof_ok t
  | _, _, _ => False
  end.
Definition MerkleProof_ok (m : MerkleProof) : Prop := ProofData_ok (Data m).
Definition Column_ok (c : Column) : Prop := u32_ok (cl_Index c) /\ slice_ok domain_ok (Rows c) /\ cl_H c = None.
Definition ColumnProof_ok (cp : ColumnProof) : Prop := Column_ok (cp_Column cp) /\ MerkleProof_ok (InclusionProof cp).
Definition ReplicaColumnProof_ok (rcp : ReplicaColumnProof) : Prop :=
  ColumnProof_ok (C_X rcp) /\ slice_ok ColumnProof_ok (DrgParents rcp) /\ slice_ok ColumnProof_ok (ExpParents rcp).
Definition LabelingProof_ok (lp : LabelingProof) : Prop :=
  slice_ok domain_ok (lp_Parents lp) /\ u32_ok (lp_LayerIndex lp) /\ u64_ok (lp_Node lp).
Definition EncodingProof_ok (ep : EncodingProof) : Prop :=
  slice_ok domain_ok (ep_Parents ep) /\ u32_ok (ep_LayerIndex ep) /\ u64_ok (ep_Node ep).
Definition VanillaStackedProof_ok (v : VanillaStackedProof) : Prop :=
  MerkleProof_ok (CommDProofs v) /\ MerkleProof_ok (CommRLastProof v) /\ ReplicaColumnProof_ok (ReplicaColumnProofs v) /\
  slice_ok LabelingProof_ok (LabelingProofs v) /\ EncodingProof_ok (vs_EncodingProof v).

(** ** The laws of every part *)

#[export] Instance domain_codec : Codec domain_ok EncodeHasherDomain DecodeHasherDomain.
Proof. apply (array_codec 31). Qed.
#[export] Instance u32_codec : Codec u32_ok (WriteLE 4) (ReadLE 4).
Proof. apply (le_codec 3). Qed.
#[export] Instance u64_codec : Codec u64_ok (WriteLE 8) (ReadLE 8).
Proof. apply (le_codec 7). Qed.

#[export] Instance PathElement_codec : Codec PathElement_ok EncodePathElement DecodePathElement.
Proof.
  apply (codec_record (fun p => (Hashes p, Index p)) (fun q => mkPathElement q.1 q.2) _ _ _ _ _ _
    (codec_pair _ _ _ _ _ _ (slice_codec _ _ _) u64_codec)); try done.
  - by intros [].
  - by intros [].
  - unfold DecodePathElement. read_fields.
Qed.

#[export] Instance InclusionPath_codec : Codec InclusionPath_ok EncodeInclusionPath DecodeInclusionPath.
Proof.
  apply (codec_record Path mkInclusionPath _ _ _ _ _ _ (slice_codec _ _ _)); try done. by intros [].
Qed.

#[export] Instance SingleProof_codec : Codec SingleProof_ok EncodeSingleProof DecodeSingleProof.
Proof.
  apply (codec_record (fun p => (sg_Root p, (sg_Leaf p, sg_Path p))) (fun q => mkSingleProof q.1 q.2.1 q.2.2) _ _ _ _ _ _
    (codec_pair _ _ _ _ _ _ domain_codec (codec_pair _ _ _ _ _ _ domain_codec InclusionPath_codec))); try done.
  - by intros [].
  - by intros [? []].
  - unfold DecodeSingleProof. read_fields.
Qed.

#[export] Instance SubProof_codec : Codec SubProof_ok EncodeSubProof DecodeSubProof.
Proof.
  apply (codec_record (fun p => (sb_BaseProof p, (sb_SubProof p, (sb_Root p, sb_Leaf p))))
    (fun q => mkSubProof q.1 q.2.1 q.2.2.1 q.2.2.2) _ _ _ _ _ _
    (codec_pair _ _ _ _ _ _ InclusionPath_codec (codec_pair _ _ _ _ _ _ InclusionPath_codec
      (codec_pair _ _ _ _ _ _ domain_codec domain_codec)))); try done.
  - by intros [].
  - by intros [? [? []]].
  - unfold DecodeSubProof. read_fields.
Qed.

#[export] Instance TopProof_codec : Codec TopProof_ok EncodeTopProof DecodeTopProof.
Proof.
  apply (codec_record (fun p => (tp_BaseProof p, (tp_SubProof p, (tp_TopProof p, (tp_Root p, tp_Leaf p)))))
    (fun q => mkTopProof q.1 q.2.1 q.2.2.1 q.2.2.2.1 q.2.2.2.2) _ _ _ _ _ _
    (codec_pair _ _ _ _ _ _ InclusionPath_codec (codec_pair _ _ _ _ _ _ InclusionPath_codec
      (codec_pair _ _ _ _ _ _ InclusionPath_codec (codec_pair _ _ _ _ _ _ domain_codec domain_codec))))); try done.
  - by intros [].
  - by intros [? [? [? []]]].
  - unfold DecodeTopProof. read_fields.
Qed.

(** A tag and what it announces. *)
Lemma tag_write k p rest : u32_ok k -> ReadLE 4 ((le_enc 4 k ++ p) ++ rest) = Some (k, p ++ rest).
Proof. intros Hk. rewrite <- app_assoc. by apply (codec_dec (Codec := u32_codec) k). Qed.

Lemma tagged_total {A} (ok : A -> Prop) enc dec `{!Codec ok enc dec} k a : ok a ->
  exists p, WriteLE 4 k +++ enc a = Some p /\ p <> [].
Proof. intros Ha. destruct (codec_total a Ha) as (p & -> & _). exists (le_enc 4 k ++ p). by split. Qed.

#[export] Instance ProofData_codec : Codec ProofData_ok EncodeProofData DecodeProofData.
Proof.
  constructor.
  - intros [[s|] [b|] [t|]] Hok; try done; cbn in Hok; unfold EncodeProofData; cbn [Single Sub Top];
      by eapply (tagged_total _ _ _ _ _ Hok).
  - intros [[s|] [b|] [t|]] p rest Hok E; try done; cbn in Hok; unfold EncodeProofData in E; cbn [Single Sub Top] in E.
    + destruct (EncodeSingleProof s) as [q|] eqn:Eq; [|done]. apply (inj Some) in E. subst p.
      unfold DecodeProofData, bind. rewrite tag_write by (unfold u32_ok; lia). cbn [Z.eqb Pos.eqb]. by rewrite (codec_dec (Codec := SingleProof_codec) s q rest Hok Eq).
    + destruct (EncodeSubProof b) as [q|] eqn:Eq; [|done]. apply (inj Some) in E. subst p.
      unfold DecodeProofData, bind. rewrite tag_write by (unfold u32_ok; lia). cbn [Z.eqb Pos.eqb]. by rewrite (codec_dec (Codec := SubProof_codec) b q rest Hok Eq).
    + destruct (EncodeTopProof t) as [q|] eqn:Eq; [|done]. apply (inj Some) in E. subst p.
      unfold DecodeProofData, bind. rewrite tag_write by (unfold u32_ok; lia). cbn [Z.eqb Pos.eqb]. by rewrite (codec_dec (Codec := TopProof_codec) t q rest Hok Eq).
  - intros bs pd rest E. unfold DecodeProofData, bind in E. destruct (ReadLE 4 bs) as [[k bs1]|] eqn:Ek; [|done].
    destruct (codec_enc (Codec := u32_codec) _ _ _ Ek) as [_ (p & Ep & ->)]. unfold ret in E.
    destruct (Z.eqb_spec k 0) as [->|]; [|destruct (Z.eqb_spec k 1) as [->|]; [|destruct (Z.eqb_spec k 2) as [->|]; [|done]]].
    + destruct (DecodeSingleProof bs1) as [[s bs2]|] eqn:Es; [|done]. injection E as <- <-.
      destruct (codec_enc _ _ _ Es) as [Hs (q & Eq & ->)]. split; [done|]. exists (p ++ q).
      unfold EncodeProofData. cbn [Single]. rewrite Ep, Eq. by rewrite app_assoc.
    + destruct (DecodeSubProof bs1) as [[s bs2]|] eqn:Es; [|done]. injection E as <- <-.
      destruct (codec_enc _ _ _ Es) as [Hs (q & Eq & ->)]. split; [done|]. exists (p ++ q).
      unfold EncodeProofData. cbn [Single Sub]. rewrite Ep, Eq. by rewrite app_assoc.
    + destruct (DecodeTopProof bs1) as [[s bs2]|] eqn:Es; [|done]. injection E as <- <-.
      destruct (codec_enc _ _ _ Es) as [Hs (q & Eq & ->)]. split; [done|]. exists (p ++ q).
      unfold EncodeProofData. cbn [Single Sub Top]. rewrite Ep, Eq. by rewrite app_assoc.
Qed.

#[export] Instance MerkleProof_codec : Codec MerkleProof_ok EncodeMerkleProof DecodeMerkleProof.
Proof. apply (codec_record Data mkMerkleProof _ _ _ _ _ _ ProofData_codec); try done. by intros []. Qed.

#[export] Instance Column_codec : Codec Column_ok EncodeColumn DecodeColumn.
Proof.
  apply (codec_record (fun c => (cl_Index c, Rows c)) (fun q => mkColumn q.1 q.2 None) _ _ _ _ _ _
    (codec_pair _ _ _ _ _ _ u32_codec (slice_codec domain_ok EncodeHasherDomain DecodeHasherDomain))); try done.
  - intros [i r h] (? & ? & Hh). cbn in *. by subst h.
  - intros [i r] [? ?]. done.
  - unfold DecodeColumn. read_fields.
Qed.

#[export] Instance ColumnProof_codec : Codec ColumnProof_ok EncodeColumnProof DecodeColumnProof.
Proof.
  apply (codec_record (fun c => (cp_Column c, InclusionProof c)) (fun q => mkColumnProof q.1 q.2) _ _ _ _ _ _
    (codec_pair _ _ _ _ _ _ Column_codec MerkleProof_codec)); try done.
  - by intros [].
  - by intros [].
  - unfold DecodeColumnProof. read_fields.
Qed.

#[export] Instance ReplicaColumnProof_codec :
  Codec ReplicaColumnProof_ok EncodeReplicaColumnProof DecodeReplicaColumnProof.
Proof.
  apply (codec_record (fun c => (C_X c, (DrgParents c, ExpParents c))) (fun q => mkReplicaColumnProof q.1 q.2.1 q.2.2) _ _ _ _ _ _
    (codec_pair _ _ _ _ _ _ ColumnProof_codec (codec_pair _ _ _ _ _ _
      (slice_codec ColumnProof_ok EncodeColumnProof DecodeColumnProof)
      (slice_codec ColumnProof_ok EncodeColumnProof DecodeColumnProof)))); try done.
  - by intros [].
  - by intros [? []].
  - unfold DecodeReplicaColumnProof. read_fields.
Qed.

#[export] Instance LabelingProof_codec : Codec LabelingProof_ok EncodeLabelingProof DecodeLabelingProof.
Proof.
  apply (codec_record (fun c => (lp_Parents c, (lp_LayerIndex c, lp_Node c))) (fun q => mkLabelingProof q.1 q.2.1 q.2.2) _ _ _ _ _ _
    (codec_pair _ _ _ _ _ _ (slice_codec domain_ok EncodeHasherDomain DecodeHasherDomain)
      (codec_pair _ _ _ _ _ _ u32_codec u64_codec))); try done.
  - by intros [].
  - by intros [? []].
  - unfold DecodeLabelingProof. read_fields.
Qed.

#[export] Instance EncodingProof_codec : Codec EncodingProof_ok EncodeEncodingProof DecodeEncodingProof.
Proof.
  apply (codec_record (fun c => (ep_Parents c, (ep_LayerIndex c, ep_Node c))) (fun q => mkEncodingProof q.1 q.2.1 q.2.2) _ _ _ _ _ _
    (codec_pair _ _ _ _ _ _ (slice_codec domain_ok EncodeHasherDomain DecodeHasherDomain)
      (codec_pair _ _ _ _ _ _ u32_codec u64_codec))); try done.
  - by intros [].
  - by intros [? []].
  - unfold DecodeEncodingProof. read_fields.
Qed.

#[export] Instance VanillaStackedProof_codec :
  Codec VanillaStackedProof_ok EncodeVanillaStackedProof DecodeVanillaStackedProof.
Proof.
  apply (codec_record
    (fun v => (CommDProofs v, (CommRLastProof v, (ReplicaColumnProofs v, (LabelingProofs v, vs_EncodingProof v)))))
    (fun q => mkVanillaStackedProof q.1 q.2.1 q.2.2.1 q.2.2.2.1 q.2.2.2.2) _ _ _ _ _ _
    (codec_pair _ _ _ _ _ _ MerkleProof_codec (codec_pair _ _ _ _ _ _ MerkleProof_codec
      (codec_pair _ _ _ _ _ _ ReplicaColumnProof_codec (codec_pair _ _ _ _ _ _
        (slice_codec LabelingProof_ok EncodeLabelingProof DecodeLabelingProof) EncodingProof_codec))))); try done.
  - by intros [].
  - by intros [? [? [? []]]].
  - unfold DecodeVanillaStackedProof. read_fields.
Qed.

(** ** The output of the first commit phase *)

Definition proofs_ok (ps : list (list VanillaStackedProof)) : Prop := slice_ok (slice_ok VanillaStackedProof_ok) ps.

(** What the decoder can produce. *)
Record Commit1OutRaw_ok (c : Commit1OutRaw) (ps : list (list VanillaStackedProof)) : Prop := {
  co_type : RegisteredProof c = "StackedDrg32GiBV1_1";
  co_proofs : proofs_ok ps;
  co_map : VanillaProofs c = match ps with [] => ∅ | _ => {[ "StackedDrg32GiBV1" := ps ]} end;
  co_commD : domain_ok (CommD c);
  co_commR : domain_ok (CommR c);
  co_replica : domain_ok (ReplicaID c);
  co_seed : domain_ok (Seed c);
  co_ticket : domain_ok (c1_Ticket c)
}.

Definition tuple_enc (q : list (list VanillaStackedProof) * (domain * (domain * (domain * (domain * domain))))) : option bytes :=
  write_slice (write_slice EncodeVanillaStackedProof) q.1 +++ EncodeCommitment q.2.1 +++ EncodeCommitment q.2.2.1 +++
  EncodeCommitment q.2.2.2.1 +++ EncodeTicket q.2.2.2.2.1 +++ EncodeTicket q.2.2.2.2.2.

Definition tuple_of (c : Commit1OutRaw) (ps : list (list VanillaStackedProof)) :=
  (ps, (CommR c, (CommD c, (ReplicaID c, (Seed c, c1_Ticket c))))).

Lemma tuple_codec : Codec (fun q => proofs_ok q.1 /\ domain_ok q.2.1 /\ domain_ok q.2.2.1 /\ domain_ok q.2.2.2.1 /\
    domain_ok q.2.2.2.2.1 /\ domain_ok q.2.2.2.2.2) tuple_enc
  (bind (read_slice (read_slice DecodeVanillaStackedProof)) (fun p => bind (bind (ReadFull 32) (fun r => bind
    (bind (ReadFull 32) (fun d => bind (bind (ReadFull 32) (fun i => bind (bind (ReadFull 32) (fun s =>
      bind (ReadFull 32) (fun t => ret (s, t)))) (fun x => ret (i, x)))) (fun x => ret (d, x))))
    (fun x => ret (r, x)))) (fun x => ret (p, x)))).
Proof.
  exact (codec_pair _ _ _ _ _ _ (slice_codec _ _ _ (Codec0 := slice_codec VanillaStackedProof_ok _ _))
    (codec_pair _ _ _ _ _ _ domain_codec (codec_pair _ _ _ _ _ _ domain_codec (codec_pair _ _ _ _ _ _ domain_codec
      (codec_pair _ _ _ _ _ _ domain_codec domain_codec))))).
Qed.

Lemma decode_tuple bs c : DecodeCommit1OutRaw bs = Some c <->
  exists ps, Commit1OutRaw_ok c ps /\ tuple_enc (tuple_of c ps) = Some bs.
Proof.
  pose proof tuple_codec as T. unfold DecodeCommit1OutRaw, DecodeCommitment, DecodeTicket.
  set (key := "StackedDrg32GiBV1") in *. split.
  - intros E. set (d := bind (read_slice (read_slice DecodeVanillaStackedProof)) _) in T.
    assert (exists q, d bs = Some (q, []) /\ c = mkCommit1OutRaw q.2.2.1 q.2.1 "StackedDrg32GiBV1_1" q.2.2.2.1 q.2.2.2.2.1
      q.2.2.2.2.2 (match q.1 with [] => ∅ | _ => {[ key := q.1 ]} end)) as (q & Ed & ->).
    { subst d. unfold bind, ret in *.
      repeat match type of E with context [match ?p ?b with Some _ => _ | None => _ end] =>
        lazymatch b with context [match _ with _ => _ end] => fail | _ => destruct (p b) as [[? ?]|] end end; try done.
      match type of E with match ?l with _ => _ end = _ => destruct l; [|done] end. injection E as <-. eexists. by split. }
    destruct (codec_enc (Codec := T) _ _ _ Ed) as [(? & ? & ? & ? & ? & ?) (p & Ep & ->)]. exists q.1.
    split; [by constructor|]. unfold tuple_of. cbn. rewrite app_nil_r. destruct q as [? [? [? [? [? ?]]]]]. exact Ep.
  - intros (ps & [] & E).
    pose proof (codec_dec (Codec := T) (tuple_of c ps) bs [] ltac:(by split_and!) E) as Hd. rewrite app_nil_r in Hd.
    unfold bind, ret in *.
    repeat match type of Hd with context [match ?p ?b with Some _ => _ | None => _ end] =>
      lazymatch b with context [match _ with _ => _ end] => fail | _ => destruct (p b) as [[? ?]|] end end; try done.
    unfold tuple_of in Hd. injection Hd as -> -> -> -> -> -> ->. destruct c. cbn in *. by subst.
Qed.

Lemma encode_tuple c ps : Commit1OutRaw_ok c ps ->
  EncodeCommit1OutRaw c = match ps with [] => None | _ => tuple_enc (tuple_of c ps) end.
Proof.
  intros [_ _ Hm _ _ _ _ _]. unfold EncodeCommit1OutRaw. rewrite Hm. destruct ps as [|p ps]; [by rewrite lookup_empty|].
  by rewrite lookup_singleton_eq.
Qed.

(** C8: the outputs of the first commit phase that encoding and decoding preserve are exactly
    those of the shape [Commit1OutRaw_ok] with at least one partition.  Such a value is encoded
    without error and decoding its bytes gives it back: its registered proof is
    [StackedDrg32GiBV1_1], its proofs are under the one key [StackedDrg32GiBV1], every hash has
    32 bytes, the numbers are within their widths, every proof is exactly one of single, sub
    and top, and no column has its [H].  For every other value the encoder fails, or what
    is decoded is an error or another value. *)
Theorem commit1_roundtrip (c : Commit1OutRaw) :
  (exists ps, Commit1OutRaw_ok c ps /\ ps <> []) <->
  exists bs, EncodeCommit1OutRaw c = Some bs /\ DecodeCommit1OutRaw bs = Some c.
Proof.
  split.
  - intros (ps & Hok & Hne). rewrite (encode_tuple c ps Hok).
    destruct (codec_total (Codec := tuple_codec) (tuple_of c ps)) as (bs & E & _); [by destruct Hok|].
    exists bs. destruct ps; [done|]. split; [done|]. apply decode_tuple. eauto.
  - intros (bs & Henc & (ps & Hok & _)%decode_tuple). exists ps. split; [done|].
    rewrite (encode_tuple c ps Hok) in Henc. by intros ->.
Qed.

(** the format is canonical: whatever bytes the decoder accepts, it gives a
    value of the right shape whose encoding is exactly those bytes, so no two
    byte strings decode to the same proof and trailing or missing bytes are
    refused; only for a stream without partitions the value cannot be encoded
    again, because the encoder writes its zero as an [int]. *)
Theorem commit1_canonical (bs : bytes) (c : Commit1OutRaw) : DecodeCommit1OutRaw bs = Some c ->
  exists ps, Commit1OutRaw_ok c ps /\ EncodeCommit1OutRaw c = match ps with [] => None | _ => Some bs end.
Proof.
  intros (ps & Hok & E)%decode_tuple. exists ps. split; [done|]. rewrite (encode_tuple c ps Hok). by destruct ps.
Qed.

(** ** A small proof *)

Definition ex_hash : domain := replicate 32 (byte_of 7).
Definition ex_path : InclusionPath := mkInclusionPath [mkPathElement [ex_hash; ex_hash] 5].
Definition ex_single : MerkleProof := mkMerkleProof (mkProofData (Some (mkSingleProof ex_hash ex_hash ex_path)) None None).
Definition ex_sub : MerkleProof := mkMerkleProof (mkProofData None (Some (mkSubProof ex_path ex_path ex_hash ex_hash)) None).
Definition ex_column : ColumnProof := mkColumnProof (mkColumn 3 [ex_hash] None) ex_sub.
Definition ex_vanilla : VanillaStackedProof :=
  mkVanillaStackedProof ex_single ex_sub (mkReplicaColumnProof ex_column [ex_column] []) [mkLabelingProof [ex_hash] 1 2]
    (mkEncodingProof [] 11 (2 ^ 40)).
Definition ex_commit1 : Commit1OutRaw :=
  mkCommit1OutRaw ex_hash ex_hash "StackedDrg32GiBV1_1" ex_hash ex_hash ex_hash {[ "StackedDrg32GiBV1" := [[ex_vanilla]] ]}.

Lemma ex_commit1_ok : Commit1OutRaw_ok ex_commit1 [[ex_vanilla]].
Proof.
  constructor; try done. unfold proofs_ok, slice_ok, VanillaStackedProof_ok, MerkleProof_ok, ProofData_ok, SingleProof_ok, SubProof_ok,
    ReplicaColumnProof_ok, ColumnProof_ok, Column_ok, LabelingProof_ok, EncodingProof_ok, InclusionPath_ok, PathElement_ok, slice_ok,
    u32_ok, u64_ok, in_u64.
  repeat (split_and! || constructor); cbn; try done; try lia.
Qed.

Lemma commit1_roundtrip_witness :
  exists bs, EncodeCommit1OutRaw ex_commit1 = Some bs /\ DecodeCommit1OutRaw bs = Some ex_commit1.
Proof. apply (commit1_roundtrip ex_commit1). exists [[ex_vanilla]]. split; [exact ex_commit1_ok|discriminate]. Defined.

(** A stream without partitions. *)
Definition ex_stream : bytes := le_enc 8 0 ++ concat (replicate 5 ex_hash).
Definition ex_empty : Commit1OutRaw :=
  mkCommit1OutRaw ex_hash ex_hash "StackedDrg32GiBV1_1" ex_hash ex_hash ex_hash ∅.

Lemma commit1_canonical_witness :
  exists ps, Commit1OutRaw_ok ex_empty ps /\
    EncodeCommit1OutRaw ex_empty = match ps with [] => None | _ => Some ex_stream end.
Proof. apply (commit1_canonical ex_stream ex_empty). vm_compute. reflexivity. Defined.
