(* ===== verification/Memtree.v ===== *)
(** * Merkle trees in memory and their inclusion proofs

    [lib/proof/merkle_sha254_memtree.go], [merkle_proof_memtree.go], [tree_size.go]
    and [verify.go]: the PDP prover keeps the tree of a piece as one byte
    buffer, level after level from the leaves to the root, cuts inclusion
    proofs out of it, and checks them the way the contract does.  SHA-256, the
    padding of fr32 and the buffer pool are parameters. *)

From stdpp Require Import base gmap sets list strings.
From Stdlib Require Import ZArith Lia Strings.Byte.
From S2P Require Import Prelude Codec.

Definition NODE_SIZE : Z := 32.
Definition MaxMemtreeSize : Z := 2 ^ 30.

(** ** Byte buffers; an index out of range is a panic *)

Definition slice (b : bytes) (off len : Z) : option bytes :=
  if decide (0 <= off /\ 0 <= len /\ off + len <= Z.of_nat (length b))
  then Some (take (Z.to_nat len) (drop (Z.to_nat off) b)) else None.

(** [copy] to an offset. *)
Definition blit (b : bytes) (off : Z) (x : bytes) : option bytes :=
  if decide (0 <= off /\ off + Z.of_nat (length x) <= Z.of_nat (length b))
  then Some (take (Z.to_nat off) b ++ x ++ drop (Z.to_nat off + length x) b) else None.

(** ** Level sizes *)

(** [computeTotalNodes]: the sizes of the levels from the leaves up. *)
Fixpoint level_counts (fuel : nat) (arity curr : Z) : option (list Z) :=
  match fuel with
  | O => None
  | S fuel' =>
      if curr <=? 0 then Some []
      else if curr =? 1 then Some [curr]
      else cons curr <$> level_counts fuel' arity (Z.quot (curr + arity - 1) arity)
  end.

Definition sum (l : list Z) : Z := foldr Z.add 0 l.

Definition computeTotalNodes (nLeaves arity : Z) : option (Z * list Z) :=
  (fun l => (sum l, l)) <$> level_counts 64 arity nLeaves.

(** The loop of [MemtreeProof], which has no test for an empty level. *)
Fixpoint level_sizes (fuel : nat) (arity curr : Z) : option (list Z) :=
  match fuel with
  | O => None
  | S fuel' =>
      if curr =? 1 then Some [curr]
      else cons curr <$> level_sizes fuel' arity (Z.quot (curr + arity - 1) arity)
  end.

(** The byte offset of each level. *)
Fixpoint level_starts (off : Z) (sizes : list Z) : list Z :=
  match sizes with
  | [] => []
  | s :: sizes' => off :: level_starts (off + s * NODE_SIZE) sizes'
  end.

Section Sha254.
(** [sha256.Sum256] *)
Context (Sum256 : bytes -> bytes).

(** Sets the top bits of the last byte to zero. *)
Definition mask254 (h : bytes) : bytes :=
  take 31 h ++ ((fun b => byte_of (Z.land (byte_val b) 63)) <$> drop 31 h).

Definition ComputeBinShaParent (left right : bytes) : bytes := mask254 (Sum256 (left ++ right)).

(** ** Building *)

(** The nodes of one level, from index [i] on. *)
Fixpoint build_level (buf : bytes) (prevLevelStart currLevelStart i : Z) (n : nat) : option bytes :=
  match n with
  | O => Some buf
  | S n' =>
      match slice buf (prevLevelStart + (2 * i) * NODE_SIZE) (NODE_SIZE * 2) with
      | None => None
      | Some both =>
          match blit buf (currLevelStart + i * NODE_SIZE) (mask254 (Sum256 both)) with
          | None => None
          | Some buf' => build_level buf' prevLevelStart currLevelStart (i + 1) n'
          end
      end
  end.

(** The levels above the leaves. *)
Fixpoint build_levels (buf : bytes) (levels : list (Z * Z)) : option bytes :=
  match levels with
  | (prevStart, _) :: (((currStart, size) :: _) as rest) =>
      match build_level buf prevStart currStart 0 (Z.to_nat size) with
      | None => None
      | Some buf' => build_levels buf' rest
      end
  | _ => Some buf
  end.

Inductive tree_error := TooLarge | ReadError | InvalidSize | InvalidIndex | Panic | Diverges.

(** The part the two builders share: the leaves are copied into a buffer of the
    pool and the levels are computed. *)
Definition build_tree (Get : Z -> bytes) (size : Z) (leaves : bytes) : result bytes tree_error :=
  match computeTotalNodes (Z.quot size NODE_SIZE) 2 with
  | None => Err Diverges
  | Some (_, []) => Err Panic                (* levelStarts[0] *)
  | Some (totalNodes, levelSizes) =>
      match blit (Get (totalNodes * NODE_SIZE)) 0 leaves with
      | None => Err Panic
      | Some buf =>
          match build_levels buf (zip (level_starts 0 levelSizes) levelSizes) with
          | None => Err Panic
          | Some buf' => Ok buf'
          end
      end
  end.

Definition BuildSha254MemtreeFromSnapshot (Get : Z -> bytes) (data : bytes) : result bytes tree_error :=
  let size := Z.of_nat (length data) in
  if size >? MaxMemtreeSize then Err TooLarge else build_tree Get size data.

(** [Pad] is [fr32.Pad] and [Padded] the padded size of a piece. *)
Definition BuildSha254Memtree (Get : Z -> bytes) (Pad : bytes -> bytes) (Padded : Z -> Z) (rawIn : bytes) (size : Z)
    : result bytes tree_error :=
  if Padded size >? MaxMemtreeSize then Err TooLarge
  else
    match ReadFull (Z.to_nat size) rawIn with
    | None => Err ReadError
    | Some (unpadBuf, _) => build_tree Get (Padded size) (Pad unpadBuf)
    end.

(** ** Proofs *)

Record RawMerkleProof := mkRawProof { Leaf : bytes; Proof_ : list bytes; Root : bytes }.

(** The siblings on the way up. *)
Fixpoint siblings_up (memtree : bytes) (starts : list Z) (index : Z) : option (list bytes) :=
  match starts with
  | start :: ((_ :: _) as rest) =>
      match slice memtree (start + Z.lxor index 1 * NODE_SIZE) NODE_SIZE with
      | None => None
      | Some sibling => cons sibling <$> siblings_up memtree rest (Z.quot index 2)
      end
  | _ => Some []
  end.

Definition MemtreeProof (memtree : bytes) (leafIndex : Z) : result RawMerkleProof tree_error :=
  let totalNodes := Z.quot (Z.of_nat (length memtree)) NODE_SIZE in
  let nLeaves := Z.quot (totalNodes + 1) 2 in
  match level_sizes 64 2 nLeaves with
  | None => Err Diverges
  | Some levelSizes =>
      if negb (sum levelSizes =? totalNodes) then Err InvalidSize
      else if (leafIndex <? 0) || (leafIndex >=? nLeaves) then Err InvalidIndex
      else
        let starts := level_starts 0 levelSizes in
        match slice memtree (leafIndex * NODE_SIZE) NODE_SIZE, siblings_up memtree starts leafIndex,
              slice memtree (List.last starts 0) NODE_SIZE with
        | Some leaf, Some sibs, Some root => Ok (mkRawProof leaf sibs root)
        | _, _, _ => Err Panic
        end
  end.

Fixpoint proof_root (computed : bytes) (siblings : list bytes) (position : Z) : bytes :=
  match siblings with
  | [] => computed
  | s :: siblings' =>
      proof_root (if position mod 2 =? 0 then ComputeBinShaParent computed s else ComputeBinShaParent s computed)
        siblings' (position / 2)
  end.

Definition VerifyProof (leaf : bytes) (siblings : list bytes) (root : bytes) (position : Z) : bool :=
  bool_decide (proof_root leaf siblings position = root).
End Sha254.

(** ** Buffers of nodes *)

Definition nodes_ok (ns : list bytes) : Prop := Forall (fun n => length n = 32%nat) ns.

Lemma concat_nodes_length ns : nodes_ok ns -> length (concat ns) = (32 * length ns)%nat.
Proof. induction 1 as [|n ns Hn _ IH]; [done|]. cbn [concat length]. rewrite length_app, IH, Hn. lia. Qed.

Lemma slice_app a b c : slice (a ++ b ++ c) (Z.of_nat (length a)) (Z.of_nat (length b)) = Some b.
Proof.
  unfold slice. rewrite decide_True by (rewrite !length_app; lia). rewrite !Nat2Z.id, drop_app_length.
  by rewrite take_app_length.
Qed.

Lemma blit_app a b c x : length x = length b ->
  blit (a ++ b ++ c) (Z.of_nat (length a)) x = Some (a ++ x ++ c).
Proof.
  intros Hx. unfold blit. rewrite decide_True by (rewrite !length_app; lia). rewrite Nat2Z.id, take_app_length.
  assert (drop (length a + length x) (a ++ b ++ c) = c) as ->; [|done].
  rewrite Hx, app_assoc, <- length_app. apply drop_app_length.
Qed.

Lemma nodes_split ns (i : nat) : nodes_ok ns -> (i < length ns)%nat ->
  concat ns = concat (take i ns) ++ ns !!! i ++ concat (drop (S i) ns) /\
  Z.of_nat (length (concat (take i ns))) = Z.of_nat i * NODE_SIZE /\ length (ns !!! i) = 32%nat.
Proof.
  intros Hok Hi. destruct (lookup_lt_is_Some_2 ns i Hi) as [n Hn]. rewrite (list_lookup_total_correct _ _ _ Hn).
  split; [|split].
  - rewrite <- (take_drop_middle ns i n Hn) at 1. by rewrite concat_app.
  - rewrite concat_nodes_length by (by apply Forall_take). rewrite length_take. unfold NODE_SIZE. lia.
  - exact (Forall_lookup_1 _ _ _ _ Hok Hn).
Qed.

Lemma slice_node ns (i : nat) : nodes_ok ns -> (i < length ns)%nat ->
  slice (concat ns) (Z.of_nat i * NODE_SIZE) NODE_SIZE = Some (ns !!! i).
Proof.
  intros Hok Hi. destruct (nodes_split ns i Hok Hi) as (-> & <- & Hl).
  change NODE_SIZE with (Z.of_nat 32). rewrite <- Hl. apply slice_app.
Qed.

Lemma slice_two ns (i : nat) : nodes_ok ns -> (S i < length ns)%nat ->
  slice (concat ns) (Z.of_nat i * NODE_SIZE) (NODE_SIZE * 2) = Some (ns !!! i ++ ns !!! S i).
Proof.
  intros Hok Hi. destruct (nodes_split ns i Hok ltac:(lia)) as (-> & <- & Hl).
  assert (exists rest, concat (drop (S i) ns) = ns !!! S i ++ rest /\ length (ns !!! S i) = 32%nat) as (rest & -> & Hl').
  { destruct (lookup_lt_is_Some_2 ns (S i) Hi) as [n Hn]. rewrite (list_lookup_total_correct _ _ _ Hn).
    exists (concat (drop (S (S i)) ns)). rewrite (drop_S _ _ _ Hn). split; [done|]. exact (Forall_lookup_1 _ _ _ _ Hok Hn). }
  rewrite (app_assoc (ns !!! i)). replace (NODE_SIZE * 2) with (Z.of_nat (length (ns !!! i ++ ns !!! S i))).
  - apply slice_app.
  - rewrite length_app, Hl, Hl'. done.
Qed.

Lemma blit_node ns (i : nat) h : nodes_ok ns -> (i < length ns)%nat -> length h = 32%nat ->
  blit (concat ns) (Z.of_nat i * NODE_SIZE) h = Some (concat (<[i := h]> ns)) /\ nodes_ok (<[i := h]> ns).
Proof.
  intros Hok Hi Hh. destruct (nodes_split ns i Hok Hi) as (E & Ho & Hl). split.
  - rewrite E, <- Ho, blit_app by lia. rewrite insert_take_drop by done. by rewrite concat_app.
  - by apply Forall_insert.
Qed.

(** ** Sizes of a full tree *)

Fixpoint pow_sizes (k : nat) : list Z :=
  match k with
  | O => [1]
  | S k' => Z.of_nat (2 ^ S k') :: pow_sizes k'
  end.

Lemma half_pow k : Z.quot (Z.of_nat (2 ^ S k) + 2 - 1) 2 = Z.of_nat (2 ^ k).
Proof.
  rewrite Z.quot_div_nonneg by lia. rewrite Nat.pow_succ_r'. pose proof (Nat.pow_nonzero 2 k).
  symmetry. apply (Z.div_unique _ _ _ 1); lia.
Qed.

Lemma pow_ge_2 k : (2 <= 2 ^ S k)%nat.
Proof. rewrite Nat.pow_succ_r'. pose proof (Nat.pow_nonzero 2 k). lia. Qed.

Lemma level_counts_pow k fuel : (k < fuel)%nat -> level_counts fuel 2 (Z.of_nat (2 ^ k)) = Some (pow_sizes k).
Proof.
  revert k. induction fuel as [|fuel IH]; intros k Hk; [lia|]. cbn [level_counts]. destruct k as [|k]; [done|].
  pose proof (pow_ge_2 k). rewrite (proj2 (Z.leb_gt _ 0)), (proj2 (Z.eqb_neq _ 1)) by lia.
  rewrite half_pow, IH by lia. done.
Qed.

Lemma level_sizes_pow k fuel : (k < fuel)%nat -> level_sizes fuel 2 (Z.of_nat (2 ^ k)) = Some (pow_sizes k).
Proof.
  revert k. induction fuel as [|fuel IH]; intros k Hk; [lia|]. cbn [level_sizes]. destruct k as [|k]; [done|].
  pose proof (pow_ge_2 k). rewrite (proj2 (Z.eqb_neq _ 1)) by lia. rewrite half_pow, IH by lia. done.
Qed.

(** An empty buffer makes the loop of [MemtreeProof] run forever. *)
Lemma level_sizes_zero fuel : level_sizes fuel 2 0 = None.
Proof.
  induction fuel as [|fuel IH]; [done|]. cbn [level_sizes]. change (Z.quot (0 + 2 - 1) 2) with 0. by rewrite IH.
Qed.

Lemma sum_pow k : sum (pow_sizes k) = Z.of_nat (2 ^ S k) - 1.
Proof.
  induction k as [|k IH]; [done|]. cbn [pow_sizes]. unfold sum in *. cbn [foldr]. rewrite IH.
  rewrite (Nat.pow_succ_r' 2 (S k)). lia.
Qed.

Section Trees.
Context (Sum256 : bytes -> bytes) (Sum256_length : forall x, length (Sum256 x) = 32%nat).

Abbreviation parent := (ComputeBinShaParent Sum256).

Lemma mask254_length h : length (mask254 h) = length h.
Proof. unfold mask254. rewrite length_app, length_fmap, <- length_app. by rewrite take_drop. Qed.

Lemma parent_length a b : length (parent a b) = 32%nat.
Proof. unfold ComputeBinShaParent. by rewrite mask254_length. Qed.

(** The nodes of a level are computed from the nodes of the level below. *)
Lemma build_level_spec (p q n i : nat) ns : nodes_ok ns -> (p + 2 * (i + n) <= q)%nat -> (q + i + n <= length ns)%nat ->
  exists ns', build_level Sum256 (concat ns) (Z.of_nat p * NODE_SIZE) (Z.of_nat q * NODE_SIZE) (Z.of_nat i) n = Some (concat ns') /\
    nodes_ok ns' /\ length ns' = length ns /\
    (forall m, (m < q + i \/ q + i + n <= m)%nat -> ns' !!! m = ns !!! m) /\
    (forall j, (i <= j < i + n)%nat -> ns' !!! (q + j)%nat = parent (ns !!! (p + 2 * j)%nat) (ns !!! S (p + 2 * j))).
Proof.
  revert i ns. induction n as [|n IH]; intros i ns Hok Hpq Hlen.
  { exists ns. split_and!; [done|done|done|done|lia]. }
  cbn [build_level]. replace (Z.of_nat p * NODE_SIZE + 2 * Z.of_nat i * NODE_SIZE) with (Z.of_nat (p + 2 * i) * NODE_SIZE) by lia.
  rewrite slice_two by (done || lia). replace (Z.of_nat q * NODE_SIZE + Z.of_nat i * NODE_SIZE) with (Z.of_nat (q + i) * NODE_SIZE) by lia.
  set (h := mask254 _). assert (length h = 32%nat) as Hh by (unfold h; by rewrite mask254_length).
  destruct (blit_node ns (q + i) h Hok ltac:(lia) Hh) as [-> Hok']. replace (Z.of_nat i + 1) with (Z.of_nat (S i)) by lia.
  destruct (IH (S i) (<[(q + i)%nat := h]> ns) Hok' ltac:(lia) ltac:(rewrite length_insert; lia)) as (ns' & E & Hn & Hl & Hsame & Hnew).
  rewrite length_insert in Hl. exists ns'. split; [done|]. split; [done|]. split; [done|]. split.
  - intros m Hm. rewrite Hsame by lia. by rewrite list_lookup_total_insert_ne by lia.
  - intros j Hj. destruct (decide (j = i)) as [->|Hne].
    + rewrite Hsame by lia. rewrite list_lookup_total_insert_eq by lia. done.
    + rewrite Hnew by lia. by rewrite !list_lookup_total_insert_ne by lia.
Qed.

(** A full tree of [k] levels above the leaves at node [p]. *)
Fixpoint tree (k p : nat) (ns : list bytes) : Prop :=
  match k with
  | O => True
  | S k' =>
      (forall j, (j < 2 ^ k')%nat ->
         ns !!! (p + 2 ^ S k' + j)%nat = parent (ns !!! (p + 2 * j)%nat) (ns !!! S (p + 2 * j))) /\
      tree k' (p + 2 ^ S k') ns
  end.

Lemma level_starts_pow k p : level_starts (Z.of_nat p * NODE_SIZE) (pow_sizes (S k)) =
  Z.of_nat p * NODE_SIZE :: level_starts (Z.of_nat (p + 2 ^ S k) * NODE_SIZE) (pow_sizes k).
Proof. cbn [pow_sizes level_starts]. do 2 f_equal. lia. Qed.

Lemma build_levels_spec k p ns : nodes_ok ns -> (p + 2 ^ S k - 1)%nat = length ns ->
  exists ns', build_levels Sum256 (concat ns) (zip (level_starts (Z.of_nat p * NODE_SIZE) (pow_sizes k)) (pow_sizes k)) = Some (concat ns') /\
    nodes_ok ns' /\ length ns' = length ns /\ (forall m, (m < p + 2 ^ k)%nat -> ns' !!! m = ns !!! m) /\ tree k p ns'.
Proof.
  revert p ns. induction k as [|k IH]; intros p ns Hok Hlen; [by exists ns|].
  pose proof (Nat.pow_nonzero 2 k ltac:(lia)) as Hk0. pose proof (Nat.pow_succ_r' 2 k) as Hk1. pose proof (Nat.pow_succ_r' 2 (S k)) as Hk2.
  destruct (build_level_spec p (p + 2 ^ S k) (2 ^ k) 0 ns Hok ltac:(lia) ltac:(lia)) as (ns1 & E1 & Hok1 & Hl1 & Hs1 & Hn1).
  destruct (IH (p + 2 ^ S k)%nat ns1 Hok1 ltac:(lia)) as (ns2 & E2 & Hok2 & Hl2 & Hs2 & Ht2).
  exists ns2. split; [|split; [done|split; [lia|split]]].
  - rewrite level_starts_pow. cbn [pow_sizes zip]. change (pow_sizes (S k)) with (Z.of_nat (2 ^ S k) :: pow_sizes k).
    cbn [zip_with]. destruct (pow_sizes k) as [|sz rest] eqn:Es; [by destruct k|]. cbn [level_starts zip_with] in E2 |- *.
    cbn [build_levels]. assert (sz = Z.of_nat (2 ^ k)) as -> by (destruct k; by injection Es as <- _).
    rewrite Nat2Z.id. change 0 with (Z.of_nat 0) at 1. rewrite E1. exact E2.
  - intros m Hm. rewrite Hs2 by lia. apply Hs1. lia.
  - split; [|done]. intros j Hj. rewrite Hs2 by lia. rewrite Hn1 by lia. by rewrite !Hs2, !Hs1 by lia.
Qed.

(** ** Proofs from a full tree *)

Lemma lxor_even j : Z.lxor (2 * j) 1 = 2 * j + 1.
Proof.
  symmetry. apply Z.add_nocarry_lxor. change 1 with (Z.ones 1). rewrite Z.land_ones by lia.
  change (2 ^ 1) with 2. rewrite Z.mul_comm. apply Z.mod_mul. lia.
Qed.

Lemma lxor_odd j : Z.lxor (2 * j + 1) 1 = 2 * j.
Proof. rewrite <- lxor_even, Z.lxor_assoc, Z.lxor_nilpotent. apply Z.lxor_0_r. Qed.

Lemma starts_cons p k : exists s rest, level_starts (Z.of_nat p * NODE_SIZE) (pow_sizes k) = s :: rest.
Proof. destruct k; by eexists _, _. Qed.

(** One level up: the sibling and the parent. *)
Lemma sibling_step (p idx : nat) (j : nat) ns : nodes_ok ns -> (j = idx / 2)%nat -> (S (p + 2 * j) < length ns)%nat ->
  exists s, slice (concat ns) (Z.of_nat p * NODE_SIZE + Z.lxor (Z.of_nat idx) 1 * NODE_SIZE) NODE_SIZE = Some s /\
    length s = 32%nat /\
    (if Z.of_nat idx mod 2 =? 0 then parent (ns !!! (p + idx)%nat) s else parent s (ns !!! (p + idx)%nat)) =
    parent (ns !!! (p + 2 * j)%nat) (ns !!! S (p + 2 * j)).
Proof.
  intros Hok Hj Hlen. pose proof (Nat.div_mod idx 2 ltac:(lia)) as Hdm. rewrite <- Hj in Hdm.
  pose proof (Nat.mod_upper_bound idx 2 ltac:(lia)) as Hm.
  assert (forall m, (m < length ns)%nat -> length (ns !!! m) = 32%nat) as Hl32 by (intros m Hmm; by apply nodes_split).
  destruct (idx mod 2)%nat as [|[|]] eqn:Em; [| |lia].
  - assert (idx = 2 * j)%nat as -> by lia. exists (ns !!! S (p + 2 * j)). rewrite Nat2Z.inj_mul. change (Z.of_nat 2) with 2.
    rewrite lxor_even. replace (Z.of_nat p * NODE_SIZE + (2 * Z.of_nat j + 1) * NODE_SIZE) with (Z.of_nat (S (p + 2 * j)) * NODE_SIZE) by lia.
    split; [by apply slice_node|]. split; [by apply Hl32|]. rewrite Z.mul_comm, Z.mod_mul by lia. done.
  - assert (idx = 2 * j + 1)%nat as -> by lia. exists (ns !!! (p + 2 * j)%nat). rewrite Nat2Z.inj_add, Nat2Z.inj_mul. change (Z.of_nat 2) with 2.
    change (Z.of_nat 1) with 1. rewrite lxor_odd.
    replace (Z.of_nat p * NODE_SIZE + (2 * Z.of_nat j) * NODE_SIZE) with (Z.of_nat (p + 2 * j) * NODE_SIZE) by lia.
    split; [apply slice_node; [done|lia]|]. split; [apply Hl32; lia|].
    rewrite Z.add_comm, Z.mul_comm, Z.mod_add by lia. change (1 mod 2 =? 0) with false. by rewrite Nat.add_1_r, Nat.add_succ_r.
Qed.

Lemma siblings_up_cons m a s0 rest i : siblings_up m (a :: s0 :: rest) i =
  match slice m (a + Z.lxor i 1 * NODE_SIZE) NODE_SIZE with
  | None => None
  | Some sibling => cons sibling <$> siblings_up m (s0 :: rest) (Z.quot i 2)
  end.
Proof. done. Qed.

Lemma siblings_up_spec k p ns idx : nodes_ok ns -> (p + 2 ^ S k - 1)%nat = length ns -> tree k p ns -> (idx < 2 ^ k)%nat ->
  exists sibs, siblings_up (concat ns) (level_starts (Z.of_nat p * NODE_SIZE) (pow_sizes k)) (Z.of_nat idx) = Some sibs /\
    length sibs = k /\ Forall (fun s => length s = 32%nat) sibs /\
    proof_root Sum256 (ns !!! (p + idx)%nat) sibs (Z.of_nat idx) = ns !!! (length ns - 1)%nat.
Proof.
  revert p idx. induction k as [|k IH]; intros p idx Hok Hlen Ht Hi.
  { exists []. split_and!; [done|done|done|]. cbn. f_equal. cbn in Hlen, Hi. lia. }
  destruct Ht as [Hup Ht]. set (j := (idx / 2)%nat).
  pose proof (Nat.pow_nonzero 2 k ltac:(lia)) as Hk0. pose proof (Nat.pow_succ_r' 2 k) as Hk1. pose proof (Nat.pow_succ_r' 2 (S k)) as Hk2.
  assert (j < 2 ^ k)%nat as Hj by (apply Nat.Div0.div_lt_upper_bound; lia).
  destruct (sibling_step p idx j ns Hok eq_refl ltac:(lia)) as (s & Es & Hs & Epar).
  destruct (IH (p + 2 ^ S k)%nat j Hok ltac:(lia) Ht Hj) as (sibs & E & Hl & Hf & Hr).
  exists (s :: sibs). rewrite level_starts_pow. destruct (starts_cons (p + 2 ^ S k) k) as (s0 & rest & E0). rewrite E0 in E |- *.
  rewrite siblings_up_cons, Es. rewrite Z.quot_div_nonneg by lia.
  assert (Z.of_nat idx / 2 = Z.of_nat j) as Hdiv by (unfold j; by rewrite Nat2Z.inj_div).
  rewrite Hdiv, E. split; [done|]. split; [cbn; lia|]. split; [by constructor|]. cbn [proof_root]. rewrite Epar, <- Hup by done.
  rewrite Hdiv. exact Hr.
Qed.

Lemma last_start k p : List.last (level_starts (Z.of_nat p * NODE_SIZE) (pow_sizes k)) 0 = Z.of_nat (p + 2 ^ S k - 2) * NODE_SIZE.
Proof.
  revert p. induction k as [|k IH]; intros p.
  { cbn [pow_sizes level_starts List.last]. f_equal. f_equal. change (2 ^ 1)%nat with 2%nat. lia. }
  rewrite level_starts_pow.
  destruct (starts_cons (p + 2 ^ S k) k) as (s0 & rest & E0). rewrite E0. cbn [List.last]. 
  change (List.last (s0 :: rest) 0 = Z.of_nat (p + 2 ^ S (S k) - 2) * NODE_SIZE). rewrite <- E0, IH. do 2 f_equal.
  rewrite (Nat.pow_succ_r' 2 (S k)). lia.
Qed.

Lemma MemtreeProof_spec k ns idx : (k < 64)%nat -> nodes_ok ns -> (2 ^ S k - 1)%nat = length ns -> tree k 0 ns -> (idx < 2 ^ k)%nat ->
  exists p, MemtreeProof (concat ns) (Z.of_nat idx) = Ok p /\ Leaf p = ns !!! idx /\ Root p = ns !!! (length ns - 1)%nat /\
    length (Proof_ p) = k /\ Forall (fun s => length s = 32%nat) (Proof_ p) /\
    proof_root Sum256 (Leaf p) (Proof_ p) (Z.of_nat idx) = Root p.
Proof.
  intros Hk Hok Hlen Ht Hi. pose proof (Nat.pow_nonzero 2 k ltac:(lia)) as Hk0. pose proof (Nat.pow_succ_r' 2 k) as Hk1.
  unfold MemtreeProof. rewrite concat_nodes_length by done.
  replace (Z.quot (Z.of_nat (32 * length ns)) NODE_SIZE) with (Z.of_nat (length ns)).
  2:{ rewrite Z.quot_div_nonneg by (unfold NODE_SIZE; lia). unfold NODE_SIZE. rewrite Nat2Z.inj_mul, Z.mul_comm. by rewrite Z.div_mul. }
  replace (Z.quot (Z.of_nat (length ns) + 1) 2) with (Z.of_nat (2 ^ k)).
  2:{ rewrite Z.quot_div_nonneg by lia. apply (Z.div_unique _ _ _ 0); lia. }
  rewrite level_sizes_pow, sum_pow by done. rewrite (proj2 (Z.eqb_eq _ _)) by lia. cbn [negb].
  rewrite (proj2 (Z.ltb_ge _ 0)) by lia. rewrite Z.geb_leb, (proj2 (Z.leb_gt _ _)) by lia. cbn [orb].
  rewrite slice_node by (done || lia).
  destruct (siblings_up_spec k 0 ns idx Hok ltac:(lia) Ht Hi) as (sibs & E & Hl & Hf & Hr). cbn [Z.of_nat] in E. rewrite Z.mul_0_l in E. rewrite E.
  pose proof (last_start k 0) as Hla. cbn [Z.of_nat] in Hla. rewrite Z.mul_0_l in Hla. rewrite Hla.
  replace (0 + 2 ^ S k - 2)%nat with (length ns - 1)%nat by lia.
  rewrite slice_node by (done || lia). eexists. split; [done|]. cbn [Leaf Proof_ Root]. by split_and!.
Qed.

(** ** The promises *)

Lemma chunk (n : nat) (b : bytes) : length b = (32 * n)%nat -> exists ns, nodes_ok ns /\ length ns = n /\ b = concat ns.
Proof.
  revert b. induction n as [|n IH]; intros b Hb.
  { exists []. split_and!; [by constructor|done|]. by apply nil_length_inv. }
  destruct (IH (drop 32 b)) as (ns & Hok & Hl & E); [rewrite length_drop; lia|].
  exists (take 32 b :: ns). split_and!; [|cbn; lia|cbn; by rewrite <- E, take_drop].
  constructor; [|done]. rewrite length_take. lia.
Qed.

(** A buffer of the pool with the leaves copied to its start. *)
Lemma build_tree_spec (Get : Z -> bytes) k (data : bytes) : (k < 64)%nat ->
  (forall n, 0 <= n -> Z.of_nat (length (Get n)) = n) -> length data = (32 * 2 ^ k)%nat ->
  exists ns, build_tree Sum256 Get (Z.of_nat (length data)) data = Ok (concat ns) /\ nodes_ok ns /\
    (2 ^ S k - 1)%nat = length ns /\ tree k 0 ns /\
    forall i, (i < 2 ^ k)%nat -> slice data (Z.of_nat i * NODE_SIZE) NODE_SIZE = Some (ns !!! i).
Proof.
  intros Hk Hget Hd. pose proof (Nat.pow_nonzero 2 k ltac:(lia)) as Hk0. pose proof (Nat.pow_succ_r' 2 k) as Hk1.
  unfold build_tree. replace (Z.quot (Z.of_nat (length data)) NODE_SIZE) with (Z.of_nat (2 ^ k)).
  2:{ rewrite Hd, Z.quot_div_nonneg by (unfold NODE_SIZE; lia). unfold NODE_SIZE. rewrite Nat2Z.inj_mul, Z.mul_comm. by rewrite Z.div_mul. }
  unfold computeTotalNodes. rewrite level_counts_pow by done. cbn [fmap option_fmap option_map]. rewrite sum_pow.
  destruct (pow_sizes k) as [|s0 rest] eqn:Es; [by destruct k|]. rewrite <- Es. clear Es s0 rest.
  set (buf := Get _). assert (length buf = (32 * (2 ^ S k - 1))%nat) as Hb.
  { pose proof (Hget ((Z.of_nat (2 ^ S k) - 1) * NODE_SIZE) ltac:(unfold NODE_SIZE; lia)) as H. fold buf in H. unfold NODE_SIZE in H. lia. }
  assert (blit buf 0 data = Some (data ++ drop (length data) buf)) as ->.
  { unfold blit. rewrite decide_True by lia. done. }
  destruct (chunk (2 ^ k) data Hd) as (ns1 & Hok1 & Hl1 & E1).
  destruct (chunk (2 ^ k - 1) (drop (length data) buf)) as (ns2 & Hok2 & Hl2 & E2); [rewrite length_drop; lia|].
  rewrite E2, E1, <- concat_app. assert (nodes_ok (ns1 ++ ns2)) as Hok by (by apply Forall_app).
  destruct (build_levels_spec k 0 (ns1 ++ ns2) Hok ltac:(rewrite length_app; lia)) as (ns & E & Hokn & Hln & Hs & Ht).
  cbn [Z.of_nat] in E. rewrite Z.mul_0_l in E. rewrite E. exists ns. split; [done|]. split; [done|]. rewrite length_app in Hln.
  split; [lia|]. split; [done|]. intros i Hi. rewrite slice_node by (done || lia). f_equal. rewrite Hs by lia.
  symmetry. apply lookup_total_app_l. lia.
Qed.

Lemma max_levels (data : bytes) (k : nat) : length data = (32 * 2 ^ k)%nat -> Z.of_nat (length data) <= MaxMemtreeSize -> (k < 64)%nat.
Proof using.
  intros Hd Hmax. destruct (le_lt_dec 64 k) as [Hge|]; [|done]. exfalso. pose proof (Nat.pow_le_mono_r 2 64 k ltac:(lia) Hge) as Hp.
  apply Nat2Z.inj_le in Hp. rewrite (Nat2Z.inj_pow 2 64) in Hp. unfold MaxMemtreeSize in Hmax.
  change (Z.of_nat 2 ^ Z.of_nat 64) with (2 ^ 64) in Hp. lia.
Qed.

(** for a piece of a power of two of leaves, the tree is built without panic
    whatever the buffer of the pool contained, every leaf has a proof in it
    with one sibling per level, the leaf of the proof is the leaf of the piece,
    and the proof verifies. *)
Lemma memtree_complete (Get : Z -> bytes) (data : bytes) (k idx : nat) :
  (forall n, 0 <= n -> Z.of_nat (length (Get n)) = n) ->
  length data = (32 * 2 ^ k)%nat -> Z.of_nat (length data) <= MaxMemtreeSize -> (idx < 2 ^ k)%nat ->
  exists buf p, BuildSha254MemtreeFromSnapshot Sum256 Get data = Ok buf /\ MemtreeProof buf (Z.of_nat idx) = Ok p /\
    slice data (Z.of_nat idx * NODE_SIZE) NODE_SIZE = Some (Leaf p) /\ length (Proof_ p) = k /\
    VerifyProof Sum256 (Leaf p) (Proof_ p) (Root p) (Z.of_nat idx) = true.
Proof.
  intros Hget Hd Hmax Hi. assert (k < 64)%nat as Hk by (by eapply max_levels).
  destruct (build_tree_spec Get k data Hk Hget Hd) as (ns & E & Hok & Hl & Ht & Hleaf).
  destruct (MemtreeProof_spec k ns idx Hk Hok Hl Ht Hi) as (p & Ep & El & Er & Hn & _ & Hr).
  exists (concat ns), p. unfold BuildSha254MemtreeFromSnapshot. rewrite Z.gtb_ltb, (proj2 (Z.ltb_ge _ _) Hmax).
  split; [done|]. split; [done|]. split; [rewrite El; by apply Hleaf|]. split; [done|]. by apply bool_decide_eq_true.
Qed.

(** ** Soundness *)

(** Two different inputs with the same truncated hash. *)
Definition collision : Prop := exists x y, x <> y /\ mask254 (Sum256 x) = mask254 (Sum256 y).

Lemma parent_inj a b a' b' : length a = 32%nat -> length a' = 32%nat -> parent a b = parent a' b' -> (a = a' /\ b = b') \/ collision.
Proof.
  intros Ha Ha' E. destruct (decide (a ++ b = a' ++ b')) as [Ea|Hne].
  - left. apply app_inj_1; [lia|done].
  - right. by exists (a ++ b), (a' ++ b').
Qed.

Lemma proof_root_inj sibs sibs' a a' pos : length sibs = length sibs' -> length a = 32%nat -> length a' = 32%nat ->
  Forall (fun s => length s = 32%nat) sibs -> Forall (fun s => length s = 32%nat) sibs' ->
  proof_root Sum256 a sibs pos = proof_root Sum256 a' sibs' pos -> (a = a' /\ sibs = sibs') \/ collision.
Proof.
  revert sibs' a a' pos. induction sibs as [|s sibs IH]; intros [|s' sibs'] a a' pos Hl Ha Ha' Hs Hs' E; try done; [by left|].
  apply Forall_cons in Hs as [Hs Hss], Hs' as [Hs' Hss']. cbn in E, Hl.
  apply IH in E; [|lia|case_match; apply parent_length|case_match; apply parent_length|done|done].
  destruct E as [[Ep ->]|]; [|by right].
  destruct (pos mod 2 =? 0); apply parent_inj in Ep; auto; destruct Ep as [[-> ->]|]; auto.
Qed.

(** a proof that verifies against the root of a tree, with one sibling per
    level, is the proof of that leaf: unless two inputs with the same
    truncated hash are known, its leaf and siblings are those that
    [MemtreeProof] gives. *)
Lemma memtree_sound (Get : Z -> bytes) (data buf : bytes) (k idx : nat) (p : RawMerkleProof) (leaf : bytes) (sibs : list bytes) :
  (forall n, 0 <= n -> Z.of_nat (length (Get n)) = n) ->
  length data = (32 * 2 ^ k)%nat -> (k < 64)%nat -> (idx < 2 ^ k)%nat ->
  BuildSha254MemtreeFromSnapshot Sum256 Get data = Ok buf -> MemtreeProof buf (Z.of_nat idx) = Ok p ->
  length leaf = 32%nat -> Forall (fun s => length s = 32%nat) sibs -> length sibs = k ->
  VerifyProof Sum256 leaf sibs (Root p) (Z.of_nat idx) = true ->
  (leaf = Leaf p /\ sibs = Proof_ p) \/ collision.
Proof.
  intros Hget Hd Hk Hi Eb Ep Hleaf Hsibs Hlen Hv. apply bool_decide_eq_true in Hv.
  destruct (build_tree_spec Get k data Hk Hget Hd) as (ns & E & Hok & Hl & Ht & _).
  unfold BuildSha254MemtreeFromSnapshot in Eb. destruct (_ >? _); [done|]. rewrite E in Eb. injection Eb as <-.
  destruct (MemtreeProof_spec k ns idx Hk Hok Hl Ht Hi) as (p' & Ep' & El & Er & Hn & Hf & Hr).
  rewrite Ep in Ep'. injection Ep' as <-. rewrite <- Hr in Hv. pose proof (Nat.pow_succ_r' 2 k).
  apply proof_root_inj in Hv; [done|lia|done| |done|done]. rewrite El. apply nodes_split; [done|lia].
Qed.

End Trees.

(** ** A tree of four leaves *)

(** A function in the place of SHA-256. *)
Definition ex_sum (x : bytes) : bytes := le_enc 32 (3 * le_dec x + 1).

Lemma ex_sum_length x : length (ex_sum x) = 32%nat.
Proof. apply le_enc_length. Qed.

Definition ex_get (n : Z) : bytes := replicate (Z.to_nat n) (byte_of 170).

Lemma ex_get_length n : 0 <= n -> Z.of_nat (length (ex_get n)) = n.
Proof. intros Hn. unfold ex_get. rewrite length_replicate. lia. Qed.

Definition ex_data : bytes := concat ((fun i => le_enc 32 (i * 1000)) <$> [1; 2; 3; 4]).

