(* ===== verification/TreeD.v ===== *)
(** * Building the tree of a sector's data in parallel

    [lib/proof/treed_build.go]: the data of a sector is read in chunks; a
    goroutine per chunk hashes it up to one node, writes each level to its place
    in the file and leaves the node in the apex buffer, from which the top of the
    tree is hashed at the end.  The operations are here, with the goroutines and
    the loop that feeds them as steps over the shared buffers and the file.
    SHA-256, the padding of fr32, the sizes of padded pieces, the buffer pool and
    the encoding of a commitment are parameters. *)

From stdpp Require Import base gmap sets list strings.
From Stdlib Require Import ZArith Lia Strings.Byte.
From S2P Require Import Prelude Codec Memtree.

Definition nodeSize : Z := 32.
Definition threadChunkSize : Z := Z.shiftl 1 20.

(** ** Bits *)

(** [bits.TrailingZeros] of a word of [w] bits. *)
Fixpoint trailing_zeros (w : nat) (x : Z) : nat :=
  match w with
  | O => O
  | S w => if Z.testbit x 0 then O else S (trailing_zeros w (Z.shiftr x 1))
  end.

Definition TrailingZeros (x : Z) : nat := trailing_zeros 64 x.

(** [^uint(i)] *)
Definition not_uint (i : Z) : Z := u64 (Z.lnot i).

(** [bits.Len] and [bits.Len64] *)
Definition bits_Len (x : Z) : Z := if x <=? 0 then 0 else Z.log2 x + 1.

(** [binTreeSize]; [None] when the loop of [computeTotalNodes] does not end. *)
Definition binTreeSize (data : Z) : option Z :=
  (fun t => u64 (u64 t.1 * NODE_SIZE)) <$> computeTotalNodes (Z.quot (i64 data) NODE_SIZE) 2.

(** [layerOffset]; a shift by a negative number panics, a shift to the right by
    64 bits or more is zero. *)
Definition layerOffset (size layer : Z) : option Z :=
  let allOnes := Z.ones 64 in
  let layerOnes := Z.shiftr allOnes (u64 (64 - layer)) in
  let sizeBitPos := bits_Len size - 1 in
  if sizeBitPos - (layer - 1) <? 0 then None else Some (u64 (Z.shiftl layerOnes (sizeBitPos - (layer - 1)))).

(** ** Files and readers *)

(** [WriteAt] behind the end of a file fills the gap with zeros. *)
Definition WriteAt (file : bytes) (off : Z) (x : bytes) : bytes :=
  let o := Z.to_nat off in
  take o (file ++ replicate (o - length file) x00) ++ x ++ drop (o + length x) file.

(** What [io.ReadFull] of [n] bytes finds in a stream: all of them, nothing and
    the end ([io.EOF]), or an error; [broken] says that the stream ends with an
    error and not with [io.EOF]. *)
Inductive read_result := ReadAll (x rest : bytes) | ReadEOF | ReadFailed.

Definition read_full (broken : bool) (n : nat) (input : bytes) : read_result :=
  match ReadFull n input with
  | Some (x, rest) => ReadAll x rest
  | None => match input with
            | [] => if broken then ReadFailed else ReadEOF
            | _ => ReadFailed
            end
  end.

Section BuildTreeD.
(** [sha256], [fr32.PadSingle], [PaddedPieceSize.Unpadded],
    [commcid.DataCommitmentV1ToCID] *)
Context (Sum256 : bytes -> bytes) (PadSingle : bytes -> bytes) (Unpadded : Z -> Z) (toCID : bytes -> option string).
(** The chunk of a goroutine ([threadChunkSize]), and the arguments. *)
Context (chunkSize : Z) (size : Z) (unpaddedData : bool).

(** ** [hashChunk] *)

(** The hashes that are complete with one more pair of leaves, level by level. *)
Fixpoint hash_levels (data : list bytes) (l levels : nat) (inNode outNode : Z) : option (list bytes) :=
  match levels with
  | O => Some data
  | S levels =>
      match data !! l, data !! S l with
      | Some below, Some level =>
          match slice below (inNode * nodeSize) (nodeSize * 2) with
          | None => None
          | Some inNodeData =>
              match blit level (outNode * nodeSize) (mask254 (Sum256 inNodeData)) with
              | None => None
              | Some level' =>
                  hash_levels (<[S l := level']> data) (S l) levels (Z.shiftr (inNode - 1) 1) (Z.shiftr outNode 1)
              end
          end
      | _, _ => None
      end
  end.

Fixpoint hash_pairs (data : list bytes) (i : Z) (n : nat) : option (list bytes) :=
  match n with
  | O => Some data
  | S n =>
      let levels := S (TrailingZeros (not_uint i)) in
      match hash_levels data 0 levels (i * 2) i with
      | None => None
      | Some data' => hash_pairs data' (i + 1) n
      end
  end.

Definition hashChunk (data : list bytes) : option (list bytes) :=
  match data with
  | [] => None
  | bottom :: _ => hash_pairs data 0 (Z.to_nat (Z.quot (Z.quot (Z.of_nat (length bottom)) nodeSize) 2))
  end.

(** ** The buffers *)

(** A buffer of the pool for each level, until the level has 32 bytes. *)
Fixpoint new_levels (fuel : nat) (Get : Z -> bytes) (len : Z) : list bytes :=
  match fuel with
  | O => []
  | S fuel => Get len :: (if len >? 32 then new_levels fuel Get (Z.quot len 2) else [])
  end.

Definition maxThreads (numCPU : Z) : Z :=
  Z.max (Z.min (Z.quot (i64 size) chunkSize) (Z.quot (numCPU * 15) 10)) 1.

(** The buffers of worker [i]; [Get i] is what the pool gives for it. *)
Definition workerBuffers (Get : nat -> Z -> bytes) (numCPU : Z) : list (list bytes) :=
  (fun i => new_levels 64 (Get i) (Z.min chunkSize (i64 size))) <$> seq 0 (Z.to_nat (maxThreads numCPU)).

Definition new_apexBuf (Get : nat -> Z -> bytes) (numCPU : Z) : list bytes :=
  let bottom := Z.min chunkSize (i64 size) in
  let apexBottomSize := Z.quot size bottom in
  let apexBottomSize := if apexBottomSize =? 0 then 1 else apexBottomSize in
  new_levels 64 (Get (Z.to_nat (maxThreads numCPU))) (apexBottomSize * nodeSize).

(** ** The goroutines *)

(** A goroutine with the offset of its chunk and its buffer, before the hashing
    or before the write of a layer at an offset in it. *)
Inductive worker_phase := Hashing | Writing (layer : nat) (offsetInLayer : Z).

Record worker := mkWorker { w_startOffset : Z; workBuffer : list bytes; w_phase : worker_phase }.

Record build := mkBuild {
  processed : Z;
  input : bytes;                      (* what is left of the data *)
  freeBuffers : list (list bytes);    (* workerBuffers *)
  workers : list worker;
  apexBuf : list bytes;
  out : bytes;                        (* the file *)
  oerr : bool
}.

Definition set_workers (b : build) (ws : list worker) : build :=
  mkBuild (processed b) (input b) (freeBuffers b) ws (apexBuf b) (out b) (oerr b).

Inductive treed_error := CreateFailed | TruncateFailed | FallocateFailed | ReadError_ | WriteError_ | CidError.

(** What an iteration of the loop that feeds the goroutines does: sleep, return,
    start a goroutine, or leave the loop. *)
Inductive main_next := Sleep | Return (e : treed_error) | Spawned (b : build) | LoopDone | MainPanic.

Definition main_iter (broken : bool) (b : build) : main_next :=
  if processed b <? size then
    match last (freeBuffers b) with
    | None => Sleep
    | Some wb =>
        if oerr b then Return WriteError_
        else
          match wb with
          | [] => MainPanic
          | bottom :: levels =>
              let processedSize := Z.of_nat (length bottom) in
              let bottom := if unpaddedData then take (Z.to_nat (Unpadded processedSize)) bottom else bottom in
              let spawn bottom' rest :=
                mkBuild (u64 (processed b + processedSize)) rest (removelast (freeBuffers b))
                  (workers b ++ [mkWorker (processed b) (bottom' :: levels) Hashing]) (apexBuf b) (out b) (oerr b) in
              match read_full broken (length bottom) (input b) with
              | ReadAll x rest => Spawned (spawn x rest)
              | ReadEOF => Spawned (spawn bottom (input b))
              | ReadFailed => Return ReadError_
              end
          end
    end
  else LoopDone.

(** The first part of a goroutine: padding, hashing, the node for the apex. *)
Definition worker_hash (w : worker) (b : build) : option (worker * build) :=
  match workBuffer w, apexBuf b with
  | bottom :: levels, apexBottom :: apexLevels =>
      let bottom := if unpaddedData then PadSingle bottom else bottom in
      match hashChunk (bottom :: levels) with
      | None => None
      | Some buf =>
          match last buf with
          | None => None
          | Some apexHash =>
              let hashPos := w_startOffset w / Z.of_nat (length bottom) * nodeSize in
              match blit apexBottom hashPos (take 32 apexHash) with
              | None => None
              | Some apexBottom' =>
                  Some (mkWorker (w_startOffset w) buf (Writing 0 (w_startOffset w)),
                        mkBuild (processed b) (input b) (freeBuffers b) (workers b) (apexBottom' :: apexLevels) (out b) (oerr b))
              end
          end
      end
  | _, _ => None
  end.

(** A write of a layer; [fault] says that it fails.  The goroutine is gone after
    a failure, with its buffer, and after its last layer, having returned it. *)
Definition worker_write (fault : bool) (w : worker) (layer : nat) (offsetInLayer : Z) (b : build)
    : option (option worker * build) :=
  match workBuffer w !! layer with
  | None => Some (None, mkBuild (processed b) (input b) (freeBuffers b ++ [workBuffer w]) (workers b) (apexBuf b) (out b) (oerr b))
  | Some layerData =>
      match layerOffset size (Z.of_nat layer) with
      | None => None
      | Some layerOff =>
          let dataOff := i64 (u64 (offsetInLayer + layerOff)) in
          if fault || (dataOff <? 0)
          then Some (None, mkBuild (processed b) (input b) (freeBuffers b) (workers b) (apexBuf b) (out b) true)
          else Some (Some (mkWorker (w_startOffset w) (workBuffer w) (Writing (S layer) (offsetInLayer / 2))),
                     mkBuild (processed b) (input b) (freeBuffers b) (workers b) (apexBuf b) (WriteAt (out b) dataOff layerData) (oerr b))
      end
  end.

Definition worker_run (fault : bool) (w : worker) (b : build) : option (option worker * build) :=
  match w_phase w with
  | Hashing => (fun wb => (Some wb.1, wb.2)) <$> worker_hash w b
  | Writing layer offsetInLayer => worker_write fault w layer offsetInLayer b
  end.

(** The goroutine at position [i] runs. *)
Definition run_worker (fault : bool) (i : nat) (b : build) : option build :=
  match workers b !! i with
  | None => None
  | Some w =>
      match worker_run fault w b with
      | None => None
      | Some (Some w', b') => Some (set_workers b' (<[i := w']> (workers b)))
      | Some (None, b') => Some (set_workers b' (delete i (workers b)))
      end
  end.

(** ** The apex and the result *)

Fixpoint write_apex (faults : list bool) (threadLayers apexLayer : Z) (layers : list bytes) (file : bytes) : option (bytes * bool) :=
  match layers with
  | [] => Some (file, true)
  | layerData :: layers =>
      match layerOffset size (apexLayer + threadLayers - 1) with
      | None => None
      | Some layerOff =>
          if default false (head faults) || (i64 layerOff <? 0) then Some (file, false)
          else write_apex (tail faults) threadLayers (apexLayer + 1) layers (WriteAt file (i64 layerOff) layerData)
      end
  end.

(** After the loop, when all goroutines are done: the file and the commitment;
    [None] is a panic. *)
Definition finish (faults : list bool) (b : build) : option (bytes * result string treed_error) :=
  if oerr b then Some (out b, Err WriteError_)
  else
    match freeBuffers b with
    | (bottom :: _) :: _ =>
        let threadLayers := bits_Len (Z.of_nat (length bottom) / nodeSize) in
        match hashChunk (apexBuf b) with
        | None => None
        | Some apex =>
            match write_apex faults threadLayers 1 (tail apex) (out b) with
            | None => None
            | Some (file, false) => Some (file, Err WriteError_)
            | Some (file, true) =>
                match last apex with
                | None => None
                | Some root =>
                    match toCID (take 32 root) with
                    | None => Some (file, Err CidError)
                    | Some c => Some (file, Ok c)
                    end
                end
            end
        end
    | _ => None
    end.

(** The deferred close: after an error the file is removed, unless that fails;
    an error of the close is reported but leaves the file. *)
Definition close_out (removeFails closeFails : bool) (file : bytes) (r : result string treed_error)
    : option bytes * result string treed_error :=
  match r with
  | Err e => (if removeFails then Some file else None, Err e)
  | Ok c => (Some file, if closeFails then Err WriteError_ else Ok c)
  end.

(** The file is created, gets its final size and its space, and the buffers are
    taken from the pool; each of the three calls can fail. *)
Definition BuildTreeD_init (createFails truncateFails fallocateFails : bool) (Get : nat -> Z -> bytes) (numCPU : Z) (data : bytes)
    : option (result build treed_error) :=
  if createFails then Some (Err CreateFailed)
  else
    match binTreeSize size with
    | None => None
    | Some outSize =>
        if truncateFails then Some (Err TruncateFailed)
        else if fallocateFails then Some (Err FallocateFailed)
        else Some (Ok (mkBuild 0 data (workerBuffers Get numCPU) [] (new_apexBuf Get numCPU)
                         (replicate (Z.to_nat outSize) x00) false))
    end.

(** The steps of a build: an iteration that starts a goroutine, and a step of
    one of the goroutines. *)
Inductive build_step (broken : bool) : build -> build -> Prop :=
| bs_main b b' : main_iter broken b = Spawned b' -> build_step broken b b'
| bs_worker fault i b b' : run_worker fault i b = Some b' -> build_step broken b b'.

(** What [BuildTreeD] has returned in a state of a run that reached the end. *)
Definition build_returns (faults : list bool) (b : build) (r : bytes * result string treed_error) : Prop :=
  size <= processed b /\ workers b = [] /\ finish faults b = Some r.

End BuildTreeD.
