(* ===== verification/TreeDFacts.v ===== *)
(** * What the parallel build of a tree produces

    The chunks are hashed to the nodes of the reference tree, every write puts
    such nodes where they belong, and so any interleaving of the goroutines
    leaves the file that [Memtree.build_tree] computes in one buffer. *)

From stdpp Require Import base gmap sets list strings.
From Stdlib Require Import ZArith Lia Strings.Byte.
From S2P Require Import Prelude Codec Memtree TreeD.

(** ** Bits *)

Lemma trailing_zeros_spec w i : 0 <= i < 2 ^ Z.of_nat w ->
  exists q, 0 <= q /\ i + 1 = 2 ^ Z.of_nat (trailing_zeros w (2 ^ Z.of_nat w - 1 - i)) * (2 * q + 1).
Proof.
  revert i. induction w as [|w IH]; intros i Hi; [exists 0; cbn in *; lia|].
  rewrite Nat2Z.inj_succ, Z.pow_succ_r in Hi |- * by lia. cbn [trailing_zeros]. rewrite Z.bit0_odd.
  set (p := 2 ^ Z.of_nat w) in *. pose proof (Z.div_mod i 2 ltac:(lia)) as Hdm. pose proof (Z.mod_pos_bound i 2 ltac:(lia)) as Hm.
  set (h := i / 2) in *. destruct (Z.eq_dec (i mod 2) 0) as [Hz|Hz].
  - replace (2 * p - 1 - i) with (1 + 2 * (p - 1 - h)) by lia. rewrite Z.odd_add_mul_2. change (Z.odd 1) with true.
    exists h. rewrite Z.mul_1_l. lia.
  - replace (2 * p - 1 - i) with (0 + 2 * (p - 1 - h)) by lia. rewrite Z.odd_add_mul_2. change (Z.odd 0) with false. cbv iota.
    rewrite Z.shiftr_div_pow2 by lia. change (2 ^ 1) with 2. rewrite Z.add_0_l, Z.mul_comm, Z.div_mul by lia.
    destruct (IH h) as (q & Hq & E); [lia|]. exists q. split; [done|]. rewrite Nat2Z.inj_succ, Z.pow_succ_r by lia. lia.
Qed.

(** The number of levels that become complete with pair [i]. *)
Lemma levels_spec (i : nat) : Z.of_nat i < 2 ^ 64 ->
  exists q, (S i = 2 ^ TrailingZeros (not_uint (Z.of_nat i)) * (2 * q + 1))%nat.
Proof.
  intros Hi. unfold TrailingZeros, not_uint. replace (u64 (Z.lnot (Z.of_nat i))) with (2 ^ Z.of_nat 64 - 1 - Z.of_nat i).
  2:{ unfold u64, wrap_u, Z.lnot. change (Z.of_nat 64) with 64. apply (Z.mod_unique_pos _ _ (-1)); lia. }
  destruct (trailing_zeros_spec 64 (Z.of_nat i)) as (q & Hq & E); [change (Z.of_nat 64) with 64; lia|].
  exists (Z.to_nat q). apply Nat2Z.inj. rewrite Nat2Z.inj_mul, Nat2Z.inj_pow. lia.
Qed.

Lemma pow_pos k : (0 < 2 ^ k)%nat.
Proof. pose proof (Nat.pow_nonzero 2 k). lia. Qed.

Lemma layerOffset_spec (n l : nat) : (n < 62)%nat -> (l <= S n)%nat ->
  layerOffset (Z.of_nat (2 ^ n)) (Z.of_nat l) = Some (Z.of_nat (2 ^ S n - 2 ^ (S n - l))).
Proof.
  intros Hn Hl. unfold layerOffset. assert (bits_Len (Z.of_nat (2 ^ n)) - 1 = Z.of_nat n) as ->.
  { unfold bits_Len. pose proof (pow_pos n). rewrite (proj2 (Z.leb_gt _ _)) by lia. rewrite Nat2Z.inj_pow.
    change (Z.of_nat 2) with 2. rewrite Z.log2_pow2 by lia. lia. }
  rewrite (proj2 (Z.ltb_ge _ _)) by lia. f_equal. rewrite (u64_small (64 - Z.of_nat l)) by (unfold in_u64; lia).
  assert (Z.shiftr (Z.ones 64) (64 - Z.of_nat l) = 2 ^ Z.of_nat l - 1) as ->.
  { rewrite Z.shiftr_div_pow2 by lia. rewrite Z.ones_div_pow2 by lia. rewrite Z.ones_equiv.
    replace (64 - (64 - Z.of_nat l)) with (Z.of_nat l) by lia. lia. }
  rewrite Z.shiftl_mul_pow2 by lia. pose proof (pow_pos (S n - l)).
  assert (2 ^ (S n - l) <= 2 ^ S n)%nat by (apply Nat.pow_le_mono_r; lia).
  rewrite Nat2Z.inj_sub, !Nat2Z.inj_pow by lia. change (Z.of_nat 2) with 2. rewrite Z.mul_sub_distr_r, <- Z.pow_add_r by lia.
  replace (Z.of_nat l + (Z.of_nat n - (Z.of_nat l - 1))) with (Z.of_nat (S n)) by lia.
  replace (Z.of_nat n - (Z.of_nat l - 1)) with (Z.of_nat (S n - l)) by lia. rewrite Z.mul_1_l. apply u64_small. unfold in_u64.
  assert (2 ^ Z.of_nat (S n) <= 2 ^ 62) by (apply Z.pow_le_mono_r; lia).
  assert (2 ^ Z.of_nat (S n - l) <= 2 ^ Z.of_nat (S n)) by (apply Z.pow_le_mono_r; lia). lia.
Qed.

Section Hashing.
Context (Sum256 : bytes -> bytes) (Sum256_length : forall x, length (Sum256 x) = 32%nat).

Abbreviation parent := (ComputeBinShaParent Sum256).

(** ** The reference tree *)

(** Node [j] of level [l] above the leaves. *)
Fixpoint ref (leaves : list bytes) (l j : nat) : bytes :=
  match l with
  | O => leaves !!! j
  | S l => parent (ref leaves l (2 * j)) (ref leaves l (S (2 * j)))
  end.

(** Nodes [j], ..., [j + n - 1] of level [l]. *)
Definition ref_nodes (leaves : list bytes) (l j n : nat) : list bytes := (fun i => ref leaves l (j + i)%nat) <$> seq 0 n.

Lemma ref_nodes_length leaves l j n : length (ref_nodes leaves l j n) = n.
Proof. unfold ref_nodes. by rewrite length_fmap, length_seq. Qed.

Lemma ref_nodes_lookup leaves l j n i : (i < n)%nat -> ref_nodes leaves l j n !!! i = ref leaves l (j + i).
Proof.
  intros Hi. apply list_lookup_total_correct. unfold ref_nodes. rewrite list_lookup_fmap, lookup_seq_lt by done. done.
Qed.

Lemma ref_length leaves l j n : nodes_ok leaves -> length leaves = (2 ^ n)%nat -> (l <= n)%nat -> (j < 2 ^ (n - l))%nat ->
  length (ref leaves l j) = 32%nat.
Proof.
  intros Hok Hl Hln Hj. destruct l as [|l]; [|apply parent_length; apply Sum256_length]. cbn.
  rewrite Nat.sub_0_r in Hj. apply nodes_split; [done|lia].
Qed.

Lemma ref_nodes_ok leaves l j k n : nodes_ok leaves -> length leaves = (2 ^ n)%nat -> (l <= n)%nat -> (j + k <= 2 ^ (n - l))%nat ->
  nodes_ok (ref_nodes leaves l j k).
Proof.
  intros Hok Hl Hln Hj. apply Forall_fmap, Forall_forall. intros i Hi. apply elem_of_seq in Hi. cbn.
  apply (ref_length _ _ _ n); [done|done|done|lia].
Qed.

(** Equality of lists of nodes, node by node. *)
Lemma list_eq_total (xs ys : list bytes) : length xs = length ys -> (forall i, (i < length xs)%nat -> xs !!! i = ys !!! i) -> xs = ys.
Proof.
  intros Hl H. apply list_eq_same_length with (length xs); [done|done|]. intros i x y Hi Hx Hy.
  specialize (H i Hi). by rewrite (list_lookup_total_correct _ _ _ Hx), (list_lookup_total_correct _ _ _ Hy) in H.
Qed.

(** The tree of a chunk is a part of the tree. *)
Lemma ref_chunk leaves m k l j : (l <= m)%nat -> (j < 2 ^ (m - l))%nat -> (k * 2 ^ m + 2 ^ m <= length leaves)%nat ->
  ref (take (2 ^ m) (drop (k * 2 ^ m) leaves)) l j = ref leaves l (k * 2 ^ (m - l) + j).
Proof.
  intros Hl Hj Hk. revert j Hl Hj. induction l as [|l IH]; intros j Hl Hj.
  - cbn. rewrite Nat.sub_0_r in Hj |- *. rewrite lookup_total_take_lt by lia. by rewrite lookup_total_drop.
  - cbn [ref]. assert (2 ^ (m - l) = 2 * 2 ^ (m - S l))%nat as Hp.
    { rewrite <- Nat.pow_succ_r'. f_equal. lia. }
    rewrite !IH by lia. do 2 f_equal; lia.
Qed.

(** The top of the tree is the tree of a level. *)
Lemma ref_stack leaves m n l j : (l <= n)%nat -> (j < 2 ^ (n - l))%nat ->
  ref (ref_nodes leaves m 0 (2 ^ n)) l j = ref leaves (m + l) j.
Proof.
  revert j. induction l as [|l IH]; intros j Hl Hj.
  - cbn. rewrite Nat.sub_0_r in Hj. rewrite ref_nodes_lookup by done. by rewrite Nat.add_0_r.
  - rewrite Nat.add_succ_r. cbn [ref]. assert (2 ^ (n - l) = 2 * 2 ^ (n - S l))%nat as Hp.
    { rewrite <- Nat.pow_succ_r'. f_equal. lia. }
    by rewrite !IH by lia.
Qed.

(** ** [hashChunk] *)

(** The buffer of each level. *)
Abbreviation flat := (fmap (M := list) (@concat byte)).

(** A buffer of [m + 1] levels of nodes. *)
Definition shape (m : nat) (nss : list (list bytes)) : Prop :=
  length nss = S m /\ forall l, (l <= m)%nat -> length (nss !!! l) = (2 ^ (m - l))%nat /\ nodes_ok (nss !!! l).

Lemma shape_insert m nss l xs : shape m nss -> (l <= m)%nat -> length xs = (2 ^ (m - l))%nat -> nodes_ok xs ->
  shape m (<[l := xs]> nss).
Proof.
  intros [Hl Hs] Hlm Hx Hok. split; [by rewrite length_insert|]. intros k Hk. destruct (decide (k = l)) as [->|Hne].
  - by rewrite list_lookup_total_insert_eq by lia.
  - rewrite list_lookup_total_insert_ne by done. by apply Hs.
Qed.

(** After [i] pairs, and the first [top] levels of the next one, the nodes of
    which all leaves were seen are those of the reference tree. *)
Definition hashed (xs : list bytes) (m i top : nat) (nss : list (list bytes)) : Prop :=
  nss !!! 0%nat = xs /\
  forall l j, (S l <= m)%nat -> (S j * 2 ^ l <= i \/ (S j * 2 ^ l = S i /\ S l <= top))%nat ->
    (nss !!! S l) !!! j = ref xs (S l) j.

Lemma hashed_below xs m i l q nss : hashed xs m i l nss -> (l < m)%nat -> (S q * 2 ^ l = S i)%nat ->
  (nss !!! l) !!! (2 * q)%nat = ref xs l (2 * q) /\ (nss !!! l) !!! S (2 * q) = ref xs l (S (2 * q)).
Proof.
  intros [H0 H] Hl Hq. destruct l as [|l]; [by rewrite H0|]. rewrite Nat.pow_succ_r' in Hq. pose proof (pow_pos l).
  split; apply H; [lia| |lia|]; [left|right]; lia.
Qed.

Lemma hash_levels_spec xs m i levels l q nss : shape m nss -> (S i <= 2 ^ (m - 1))%nat -> (1 <= m)%nat ->
  (S q * 2 ^ l = S i)%nat -> (exists r, S q = 2 ^ (levels - 1) * S r)%nat -> hashed xs m i l nss ->
  exists nss', hash_levels Sum256 (flat nss) l levels (Z.of_nat (2 * q)) (Z.of_nat q) = Some (flat nss') /\
    shape m nss' /\ hashed xs m i (l + levels) nss'.
Proof.
  intros Hs Hi Hm. revert l q nss Hs. induction levels as [|levels IH]; intros l q nss Hs Hq (r & Hr) Hh.
  { exists nss. by rewrite Nat.add_0_r. }
  assert (l < m)%nat as Hl.
  { destruct (le_lt_dec m l) as [Hge|]; [|done]. exfalso. assert (2 ^ m <= 2 ^ l)%nat by (apply Nat.pow_le_mono_r; lia).
    destruct m as [|m]; [lia|]. rewrite Nat.pow_succ_r' in *. replace (S m - 1)%nat with m in Hi by lia. pose proof (pow_pos m). nia. }
  destruct (proj2 Hs l ltac:(lia)) as [Hbl Hbok]. destruct (proj2 Hs (S l) ltac:(lia)) as [Hal Haok].
  assert (2 ^ (m - l) = 2 * 2 ^ (m - S l))%nat as Hp by (rewrite <- Nat.pow_succ_r'; f_equal; lia).
  assert (S q <= 2 ^ (m - S l))%nat as Hqb.
  { assert (2 ^ (m - 1) = 2 ^ (m - S l) * 2 ^ l)%nat as E by (rewrite <- Nat.pow_add_r; f_equal; lia).
    pose proof (pow_pos l). nia. }
  destruct Hs as [Hlen Hlev]. cbn [hash_levels].
  rewrite !list_lookup_fmap, (list_lookup_lookup_total_lt nss l), (list_lookup_lookup_total_lt nss (S l)) by lia. cbn [fmap option_fmap option_map].
  change nodeSize with NODE_SIZE. rewrite slice_two by (done || lia).
  destruct (hashed_below xs m i l q nss Hh Hl Hq) as [-> ->].
  set (h := mask254 _). assert (length h = 32%nat) as Hh32 by (unfold h; by rewrite mask254_length).
  destruct (blit_node (nss !!! S l) q h Haok ltac:(lia) Hh32) as [-> Hok'].
  rewrite <- list_fmap_insert. set (nss1 := <[S l := _]> nss).
  assert (shape m nss1) as Hs1 by (apply shape_insert; [by split|lia|by rewrite length_insert|done]).
  assert (hashed xs m i (S l) nss1) as Hh1.
  { destruct Hh as [H0 H]. split; [unfold nss1; by rewrite list_lookup_total_insert_ne by lia|]. intros l' j Hl' Hj. unfold nss1.
    destruct (decide (l' = l)) as [->|Hne]; [|rewrite list_lookup_total_insert_ne by lia; apply H; [done|]; lia].
    rewrite list_lookup_total_insert_eq by lia. destruct (decide (j = q)) as [->|Hne].
    - by rewrite list_lookup_total_insert_eq by lia.
    - rewrite list_lookup_total_insert_ne by done. apply H; [done|]. left. pose proof (pow_pos l). nia. }
  destruct levels as [|levels].
  { exists nss1. cbn [hash_levels]. rewrite Nat.add_1_r. done. }
  replace (S (S levels) - 1)%nat with (S levels) in Hr by lia. rewrite Nat.pow_succ_r', <- Nat.mul_assoc in Hr.
  set (x := (2 ^ levels * S r)%nat) in Hr. assert (0 < x)%nat by (unfold x; pose proof (pow_pos levels); lia).
  destruct (IH (S l) (x - 1)%nat nss1 Hs1) as (nss' & E & Hs' & Hh').
  - rewrite Nat.pow_succ_r'. replace (S (x - 1)) with x by lia. rewrite <- Hq, Hr. lia.
  - exists r. replace (S levels - 1)%nat with levels by lia. fold x. lia.
  - done.
  - exists nss'. rewrite <- E. split; [|split; [done|by replace (l + S (S levels))%nat with (S l + S levels)%nat by lia]].
    rewrite !Z.shiftr_div_pow2 by lia. change (2 ^ 1) with 2. f_equal.
    + symmetry. apply (Z.div_unique _ _ _ 1); lia.
    + symmetry. apply (Z.div_unique _ _ _ 1); lia.
Qed.

Lemma hash_pairs_spec xs m n i nss : shape m nss -> (i + n <= 2 ^ (m - 1))%nat -> (1 <= m)%nat -> (m < 60)%nat ->
  hashed xs m i 0 nss ->
  exists nss', hash_pairs Sum256 (flat nss) (Z.of_nat i) n = Some (flat nss') /\ shape m nss' /\ hashed xs m (i + n) 0 nss'.
Proof.
  intros Hs Hi Hm Hm60. revert i nss Hs Hi. induction n as [|n IH]; intros i nss Hs Hi Hh.
  { exists nss. by rewrite Nat.add_0_r. }
  cbn [hash_pairs]. destruct (levels_spec i) as (q & Hq).
  { assert (2 ^ (m - 1) <= 2 ^ 60)%nat as Hb by (apply Nat.pow_le_mono_r; lia). apply Nat2Z.inj_le in Hb.
    rewrite (Nat2Z.inj_pow 2 60) in Hb. change (Z.of_nat 2 ^ Z.of_nat 60) with (2 ^ 60) in Hb. lia. }
  set (t := TrailingZeros _) in *.
  destruct (hash_levels_spec xs m i (S t) 0 i nss Hs ltac:(lia) Hm ltac:(cbn; lia)) as (nss1 & E & Hs1 & Hh1).
  { exists (2 * q)%nat. replace (S t - 1)%nat with t by lia. rewrite Hq. f_equal. lia. }
  { done. }
  replace (Z.of_nat i * 2) with (Z.of_nat (2 * i)) by lia. rewrite E. replace (Z.of_nat i + 1) with (Z.of_nat (S i)) by lia.
  destruct (IH (S i) nss1 Hs1 ltac:(lia)) as (nss' & E' & Hs' & Hh'); [|exists nss'; by rewrite <- Nat.add_succ_comm].
  destruct Hh1 as [H0 H]. split; [done|]. intros l j Hl [Hj|[_ Hj]]; [|lia]. apply H; [done|].
  destruct (decide (S j * 2 ^ l = S i)%nat) as [Ej|Hne]; [right|left; lia]. split; [done|].
  destruct (le_lt_dec (S l) (S t)) as [|Hgt]; [done|]. exfalso. rewrite Hq in Ej.
  assert (exists d, l = S t + d)%nat as (d & ->) by (exists (l - S t)%nat; lia).
  rewrite Nat.pow_add_r, Nat.pow_succ_r' in Ej. pose proof (pow_pos t).
  assert (2 ^ t * (2 * (S j * 2 ^ d)) = 2 ^ t * (2 * q + 1))%nat as Ed by (rewrite <- Ej; lia).
  apply Nat.mul_cancel_l in Ed; lia.
Qed.

Lemma quot_of_nat (a b : nat) : (0 < b)%nat -> Z.quot (Z.of_nat a) (Z.of_nat b) = Z.of_nat (a / b).
Proof. intros Hb. rewrite Z.quot_div_nonneg by lia. by rewrite Nat2Z.inj_div. Qed.

(** All levels of a buffer are those of the reference tree of its bottom. *)
Lemma hashChunk_spec m nss : shape m nss -> (m < 60)%nat ->
  hashChunk Sum256 (flat nss) =
  Some ((fun l => concat (ref_nodes (nss !!! 0%nat) l 0 (2 ^ (m - l)))) <$> seq 0 (S m)).
Proof.
  intros Hs Hm60. set (xs := nss !!! 0%nat). destruct Hs as [Hlen Hlev]. destruct nss as [|bottom nss]; [done|].
  destruct (Hlev 0%nat ltac:(lia)) as [Hl0 Hok0]. rewrite Nat.sub_0_r in Hl0. change ((bottom :: nss) !!! 0%nat) with bottom in *.
  unfold hashChunk. cbn [flat fmap list_fmap]. change (concat bottom :: flat nss) with (flat (bottom :: nss)).
  rewrite concat_nodes_length, Hl0 by done. change nodeSize with (Z.of_nat 32). change 2 with (Z.of_nat 2).
  rewrite quot_of_nat by lia. rewrite (Nat.mul_comm 32), Nat.div_mul by lia. rewrite quot_of_nat by lia. rewrite Nat2Z.id.
  assert (exists nss', hash_pairs Sum256 (flat (bottom :: nss)) 0 (2 ^ m / 2) = Some (flat nss') /\ shape m nss' /\
            hashed xs m (2 ^ (m - 1)) 0 nss') as (nss' & E & [Hlen' Hlev'] & H0 & H).
  { destruct m as [|m].
    - exists (bottom :: nss). split; [done|]. split; [by split|]. split; [done|]. lia.
    - rewrite Nat.pow_succ_r', Nat.mul_comm, Nat.div_mul by lia. replace (S m - 1)%nat with m by lia.
      apply (hash_pairs_spec xs (S m) (2 ^ m) 0 (bottom :: nss)); [by split|by replace (S m - 1)%nat with m by lia|lia|done|].
      split; [done|]. intros l j _ [Hj|[_ Hj]]; [|lia]. pose proof (pow_pos l). nia. }
  rewrite E. f_equal. apply list_eq_same_length with (S m); [by rewrite length_fmap, length_seq|by rewrite length_fmap|].
  intros l x y Hl Hx Hy. rewrite list_lookup_fmap, list_lookup_lookup_total_lt in Hx by lia.
  rewrite list_lookup_fmap, lookup_seq_lt in Hy by lia. cbn in Hx, Hy. injection Hx as <-. injection Hy as <-. f_equal.
  destruct (Hlev' l ltac:(lia)) as [Hl1 Hok1]. apply list_eq_total; [by rewrite ref_nodes_length|]. intros j Hj.
  rewrite ref_nodes_lookup by lia. cbn [plus]. destruct l as [|l]; [by rewrite H0|]. apply H; [lia|]. left.
  assert (2 ^ (m - 1) = 2 ^ (m - S l) * 2 ^ l)%nat as -> by (rewrite <- Nat.pow_add_r; f_equal; lia).
  apply Nat.mul_le_mono_r. lia.
Qed.

(** ** The buffer of a whole tree *)

(** The first node of a level in a tree of [2 ^ n] leaves. *)
Definition level_pos (n l : nat) : nat := (2 ^ S n - 2 ^ (S n - l))%nat.

Lemma level_pos_S n l : (l <= n)%nat -> level_pos (S n) (S l) = (2 ^ S n + level_pos n l)%nat.
Proof.
  intros Hl. unfold level_pos. rewrite (Nat.pow_succ_r' 2 (S n)). replace (S (S n) - S l)%nat with (S n - l)%nat by lia.
  assert (2 ^ (S n - l) <= 2 ^ S n)%nat by (apply Nat.pow_le_mono_r; lia). lia.
Qed.

Lemma level_pos_end n l : (l <= n)%nat -> (level_pos n l + 2 ^ (n - l) <= 2 ^ S n - 1)%nat.
Proof.
  intros Hl. unfold level_pos. replace (S n - l)%nat with (S (n - l)) by lia. rewrite (Nat.pow_succ_r' 2 (n - l)).
  pose proof (pow_pos (n - l)). assert (2 ^ S (n - l) <= 2 ^ S n)%nat by (apply Nat.pow_le_mono_r; lia).
  rewrite (Nat.pow_succ_r' 2 (n - l)) in *. lia.
Qed.

(** Every node is in a level. *)
Lemma level_pos_cover n p : (p < 2 ^ S n - 1)%nat -> exists l a, (l <= n)%nat /\ (a < 2 ^ (n - l))%nat /\ p = (level_pos n l + a)%nat.
Proof.
  revert p. induction n as [|n IH]; intros p Hp.
  { exists 0%nat, 0%nat. cbn in *. lia. }
  rewrite (Nat.pow_succ_r' 2 (S n)) in Hp. destruct (decide (p < 2 ^ S n)%nat) as [Hlt|Hge].
  - exists 0%nat, p. unfold level_pos. rewrite !Nat.sub_0_r, Nat.sub_diag. split_and!; [lia|done|done].
  - destruct (IH (p - 2 ^ S n)%nat ltac:(lia)) as (l & a & Hl & Ha & E). exists (S l), a. rewrite level_pos_S by done.
    split_and!; [lia|done|lia].
Qed.

Lemma tree_ref k p lv ns : tree Sum256 k p ns -> (forall i, (i < 2 ^ k)%nat -> ns !!! (p + i)%nat = lv !!! i) ->
  forall l a, (l <= k)%nat -> (a < 2 ^ (k - l))%nat -> ns !!! (p + (level_pos k l + a))%nat = ref lv l a.
Proof.
  revert p lv. induction k as [|k IH]; intros p lv Ht Hlv l a Hl Ha.
  { assert (l = 0)%nat as -> by lia. by apply Hlv. }
  destruct Ht as [Hup Ht]. destruct l as [|l].
  { unfold level_pos. rewrite !Nat.sub_0_r, Nat.sub_diag in *. by apply Hlv. }
  rewrite level_pos_S by lia. change (S l) with (1 + l)%nat. rewrite <- (ref_stack lv 1 k l a) by (done || lia).
  rewrite <- (IH (p + 2 ^ S k)%nat _ Ht); [f_equal; lia| |lia|done].
  intros i Hi. rewrite Hup by done. rewrite ref_nodes_lookup by done. cbn [plus ref]. pose proof (Nat.pow_succ_r' 2 k).
  rewrite <- !Hlv by lia. f_equal; f_equal; lia.
Qed.

(** The buffer that [build_tree] computes holds the reference tree. *)
Lemma build_tree_ref (Get : Z -> bytes) n leaves : (n < 64)%nat -> (forall k, 0 <= k -> Z.of_nat (length (Get k)) = k) ->
  nodes_ok leaves -> length leaves = (2 ^ n)%nat ->
  exists ns, build_tree Sum256 Get (Z.of_nat (32 * 2 ^ n)) (concat leaves) = Ok (concat ns) /\ nodes_ok ns /\
    length ns = (2 ^ S n - 1)%nat /\
    forall l a, (l <= n)%nat -> (a < 2 ^ (n - l))%nat -> ns !!! (level_pos n l + a)%nat = ref leaves l a.
Proof.
  intros Hn Hget Hok Hl. pose proof (concat_nodes_length leaves Hok) as Hcl. rewrite Hl in Hcl.
  destruct (build_tree_spec Sum256 Sum256_length Get n (concat leaves) Hn Hget Hcl) as (ns & E & Hok' & Hln & Ht & Hs).
  rewrite Hcl in E. exists ns. split_and!; [done|done|done|]. apply (tree_ref n 0); [done|]. intros i Hi. cbn [plus].
  specialize (Hs i Hi). rewrite slice_node in Hs by (done || lia). by injection Hs as ->.
Qed.

(** ** Writing nodes to a file *)

Lemma WriteAt_nodes fns (q : nat) xs : nodes_ok fns -> nodes_ok xs -> (q + length xs <= length fns)%nat ->
  WriteAt (concat fns) (Z.of_nat q * NODE_SIZE) (concat xs) = concat (take q fns ++ xs ++ drop (q + length xs) fns).
Proof.
  intros Hf Hx Hq. unfold WriteAt. replace (Z.to_nat (Z.of_nat q * NODE_SIZE)) with (32 * q)%nat by (unfold NODE_SIZE; lia).
  rewrite !concat_nodes_length by done. replace (32 * q - 32 * length fns)%nat with 0%nat by lia. cbn [replicate].
  rewrite app_nil_r, !concat_app. f_equal; [|f_equal].
  - rewrite <- (take_drop q fns) at 1. rewrite concat_app. apply take_app_length'. rewrite concat_nodes_length by (by apply Forall_take). rewrite length_take. lia.
  - rewrite <- (take_drop (q + length xs) fns) at 1. rewrite concat_app. apply drop_app_length'. rewrite concat_nodes_length by (by apply Forall_take). rewrite length_take. lia.
Qed.

(** Writing nodes of a file [ns] where they belong: nothing that was right
    becomes wrong. *)
Lemma WriteAt_right ns fns (q : nat) xs : nodes_ok fns -> nodes_ok xs -> length fns = length ns -> (q + length xs <= length ns)%nat ->
  (forall j, (j < length xs)%nat -> xs !!! j = ns !!! (q + j)%nat) ->
  exists fns', WriteAt (concat fns) (Z.of_nat q * NODE_SIZE) (concat xs) = concat fns' /\ nodes_ok fns' /\ length fns' = length ns /\
    (forall p, fns !!! p = ns !!! p -> fns' !!! p = ns !!! p) /\
    (forall j, (j < length xs)%nat -> fns' !!! (q + j)%nat = ns !!! (q + j)%nat).
Proof.
  intros Hf Hx Hl Hq Hxs. eexists. split; [apply WriteAt_nodes; [done|done|lia]|].
  assert (length (take q fns) = q) as Hlt by (rewrite length_take; lia).
  split; [apply Forall_app; split; [by apply Forall_take|apply Forall_app; split; [done|by apply Forall_drop]]|].
  split; [rewrite !length_app, length_drop; lia|]. split.
  - intros p Hp. destruct (decide (p < q)%nat) as [|Hge].
    { rewrite lookup_total_app_l by lia. rewrite lookup_total_take_lt by lia. done. }
    rewrite lookup_total_app_r, Hlt by lia. destruct (decide (p - q < length xs)%nat) as [|Hge'].
    + rewrite lookup_total_app_l by done. rewrite Hxs by done. f_equal. lia.
    + rewrite lookup_total_app_r, lookup_total_drop by lia. rewrite <- Hp. f_equal. lia.
  - intros j Hj. rewrite lookup_total_app_r, Hlt by lia. rewrite Nat.add_comm, Nat.add_sub. rewrite lookup_total_app_l by done.
    rewrite Hxs by done. f_equal. lia.
Qed.
End Hashing.
