(* ===== verification/TreeDBuild.v ===== *)
(** * The build of a tree as a whole

    The state of [TreeD.build_step] in every run, with any interleaving of the
    goroutines and any failures of their writes: what is in the file and in the
    apex buffer is right as far as it was written.  From this the result of
    [BuildTreeD] and its termination. *)

From stdpp Require Import base gmap sets list strings.
From Stdlib Require Import ZArith Lia Strings.Byte.
From S2P Require Import Prelude Codec Memtree TreeD TreeDFacts.

Abbreviation flat := (fmap (M := list) (@concat byte)).

(** ** What the tree is built of *)

(** The bytes of the stream that fill the bottom of a buffer, and the leaves made
    of them; [chunk] is the size of the bottom. *)
Definition chunk_input (Unpadded : Z -> Z) (unpaddedData : bool) (chunk : Z) : nat :=
  Z.to_nat (if unpaddedData then Unpadded chunk else chunk).

Definition chunk_leaves (PadSingle : bytes -> bytes) (unpaddedData : bool) (x : bytes) : bytes :=
  if unpaddedData then PadSingle x else x.

(** The data of the tree: the stream, padded chunk by chunk when it has to be. *)
Definition tree_data (PadSingle : bytes -> bytes) (Unpadded : Z -> Z) (unpaddedData : bool) (chunk size : Z) (data : bytes) : bytes :=
  let u := chunk_input Unpadded unpaddedData chunk in
  concat ((fun k => chunk_leaves PadSingle unpaddedData (take u (drop (k * u) data))) <$> seq 0 (Z.to_nat (size / chunk))).

(** Padding makes a whole chunk of the bytes of a chunk. *)
Definition pads (PadSingle : bytes -> bytes) (Unpadded : Z -> Z) (chunk : Z) : Prop :=
  0 <= Unpadded chunk <= chunk /\
  forall x, length x = Z.to_nat (Unpadded chunk) -> Z.of_nat (length (PadSingle x)) = chunk.

(** ** Lists of chunks *)

Lemma concat_equal_length (s : nat) (xs : list bytes) : Forall (fun x => length x = s) xs -> length (concat xs) = (s * length xs)%nat.
Proof. induction 1 as [|x xs Hx _ IH]; cbn [concat length]; [lia|]. rewrite length_app, IH, Hx. lia. Qed.

Lemma concat_chunk (s k : nat) (xs : list bytes) : Forall (fun x => length x = s) xs -> (k < length xs)%nat ->
  take s (drop (s * k) (concat xs)) = xs !!! k.
Proof.
  intros Hf. revert k. induction Hf as [|x xs Hx Hf IH]; intros k Hk; [cbn in Hk; lia|]. cbn [concat]. destruct k as [|k].
  - rewrite Nat.mul_0_r, drop_0. by apply take_app_length'.
  - rewrite Nat.mul_succ_r, Nat.add_comm, <- drop_drop, drop_app_length' by done. apply IH. cbn in Hk. lia.
Qed.

Lemma concat_take_nodes ns a : nodes_ok ns -> (a <= length ns)%nat -> concat (take a ns) = take (32 * a) (concat ns).
Proof.
  intros Hok Ha. rewrite <- (take_drop a ns) at 2. rewrite concat_app. symmetry. apply take_app_length'.
  rewrite concat_nodes_length by (by apply Forall_take). rewrite length_take. lia.
Qed.

Lemma concat_drop_nodes ns a : nodes_ok ns -> (a <= length ns)%nat -> concat (drop a ns) = drop (32 * a) (concat ns).
Proof.
  intros Hok Ha. rewrite <- (take_drop a ns) at 2. rewrite concat_app. symmetry. apply drop_app_length'.
  rewrite concat_nodes_length by (by apply Forall_take). rewrite length_take. lia.
Qed.

(** Replacing or removing an element of the list of goroutines. *)
Lemma elem_of_replaced {A} (l : list A) i x y z : l !! i = Some x -> z ∈ <[i := y]> l -> z = y \/ z ∈ l.
Proof.
  intros Hi Hz. apply list_elem_of_lookup in Hz as [j Hj]. destruct (decide (i = j)) as [<-|Hne].
  - rewrite list_lookup_insert_eq in Hj by (by eapply lookup_lt_Some). left. by injection Hj as ->.
  - rewrite list_lookup_insert_ne in Hj by done. right. by eapply list_elem_of_lookup_2.
Qed.

Lemma elem_of_replace_new {A} (l : list A) i x y : l !! i = Some x -> y ∈ <[i := y]> l.
Proof. intros Hi. apply list_elem_of_lookup_2 with i. apply list_lookup_insert_eq. by eapply lookup_lt_Some. Qed.

Lemma elem_of_kept {A} (l : list A) i x y z : l !! i = Some x -> z ∈ l -> z = x \/ z ∈ <[i := y]> l.
Proof.
  intros Hi Hz. apply list_elem_of_lookup in Hz as [j Hj]. destruct (decide (i = j)) as [<-|Hne]; [left; congruence|].
  right. apply list_elem_of_lookup_2 with j. by rewrite list_lookup_insert_ne.
Qed.

Lemma elem_of_deleted {A} (l : list A) i x z : l !! i = Some x -> z ∈ l -> z = x \/ z ∈ delete i l.
Proof.
  intros Hi Hz. rewrite delete_take_drop. rewrite <- (take_drop_middle l i x Hi), elem_of_app, elem_of_cons in Hz.
  rewrite elem_of_app. tauto.
Qed.

Lemma worker_hash_next Sum256 PadSingle unpaddedData w b w' b' : worker_hash Sum256 PadSingle unpaddedData w b = Some (w', b') ->
  w_phase w' = Writing 0 (w_startOffset w) /\ processed b' = processed b /\ oerr b' = oerr b.
Proof. unfold worker_hash. intros Eh. destruct (workBuffer w), (apexBuf b); try done. repeat case_match; by simplify_eq. Qed.

Section Build.
Context (Sum256 : bytes -> bytes) (Sum256_length : forall x, length (Sum256 x) = 32%nat).
Context (PadSingle : bytes -> bytes) (Unpadded : Z -> Z) (toCID : bytes -> option string).
(** [32 * 2 ^ n] bytes in chunks of [32 * 2 ^ m]. *)
Context (n m : nat) (Hmn : (m <= n)%nat) (Hn : (n < 56)%nat) (unpaddedData : bool).

Abbreviation chunk := (Z.of_nat (32 * 2 ^ m)).
Abbreviation size := (Z.of_nat (32 * 2 ^ n)).
Abbreviation chunks := (2 ^ (n - m))%nat.
Abbreviation u := (chunk_input Unpadded unpaddedData chunk).
Abbreviation pad := (chunk_leaves PadSingle unpaddedData).

Context (Hpads : unpaddedData = true -> pads PadSingle Unpadded chunk).
Context (data : bytes) (Hdata : (chunks * u <= length data)%nat).

Definition chunk_data (k : nat) : bytes := pad (take u (drop (k * u) data)).

Lemma pow_split : (2 ^ n = 2 ^ m * chunks)%nat.
Proof. rewrite <- Nat.pow_add_r. f_equal. lia. Qed.

Lemma size_chunks : (size / chunk) = Z.of_nat chunks.
Proof. rewrite pow_split. symmetry. pose proof (pow_pos m). apply (Z.div_unique _ _ _ 0); lia. Qed.

Lemma pow_bound k : (k <= 56)%nat -> Z.of_nat (2 ^ k) <= 2 ^ 56.
Proof. intros Hk. rewrite Nat2Z.inj_pow. change (Z.of_nat 2) with 2. apply Z.pow_le_mono_r; lia. Qed.

Lemma u_le_chunk : (u <= 32 * 2 ^ m)%nat.
Proof. unfold chunk_input. destruct unpaddedData; [destruct (Hpads eq_refl) as [? _]|]; lia. Qed.

Lemma pad_length x : length x = u -> length (pad x) = (32 * 2 ^ m)%nat.
Proof.
  unfold chunk_input, chunk_leaves. destruct unpaddedData; [|lia]. intros Hx. destruct (Hpads eq_refl) as [_ H]. specialize (H x Hx). lia.
Qed.

Lemma chunk_data_length k : (k < chunks)%nat -> length (chunk_data k) = (32 * 2 ^ m)%nat.
Proof. intros Hk. apply pad_length. rewrite length_take, length_drop. nia. Qed.

(** The leaves of the tree, chunk by chunk. *)
Lemma leaves_exist : exists leaves, nodes_ok leaves /\ length leaves = (2 ^ n)%nat /\
  concat leaves = tree_data PadSingle Unpadded unpaddedData chunk size data /\
  forall k, (k < chunks)%nat -> concat (take (2 ^ m) (drop (k * 2 ^ m) leaves)) = chunk_data k.
Proof.
  set (xs := chunk_data <$> seq 0 chunks).
  assert (Forall (fun x => length x = (32 * 2 ^ m)%nat) xs) as Hxs.
  { apply Forall_fmap, Forall_forall. intros k Hk. apply elem_of_seq in Hk. apply chunk_data_length. lia. }
  assert (length xs = chunks) as Hlx by (unfold xs; by rewrite length_fmap, length_seq).
  destruct (Memtree.chunk (2 ^ n) (concat xs)) as (leaves & Hok & Hl & E).
  { rewrite (concat_equal_length _ _ Hxs), Hlx, pow_split. lia. }
  exists leaves. split; [done|]. split; [done|]. rewrite <- E. split.
  - unfold tree_data. rewrite size_chunks, Nat2Z.id. done.
  - intros k Hk. pose proof pow_split. assert (k * 2 ^ m + 2 ^ m <= 2 ^ n)%nat by nia.
    rewrite concat_take_nodes by (first [by apply Forall_drop | rewrite length_drop; lia]).
    rewrite concat_drop_nodes by (done || lia). rewrite <- E.
    replace (32 * (k * 2 ^ m))%nat with (32 * 2 ^ m * k)%nat by lia. rewrite (concat_chunk _ _ _ Hxs) by lia.
    apply list_lookup_total_correct. unfold xs. by rewrite list_lookup_fmap, lookup_seq_lt by done.
Qed.

(** ** The invariant *)

Context (leaves : list bytes) (Hleaves_ok : nodes_ok leaves) (Hleaves : length leaves = (2 ^ n)%nat).
Context (Hchunk : forall k, (k < chunks)%nat -> concat (take (2 ^ m) (drop (k * 2 ^ m) leaves)) = chunk_data k).
(** The nodes of the finished file. *)
Context (ns : list bytes) (Hns_ok : nodes_ok ns) (Hns : length ns = (2 ^ S n - 1)%nat).
Context (Hns_ref : forall l a, (l <= n)%nat -> (a < 2 ^ (n - l))%nat -> ns !!! (level_pos n l + a)%nat = ref Sum256 leaves l a).

Definition chunk_nodes (k l : nat) : list bytes := ref_nodes Sum256 leaves l (k * 2 ^ (m - l)) (2 ^ (m - l)).

(** The buffer of chunk [k] when it is hashed. *)
Definition hashed_buf (k : nat) : list bytes := (fun l => concat (chunk_nodes k l)) <$> seq 0 (S m).

Definition chunk_pos (k l : nat) : nat := (level_pos n l + k * 2 ^ (m - l))%nat.

(** A layer of a chunk is in the file, its top is in the apex buffer. *)
Definition written (fns : list bytes) (k l : nat) : Prop :=
  forall j, (j < 2 ^ (m - l))%nat -> fns !!! (chunk_pos k l + j)%nat = ns !!! (chunk_pos k l + j)%nat.

Definition apexed (aps : list (list bytes)) (k : nat) : Prop := (aps !!! 0%nat) !!! k = ref Sum256 leaves m k.

Definition worker_ok (K : nat) (fns : list bytes) (aps : list (list bytes)) (w : worker) : Prop :=
  exists k, (k < K)%nat /\ w_startOffset w = Z.of_nat (32 * 2 ^ m * k) /\
  match w_phase w with
  | Hashing => exists x levels nss, workBuffer w = x :: levels /\ flat nss = pad x :: levels /\ shape m nss /\
      nss !!! 0%nat = take (2 ^ m) (drop (k * 2 ^ m) leaves)
  | Writing l off => workBuffer w = hashed_buf k /\ (l <= S m)%nat /\ ((l <= m)%nat -> off = Z.of_nat (32 * 2 ^ (m - l) * k)) /\
      apexed aps k /\ forall l', (l' < l)%nat -> written fns k l'
  end.

Record build_ok (threads K : nat) (fns : list bytes) (aps : list (list bytes)) (b : build) : Prop := {
  bo_K : (K <= chunks)%nat;
  bo_processed : processed b = Z.of_nat (32 * 2 ^ m * K);
  bo_input : input b = drop (K * u) data;
  bo_free : Forall (fun buf => exists nss, shape m nss /\ buf = flat nss) (freeBuffers b);
  bo_out : out b = concat fns /\ nodes_ok fns /\ length fns = length ns;
  bo_apex : apexBuf b = flat aps /\ shape (n - m) aps;
  bo_workers : Forall (worker_ok K fns aps) (workers b);
  bo_threads : oerr b = false -> (length (freeBuffers b) + length (workers b) = threads)%nat;
  bo_chunks : oerr b = false -> forall k, (k < K)%nat ->
    (exists w, w ∈ workers b /\ w_startOffset w = Z.of_nat (32 * 2 ^ m * k)) \/
    (apexed aps k /\ forall l, (l <= m)%nat -> written fns k l)
}.

(** What was right stays right. *)
Definition grows (fns fns' : list bytes) (aps aps' : list (list bytes)) : Prop :=
  (forall p, fns !!! p = ns !!! p -> fns' !!! p = ns !!! p) /\ (forall k, apexed aps k -> apexed aps' k).

Lemma worker_ok_grows K K' fns fns' aps aps' w : grows fns fns' aps aps' -> (K <= K')%nat ->
  worker_ok K fns aps w -> worker_ok K' fns' aps' w.
Proof.
  intros [Hf Ha] HK (k & Hk & Hoff & H). exists k. split; [lia|]. split; [done|]. destruct (w_phase w); [done|].
  destruct H as (? & ? & ? & ? & Hw). split_and!; auto. intros l' Hl' j Hj. apply Hf. by apply Hw.
Qed.

Lemma done_grows fns fns' aps aps' k : grows fns fns' aps aps' ->
  (apexed aps k /\ forall l, (l <= m)%nat -> written fns k l) -> apexed aps' k /\ forall l, (l <= m)%nat -> written fns' k l.
Proof. intros [Hf Ha] [H1 H2]. split; [auto|]. intros l Hl j Hj. apply Hf. by apply H2. Qed.

Lemma grows_refl fns aps : grows fns fns aps aps.
Proof. by split. Qed.

Lemma chunk_leaves_ok k : (k < chunks)%nat ->
  nodes_ok (take (2 ^ m) (drop (k * 2 ^ m) leaves)) /\ length (take (2 ^ m) (drop (k * 2 ^ m) leaves)) = (2 ^ m)%nat /\
  (k * 2 ^ m + 2 ^ m <= length leaves)%nat.
Proof.
  intros Hk. pose proof pow_split. assert (k * 2 ^ m + 2 ^ m <= 2 ^ n)%nat by nia.
  split; [by apply Forall_take, Forall_drop|]. split; [rewrite length_take, length_drop; lia|lia].
Qed.

(** ** The loop that starts the goroutines *)

Lemma main_spawns broken threads K fns aps b : build_ok threads K fns aps b ->
  processed b < size -> freeBuffers b <> [] -> oerr b = false ->
  exists b', main_iter Unpadded size unpaddedData broken b = Spawned b' /\ build_ok threads (S K) fns aps b' /\ oerr b' = false.
Proof.
  intros H Hlt Hne Ho. unfold main_iter. rewrite (proj2 (Z.ltb_lt _ _) Hlt).
  rewrite (bo_processed _ _ _ _ _ H) in Hlt. pose proof pow_split as Hps. pose proof (pow_pos m) as Hpm. assert (K < chunks)%nat as HK by nia.
  destruct (last (freeBuffers b)) as [wb|] eqn:Hlast; [|by apply last_None in Hlast]. rewrite Ho.
  apply last_Some in Hlast as [free' Hlast]. pose proof (bo_free _ _ _ _ _ H) as Hfree. rewrite Hlast, Forall_app, Forall_singleton in Hfree.
  destruct Hfree as [Hfree (nss & Hs & ->)].
  destruct nss as [|n0 nss]; [by destruct Hs|]. cbn [flat fmap list_fmap]. destruct (proj2 Hs 0%nat ltac:(lia)) as [Hl0 Hok0].
  rewrite Nat.sub_0_r in Hl0. change ((n0 :: nss) !!! 0%nat) with n0 in *.
  pose proof (concat_nodes_length n0 Hok0) as Hc0. rewrite Hl0 in Hc0. rewrite Hc0. pose proof u_le_chunk as Hu.
  assert (length (if unpaddedData then take (Z.to_nat (Unpadded chunk)) (concat n0) else concat n0) = u) as ->.
  { unfold chunk_input in *. destruct unpaddedData; [rewrite length_take|]; lia. }
  unfold read_full. rewrite (bo_input _ _ _ _ _ H). unfold ReadFull. rewrite decide_True by (rewrite length_drop; nia).
  eexists. split; [done|]. split; [|done]. destruct (chunk_leaves_ok K HK) as (Hcok & Hcl & _).
  assert (Z.of_nat (32 * 2 ^ m * S K) <= 2 ^ 61) as Hsz by (pose proof (pow_bound n ltac:(lia)); nia).
  constructor; cbn [processed input freeBuffers workers apexBuf out oerr]; rewrite ?Hlast, ?removelast_last.
  - lia.
  - rewrite (bo_processed _ _ _ _ _ H). rewrite u64_small by (unfold in_u64; lia). lia.
  - rewrite drop_drop. by rewrite (Nat.mul_succ_l K).
  - done.
  - apply (bo_out _ _ _ _ _ H).
  - apply (bo_apex _ _ _ _ _ H).
  - apply Forall_app. split.
    + eapply Forall_impl; [exact (bo_workers _ _ _ _ _ H)|]. intros w. apply worker_ok_grows; [apply grows_refl|lia].
    + apply Forall_singleton. exists K. split; [lia|]. split; [apply (bo_processed _ _ _ _ _ H)|]. cbn [w_phase].
      eexists _, _, (<[0%nat := _]> (n0 :: nss)). split; [done|]. cbn [insert list_insert]. split; [|split; [|done]].
      * cbn [flat fmap list_fmap]. by rewrite Hchunk.
      * by apply (shape_insert m (n0 :: nss) 0); [done|lia|rewrite Nat.sub_0_r|].
  - intros _. pose proof (bo_threads _ _ _ _ _ H Ho) as Ht. rewrite Hlast in Ht. rewrite length_app in *. cbn in *. lia.
  - intros _ k Hk. destruct (decide (k = K)) as [->|Hne2].
    + left. eexists. split; [apply elem_of_app; right; by left|]. apply (bo_processed _ _ _ _ _ H).
    + destruct (bo_chunks _ _ _ _ _ H Ho k ltac:(lia)) as [(w & Hw & E)|]; [left|by right].
      exists w. split; [by apply elem_of_app; left|done].
Qed.

Lemma main_ok broken threads K fns aps b b' : build_ok threads K fns aps b ->
  main_iter Unpadded size unpaddedData broken b = Spawned b' -> build_ok threads (S K) fns aps b'.
Proof.
  intros H Hm. assert (processed b < size /\ freeBuffers b <> [] /\ oerr b = false) as (Hlt & Hne & Ho).
  { unfold main_iter in Hm. destruct (processed b <? size) eqn:Hlt; [|done]. apply Z.ltb_lt in Hlt.
    destruct (last (freeBuffers b)) as [wb|] eqn:Hlast; [|done]. destruct (oerr b); [done|]. split_and!; [done| |done]. intros Hf. by rewrite Hf in Hlast. }
  destruct (main_spawns broken _ _ _ _ _ H Hlt Hne Ho) as (b1 & E & H1 & _). rewrite E in Hm. by injection Hm as <-.
Qed.

(** ** The goroutines *)

Lemma hashed_chunk k nss : (k < chunks)%nat -> shape m nss -> nss !!! 0%nat = take (2 ^ m) (drop (k * 2 ^ m) leaves) ->
  hashChunk Sum256 (flat nss) = Some (hashed_buf k).
Proof.
  intros Hk Hs H0. rewrite (hashChunk_spec Sum256 Sum256_length m) by (done || lia). f_equal. unfold hashed_buf.
  apply list_fmap_ext. intros i l Hl. apply lookup_seq in Hl as [-> Hl]. f_equal. rewrite H0.
  destruct (chunk_leaves_ok k Hk) as (_ & _ & Hkl). unfold chunk_nodes, ref_nodes. apply list_fmap_ext. intros i' j Hj.
  apply lookup_seq in Hj as [-> Hj]. cbn [plus]. rewrite ref_chunk by (done || lia). done.
Qed.

Lemma hashed_buf_lookup k l : (l <= m)%nat -> hashed_buf k !! l = Some (concat (chunk_nodes k l)).
Proof. intros Hl. unfold hashed_buf. rewrite list_lookup_fmap, lookup_seq_lt by lia. done. Qed.

Lemma hashed_buf_last k : last (hashed_buf k) = Some (ref Sum256 leaves m k ++ []).
Proof.
  unfold hashed_buf. rewrite seq_S, fmap_app, last_app. cbn [fmap list_fmap last plus]. do 2 f_equal.
  unfold chunk_nodes, ref_nodes. rewrite Nat.sub_diag. cbn [Nat.pow seq fmap list_fmap concat]. do 2 f_equal. lia.
Qed.

Lemma hashed_buf_shape k : (k < chunks)%nat -> exists nss, shape m nss /\ hashed_buf k = flat nss.
Proof.
  intros Hk. exists (chunk_nodes k <$> seq 0 (S m)). split; [|unfold hashed_buf; by rewrite <- list_fmap_compose].
  split; [by rewrite length_fmap, length_seq|]. intros l Hl.
  rewrite (list_lookup_total_correct _ _ (chunk_nodes k l)) by (rewrite list_lookup_fmap, lookup_seq_lt by lia; done).
  split; [apply ref_nodes_length|]. apply (ref_nodes_ok Sum256 Sum256_length _ _ _ _ n); [done|done|lia|].
  assert (2 ^ (n - l) = 2 ^ (m - l) * chunks)%nat as -> by (rewrite <- Nat.pow_add_r; f_equal; lia).
  nia.
Qed.

(** A goroutine is replaced by its next state. *)
Lemma replaced_ok threads K fns fns' aps aps' b i w w' : build_ok threads K fns aps b -> grows fns fns' aps aps' ->
  nodes_ok fns' -> length fns' = length ns -> shape (n - m) aps' ->
  workers b !! i = Some w -> w_startOffset w' = w_startOffset w -> worker_ok K fns' aps' w' ->
  build_ok threads K fns' aps'
    (mkBuild (processed b) (input b) (freeBuffers b) (<[i := w']> (workers b)) (flat aps') (concat fns') (oerr b)).
Proof.
  intros H Hg Hf1 Hf2 Ha Hw Hoff Hw'. constructor; cbn [processed input freeBuffers workers apexBuf out oerr]; try (by apply H || done).
  - apply Forall_forall. intros z Hz. destruct (elem_of_replaced _ _ _ _ _ Hw Hz) as [->|Hz']; [done|].
    eapply worker_ok_grows; [exact Hg|done|]. pose proof (bo_workers _ _ _ _ _ H) as Hws. rewrite Forall_forall in Hws. by apply Hws.
  - intros Ho. rewrite length_insert. by apply H.
  - intros Ho k Hk. destruct (bo_chunks _ _ _ _ _ H Ho k Hk) as [(z & Hz & E)|Hd]; [left|right; by eapply done_grows].
    destruct (elem_of_kept _ _ _ w' _ Hw Hz) as [->|Hz']; [|by exists z]. exists w'. split; [by eapply elem_of_replace_new|congruence].
Qed.

(** A goroutine ends: it has written everything, or there was an error. *)
Lemma removed_ok threads K fns aps b i w free' err : build_ok threads K fns aps b -> workers b !! i = Some w ->
  Forall (fun buf => exists nss, shape m nss /\ buf = flat nss) free' ->
  (err = false -> oerr b = false /\ length free' = S (length (freeBuffers b)) /\
     exists k, w_startOffset w = Z.of_nat (32 * 2 ^ m * k) /\ apexed aps k /\ forall l, (l <= m)%nat -> written fns k l) ->
  build_ok threads K fns aps (mkBuild (processed b) (input b) free' (delete i (workers b)) (apexBuf b) (out b) err).
Proof.
  intros H Hw Hfree Hend. constructor; cbn [processed input freeBuffers workers apexBuf out oerr]; try (by apply H || done).
  - apply Forall_forall. intros z Hz. apply list_elem_of_delete_inv in Hz.
    pose proof (bo_workers _ _ _ _ _ H) as Hws. rewrite Forall_forall in Hws. by apply Hws.
  - intros Ho. destruct (Hend Ho) as (Ho' & Hl & _). rewrite Hl, length_delete by done. pose proof (lookup_lt_Some _ _ _ Hw).
    pose proof (bo_threads _ _ _ _ _ H Ho'). lia.
  - intros Ho k Hk. destruct (Hend Ho) as (Ho' & _ & k0 & Hoff & Hdone).
    destruct (bo_chunks _ _ _ _ _ H Ho' k Hk) as [(z & Hz & E)|Hd]; [|by right].
    destruct (elem_of_deleted _ _ _ _ Hw Hz) as [->|Hz']; [right|left; by exists z].
    assert (k = k0) as -> by (pose proof (pow_pos m); rewrite Hoff in E; nia). done.
Qed.

Lemma hash_ok threads K fns aps b i w : build_ok threads K fns aps b -> workers b !! i = Some w -> w_phase w = Hashing ->
  exists w' b' aps', worker_hash Sum256 PadSingle unpaddedData w b = Some (w', b') /\
    build_ok threads K fns aps' (set_workers b' (<[i := w']> (workers b))).
Proof.
  intros H Hw Hph. pose proof (bo_workers _ _ _ _ _ H) as Hws. rewrite Forall_forall in Hws.
  destruct (Hws w) as (k & Hk & Hoff & Hp); [by eapply list_elem_of_lookup_2|]. rewrite Hph in Hp.
  destruct Hp as (x & levels & nss & Eb & Ef & Hs & Hn0). pose proof (bo_K _ _ _ _ _ H) as HK.
  destruct (bo_apex _ _ _ _ _ H) as [Ea Hsa]. destruct (bo_out _ _ _ _ _ H) as (Eo & Hfok & Hfl).
  unfold worker_hash. rewrite Eb, Ea. destruct aps as [|a0 aps]; [by destruct Hsa|]. cbn [flat fmap list_fmap].
  change (if unpaddedData then PadSingle x else x) with (pad x). rewrite <- Ef.
  rewrite (hashed_chunk k nss) by (done || lia). rewrite hashed_buf_last, app_nil_r.
  assert (length (ref Sum256 leaves m k) = 32%nat) as Hrl by (apply (ref_length Sum256 Sum256_length _ _ _ n); [done|done|lia|lia]).
  rewrite take_ge by lia. assert (length (pad x) = (32 * 2 ^ m)%nat) as ->.
  { destruct nss as [|n0 nss']; [by destruct Hs|]. injection Ef as <- _. destruct (proj2 Hs 0%nat ltac:(lia)) as [Hl0 Hok0].
    change ((n0 :: nss') !!! 0%nat) with n0 in *. rewrite concat_nodes_length, Hl0 by done. by rewrite Nat.sub_0_r. }
  rewrite Hoff. replace (Z.of_nat (32 * 2 ^ m * k) / chunk) with (Z.of_nat k).
  2:{ pose proof (pow_pos m). apply (Z.div_unique _ _ _ 0); lia. }
  destruct (proj2 Hsa 0%nat ltac:(lia)) as [Hal Haok]. change ((a0 :: aps) !!! 0%nat) with a0 in *. rewrite Nat.sub_0_r in Hal.
  change nodeSize with NODE_SIZE. destruct (blit_node a0 k (ref Sum256 leaves m k) Haok ltac:(lia) Hrl) as [-> Hok'].
  eexists _, _, (<[k := ref Sum256 leaves m k]> a0 :: aps). split; [done|]. unfold set_workers. cbn [processed input freeBuffers workers apexBuf out oerr].
  rewrite Eo. change (concat (<[k:=ref Sum256 leaves m k]> a0) :: flat aps) with (flat (<[k:=ref Sum256 leaves m k]> a0 :: aps)).
  assert (grows fns fns (a0 :: aps) (<[k := ref Sum256 leaves m k]> a0 :: aps)) as Hg.
  { split; [done|]. intros k'. unfold apexed. cbn. intros Hk'. destruct (decide (k' = k)) as [->|Hne].
    - by rewrite list_lookup_total_insert_eq by lia.
    - by rewrite list_lookup_total_insert_ne by done. }
  eapply replaced_ok; [exact H|exact Hg|done|done| |exact Hw|done|].
  - apply (shape_insert (n - m) (a0 :: aps) 0); [done|lia|by rewrite length_insert, Nat.sub_0_r|done].
  - exists k. cbn [w_startOffset w_phase workBuffer]. split_and!; [done|done|done|lia| |unfold apexed; cbn; by rewrite list_lookup_total_insert_eq by lia|lia].
    intros _. rewrite Nat.sub_0_r. lia.
Qed.

Lemma layer_off l : (l <= n)%nat -> layerOffset size (Z.of_nat l) = Some (Z.of_nat (32 * level_pos n l)).
Proof.
  intros Hl. assert (forall k, 32 * 2 ^ k = 2 ^ (k + 5))%nat as H32 by (intros k; rewrite Nat.pow_add_r; cbn; lia).
  rewrite H32, layerOffset_spec by lia. do 2 f_equal. unfold level_pos. rewrite Nat.mul_sub_distr_l, !H32. do 2 f_equal; lia.
Qed.

Lemma level_pos_bound l : (l <= n)%nat -> Z.of_nat (32 * (level_pos n l + 2 ^ (n - l))) <= 2 ^ 62.
Proof. intros Hl. pose proof (level_pos_end n l Hl). pose proof (pow_bound (S n) ltac:(lia)). lia. Qed.

Lemma layer_chunks l : (l <= m)%nat -> (2 ^ (n - l) = 2 ^ (m - l) * chunks)%nat.
Proof. intros Hl. rewrite <- Nat.pow_add_r. f_equal. lia. Qed.

(** The write of a layer of a hashed chunk. *)
Lemma layer_written fns k l : nodes_ok fns -> length fns = length ns -> (k < chunks)%nat -> (l <= m)%nat ->
  exists fns', i64 (u64 (Z.of_nat (32 * 2 ^ (m - l) * k) + Z.of_nat (32 * level_pos n l))) = Z.of_nat (chunk_pos k l) * NODE_SIZE /\
    WriteAt (concat fns) (Z.of_nat (chunk_pos k l) * NODE_SIZE) (concat (chunk_nodes k l)) = concat fns' /\
    nodes_ok fns' /\ length fns' = length ns /\ (forall p, fns !!! p = ns !!! p -> fns' !!! p = ns !!! p) /\ written fns' k l.
Proof.
  intros Hok Hl Hk Hlm. pose proof (layer_chunks l Hlm) as Hlc. pose proof (level_pos_end n l ltac:(lia)) as Hend.
  pose proof (level_pos_bound l ltac:(lia)) as Hb. assert (k * 2 ^ (m - l) + 2 ^ (m - l) <= 2 ^ (n - l))%nat as Hkl by nia.
  destruct (WriteAt_right ns fns (chunk_pos k l) (chunk_nodes k l) Hok) as (fns' & E & Hok' & Hl' & Hkeep & Hnew).
  - apply (ref_nodes_ok Sum256 Sum256_length _ _ _ _ n); [done|done|lia|lia].
  - done.
  - unfold chunk_nodes, chunk_pos. rewrite ref_nodes_length. lia.
  - unfold chunk_nodes. rewrite ref_nodes_length. intros j Hj. rewrite ref_nodes_lookup by done. unfold chunk_pos.
    rewrite <- Nat.add_assoc. rewrite Hns_ref by lia. done.
  - exists fns'. split_and!; [|done|done|done|done|].
    + unfold chunk_pos, NODE_SIZE. rewrite u64_small by (unfold in_u64; lia). rewrite i64_small by (unfold in_i64, min_i64, max_i64; lia). lia.
    + intros j Hj. apply Hnew. unfold chunk_nodes. by rewrite ref_nodes_length.
Qed.

Lemma write_ok threads K fns aps b i w fault l off : build_ok threads K fns aps b -> workers b !! i = Some w ->
  w_phase w = Writing l off ->
  exists ow b' fns', worker_write size fault w l off b = Some (ow, b') /\ (fault = false -> oerr b' = oerr b) /\
    build_ok threads K fns' aps
      (set_workers b' (match ow with Some w' => <[i := w']> (workers b) | None => delete i (workers b) end)).
Proof.
  intros H Hw Hph. pose proof (bo_workers _ _ _ _ _ H) as Hws. rewrite Forall_forall in Hws.
  destruct (Hws w) as (k & Hk & Hstart & Hp); [by eapply list_elem_of_lookup_2|]. rewrite Hph in Hp.
  destruct Hp as (Eb & Hl & Hoff & Hap & Hwr). pose proof (bo_K _ _ _ _ _ H) as HK.
  destruct (bo_out _ _ _ _ _ H) as (Eo & Hfok & Hfl). destruct (bo_apex _ _ _ _ _ H) as [Ea Hsa].
  unfold worker_write. rewrite Eb. destruct (decide (l <= m)%nat) as [Hlm|Hgt].
  - rewrite hashed_buf_lookup, layer_off by lia. rewrite (Hoff Hlm).
    destruct (layer_written fns k l Hfok Hfl ltac:(lia) Hlm) as (fns' & -> & E & Hok' & Hl' & Hkeep & Hnew).
    rewrite (proj2 (Z.ltb_ge _ _)), orb_false_r by (unfold NODE_SIZE; lia).
    destruct fault; eexists _, _; [exists fns|exists fns']; (split; [done|]); unfold set_workers; cbn [processed input freeBuffers workers apexBuf out oerr].
    + split; [done|]. eapply removed_ok; [exact H|exact Hw|by apply H|done].
    + split; [done|]. rewrite Eo, E, Ea. assert (grows fns fns' aps aps) as Hg by (by split).
      eapply replaced_ok; [exact H|exact Hg|done|done|done|exact Hw|done|]. exists k. cbn [w_startOffset w_phase workBuffer].
      split_and!; [done|done|done|lia| |done|].
      * intros Hl2. assert (2 ^ (m - l) = 2 * 2 ^ (m - S l))%nat as Hp by (rewrite <- Nat.pow_succ_r'; f_equal; lia).
        symmetry. apply (Z.div_unique _ _ _ 0); lia.
      * intros l' Hl'2. destruct (decide (l' = l)) as [->|]; [done|]. intros j Hj. apply Hkeep, Hwr; [lia|done].
  - assert (l = S m) as -> by lia. rewrite (proj2 (lookup_ge_None _ _)) by (unfold hashed_buf; by rewrite length_fmap, length_seq).
    eexists _, _, fns. split; [done|]. unfold set_workers; cbn [processed input freeBuffers workers apexBuf out oerr]. split; [done|].
    eapply removed_ok; [exact H|exact Hw| |].
    + apply Forall_app. split; [by apply H|]. apply Forall_singleton. apply hashed_buf_shape. lia.
    + intros Ho. split; [done|]. split; [rewrite length_app; cbn; lia|]. exists k. split_and!; [done|done|].
      intros l' Hl'. apply Hwr. lia.
Qed.

Lemma run_ok fault threads K fns aps b i w : build_ok threads K fns aps b -> workers b !! i = Some w ->
  exists b' fns' aps', run_worker Sum256 PadSingle size unpaddedData fault i b = Some b' /\ build_ok threads K fns' aps' b' /\
    (fault = false -> oerr b' = oerr b).
Proof.
  intros H Hw. unfold run_worker, worker_run. rewrite Hw. destruct (w_phase w) as [|l off] eqn:Hph.
  - destruct (hash_ok _ _ _ _ _ _ _ H Hw Hph) as (w' & b' & aps' & E & H'). rewrite E. destruct (worker_hash_next _ _ _ _ _ _ _ E) as (_ & _ & Ho).
    eexists _, fns, aps'. split; [done|]. by split.
  - destruct (write_ok _ _ _ _ _ _ _ fault l off H Hw Hph) as (ow & b' & fns' & E & Ho & H'). rewrite E.
    destruct ow; (eexists _, fns', aps; split; [done|]; by split).
Qed.

Lemma step_ok broken threads K fns aps b b' : build_ok threads K fns aps b ->
  build_step Sum256 PadSingle Unpadded size unpaddedData broken b b' -> exists K' fns' aps', build_ok threads K' fns' aps' b'.
Proof.
  intros H Hstep. destruct Hstep as [b b' Hm|fault i b b' Hr]; [exists (S K), fns, aps; by eapply main_ok|].
  destruct (workers b !! i) as [w|] eqn:Hw; [|unfold run_worker in Hr; by rewrite Hw in Hr].
  destruct (run_ok fault _ _ _ _ _ _ _ H Hw) as (b1 & fns' & aps' & E & H1 & _). rewrite E in Hr. injection Hr as <-. by exists K, fns', aps'.
Qed.

(** ** The start *)

Lemma new_levels_shape fuel (Get : Z -> bytes) k : (forall len, 0 <= len -> Z.of_nat (length (Get len)) = len) -> (k < fuel)%nat ->
  exists nss, new_levels fuel Get (Z.of_nat (32 * 2 ^ k)) = flat nss /\ shape k nss.
Proof.
  intros Hget. assert (forall j, exists n0, nodes_ok n0 /\ length n0 = (2 ^ j)%nat /\ Get (Z.of_nat (32 * 2 ^ j)) = concat n0) as Hnode.
  { intros j. apply Memtree.chunk. pose proof (Hget (Z.of_nat (32 * 2 ^ j)) ltac:(lia)). lia. }
  revert fuel. induction k as [|k IH]; intros [|fuel] Hf; try lia; cbn [new_levels].
  - destruct (Hnode 0%nat) as (n0 & Hok & Hl & ->). exists [n0]. split; [done|]. split; [done|]. intros l Hl0. assert (l = 0)%nat as -> by lia. done.
  - destruct (Hnode (S k)) as (n0 & Hok & Hl & ->). pose proof (pow_pos k). rewrite Nat.pow_succ_r'. rewrite Z.gtb_ltb, (proj2 (Z.ltb_lt _ _)) by lia.
    change 2 with (Z.of_nat 2). rewrite quot_of_nat by lia. replace (32 * (2 * 2 ^ k))%nat with (32 * 2 ^ k * 2)%nat by lia. rewrite Nat.div_mul by lia.
    destruct (IH fuel ltac:(lia)) as (nss & -> & Hs). exists (n0 :: nss). split; [done|]. destruct Hs as [Hls Hs]. split; [cbn; lia|].
    intros [|l] Hlk; [done|]. change ((n0 :: nss) !!! S l) with (nss !!! l). cbn [Nat.sub]. apply Hs. lia.
Qed.

Context (chunkSize : Z) (HchunkSize : Z.min chunkSize size = chunk).
Context (Get : nat -> Z -> bytes) (Hget : forall i len, 0 <= len -> Z.of_nat (length (Get i len)) = len) (numCPU : Z).

Lemma size_small : i64 size = size.
Proof. apply i64_small. pose proof (pow_bound n ltac:(lia)). unfold in_i64, min_i64, max_i64. lia. Qed.

Lemma binTreeSize_spec : binTreeSize size = Some (Z.of_nat (32 * (2 ^ S n - 1))).
Proof.
  unfold binTreeSize. rewrite size_small. change NODE_SIZE with (Z.of_nat 32). rewrite quot_of_nat by lia.
  rewrite (Nat.mul_comm 32), Nat.div_mul by lia. unfold computeTotalNodes. rewrite level_counts_pow by lia. cbn [fmap option_fmap option_map fst].
  rewrite sum_pow. pose proof (pow_bound (S n) ltac:(lia)). pose proof (pow_pos (S n)).
  f_equal. rewrite !u64_small; unfold in_u64; rewrite ?u64_small; unfold in_u64; lia.
Qed.

Abbreviation threads := (Z.to_nat (maxThreads chunkSize size numCPU)).

Lemma init_ok b0 : BuildTreeD_init chunkSize size false false false Get numCPU data = Some (Ok b0) ->
  exists fns aps, build_ok threads 0 fns aps b0.
Proof.
  unfold BuildTreeD_init. rewrite binTreeSize_spec. intros Hb.
  apply (f_equal (fun r => match r with Some (Ok b) => b | _ => b0 end)) in Hb. cbv beta iota in Hb. subst b0.
  destruct (Memtree.chunk (2 ^ S n - 1) (replicate (Z.to_nat (Z.of_nat (32 * (2 ^ S n - 1)))) x00)) as (fns & Hok & Hl & E).
  { rewrite length_replicate. lia. }
  destruct (new_levels_shape 64 (Get threads) (n - m) (Hget threads) ltac:(lia)) as (aps & Ea & Hsa). exists fns, aps.
  constructor; cbn [processed input freeBuffers workers apexBuf out oerr]; try done.
  - lia.
  - by rewrite Nat.mul_0_r.
  - unfold workerBuffers. apply Forall_fmap, Forall_forall. intros i _. unfold compose. rewrite size_small, HchunkSize.
    destruct (new_levels_shape 64 (Get i) m (Hget i) ltac:(lia)) as (nss & -> & Hs). by exists nss.
  - split; [done|]. split; [done|]. lia.
  - split; [|done]. rewrite <- Ea. unfold new_apexBuf. rewrite size_small, HchunkSize.
    rewrite Z.quot_div_nonneg by (pose proof (pow_pos m); lia). rewrite size_chunks. pose proof (pow_pos (n - m)).
    rewrite (proj2 (Z.eqb_neq _ _)) by lia. f_equal. unfold nodeSize. lia.
  - intros _. unfold workerBuffers. rewrite length_fmap, length_seq. cbn. lia.
  - lia.
Qed.

Lemma threads_pos : (1 <= threads)%nat.
Proof. unfold maxThreads. lia. Qed.

(** ** The apex *)

Definition covered (fns : list bytes) (L : nat) : Prop :=
  forall l a, (l < L)%nat -> (l <= n)%nat -> (a < 2 ^ (n - l))%nat -> fns !!! (level_pos n l + a)%nat = ns !!! (level_pos n l + a)%nat.

Lemma chunks_covered fns : (forall k, (k < chunks)%nat -> forall l, (l <= m)%nat -> written fns k l) -> covered fns (S m).
Proof.
  intros H l a Hl _ Ha. pose proof (layer_chunks l ltac:(lia)) as Hlc. pose proof (pow_pos (m - l)) as Hp.
  pose proof (Nat.div_mod a (2 ^ (m - l)) ltac:(lia)) as Hdm. pose proof (Nat.mod_upper_bound a (2 ^ (m - l)) ltac:(lia)) as Hm.
  assert (a / 2 ^ (m - l) < chunks)%nat as Hk by (apply Nat.Div0.div_lt_upper_bound; lia).
  specialize (H (a / 2 ^ (m - l))%nat Hk l ltac:(lia) (a mod 2 ^ (m - l))%nat Hm). unfold chunk_pos in H.
  replace (level_pos n l + a / 2 ^ (m - l) * 2 ^ (m - l) + a mod 2 ^ (m - l))%nat with (level_pos n l + a)%nat in H by lia. done.
Qed.

Lemma covered_all fns : length fns = length ns -> covered fns (S n) -> fns = ns.
Proof.
  intros Hl H. apply list_eq_total; [done|]. intros p Hp. rewrite Hl, Hns in Hp.
  destruct (level_pos_cover n p Hp) as (l & a & Hln & Ha & ->). apply H; lia.
Qed.

Definition apex_layer (l : nat) : bytes := concat (ref_nodes Sum256 leaves (m + l) 0 (2 ^ (n - m - l))).

Lemma write_apex_ok cnt l faults fns : nodes_ok fns -> length fns = length ns -> covered fns (m + l) -> (1 <= l)%nat ->
  (l + cnt = S (n - m))%nat ->
  exists file ok, write_apex size faults (Z.of_nat (S m)) (Z.of_nat l) (apex_layer <$> seq l cnt) (concat fns) = Some (file, ok) /\
    (ok = true -> file = concat ns) /\ (faults = [] -> ok = true).
Proof.
  revert l faults fns. induction cnt as [|cnt IH]; intros l faults fns Hok Hl Hc H1 Hcnt; cbn [seq fmap list_fmap write_apex].
  { eexists _, true. split; [done|]. split; [|done]. intros _. f_equal. apply covered_all; [done|]. by replace (S n) with (m + l)%nat by lia. }
  replace (Z.of_nat l + Z.of_nat (S m) - 1) with (Z.of_nat (m + l)) by lia. rewrite layer_off by lia.
  pose proof (level_pos_bound (m + l) ltac:(lia)) as Hb. rewrite i64_small by (unfold in_i64, min_i64, max_i64; lia).
  rewrite (proj2 (Z.ltb_ge _ _)), orb_false_r by lia. destruct (default false (head faults)) eqn:Hf.
  { eexists _, false. split; [done|]. split; [done|]. by intros ->. }
  pose proof (level_pos_end n (m + l) ltac:(lia)) as Hend. replace (n - (m + l))%nat with (n - m - l)%nat in Hend by lia.
  destruct (WriteAt_right ns fns (level_pos n (m + l)) (ref_nodes Sum256 leaves (m + l) 0 (2 ^ (n - m - l))) Hok) as (fns' & E & Hok' & Hl' & Hkeep & Hnew).
  - apply (ref_nodes_ok Sum256 Sum256_length _ _ _ _ n); [done|done|lia|]. replace (n - (m + l))%nat with (n - m - l)%nat by lia. lia.
  - done.
  - rewrite ref_nodes_length. lia.
  - rewrite ref_nodes_length. intros j Hj. rewrite ref_nodes_lookup by done. cbn [plus]. rewrite Hns_ref; [done|lia|].
    by replace (n - (m + l))%nat with (n - m - l)%nat by lia.
  - replace (Z.of_nat (32 * level_pos n (m + l))) with (Z.of_nat (level_pos n (m + l)) * NODE_SIZE) by (unfold NODE_SIZE; lia).
    change (concat (ref_nodes Sum256 leaves (m + l) 0 (2 ^ (n - m - l)))) with (apex_layer l) in E. rewrite E. replace (Z.of_nat l + 1) with (Z.of_nat (S l)) by lia.
    destruct (IH (S l) (tail faults) fns') as (file & ok & E' & H2 & H3); [done|done| |lia|lia|exists file, ok; split_and!; [done|done|by intros ->; apply H3]].
    intros l' a Hl2 Hln Ha. destruct (decide (l' = m + l)%nat) as [->|]; [|apply Hkeep, Hc; [lia|done|done]].
    apply Hnew. rewrite ref_nodes_length. by replace (n - m - l)%nat with (n - (m + l))%nat by lia.
Qed.

(** ** The end *)

Lemma apex_bottom K fns aps b : build_ok threads K fns aps b -> (forall k, (k < chunks)%nat -> apexed aps k) ->
  hashChunk Sum256 (apexBuf b) = Some (apex_layer <$> seq 0 (S (n - m))).
Proof.
  intros H Ha. destruct (bo_apex _ _ _ _ _ H) as [-> Hs]. rewrite (hashChunk_spec Sum256 Sum256_length (n - m)) by (done || lia). f_equal.
  destruct (proj2 Hs 0%nat ltac:(lia)) as [Hl _]. rewrite Nat.sub_0_r in Hl.
  assert (aps !!! 0%nat = ref_nodes Sum256 leaves m 0 chunks) as ->.
  { apply list_eq_total; [by rewrite ref_nodes_length|]. intros k Hk. rewrite ref_nodes_lookup by lia. apply Ha. lia. }
  apply list_fmap_ext. intros i l Hi. apply lookup_seq in Hi as [-> Hi]. unfold apex_layer, ref_nodes at 1 3. f_equal.
  apply list_fmap_ext. intros i' j Hj. apply lookup_seq in Hj as [-> Hj]. cbn [plus]. apply ref_stack; [lia|done].
Qed.

Lemma root_spec : last (apex_layer <$> seq 0 (S (n - m))) = Some (ref Sum256 leaves n 0 ++ []).
Proof.
  rewrite seq_S, fmap_app, last_app. cbn [fmap list_fmap last plus]. f_equal. unfold apex_layer, ref_nodes. rewrite Nat.sub_diag.
  cbn [Nat.pow seq fmap list_fmap concat]. do 2 f_equal. lia.
Qed.

(** When the loop is left and all goroutines are gone without an error, the file
    becomes the tree and the result is the commitment of the root, up to
    failures of the last writes. *)
Lemma build_finish_ok K fns aps b faults : build_ok threads K fns aps b -> size <= processed b -> workers b = [] -> oerr b = false ->
  exists file ok, (ok = true -> file = concat ns) /\ (faults = [] -> ok = true) /\
    finish Sum256 toCID size faults b =
    Some (file, if ok : bool then match toCID (ref Sum256 leaves n 0) with Some c => Ok c | None => Err CidError end else Err WriteError_).
Proof.
  intros H Hsz Hw Ho. pose proof pow_split as Hps. pose proof (pow_pos m) as Hpm. pose proof (bo_K _ _ _ _ _ H) as HK.
  assert (K = chunks) as -> by (rewrite (bo_processed _ _ _ _ _ H) in Hsz; nia).
  assert (forall k, (k < chunks)%nat -> apexed aps k /\ forall l, (l <= m)%nat -> written fns k l) as Hdone.
  { intros k Hk. destruct (bo_chunks _ _ _ _ _ H Ho k Hk) as [(w & Hin & _)|]; [|done]. rewrite Hw in Hin. by apply not_elem_of_nil in Hin. }
  pose proof (bo_threads _ _ _ _ _ H Ho) as Ht. rewrite Hw in Ht. pose proof threads_pos as Htp. pose proof (bo_free _ _ _ _ _ H) as Hfree.
  destruct (bo_out _ _ _ _ _ H) as (Eo & Hfok & Hfl). unfold finish. rewrite Ho.
  destruct (freeBuffers b) as [|wb free]; [cbn [length plus] in Ht; lia|]. apply Forall_cons in Hfree as [(nss & Hs & ->) _].
  destruct nss as [|n0 nss]; [by destruct Hs|]. cbn [flat fmap list_fmap]. destruct (proj2 Hs 0%nat ltac:(lia)) as [Hl0 Hok0].
  rewrite Nat.sub_0_r in Hl0. change ((n0 :: nss) !!! 0%nat) with n0 in *. rewrite concat_nodes_length, Hl0 by done.
  assert (bits_Len (chunk / nodeSize) = Z.of_nat (S m)) as ->.
  { change nodeSize with (Z.of_nat 32). rewrite <- Nat2Z.inj_div, (Nat.mul_comm 32), Nat.div_mul by lia. unfold bits_Len.
    rewrite (proj2 (Z.leb_gt _ _)) by lia. rewrite Nat2Z.inj_pow. change (Z.of_nat 2) with 2. rewrite Z.log2_pow2 by lia. lia. }
  rewrite (apex_bottom chunks fns aps b H) by (intros k Hk; by apply Hdone). rewrite root_spec.
  cbn [seq fmap list_fmap tail]. change 1 with (Z.of_nat 1). rewrite Eo.
  destruct (write_apex_ok (n - m) 1 faults fns Hfok Hfl) as (file & ok & -> & H1 & H2); [|lia|lia|].
  { rewrite Nat.add_1_r. apply chunks_covered. intros k Hk. by apply Hdone. }
  exists file, ok. split; [done|]. split; [done|]. destruct ok; [|done].
  rewrite app_nil_r, take_ge; [by destruct (toCID _)|].
  rewrite (ref_length Sum256 Sum256_length leaves n 0 n); [lia|done|done|lia|]. rewrite Nat.sub_diag. cbn. lia.
Qed.

(** ** Progress *)

(** The steps a goroutine has left, and those of a build. *)
Definition cost (w : worker) : nat :=
  match w_phase w with Hashing => m + 3 | Writing l _ => m + 2 - l end.

Definition measure (K : nat) (b : build) : nat := ((chunks - K) * (m + 4) + sum_list_with cost (workers b))%nat.

Lemma cost_replaced ws i w w' : ws !! i = Some w -> (cost w' < cost w)%nat ->
  (sum_list_with cost (<[i := w']> ws) < sum_list_with cost ws)%nat.
Proof.
  intros Hi Hc. rewrite insert_take_drop by (by eapply lookup_lt_Some). rewrite <- (take_drop_middle ws i w Hi) at 3.
  rewrite !sum_list_with_app. cbn [sum_list_with]. lia.
Qed.

Lemma cost_deleted ws i w : ws !! i = Some w -> (0 < cost w)%nat -> (sum_list_with cost (delete i ws) < sum_list_with cost ws)%nat.
Proof.
  intros Hi Hc. rewrite delete_take_drop. rewrite <- (take_drop_middle ws i w Hi) at 3. rewrite !sum_list_with_app. cbn [sum_list_with]. lia.
Qed.

Lemma same_K T K K' fns fns' aps aps' b b' : build_ok T K fns aps b -> build_ok T K' fns' aps' b' -> processed b' = processed b -> K' = K.
Proof.
  intros H H' E. rewrite (bo_processed _ _ _ _ _ H), (bo_processed _ _ _ _ _ H') in E. pose proof (pow_pos m). nia.
Qed.

Lemma step_measure broken T K K' fns fns' aps aps' b b' : build_ok T K fns aps b -> build_ok T K' fns' aps' b' ->
  build_step Sum256 PadSingle Unpadded size unpaddedData broken b b' -> (measure K' b' < measure K b)%nat.
Proof.
  intros H H' Hstep. destruct Hstep as [b b' Hm|fault i b b' Hr].
  - pose proof (main_ok _ _ _ _ _ _ _ H Hm) as H1. assert (K' = S K) as -> by (eapply same_K; [exact H1|exact H'|done]).
    pose proof (bo_K _ _ _ _ _ H'). unfold measure. replace (chunks - K)%nat with (S (chunks - S K)) by lia.
    assert (exists w, workers b' = workers b ++ [w] /\ w_phase w = Hashing) as (w & -> & Hph).
    { unfold main_iter in Hm. destruct (processed b <? size); [|done]. destruct (last (freeBuffers b)) as [[|bo lv]|]; [by destruct (oerr b)| |done].
      destruct (oerr b); [done|]. destruct (read_full _ _ _); try done; injection Hm as <-; by eexists. }
    rewrite sum_list_with_app. cbn [sum_list_with]. unfold cost at 2. rewrite Hph. lia.
  - unfold run_worker in Hr. destruct (workers b !! i) as [w|] eqn:Hw; [|done]. pose proof (bo_workers _ _ _ _ _ H) as Hws.
    rewrite Forall_forall in Hws. destruct (Hws w) as (k & _ & _ & Hp); [by eapply list_elem_of_lookup_2|].
    unfold worker_run in Hr. destruct (w_phase w) as [|l off] eqn:Hph.
    + destruct (worker_hash _ _ _ w b) as [[w' b1]|] eqn:Eh; [|done]. cbn in Hr. injection Hr as <-.
      destruct (worker_hash_next _ _ _ _ _ _ _ Eh) as (Hph' & Hpr & _).
      assert (K' = K) as -> by (by eapply same_K; [exact H|exact H'|]). unfold measure. cbn [workers set_workers].
      pose proof (cost_replaced _ _ _ w' Hw) as Hc. unfold cost in Hc at 1 2. rewrite Hph, Hph' in Hc. specialize (Hc ltac:(lia)). lia.
    + destruct Hp as (_ & Hl & _). unfold worker_write in Hr.
      assert (0 < cost w)%nat as Hc0 by (unfold cost; rewrite Hph; lia). pose proof (cost_deleted _ _ _ Hw Hc0) as Hd.
      pose proof (cost_replaced _ _ _ (mkWorker (w_startOffset w) (workBuffer w) (Writing (S l) (off / 2))) Hw) as Hc.
      unfold cost in Hc at 1 2. rewrite Hph in Hc. cbn [w_phase] in Hc. specialize (Hc ltac:(lia)).
      repeat case_match; try done; simplify_eq; (assert (K' = K) as -> by (by eapply same_K; [exact H|exact H'|]));
        unfold measure; cbn [workers set_workers]; lia.
Qed.

(** A run has a bounded number of steps. *)
Lemma steps_bound broken T K fns aps b k b' : build_ok T K fns aps b ->
  nsteps (build_step Sum256 PadSingle Unpadded size unpaddedData broken) k b b' ->
  exists K' fns' aps', build_ok T K' fns' aps' b' /\ (k + measure K' b' <= measure K b)%nat.
Proof.
  intros H Hn1. revert K fns aps H. induction Hn1 as [b|k b b1 b' Hs Hn1 IH]; intros K fns aps H; [by exists K, fns, aps|].
  destruct (step_ok _ _ _ _ _ _ _ H Hs) as (K1 & fns1 & aps1 & H1). destruct (IH _ _ _ H1) as (K' & fns' & aps' & H' & Hle).
  pose proof (step_measure _ _ _ _ _ _ _ _ _ _ H H1 Hs). exists K', fns', aps'. split; [done|lia].
Qed.

(** Without an error the build is at its end or can go on without one. *)
Lemma progress_ok broken K fns aps b : build_ok threads K fns aps b -> oerr b = false ->
  (size <= processed b /\ workers b = []) \/
  exists b', build_step Sum256 PadSingle Unpadded size unpaddedData broken b b' /\ oerr b' = false.
Proof.
  intros H Ho. destruct (workers b) as [|w ws] eqn:Hw.
  - destruct (Z_lt_le_dec (processed b) size) as [Hlt|Hge]; [right|by left].
    destruct (main_spawns broken _ _ _ _ _ H Hlt) as (b' & E & _ & Ho').
    + pose proof (bo_threads _ _ _ _ _ H Ho) as Ht. pose proof threads_pos. rewrite Hw in Ht. intros Hf. rewrite Hf in Ht. cbn [length plus] in Ht. lia.
    + done.
    + exists b'. split; [by constructor|done].
  - right. destruct (run_ok false _ _ _ _ _ 0 w H) as (b' & _ & _ & E & _ & Ho'); [by rewrite Hw|].
    exists b'. split; [by eapply bs_worker|]. rewrite Ho'; done.
Qed.
End Build.

(** ** Streams that are too short *)

(** A run does not look at the rest of the stream. *)
Definition set_input (b : build) (x : bytes) : build :=
  mkBuild (processed b) x (freeBuffers b) (workers b) (apexBuf b) (out b) (oerr b).

Section Input.
Context (Sum256 PadSingle : bytes -> bytes) (Unpadded : Z -> Z) (size : Z) (unpaddedData : bool).

Lemma run_worker_input fault i b x :
  run_worker Sum256 PadSingle size unpaddedData fault i (set_input b x) =
  (fun b' => set_input b' x) <$> run_worker Sum256 PadSingle size unpaddedData fault i b.
Proof.
  unfold run_worker. cbn [workers set_input]. destruct (workers b !! i) as [w|]; [|done].
  unfold worker_run. destruct (w_phase w) as [|layer off].
  - unfold worker_hash. cbn [apexBuf set_input]. destruct (workBuffer w), (apexBuf b); try done.
    destruct (hashChunk _ _) as [buf|]; [|done]. destruct (last buf); [|done]. destruct (blit _ _ _); done.
  - unfold worker_write. destruct (workBuffer w !! layer); [|done]. destruct (layerOffset _ _); [|done]. destruct (_ || _); done.
Qed.

Lemma read_full_app broken k inp x rest e : read_full broken k inp = ReadAll x rest -> read_full broken k (inp ++ e) = ReadAll x (rest ++ e).
Proof.
  unfold read_full, ReadFull. case_decide as Hk; [|by destruct inp, broken]. intros [= <- <-]. rewrite decide_True by (rewrite length_app; lia).
  by rewrite take_app_le, drop_app_le by lia.
Qed.

Lemma read_full_exact broken x e : read_full broken (length x) (x ++ e) = ReadAll x e.
Proof. unfold read_full, ReadFull. rewrite decide_True by (rewrite length_app; lia). by rewrite take_app_length, drop_app_length. Qed.

Lemma read_full_eof broken k inp : read_full broken k inp = ReadEOF -> inp = [].
Proof. unfold read_full. destruct (ReadFull k inp) as [[? ?]|]; [done|]. by destruct inp. Qed.

(** What a goroutine gets where the stream has ended could have been in the stream. *)
Lemma main_iter_input broken b b' : main_iter Unpadded size unpaddedData broken b = Spawned b' ->
  exists junk, forall e, main_iter Unpadded size unpaddedData broken (set_input b (input b ++ junk ++ e)) = Spawned (set_input b' (input b' ++ e)).
Proof.
  unfold main_iter. cbn [processed freeBuffers oerr set_input input workers apexBuf out]. destruct (_ <? _); [|done].
  destruct (last (freeBuffers b)) as [[|bot levels]|]; [by destruct (oerr b)| |done]. destruct (oerr b); [done|].
  set (bot' := if unpaddedData then _ else bot). destruct (read_full broken (length bot') (input b)) as [x rest| |] eqn:E; [| |done]; intros [= <-].
  - exists []. intros e. cbn [app]. by rewrite (read_full_app _ _ _ _ _ _ E).
  - exists bot'. intros e. rewrite (read_full_eof _ _ _ E). cbn [app]. by rewrite read_full_exact.
Qed.

Lemma run_input broken k b b' e : nsteps (build_step Sum256 PadSingle Unpadded size unpaddedData broken) k b b' ->
  exists junk, nsteps (build_step Sum256 PadSingle Unpadded size unpaddedData broken) k (set_input b (input b ++ junk ++ e)) (set_input b' (input b' ++ e)).
Proof.
  induction 1 as [b|k b b1 b' Hs _ [junk IH]]; [exists []; apply nsteps_O|].
  destruct Hs as [b b1 Hm|fault i b b1 Hr].
  - destruct (main_iter_input _ _ _ Hm) as [j Hj]. exists (j ++ junk). rewrite <- app_assoc. eapply nsteps_l; [apply bs_main, Hj|]. exact IH.
  - exists junk. eapply nsteps_l; [|exact IH]. eapply (bs_worker _ _ _ _ _ _ fault i). rewrite run_worker_input, Hr. cbn. f_equal.
    f_equal. clear -Hr. unfold run_worker, worker_run, worker_hash, worker_write in Hr. repeat case_match; simplify_eq; cbn in *; simplify_eq; done.
Qed.

Lemma init_input chunkSize Get numCPU data x b0 : BuildTreeD_init chunkSize size false false false Get numCPU data = Some (Ok b0) ->
  input b0 = data /\ BuildTreeD_init chunkSize size false false false Get numCPU x = Some (Ok (set_input b0 x)).
Proof. unfold BuildTreeD_init. destruct (binTreeSize size); [|done]. by intros [= <-]. Qed.
(** What an iteration of the loop can do. *)
Lemma main_iter_cases broken b : [] ∉ freeBuffers b ->
  (oerr b = false /\ exists b', main_iter Unpadded size unpaddedData broken b = Spawned b') \/
  (oerr b = true /\ main_iter Unpadded size unpaddedData broken b = Return WriteError_) \/
  (oerr b = false /\ processed b < size /\ freeBuffers b <> [] /\ main_iter Unpadded size unpaddedData broken b = Return ReadError_) \/
  (size <= processed b /\ main_iter Unpadded size unpaddedData broken b = LoopDone) \/
  (freeBuffers b = [] /\ main_iter Unpadded size unpaddedData broken b = Sleep).
Proof.
  intros Hne. unfold main_iter. destruct (processed b <? size) eqn:Hlt; [|right; right; right; left; split; [by apply Z.ltb_ge|done]].
  apply Z.ltb_lt in Hlt. destruct (last (freeBuffers b)) as [wb|] eqn:Hl; [|apply last_None in Hl; tauto].
  apply last_Some in Hl as [free Hl]. destruct (oerr b) eqn:Ho; [tauto|].
  destruct wb as [|bot levels]; [destruct Hne; rewrite Hl; apply elem_of_app; right; by left|].
  assert (freeBuffers b <> []) by (rewrite Hl; by destruct free).
  destruct (read_full _ _ _); [left; split; [done|by eexists]..|]. right; right; left. done.
Qed.
End Input.

(** ** The promises *)

Section Results.
Context (Sum256 : bytes -> bytes) (Sum256_length : forall x, length (Sum256 x) = 32%nat).
Context (PadSingle : bytes -> bytes) (Unpadded : Z -> Z) (toCID : bytes -> option string).
(** A piece of [32 * 2 ^ n] bytes, goroutines for [32 * 2 ^ M] bytes. *)
Context (n M : nat) (Hn : (n < 56)%nat) (unpaddedData : bool).

Abbreviation chunkSize := (Z.of_nat (32 * 2 ^ M)).
Abbreviation size := (Z.of_nat (32 * 2 ^ n)).
Abbreviation bottom := (Z.of_nat (32 * 2 ^ Nat.min M n)).
Abbreviation step := (build_step Sum256 PadSingle Unpadded size unpaddedData).
Abbreviation tree_data_of := (tree_data PadSingle Unpadded unpaddedData bottom size).

Context (Hpads : unpaddedData = true -> pads PadSingle Unpadded bottom).
(** The bytes the build reads from the stream. *)
Abbreviation needed := (2 ^ (n - Nat.min M n) * chunk_input Unpadded unpaddedData bottom)%nat.
Context (Get : nat -> Z -> bytes) (Hget : forall i len, 0 <= len -> Z.of_nat (length (Get i len)) = len) (numCPU : Z).

Lemma min_chunk : Z.min chunkSize size = bottom.
Proof.
  destruct (Nat.le_ge_cases M n) as [H|H].
  - rewrite (Nat.min_l M n H). assert (2 ^ M <= 2 ^ n)%nat by (apply Nat.pow_le_mono_r; lia). lia.
  - rewrite (Nat.min_r M n H). assert (2 ^ n <= 2 ^ M)%nat by (apply Nat.pow_le_mono_r; lia). lia.
Qed.

Lemma tree_data_app data rest : (needed <= length data)%nat -> tree_data_of (data ++ rest) = tree_data_of data.
Proof.
  intros Hd. unfold tree_data. f_equal. apply list_fmap_ext. intros i k Hk. apply lookup_seq in Hk as [-> Hk]. cbn [plus].
  rewrite (size_chunks Unpadded n (Nat.min M n) (Nat.le_min_r _ _) Hn unpaddedData data Hd), Nat2Z.id in Hk.
  f_equal. set (u := chunk_input _ _ _) in *. rewrite drop_app_le by nia. rewrite take_app_le; [done|]. rewrite length_drop. nia.
Qed.

Lemma last_node ns : nodes_ok ns -> length ns = (2 ^ S n - 1)%nat ->
  slice (concat ns) (Z.of_nat (length (concat ns)) - NODE_SIZE) NODE_SIZE = Some (ns !!! (2 ^ S n - 2)%nat).
Proof.
  intros Hok Hnl. pose proof (Nat.pow_succ_r' 2 n). pose proof (pow_pos n). rewrite concat_nodes_length, Hnl by done.
  replace (Z.of_nat (32 * (2 ^ S n - 1)) - NODE_SIZE) with (Z.of_nat (2 ^ S n - 2) * NODE_SIZE) by (unfold NODE_SIZE; lia).
  by rewrite slice_node by (done || lia).
Qed.

(** What holds in every state of a run that has taken [k] steps, whatever is left
    of the stream. *)
Record run_facts (Get' : Z -> bytes) (data : bytes) (k : nat) (b : build) : Prop := {
  rf_bound : (k <= 2 ^ (n - Nat.min M n) * (Nat.min M n + 4))%nat;
  rf_worker : forall i w, workers b !! i = Some w -> (forall fault, exists b', run_worker Sum256 PadSingle size unpaddedData fault i b = Some b') /\
    (oerr b = false -> exists b', run_worker Sum256 PadSingle size unpaddedData false i b = Some b' /\ oerr b' = false);
  rf_buffers : ([] ∉ freeBuffers b) /\ (oerr b = false -> workers b = [] -> freeBuffers b <> []);
  rf_finish : oerr b = false -> size <= processed b -> workers b = [] -> forall faults,
    exists file ok root, finish Sum256 toCID size faults b =
      Some (file, if ok : bool then match toCID root with Some c => Ok c | None => Err CidError end else Err WriteError_) /\
    (faults = [] -> ok = true) /\
    (ok = true -> build_tree Sum256 Get' size (tree_data_of data) = Ok file /\ slice file (Z.of_nat (length file) - NODE_SIZE) NODE_SIZE = Some root)
}.

(** A run on a stream that is long enough. *)
Lemma long_run (Get' : Z -> bytes) (broken : bool) (data : bytes) (b0 b : build) (k : nat) :
  (forall len, 0 <= len -> Z.of_nat (length (Get' len)) = len) -> (needed <= length data)%nat ->
  BuildTreeD_init chunkSize size false false false Get numCPU data = Some (Ok b0) -> nsteps (step broken) k b0 b ->
  run_facts Get' data k b /\
  (oerr b = false -> processed b < size -> freeBuffers b <> [] -> exists b', main_iter Unpadded size unpaddedData broken b = Spawned b').
Proof.
  intros Hget' Hdata Hinit Hrun. set (m := Nat.min M n) in *. assert (m <= n)%nat as Hmn by lia.
  destruct (leaves_exist PadSingle Unpadded n m Hmn Hn unpaddedData Hpads data Hdata) as (leaves & Hok & Hl & E & Hchunk).
  destruct (build_tree_ref Sum256 Sum256_length Get' n leaves ltac:(lia) Hget' Hok Hl) as (ns & Et & Hnok & Hnl & Href).
  destruct (init_ok Sum256 PadSingle Unpadded n m Hmn Hn unpaddedData data Hdata leaves Hl ns Hnl chunkSize min_chunk Get Hget numCPU b0 Hinit)
    as (fns0 & aps0 & H0).
  eapply steps_bound with (leaves := leaves) (ns := ns) (chunkSize := chunkSize) (HchunkSize := min_chunk) in Hrun as (K & fns & aps & H & Hk); [|done..]. split; [constructor|].
  - unfold measure in Hk. rewrite Nat.sub_0_r in Hk. enough (workers b0 = []) as Hw by (rewrite Hw in Hk; cbn [sum_list_with] in Hk; rewrite Nat.add_0_r in Hk; by eapply Nat.le_trans, Hk; apply Nat.le_add_r).
    unfold BuildTreeD_init in Hinit. destruct (binTreeSize _); [|done]. by injection Hinit as <-.
  - intros i w Hw. split; [intros fault|intros Ho].
    + eapply run_ok with (fault := fault) (leaves := leaves) (ns := ns) in H as (b' & _ & _ & Hr & _); [by exists b'|done..].
    + eapply run_ok with (fault := false) (leaves := leaves) (ns := ns) in H as (b' & _ & _ & Hr & _ & Ho'); [|done..]. exists b'. split; [done|]. by rewrite Ho'.
  - split.
    + intros Hin. pose proof (bo_free _ _ _ _ _ _ _ _ _ _ _ _ _ _ H) as Hf. rewrite Forall_forall in Hf. destruct (Hf _ Hin) as (nss & [Hs _] & Hz). by destruct nss.
    + intros Ho Hw Hf. pose proof (bo_threads _ _ _ _ _ _ _ _ _ _ _ _ _ _ H Ho) as Ht. rewrite Hw, Hf in Ht. cbn in Ht.
      unfold maxThreads in Ht. lia.
  - intros Ho Hsz Hw faults.
    eapply build_finish_ok with (leaves := leaves) (ns := ns) (chunkSize := chunkSize) (HchunkSize := min_chunk) (toCID := toCID) (faults := faults) in H as (file & ok & Hf & Hok1 & Ef); [|done..].
    exists file, ok, (ref Sum256 leaves n 0). split; [done|]. split; [done|]. intros ->. rewrite (Hf eq_refl). unfold m in E. rewrite <- E, Et. split; [done|].
    rewrite (last_node ns) by done. f_equal. rewrite <- (Href n 0%nat) by (lia || (rewrite Nat.sub_diag; cbn; lia)).
    f_equal. unfold level_pos. replace (S n - n)%nat with 1%nat by lia. cbn. lia.
  - intros Ho Hlt Hne. eapply main_spawns with (leaves := leaves) (ns := ns) in H as (b' & Hm & _); [by exists b'|done..].
Qed.
(** A run on any stream is one on a stream that is long enough. *)
Lemma any_run (Get' : Z -> bytes) (broken : bool) (data : bytes) (b0 b : build) (k : nat) :
  (forall len, 0 <= len -> Z.of_nat (length (Get' len)) = len) ->
  BuildTreeD_init chunkSize size false false false Get numCPU data = Some (Ok b0) -> nsteps (step broken) k b0 b ->
  exists rest, run_facts Get' (data ++ rest) k b.
Proof.
  intros Hget' Hinit Hrun. destruct (run_input _ _ _ _ _ _ _ _ _ (replicate needed x00) Hrun) as [junk Hrun'].
  exists (junk ++ replicate needed x00). destruct (init_input _ _ _ _ _ (data ++ junk ++ replicate needed x00) _ Hinit) as [Ei Hinit'].
  rewrite Ei in Hrun'. assert (needed <= length (data ++ junk ++ replicate needed x00))%nat as Hlong
    by (rewrite !length_app, length_replicate; generalize needed; intros; lia).
  destruct (long_run Get' broken (data ++ junk ++ replicate needed x00) _ _ _ Hget' Hlong Hinit' Hrun') as [[H1 H2 H3 H4] _].
  constructor; [exact H1| |exact H3|exact H4]. intros i w Hw. destruct (H2 i w Hw) as [Ha Hb]. split.
  - intros fault. destruct (Ha fault) as [b' E]. rewrite run_worker_input in E. destruct (run_worker _ _ _ _ _ _ b) as [b1|]; [by exists b1|done].
  - intros Ho. destruct (Hb Ho) as (b' & E & Ho'). rewrite run_worker_input in E. destruct (run_worker _ _ _ _ _ _ b) as [b1|]; [|done].
    injection E as <-. by exists b1.
Qed.

(** C9: the parallel build computes the same tree as the sequential one: for a
    piece of a power of two (less than 2^61 bytes), when the files could be
    created, whatever the stream, the size of the chunks, the number of goroutines
    and the contents of the buffers of the pool, in every interleaving of the
    goroutines and with any failures of writes and reads, if [BuildTreeD] returns a
    commitment then the file is, byte for byte, the buffer that the memory tree
    builder makes of the (padded) data, and the commitment is that of the last
    node.  The data is the stream when the stream has the bytes of the piece; when
    it ends before, it is the stream followed by what the buffers of the pool held:
    the code takes the end of the stream at the border of a chunk for a full read
    ([short_stream_accepted]).  After an early return with an error the goroutines
    that still run are not followed. *)
Theorem treed_equiv (Get' : Z -> bytes) (broken : bool) (data : bytes) (b0 b : build) (faults : list bool) (file : bytes) (c : string) :
  (forall len, 0 <= len -> Z.of_nat (length (Get' len)) = len) ->
  BuildTreeD_init chunkSize size false false false Get numCPU data = Some (Ok b0) ->
  rtc (step broken) b0 b -> build_returns Sum256 toCID size faults b (file, Ok c) ->
  exists rest, ((needed <= length data)%nat -> tree_data_of (data ++ rest) = tree_data_of data) /\
    build_tree Sum256 Get' size (tree_data_of (data ++ rest)) = Ok file /\
    exists root, slice file (Z.of_nat (length file) - NODE_SIZE) NODE_SIZE = Some root /\ toCID root = Some c.
Proof.
  intros Hget' Hinit Hrun (Hsz & Hw & Hfin). apply rtc_nsteps in Hrun as [k Hrun].
  destruct (any_run Get' broken data b0 b k Hget' Hinit Hrun) as [rest H]. exists rest. split; [apply tree_data_app|].
  destruct (oerr b) eqn:Ho; [unfold finish in Hfin; by rewrite Ho in Hfin|].
  destruct (rf_finish _ _ _ _ H Ho Hsz Hw faults) as (file' & ok & root & E & _ & Hok). rewrite E in Hfin.
  destruct ok; [|by injection Hfin]. destruct (toCID root) eqn:Hc; [|by injection Hfin]. injection Hfin as -> ->.
  destruct (Hok eq_refl) as [Ht Hr]. split; [done|]. by exists root.
Qed.

(** C39: the build makes progress and does not panic.  Whatever the stream holds
    and whatever fails, in every state of a run: the number of goroutines started
    and of hashings and writes done is bounded per chunk (an iteration of the loop
    that only waits is not counted); no goroutine panics, nor does an iteration of
    the loop or, once all is done, the end of [BuildTreeD]; the loop waits only while
    no buffer is free.  When no goroutine is running, the loop starts one, or
    returns an error, or is done and [BuildTreeD] returns, with the commitment
    unless a write fails or it has no encoding; the one other case is a build in
    which a write has failed and all buffers went with it: there the loop waits
    for ever ([write_error_sleeps]).  While no write has failed a running goroutine
    can go on, and a read fails only on a stream that is too short. *)
Theorem treed_returns (broken : bool) (data : bytes) (b0 b : build) (k : nat) :
  BuildTreeD_init chunkSize size false false false Get numCPU data = Some (Ok b0) ->
  nsteps (step broken) k b0 b ->
  (k <= 2 ^ (n - Nat.min M n) * (Nat.min M n + 4))%nat /\
  (forall fault i w, workers b !! i = Some w -> exists b', run_worker Sum256 PadSingle size unpaddedData fault i b = Some b') /\
  (oerr b = false -> workers b <> [] -> exists b', step broken b b' /\ oerr b' = false) /\
  (workers b = [] ->
     (exists b', main_iter Unpadded size unpaddedData broken b = Spawned b') \/
     (oerr b = true /\ main_iter Unpadded size unpaddedData broken b = Return WriteError_) \/
     (oerr b = false /\ (length data < needed)%nat /\ main_iter Unpadded size unpaddedData broken b = Return ReadError_) \/
     (main_iter Unpadded size unpaddedData broken b = LoopDone /\
      forall faults, exists file r, build_returns Sum256 toCID size faults b (file, r) /\ (oerr b = false -> faults = [] -> r <> Err WriteError_)) \/
     (oerr b = true /\ freeBuffers b = [] /\ main_iter Unpadded size unpaddedData broken b = Sleep)) /\
  main_iter Unpadded size unpaddedData broken b <> MainPanic.
Proof.
  intros Hinit Hrun. destruct (any_run (Get 0) broken data b0 b k (Hget 0) Hinit Hrun) as [rest H].
  destruct (rf_buffers _ _ _ _ H) as [Hne Hfree]. split; [apply (rf_bound _ _ _ _ H)|].
  split; [intros fault i w Hw; by apply (rf_worker _ _ _ _ H i w Hw)|]. split.
  { intros Ho Hw. destruct (workers b) as [|w ws] eqn:Ew; [done|].
    destruct (proj2 (rf_worker _ _ _ _ H 0%nat w ltac:(by rewrite Ew)) Ho) as (b' & E & Ho'). exists b'. split; [by eapply bs_worker|done]. }
  destruct (main_iter_cases Unpadded size unpaddedData broken b Hne) as [[Ho [b' E]]|[[Ho E]|[(Ho & Hlt & Hf & E)|[[Hsz E]|[Hf E]]]]]; rewrite E; (split; [intros Hw|done]).
  - left. by exists b'.
  - right; left. done.
  - do 2 right; left. split; [done|]. split; [|done]. destruct (le_lt_dec needed (length data)) as [Hd|]; [|done].
    destruct (proj2 (long_run (Get 0) broken data b0 b k (Hget 0) Hd Hinit Hrun) Ho Hlt Hf) as [b' E']. congruence.
  - do 3 right; left. split; [done|]. intros faults. destruct (oerr b) eqn:Ho.
    + exists (out b), (Err WriteError_). split; [|done]. split; [done|]. split; [done|]. unfold finish. by rewrite Ho.
    + destruct (rf_finish _ _ _ _ H Ho Hsz Hw faults) as (file & ok & root & Ef & Hok & _). eexists _, _. split; [by split|].
      intros _ ->. rewrite Hok by done. by destruct (toCID root).
  - do 4 right. split; [|done]. destruct (oerr b) eqn:Ho; [done|]. by destruct (Hfree eq_refl Hw).
Qed.
End Results.

(** ** A piece of four chunks *)

(** Runs a schedule: the loop, or a goroutine with or without a failure. *)
Fixpoint run_sched Sum256 PadSingle Unpadded (size : Z) (unpaddedData : bool) (ops : list (option (nat * bool))) (b : build) : option build :=
  match ops with
  | [] => Some b
  | op :: ops =>
      match match op with
            | None => match main_iter Unpadded size unpaddedData false b with Spawned b' => Some b' | _ => None end
            | Some (i, fault) => run_worker Sum256 PadSingle size unpaddedData fault i b
            end with
      | None => None
      | Some b' => run_sched Sum256 PadSingle Unpadded size unpaddedData ops b'
      end
  end.

Lemma run_sched_nsteps Sum256 PadSingle Unpadded size unpaddedData ops b b' :
  run_sched Sum256 PadSingle Unpadded size unpaddedData ops b = Some b' ->
  nsteps (build_step Sum256 PadSingle Unpadded size unpaddedData false) (length ops) b b'.
Proof.
  revert b. induction ops as [|op ops IH]; intros b; cbn [run_sched length]; [intros [= ->]; apply nsteps_O|].
  destruct op as [[i fault]|].
  - destruct (run_worker _ _ _ _ _ _ _) as [b1|] eqn:E; [|done]. intros H. eapply nsteps_l; [by eapply bs_worker|by apply IH].
  - destruct (main_iter _ _ _ _ _) eqn:E; try done. intros H. eapply nsteps_l; [by apply bs_main|by apply IH].
Qed.

Lemma run_sched_steps Sum256 PadSingle Unpadded size unpaddedData ops b b' :
  run_sched Sum256 PadSingle Unpadded size unpaddedData ops b = Some b' ->
  rtc (build_step Sum256 PadSingle Unpadded size unpaddedData false) b b'.
Proof. intros H. apply rtc_nsteps. eexists. by apply run_sched_nsteps. Qed.

(** Chunks of 128 bytes, of which 127 come from the stream. *)
Definition ex_pad (x : bytes) : bytes := x ++ [x00].
Definition ex_unpadded (p : Z) : Z := p - p / 128.
Definition ex_cid (root : bytes) : option string := Some "cid"%string.
Definition ex_pool (i : nat) (len : Z) : bytes := ex_get len.
Definition ex_stream : bytes := concat ((fun i => le_enc 127 (i * 12345)) <$> [1; 2; 3; 4]).

Definition ex_build (numCPU : Z) (data : bytes) : build :=
  match BuildTreeD_init 128 512 false false false ex_pool numCPU data with
  | Some (Ok b) => b
  | _ => mkBuild 0 [] [] [] [] [] true
  end.

(** Up to two goroutines at a time, with their writes interleaved. *)
Definition ex_sched : list (option (nat * bool)) :=
  let w (i : nat) := Some (i, false) in
  [None; None; w 1; w 0; w 1; w 1; w 0; w 1; w 1; None; w 0; w 0; w 1; w 0; None; w 1; w 0; w 1; w 0; w 1; w 0; w 1; w 0; w 0]%nat.

Definition ex_end : build :=
  match run_sched ex_sum ex_pad ex_unpadded 512 true ex_sched (ex_build 2 ex_stream) with
  | Some b => b
  | None => mkBuild 0 [] [] [] [] [] true
  end.

Definition ex_file : bytes := match finish ex_sum ex_cid 512 [] ex_end with Some (f, _) => f | None => [] end.

Lemma ex_pads : true = true -> pads ex_pad ex_unpadded (Z.of_nat (32 * 2 ^ Nat.min 2 4)).
Proof.
  intros _. change (Z.of_nat (32 * 2 ^ Nat.min 2 4)) with 128. unfold pads. change (ex_unpadded 128) with 127. split; [lia|].
  intros x Hx. unfold ex_pad. rewrite length_app, Hx. done.
Qed.

Lemma ex_pool_length i len : 0 <= len -> Z.of_nat (length (ex_pool i len)) = len.
Proof. apply ex_get_length. Qed.

Lemma ex_init : BuildTreeD_init (Z.of_nat (32 * 2 ^ 2)) (Z.of_nat (32 * 2 ^ 4)) false false false ex_pool 2 ex_stream = Some (Ok (ex_build 2 ex_stream)).
Proof. vm_compute. reflexivity. Qed.

Lemma ex_build_nsteps : nsteps (build_step ex_sum ex_pad ex_unpadded (Z.of_nat (32 * 2 ^ 4)) true false) 24 (ex_build 2 ex_stream) ex_end.
Proof. apply (run_sched_nsteps _ _ _ _ _ ex_sched). vm_compute. reflexivity. Qed.

Lemma ex_build_run : rtc (build_step ex_sum ex_pad ex_unpadded (Z.of_nat (32 * 2 ^ 4)) true false) (ex_build 2 ex_stream) ex_end.
Proof. apply rtc_nsteps. eexists. exact ex_build_nsteps. Qed.

Lemma treed_equiv_witness :
  exists rest, ((2 ^ (4 - Nat.min 2 4) * chunk_input ex_unpadded true (Z.of_nat (32 * 2 ^ Nat.min 2 4)) <= length ex_stream)%nat ->
      tree_data ex_pad ex_unpadded true 128 512 (ex_stream ++ rest) = tree_data ex_pad ex_unpadded true 128 512 ex_stream) /\
    build_tree ex_sum ex_get 512 (tree_data ex_pad ex_unpadded true 128 512 (ex_stream ++ rest)) = Ok ex_file /\
    exists root, slice ex_file (Z.of_nat (length ex_file) - NODE_SIZE) NODE_SIZE = Some root /\ ex_cid root = Some "cid"%string.
Proof.
  apply (treed_equiv ex_sum ex_sum_length ex_pad ex_unpadded ex_cid 4 2 ltac:(lia) true ex_pads ex_pool ex_pool_length 2
           ex_get false ex_stream (ex_build 2 ex_stream) ex_end [] ex_file "cid"%string ex_get_length ex_init ex_build_run).
  split; [vm_compute; discriminate|]. split; vm_compute; reflexivity.
Defined.

(** The whole run of the example: at its end [BuildTreeD] returns a commitment. *)
Lemma treed_returns_witness :
  exists file r, build_returns ex_sum ex_cid 512 [] ex_end (file, r) /\ r <> Err WriteError_.
Proof.
  destruct (treed_returns ex_sum ex_sum_length ex_pad ex_unpadded ex_cid 4 2 ltac:(lia) true ex_pads ex_pool ex_pool_length 2
           false ex_stream (ex_build 2 ex_stream) ex_end 24 ex_init ex_build_nsteps) as (_ & _ & _ & H & _).
  assert (main_iter ex_unpadded 512 true false ex_end = LoopDone) as Hm by (vm_compute; reflexivity).
  destruct (H ltac:(vm_compute; reflexivity)) as [[b' E]|[[_ E]|[(_ & _ & E)|[[_ E]|(_ & _ & E)]]]];
    [clear -Hm E; exfalso; change (Z.of_nat (32 * 2 ^ 4)) with 512 in E; rewrite Hm in E; discriminate..| |
     clear -Hm E; exfalso; change (Z.of_nat (32 * 2 ^ 4)) with 512 in E; rewrite Hm in E; discriminate].
  destruct (E []) as (file & r & Hr & Hne). exists file, r. split; [exact Hr|]. apply Hne; [vm_compute; reflexivity|reflexivity].
Defined.

(** A write error that takes the last buffer with it: the goroutine does not
    return its buffer, so the loop sleeps for ever and never looks at the error. *)
Definition ex_stuck : build :=
  match run_sched ex_sum ex_pad ex_unpadded 512 true [None; Some (0, false); Some (0, true)]%nat (ex_build 0 ex_stream) with
  | Some b => b
  | None => ex_end
  end.

Lemma write_error_sleeps :
  rtc (build_step ex_sum ex_pad ex_unpadded 512 true false) (ex_build 0 ex_stream) ex_stuck /\
  oerr ex_stuck = true /\ processed ex_stuck < 512 /\
  main_iter ex_unpadded 512 true false ex_stuck = Sleep /\
  forall b', ~ build_step ex_sum ex_pad ex_unpadded 512 true false ex_stuck b'.
Proof.
  split; [apply run_sched_steps with [None; Some (0, false); Some (0, true)]%nat; vm_compute; reflexivity|].
  split; [vm_compute; reflexivity|]. split; [vm_compute; reflexivity|].
  assert (main_iter ex_unpadded 512 true false ex_stuck = Sleep) as Hs by (vm_compute; reflexivity). split; [done|].
  assert (workers ex_stuck = []) as Hw by (vm_compute; reflexivity).
  intros b' Hb. inversion Hb as [x y Hm|fault i x y Hr]; subst; [congruence|]. unfold run_worker in Hr. by rewrite Hw in Hr.
Qed.

(** A stream that ends at the border of a chunk is not reported: the rest of the
    tree is made of what the buffers of the pool contained. *)
Lemma short_stream_accepted :
  exists b, run_sched ex_sum ex_pad ex_unpadded 512 false ex_sched (ex_build 2 []) = Some b /\
    option_map snd (finish ex_sum ex_cid 512 [] b) = Some (Ok "cid"%string).
Proof.
  destruct (run_sched ex_sum ex_pad ex_unpadded 512 false ex_sched (ex_build 2 [])) as [b|] eqn:E; [|vm_compute in E; discriminate].
  exists b. split; [done|]. vm_compute in E. injection E as <-. vm_compute. reflexivity.
Qed.
