(* ===== verification/Promise.v ===== *)
(** * Promises ([lib/promise/promise.go])

    The pollers of the seal pipeline are promises for an [AddTaskFunc]: [Set]
    gives the value once, [Val] waits for it, [IsSet] asks whether it is there. *)

From stdpp Require Import base gmap sets list strings.
From Stdlib Require Import ZArith Lia.
From S2P Require Import Prelude.

(** A channel that is only ever closed. *)
Inductive chan := Open | Closed.

#[export] Instance chan_eq_dec : EqDecision chan.
Proof. solve_decision. Defined.

Record Promise (T : Type) := mkPromise { pr_val : option T; pr_done : option chan }.
Arguments mkPromise {T}.
Arguments pr_val {T}.
Arguments pr_done {T}.

Section Promise.
Context {T : Type}.
Implicit Types p : Promise T.

Definition zero : Promise T := mkPromise None None.

(** [Set]; [None] is the panic of closing a closed channel. *)
Definition Set_ (v : T) p : option (Promise T) :=
  match pr_done p with
  | Some Closed => None
  | Some Open | None => Some (mkPromise (Some v) (Some Closed))
  end.

(** [Val]: the first critical section makes the channel; the call returns when
    the channel is closed, with the value of that moment. *)
Definition Val_enter p : Promise T :=
  match pr_done p with Some _ => p | None => mkPromise (pr_val p) (Some Open) end.

Definition Val_return p : option (option T) :=
  if decide (pr_done p = Some Closed) then Some (pr_val p) else None.

Definition IsSet p : bool := match pr_done p with Some _ => true | None => false end.

(** A history of calls, in the order of their critical sections. *)
Inductive call := CallSet (v : T) | CallVal.

Fixpoint calls (l : list call) p : option (Promise T) :=
  match l with
  | [] => Some p
  | CallSet v :: l' => match Set_ v p with Some p' => calls l' p' | None => None end
  | CallVal :: l' => calls l' (Val_enter p)
  end.

(** The values given so far. *)
Definition given (l : list call) : list T :=
  omap (fun c => match c with CallSet v => Some v | CallVal => None end) l.

(** The state of a promise after a history. *)
Lemma calls_spec l p p' : calls l p = Some p' -> pr_done p <> Some Closed ->
  match given l with
  | [] => pr_val p' = pr_val p /\ pr_done p' = (if decide (l = []) then pr_done p else Some Open)
  | [v] => pr_val p' = Some v /\ pr_done p' = Some Closed
  | _ => False
  end.
Proof.
  revert p. induction l as [|c l IH]; intros p E Hp; cbn [calls] in E.
  - injection E as <-. cbn. done.
  - destruct c as [v|]; cbn [given].
    + unfold given. cbn. destruct (Set_ v p) as [p1|] eqn:E1; [|done].
      assert (p1 = mkPromise (Some v) (Some Closed)) as ->.
      { unfold Set_ in E1. destruct (pr_done p) as [[]|]; congruence. }
      assert (forall q, pr_done q = Some Closed -> calls l q = Some p' -> given l = [] /\ p' = q) as Hclosed.
      { clear. induction l as [|c l IH]; intros q Hq E; cbn [calls] in E; [by injection E|].
        destruct c as [w|]; cbn [calls] in E.
        - unfold Set_ in E. by rewrite Hq in E.
        - unfold Val_enter in E. rewrite Hq in E. destruct (IH q Hq E) as [Hg ->]. done. }
      destruct (Hclosed (mkPromise (Some v) (Some Closed)) eq_refl E) as [Hg ->]. unfold given in Hg. rewrite Hg. done.
    + unfold given. cbn. specialize (IH (Val_enter p) E).
      assert (pr_done (Val_enter p) = Some Open /\ pr_val (Val_enter p) = pr_val p) as [Hd Hv].
      { unfold Val_enter. destruct (pr_done p) as [[]|] eqn:Ed; [by rewrite Ed|done|done]. }
      rewrite Hd, Hv in IH. specialize (IH ltac:(done)). unfold given in IH.
      destruct (omap _ l) as [|w [|w2 ws]]; [|done|done]. destruct IH as [-> ->]. split; [done|]. by case_decide.
Qed.

(** a promise used from its zero value, without panic: it was given at most
    one value, a waiting [Val] returns exactly when it was given one and returns
    that value, and [IsSet] is true as soon as any call was made, so also when
    only [Val] was called and no value is there yet. *)
Theorem promise_history (l : list call) p : calls l zero = Some p ->
  (length (given l) <= 1)%nat /\
  Val_return p = (match given l with v :: _ => Some (Some v) | [] => None end) /\
  IsSet p = negb (bool_decide (l = [])).
Proof.
  intros E. pose proof (calls_spec l zero p E ltac:(done)) as Hs. unfold Val_return, IsSet.
  destruct (given l) as [|v [|w vs]] eqn:Eg; [| |done].
  - destruct Hs as [_ Hd]. split; [cbn; lia|]. rewrite Hd. case_decide as Hl.
    + subst l. split; [by rewrite decide_False by done|]. by rewrite bool_decide_eq_true_2.
    + split; [by rewrite decide_False by done|]. by rewrite bool_decide_eq_false_2.
  - destruct Hs as [Hv Hd]. split; [cbn; lia|]. rewrite Hd, decide_True, Hv by done. split; [done|].
    rewrite bool_decide_eq_false_2; [done|]. by intros ->.
Qed.

End Promise.

(** [IsSet] after a [Val] that still waits. *)
Lemma promise_history_witness :
  exists p : Promise Z, calls [CallVal] zero = Some p /\ Val_return p = None /\ IsSet p = true.
Proof.
  exists (mkPromise None (Some Open)). split; [reflexivity|].
  destruct (promise_history [CallVal] (mkPromise (T := Z) None (Some Open)) eq_refl) as (_ & Hv & Hi).
  split; [exact Hv|exact Hi].
Defined.
