(* ===== verification/BatchTimeout.v ===== *)
(** * Batching of precommit and commit messages ([tasks/seal/batch_timeout.go])

    Grouping the candidate rows into batches, the decision whether a batch
    fires, and the limits on its size. *)

From stdpp Require Import base gmap sets list strings sorting.
From Stdlib Require Import ZArith Lia SpecFloat.
From S2P Require Import Prelude Float64.

(** ** When a batch fires *)

(** The [Reason] of a result, with the values that are printed in it. *)
Inductive fire_reason :=
| FULL (size max : Z)
| SLACK (minStartEpoch : Z)
| TIMEOUT (earliestReady : time)
| NONE.

Record BatchEvalResult := mkEval { ShouldFire : bool; Reason : fire_reason }.

Definition EvalBatchTimeout (earliestReady : time) (timeout : duration)
    (minStartEpoch slackEpochs currentHeight : Z) (now : time) (batchSize maxBatch : Z) : BatchEvalResult :=
  if (maxBatch >? 0) && (batchSize >=? maxBatch) then mkEval true (FULL batchSize maxBatch)
  else
    let condSlack := i64 (minStartEpoch - slackEpochs) <=? currentHeight in
    let condTimeout := negb (time_before now (time_add earliestReady timeout)) in
    if condSlack then mkEval true (SLACK minStartEpoch)
    else if condTimeout then mkEval true (TIMEOUT earliestReady)
    else mkEval false NONE.

Definition f64_add (a b : float64) : float64 := SFadd 53 1024 a b.

(** [math.Ceil] of a finite float, as an integer. *)
Definition f64_ceil (f : float64) : Z :=
  match f with
  | S754_finite s m e =>
      let v := if s then - Z.pos m else Z.pos m in
      if 0 <=? e then v * 2 ^ e else - ((- v) / 2 ^ (- e))
  | _ => 0
  end.

(** [time.Duration.Seconds] *)
Definition Seconds (d : duration) : float64 :=
  f64_add (f64_of_Z (Z.quot d Second)) (f64_div (f64_of_Z (Z.rem d Second)) (f64_of_Z 1000000000)).

Definition SlackEpochs (slack : duration) (blockDelaySecs : Z) : Z :=
  i64 (f64_ceil (f64_div (Seconds slack) (f64_of_Z blockDelaySecs))).

Definition ClampMaxBatch (configured protocolMax : Z) : Z :=
  if (configured >? 0) && (configured <? protocolMax) then configured else protocolMax.

(** ** Grouping *)

Record BatchRow := mkRow {
  br_sp : Z;
  br_sector : Z;
  br_start : Z;
  br_ready : time;
  br_proof : Z;
  br_index : Z
}.

Record BatchCandidate := mkCand {
  bc_sp : Z;
  bc_proof : Z;
  bc_sectors : list Z;
  bc_min_start : Z;
  bc_earliest : time
}.

(** A candidate without sectors, as one is started from a row. *)
Definition new_candidate (r : BatchRow) : BatchCandidate :=
  mkCand (br_sp r) (br_proof r) [] (br_start r) (br_ready r).

Definition add_row (cur : BatchCandidate) (r : BatchRow) : BatchCandidate :=
  mkCand (bc_sp cur) (bc_proof cur) (bc_sectors cur ++ [br_sector r])
    (if br_start r <? bc_min_start cur then br_start r else bc_min_start cur)
    (if time_before (br_ready r) (bc_earliest cur) then br_ready r else bc_earliest cur).

(** The loop: the batches so far, the current one and its index. *)
Fixpoint group_loop (rows : list BatchRow) (batches : list BatchCandidate) (cur : BatchCandidate) (curIdx : Z)
    : list BatchCandidate :=
  match rows with
  | [] => batches ++ [cur]
  | r :: rows' =>
      let sameGroup := (br_sp r =? bc_sp cur) && (br_proof r =? bc_proof cur) && (br_index r =? curIdx) in
      if sameGroup then group_loop rows' batches (add_row cur r) curIdx
      else group_loop rows' (batches ++ [cur]) (add_row (new_candidate r) r) (br_index r)
  end.

Definition GroupBatchRows (rows : list BatchRow) : list BatchCandidate :=
  match rows with
  | [] => []
  | r :: _ => group_loop rows [] (new_candidate r) (br_index r)
  end.

(** ** What the groups are *)

(** A candidate summarises a list of rows of one miner, proof type and index. *)
Record summarises (rows : list BatchRow) (idx : Z) (c : BatchCandidate) : Prop := {
  sm_sectors : bc_sectors c = br_sector <$> rows;
  sm_same : forall r, r ∈ rows -> br_sp r = bc_sp c /\ br_proof r = bc_proof c /\ br_index r = idx;
  sm_min : forall r, r ∈ rows -> bc_min_start c <= br_start r;
  sm_earliest : forall r, r ∈ rows -> bc_earliest c <= br_ready r
}.

(** Both minima are attained. *)
Definition attained (rows : list BatchRow) (c : BatchCandidate) : Prop :=
  (exists r, r ∈ rows /\ br_start r = bc_min_start c) /\ (exists r, r ∈ rows /\ br_ready r = bc_earliest c).

Lemma add_row_summarises rows idx c r : summarises rows idx c ->
  br_sp r = bc_sp c -> br_proof r = bc_proof c -> br_index r = idx -> summarises (rows ++ [r]) idx (add_row c r).
Proof.
  intros [Hs Hsm Hm He] H1 H2 H3. unfold add_row. constructor; cbn.
  - by rewrite fmap_app, Hs.
  - intros x [Hx| ->%list_elem_of_singleton]%elem_of_app; [by apply Hsm|done].
  - intros x [Hx| ->%list_elem_of_singleton]%elem_of_app; [specialize (Hm x Hx)|]; case_ifs; bool_props; lia.
  - unfold time_before. intros x [Hx| ->%list_elem_of_singleton]%elem_of_app; [specialize (He x Hx)|];
      case_ifs; bool_props; lia.
Qed.

Lemma add_row_attained rows c r : (rows = [] -> c = new_candidate r) -> (rows <> [] -> attained rows c) ->
  attained (rows ++ [r]) (add_row c r).
Proof.
  intros Hn Ha. assert (r ∈ rows ++ [r]) as Hr by (apply elem_of_app; right; by left).
  destruct rows as [|x rows].
  - rewrite (Hn eq_refl). unfold attained, add_row, new_candidate, time_before. cbn.
    split; exists r; (split; [by left|]); case_ifs; lia.
  - destruct (Ha ltac:(done)) as [(a & Ha1 & Ha2) (b & Hb1 & Hb2)].
    assert (forall y, y ∈ x :: rows -> y ∈ (x :: rows) ++ [r]) as Hin by (intros; apply elem_of_app; by left).
    unfold attained, add_row, time_before. cbn [bc_min_start bc_earliest].
    split; case_ifs; eauto.
Qed.

Lemma group_loop_spec rows batches groups cur curRows idx :
  Forall2 (fun g c => g <> [] /\ (exists i, summarises g i c) /\ attained g c) groups batches ->
  summarises curRows idx cur ->
  (curRows <> [] -> attained curRows cur) ->
  (curRows = [] -> exists r rows', rows = r :: rows' /\ cur = new_candidate r /\ idx = br_index r) ->
  exists groups', Forall2 (fun g c => g <> [] /\ (exists i, summarises g i c) /\ attained g c) groups'
      (group_loop rows batches cur idx) /\
    concat groups' = concat groups ++ curRows ++ rows.
Proof.
  revert batches groups cur curRows idx.
  induction rows as [|r rows IH]; intros batches groups cur curRows idx Hg Hc Ha He; cbn [group_loop].
  - assert (curRows <> []) as Hne by (intros ->; destruct (He eq_refl) as (? & ? & ? & _); done).
    exists (groups ++ [curRows]). rewrite concat_app. cbn. rewrite !app_nil_r. split; [|done].
    apply Forall2_app; [done|]. constructor; [|constructor]. eauto.
  - destruct (_ && _) eqn:Es.
    + bool_props. destruct (IH batches groups (add_row cur r) (curRows ++ [r]) idx) as (gs & HF & HC); [done| | | |].
      * by apply add_row_summarises.
      * intros _. apply add_row_attained; [|done]. intros E. destruct (He E) as (? & ? & [= <- _] & -> & _). done.
      * by destruct curRows.
      * exists gs. split; [done|]. by rewrite HC, <- app_assoc.
    + assert (curRows <> []) as Hne.
      { intros E. destruct (He E) as (? & ? & [= <- <-] & -> & ->). cbn in Es. by rewrite !Z.eqb_refl in Es. }
      destruct (IH (batches ++ [cur]) (groups ++ [curRows]) (add_row (new_candidate r) r) [r] (br_index r))
        as (gs & HF & HC); [| | |done|].
      * apply Forall2_app; [done|]. constructor; [|constructor]. eauto.
      * apply (add_row_summarises []); [|done..]. constructor; cbn; [done|..]; by intros ? ?%not_elem_of_nil.
      * intros _. by apply (add_row_attained []).
      * exists gs. split; [done|]. rewrite HC, concat_app. cbn. by rewrite app_nil_r, <- app_assoc.
Qed.

(** [GroupBatchRows] cuts the rows, in order and without loss, into
    consecutive non-empty groups that agree on the miner, the proof type and the
    batch index, and each candidate carries the sector numbers of its group, the
    least start epoch and the earliest ready time of it. *)
Theorem GroupBatchRows_partition (rows : list BatchRow) :
  exists groups,
    concat groups = rows /\
    Forall2 (fun g c => g <> [] /\ (exists i, summarises g i c) /\ attained g c) groups (GroupBatchRows rows).
Proof.
  destruct rows as [|r rows]; [exists []; split; [done|constructor]|]. cbn [GroupBatchRows].
  destruct (group_loop_spec (r :: rows) [] [] (new_candidate r) [] (br_index r)) as (gs & HF & HC).
  - constructor.
  - constructor; cbn; [done|..]; by intros ? ?%not_elem_of_nil.
  - done.
  - intros _. by exists r, rows.
  - exists gs. split; [by rewrite HC|done].
Qed.

(** a batch fires exactly when it is full, or its slack is used up, or it has
    waited for the timeout, and the reason given is the first of these in that
    order (64-bit epochs that do not overflow). *)
Theorem EvalBatchTimeout_spec ready timeout start slack height now size mx :
  in_i64 (start - slack) ->
  let full := 0 < mx <= size in
  let late := start - slack <= height in
  let waited := ready + timeout <= now in
  let r := EvalBatchTimeout ready timeout start slack height now size mx in
  (ShouldFire r = true <-> full \/ late \/ waited) /\
  match Reason r with
  | FULL a b => full /\ a = size /\ b = mx
  | SLACK a => ~ full /\ late /\ a = start
  | TIMEOUT a => ~ full /\ ~ late /\ waited /\ a = ready
  | NONE => ~ full /\ ~ late /\ ~ waited
  end.
Proof.
  intros Hi. cbv zeta. unfold EvalBatchTimeout, time_before, time_add. rewrite i64_small by done.
  destruct ((mx >? 0) && (size >=? mx)) eqn:Ef; cbn [ShouldFire Reason].
  { bool_props. split; [|lia]. split; [lia|done]. }
  assert (~ 0 < mx <= size) as Hnf.
  { intros Hf. rewrite (proj2 (Z.gtb_lt _ _)), (proj2 (Z.geb_le _ _)) in Ef by lia. done. }
  destruct (Z.leb_spec (start - slack) height) as [Hl|Hl]; cbn [ShouldFire Reason].
  { split; [|lia]. split; [lia|done]. }
  destruct (Z.ltb_spec now (ready + timeout)); cbn [negb ShouldFire Reason]; (split; [|lia]);
    (split; [done || lia|intros; done || lia]).
Qed.

Lemma EvalBatchTimeout_spec_witness :
  ShouldFire (EvalBatchTimeout 0 10 1000 20 990 5 1 8) = true.
Proof.
  apply (EvalBatchTimeout_spec 0 10 1000 20 990 5 1 8); [unfold in_i64, min_i64, max_i64; lia|].
  right. left. lia.
Defined.
