(* ===== verification/SealPipeline.v ===== *)
(** * The sealing pipeline ([tasks/seal/poller*.go])

    The rows of [sectors_sdr_pipeline], the poller that starts the stages of a
    sector and batches its messages, and the statements with which the tasks of
    the stages finish.  A column pair [task_id_X], [after_X] of the table is the
    pair of functions [p_task], [p_after] at the stage [X].  The poller reads
    all rows once and acts on these copies, so every operation takes the copy
    it saw and the table as it is now.  A started stage is an [AddTask] call:
    the operation returns the new table, or [None] when its transaction is
    rolled back. *)

From stdpp Require Import base gmap sets list strings sorting.
From Stdlib Require Import ZArith Lia.
From S2P Require Import Prelude Float64 BatchTimeout.

Inductive stage := SDR | TreeD | TreeC | TreeR | Synth | PrecommitMsg | PoRep | Finalize | MoveStorage | CommitMsg.

#[export] Instance stage_eq_dec : EqDecision stage.
Proof. solve_decision. Defined.

Record pollTask := mkPoll {
  p_sp : Z;
  p_sector : Z;
  p_proof : Z;                       (* reg_seal_proof *)
  p_task : stage -> option Z;        (* task_id_X *)
  p_after : stage -> bool;           (* after_X *)
  p_precommit_ok : bool;             (* after_precommit_msg_success *)
  p_commit_ok : bool;                (* after_commit_msg_success *)
  p_ticket : option Z;               (* ticket_epoch *)
  p_seed : option Z;                 (* seed_epoch *)
  p_start : option Z;                (* start_epoch *)
  p_precommit_cid : option string;
  p_commit_cid : option string;
  p_precommit_ready : option time;
  p_commit_ready : option time;
  p_has_proof : bool;                (* porep_proof IS NOT NULL *)
  p_failed : bool
}.

Abbreviation table := (gmap (Z * Z) pollTask).

Definition key (t : pollTask) : Z * Z := (p_sp t, p_sector t).

(** ** Updates of a row *)

Definition set_stage (t : pollTask) (task : stage -> option Z) (after : stage -> bool) : pollTask :=
  mkPoll (p_sp t) (p_sector t) (p_proof t) task after (p_precommit_ok t) (p_commit_ok t) (p_ticket t) (p_seed t)
    (p_start t) (p_precommit_cid t) (p_commit_cid t) (p_precommit_ready t) (p_commit_ready t) (p_has_proof t) (p_failed t).

(** [task_id_X = $1] for the stages [ss]. *)
Definition set_task (ss : list stage) (id : option Z) (t : pollTask) : pollTask :=
  set_stage t (fun s => if decide (s ∈ ss) then id else p_task t s) (p_after t).

(** [after_X = b, task_id_X = NULL] for the stages [ss]. *)
Definition set_after (ss : list stage) (b : bool) (t : pollTask) : pollTask :=
  set_stage t (fun s => if decide (s ∈ ss) then None else p_task t s)
    (fun s => if decide (s ∈ ss) then b else p_after t s).

Definition set_seed (epoch : Z) (t : pollTask) : pollTask :=
  mkPoll (p_sp t) (p_sector t) (p_proof t) (p_task t) (p_after t) true (p_commit_ok t) (p_ticket t) (Some epoch)
    (p_start t) (p_precommit_cid t) (p_commit_cid t) (p_precommit_ready t) (p_commit_ready t) (p_has_proof t) (p_failed t).

Definition set_start (epoch : Z) (t : pollTask) : pollTask :=
  mkPoll (p_sp t) (p_sector t) (p_proof t) (p_task t) (p_after t) (p_precommit_ok t) (p_commit_ok t) (p_ticket t)
    (p_seed t) (Some epoch) (p_precommit_cid t) (p_commit_cid t) (p_precommit_ready t) (p_commit_ready t)
    (p_has_proof t) (p_failed t).

Definition set_commit_ok (t : pollTask) : pollTask :=
  mkPoll (p_sp t) (p_sector t) (p_proof t) (p_task t) (p_after t) (p_precommit_ok t) true (p_ticket t)
    (p_seed t) (p_start t) (p_precommit_cid t) (p_commit_cid t) (p_precommit_ready t) (p_commit_ready t)
    (p_has_proof t) (p_failed t).

Definition set_cids (pre com : option string) (t : pollTask) : pollTask :=
  mkPoll (p_sp t) (p_sector t) (p_proof t) (p_task t) (p_after t) (p_precommit_ok t) (p_commit_ok t) (p_ticket t)
    (p_seed t) (p_start t) pre com (p_precommit_ready t) (p_commit_ready t) (p_has_proof t) (p_failed t).

Definition set_ticket (epoch : Z) (t : pollTask) : pollTask :=
  mkPoll (p_sp t) (p_sector t) (p_proof t) (p_task t) (p_after t) (p_precommit_ok t) (p_commit_ok t) (Some epoch)
    (p_seed t) (p_start t) (p_precommit_cid t) (p_commit_cid t) (p_precommit_ready t) (p_commit_ready t)
    (p_has_proof t) (p_failed t).

Definition set_proof (t : pollTask) : pollTask :=
  mkPoll (p_sp t) (p_sector t) (p_proof t) (p_task t) (p_after t) (p_precommit_ok t) (p_commit_ok t) (p_ticket t)
    (p_seed t) (p_start t) (p_precommit_cid t) (p_commit_cid t) (p_precommit_ready t) (p_commit_ready t)
    true (p_failed t).

Definition set_ready (pre com : option time) (t : pollTask) : pollTask :=
  mkPoll (p_sp t) (p_sector t) (p_proof t) (p_task t) (p_after t) (p_precommit_ok t) (p_commit_ok t) (p_ticket t)
    (p_seed t) (p_start t) (p_precommit_cid t) (p_commit_cid t) pre com (p_has_proof t) (p_failed t).

Definition set_failed (t : pollTask) : pollTask :=
  mkPoll (p_sp t) (p_sector t) (p_proof t) (p_task t) (p_after t) (p_precommit_ok t) (p_commit_ok t) (p_ticket t)
    (p_seed t) (p_start t) (p_precommit_cid t) (p_commit_cid t) (p_precommit_ready t) (p_commit_ready t)
    (p_has_proof t) true.

(** [UPDATE ... WHERE sp_id = $1 AND sector_number = $2 AND c]: the table and the
    number of rows. *)
Definition update_row (tbl : table) (k : Z * Z) (c : pollTask -> bool) (f : pollTask -> pollTask) : table * Z :=
  match tbl !! k with
  | Some t => if c t then (<[k := f t]> tbl, 1) else (tbl, 0)
  | None => (tbl, 0)
  end.

(** The body of the [AddTask] callback of a stage: exactly one row must change. *)
Definition start_one (tbl : table) (k : Z * Z) (c : pollTask -> bool) (f : pollTask -> pollTask) : option table :=
  let '(tbl', n) := update_row tbl k c f in
  if n =? 1 then Some tbl' else None.

Definition is_null {A} (o : option A) : bool := match o with Some _ => false | None => true end.

(** ** Dependencies between the stages *)

Definition afterSDR (t : pollTask) : bool := p_after t SDR.
Definition afterTreeD (t : pollTask) : bool := p_after t TreeD && afterSDR t.
Definition afterTreeRC (t : pollTask) : bool := p_after t TreeC && p_after t TreeR && afterTreeD t.
Definition afterSynth (t : pollTask) : bool := p_after t Synth && afterTreeRC t.
Definition afterPrecommitMsg (t : pollTask) : bool := p_after t PrecommitMsg && afterSynth t.
Definition afterPrecommitMsgSuccess (t : pollTask) : bool := p_precommit_ok t && afterPrecommitMsg t.
Definition afterPoRep (t : pollTask) : bool := p_after t PoRep && afterPrecommitMsgSuccess t.
Definition afterFinalize (t : pollTask) : bool := p_after t Finalize && afterPoRep t.

Definition seedEpochConfidence : Z := 3.

(** ** Starting stages

    [isSet] is whether the poller of the stage is set, [id] the id of the new
    task; [None]: no task is added. *)

Definition pollStartSDR (isSet : bool) (task : pollTask) (id : Z) (tbl : table) : option table :=
  if negb (p_after task SDR) && is_null (p_task task SDR) && isSet then
    start_one tbl (key task) (fun t => is_null (p_task t SDR)) (set_task [SDR] (Some id))
  else None.

Definition pollStartSDRTreeD (isSet : bool) (task : pollTask) (id : Z) (tbl : table) : option table :=
  if negb (p_after task TreeD) && is_null (p_task task TreeD) && isSet && afterSDR task then
    start_one tbl (key task) (fun t => p_after t SDR && is_null (p_task t TreeD)) (set_task [TreeD] (Some id))
  else None.

Definition pollStartSDRTreeRC (isSet : bool) (task : pollTask) (id : Z) (tbl : table) : option table :=
  if negb (p_after task TreeC) && negb (p_after task TreeR) && is_null (p_task task TreeC) &&
     is_null (p_task task TreeR) && isSet && afterTreeD task then
    start_one tbl (key task) (fun t => p_after t TreeD && is_null (p_task t TreeC) && is_null (p_task t TreeR))
      (set_task [TreeC; TreeR] (Some id))
  else None.

Definition pollStartSynth (isSet : bool) (task : pollTask) (id : Z) (tbl : table) : option table :=
  if negb (p_after task Synth) && is_null (p_task task Synth) && isSet && p_after task TreeR && afterTreeRC task then
    start_one tbl (key task) (fun t => is_null (p_task t Synth)) (set_task [Synth] (Some id))
  else None.

Definition pollStartPoRep (isSet : bool) (task : pollTask) (height : Z) (id : Z) (tbl : table) : option table :=
  match p_seed task with
  | Some seed =>
      if isSet && afterPrecommitMsgSuccess task && is_null (p_task task PoRep) && negb (p_after task PoRep) &&
         (height >=? i64 (seed + seedEpochConfidence)) then
        start_one tbl (key task) (fun t => is_null (p_task t PoRep)) (set_task [PoRep] (Some id))
      else None
  | None => None
  end.

Definition pollStartFinalize (isSet : bool) (task : pollTask) (id : Z) (tbl : table) : option table :=
  if isSet && afterPoRep task && negb (p_after task Finalize) && is_null (p_task task Finalize) then
    start_one tbl (key task) (fun t => is_null (p_task t Finalize)) (set_task [Finalize] (Some id))
  else None.

Definition pollStartMoveStorage (isSet : bool) (task : pollTask) (id : Z) (tbl : table) : option table :=
  if isSet && afterFinalize task && negb (p_after task MoveStorage) && is_null (p_task task MoveStorage) then
    start_one tbl (key task) (fun t => is_null (p_task t MoveStorage)) (set_task [MoveStorage] (Some id))
  else None.

(** ** Messages *)

Inductive exit_code := ExitOk | SysErrInsufficientFunds | ErrInsufficientFunds | SysErrOutOfGas | ErrNotFound
  | OtherExit (n : Z).

#[export] Instance exit_code_eq_dec : EqDecision exit_code.
Proof. solve_decision. Defined.

Inductive poll_error := PrecommitFailed | CommitFailed | NilCid | ApiError | SectorMissing | DbError.

(** [message_waits]: the exit code of an executed message. *)
Definition waits := gmap string exit_code.

(** The exit code of the message of the row, when it was executed. *)
Definition executed (w : waits) (cid : option string) : option exit_code := cid ≫= fun c => w !! c.

Definition pollRetryPrecommitMsgSend (cid : option string) (k : Z * Z) (tbl : table) : table * option poll_error :=
  match cid with
  | None => (tbl, Some NilCid)
  | Some c =>
      ((update_row tbl k (fun t => bool_decide (p_precommit_cid t = Some c) && negb (p_precommit_ok t))
          (fun t => set_cids None (p_commit_cid t) (set_after [PrecommitMsg] false t))).1, None)
  end.

Definition pollPrecommitMsgFail (code : exit_code) (cid : option string) (k : Z * Z) (tbl : table)
    : table * option poll_error :=
  match code with
  | SysErrInsufficientFunds | ErrInsufficientFunds | SysErrOutOfGas => pollRetryPrecommitMsgSend cid k tbl
  | _ => (tbl, Some PrecommitFailed)
  end.

(** [preCommitEpoch]: the answer of the chain, an error, or no precommit. *)
Definition pollPrecommitMsgLanded (task : pollTask) (w : waits) (preCommitEpoch : result (option Z) unit)
    (challengeDelay : Z) (tbl : table) : table * option poll_error :=
  if p_after task PrecommitMsg && negb (p_precommit_ok task) then
    match tbl !! key task with
    | None => (tbl, None)
    | Some row =>
        match executed w (p_precommit_cid row) with
        | None => (tbl, None)
        | Some ExitOk =>
            match preCommitEpoch with
            | Err _ => (tbl, Some ApiError)
            | Ok None => (tbl, None)
            | Ok (Some epoch) =>
                ((update_row tbl (key task) (fun t => is_null (p_seed t)) (set_seed (epoch + challengeDelay))).1, None)
            end
        | Some code => pollPrecommitMsgFail code (p_precommit_cid row) (key task) tbl
        end
    end
  else (tbl, None).

(** The start epoch that the chain allows: [None] is an error of the chain. *)
Definition pollerAddStartEpoch (task : pollTask) (startEpoch : option Z) (tbl : table) : table * option poll_error :=
  if p_precommit_ok task && is_null (p_start task) then
    match startEpoch with
    | None => (tbl, Some ApiError)
    | Some epoch =>
        ((update_row tbl (key task)
            (fun t => p_precommit_ok t && negb (p_after t CommitMsg) && is_null (p_start t)) (set_start epoch)).1, None)
    end
  else (tbl, None).

Definition pollRetryCommitMsgSend (cid : option string) (k : Z * Z) (tbl : table) : table * option poll_error :=
  match cid with
  | None => (tbl, Some NilCid)
  | Some c =>
      ((update_row tbl k (fun t => bool_decide (p_commit_cid t = Some c) && negb (p_commit_ok t))
          (fun t => set_cids (p_precommit_cid t) None (set_after [CommitMsg] false t))).1, None)
  end.

(** [sectorInfo]: the sector on chain, an error of the query, or nothing. *)
Definition pollCommitMsgFail (code : exit_code) (cid : option string) (sectorInfo : result bool unit) (k : Z * Z)
    (tbl : table) : table * option poll_error :=
  match code with
  | SysErrInsufficientFunds | ErrInsufficientFunds | SysErrOutOfGas => pollRetryCommitMsgSend cid k tbl
  | ErrNotFound =>
      match sectorInfo with
      | Err _ => (tbl, Some ApiError)
      | Ok true => (tbl, None)
      | Ok false => (tbl, Some SectorMissing)
      end
  | _ => (tbl, Some CommitFailed)
  end.

(** The chain is asked twice, once for a failed message ([info0]).  The retry of a failed message is written outside the transaction, so it
    stays when the transaction is rolled back. *)
Definition pollCommitMsgLanded (isSet : bool) (task : pollTask) (w : waits) (info0 sectorInfo : result bool unit)
    (tbl : table) : table * option poll_error :=
  if p_after task CommitMsg && negb (p_commit_ok task) && isSet then
    match tbl !! key task with
    | None => (tbl, None)
    | Some row =>
        match executed w (p_commit_cid row) with
        | None => (tbl, None)
        | Some code =>
            let '(tbl, err) :=
              if decide (code = ExitOk) then (tbl, None)
              else pollCommitMsgFail code (p_commit_cid row) info0 (key task) tbl in
            match err with
            | Some e => (tbl, Some e)
            | None =>
                match sectorInfo with
                | Err _ => (tbl, Some ApiError)
                | Ok false => (tbl, Some SectorMissing)
                | Ok true => ((update_row tbl (key task) (fun t => negb (p_commit_ok t)) set_commit_ok).1, None)
                end
            end
        end
    end
  else (tbl, None).

(** ** Batches *)

(** The rows that a candidate query selects, with the columns it computes. *)
Definition before (a b : BatchRow) (ord : BatchRow -> Z) : bool :=
  (br_sp a <? br_sp b) ||
  ((br_sp a =? br_sp b) && ((br_proof a <? br_proof b) || ((br_proof a =? br_proof b) && (ord a <=? ord b)))).

Definition row_le (ord : BatchRow -> Z) (a b : BatchRow) : Prop := before a b ord = true.

#[export] Instance row_le_dec ord a b : Decision (row_le ord a b).
Proof. unfold row_le. apply _. Defined.

(** [ROW_NUMBER() OVER (PARTITION BY sp_id, reg_seal_proof ORDER BY ...)] over
    rows that are sorted so, and [batch_index = FLOOR((rn - 1) / maxBatch)]. *)
Fixpoint number_rows (maxBatch : Z) (prev : option (Z * Z)) (rn : Z) (rows : list BatchRow) : list BatchRow :=
  match rows with
  | [] => []
  | r :: rows' =>
      let rn := if bool_decide (prev = Some (br_sp r, br_proof r)) then rn + 1 else 1 in
      mkRow (br_sp r) (br_sector r) (br_start r) (br_ready r) (br_proof r) ((rn - 1) / maxBatch)
        :: number_rows maxBatch (Some (br_sp r, br_proof r)) rn rows'
  end.

Definition batch_query (ord : BatchRow -> Z) (maxBatch : Z) (rows : list BatchRow) : list BatchRow :=
  number_rows maxBatch None 0 (merge_sort (row_le ord) rows).

(** [1970-01-01] since the zero time of Go. *)
Definition unix_epoch : time := 62135596800 * Second.

(** The candidates of the precommit query; [pieces] gives the least start epoch
    of the pieces of a sector. *)
Definition precommit_row (pieces : Z * Z -> option Z) (lookback : Z) (t : pollTask) : option BatchRow :=
  if p_after t Synth && is_null (p_task t PrecommitMsg) && negb (p_after t PrecommitMsg) then
    match match pieces (key t) with Some e => Some e | None => option_map (Z.add lookback) (p_ticket t) end with
    | Some start => Some (mkRow (p_sp t) (p_sector t) start (default unix_epoch (p_precommit_ready t)) (p_proof t) 0)
    | None => None
    end
  else None.

Definition commit_row (t : pollTask) : option BatchRow :=
  if p_after t PoRep && p_has_proof t && is_null (p_task t CommitMsg) && negb (p_after t CommitMsg) then
    match p_start t with
    | Some start => Some (mkRow (p_sp t) (p_sector t) start (default unix_epoch (p_commit_ready t)) (p_proof t) 0)
    | None => None
    end
  else None.

(** [UPDATE ... SET task_id = $1 WHERE sp_id = $2 AND reg_seal_proof = $3 AND
    sector_number = ANY($4) AND c]: the table and the number of rows. *)
Definition assign_batch (tbl : table) (b : BatchCandidate) (c : pollTask -> bool) (f : pollTask -> pollTask) : table * Z :=
  let hit t := bool_decide (p_sp t = bc_sp b) && bool_decide (p_proof t = bc_proof b) &&
               bool_decide (p_sector t ∈ bc_sectors b) && c t in
  ((fun t => if hit t then f t else t) <$> tbl,
   Z.of_nat (length (List.filter (fun p => hit p.2) (map_to_list tbl)))).

Record batch_cfg := mkBatchCfg { c_max : Z; c_slack : Z (* epochs *); c_timeout : duration }.

(** The loop over the batches: the first that fires and still has rows. *)
Fixpoint assign_first (tbl : table) (cfg : batch_cfg) (height : Z) (now : time) (bs : list BatchCandidate)
    (c : pollTask -> bool) (f : pollTask -> pollTask) : option table :=
  match bs with
  | [] => None
  | b :: bs' =>
      let r := EvalBatchTimeout (bc_earliest b) (c_timeout cfg) (bc_min_start b) (c_slack cfg) height now
                 (Z.of_nat (length (bc_sectors b))) (c_max cfg) in
      if negb (ShouldFire r) then assign_first tbl cfg height now bs' c f
      else
        let '(tbl', n) := assign_batch tbl b c f in
        if n >? 0 then Some tbl' else assign_first tbl cfg height now bs' c f
  end.

Definition precommit_batches (pieces : Z * Z -> option Z) (lookback : Z) (cfg : batch_cfg) (tbl : table)
    : list BatchCandidate :=
  GroupBatchRows (batch_query br_start (c_max cfg) (omap (precommit_row pieces lookback) (snd <$> map_to_list tbl))).

Definition commit_batches (cfg : batch_cfg) (tbl : table) : list BatchCandidate :=
  GroupBatchRows (batch_query br_ready (c_max cfg) (omap commit_row (snd <$> map_to_list tbl))).

Definition pollStartBatchPrecommitMsg (isSet : bool) (pieces : Z * Z -> option Z) (lookback : Z) (cfg : batch_cfg)
    (height : Z) (now : time) (id : Z) (tbl : table) : option table :=
  if negb isSet then None
  else
    assign_first tbl cfg height now (precommit_batches pieces lookback cfg tbl)
      (fun t => p_after t Synth && is_null (p_task t PrecommitMsg) && negb (p_after t PrecommitMsg))
      (set_task [PrecommitMsg] (Some id)).

Definition pollStartBatchCommitMsg (isSet : bool) (cfg : batch_cfg) (height : Z) (now : time) (id : Z) (tbl : table)
    : option table :=
  if negb isSet then None
  else
    assign_first tbl cfg height now (commit_batches cfg tbl)
      (fun t => p_after t PoRep && is_null (p_task t CommitMsg) && negb (p_after t CommitMsg))
      (set_task [CommitMsg] (Some id)).

(** ** One pass of the poller *)

Record poll_inputs := mkInputs {
  i_set : stage -> bool;                      (* the pollers that are set *)
  i_id : Z * Z -> stage -> Z;                 (* ids of the tasks that are added *)
  i_waits : waits;
  i_precommit : Z * Z -> result (option Z) unit;
  i_delay : Z;
  i_start : Z * Z -> option Z;
  i_info0 : Z * Z -> result bool unit;
  i_info : Z * Z -> result bool unit;
  i_height : option Z;                        (* the chain head; None: an error *)
  i_pieces : Z * Z -> option Z;
  i_lookback : Z;
  i_precommit_cfg : batch_cfg;
  i_commit_cfg : batch_cfg;
  i_now : time
}.

(** [AddTask] with a callback that fails or refuses leaves the table. *)
Definition attempt (o : table -> option table) (tbl : table) : table := default tbl (o tbl).

Definition poll_task (inp : poll_inputs) (height : Z) (tbl : table) (task : pollTask) : table :=
  let k := key task in
  let id := i_id inp k in
  let tbl := attempt (pollStartSDR (i_set inp SDR) task (id SDR)) tbl in
  let tbl := attempt (pollStartSDRTreeD (i_set inp TreeD) task (id TreeD)) tbl in
  let tbl := attempt (pollStartSDRTreeRC (i_set inp TreeC) task (id TreeC)) tbl in
  let tbl := attempt (pollStartSynth (i_set inp Synth) task (id Synth)) tbl in
  let tbl := (pollPrecommitMsgLanded task (i_waits inp) (i_precommit inp k) (i_delay inp) tbl).1 in
  let tbl := attempt (pollStartPoRep (i_set inp PoRep) task height (id PoRep)) tbl in
  let tbl := (pollerAddStartEpoch task (i_start inp k) tbl).1 in
  let tbl := attempt (pollStartFinalize (i_set inp Finalize) task (id Finalize)) tbl in
  let tbl := attempt (pollStartMoveStorage (i_set inp MoveStorage) task (id MoveStorage)) tbl in
  (pollCommitMsgLanded (i_set inp CommitMsg) task (i_waits inp) (i_info0 inp k) (i_info inp k) tbl).1.

(** The rows of the query of [poll], without the failed ones. *)
Definition poll_rows (tbl : table) : list pollTask :=
  List.filter (fun t => (negb (p_commit_ok t) || negb (p_after t MoveStorage)) && negb (p_failed t))
    (snd <$> map_to_list tbl).

Definition poll (inp : poll_inputs) (tbl : table) : table :=
  match i_height inp with
  | None => tbl
  | Some height =>
      let tbl := foldl (poll_task inp height) tbl (poll_rows tbl) in
      let tbl := attempt (pollStartBatchPrecommitMsg (i_set inp PrecommitMsg) (i_pieces inp) (i_lookback inp)
                            (i_precommit_cfg inp) height (i_now inp) (i_id inp (0, 0) PrecommitMsg)) tbl in
      attempt (pollStartBatchCommitMsg (i_set inp CommitMsg) (i_commit_cfg inp) height (i_now inp)
                 (i_id inp (0, 0) CommitMsg)) tbl
  end.

(** ** The ends of the stages, as the tasks write them *)

Definition finish_sdr (k : Z * Z) (ticketEpoch : Z) (tbl : table) : table :=
  (update_row tbl k (fun _ => true) (fun t => set_ticket ticketEpoch (set_after [SDR] true t))).1.

Definition finish_tree_d (k : Z * Z) (tbl : table) : table :=
  (update_row tbl k (fun _ => true) (set_after [TreeD] true)).1.

(** The update of [task_treerc.go], with the trigger [set_precommit_ready_at]. *)
Definition finish_tree_rc (k : Z * Z) (now : time) (tbl : table) : table :=
  (update_row tbl k (fun _ => true) (fun t =>
     let t' := set_after [TreeC; TreeR] true t in
     if p_after t TreeR then t' else set_ready (Some now) (p_commit_ready t) t')).1.

Definition finish_synth (k : Z * Z) (tbl : table) : table :=
  (update_row tbl k (fun _ => true) (set_after [Synth] true)).1.

(** [WHERE task_id_precommit_msg = $2] *)
Definition finish_precommit (id : Z) (cid : string) (tbl : table) : table :=
  (fun t => if bool_decide (p_task t PrecommitMsg = Some id)
            then set_cids (Some cid) (p_commit_cid t) (set_after [PrecommitMsg] true t) else t) <$> tbl.

(** The update of [task_porep.go], with the trigger [set_commit_ready_at]. *)
Definition finish_porep (k : Z * Z) (now : time) (tbl : table) : table :=
  (update_row tbl k (fun _ => true) (fun t =>
     let t' := set_proof (set_after [PoRep] true t) in
     if p_after t PoRep then t' else set_ready (p_precommit_ready t) (Some now) t')).1.

Definition finish_finalize (id : Z) (tbl : table) : table :=
  (fun t => if bool_decide (p_task t Finalize = Some id) then set_after [Finalize] true t else t) <$> tbl.

Definition finish_move (id : Z) (tbl : table) : table :=
  (fun t => if bool_decide (p_task t MoveStorage = Some id) then set_after [MoveStorage] true t else t) <$> tbl.

(** [WHERE task_id_commit_msg = $2 AND sp_id = $3 AND sector_number = ANY($4)] *)
Definition finish_commit (id : Z) (sp : Z) (sectors : list Z) (cid : string) (tbl : table) : table :=
  (fun t => if bool_decide (p_task t CommitMsg = Some id) && bool_decide (p_sp t = sp) && bool_decide (p_sector t ∈ sectors)
            then set_cids (p_precommit_cid t) (Some cid) (set_after [CommitMsg] true t) else t) <$> tbl.

(** A precommit that can not succeed: [task_submit_precommit.go]. *)
Definition fail_precommit (id : Z) (k : Z * Z) (tbl : table) : table :=
  (update_row tbl k (fun t => bool_decide (p_task t PrecommitMsg = Some id))
     (fun t => set_failed (set_task [PrecommitMsg] None t))).1.

(** [resetSectorSealingState], for an error that says "checking PreCommit": the trees are
    built again. *)
Definition resetSectorSealingState (k : Z * Z) (tbl : table) : table :=
  (update_row tbl k (fun _ => true) (fun t => set_stage t
     (fun s => match s with TreeR | TreeC | Synth => None | _ => p_task t s end)
     (fun s => match s with TreeD | TreeR | TreeC | Synth => false | _ => p_after t s end))).1.
