(* ===== verification/SealPipelineFacts.v ===== *)
(** * The order of the sealing stages

    Pollers act on copies of rows that may be out of date, several nodes poll at
    once, messages are retried.  Whatever the interleaving, a stage of a sector
    is started or done only when the stages it needs are done. *)

From stdpp Require Import base gmap sets list strings sorting.
From Stdlib Require Import ZArith Lia.
From S2P Require Import Prelude Float64 BatchTimeout SealPipeline.

(** What a stage needs, by the poller's own predicates. *)
Definition prereq (s : stage) (t : pollTask) : bool :=
  match s with
  | SDR => true
  | TreeD => afterSDR t
  | TreeC | TreeR => afterTreeD t
  | Synth => afterTreeRC t
  | PrecommitMsg => afterSynth t
  | PoRep => afterPrecommitMsgSuccess t && negb (is_null (p_seed t))
  | Finalize | CommitMsg => afterPoRep t
  | MoveStorage => afterFinalize t
  end.

(** A stage that has begun: its task exists or it is done. *)
Definition begun (s : stage) (t : pollTask) : Prop := p_task t s <> None \/ p_after t s = true.

Record order (t : pollTask) : Prop := {
  or_stage : forall s, begun s t -> prereq s t = true;
  or_ok : p_precommit_ok t = true -> p_after t PrecommitMsg = true;
  or_cid : p_precommit_cid t <> None -> p_after t PrecommitMsg = true
}.

(** What is never undone: finished stages but for the two messages, which can be
    sent again, a successful precommit and the seed epoch. *)
Record later (a b : pollTask) : Prop := {
  lt_after : forall s, s <> PrecommitMsg -> s <> CommitMsg -> p_after a s = true -> p_after b s = true;
  lt_ok : p_precommit_ok a = true -> p_precommit_ok b = true;
  lt_seed : p_seed a <> None -> p_seed b <> None
}.

Lemma later_refl t : later t t.
Proof. done. Qed.

Lemma later_trans a b c : later a b -> later b c -> later a c.
Proof. intros [A1 A2 A3] [B1 B2 B3]. constructor; auto. Qed.

(** Unfolds the poller's predicates into the flags. *)
Ltac flags := unfold prereq, afterFinalize, afterPoRep, afterPrecommitMsgSuccess, afterPrecommitMsg, afterSynth,
  afterTreeRC, afterTreeD, afterSDR in *.

Lemma prereq_later s a b : (p_precommit_ok b = true -> p_after b PrecommitMsg = true) -> later a b ->
  prereq s a = true -> prereq s b = true.
Proof.
  intros Hb [Ha Ho Hs].
  assert (forall st, st <> PrecommitMsg -> st <> CommitMsg -> p_after a st = true -> p_after b st = true) as Ha' by auto.
  assert (is_null (p_seed a) = false -> is_null (p_seed b) = false) as Hs'.
  { destruct (p_seed a), (p_seed b); try done. intros _. by destruct Hs. }
  flags. destruct s; rewrite ?andb_true_iff, ?negb_true_iff; intuition (auto; apply Ha'; done).
Qed.

(** A change of a row that the order survives. *)
Record good (t t' : pollTask) : Prop := {
  gd_key : key t' = key t;
  gd_later : later t t';
  gd_order : order t -> order t'
}.

Lemma good_refl t : good t t.
Proof. by constructor. Qed.

Lemma good_trans a b c : good a b -> good b c -> good a c.
Proof. intros [A1 A2 A3] [B1 B2 B3]. constructor; [congruence|by eapply later_trans|auto]. Qed.

(** A change that touches no stage. *)
Lemma good_same t t' : key t' = key t -> p_task t' = p_task t -> p_after t' = p_after t ->
  p_precommit_ok t' = p_precommit_ok t -> p_seed t' = p_seed t -> p_precommit_cid t' = p_precommit_cid t -> good t t'.
Proof.
  intros Hk Ht Ha Ho Hs Hc. constructor; [done|constructor; rewrite ?Ha, ?Ho, ?Hs; done|].
  intros [H1 H2 H3]. constructor; rewrite ?Ha, ?Ho, ?Hc; [|done..].
  intros s. unfold begun. rewrite Ht, Ha. intros Hb%H1. revert Hb. flags. by rewrite Ha, Ho, Hs.
Qed.

Lemma good_set_task ss id t : (order t -> forall s, s ∈ ss -> prereq s t = true) -> good t (set_task ss id t).
Proof.
  intros Hp. constructor; [done|done|]. intros Ho. pose proof Ho as [H1 H2 H3]. constructor; [|done|done].
  intros s [Ht|Ha]; cbn in *; [|by apply (H1 s); right].
  change (prereq s t = true). case_decide; [by apply Hp|]. apply H1. by left.
Qed.

Lemma good_set_after ss t : (order t -> forall s, s ∈ ss -> prereq s t = true) -> good t (set_after ss true t).
Proof.
  intros Hp. assert (later t (set_after ss true t)) as Hl.
  { constructor; cbn; [|done|done]. intros s _ _ Ha. by case_decide. }
  constructor; [done|done|]. intros Ho. pose proof Ho as [H1 H2 H3].
  assert (forall st, p_after t st = true -> p_after (set_after ss true t) st = true) as Hmono
    by (intros st Ha; cbn; by case_decide).
  constructor; [|by intros ?%H2%Hmono|by intros ?%H3%Hmono].
  intros s Hb. eapply prereq_later; [by intros ?%H2%Hmono|exact Hl|].
  destruct (decide (s ∈ ss)) as [Hin|Hni]; [by apply Hp|]. apply H1.
  destruct Hb as [Hb|Hb]; cbn in Hb; rewrite decide_False in Hb by done; [by left|by right].
Qed.

Lemma good_retry_precommit com t : p_precommit_ok t = false ->
  good t (set_cids None com (set_after [PrecommitMsg] false t)).
Proof.
  intros Hok. constructor; [done| |].
  - constructor; cbn; [|done|done]. intros s Hs _ Ha. rewrite decide_False; [done|].
    by intros ?%list_elem_of_singleton.
  - intros [H1 H2 H3]. constructor; cbn; [|congruence|done].
    intros s Hb. assert (s <> PrecommitMsg /\ begun s t) as [Hs Hb'].
    { unfold begun in *. cbn in Hb. case_decide as Hd; [by destruct Hb|].
      split; [intros ->; apply Hd; by left|done]. }
    specialize (H1 s Hb'). revert H1. flags. cbn. rewrite Hok. by destruct s; rewrite ?andb_false_r.
Qed.

Lemma good_retry_commit pre t : pre = p_precommit_cid t ->
  good t (set_cids pre None (set_after [CommitMsg] false t)).
Proof.
  intros ->. constructor; [done| |].
  - constructor; cbn; [|done|done]. intros s _ Hs Ha. rewrite decide_False; [done|].
    by intros ?%list_elem_of_singleton.
  - intros [H1 H2 H3]. constructor; cbn; [|done|done]. intros s Hb.
    assert (begun s t) as Hb' by (unfold begun in *; cbn in Hb; case_decide; [by destruct Hb|done]).
    specialize (H1 s Hb'). revert H1. flags. by destruct s.
Qed.

Lemma good_seed e t : p_precommit_cid t <> None -> good t (set_seed e t).
Proof.
  intros Hc. assert (later t (set_seed e t)) as Hl by (by constructor).
  constructor; [done|done|]. intros [H1 H2 H3]. constructor; [|by intros _; apply H3|done].
  intros s Hb. eapply prereq_later; [by intros _; apply H3|exact Hl|by apply H1].
Qed.

Lemma good_finish_precommit c com t : (order t -> prereq PrecommitMsg t = true) ->
  good t (set_cids (Some c) com (set_after [PrecommitMsg] true t)).
Proof.
  intros Hp. destruct (good_set_after [PrecommitMsg] t) as [Hk Hl Ho].
  { intros Hor s ->%list_elem_of_singleton. auto. }
  constructor; [done|by destruct Hl|]. intros Hor. destruct (Ho Hor) as [H1 H2 H3].
  constructor; [exact H1|exact H2|done].
Qed.

(** ** Changes of the table *)

Section Changes.
(** The rows for which nothing is claimed. *)
Context (R : gset (Z * Z)).

Record good_table (tbl tbl' : table) : Prop := {
  gt_row : forall k t, k ∉ R -> tbl !! k = Some t -> exists t', tbl' !! k = Some t' /\ good t t';
  gt_old : forall k t', tbl' !! k = Some t' -> exists t, tbl !! k = Some t /\ key t' = key t
}.

Lemma good_table_refl tbl : good_table tbl tbl.
Proof. constructor; [|by eauto]. intros k t _ Ht. exists t. split; [done|apply good_refl]. Qed.

Lemma good_table_trans a b c : good_table a b -> good_table b c -> good_table a c.
Proof.
  intros [A1 A2] [B1 B2]. constructor.
  - intros k t Hk Ht. destruct (A1 k t Hk Ht) as (t1 & Ht1 & Hg1). destruct (B1 k t1 Hk Ht1) as (t2 & Ht2 & Hg2).
    exists t2. split; [done|]. by eapply good_trans.
  - intros k t Ht. destruct (B2 k t Ht) as (t1 & Ht1 & E1). destruct (A2 k t1 Ht1) as (t2 & Ht2 & E2). exists t2. split; [done|congruence].
Qed.

Lemma good_update tbl k c f : (forall t, key (f t) = key t) -> (k ∉ R -> forall t, tbl !! k = Some t -> c t = true -> good t (f t)) ->
  good_table tbl (update_row tbl k c f).1.
Proof.
  intros Hk Hf. unfold update_row. destruct (tbl !! k) as [t|] eqn:Et; [|apply good_table_refl].
  destruct (c t) eqn:Ec; [|apply good_table_refl]. cbn. constructor.
  - intros k2 t2 HR H2. destruct (decide (k2 = k)) as [->|Hne].
    + rewrite lookup_insert_eq. rewrite Et in H2. injection H2 as <-. eauto.
    + rewrite lookup_insert_ne by done. exists t2. split; [done|apply good_refl].
  - intros k2 t2 [[<- <-]|[_ H2]]%lookup_insert_Some; [by exists t|by exists t2].
Qed.

Lemma good_start tbl k c f tbl' : start_one tbl k c f = Some tbl' -> (forall t, key (f t) = key t) ->
  (k ∉ R -> forall t, tbl !! k = Some t -> c t = true -> good t (f t)) -> good_table tbl tbl'.
Proof.
  intros E Hk Hf. unfold start_one in E. pose proof (good_update tbl k c f Hk Hf) as Hg.
  destruct (update_row tbl k c f) as [tbl1 n]. destruct (n =? 1); [by injection E as <-|done].
Qed.

Lemma good_fmap (tbl : table) g : (forall t, good t (g t)) -> good_table tbl (g <$> tbl).
Proof.
  intros Hg. constructor.
  - intros k t _ Ht. rewrite lookup_fmap, Ht. cbn. eauto.
  - intros k t'. rewrite lookup_fmap. intros (t & Ht & ->)%fmap_Some. exists t. split; [done|apply Hg].
Qed.
End Changes.

(** ** Interleavings *)

(** The table, the copies of rows that pollers hold, the stages whose tasks are at work,
    and the history of the rows that were reset in a race. *)
Record pipe := mkPipe { tb : table; snaps : list pollTask; running : list (stage * (Z * Z)); raced : gset (Z * Z) }.

(** A row as it is inserted. *)
Definition fresh_row (t : pollTask) : Prop :=
  (forall s, p_task t s = None /\ p_after t s = false) /\ p_precommit_ok t = false /\ p_precommit_cid t = None.

(** A start operation on a copy, with the stage whose task it creates. *)
Inductive start_op (task : pollTask) : stage -> (table -> option table) -> Prop :=
| so_sdr b id : start_op task SDR (pollStartSDR b task id)
| so_tree_d b id : start_op task TreeD (pollStartSDRTreeD b task id)
| so_tree_rc b id : start_op task TreeC (pollStartSDRTreeRC b task id)
| so_synth b id : start_op task Synth (pollStartSynth b task id)
| so_porep b h id : start_op task PoRep (pollStartPoRep b task h id)
| so_finalize b id : start_op task Finalize (pollStartFinalize b task id)
| so_move b id : start_op task MoveStorage (pollStartMoveStorage b task id).

(** An operation on a copy that writes to the table without a task. *)
Inductive check_op (task : pollTask) : (table -> table) -> Prop :=
| ck_precommit w p delay : check_op task (fun tbl => (pollPrecommitMsgLanded task w p delay tbl).1)
| ck_start e : check_op task (fun tbl => (pollerAddStartEpoch task e tbl).1)
| ck_commit b w i0 i : check_op task (fun tbl => (pollCommitMsgLanded b task w i0 i tbl).1).

(** The end of a stage; [needs] is the stage whose task must be at work, if the
    statement does not name the task itself. *)
Inductive finish_op : option (stage * (Z * Z)) -> (table -> table) -> Prop :=
| fi_sdr k e : finish_op (Some (SDR, k)) (finish_sdr k e)
| fi_tree_d k : finish_op (Some (TreeD, k)) (finish_tree_d k)
| fi_tree_rc k now : finish_op (Some (TreeC, k)) (finish_tree_rc k now)
| fi_synth k : finish_op (Some (Synth, k)) (finish_synth k)
| fi_porep k now : finish_op (Some (PoRep, k)) (finish_porep k now)
| fi_precommit id cid : finish_op None (finish_precommit id cid)
| fi_finalize id : finish_op None (finish_finalize id)
| fi_move id : finish_op None (finish_move id)
| fi_commit id sp l cid : finish_op None (finish_commit id sp l cid)
| fi_fail id k : finish_op None (fail_precommit id k).

(** A reset races when a poller holds a copy of the row, when another task of the sector is
    at work, or when the sector has left the trees behind. *)
Definition races (tbl : table) (sn : list pollTask) (others : list (stage * (Z * Z))) (k : Z * Z) : bool :=
  existsb (fun t => bool_decide (key t = k)) sn || existsb (fun x => bool_decide (x.2 = k)) others ||
  match tbl !! k with
  | Some t => existsb (fun s => negb (is_null (p_task t s)) || p_after t s) [PrecommitMsg; PoRep; Finalize; MoveStorage; CommitMsg]
  | None => false
  end.

Inductive pstep : pipe -> pipe -> Prop :=
| ps_insert tbl sn rn rc t : tbl !! key t = None -> fresh_row t ->
    pstep (mkPipe tbl sn rn rc) (mkPipe (<[key t := t]> tbl) sn rn rc)
| ps_read tbl sn rn rc : pstep (mkPipe tbl sn rn rc) (mkPipe tbl (poll_rows tbl ++ sn) rn rc)
| ps_start tbl sn rn rc task s op tbl' : task ∈ sn -> start_op task s op -> op tbl = Some tbl' ->
    pstep (mkPipe tbl sn rn rc) (mkPipe tbl' sn ((s, key task) :: rn) rc)
| ps_check tbl sn rn rc task op : task ∈ sn -> check_op task op ->
    pstep (mkPipe tbl sn rn rc) (mkPipe (op tbl) sn rn rc)
| ps_precommit tbl sn rn rc b pieces lb cfg h now id tbl' :
    pollStartBatchPrecommitMsg b pieces lb cfg h now id tbl = Some tbl' ->
    pstep (mkPipe tbl sn rn rc) (mkPipe tbl' sn rn rc)
| ps_commit tbl sn rn rc b cfg h now id tbl' :
    pollStartBatchCommitMsg b cfg h now id tbl = Some tbl' ->
    pstep (mkPipe tbl sn rn rc) (mkPipe tbl' sn rn rc)
| ps_finish tbl sn rn rc needs op : (forall x, needs = Some x -> x ∈ rn) -> finish_op needs op ->
    pstep (mkPipe tbl sn rn rc) (mkPipe (op tbl) sn rn rc)
| ps_reset tbl sn rn1 s k rn2 rc : s = TreeC \/ s = Synth ->   (* the run of TreeRC or Synth fails *)
    pstep (mkPipe tbl sn (rn1 ++ (s, k) :: rn2) rc)
      (mkPipe (resetSectorSealingState k tbl) sn (rn1 ++ rn2) (if races tbl sn (rn1 ++ rn2) k then {[ k ]} ∪ rc else rc))
| ps_forget tbl sn sn' rn rn' rc : sn' ⊆ sn -> rn' ⊆ rn ->    (* passes and runs end *)
    pstep (mkPipe tbl sn rn rc) (mkPipe tbl sn' rn' rc).

Record pipe_ok (p : pipe) : Prop := {
  po_key : forall k t, tb p !! k = Some t -> key t = k;
  po_row : forall k t, k ∉ raced p -> tb p !! k = Some t -> order t;
  po_snap : forall task, task ∈ snaps p -> key task ∉ raced p -> exists t, tb p !! key task = Some t /\ later task t;
  po_run : forall s k, (s, k) ∈ running p -> k ∉ raced p -> exists t, tb p !! k = Some t /\ prereq s t = true
}.

(** A good change of the table keeps the invariant. *)
Lemma good_pipe tbl tbl' sn rn rc : pipe_ok (mkPipe tbl sn rn rc) -> good_table rc tbl tbl' -> pipe_ok (mkPipe tbl' sn rn rc).
Proof.
  intros [Hk Hr Hs Hn] [G1 G2]. cbn in *.
  constructor; cbn.
  - intros k t' Ht'. destruct (G2 _ _ Ht') as (t & Ht & ->). by apply Hk.
  - intros k t' HR Ht'. destruct (G2 _ _ Ht') as (t & Ht & _). destruct (G1 _ _ HR Ht) as (t2 & Ht2 & [_ _ Ho]).
    rewrite Ht' in Ht2. injection Ht2 as <-. eauto.
  - intros task Hin HR. destruct (Hs task Hin HR) as (t & Ht & Hl). destruct (G1 _ _ HR Ht) as (t' & Ht' & [_ Hl' _]).
    exists t'. split; [done|]. by eapply later_trans.
  - intros s k Hin HR. destruct (Hn s k Hin HR) as (t & Ht & Hp). destruct (G1 _ _ HR Ht) as (t' & Ht' & [_ Hl' Ho]).
    exists t'. split; [done|]. eapply prereq_later; [|exact Hl'|done]. apply Ho. by apply (Hr k).
Qed.

(** ** Each operation is a good change *)

(** What a copy showed still holds of the row. *)
Lemma snap_prereq task t s : later task t -> order t -> prereq s task = true -> prereq s t = true.
Proof. intros Hl Ho. apply prereq_later; [apply Ho|done]. Qed.

Section Operations.
Context (R : gset (Z * Z)).

(** A start on a copy that showed the prerequisites. *)
Lemma start_copy_good tbl task ss id c tbl' :
  (key task ∉ R -> exists t0, tbl !! key task = Some t0 /\ later task t0) -> (forall s, s ∈ ss -> prereq s task = true) ->
  start_one tbl (key task) c (set_task ss id) = Some tbl' -> good_table R tbl tbl'.
Proof.
  intros Hc Hp E. eapply good_start; [exact E|done|]. intros HR t Ht _. destruct (Hc HR) as (t0 & Ht0 & Hl). rewrite Ht0 in Ht. injection Ht as <-.
  apply good_set_task. intros Ho s Hs. eapply snap_prereq; [done|done|auto].
Qed.

Lemma start_op_good tbl task s op tbl' : (key task ∉ R -> exists t0, tbl !! key task = Some t0 /\ later task t0) ->
  start_op task s op -> op tbl = Some tbl' -> good_table R tbl tbl' /\ prereq s task = true.
Proof.
  intros Hc Hop E. destruct Hop as [b id|b id|b id|b id|b h id|b id|b id].
  - unfold pollStartSDR in E. destruct (_ && _); [|done]. split; [|done].
    eapply start_copy_good; [done| |exact E]. by intros s ->%list_elem_of_singleton.
  - unfold pollStartSDRTreeD in E. destruct (_ && _) eqn:Ec; [|done]. apply andb_true_iff in Ec as [_ Hp].
    split; [|done]. eapply start_copy_good; [done| |exact E]. by intros s ->%list_elem_of_singleton.
  - unfold pollStartSDRTreeRC in E. destruct (_ && _) eqn:Ec; [|done]. apply andb_true_iff in Ec as [_ Hp].
    split; [|done]. eapply start_copy_good; [done| |exact E].
    by intros s [->|[->|?%not_elem_of_nil]%elem_of_cons]%elem_of_cons.
  - unfold pollStartSynth in E. destruct (_ && _) eqn:Ec; [|done]. apply andb_true_iff in Ec as [_ Hp].
    split; [|done]. eapply start_copy_good; [done| |exact E]. by intros s ->%list_elem_of_singleton.
  - unfold pollStartPoRep in E. destruct (p_seed task) as [seed|] eqn:Es; [|done].
    destruct (_ && _) eqn:Ec; [|done]. bool_props.
    assert (prereq PoRep task = true) as Hp by (unfold prereq; rewrite Es; by apply andb_true_iff).
    split; [|done]. eapply start_copy_good; [done| |exact E]. by intros s ->%list_elem_of_singleton.
  - unfold pollStartFinalize in E. destruct (_ && _) eqn:Ec; [|done]. bool_props.
    split; [|done]. eapply start_copy_good; [done| |exact E]. by intros s ->%list_elem_of_singleton.
  - unfold pollStartMoveStorage in E. destruct (_ && _) eqn:Ec; [|done]. bool_props.
    split; [|done]. eapply start_copy_good; [done| |exact E]. by intros s ->%list_elem_of_singleton.
Qed.

Lemma retry_precommit_good cid k tbl : good_table R tbl (pollRetryPrecommitMsgSend cid k tbl).1.
Proof.
  destruct cid as [c|]; [|apply good_table_refl]. cbn. apply good_update; [done|]. intros _ t _ Hc.
  apply andb_true_iff in Hc as [_ Hc%negb_true_iff]. by apply good_retry_precommit.
Qed.

Lemma retry_commit_good cid k tbl : good_table R tbl (pollRetryCommitMsgSend cid k tbl).1.
Proof.
  destruct cid as [c|]; [|apply good_table_refl]. cbn. apply good_update; [done|]. intros _ t _ _. by apply good_retry_commit.
Qed.

Lemma check_op_good tbl task op : check_op task op -> good_table R tbl (op tbl).
Proof.
  intros [w p delay|e|b w i0 i].
  - unfold pollPrecommitMsgLanded. destruct (_ && _); [|apply good_table_refl].
    destruct (tbl !! key task) as [row|] eqn:Er; [|apply good_table_refl].
    destruct (executed w (p_precommit_cid row)) as [code|] eqn:Ex; [|apply good_table_refl].
    assert (p_precommit_cid row <> None) as Hc by (unfold executed in Ex; by destruct (p_precommit_cid row)).
    destruct code; try apply good_table_refl; try apply retry_precommit_good.
    destruct p as [[epoch|]|]; try apply good_table_refl. apply good_update; [done|]. intros _ t Ht _.
    apply good_seed. congruence.
  - unfold pollerAddStartEpoch. destruct (_ && _); [|apply good_table_refl].
    destruct e as [epoch|]; [|apply good_table_refl]. apply good_update; [done|]. intros _ t _ _. by apply good_same.
  - unfold pollCommitMsgLanded. destruct (_ && _); [|apply good_table_refl].
    destruct (tbl !! key task) as [row|]; [|apply good_table_refl].
    destruct (executed w (p_commit_cid row)) as [code|]; [|apply good_table_refl].
    set (f := if decide (code = ExitOk) then _ else _). assert (good_table R tbl f.1) as Hf.
    { unfold f. destruct (decide (code = ExitOk)); [apply good_table_refl|].
      destruct code; try apply good_table_refl; try apply retry_commit_good. cbn.
      destruct i0 as [[]|]; apply good_table_refl. }
    destruct f as [tbl1 [err|]]; [exact Hf|]. destruct i as [[]|]; try exact Hf.
    eapply good_table_trans; [exact Hf|]. apply good_update; [done|]. intros _ t _ _. by apply good_same.
Qed.

Lemma assign_first_good tbl cfg h now bs c ss id tbl' :
  assign_first tbl cfg h now bs c (set_task ss id) = Some tbl' ->
  (forall t, c t = true -> order t -> forall s, s ∈ ss -> prereq s t = true) -> good_table R tbl tbl'.
Proof.
  intros E Hc. induction bs as [|b bs IH]; cbn [assign_first] in E; [done|].
  destruct (negb _); [by apply IH|]. unfold assign_batch in E. destruct (_ >? 0); [|by apply IH].
  injection E as <-. apply good_fmap. intros t. destruct (_ && _) eqn:Eh; [|apply good_refl].
  apply andb_true_iff in Eh as [_ Eh]. apply good_set_task. intros Ho. by apply Hc.
Qed.

Lemma prereq_of_after t s' s : order t -> p_after t s' = true ->
  (prereq s' t = true -> p_after t s' = true -> prereq s t = true) -> prereq s t = true.
Proof. intros [H1 _ _] Ha Hi. apply Hi; [|done]. apply H1. by right. Qed.

Lemma precommit_batch_good b pieces lb cfg h now id tbl tbl' :
  pollStartBatchPrecommitMsg b pieces lb cfg h now id tbl = Some tbl' -> good_table R tbl tbl'.
Proof.
  unfold pollStartBatchPrecommitMsg. destruct b; [|done]. intros E. eapply assign_first_good; [exact E|].
  intros t Hc Ho s ->%list_elem_of_singleton. cbv beta in Hc. bool_props.
  eapply (prereq_of_after t Synth); [done|done|]. flags. by intros -> ->.
Qed.

Lemma commit_batch_good b cfg h now id tbl tbl' :
  pollStartBatchCommitMsg b cfg h now id tbl = Some tbl' -> good_table R tbl tbl'.
Proof.
  unfold pollStartBatchCommitMsg. destruct b; [|done]. intros E. eapply assign_first_good; [exact E|].
  intros t Hc Ho s ->%list_elem_of_singleton. cbv beta in Hc. bool_props.
  eapply (prereq_of_after t PoRep); [done|done|]. cbn [prereq]. unfold afterPoRep. intros [Hp _]%andb_true_iff ->. exact Hp.
Qed.

(** A stage that is done when its task, known to be at work, ends. *)
Lemma finish_running_good tbl k ss (f : pollTask -> pollTask) s :
  (k ∉ R -> exists t, tbl !! k = Some t /\ prereq s t = true) -> (forall x t, x ∈ ss -> prereq s t = true -> prereq x t = true) ->
  (forall t, good (set_after ss true t) (f t)) -> good_table R tbl (update_row tbl k (fun _ => true) f).1.
Proof.
  intros Hr Hss Hf. apply good_update; [intros t; by rewrite (gd_key _ _ (Hf t))|]. intros HR t Ht _. destruct (Hr HR) as (t0 & Ht0 & Hp). rewrite Ht0 in Ht. injection Ht as <-.
  eapply good_trans; [|apply Hf]. apply good_set_after. intros _ x Hx. by eapply Hss.
Qed.

(** A stage that is done by the task that the row names. *)
Lemma named_prereq t s id : order t -> p_task t s = Some id -> prereq s t = true.
Proof. intros [H1 _ _] Ht. apply H1. left. by rewrite Ht. Qed.

Lemma finish_op_good tbl needs op : finish_op needs op ->
  (forall s k, needs = Some (s, k) -> k ∉ R -> exists t, tbl !! k = Some t /\ prereq s t = true) ->
  good_table R tbl (op tbl).
Proof.
  intros Hop Hn. destruct Hop as [k e|k|k now|k|k now|id cid|id|id|id sp l cid|id k].
  - eapply (finish_running_good _ _ [SDR] _ SDR); [by eapply Hn| |intros t; by apply good_same].
    by intros x t ->%list_elem_of_singleton.
  - eapply (finish_running_good _ _ [TreeD] _ TreeD); [by eapply Hn| |intros t; apply good_refl].
    by intros x t ->%list_elem_of_singleton.
  - eapply (finish_running_good _ _ [TreeC; TreeR] _ TreeC); [by eapply Hn| |].
    + by intros x t [->|[->|?%not_elem_of_nil]%elem_of_cons]%elem_of_cons.
    + intros t. destruct (p_after t TreeR); [apply good_refl|by apply good_same].
  - eapply (finish_running_good _ _ [Synth] _ Synth); [by eapply Hn| |intros t; apply good_refl].
    by intros x t ->%list_elem_of_singleton.
  - eapply (finish_running_good _ _ [PoRep] _ PoRep); [by eapply Hn| |].
    + by intros x t ->%list_elem_of_singleton.
    + intros t. destruct (p_after t PoRep); by apply good_same.
  - apply good_fmap. intros t. case_bool_decide; [|apply good_refl].
    apply good_finish_precommit. intros Ho. by eapply named_prereq.
  - apply good_fmap. intros t. case_bool_decide; [|apply good_refl].
    apply good_set_after. intros Ho s ->%list_elem_of_singleton. by eapply named_prereq.
  - apply good_fmap. intros t. case_bool_decide; [|apply good_refl].
    apply good_set_after. intros Ho s ->%list_elem_of_singleton. by eapply named_prereq.
  - apply good_fmap. intros t. destruct (_ && _) eqn:E; [|apply good_refl]. bool_props.
    apply (good_trans _ (set_after [CommitMsg] true t)); [|by apply good_same].
    apply good_set_after. intros Ho s ->%list_elem_of_singleton. by eapply named_prereq.
  - apply good_update; [done|]. intros _ t _ Ht. cbv beta in Ht. bool_props.
    apply (good_trans _ (set_task [PrecommitMsg] None t)); [|by apply good_same].
    apply good_set_task. intros Ho s ->%list_elem_of_singleton. by eapply named_prereq.
Qed.

End Operations.

Lemma fresh_order t : fresh_row t -> order t.
Proof.
  intros (Hs & Hok & Hc). constructor; [|congruence|congruence].
  intros s [Hb|Hb]; destruct (Hs s); congruence.
Qed.

(** A reset that does not race: nothing depends on the trees yet. *)
Lemma reset_order t : order t -> (forall s, s ∈ [PrecommitMsg; PoRep; Finalize; MoveStorage; CommitMsg] -> ~ begun s t) ->
  order (set_stage t (fun s => match s with TreeR | TreeC | Synth => None | _ => p_task t s end)
           (fun s => match s with TreeD | TreeR | TreeC | Synth => false | _ => p_after t s end)).
Proof.
  intros [H1 H2 H3] Hno. assert (p_after t PrecommitMsg = false) as Hpc.
  { apply not_true_iff_false. intros Ha. apply (Hno PrecommitMsg); [left|by right]. }
  constructor; cbn; [|by intros ?%H2|by intros ?%H3].
  intros s Hb. destruct s; unfold begun in Hb; cbn in Hb; try (by destruct Hb); try (exfalso; eapply (Hno _); [|exact Hb]; set_solver).
  assert (begun TreeD t) as Hb' by (left; by destruct Hb). exact (H1 TreeD Hb').
Qed.

Lemma races_false tbl sn others k : races tbl sn others k = false ->
  (forall t, t ∈ sn -> key t <> k) /\ (forall x, x ∈ others -> x.2 <> k) /\
  (forall t, tbl !! k = Some t -> forall s, s ∈ [PrecommitMsg; PoRep; Finalize; MoveStorage; CommitMsg] -> ~ begun s t).
Proof.
  unfold races. rewrite !orb_false_iff. intros [[H1 H2] H3].
  assert (forall {A} (f : A -> bool) l x, existsb f l = false -> x ∈ l -> f x = false) as Hex.
  { intros A f l x E Hx. apply not_true_iff_false. intros Hf. apply not_true_iff_false in E. apply E, existsb_exists. exists x.
    split; [by apply list_elem_of_In|done]. }
  split_and!.
  - intros t Ht. pose proof (Hex _ _ _ _ H1 Ht) as E. by apply bool_decide_eq_false in E.
  - intros x Hx. pose proof (Hex _ _ _ _ H2 Hx) as E. by apply bool_decide_eq_false in E.
  - intros t Ht s Hs. rewrite Ht in H3. pose proof (Hex _ _ _ _ H3 Hs) as E. cbv beta in E. apply orb_false_iff in E as [E1 E2].
    intros [Hb|Hb]; [|congruence]. by destruct (p_task t s).
Qed.

Lemma reset_ok tbl sn rn1 s k rn2 rc : pipe_ok (mkPipe tbl sn (rn1 ++ (s, k) :: rn2) rc) ->
  pipe_ok (mkPipe (resetSectorSealingState k tbl) sn (rn1 ++ rn2) (if races tbl sn (rn1 ++ rn2) k then {[ k ]} ∪ rc else rc)).
Proof.
  intros [Hk Hr Hs Hn]. cbn in *. set (rc' := if races _ _ _ _ then _ else _).
  assert (forall x, x ∉ rc' -> (x ∉ rc) /\ (x = k -> races tbl sn (rn1 ++ rn2) k = false)) as Hrc.
  { intros x Hx. unfold rc' in Hx. destruct (races tbl sn (rn1 ++ rn2) k); [|done]. apply not_elem_of_union in Hx as [Hx ?].
    rewrite not_elem_of_singleton in Hx. done. }
  assert (forall x, x <> k -> resetSectorSealingState k tbl !! x = tbl !! x) as Hother.
  { intros x Hx. unfold resetSectorSealingState, update_row. destruct (tbl !! k); [|done]. cbn. by rewrite lookup_insert_ne. }
  assert (forall t, tbl !! k = Some t -> resetSectorSealingState k tbl !! k = Some (set_stage t
     (fun s => match s with TreeR | TreeC | Synth => None | _ => p_task t s end)
     (fun s => match s with TreeD | TreeR | TreeC | Synth => false | _ => p_after t s end))) as Hself.
  { intros t Ht. unfold resetSectorSealingState, update_row. rewrite Ht. cbn. by rewrite lookup_insert_eq. }
  assert (forall t', resetSectorSealingState k tbl !! k = Some t' -> exists t, tbl !! k = Some t) as Hback.
  { intros t' Ht'. destruct (tbl !! k) as [t|] eqn:Et; [by exists t|]. unfold resetSectorSealingState, update_row in Ht'. rewrite Et in Ht'. cbn in Ht'. congruence. }
  constructor; cbn.
  - intros x t Ht. destruct (decide (x = k)) as [->|Hx]; [|rewrite Hother in Ht by done; by apply Hk].
    destruct (Hback _ Ht) as (t0 & Ht0). rewrite (Hself _ Ht0) in Ht. injection Ht as <-. by apply (Hk k t0).
  - intros x t [HR Hrace]%Hrc Ht. destruct (decide (x = k)) as [->|Hx]; [|rewrite Hother in Ht by done; by apply (Hr x)].
    destruct (Hback _ Ht) as (t0 & Ht0). rewrite (Hself _ Ht0) in Ht. injection Ht as <-.
    apply reset_order; [by apply (Hr k)|]. by apply (races_false _ _ _ _ (Hrace eq_refl)).
  - intros task Hin [HR Hrace]%Hrc. destruct (decide (key task = k)) as [E|Hx]; [|rewrite Hother by done; by apply Hs].
    exfalso. by apply (races_false _ _ _ _ (Hrace E)) in Hin.
  - intros s' x Hin [HR Hrace]%Hrc. destruct (decide (x = k)) as [->|Hx].
    + exfalso. by apply (races_false _ _ _ _ (Hrace eq_refl)) in Hin.
    + rewrite Hother by done. apply (Hn s' x); [|done]. apply elem_of_app in Hin. apply elem_of_app. destruct Hin; [by left|right]. by apply list_elem_of_further.
Qed.

Lemma seal_insert_ok tbl sn rn rc t : tbl !! key t = None -> fresh_row t -> pipe_ok (mkPipe tbl sn rn rc) ->
  pipe_ok (mkPipe (<[key t := t]> tbl) sn rn rc).
Proof.
  intros Hnone Hf [Hk Hr Hsn Hrn]. cbn in *. constructor; cbn.
  - intros k x [[<- <-]|[_ Hx]]%lookup_insert_Some; [done|by apply Hk].
  - intros k x HR [[<- <-]|[_ Hx]]%lookup_insert_Some; [by apply fresh_order|by apply (Hr k)].
  - intros task Hin HR. destruct (Hsn task Hin HR) as (x & Hx & Hl). exists x. split; [|done].
    rewrite lookup_insert_ne; [done|]. congruence.
  - intros s k Hin HR. destruct (Hrn s k Hin HR) as (x & Hx & Hp). exists x. split; [|done].
    rewrite lookup_insert_ne; [done|]. congruence.
Qed.

Lemma pstep_ok p p' : pipe_ok p -> pstep p p' -> pipe_ok p'.
Proof.
  intros Hok Hs. destruct Hs as [tbl sn rn rc t Hnone Hf|tbl sn rn rc|tbl sn rn rc task s op tbl' Hin Hop E
    |tbl sn rn rc task op Hin Hop|tbl sn rn rc b pieces lb cfg h now id tbl' E|tbl sn rn rc b cfg h now id tbl' E
    |tbl sn rn rc needs op Hn Hop|tbl sn rn1 s k rn2 rc _|tbl sn sn' rn rn' rc Hsn Hrn].
  - by apply seal_insert_ok.
  - destruct Hok as [Hk Hr Hsn Hrn]. cbn in *. constructor; cbn; [done|done| |done].
    intros task [Hin|Hin]%elem_of_app HR; [|by apply Hsn]. unfold poll_rows in Hin.
    apply list_elem_of_In, filter_In in Hin as [Hin _]. apply list_elem_of_In in Hin.
    apply list_elem_of_fmap in Hin as ([k x] & -> & Hin). apply elem_of_map_to_list in Hin. cbn.
    rewrite (Hk k x Hin). exists x. split; [done|apply later_refl].
  - destruct (start_op_good rc _ _ _ _ _ (po_snap _ Hok task Hin) Hop E) as [Hg Hp].
    destruct (good_pipe _ _ _ _ _ Hok Hg) as [Hk Hr Hsn Hrn]. cbn in *. constructor; cbn; [done|done|done|].
    intros s' k [[= -> ->]|Hin']%elem_of_cons HR; [|by apply Hrn].
    destruct (Hsn task Hin HR) as (t' & Ht' & Hl'). exists t'. split; [done|].
    eapply snap_prereq; [exact Hl'| |done]. by apply (Hr (key task)).
  - eapply good_pipe; [exact Hok|]. by eapply check_op_good.
  - eapply good_pipe; [exact Hok|]. by eapply precommit_batch_good.
  - eapply good_pipe; [exact Hok|]. by eapply commit_batch_good.
  - eapply good_pipe; [exact Hok|]. eapply finish_op_good; [exact Hop|].
    intros s k ->. apply (po_run _ Hok). by apply Hn.
  - by eapply reset_ok.
  - destruct Hok as [Hk Hr Hs Hn]. cbn in *. constructor; cbn; eauto.
Qed.

Lemma pipe_ok_init : pipe_ok (mkPipe ∅ [] [] ∅).
Proof.
  constructor; cbn; [intros k t; by rewrite lookup_empty|intros k t; by rewrite lookup_empty|by intros ? ?%not_elem_of_nil|by intros ? ? ?%not_elem_of_nil].
Qed.

(** ** A pass of the poller *)

(** A run of steps that keeps the copies [sn]. *)
Definition steps (sn : list pollTask) (tbl tbl' : table) : Prop :=
  forall rn rc, exists rn', rtc pstep (mkPipe tbl sn rn rc) (mkPipe tbl' sn rn' rc).

Lemma steps_refl sn tbl : steps sn tbl tbl.
Proof. intros rn rc. by exists rn. Qed.

Lemma steps_trans sn a b c : steps sn a b -> steps sn b c -> steps sn a c.
Proof. intros H1 H2 rn rc. destruct (H1 rn rc) as (r1 & E1). destruct (H2 r1 rc) as (r2 & E2). exists r2. by etrans. Qed.

Lemma steps_start sn task s op tbl : task ∈ sn -> start_op task s op -> steps sn tbl (attempt op tbl).
Proof.
  intros Hin Hop rn rc. unfold attempt. destruct (op tbl) as [tbl'|] eqn:E; [|by exists rn].
  eexists. apply rtc_once. by eapply ps_start.
Qed.

Lemma steps_check sn task op tbl : task ∈ sn -> check_op task op -> steps sn tbl (op tbl).
Proof. intros Hin Hop rn rc. exists rn. apply rtc_once. by eapply ps_check. Qed.

Lemma poll_task_steps sn inp h task tbl : task ∈ sn -> steps sn tbl (poll_task inp h tbl task).
Proof.
  intros Hin. unfold poll_task.
  eapply steps_trans; [eapply steps_start; [exact Hin|apply so_sdr]|].
  eapply steps_trans; [eapply steps_start; [exact Hin|apply so_tree_d]|].
  eapply steps_trans; [eapply steps_start; [exact Hin|apply so_tree_rc]|].
  eapply steps_trans; [eapply steps_start; [exact Hin|apply so_synth]|].
  eapply steps_trans; [eapply (steps_check _ _ _ _ Hin); apply ck_precommit|].
  eapply steps_trans; [eapply steps_start; [exact Hin|apply so_porep]|].
  eapply steps_trans; [eapply (steps_check _ _ _ _ Hin); apply ck_start|].
  eapply steps_trans; [eapply steps_start; [exact Hin|apply so_finalize]|].
  eapply steps_trans; [eapply steps_start; [exact Hin|apply so_move]|].
  eapply (steps_check _ _ _ _ Hin (ck_commit _ _ _ _ _)).
Qed.

Lemma poll_tasks_steps sn inp h tasks tbl : (forall t, t ∈ tasks -> t ∈ sn) ->
  steps sn tbl (foldl (poll_task inp h) tbl tasks).
Proof.
  revert tbl. induction tasks as [|t tasks IH]; intros tbl Hin; cbn [foldl]; [apply steps_refl|].
  eapply steps_trans; [apply poll_task_steps, Hin; left|]. apply IH. intros x Hx. apply Hin. by right.
Qed.

(** a pass of the seal poller reads the unfinished rows once and then only
    makes the steps of the pipeline on them and on the batches, in the order of
    the code, so any number of pollers running at once stay within the
    interleavings for which the stage order is shown. *)
Theorem seal_poll_refines (inp : poll_inputs) (tbl : table) sn rn rc :
  exists sn' rn', rtc pstep (mkPipe tbl sn rn rc) (mkPipe (poll inp tbl) sn' rn' rc).
Proof.
  unfold poll. destruct (i_height inp) as [h|]; [|by exists sn, rn].
  assert (steps (poll_rows tbl ++ sn) tbl (foldl (poll_task inp h) tbl (poll_rows tbl))) as Hs.
  { apply poll_tasks_steps. intros t Ht. apply elem_of_app. by left. }
  destruct (Hs rn rc) as (rn' & Hr). set (t1 := foldl _ _ _) in *. exists (poll_rows tbl ++ sn), rn'.
  eapply rtc_l; [apply ps_read|]. etrans; [exact Hr|]. unfold attempt.
  set (o1 := pollStartBatchPrecommitMsg _ _ _ _ _ _ _ t1). set (t2 := default t1 o1).
  transitivity (mkPipe t2 (poll_rows tbl ++ sn) rn' rc).
  - unfold t2. destruct o1 as [t'|] eqn:E; [|done]. apply rtc_once. by eapply ps_precommit.
  - destruct (pollStartBatchCommitMsg _ _ _ _ _ t2) as [t'|] eqn:E; [|done]. apply rtc_once. by eapply ps_commit.
Qed.

(** C5: the stages of a sector keep their order.  From an empty pipeline, let several pollers
    that act on outdated copies of rows, batches, message retries, completions and failures of
    tasks, and the resets of failed trees interleave in any way.  A stage of a sector has a
    task or is done only if the stages it depends on are done, and in particular a PoRep is
    computed and a commit message is sent only for a sector whose precommit succeeded on
    chain; unless the sector was reset in a race: while a poller held a copy of its row or
    another task of it was at work, or when its messages had begun.
    [stale_start_after_reset] shows what then happens.  Rows that operators restart or that
    are sealed in batches by SupraSeal are not part of it. *)
Theorem pipeline_stage_order (p : pipe) k t s :
  rtc pstep (mkPipe ∅ [] [] ∅) p -> tb p !! k = Some t -> begun s t -> prereq s t = true \/ k ∈ raced p.
Proof.
  intros Hr Ht Hb. pose proof (rtc_invariant pstep pipe_ok pstep_ok _ _ Hr pipe_ok_init) as Hok.
  destruct (decide (k ∈ raced p)) as [|Hk]; [by right|]. left. by apply (or_stage _ (po_row _ Hok k t Hk Ht)).
Qed.

(** ** The size of a batch *)

(** The partition of a row. *)
Definition part (r : BatchRow) : Z * Z := (br_sp r, br_proof r).

(** The numbers of consecutive rows of one partition go up by one. *)
Inductive numbered (mx : Z) : Z -> list BatchRow -> Prop :=
| nu_nil n : numbered mx n []
| nu_cons n m r l : br_index r = (n - 1) / mx ->
    (match l with x :: _ => part x = part r | [] => True end -> m = n + 1) ->
    numbered mx m l -> numbered mx n (r :: l).

Lemma number_rows_numbered mx prev rn rows :
  exists n, numbered mx n (number_rows mx prev rn rows) /\
    (match rows with r :: _ => prev = Some (part r) | [] => True end -> n = rn + 1).
Proof.
  revert prev rn. induction rows as [|r rows IH]; intros prev rn; cbn [number_rows].
  - exists (rn + 1). split; [constructor|done].
  - set (n := if bool_decide _ then _ else _). destruct (IH (Some (part r)) n) as (m & Hm & Hnext).
    exists n. split.
    + apply (nu_cons mx n m); [done| |exact Hm]. intros Hp. apply Hnext. destruct rows as [|x rows]; [done|].
      cbn [number_rows] in Hp. unfold part in *. cbn in Hp. congruence.
    + intros ->. unfold n. by rewrite bool_decide_eq_true_2.
Qed.

(** A run of rows of one partition and index is at most as long as a batch. *)
Lemma numbered_run mx n g rest p i : 0 < mx -> numbered mx n (g ++ rest) ->
  (forall r, r ∈ g -> part r = p /\ br_index r = i) ->
  g = [] \/ (i * mx < n /\ n + Z.of_nat (length g) - 1 <= (i + 1) * mx).
Proof.
  intros Hmx. revert n. induction g as [|r g IH]; intros n Hn Hg; [by left|right].
  cbn [app] in Hn. inversion Hn as [|n' m r' l Hi Hnext Hl]; subst.
  destruct (Hg r) as [Hp Hidx]; [left|].
  assert (i = (n - 1) / mx) as Hi' by congruence.
  pose proof (Z.mul_div_le (n - 1) mx Hmx). pose proof (Z.mul_succ_div_gt (n - 1) mx Hmx).
  cbn [length]. destruct (decide (g = [])) as [->|Hne]; [cbn [length]; nia|].
  destruct (IH m Hl) as [->|[_ Hle]]; [|done|].
  - intros x Hx. apply Hg. by right.
  - assert (m = n + 1); [|lia]. apply Hnext. destruct g as [|y g]; [done|]. cbn [app].
    destruct (Hg y) as [-> _]; [right; left|done].
Qed.

Lemma numbered_app mx n l1 l2 : numbered mx n (l1 ++ l2) -> exists m, numbered mx m l2.
Proof.
  revert n. induction l1 as [|x l1 IH]; intros n Hn; [by exists n|]. cbn [app] in Hn.
  inversion Hn as [|n' m r' l Hi _ Hm]; subst. by eapply IH.
Qed.

Lemma number_rows_back mx prev rn rows r : r ∈ number_rows mx prev rn rows ->
  exists x, x ∈ rows /\ br_sector r = br_sector x /\ part r = part x.
Proof.
  revert prev rn. induction rows as [|a rows IH]; intros prev rn Hr; cbn [number_rows] in Hr;
    [by apply not_elem_of_nil in Hr|].
  apply elem_of_cons in Hr as [->|Hr]; [exists a; split; [left|done]|].
  destruct (IH _ _ Hr) as (x & Hx & ?). exists x. split; [by right|done].
Qed.

(** The candidates made from a query with the given batch size. *)
Lemma batch_query_bounded ord mx rows b : 0 < mx -> b ∈ GroupBatchRows (batch_query ord mx rows) ->
  0 < Z.of_nat (length (bc_sectors b)) <= mx /\
  forall sec, sec ∈ bc_sectors b -> exists x, x ∈ rows /\ br_sector x = sec /\ part x = (bc_sp b, bc_proof b).
Proof.
  intros Hmx Hb. set (q := batch_query ord mx rows) in *.
  assert (exists groups, concat groups = q /\
    Forall2 (fun g c => g <> [] /\ (exists i, summarises g i c) /\ attained g c) groups (GroupBatchRows q)) as (gs & Hc & HF).
  { destruct q as [|r q']; [by apply not_elem_of_nil in Hb|].
    destruct (group_loop_spec (r :: q') [] [] (new_candidate r) [] (br_index r)) as (gs & HF & HC).
    - constructor.
    - constructor; cbn; [done|..]; by intros ? ?%not_elem_of_nil.
    - done.
    - intros _. by exists r, q'.
    - exists gs. by rewrite HC. }
  apply list_elem_of_lookup in Hb as (j & Hj). destruct (Forall2_lookup_r _ _ _ _ _ HF Hj) as (g & Hg & Hne & (i & Hs) & _).
  apply list_elem_of_lookup_2, list_elem_of_split in Hg as (g1 & g2 & ->).
  rewrite concat_app in Hc. cbn in Hc.
  destruct (number_rows_numbered mx None 0 (merge_sort (row_le ord) rows)) as (n & Hn & _).
  fold (batch_query ord mx rows) in Hn. fold q in Hn. rewrite <- Hc in Hn.
  apply numbered_app in Hn as (m & Hn). rewrite (sm_sectors _ _ _ Hs), length_fmap. split.
  - destruct (numbered_run mx m g (concat g2) (bc_sp b, bc_proof b) i Hmx Hn) as [?|Hl]; [|done|].
    + intros r Hr. destruct (sm_same _ _ _ Hs r Hr) as (<- & <- & ->). done.
    + destruct g; [done|]. cbn [length] in *. lia.
  - intros sec (r & -> & Hr)%list_elem_of_fmap. destruct (sm_same _ _ _ Hs r Hr) as (Hsp & Hpr & _).
    assert (r ∈ q) as Hq by (rewrite <- Hc, !elem_of_app; tauto).
    destruct (number_rows_back _ _ _ _ _ Hq) as (x & Hx & Hsec & Hpart). exists x.
    split; [by rewrite <- (merge_sort_Permutation (row_le ord) rows)|]. split; [done|].
    rewrite <- Hpart. unfold part. congruence.
Qed.


(** ** A sector on its way *)

Definition ex_row : pollTask :=
  mkPoll 1000 1 8 (fun _ => None) (fun _ => false) false false None None None None None None None false false.

Definition ex_t1 : table := {[ (1000, 1) := ex_row ]}.
Definition ex_t2 : table := attempt (pollStartSDR true ex_row 7) ex_t1.
Definition ex_t3 : table := finish_sdr (1000, 1) 500 ex_t2.
Definition ex_done : pollTask := default ex_row (ex_t3 !! (1000, 1)).
Definition ex_t4 : table := attempt (pollStartSDRTreeD true ex_done 8) ex_t3.
Definition ex_last : pollTask := default ex_row (ex_t4 !! (1000, 1)).

Lemma seal_reach4 : rtc pstep (mkPipe ∅ [] [] ∅) (mkPipe ex_t4 (poll_rows ex_t3 ++ poll_rows ex_t1 ++ []) [(TreeD, (1000, 1)); (SDR, (1000, 1))] ∅).
Proof.
  eapply rtc_l; [apply (ps_insert ∅ [] [] ∅ ex_row); [reflexivity|repeat split]|].
  change (<[key ex_row := ex_row]> ∅) with ex_t1. eapply rtc_l; [apply ps_read|].
  eapply rtc_l; [apply (ps_start ex_t1 _ _ _ ex_row SDR (pollStartSDR true ex_row 7) ex_t2);
    [vm_compute; left|constructor|vm_compute; reflexivity]|].
  eapply rtc_l; [apply (ps_finish ex_t2 _ _ _ (Some (SDR, (1000, 1))) (finish_sdr (1000, 1) 500));
    [intros x [= <-]; left|constructor]|].
  change (finish_sdr (1000, 1) 500 ex_t2) with ex_t3. eapply rtc_l; [apply ps_read|].
  apply rtc_once. apply (ps_start ex_t3 _ _ _ ex_done TreeD (pollStartSDRTreeD true ex_done 8) ex_t4);
    [vm_compute; left|constructor|vm_compute; reflexivity].
Qed.

Lemma pipeline_stage_order_witness :
  p_task ex_last TreeD = Some 8 /\ (prereq TreeD ex_last = true \/ (1000, 1) ∈ (∅ : gset (Z * Z))).
Proof.
  split; [vm_compute; reflexivity|].
  apply (pipeline_stage_order (mkPipe ex_t4 (poll_rows ex_t3 ++ poll_rows ex_t1 ++ [])
    [(TreeD, (1000, 1)); (SDR, (1000, 1))] ∅) (1000, 1) ex_last TreeD); [exact seal_reach4|vm_compute; reflexivity|left; discriminate].
Defined.

(** A sector whose trees are done is read by two pollers; the first starts the synthetic
    proof, which fails and resets the trees; the second starts it again on its copy. *)
Definition ex_t5 : table := finish_tree_d (1000, 1) ex_t4.
Definition ex_with_d : pollTask := default ex_row (ex_t5 !! (1000, 1)).
Definition ex_t6 : table := attempt (pollStartSDRTreeRC true ex_with_d 9) ex_t5.
Definition ex_t7 : table := finish_tree_rc (1000, 1) 0 ex_t6.
Definition ex_with_trees : pollTask := default ex_row (ex_t7 !! (1000, 1)).
Definition ex_t8 : table := attempt (pollStartSynth true ex_with_trees 10) ex_t7.
Definition ex_t9 : table := resetSectorSealingState (1000, 1) ex_t8.
Definition ex_t10 : table := attempt (pollStartSynth true ex_with_trees 11) ex_t9.
Definition ex_stale : pollTask := default ex_row (ex_t10 !! (1000, 1)).

Theorem stale_start_after_reset : exists p, rtc pstep (mkPipe ∅ [] [] ∅) p /\ tb p !! (1000, 1) = Some ex_stale /\ raced p = {[ (1000, 1) ]} /\
  p_task ex_stale Synth = Some 11 /\ p_after ex_stale TreeR = false /\ p_after ex_stale TreeD = false.
Proof.
  set (sn := poll_rows ex_t7 ++ poll_rows ex_t5 ++ poll_rows ex_t3 ++ poll_rows ex_t1 ++ []).
  exists (mkPipe ex_t10 sn ((Synth, (1000, 1)) :: [] ++ [(TreeC, (1000, 1)); (TreeD, (1000, 1)); (SDR, (1000, 1))]) {[ (1000, 1) ]}). cbn [tb raced].
  split; [|split_and!; vm_compute; reflexivity]. etransitivity; [exact seal_reach4|].
  eapply rtc_l; [apply (ps_finish ex_t4 _ _ _ (Some (TreeD, (1000, 1))) (finish_tree_d (1000, 1))); [intros x [= <-]; left|constructor]|].
  change (finish_tree_d (1000, 1) ex_t4) with ex_t5. eapply rtc_l; [apply ps_read|].
  eapply rtc_l; [apply (ps_start ex_t5 _ _ _ ex_with_d TreeC (pollStartSDRTreeRC true ex_with_d 9) ex_t6); [vm_compute; left|constructor|vm_compute; reflexivity]|].
  eapply rtc_l; [apply (ps_finish ex_t6 _ _ _ (Some (TreeC, (1000, 1))) (finish_tree_rc (1000, 1) 0)); [intros x [= <-]; left|constructor]|].
  change (finish_tree_rc (1000, 1) 0 ex_t6) with ex_t7. eapply rtc_l; [apply ps_read|]. fold sn.
  eapply rtc_l; [apply (ps_start ex_t7 sn _ _ ex_with_trees Synth (pollStartSynth true ex_with_trees 10) ex_t8); [vm_compute; left|constructor|vm_compute; reflexivity]|].
  eapply rtc_l; [apply (ps_reset ex_t8 sn [] Synth (1000, 1)); by right|]. change (resetSectorSealingState (1000, 1) ex_t8) with ex_t9.
  replace (if races _ _ _ _ then _ else _) with ({[ (1000, 1) ]} : gset (Z * Z)) by (vm_compute; reflexivity).
  apply rtc_once. apply (ps_start ex_t9 sn _ _ ex_with_trees Synth (pollStartSynth true ex_with_trees 11) ex_t10); [vm_compute; left|constructor|vm_compute; reflexivity].
Qed.

Definition ex_ready (n : Z) : pollTask :=
  mkPoll 1000 n 8 (fun _ => None) (fun s => match s with PrecommitMsg | PoRep | Finalize | MoveStorage | CommitMsg => false | _ => true end)
    false false (Some (100 + n)) None None None None (Some n) None false false.

Definition ex_batches : list BatchCandidate :=
  precommit_batches (fun _ => None) 10 (mkBatchCfg 2 0 0)
    {[ (1000, 1) := ex_ready 1; (1000, 2) := ex_ready 2; (1000, 3) := ex_ready 3 ]}.

