(* ===== verification/GoStd.v ===== *)
(** * What the storage components use of Go's standard library and of SQL

    [strings.Split] and [strings.Join], the order in which a map is ranged over
    or a query lists its rows (arbitrary, the class [Enum]), stable sorting, and
    the outcome of a statement as its caller sees it. *)

From stdpp Require Import base gmap sets list strings sorting.
From Stdlib Require Import ZArith Lia Ascii.
From S2P Require Import Prelude.

(** ** Strings *)

(** [strings.Split] for a separator of one character: one more part than there
    are separators, so the empty string has one (empty) part. *)
Fixpoint Split (sep : ascii) (s : string) : list string :=
  match s with
  | EmptyString => [EmptyString]
  | String c s' =>
      if bool_decide (c = sep) then EmptyString :: Split sep s'
      else match Split sep s' with
           | [] => [String c EmptyString]
           | w :: ws => String c w :: ws
           end
  end.

(** [strings.Join] *)
Fixpoint Join (sep : ascii) (l : list string) : string :=
  match l with
  | [] => EmptyString
  | [x] => x
  | x :: l' => x +:+ String sep (Join sep l')
  end.

(** The characters of a string do not include the separator. *)
Fixpoint has_no (sep : ascii) (s : string) : bool :=
  match s with
  | EmptyString => true
  | String c s' => negb (bool_decide (c = sep)) && has_no sep s'
  end.

Lemma Split_cons_ne sep s : exists w ws, Split sep s = w :: ws.
Proof.
  destruct s as [|c s]; cbn; [eauto|]. case_ifs; [eauto|]. destruct (Split sep s); eauto.
Qed.

Lemma Split_single sep s : has_no sep s = true -> Split sep s = [s].
Proof.
  induction s as [|c s IH]; [done|]. cbn. intros H. bool_props. rewrite bool_decide_eq_false_2 by done.
  by rewrite IH.
Qed.

Lemma Split_app_sep sep s t : has_no sep s = true -> Split sep (s +:+ String sep t) = s :: Split sep t.
Proof.
  induction s as [|c s IH]; intros H.
  - change (EmptyString +:+ String sep t) with (String sep t). cbn. by rewrite bool_decide_eq_true_2.
  - change (String c s +:+ String sep t) with (String c (s +:+ String sep t)). cbn in H |- *. bool_props.
    rewrite bool_decide_eq_false_2 by done. by rewrite IH.
Qed.

(** The round trip of the comma separated columns. *)
Lemma Split_Join sep l : l <> [] -> Forall (fun s => has_no sep s = true) l -> Split sep (Join sep l) = l.
Proof.
  intros Hne Hl. induction Hl as [|x l Hx Hl IH]; [done|].
  destruct l as [|y l]; [by apply Split_single|].
  change (Join sep (x :: y :: l)) with (x +:+ String sep (Join sep (y :: l))).
  rewrite Split_app_sep by done. by rewrite IH.
Qed.

Lemma Join_Split sep s : Join sep (Split sep s) = s.
Proof.
  induction s as [|c s IH]; [done|]. cbn. case_ifs; bool_props.
  - subst. destruct (Split_cons_ne sep s) as (w & ws & E). rewrite E in IH |- *.
    change (Join sep (EmptyString :: w :: ws)) with (String sep (Join sep (w :: ws))). by rewrite IH.
  - destruct (Split_cons_ne sep s) as (w & ws & E). rewrite E in IH |- *. rewrite <- IH. by destruct ws.
Qed.

(** [splitString] of [lib/paths/db_index.go]: [strings.Split], except that the
    empty string has no parts. *)
Definition splitString (str : string) : list string :=
  if bool_decide (str = EmptyString) then [] else Split "," str.

Lemma Join_empty l : Forall (fun s => s <> EmptyString) l -> Join "," l = EmptyString -> l = [].
Proof.
  intros Hl. destruct l as [|x [|y l]]; [done| |].
  - inversion Hl; subst. done.
  - inversion Hl as [|? ? Hx _]; subst.
    change (Join "," (x :: y :: l)) with (x +:+ String "," (Join "," (y :: l))).
    destruct x as [|c x]; [done|]. intros E. discriminate E.
Qed.

Lemma splitString_Join l :
  Forall (fun s => has_no "," s = true /\ s <> EmptyString) l -> splitString (Join "," l) = l.
Proof.
  intros Hl. apply Forall_and in Hl as [Hc He]. unfold splitString. case_ifs; bool_props.
  - by rewrite (Join_empty l He).
  - apply Split_Join; [|done]. intros ->. done.
Qed.

(** ** Orders that the program does not choose

    The order of the rows of a query without [ORDER BY], and of the iteration
    over a Go map. *)
Class Enum := {
  enum : forall {A : Type}, list A -> list A;
  enum_perm : forall {A : Type} (l : list A), enum l ≡ₚ l
}.

#[export] Instance Enum_id : Enum | 100 :=
  {| enum A l := l; enum_perm A l := Permutation_refl l |}.

Lemma elem_of_enum `{Enum} {A} (x : A) l : x ∈ enum l <-> x ∈ l.
Proof. by rewrite enum_perm. Qed.

(** ** Statements

    A statement (or a transaction) succeeds, fails without effect, or is applied
    although its caller gets an error (the reply is lost). *)
Inductive sql_error := SqlSerialization | SqlDuplicateRequest | SqlOther.

Inductive exec := Applied | Rejected (e : sql_error) | LostReply (e : sql_error).

Definition run_exec {S} (x : exec) (s s' : S) : S * option sql_error :=
  match x with
  | Applied => (s', None)
  | Rejected e => (s, Some e)
  | LostReply e => (s', Some e)
  end.

(** ** [sort.SliceStable]

    [less] gets two indices, as in Go, and the slice as it is at the moment of the
    comparison.  The bounds on the recursion are the length of the slice: every
    merge halves its range, every rotation shrinks one side, and the block size
    doubles. *)
Section SliceStable.
Context {A : Type}.
Variable less : list A -> nat -> nat -> bool.

Definition swap_at (l : list A) (i j : nat) : list A :=
  match l !! i, l !! j with
  | Some x, Some y => <[i := y]> (<[j := x]> l)
  | _, _ => l
  end.

(** The inner loop of [insertionSort_func]: [for j := i; j > a && less(j, j-1); j--]. *)
Fixpoint insert_down (l : list A) (a j : nat) : list A :=
  match j with
  | O => l
  | S j' => if (a <? j)%nat && less l j j' then insert_down (swap_at l j j') a j' else l
  end.

(** [insertionSort_func(data, a, b)] *)
Definition insertionSort (l : list A) (a b : nat) : list A :=
  foldl (fun l i => insert_down l a i) l (seq (a + 1) (b - (a + 1))).

(** [swapRange_func(data, a, b, n)] *)
Definition swapRange (l : list A) (a b n : nat) : list A :=
  foldl (fun l i => swap_at l (a + i) (b + i)) l (seq 0 n).

(** [rotate_func(data, a, m, b)]; the measure [i + j] falls in every iteration. *)
Fixpoint rotate_loop (fuel : nat) (l : list A) (m i j : nat) : list A :=
  match fuel with
  | O => l
  | S fuel =>
      if (i =? j)%nat then swapRange l (m - i) m i
      else if (j <? i)%nat then rotate_loop fuel (swapRange l (m - i) m j) m (i - j) j
      else rotate_loop fuel (swapRange l (m - i) (m + j - i) i) m i (j - i)
  end.

Definition rotate (l : list A) (a m b : nat) : list A :=
  rotate_loop (b - a) l m (m - a) (b - m).

(** Moves the element at [i] to [k] by adjacent swaps. *)
Definition bubble_up (l : list A) (i k : nat) : list A :=
  foldl (fun l k => swap_at l k (k + 1)) l (seq i (k - i)).

Definition bubble_down (l : list A) (i k : nat) : list A :=
  foldl (fun l k => swap_at l k (k - 1)) l (rev (seq (k + 1) (i - k))).

(** The binary searches of [symMerge_func]. *)
Fixpoint bsearch (fuel : nat) (right : nat -> bool) (i j : nat) : nat :=
  match fuel with
  | O => i
  | S fuel =>
      if (i <? j)%nat then
        let h := ((i + j) / 2)%nat in
        if right h then bsearch fuel right (h + 1) j else bsearch fuel right i h
      else i
  end.

(** [symMerge_func(data, a, m, b)] *)
Fixpoint symMerge (fuel : nat) (l : list A) (a m b : nat) : list A :=
  match fuel with
  | O => l
  | S fuel =>
      if (m - a =? 1)%nat then
        let i := bsearch (b - m) (fun h => less l h a) m b in
        bubble_up l a (i - 1)
      else if (b - m =? 1)%nat then
        let i := bsearch (m - a) (fun h => negb (less l m h)) a m in
        bubble_down l m i
      else
        let mid := ((a + b) / 2)%nat in
        let n := (mid + m)%nat in
        let '(start, r) := if (mid <? m)%nat then ((n - b)%nat, mid) else (a, m) in
        let p := (n - 1)%nat in
        let start := bsearch (r - start) (fun c => negb (less l (p - c) c)) start r in
        let end_ := (n - start)%nat in
        let l := if (start <? m)%nat && (m <? end_)%nat then rotate l start m end_ else l in
        let l := if (a <? start)%nat && (start <? mid)%nat then symMerge fuel l a start mid else l in
        if (mid <? end_)%nat && (end_ <? b)%nat then symMerge fuel l mid end_ b else l
  end.

Fixpoint insert_blocks (fuel : nat) (l : list A) (a n : nat) : list A :=
  match fuel with
  | O => l
  | S fuel =>
      if (a + 20 <=? n)%nat then insert_blocks fuel (insertionSort l a (a + 20)) (a + 20) n
      else insertionSort l a n
  end.

(** One pass of merges of blocks of size [bs]. *)
Fixpoint merge_pass (fuel : nat) (l : list A) (a bs n : nat) : list A :=
  match fuel with
  | O => l
  | S fuel =>
      if (a + 2 * bs <=? n)%nat then
        merge_pass fuel (symMerge n l a (a + bs) (a + 2 * bs)) (a + 2 * bs) bs n
      else if (a + bs <? n)%nat then symMerge n l a (a + bs) n else l
  end.

Fixpoint merge_passes (fuel : nat) (l : list A) (bs n : nat) : list A :=
  match fuel with
  | O => l
  | S fuel => if (bs <? n)%nat then merge_passes fuel (merge_pass n l 0 bs n) (2 * bs) n else l
  end.

(** [stable_func(data, n)] with its block size of 20. *)
Definition SliceStable (l : list A) : list A :=
  let n := length l in merge_passes n (insert_blocks n l 0 n) 20 n.

(** Sorting only exchanges elements. *)
Lemma swap_at_perm l i j : swap_at l i j ≡ₚ l.
Proof.
  unfold swap_at. destruct (l !! i) as [x|] eqn:Hi; [|done]. destruct (l !! j) as [y|] eqn:Hj; [|done].
  destruct (decide (i = j)) as [->|Hne].
  - assert (x = y) as -> by congruence. rewrite list_insert_insert_eq, list_insert_id; done.
  - apply Permutation_inj. split; [by rewrite !length_insert|].
    exists (fun k => if decide (k = i) then j else if decide (k = j) then i else k). split.
    + intros k1 k2 E. destruct (decide (k1 = i)), (decide (k1 = j)), (decide (k2 = i)), (decide (k2 = j)); congruence.
    + intros k. destruct (decide (k = i)) as [->|Hki].
      { rewrite list_lookup_insert_eq; [done|]. rewrite length_insert. by eapply lookup_lt_Some. }
      rewrite list_lookup_insert_ne by done. destruct (decide (k = j)) as [->|Hkj].
      { rewrite list_lookup_insert_eq; [done|]. by eapply lookup_lt_Some. }
      by rewrite list_lookup_insert_ne.
Qed.

Lemma foldl_perm {B} (f : list A -> B -> list A) (ks : list B) l :
  (forall l b, f l b ≡ₚ l) -> foldl f l ks ≡ₚ l.
Proof. intros Hf. revert l. induction ks as [|b ks IH]; intros l; cbn; [done|]. by rewrite IH, Hf. Qed.

Lemma insert_down_perm l a j : insert_down l a j ≡ₚ l.
Proof.
  revert l. induction j as [|j IH]; intros l; cbn [insert_down]; [done|]. case_ifs; [|done].
  by rewrite IH, swap_at_perm.
Qed.

Lemma insertionSort_perm l a b : insertionSort l a b ≡ₚ l.
Proof. apply foldl_perm. intros. apply insert_down_perm. Qed.

Lemma swapRange_perm l a b n : swapRange l a b n ≡ₚ l.
Proof. apply foldl_perm. intros. apply swap_at_perm. Qed.

Lemma rotate_perm l a m b : rotate l a m b ≡ₚ l.
Proof.
  unfold rotate. generalize (b - a)%nat (m - a)%nat (b - m)%nat. intros fuel. revert l.
  induction fuel as [|fuel IH]; intros l i j; cbn [rotate_loop]; [done|].
  case_ifs; rewrite ?IH; apply swapRange_perm.
Qed.

Lemma symMerge_perm fuel l a m b : symMerge fuel l a m b ≡ₚ l.
Proof.
  revert l a m b. induction fuel as [|fuel IH]; intros l a m b; cbn [symMerge]; [done|].
  case_match; [apply foldl_perm; intros; apply swap_at_perm|].
  case_match; [apply foldl_perm; intros; apply swap_at_perm|].
  destruct (if ((a + b) / 2 <? m)%nat then _ else _) as [start r]. cbv zeta.
  repeat (case_match; rewrite ?IH, ?rotate_perm); done.
Qed.

Lemma insert_blocks_perm fuel l a n : insert_blocks fuel l a n ≡ₚ l.
Proof.
  revert l a. induction fuel as [|fuel IH]; intros l a; cbn [insert_blocks]; [done|].
  case_ifs; rewrite ?IH; apply insertionSort_perm.
Qed.

Lemma merge_pass_perm fuel l a bs n : merge_pass fuel l a bs n ≡ₚ l.
Proof.
  revert l a. induction fuel as [|fuel IH]; intros l a; cbn [merge_pass]; [done|].
  case_ifs; rewrite ?IH, ?symMerge_perm; done.
Qed.

Lemma merge_passes_perm fuel l bs n : merge_passes fuel l bs n ≡ₚ l.
Proof.
  revert l bs. induction fuel as [|fuel IH]; intros l bs; cbn [merge_passes]; [done|].
  case_ifs; [|done]. by rewrite IH, merge_pass_perm.
Qed.

Lemma SliceStable_perm l : SliceStable l ≡ₚ l.
Proof. unfold SliceStable. by rewrite merge_passes_perm, insert_blocks_perm. Qed.

End SliceStable.
