(* ===== verification/StorageIndex.v ===== *)
(** * The sector index ([lib/paths/db_index.go], [lib/paths/index.go])

    Which storage paths exist, where they are served, what they accept, and which
    files of which sectors they hold.  The state is two tables of the database,
    [storage_path] and [sector_location] (schema
    [harmony/harmonydb/sql/20230712-sector_index.sql]); an operation is a function
    on them.  The outcome of every statement is an input ([exec]), a Go panic is
    [None].  [url_parse] stands for [url.Parse] (whether a string is accepted),
    [url_sector] for the URL of a sector file below a base URL, and [address_id]
    for [address.NewFromString] followed by [address.IDFromAddress].  Metrics and
    alerts are dropped. *)

From stdpp Require Import base gmap sets list strings sorting pretty.
From Stdlib Require Import ZArith Lia Ascii.
From S2P Require Import Prelude FileType SectorLocks GoStd.

(** ** Data *)

(** [storiface.StorageInfo] *)
Record StorageInfo := mkStorageInfo {
  si_ID : string;
  si_URLs : list string;
  si_Weight : Z;
  si_MaxStorage : Z;
  si_CanSeal : bool;
  si_CanStore : bool;
  si_Groups : list string;
  si_AllowTo : list string;
  si_AllowTypes : list string;
  si_DenyTypes : list string;
  si_AllowMiners : list string;
  si_DenyMiners : list string
}.

(** [fsutil.FsStat] *)
Record FsStat := mkFsStat {
  fs_Capacity : Z; fs_Available : Z; fs_FSAvailable : Z; fs_Reserved : Z; fs_Max : Z; fs_Used : Z }.

(** [storiface.SectorStorageInfo]; its miner lists are never filled in by the index. *)
Record SectorStorageInfo := mkSectorStorageInfo {
  ssi_ID : string;
  ssi_URLs : list string;
  ssi_BaseURLs : list string;
  ssi_Weight : Z;
  ssi_CanSeal : bool;
  ssi_CanStore : bool;
  ssi_Primary : bool;
  ssi_AllowTypes : list string;
  ssi_DenyTypes : list string;
  ssi_AllowMiners : list string;
  ssi_DenyMiners : list string
}.

(** A row of [storage_path]: lists are stored joined with commas. *)
Record path_row := mkPath {
  p_urls : option string;
  p_weight : Z;
  p_max_storage : Z;
  p_can_seal : bool;
  p_can_store : bool;
  p_groups : string;
  p_allow_to : string;
  p_allow_types : string;
  p_deny_types : string;
  p_capacity : Z;
  p_available : Z;
  p_fs_available : Z;
  p_reserved : Z;
  p_used : Z;
  p_last_heartbeat : time;
  p_heartbeat_err : option string;
  p_allow_miners : string;
  p_deny_miners : string
}.

(** A row of [sector_location]. *)
Record loc_row := mkLoc {
  l_primary : bool;
  l_read_ts : option time;
  l_read_refs : Z;
  l_write_ts : option time;
  l_write_owner : option string
}.

(** The primary key: sector, file type and storage path. *)
Abbreviation loc_key := (SectorID * SectorFileType * string)%type.

Record index_db := mkIndex {
  storage_path : gmap string path_row;
  sector_location : gmap loc_key loc_row
}.

(** [storiface.PathType] is a string. *)
Definition PathStorage : string := "storage".
Definition PathSealing : string := "sealing".

Definition NoMinerFilter : Z := 0.
Definition HeartbeatInterval : duration := 10 * Second.
Definition SkippedHeartbeatThresh : duration := HeartbeatInterval * 5.

Inductive index_error := SqlFailed (e : sql_error) | BadURL | InvalidFileType | NoRows
  | SpaceError (e : ft_error) | UnexpectedPathType | BadMinerAddress | UnknownFileTypes | AlreadyLocked.

(** [SectorDeclaration] *)
Record SectorDeclaration := mkDeclaration {
  sd_StorageID : string; sd_SectorID : SectorID; sd_FileType : SectorFileType; sd_Primary : bool }.

#[export] Instance SectorDeclaration_eq_dec : EqDecision SectorDeclaration.
Proof. solve_decision. Defined.

Section DBIndex.
Context `{Enum}.
Variable url_parse : string -> bool.
Variable url_sector : string -> SectorFileType -> SectorID -> option string.
Variable address_id : string -> option Z.
Implicit Types db : index_db.

(** ** Attaching and detaching paths *)

(** The elements of [b] that are not in [a], appended; the map is built from [a]
    only, so an element that occurs twice in [b] is appended twice. *)
Definition union (a b : list string) : list string :=
  a ++ List.filter (fun elem => negb (bool_decide (elem ∈ a))) b.

(** The loops over [AllowTypes] and [DenyTypes]: unknown names are dropped. *)
Definition known_types (l : list string) : list string :=
  List.filter (fun typ => is_ok (TypeFromString typ)) l.

(** The columns that an attach writes, from the configuration of the path. *)
Definition attach_update (si : StorageInfo) (urls : string) (now : time) (r : path_row) : path_row :=
  mkPath (Some urls) (si_Weight si) (si_MaxStorage si) (si_CanSeal si) (si_CanStore si)
    (Join "," (si_Groups si)) (Join "," (si_AllowTo si)) (Join "," (si_AllowTypes si)) (Join "," (si_DenyTypes si))
    (p_capacity r) (p_available r) (p_fs_available r) (p_reserved r) (p_used r) now (p_heartbeat_err r)
    (Join "," (si_AllowMiners si)) (Join "," (si_DenyMiners si)).

Definition attach_insert (si : StorageInfo) (st : FsStat) (now : time) : path_row :=
  mkPath (Some (Join "," (si_URLs si))) (si_Weight si) (si_MaxStorage si) (si_CanSeal si) (si_CanStore si)
    (Join "," (si_Groups si)) (Join "," (si_AllowTo si)) (Join "," (si_AllowTypes si)) (Join "," (si_DenyTypes si))
    (fs_Capacity st) (fs_Available st) (fs_FSAvailable st) (fs_Reserved st) (fs_Used st) now None
    (Join "," (si_AllowMiners si)) (Join "," (si_DenyMiners si)).

(** The transaction of [StorageAttach]. *)
Definition attach_tx (si : StorageInfo) (st : FsStat) (now : time) db : index_db :=
  match storage_path db !! si_ID si with
  | Some r =>
      let currUrls := match p_urls r with Some u => Split "," u | None => [] end in
      let currUrls := union currUrls (si_URLs si) in
      mkIndex (<[si_ID si := attach_update si (Join "," currUrls) now r]> (storage_path db)) (sector_location db)
  | None => mkIndex (<[si_ID si := attach_insert si st now]> (storage_path db)) (sector_location db)
  end.

Definition with_types (si : StorageInfo) (allow deny : list string) : StorageInfo :=
  mkStorageInfo (si_ID si) (si_URLs si) (si_Weight si) (si_MaxStorage si) (si_CanSeal si) (si_CanStore si)
    (si_Groups si) (si_AllowTo si) allow deny (si_AllowMiners si) (si_DenyMiners si).

Definition sql_fail (r : index_db * option sql_error) : index_db * option index_error :=
  (r.1, SqlFailed <$> r.2).

Definition StorageAttach (si : StorageInfo) (st : FsStat) (now : time) (x : exec) db
    : index_db * option index_error :=
  let si := with_types si (known_types (si_AllowTypes si)) (known_types (si_DenyTypes si)) in
  if forallb url_parse (si_URLs si) then sql_fail (run_exec x db (attach_tx si st now db))
  else (db, Some BadURL).

Definition set_urls (u : string) (r : path_row) : path_row :=
  mkPath (Some u) (p_weight r) (p_max_storage r) (p_can_seal r) (p_can_store r) (p_groups r) (p_allow_to r)
    (p_allow_types r) (p_deny_types r) (p_capacity r) (p_available r) (p_fs_available r) (p_reserved r) (p_used r)
    (p_last_heartbeat r) (p_heartbeat_err r) (p_allow_miners r) (p_deny_miners r).

(** [DELETE FROM sector_location WHERE storage_id=$1] *)
Definition drop_locations (id : string) (locs : gmap loc_key loc_row) : gmap loc_key loc_row :=
  filter (fun kv => kv.1.2 <> id) locs.

Definition StorageDetach (id url : string) (q : option sql_error) (x : exec) db : index_db * option index_error :=
  match q with
  | Some e => (db, Some (SqlFailed e))
  | None =>
      match storage_path db !! id with
      | None => (db, Some NoRows)
      | Some r =>
          let urls := splitString (default EmptyString (p_urls r)) in
          let modUrls := List.filter (fun u => negb (bool_decide (u = url))) urls in
          if (length modUrls =? length urls)%nat then (db, None)
          else if (0 <? length modUrls)%nat then
            sql_fail (run_exec x db
              (mkIndex (alter (set_urls (Join "," modUrls)) id (storage_path db)) (sector_location db)))
          else
            sql_fail (run_exec x db
              (mkIndex (delete id (storage_path db)) (drop_locations id (sector_location db))))
      end
  end.

(** ** Health reports *)

Definition set_health (st : FsStat) (now : time) (r : path_row) : path_row :=
  mkPath (p_urls r) (p_weight r) (p_max_storage r) (p_can_seal r) (p_can_store r) (p_groups r) (p_allow_to r)
    (p_allow_types r) (p_deny_types r) (fs_Capacity st) (fs_Available st) (fs_FSAvailable st) (fs_Reserved st)
    (fs_Used st) now (p_heartbeat_err r) (p_allow_miners r) (p_deny_miners r).

Definition health_update (id : string) (st : FsStat) (now : time) db : index_db :=
  mkIndex (alter (set_health st now) id (storage_path db)) (sector_location db).

(** The [UPDATE] is retried while it fails with a serialization error; every
    attempt has its time and its outcome.  The result is [None] while the loop
    still waits.  The row is then read for the metrics, which fails when there is
    none. *)
Fixpoint StorageReportHealth (id : string) (st : FsStat) (attempts : list (time * exec)) (q : option sql_error) db
    : index_db * option (option index_error) :=
  match attempts with
  | [] => (db, None)
  | (now, x) :: attempts =>
      match run_exec x db (health_update id st now db) with
      | (db', Some SqlSerialization) => StorageReportHealth id st attempts q db'
      | (db', Some e) => (db', Some (Some (SqlFailed e)))
      | (db', None) =>
          (db', Some match q, storage_path db' !! id with
                     | Some e, _ => Some (SqlFailed e)
                     | None, None => Some NoRows
                     | None, Some _ => None
                     end)
      end
  end.

(** ** Declaring and dropping sector files *)

(** [checkFileType]: whether some path type has no bit in common with the
    argument. *)
Definition checkFileType (fileType : SectorFileType) : bool :=
  existsb (fun fileTypeValid => Z.land fileTypeValid fileType =? 0) PathTypes.

(** [INSERT ... ON CONFLICT DO UPDATE SET is_primary = ...]: a file that was
    declared primary stays primary. *)
Definition declare_upsert (k : loc_key) (primary : bool) db : index_db :=
  mkIndex (storage_path db)
    (match sector_location db !! k with
     | None => <[k := mkLoc primary None 0 None None]> (sector_location db)
     | Some r =>
         let p := if negb (l_primary r) && primary then true else l_primary r in
         <[k := mkLoc p (l_read_ts r) (l_read_refs r) (l_write_ts r) (l_write_owner r)]> (sector_location db)
     end).

Definition StorageDeclareSector (storageID : string) (s : SectorID) (ft : SectorFileType) (primary : bool)
    (x : exec) db : index_db * option index_error :=
  if negb (checkFileType ft) then (db, Some InvalidFileType)
  else sql_fail (run_exec x db (declare_upsert (s, ft, storageID) primary db)).

Definition StorageDropSector (storageID : string) (s : SectorID) (ft : SectorFileType) (x : exec) db
    : index_db * option index_error :=
  if negb (checkFileType ft) then (db, Some InvalidFileType)
  else sql_fail (run_exec x db (mkIndex (storage_path db) (delete (s, ft, storageID) (sector_location db)))).

Definition declare_one db (d : SectorDeclaration) : index_db :=
  declare_upsert (sd_SectorID d, sd_FileType d, sd_StorageID d) (sd_Primary d) db.

(** [batchStorageDeclareSectors]: one transaction for all declarations. *)
Definition batchStorageDeclareSectors (declarations : list SectorDeclaration) (x : exec) db
    : index_db * option index_error :=
  match declarations with
  | [] => (db, None)
  | _ =>
      if forallb (fun d => checkFileType (sd_FileType d)) declarations
      then sql_fail (run_exec x db (foldl declare_one db declarations))
      else (db, Some InvalidFileType)
  end.

Definition maxParallelSubBatches : Z := 8.

(** [uniqueDeclarations[start:end]], which panics ([None]) when the bounds are
    not [0 <= start <= end <= len]. *)
Definition slice {A} (l : list A) (start end_ : Z) : option (list A) :=
  if (0 <=? start) && (start <=? end_) && (end_ <=? Z.of_nat (length l))
  then Some (take (Z.to_nat (end_ - start)) (drop (Z.to_nat start) l)) else None.

(** The cut into sub-batches. *)
Definition numSubBatches (numDeclarations : Z) : Z :=
  let n := Z.quot numDeclarations maxParallelSubBatches in
  let n := if Z.rem numDeclarations maxParallelSubBatches =? 0 then n else n + 1 in
  if maxParallelSubBatches <? n then maxParallelSubBatches else n.

Definition subBatchSize (numDeclarations : Z) : Z :=
  Z.quot (numDeclarations + numSubBatches numDeclarations - 1) (numSubBatches numDeclarations).

Definition subBatches {A} (uniqueDeclarations : list A) : option (list (list A)) :=
  let numDeclarations := Z.of_nat (length uniqueDeclarations) in
  let size := subBatchSize numDeclarations in
  mapM (fun i : nat =>
          let start := Z.of_nat i * size in
          let end_ := Z.min (start + size) numDeclarations in
          slice uniqueDeclarations start end_)
       (seq 0 (Z.to_nat (numSubBatches numDeclarations))).

(** The goroutine of a sub-batch: a duplicate request is retried once. *)
Definition sub_batch (x : exec * exec) (batch : list SectorDeclaration) db : index_db * option index_error :=
  match batchStorageDeclareSectors batch x.1 db with
  | (db', Some (SqlFailed SqlDuplicateRequest)) => batchStorageDeclareSectors batch x.2 db'
  | r => r
  end.

(** The goroutines in the order in which their transactions take place; [Wait]
    returns an error if one of them failed. *)
Fixpoint run_sub_batches (l : list ((exec * exec) * list SectorDeclaration)) db : index_db * option index_error :=
  match l with
  | [] => (db, None)
  | (x, b) :: l =>
      let '(db', e) := sub_batch x b db in
      let '(db'', e') := run_sub_batches l db' in
      (db'', match e with Some _ => e | None => e' end)
  end.

(** Declarations equal in all fields are merged ([dedupMap]); the sub-batches run
    concurrently, in the order given by [enum]. *)
Definition BatchStorageDeclareSectors (declarations : list SectorDeclaration)
    (outcome : list SectorDeclaration -> exec * exec) db : option (index_db * option index_error) :=
  match declarations with
  | [] => Some (db, None)
  | _ =>
      let uniqueDeclarations := enum (remove_dups declarations) in
      match subBatches uniqueDeclarations with
      | None => None
      | Some bs => Some (run_sub_batches (enum (map (fun b => (outcome b, b)) bs)) db)
      end
  end.

(** ** Queries *)

(** The entry of a sector in [bySector] of [StorageList]: the union of the types
    declared for it on the path. *)
Definition declared_types (locs : list loc_key) (s : SectorID) : SectorFileType :=
  foldl (fun acc k => if bool_decide (k.1.1 = s) then Z.lor acc k.1.2 else acc) 0 locs.

Definition StorageList (id : string) (q : option sql_error) db : result (list (SectorID * SectorFileType)) index_error :=
  match q with
  | Some e => Err (SqlFailed e)
  | None =>
      let sectorEntries := enum (List.filter (fun k => bool_decide (k.2 = id)) (map_to_list (sector_location db)).*1) in
      Ok (enum (map (fun s => (s, declared_types sectorEntries s)) (remove_dups (map (fun k => k.1.1) sectorEntries))))
  end.

(** [MinerFilter]; the inner result is [proceed]. *)
Fixpoint checkMinerInList (minersList : list string) (miner : Z) : result bool index_error :=
  match minersList with
  | [] => Ok false
  | a :: l =>
      match address_id a with
      | None => Err BadMinerAddress
      | Some mid => if mid =? miner then Ok true else checkMinerInList l miner
      end
  end.

Definition MinerFilter (allowMiners denyMiners : list string) (miner : Z) : result bool index_error :=
  let allowed :=
    if (0 <? length allowMiners)%nat then checkMinerInList allowMiners miner else Ok true in
  match allowed with
  | Err e => Err e
  | Ok false => Ok false
  | Ok true =>
      if (0 <? length denyMiners)%nat then
        match checkMinerInList denyMiners miner with
        | Err e => Err e
        | Ok found => Ok (negb found)
        end
      else Ok true
  end.

(** The row has a recent heartbeat and no error. *)
Definition healthy (now : time) (r : path_row) : bool :=
  (now - SkippedHeartbeatThresh <? p_last_heartbeat r) && negb (bool_decide (is_Some (p_heartbeat_err r))).

(** The types of [fts] that the index knows of sector [s] on path [id]. *)
Definition types_on db (s : SectorID) (fts : list SectorFileType) (id : string) : list SectorFileType :=
  List.filter (fun ft => bool_decide (is_Some (sector_location db !! (s, ft, id)))) fts.

Definition primary_on db (s : SectorID) (id : string) (ft : SectorFileType) : bool :=
  match sector_location db !! (s, ft, id) with Some r => l_primary r | None => false end.

(** The first query of [findSectorUncached]: one row per path that holds one of
    the types, with their number and whether one of them is primary. *)
Definition holder_rows db (s : SectorID) (fts : list SectorFileType) : list (string * path_row * Z * bool) :=
  enum (omap (fun '(id, r) =>
          match types_on db s fts id with
          | [] => None
          | held => Some (id, r, Z.of_nat (length held), existsb (primary_on db s id) held)
          end) (map_to_list (storage_path db))).

(** Rows are read into Go strings: a NULL in [urls] fails the whole query. *)
Definition scan_urls (r : path_row) : bool := bool_decide (is_Some (p_urls r)).

Definition row_urls (r : path_row) : list string := splitString (default EmptyString (p_urls r)).

(** The URLs of the file below the base URLs of a path; [None] when one of them
    does not parse. *)
Definition sector_urls (r : path_row) (ft : SectorFileType) (s : SectorID) : option (list string * list string) :=
  match mapM (fun u => url_sector u ft s) (row_urls r) with
  | None => None
  | Some urls => Some (urls, row_urls r)
  end.

(** [allowList]: [None] is the nil map, which allows every group. *)
Definition add_allowed (allowList : option (list string)) (r : path_row) : option (list string) :=
  let allowTo := splitString (p_allow_to r) in
  match allowList with
  | Some groups => if (0 <? length allowTo)%nat then Some (groups ++ allowTo) else None
  | None => None
  end.

Definition find_info (id : string) (r : path_row) (urls burls : list string) (weight : Z) (primary : bool)
    : SectorStorageInfo :=
  mkSectorStorageInfo id urls burls weight (p_can_seal r) (p_can_store r) primary
    (splitString (p_allow_types r)) (splitString (p_deny_types r)) [] [].

(** The loop over the paths that hold the sector. *)
Fixpoint holders_loop (ft : SectorFileType) (s : SectorID) (rows : list (string * path_row * Z * bool))
    (allowList : option (list string)) (result : list SectorStorageInfo)
    : Prelude.result (list SectorStorageInfo * option (list string)) index_error :=
  match rows with
  | [] => Ok (result, allowList)
  | (id, r, count, primary) :: rows =>
      match sector_urls r ft s with
      | None => Err BadURL
      | Some (urls, burls) =>
          holders_loop ft s rows (add_allowed allowList r)
            (result ++ [find_info id r urls burls (u64 (p_weight r * count)) primary])
      end
  end.

Definition group_allowed (allowList : option (list string)) (r : path_row) : bool :=
  match allowList with
  | None => true
  | Some l => existsb (fun g => bool_decide (g ∈ l)) (splitString (p_groups r))
  end.

(** The second query: paths that could take the sector. *)
Definition fetch_rows db (now : time) (spaceReq : Z) : list (string * path_row) :=
  enum (List.filter (fun '(_, r) => p_can_seal r && (spaceReq <=? p_available r) && healthy now r)
          (map_to_list (storage_path db))).

(** The loop over them. *)
Fixpoint fetch_loop (ft : SectorFileType) (s : SectorID) (holders : list string) (allowList : option (list string))
    (rows : list (string * path_row)) (result : list SectorStorageInfo)
    : Prelude.result (list SectorStorageInfo) index_error :=
  match rows with
  | [] => Ok result
  | (id, r) :: rows =>
      if bool_decide (id ∈ holders) then fetch_loop ft s holders allowList rows result
      else if negb (AnyAllowed ft (splitString (p_allow_types r)) (splitString (p_deny_types r)))
      then fetch_loop ft s holders allowList rows result
      else match MinerFilter (splitString (p_allow_miners r)) (splitString (p_deny_miners r)) (Miner s) with
           | Err e => Err e
           | Ok false => fetch_loop ft s holders allowList rows result
           | Ok true =>
               if negb (group_allowed allowList r) then fetch_loop ft s holders allowList rows result
               else match sector_urls r ft s with
                    | None => Err BadURL
                    | Some (urls, burls) =>
                        fetch_loop ft s holders allowList rows (result ++ [find_info id r urls burls 0 false])
                    end
           end
  end.

Definition findSectorUncached (s : SectorID) (ft : SectorFileType) (ssize : Z) (allowFetch : bool) (now : time)
    (q1 q2 : option sql_error) db : result (list SectorStorageInfo) index_error :=
  match q1 with
  | Some e => Err (SqlFailed e)
  | None =>
      let rows := holder_rows db s (AllSet ft) in
      if negb (forallb (fun row => scan_urls row.1.1.2) rows) then Err (SqlFailed SqlOther) else
      match holders_loop ft s rows (Some []) [] with
      | Err e => Err e
      | Ok (result, allowList) =>
          if negb allowFetch then Ok result
          else match SealSpaceUse ft ssize with
               | Err e => Err (SpaceError e)
               | Ok spaceReq =>
                   match q2 with
                   | Some e => Err (SqlFailed e)
                   | None =>
                       let frows := fetch_rows db now spaceReq in
                       if negb (forallb (fun row => scan_urls row.2) frows) then Err (SqlFailed SqlOther)
                       else fetch_loop ft s (map (fun row => row.1.1.1) rows) allowList frows result
                   end
               end
      end
  end.

(** The cache that a context may carry, by the key [miner-number-type].  Entries
    expire, so the map a call finds is any part of what earlier calls stored. *)
Abbreviation find_cache := (gmap (Z * Z * SectorFileType) (list SectorStorageInfo)).

Definition StorageFindSector (cache : option find_cache) (sector : SectorID) (ft : SectorFileType) (ssize : Z)
    (allowFetch : bool) (now : time) (q1 q2 : option sql_error) db
    : option find_cache * result (list SectorStorageInfo) index_error :=
  match cache with
  | None => (None, findSectorUncached sector ft ssize allowFetch now q1 q2 db)
  | Some c =>
      if allowFetch then (Some c, findSectorUncached sector ft ssize allowFetch now q1 q2 db)
      else
        let cacheKey := (Miner sector, Number sector, ft) in
        match c !! cacheKey with
        | Some info => (Some c, Ok info)
        | None =>
            match findSectorUncached sector ft ssize allowFetch now q1 q2 db with
            | Err e => (Some c, Err e)
            | Ok si => (Some (<[cacheKey := si]> c), Ok si)
            end
        end
  end.

Definition path_info (id : string) (r : path_row) : StorageInfo :=
  mkStorageInfo id (row_urls r) (p_weight r) (p_max_storage r) (p_can_seal r) (p_can_store r)
    (splitString (p_groups r)) (splitString (p_allow_to r)) (splitString (p_allow_types r))
    (splitString (p_deny_types r)) (splitString (p_allow_miners r)) (splitString (p_deny_miners r)).

(** [StorageInfo] reads [qResults[0]]: an unknown path is a panic, [None]. *)
Definition StorageInfo_ (id : string) (q : option sql_error) db : option (result StorageInfo index_error) :=
  match q with
  | Some e => Some (Err (SqlFailed e))
  | None =>
      match storage_path db !! id with
      | None => None
      | Some r =>
          if scan_urls r then Some (Ok (path_info id r)) else Some (Err (SqlFailed SqlOther))
      end
  end.

(** [ORDER BY (available::numeric * weight) DESC] *)
Definition better (a b : string * path_row) : Prop :=
  p_available b.2 * p_weight b.2 <= p_available a.2 * p_weight a.2.

#[local] Instance better_dec : RelDecision better.
Proof. intros a b. unfold better. apply _. Defined.

Definition alloc_rows db (now : time) (pathType : string) (spaceReq : Z) : list (string * path_row) :=
  merge_sort better
    (enum (List.filter (fun '(_, r) =>
        (spaceReq <=? p_available r) && healthy now r &&
        ((bool_decide (pathType = PathSealing) && p_can_seal r) || (bool_decide (pathType = PathStorage) && p_can_store r)))
      (map_to_list (storage_path db)))).

Fixpoint alloc_loop (miner : Z) (rows : list (string * path_row)) (result : list StorageInfo)
    : Prelude.result (list StorageInfo) index_error :=
  match rows with
  | [] => Ok result
  | (id, r) :: rows =>
      let proceed :=
        if miner =? NoMinerFilter then Ok true
        else MinerFilter (splitString (p_allow_miners r)) (splitString (p_deny_miners r)) miner in
      match proceed with
      | Err e => Err e
      | Ok false => alloc_loop miner rows result
      | Ok true => alloc_loop miner rows (result ++ [path_info id r])
      end
  end.

(** The space that is asked for; a context may bring its own function. *)
Definition alloc_space (spaceUse : option (SectorFileType -> Z -> result Z ft_error))
    (allocate : SectorFileType) (ssize : Z) (pathType : string) : result Z index_error :=
  let r :=
    match spaceUse with
    | Some f => Ok (f allocate ssize)
    | None =>
        if bool_decide (pathType = PathSealing) then Ok (SealSpaceUse allocate ssize)
        else if bool_decide (pathType = PathStorage) then Ok (StoreSpaceUse allocate ssize)
        else Err UnexpectedPathType
    end in
  match r with
  | Err e => Err e
  | Ok (Err e) => Err (SpaceError e)
  | Ok (Ok n) => Ok n
  end.

Definition StorageBestAlloc (spaceUse : option (SectorFileType -> Z -> result Z ft_error))
    (allocate : SectorFileType) (ssize : Z) (pathType : string) (miner : Z) (now : time)
    (q : option sql_error) db : result (list StorageInfo) index_error :=
  match alloc_space spaceUse allocate ssize pathType with
  | Err e => Err e
  | Ok spaceReq =>
      match q with
      | Some e => Err (SqlFailed e)
      | None =>
          let rows := alloc_rows db now pathType spaceReq in
          if negb (forallb (fun row => scan_urls row.2) rows) then Err (SqlFailed SqlOther)
          else alloc_loop miner rows []
      end
  end.

End DBIndex.
