(* ===== verification/StorageIndexFacts.v ===== *)
(** * What the sector index promises

    The cut into sub-batches, the equality of a batch with single declarations,
    the round trip of a path's description, and the answers of the queries. *)

From stdpp Require Import base gmap sets list strings sorting pretty.
From Stdlib Require Import ZArith Lia Ascii.
From S2P Require Import Prelude FileType SectorLocks GoStd StorageIndex.

(** ** Sub-batches *)

Lemma numSubBatches_bounds n : 0 < n ->
  1 <= numSubBatches n <= 8 /\ (numSubBatches n - 1) * subBatchSize n <= n /\
  n <= numSubBatches n * subBatchSize n /\ 1 <= subBatchSize n.
Proof.
  intros Hn. unfold subBatchSize.
  assert (1 <= numSubBatches n <= 8 /\ (numSubBatches n - 1) * 8 <= n /\
          (numSubBatches n = 8 \/ n <= numSubBatches n * 8) /\ (numSubBatches n = 8 -> 57 <= n)) as (Hk & Hlo & Hhi & H8).
  { unfold numSubBatches, maxParallelSubBatches.
    rewrite Z.quot_div_nonneg, Z.rem_mod_nonneg by lia.
    pose proof (Z.div_mod n 8 ltac:(lia)). pose proof (Z.mod_pos_bound n 8 ltac:(lia)).
    case_ifs; bool_props; lia. }
  set (k := numSubBatches n) in *. rewrite Z.quot_div_nonneg by lia.
  pose proof (Z.div_mod (n + k - 1) k ltac:(lia)) as Hd. pose proof (Z.mod_pos_bound (n + k - 1) k ltac:(lia)) as Hm.
  set (q := (n + k - 1) / k) in *. split; [done|].
  assert (1 <= q) by nia. split_and!; [|nia|done].
  destruct Hhi as [Hk8|Hhi]; [rewrite Hk8 in *; specialize (H8 eq_refl); nia|].
  assert (q <= 8); nia.
Qed.

Lemma slice_ok {A} (l : list A) start end_ :
  0 <= start <= end_ -> end_ <= Z.of_nat (length l) ->
  slice l start end_ = Some (take (Z.to_nat (end_ - start)) (drop (Z.to_nat start) l)).
Proof.
  intros H1 H2. unfold slice.
  rewrite (proj2 (Z.leb_le 0 start)), (proj2 (Z.leb_le start end_)), (proj2 (Z.leb_le end_ _)) by lia. done.
Qed.

Lemma subBatches_go {A} (l : list A) (size : Z) (m i : nat) :
  1 <= size -> (m = 0%nat -> (Z.of_nat (length l) <= Z.of_nat i * size)) ->
  (Z.of_nat (i + m) - 1) * size <= Z.of_nat (length l) <= Z.of_nat (i + m) * size ->
  exists bs,
    mapM (fun i : nat => let start := Z.of_nat i * size in
                         slice l start (Z.min (start + size) (Z.of_nat (length l)))) (seq i m) = Some bs /\
    concat bs = drop (Z.to_nat (Z.of_nat i * size)) l /\
    Forall (fun b => Z.of_nat (length b) <= size) bs /\ length bs = m.
Proof.
  intros Hsize. revert i. induction m as [|m IH]; intros i H0 Hb.
  - exists []. cbn. rewrite drop_ge; [done|]. specialize (H0 eq_refl). lia.
  - assert (Z.of_nat i * size <= Z.of_nat (length l)) as Hst by nia.
    destruct (IH (S i)) as (bs & E & Hc & Hf & Hl).
    { intros ->. replace (i + 1)%nat with (S i) in Hb by lia. lia. }
    { replace (S i + m)%nat with (i + S m)%nat by lia. done. }
    change (seq i (S m)) with (i :: seq (S i) m). cbn [mapM]. cbv zeta in E |- *.
    rewrite slice_ok by lia. cbn [mbind option_bind]. rewrite E. cbn [mbind option_bind mret option_ret].
    eexists. split; [reflexivity|]. cbn [concat length]. rewrite Hc. split_and!.
    + destruct (decide (Z.of_nat i * size + size <= Z.of_nat (length l))).
      * rewrite Z.min_l by lia. replace (Z.to_nat (Z.of_nat (S i) * size)) with (Z.to_nat (Z.of_nat i * size) + Z.to_nat size)%nat by lia.
        rewrite <- drop_drop. replace (Z.to_nat (Z.of_nat i * size + size - Z.of_nat i * size)) with (Z.to_nat size) by lia.
        apply take_drop.
      * rewrite Z.min_r by lia. rewrite (drop_ge l (Z.to_nat (Z.of_nat (S i) * size))) by lia.
        rewrite app_nil_r. apply take_ge. rewrite length_drop. lia.
    + constructor; [|done]. rewrite length_take, length_drop. lia.
    + by rewrite Hl.
Qed.

Lemma subBatches_parts {A : Type} (l : list A) : l <> [] ->
  exists bs, subBatches l = Some bs /\ concat bs = l /\ (1 <= length bs <= 8)%nat /\
    Forall (fun b => Z.of_nat (length b) <= subBatchSize (Z.of_nat (length l))) bs.
Proof.
  intros Hne. set (n := Z.of_nat (length l)).
  assert (0 < n) by (destruct l; [done|unfold n; cbn; lia]).
  destruct (numSubBatches_bounds n) as (Hk & Hlo & Hhi & Hs); [done|].
  destruct (subBatches_go l (subBatchSize n) (Z.to_nat (numSubBatches n)) 0) as (bs & E & Hc & Hf & Hl);
    [done|lia|rewrite Nat.add_0_l, Z2Nat.id by lia; done|].
  exists bs. split; [exact E|]. rewrite Hc. split; [done|]. split; [lia|done].
Qed.

(** the cut of [BatchStorageDeclareSectors] never slices out of range: for
    every non-empty list there are between one and eight sub-batches, each of at
    most [subBatchSize] declarations, and together, in order, they are the list. *)
Theorem subBatches_partition {A : Type} (uniqueDeclarations : list A) :
  uniqueDeclarations <> [] ->
  exists bs, subBatches uniqueDeclarations = Some bs /\ concat bs = uniqueDeclarations /\
    (1 <= length bs <= 8)%nat /\
    Forall (fun b => Z.of_nat (length b) <= subBatchSize (Z.of_nat (length uniqueDeclarations))) bs.
Proof. apply subBatches_parts. Qed.

Lemma subBatches_partition_witness :
  exists bs, subBatches (seq 0 57) = Some bs /\ concat bs = seq 0 57 /\ (1 <= length bs <= 8)%nat /\
    Forall (fun b => Z.of_nat (length b) <= subBatchSize (Z.of_nat (length (seq 0 57)))) bs.
Proof. apply (subBatches_partition (seq 0 57)). discriminate. Defined.

(** ** Declarations *)

Definition decl_key (d : SectorDeclaration) : loc_key := (sd_SectorID d, sd_FileType d, sd_StorageID d).

Definition declared (ds : list SectorDeclaration) (k : loc_key) : bool :=
  existsb (fun d => bool_decide (decl_key d = k)) ds.
Definition declared_primary (ds : list SectorDeclaration) (k : loc_key) : bool :=
  existsb (fun d => bool_decide (decl_key d = k) && sd_Primary d) ds.

Definition set_primary (p : bool) (r : loc_row) : loc_row :=
  mkLoc (l_primary r || p) (l_read_ts r) (l_read_refs r) (l_write_ts r) (l_write_owner r).

Lemma declare_one_lookup db d k :
  sector_location (declare_one db d) !! k =
  if bool_decide (decl_key d = k)
  then Some (match sector_location db !! k with
             | Some r => set_primary (sd_Primary d) r
             | None => mkLoc (sd_Primary d) None 0 None None
             end)
  else sector_location db !! k.
Proof.
  unfold declare_one, declare_upsert. cbn [sector_location]. fold (decl_key d). case_bool_decide as E.
  - subst k. destruct (sector_location db !! decl_key d) as [r|] eqn:Hr; rewrite lookup_insert_eq; [|done].
    unfold set_primary. do 2 f_equal. by destruct (l_primary r), (sd_Primary d).
  - destruct (sector_location db !! decl_key d) as [r|]; by rewrite lookup_insert_ne.
Qed.

Lemma declare_fold_lookup ds db k :
  sector_location (foldl declare_one db ds) !! k =
  match sector_location db !! k with
  | Some r => Some (set_primary (declared_primary ds k) r)
  | None => if declared ds k then Some (mkLoc (declared_primary ds k) None 0 None None) else None
  end.
Proof.
  revert db. induction ds as [|d ds IH]; intros db; cbn [foldl].
  - unfold declared_primary, declared. cbn. destruct (sector_location db !! k) as [[p rt rr wt wo]|]; [|done].
    unfold set_primary. cbn. by rewrite orb_false_r.
  - rewrite IH, declare_one_lookup. unfold declared, declared_primary. cbn [existsb].
    fold (declared ds k) (declared_primary ds k).
    case_bool_decide; cbn [andb orb]; [|done].
    destruct (sector_location db !! k) as [[p rt rr wt wo]|]; unfold set_primary; cbn; [by rewrite orb_assoc|done].
Qed.

Lemma declare_fold_paths ds db : storage_path (foldl declare_one db ds) = storage_path db.
Proof. revert db. induction ds as [|d ds IH]; intros db; cbn; [done|]. by rewrite IH. Qed.

Lemma index_db_eq (a b : index_db) :
  storage_path a = storage_path b -> (forall k, sector_location a !! k = sector_location b !! k) -> a = b.
Proof. destruct a, b. cbn. intros -> E. f_equal. by apply map_eq. Qed.

Lemma existsb_same {A} (f : A -> bool) l k : (forall x, x ∈ l <-> x ∈ k) -> existsb f l = existsb f k.
Proof.
  intros Hm. apply eq_true_iff_eq. rewrite !existsb_exists. setoid_rewrite <- list_elem_of_In. split; intros (x & Hx & Hf); exists x; (split; [by apply Hm|done]).
Qed.

(** Upserts depend only on the set of declarations. *)
Lemma declare_fold_same ds ds' db : (forall d, d ∈ ds <-> d ∈ ds') ->
  foldl declare_one db ds = foldl declare_one db ds'.
Proof.
  intros Hm. apply index_db_eq; [by rewrite !declare_fold_paths|]. intros k. rewrite !declare_fold_lookup.
  unfold declared, declared_primary. by rewrite !(existsb_same _ ds ds').
Qed.

Lemma run_sub_batches_applied (l : list ((exec * exec) * list SectorDeclaration)) db :
  Forall (fun xb => xb.1.1 = Applied /\ Forall (fun d => checkFileType (sd_FileType d) = true) xb.2) l ->
  run_sub_batches l db = (foldl declare_one db (concat l.*2), None).
Proof.
  revert db. induction l as [|[x b] l IH]; intros db Hl; [done|].
  apply Forall_cons_1 in Hl as [[Hx Hb] Hl]. cbn [fst snd] in Hx, Hb. cbn [run_sub_batches].
  assert (sub_batch x b db = (foldl declare_one db b, None)) as ->.
  { unfold sub_batch, batchStorageDeclareSectors. rewrite Hx. destruct b as [|d b]; [done|].
    replace (forallb _ (d :: b)) with true; [done|]. symmetry. apply forallb_forall. intros y Hy%list_elem_of_In.
    rewrite Forall_forall in Hb. auto. }
  rewrite IH by done. cbn. by rewrite foldl_app.
Qed.

(** The declarations one by one. *)
Definition declare_seq (ds : list SectorDeclaration) (db : index_db) : index_db :=
  foldl (fun db d =>
    (StorageDeclareSector (sd_StorageID d) (sd_SectorID d) (sd_FileType d) (sd_Primary d) Applied db).1) db ds.

Lemma declare_seq_fold ds db : Forall (fun d => checkFileType (sd_FileType d) = true) ds ->
  declare_seq ds db = foldl declare_one db ds.
Proof.
  unfold declare_seq. revert db. induction ds as [|d ds IH]; intros db Hds; [done|].
  apply Forall_cons_1 in Hds as [Hd Hds]. cbn [foldl]. unfold StorageDeclareSector at 2. rewrite Hd. by apply IH.
Qed.

(** declaring a batch is equivalent to declaring its sectors one by one, in
    any order of the deduplicated declarations and of the concurrent sub-batches:
    when the transactions succeed, the tables are those that the sequence of
    [StorageDeclareSector] leaves, and no slice is out of range. *)
Theorem batch_declare_equiv `{Enum} (ds : list SectorDeclaration)
    (outcome : list SectorDeclaration -> exec * exec) (db : index_db) :
  Forall (fun d => checkFileType (sd_FileType d) = true) ds ->
  (forall b, (outcome b).1 = Applied) ->
  BatchStorageDeclareSectors ds outcome db = Some (declare_seq ds db, None).
Proof.
  intros Hds Hout. rewrite declare_seq_fold by done. unfold BatchStorageDeclareSectors. destruct ds as [|d0 ds0]; [done|].
  set (ds := d0 :: ds0) in *. set (uniq := enum (remove_dups ds)).
  assert (forall d, d ∈ uniq <-> d ∈ ds) as Hu by (intros d; unfold uniq; by rewrite elem_of_enum, elem_of_remove_dups).
  destruct uniq as [|u us] eqn:Eu.
  { exfalso. apply (not_elem_of_nil d0). apply Hu. left. }
  destruct (subBatches_parts (u :: us) ltac:(done)) as (bs & -> & Hc & _). f_equal.
  rewrite run_sub_batches_applied.
  - f_equal. apply declare_fold_same. intros d. rewrite <- Hu. rewrite <- Hc.
    rewrite !list_elem_of_In, !in_concat. setoid_rewrite <- list_elem_of_In.
    split; intros (b & Hb & Hd); exists b; (split; [|done]).
    + apply list_elem_of_fmap in Hb as ([x b'] & -> & Hb). rewrite elem_of_enum in Hb.
      apply list_elem_of_fmap in Hb as (b'' & [= _ ->] & Hb). done.
    + apply list_elem_of_fmap. exists (outcome b, b). split; [done|]. rewrite elem_of_enum.
      apply list_elem_of_fmap. eauto.
  - rewrite Forall_forall. intros [x b] Hb. rewrite elem_of_enum in Hb.
    apply list_elem_of_fmap in Hb as (b'' & [= -> ->] & Hb). split; [apply Hout|].
    rewrite Forall_forall in Hds |- *. intros d Hd. apply Hds, Hu. rewrite <- Hc.
    rewrite list_elem_of_In, in_concat. exists b''. by rewrite <- !list_elem_of_In.
Qed.

(** ** Attached paths *)

Lemma Split_no_sep sep s : Forall (fun w => has_no sep w = true) (Split sep s).
Proof.
  induction s as [|c s IH]; cbn [Split]; [by repeat constructor|]. case_bool_decide; [by constructor|].
  destruct (Split sep s) as [|w ws]; [by repeat constructor; cbn; rewrite bool_decide_eq_false_2|].
  apply Forall_cons_1 in IH as [Hw Hws]. constructor; [|done]. cbn. rewrite bool_decide_eq_false_2 by done. done.
Qed.

Lemma Join_is_empty l : Join "," l = EmptyString -> l = [] \/ l = [EmptyString].
Proof.
  destruct l as [|x [|y l]]; [by left|intros E; right; by rewrite <- E|].
  change (Join "," (x :: y :: l)) with (x +:+ String "," (Join "," (y :: l))).
  by destruct x.
Qed.

Lemma Split_is_empty s : Split "," s = [EmptyString] -> s = EmptyString.
Proof. intros E. rewrite <- (Join_Split "," s), E. done. Qed.

Lemma known_types_plain l : Forall (fun t => has_no "," t = true /\ t <> EmptyString) (known_types l).
Proof.
  rewrite Forall_forall. intros t Ht. unfold known_types in Ht.
  apply list_elem_of_In, filter_In in Ht as [_ Ht]. unfold TypeFromString in Ht. case_ifs; bool_props; subst; try done.
Qed.

Lemma union_spec a b x : x ∈ union a b <-> x ∈ a \/ x ∈ b.
Proof.
  unfold union. rewrite elem_of_app, (list_elem_of_In (List.filter _ _) x), filter_In, <- list_elem_of_In.
  split; [intros [?|[? _]]; auto|]. intros [Ha|Hb]; [by left|]. destruct (decide (x ∈ a)) as [Ha|Ha]; [by left|].
  right. split; [done|]. by rewrite bool_decide_eq_false_2.
Qed.

(** The lists of a description are stored without loss: no comma and no empty
    string in them. *)
Definition plain (l : list string) : Prop := Forall (fun s => has_no "," s = true /\ s <> EmptyString) l.

Definition storable (si : StorageInfo) : Prop :=
  plain (si_URLs si) /\ plain (si_Groups si) /\ plain (si_AllowTo si) /\
  plain (si_AllowMiners si) /\ plain (si_DenyMiners si).

(** What the index stores of a description: the URLs may be extended, unknown
    type names are dropped. *)
Definition as_stored (si : StorageInfo) (urls : list string) : StorageInfo :=
  mkStorageInfo (si_ID si) urls (si_Weight si) (si_MaxStorage si) (si_CanSeal si) (si_CanStore si)
    (si_Groups si) (si_AllowTo si) (known_types (si_AllowTypes si)) (known_types (si_DenyTypes si))
    (si_AllowMiners si) (si_DenyMiners si).

Lemma union_splits u l : u <> EmptyString -> plain l ->
  splitString (Join "," (union (Split "," u) l)) = union (Split "," u) l.
Proof.
  intros Hu Hl. destruct (Split_cons_ne "," u) as (w & ws & E).
  assert (Forall (fun s => has_no "," s = true) (union (Split "," u) l)) as Hall.
  { rewrite Forall_forall. intros x [Hx|Hx]%union_spec.
    - pose proof (Split_no_sep "," u) as Hs. rewrite Forall_forall in Hs. auto.
    - unfold plain in Hl. rewrite Forall_forall in Hl. by apply Hl. }
  unfold splitString. case_bool_decide as Ej.
  - apply Join_is_empty in Ej as [Ej|Ej]; unfold union in Ej; rewrite E in Ej; cbn in Ej; [done|].
    injection Ej as -> Ej. apply app_eq_nil in Ej as [-> _]. by apply Split_is_empty in E.
  - apply Split_Join; [|done]. unfold union. rewrite E. done.
Qed.

Section Attach.
Variable url_parse : string -> bool.

(** what is attached can be read back: after a successful [StorageAttach] the
    answer of [StorageInfo] is the given description, with unknown type names
    removed and, for a path that was known, with the new URLs added to the old
    ones; every other path and all sector locations are as before. *)
Theorem attach_info (si : StorageInfo) (st : FsStat) (now : time) (db : index_db) :
  storable si -> forallb url_parse (si_URLs si) = true ->
  (forall r, storage_path db !! si_ID si = Some r -> exists u, p_urls r = Some u /\ u <> EmptyString) ->
  exists db', StorageAttach url_parse si st now Applied db = (db', None) /\
    sector_location db' = sector_location db /\
    (forall id, id <> si_ID si -> storage_path db' !! id = storage_path db !! id) /\
    StorageInfo_ (si_ID si) None db' =
      Some (Ok (as_stored si
        (match storage_path db !! si_ID si with
         | Some r => union (Split "," (default EmptyString (p_urls r))) (si_URLs si)
         | None => si_URLs si
         end))).
Proof.
  intros (Hurls & Hg & Hto & Ham & Hdm) Hparse Hold. unfold StorageAttach. cbn [with_types si_URLs]. rewrite Hparse.
  eexists. split; [reflexivity|]. unfold attach_tx. cbn [with_types si_ID si_URLs].
  destruct (storage_path db !! si_ID si) as [r|] eqn:Hr; cbn [fst run_exec sector_location storage_path].
  - destruct (Hold r eq_refl) as (u & Hu & Hne). rewrite Hu. cbn [default]. split; [done|].
    split; [intros id Hid; by rewrite lookup_insert_ne|].
    unfold StorageInfo_. cbn [storage_path]. rewrite lookup_insert_eq. unfold scan_urls, path_info, row_urls.
    cbn -[splitString Join union Split]. do 2 f_equal. unfold as_stored. f_equal; try (by apply splitString_Join).
    + by apply union_splits.
    + apply splitString_Join, known_types_plain.
    + apply splitString_Join, known_types_plain.
  - split; [done|]. split; [intros id Hid; by rewrite lookup_insert_ne|].
    unfold StorageInfo_. cbn [storage_path]. rewrite lookup_insert_eq. unfold scan_urls, path_info, row_urls.
    cbn -[splitString Join union Split]. do 2 f_equal. unfold as_stored.
    f_equal; first [by apply splitString_Join | apply splitString_Join, known_types_plain].
Qed.

End Attach.

(** ** Detached paths *)

Definition path_urls (db : index_db) (id : string) : list string :=
  match storage_path db !! id with Some r => row_urls r | None => [] end.

Lemma filter_ne_length (url : string) l :
  length (List.filter (fun u => negb (bool_decide (u = url))) l) = length l <-> url ∉ l.
Proof.
  induction l as [|u l IH]; cbn [List.filter length]; [split; [intros _; apply not_elem_of_nil|done]|].
  rewrite not_elem_of_cons. case_bool_decide as E; cbn [negb length].
  - pose proof (filter_length_le (fun u => negb (bool_decide (u = url))) l). split; [lia|]. intros [? _]. congruence.
  - rewrite <- IH. split; [intros; split; [congruence|lia]|lia].
Qed.

Lemma filter_plain (f : string -> bool) l : plain l -> plain (List.filter f l).
Proof.
  unfold plain. rewrite !Forall_forall. intros Hl x Hx%list_elem_of_In%filter_In.
  apply Hl. apply list_elem_of_In, Hx.
Qed.

Lemma drop_locations_lookup id locs k :
  drop_locations id locs !! k = if bool_decide (k.2 = id) then None else locs !! k.
Proof.
  unfold drop_locations. case_bool_decide as E.
  - apply map_lookup_filter_None. right. intros r _ Hk. cbn in Hk. congruence.
  - destruct (locs !! k) as [r|] eqn:Hr.
    + apply map_lookup_filter_Some. split; [done|]. cbn. done.
    + apply map_lookup_filter_None. by left.
Qed.

(** every branch of a detach that the database carries out: an unknown path
    is an error, an address under which the path is not served changes nothing,
    one of several addresses is removed and nothing else, and with its last
    address the path goes away together with every sector location on it, and
    with no other. *)
Theorem StorageDetach_spec (id url : string) (db db' : index_db) (e : option index_error) :
  plain (path_urls db id) ->
  StorageDetach id url None Applied db = (db', e) ->
  match storage_path db !! id with
  | None => db' = db /\ e = Some NoRows
  | Some r =>
      e = None /\
      let left := List.filter (fun u => negb (bool_decide (u = url))) (path_urls db id) in
      if bool_decide (url ∉ path_urls db id) then db' = db
      else if bool_decide (left = []) then
        storage_path db' = delete id (storage_path db) /\
        (forall k, sector_location db' !! k = if bool_decide (k.2 = id) then None else sector_location db !! k)
      else path_urls db' id = left /\ sector_location db' = sector_location db /\
           (forall i, i <> id -> storage_path db' !! i = storage_path db !! i)
  end.
Proof.
  unfold StorageDetach, path_urls, row_urls. intros Hp E.
  destruct (storage_path db !! id) as [r|] eqn:Hr; [|by injection E as <- <-].
  set (urls := splitString (default "" (p_urls r))) in *.
  assert ((length (List.filter (fun u => negb (bool_decide (u = url))) urls) =? length urls)%nat
          = bool_decide (url ∉ urls)) as Hlen.
  { apply eq_true_iff_eq. rewrite bool_decide_eq_true, <- filter_ne_length. apply Nat.eqb_eq. }
  rewrite Hlen in E. cbv zeta. case_bool_decide as Hin; [by injection E as <- <-|].
  destruct (List.filter (fun u => negb (bool_decide (u = url))) urls) as [|u us] eqn:Hf;
    cbn [length Nat.ltb Nat.leb] in E; unfold sql_fail in E; cbn [run_exec fst snd fmap option_fmap option_map] in E;
    injection E as <- <-; cbn [storage_path sector_location].
  - rewrite bool_decide_eq_true_2 by done. split; [done|]. split; [done|]. intros k. apply drop_locations_lookup.
  - rewrite bool_decide_eq_false_2 by done. split; [done|]. rewrite lookup_alter_eq, Hr. cbn [fmap option_fmap option_map].
    split; [|split; [done|]; intros i Hi; by rewrite lookup_alter_ne by congruence].
    cbn [set_urls p_urls]. change (splitString (Join "," (u :: us)) = u :: us).
    apply splitString_Join. rewrite <- Hf. by apply filter_plain.
Qed.

(** ** Queries *)

Section Queries.
Context `{Enum}.
Variable address_id : string -> option Z.

Lemma checkMinerInList_true l miner : checkMinerInList address_id l miner = Ok true ->
  exists a, a ∈ l /\ address_id a = Some miner.
Proof.
  induction l as [|a l IH]; cbn; [done|]. destruct (address_id a) as [mid|] eqn:Ha; [|done]. case_ifs; bool_props.
  - intros _. subst. exists a. split; [left|done].
  - intros E. destruct (IH E) as (b & Hb & Hid). exists b. split; [by right|done].
Qed.

Lemma checkMinerInList_false l miner : checkMinerInList address_id l miner = Ok false ->
  forall a, a ∈ l -> address_id a <> Some miner.
Proof.
  induction l as [|a l IH]; cbn; [intros _ ? []%not_elem_of_nil|].
  destruct (address_id a) as [mid|] eqn:Ha; [|done]. case_ifs; bool_props; [done|].
  intros E b [->|Hb]%elem_of_cons; [congruence|by apply IH].
Qed.

(** The path accepts files of the miner: it is on the allow list, if there is
    one, and not on the deny list. *)
Definition miner_permitted (r : path_row) (miner : Z) : Prop :=
  (splitString (p_allow_miners r) = [] \/
   exists a, a ∈ splitString (p_allow_miners r) /\ address_id a = Some miner) /\
  (forall a, a ∈ splitString (p_deny_miners r) -> address_id a <> Some miner).

Lemma MinerFilter_permitted r miner :
  MinerFilter address_id (splitString (p_allow_miners r)) (splitString (p_deny_miners r)) miner = Ok true ->
  miner_permitted r miner.
Proof.
  unfold MinerFilter, miner_permitted.
  generalize (splitString (p_allow_miners r)) (splitString (p_deny_miners r)). intros allow deny E.
  assert ((if (0 <? length allow)%nat then checkMinerInList address_id allow miner else Ok true) = Ok true /\
          forall a, a ∈ deny -> address_id a <> Some miner) as [Ha Hd].
  { destruct (if (0 <? length allow)%nat then _ else _) as [[]|] in E |- *; try done. split; [done|].
    destruct deny as [|d deny]; [intros ? []%not_elem_of_nil|]. cbn [length Nat.ltb Nat.leb] in E.
    destruct (checkMinerInList address_id (d :: deny) miner) as [[]|] eqn:Hc; try done.
    by apply checkMinerInList_false. }
  split; [|done]. destruct allow as [|a allow]; [by left|]. right. cbn [length Nat.ltb Nat.leb] in Ha.
  by apply checkMinerInList_true.
Qed.

(** The other answers: denied, or an address that does not parse. *)
Lemma MinerFilter_denied r miner :
  MinerFilter address_id (splitString (p_allow_miners r)) (splitString (p_deny_miners r)) miner = Ok false ->
  ~ miner_permitted r miner.
Proof.
  unfold MinerFilter, miner_permitted.
  generalize (splitString (p_allow_miners r)) (splitString (p_deny_miners r)). intros allow deny E [Hp Hd].
  destruct allow as [|a allow]; [|destruct Hp as [|(b & Hb & Hid)]; [done|]]; cbn [length Nat.ltb Nat.leb] in E.
  2: { destruct (checkMinerInList address_id (a :: allow) miner) as [[]|] eqn:Hc; try done.
       2: by apply (checkMinerInList_false _ _ Hc b). clear Hc.
       destruct deny as [|d deny]; [done|]. cbn [length Nat.ltb Nat.leb] in E.
       destruct (checkMinerInList address_id (d :: deny) miner) as [[]|] eqn:Hc; try done.
       apply checkMinerInList_true in Hc as (x & Hx & Hxid). by apply (Hd x). }
  destruct deny as [|d deny]; [done|]. cbn [length Nat.ltb Nat.leb] in E.
  destruct (checkMinerInList address_id (d :: deny) miner) as [[]|] eqn:Hc; try done.
  apply checkMinerInList_true in Hc as (x & Hx & Hxid). by apply (Hd x).
Qed.

Definition proceeds (miner : Z) (row : string * path_row) : bool :=
  if miner =? NoMinerFilter then true
  else match MinerFilter address_id (splitString (p_allow_miners row.2)) (splitString (p_deny_miners row.2)) miner with
       | Ok b => b | Err _ => false end.

Lemma alloc_loop_ok miner rows acc res : alloc_loop address_id miner rows acc = Ok res ->
  res = acc ++ map (fun row => path_info row.1 row.2) (List.filter (proceeds miner) rows).
Proof.
  revert acc. induction rows as [|[id r] rows IH]; intros acc; cbn [alloc_loop].
  - intros [= <-]. cbn. by rewrite app_nil_r.
  - cbn [List.filter]. destruct (proceeds miner (id, r)) eqn:Hp; unfold proceeds in Hp; cbn [snd] in Hp;
      destruct (miner =? NoMinerFilter); try done;
      try (destruct (MinerFilter address_id _ _ miner) as [[]|]; try done);
      intros E; apply IH in E as ->; cbn [map fst snd]; by rewrite <- ?app_assoc.
Qed.

Lemma alloc_loop_no_err miner rows acc res : alloc_loop address_id miner rows acc = Ok res ->
  miner <> NoMinerFilter ->
  forall row, row ∈ rows -> exists b,
    MinerFilter address_id (splitString (p_allow_miners row.2)) (splitString (p_deny_miners row.2)) miner = Ok b.
Proof.
  intros E Hm. revert acc E. induction rows as [|[id r] rows IH]; intros acc; cbn [alloc_loop];
    [intros _ ? []%not_elem_of_nil|].
  rewrite (proj2 (Z.eqb_neq _ _) Hm).
  destruct (MinerFilter address_id _ _ miner) as [b|] eqn:Hf; [|done].
  intros E row [->|Hr]%elem_of_cons; [by exists b|]. destruct b; by eapply IH.
Qed.

#[local] Instance better_total : Total better.
Proof. intros a b. unfold better. lia. Qed.
#[local] Instance better_trans : Transitive better.
Proof. intros a b c. unfold better. lia. Qed.

Lemma filter_sublist_sorted {A} (R : A -> A -> Prop) (f : A -> bool) l :
  StronglySorted R l -> StronglySorted R (List.filter f l).
Proof.
  induction 1 as [|x l Hs IH Hx]; cbn [List.filter]; [constructor|]. destruct (f x); [|done].
  constructor; [done|]. rewrite Forall_forall in Hx |- *. intros y Hy%list_elem_of_In%filter_In.
  apply Hx, list_elem_of_In, Hy.
Qed.

(** The conditions of an allocation. *)
Definition allocatable (db : index_db) (now : time) (pathType : string) (spaceReq miner : Z) (row : string * path_row) : Prop :=
  storage_path db !! row.1 = Some row.2 /\ spaceReq <= p_available row.2 /\
  now - SkippedHeartbeatThresh < p_last_heartbeat row.2 /\ p_heartbeat_err row.2 = None /\
  ((pathType = PathSealing /\ p_can_seal row.2 = true) \/ (pathType = PathStorage /\ p_can_store row.2 = true)) /\
  (miner <> NoMinerFilter -> miner_permitted row.2 miner).

Lemma healthy_true now r : healthy now r = true <->
  now - SkippedHeartbeatThresh < p_last_heartbeat r /\ p_heartbeat_err r = None.
Proof.
  unfold healthy. rewrite andb_true_iff, Z.ltb_lt, negb_true_iff, bool_decide_eq_false, eq_None_not_Some. reflexivity.
Qed.

Lemma elem_of_alloc_rows db now pathType spaceReq row :
  row ∈ alloc_rows db now pathType spaceReq <->
  storage_path db !! row.1 = Some row.2 /\ spaceReq <= p_available row.2 /\ healthy now row.2 = true /\
  ((pathType = PathSealing /\ p_can_seal row.2 = true) \/ (pathType = PathStorage /\ p_can_store row.2 = true)).
Proof.
  unfold alloc_rows. rewrite merge_sort_Permutation, elem_of_enum, list_elem_of_In, filter_In, <- list_elem_of_In.
  destruct row as [id r]. rewrite elem_of_map_to_list. cbn [fst snd].
  rewrite !andb_true_iff, orb_true_iff, !andb_true_iff, !bool_decide_eq_true, Z.leb_le. tauto.
Qed.

(** the answer of [StorageBestAlloc] lists exactly the paths that qualify: known to
    the index, with the space that the files need, a recent heartbeat without
    error, of the wanted kind and open to the miner; they are ordered by available
    space times weight, best first. *)
Theorem best_alloc_spec spaceUse (allocate : SectorFileType) (ssize : Z) (pathType : string) (miner : Z)
    (now : time) (db : index_db) (res : list StorageInfo) :
  StorageBestAlloc address_id spaceUse allocate ssize pathType miner now None db = Ok res ->
  exists spaceReq rows,
    alloc_space spaceUse allocate ssize pathType = Ok spaceReq /\
    res = map (fun row => path_info row.1 row.2) rows /\ StronglySorted better rows /\
    (forall row, row ∈ rows <-> allocatable db now pathType spaceReq miner row).
Proof.
  unfold StorageBestAlloc. destruct (alloc_space spaceUse allocate ssize pathType) as [spaceReq|] eqn:Hs; [|done].
  case_match; [done|]. intros E. pose proof (alloc_loop_no_err _ _ _ _ E) as Herr.
  apply alloc_loop_ok in E. cbn [app] in E.
  exists spaceReq, (List.filter (proceeds miner) (alloc_rows db now pathType spaceReq)). split; [done|]. split; [done|].
  split; [apply filter_sublist_sorted, StronglySorted_merge_sort; apply _|].
  intros row. rewrite list_elem_of_In, filter_In, <- list_elem_of_In. split.
  - intros [Hr Hp]. apply elem_of_alloc_rows in Hr as (Hl & Hsp & Hh & Hk).
    apply healthy_true in Hh as [Hh He]. do 5 (split; [done|]).
    intros Hm. unfold proceeds in Hp. rewrite (proj2 (Z.eqb_neq _ _) Hm) in Hp.
    destruct (MinerFilter address_id _ _ miner) as [[]|] eqn:Hf; try done. by apply MinerFilter_permitted.
  - intros (Hl & Hsp & Hh & He & Hk & Hm).
    assert (row ∈ alloc_rows db now pathType spaceReq) as Hr by (apply elem_of_alloc_rows; rewrite healthy_true; done).
    split; [done|]. unfold proceeds. destruct (miner =? NoMinerFilter) eqn:Em; [done|]. bool_props.
    destruct (Herr Em row Hr) as [[] Hf]; rewrite Hf; [done|]. apply MinerFilter_denied in Hf. by destruct (Hf (Hm Em)).
Qed.

(** ** Finding a sector *)

Variable url_sector : string -> SectorFileType -> SectorID -> option string.

Definition holder_info (ft : SectorFileType) (s : SectorID) (row : string * path_row * Z * bool) (info : SectorStorageInfo) : Prop :=
  let '(id, r, count, primary) := row in
  exists urls, sector_urls url_sector r ft s = Some (urls, row_urls r) /\
    info = find_info id r urls (row_urls r) (u64 (p_weight r * count)) primary.

Lemma sector_urls_base r ft s urls burls : sector_urls url_sector r ft s = Some (urls, burls) -> burls = row_urls r.
Proof. unfold sector_urls. destruct (mapM _ _); [|done]. by intros [= _ <-]. Qed.

Lemma holders_loop_ok ft s rows al acc res al' :
  holders_loop url_sector ft s rows al acc = Ok (res, al') ->
  exists infos, res = acc ++ infos /\ Forall2 (holder_info ft s) rows infos /\
    al' = foldl add_allowed al (map (fun row => row.1.1.2) rows).
Proof.
  revert al acc. induction rows as [|[[[id r] count] primary] rows IH]; intros al acc; cbn [holders_loop].
  - intros [= <- <-]. exists []. by rewrite app_nil_r.
  - destruct (sector_urls url_sector r ft s) as [[urls burls]|] eqn:Hu; [|done]. intros E.
    pose proof (sector_urls_base _ _ _ _ _ Hu) as ->.
    apply IH in E as (infos & -> & Hf & Hal). eexists. rewrite <- app_assoc. split; [reflexivity|]. split; [|done].
    constructor; [|done]. by exists urls.
Qed.

Lemma holders_loop_err ft s rows al acc e : holders_loop url_sector ft s rows al acc = Err e ->
  exists row, row ∈ rows /\ sector_urls url_sector row.1.1.2 ft s = None.
Proof.
  revert al acc. induction rows as [|[[[id r] count] primary] rows IH]; intros al acc; cbn [holders_loop]; [done|].
  destruct (sector_urls url_sector r ft s) as [[urls burls]|] eqn:Hu.
  - intros E. apply IH in E as (row & Hr & Hn). exists row. split; [by right|done].
  - intros _. eexists. split; [left|]. done.
Qed.

(** The paths that hold one of the types, with the number of types. *)
Lemma elem_of_holder_rows db s fts id r count primary :
  (id, r, count, primary) ∈ holder_rows db s fts <->
  storage_path db !! id = Some r /\ types_on db s fts id <> [] /\
  count = Z.of_nat (length (types_on db s fts id)) /\
  primary = existsb (primary_on db s id) (types_on db s fts id).
Proof.
  unfold holder_rows. rewrite elem_of_enum, list_elem_of_omap. split.
  - intros ([id' r'] & Hin & E). apply elem_of_map_to_list in Hin.
    destruct (types_on db s fts id') as [|t ts] eqn:Ht; [done|]. injection E as -> -> <- <-. by rewrite Ht.
  - intros (Hp & Ht & -> & ->). exists (id, r). split; [by apply elem_of_map_to_list|].
    by destruct (types_on db s fts id).
Qed.

Lemma NoDup_omap_fst {A B C} (f : A * B -> option C) (g : C -> A) l :
  (forall x y, f x = Some y -> g y = x.1) -> NoDup l.*1 -> NoDup (map g (omap f l)).
Proof.
  intros Hg. induction l as [|x l IH]; intros Hn; [constructor|]. apply NoDup_cons in Hn as [Hx Hn].
  cbn [omap list_omap]. destruct (f x) as [y|] eqn:Hy; [|by apply IH]. cbn [map]. constructor; [|by apply IH].
  rewrite (Hg x y) by done. intros (z & Hz & Hin)%list_elem_of_fmap. apply list_elem_of_omap in Hin as (w & Hw & Hf).
  apply Hx. apply list_elem_of_fmap. exists w. by rewrite Hz, (Hg w z).
Qed.

Lemma NoDup_holder_rows db s fts : NoDup (map (fun row : string * path_row * Z * bool => row.1.1.1) (holder_rows db s fts)).
Proof.
  unfold holder_rows. rewrite enum_perm. apply NoDup_omap_fst; [|apply NoDup_fst_map_to_list].
  intros [id r] y E. destruct (types_on db s fts id); [done|]. by injection E as <-.
Qed.

Lemma Forall2_infos ft s rows infos : Forall2 (holder_info ft s) rows infos ->
  map ssi_ID infos = map (fun row : string * path_row * Z * bool => row.1.1.1) rows.
Proof.
  induction 1 as [|[[[id r] count] primary] info rows infos (urls & _ & ->) Hf IH]; [done|]. cbn [map]. by rewrite IH.
Qed.

(** without [allowFetch], [StorageFindSector] answers with exactly the attached
    paths on which one of the wanted file types of the sector is declared, each
    once; the weight is that of the path times the number of types it holds, and
    the answer is marked primary when one of them is. *)
Theorem find_sector_holders (s : SectorID) (ft : SectorFileType) (ssize : Z) (now : time) (q2 : option sql_error)
    (db : index_db) :
  (forall id r, storage_path db !! id = Some r -> scan_urls r = true /\ sector_urls url_sector r ft s <> None) ->
  exists res, findSectorUncached url_sector address_id s ft ssize false now None q2 db = Ok res /\
    NoDup (map ssi_ID res) /\
    (forall id, id ∈ map ssi_ID res <-> is_Some (storage_path db !! id) /\ types_on db s (AllSet ft) id <> []) /\
    (forall info, info ∈ res -> exists r, storage_path db !! ssi_ID info = Some r /\
       ssi_Weight info = u64 (p_weight r * Z.of_nat (length (types_on db s (AllSet ft) (ssi_ID info)))) /\
       ssi_Primary info = existsb (primary_on db s (ssi_ID info)) (types_on db s (AllSet ft) (ssi_ID info)) /\
       ssi_BaseURLs info = row_urls r).
Proof.
  intros Hrows. unfold findSectorUncached. set (rows := holder_rows db s (AllSet ft)).
  assert (forall row, row ∈ rows -> storage_path db !! row.1.1.1 = Some row.1.1.2) as Hin.
  { intros [[[id r] c] p] Hr. apply elem_of_holder_rows in Hr as [Hr _]. done. }
  replace (forallb _ rows) with true.
  2: { symmetry. apply forallb_forall. intros row Hr%list_elem_of_In. by eapply Hrows, Hin. }
  cbn [negb]. destruct (holders_loop url_sector ft s rows (Some []) []) as [[res al]|e] eqn:E.
  2: { apply holders_loop_err in E as (row & Hr & Hn). destruct (Hrows _ _ (Hin row Hr)) as [_ Hs]. done. }
  apply holders_loop_ok in E as (infos & -> & Hf & _). exists infos. split; [done|].
  pose proof (Forall2_infos _ _ _ _ Hf) as Hids. rewrite Hids. split; [apply NoDup_holder_rows|]. split.
  - intros id. rewrite list_elem_of_fmap. split.
    + intros ([[[id' r] c] p] & -> & (Hp & Ht & _)%elem_of_holder_rows). eauto.
    + intros [[r Hp] Ht]. eexists (id, r, _, _). split; [done|]. by apply elem_of_holder_rows.
  - intros info Hi. apply list_elem_of_lookup in Hi as [i Hi].
    apply (Forall2_lookup_r _ _ _ _ _ Hf) in Hi as ([[[id r] c] p] & Hr & urls & Hu & ->).
    apply list_elem_of_lookup_2, elem_of_holder_rows in Hr as (Hp & Ht & -> & ->). by exists r.
Qed.

(** *** Paths that may fetch it *)

(** A path that may take a copy: some holder gives its files to any group, or to
    a group of the path. *)
Definition may_receive (rs : list path_row) (r : path_row) : Prop :=
  exists h, h ∈ rs /\
    (splitString (p_allow_to h) = [] \/
     exists g, g ∈ splitString (p_allow_to h) /\ g ∈ splitString (p_groups r)).

Lemma add_allowed_none rs : foldl add_allowed None rs = None.
Proof. by induction rs. Qed.

Lemma group_allowed_fold rs gs r : group_allowed (foldl add_allowed (Some gs) rs) r = true ->
  (exists g, g ∈ gs /\ g ∈ splitString (p_groups r)) \/ may_receive rs r.
Proof.
  revert gs. induction rs as [|h rs IH]; intros gs; cbn [foldl].
  - cbn [group_allowed]. intros (g & Hg & Hin)%existsb_exists. left. exists g.
    rewrite bool_decide_eq_true in Hin. split; [done|by apply list_elem_of_In].
  - unfold add_allowed at 2. destruct (splitString (p_allow_to h)) as [|a as_] eqn:Ha; cbn [length Nat.ltb Nat.leb].
    + intros _. right. exists h. split; [left|by left].
    + intros E. apply IH in E as [(g & [Hg|Hg]%elem_of_app & Hr)|(h' & Hh & Hc)]; [left; eauto| |].
      * right. exists h. split; [left|]. right. exists g. by rewrite Ha.
      * right. exists h'. split; [by right|done].
Qed.

Definition fetchable (s : SectorID) (ft : SectorFileType) (holders : list string) (al : option (list string))
    (row : string * path_row) (info : SectorStorageInfo) : Prop :=
  ssi_ID info = row.1 /\ (row.1 ∉ holders) /\
  AnyAllowed ft (splitString (p_allow_types row.2)) (splitString (p_deny_types row.2)) = true /\
  miner_permitted row.2 (Miner s) /\ group_allowed al row.2 = true /\ ssi_Weight info = 0 /\ ssi_Primary info = false.

Lemma fetch_loop_ok ft s holders al rows acc res :
  fetch_loop url_sector address_id ft s holders al rows acc = Ok res ->
  exists extra, res = acc ++ extra /\
    forall info, info ∈ extra -> exists row, row ∈ rows /\ fetchable s ft holders al row info.
Proof.
  revert acc. induction rows as [|[id r] rows IH]; intros acc; cbn [fetch_loop].
  - intros [= <-]. exists []. rewrite app_nil_r. split; [done|]. intros ? []%not_elem_of_nil.
  - assert (forall acc, fetch_loop url_sector address_id ft s holders al rows acc = Ok res ->
      exists extra, res = acc ++ extra /\ forall info, info ∈ extra ->
        exists row, row ∈ (id, r) :: rows /\ fetchable s ft holders al row info) as IH'.
    { intros acc' E. apply IH in E as (extra & -> & Hx). exists extra. split; [done|]. intros info Hi.
      destruct (Hx info Hi) as (row & Hr & Hf). exists row. split; [by right|done]. }
    case_bool_decide as Hh; [apply IH'|].
    destruct (AnyAllowed ft _ _) eqn:Ha; cbn [negb]; [|apply IH'].
    destruct (MinerFilter address_id _ _ (Miner s)) as [[]|] eqn:Hm; [|apply IH'|done].
    destruct (group_allowed al r) eqn:Hg; cbn [negb]; [|apply IH'].
    destruct (sector_urls url_sector r ft s) as [[urls burls]|] eqn:Hu; [|done].
    intros E. apply IH' in E as (extra & -> & Hx). eexists. rewrite <- app_assoc. split; [reflexivity|].
    intros info [->|Hi]%elem_of_cons; [|by apply Hx]. exists (id, r). split; [left|].
    unfold fetchable. cbn [fst snd find_info ssi_ID ssi_Weight ssi_Primary]. split_and!; try done. by apply MinerFilter_permitted.
Qed.

(** with [allowFetch], [StorageFindSector] adds to the paths that hold the sector
    only paths that can receive it: attached sealing paths that do not hold it, with a recent
    heartbeat and the space that the types need, that accept one of the types and
    the miner, and to which a path that holds the sector may give it. *)
Theorem find_sector_fetch (s : SectorID) (ft : SectorFileType) (ssize : Z) (now : time)
    (db : index_db) (res : list SectorStorageInfo) :
  findSectorUncached url_sector address_id s ft ssize true now None None db = Ok res ->
  exists held extra spaceReq,
    findSectorUncached url_sector address_id s ft ssize false now None None db = Ok held /\
    res = held ++ extra /\ SealSpaceUse ft ssize = Ok spaceReq /\
    forall info, info ∈ extra -> exists r,
      storage_path db !! ssi_ID info = Some r /\ (ssi_ID info ∉ map ssi_ID held) /\
      p_can_seal r = true /\ spaceReq <= p_available r /\
      now - SkippedHeartbeatThresh < p_last_heartbeat r /\ p_heartbeat_err r = None /\
      AnyAllowed ft (splitString (p_allow_types r)) (splitString (p_deny_types r)) = true /\
      miner_permitted r (Miner s) /\ ssi_Weight info = 0 /\ ssi_Primary info = false /\
      may_receive (omap (fun id => storage_path db !! id) (map ssi_ID held)) r.
Proof.
  unfold findSectorUncached. set (rows := holder_rows db s (AllSet ft)).
  destruct (negb (forallb _ rows)); [done|].
  destruct (holders_loop url_sector ft s rows (Some []) []) as [[held al]|] eqn:Eh; [|done]. cbn [negb].
  destruct (SealSpaceUse ft ssize) as [spaceReq|] eqn:Es; [|done]. cbv zeta. case_match; [done|].
  intros E. apply fetch_loop_ok in E as (extra & -> & Hx). exists held, extra, spaceReq. do 3 (split; [done|]).
  apply holders_loop_ok in Eh as (infos & -> & Hf & ->). cbn [app].
  pose proof (Forall2_infos _ _ _ _ Hf) as Hids. rewrite Hids.
  intros info Hi. destruct (Hx info Hi) as ([id r] & Hr & Hid & Hh & Ha & Hm & Hg & Hw & Hp). cbn [fst snd] in *.
  unfold fetch_rows in Hr. rewrite elem_of_enum, list_elem_of_In, filter_In, <- list_elem_of_In, elem_of_map_to_list in Hr.
  destruct Hr as [Hl Hr]. bool_props. apply healthy_true in H2 as [Hb He]. rewrite Hid. exists r.
  do 8 (split; [done|]). split; [done|]. split; [done|].
  apply group_allowed_fold in Hg as [(g & []%not_elem_of_nil & _)|(h & Hin & Hc)]. exists h. split; [|done].
  apply list_elem_of_fmap in Hin as ([[[hid hr] c] p] & -> & Hin). cbn [fst snd].
  apply list_elem_of_omap. exists hid. split; [apply list_elem_of_fmap; by exists (hid, hr, c, p)|].
  by apply elem_of_holder_rows in Hin as [Hin _].
Qed.

End Queries.

(** ** Valid file types *)

(** What [checkFileType] accepts: everything but a set with all seven types, so
    the empty set and unknown bits too. *)
Lemma checkFileType_accepts (ft : SectorFileType) :
  checkFileType ft = negb (Z.land ft FTAll =? FTAll).
Proof.
  unfold checkFileType. change FTAll with 127. destruct (Z.land ft 127 =? 127) eqn:E; bool_props; cbn [negb].
  - apply not_true_iff_false. intros (t & Ht & Hz)%existsb_exists. bool_props.
    rewrite <- list_elem_of_In in Ht. apply PathTypes_lookup in Ht as (i & Hi & ->).
    apply (f_equal (fun z => Z.testbit z i)) in Hz, E.
    rewrite Z.land_spec, Z.shiftl_spec, Z.bits_0 in Hz by lia. rewrite Z.land_spec in E.
    change 127 with (Z.ones 7) in E. rewrite Z.ones_spec_low in E by lia. rewrite andb_true_r in E.
    rewrite E, Z.sub_diag in Hz. done.
  - destruct (existsb (fun v => Z.land v ft =? 0) PathTypes) eqn:Hx; [done|]. exfalso. apply E. apply Z.bits_inj'. intros i Hi.
    change 127 with (Z.ones 7). rewrite Z.land_spec, !Z.testbit_ones_nonneg by lia.
    destruct (i <? 7) eqn:Hi7; [|by rewrite andb_false_r]. bool_props. rewrite andb_true_r.
    assert ((Z.land (Z.shiftl 1 i) ft =? 0) = false) as Hz.
    { apply not_true_iff_false. intros Hz. apply not_true_iff_false in Hx. apply Hx. apply existsb_exists.
      exists (Z.shiftl 1 i). split; [apply list_elem_of_In, single_in_PathTypes; lia|done]. }
    rewrite land_single_zero in Hz by lia. by apply negb_false_iff in Hz.
Qed.

(** ** Examples *)

Definition ex_si (id : string) (weight : Z) (groups allowTo : list string) : StorageInfo :=
  mkStorageInfo id ["http://a/remote"%string] weight 0 true (weight >? 2) groups allowTo ["sealed"; "bogus"; "cache"]%string [] [] ["f01000"%string].

Definition ex_stat (avail : Z) : FsStat := mkFsStat 1000000 avail avail 0 0 0.

Definition ex_empty : index_db := mkIndex ∅ ∅.

Definition ex_url (u : string) (ft : SectorFileType) (s : SectorID) : option string :=
  Some (u +:+ "/" +:+ String_ ft +:+ "/" +:+ SectorName s).

Definition ex_addr (a : string) : option Z :=
  if bool_decide (a = "f01000"%string) then Some 1000 else if bool_decide (a = "f01001"%string) then Some 1001 else None.

Definition ex_sector : SectorID := mkSectorID 1001 7.

(** Three paths; the sealed file of the sector is on the first, the cache on the
    first two. *)
Definition ex_index : index_db :=
  let db := (StorageAttach (fun _ => true) (ex_si "p1" 3 ["g1"] ["g3"]) (ex_stat 500000) 0 Applied ex_empty).1 in
  let db := (StorageAttach (fun _ => true) (ex_si "p2" 5 ["g2"] ["g3"]) (ex_stat 600000) 0 Applied db).1 in
  let db := (StorageAttach (fun _ => true) (ex_si "p3" 2 ["g3"] []) (ex_stat 900000) 0 Applied db).1 in
  let db := (StorageDeclareSector "p1" ex_sector FTSealed true Applied db).1 in
  let db := (StorageDeclareSector "p1" ex_sector FTCache false Applied db).1 in
  (StorageDeclareSector "p2" ex_sector FTCache false Applied db).1.

Definition ex_decls : list SectorDeclaration :=
  map (fun n => mkDeclaration "p1" (mkSectorID 1000 (Z.of_nat n)) FTSealed (Nat.even n)) (seq 0 20 ++ seq 5 3).

Lemma batch_declare_equiv_witness :
  BatchStorageDeclareSectors ex_decls (fun _ => (Applied, Applied)) ex_index = Some (declare_seq ex_decls ex_index, None).
Proof.
  apply (batch_declare_equiv ex_decls); [|done]. apply Forall_forall. intros d Hd%list_elem_of_fmap.
  destruct Hd as (n & -> & _). reflexivity.
Defined.

Lemma plain_bool l : forallb (fun s => has_no "," s && negb (bool_decide (s = EmptyString))) l = true -> plain l.
Proof.
  unfold plain. rewrite forallb_forall, Forall_forall. intros Hl s Hs%list_elem_of_In. specialize (Hl s Hs).
  bool_props. done.
Qed.

Lemma attach_info_witness :
  exists db', StorageAttach (fun _ => true) (ex_si "p2" 5 ["g2"] ["g3"]) (ex_stat 7) 9 Applied ex_index = (db', None) /\
    sector_location db' = sector_location ex_index /\
    (forall id, id <> "p2"%string -> storage_path db' !! id = storage_path ex_index !! id) /\
    StorageInfo_ "p2" None db' = Some (Ok (as_stored (ex_si "p2" 5 ["g2"] ["g3"]) ["http://a/remote"%string])).
Proof.
  apply (attach_info (fun _ => true) (ex_si "p2" 5 ["g2"] ["g3"]) (ex_stat 7) 9 ex_index).
  - unfold storable. split_and!; apply plain_bool; reflexivity.
  - reflexivity.
  - intros r Hr. vm_compute in Hr. injection Hr as <-. eexists. split; [reflexivity|discriminate].
Defined.

Lemma StorageDetach_spec_witness :
  match storage_path ex_index !! "p1"%string with
  | None => False
  | Some r =>
      exists db', StorageDetach "p1" "http://a/remote" None Applied ex_index = (db', None) /\
        storage_path db' = delete "p1"%string (storage_path ex_index) /\
        (forall k, sector_location db' !! k = if bool_decide (k.2 = "p1"%string) then None else sector_location ex_index !! k)
  end.
Proof.
  destruct (storage_path ex_index !! "p1"%string) as [r|] eqn:Hr; [|vm_compute in Hr; discriminate].
  destruct (StorageDetach "p1" "http://a/remote" None Applied ex_index) as [db' e] eqn:E.
  pose proof (StorageDetach_spec "p1" "http://a/remote" ex_index db' e ltac:(apply plain_bool; reflexivity) E) as HS.
  rewrite Hr in HS. destruct HS as [-> HS]. exists db'. split; [done|]. vm_compute in Hr. exact HS.
Defined.

Lemma best_alloc_spec_witness :
  exists res, StorageBestAlloc ex_addr None FTSealed 2048 PathSealing 1001 (10 * Second) None ex_index = Ok res /\
    exists spaceReq rows,
      alloc_space None FTSealed 2048 PathSealing = Ok spaceReq /\
      res = map (fun row => path_info row.1 row.2) rows /\ StronglySorted better rows /\
      (forall row, row ∈ rows <-> allocatable ex_addr ex_index (10 * Second) PathSealing spaceReq 1001 row).
Proof.
  eexists. split; [vm_compute; reflexivity|].
  apply (best_alloc_spec ex_addr None FTSealed 2048 PathSealing 1001 (10 * Second) ex_index). vm_compute. reflexivity.
Defined.

Lemma find_sector_holders_witness :
  exists res, findSectorUncached ex_url ex_addr ex_sector (Z.lor FTSealed FTCache) 2048 false 0 None None ex_index = Ok res /\
    NoDup (map ssi_ID res) /\
    (forall id, id ∈ map ssi_ID res <-> is_Some (storage_path ex_index !! id) /\
       types_on ex_index ex_sector (AllSet (Z.lor FTSealed FTCache)) id <> []) /\
    (forall info, info ∈ res -> exists r, storage_path ex_index !! ssi_ID info = Some r /\
       ssi_Weight info = u64 (p_weight r * Z.of_nat (length (types_on ex_index ex_sector (AllSet (Z.lor FTSealed FTCache)) (ssi_ID info)))) /\
       ssi_Primary info = existsb (primary_on ex_index ex_sector (ssi_ID info))
         (types_on ex_index ex_sector (AllSet (Z.lor FTSealed FTCache)) (ssi_ID info)) /\
       ssi_BaseURLs info = row_urls r).
Proof.
  apply (find_sector_holders ex_addr ex_url ex_sector (Z.lor FTSealed FTCache) 2048 0 None ex_index).
  intros id r Hr. assert ((id, r) ∈ map_to_list (storage_path ex_index)) as Hin by by apply elem_of_map_to_list.
  vm_compute in Hin. repeat (apply elem_of_cons in Hin as [[= -> ->]|Hin]; [split; [reflexivity|discriminate]|]).
  by apply not_elem_of_nil in Hin.
Defined.

Lemma find_sector_fetch_witness :
  exists res, findSectorUncached ex_url ex_addr ex_sector (Z.lor FTSealed FTCache) 2048 true 0 None None ex_index = Ok res /\
    exists held extra spaceReq,
      findSectorUncached ex_url ex_addr ex_sector (Z.lor FTSealed FTCache) 2048 false 0 None None ex_index = Ok held /\
      res = held ++ extra /\ SealSpaceUse (Z.lor FTSealed FTCache) 2048 = Ok spaceReq /\ map ssi_ID extra = ["p3"%string].
Proof.
  eexists. split; [vm_compute; reflexivity|].
  edestruct (find_sector_fetch ex_addr ex_url ex_sector (Z.lor FTSealed FTCache) 2048 0 ex_index) as (held & extra & sp & Hh & Hr & Hs & _);
    [vm_compute; reflexivity|].
  exists held, extra, sp. do 3 (split; [done|]). vm_compute in Hh. injection Hh as <-.
  apply (f_equal (drop 2)) in Hr. cbn in Hr. rewrite drop_0 in Hr. by rewrite <- Hr.
Defined.
