(* ===== verification/IndexDbLocks.v ===== *)
(** * Sector locks of the database index ([lib/paths/db_index.go])

    Nodes lock files of a sector through columns of [sector_location]: a write
    lock is a time stamp with its owner, read locks are a counter with a time
    stamp, and a time stamp older than [LockTimeOut] does not count.  The
    operations are functions on the tables; the nodes that use them are the steps
    of a transition system, in which a lock is one transaction, its release is
    two statements that can fail, processes die without releasing, and sector
    files are declared and dropped meanwhile.  The clock of the database and the
    clocks of the nodes differ by at most [skew]. *)

From stdpp Require Import base gmap sets list strings sorting pretty.
From Stdlib Require Import ZArith Lia Ascii.
From S2P Require Import Prelude FileType SectorLocks GoStd StorageIndex.

Definition LockTimeOut : duration := 300 * Second.

(** [isLocked]: the time stamp is there and recent on the clock of the node. *)
Definition isLocked (ts : option time) (now : time) : bool :=
  match ts with Some t => now - LockTimeOut <? t | None => false end.

Definition with_locs (db : index_db) (locs : gmap loc_key loc_row) : index_db := mkIndex (storage_path db) locs.

(** [WHERE miner_id=$1 AND sector_num=$2 AND sector_filetype = ANY($3)] *)
Definition selects (sector : SectorID) (fts : list SectorFileType) (k : loc_key) : bool :=
  bool_decide (k.1.1 = sector) && bool_decide (k.1.2 ∈ fts).

Definition update_locs (sel : loc_key -> loc_row -> bool) (f : loc_row -> loc_row) (locs : gmap loc_key loc_row)
    : gmap loc_key loc_row :=
  map_imap (fun k r => Some (if sel k r then f r else r)) locs.

Section Ops.
Context `{Enum}.
Implicit Types db : index_db.

(** [lockMap]: of several rows for one file type the last one read stays. *)
Definition lockMap (rows : list (loc_key * loc_row)) (ft : SectorFileType) : option loc_row :=
  foldl (fun acc kv => if bool_decide (kv.1.1.2 = ft) then Some kv.2 else acc) None rows.

Definition lock_rows db (sector : SectorID) (fts : list SectorFileType) : list (loc_key * loc_row) :=
  enum (List.filter (fun kv => selects sector fts kv.1) (map_to_list (sector_location db))).

Definition write_blocked (rows : list (loc_key * loc_row)) (gonow : time) (wft : SectorFileType) : bool :=
  isLocked (lockMap rows wft ≫= l_write_ts) gonow || isLocked (lockMap rows wft ≫= l_read_ts) gonow.

Definition read_blocked (rows : list (loc_key * loc_row)) (gonow : time) (rft : SectorFileType) : bool :=
  isLocked (lockMap rows rft ≫= l_write_ts) gonow.

(** The two updates of the transaction, at the time [dbnow] of the database. *)
Definition take_write (dbnow : time) (lockUuid : string) (r : loc_row) : loc_row :=
  mkLoc (l_primary r) (l_read_ts r) (l_read_refs r) (Some dbnow) (Some lockUuid).

Definition take_read (dbnow : time) (r : loc_row) : loc_row :=
  mkLoc (l_primary r) (Some dbnow) (l_read_refs r + 1) (l_write_ts r) (l_write_owner r).

Definition acquire_locks (sector : SectorID) (read write : SectorFileType) (lockUuid : string) (dbnow : time) db : index_db :=
  let locs := update_locs (fun k _ => selects sector (AllSet write) k) (take_write dbnow lockUuid) (sector_location db) in
  with_locs db (update_locs (fun k _ => selects sector (AllSet read) k) (take_read dbnow) locs).

(** [lock]; [gonow] is the clock of the node. *)
Definition DBIndex_lock (sector : SectorID) (read write : SectorFileType) (lockUuid : string) (gonow dbnow : time)
    (x : exec) db : index_db * result bool index_error :=
  if Z.lor read write =? 0 then (db, Ok false)
  else if Z.lor read write >? Z.shiftl 1 FileTypes - 1 then (db, Err UnknownFileTypes)
  else match x with
       | Rejected e => (db, Err (SqlFailed e))
       | _ =>
           let rows := lock_rows db sector (AllSet (Z.lor read write)) in
           if existsb (write_blocked rows gonow) (AllSet write) then (db, Err AlreadyLocked)
           else if existsb (read_blocked rows gonow) (AllSet read) then (db, Err AlreadyLocked)
           else match run_exec x db (acquire_locks sector read write lockUuid dbnow db) with
                | (db', Some e) => (db', Err (SqlFailed e))
                | (db', None) => (db', Ok true)
                end
       end.

Definition drop_write (r : loc_row) : loc_row :=
  mkLoc (l_primary r) (l_read_ts r) (l_read_refs r) None None.

Definition drop_read (r : loc_row) : loc_row :=
  mkLoc (l_primary r) (if l_read_refs r - 1 =? 0 then None else l_read_ts r) (l_read_refs r - 1) (l_write_ts r) (l_write_owner r).

(** The two statements of [unlock]. *)
Definition release_write (sector : SectorID) (write : SectorFileType) (lockUuid : string) db : index_db :=
  with_locs db (update_locs
    (fun k r => selects sector (AllSet write) k && bool_decide (l_write_owner r = Some lockUuid))
    drop_write (sector_location db)).

Definition release_read (sector : SectorID) (read : SectorFileType) db : index_db :=
  with_locs db (update_locs (fun k _ => selects sector (AllSet read) k) drop_read (sector_location db)).

Definition DBIndex_unlock (sector : SectorID) (read write : SectorFileType) (lockUuid : string) (x1 x2 : exec) db
    : index_db * result bool index_error :=
  if Z.lor read write =? 0 then (db, Ok false)
  else if Z.lor read write >? Z.shiftl 1 FileTypes - 1 then (db, Err UnknownFileTypes)
  else match run_exec x1 db (release_write sector write lockUuid db) with
       | (db', Some e) => (db', Err (SqlFailed e))
       | (db', None) =>
           match run_exec x2 db' (release_read sector read db') with
           | (db'', Some e) => (db'', Err (SqlFailed e))
           | (db'', None) => (db'', Ok true)
           end
       end.

(** [StorageLock] calls [lock] until it succeeds; what each attempt returned, and
    whether the context was done before the timer fired, is an input.  The result
    comes with the seconds of the timers it waited for. *)
Inductive lock_end := Locked | GaveUp (e : index_error) | Cancelled.

Definition maxWaitTime : Z := 300.

Fixpoint StorageLock_loop (retries waitTime : Z) (attempts : list (result bool index_error * bool))
    : list Z * option lock_end :=
  match attempts with
  | [] => ([], None)
  | (res, done) :: attempts =>
      let other := match res with Err AlreadyLocked | Ok _ => None | Err e => Some e end in
      let retries := match other with Some _ => retries - 1 | None => retries end in
      match (if retries =? 0 then other else None), res with
      | Some e, _ => ([], Some (GaveUp e))
      | None, Ok true => ([], Some Locked)
      | None, _ =>
          if done : bool then ([], Some Cancelled)
          else
            let '(ws, r) := StorageLock_loop retries (if waitTime <? maxWaitTime then waitTime * 2 else waitTime) attempts in
            (waitTime :: ws, r)
      end
  end.

Definition DBIndex_StorageLock (attempts : list (result bool index_error * bool)) : list Z * option lock_end :=
  StorageLock_loop 5 1 attempts.

(** [StorageTryLock] is one attempt. *)
Definition DBIndex_StorageTryLock (sector : SectorID) (read write : SectorFileType) (lockUuid : string)
    (gonow dbnow : time) (x : exec) db : index_db * result bool index_error :=
  match DBIndex_lock sector read write lockUuid gonow dbnow x db with
  | (db', Err e) => (db', Err e)
  | (db', Ok locked) => (db', Ok locked)
  end.

(** [StorageGetLocks]: of several rows of a sector the last one read stays, and
    its file type is used as an index into arrays of seven; [None] is the panic
    of an index out of range. *)
Definition get_lock (gonow : time) (kv : loc_key * loc_row) : option (list Z * list Z) :=
  let ft := kv.1.1.2 in
  let readRefs := if isLocked (l_read_ts kv.2) gonow then u64 (l_read_refs kv.2) else 0 in
  let writeLk := if isLocked (l_write_ts kv.2) gonow then 1 else 0 in
  let zero := replicate (Z.to_nat FileTypes) 0 in
  if (0 <=? ft) && (ft <? FileTypes)
  then Some (<[Z.to_nat ft := writeLk]> zero, <[Z.to_nat ft := readRefs]> zero) else None.

Definition DBIndex_StorageGetLocks (gonow : time) db : option (list (SectorID * (list Z * list Z))) :=
  let rows := enum (map_to_list (sector_location db)) in
  let sectorLocks : gmap SectorID (loc_key * loc_row) :=
    foldl (fun m kv => <[kv.1.1.1 := kv]> m) ∅ rows in
  mapM (fun e => match get_lock gonow e.2 with Some l => Some (e.1, l) | None => None end)
    (enum (map_to_list sectorLocks)).

End Ops.

(** ** The nodes *)

Inductive lock_phase := Held | Releasing.

(** A caller of [StorageLock] or [StorageTryLock] that was granted its locks at
    [h_since] (on the clock of the database). *)
Record holder := mkHolder {
  h_uuid : string;
  h_sector : SectorID;
  h_read : SectorFileType;
  h_write : SectorFileType;
  h_since : time;
  h_phase : lock_phase
}.

Record lock_state := mkLockState {
  ls_db : index_db;
  ls_clock : time;
  ls_holders : list holder;
  ls_used : gset string     (* the uuids that were generated *)
}.

Section System.
Context `{Enum}.
Variable skew : duration.

Definition reads (h : holder) (s : SectorID) (ft : SectorFileType) : bool :=
  bool_decide (h_sector h = s) && bool_decide (ft ∈ AllSet (h_read h)).
Definition writes (h : holder) (s : SectorID) (ft : SectorFileType) : bool :=
  bool_decide (h_sector h = s) && bool_decide (ft ∈ AllSet (h_write h)).

(** The history of the files that were declared on a further path while somebody held
    a lock on them: the new row has no lock. *)
Definition late_declared (db db' : index_db) (hs : list holder) (id : string) (s : SectorID) (ft : SectorFileType) : bool :=
  bool_decide (sector_location db !! (s, ft, id) = None) && negb (bool_decide (sector_location db' !! (s, ft, id) = None)) &&
  existsb (fun h => reads h s ft || writes h s ft) hs.
Definition note_late (db db' : index_db) (hs : list holder) (id : string) (s : SectorID) (ft : SectorFileType)
    (late : gset (SectorID * SectorFileType)) : gset (SectorID * SectorFileType) :=
  if late_declared db db' hs id s ft then {[ (s, ft) ]} ∪ late else late.

(** One step, of a state with that history. *)
Inductive lock_step : lock_state * gset (SectorID * SectorFileType) -> lock_state * gset (SectorID * SectorFileType) -> Prop :=
| ls_tick db t t' hs used L : t <= t' -> lock_step (mkLockState db t hs used, L) (mkLockState db t' hs used, L)
| ls_lock db t hs used L sector read write uuid gonow x db' res :
    gonow <= t + skew -> uuid ∉ used ->
    DBIndex_lock sector read write uuid gonow t x db = (db', res) ->
    lock_step (mkLockState db t hs used, L)
      (mkLockState db' t (match res with
                          | Ok true => mkHolder uuid sector read write t Held :: hs
                          | _ => hs end) ({[uuid]} ∪ used), L)
| ls_unlock_write db t before h after used L x db' e :
    h_phase h = Held ->
    run_exec x db (release_write (h_sector h) (h_write h) (h_uuid h) db) = (db', e) ->
    lock_step (mkLockState db t (before ++ h :: after) used, L)
      (mkLockState db' t (match e with
                          | None => before ++ mkHolder (h_uuid h) (h_sector h) (h_read h) (h_write h) (h_since h) Releasing :: after
                          | Some _ => before ++ after end) used, L)
| ls_unlock_read db t before h after used L x db' e :
    h_phase h = Releasing ->
    run_exec x db (release_read (h_sector h) (h_read h) db) = (db', e) ->
    lock_step (mkLockState db t (before ++ h :: after) used, L) (mkLockState db' t (before ++ after) used, L)
| ls_crash db t before h after used L :
    lock_step (mkLockState db t (before ++ h :: after) used, L) (mkLockState db t (before ++ after) used, L)
| ls_declare db t hs used L id s ft primary x db' :
    (StorageDeclareSector id s ft primary x db).1 = db' ->
    lock_step (mkLockState db t hs used, L) (mkLockState db' t hs used, note_late db db' hs id s ft L)
| ls_drop db t hs used L id s ft x :
    lock_step (mkLockState db t hs used, L) (mkLockState (StorageDropSector id s ft x db).1 t hs used, L)
| ls_detach db t hs used L id url q x :
    lock_step (mkLockState db t hs used, L) (mkLockState (StorageDetach id url q x db).1 t hs used, L)
| ls_attach db t hs used L url_parse si st x :
    lock_step (mkLockState db t hs used, L) (mkLockState (StorageAttach url_parse si st t x db).1 t hs used, L).

Definition lock_init (s : lock_state) : Prop :=
  ls_holders s = [] /\
  (forall k r, sector_location (ls_db s) !! k = Some r ->
     0 <= l_read_refs r /\ forall u, l_write_owner r = Some u -> u ∈ ls_used s).

(** The lock has not run out, on any clock. *)
Definition fresh (t : time) (h : holder) : Prop := t < h_since h + LockTimeOut - skew.

Definition readers (hs : list holder) (s : SectorID) (ft : SectorFileType) : Z :=
  Z.of_nat (length (List.filter (fun h => reads h s ft) hs)).

(** The invariant: what the columns say of every holder. *)
Definition owner_ok (used : gset string) (r : loc_row) : Prop := forall u, l_write_owner r = Some u -> u ∈ used.

Definition write_ok (t : time) (h : holder) (r : loc_row) : Prop :=
  h_phase h = Held -> fresh t h -> l_write_ts r = Some (h_since h) /\ l_write_owner r = Some (h_uuid h).

Definition read_ok (h : holder) (r : loc_row) : Prop :=
  exists t, l_read_ts r = Some t /\ h_since h <= t.

Record row_ok (t : time) (hs : list holder) (used : gset string) (k : loc_key) (r : loc_row) : Prop := {
  ro_owner : owner_ok used r;
  ro_refs : readers hs k.1.1 k.1.2 <= l_read_refs r;
  ro_write : forall h, h ∈ hs -> writes h k.1.1 k.1.2 = true -> write_ok t h r;
  ro_read : forall h, h ∈ hs -> reads h k.1.1 k.1.2 = true -> read_ok h r
}.

Definition conflict_on (h1 h2 : holder) (s : SectorID) (ft : SectorFileType) : Prop :=
  writes h1 s ft = true /\ (reads h2 s ft = true \/ writes h2 s ft = true).

Record lock_inv (s : lock_state) : Prop := {
  li_used : forall h, h ∈ ls_holders s -> h_uuid h ∈ ls_used s;
  li_nodup : NoDup (map h_uuid (ls_holders s));
  li_past : forall h, h ∈ ls_holders s -> h_since h <= ls_clock s;
  li_rows : forall k r, sector_location (ls_db s) !! k = Some r ->
      row_ok (ls_clock s) (ls_holders s) (ls_used s) k r;
  li_excl : forall h1 h2 k, h1 ∈ ls_holders s -> h2 ∈ ls_holders s -> h1 <> h2 ->
      h_phase h1 = Held -> h_phase h2 = Held -> fresh (ls_clock s) h1 -> fresh (ls_clock s) h2 ->
      conflict_on h1 h2 k.1.1 k.1.2 -> sector_location (ls_db s) !! k = None
}.

(** *** Updates of the table *)

Lemma update_locs_lookup sel f locs k :
  update_locs sel f locs !! k = (fun r => if sel k r then f r else r) <$> locs !! k.
Proof. unfold update_locs. rewrite map_lookup_imap. by destruct (locs !! k). Qed.

Lemma lockMap_snoc rows kv ft :
  lockMap (rows ++ [kv]) ft = if bool_decide (kv.1.1.2 = ft) then Some kv.2 else lockMap rows ft.
Proof. unfold lockMap. by rewrite foldl_app. Qed.

Lemma lockMap_row rows ft k r : (k, r) ∈ rows -> k.1.2 = ft ->
  exists k' r', lockMap rows ft = Some r' /\ (k', r') ∈ rows /\ k'.1.2 = ft.
Proof.
  induction rows as [|[k0 r0] rows IH] using rev_ind; [by intros []%not_elem_of_nil|].
  intros Hin Hft. rewrite lockMap_snoc. cbn [fst snd]. case_bool_decide as E0.
  - exists k0, r0. split; [done|]. split; [|done]. apply elem_of_app. right. by apply list_elem_of_singleton.
  - apply elem_of_app in Hin as [Hin|Hin%list_elem_of_singleton].
    + destruct (IH Hin Hft) as (k' & r' & E & Hr & Hk). exists k', r'. split; [done|]. split; [|done].
      apply elem_of_app. by left.
    + injection Hin as -> ->. congruence.
Qed.

Lemma selects_true sector fts k : selects sector fts k = true <-> k.1.1 = sector /\ k.1.2 ∈ fts.
Proof. unfold selects. by rewrite andb_true_iff, !bool_decide_eq_true. Qed.

Lemma elem_of_lock_rows db sector fts k r :
  (k, r) ∈ lock_rows db sector fts <-> sector_location db !! k = Some r /\ k.1.1 = sector /\ k.1.2 ∈ fts.
Proof.
  unfold lock_rows. rewrite elem_of_enum, list_elem_of_In, filter_In, <- list_elem_of_In, elem_of_map_to_list.
  cbn [fst]. by rewrite selects_true.
Qed.

(** The types of a request are among those whose rows are read. *)
Lemma AllSet_lor_r a b ft : ft ∈ AllSet b -> ft ∈ AllSet (Z.lor a b).
Proof.
  rewrite !elem_of_AllSet. intros [Hp Hh]. split; [done|].
  destruct (PathTypes_lookup ft Hp) as (i & Hi & ->). rewrite Has_single in Hh |- * by lia.
  by rewrite Z.lor_spec, Hh, orb_true_r.
Qed.

Lemma AllSet_lor_l a b ft : ft ∈ AllSet a -> ft ∈ AllSet (Z.lor a b).
Proof. rewrite Z.lor_comm. apply AllSet_lor_r. Qed.

(** A request that passed the checks: for every wanted type of which the index
    has a row, some row of that type is free. *)
Definition unblocked (db : index_db) (sector : SectorID) (read write : SectorFileType) (gonow : time) : Prop :=
  forall ft id r, sector_location db !! (sector, ft, id) = Some r ->
    (ft ∈ AllSet write -> exists id' r', sector_location db !! (sector, ft, id') = Some r' /\
       isLocked (l_write_ts r') gonow = false /\ isLocked (l_read_ts r') gonow = false) /\
    (ft ∈ AllSet read -> exists id' r', sector_location db !! (sector, ft, id') = Some r' /\
       isLocked (l_write_ts r') gonow = false).

Lemma existsb_false_elem {A} (f : A -> bool) l x : existsb f l = false -> x ∈ l -> f x = false.
Proof.
  intros E Hx. apply not_true_iff_false. intros Hf. apply not_true_iff_false in E. apply E.
  apply existsb_exists. exists x. split; [by apply list_elem_of_In|done].
Qed.

Lemma checks_unblocked db sector read write gonow :
  let rows := lock_rows db sector (AllSet (Z.lor read write)) in
  existsb (write_blocked rows gonow) (AllSet write) = false ->
  existsb (read_blocked rows gonow) (AllSet read) = false ->
  unblocked db sector read write gonow.
Proof.
  cbv zeta. intros Hw Hr ft id r Hl. split; intros Hft.
  - destruct (lockMap_row (lock_rows db sector (AllSet (Z.lor read write))) ft (sector, ft, id) r)
      as ([[s ft'] id'] & r' & E & Hin & Heq); [|done|].
    { apply elem_of_lock_rows. split; [done|]. split; [done|]. by apply AllSet_lor_r. }
    apply elem_of_lock_rows in Hin as (Hl' & Hs & _). cbn in Hs, Heq. subst. exists id', r'. split; [done|].
    pose proof (existsb_false_elem _ _ _ Hw Hft) as Hb. unfold write_blocked in Hb. rewrite E in Hb. cbn in Hb.
    by apply orb_false_iff in Hb.
  - destruct (lockMap_row (lock_rows db sector (AllSet (Z.lor read write))) ft (sector, ft, id) r)
      as ([[s ft'] id'] & r' & E & Hin & Heq); [|done|].
    { apply elem_of_lock_rows. split; [done|]. split; [done|]. by apply AllSet_lor_l. }
    apply elem_of_lock_rows in Hin as (Hl' & Hs & _). cbn in Hs, Heq. subst. exists id', r'. split; [done|].
    pose proof (existsb_false_elem _ _ _ Hr Hft) as Hb. unfold read_blocked in Hb. by rewrite E in Hb.
Qed.

(** What an attempt does: nothing, or it takes the locks of a request that is not
    blocked. *)
Lemma DBIndex_lock_cases sector read write uuid gonow t x db db' res :
  DBIndex_lock sector read write uuid gonow t x db = (db', res) ->
  (db' = db /\ res <> Ok true) \/
  (db' = acquire_locks sector read write uuid t db /\ unblocked db sector read write gonow).
Proof.
  unfold DBIndex_lock. case_match; [intros [= <- <-]; by left|]. case_match; [intros [= <- <-]; by left|].
  destruct x as [|e|e]; [|intros [= <- <-]; by left|];
    destruct (existsb (write_blocked _ gonow) (AllSet write)) eqn:Hw; try (intros [= <- <-]; by left);
    destruct (existsb (read_blocked _ gonow) (AllSet read)) eqn:Hr; try (intros [= <- <-]; by left);
    cbn [run_exec]; intros [= <- <-]; right; (split; [done|]); by apply checks_unblocked.
Qed.

(** *** Rows and holders *)

Lemma fresh_mono t t' h : t <= t' -> fresh t' h -> fresh t h.
Proof. unfold fresh. lia. Qed.

Lemma row_ok_time t t' hs used k r : t <= t' -> row_ok t hs used k r -> row_ok t' hs used k r.
Proof.
  intros Ht [Ho Hr Hw Hd]. split; try done. intros h Hh Hk Hp Hf. apply (Hw h); try done. by eapply fresh_mono.
Qed.

Lemma readers_app hs hs' s ft : readers (hs ++ hs') s ft = readers hs s ft + readers hs' s ft.
Proof. unfold readers. rewrite List.filter_app, length_app. lia. Qed.

Lemma readers_cons h hs s ft : readers (h :: hs) s ft = (if reads h s ft then 1 else 0) + readers hs s ft.
Proof. unfold readers. cbn [List.filter]. destruct (reads h s ft); cbn [length]; lia. Qed.

Lemma readers_none hs s ft : (forall h, h ∈ hs -> reads h s ft = false) -> readers hs s ft = 0.
Proof.
  induction hs as [|h hs IH]; intros Hn; [done|]. rewrite readers_cons, (Hn h) by left.
  rewrite IH; [done|]. intros h' Hh'. apply Hn. by right.
Qed.

Lemma readers_pos hs s ft h : h ∈ hs -> reads h s ft = true -> 1 <= readers hs s ft.
Proof.
  induction hs as [|h' hs IH]; [by intros []%not_elem_of_nil|]. rewrite readers_cons.
  intros [->|Hh]%elem_of_cons Hr.
  - rewrite Hr. unfold readers. lia.
  - specialize (IH Hh Hr). destruct (reads h' s ft); lia.
Qed.

(** The columns that matter. *)
Definition same_locks (r r' : loc_row) : Prop :=
  l_read_ts r' = l_read_ts r /\ l_read_refs r' = l_read_refs r /\
  l_write_ts r' = l_write_ts r /\ l_write_owner r' = l_write_owner r.

Lemma row_ok_same t hs used k r r' : same_locks r r' -> row_ok t hs used k r -> row_ok t hs used k r'.
Proof.
  intros (E1 & E2 & E3 & E4) [Ho Hr Hw Hd]. split.
  - unfold owner_ok. rewrite E4. exact Ho.
  - by rewrite E2.
  - unfold write_ok. rewrite E3, E4. exact Hw.
  - unfold read_ok. rewrite E1. exact Hd.
Qed.

Lemma row_ok_remove t before h after used k r :
  row_ok t (before ++ h :: after) used k r -> row_ok t (before ++ after) used k r.
Proof.
  intros [Ho Hr Hw Hd]. split; [done| | |].
  - rewrite readers_app, readers_cons in Hr. rewrite readers_app. destruct (reads h k.1.1 k.1.2); lia.
  - intros h' Hh'. apply Hw. set_solver.
  - intros h' Hh'. apply Hd. set_solver.
Qed.

(** Forgetting rows, or keeping them with their lock columns. *)
Lemma lock_inv_locs db db' t hs used :
  (forall k r', sector_location db' !! k = Some r' -> exists r, sector_location db !! k = Some r /\ same_locks r r') ->
  lock_inv (mkLockState db t hs used) -> lock_inv (mkLockState db' t hs used).
Proof.
  intros Hsub [Hu Hn Hp Hr Hx]. split; try done; cbn in *.
  - intros k r' Hl. destruct (Hsub k r' Hl) as (r & Hl0 & Hs). eapply row_ok_same; eauto.
  - intros h1 h2 k H1 H2 Hne P1 P2 F1 F2 Hc. destruct (sector_location db' !! k) as [r'|] eqn:Hl; [|done].
    destruct (Hsub k r' Hl) as (r & Hl0 & _). rewrite (Hx h1 h2 k) in Hl0; done.
Qed.

Lemma lock_inv_remove db t before h after used :
  lock_inv (mkLockState db t (before ++ h :: after) used) -> lock_inv (mkLockState db t (before ++ after) used).
Proof.
  intros [Hu Hn Hp Hr Hx]. cbn in *. split; cbn.
  - intros h' Hh'. apply Hu. set_solver.
  - rewrite map_app in *. cbn in Hn. apply NoDup_app in Hn as (N1 & N2 & N3). apply NoDup_cons in N3 as [_ N3].
    apply NoDup_app. split; [done|]. split; [|done]. intros u H1 H2. apply (N2 u H1). by right.
  - intros h' Hh'. apply Hp. set_solver.
  - intros k r Hl. by eapply row_ok_remove, Hr.
  - intros h1 h2 k H1 H2. apply Hx; set_solver.
Qed.

(** *** Taking locks *)

Definition acquired_row (sector : SectorID) (read write : SectorFileType) (uuid : string) (t : time) (k : loc_key) (r : loc_row) : loc_row :=
  let r := if selects sector (AllSet write) k then take_write t uuid r else r in
  if selects sector (AllSet read) k then take_read t r else r.

Lemma acquire_locks_lookup sector read write uuid t db k :
  sector_location (acquire_locks sector read write uuid t db) !! k =
  acquired_row sector read write uuid t k <$> sector_location db !! k.
Proof.
  unfold acquire_locks, with_locs. cbn [sector_location]. rewrite !update_locs_lookup.
  by destruct (sector_location db !! k).
Qed.

Lemma fresh_isLocked (t gonow : time) h (ts : time) : gonow <= t + skew -> fresh t h -> h_since h <= ts ->
  isLocked (Some ts) gonow = true.
Proof. unfold fresh. intros Hg Hf Hs. cbn. apply Z.ltb_lt. lia. Qed.

Section Acquire.
Context (db : index_db) (t : time) (hs : list holder) (used : gset string).
Context (sector : SectorID) (read write : SectorFileType) (uuid : string) (gonow : time).
Hypothesis Hinv : lock_inv (mkLockState db t hs used).
Hypothesis Hskew : gonow <= t + skew.
Hypothesis Hfresh : uuid ∉ used.
Hypothesis Hun : unblocked db sector read write gonow.

(** A granted write lock does not take a file from a holder whose lock has not
    run out. *)
Lemma granted_write_free h ft id r :
  sector_location db !! (sector, ft, id) = Some r -> ft ∈ AllSet write -> h ∈ hs ->
  h_phase h = Held -> fresh t h -> reads h sector ft = false /\ writes h sector ft = false.
Proof.
  intros Hl Hft Hh Hp Hf. destruct (Hun ft id r Hl) as [Hw _].
  destruct (Hw Hft) as (id' & r' & Hl' & Hnw & Hnr). destruct (li_rows _ Hinv _ _ Hl') as [_ _ Hrw Hrr].
  split; apply not_true_iff_false; intros Hc.
  - destruct (Hrr h Hh Hc) as (ts & Hts & Hle). rewrite Hts, (fresh_isLocked t gonow h ts) in Hnr; done.
  - destruct (Hrw h Hh Hc Hp Hf) as [Hts _]. rewrite Hts, (fresh_isLocked t gonow h (h_since h)) in Hnw; done.
Qed.

(** A granted read lock is not on a file that is being written. *)
Lemma granted_read_free h ft id r :
  sector_location db !! (sector, ft, id) = Some r -> ft ∈ AllSet read -> h ∈ hs ->
  h_phase h = Held -> fresh t h -> writes h sector ft = false.
Proof.
  intros Hl Hft Hh Hp Hf. destruct (Hun ft id r Hl) as [_ Hr].
  destruct (Hr Hft) as (id' & r' & Hl' & Hnw). destruct (li_rows _ Hinv _ _ Hl') as [_ _ Hrw _].
  apply not_true_iff_false. intros Hc. destruct (Hrw h Hh Hc Hp Hf) as [Hts _].
  rewrite Hts, (fresh_isLocked t gonow h (h_since h)) in Hnw; done.
Qed.

Lemma acquired_row_ok k r : sector_location db !! k = Some r ->
  row_ok t hs ({[uuid]} ∪ used) k (acquired_row sector read write uuid t k r).
Proof.
  intros Hl. pose proof (li_rows _ Hinv k r Hl) as [Ho Hr Hw Hd]. cbn in *. unfold acquired_row.
  destruct k as [[s ft] id]. cbn [fst snd] in *. split; cbn [fst snd].
  - intros u. case_ifs; cbn; intros E; try (injection E as <-; set_solver);
      pose proof (Ho u E); set_solver.
  - case_ifs; cbn; lia.
  - intros h Hh Hk Hp Hf. destruct (selects sector (AllSet write) (s, ft, id)) eqn:Hsel.
    + exfalso. apply selects_true in Hsel as [Hs Hft]. cbn in Hs, Hft. subst s.
      destruct (granted_write_free h ft id r Hl Hft Hh Hp Hf) as [_ Hc]. congruence.
    + destruct (Hw h Hh Hk Hp Hf). case_ifs; done.
  - intros h Hh Hk. destruct (Hd h Hh Hk) as (ts & Hts & Hle).
    destruct (selects sector (AllSet read) (s, ft, id)).
    + exists t. split; [by case_ifs|]. by apply (li_past _ Hinv).
    + exists ts. split; [by case_ifs|done].
Qed.

Let new := mkHolder uuid sector read write t Held.

Lemma new_reads s ft : reads new s ft = selects sector (AllSet read) (s, ft, EmptyString).
Proof. unfold reads, selects. cbn. f_equal. apply bool_decide_ext. done. Qed.
Lemma new_writes s ft : writes new s ft = selects sector (AllSet write) (s, ft, EmptyString).
Proof. unfold writes, selects. cbn. f_equal. apply bool_decide_ext. done. Qed.

Lemma acquired_row_new k r : sector_location db !! k = Some r ->
  row_ok t (new :: hs) ({[uuid]} ∪ used) k (acquired_row sector read write uuid t k r).
Proof.
  intros Hl. pose proof (acquired_row_ok k r Hl) as [Ho Hr Hw Hd].
  pose proof (ro_refs _ _ _ _ _ (li_rows _ Hinv k r Hl)) as Hr0. cbn [ls_holders] in Hr0.
  destruct k as [[s ft] id]. cbn [fst snd] in *. split; cbn [fst snd]; [done| | |].
  - rewrite readers_cons, new_reads. unfold acquired_row.
    change (selects sector (AllSet read) (s, ft, id)) with (selects sector (AllSet read) (s, ft, EmptyString)).
    case_ifs; cbn; lia.
  - intros h [->|Hh]%elem_of_cons Hk; [|by apply Hw]. rewrite new_writes in Hk. intros _ _. unfold acquired_row.
    change (selects sector (AllSet write) (s, ft, id)) with (selects sector (AllSet write) (s, ft, EmptyString)).
    rewrite Hk. case_ifs; done.
  - intros h [->|Hh]%elem_of_cons Hk; [|by apply Hd]. rewrite new_reads in Hk. unfold acquired_row.
    change (selects sector (AllSet read) (s, ft, id)) with (selects sector (AllSet read) (s, ft, EmptyString)).
    rewrite Hk. exists t. split; [by case_ifs|]. cbn. lia.
Qed.

Lemma acquired_none k : sector_location db !! k = None ->
  sector_location (acquire_locks sector read write uuid t db) !! k = None.
Proof. intros E. by rewrite acquire_locks_lookup, E. Qed.

(** The transaction was applied but its caller does not know. *)
Lemma acquire_lost_inv :
  lock_inv (mkLockState (acquire_locks sector read write uuid t db) t hs ({[uuid]} ∪ used)).
Proof.
  pose proof Hinv as [Hu Hn Hp Hr Hx]. split; cbn [ls_db ls_clock ls_holders ls_used] in *; try done.
  - intros h Hh. specialize (Hu h Hh). set_solver.
  - intros k r. rewrite acquire_locks_lookup. destruct (sector_location db !! k) as [r0|] eqn:Hl; [|done].
    intros [= <-]. by apply acquired_row_ok.
  - intros h1 h2 k H1 H2 Hne P1 P2 F1 F2 Hc. apply acquired_none. by apply (Hx h1 h2).
Qed.

(** The new holder conflicts with none whose lock has not run out. *)
Lemma new_no_conflict h k r : sector_location db !! k = Some r -> h ∈ hs -> h_phase h = Held -> fresh t h ->
  ~ conflict_on new h k.1.1 k.1.2 /\ ~ conflict_on h new k.1.1 k.1.2.
Proof.
  destruct k as [[s ft] id]. cbn [fst snd]. intros Hl Hh Hp Hf. unfold conflict_on. rewrite new_reads, new_writes. split.
  - intros [Hw Hc]. apply selects_true in Hw as [Hs Hft]. cbn in Hs, Hft. subst s.
    destruct (granted_write_free h ft id r Hl Hft Hh Hp Hf) as [Hr1 Hw1]. destruct Hc; congruence.
  - intros [Hw [Hc|Hc]]; apply selects_true in Hc as [Hs Hft]; cbn in Hs, Hft; subst s.
    + rewrite (granted_read_free h ft id r Hl Hft Hh Hp Hf) in Hw. done.
    + destruct (granted_write_free h ft id r Hl Hft Hh Hp Hf) as [_ Hw1]. congruence.
Qed.

Lemma acquire_inv :
  lock_inv (mkLockState (acquire_locks sector read write uuid t db) t (new :: hs) ({[uuid]} ∪ used)).
Proof.
  pose proof Hinv as [Hu Hn Hp Hr Hx]. split; cbn [ls_db ls_clock ls_holders ls_used map] in *.
  - intros h [->|Hh]%elem_of_cons; [cbn; set_solver|]. specialize (Hu h Hh). set_solver.
  - apply NoDup_cons. split; [|done]. intros (h & E & Hh)%list_elem_of_fmap. apply Hfresh. change uuid with (h_uuid new). rewrite E. by apply Hu.
  - intros h [->|Hh]%elem_of_cons; [cbn; lia|by apply Hp].
  - intros k r. rewrite acquire_locks_lookup. destruct (sector_location db !! k) as [r0|] eqn:Hl; [|done].
    intros [= <-]. by apply acquired_row_new.
  - intros h1 h2 k H1 H2 Hne P1 P2 F1 F2 Hc. apply acquired_none.
    destruct (sector_location db !! k) as [r|] eqn:Hl; [|done]. exfalso.
    apply elem_of_cons in H1 as [->|H1], H2 as [->|H2]; [done| | |].
    + by destruct (new_no_conflict h2 k r Hl H2 P2 F2).
    + by destruct (new_no_conflict h1 k r Hl H1 P1 F1).
    + rewrite (Hx h1 h2 k) in Hl; done.
Qed.

End Acquire.

(** *** Giving locks back *)

Lemma release_write_lookup sector write uuid db k :
  sector_location (release_write sector write uuid db) !! k =
  (fun r => if selects sector (AllSet write) k && bool_decide (l_write_owner r = Some uuid) then drop_write r else r)
  <$> sector_location db !! k.
Proof. apply update_locs_lookup. Qed.

Lemma release_read_lookup sector read db k :
  sector_location (release_read sector read db) !! k =
  (fun r => if selects sector (AllSet read) k then drop_read r else r) <$> sector_location db !! k.
Proof. apply update_locs_lookup. Qed.

Definition releasing (h : holder) : holder :=
  mkHolder (h_uuid h) (h_sector h) (h_read h) (h_write h) (h_since h) Releasing.

(** A holder stops using its locks, before any statement. *)
Lemma releasing_inv db t before h after used :
  lock_inv (mkLockState db t (before ++ h :: after) used) ->
  lock_inv (mkLockState db t (before ++ releasing h :: after) used).
Proof.
  intros [Hu Hn Hp Hr Hx]. cbn [ls_db ls_clock ls_holders ls_used] in *.
  assert (forall h', h' ∈ before ++ releasing h :: after -> h_phase h' = Held -> h' ∈ before ++ h :: after) as Hheld.
  { intros h' [Hin|[->|Hin]%elem_of_cons]%elem_of_app Hph; [|done|]; set_solver. }
  assert (forall h', h' ∈ before ++ releasing h :: after -> exists h0, h0 ∈ before ++ h :: after /\
    h_uuid h0 = h_uuid h' /\ h_since h0 = h_since h' /\ forall s ft, reads h0 s ft = reads h' s ft) as Hany.
  { intros h' [Hin|[->|Hin]%elem_of_cons]%elem_of_app; [exists h'|exists h|exists h']; (split; [set_solver|done]). }
  split; cbn [ls_db ls_clock ls_holders ls_used].
  - intros h' (h0 & H0 & <- & _)%Hany. by apply Hu.
  - rewrite map_app in *. exact Hn.
  - intros h' (h0 & H0 & _ & <- & _)%Hany. by apply Hp.
  - intros k r Hl. destruct (Hr k r Hl) as [Ho Hrf Hw Hd]. split; [done| | |].
    + rewrite readers_app, readers_cons in *. exact Hrf.
    + intros h' Hh' Hk Hph. apply (Hw h'); try done. by apply Hheld.
    + intros h' Hh' Hk. destruct (Hany h' Hh') as (h0 & H0 & _ & Hs & Hrd). rewrite <- Hrd in Hk.
      destruct (Hd h0 H0 Hk) as (ts & Hts & Hle). exists ts. by rewrite <- Hs.
  - intros h1 h2 k H1 H2 Hne P1 P2. apply Hx; auto.
Qed.

(** The write statement frees only rows of its owner, who does not count on them
    any more. *)
Lemma release_write_inv db t hs used h :
  h ∈ hs -> h_phase h = Releasing -> lock_inv (mkLockState db t hs used) ->
  lock_inv (mkLockState (release_write (h_sector h) (h_write h) (h_uuid h) db) t hs used).
Proof.
  intros Hh Hph [Hu Hn Hp Hr Hx]. split; cbn [ls_db ls_clock ls_holders ls_used] in *; try done.
  - intros k r'. rewrite release_write_lookup. destruct (sector_location db !! k) as [r|] eqn:Hl; [|done].
    intros [= <-]. destruct (Hr k r Hl) as [Ho Hrf Hw Hd]. destruct (_ && _) eqn:Hsel; [|by split].
    bool_props. split; cbn; try done. intros h' Hh' Hk Hph' Hf.
    destruct (Hw h' Hh' Hk Hph' Hf) as [_ Hown].
    assert (h_uuid h = h_uuid h') as Heq by congruence. exfalso.
    enough (h = h') as -> by congruence.
    apply list_elem_of_lookup in Hh as [i Hi], Hh' as [j Hj].
    assert (i = j) as ->; [|congruence].
    eapply NoDup_lookup; [exact Hn| |]; rewrite list_lookup_fmap; [by rewrite Hi|rewrite Hj; cbn; by rewrite Heq].
  - intros h1 h2 k H1 H2 Hne P1 P2 F1 F2 Hc. rewrite release_write_lookup, (Hx h1 h2 k); done.
Qed.

(** The read statement takes one from the counters, for a holder that goes. *)
Lemma release_read_inv db t before h after used :
  lock_inv (mkLockState db t (before ++ h :: after) used) ->
  lock_inv (mkLockState (release_read (h_sector h) (h_read h) db) t (before ++ after) used).
Proof.
  intros Hinv. pose proof (lock_inv_remove _ _ _ _ _ _ Hinv) as [Hu Hn Hp Hr Hx].
  split; cbn [ls_db ls_clock ls_holders ls_used] in *; try done.
  - intros k r'. rewrite release_read_lookup. destruct (sector_location db !! k) as [r|] eqn:Hl; [|done].
    intros [= <-]. destruct (Hr k r Hl) as [Ho Hrf Hw Hd]. destruct (selects _ _ k) eqn:Hsel; [|by split].
    pose proof (ro_refs _ _ _ _ _ (li_rows _ Hinv k r Hl)) as Hrf0. cbn [ls_holders] in Hrf0.
    assert (reads h k.1.1 k.1.2 = true) as Hrd.
    { apply selects_true in Hsel as [Hs Hft]. unfold reads. by rewrite !bool_decide_eq_true_2. }
    rewrite readers_app, readers_cons, Hrd in Hrf0. split; cbn [drop_read l_write_owner l_write_ts l_read_refs l_read_ts].
    + done.
    + rewrite readers_app in *. lia.
    + exact Hw.
    + intros h' Hh' Hk. pose proof (readers_pos _ _ _ _ Hh' Hk) as Hc. rewrite readers_app in Hc. unfold read_ok.
      cbn [drop_read l_read_ts]. case_ifs; bool_props; [lia|]. by apply Hd.
  - intros h1 h2 k H1 H2 Hne P1 P2 F1 F2 Hc. rewrite release_read_lookup, (Hx h1 h2 k); done.
Qed.

(** *** Other operations of the index *)

Lemma same_locks_refl r : same_locks r r.
Proof. done. Qed.

Lemma declare_inv db t hs used id s ft primary x :
  (is_Some (sector_location db !! (s, ft, id)) \/ forall h, h ∈ hs -> reads h s ft = false /\ writes h s ft = false) ->
  lock_inv (mkLockState db t hs used) ->
  lock_inv (mkLockState (StorageDeclareSector id s ft primary x db).1 t hs used).
Proof.
  intros Hg Hinv. unfold StorageDeclareSector. case_match; [done|].
  assert (lock_inv (mkLockState (declare_upsert (s, ft, id) primary db) t hs used)) as Hd.
  2: { destruct x; done. }
  unfold declare_upsert. destruct (sector_location db !! (s, ft, id)) as [r|] eqn:Hl.
  - revert Hinv. apply lock_inv_locs. cbn [sector_location]. intros k r' [[<- <-]|[Hne Hk]]%lookup_insert_Some.
    + exists r. done.
    + exists r'. done.
  - destruct Hg as [[? ?]|Hno]; [done|].
    destruct Hinv as [Hu Hn Hp Hr Hx]. split; cbn [ls_db ls_clock ls_holders ls_used sector_location] in *; try done.
    + intros k r [[<- <-]|[Hne Hk]]%lookup_insert_Some; [|by apply Hr]. cbn [fst snd]. split; cbn [fst snd].
      * intros u. done.
      * rewrite readers_none; [done|]. intros h Hh. by apply Hno.
      * intros h Hh Hk. destruct (Hno h Hh). congruence.
      * intros h Hh Hk. destruct (Hno h Hh). congruence.
    + intros h1 h2 k H1 H2 Hne P1 P2 F1 F2 Hc. apply lookup_insert_None. split; [by apply (Hx h1 h2)|].
      intros <-. destruct Hc as [Hc _]. destruct (Hno h1 H1). cbn in Hc. congruence.
Qed.

Lemma drop_inv db t hs used id s ft x :
  lock_inv (mkLockState db t hs used) -> lock_inv (mkLockState (StorageDropSector id s ft x db).1 t hs used).
Proof.
  intros Hinv. unfold StorageDropSector. case_match; [done|].
  assert (lock_inv (mkLockState (mkIndex (storage_path db) (delete (s, ft, id) (sector_location db))) t hs used)) as Hd.
  2: { destruct x; done. }
  revert Hinv. apply lock_inv_locs. cbn [sector_location]. intros k r' [_ Hk]%lookup_delete_Some. by exists r'.
Qed.

Lemma detach_locs id url q x db k r :
  sector_location (StorageDetach id url q x db).1 !! k = Some r -> sector_location db !! k = Some r.
Proof.
  unfold StorageDetach. destruct q; [done|]. destruct (storage_path db !! id); [|done]. case_match; [done|].
  case_match; destruct x; cbn [sql_fail run_exec fst sector_location]; try done;
    by intros [? _]%map_lookup_filter_Some.
Qed.

Lemma attach_locs url_parse si st now x db :
  sector_location (StorageAttach url_parse si st now x db).1 = sector_location db.
Proof.
  unfold StorageAttach. case_match; [|done]. destruct x; cbn [sql_fail run_exec fst]; try done;
    unfold attach_tx; by case_match.
Qed.

(** *** Files without a late declaration *)

(** The rows of these files. *)
Definition clean (L : gset (SectorID * SectorFileType)) (db : index_db) : index_db :=
  with_locs db (base.filter (fun kr : loc_key * loc_row => (kr.1.1.1, kr.1.1.2) ∉ L) (sector_location db)).

Lemma clean_Some L db k r : sector_location (clean L db) !! k = Some r <-> sector_location db !! k = Some r /\ (k.1.1, k.1.2) ∉ L.
Proof. unfold clean, with_locs. cbn [sector_location]. by rewrite map_lookup_filter_Some. Qed.

(** An operation that changes rows one by one changes the rows of these files so. *)
Lemma clean_each L db db' db1 (f : loc_key -> loc_row -> loc_row) t hs used :
  (forall k, sector_location db' !! k = f k <$> sector_location db !! k) ->
  (forall k, sector_location db1 !! k = f k <$> sector_location (clean L db) !! k) ->
  lock_inv (mkLockState db1 t hs used) -> lock_inv (mkLockState (clean L db') t hs used).
Proof using.
  intros E E1. apply lock_inv_locs. intros k r' [Hk HL]%clean_Some. rewrite E in Hk. destruct (sector_location db !! k) as [r|] eqn:Hr; [|done].
  exists r'. split; [|done]. rewrite E1. by rewrite (proj2 (clean_Some L db k r)).
Qed.

Lemma unblocked_clean L db sector read write gonow : unblocked db sector read write gonow -> unblocked (clean L db) sector read write gonow.
Proof using.
  intros Hun ft id r [Hl HL]%clean_Some. destruct (Hun ft id r Hl) as [Hw Hr]. cbn in HL.
  split; [intros (id' & r' & Hl' & ?)%Hw|intros (id' & r' & Hl' & ?)%Hr]; (exists id', r'; split; [by apply clean_Some|done]).
Qed.

Lemma clean_fewer L db db' t hs used :
  (forall k r, sector_location db' !! k = Some r -> sector_location db !! k = Some r) ->
  lock_inv (mkLockState (clean L db) t hs used) -> lock_inv (mkLockState (clean L db') t hs used).
Proof using. intros Hsub. apply lock_inv_locs. intros k r [Hk HL]%clean_Some. exists r. split; [|done]. apply clean_Some. auto. Qed.

Lemma lock_inv_used db t hs used uuid : lock_inv (mkLockState db t hs used) -> lock_inv (mkLockState db t hs ({[uuid]} ∪ used)).
Proof using.
  intros [Iu In_ Ip Ir Ix]. split; cbn [ls_db ls_clock ls_holders ls_used] in *; try done.
  - intros h Hh. specialize (Iu h Hh). set_solver.
  - intros k r Hl. destruct (Ir k r Hl). split; try done. intros u Hou. specialize (ro_owner0 u Hou). set_solver.
Qed.

Lemma late_none db db' hs id s ft : late_declared db db' hs id s ft = false ->
  is_Some (sector_location db !! (s, ft, id)) \/ sector_location db' !! (s, ft, id) = None \/
  forall h, h ∈ hs -> reads h s ft = false /\ writes h s ft = false.
Proof using.
  unfold late_declared. intros E. destruct (sector_location db !! (s, ft, id)) as [r|]; [left; by eexists|]. right.
  rewrite bool_decide_eq_true_2 in E by done. cbn [andb] in E. destruct (sector_location db' !! (s, ft, id)) as [r'|]; [|by left]. right.
  rewrite bool_decide_eq_false_2 in E by done. cbn [negb andb] in E. intros h Hh. apply orb_false_iff. exact (existsb_false_elem _ _ h E Hh).
Qed.

Lemma declare_other id s ft primary x db k r : k <> (s, ft, id) ->
  sector_location (StorageDeclareSector id s ft primary x db).1 !! k = Some r -> sector_location db !! k = Some r.
Proof using.
  intros Hne. unfold StorageDeclareSector. case_match; [done|].
  assert (sector_location (declare_upsert (s, ft, id) primary db) !! k = Some r -> sector_location db !! k = Some r) as Hd.
  { unfold declare_upsert. destruct (sector_location db !! (s, ft, id)); cbn [sector_location]; by rewrite lookup_insert_ne by congruence. }
  destruct x; done.
Qed.

Lemma declare_keeps id s ft primary x db k r : k <> (s, ft, id) ->
  sector_location db !! k = Some r -> sector_location (StorageDeclareSector id s ft primary x db).1 !! k = Some r.
Proof using.
  intros Hne Hk. unfold StorageDeclareSector. case_match; [done|].
  assert (sector_location (declare_upsert (s, ft, id) primary db) !! k = Some r) as Hd.
  { unfold declare_upsert. destruct (sector_location db !! (s, ft, id)); cbn [sector_location]; by rewrite lookup_insert_ne by congruence. }
  destruct x; done.
Qed.

Lemma declare_same id s ft primary x db db1 r : sector_location db1 !! (s, ft, id) = sector_location db !! (s, ft, id) ->
  sector_location (StorageDeclareSector id s ft primary x db).1 !! (s, ft, id) = Some r ->
  sector_location (StorageDeclareSector id s ft primary x db1).1 !! (s, ft, id) = Some r.
Proof using.
  intros E. unfold StorageDeclareSector. case_match; [cbn [fst]; by rewrite E|]. unfold declare_upsert. rewrite E.
  destruct x; cbn [sql_fail run_exec fst]; destruct (sector_location db !! (s, ft, id)) as [y|] eqn:Ey; cbn [sector_location];
    rewrite ?lookup_insert_eq, ?E, ?Ey; done.
Qed.

Lemma declare_clean L db t hs used id s ft primary x db' : (StorageDeclareSector id s ft primary x db).1 = db' ->
  lock_inv (mkLockState (clean L db) t hs used) -> lock_inv (mkLockState (clean (note_late db db' hs id s ft L) db') t hs used).
Proof using.
  intros <- Hinv. set (db' := (StorageDeclareSector id s ft primary x db).1). unfold note_late.
  assert (forall k r, k <> (s, ft, id) -> sector_location db' !! k = Some r -> (k.1.1, k.1.2) ∉ L ->
    exists r0, sector_location (clean L db) !! k = Some r0 /\ same_locks r0 r) as Hother.
  { intros k r Hne Hk HL. exists r. split; [|done]. apply clean_Some. split; [by eapply declare_other|done]. }
  destruct (late_declared db db' hs id s ft) eqn:El.
  - revert Hinv. apply lock_inv_locs. intros k r [Hk HL]%clean_Some. apply not_elem_of_union in HL as [HL1 HL]. rewrite not_elem_of_singleton in HL1.
    apply Hother; [|done|done]. intros ->. by apply HL1.
  - destruct (decide ((s, ft) ∈ L)) as [HsL|HsL].
    { revert Hinv. apply lock_inv_locs. intros k r [Hk HL]%clean_Some. apply Hother; [|done|done]. by intros ->. }
    assert (sector_location (clean L db) !! (s, ft, id) = sector_location db !! (s, ft, id)) as Esame.
    { destruct (sector_location db !! (s, ft, id)) as [r|] eqn:Er; [by apply clean_Some|].
      destruct (sector_location (clean L db) !! (s, ft, id)) as [r|] eqn:Ec; [|done]. apply clean_Some in Ec as [Ec _]. congruence. }
    destruct (late_none _ _ _ _ _ _ El) as [Hin|[Hno|Hfree]].
    2:{ revert Hinv. apply lock_inv_locs. intros k r [Hk HL]%clean_Some. apply Hother; [|done|done]. intros ->. congruence. }
    + eapply (lock_inv_locs (StorageDeclareSector id s ft primary x (clean L db)).1); [|apply declare_inv; [left; by rewrite Esame|exact Hinv]].
      intros k r [Hk HL]%clean_Some. exists r. split; [|done]. destruct (decide (k = (s, ft, id))) as [->|Hne]; [by apply (declare_same _ _ _ _ _ db)|].
      apply (declare_keeps _ _ _ _ _ _ _ _ Hne). apply clean_Some. split; [by eapply declare_other|done].
    + eapply (lock_inv_locs (StorageDeclareSector id s ft primary x (clean L db)).1); [|apply declare_inv; [by right|exact Hinv]].
      intros k r [Hk HL]%clean_Some. exists r. split; [|done]. destruct (decide (k = (s, ft, id))) as [->|Hne]; [by apply (declare_same _ _ _ _ _ db)|].
      apply (declare_keeps _ _ _ _ _ _ _ _ Hne). apply clean_Some. split; [by eapply declare_other|done].
Qed.

Definition lock_ok (x : lock_state * gset (SectorID * SectorFileType)) : Prop :=
  lock_inv (mkLockState (clean x.2 (ls_db x.1)) (ls_clock x.1) (ls_holders x.1) (ls_used x.1)).

Lemma lock_request_ok db t hs used L sector read write uuid gonow x db' res : gonow <= t + skew -> uuid ∉ used ->
  DBIndex_lock sector read write uuid gonow t x db = (db', res) -> lock_inv (mkLockState (clean L db) t hs used) ->
  lock_inv (mkLockState (clean L db') t (match res with Ok true => mkHolder uuid sector read write t Held :: hs | _ => hs end) ({[uuid]} ∪ used)).
Proof using.
  intros Hg Hu E Hinv. apply DBIndex_lock_cases in E as [[-> Hres]|[-> Hun]].
  - destruct res as [[]|]; [done|by apply lock_inv_used..].
  - eapply (clean_each L db _ (acquire_locks sector read write uuid t (clean L db))); [apply acquire_locks_lookup|apply acquire_locks_lookup|].
    apply (unblocked_clean L) in Hun.
    destruct res as [[]|]; [by apply (acquire_inv (clean L db) t hs used _ _ _ _ gonow)|by apply (acquire_lost_inv (clean L db) t hs used _ _ _ _ gonow)..].
Qed.

Lemma db_lock_step_inv x y : lock_ok x -> lock_step x y -> lock_ok y.
Proof using.
  intros Hinv Hstep. destruct Hstep as
    [db t t' hs used L Ht|db t hs used L sector read write uuid gonow x db' res Hg Hu E|db t before h after used L x db' e Hph E
    |db t before h after used L x db' e Hph E|db t before h after used L|db t hs used L id s ft primary x db' E
    |db t hs used L id s ft x|db t hs used L id url q x|db t hs used L up si st x]; unfold lock_ok in *; cbn [fst snd ls_db ls_clock ls_holders ls_used] in *.
  - destruct Hinv as [Hu Hn Hp Hr Hx]. split; cbn in *; try done.
    + intros h Hh. specialize (Hp h Hh). lia.
    + intros k r Hl. eapply row_ok_time; [exact Ht|]. by apply Hr.
    + intros h1 h2 k H1 H2 Hne P1 P2 F1 F2 Hc. apply (Hx h1 h2); try done; by eapply fresh_mono.
  - by eapply lock_request_ok.
  - apply releasing_inv in Hinv as Hrel.
    assert (releasing h ∈ before ++ releasing h :: after) as Hin by (apply elem_of_app; right; apply list_elem_of_here).
    pose proof (release_write_inv _ _ _ _ (releasing h) Hin eq_refl Hrel) as Hw.
    eapply (clean_each L db) in Hw; [|intros k; apply release_write_lookup|intros k; apply release_write_lookup].
    destruct x; injection E as <- <-; [exact Hw|by eapply lock_inv_remove|by eapply lock_inv_remove].
  - assert (lock_inv (mkLockState (clean L (release_read (h_sector h) (h_read h) db)) t (before ++ after) used)) as Hr.
    { eapply (clean_each L db); [intros k; apply release_read_lookup|intros k; apply release_read_lookup|]. by apply release_read_inv. }
    destruct x; injection E as <- <-; [exact Hr|by eapply lock_inv_remove|exact Hr].
  - by eapply lock_inv_remove.
  - by apply (declare_clean L db t hs used id s ft primary x db' E).
  - eapply clean_fewer; [|exact Hinv]. intros k r. unfold StorageDropSector. case_match; [done|].
    destruct x; cbn [sql_fail run_exec fst sector_location]; try done; by intros [_ Hk]%lookup_delete_Some.
  - eapply clean_fewer; [|exact Hinv]. apply detach_locs.
  - eapply clean_fewer; [|exact Hinv]. intros k r. by rewrite attach_locs.
Qed.

Lemma lock_init_inv s : lock_init s -> lock_ok (s, ∅).
Proof.
  destruct s as [db t hs used]. intros [Hh Hr]. cbn in *. subst hs. split; cbn; try (by intros ? []%not_elem_of_nil).
  - constructor.
  - intros k r Hl. apply (clean_Some ∅ db) in Hl as [Hl _]. destruct (Hr k r Hl) as [H0 Ho]. split; try (by intros ? []%not_elem_of_nil); done.
  - by intros h1 h2 k []%not_elem_of_nil.
Qed.

(** C4: two callers do not hold conflicting locks on a sector file: in every reachable
    state, if two holders whose locks have not run out (less the difference of the clocks)
    want the same file and one of them writes it, then the file is declared on no path, or
    it was declared on a further path while somebody held a lock on it: such a declaration
    adds a row without the lock, and [declare_defeats_lock] shows what follows.  Failing
    statements, lost replies, crashes, and files and paths that come and go are
    included. *)
Theorem db_lock_exclusion (s0 s : lock_state) (late : gset (SectorID * SectorFileType)) (h1 h2 : holder) (sector : SectorID) (ft : SectorFileType) (id : string) :
  lock_init s0 -> rtc lock_step (s0, ∅) (s, late) ->
  h1 ∈ ls_holders s -> h2 ∈ ls_holders s -> h1 <> h2 -> h_phase h1 = Held -> h_phase h2 = Held ->
  fresh (ls_clock s) h1 -> fresh (ls_clock s) h2 ->
  conflict_on h1 h2 sector ft ->
  sector_location (ls_db s) !! (sector, ft, id) = None \/ (sector, ft) ∈ late.
Proof.
  intros Hi Hrun. pose proof (rtc_invariant _ _ db_lock_step_inv _ _ Hrun (lock_init_inv _ Hi)) as [_ _ _ _ Hx].
  intros H1 H2 Hne P1 P2 F1 F2 Hc. destruct (decide ((sector, ft) ∈ late)) as [|HL]; [by right|]. left.
  pose proof (Hx h1 h2 (sector, ft, id) H1 H2 Hne P1 P2 F1 F2 Hc) as E. cbn [fst snd ls_db] in E.
  destruct (sector_location (ls_db s) !! (sector, ft, id)) as [r|] eqn:Er; [|done]. by rewrite (proj2 (clean_Some late (ls_db s) _ r)) in E.
Qed.

(** a lock that has not run out is in the table: every row of a file that a
    caller holds for writing names this caller and the time of its lock, and every
    row of a file that is held for reading counts at least all its readers, so the
    counters never fall below zero; files with a late declaration excepted. *)
Theorem db_lock_columns (s0 s : lock_state) (late : gset (SectorID * SectorFileType)) (sector : SectorID) (ft : SectorFileType) (id : string) (r : loc_row) :
  lock_init s0 -> rtc lock_step (s0, ∅) (s, late) -> (sector, ft) ∉ late ->
  sector_location (ls_db s) !! (sector, ft, id) = Some r ->
  0 <= readers (ls_holders s) sector ft <= l_read_refs r /\
  (forall h, h ∈ ls_holders s -> writes h sector ft = true -> h_phase h = Held -> fresh (ls_clock s) h ->
     l_write_ts r = Some (h_since h) /\ l_write_owner r = Some (h_uuid h)) /\
  (forall h, h ∈ ls_holders s -> reads h sector ft = true -> exists t, l_read_ts r = Some t /\ h_since h <= t).
Proof.
  intros Hi Hrun HL Hl. pose proof (rtc_invariant _ _ db_lock_step_inv _ _ Hrun (lock_init_inv _ Hi)) as [_ _ _ Hr _].
  destruct (Hr (sector, ft, id) r) as [_ Hrf Hw Hd]; [by apply clean_Some|]. cbn [fst snd ls_holders ls_clock] in *. split; [unfold readers in *; lia|]. split.
  - intros h Hh Hk Hp Hf. by apply (Hw h Hh Hk Hp Hf).
  - exact Hd.
Qed.

End System.

(** ** Waiting for a lock *)

(** The attempts that failed for another reason than a lock of someone else. *)
Definition other_errors (attempts : list (result bool index_error * bool)) : Z :=
  Zsum (fun a => match a.1 with Err AlreadyLocked | Ok _ => 0 | Err _ => 1 end) attempts.

Definition is_wait (w : Z) : Prop := exists k, 0 <= k <= 9 /\ w = 2 ^ k.

Lemma is_wait_next w : is_wait w -> is_wait (if w <? maxWaitTime then w * 2 else w).
Proof.
  intros (k & Hk & ->). destruct (2 ^ k <? maxWaitTime) eqn:E; [|by exists k]. bool_props.
  exists (k + 1). rewrite Z.pow_add_r by lia. split; [|done].
  assert (k <> 9); [|lia]. intros ->. vm_compute in E. done.
Qed.

Lemma other_errors_cons a l : other_errors (a :: l) =
  match a.1 with Err AlreadyLocked | Ok _ => 0 | Err _ => 1 end + other_errors l.
Proof. reflexivity. Qed.

Lemma other_errors_nonneg l : 0 <= other_errors l.
Proof. apply Zsum_nonneg. intros [[|[]] d] _; cbn; lia. Qed.

(** One iteration: it returns, or it waits and goes on with fewer retries. *)
Lemma StorageLock_loop_step n w res d l : 0 < n ->
  let o := match res with Err AlreadyLocked | Ok _ => 0 | Err _ => 1 end in
  let '(ws, r) := StorageLock_loop n w ((res, d) :: l) in
  (ws = [] /\ r <> None /\ ((exists e, r = Some (GaveUp e)) -> n = o /\ o = 1)) \/
  (0 < n - o /\ res <> Ok true /\ d = false /\
   let '(ws', r') := StorageLock_loop (n - o) (if w <? maxWaitTime then w * 2 else w) l in
   ws = w :: ws' /\ r = r').
Proof.
  intros Hn. cbv zeta. cbn [StorageLock_loop].
  destruct res as [[]|e]; [| |destruct e]; cbn [is_Some];
    (destruct (_ =? 0) eqn:E; bool_props); try lia; try (left; split_and!; [done|done|naive_solver lia]);
    (destruct d; [left; split_and!; [done|done|naive_solver]|]);
    rewrite ?Z.sub_0_r; destruct (StorageLock_loop _ _ l); right; (split; [lia|]); (split; [done|]); (split; [done|]); done.
Qed.

Lemma StorageLock_loop_spec n w l : 0 < n -> is_wait w ->
  (n <= other_errors l \/ Ok true ∈ l.*1 \/ true ∈ l.*2 -> (StorageLock_loop n w l).2 <> None) /\
  (forall e, (StorageLock_loop n w l).2 = Some (GaveUp e) -> n <= other_errors l) /\
  Forall is_wait (StorageLock_loop n w l).1.
Proof.
  revert n w. induction l as [|[res d] l IH]; intros n w Hn Hw.
  - cbn. split_and!; [|done|constructor]. unfold other_errors. rewrite Zsum_nil. intros [?|[?%not_elem_of_nil|?%not_elem_of_nil]]; [lia|done|done].
  - pose proof (StorageLock_loop_step n w res d l Hn) as Hs. cbv zeta in Hs. rewrite other_errors_cons. cbn [fst].
    set (o := match res with Err AlreadyLocked | Ok _ => 0 | Err _ => 1 end) in *.
    pose proof (other_errors_nonneg l) as Hnn.
    destruct (StorageLock_loop n w ((res, d) :: l)) as [ws r]. cbn [fst snd].
    destruct Hs as [(-> & Hr & Hg)|(Hn' & Hres & -> & Hs)].
    + split; [done|]. split; [|constructor]. intros e ->. destruct Hg as [-> ->]; [eauto|]. lia.
    + specialize (IH (n - o) (if w <? maxWaitTime then w * 2 else w) Hn' (is_wait_next w Hw)) as (IH1 & IH2 & IH3).
      destruct (StorageLock_loop (n - o) _ l) as [ws' r']. destruct Hs as [-> ->]. cbn [fst snd] in *. split_and!.
      * intros [?|[Hx|Hx]]; apply IH1; [left; lia| |]; cbn [fmap list_fmap fst snd] in Hx;
          apply elem_of_cons in Hx as [?|Hx]; try done; right; [by left|by right].
      * intros e E. specialize (IH2 e E). lia.
      * by constructor.
Qed.

(** waiting for a lock ends: [StorageLock] has returned after five attempts
    that failed for another reason than a lock held elsewhere, after an attempt
    that succeeded, and when the context is done; it gives up with an error only
    after five such failures, and its timers are powers of two of at most 512
    seconds. *)
Theorem StorageLock_returns (attempts : list (result bool index_error * bool)) :
  (5 <= other_errors attempts \/ Ok true ∈ attempts.*1 \/ true ∈ attempts.*2 ->
     (DBIndex_StorageLock attempts).2 <> None) /\
  (forall e, (DBIndex_StorageLock attempts).2 = Some (GaveUp e) -> 5 <= other_errors attempts) /\
  Forall is_wait (DBIndex_StorageLock attempts).1.
Proof. apply StorageLock_loop_spec; [lia|]. by exists 0. Qed.

(** The wait grows beyond [maxWaitTime]. *)
Example StorageLock_waits :
  DBIndex_StorageLock (replicate 11 (Err AlreadyLocked, false)) = ([1; 2; 4; 8; 16; 32; 64; 128; 256; 512; 512], None).
Proof. reflexivity. Qed.

(** Nothing to lock: [lock] answers [false] without an error, for which
    [StorageLock] waits until its context is done. *)
Lemma lock_nothing `{Enum} sector uuid gonow dbnow x db :
  DBIndex_lock sector FTNone FTNone uuid gonow dbnow x db = (db, Ok false).
Proof. reflexivity. Qed.

(** ** Examples *)

Definition lk_sector : SectorID := mkSectorID 1000 1.

Definition lk_db : index_db := mkIndex ∅ {[ (lk_sector, FTSealed, "p1"%string) := mkLoc true None 0 None None ]}.

Definition lk_start : lock_state := mkLockState lk_db 0 [] ∅.

Definition lk_reader (uuid : string) : holder := mkHolder uuid lk_sector FTSealed FTNone 0 Held.
Definition lk_writer : holder := mkHolder "w" lk_sector FTNone FTCache 0 Held.

(** Two readers of the sealed file and a writer of the cache. *)
Definition lk_read1 : index_db := acquire_locks lk_sector FTSealed FTNone "a" 0 lk_db.
Definition lk_read2 : index_db := acquire_locks lk_sector FTSealed FTNone "b" 0 lk_read1.
Definition lk_write : index_db := acquire_locks lk_sector FTNone FTCache "w" 0 lk_read2.
Definition lk_state : lock_state :=
  mkLockState lk_write 0 [lk_writer; lk_reader "b"; lk_reader "a"] ({["w"%string]} ∪ ({["b"%string]} ∪ ({["a"%string]} ∪ ∅))).

Lemma lk_reach : rtc (lock_step Second) (lk_start, ∅) (lk_state, ∅).
Proof.
  eapply rtc_l; [apply (ls_lock Second lk_db 0 [] ∅ ∅ lk_sector FTSealed FTNone "a" 0 Applied lk_read1 (Ok true)); [done|set_solver|vm_compute; reflexivity]|].
  eapply rtc_l; [apply (ls_lock Second lk_read1 0 _ _ ∅ lk_sector FTSealed FTNone "b" 0 Applied lk_read2 (Ok true)); [done|set_solver|vm_compute; reflexivity]|].
  eapply rtc_l; [apply (ls_lock Second lk_read2 0 _ _ ∅ lk_sector FTNone FTCache "w" 0 Applied lk_write (Ok true)); [done|set_solver|vm_compute; reflexivity]|].
  apply rtc_refl.
Qed.

Lemma lk_init : lock_init lk_start.
Proof.
  split; [done|]. intros k r Hl. cbn in Hl. apply lookup_singleton_Some in Hl as [<- <-]. done.
Qed.

Lemma db_lock_columns_witness :
  exists r, sector_location lk_write !! (lk_sector, FTSealed, "p1"%string) = Some r /\
    0 <= readers (ls_holders lk_state) lk_sector FTSealed <= l_read_refs r.
Proof.
  eexists. split; [vm_compute; reflexivity|].
  apply (db_lock_columns Second lk_start lk_state ∅ lk_sector FTSealed "p1"); [apply lk_init|apply lk_reach|set_solver|vm_compute; reflexivity].
Defined.

(** Two writers of a file of which the index has no row. *)
Definition lk_state2 : lock_state :=
  mkLockState lk_db 0 [mkHolder "b" lk_sector FTNone FTCache 0 Held; mkHolder "a" lk_sector FTNone FTCache 0 Held]
    ({["b"%string]} ∪ ({["a"%string]} ∪ ∅)).

Lemma lk_reach2 : rtc (lock_step Second) (lk_start, ∅) (lk_state2, ∅).
Proof.
  eapply rtc_l; [apply (ls_lock Second lk_db 0 [] ∅ ∅ lk_sector FTNone FTCache "a" 0 Applied lk_db (Ok true)); [done|set_solver|vm_compute; reflexivity]|].
  eapply rtc_l; [apply (ls_lock Second lk_db 0 _ _ ∅ lk_sector FTNone FTCache "b" 0 Applied lk_db (Ok true)); [done|set_solver|vm_compute; reflexivity]|].
  apply rtc_refl.
Qed.

Lemma db_lock_exclusion_witness :
  rtc (lock_step Second) (lk_start, ∅) (lk_state2, ∅) /\
  (sector_location (ls_db lk_state2) !! (lk_sector, FTCache, "p1"%string) = None \/ (lk_sector, FTCache) ∈ (∅ : gset (SectorID * SectorFileType))).
Proof.
  split; [apply lk_reach2|].
  apply (db_lock_exclusion Second lk_start lk_state2 ∅ (mkHolder "b" lk_sector FTNone FTCache 0 Held)
    (mkHolder "a" lk_sector FTNone FTCache 0 Held)); [apply lk_init|apply lk_reach2|left|right; left|done|done|done|done|done|].
  split; [reflexivity|right; reflexivity].
Defined.

(** The exception on declarations happens: while "a" writes the sealed file on
    path "p1", the file is declared on path "p2"; the new row carries no lock, and
    a query that lists it last lets "b" write too. *)
Definition lk_db1 : index_db := (DBIndex_lock lk_sector FTNone FTSealed "a" 0 0 Applied lk_db).1.
Definition lk_db2 : index_db := (StorageDeclareSector "p2" lk_sector FTSealed false Applied lk_db1).1.
Definition lk_db3 : index_db := (DBIndex_lock lk_sector FTNone FTSealed "b" 0 0 Applied lk_db2).1.
Definition lk_state3 : lock_state :=
  mkLockState lk_db3 0 [mkHolder "b" lk_sector FTNone FTSealed 0 Held; mkHolder "a" lk_sector FTNone FTSealed 0 Held]
    ({["b"%string]} ∪ ({["a"%string]} ∪ ∅)).

Lemma declare_defeats_lock : rtc (lock_step Second) (lk_start, ∅) (lk_state3, {[ (lk_sector, FTSealed) ]}).
Proof.
  eapply rtc_l; [apply (ls_lock Second lk_db 0 [] ∅ ∅ lk_sector FTNone FTSealed "a" 0 Applied lk_db1 (Ok true)); [done|set_solver|vm_compute; reflexivity]|].
  eapply rtc_l; [apply (ls_declare Second lk_db1 0 _ _ ∅ "p2" lk_sector FTSealed false Applied lk_db2); reflexivity|].
  eapply rtc_l; [apply (ls_lock Second lk_db2 0 _ _ _ lk_sector FTNone FTSealed "b" 0 Applied lk_db3 (Ok true)); [done|set_solver|vm_compute; reflexivity]|].
  replace (note_late _ _ _ _ _ _ _) with ({[ (lk_sector, FTSealed) ]} : gset (SectorID * SectorFileType)) by (vm_compute; reflexivity). apply rtc_refl.
Qed.

(** A file type is an index out of range of the arrays of [StorageGetLocks] from
    [FTUpdate] on. *)
Example get_locks_panics (id : string) (r : loc_row) (gonow : time) :
  DBIndex_StorageGetLocks gonow (mkIndex ∅ {[ (lk_sector, FTUpdate, id) := r ]}) = None.
Proof.
  unfold DBIndex_StorageGetLocks. cbn [sector_location enum Enum_id]. rewrite map_to_list_singleton. cbn [foldl fst snd].
  rewrite insert_empty, map_to_list_singleton. reflexivity.
Qed.
