(* ===== verification/IndexInterface.v ===== *)
(** * The interface of the sector index ([SectorIndex] of [lib/paths/index.go])

    What the local storage asks of an index, what it relies on, and the database
    index as an implementation of it.  A call can fail; what happens to the
    statements of the database index comes from a list of outcomes that is part of
    its state (when the list is used up, statements succeed). *)

From stdpp Require Import base gmap sets list strings sorting pretty.
From Stdlib Require Import ZArith Lia Ascii.
From S2P Require Import Prelude FileType SectorLocks GoStd StorageIndex StorageIndexFacts IndexDbLocks.

Class SectorIndex (IX : Type) := {
  ix_attach : StorageInfo -> FsStat -> IX -> IX * option index_error;
  ix_detach : string -> string -> IX -> IX * option index_error;
  ix_info : string -> IX -> IX * option (result StorageInfo index_error);
  ix_health : string -> FsStat -> IX -> IX * option index_error;
  ix_declare : string -> SectorID -> SectorFileType -> bool -> IX -> IX * option index_error;
  ix_drop : string -> SectorID -> SectorFileType -> IX -> IX * option index_error;
  ix_batch : list SectorDeclaration -> IX -> option (IX * option index_error);
  ix_find : SectorID -> SectorFileType -> Z -> bool -> IX -> IX * result (list SectorStorageInfo) index_error;
  ix_best : SectorFileType -> Z -> string -> Z -> IX -> IX * result (list StorageInfo) index_error;
  ix_trylock : string -> SectorID -> SectorFileType -> SectorFileType -> IX -> IX * result bool index_error;
  ix_unlock : string -> SectorID -> SectorFileType -> SectorFileType -> IX -> IX;
  ix_list : string -> IX -> IX * result (list (SectorID * SectorFileType)) index_error
}.

(** The files that an index knows, and what the operations that succeed do to
    this set. *)
Class SectorIndexSpec (IX : Type) `{SectorIndex IX} := {
  ix_known : IX -> loc_key -> Prop;
  ix_list_known : forall id ix ix' l, ix_list id ix = (ix', Ok l) ->
    (forall k, ix_known ix' k <-> ix_known ix k) /\
    (forall s ft, ft ∈ PathTypes -> ix_known ix (s, ft, id) -> exists t, (s, t) ∈ l /\ ft ∈ AllSet t);
  ix_batch_known : forall ds ix ix', ix_batch ds ix = Some (ix', None) ->
    forall k, ix_known ix' k <-> ix_known ix k \/ exists d, d ∈ ds /\ decl_key d = k;
  ix_drop_known : forall id s ft ix ix', ix_drop id s ft ix = (ix', None) ->
    forall k, ix_known ix' k <-> ix_known ix k /\ k <> (s, ft, id);
  ix_declare_known : forall id s ft primary ix ix', ix_declare id s ft primary ix = (ix', None) ->
    forall k, ix_known ix' k <-> ix_known ix k \/ k = (s, ft, id);
  ix_find_known : forall s ft ssize fetch ix ix' r, ix_find s ft ssize fetch ix = (ix', r) ->
    forall k, ix_known ix' k <-> ix_known ix k;
  ix_find_holds : forall s ft ssize ix ix' l info, ft ∈ PathTypes -> ix_find s ft ssize false ix = (ix', Ok l) ->
    info ∈ l -> ix_known ix (s, ft, ssi_ID info);
  ix_find_nodup : forall s ft ssize ix ix' l, ix_find s ft ssize false ix = (ix', Ok l) -> NoDup (map ssi_ID l);
  ix_health_known : forall id st ix ix' e, ix_health id st ix = (ix', e) ->
    forall k, ix_known ix' k <-> ix_known ix k
}.

(** ** The database index *)

Record DbIx := mkDbIx { ix_db : index_db; ix_now : time; ix_outcomes : list exec }.

Section Instance.
Context `{Enum}.
Variable url_parse : string -> bool.
Variable url_sector : string -> SectorFileType -> SectorID -> option string.
Variable address_id : string -> option Z.

Definition pop (ix : DbIx) : exec * DbIx :=
  match ix_outcomes ix with
  | [] => (Applied, ix)
  | x :: l => (x, mkDbIx (ix_db ix) (ix_now ix) l)
  end.

(** A query only fails or not. *)
Definition query_of (x : exec) : option sql_error :=
  match x with Applied => None | Rejected e | LostReply e => Some e end.

Definition with_db (ix : DbIx) (db : index_db) : DbIx := mkDbIx db (ix_now ix) (ix_outcomes ix).

Definition run_op (f : exec -> index_db -> index_db * option index_error) (ix : DbIx) : DbIx * option index_error :=
  let '(x, ix) := pop ix in let '(db, e) := f x (ix_db ix) in (with_db ix db, e).

Definition run_query {A} (f : option sql_error -> index_db -> A) (ix : DbIx) : DbIx * A :=
  let '(x, ix) := pop ix in (ix, f (query_of x) (ix_db ix)).

#[export] Instance DbIx_index : SectorIndex DbIx := {
  ix_attach si st ix := run_op (fun x db => StorageAttach url_parse si st (ix_now ix) x db) ix;
  ix_detach id url ix :=
    let '(q, ix) := pop ix in run_op (fun x db => StorageDetach id url (query_of q) x db) ix;
  ix_info id ix := run_query (fun q db => StorageInfo_ id q db) ix;
  ix_health id st ix :=
    run_op (fun x db => match StorageReportHealth id st [(ix_now ix, x)] None db with
                        | (db, Some e) => (db, e) | (db, None) => (db, Some (SqlFailed SqlSerialization)) end) ix;
  ix_declare id s ft p ix := run_op (fun x db => StorageDeclareSector id s ft p x db) ix;
  ix_drop id s ft ix := run_op (fun x db => StorageDropSector id s ft x db) ix;
  ix_batch ds ix :=
    let '(x, ix) := pop ix in
    match BatchStorageDeclareSectors ds (fun _ => (x, x)) (ix_db ix) with
    | None => None
    | Some (db, e) => Some (with_db ix db, e)
    end;
  ix_find s ft ssize fetch ix :=
    let '(q, ix) := pop ix in
    run_query (fun q2 db => findSectorUncached url_sector address_id s ft ssize fetch (ix_now ix) (query_of q) q2 db) ix;
  ix_best ft ssize pt miner ix :=
    run_query (fun q db => StorageBestAlloc address_id None ft ssize pt miner (ix_now ix) q db) ix;
  ix_trylock uuid s read write ix :=
    let '(x, ix) := pop ix in
    let '(db, r) := DBIndex_StorageTryLock s read write uuid (ix_now ix) (ix_now ix) x (ix_db ix) in (with_db ix db, r);
  ix_unlock uuid s read write ix :=
    let '(x1, ix) := pop ix in let '(x2, ix) := pop ix in
    with_db ix (DBIndex_unlock s read write uuid x1 x2 (ix_db ix)).1;
  ix_list id ix := run_query (fun q db => StorageList id q db) ix
}.

Definition db_known (ix : DbIx) (k : loc_key) : Prop := is_Some (sector_location (ix_db ix) !! k).

Lemma pop_db ix x ix' : pop ix = (x, ix') -> ix_db ix' = ix_db ix.
Proof. unfold pop. destruct (ix_outcomes ix); by intros [= _ <-]. Qed.

Lemma run_op_none f ix ix' : run_op f ix = (ix', None) ->
  exists x, f x (ix_db ix) = (ix_db ix', None).
Proof.
  unfold run_op. destruct (pop ix) as [x ix1] eqn:Hp. destruct (f x (ix_db ix1)) as [db e] eqn:Hf.
  intros [= <- ->]. exists x. apply pop_db in Hp. by rewrite <- Hp.
Qed.

(** A statement that reports success was applied. *)
Lemma sql_fail_none x (db db1 db' : index_db) : sql_fail (run_exec x db db1) = (db', None) -> db' = db1.
Proof. unfold sql_fail. destruct x; cbn [run_exec fst snd fmap option_fmap option_map]; intros E; by injection E as <-. Qed.

Lemma declare_upsert_known k p db k' :
  is_Some (sector_location (declare_upsert k p db) !! k') <-> is_Some (sector_location db !! k') \/ k' = k.
Proof.
  unfold declare_upsert. cbn [sector_location]. destruct (decide (k' = k)) as [->|Hne].
  - destruct (sector_location db !! k); rewrite lookup_insert_eq; split; eauto.
  - destruct (sector_location db !! k); rewrite lookup_insert_ne by done; naive_solver.
Qed.

Lemma declare_fold_known ds db k :
  is_Some (sector_location (foldl declare_one db ds) !! k) <->
  is_Some (sector_location db !! k) \/ exists d, d ∈ ds /\ decl_key d = k.
Proof.
  rewrite declare_fold_lookup. destruct (sector_location db !! k); [split; eauto|].
  destruct (declared ds k) eqn:Hd; unfold declared in Hd.
  - apply existsb_exists in Hd as (d & Hd & E). rewrite bool_decide_eq_true in E.
    split; [|eauto]. intros _. right. exists d. split; [by apply list_elem_of_In|done].
  - split; [by intros []|]. intros [[? ?]|(d & Hin & E)]; [done|].
    pose proof (existsb_false_elem _ _ _ Hd Hin) as Hc. cbn in Hc. rewrite bool_decide_eq_false in Hc. done.
Qed.

Lemma sub_batch_known x b db db' : sub_batch (x, x) b db = (db', None) ->
  forall k, is_Some (sector_location db' !! k) <-> is_Some (sector_location db !! k) \/ exists d, d ∈ b /\ decl_key d = k.
Proof.
  assert (forall db0, batchStorageDeclareSectors b x db0 = (db', None) ->
    forall k, is_Some (sector_location db' !! k) <-> is_Some (sector_location db0 !! k) \/ exists d, d ∈ b /\ decl_key d = k) as Hb.
  { intros db0. unfold batchStorageDeclareSectors. destruct b as [|d b].
    - intros [= ->] k. split; [eauto|]. intros [?|(d & []%not_elem_of_nil & _)]; done.
    - case_match; [|done]. intros E. apply sql_fail_none in E as ->. intros k. apply declare_fold_known. }
  unfold sub_batch. cbn [fst snd]. destruct (batchStorageDeclareSectors b x db) as [db1 [e|]] eqn:E.
  - destruct e; try done. destruct e; try done. intros E'.
    (* the first attempt failed as a duplicate request *)
    unfold batchStorageDeclareSectors in E. destruct b as [|d b]; [done|].
    destruct (forallb _ (d :: b)); [|done]. unfold sql_fail in E. destruct x as [|e|e]; cbn [run_exec fst snd fmap option_fmap option_map] in E; [done| |];
      injection E as <- ->.
    + by apply Hb.
    + change (foldl declare_one (declare_one db d) b) with (foldl declare_one db (d :: b)) in E'.
      intros k. rewrite (Hb _ E'), declare_fold_known. tauto.
  - intros [= ->]. by apply Hb.
Qed.

Lemma run_sub_batches_known l db db' :
  Forall (fun xb => exists x, xb.1 = (x, x)) l -> run_sub_batches l db = (db', None) ->
  forall k, is_Some (sector_location db' !! k) <->
    is_Some (sector_location db !! k) \/ exists d, d ∈ concat l.*2 /\ decl_key d = k.
Proof.
  revert db. induction l as [|[x b] l IH]; intros db Hl; cbn [run_sub_batches].
  - intros [= ->] k. split; [eauto|]. intros [?|(d & []%not_elem_of_nil & _)]; done.
  - apply Forall_cons_1 in Hl as [[y Hy] Hl]. cbn in Hy. subst x.
    destruct (sub_batch (y, y) b db) as [db1 e] eqn:E1. destruct (run_sub_batches l db1) as [db2 e2] eqn:E2.
    destruct e; [done|]. intros [= <- ->] k. rewrite (IH db1 Hl E2), (sub_batch_known _ _ _ _ E1).
    cbn [fmap list_fmap concat snd]. setoid_rewrite elem_of_app. naive_solver.
Qed.

Lemma StorageList_known id q db l : StorageList id q db = Ok l ->
  forall s ft, ft ∈ PathTypes -> is_Some (sector_location db !! (s, ft, id)) -> exists t, (s, t) ∈ l /\ ft ∈ AllSet t.
Proof.
  unfold StorageList. destruct q; [done|]. set (keys := enum (List.filter _ (map_to_list (sector_location db)).*1)). intros [= <-] s ft Hft [r Hr].
  assert ((s, ft, id) ∈ keys) as Hk.
  { unfold keys. rewrite elem_of_enum, list_elem_of_In, filter_In, <- list_elem_of_In. split; [|by apply bool_decide_eq_true_2].
    apply list_elem_of_fmap. exists ((s, ft, id), r). split; [done|]. by apply elem_of_map_to_list. }
  exists (declared_types keys s). split.
  - rewrite elem_of_enum. apply list_elem_of_fmap. exists s. split; [done|]. apply elem_of_remove_dups.
    apply list_elem_of_fmap. by exists (s, ft, id).
  - apply elem_of_AllSet. split; [done|]. destruct (PathTypes_lookup ft Hft) as (i & Hi & ->).
    rewrite Has_single by lia. clear Hr. unfold declared_types. generalize 0 at 1. revert Hk. generalize keys.
    assert (forall (l : list loc_key) acc, Z.testbit acc i = true ->
      Z.testbit (foldl (fun acc (k : loc_key) => if bool_decide (k.1.1 = s) then Z.lor acc k.1.2 else acc) acc l) i = true) as Hkeep.
    { induction l as [|k l IH]; intros acc Ha; [done|]. cbn [foldl]. apply IH. case_bool_decide; [|done].
      by rewrite Z.lor_spec, Ha. }
    intros l. induction l as [|k l IH]; [by intros ?%not_elem_of_nil|]. intros [<-|Hk]%elem_of_cons acc; cbn [foldl].
    + rewrite bool_decide_eq_true_2 by done. apply Hkeep. cbn [fst snd].
      rewrite Z.lor_spec, Z.shiftl_spec, Z.sub_diag by lia. by rewrite orb_true_r.
    + by apply IH.
Qed.

Lemma find_sector_known s ft ssize now q1 q2 db l info : ft ∈ PathTypes ->
  findSectorUncached url_sector address_id s ft ssize false now q1 q2 db = Ok l -> info ∈ l ->
  is_Some (sector_location db !! (s, ft, ssi_ID info)).
Proof.
  intros Hft. unfold findSectorUncached. destruct q1; [done|]. case_match; [done|].
  destruct (holders_loop url_sector ft s _ (Some []) []) as [[res al]|] eqn:E; [|done]. cbn [negb]. intros [= <-] Hi.
  apply holders_loop_ok in E as (infos & -> & Hf & _). cbn [app] in Hi. apply list_elem_of_lookup in Hi as [i Hi].
  apply (Forall2_lookup_r _ _ _ _ _ Hf) in Hi as ([[[id r] c] p] & Hr & urls & Hu & ->). cbn [find_info ssi_ID].
  apply list_elem_of_lookup_2, elem_of_holder_rows in Hr as (_ & Ht & _).
  assert (AllSet ft = [ft]) as Has.
  { repeat (apply elem_of_cons in Hft as [->|Hft]; [reflexivity|]). by apply not_elem_of_nil in Hft. }
  rewrite Has in Ht. unfold types_on in Ht. cbn [List.filter] in Ht. by case_bool_decide.
Qed.

Lemma find_sector_nodup s ft ssize now q1 q2 db l :
  findSectorUncached url_sector address_id s ft ssize false now q1 q2 db = Ok l -> NoDup (map ssi_ID l).
Proof.
  unfold findSectorUncached. destruct q1; [done|]. case_match; [done|].
  destruct (holders_loop url_sector ft s _ (Some []) []) as [[res al]|] eqn:E; [|done]. cbn [negb]. intros [= <-].
  apply holders_loop_ok in E as (infos & -> & Hf & _). cbn [app]. rewrite (Forall2_infos _ _ _ _ _ Hf). apply NoDup_holder_rows.
Qed.

#[export] Instance DbIx_spec : SectorIndexSpec DbIx.
Proof.
  refine {| ix_known := db_known |}; unfold db_known; cbn.
  - intros id ix ix' l. unfold run_query. destruct (pop ix) as [x ix1] eqn:Hp. intros [= <- E]. apply pop_db in Hp.
    rewrite Hp in *. split; [done|]. by eapply StorageList_known.
  - intros ds ix ix'. destruct (pop ix) as [x ix1] eqn:Hp. apply pop_db in Hp.
    destruct (BatchStorageDeclareSectors ds _ (ix_db ix1)) as [[db e]|] eqn:E; [|done]. intros [= <- ->] k. cbn.
    rewrite <- Hp. clear Hp ix. unfold BatchStorageDeclareSectors in E. destruct ds as [|d0 ds].
    { injection E as <-. split; [eauto|]. intros [?|(d & []%not_elem_of_nil & _)]; done. }
    destruct (enum (remove_dups (d0 :: ds))) as [|u us] eqn:Eu.
    { exfalso. apply (not_elem_of_nil d0). rewrite <- Eu, elem_of_enum, elem_of_remove_dups. left. }
    destruct (subBatches_parts (u :: us) ltac:(done)) as (bs & Hbs & Hc & _). rewrite Hbs in E. injection E as E.
    apply run_sub_batches_known with (k := k) in E.
    2: { rewrite Forall_forall. intros [x0 b] Hb. rewrite elem_of_enum in Hb.
         apply list_elem_of_fmap in Hb as (b' & [= -> ->] & _). by exists x. }
    assert (forall d, d ∈ d0 :: ds <-> d ∈ concat bs) as Hds.
    { intros d. rewrite Hc, <- Eu, elem_of_enum, elem_of_remove_dups. done. }
    rewrite E. setoid_rewrite Hds. f_equiv. f_equiv. intros d. f_equiv.
    rewrite !list_elem_of_In, !in_concat. setoid_rewrite <- list_elem_of_In.
    split; intros (b & Hb & Hd); exists b; (split; [|done]).
    + apply list_elem_of_fmap in Hb as ([x0 b'] & -> & Hb). rewrite elem_of_enum in Hb.
      by apply list_elem_of_fmap in Hb as (b'' & [= _ ->] & Hb).
    + apply list_elem_of_fmap. exists ((x, x), b). split; [done|]. rewrite elem_of_enum. apply list_elem_of_fmap. eauto.
  - intros id s ft ix ix' E. apply run_op_none in E as [x E]. unfold StorageDropSector in E. case_match; [done|].
    apply sql_fail_none in E. rewrite E. cbn [sector_location]. intros k. destruct (decide (k = (s, ft, id))) as [->|Hne].
    + rewrite lookup_delete_eq. split; [by intros []|by intros []].
    + rewrite lookup_delete_ne by done. naive_solver.
  - intros id s ft p ix ix' E. apply run_op_none in E as [x E]. unfold StorageDeclareSector in E. case_match; [done|].
    apply sql_fail_none in E. rewrite E. intros k. apply declare_upsert_known.
  - intros s ft ssize fetch ix ix' r. destruct (pop ix) as [q ix1] eqn:Hp. unfold run_query.
    destruct (pop ix1) as [q' ix2] eqn:Hp'. intros [= <- _] k. apply pop_db in Hp, Hp'. by rewrite Hp', Hp.
  - intros s ft ssize ix ix' l info Hft. destruct (pop ix) as [q ix1] eqn:Hp. unfold run_query.
    destruct (pop ix1) as [q' ix2] eqn:Hp'. intros [= <- E] Hi. apply pop_db in Hp, Hp'. rewrite <- Hp, <- Hp'.
    by eapply find_sector_known.
  - intros s ft ssize ix ix' l. destruct (pop ix) as [q ix1]. unfold run_query.
    destruct (pop ix1) as [q' ix2]. intros [= _ E]. by eapply find_sector_nodup.
  - intros id st ix ix' e. unfold run_op. destruct (pop ix) as [x ix1] eqn:Hp. apply pop_db in Hp.
    assert (forall k, sector_location (run_exec x (ix_db ix1) (health_update id st (ix_now ix) (ix_db ix1))).1 !! k = sector_location (ix_db ix1) !! k) as Hs.
    { intros k. by destruct x. }
    cbn [StorageReportHealth]. destruct (run_exec x _ _) as [db1 oe] eqn:Hr. cbn [fst] in Hs.
    intros E k. rewrite <- Hp, <- Hs. destruct oe as [[]|]; injection E as <- _; done.
Qed.

End Instance.
