(* ===== verification/LocalStorage.v ===== *)
(** * Local storage paths of a node ([lib/paths/local.go])

    A node opens storage paths, reserves space on them for the files that tasks
    will write, and keeps the sector index in step with the files.  Paths are
    objects behind pointers: the release function of a reservation keeps its
    object when the path is closed and opened again.  A reservation is kept under
    the key [miner-number-type] of its file ([sectorFile.String]), which [ft]
    parses back ([sectorFile_roundtrip]); the model keeps the parsed key.

    The file system is an input: [fs_stat] is [LocalStorage.Stat], [disk_usage] is
    [LocalStorage.DiskUsage].  [filepath.Join] of a local path and names is
    concatenation with slashes.  Sizes are below 2^63 bytes. *)

From stdpp Require Import base gmap sets list strings sorting pretty.
From Stdlib Require Import ZArith Lia Ascii.
From S2P Require Import Prelude FileType SectorLocks GoStd Float64 StorageIndex.

(** ** Keys of reservations *)

Definition sectorFile_String (k : SectorID * SectorFileType) : string :=
  Join "-" [pretty (Miner k.1); pretty (Number k.1); pretty (k.2 : Z)].

(** [strconv.ParseUint(s, 10, 64)]: digits only, and the value fits. *)
Definition ParseUint (s : string) : option Z :=
  match to_chars s with
  | [] => None
  | cs => match scan_digits 0 cs with
          | (v, []) => if v <? 2 ^ 64 then Some v else None
          | _ => None
          end
  end.

(** [ft]; a key that does not parse is a panic, [None]. *)
Definition parse_sectorFile (s : string) : option (SectorID * SectorFileType) :=
  match Split "-" s with
  | a :: b :: c :: _ =>
      match ParseUint a, ParseUint b, ParseUint c with
      | Some m, Some n, Some t => Some (mkSectorID m n, t)
      | _, _, _ => None
      end
  | _ => None
  end.

(** ** Paths *)

Record lpath := mkLPath {
  lp_Local : string;
  lp_MaxStorage : Z;
  lp_Reserved : Z;
  lp_Reservations : gmap (SectorID * SectorFileType) Z;
  lp_CanSeal : bool;
  lp_AllowTypes : list string;
  lp_DenyTypes : list string
}.

(** [Local]: the objects, and the map from path ids to them. *)
Record Local := mkLocal {
  heap : gmap nat lpath;
  paths : gmap string nat
}.

Definition lookup_path (st : Local) (id : string) : option lpath := paths st !! id ≫= (heap st !!.).

(** A new object under an id, and an id that is forgotten. *)
Definition fresh_ptr (st : Local) : nat := fresh (dom (heap st) : gset nat).

Definition add_path (st : Local) (id : string) (p : lpath) : Local :=
  mkLocal (<[fresh_ptr st := p]> (heap st)) (<[id := fresh_ptr st]> (paths st)).

Definition remove_path (st : Local) (id : string) : Local := mkLocal (heap st) (delete id (paths st)).

Definition TempSuffix : string := ".tmp".
Definition FetchTempSubdir : string := "fetching".

Definition sectorPath (p : lpath) (sid : SectorID) (fileType : SectorFileType) : string :=
  lp_Local p +:+ "/" +:+ String_ fileType +:+ "/" +:+ SectorName sid.

(** [tempFetchDest] of a sector path. *)
Definition tempFetchDest (p : lpath) (sid : SectorID) (fileType : SectorFileType) : string :=
  lp_Local p +:+ "/" +:+ String_ fileType +:+ "/" +:+ FetchTempSubdir +:+ "/" +:+ SectorName sid.

Inductive usage := Used (n : Z) | NotExist | UsageError.

(** [cachedLocalStorage.DiskUsage], the storage that [NewLocal] uses: whatever
    the file system answers, a number is returned; [last] is the cached entry with
    its time, [answered] whether the goroutine was fast enough. *)
Definition StatTimeout : duration := 5 * Second.

Definition cached_disk_usage (last : Z * time) (now : time) (answered : bool) (base : usage) : usage * (Z * time) :=
  if time_sub now last.2 <? StatTimeout then (Used last.1, last)
  else if answered then
    let du := match base with Used n => n | _ => 0 end in (Used du, (du, now))
  else (Used last.1, last).

Section FileSystem.
Variable fs_stat : string -> option FsStat.
Variable disk_usage : string -> usage.

(** [accountExistingFiles] *)
Definition accountExistingFiles (p : lpath) (sid : SectorID) (ft : SectorFileType) : Z :=
  let sp := sectorPath p sid ft in
  let used := disk_usage sp in
  let used := match used with
              | NotExist =>
                  match disk_usage (sp +:+ TempSuffix) with
                  | NotExist => disk_usage (tempFetchDest p sid ft)
                  | u => u
                  end
              | u => u
              end in
  match used with Used n => n | _ => 0 end.

(** What a reservation of [oh] bytes has on disk already, at most [oh]. *)
Definition on_disk (p : lpath) (k : SectorID * SectorFileType) (oh : Z) : Z :=
  let onDisk := accountExistingFiles p k.1 k.2 in
  if onDisk >? oh then oh else onDisk.

(** The loop over [p.Reservations]. *)
Definition reserved_on_disk (p : lpath) : Z :=
  Zsum (fun kv => on_disk p kv.1 kv.2) (map_to_list (lp_Reservations p)).

(** The loop over the new reservation's types, for which nothing is reserved. *)
Definition new_on_disk (p : lpath) (newReserve : option (SectorID * SectorFileType * Z)) : Z :=
  match newReserve with
  | None => 0
  | Some (sid, ft, overhead) =>
      Zsum (fun fileType => match lp_Reservations p !! (sid, fileType) with
                            | Some _ => 0
                            | None => on_disk p (sid, fileType) overhead
                            end) (AllSet ft)
  end.

(** [path.stat] *)
Definition stat (p : lpath) (newReserve : option (SectorID * SectorFileType * Z)) : option (FsStat * Z) :=
  match fs_stat (lp_Local p) with
  | None => None
  | Some s =>
      let reserved := lp_Reserved p - reserved_on_disk p in
      let newReserveOnDisk := new_on_disk p newReserve in
      let reserved := if reserved <? 0 then 0 else reserved in
      let available := fs_Available s - reserved in
      let available := if available <? 0 then 0 else available in
      if lp_MaxStorage p >? 0 then
        match disk_usage (lp_Local p) with
        | Used used =>
            let avail := i64 (i64 (lp_MaxStorage p) - used) in
            let avail := if u64 used >? lp_MaxStorage p then 0 else avail in
            let available := if avail <? available then avail else available in
            Some (mkFsStat (fs_Capacity s) available (fs_FSAvailable s) reserved (i64 (lp_MaxStorage p)) used, newReserveOnDisk)
        | _ => None
        end
      else Some (mkFsStat (fs_Capacity s) available (fs_FSAvailable s) reserved (fs_Max s) (fs_Used s), newReserveOnDisk)
  end.

Definition MaxCapacity (st : FsStat) : Z := if fs_Max st >? 0 then fs_Max st else fs_Capacity st.

(** ** Reservations *)

Inductive local_error := PathNotFound | StatFailed | TempAllocateSpace | BadProofType | FindAndAllocate
  | IndexFailed (e : index_error) | NotOpen | OneFileType | SectorNotFound | FileFailed.

(** What a release function undoes: a pointer, a key and a number of bytes. *)
Record hold := mkHold { hd_path : nat; hd_key : SectorID * SectorFileType; hd_bytes : Z }.

Definition set_reservation (p : lpath) (reserved : Z) (r : gmap (SectorID * SectorFileType) Z) : lpath :=
  mkLPath (lp_Local p) (lp_MaxStorage p) reserved r (lp_CanSeal p) (lp_AllowTypes p) (lp_DenyTypes p).

Definition with_heap (st : Local) (h : gmap nat lpath) : Local := mkLocal h (paths st).

Definition add_hold (st : Local) (h : hold) : Local :=
  with_heap st (alter (fun p => set_reservation p (lp_Reserved p + hd_bytes h)
                                 (<[hd_key h := hd_bytes h]> (lp_Reservations p))) (hd_path h) (heap st)).

Definition release_one (st : Local) (h : hold) : Local :=
  with_heap st (alter (fun p => set_reservation p (lp_Reserved p - hd_bytes h)
                                 (delete (hd_key h) (lp_Reservations p))) (hd_path h) (heap st)).

(** The composed release function runs the oldest part first. *)
Definition release (st : Local) (hs : list hold) : Local := foldl release_one st hs.

Definition overhead_of (overheadTab : SectorFileType -> Z) (fileType : SectorFileType) (ssize : Z) : Z :=
  Z.quot (i64 (overheadTab fileType * ssize)) FSOverheadDen.

(** The checks for one file type; the result is the hold to add. *)
Definition reserve_check (st : Local) (sid : SectorID) (ssize : Z) (storageIDs : SectorPaths)
    (overheadTab : SectorFileType -> Z) (minFreePercentage : float64) (fileType : SectorFileType)
    : result hold local_error :=
  let id := default EmptyString (PathByType storageIDs fileType) in
  match paths st !! id with
  | None => Err PathNotFound
  | Some ptr =>
      match heap st !! ptr with
      | None => Err PathNotFound
      | Some p =>
          let overhead := overhead_of overheadTab fileType ssize in
          match stat p (Some (sid, fileType, overhead)) with
          | None => Err StatFailed
          | Some (s, resvOnDisk) =>
              let resvOnDisk := if overhead - resvOnDisk <? 0 then overhead else resvOnDisk in
              let overheadOnDisk := overhead - resvOnDisk in
              if fs_Available s <? overheadOnDisk then Err TempAllocateSpace
              else
                let availableAfter := fs_Available s - overheadOnDisk in
                let freePercentag := f64_mul (f64_div (f64_of_Z availableAfter) (f64_of_Z (MaxCapacity s))) (f64_of_Z 100) in
                if f64_ltb freePercentag minFreePercentage then Err TempAllocateSpace
                else Ok (mkHold ptr (sid, fileType) overhead)
          end
      end
  end.

(** The loop of [Reserve]; on an error what was reserved is released. *)
Fixpoint reserve_loop (st : Local) (sid : SectorID) (ssize : Z) (storageIDs : SectorPaths)
    (overheadTab : SectorFileType -> Z) (minFreePercentage : float64) (fts : list SectorFileType) (held : list hold)
    : Local * result (list hold) local_error :=
  match fts with
  | [] => (st, Ok held)
  | fileType :: fts =>
      match reserve_check st sid ssize storageIDs overheadTab minFreePercentage fileType with
      | Err e => (release st held, Err e)
      | Ok h => reserve_loop (add_hold st h) sid ssize storageIDs overheadTab minFreePercentage fts (held ++ [h])
      end
  end.

(** [Reserve]; [ssize] is the sector size of the proof type, if it has one.  The
    result is what the release function will undo. *)
Definition Reserve (st : Local) (sid : SectorID) (ssize : option Z) (ft : SectorFileType) (storageIDs : SectorPaths)
    (overheadTab : SectorFileType -> Z) (minFreePercentage : float64) : Local * result (list hold) local_error :=
  match ssize with
  | None => (st, Err BadProofType)
  | Some ssize => reserve_loop st sid ssize storageIDs overheadTab minFreePercentage (AllSet ft) []
  end.

(** [FsStat] of a path. *)
Definition Local_FsStat (st : Local) (id : string) : result FsStat local_error :=
  match lookup_path st id with
  | None => Err PathNotFound
  | Some p => match stat p None with Some (s, _) => Ok s | None => Err StatFailed end
  end.

End FileSystem.
