(* ===== verification/LocalFacts.v ===== *)
(** * Reservations of local storage

    The bytes reserved on a path are exactly those of the reservations that have
    not been released, whatever the order of reservations, failures, releases,
    openings and closings; and reservations that succeed fit into the free space
    of their file systems. *)

From stdpp Require Import base gmap sets list strings sorting pretty.
From Stdlib Require Import ZArith Lia Ascii.
From S2P Require Import Prelude FileType SectorLocks GoStd Float64 StorageIndex LocalStorage.

(** ** Keys *)

Lemma digit_no_dash (x : N) : (x < 10)%N -> bool_decide (pretty_N_char x = "-"%char) = false.
Proof.
  intros H. apply bool_decide_eq_false_2. intros E. pose proof (digit_of_char x H) as Hd. by rewrite E in Hd.
Qed.

Lemma pretty_go_no_dash (x : N) s : has_no "-" (pretty_N_go x s) = has_no "-" s.
Proof.
  revert s. induction (N.lt_wf_0 x) as [x _ IH]; intros s. destruct (decide (0 < x)%N) as [Hx|Hx].
  - rewrite pretty_N_go_step by done. rewrite IH by (apply N.div_lt; lia). cbn [has_no].
    by rewrite digit_no_dash by (apply N.mod_lt; lia).
  - assert (x = 0)%N as -> by lia. by rewrite pretty_N_go_0.
Qed.

Lemma ParseUint_pretty x : in_u64 x -> ParseUint (pretty x) = Some x /\ has_no "-" (pretty x) = true.
Proof.
  unfold in_u64. intros Hx. destruct x as [|p|p]; [done| |lia].
  change (pretty (Z.pos p)) with (pretty_N_go (N.pos p) ""). split; [|by rewrite pretty_go_no_dash].
  destruct (pretty_go_head (N.pos p) "") as (c & s' & d & Hs & Hd); [lia|].
  pose proof (scan_digits_go (N.pos p) "") as Hscan. unfold ParseUint. rewrite Hs in *. cbn [to_chars] in *.
  rewrite Hscan. cbn [scan_digits Z.of_N]. by rewrite (proj2 (Z.ltb_lt (Z.pos p) (2 ^ 64))) by lia.
Qed.

(** The key of a reservation parses back, so keys of different files differ. *)
Lemma sectorFile_roundtrip (sid : SectorID) (ft : SectorFileType) :
  in_u64 (Miner sid) -> in_u64 (Number sid) -> in_u64 ft -> parse_sectorFile (sectorFile_String (sid, ft)) = Some (sid, ft).
Proof.
  intros Hm Hn Ht. unfold parse_sectorFile, sectorFile_String. cbn [fst snd].
  destruct (ParseUint_pretty _ Hm) as [Pm Dm], (ParseUint_pretty _ Hn) as [Pn Dn], (ParseUint_pretty _ Ht) as [Pt Dt].
  rewrite Split_Join by (done || by repeat constructor). rewrite Pm, Pn, Pt. by destruct sid.
Qed.

(** ** Accounting *)

Definition bytes_on (ptr : nat) (hs : list hold) : Z :=
  Zsum (fun h => if bool_decide (hd_path h = ptr) then hd_bytes h else 0) hs.

Lemma bytes_on_app ptr hs hs' : bytes_on ptr (hs ++ hs') = bytes_on ptr hs + bytes_on ptr hs'.
Proof. apply Zsum_app. Qed.

Lemma bytes_on_cons ptr h hs :
  bytes_on ptr (h :: hs) = (if bool_decide (hd_path h = ptr) then hd_bytes h else 0) + bytes_on ptr hs.
Proof. apply Zsum_cons. Qed.

Lemma bytes_on_perm ptr hs hs' : hs ≡ₚ hs' -> bytes_on ptr hs = bytes_on ptr hs'.
Proof. induction 1; rewrite ?bytes_on_cons in *; lia. Qed.

(** What a state owes to the reservations that are out. *)
Record accounts (st : Local) (out : list hold) : Prop := {
  ac_reserved : forall ptr p, heap st !! ptr = Some p -> lp_Reserved p = bytes_on ptr out;
  ac_entries : forall ptr p k oh, heap st !! ptr = Some p -> lp_Reservations p !! k = Some oh -> mkHold ptr k oh ∈ out;
  ac_paths : forall id ptr, paths st !! id = Some ptr -> is_Some (heap st !! ptr);
  ac_holds : forall h, h ∈ out -> is_Some (heap st !! hd_path h)
}.

Lemma accounts_perm st out out' : out ≡ₚ out' -> accounts st out -> accounts st out'.
Proof.
  intros Hp [H1 H2 H3 H4]. split; [|by setoid_rewrite <- Hp|done|by setoid_rewrite <- Hp].
  intros ptr p E. rewrite (H1 ptr p E). by apply bytes_on_perm.
Qed.

Lemma add_hold_accounts st out h : is_Some (heap st !! hd_path h) -> accounts st out -> accounts (add_hold st h) (h :: out).
Proof.
  intros [p0 Hp0] [H1 H2 H3 H4]. split; cbn [add_hold with_heap heap paths].
  - intros ptr p. rewrite bytes_on_cons. case_bool_decide as E.
    + subst ptr. rewrite lookup_alter_eq, Hp0. intros [= <-]. cbn. rewrite (H1 _ _ Hp0). lia.
    + rewrite lookup_alter_ne by congruence. intros Hp. rewrite (H1 _ _ Hp). lia.
  - intros ptr p k oh. destruct (decide (hd_path h = ptr)) as [<-|Hne].
    + rewrite lookup_alter_eq, Hp0. intros [= <-]. cbn. intros [[<- <-]|[Hk Hl]]%lookup_insert_Some.
      * apply elem_of_cons. left. by destruct h.
      * right. by eapply H2.
    + rewrite lookup_alter_ne by congruence. intros Hp Hk. right. by eapply H2.
  - intros id ptr Hi. destruct (H3 id ptr Hi) as [p Hp]. destruct (decide (hd_path h = ptr)) as [<-|Hne].
    + rewrite lookup_alter_eq, Hp0. by eexists.
    + rewrite lookup_alter_ne by congruence. by exists p.
  - intros h' [->|Hh]%elem_of_cons; [rewrite lookup_alter_eq, Hp0; by eexists|].
    destruct (H4 h' Hh) as [p Hp]. destruct (decide (hd_path h = hd_path h')) as [E|Hne].
    + rewrite <- E, lookup_alter_eq, Hp0. by eexists.
    + rewrite lookup_alter_ne by congruence. by exists p.
Qed.

Lemma release_one_accounts st out h : accounts st (h :: out) -> accounts (release_one st h) out.
Proof.
  intros [H1 H2 H3 H4]. destruct (H4 h ltac:(left)) as [p0 Hp0]. split; cbn [release_one with_heap heap paths].
  - intros ptr p. destruct (decide (hd_path h = ptr)) as [<-|Hne].
    + rewrite lookup_alter_eq, Hp0. intros [= <-]. cbn. rewrite (H1 _ _ Hp0), bytes_on_cons, bool_decide_eq_true_2 by done. lia.
    + rewrite lookup_alter_ne by congruence. intros Hp. rewrite (H1 _ _ Hp), bytes_on_cons, bool_decide_eq_false_2 by done. lia.
  - intros ptr p k oh. destruct (decide (hd_path h = ptr)) as [<-|Hne].
    + rewrite lookup_alter_eq, Hp0. intros [= <-]. cbn. intros [Hk Hl]%lookup_delete_Some.
      pose proof (H2 _ _ _ _ Hp0 Hl) as [E|Hin]%elem_of_cons; [|done]. destruct h. injection E as <- <-. done.
    + rewrite lookup_alter_ne by congruence. intros Hp Hl.
      pose proof (H2 _ _ _ _ Hp Hl) as [E|Hin]%elem_of_cons; [|done]. destruct h. by injection E as <- <- <-.
  - intros id ptr Hi. destruct (H3 id ptr Hi) as [p Hp]. destruct (decide (hd_path h = ptr)) as [<-|Hne].
    + rewrite lookup_alter_eq, Hp0. by eexists.
    + rewrite lookup_alter_ne by congruence. by exists p.
  - intros h' Hh. destruct (H4 h' ltac:(by right)) as [p Hp]. destruct (decide (hd_path h = hd_path h')) as [E|Hne].
    + rewrite <- E, lookup_alter_eq, Hp0. by eexists.
    + rewrite lookup_alter_ne by congruence. by exists p.
Qed.

Lemma release_accounts st hs out : accounts st (hs ++ out) -> accounts (release st hs) out.
Proof.
  unfold release. revert st. induction hs as [|h hs IH]; intros st Ha; [done|]. cbn [foldl]. apply IH.
  by apply release_one_accounts.
Qed.

(** ** Entries never exceed what is reserved *)

Lemma entries_le {K} `{EqDecision K} (l : list (K * Z)) (hs : list (K * Z)) :
  NoDup l.*1 -> (forall kv, kv ∈ l -> kv ∈ hs) -> (forall kv, kv ∈ hs -> 0 <= kv.2) ->
  Zsum snd l <= Zsum snd hs.
Proof.
  revert hs. induction l as [|[k v] l IH]; intros hs Hn Hin Hpos.
  - rewrite Zsum_nil. apply Zsum_nonneg. done.
  - cbn in Hn. apply NoDup_cons in Hn as [Hk Hn].
    destruct (proj1 (elem_of_Permutation hs (k, v))) as [hs' Hp]; [apply Hin; left|].
    assert (Zsum snd hs = v + Zsum snd hs') as ->.
    { change v with ((k, v).2). rewrite <- Zsum_cons. clear -Hp. induction Hp; rewrite ?Zsum_cons in *; lia. }
    rewrite Zsum_cons. cbn [snd]. assert (Zsum snd l <= Zsum snd hs'); [|lia]. apply IH; [done| |].
    + intros kv Hkv. assert (kv ∈ hs) as Hkv' by (apply Hin; by right). rewrite Hp in Hkv'.
      apply elem_of_cons in Hkv' as [->|]; [|done]. exfalso. apply Hk. apply list_elem_of_fmap. by exists (k, v).
    + intros kv Hkv. apply Hpos. rewrite Hp. by right.
Qed.

Lemma entries_reserved st out ptr p : accounts st out -> (forall h, h ∈ out -> 0 <= hd_bytes h) ->
  heap st !! ptr = Some p -> Zsum snd (map_to_list (lp_Reservations p)) <= lp_Reserved p.
Proof.
  intros Ha Hpos Hp. rewrite (ac_reserved _ _ Ha ptr p Hp).
  transitivity (Zsum snd (map (fun h => (hd_key h, hd_bytes h)) (List.filter (fun h => bool_decide (hd_path h = ptr)) out))).
  - apply entries_le; [apply NoDup_fst_map_to_list| |].
    + intros [k oh] Hk%elem_of_map_to_list. apply list_elem_of_fmap. exists (mkHold ptr k oh). split; [done|].
      apply list_elem_of_In, filter_In. split; [|by apply bool_decide_eq_true_2].
      apply list_elem_of_In. by apply (ac_entries _ _ Ha ptr p).
    + intros kv (h & -> & Hh)%list_elem_of_fmap. cbn. apply Hpos. apply list_elem_of_In, filter_In in Hh as [Hh _].
      by apply list_elem_of_In.
  - clear. unfold bytes_on. induction out as [|h out IH]; [done|]. cbn [List.filter]. rewrite Zsum_cons.
    case_bool_decide; cbn [map]; rewrite ?Zsum_cons; cbn [snd]; lia.
Qed.

Section Runs.
Variable fs_stat : string -> option FsStat.
Variable disk_usage : string -> usage.

Lemma reserve_check_path st sid ssize ids tab mf ft h :
  reserve_check fs_stat disk_usage st sid ssize ids tab mf ft = Ok h ->
  exists p, heap st !! hd_path h = Some p /\ hd_key h = (sid, ft) /\ hd_bytes h = overhead_of tab ft ssize.
Proof.
  unfold reserve_check. destruct (paths st !! _) as [ptr|]; [|done]. destruct (heap st !! ptr) as [p|] eqn:Hp; [|done].
  destruct (stat fs_stat disk_usage p _) as [[s n]|]; [|done].
  destruct (fs_Available s <? _); [done|]. destruct (f64_ltb _ mf); [done|]. intros [= <-]. by exists p.
Qed.

(** Reserving keeps the books, whether it succeeds or fails. *)
Lemma reserve_loop_accounts fts st sid ssize ids tab mf held out :
  accounts st (held ++ out) ->
  let '(st', r) := reserve_loop fs_stat disk_usage st sid ssize ids tab mf fts held in
  match r with
  | Ok hs => accounts st' (hs ++ out) /\ forall h, h ∈ hs -> h ∈ held \/ exists ft, ft ∈ fts /\ hd_bytes h = overhead_of tab ft ssize
  | Err _ => accounts st' out
  end.
Proof.
  revert st held. induction fts as [|ft fts IH]; intros st held Ha; cbn [reserve_loop].
  - split; [done|]. by left.
  - destruct (reserve_check fs_stat disk_usage st sid ssize ids tab mf ft) as [h|e] eqn:E.
    + apply reserve_check_path in E as (p & Hp & _ & Hb).
      assert (accounts (add_hold st h) ((held ++ [h]) ++ out)) as Ha'.
      { eapply accounts_perm; [|apply add_hold_accounts; [by exists p|exact Ha]].
        rewrite <- app_assoc. cbn [app]. apply Permutation_middle. }
      specialize (IH _ _ Ha'). destruct (reserve_loop _ _ _ _ _ _ _ _ _ _) as [st' [hs|e]]; [|done].
      destruct IH as [Hacc Hb']. split; [done|]. intros h' Hh'.
      destruct (Hb' h' Hh') as [[?|?%list_elem_of_singleton]%elem_of_app|(f & Hf & Eb)]; [by left| |].
      * subst. right. exists ft. split; [left|done].
      * right. exists f. split; [by right|done].
    + by apply release_accounts.
Qed.

(** ** The node

    The state is the local storage and the reservations whose release function has
    not been called. *)
Inductive local_step : Local * list (list hold) -> Local * list (list hold) -> Prop :=
| lc_reserve st out sid ssize ft ids tab mf st' hs :
    (forall f, 0 <= tab f) -> (forall n, ssize = Some n -> 0 <= n) -> (forall f n, ssize = Some n -> tab f * n < 2 ^ 63) ->
    Reserve fs_stat disk_usage st sid ssize ft ids tab mf = (st', Ok hs) ->
    local_step (st, out) (st', hs :: out)
| lc_refused st out sid ssize ft ids tab mf st' e :
    Reserve fs_stat disk_usage st sid ssize ft ids tab mf = (st', Err e) ->
    local_step (st, out) (st', out)
| lc_release st before hs after :
    local_step (st, before ++ hs :: after) (release st hs, before ++ after)
| lc_open st out id p :
    lp_Reserved p = 0 -> lp_Reservations p = ∅ -> paths st !! id = None ->
    local_step (st, out) (add_path st id p, out)
| lc_close st out id : local_step (st, out) (remove_path st id, out).

Definition local_ok (s : Local * list (list hold)) : Prop :=
  accounts s.1 (concat s.2) /\ forall h, h ∈ concat s.2 -> 0 <= hd_bytes h.

Lemma bytes_on_fresh st out ptr : accounts st out -> heap st !! ptr = None -> bytes_on ptr out = 0.
Proof.
  intros Ha Hp. unfold bytes_on. rewrite (Zsum_ext _ (fun _ => 0)).
  - clear. induction out; [done|]. rewrite Zsum_cons. lia.
  - intros h Hh. rewrite bool_decide_eq_false_2; [done|]. intros <-.
    destruct (ac_holds _ _ Ha h Hh) as [p E]. congruence.
Qed.

Lemma add_path_accounts st out id p : accounts st out -> lp_Reserved p = 0 -> lp_Reservations p = ∅ ->
  accounts (add_path st id p) out.
Proof.
  intros Ha Hr0 He. assert (heap st !! fresh_ptr st = None) as Hp by exact (proj1 (not_elem_of_dom (heap st) _) (is_fresh (dom (heap st) : gset nat))).
  pose proof (bytes_on_fresh _ _ (fresh_ptr st) Ha Hp) as H0. unfold add_path. revert Hp H0.
  generalize (fresh_ptr st). intros ptr Hp H0. destruct Ha as [H1 H2 H3 H4]. split; cbn [heap paths].
  - intros q p' [[<- <-]|[Hne Hq]]%lookup_insert_Some; [congruence|by apply H1].
  - intros q p' k oh [[<- <-]|[Hne Hq]]%lookup_insert_Some; [by rewrite He, lookup_empty|by eapply H2].
  - intros i q [[<- <-]|[Hne Hq]]%lookup_insert_Some; [by rewrite lookup_insert_eq|].
    destruct (decide (ptr = q)) as [->|]; [by rewrite lookup_insert_eq|]. rewrite lookup_insert_ne by done. by apply (H3 i).
  - intros h Hh. destruct (decide (ptr = hd_path h)) as [->|]; [by rewrite lookup_insert_eq|].
    rewrite lookup_insert_ne by done. by apply H4.
Qed.

Lemma accounts_empty : accounts (mkLocal ∅ ∅) [].
Proof.
  split; cbn; try (by intros * ?%lookup_empty_Some). intros h Hh. by apply not_elem_of_nil in Hh.
Qed.

Lemma overhead_nonneg tab ft n : 0 <= tab ft -> 0 <= n -> tab ft * n < 2 ^ 63 -> 0 <= overhead_of tab ft n.
Proof.
  intros H1 H2 H3. unfold overhead_of. rewrite i64_small by (unfold in_i64, min_i64, max_i64; nia).
  apply Z.quot_pos; [nia|done].
Qed.

Lemma local_step_ok s s' : local_ok s -> local_step s s' -> local_ok s'.
Proof.
  intros [Ha Hpos] Hs. destruct Hs as [st out sid ssize ft ids tab mf st' hs Ht Hz Hb E|st out sid ssize ft ids tab mf st' e E
    |st before hs after|st out id p Hr0 He Hi|st out id]; cbn [fst snd] in *.
  - unfold Reserve in E. destruct ssize as [n|]; [|done].
    pose proof (reserve_loop_accounts (AllSet ft) st sid n ids tab mf [] (concat out) Ha) as Hr. rewrite E in Hr.
    destruct Hr as [Hr Hbs]. split; [done|]. cbn [fst snd concat]. intros h [Hh|Hh]%elem_of_app; [|by apply Hpos].
    destruct (Hbs h Hh) as [?%not_elem_of_nil|(f & _ & ->)]; [done|]. apply overhead_nonneg; auto.
  - unfold Reserve in E. destruct ssize as [n|]; [|by injection E as <- _].
    pose proof (reserve_loop_accounts (AllSet ft) st sid n ids tab mf [] (concat out) Ha) as Hr. by rewrite E in Hr.
  - rewrite concat_app in *. cbn [concat] in *. split; cbn [fst snd]; rewrite concat_app.
    + apply release_accounts. eapply accounts_perm; [|exact Ha]. rewrite !app_assoc. apply Permutation_app_tail, Permutation_app_comm.
    + intros h [Hh|Hh]%elem_of_app; apply Hpos; rewrite !elem_of_app; auto.
  - split; [|done]. by apply add_path_accounts.
  - split; [|done]. destruct Ha as [H1 H2 H3 H4]. split; cbn [fst snd heap paths remove_path]; try done.
    intros i q [_ Hq]%lookup_delete_Some. by apply (H3 i).
Qed.

Lemma local_reach_ok st out : rtc local_step (mkLocal ∅ ∅, []) (st, out) -> local_ok (st, out).
Proof.
  intros Hrun. apply (rtc_invariant _ _ local_step_ok _ _ Hrun).
  split; [apply accounts_empty|]. by intros h ?%not_elem_of_nil.
Qed.

(** C28: reservations are exact: in every reachable state the bytes reserved on a
    path are the sum of the reservations on it that were not released, also when
    reservations overlap, fail half way, or outlive a closed path; the space that
    is still to be written is therefore never negative. *)
Theorem reservations_exact (st : Local) (out : list (list hold)) (ptr : nat) (p : lpath) :
  rtc local_step (mkLocal ∅ ∅, []) (st, out) -> heap st !! ptr = Some p ->
  lp_Reserved p = bytes_on ptr (concat out) /\
  Zsum snd (map_to_list (lp_Reservations p)) <= lp_Reserved p.
Proof.
  intros Hrun Hp. destruct (local_reach_ok _ _ Hrun) as [Ha Hpos].
  split; [by apply (ac_reserved _ _ Ha)|by eapply entries_reserved].
Qed.

(** *** Space *)

(** The bytes of the reservations on a path that are not on disk yet. *)
Definition unwritten (p : lpath) : Z :=
  Zsum (fun kv => kv.2 - on_disk disk_usage p kv.1 kv.2) (map_to_list (lp_Reservations p)).

(** The free space of every file system covers what is reserved on it and not
    written. *)
Definition fits (st : Local) : Prop :=
  forall ptr p s, heap st !! ptr = Some p -> fs_stat (lp_Local p) = Some s -> unwritten p <= Z.max 0 (fs_Available s).

Lemma unwritten_split p : unwritten p = Zsum snd (map_to_list (lp_Reservations p)) - reserved_on_disk disk_usage p.
Proof.
  unfold unwritten, reserved_on_disk. induction (map_to_list (lp_Reservations p)) as [|kv l IH]; [done|].
  rewrite !Zsum_cons, IH. lia.
Qed.

Lemma on_disk_le p k oh : on_disk disk_usage p k oh <= oh.
Proof. unfold on_disk. case_ifs; bool_props; lia. Qed.

Hypothesis usage_nonneg : forall s n, disk_usage s = Used n -> 0 <= n.

Lemma on_disk_nonneg p k oh : 0 <= oh -> 0 <= on_disk disk_usage p k oh.
Proof.
  intros Ho. unfold on_disk. case_ifs; [done|]. unfold accountExistingFiles.
  cbv zeta. destruct (disk_usage (sectorPath p k.1 k.2)) eqn:E1; [by eapply usage_nonneg| |done].
  destruct (disk_usage (sectorPath p k.1 k.2 +:+ TempSuffix)) eqn:E2; [by eapply usage_nonneg| |done].
  destruct (disk_usage (tempFetchDest p k.1 k.2)) eqn:E3; [by eapply usage_nonneg|done..].
Qed.

Lemma unwritten_set p r m : unwritten (set_reservation p r m) =
  Zsum (fun kv => kv.2 - on_disk disk_usage p kv.1 kv.2) (map_to_list m).
Proof. reflexivity. Qed.

Lemma unwritten_insert (p : lpath) (k : SectorID * SectorFileType) (oh : Z) (m : gmap (SectorID * SectorFileType) Z) : m !! k = None ->
  Zsum (fun kv => kv.2 - on_disk disk_usage p kv.1 kv.2) (map_to_list (<[k := oh]> m)) =
  (oh - on_disk disk_usage p k oh) + Zsum (fun kv => kv.2 - on_disk disk_usage p kv.1 kv.2) (map_to_list m).
Proof. intros Hk. rewrite (Zsum_perm _ _ _ (map_to_list_insert m k oh Hk)), Zsum_cons. done. Qed.

Lemma unwritten_delete (p : lpath) (k : SectorID * SectorFileType) (m : gmap (SectorID * SectorFileType) Z) :
  Zsum (fun kv => kv.2 - on_disk disk_usage p kv.1 kv.2) (map_to_list (delete k m)) <=
  Zsum (fun kv => kv.2 - on_disk disk_usage p kv.1 kv.2) (map_to_list m).
Proof.
  destruct (m !! k) as [v|] eqn:Hk; [|by rewrite delete_id].
  rewrite <- (Zsum_perm _ _ _ (map_to_list_delete m k v Hk)), Zsum_cons. cbn [fst snd].
  pose proof (on_disk_le p k v). lia.
Qed.

Lemma release_one_fits st h : fits st -> fits (release_one st h).
Proof.
  intros Hf ptr p s. cbn [release_one with_heap heap]. destruct (decide (hd_path h = ptr)) as [<-|Hne].
  - rewrite lookup_alter_eq. destruct (heap st !! hd_path h) as [p0|] eqn:Hp; [|done]. intros [= <-] Hs.
    rewrite unwritten_set. etransitivity; [apply unwritten_delete|]. by apply (Hf _ _ _ Hp).
  - rewrite lookup_alter_ne by congruence. apply Hf.
Qed.

Lemma release_fits hs st : fits st -> fits (release st hs).
Proof. unfold release. revert st. induction hs as [|h hs IH]; intros st Hf; [done|]. cbn. by apply IH, release_one_fits. Qed.

(** The test of [Reserve] for one type. *)
Lemma reserve_check_space st sid ssize ids tab mf ft h :
  reserve_check fs_stat disk_usage st sid ssize ids tab mf ft = Ok h -> ft ∈ PathTypes ->
  exists p s, heap st !! hd_path h = Some p /\ fs_stat (lp_Local p) = Some s /\ hd_key h = (sid, ft) /\
    let need := hd_bytes h - (match lp_Reservations p !! (sid, ft) with Some _ => 0 | None => on_disk disk_usage p (sid, ft) (hd_bytes h) end) in
    need <= Z.max 0 (fs_Available s - Z.max 0 (lp_Reserved p - reserved_on_disk disk_usage p)).
Proof.
  intros E Hft. unfold reserve_check in E. destruct (paths st !! _) as [ptr|]; [|done].
  destruct (heap st !! ptr) as [p|] eqn:Hp; [|done].
  set (oh := overhead_of tab ft ssize) in *.
  destruct (stat fs_stat disk_usage p (Some (sid, ft, oh))) as [[s n]|] eqn:Hst; [|done].
  destruct (fs_Available s <? _) eqn:Hav; [done|]. destruct (f64_ltb _ mf); [done|]. injection E as <-.
  unfold stat in Hst. destruct (fs_stat (lp_Local p)) as [s0|] eqn:Hs0; [|done].
  exists p, s0. cbn [hd_path hd_key hd_bytes]. split_and!; [done..|]. cbv zeta.
  assert (n = match lp_Reservations p !! (sid, ft) with Some _ => 0 | None => on_disk disk_usage p (sid, ft) oh end) as Hn.
  { assert (AllSet ft = [ft]) as Has.
    { repeat (apply elem_of_cons in Hft as [->|Hft]; [reflexivity|]). by apply not_elem_of_nil in Hft. }
    assert (n = new_on_disk disk_usage p (Some (sid, ft, oh))) as ->.
    { destruct (lp_MaxStorage p >? 0); [destruct (disk_usage (lp_Local p)); try done|]; by injection Hst as _ <-. }
    unfold new_on_disk. rewrite Has, Zsum_cons, Zsum_nil. destruct (lp_Reservations p !! (sid, ft)); lia. }
  assert (fs_Available s <= Z.max 0 (fs_Available s0 - Z.max 0 (lp_Reserved p - reserved_on_disk disk_usage p))) as Ha.
  { destruct (lp_MaxStorage p >? 0); [destruct (disk_usage (lp_Local p)); try done|];
      injection Hst as <- _; cbn [fs_Available]; case_ifs; bool_props; lia. }
  rewrite <- Hn. destruct (oh - n <? 0) eqn:Hneg; bool_props; lia.
Qed.

(** Adding a hold that passed the test. *)
Lemma add_hold_fits st sid ssize ids tab mf ft h out :
  accounts st out -> (forall h, h ∈ out -> 0 <= hd_bytes h) -> ft ∈ PathTypes -> 0 <= hd_bytes h ->
  reserve_check fs_stat disk_usage st sid ssize ids tab mf ft = Ok h -> fits st -> fits (add_hold st h).
Proof.
  intros Ha Hpos Hft Hh E Hf ptr p s. destruct (reserve_check_space _ _ _ _ _ _ _ _ E Hft) as (p0 & s0 & Hp0 & Hs0 & Hkey & Hneed).
  cbv zeta in Hneed. cbn [add_hold with_heap heap]. destruct (decide (hd_path h = ptr)) as [<-|Hne].
  2: { rewrite lookup_alter_ne by congruence. apply Hf. }
  rewrite lookup_alter_eq, Hp0. intros [= <-] Hs. cbn [set_reservation lp_Local] in Hs. rewrite Hs0 in Hs. injection Hs as <-.
  rewrite unwritten_set, Hkey. pose proof (Hf _ _ _ Hp0 Hs0) as Hf0.
  pose proof (entries_reserved _ _ _ _ Ha Hpos Hp0) as He. rewrite unwritten_split in Hf0.
  pose proof (unwritten_split p0) as Hu. unfold unwritten in Hu.
  destruct (lp_Reservations p0 !! (sid, ft)) as [v|] eqn:Hk.
  - rewrite <- insert_delete_eq, unwritten_insert by apply lookup_delete_eq.
    pose proof (unwritten_delete p0 (sid, ft) (lp_Reservations p0)) as Hd.
    pose proof (on_disk_nonneg p0 (sid, ft) (hd_bytes h) Hh). lia.
  - rewrite unwritten_insert by done. pose proof (on_disk_le p0 (sid, ft) (hd_bytes h)). lia.
Qed.

Lemma reserve_loop_fits fts st sid ssize ids tab mf held out :
  (forall ft, ft ∈ fts -> ft ∈ PathTypes /\ 0 <= overhead_of tab ft ssize) ->
  accounts st (held ++ out) -> (forall h, h ∈ held ++ out -> 0 <= hd_bytes h) -> fits st ->
  fits (reserve_loop fs_stat disk_usage st sid ssize ids tab mf fts held).1.
Proof.
  revert st held. induction fts as [|ft fts IH]; intros st held Hfts Ha Hpos Hf; cbn [reserve_loop]; [done|].
  destruct (reserve_check fs_stat disk_usage st sid ssize ids tab mf ft) as [h|e] eqn:E; [|by apply release_fits].
  destruct (Hfts ft ltac:(left)) as [Hft Hoh]. pose proof (reserve_check_path _ _ _ _ _ _ _ _ E) as (p & Hp & _ & Hb).
  assert (0 <= hd_bytes h) as Hh by (by rewrite Hb).
  apply IH.
  - intros f Hin. apply Hfts. by right.
  - eapply accounts_perm; [|apply add_hold_accounts; [by exists p|exact Ha]].
    rewrite <- app_assoc. cbn [app]. apply Permutation_middle.
  - intros h' Hh'. rewrite <- app_assoc in Hh'. cbn [app] in Hh'.
    apply elem_of_app in Hh' as [Hh'|[->|Hh']%elem_of_cons]; [| |]; [apply Hpos; apply elem_of_app; by left|done|].
    apply Hpos, elem_of_app. by right.
  - by eapply add_hold_fits.
Qed.

(** space is not promised twice: in a state reached by reservations, failures and
    releases in which the free space of every file system covers what is reserved
    there and not yet written, this also holds after any further [Reserve], whether it
    succeeds for all its file types or fails half way, and after any release. *)
Theorem reservations_fit (st : Local) (out : list (list hold)) (sid : SectorID) (n : Z) (ft : SectorFileType)
    (ids : SectorPaths) (tab : SectorFileType -> Z) (mf : float64) (hs : list hold) :
  rtc local_step (mkLocal ∅ ∅, []) (st, out) -> fits st ->
  0 <= n -> (forall f, 0 <= tab f /\ tab f * n < 2 ^ 63) ->
  fits (Reserve fs_stat disk_usage st sid (Some n) ft ids tab mf).1 /\ fits (release st hs).
Proof.
  intros Hrun Hf Hn Ht. split; [|by apply release_fits].
  destruct (local_reach_ok _ _ Hrun) as [Ha Hpos].
  apply (reserve_loop_fits _ _ _ _ _ _ _ [] (concat out)); try done.
  intros f [Hp _]%elem_of_AllSet. split; [done|]. destruct (Ht f). by apply overhead_nonneg.
Qed.

End Runs.

(** ** Examples *)

(** One path with 1000 bytes free and none used. *)
Definition lf_fs (p : string) : option FsStat := Some (mkFsStat 10000 1000 1000 0 0 0).
Definition lf_du (p : string) : usage := NotExist.
Definition lf_path (mx : Z) : lpath := mkLPath "/d" mx 0 ∅ true [] [].
Definition lf_start (mx : Z) : Local := add_path (mkLocal ∅ ∅) "p" (lf_path mx).
Definition lf_ids : SectorPaths := SetPathByType (SetPathByType zeroSectorPaths FTSealed "p") FTUnsealed "p".
Definition lf_sector : SectorID := mkSectorID 1000 1.

Definition lf_reserve (st : Local) (n : Z) : Local * result (list hold) local_error :=
  Reserve lf_fs lf_du st lf_sector (Some n) (Z.lor FTSealed FTUnsealed) lf_ids (fun _ => 10) (f64_of_Z 0).

Definition lf_state : Local := (lf_reserve (lf_start 0) 300).1.
Definition lf_holds : list hold := [mkHold 0 (lf_sector, FTUnsealed) 300; mkHold 0 (lf_sector, FTSealed) 300].

Lemma lf_reach : rtc (local_step lf_fs lf_du) (mkLocal ∅ ∅, []) (lf_state, [lf_holds]).
Proof.
  apply (rtc_l _ _ (lf_start 0, [])).
  { apply (lc_open lf_fs lf_du (mkLocal ∅ ∅) [] "p" (lf_path 0)); [reflexivity|reflexivity|]. apply lookup_empty. }
  eapply rtc_l; [|apply rtc_refl].
  apply (lc_reserve lf_fs lf_du (lf_start 0) [] lf_sector (Some 300) (Z.lor FTSealed FTUnsealed) lf_ids (fun _ => 10) (f64_of_Z 0)).
  - done.
  - by intros n [= <-].
  - by intros f n [= <-].
  - vm_compute. reflexivity.
Qed.

Lemma reservations_exact_witness :
  exists p, heap lf_state !! 0%nat = Some p /\
    lp_Reserved p = bytes_on 0 (concat [lf_holds]) /\ Zsum snd (map_to_list (lp_Reservations p)) <= lp_Reserved p.
Proof.
  eexists. split; [vm_compute; reflexivity|].
  apply (reservations_exact lf_fs lf_du lf_state [lf_holds] 0); [apply lf_reach|vm_compute; reflexivity].
Defined.

Lemma lf_fits : fits lf_fs lf_du lf_state.
Proof.
  intros ptr p s Hp Hs. injection Hs as <-.
  assert (forallb (fun kv => unwritten lf_du kv.2 <=? 1000) (map_to_list (heap lf_state)) = true) as Hb by (vm_compute; reflexivity).
  rewrite forallb_forall in Hb. specialize (Hb (ptr, p)). rewrite <- list_elem_of_In, elem_of_map_to_list in Hb.
  apply Z.leb_le. by apply Hb.
Qed.

Lemma reservations_fit_witness :
  fits lf_fs lf_du (lf_reserve lf_state 300).1 /\ fits lf_fs lf_du (release lf_state lf_holds).
Proof.
  apply (reservations_fit lf_fs lf_du ltac:(done) lf_state [lf_holds] lf_sector 300 (Z.lor FTSealed FTUnsealed) lf_ids (fun _ => 10) (f64_of_Z 0) lf_holds);
    [apply lf_reach|apply lf_fits|done|done].
Defined.

(** A third of the space is refused once two thirds are taken. *)
Example lf_refused : (lf_reserve lf_state 300).2 = Err TempAllocateSpace.
Proof. vm_compute. reflexivity. Qed.

(** [Reserve] returns its release function before the deferred function wraps it
    against a second call, so a second call takes the bytes off again. *)
Example double_release :
  lp_Reserved <$> heap (release (release lf_state lf_holds) lf_holds) !! 0%nat = Some (-600).
Proof. vm_compute. reflexivity. Qed.

(** The limit of a path is compared with what is used, not with what is reserved:
    two files of 300 bytes are reserved on a path that is limited to 400. *)
Example limit_not_reserved :
  match (Reserve lf_fs (fun p => if bool_decide (p = "/d"%string) then Used 0 else NotExist) (lf_start 400) lf_sector (Some 300)
           (Z.lor FTSealed FTUnsealed) lf_ids (fun _ => 10) (f64_of_Z 0)) with
  | (st, Ok _) => (fun p => (lp_MaxStorage p, lp_Reserved p)) <$> heap st !! 0%nat = Some (400, 600)
  | _ => False
  end.
Proof. vm_compute. reflexivity. Qed.

(** With the cached storage that [NewLocal] installs, a missing file is reported
    as zero bytes, and the files under their temporary names are never looked at. *)
Lemma cached_usage_exists last now answered base : exists n, (cached_disk_usage last now answered base).1 = Used n.
Proof. unfold cached_disk_usage. case_ifs; by eexists. Qed.
