(* ===== verification/LocalIndex.v ===== *)
(** * Local storage and the sector index ([lib/paths/local.go])

    The operations of a node's local storage that talk to the index, against the
    interface [SectorIndex]: opening and closing paths, choosing paths for the
    files of a sector, declaring what is on disk, removing and moving files.  The
    file system is an input: the description of a path ([read_meta]), the entries
    of a directory ([read_dir]), and whether the creation, removal or move of a
    file succeeds.  A panic is [None]. *)

From stdpp Require Import base gmap sets list strings sorting pretty.
From Stdlib Require Import ZArith Lia Ascii.
From S2P Require Import Prelude FileType SectorLocks GoStd Float64 StorageIndex StorageIndexFacts IndexInterface LocalStorage.

(** [storiface.LocalStorageMeta], the file [sectorstore.json] of a path. *)
Record LocalStorageMeta := mkMeta {
  mt_ID : string;
  mt_Weight : Z;
  mt_CanSeal : bool;
  mt_CanStore : bool;
  mt_MaxStorage : Z;
  mt_Groups : list string;
  mt_AllowTo : list string;
  mt_AllowTypes : list string;
  mt_DenyTypes : list string;
  mt_AllowMiners : list string;
  mt_DenyMiners : list string
}.

(** [os.ReadDir] of the directory of a file type below a path. *)
Inductive dir := Entries (l : list string) | NoDir | DirError.

Section LocalIndex.
Context {IX : Type} `{SectorIndex IX} `{Enum}.
Variable fs_stat : string -> option FsStat.
Variable disk_usage : string -> usage.
Variable read_meta : string -> option LocalStorageMeta.
Variable read_dir : string -> SectorFileType -> dir.
Variable mkdir_ok : string -> SectorFileType -> bool.
Variable same_file : string -> string -> bool.        (* os.SameFile of two paths *)
Variable stash_ok : string -> bool.                   (* removing and creating the stash directory *)
Variable address_id : string -> option Z.
Variable url : string.                                (* st.url *)
Implicit Types (st : Local) (ix : IX).

(** ** Choosing paths *)

Definition allocPathOk (pathType : string) (canSeal canStore : bool) (allowTypes denyTypes allowMiners denyMiners : list string)
    (fileType : SectorFileType) (miner : Z) : result bool index_error :=
  if bool_decide (pathType = PathSealing) && negb canSeal then Ok false
  else if bool_decide (pathType = PathStorage) && negb canStore then Ok false
  else if negb (Allowed fileType allowTypes denyTypes) then Ok false
  else MinerFilter address_id allowMiners denyMiners miner.

(** The loop over the paths that hold the file: the first local one, which an
    allocation must also accept. *)
Fixpoint pick_existing st (pathType : string) (allocate fileType : SectorFileType) (miner : Z)
    (si : list SectorStorageInfo) : option (string * lpath) :=
  match si with
  | [] => None
  | info :: si =>
      let next := pick_existing st pathType allocate fileType miner si in
      match lookup_path st (ssi_ID info) with
      | None => next
      | Some p =>
          if bool_decide (lp_Local p = EmptyString) then next
          else if Has allocate fileType then
            match allocPathOk pathType (ssi_CanSeal info) (ssi_CanStore info) (ssi_AllowTypes info) (ssi_DenyTypes info)
                    (ssi_AllowMiners info) (ssi_DenyMiners info) fileType miner with
            | Ok true => Some (ssi_ID info, p)
            | _ => next
            end
          else Some (ssi_ID info, p)
      end
  end.

(** The paths and their ids chosen so far, and the types still to be found. *)
Record acquired := mkAcquired { aq_out : SectorPaths; aq_ids : SectorPaths; aq_existing : SectorFileType; aq_allocate : SectorFileType }.

Definition choose (a : acquired) (fileType : SectorFileType) (spath id : string) (existing allocate : SectorFileType) : acquired :=
  mkAcquired (SetPathByType (aq_out a) fileType spath) (SetPathByType (aq_ids a) fileType id) existing allocate.

(** The first loop of [AcquireSector]: existing files. *)
Fixpoint find_loop st (sid : SectorID) (ssize : Z) (pathType : string) (fts : list SectorFileType) (a : acquired) ix
    : IX * acquired :=
  match fts with
  | [] => (ix, a)
  | fileType :: fts =>
      if Z.land fileType (Z.lor (aq_existing a) (aq_allocate a)) =? 0 then find_loop st sid ssize pathType fts a ix
      else
        match ix_find sid fileType ssize false ix with
        | (ix, Err _) => find_loop st sid ssize pathType fts a ix
        | (ix, Ok si) =>
            match pick_existing st pathType (aq_allocate a) fileType (Miner sid) si with
            | None => find_loop st sid ssize pathType fts a ix
            | Some (id, p) =>
                find_loop st sid ssize pathType fts
                  (choose a fileType (sectorPath p sid fileType) id
                     (Unset (aq_existing a) fileType) (Unset (aq_allocate a) fileType)) ix
            end
        end
  end.

(** The filter on the paths proposed for an allocation. *)
Definition alloc_candidate st (pathType : string) (fileType : SectorFileType) (miner : Z) (si : StorageInfo) : bool :=
  match lookup_path st (si_ID si) with
  | None => false
  | Some p =>
      if bool_decide (lp_Local p = EmptyString) then false
      else match allocPathOk pathType (si_CanSeal si) (si_CanStore si) (si_AllowTypes si) (si_DenyTypes si)
                   (si_AllowMiners si) (si_DenyMiners si) fileType miner with
           | Ok b => b
           | Err _ => false
           end
  end.

Definition active_of st (si : StorageInfo) : nat :=
  match lookup_path st (si_ID si) with Some p => size (lp_Reservations p) | None => 0%nat end.

(** The sort by active reservations: [less] compares entries of a second slice,
    which is not moved together with the first. *)
Definition sort_by_active st (sis : list StorageInfo) : list StorageInfo :=
  let activeReservations := map (active_of st) sis in
  SliceStable (fun _ i j =>
    match activeReservations !! i, activeReservations !! j with
    | Some a, Some b => (a <? b)%nat
    | _, _ => false
    end) sis.

(** The second loop: allocations. *)
Fixpoint alloc_new st (sid : SectorID) (ssize : Z) (pathType : string) (fts : list SectorFileType) (a : acquired) ix
    : IX * result acquired local_error :=
  match fts with
  | [] => (ix, Ok a)
  | fileType :: fts =>
      if Z.land fileType (aq_allocate a) =? 0 then alloc_new st sid ssize pathType fts a ix
      else
        match ix_best fileType ssize pathType (Miner sid) ix with
        | (ix, Err e) => (ix, Err (IndexFailed e))
        | (ix, Ok sis) =>
            let sis := List.filter (alloc_candidate st pathType fileType (Miner sid)) sis in
            match sort_by_active st sis with
            | [] => (ix, Err TempAllocateSpace)
            | si :: _ =>
                match lookup_path st (si_ID si) with
                | None => (ix, Err TempAllocateSpace)
                | Some p =>
                    alloc_new st sid ssize pathType fts
                      (choose a fileType (sectorPath p sid fileType) (si_ID si)
                         (aq_existing a) (Z.lxor (aq_allocate a) fileType)) ix
                end
            end
        end
  end.

Definition AcquireSector st (sid : SectorID) (ssize : option Z) (existing allocate : SectorFileType) (pathType : string) ix
    : IX * result (SectorPaths * SectorPaths) local_error :=
  if negb (Z.lor existing allocate =? Z.lxor existing allocate) then (ix, Err FindAndAllocate)
  else match ssize with
       | None => (ix, Err BadProofType)
       | Some ssize =>
           let '(ix, a) := find_loop st sid ssize pathType PathTypes
                             (mkAcquired zeroSectorPaths zeroSectorPaths existing allocate) ix in
           match alloc_new st sid ssize pathType PathTypes a ix with
           | (ix, Err e) => (ix, Err e)
           | (ix, Ok a) => (ix, Ok (aq_out a, aq_ids a))
           end
       end.

(** ** Declaring what is on disk *)

(** One directory: the declarations of its entries, or the error. *)
Fixpoint dir_decls (id : string) (primary : bool) (t : SectorFileType) (names : list string)
    : result (list SectorDeclaration) local_error :=
  match names with
  | [] => Ok []
  | name :: names =>
      if bool_decide (name = FetchTempSubdir) then dir_decls id primary t names
      else match ParseSectorID name with
           | Err _ => Err FileFailed
           | Ok sid =>
               match dir_decls id primary t names with
               | Err e => Err e
               | Ok ds => Ok (mkDeclaration id sid t primary :: ds)
               end
           end
  end.

Fixpoint disk_decls (p id : string) (primary : bool) (ts : list SectorFileType)
    : result (list SectorDeclaration) local_error :=
  match ts with
  | [] => Ok []
  | t :: ts =>
      match read_dir p t with
      | NoDir => if mkdir_ok p t then disk_decls p id primary ts else Err FileFailed
      | DirError => Err FileFailed
      | Entries names =>
          match dir_decls id primary t names with
          | Err e => Err e
          | Ok ds =>
              match disk_decls p id primary ts with
              | Err e => Err e
              | Ok ds' => Ok (ds ++ ds')
              end
          end
      end
  end.

(** [indexed]: the single types that the index lists for the path. *)
Definition indexed_of (decls : list (SectorID * SectorFileType)) : list (SectorID * SectorFileType) :=
  remove_dups (mbind (fun d => map (fun ft => (d.1, ft)) (AllSet d.2)) decls).

Fixpoint drop_all (id : string) (l : list (SectorID * SectorFileType)) ix : IX * option local_error :=
  match l with
  | [] => (ix, None)
  | (s, ft) :: l =>
      match ix_drop id s ft ix with
      | (ix, Some e) => (ix, Some (IndexFailed e))
      | (ix, None) => drop_all id l ix
      end
  end.

Definition decl_file (d : SectorDeclaration) : SectorID * SectorFileType := (sd_SectorID d, sd_FileType d).

(** [declareSectors]; the declarations that are on disk are deleted from
    [indexed], what is left is dropped from the index. *)
Definition declareSectors (p id : string) (primary dropMissing : bool) ix : option (IX * option local_error) :=
  let '(ix, listed) :=
    if dropMissing then
      match ix_list id ix with (ix, Err e) => (ix, Err e) | (ix, Ok l) => (ix, Ok (indexed_of l)) end
    else (ix, Ok []) in
  match listed with
  | Err e => Some (ix, Some (IndexFailed e))
  | Ok indexed =>
      match disk_decls p id primary PathTypes with
      | Err e => Some (ix, Some e)
      | Ok declarations =>
          match ix_batch declarations ix with
          | None => None
          | Some (ix, Some e) => Some (ix, Some (IndexFailed e))
          | Some (ix, None) =>
              let missing := List.filter (fun f => negb (bool_decide (f ∈ map decl_file declarations))) indexed in
              if dropMissing then Some (drop_all id (enum missing) ix) else Some (ix, None)
          end
      end
  end.

(** ** Opening and closing paths *)

Definition info_of_meta (id : string) (meta : LocalStorageMeta) : StorageInfo :=
  mkStorageInfo id [url] (mt_Weight meta) (mt_MaxStorage meta) (mt_CanSeal meta) (mt_CanStore meta) (mt_Groups meta)
    (mt_AllowTo meta) (mt_AllowTypes meta) (mt_DenyTypes meta) (mt_AllowMiners meta) (mt_DenyMiners meta).

Definition new_path (p : string) (meta : LocalStorageMeta) : lpath :=
  mkLPath p (mt_MaxStorage meta) 0 ∅ (mt_CanSeal meta) (mt_AllowTypes meta) (mt_DenyTypes meta).

(** [sameLocalPath] *)
Definition sameLocalPath (a b : string) : bool := bool_decide (a = b) || same_file a b.

(** The id of an open path that is the same directory. *)
Definition same_open st (p : string) : option string :=
  head (omap (fun '(id, ptr) => match heap st !! ptr with
                                | Some q => if sameLocalPath p (lp_Local q) then Some id else None
                                | None => None end) (enum (map_to_list (paths st)))).

Inductive opened := Opened (id : string) (canStore : bool) | OpenFailed (e : local_error).

Definition openPath (p : string) (declare : bool) st ix : option (Local * IX * opened) :=
  match read_meta p with
  | None => Some (st, ix, OpenFailed FileFailed)
  | Some meta =>
      if bool_decide (is_Some (paths st !! mt_ID meta)) then Some (st, ix, Opened (mt_ID meta) (mt_CanStore meta))
      else match same_open st p with
           | Some id => Some (st, ix, Opened id (mt_CanStore meta))
           | None =>
               let out := new_path p meta in
               if mt_CanSeal meta && negb (stash_ok p) then Some (st, ix, OpenFailed FileFailed)
               else match stat fs_stat disk_usage out None with
                    | None => Some (st, ix, OpenFailed StatFailed)
                    | Some (fst_, _) =>
                        match ix_attach (info_of_meta (mt_ID meta) meta) fst_ ix with
                        | (ix, Some e) => Some (st, ix, OpenFailed (IndexFailed e))
                        | (ix, None) =>
                            let finish ix := (add_path st (mt_ID meta) out, ix, Opened (mt_ID meta) (mt_CanStore meta)) in
                            if declare then
                              match declareSectors p (mt_ID meta) (mt_CanStore meta) true ix with
                              | None => None
                              | Some (ix, Some e) => Some (st, ix, OpenFailed e)
                              | Some (ix, None) => Some (finish ix)
                              end
                            else Some (finish ix)
                        end
                    end
           end
  end.

Definition ClosePath (id : string) st ix : Local * IX * option local_error :=
  if negb (bool_decide (is_Some (paths st !! id))) then (st, ix, Some NotOpen)
  else match ix_detach id url ix with
       | (ix, Some e) => (st, ix, Some (IndexFailed e))
       | (ix, None) => (remove_path st id, ix, None)
       end.

(** The first loop of [open]: all paths are opened, without declarations; each id
    is kept once, for the second loop. *)
Fixpoint open_all (ps : list string) (seen : list (string * string * bool)) st ix
    : option (Local * IX * result (list (string * string * bool)) local_error) :=
  match ps with
  | [] => Some (st, ix, Ok seen)
  | p :: ps =>
      match openPath p false st ix with
      | None => None
      | Some (st, ix, OpenFailed e) => Some (st, ix, Err e)
      | Some (st, ix, Opened id canStore) =>
          if bool_decide (id ∈ map (fun t => t.1.2) seen) then open_all ps seen st ix
          else open_all ps (seen ++ [(p, id, canStore)]) st ix
      end
  end.

(** The goroutines that declare, in the order in which they take place; the first
    error that was sent is returned. *)
Fixpoint declare_all (l : list (string * string * bool)) ix : option (IX * option local_error) :=
  match l with
  | [] => Some (ix, None)
  | (p, id, canStore) :: l =>
      match declareSectors p id canStore true ix with
      | None => None
      | Some (ix, e) =>
          match declare_all l ix with
          | None => None
          | Some (ix, e') => Some (ix, match e with Some _ => e | None => e' end)
          end
      end
  end.

(** [open], with [cfg] the configured paths. *)
Definition open_paths (cfg : option (list string)) st ix : option (Local * IX * option local_error) :=
  match cfg with
  | None => Some (st, ix, Some FileFailed)
  | Some ps =>
      match open_all ps [] st ix with
      | None => None
      | Some (st, ix, Err e) => Some (st, ix, Some e)
      | Some (st, ix, Ok l) =>
          match declare_all (enum l) ix with
          | None => None
          | Some (ix, e) => Some (st, ix, e)
          end
      end
  end.

(** The first loop of [Redeclare], under the lock. *)
Definition redeclare_collect st (filterId : option string) : option (list (string * string * FsStat)) :=
  mapM (fun '(id, ptr) =>
          match heap st !! ptr with
          | None => None
          | Some p => match stat fs_stat disk_usage p None with
                      | None => None
                      | Some (s, _) => Some (id, lp_Local p, s)
                      end
          end)
       (List.filter (fun '(id, _) => match filterId with Some f => bool_decide (f = id) | None => true end)
          (enum (map_to_list (paths st)))).

(** The second loop: attach and declare again; a path whose id changed on disk is
    left alone. *)
Fixpoint redeclare_loop (dropMissing : bool) (l : list (string * string * FsStat)) ix : option (IX * option local_error) :=
  match l with
  | [] => Some (ix, None)
  | (id, local, fst_) :: l =>
      match read_meta local with
      | None => Some (ix, Some FileFailed)
      | Some meta =>
          if negb (bool_decide (id = mt_ID meta)) then redeclare_loop dropMissing l ix
          else match ix_attach (info_of_meta id meta) fst_ ix with
               | (ix, Some e) => Some (ix, Some (IndexFailed e))
               | (ix, None) =>
                   match declareSectors local (mt_ID meta) (mt_CanStore meta) dropMissing ix with
                   | None => None
                   | Some (ix, Some e) => Some (ix, Some e)
                   | Some (ix, None) => redeclare_loop dropMissing l ix
                   end
               end
      end
  end.

Definition Redeclare (filterId : option string) (dropMissing : bool) st ix : option (IX * option local_error) :=
  match redeclare_collect st filterId with
  | None => Some (ix, Some StatFailed)
  | Some l => redeclare_loop dropMissing l ix
  end.

(** [reportStorage]: a failing [stat] reports an empty [FsStat]; errors of the
    index are only logged. *)
Definition zeroFsStat : FsStat := mkFsStat 0 0 0 0 0 0.

Definition reportStorage st ix : IX :=
  foldl (fun ix '(id, ptr) =>
           let s := match heap st !! ptr with
                    | Some p => match stat fs_stat disk_usage p None with Some (s, _) => s | None => zeroFsStat end
                    | None => zeroFsStat
                    end in
           (ix_health id s ix).1) ix (enum (map_to_list (paths st))).

(** ** Removing files *)

(** [bits.OnesCount(uint(typ)) != 1], for the types of a 64-bit word. *)
Definition one_bit (t : SectorFileType) : bool :=
  (length (List.filter (fun i => Z.testbit (u64 t) (Z.of_nat i)) (seq 0 64)) =? 1)%nat.

(** [removeSector]: what is removed from disk is added to [removed] (a failure to
    remove is only logged). *)
Definition removeSector (sid : SectorID) (typ : SectorFileType) (storage : string) st ix (removed : list string)
    : IX * list string * option local_error :=
  match lookup_path st storage with
  | None => (ix, removed, None)
  | Some p =>
      if bool_decide (lp_Local p = EmptyString) then (ix, removed, None)
      else match ix_drop storage sid typ ix with
           | (ix, Some e) => (ix, removed, Some (IndexFailed e))
           | (ix, None) => (reportStorage st ix, removed ++ [sectorPath p sid typ], None)
           end
  end.

Fixpoint remove_loop (sid : SectorID) (typ : SectorFileType) (l : list string) st ix (removed : list string)
    : IX * list string * option local_error :=
  match l with
  | [] => (ix, removed, None)
  | id :: l =>
      match removeSector sid typ id st ix removed with
      | (ix, removed, Some e) => (ix, removed, Some e)
      | (ix, removed, None) => remove_loop sid typ l st ix removed
      end
  end.

Definition Remove (sid : SectorID) (typ : SectorFileType) (force : bool) (keepIn : list string) st ix
    : IX * list string * option local_error :=
  if negb (one_bit typ) then (ix, [], Some OneFileType)
  else match ix_find sid typ 0 false ix with
       | (ix, Err e) => (ix, [], Some (IndexFailed e))
       | (ix, Ok si) =>
           if (length si =? 0)%nat && negb force then (ix, [], Some SectorNotFound)
           else remove_loop sid typ
                  (List.filter (fun id => negb (bool_decide (id ∈ keepIn))) (map ssi_ID si)) st ix []
       end.

Definition RemoveCopies (sid : SectorID) (typ : SectorFileType) st ix : IX * list string * option local_error :=
  if negb (one_bit typ) then (ix, [], Some OneFileType)
  else match ix_find sid typ 0 false ix with
       | (ix, Err e) => (ix, [], Some (IndexFailed e))
       | (ix, Ok si) =>
           if negb (existsb ssi_Primary si) then (ix, [], None)
           else remove_loop sid typ (map ssi_ID (List.filter (fun info => negb (ssi_Primary info)) si)) st ix []
       end.

(** ** Moving files to long-term storage *)

Variable move_ok : string -> string -> bool.

(** The loop of [MoveStorage]; [moves] are the files that were moved.  An unknown
    id is a panic of the index. *)
Fixpoint move_loop (sid : SectorID) (src srcIds dest destIds : SectorPaths) (fts : list SectorFileType) ix
    (moves : list (string * string)) : option (IX * list (string * string) * option local_error) :=
  match fts with
  | [] => Some (ix, moves, None)
  | ft :: fts =>
      let srcId := default EmptyString (PathByType srcIds ft) in
      let dstId := default EmptyString (PathByType destIds ft) in
      match ix_info srcId ix with
      | (_, None) => None
      | (ix, Some (Err e)) => Some (ix, moves, Some (IndexFailed e))
      | (ix, Some (Ok sst)) =>
          match ix_info dstId ix with
          | (_, None) => None
          | (ix, Some (Err e)) => Some (ix, moves, Some (IndexFailed e))
          | (ix, Some (Ok dst)) =>
              if bool_decide (si_ID sst = si_ID dst) then move_loop sid src srcIds dest destIds fts ix moves
              else if si_CanStore sst then move_loop sid src srcIds dest destIds fts ix moves
              else
                match ix_drop srcId sid ft ix with
                | (ix, Some e) => Some (ix, moves, Some (IndexFailed e))
                | (ix, None) =>
                    let from := default EmptyString (PathByType src ft) in
                    let to := default EmptyString (PathByType dest ft) in
                    if negb (move_ok from to) then Some (ix, moves, Some FileFailed)
                    else match ix_declare dstId sid ft true ix with
                         | (ix, Some e) => Some (ix, moves ++ [(from, to)], Some (IndexFailed e))
                         | (ix, None) => move_loop sid src srcIds dest destIds fts ix (moves ++ [(from, to)])
                         end
                end
          end
      end
  end.

Definition MoveStorage (sid : SectorID) (ssize : option Z) (types : SectorFileType) (into : option PathsWithIDs) st ix
    : option (IX * list (string * string) * option local_error) :=
  let '(ix, d) :=
    match into with
    | None => AcquireSector st sid ssize FTNone types PathStorage ix
    | Some pw => (ix, Ok (Paths pw, IDs pw))
    end in
  match d with
  | Err e => Some (ix, [], Some e)
  | Ok (dest, destIds) =>
      match AcquireSector st sid ssize types FTNone PathStorage ix with
      | (ix, Err e) => Some (ix, [], Some e)
      | (ix, Ok (src, srcIds)) =>
          match move_loop sid src srcIds dest destIds (AllSet types) ix [] with
          | None => None
          | Some (ix, moves, Some e) => Some (ix, moves, Some e)
          | Some (ix, moves, None) => Some (reportStorage st ix, moves, None)
          end
      end
  end.

(** ** Looking for a file without the index

    [ExistingLocalFile] takes the read lock; the result says whether it is still
    held on return. *)
Definition ExistingLocalFile (is_file : string -> bool) (sid : SectorID) (ft : SectorFileType) st : option string * bool :=
  let candidates := omap (fun '(id, ptr) =>
    match heap st !! ptr with
    | Some p => if bool_decide (lp_Local p = EmptyString) || negb (Allowed ft (lp_AllowTypes p) (lp_DenyTypes p)) then None
                else Some (sectorPath p sid ft)
    | None => None
    end) (enum (map_to_list (paths st))) in
  if (5 <=? length candidates)%nat then (None, true)
  else (List.find is_file candidates, false).

End LocalIndex.
