(* ===== verification/LocalIndexFacts.v ===== *)
(** * What local storage promises

    Against the interface of the index: the paths of a sector are well formed, the
    index agrees with the disk after a declaration, primary copies are never
    removed as copies. *)

From stdpp Require Import base gmap sets list strings sorting pretty.
From Stdlib Require Import ZArith Lia Ascii.
From S2P Require Import Prelude FileType SectorLocks GoStd Float64 StorageIndex StorageIndexFacts IndexDbLocks IndexInterface LocalStorage LocalIndex.

(** ** Records of paths *)

Lemma PathTypes_cases (P : SectorFileType -> Prop) :
  P FTUnsealed -> P FTSealed -> P FTCache -> P FTUpdate -> P FTUpdateCache -> P FTPiece -> P FTKey ->
  forall ft, ft ∈ PathTypes -> P ft.
Proof.
  intros H1 H2 H3 H4 H5 H6 H7 ft Hft.
  repeat (apply elem_of_cons in Hft as [->|Hft]; [assumption|]). by apply not_elem_of_nil in Hft.
Qed.

Lemma PathByType_set sps ft p : ft ∈ PathTypes -> PathByType (SetPathByType sps ft p) ft = Some p.
Proof. revert ft. apply PathTypes_cases; by destruct sps. Qed.

Lemma PathByType_set_ne sps ft ft' p : ft ∈ PathTypes -> ft' ∈ PathTypes -> ft <> ft' ->
  PathByType (SetPathByType sps ft p) ft' = PathByType sps ft'.
Proof.
  intros Hft Hft' Hne.
  repeat (apply elem_of_cons in Hft as [->|Hft]); try (by apply not_elem_of_nil in Hft);
    repeat (apply elem_of_cons in Hft' as [->|Hft']); try (by apply not_elem_of_nil in Hft'); by destruct sps.
Qed.

Lemma PathByType_zero ft : ft ∈ PathTypes -> PathByType zeroSectorPaths ft = Some EmptyString.
Proof. revert ft. by apply PathTypes_cases. Qed.

Lemma NoDup_PathTypes : NoDup PathTypes.
Proof. apply (bool_decide_unpack _). vm_compute. exact I. Qed.

(** Bits of the requests. *)
Lemma Has_Unset t ft ft' : ft ∈ PathTypes -> ft' ∈ PathTypes ->
  Has (Unset t ft) ft' = if bool_decide (ft = ft') then false else Has t ft'.
Proof.
  intros H1 H2. destruct (PathTypes_lookup ft H1) as (i & Hi & ->), (PathTypes_lookup ft' H2) as (j & Hj & ->).
  unfold Unset. rewrite !Has_single, Z.ldiff_spec, !Z.shiftl_1_l, Z.pow2_bits_eqb by lia.
  destruct (Z.eqb_spec i j) as [->|Hne].
  - rewrite bool_decide_eq_true_2 by done. cbn [negb]. by rewrite andb_false_r.
  - rewrite bool_decide_eq_false_2; [cbn [negb]; by rewrite andb_true_r|]. intros E. apply Hne.
    by apply (Z.pow_inj_r 2) in E; lia.
Qed.

Lemma Has_lxor t ft ft' : ft ∈ PathTypes -> ft' ∈ PathTypes -> Has t ft = true ->
  Has (Z.lxor t ft) ft' = if bool_decide (ft = ft') then false else Has t ft'.
Proof.
  intros H1 H2. destruct (PathTypes_lookup ft H1) as (i & Hi & ->), (PathTypes_lookup ft' H2) as (j & Hj & ->).
  rewrite !Has_single, Z.lxor_spec, !Z.shiftl_1_l, Z.pow2_bits_eqb by lia. intros Ht.
  destruct (Z.eqb_spec i j) as [->|Hne].
  - rewrite bool_decide_eq_true_2 by done. by rewrite Ht.
  - rewrite bool_decide_eq_false_2; [by rewrite xorb_false_r|]. intros E. apply Hne.
    by apply (Z.pow_inj_r 2) in E; lia.
Qed.

Lemma land_Has t ft : ft ∈ PathTypes -> (Z.land ft t =? 0) = negb (Has t ft).
Proof.
  intros H1. destruct (PathTypes_lookup ft H1) as (i & Hi & ->). by rewrite land_single_zero, Has_single by lia.
Qed.

Lemma Has_lor t t' ft : ft ∈ PathTypes -> Has (Z.lor t t') ft = Has t ft || Has t' ft.
Proof.
  intros H1. destruct (PathTypes_lookup ft H1) as (i & Hi & ->). by rewrite !Has_single, Z.lor_spec by lia.
Qed.

Section Facts.
Context {IX : Type} `{SectorIndex IX} `{Enum}.
Variable address_id : string -> option Z.

(** ** Acquired paths *)

Section Acquire.
Context (st : Local) (sid : SectorID) (pathType : string).

(** The chosen path of a type: none, or an open path and the file below it. *)
Definition slot_ok (out ids : SectorPaths) (ft : SectorFileType) : Prop :=
  (PathByType out ft = Some EmptyString /\ PathByType ids ft = Some EmptyString) \/
  (exists id p, PathByType ids ft = Some id /\ lookup_path st id = Some p /\ lp_Local p <> EmptyString /\
     PathByType out ft = Some (sectorPath p sid ft)).

(** The state of the loops: every slot is well formed, and a slot is filled as
    soon as its type is not asked for any more. *)
Record aq_ok (existing allocate : SectorFileType) (a : acquired) : Prop := {
  aq_slots : forall ft, ft ∈ PathTypes -> slot_ok (aq_out a) (aq_ids a) ft;
  aq_asked : forall ft, ft ∈ PathTypes -> PathByType (aq_ids a) ft <> Some EmptyString \/ PathByType (aq_out a) ft <> Some EmptyString ->
    Has existing ft = true \/ Has allocate ft = true;
  aq_left : forall ft, ft ∈ PathTypes -> Has allocate ft = true -> Has (aq_allocate a) ft = false ->
    PathByType (aq_out a) ft <> Some EmptyString;
  aq_sub : forall ft, ft ∈ PathTypes ->
    (Has (aq_existing a) ft = true -> Has existing ft = true) /\ (Has (aq_allocate a) ft = true -> Has allocate ft = true)
}.

Lemma sectorPath_nonempty p s ft : lp_Local p <> EmptyString -> sectorPath p s ft <> EmptyString.
Proof. unfold sectorPath. by destruct (lp_Local p). Qed.

Lemma choose_ok e0 a0 a ft id p e' a' :
  aq_ok e0 a0 a -> ft ∈ PathTypes -> Has e0 ft = true \/ Has a0 ft = true ->
  lookup_path st id = Some p -> lp_Local p <> EmptyString ->
  (forall ft', ft' ∈ PathTypes -> (Has e' ft' = true -> Has (aq_existing a) ft' = true) /\
     (Has a' ft' = true -> Has (aq_allocate a) ft' = true) /\
     (Has a' ft' = false -> ft' = ft \/ Has (aq_allocate a) ft' = false)) ->
  aq_ok e0 a0 (choose a ft (sectorPath p sid ft) id e' a').
Proof.
  intros [Hs Ha Hl Hsub] Hft Hreq Hp Hloc Hbits.
  split; cbn [choose aq_out aq_ids aq_existing aq_allocate]; intros ft' Hft'.
  - destruct (decide (ft = ft')) as [<-|Hne].
    + right. exists id, p. by rewrite !PathByType_set.
    + unfold slot_ok. rewrite !PathByType_set_ne by done. by apply Hs.
  - destruct (decide (ft = ft')) as [<-|Hne]; [done|]. rewrite !PathByType_set_ne by done. by apply Ha.
  - destruct (decide (ft = ft')) as [<-|Hne].
    + rewrite PathByType_set by done. intros _ _ [= E]. by eapply sectorPath_nonempty.
    + rewrite PathByType_set_ne by done. intros H1 H2. destruct (Hbits ft' Hft') as (_ & _ & [->|H3]); [done|done|by apply Hl].
  - destruct (Hbits ft' Hft') as (H1 & H2 & _), (Hsub ft' Hft'). auto.
Qed.

Lemma pick_existing_local allocate ft miner si id p :
  pick_existing address_id st pathType allocate ft miner si = Some (id, p) ->
  lookup_path st id = Some p /\ lp_Local p <> EmptyString.
Proof.
  induction si as [|info si IH]; cbn [pick_existing]; [done|].
  destruct (lookup_path st (ssi_ID info)) as [q|] eqn:Hq; [|done]. case_bool_decide as Hl; [done|].
  destruct (Has allocate ft); [|by intros [= <- <-]].
  destruct (allocPathOk _ _ _ _ _ _ _ _ _ _) as [[]|]; [by intros [= <- <-]|done|done].
Qed.

Lemma find_loop_ok e0 a0 ssize fts a ix :
  (forall ft, ft ∈ fts -> ft ∈ PathTypes) -> aq_ok e0 a0 a ->
  aq_ok e0 a0 (find_loop address_id st sid ssize pathType fts a ix).2.
Proof.
  revert a ix. induction fts as [|ft fts IH]; intros a ix Hfts Ha; cbn [find_loop]; [done|].
  assert (ft ∈ PathTypes) as Hft by (apply Hfts; left).
  assert (forall ft', ft' ∈ fts -> ft' ∈ PathTypes) as Hfts' by (intros; apply Hfts; by right).
  rewrite land_Has, Has_lor by done. destruct (Has (aq_existing a) ft || Has (aq_allocate a) ft) eqn:Hreq; cbn [negb]; [|by apply IH].
  destruct (ix_find sid ft ssize false ix) as [ix1 [si|e]]; [|by apply IH].
  destruct (pick_existing address_id st pathType (aq_allocate a) ft (Miner sid) si) as [[id p]|] eqn:Hp; [|by apply IH].
  apply pick_existing_local in Hp as [Hl Hne]. apply IH; [done|]. apply choose_ok; try done.
  - destruct (aq_sub _ _ _ Ha ft Hft). apply orb_true_iff in Hreq as [?|?]; auto.
  - intros ft' Hft'. rewrite !Has_Unset by done. case_bool_decide as E; [split_and!; try done; auto|]. split_and!; auto.
Qed.

Lemma sort_by_active_elem sis si rest : sort_by_active st sis = si :: rest -> si ∈ sis.
Proof.
  intros E. assert (si ∈ sort_by_active st sis) as Hin by (rewrite E; left). unfold sort_by_active in Hin.
  by rewrite SliceStable_perm in Hin.
Qed.

Lemma alloc_new_ok e0 a0 ssize fts a ix ix' a' :
  (forall ft, ft ∈ fts -> ft ∈ PathTypes) -> NoDup fts -> aq_ok e0 a0 a ->
  (forall ft, ft ∈ PathTypes -> ft ∉ fts -> Has (aq_allocate a) ft = false) ->
  alloc_new address_id st sid ssize pathType fts a ix = (ix', Ok a') ->
  aq_ok e0 a0 a' /\ forall ft, ft ∈ PathTypes -> Has (aq_allocate a') ft = false.
Proof.
  revert a ix. induction fts as [|ft fts IH]; intros a ix Hfts Hnd Ha Hdone; cbn [alloc_new].
  - intros [= _ <-]. split; [done|]. intros ft Hft. apply Hdone; [done|]. apply not_elem_of_nil.
  - assert (ft ∈ PathTypes) as Hft by (apply Hfts; left).
    assert (forall ft', ft' ∈ fts -> ft' ∈ PathTypes) as Hfts' by (intros; apply Hfts; by right).
    apply NoDup_cons in Hnd as [Hnin Hnd].
    rewrite land_Has by done. destruct (Has (aq_allocate a) ft) eqn:Hreq; cbn [negb].
    2: { apply IH; try done. intros ft' Hft' Hn. destruct (decide (ft' = ft)) as [->|]; [done|].
         apply Hdone; [done|]. by rewrite not_elem_of_cons. }
    destruct (ix_best ft ssize pathType (Miner sid) ix) as [ix1 [sis|e]]; [|done]. cbv zeta.
    destruct (sort_by_active st _) as [|si rest] eqn:Hs; [done|].
    destruct (lookup_path st (si_ID si)) as [p|] eqn:Hp; [|done].
    assert (lp_Local p <> EmptyString) as Hloc.
    { apply sort_by_active_elem in Hs. apply list_elem_of_In, filter_In in Hs as [_ Hc]. unfold alloc_candidate in Hc.
      rewrite Hp in Hc. by case_bool_decide. }
    apply IH; try done.
    + apply choose_ok; try done.
      * right. by apply (aq_sub _ _ _ Ha ft Hft).
      * intros ft' Hft'. rewrite Has_lxor by done. case_bool_decide as E; [subst; split_and!; auto|]. split_and!; auto.
    + intros ft' Hft' Hn. cbn [choose aq_allocate]. rewrite Has_lxor by done. case_bool_decide as E; [done|].
      apply Hdone; [done|]. rewrite not_elem_of_cons. split; [congruence|done].
Qed.

End Acquire.

(** C33: what [AcquireSector] returns is well formed: for every file type the path and the id
    are either both empty or an open local path and the file of the sector below
    it; types that were not asked for are empty, and every type to allocate has a
    path. *)
Theorem acquire_well_formed (st : Local) (sid : SectorID) (ssize : option Z) (existing allocate : SectorFileType)
    (pathType : string) (ix ix' : IX) (out ids : SectorPaths) (ft : SectorFileType) :
  AcquireSector address_id st sid ssize existing allocate pathType ix = (ix', Ok (out, ids)) -> ft ∈ PathTypes ->
  slot_ok st sid out ids ft /\
  (PathByType out ft <> Some EmptyString -> Has existing ft = true \/ Has allocate ft = true) /\
  (Has allocate ft = true -> PathByType out ft <> Some EmptyString).
Proof.
  intros E Hft. unfold AcquireSector in E. destruct (negb _); [done|]. destruct ssize as [n|]; [|done].
  destruct (find_loop address_id st sid n pathType PathTypes _ ix) as [ix1 a1] eqn:E1.
  assert (aq_ok st sid existing allocate a1) as H1.
  { change a1 with (ix1, a1).2. rewrite <- E1. apply find_loop_ok; [done|]. split; cbn; intros f Hf.
    - left. by rewrite PathByType_zero.
    - rewrite PathByType_zero by done. by intros [?|?].
    - congruence.
    - done. }
  destruct (alloc_new address_id st sid n pathType PathTypes a1 ix1) as [ix2 [a2|e]] eqn:E2; [|done].
  injection E as <- <- <-. apply (alloc_new_ok st sid pathType existing allocate) in E2 as [H2 Hall];
    [|done|apply NoDup_PathTypes|done|intros f Hf Hn; by destruct Hn].
  split; [by apply H2|]. split.
  - intros Hne. apply (aq_asked _ _ _ _ _ H2 ft Hft). by right.
  - intros Ha. apply (aq_left _ _ _ _ _ H2 ft Hft Ha). by apply Hall.
Qed.

(** ** The index and the disk *)

Section Declare.
Context `{!SectorIndexSpec IX}.
Variable read_dir : string -> SectorFileType -> dir.
Variable mkdir_ok : string -> SectorFileType -> bool.

(** The path has a file of the sector in the directory of the type. *)
Definition file_there (p : string) (ft : SectorFileType) (s : SectorID) : Prop :=
  exists names name, read_dir p ft = Entries names /\ name ∈ names /\ name <> FetchTempSubdir /\ ParseSectorID name = Ok s.

Lemma dir_decls_spec id primary t names ds : dir_decls id primary t names = Ok ds ->
  forall d, d ∈ ds <-> sd_StorageID d = id /\ sd_FileType d = t /\ sd_Primary d = primary /\
    exists name, name ∈ names /\ name <> FetchTempSubdir /\ ParseSectorID name = Ok (sd_SectorID d).
Proof.
  revert ds. induction names as [|name names IH]; intros ds; cbn [dir_decls].
  - intros [= <-] d. split; [by intros ?%not_elem_of_nil|]. by intros (_ & _ & _ & n & ?%not_elem_of_nil & _).
  - case_bool_decide as Hf.
    + intros E d. rewrite (IH ds E). setoid_rewrite elem_of_cons. subst name. split.
      * intros (? & ? & ? & n & ? & ? & ?). eauto 10.
      * intros (? & ? & ? & n & [->|?] & ? & ?); [done|eauto 10].
    + destruct (ParseSectorID name) as [s|] eqn:Hs; [|done]. destruct (dir_decls id primary t names) as [ds'|] eqn:E; [|done].
      intros [= <-] d. rewrite elem_of_cons, (IH ds' eq_refl). setoid_rewrite elem_of_cons. split.
      * intros [->|(H1 & H2 & H3 & n & Hn & Hnf & Hp)]; [cbn; eauto 10|eauto 10].
      * intros (H1 & H2 & H3 & n & [->|Hn] & Hnf & Hp); [left|right; eauto 10]. destruct d. cbn in *. congruence.
Qed.

Lemma disk_decls_spec p id primary ts ds : disk_decls read_dir mkdir_ok p id primary ts = Ok ds ->
  forall d, d ∈ ds <-> sd_StorageID d = id /\ sd_FileType d ∈ ts /\ sd_Primary d = primary /\
    file_there p (sd_FileType d) (sd_SectorID d).
Proof.
  unfold file_there. revert ds. induction ts as [|t ts IH]; intros ds; cbn [disk_decls].
  - intros [= <-] d. split; [by intros ?%not_elem_of_nil|]. by intros (_ & ?%not_elem_of_nil & _).
  - destruct (read_dir p t) as [names| |] eqn:Hd; [| |done].
    + destruct (dir_decls id primary t names) as [ds1|] eqn:E1; [|done].
      destruct (disk_decls read_dir mkdir_ok p id primary ts) as [ds2|] eqn:E2; [|done].
      intros [= <-] d. rewrite elem_of_app, (dir_decls_spec _ _ _ _ _ E1), (IH ds2 eq_refl), elem_of_cons. split.
      * intros [(H1 & H2 & H3 & n & Hn & Hnf & Hp)|(H1 & H2 & H3 & Hx)]; [|by eauto 10]. subst t. eauto 12.
      * intros (H1 & [->|H2] & H3 & nm & n & Hr & Hn & Hnf & Hp); [left|right; eauto 12].
        rewrite Hd in Hr. injection Hr as <-. eauto 10.
    + destruct (mkdir_ok p t); [|done]. intros E d. rewrite (IH ds E), elem_of_cons. split; [intros (?&?&?&?); auto|].
      intros (H1 & [->|H2] & H3 & Hx); [|auto]. destruct Hx as (nm & n & Hr & _). congruence.
Qed.

Lemma drop_all_known id l ix ix' : drop_all id l ix = (ix', None) ->
  forall k, ix_known ix' k <-> ix_known ix k /\ forall s ft, (s, ft) ∈ l -> k <> (s, ft, id).
Proof.
  revert ix. induction l as [|[s ft] l IH]; intros ix; cbn [drop_all].
  - intros [= <-] k. split; [|by intros []]. intros Hk. split; [done|]. by intros s ft ?%not_elem_of_nil.
  - destruct (ix_drop id s ft ix) as [ix1 [e|]] eqn:E1; [done|]. intros E k.
    rewrite (IH ix1 E k), (ix_drop_known _ _ _ _ _ E1). setoid_rewrite elem_of_cons. split.
    + intros [[Hk Hne] Hl]. split; [done|]. intros s' ft' [[= -> ->]|Hin]; [done|by apply Hl].
    + intros [Hk Hl]. split; [split; [done|]|]; [apply Hl; by left|]. intros s' ft' Hin. apply Hl. by right.
Qed.

(** a declaration brings the index in step with the disk: when
    [declareSectors] succeeds with [dropMissing], the index knows a file of the
    path exactly when its directory has an entry for it, and what it knows of other paths is
    unchanged. *)
Theorem declare_sync (p id : string) (primary : bool) (ix ix' : IX) :
  declareSectors read_dir mkdir_ok p id primary true ix = Some (ix', None) ->
  (forall s ft, ft ∈ PathTypes -> (ix_known ix' (s, ft, id) <-> file_there p ft s)) /\
  (forall k, k.2 <> id -> (ix_known ix' k <-> ix_known ix k)).
Proof.
  unfold declareSectors. destruct (ix_list id ix) as [ix1 [l|]] eqn:El; [|done].
  destruct (disk_decls read_dir mkdir_ok p id primary PathTypes) as [ds|] eqn:Ed; [|done].
  destruct (ix_batch ds ix1) as [[ix2 [e|]]|] eqn:Eb; [done| |done]. intros [= E].
  pose proof (ix_list_known _ _ _ _ El) as [Hl1 Hl2]. pose proof (ix_batch_known _ _ _ Eb) as Hb.
  pose proof (drop_all_known _ _ _ _ E) as Hd. pose proof (disk_decls_spec _ _ _ _ _ Ed) as Hds.
  assert (forall s ft, (s, ft) ∈ map decl_file ds <-> ft ∈ PathTypes /\ file_there p ft s) as Hfile.
  { intros s ft. rewrite list_elem_of_fmap. split.
    - intros (d & [= -> ->] & Hin). apply Hds in Hin as (_ & Ht & _ & Hf). done.
    - intros [Ht Hf]. exists (mkDeclaration id s ft primary). split; [done|]. by apply Hds. }
  split.
  - intros s ft Hft. rewrite Hd, Hb, Hl1. split.
    + intros [Hk Hm]. destruct (decide ((s, ft) ∈ map decl_file ds)) as [Hin|Hnin]; [by apply Hfile in Hin as [_ ?]|].
      exfalso. destruct Hk as [Hk|(d & Hdd & Hkey)].
      * destruct (Hl2 s ft Hft Hk) as (t & Ht & Hset). apply (Hm s ft); [|done].
        rewrite elem_of_enum, list_elem_of_In, filter_In, <- list_elem_of_In, bool_decide_eq_false_2 by done.
        split; [|done]. apply elem_of_remove_dups, list_elem_of_bind. exists (s, t). split; [|done].
        apply list_elem_of_fmap. by exists ft.
      * apply Hnin, list_elem_of_fmap. exists d. split; [|done]. unfold decl_file, decl_key in *. congruence.
    + intros Hf. split.
      * right. exists (mkDeclaration id s ft primary). split; [|done]. by apply Hds.
      * intros s' ft' Hin [= -> ->]. rewrite elem_of_enum, list_elem_of_In, filter_In in Hin. destruct Hin as [_ Hin].
        rewrite bool_decide_eq_true_2 in Hin; [done|]. by apply Hfile.
  - intros k Hne. rewrite Hd, Hb, Hl1. split.
    + intros [[Hk|(d & Hdd & <-)] _]; [done|]. apply Hds in Hdd as [Hid _]. by destruct Hne.
    + intros Hk. split; [by left|]. intros s ft _ ->. done.
Qed.

End Declare.

(** ** Removing copies *)

Section Copies.
Context `{!SectorIndexSpec IX}.
Variable fs_stat : string -> option FsStat.
Variable disk_usage : string -> usage.

Lemma reportStorage_known st ix k : ix_known (reportStorage fs_stat disk_usage st ix) k <-> ix_known ix k.
Proof.
  unfold reportStorage. generalize (enum (map_to_list (paths st))). intros l. revert ix.
  induction l as [|[id ptr] l IH]; intros ix; cbn [foldl]; [done|]. rewrite IH.
  destruct (ix_health id _ ix) as [ix1 e] eqn:E. cbn [fst]. by rewrite (ix_health_known _ _ _ _ _ E).
Qed.

(** The files below the paths of [l] that are open here. *)
Definition file_of (st : Local) (sid : SectorID) (typ : SectorFileType) (l : list string) (f : string) : Prop :=
  exists id p, id ∈ l /\ lookup_path st id = Some p /\ f = sectorPath p sid typ.

Lemma remove_loop_spec sid typ l st ix removed ix' removed' :
  remove_loop fs_stat disk_usage sid typ l st ix removed = (ix', removed', None) ->
  (forall k, ix_known ix' k -> ix_known ix k) /\
  (forall k, ix_known ix k -> (forall id, id ∈ l -> k <> (sid, typ, id)) -> ix_known ix' k) /\
  (forall f, f ∈ removed' -> f ∈ removed \/ file_of st sid typ l f).
Proof.
  revert ix removed. induction l as [|id l IH]; intros ix removed; cbn [remove_loop].
  - intros [= <- <-]. split_and!; auto.
  - destruct (removeSector fs_stat disk_usage sid typ id st ix removed) as [[ix1 rm1] [e|]] eqn:E1; [done|].
    intros E. destruct (IH ix1 rm1 E) as (H1 & H2 & H3).
    assert ((forall k, ix_known ix1 k -> ix_known ix k) /\ (forall k, ix_known ix k -> k <> (sid, typ, id) -> ix_known ix1 k) /\
            (forall f, f ∈ rm1 -> f ∈ removed \/ file_of st sid typ [id] f)) as (G1 & G2 & G3).
    { unfold removeSector in E1. destruct (lookup_path st id) as [p|] eqn:Hp; [|injection E1 as <- <-; auto].
      case_bool_decide; [injection E1 as <- <-; auto|]. destruct (ix_drop id sid typ ix) as [ix2 [e|]] eqn:E2; [done|].
      injection E1 as <- <-. pose proof (ix_drop_known _ _ _ _ _ E2) as Hd. setoid_rewrite reportStorage_known.
      setoid_rewrite Hd. split_and!; [by intros k []|done|].
      intros f [Hf|Hf%list_elem_of_singleton]%elem_of_app; [by left|]. right. exists id, p. split; [left|done]. }
    split_and!.
    + auto.
    + intros k Hk Hl. apply H2; [apply G2; [done|]; apply Hl; left|]. intros id' Hid. apply Hl. by right.
    + intros f Hf. apply H3 in Hf as [Hf|(i & p & Hi & Hp & ->)].
      * apply G3 in Hf as [Hf|(i & p & Hi%list_elem_of_singleton & Hp & ->)]; [by left|]. subst i. right. exists id, p. split; [left|done].
      * right. exists i, p. split; [by right|done].
Qed.

Lemma PathTypes_one_bit ft : ft ∈ PathTypes -> one_bit ft = true.
Proof. revert ft. apply PathTypes_cases; vm_compute; reflexivity. Qed.

(** [RemoveCopies] never removes a primary copy: after it succeeds the index still
    knows the file on every path where it was primary, nothing is removed when no
    copy is primary, and what is removed from disk is a copy that the index listed
    as not primary. *)
Theorem remove_copies_safe (sid : SectorID) (typ : SectorFileType) (st : Local) (ix ix' : IX) (removed : list string) :
  typ ∈ PathTypes -> RemoveCopies fs_stat disk_usage sid typ st ix = (ix', removed, None) ->
  exists ix1 si, ix_find sid typ 0 false ix = (ix1, Ok si) /\
    (forall info, info ∈ si -> ssi_Primary info = true -> ix_known ix' (sid, typ, ssi_ID info)) /\
    (existsb ssi_Primary si = false -> removed = [] /\ forall k, ix_known ix' k <-> ix_known ix k) /\
    (forall f, f ∈ removed -> exists info p, info ∈ si /\ ssi_Primary info = false /\
       lookup_path st (ssi_ID info) = Some p /\ f = sectorPath p sid typ).
Proof.
  intros Ht. unfold RemoveCopies. rewrite PathTypes_one_bit by done. cbn [negb].
  destruct (ix_find sid typ 0 false ix) as [ix1 [si|]] eqn:Ef; [|done]. intros E. exists ix1, si. split; [done|].
  pose proof (ix_find_known _ _ _ _ _ _ _ Ef) as Hk. pose proof (ix_find_nodup _ _ _ _ _ _ Ef) as Hnd.
  destruct (existsb ssi_Primary si) eqn:Hp; cbn [negb] in E.
  2: { injection E as <- <-. split_and!; [|done|by intros f ?%not_elem_of_nil].
       intros info Hi Hpi. rewrite (existsb_false_elem _ _ _ Hp Hi) in Hpi. done. }
  apply remove_loop_spec in E as (_ & H2 & H3). split_and!; [|done|].
  - intros info Hi Hpi. apply H2; [apply Hk; by eapply ix_find_holds|]. intros id Hid [= Heq].
    apply list_elem_of_fmap in Hid as (info' & -> & Hi'). apply list_elem_of_In, filter_In in Hi' as [Hi' Hp'].
    apply list_elem_of_In in Hi'. apply list_elem_of_lookup in Hi as [i Hi], Hi' as [j Hj].
    assert (i = j) as -> by (eapply NoDup_lookup; [exact Hnd| |]; rewrite list_lookup_fmap; [by rewrite Hi|rewrite Hj; cbn; by rewrite Heq]).
    rewrite Hi in Hj. injection Hj as ->. by rewrite Hpi in Hp'.
  - intros f Hf. apply H3 in Hf as [?%not_elem_of_nil|(id & p & Hid & Hlp & ->)]; [done|].
    apply list_elem_of_fmap in Hid as (info & -> & Hi). apply list_elem_of_In, filter_In in Hi as [Hi Hn].
    exists info, p. split; [by apply list_elem_of_In|]. by apply negb_true_iff in Hn.
Qed.

End Copies.

End Facts.

(** ** Examples

    A node with the paths of the example index, over the database index. *)

Definition li_path (local : string) (active : nat) : lpath :=
  mkLPath local 0 (Z.of_nat active * 10)
    (list_to_map (map (fun i => ((mkSectorID 1 (Z.of_nat i), FTSealed), 10)) (seq 0 active))) true [] [].

Definition li_local (active : string -> nat) : Local :=
  foldl (fun st id => add_path st id (li_path ("/data/" +:+ id) (active id))) (mkLocal ∅ ∅) ["p1"; "p2"; "p3"]%string.

#[local] Instance li_ix : SectorIndex DbIx := DbIx_index (fun _ => true) ex_url ex_addr.
#[local] Instance li_spec : SectorIndexSpec DbIx := DbIx_spec (fun _ => true) ex_url ex_addr.

Definition li_start : DbIx := mkDbIx ex_index 0 [].

(** A sector that is not in the index gets its files on the best path. *)
Lemma acquire_well_formed_witness :
  exists ix' out ids, AcquireSector ex_addr (li_local (fun _ => 0%nat)) (mkSectorID 1001 8) (Some 2048) FTNone
      (Z.lor FTSealed FTCache) PathSealing li_start = (ix', Ok (out, ids)) /\
    slot_ok (li_local (fun _ => 0%nat)) (mkSectorID 1001 8) out ids FTCache /\
    (PathByType out FTCache <> Some EmptyString -> Has FTNone FTCache = true \/ Has (Z.lor FTSealed FTCache) FTCache = true) /\
    (Has (Z.lor FTSealed FTCache) FTCache = true -> PathByType out FTCache <> Some EmptyString).
Proof.
  destruct (AcquireSector ex_addr (li_local (fun _ => 0%nat)) (mkSectorID 1001 8) (Some 2048) FTNone
      (Z.lor FTSealed FTCache) PathSealing li_start) as [ix' [[out ids]|e]] eqn:E.
  2: { exfalso. apply (f_equal snd) in E. vm_compute in E. discriminate E. }
  exists ix', out, ids. split; [done|].
  apply (acquire_well_formed ex_addr _ _ _ _ _ _ _ _ _ _ _ E). do 2 right. left.
Defined.

(** The sort by reservations looks at the wrong entries: with 1, 2 and 0 active
    reservations on the candidates, the first one is chosen. *)
Example busier_path_chosen :
  let st := li_local (fun id => if bool_decide (id = "p2"%string) then 1%nat else if bool_decide (id = "p3"%string) then 2%nat else 0%nat) in
  match AcquireSector ex_addr st (mkSectorID 1001 8) (Some 2048) FTNone FTSealed PathSealing
          (mkDbIx (mkIndex (storage_path ex_index) ∅) 0 []) with
  | (_, Ok (_, ids)) => PathByType ids FTSealed = Some "p2"%string
  | _ => False
  end.
Proof. vm_compute. reflexivity. Qed.

(** The directories of path "p1": the sealed files of two sectors, a fetch in
    progress and no cache. *)
Definition li_dir (p : string) (ft : SectorFileType) : dir :=
  if ft =? FTSealed then Entries ["s-t01001-7"; "fetching"; "s-t01001-9"]%string
  else if ft =? FTUpdate then NoDir else Entries [].

Lemma declare_sync_witness :
  exists ix', declareSectors li_dir (fun _ _ => true) "/data/p1" "p1" true true li_start = Some (ix', None) /\
    (forall s ft, ft ∈ PathTypes -> (ix_known ix' (s, ft, "p1"%string) <-> file_there li_dir "/data/p1" ft s)) /\
    (forall k, k.2 <> "p1"%string -> (ix_known ix' k <-> ix_known li_start k)).
Proof.
  destruct (declareSectors li_dir (fun _ _ => true) "/data/p1" "p1" true true li_start) as [[ix' e]|] eqn:E.
  2: { exfalso. vm_compute in E. discriminate E. }
  assert (e = None) as -> by (apply (f_equal (fmap snd)) in E; vm_compute in E; congruence).
  exists ix'. split; [done|].
  exact (declare_sync li_dir (fun _ _ => true) "/data/p1" "p1" true li_start ix' E).
Defined.

(** The cache of the example sector is on two paths; the copy on "p1" is declared
    primary, the other one is removed. *)
Definition li_copies : DbIx :=
  mkDbIx (StorageDeclareSector "p1" ex_sector FTCache true Applied ex_index).1 0 [].

Lemma remove_copies_safe_witness :
  exists ix', RemoveCopies (fun _ => None) (fun _ => NotExist) ex_sector FTCache (li_local (fun _ => 0%nat)) li_copies
      = (ix', ["/data/p2/cache/s-t01001-7"%string], None) /\
    exists ix1 si, ix_find ex_sector FTCache 0 false li_copies = (ix1, Ok si) /\
      (forall info, info ∈ si -> ssi_Primary info = true -> ix_known ix' (ex_sector, FTCache, ssi_ID info)).
Proof.
  destruct (RemoveCopies (fun _ => None) (fun _ => NotExist) ex_sector FTCache (li_local (fun _ => 0%nat)) li_copies) as [[ix' rm] e] eqn:E.
  assert (rm = ["/data/p2/cache/s-t01001-7"%string] /\ e = None) as [-> ->].
  { pose proof (f_equal (fun x => (x.1.2, x.2)) E) as E'. vm_compute in E'. by injection E' as <- <-. }
  exists ix'. split; [done|].
  destruct (remove_copies_safe (fun _ => None) (fun _ => NotExist) ex_sector FTCache (li_local (fun _ => 0%nat)) li_copies ix' _
    ltac:(right; right; left) E) as (ix1 & si & Hf & Hp & _). eauto.
Defined.

(** [ExistingLocalFile] returns with the read lock held when five paths qualify. *)
Example existing_file_keeps_lock :
  let st := foldl (fun st id => add_path st id (li_path ("/data/" +:+ id) 0)) (mkLocal ∅ ∅) ["a"; "b"; "c"; "d"; "e"]%string in
  ExistingLocalFile (fun _ => true) ex_sector FTSealed st = (None, true).
Proof. vm_compute. reflexivity. Qed.
