(* ===== verification/TaskStorage.v ===== *)
(** * Storage claims of tasks ([lib/ffi/task_storage.go])

    [TaskStorage] is the storage of a task type: whether the node could store the
    files of one more task, and the reservation of their space between the
    acceptance of a task and its end.  This file gives the engine's interface
    [StorageOps] its implementation on top of the local storage and the sector
    index. *)

From stdpp Require Import base gmap sets list strings sorting pretty.
From Stdlib Require Import ZArith Lia Ascii.
From S2P Require Import Prelude FileType SectorLocks GoStd Float64 HarmonyDB TaskEngine StorageIndex IndexInterface LocalStorage LocalFacts LocalIndex LocalIndexFacts.

(** [SectorRef] *)
Record SectorRef := mkSectorRef { sr_SpID : Z; sr_SectorNumber : Z; sr_RegSealProof : Z }.

Definition SectorRef_ID (sr : SectorRef) : SectorID := mkSectorID (u64 (sr_SpID sr)) (u64 (sr_SectorNumber sr)).

(** [TaskStorage] *)
Record TaskStorage := mkTaskStorage {
  tst_alloc : SectorFileType;
  tst_existing : SectorFileType;
  tst_ssize : Z;
  tst_pathType : string;
  tst_sectors : Z -> option (list SectorRef);        (* taskToSectorRef *)
  tst_MinFreeStoragePercentage : float64;
  tst_Overheads : SectorFileType -> Z
}.

(** [Storage] builds it for a task with one sector, with the sealing overheads
    ([FSOverheadSeal]; a missing entry of the map reads as zero). *)
Definition SealCalls_Storage (taskToSectorRef : Z -> option SectorRef) (alloc existing : SectorFileType) (ssize : Z)
    (pathType : string) (minFree : float64) : TaskStorage :=
  mkTaskStorage alloc existing ssize pathType
    (fun taskID => match taskToSectorRef taskID with Some sr => Some [sr] | None => None end)
    minFree (fun ft => default 0 (FSOverheadSeal ft)).

Inductive claim_error := NoSectorRef | LockFailed (e : index_error) | NotLocked | LockTimeout | StorageFailed (e : local_error).

(** [StorageReservation]; its [Release] is the release of the holds behind a
    [sync.Once], whose state is [sv_released]. *)
Record StorageReservation := mkReservation {
  sv_SectorRef : SectorRef;
  sv_holds : list hold;
  sv_released : bool;
  sv_Paths : SectorPaths;
  sv_PathIDs : SectorPaths;
  sv_Alloc : SectorFileType;
  sv_Existing : SectorFileType
}.

(** The [Once] has fired. *)
Definition set_released (r : StorageReservation) : StorageReservation :=
  mkReservation (sv_SectorRef r) (sv_holds r) true (sv_Paths r) (sv_PathIDs r) (sv_Alloc r) (sv_Existing r).

(** The storage of a node: its paths, the index, the reservation objects that
    claims have made, and [storageReservations], which points to them (an address
    is a position in [ns_res]: who took a pointer out of the map still has it when
    the entry is gone); the locks that claims have taken and that are given back
    when their context ends. *)
Record NodeStorage (IX : Type) := mkNode {
  ns_local : Local;
  ns_ix : IX;
  ns_res : list StorageReservation;
  ns_resv : gmap Z (list nat);
  ns_locks : list (string * SectorID * SectorFileType)
}.
Arguments mkNode {IX} ns_local ns_ix ns_res ns_resv ns_locks.
Arguments ns_local {IX} n.
Arguments ns_ix {IX} n.
Arguments ns_res {IX} n.
Arguments ns_resv {IX} n.
Arguments ns_locks {IX} n.

Section TaskStorage.
Context {IX : Type} `{SectorIndex IX} `{Enum}.
Variable fs_stat : string -> option FsStat.
Variable disk_usage : string -> usage.
Variable address_id : string -> option Z.
Variable sector_size : Z -> option Z.        (* RegisteredSealProof.SectorSize *)
Implicit Types (n : NodeStorage IX) (ix : IX) (t : TaskStorage).

(** [Local.Local]: the open paths, with their descriptions; [cached] are the ones
    that are recent enough not to be asked for.  [None] is a panic of the index. *)
Fixpoint local_infos (cached : string -> option StorageInfo) (st : Local) (l : list (string * nat)) ix
    : option (IX * result (list (string * StorageInfo)) index_error) :=
  match l with
  | [] => Some (ix, Ok [])
  | (id, ptr) :: l =>
      let skip := match heap st !! ptr with Some p => bool_decide (lp_Local p = EmptyString) | None => true end in
      if skip then local_infos cached st l ix
      else
        let asked :=
          match cached id with
          | Some si => Some (ix, Ok si)
          | None => match ix_info id ix with (_, None) => None | (ix, Some r) => Some (ix, r) end
          end in
        match asked with
        | None => None
        | Some (ix, Err e) => Some (ix, Err e)
        | Some (ix, Ok si) =>
            match local_infos cached st l ix with
            | None => None
            | Some (ix, Err e) => Some (ix, Err e)
            | Some (ix, Ok r) => Some (ix, Ok ((id, si) :: r))
            end
        end
  end.

Definition TaskStorage_HasCapacity t (cached : string -> option StorageInfo) n : option (IX * bool) :=
  match ix_best (tst_alloc t) (tst_ssize t) (tst_pathType t) NoMinerFilter (ns_ix n) with
  | (ix, Err _) => Some (ix, false)
  | (ix, Ok best) =>
      match local_infos cached (ns_local n) (enum (map_to_list (paths (ns_local n)))) ix with
      | None => None
      | Some (ix, Err _) => Some (ix, false)
      | Some (ix, Ok local) =>
          Some (ix, existsb (fun path =>
            negb (bool_decide (tst_pathType t = PathStorage) && negb (si_CanStore path)) &&
            negb (bool_decide (tst_pathType t = PathSealing) && negb (si_CanSeal path)) &&
            bool_decide (si_ID path ∈ map fst local)) best)
      end
  end.

Definition requestedTypes t : SectorFileType := Z.lor (tst_alloc t) (tst_existing t).

(** The loop that locks the sectors; [uuids] are the lock ids that are generated.
    The locks taken so far stay until the context of the claim ends. *)
Fixpoint lock_sectors t (uuids : list string) (refs : list SectorRef) ix (taken : list (string * SectorID * SectorFileType))
    : IX * list (string * SectorID * SectorFileType) * option claim_error :=
  match refs, uuids with
  | [], _ => (ix, taken, None)
  | _, [] => (ix, taken, Some LockTimeout)
  | sr :: refs, u :: uuids =>
      match ix_trylock u (SectorRef_ID sr) FTNone (requestedTypes t) ix with
      | (ix, Err e) => (ix, taken, Some (LockFailed e))
      | (ix, Ok false) => (ix, taken, Some NotLocked)
      | (ix, Ok true) => lock_sectors t uuids refs ix (taken ++ [(u, SectorRef_ID sr, requestedTypes t)])
      end
  end.

(** The loop that reserves; on an error [cleanup] calls the release functions of
    the holds themselves, oldest first. *)
Fixpoint reserve_sectors t (refs : list SectorRef) (st : Local) ix (resvs : list StorageReservation)
    : Local * IX * result (list StorageReservation) claim_error :=
  match refs with
  | [] => (st, ix, Ok resvs)
  | sr :: refs =>
      match AcquireSector address_id st (SectorRef_ID sr) (sector_size (sr_RegSealProof sr)) FTNone (requestedTypes t) (tst_pathType t) ix with
      | (ix, Err e) => (foldl release st (map sv_holds resvs), ix, Err (StorageFailed e))
      | (ix, Ok (pathsFs, pathIDs)) =>
          match Reserve fs_stat disk_usage st (SectorRef_ID sr) (sector_size (sr_RegSealProof sr)) (requestedTypes t)
                  pathIDs (tst_Overheads t) (tst_MinFreeStoragePercentage t) with
          | (st, Err e) => (foldl release st (map sv_holds resvs), ix, Err (StorageFailed e))
          | (st, Ok hs) =>
              reserve_sectors t refs st ix (resvs ++ [mkReservation sr hs false pathsFs pathIDs (tst_alloc t) (tst_existing t)])
          end
      end
  end.

(** [Claim]; [expired] says that the timer of the locks fired before all were
    taken. *)
Definition TaskStorage_Claim t (taskID : Z) (uuids : list string) (expired : bool) n : NodeStorage IX * option claim_error :=
  match tst_sectors t taskID with
  | None => (n, Some NoSectorRef)
  | Some refs =>
      match lock_sectors t uuids refs (ns_ix n) [] with
      | (ix, taken, Some e) => (mkNode (ns_local n) ix (ns_res n) (ns_resv n) (ns_locks n ++ taken), Some e)
      | (ix, taken, None) =>
          if expired then (mkNode (ns_local n) ix (ns_res n) (ns_resv n) (ns_locks n ++ taken), Some LockTimeout)
          else match reserve_sectors t refs (ns_local n) ix [] with
               | (st, ix, Err e) => (mkNode st ix (ns_res n) (ns_resv n) (ns_locks n ++ taken), Some e)
               | (st, ix, Ok resvs) =>
                   (mkNode st ix (ns_res n ++ resvs) (<[taskID := seq (length (ns_res n)) (length resvs)]> (ns_resv n))
                      (ns_locks n ++ taken), None)
               end
      end
  end.

(** [releaseFunc] of the reservation at an address: [releaseOnce.Do(release)].
    It is called by [markComplete], and before that by the task itself, when it is
    done with the paths that it has acquired. *)
Definition releaseFunc n (i : nat) : NodeStorage IX :=
  match ns_res n !! i with
  | None => n
  | Some r =>
      if sv_released r then n
      else mkNode (release (ns_local n) (sv_holds r)) (ns_ix n) (<[i := set_released r]> (ns_res n)) (ns_resv n) (ns_locks n)
  end.

(** The reservation that [AcquireSector] of a task uses for a sector, if the task
    has one, and whether it has the file types that are asked for. *)
Definition find_reservation (taskID : Z) (sid : SectorID) (existing allocate : SectorFileType) n : option (nat * bool) :=
  match ns_resv n !! taskID with
  | None => None
  | Some l =>
      match List.find (fun i => match ns_res n !! i with Some r => bool_decide (SectorRef_ID (sv_SectorRef r) = sid) | None => false end) l with
      | None => None
      | Some i =>
          match ns_res n !! i with
          | Some r => Some (i, (sv_Alloc r =? allocate) && (sv_Existing r =? existing))
          | None => None
          end
      end
  end.

(** [markComplete]; [false] is the error that there is no reservation. *)
Definition markComplete (taskID : Z) n : NodeStorage IX * bool :=
  match ns_resv n !! taskID with
  | None => (n, false)
  | Some sres =>
      (foldl releaseFunc (mkNode (ns_local n) (ns_ix n) (ns_res n) (delete taskID (ns_resv n)) (ns_locks n)) sres, true)
  end.

(** The goroutines of [StorageTryLock]: the context is done, the locks go. *)
Definition end_locks n : NodeStorage IX :=
  mkNode (ns_local n) (foldl (fun ix '(u, s, w) => ix_unlock u s FTNone w ix) (ns_ix n) (ns_locks n)) (ns_res n) (ns_resv n) [].

(** ** Claims keep the books *)

(** The holds of the reservations that were not released. *)
Definition live (r : StorageReservation) : list hold := if sv_released r then [] else sv_holds r.

Definition live_holds (l : list StorageReservation) : list hold := concat (map live l).

Lemma live_holds_app l k : live_holds (l ++ k) = live_holds l ++ live_holds k.
Proof. unfold live_holds. by rewrite map_app, concat_app. Qed.

Lemma live_holds_insert l i r : l !! i = Some r ->
  live_holds l ≡ₚ live r ++ live_holds (<[i := set_released r]> l).
Proof.
  intros E. rewrite insert_take_drop by (by eapply lookup_lt_Some). rewrite <- (take_drop_middle l i r E) at 1.
  rewrite !live_holds_app. cbn [live_holds map concat app live set_released sv_released]. fold (live r).
  rewrite !app_assoc. apply Permutation_app_tail, Permutation_app_comm.
Qed.

Lemma foldl_release st resvs : foldl release st resvs = release st (concat resvs).
Proof.
  revert st. induction resvs as [|hs resvs IH]; intros st; [done|]. cbn [foldl concat]. rewrite IH.
  unfold release. by rewrite foldl_app.
Qed.

Definition unreleased (l : list StorageReservation) : Prop := Forall (fun r => sv_released r = false) l.

Lemma live_unreleased l : unreleased l -> live_holds l = concat (map sv_holds l).
Proof.
  induction 1 as [|r l Hr _ IH]; [done|]. unfold live_holds in *. cbn [map concat]. rewrite IH. unfold live. by rewrite Hr.
Qed.

Lemma reserve_sectors_accounts t refs st ix resvs out :
  unreleased resvs -> accounts st (concat (map sv_holds resvs) ++ out) ->
  let '(st', ix', r) := reserve_sectors t refs st ix resvs in
  match r with
  | Ok rs => unreleased rs /\ accounts st' (concat (map sv_holds rs) ++ out)
  | Err _ => accounts st' out
  end.
Proof.
  revert st ix resvs. induction refs as [|sr refs IH]; intros st ix resvs Hu Ha; cbn [reserve_sectors]; [done|].
  destruct (AcquireSector _ _ _ _ _ _ _ _) as [ix1 [[out1 ids]|e]].
  2: { rewrite foldl_release. by apply release_accounts. }
  unfold Reserve. destruct (sector_size (sr_RegSealProof sr)) as [sz|].
  2: { rewrite foldl_release. by apply release_accounts. }
  pose proof (reserve_loop_accounts fs_stat disk_usage (AllSet (requestedTypes t)) st (SectorRef_ID sr) sz ids
                (tst_Overheads t) (tst_MinFreeStoragePercentage t) [] (concat (map sv_holds resvs) ++ out) Ha) as Hr.
  destruct (reserve_loop _ _ _ _ _ _ _ _ _ _) as [st1 [hs|e]].
  - destruct Hr as [Hr _]. apply IH; [by apply Forall_app_2; [|by repeat constructor]|].
    eapply accounts_perm; [|exact Hr]. rewrite map_app, concat_app. cbn [map concat sv_holds].
    rewrite app_nil_r, !app_assoc. apply Permutation_app_tail, Permutation_app_comm.
  - rewrite foldl_release. by apply release_accounts.
Qed.

(** The books of a node: what is reserved on its paths is what the reservations of
    its claims hold that were not released, and what [other] reservations hold,
    those that were made without a claim. *)
Definition node_ok (other : list hold) n : Prop := accounts (ns_local n) (live_holds (ns_res n) ++ other).

Lemma claim_ok other t taskID uuids expired n n' e : node_ok other n ->
  TaskStorage_Claim t taskID uuids expired n = (n', e) ->
  node_ok other n' /\ (is_Some e -> ns_res n' = ns_res n /\ ns_resv n' = ns_resv n) /\
  (e = None -> exists rs, ns_res n' = ns_res n ++ rs /\
     ns_resv n' = <[taskID := seq (length (ns_res n)) (length rs)]> (ns_resv n)).
Proof.
  intros Ha. unfold TaskStorage_Claim. destruct (tst_sectors t taskID) as [refs|]; [|intros [= <- <-]; by split_and!].
  destruct (lock_sectors t uuids refs (ns_ix n) []) as [[ix taken] [e1|]]; [intros [= <- <-]; by split_and!|].
  destruct expired; [intros [= <- <-]; by split_and!|].
  pose proof (reserve_sectors_accounts t refs (ns_local n) ix [] (live_holds (ns_res n) ++ other) (Forall_nil_2 _) Ha) as Hr.
  destruct (reserve_sectors t refs (ns_local n) ix []) as [[st ix1] [rs|e1]]; intros [= <- <-]; split_and!; try done.
  - destruct Hr as [Hu Hr]. unfold node_ok. cbn [ns_local ns_res]. eapply accounts_perm; [|exact Hr].
    rewrite live_holds_app, (live_unreleased rs Hu), app_assoc. apply Permutation_app_tail, Permutation_app_comm.
  - intros _. by exists rs.
Qed.

(** ** Releasing *)

Lemma releaseFunc_ok other n i : node_ok other n -> node_ok other (releaseFunc n i).
Proof.
  intros Ha. unfold releaseFunc. destruct (ns_res n !! i) as [r|] eqn:Hr; [|done].
  destruct (sv_released r) eqn:Hb; [done|]. unfold node_ok in *. cbn [ns_local ns_res]. apply release_accounts.
  eapply accounts_perm; [|exact Ha]. rewrite app_assoc. apply Permutation_app_tail.
  rewrite (live_holds_insert _ _ _ Hr). unfold live. by rewrite Hb.
Qed.

Lemma releaseFunc_res n i : ns_res (releaseFunc n i) = alter set_released i (ns_res n) /\ ns_resv (releaseFunc n i) = ns_resv n.
Proof.
  unfold releaseFunc. destruct (ns_res n !! i) as [r|] eqn:Hr; [destruct (sv_released r) eqn:Hb|]; split; try done;
    cbn [ns_res]; apply list_eq; intros j; (destruct (decide (i = j)) as [<-|Hj]; [|by rewrite ?list_lookup_insert_ne, ?list_lookup_alter_ne]);
    rewrite list_lookup_alter_eq, Hr; cbn [fmap option_fmap option_map].
  - destruct r. unfold set_released. cbn in *. by rewrite Hb.
  - rewrite list_lookup_insert_eq; [done|by eapply lookup_lt_Some].
  - done.
Qed.

(** After a sequence of releases exactly the reservations in it have fired. *)
Lemma releases_res own n j :
  ns_resv (foldl releaseFunc n own) = ns_resv n /\
  ns_res (foldl releaseFunc n own) !! j = if bool_decide (j ∈ own) then set_released <$> ns_res n !! j else ns_res n !! j.
Proof.
  revert n. induction own as [|i own IH]; intros n; cbn [foldl]; [by rewrite bool_decide_false by (by intros ?%elem_of_nil)|].
  destruct (IH (releaseFunc n i)) as [-> ->]. destruct (releaseFunc_res n i) as [-> ->]. split; [done|].
  destruct (decide (i = j)) as [<-|Hj].
  - rewrite list_lookup_alter_eq, (bool_decide_true (i ∈ i :: own)) by left.
    case_bool_decide; [|done]. by destruct (ns_res n !! i).
  - rewrite list_lookup_alter_ne by done. rewrite (bool_decide_ext (j ∈ i :: own) (j ∈ own)); [done|].
    rewrite elem_of_cons. split; [by intros [->|]|by right].
Qed.

Lemma releases_ok other own n : node_ok other n -> node_ok other (foldl releaseFunc n own).
Proof. revert n. induction own as [|i own IH]; intros n Ha; cbn [foldl]; [done|]. by apply IH, releaseFunc_ok. Qed.

Lemma release_again n i r : ns_res n !! i = Some r -> sv_released r = true -> releaseFunc n i = n.
Proof. intros Hr Hb. unfold releaseFunc. by rewrite Hr, Hb. Qed.

Lemma releases_again n own : (forall i, i ∈ own -> exists r, ns_res n !! i = Some r /\ sv_released r = true) ->
  foldl releaseFunc n own = n.
Proof.
  induction own as [|i own IH]; intros Hall; cbn [foldl]; [done|].
  destruct (Hall i) as (r & Hr & Hb); [left|]. rewrite (release_again n i r Hr Hb). apply IH. intros k Hk. apply Hall. by right.
Qed.

(** When all of the last reservations have fired, and no other, the others hold what
    they held. *)
Lemma releases_tail l l' (rs : list StorageReservation) :
  (forall j, l' !! j = if bool_decide (j ∈ seq (length l) (length rs)) then set_released <$> (l ++ rs) !! j else (l ++ rs) !! j) ->
  l' = l ++ map set_released rs /\ live_holds l' = live_holds l.
Proof.
  intros Hl. assert (l' = l ++ map set_released rs) as ->.
  { apply list_eq. intros j. rewrite Hl. destruct (decide (j < length l)%nat).
    - rewrite bool_decide_false by (rewrite elem_of_seq; lia). by rewrite !lookup_app_l.
    - rewrite !lookup_app_r by lia. change (map set_released rs) with (set_released <$> rs). rewrite list_lookup_fmap.
      case_bool_decide as Hj; [done|]. rewrite elem_of_seq in Hj. by rewrite (lookup_ge_None_2 rs) by lia. }
  split; [done|]. rewrite live_holds_app.
  assert (live_holds (map set_released rs) = []) as ->; [|by rewrite app_nil_r].
  clear Hl. unfold live_holds. rewrite map_map. by induction rs.
Qed.

(** The bytes reserved on a path object. *)
Definition reserved_on n (ptr : nat) : option Z := lp_Reserved <$> heap (ns_local n) !! ptr.

Lemma release_dom st hs : dom (heap (release st hs)) = dom (heap st).
Proof.
  unfold release. revert st. induction hs as [|h hs IH]; intros st; cbn [foldl]; [done|]. rewrite IH. apply dom_alter_L.
Qed.

Lemma reserve_loop_dom fts st sid sz ids tab mf held :
  dom (heap (reserve_loop fs_stat disk_usage st sid sz ids tab mf fts held).1) = dom (heap st).
Proof.
  revert st held. induction fts as [|ft fts IH]; intros st held; cbn [reserve_loop]; [done|].
  destruct (reserve_check _ _ _ _ _ _ _ _ _) as [h|e]; [|apply release_dom]. rewrite IH. apply dom_alter_L.
Qed.

Lemma reserve_sectors_dom t refs st ix resvs : dom (heap (reserve_sectors t refs st ix resvs).1.1) = dom (heap st).
Proof.
  revert st ix resvs. induction refs as [|sr refs IH]; intros st ix resvs; cbn [reserve_sectors]; [done|].
  destruct (AcquireSector _ _ _ _ _ _ _ _) as [ix1 [[out1 ids]|e]]; [|cbn [fst]; rewrite foldl_release; apply release_dom].
  unfold Reserve. destruct (sector_size (sr_RegSealProof sr)) as [sz|]; [|cbn [fst]; rewrite foldl_release; apply release_dom].
  pose proof (reserve_loop_dom (AllSet (requestedTypes t)) st (SectorRef_ID sr) sz ids (tst_Overheads t)
                (tst_MinFreeStoragePercentage t) []) as Hd.
  destruct (reserve_loop _ _ _ _ _ _ _ _ _ _) as [st1 [hs|e]]; cbn [fst] in Hd.
  - by rewrite IH.
  - cbn [fst]. by rewrite foldl_release, release_dom.
Qed.

Lemma claim_dom t taskID uuids expired n :
  dom (heap (ns_local (TaskStorage_Claim t taskID uuids expired n).1)) = dom (heap (ns_local n)).
Proof.
  unfold TaskStorage_Claim. destruct (tst_sectors t taskID) as [refs|]; [|done].
  destruct (lock_sectors t uuids refs (ns_ix n) []) as [[ix taken] [e1|]]; [done|]. destruct expired; [done|].
  pose proof (reserve_sectors_dom t refs (ns_local n) ix []) as Hd.
  destruct (reserve_sectors t refs (ns_local n) ix []) as [[st ix1] [rs|e1]]; exact Hd.
Qed.

Lemma releases_dom own n : dom (heap (ns_local (foldl releaseFunc n own))) = dom (heap (ns_local n)).
Proof.
  revert n. induction own as [|i own IH]; intros n; cbn [foldl]; [done|]. rewrite IH. unfold releaseFunc.
  destruct (ns_res n !! i) as [r|]; [|done]. destruct (sv_released r); [done|]. apply release_dom.
Qed.

(** Two states that owe the same and have the same paths have reserved the same. *)
Lemma reserved_same other n n' : node_ok other n -> node_ok other n' -> live_holds (ns_res n') = live_holds (ns_res n) ->
  dom (heap (ns_local n')) = dom (heap (ns_local n)) -> forall ptr, reserved_on n' ptr = reserved_on n ptr.
Proof.
  intros H1 H2 Hp Hd ptr. unfold reserved_on.
  destruct (heap (ns_local n') !! ptr) as [p'|] eqn:E', (heap (ns_local n) !! ptr) as [p|] eqn:E; cbn.
  - f_equal. rewrite (ac_reserved _ _ H1 ptr p E), (ac_reserved _ _ H2 ptr p' E'). by rewrite Hp.
  - apply elem_of_dom_2 in E'. rewrite Hd in E'. by apply not_elem_of_dom in E.
  - apply elem_of_dom_2 in E. rewrite <- Hd in E. by apply not_elem_of_dom in E'.
  - done.
Qed.

(** The end of a claim, whatever of it was released before. *)
Lemma claim_completed other n n' taskID rs early : node_ok other n -> node_ok other n' ->
  dom (heap (ns_local n')) = dom (heap (ns_local n)) -> ns_res n' = ns_res n ++ rs ->
  let own := seq (length (ns_res n)) (length rs) in
  ns_resv n' = <[taskID := own]> (ns_resv n) -> Forall (.∈ own) early ->
  exists n'', markComplete taskID (foldl releaseFunc n' early) = (n'', true) /\ node_ok other n'' /\
    (forall ptr, reserved_on n'' ptr = reserved_on n ptr) /\ ns_resv n'' = delete taskID (ns_resv n) /\
    (forall late, Forall (.∈ own) late -> foldl releaseFunc n'' late = n'').
Proof.
  intros Ha Ha' Hd Hr own Hm He. set (n1 := foldl releaseFunc n' early).
  assert (ns_resv n1 = <[taskID := own]> (ns_resv n)) as Hm1 by (rewrite <- Hm; exact (proj1 (releases_res early n' 0%nat))).
  unfold markComplete. rewrite Hm1, lookup_insert_eq, delete_insert_eq.
  set (n2 := mkNode (ns_local n1) (ns_ix n1) (ns_res n1) (delete taskID (ns_resv n)) (ns_locks n1)).
  set (n3 := foldl releaseFunc n2 own). exists n3. split; [done|].
  assert (node_ok other n3) as Ha3 by (apply releases_ok; change (node_ok other n1); by apply releases_ok).
  assert (ns_res n3 = ns_res n ++ map set_released rs /\ live_holds (ns_res n3) = live_holds (ns_res n)) as [Hr3 Hl3].
  { apply releases_tail. fold own. intros j. unfold n3. rewrite (proj2 (releases_res own n2 j)). cbn [n2 ns_res].
    unfold n1. rewrite (proj2 (releases_res early n' j)), Hr. destruct (decide (j ∈ own)) as [Hj|Hj].
    - rewrite !(bool_decide_true (j ∈ own)) by done. case_bool_decide; [|done]. by destruct ((ns_res n ++ rs) !! j).
    - rewrite !(bool_decide_false (j ∈ own)) by done. rewrite bool_decide_false; [done|]. intros Hx.
      rewrite Forall_forall in He. by apply Hj, He. }
  split; [done|]. split; [|split; [exact (proj1 (releases_res own n2 0%nat))|]].
  - intros ptr. apply (reserved_same other); try done. unfold n3. rewrite releases_dom. cbn [n2 ns_local].
    unfold n1. by rewrite releases_dom.
  - intros late Hlate. apply releases_again. intros i Hi. rewrite Forall_forall in Hlate. apply Hlate, elem_of_seq in Hi.
    rewrite Hr3, lookup_app_r by lia. change (map set_released rs) with (set_released <$> rs). rewrite list_lookup_fmap.
    destruct (lookup_lt_is_Some_2 rs (i - length (ns_res n))) as [r ->]; [lia|]. by eexists.
Qed.

(** C32: a claim is undone exactly.  The node's books are in order: what is reserved on its
    paths is what the unreleased reservations of its claims and any [other] reservations
    hold.  A [Claim] that fails, at whatever sector and file type, leaves the bytes
    reserved on every path and all reservations as they were.  A [Claim] that succeeds
    stores its [own] reservations under the task; the task may release any of them [early],
    any number of times, before [markComplete]: then [markComplete] finds them, the bytes
    on every path are again what they were before the claim, releases that
    come [late] change nothing, and a second [markComplete] is refused.  Between the claim and
    [markComplete] the theorem has no other task change the storage of the node. *)
Theorem claim_undone (other : list hold) (t : TaskStorage) (taskID : Z) (uuids : list string) (expired : bool)
    (n n' : NodeStorage IX) (e : option claim_error) :
  node_ok other n -> TaskStorage_Claim t taskID uuids expired n = (n', e) ->
  match e with
  | Some _ => node_ok other n' /\ ns_res n' = ns_res n /\ ns_resv n' = ns_resv n /\
      forall ptr, reserved_on n' ptr = reserved_on n ptr
  | None => exists own, ns_resv n' !! taskID = Some own /\ forall early, Forall (.∈ own) early ->
      exists n'', markComplete taskID (foldl releaseFunc n' early) = (n'', true) /\ node_ok other n'' /\
        (forall ptr, reserved_on n'' ptr = reserved_on n ptr) /\
        (forall late, Forall (.∈ own) late -> foldl releaseFunc n'' late = n'') /\
        markComplete taskID n'' = (n'', false)
  end.
Proof.
  intros Ha E. pose proof (claim_ok _ _ _ _ _ _ _ _ Ha E) as (Ha' & H1 & H2).
  pose proof (claim_dom t taskID uuids expired n) as Hd. rewrite E in Hd. cbn [fst] in Hd.
  destruct e as [e|].
  - destruct H1 as [H1 H3]; [done|]. split_and!; try done. intros ptr. apply (reserved_same other); try done. by rewrite H1.
  - destruct (H2 eq_refl) as (rs & Hr & Hm). eexists. split; [rewrite Hm; apply lookup_insert_eq|]. intros early He.
    destruct (claim_completed other n n' taskID rs early Ha Ha' Hd Hr Hm He) as (n'' & Hc & Ha'' & Hp & Hm'' & Hl).
    exists n''. split_and!; try done. unfold markComplete. by rewrite Hm'', lookup_delete_eq.
Qed.

End TaskStorage.

(** ** The engine's view

    What the engine relies on: a claim that is released leaves no trace. *)
Class StorageLaws (ST : Type) `{StorageOps ST} := {
  st_ok : ST -> Prop;
  st_free : ST -> Z -> Prop;               (* the task has no claim *)
  st_reserved : ST -> nat -> option Z;
  st_claim_ok : forall s name id s', st_ok s -> st_free s id -> Claim s name id = Some s' -> st_ok s';
  st_release_ok : forall s name id, st_ok s -> st_ok (Release s name id);
  st_claim_release : forall s name id s', st_ok s -> st_free s id -> Claim s name id = Some s' ->
    st_free (Release s' name id) id /\ forall ptr, st_reserved (Release s' name id) ptr = st_reserved s ptr
}.

Section Engine.
Context {IX : Type} `{SectorIndex IX} `{Enum}.
Variable fs_stat : string -> option FsStat.
Variable disk_usage : string -> usage.
Variable address_id : string -> option Z.
Variable sector_size : Z -> option Z.
Variable types : string -> option TaskStorage.       (* the storage of each task type *)
Variable cached : string -> option StorageInfo.
Variable uuids : Z -> list string.

(** The storage of a node as the engine sees it: the locks of a claim end when it
    returns, and a claim that fails is only seen as refused. *)
#[export] Instance NodeStorage_ops : StorageOps (NodeStorage IX) := {
  HasCapacity n name :=
    match types name with
    | Some t => match TaskStorage_HasCapacity t cached n with Some (_, b) => b | None => false end
    | None => false
    end;
  Claim n name id :=
    match types name with
    | Some t =>
        match TaskStorage_Claim fs_stat disk_usage address_id sector_size t id (uuids id) false n with
        | (n', None) => Some (end_locks n')
        | (_, Some _) => None
        end
    | None => None
    end;
  Release n name id := (markComplete id n).1
}.

#[export] Instance NodeStorage_laws : StorageLaws (NodeStorage IX).
Proof.
  refine {| st_ok n := exists other, node_ok other n; st_free n id := ns_resv n !! id = None; st_reserved := reserved_on |}; cbn.
  - intros n name id n' [other Hok] Hfree. destruct (types name) as [t|]; [|done].
    destruct (TaskStorage_Claim _ _ _ _ t id (uuids id) false n) as [n1 [e|]] eqn:E; [done|]. intros [= <-].
    apply (claim_ok _ _ _ _ _ _ _ _ _ _ _ _ Hok) in E as [Hok' _]. by exists other.
  - intros n name id [other Hok]. exists other. unfold markComplete. destruct (ns_resv n !! id); [|done]. by apply releases_ok.
  - intros n name id n' [other Hok] Hfree. destruct (types name) as [t|]; [|done].
    destruct (TaskStorage_Claim _ _ _ _ t id (uuids id) false n) as [n1 [e|]] eqn:E; [done|]. intros [= <-].
    pose proof (claim_ok _ _ _ _ _ _ _ _ _ _ _ _ Hok E) as (Hok' & _ & (rs & Hr & Hm)); [done|].
    pose proof (claim_dom fs_stat disk_usage address_id sector_size t id (uuids id) false n) as Hd.
    rewrite E in Hd. cbn [fst] in Hd.
    destruct (claim_completed other n (end_locks n1) id rs [] Hok Hok' Hd Hr Hm (Forall_nil_2 _)) as (n'' & Hc & _ & Hp & Hm'' & _).
    cbn [foldl] in Hc. rewrite Hc. cbn [fst]. split; [by rewrite Hm'', lookup_delete_eq|exact Hp].
Qed.

End Engine.

(** ** Examples

    The node has the paths of the example index open, and seals sectors of 2 KiB. *)
Definition ex_local_path (local : string) : lpath := mkLPath local 0 0 ∅ true [] [].

Definition ex_local : Local :=
  foldl (fun st id => add_path st id (ex_local_path ("/data/" +:+ id))) (mkLocal ∅ ∅) ["p1"; "p2"; "p3"]%string.

Definition ex_fs (p : string) : option FsStat := Some (mkFsStat 1000000 500000 500000 0 0 0).
Definition ex_du (p : string) : usage := NotExist.
Definition ex_size (proof : Z) : option Z := if proof =? 5 then Some 2048 else None.

Definition ex_task : TaskStorage :=
  SealCalls_Storage (fun id => Some (mkSectorRef 1001 id 5)) FTSealed FTCache 2048 PathSealing (f64_of_Z 0).

#[local] Instance ex_ix : SectorIndex DbIx := DbIx_index (fun _ => true) StorageIndexFacts.ex_url StorageIndexFacts.ex_addr.

(** The node already has a reservation of 100 bytes that no claim made. *)
Definition ex_other : hold := mkHold 0 (mkSectorID 1001 3, FTUnsealed) 100.

Definition ex_node : NodeStorage DbIx :=
  mkNode (add_hold ex_local ex_other) (mkDbIx StorageIndexFacts.ex_index 0 []) [] ∅ [].

Lemma ex_node_ok : node_ok [ex_other] ex_node.
Proof.
  unfold node_ok. cbn [ex_node ns_local ns_res live_holds map concat app]. apply add_hold_accounts; [by eexists|].
  do 3 (apply add_path_accounts; [|done|done]). apply accounts_empty.
Qed.

(** A claim that succeeds and whose reservation the task itself releases, twice,
    before the claim is completed: the [Once] keeps the books. *)
Lemma claim_undone_witness :
  exists n', TaskStorage_Claim ex_fs ex_du StorageIndexFacts.ex_addr ex_size ex_task 7 ["u1"%string] false ex_node = (n', None) /\
    find_reservation 7 (mkSectorID 1001 7) FTCache FTSealed n' = Some (0%nat, true) /\
    reserved_on n' 0 <> reserved_on ex_node 0 /\
    exists n'', markComplete 7 (foldl releaseFunc n' [0; 0]%nat) = (n'', true) /\ node_ok [ex_other] n'' /\
      (forall ptr, reserved_on n'' ptr = reserved_on ex_node ptr) /\
      (forall late, Forall (.∈ [0%nat]) late -> foldl releaseFunc n'' late = n'') /\ markComplete 7 n'' = (n'', false).
Proof.
  destruct (TaskStorage_Claim ex_fs ex_du StorageIndexFacts.ex_addr ex_size ex_task 7 ["u1"%string] false ex_node) as [n' e] eqn:E.
  assert (e = None) as -> by (apply (f_equal snd) in E; vm_compute in E; by rewrite <- E).
  assert (find_reservation 7 (mkSectorID 1001 7) FTCache FTSealed n' = Some (0%nat, true)) as Hf
    by (apply (f_equal fst) in E; cbn [fst] in E; rewrite <- E; by vm_compute).
  assert (reserved_on n' 0 <> reserved_on ex_node 0) as Hne
    by (apply (f_equal fst) in E; cbn [fst] in E; rewrite <- E; by vm_compute).
  assert (ns_resv n' !! 7 = Some [0%nat]) as Hi
    by (apply (f_equal fst) in E; cbn [fst] in E; rewrite <- E; by vm_compute).
  exists n'. split; [done|]. split; [done|]. split; [done|].
  destruct (claim_undone ex_fs ex_du StorageIndexFacts.ex_addr ex_size [ex_other] ex_task 7 ["u1"%string] false ex_node n' None
           ex_node_ok E) as (own & His & Hall).
  assert (own = [0%nat]) as -> by congruence. apply Hall. by repeat constructor.
Defined.

(** A claim that fails for want of space. *)
Lemma claim_without_space :
  (TaskStorage_Claim (fun _ => Some (mkFsStat 1000000 500 500 0 0 0)) ex_du StorageIndexFacts.ex_addr ex_size ex_task 7
     ["u1"%string] false ex_node).2 <> None.
Proof. by vm_compute. Qed.
