(* ===== verification/StorageGC.v ===== *)
(** * Marking files for removal

    [tasks/gc/storage_gc_mark.go]: a task that compares what the sector index
    declares with the pins, the sealing pipeline and the state of the miners on
    chain, and marks the files nobody needs for removal.  An operator approves
    marks; [GCSweep] removes what is approved.  The chain node is a parameter; a
    bit field is the set of its numbers.  The tables can change between the
    transactions of a run, so that each has its own view of them. *)

From stdpp Require Import base gmap sets list strings.
From Stdlib Require Import ZArith Lia.
From S2P Require Import Prelude FileType SectorLocks GoStd StorageIndex.

(** ** Tables *)

(** A row of [storage_removal_marks]; its key is that of the file. *)
Record mark_row := mkMark { mk_created_at : time; mk_approved : bool; mk_approved_at : option time }.

Abbreviation marks_table := (gmap loc_key mark_row).

(** The columns of [sectors_meta] that are read here. *)
Record meta_row := mkMeta { sm_target_unseal_state : option bool; sm_has_sector_key : bool }.

(** The tables a transaction reads. *)
Record gc_view := mkView {
  storage_gc_pins : list SectorID;
  sectors_sdr_pipeline : list SectorID;
  sectors_meta : gmap SectorID meta_row;
  sectors_unseal_pipeline : list SectorID;
  gv_index : index_db
}.

(** ** The chain *)

(** A partition: its live and its unproven sectors, when they can be read. *)
Definition partition : Type := option (gset Z) * option (gset Z).

(** The state of a miner actor: the numbers of its precommitted sectors, the
    partitions of its deadlines, and its sectors, of which only the presence of
    [SectorKeyCID] matters. *)
Record MinerState := mkMiner {
  ForEachPrecommittedSector : option (list Z);
  ForEachDeadline : option (list (list partition));
  GetSector : Z -> option (option bool)
}.

Inductive gc_error := GcSql (e : sql_error) | GcIndex (e : index_error) | MinerLoad | PrecommitsFailed | DeadlinesFailed
  | ChainFailed | GetSectorFailed.

Section Mark.
Context `{Enum}.
(** [StateGetActor] and [miner.Load] at the head. *)
Variable load : Z -> option MinerState.

(** ** What is in storage *)

Abbreviation decl := (SectorID * SectorFileType)%type.
Abbreviation path_decls := (list (string * list decl)).

(** [StorageList] of every path. *)
Fixpoint list_paths (ids : list string) (fails : string -> option sql_error) (db : index_db) : result path_decls index_error :=
  match ids with
  | [] => Ok []
  | id :: ids =>
      match StorageList id (fails id) db with
      | Err e => Err e
      | Ok decls => match list_paths ids fails db with
                    | Err e => Err e
                    | Ok l => Ok ((id, decls) :: l)
                    end
      end
  end.

(** ** Stage 1: sectors that are not in use *)

(** [toRemove] and [minerStates]. *)
Abbreviation remove_set := (gmap Z (gset Z)).
Abbreviation miner_states := (gmap Z MinerState).

Definition toRemove_set (s : SectorID) (rm : remove_set) : remove_set :=
  alter (fun b => {[Number s]} ∪ b) (Miner s) rm.

Fixpoint collect (decls : list decl) (rm : remove_set) (ms : miner_states) : option (remove_set * miner_states) :=
  match decls with
  | [] => Some (rm, ms)
  | (s, t) :: decls =>
      if t =? FTPiece then collect decls rm ms
      else
        match rm !! Miner s with
        | Some _ => collect decls (toRemove_set s rm) ms
        | None =>
            match load (Miner s) with
            | None => None
            | Some st => collect decls (toRemove_set s (<[Miner s := ∅]> rm)) (<[Miner s := st]> ms)
            end
        end
  end.

(** [toRemove[miner].Unset(number)], when the miner is there. *)
Definition unset (rm : remove_set) (s : SectorID) : remove_set :=
  alter (fun b => b ∖ {[Number s]}) (Miner s) rm.

Definition remove_pins (v : gc_view) (rm : remove_set) : remove_set := foldl unset rm (enum (storage_gc_pins v)).

Definition remove_pipeline (v : gc_view) (rm : remove_set) : remove_set := foldl unset rm (enum (sectors_sdr_pipeline v)).

Fixpoint remove_precommits (ms : list (Z * MinerState)) (rm : remove_set) : option remove_set :=
  match ms with
  | [] => Some rm
  | (mid, st) :: ms =>
      match ForEachPrecommittedSector st with
      | None => None
      | Some numbers => remove_precommits ms (foldl (fun rm n => unset rm (mkSectorID mid n)) rm numbers)
      end
  end.

(** The callback of [ForEachPartition]. *)
Fixpoint remove_partitions (mid : Z) (ps : list partition) (rm : remove_set) : option remove_set :=
  match ps with
  | [] => Some rm
  | (Some live, Some unproven) :: ps =>
      remove_partitions mid ps (alter (fun b => (b ∖ live) ∖ unproven) mid rm)
  | _ :: _ => None
  end.

Fixpoint remove_live (ms : list (Z * MinerState)) (rm : remove_set) : option remove_set :=
  match ms with
  | [] => Some rm
  | (mid, st) :: ms =>
      match ForEachDeadline st with
      | None => None
      | Some deadlines =>
          match remove_partitions mid (concat deadlines) rm with
          | None => None
          | Some rm' => remove_live ms rm'
          end
      end
  end.

(** What the transaction has taken out of [toRemove] after [k] of its four
    parts.  The set belongs to the task: what an attempt that is rolled back has
    taken out stays out. *)
Definition reduce (k : nat) (v : gc_view) (ms : miner_states) (rm : remove_set) : result remove_set gc_error :=
  let rm := if (0 <? k)%nat then remove_pins v rm else rm in
  let rm := if (1 <? k)%nat then remove_pipeline v rm else rm in
  match (if (2 <? k)%nat then remove_precommits (enum (map_to_list ms)) rm else Some rm) with
  | None => Err PrecommitsFailed
  | Some rm =>
      match (if (3 <? k)%nat then remove_live (enum (map_to_list ms)) rm else Some rm) with
      | None => Err DeadlinesFailed
      | Some rm => Ok rm
      end
  end.

(** The attempts before the last one, each with the parts it completed. *)
Fixpoint reduce_aborted (aborted : list (nat * gc_view)) (ms : miner_states) (rm : remove_set) : result remove_set gc_error :=
  match aborted with
  | [] => Ok rm
  | (k, v) :: aborted =>
      match reduce k v ms rm with
      | Err e => Err e
      | Ok rm => reduce_aborted aborted ms rm
      end
  end.

(** [INSERT ... ON CONFLICT DO NOTHING] *)
Definition insert_mark (now : time) (marks : marks_table) (k : loc_key) : marks_table :=
  match marks !! k with
  | Some _ => marks
  | None => <[k := mkMark now false None]> marks
  end.

Definition in_remove_set (rm : remove_set) (s : SectorID) : bool :=
  match rm !! Miner s with
  | Some b => bool_decide (Number s ∈ b)
  | None => false
  end.

(** The files of the last part of the transaction. *)
Definition unused_files (sectors : path_decls) (rm : remove_set) : list loc_key :=
  id_decls ← enum sectors; d ← id_decls.2;
  filetype ← List.filter (fun ft => negb (ft =? FTPiece)) (AllSet d.2);
  if in_remove_set rm d.1 then [(d.1, filetype, id_decls.1)] else [].

Definition stage1 (now : time) (sectors : path_decls) (aborted : list (nat * gc_view)) (v : gc_view) (x : exec) (marks : marks_table)
    : marks_table * option gc_error :=
  match collect (concat (enum sectors.*2)) ∅ ∅ with
  | None => (marks, Some MinerLoad)
  | Some (rm, ms) =>
      if bool_decide (rm = ∅) then (marks, match x with Applied => None | Rejected e | LostReply e => Some (GcSql e) end)
      else
        match reduce_aborted aborted ms rm with
        | Err e => (marks, Some e)
        | Ok rm =>
            match reduce 4 v ms rm with
            | Err e => (marks, Some e)
            | Ok rm => let '(marks', e) := run_exec x marks (foldl (insert_mark now) marks (unused_files sectors rm)) in
                       (marks', GcSql <$> e)
            end
        end
  end.

(** ** Stage 2: unsealed files that are not wanted *)

Definition unwanted_unsealed (v : gc_view) : list loc_key :=
  k ← enum (map_to_list (sector_location (gv_index v))).*1;
  if (k.1.2 =? 1)
     && bool_decide ((sectors_meta v !! k.1.1) ≫= sm_target_unseal_state = Some false)
     && bool_decide (k.1.1 ∉ sectors_unseal_pipeline v)
  then [k] else [].

Definition stage2 (now : time) (v : gc_view) (x : exec) (marks : marks_table) : marks_table * option gc_error :=
  let '(marks', e) := run_exec x marks (foldl (insert_mark now) marks (unwanted_unsealed v)) in (marks', GcSql <$> e).

(** ** Stage 3: sealed files that are sector keys *)

(** [ChainHead] with the lookback of its network version, [ChainGetTipSetByHeight],
    and the state of a miner at that height. *)
Variable head : option (Z * Z).
Variable EpochsInDay : Z.
Variable tipset_ok : Z -> bool.
Variable load_at : Z -> Z -> option MinerState.

Definition update_types : SectorFileType := Z.lor FTUpdate FTUpdateCache.

Definition sectorsWithUpdate (sectors : path_decls) : gmap SectorID SectorFileType :=
  foldl (fun m (d : decl) =>
           if Z.land d.2 update_types =? 0 then m
           else <[d.1 := Z.lor (default 0 (m !! d.1)) (Z.land d.2 update_types)]> m)
    ∅ (concat (enum sectors.*2)).

Definition finality_height (height lookback : Z) : Z :=
  let lb := lookback + EpochsInDay + 1 in
  let finalityHeight := height - lb in
  if finalityHeight <? 0 then 1 else finalityHeight.

Fixpoint load_miners (h : Z) (ids : list Z) : option miner_states :=
  match ids with
  | [] => Some ∅
  | mid :: ids =>
      match load_at h mid with
      | None => None
      | Some st => <[mid := st]> <$> load_miners h ids
      end
  end.

Definition snap_sectors (v : gc_view) : list SectorID :=
  s ← enum (map_to_list (sectors_meta v)); if sm_has_sector_key s.2 then [s.1] else [].

Fixpoint key_marks (states : miner_states) (updates : gmap SectorID SectorFileType) (sectors : list SectorID) : result (list SectorID) gc_error :=
  match sectors with
  | [] => Ok []
  | s :: sectors =>
      match states !! Miner s with
      | None => key_marks states updates sectors
      | Some st =>
          match GetSector st (Number s) with
          | None => Err GetSectorFailed
          | Some (Some true) =>
              if default 0 (updates !! s) =? update_types
              then match key_marks states updates sectors with Err e => Err e | Ok l => Ok (s :: l) end
              else key_marks states updates sectors
          | Some _ => key_marks states updates sectors
          end
      end
  end.

Definition key_files (sectors : path_decls) (marked : list SectorID) : list loc_key :=
  id_decls ← enum sectors; d ← id_decls.2;
  if Has d.2 FTSealed && bool_decide (d.1 ∈ marked) then [(d.1, FTSealed, id_decls.1)] else [].

(** The two queries can see different views of the table. *)
Definition stage3 (now : time) (sectors : path_decls) (v v' : gc_view) (q q' : option sql_error) (x : exec) (marks : marks_table)
    : marks_table * option gc_error :=
  match head with
  | None => (marks, Some ChainFailed)
  | Some (height, lookback) =>
      let h := finality_height height lookback in
      if negb (tipset_ok h) then (marks, Some ChainFailed)
      else
        match q with
        | Some e => (marks, Some (GcSql e))
        | None =>
            match load_miners h (remove_dups (Miner <$> snap_sectors v)) with
            | None => (marks, Some MinerLoad)
            | Some states =>
                match q' with
                | Some e => (marks, Some (GcSql e))
                | None =>
                    match key_marks states (sectorsWithUpdate sectors) (snap_sectors v') with
                    | Err e => (marks, Some e)
                    | Ok marked =>
                        let '(marks', e) := run_exec x marks (foldl (insert_mark now) marks (key_files sectors marked)) in
                        (marks', GcSql <$> e)
                    end
                end
            end
        end
  end.

(** ** The task *)

(** What happens to the statements of a run, and the views they have. *)
Record mark_run := mkRun {
  mr_now : time;
  mr_paths : option sql_error; mr_list : string -> option sql_error; mr_view0 : gc_view;
  mr_aborted : list (nat * gc_view); mr_view1 : gc_view; mr_exec1 : exec;
  mr_view2 : gc_view; mr_exec2 : exec;
  mr_view3 : gc_view; mr_query3 : option sql_error; mr_view3' : gc_view; mr_query3' : option sql_error; mr_exec3 : exec
}.

Definition StorageGCMark_Do (r : mark_run) (marks : marks_table) : marks_table * option gc_error :=
  match mr_paths r with
  | Some e => (marks, Some (GcSql e))
  | None =>
      match list_paths (enum (map_to_list (storage_path (gv_index (mr_view0 r)))).*1) (mr_list r) (gv_index (mr_view0 r)) with
      | Err e => (marks, Some (GcIndex e))
      | Ok sectors =>
          match stage1 (mr_now r) sectors (mr_aborted r) (mr_view1 r) (mr_exec1 r) marks with
          | (marks, Some e) => (marks, Some e)
          | (marks, None) =>
              match stage2 (mr_now r) (mr_view2 r) (mr_exec2 r) marks with
              | (marks, Some e) => (marks, Some e)
              | (marks, None) =>
                  stage3 (mr_now r) sectors (mr_view3 r) (mr_view3' r) (mr_query3 r) (mr_query3' r) (mr_exec3 r) marks
              end
          end
      end
  end.
End Mark.
