(* ===== verification/GCMarkFacts.v ===== *)
(** * What the mark task marks

    A run that succeeds adds a mark, not approved, for exactly the files that are
    declared and not needed, and touches no other mark. *)

From stdpp Require Import base gmap sets list strings.
From Stdlib Require Import ZArith Lia.
From S2P Require Import Prelude FileType SectorLocks GoStd StorageIndex StorageGC.

(** ** Inserting marks *)

Lemma insert_marks_lookup (now : time) (keys : list loc_key) (marks : marks_table) (k : loc_key) :
  foldl (insert_mark now) marks keys !! k =
  match marks !! k with
  | Some r => Some r
  | None => if bool_decide (k ∈ keys) then Some (mkMark now false None) else None
  end.
Proof.
  revert marks. induction keys as [|k' keys IH]; intros marks; cbn [foldl].
  { rewrite bool_decide_eq_false_2 by apply not_elem_of_nil. by destruct (marks !! k). }
  rewrite IH. unfold insert_mark. destruct (decide (k = k')) as [->|Hne].
  - rewrite (bool_decide_eq_true_2 (k' ∈ k' :: keys)) by left. destruct (marks !! k') eqn:E; [by rewrite E|]. by rewrite lookup_insert_eq.
  - assert (bool_decide (k ∈ k' :: keys) = bool_decide (k ∈ keys)) as ->.
    { apply bool_decide_ext. rewrite elem_of_cons. naive_solver. }
    destruct (marks !! k'); [done|]. by rewrite lookup_insert_ne.
Qed.

(** A table of marks that grew by the files of [P]. *)
Definition marked_more (now : time) (P : loc_key -> Prop) (marks marks' : marks_table) : Prop :=
  forall k,
    match marks !! k with
    | Some r => marks' !! k = Some r
    | None => (P k /\ marks' !! k = Some (mkMark now false None)) \/ (~ P k /\ marks' !! k = None)
    end.

Lemma marked_more_insert (now : time) (keys : list loc_key) (P : loc_key -> Prop) (marks : marks_table) : (forall k, k ∈ keys <-> P k) ->
  marked_more now P marks (foldl (insert_mark now) marks keys).
Proof.
  intros HP k. rewrite insert_marks_lookup. destruct (marks !! k); [done|]. case_bool_decide as Hk; rewrite HP in Hk; [left|right]; done.
Qed.

Lemma marked_more_trans (now : time) (P Q : loc_key -> Prop) (m1 m2 m3 : marks_table) : marked_more now P m1 m2 -> marked_more now Q m2 m3 ->
  marked_more now (fun k => P k \/ Q k) m1 m3.
Proof.
  intros H1 H2 k. specialize (H1 k). specialize (H2 k). destruct (m1 !! k); [by rewrite H1 in H2|].
  destruct H1 as [[HP E]|[HP E]]; rewrite E in H2; [left; split; [by left|done]|].
  destruct H2 as [[HQ E2]|[HQ E2]]; [left; split; [by right|done]|right; split; [tauto|done]].
Qed.

Lemma marked_more_iff (now : time) (P Q : loc_key -> Prop) (m1 m2 : marks_table) : (forall k, P k <-> Q k) -> marked_more now P m1 m2 -> marked_more now Q m1 m2.
Proof. intros HPQ H1 k. specialize (H1 k). destruct (m1 !! k); [done|]. rewrite HPQ in H1. done. Qed.

Lemma marked_more_none (now : time) (m : marks_table) : marked_more now (fun _ => False) m m.
Proof. intros k. destruct (m !! k); [done|]. right. tauto. Qed.

Section MarkFacts.
Context `{Enum}.
Variable load : Z -> option MinerState.

Abbreviation decl := (SectorID * SectorFileType)%type.
Abbreviation path_decls := (list (string * list decl)).
Abbreviation remove_set := (gmap Z (gset Z)).
Abbreviation miner_states := (gmap Z MinerState).

(** ** What is removed from the set *)

Definition member (rm : remove_set) (s : SectorID) : Prop := exists b, rm !! Miner s = Some b /\ Number s ∈ b.

Lemma in_remove_set_member rm s : in_remove_set rm s = true <-> member rm s.
Proof.
  unfold in_remove_set, member. destruct (rm !! Miner s) as [b|]; [rewrite bool_decide_eq_true|]; naive_solver.
Qed.

(** A part of the transaction that takes the sectors of [P] out. *)
Definition takes_out (P : SectorID -> Prop) (rm rm' : remove_set) : Prop := forall s, member rm' s <-> member rm s /\ ~ P s.

Lemma takes_out_trans P Q a b c : takes_out P a b -> takes_out Q b c -> takes_out (fun s => P s \/ Q s) a c.
Proof. intros H1 H2 s. specialize (H1 s). specialize (H2 s). tauto. Qed.

Lemma takes_out_none rm : takes_out (fun _ => False) rm rm.
Proof. intros s. tauto. Qed.

Lemma takes_out_iff P Q a b : (forall s, P s <-> Q s) -> takes_out P a b -> takes_out Q a b.
Proof. intros HPQ H1 s. specialize (H1 s). specialize (HPQ s). tauto. Qed.

(** A change of the bits of one miner. *)
Lemma takes_out_alter (mid : Z) (X : gset Z) rm rm' (f : gset Z -> gset Z) :
  (forall b, f b = b ∖ X) -> rm' = alter f mid rm -> takes_out (fun s => Miner s = mid /\ Number s ∈ X) rm rm'.
Proof.
  intros Hf -> s. unfold member. destruct (decide (Miner s = mid)) as [<-|Hne].
  - rewrite lookup_alter_eq. destruct (rm !! Miner s) as [b|]; cbn; [|naive_solver]. split.
    + intros (b' & [= Eb] & Hb). subst b'. rewrite Hf in Hb. apply elem_of_difference in Hb as [Hb HX]. split; [by exists b|]. tauto.
    + intros [(b' & [= Eb] & Hb) HX]. subst b'. exists (f b). split; [done|]. rewrite Hf. apply elem_of_difference. tauto.
  - rewrite lookup_alter_ne by done. tauto.
Qed.

Lemma unset_takes_out rm s : takes_out (fun s' => s' = s) rm (unset rm s).
Proof.
  eapply takes_out_iff; [|apply (takes_out_alter (Miner s) {[Number s]} rm _ _ (fun b => eq_refl) eq_refl)].
  intros [m n]. destruct s as [m' n']. cbn. rewrite elem_of_singleton. naive_solver.
Qed.

Lemma unset_all_takes_out l rm : takes_out (fun s => s ∈ l) rm (foldl unset rm l).
Proof.
  revert rm. induction l as [|a l IH]; intros rm; cbn [foldl].
  - eapply takes_out_iff; [|apply takes_out_none]. intros s. rewrite elem_of_nil. done.
  - eapply takes_out_iff; [|eapply takes_out_trans; [apply unset_takes_out|apply IH]]. intros s. cbn. by rewrite elem_of_cons.
Qed.

Definition precommitted (ms : list (Z * MinerState)) (s : SectorID) : Prop :=
  exists st l, (Miner s, st) ∈ ms /\ ForEachPrecommittedSector st = Some l /\ Number s ∈ l.

Lemma unset_numbers mid (l : list Z) rm :
  takes_out (fun s => Miner s = mid /\ Number s ∈ l) rm (foldl (fun rm n => unset rm (mkSectorID mid n)) rm l).
Proof.
  revert rm. induction l as [|a l IH]; intros rm; cbn [foldl].
  - eapply takes_out_iff; [|apply takes_out_none]. intros s. rewrite elem_of_nil. tauto.
  - eapply takes_out_iff; [|eapply takes_out_trans; [apply unset_takes_out|apply IH]]. intros [m n]. cbn. rewrite elem_of_cons. naive_solver.
Qed.

Lemma remove_precommits_takes_out ms rm rm' : remove_precommits ms rm = Some rm' -> takes_out (precommitted ms) rm rm'.
Proof.
  revert rm. induction ms as [|[mid st] ms IH]; intros rm; cbn [remove_precommits].
  - intros [= <-]. eapply takes_out_iff; [|apply takes_out_none]. intros s. split; [done|]. intros (? & ? & Hn & _). by apply not_elem_of_nil in Hn.
  - destruct (ForEachPrecommittedSector st) as [l|] eqn:El; [|done]. intros E.
    eapply takes_out_iff; [|eapply takes_out_trans; [apply (unset_numbers mid l)|by apply IH]]. intros s. cbn. unfold precommitted. split.
    + intros [[<- Hn]|(st' & l' & Hin & Hl' & Hn)]; [exists st, l|exists st', l']; (split; [|done]); [by left|by right].
    + intros (st' & l' & Hin & Hl' & Hn). apply elem_of_cons in Hin as [[= <- <-]|Hin]; [left|right; by exists st', l'].
      split; [done|]. congruence.
Qed.

(** In a live or unproven set of a partition. *)
Definition in_partition (n : Z) (p : partition) : Prop :=
  (exists live, p.1 = Some live /\ n ∈ live) \/ (exists unproven, p.2 = Some unproven /\ n ∈ unproven).

Definition active (ms : list (Z * MinerState)) (s : SectorID) : Prop :=
  exists st dls dl p, (Miner s, st) ∈ ms /\ ForEachDeadline st = Some dls /\ dl ∈ dls /\ p ∈ dl /\ in_partition (Number s) p.

Lemma remove_partitions_takes_out mid ps rm rm' : remove_partitions mid ps rm = Some rm' ->
  takes_out (fun s => Miner s = mid /\ exists p, p ∈ ps /\ in_partition (Number s) p) rm rm'.
Proof.
  revert rm. induction ps as [|[[live|] [unproven|]] ps IH]; intros rm; cbn [remove_partitions]; try done.
  - intros [= <-]. eapply takes_out_iff; [|apply takes_out_none]. intros s. split; [done|]. intros (_ & p & Hp & _). by apply not_elem_of_nil in Hp.
  - intros E. eapply takes_out_iff; [|eapply takes_out_trans; [apply (takes_out_alter mid (live ∪ unproven) rm _ (fun b => b ∖ live ∖ unproven)); [|done]|by apply IH]].
    + intros s. cbn. rewrite elem_of_union. setoid_rewrite elem_of_cons. unfold in_partition. naive_solver.
    + intros b. apply set_eq. intros x. rewrite !elem_of_difference, elem_of_union. tauto.
Qed.

Lemma remove_live_takes_out ms rm rm' : remove_live ms rm = Some rm' -> takes_out (active ms) rm rm'.
Proof.
  revert rm. induction ms as [|[mid st] ms IH]; intros rm; cbn [remove_live].
  - intros [= <-]. eapply takes_out_iff; [|apply takes_out_none]. intros s. split; [done|].
    intros (? & ? & ? & ? & Hn & _). by apply not_elem_of_nil in Hn.
  - destruct (ForEachDeadline st) as [dls|] eqn:El; [|done]. destruct (remove_partitions _ _ _) as [rm1|] eqn:E1; [|done]. intros E.
    eapply takes_out_iff; [|eapply takes_out_trans; [by apply remove_partitions_takes_out|by apply IH]]. intros s. cbn. unfold active. split.
    + intros [[<- (p & Hp & Hin)]|(st' & dls' & dl & p & Hs & Hd & Hr)]; [|exists st', dls', dl, p; split; [by right|done]].
      apply list_elem_of_In, in_concat in Hp as (dl & Hdl & Hp). apply list_elem_of_In in Hdl, Hp.
      exists st, dls, dl, p. split; [by left|done].
    + intros (st' & dls' & dl & p & Hs & Hd & Hdl & Hp & Hin). apply elem_of_cons in Hs as [[= <- <-]|Hs]; [left|right; by exists st', dls', dl, p].
      split; [done|]. exists p. split; [|done]. apply list_elem_of_In, in_concat. exists dl. split; apply list_elem_of_In; [congruence|done].
Qed.

(** ** What is in use *)

Definition st_precommitted (st : MinerState) (n : Z) : Prop := exists l, ForEachPrecommittedSector st = Some l /\ n ∈ l.

Definition st_active (st : MinerState) (n : Z) : Prop :=
  exists dls dl p, ForEachDeadline st = Some dls /\ dl ∈ dls /\ p ∈ dl /\ in_partition n p.

(** What an attempt of the transaction that completed [k] of its parts keeps. *)
Definition in_use (k : nat) (v : gc_view) (s : SectorID) : Prop :=
  ((0 < k)%nat /\ s ∈ storage_gc_pins v) \/ ((1 < k)%nat /\ s ∈ sectors_sdr_pipeline v) \/
  ((2 < k)%nat /\ exists st, load (Miner s) = Some st /\ st_precommitted st (Number s)) \/
  ((3 < k)%nat /\ exists st, load (Miner s) = Some st /\ st_active st (Number s)).

(** The states that were loaded are those of the miners of the set. *)
Definition loaded (rm : remove_set) (ms : miner_states) : Prop :=
  (forall m, is_Some (rm !! m) -> is_Some (ms !! m)) /\ (forall m st, ms !! m = Some st -> load m = Some st).

(** Among the members of the set, what the states say is what the chain says. *)
Lemma takes_out_members (P Q : SectorID -> Prop) rm rm' : (forall s, member rm s -> P s <-> Q s) -> takes_out P rm rm' -> takes_out Q rm rm'.
Proof. intros HPQ Ht s. specialize (Ht s). specialize (HPQ s). tauto. Qed.

Definition members_loaded (rm : remove_set) (ms : miner_states) : Prop :=
  (forall s, member rm s -> is_Some (ms !! Miner s)) /\ (forall m st, ms !! m = Some st -> load m = Some st).

Lemma members_loaded_less P rm rm' ms : takes_out P rm rm' -> members_loaded rm ms -> members_loaded rm' ms.
Proof. intros Ht [H1 H2]. split; [|done]. intros s Hs. apply H1. by apply Ht. Qed.

Lemma chain_part (Q : MinerState -> Z -> Prop) (P : list (Z * MinerState) -> SectorID -> Prop) ms rm rm' :
  (forall l s, P l s <-> exists st, (Miner s, st) ∈ l /\ Q st (Number s)) -> members_loaded rm ms ->
  takes_out (P (enum (map_to_list ms))) rm rm' -> takes_out (fun s => exists st, load (Miner s) = Some st /\ Q st (Number s)) rm rm'.
Proof.
  intros HP [H1 H2]. apply takes_out_members. intros s Hs. rewrite HP. setoid_rewrite elem_of_enum. setoid_rewrite elem_of_map_to_list.
  destruct (H1 s Hs) as [st Est]. split; intros (st' & E & HQ); exists st'; (split; [|done]); [by apply H2|].
  rewrite (H2 _ _ Est) in E. congruence.
Qed.

Lemma precommitted_state l s : precommitted l s <-> exists st, (Miner s, st) ∈ l /\ st_precommitted st (Number s).
Proof. unfold precommitted, st_precommitted. naive_solver. Qed.

Lemma active_state l s : active l s <-> exists st, (Miner s, st) ∈ l /\ st_active st (Number s).
Proof. unfold active, st_active. naive_solver. Qed.

(** A part that an attempt does not reach takes nothing out. *)
Lemma takes_out_if (c : bool) (P : SectorID -> Prop) (f : option remove_set) rm rm' :
  (f = Some rm' -> takes_out P rm rm') -> (if c then f else Some rm) = Some rm' -> takes_out (fun s => c = true /\ P s) rm rm'.
Proof.
  intros Hf. destruct c.
  - intros E. eapply takes_out_iff; [|by apply Hf]. naive_solver.
  - intros [= <-]. eapply takes_out_iff; [|apply takes_out_none]. naive_solver.
Qed.

Lemma reduce_spec k v ms rm rm' : members_loaded rm ms -> reduce k v ms rm = Ok rm' -> takes_out (in_use k v) rm rm'.
Proof.
  intros Hl. unfold reduce. set (rm1 := if (0 <? k)%nat then _ else _). set (rm2 := if (1 <? k)%nat then _ else _).
  assert (takes_out (fun s => (0 <? k)%nat = true /\ s ∈ storage_gc_pins v) rm rm1) as T1.
  { apply (takes_out_if _ _ (Some (remove_pins v rm))); [|unfold rm1; by destruct (0 <? k)%nat]. intros [= <-].
    eapply takes_out_iff; [|apply unset_all_takes_out]. intros s. apply elem_of_enum. }
  assert (takes_out (fun s => (1 <? k)%nat = true /\ s ∈ sectors_sdr_pipeline v) rm1 rm2) as T2.
  { apply (takes_out_if _ _ (Some (remove_pipeline v rm1))); [|unfold rm2; by destruct (1 <? k)%nat]. intros [= <-].
    eapply takes_out_iff; [|apply unset_all_takes_out]. intros s. apply elem_of_enum. }
  pose proof (members_loaded_less _ _ _ _ T1 Hl) as Hl1. pose proof (members_loaded_less _ _ _ _ T2 Hl1) as Hl2.
  destruct (if (2 <? k)%nat then _ else Some rm2) as [rm3|] eqn:E3; [|done].
  eapply takes_out_if in E3 as T3; [|by intros E; eapply chain_part; [exact precommitted_state|exact Hl2|apply remove_precommits_takes_out, E]].
  pose proof (members_loaded_less _ _ _ _ T3 Hl2) as Hl3.
  destruct (if (3 <? k)%nat then _ else Some rm3) as [rm4|] eqn:E4; [|done].
  eapply takes_out_if in E4 as T4; [|by intros E; eapply chain_part; [exact active_state|exact Hl3|apply remove_live_takes_out, E]].
  intros [= <-]. eapply takes_out_iff; [|exact (takes_out_trans _ _ _ _ _ T1 (takes_out_trans _ _ _ _ _ T2 (takes_out_trans _ _ _ _ _ T3 T4)))].
  intros s. cbv beta. unfold in_use. rewrite !Nat.ltb_lt. done.
Qed.

Lemma reduce_aborted_spec aborted ms rm rm' : members_loaded rm ms -> reduce_aborted aborted ms rm = Ok rm' ->
  takes_out (fun s => exists kv, kv ∈ aborted /\ in_use kv.1 kv.2 s) rm rm'.
Proof.
  revert rm. induction aborted as [|[k v] aborted IH]; intros rm Hl; cbn [reduce_aborted].
  - intros [= <-]. eapply takes_out_iff; [|apply takes_out_none]. intros s. split; [done|]. intros (kv & Hn & _). by apply not_elem_of_nil in Hn.
  - destruct (reduce k v ms rm) as [rm1|] eqn:E1; [|done]. intros E. apply reduce_spec in E1; [|done].
    eapply takes_out_iff; [|eapply takes_out_trans; [exact E1|apply IH; [by eapply members_loaded_less|exact E]]].
    intros s. cbn. setoid_rewrite elem_of_cons. naive_solver.
Qed.

(** ** What is collected *)

Lemma member_set rm s s' : is_Some (rm !! Miner s) -> member (toRemove_set s rm) s' <-> member rm s' \/ s' = s.
Proof.
  intros [b Hb]. unfold member, toRemove_set. destruct s as [m n], s' as [m' n']. cbn in *. destruct (decide (m' = m)) as [->|Hne].
  - rewrite lookup_alter_eq, Hb. cbn. split.
    + intros (b' & [= <-] & Hn). apply elem_of_union in Hn as [Hn|Hn]; [right; apply elem_of_singleton in Hn; by subst|left; by exists b].
    + intros [(b' & [= <-] & Hn)|[= ->]]; eexists; (split; [done|]); apply elem_of_union; [by right|left; by apply elem_of_singleton].
  - rewrite lookup_alter_ne by done. naive_solver.
Qed.

Lemma collect_spec decls rm ms rm' ms' : collect load decls rm ms = Some (rm', ms') -> loaded rm ms ->
  loaded rm' ms' /\ forall s, member rm' s <-> member rm s \/ exists t, (s, t) ∈ decls /\ t <> FTPiece.
Proof.
  revert rm ms. induction decls as [|[s t] decls IH]; intros rm ms; cbn [collect].
  { intros [= <- <-] Hl. split; [done|]. intros s. split; [by left|]. intros [Hs|(t & Hn & _)]; [done|by apply not_elem_of_nil in Hn]. }
  destruct (Z.eqb_spec t FTPiece) as [->|Hne].
  { intros E Hl. destruct (IH _ _ E Hl) as [Hl' Hm]. split; [done|]. intros s'. rewrite Hm. setoid_rewrite elem_of_cons. naive_solver. }
  assert (forall rm1 ms1, is_Some (rm1 !! Miner s) -> loaded rm1 ms1 -> (forall s', member rm1 s' <-> member rm s') ->
            collect load decls (toRemove_set s rm1) ms1 = Some (rm', ms') ->
            loaded rm' ms' /\ forall s', member rm' s' <-> member rm s' \/ exists t', (s', t') ∈ (s, t) :: decls /\ t' <> FTPiece) as Hgo.
  { intros rm1 ms1 His [H1 H2] Hsame E. destruct (IH _ _ E) as [Hl' Hm].
    - split; [|done]. intros m. unfold toRemove_set. rewrite lookup_alter_is_Some. apply H1.
    - split; [done|]. intros s'. rewrite Hm, member_set, Hsame by done. setoid_rewrite elem_of_cons. naive_solver. }
  destruct (rm !! Miner s) as [b|] eqn:Hb; [intros E Hl; apply (Hgo rm ms); [by exists b|done|done|done]|].
  destruct (load (Miner s)) as [st|] eqn:Hst; [|done]. intros E [H1 H2]. apply (Hgo (<[Miner s := ∅]> rm) (<[Miner s := st]> ms)); [| | |done].
  - rewrite lookup_insert_eq. by eexists.
  - split.
    + intros m. destruct (decide (m = Miner s)) as [->|Hm]; [rewrite !lookup_insert_eq; by eexists|]. rewrite !lookup_insert_ne by done. apply H1.
    + intros m st'. destruct (decide (m = Miner s)) as [->|Hm]; [rewrite lookup_insert_eq; by intros [= <-]|]. rewrite lookup_insert_ne by done. apply H2.
  - intros s'. unfold member. destruct (decide (Miner s' = Miner s)) as [->|Hm]; [|by rewrite lookup_insert_ne].
    rewrite lookup_insert_eq, Hb. split; intros (b' & E' & Hn); [|done]. injection E' as <-. by apply not_elem_of_empty in Hn.
Qed.

(** ** What is declared *)

Definition declared (db : index_db) (k : loc_key) : Prop :=
  k.1.2 ∈ PathTypes /\ is_Some (storage_path db !! k.2) /\
  exists t, is_Some (sector_location db !! (k.1.1, t, k.2)) /\ Z.land k.1.2 t <> 0.

Lemma elem_of_AllSet_land t ft : ft ∈ AllSet t <-> ft ∈ PathTypes /\ Z.land ft t <> 0.
Proof.
  unfold AllSet. rewrite list_elem_of_In, filter_In, <- list_elem_of_In, negb_true_iff, Z.eqb_neq. done.
Qed.

Lemma declared_types_land (locs : list loc_key) s ft :
  Z.land ft (declared_types locs s) <> 0 <-> exists k, k ∈ locs /\ k.1.1 = s /\ Z.land ft k.1.2 <> 0.
Proof.
  unfold declared_types.
  assert (forall acc, Z.land ft (foldl (fun acc (k : loc_key) => if bool_decide (k.1.1 = s) then Z.lor acc k.1.2 else acc) acc locs) <> 0 <->
    Z.land ft acc <> 0 \/ exists k, k ∈ locs /\ k.1.1 = s /\ Z.land ft k.1.2 <> 0) as Hgo.
  { induction locs as [|k locs IH]; intros acc; cbn [foldl].
    - split; [by left|]. intros [?|(k & Hn & _)]; [done|by apply not_elem_of_nil in Hn].
    - rewrite IH. setoid_rewrite elem_of_cons. case_bool_decide as Hk; [|naive_solver].
      rewrite Z.land_lor_distr_r, Z.lor_eq_0_iff. destruct (Z.eq_dec (Z.land ft acc) 0), (Z.eq_dec (Z.land ft k.1.2) 0); naive_solver. }
  rewrite Hgo, Z.land_0_r. naive_solver.
Qed.

Lemma list_paths_elem ids fails db sectors : list_paths ids fails db = Ok sectors ->
  forall id decls, (id, decls) ∈ sectors <-> id ∈ ids /\ StorageList id None db = Ok decls.
Proof.
  revert sectors. induction ids as [|i ids IH]; intros sectors; cbn [list_paths].
  { intros [= <-] id decls. rewrite !elem_of_nil. tauto. }
  destruct (StorageList i (fails i) db) as [ds|] eqn:El; [|done]. destruct (list_paths ids fails db) as [l|] eqn:Er; [|done].
  intros [= <-] id decls. rewrite !elem_of_cons, (IH l eq_refl). assert (fails i = None) as Hf by (unfold StorageList in El; by destruct (fails i)).
  rewrite Hf in El. split.
  - intros [[= -> ->]|[? ?]]; [split; [by left|done]|split; [by right|done]].
  - intros [[->|Hi] E]; [left; congruence|by right].
Qed.

(** The declarations that [StorageList] gives for the paths are the rows of the
    index. *)
Lemma sectors_declared fails db sectors k :
  list_paths (enum (map_to_list (storage_path db)).*1) fails db = Ok sectors ->
  (exists decls t, (k.2, decls) ∈ sectors /\ (k.1.1, t) ∈ decls /\ k.1.2 ∈ AllSet t) <-> declared db k.
Proof.
  intros E. unfold declared. destruct k as [[s ft] id]. cbn [fst snd].
  setoid_rewrite (list_paths_elem _ _ _ _ E). setoid_rewrite elem_of_enum. setoid_rewrite elem_of_AllSet_land.
  assert (id ∈ (map_to_list (storage_path db)).*1 <-> is_Some (storage_path db !! id)) as Hid.
  { rewrite list_elem_of_fmap. split.
    - intros ([i r] & -> & Hr). apply elem_of_map_to_list in Hr. by exists r.
    - intros [r Hr]. exists (id, r). split; [done|]. by apply elem_of_map_to_list. }
  rewrite <- Hid. unfold StorageList. set (keys := enum (List.filter _ _)).
  assert (forall k, k ∈ keys <-> is_Some (sector_location db !! k) /\ k.2 = id) as Hkeys.
  { intros k. unfold keys. rewrite elem_of_enum, list_elem_of_In, filter_In, <- list_elem_of_In, bool_decide_eq_true, list_elem_of_fmap. f_equiv. split.
    - intros ([k' r] & -> & Hr). apply elem_of_map_to_list in Hr. by exists r.
    - intros [r Hr]. exists (k, r). split; [done|]. by apply elem_of_map_to_list. }
  split.
  - intros (decls & t & [Hi [= <-]] & Ht & Hft & Hland). split; [done|]. split; [done|].
    rewrite elem_of_enum in Ht. apply list_elem_of_fmap in Ht as (s' & [= -> ->] & _).
    apply declared_types_land in Hland as ([[s0 t0] id0] & Hk & <- & Hland). apply Hkeys in Hk as [Hk Hid0]. cbn [fst snd] in *. subst id0. by exists t0.
  - intros (Hft & Hi & t0 & Hk & Hland). eexists _, (declared_types keys s). split; [split; [done|reflexivity]|].
    assert ((s, t0, id) ∈ keys) as Hin by (by apply Hkeys). split.
    + rewrite elem_of_enum. apply list_elem_of_fmap. exists s. split; [done|]. apply elem_of_remove_dups, list_elem_of_fmap. by exists (s, t0, id).
    + split; [done|]. apply declared_types_land. by exists (s, t0, id).
Qed.

(** ** The stages *)

(** A file whose sector no attempt of the transaction found in use. *)
Definition unused (db : index_db) (aborted : list (nat * gc_view)) (v : gc_view) (k : loc_key) : Prop :=
  declared db k /\ k.1.2 <> FTPiece /\ ~ in_use 4 v k.1.1 /\ forall a, a ∈ aborted -> ~ in_use a.1 a.2 k.1.1.

Lemma elem_of_unused_files (sectors : path_decls) rm k :
  k ∈ unused_files sectors rm <->
  (exists decls t, (k.2, decls) ∈ sectors /\ (k.1.1, t) ∈ decls /\ k.1.2 ∈ AllSet t) /\ k.1.2 <> FTPiece /\ member rm k.1.1.
Proof.
  unfold unused_files. rewrite list_elem_of_bind. setoid_rewrite list_elem_of_bind. setoid_rewrite list_elem_of_bind.
  rewrite <- in_remove_set_member. destruct k as [[s ft] id]. cbn [fst snd]. split.
  - intros ([id' decls] & ([s' t] & (ft' & Hk & Hft) & Hd) & Hin). cbn [fst snd] in *.
    apply list_elem_of_In, filter_In in Hft as [Hft Hp]. apply list_elem_of_In in Hft. rewrite negb_true_iff, Z.eqb_neq in Hp.
    destruct (in_remove_set rm s') eqn:Hm; [|by apply not_elem_of_nil in Hk]. apply list_elem_of_singleton in Hk as [= -> -> ->].
    rewrite elem_of_enum in Hin. split; [by exists decls, t|]. done.
  - intros ((decls & t & Hin & Hd & Hft) & Hp & Hm). exists (id, decls). split; [|by apply elem_of_enum]. exists (s, t). split; [|done].
    exists ft. cbn [fst snd]. rewrite Hm. split; [by apply list_elem_of_singleton|]. apply list_elem_of_In, filter_In.
    split; [by apply list_elem_of_In|]. by rewrite negb_true_iff, Z.eqb_neq.
Qed.

Lemma run_exec_none {S} x (s s1 s' : S) : run_exec x s s1 = (s', None) -> s' = s1.
Proof. destruct x; cbn; intros E; by injection E as <-. Qed.

Lemma elem_of_all_decls (sectors : path_decls) (d : decl) : d ∈ concat (enum sectors.*2) <-> exists id decls, (id, decls) ∈ sectors /\ d ∈ decls.
Proof.
  rewrite list_elem_of_In, in_concat. split.
  - intros (decls & Hin & Hd). apply list_elem_of_In in Hin, Hd. rewrite elem_of_enum in Hin. apply list_elem_of_fmap in Hin as ([id ds] & -> & Hin). by exists id, ds.
  - intros (id & decls & Hin & Hd). exists decls. split; apply list_elem_of_In; [|done]. rewrite elem_of_enum. apply list_elem_of_fmap. by exists (id, decls).
Qed.

Lemma stage1_spec now fails db sectors aborted v x marks marks' :
  list_paths (enum (map_to_list (storage_path db)).*1) fails db = Ok sectors ->
  stage1 load now sectors aborted v x marks = (marks', None) -> marked_more now (unused db aborted v) marks marks'.
Proof.
  intros El. unfold stage1. destruct (collect load _ ∅ ∅) as [[rm ms]|] eqn:Ec; [|done].
  apply collect_spec in Ec as [[Hl1 Hl2] Hm]; [|split; intros m; rewrite lookup_empty; [by intros []|done]].
  assert (forall s, member rm s <-> exists t, (s, t) ∈ concat (enum sectors.*2) /\ t <> FTPiece) as Hmem.
  { intros s. rewrite Hm. split; [|by right]. intros [(b & E & _)|]; [by rewrite lookup_empty in E|done]. }
  assert (forall k, (exists decls t, (k.2, decls) ∈ sectors /\ (k.1.1, t) ∈ decls /\ k.1.2 ∈ AllSet t) -> k.1.2 <> FTPiece -> member rm k.1.1) as Hin.
  { intros k (decls & t & Hd & Ht & Hft) Hne. apply Hmem. exists t. split; [apply elem_of_all_decls; by exists k.2, decls|].
    intros ->. apply Hne. clear -Hft. unfold AllSet in Hft. vm_compute in Hft. by apply list_elem_of_singleton in Hft. }
  case_bool_decide as Hrm.
  { intros E. destruct x; injection E as <-; try done. eapply marked_more_iff; [|apply marked_more_none]. intros k. split; [done|].
    intros (Hd & Hne & _). apply (sectors_declared _ _ _ _ El) in Hd. specialize (Hin k Hd Hne). destruct Hin as (b & Hb & _).
    rewrite Hrm in Hb. by rewrite lookup_empty in Hb. }
  assert (members_loaded rm ms) as Hml by (split; [|done]; intros s (b & Hb & _); apply Hl1; by exists b).
  destruct (reduce_aborted aborted ms rm) as [rm1|] eqn:E1; [|done]. apply reduce_aborted_spec in E1; [|done].
  destruct (reduce 4 v ms rm1) as [rm2|] eqn:E2; [|done]. apply reduce_spec in E2; [|by eapply members_loaded_less].
  destruct (run_exec x marks _) as [m1 e] eqn:Er. intros [= <- He]. destruct e; [done|]. apply run_exec_none in Er as ->.
  apply marked_more_insert. intros k. rewrite elem_of_unused_files, (sectors_declared _ _ _ _ El). unfold unused.
  pose proof (E2 k.1.1) as H2. pose proof (E1 k.1.1) as H1. rewrite H2, H1. split.
  - intros (Hd & Hne & (Hrm1 & Hab) & Hu). split_and!; try done. intros a Ha Hu'. apply Hab. by exists a.
  - intros (Hd & Hne & Hu & Hab). split_and!; try done; [apply Hin; [by apply (sectors_declared _ _ _ _ El)|done]|].
    intros (a & Ha & Hu'). by apply (Hab a).
Qed.

(** An unsealed file that is to be kept sealed only, without an unseal under way. *)
Definition unwanted (v : gc_view) (k : loc_key) : Prop :=
  k.1.2 = FTUnsealed /\ is_Some (sector_location (gv_index v) !! k) /\
  (exists r, sectors_meta v !! k.1.1 = Some r /\ sm_target_unseal_state r = Some false) /\ k.1.1 ∉ sectors_unseal_pipeline v.

Lemma stage2_spec now v x marks marks' : stage2 now v x marks = (marks', None) -> marked_more now (unwanted v) marks marks'.
Proof.
  unfold stage2. destruct (run_exec x marks _) as [m1 e] eqn:Er. intros [= <- He]. destruct e; [done|]. apply run_exec_none in Er as ->.
  apply marked_more_insert. intros k. unfold unwanted_unsealed, unwanted. rewrite list_elem_of_bind. split.
  - intros (k' & Hk & Hin). rewrite elem_of_enum in Hin. apply list_elem_of_fmap in Hin as ([k0 r] & -> & Hr). apply elem_of_map_to_list in Hr. cbn [fst] in Hk.
    destruct (_ && _ && _) eqn:Hc; [|by apply not_elem_of_nil in Hk]. apply list_elem_of_singleton in Hk as ->. bool_props.
    destruct (sectors_meta v !! k0.1.1) as [mr|] eqn:Hmr; [|done]. split_and!; [done|by exists r|by exists mr|done].
  - intros (Hft & [r Hr] & (mr & Hmr & Ht) & Hp). exists k. split.
    + destruct k as [[s ft] id]. cbn [fst snd] in *. rewrite (proj2 (Z.eqb_eq ft 1) Hft). rewrite !bool_decide_eq_true_2; [by apply list_elem_of_singleton|done|].
      rewrite Hmr. exact Ht.
    + rewrite elem_of_enum. apply list_elem_of_fmap. exists (k, r). split; [done|]. by apply elem_of_map_to_list.
Qed.

(** ** Sector keys *)

Lemma update_bits i : 0 <= i -> Z.testbit update_types i = (i =? 3) || (i =? 4).
Proof.
  intros Hi. unfold update_types, FTUpdate, FTUpdateCache. rewrite Z.lor_spec, !Z.shiftl_1_l, !Z.pow2_bits_eqb by lia.
  by rewrite (Z.eqb_sym 3), (Z.eqb_sym 4).
Qed.

Lemma with_update_bits (ds : list decl) (m : gmap SectorID SectorFileType) s i : 0 <= i ->
  Z.testbit (default 0 (foldl (fun m (d : decl) =>
    if Z.land d.2 update_types =? 0 then m else <[d.1 := Z.lor (default 0 (m !! d.1)) (Z.land d.2 update_types)]> m) m ds !! s)) i =
  Z.testbit (default 0 (m !! s)) i || existsb (fun d : decl => bool_decide (d.1 = s) && Z.testbit (Z.land d.2 update_types) i) ds.
Proof.
  intros Hi. revert m. induction ds as [|d ds IH]; intros m; cbn [foldl existsb]; [by rewrite orb_false_r|]. rewrite IH.
  destruct (Z.eqb_spec (Z.land d.2 update_types) 0) as [E|Hne].
  - rewrite E, Z.bits_0, andb_false_r. done.
  - destruct (decide (d.1 = s)) as [->|Hs].
    + rewrite lookup_insert_eq, bool_decide_eq_true_2 by done. cbn [from_option id]. rewrite Z.lor_spec. by rewrite orb_assoc.
    + rewrite lookup_insert_ne by done. by rewrite bool_decide_eq_false_2.
Qed.

(** Both update files are declared, on whatever paths. *)
Lemma with_update_spec (sectors : path_decls) s : default 0 (sectorsWithUpdate sectors !! s) = update_types <->
  (exists t, (s, t) ∈ concat (enum sectors.*2) /\ FTUpdate ∈ AllSet t) /\
  (exists t, (s, t) ∈ concat (enum sectors.*2) /\ FTUpdateCache ∈ AllSet t).
Proof.
  unfold sectorsWithUpdate. set (ds := concat _). set (v := default 0 _).
  assert (forall i, 0 <= i -> Z.testbit v i = existsb (fun d : decl => bool_decide (d.1 = s) && Z.testbit (Z.land d.2 update_types) i) ds) as Hv.
  { intros i Hi. unfold v. rewrite with_update_bits by done. rewrite lookup_empty. cbn [from_option id]. by rewrite Z.bits_0. }
  assert (forall i, 0 <= i < 7 -> Z.testbit update_types i = true ->
            (Z.testbit v i = true <-> exists t, (s, t) ∈ ds /\ Z.shiftl 1 i ∈ AllSet t)) as Hbit.
  { intros i Hi Hu. rewrite Hv, existsb_exists by lia. setoid_rewrite elem_of_AllSet. split.
    - intros ([s' t] & Hd & Hc). apply andb_true_iff in Hc as [Hs Hc]. apply bool_decide_eq_true in Hs. cbn [fst snd] in *. subst s'.
      rewrite Z.land_spec in Hc. apply andb_true_iff in Hc as [Hc _]. exists t. split; [by apply list_elem_of_In|].
      split; [by apply single_in_PathTypes|]. by rewrite Has_single by lia.
    - intros (t & Hd & _ & Hh). exists (s, t). split; [by apply list_elem_of_In|]. cbn [fst snd]. rewrite bool_decide_eq_true_2 by done.
      rewrite Z.land_spec, Hu. rewrite Has_single in Hh by lia. by rewrite Hh. }
  change FTUpdate with (Z.shiftl 1 3). change FTUpdateCache with (Z.shiftl 1 4).
  rewrite <- (Hbit 3), <- (Hbit 4) by (lia || done). split.
  - intros ->. by split.
  - intros [H3 H4]. apply Z.bits_inj'. intros i Hi. rewrite update_bits by done.
    destruct (Z.eqb_spec i 3) as [->|H3']; [done|]. destruct (Z.eqb_spec i 4) as [->|H4']; [done|]. cbn [orb]. rewrite Hv by done.
    apply not_true_is_false. rewrite existsb_exists. intros (d & _ & Hc). apply andb_true_iff in Hc as [_ Hc].
    rewrite Z.land_spec, update_bits in Hc by done. apply andb_true_iff in Hc as [_ Hc].
    rewrite (proj2 (Z.eqb_neq _ _) H3'), (proj2 (Z.eqb_neq _ _) H4') in Hc. done.
Qed.

Variable head : option (Z * Z).
Variable EpochsInDay : Z.
Variable tipset_ok : Z -> bool.
Variable load_at : Z -> Z -> option MinerState.

Lemma load_miners_spec h ids states : load_miners load_at h ids = Some states ->
  forall m st, states !! m = Some st <-> m ∈ ids /\ load_at h m = Some st.
Proof.
  revert states. induction ids as [|i ids IH]; intros states; cbn [load_miners].
  { intros [= <-] m st. rewrite lookup_empty, elem_of_nil. naive_solver. }
  destruct (load_at h i) as [st0|] eqn:E0; [|done]. destruct (load_miners load_at h ids) as [l|]; [|done]. intros [= <-] m st.
  rewrite elem_of_cons. destruct (decide (m = i)) as [->|Hne].
  - rewrite lookup_insert_eq, E0. naive_solver.
  - rewrite lookup_insert_ne by done. rewrite (IH l eq_refl). naive_solver.
Qed.

Lemma key_marks_spec states updates l out : key_marks states updates l = Ok out ->
  forall s, s ∈ out <-> s ∈ l /\ exists st, states !! Miner s = Some st /\ GetSector st (Number s) = Some (Some true) /\
                          default 0 (updates !! s) = update_types.
Proof.
  revert out. induction l as [|s0 l IH]; intros out; cbn [key_marks].
  { intros [= <-] s. rewrite !elem_of_nil. naive_solver. }
  intros E s. rewrite elem_of_cons.
  destruct (states !! Miner s0) as [st|] eqn:Es; [|rewrite (IH out E); naive_solver].
  destruct (GetSector st (Number s0)) as [[[|]|]|] eqn:Eg; [| | |done]; [|rewrite (IH out E); naive_solver|rewrite (IH out E); naive_solver].
  destruct (Z.eqb_spec (default 0 (updates !! s0)) update_types) as [Eu|Hu]; [|rewrite (IH out E); naive_solver].
  destruct (key_marks states updates l) as [l'|]; [|done]. injection E as <-. rewrite elem_of_cons, (IH l' eq_refl). naive_solver.
Qed.

Lemma elem_of_snap_sectors v s : s ∈ snap_sectors v <-> exists r, sectors_meta v !! s = Some r /\ sm_has_sector_key r = true.
Proof.
  unfold snap_sectors. rewrite list_elem_of_bind. setoid_rewrite elem_of_enum. split.
  - intros ([s' r] & Hs & Hr). apply elem_of_map_to_list in Hr. cbn [fst snd] in Hs. destruct (sm_has_sector_key r) eqn:Hk; [|by apply not_elem_of_nil in Hs].
    apply list_elem_of_singleton in Hs as ->. by exists r.
  - intros (r & Hr & Hk). exists (s, r). split; [|by apply elem_of_map_to_list]. cbn [fst snd]. rewrite Hk. by apply list_elem_of_singleton.
Qed.

(** A sealed file of a sector whose state at finality has a sector key, and whose
    update and update cache are both declared. *)
Definition replaced (db : index_db) (v v' : gc_view) (k : loc_key) : Prop :=
  declared db k /\ k.1.2 = FTSealed /\
  (exists r, sectors_meta v' !! k.1.1 = Some r /\ sm_has_sector_key r = true) /\
  (exists s r, Miner s = Miner k.1.1 /\ sectors_meta v !! s = Some r /\ sm_has_sector_key r = true) /\
  (exists height lookback st, head = Some (height, lookback) /\
     load_at (finality_height EpochsInDay height lookback) (Miner k.1.1) = Some st /\ GetSector st (Number k.1.1) = Some (Some true)) /\
  (exists id, declared db (k.1.1, FTUpdate, id)) /\ (exists id, declared db (k.1.1, FTUpdateCache, id)).

Lemma declared_anywhere fails db sectors s ft :
  list_paths (enum (map_to_list (storage_path db)).*1) fails db = Ok sectors ->
  (exists t, (s, t) ∈ concat (enum sectors.*2) /\ ft ∈ AllSet t) <-> exists id, declared db (s, ft, id).
Proof.
  intros El. setoid_rewrite elem_of_all_decls. split.
  - intros (t & (id & decls & Hin & Hd) & Hft). exists id. apply (sectors_declared _ _ _ _ El). by exists decls, t.
  - intros (id & Hdecl). apply (sectors_declared _ _ _ _ El) in Hdecl as (decls & t & Hin & Hd & Hft). exists t. split; [by exists id, decls|done].
Qed.

Lemma elem_of_key_files (sectors : path_decls) marked k : k ∈ key_files sectors marked <->
  (exists decls t, (k.2, decls) ∈ sectors /\ (k.1.1, t) ∈ decls /\ k.1.2 ∈ AllSet t) /\ k.1.2 = FTSealed /\ k.1.1 ∈ marked.
Proof.
  unfold key_files. rewrite list_elem_of_bind. setoid_rewrite list_elem_of_bind. setoid_rewrite elem_of_enum. setoid_rewrite elem_of_AllSet.
  destruct k as [[s ft] id]. cbn [fst snd]. split.
  - intros ([id' decls] & ([s' t] & Hk & Hd) & Hin). cbn [fst snd] in *. destruct (Has t FTSealed && _) eqn:Hc; [|by apply not_elem_of_nil in Hk].
    apply list_elem_of_singleton in Hk as [= -> -> ->]. apply andb_true_iff in Hc as [Hh Hm]. apply bool_decide_eq_true in Hm.
    split; [|done]. exists decls, t. split_and!; [done|done|by apply (single_in_PathTypes 1); lia|done].
  - intros ((decls & t & Hin & Hd & _ & Hh) & -> & Hm). exists (id, decls). split; [|done]. exists (s, t). split; [|done]. cbn [fst snd].
    rewrite Hh, bool_decide_eq_true_2 by done. by apply list_elem_of_singleton.
Qed.

Lemma stage3_spec now fails db sectors v v' q q' x marks marks' :
  list_paths (enum (map_to_list (storage_path db)).*1) fails db = Ok sectors ->
  stage3 head EpochsInDay tipset_ok load_at now sectors v v' q q' x marks = (marks', None) ->
  marked_more now (replaced db v v') marks marks'.
Proof.
  intros El. unfold stage3, replaced. destruct head as [[height lookback]|] eqn:Eh; [|done]. set (h := finality_height _ _ _).
  destruct (tipset_ok h); [|done]. cbn [negb]. destruct q; [done|]. destruct (load_miners load_at h _) as [states|] eqn:Em; [|done]. destruct q'; [done|].
  destruct (key_marks states _ _) as [out|] eqn:Ek; [|done]. destruct (run_exec x marks _) as [m1 e] eqn:Er.
  intros [= <- He]. destruct e; [done|]. apply run_exec_none in Er as ->. apply marked_more_insert. intros k.
  rewrite elem_of_key_files, (sectors_declared _ _ _ _ El), (key_marks_spec _ _ _ _ Ek).
  setoid_rewrite (load_miners_spec _ _ _ Em). setoid_rewrite elem_of_remove_dups. setoid_rewrite with_update_spec.
  setoid_rewrite (declared_anywhere _ _ _ _ _ El). rewrite elem_of_snap_sectors.
  assert (Miner k.1.1 ∈ Miner <$> snap_sectors v <-> exists s r, Miner s = Miner k.1.1 /\ sectors_meta v !! s = Some r /\ sm_has_sector_key r = true) as Hms.
  { rewrite list_elem_of_fmap. setoid_rewrite elem_of_snap_sectors. split; [intros (s & E & r & ?)|intros (s & r & E & ?)]; exists s; eauto. }
  setoid_rewrite Hms. split.
  - intros (Hd & Hs & Hk & st & (Hm & Hst) & Hg & Hup). split_and!; try done; [exists height, lookback, st; done|apply Hup|apply Hup].
  - intros (Hd & Hs & Hk & Hm & (height' & lookback' & st & [= <- <-] & Hst & Hg) & Hu1 & Hu2).
    split_and!; try done. exists st. split_and!; done.
Qed.

(** C27: a run of the mark task that succeeds leaves every existing mark as it is,
    approved or not, and adds an unapproved mark for exactly the files that are
    declared in the index and either are no piece and belong to a sector that no
    attempt of its transaction found pinned, in the sealing pipeline,
    precommitted, live or unproven; or are unsealed, wanted sealed only and not
    being unsealed; or are the sealed file of a sector whose state at finality has
    a sector key and whose two update files are declared.  So the documented
    conditions (not pinned, not in the pipeline, not precommitted, live or unproven)
    hold for the marks of the first kind only: a file of a sector that is in use, and
    in particular pinned, is marked exactly when it is of the second or third kind,
    which do not look at the pins, contrary to the documentation ([pin_ignored]). *)
Theorem mark_exact (r : mark_run) (marks marks' : marks_table) (k : loc_key) :
  StorageGCMark_Do load head EpochsInDay tipset_ok load_at r marks = (marks', None) ->
  let garbage := unused (gv_index (mr_view0 r)) (mr_aborted r) (mr_view1 r) k \/ unwanted (mr_view2 r) k \/
                 replaced (gv_index (mr_view0 r)) (mr_view3 r) (mr_view3' r) k in
  match marks !! k with
  | Some row => marks' !! k = Some row
  | None => (garbage /\ marks' !! k = Some (mkMark (mr_now r) false None)) \/ (~ garbage /\ marks' !! k = None)
  end /\
  (in_use 4 (mr_view1 r) k.1.1 ->
     (garbage <-> unwanted (mr_view2 r) k \/ replaced (gv_index (mr_view0 r)) (mr_view3 r) (mr_view3' r) k)).
Proof.
  unfold StorageGCMark_Do. destruct (mr_paths r); [done|]. destruct (list_paths _ _ _) as [sectors|] eqn:El; [|done].
  destruct (stage1 load _ sectors _ _ _ marks) as [m1 [e|]] eqn:E1; [done|]. destruct (stage2 _ _ _ m1) as [m2 [e|]] eqn:E2; [done|]. intros E3.
  pose proof (stage1_spec _ _ _ _ _ _ _ _ _ El E1) as H1. pose proof (stage2_spec _ _ _ _ _ E2) as H2.
  pose proof (stage3_spec _ _ _ _ _ _ _ _ _ _ _ El E3) as H3.
  pose proof (marked_more_trans _ _ _ _ _ _ H1 (marked_more_trans _ _ _ _ _ _ H2 H3) k) as Hall. split; [exact Hall|].
  intros Hu. split; [|tauto]. intros [(_ & _ & Hn & _)|Hg]; [done|exact Hg].
Qed.
End MarkFacts.

(** ** A run *)

(** A miner with sector 7 live, sector 8 precommitted, and sector 9, which it no
    longer has; sector 10 was updated. *)
Definition ex_miner : MinerState :=
  mkMiner (Some [8]) (Some [[(Some {[7; 10]}, Some ∅)]; []]) (fun n => if n =? 10 then Some (Some true) else Some None).

Definition ex_loc : loc_row := mkLoc true None 0 None None.
Definition ex_path : path_row :=
  mkPath (Some "http://a/remote"%string) 1 0 true true "" "" "" "" 0 0 0 0 0 0 None "" "".

Definition ex_gc_index : index_db :=
  mkIndex {[ "p1"%string := ex_path ]}
    (list_to_map (map (fun nf => ((mkSectorID 1000 nf.1, nf.2, "p1"%string), ex_loc))
       [(7, FTSealed); (8, FTSealed); (9, FTSealed); (9, FTCache); (10, FTSealed); (10, FTUpdate); (10, FTUpdateCache); (7, FTUnsealed)])).

Definition ex_view : gc_view :=
  mkView [] [] {[ mkSectorID 1000 7 := mkMeta (Some false) false; mkSectorID 1000 10 := mkMeta None true ]} [] ex_gc_index.

Definition ex_mark_run : mark_run :=
  mkRun 50 None (fun _ => None) ex_view [(1%nat, ex_view)] ex_view Applied ex_view Applied ex_view None ex_view None Applied.

Definition ex_load (m : Z) : option MinerState := if m =? 1000 then Some ex_miner else None.

(** Four files are marked: two of the sector that is gone, the unsealed file that
    is not wanted, and the sealed file that was replaced. *)
Lemma mark_exact_witness :
  exists marks', StorageGCMark_Do ex_load (Some (5000, 900)) 2880 (fun _ => true) (fun _ => ex_load) ex_mark_run ∅ = (marks', None) /\
    length (map_to_list marks') = 4%nat /\
    let k : loc_key := (mkSectorID 1000 9, FTCache, "p1"%string) in
    marks' !! k = Some (mkMark 50 false None) /\
    let garbage := unused ex_load ex_gc_index [(1%nat, ex_view)] ex_view k \/ unwanted ex_view k \/
                   replaced (Some (5000, 900)) 2880 (fun _ => ex_load) ex_gc_index ex_view ex_view k in
    (garbage /\ marks' !! k = Some (mkMark 50 false None)) \/ (~ garbage /\ marks' !! k = None).
Proof.
  destruct (StorageGCMark_Do ex_load (Some (5000, 900)) 2880 (fun _ => true) (fun _ => ex_load) ex_mark_run ∅) as [marks' e] eqn:E.
  assert (e = None) as -> by (apply (f_equal snd) in E; vm_compute in E; by rewrite <- E).
  exists marks'. split; [done|]. split; [pose proof (f_equal (fun x => length (map_to_list x.1)) E) as E'; vm_compute in E'; exact (eq_sym E')|].
  split.
  - pose proof (f_equal (fun x => x.1 !! ((mkSectorID 1000 9, FTCache, "p1"%string) : loc_key)) E) as E'. vm_compute in E'. exact (eq_sym E').
  - exact (proj1 (mark_exact ex_load (Some (5000, 900)) 2880 (fun _ => true) (fun _ => ex_load) ex_mark_run ∅ marks'
             (mkSectorID 1000 9, FTCache, "p1"%string) E)).
Defined.

(** A pin protects a sector only in the first stage. *)
Lemma pin_ignored :
  let v := mkView [mkSectorID 1000 7] [] (sectors_meta ex_view) [] ex_gc_index in
  let r := mkRun 50 None (fun _ => None) v [] v Applied v Applied v None v None Applied in
  (StorageGCMark_Do ex_load (Some (5000, 900)) 2880 (fun _ => true) (fun _ => ex_load) r ∅).1 !! ((mkSectorID 1000 7, FTUnsealed, "p1"%string) : loc_key)
  = Some (mkMark 50 false None).
Proof. vm_compute. reflexivity. Qed.
