(* ===== verification/GCSweep.v ===== *)
(** * Removing approved files

    [tasks/gc/storage_gc_sweep.go] with [Remove] of [lib/paths/remote.go] and the
    handler that serves it on other nodes ([lib/paths/http_handler.go]): the sweep
    task takes the oldest approved mark, computes where the file has to stay,
    deletes the mark and removes the file everywhere else.  It is written against
    the interface of the index. *)

From stdpp Require Import base gmap sets list strings.
From Stdlib Require Import ZArith Lia Ascii.
From S2P Require Import Prelude FileType SectorLocks GoStd StorageIndex StorageIndexFacts IndexDbLocks IndexInterface LocalStorage LocalFacts LocalIndex LocalIndexFacts StorageGC.

(** ** Lists of storage ids in a URL ([lib/storiface/index.go]) *)

Definition IDSep : ascii := ".".

Definition IDList_String (l : list string) : string := Join IDSep l.

Definition ParseIDList (s : string) : list string := Split IDSep s.

(** A node with its paths, and what it sees of its disks. *)
Record store_node := mkStoreNode { nd_local : Local; nd_stat : string -> option FsStat; nd_usage : string -> usage }.

Section Sweep.
Context {IX : Type} `{SectorIndex IX} `{Enum}.
(** The node that answers a URL, with the sector and the type it parses from it;
    whether the reply arrives and is good. *)
Variable serve : string -> option (store_node * SectorID * SectorFileType).
Variable replies : string -> bool.
Implicit Types (ix : IX) (nd : store_node) (removed : list string).

(** ** [Remote.Remove] *)

(** [Remove] of the local store of a node, with the files it deletes. *)
Definition node_remove nd (sid : SectorID) (typ : SectorFileType) (force : bool) (keepIn : list string) ix : IX * list string * option local_error :=
  Remove (nd_stat nd) (nd_usage nd) sid typ force keepIn (nd_local nd) ix.

(** The handler of another node ([remoteDeleteSector]). *)
Definition deleteFromRemote (url : string) (keepIn : list string) ix removed : IX * list string * bool :=
  match serve url with
  | None => (ix, removed, false)
  | Some (nd, sid, ft) =>
      let '(ix, rm, e) := node_remove nd sid ft false (ParseIDList (IDList_String keepIn)) ix in
      (ix, removed ++ rm, match e with None => replies url | Some _ => false end)
  end.

(** The URLs of a path, until one works. *)
Fixpoint delete_urls (urls : list string) (keepIn : list string) ix removed : IX * list string :=
  match urls with
  | [] => (ix, removed)
  | url :: urls =>
      match deleteFromRemote url keepIn ix removed with
      | (ix, removed, true) => (ix, removed)
      | (ix, removed, false) => delete_urls urls keepIn ix removed
      end
  end.

Fixpoint delete_paths (si : list SectorStorageInfo) (keepIn : list string) ix removed : IX * list string :=
  match si with
  | [] => (ix, removed)
  | info :: si =>
      if bool_decide (ssi_ID info ∈ keepIn) then delete_paths si keepIn ix removed
      else let '(ix, removed) := delete_urls (ssi_URLs info) keepIn ix removed in delete_paths si keepIn ix removed
  end.

Definition Remote_Remove nd (sid : SectorID) (typ : SectorFileType) (force : bool) (keepIn : list string) ix
    : IX * list string * option local_error :=
  if negb (one_bit typ) then (ix, [], Some OneFileType)
  else
    match node_remove nd sid typ force keepIn ix with
    | (ix, removed, Some e) => (ix, removed, Some e)
    | (ix, removed, None) =>
        match ix_find sid typ 0 false ix with
        | (ix, Err e) => (ix, removed, Some (IndexFailed e))
        | (ix, Ok si) => let '(ix, removed) := delete_paths si keepIn ix removed in (ix, removed, None)
        end
    end.

(** ** The task *)

Inductive sweep_error := SweepSql (e : sql_error) | NoApprovedAt | SweepIndex (e : index_error) | SweepRemove (e : local_error).

(** [ORDER BY created_at LIMIT 1] *)
Fixpoint oldest (l : list (loc_key * mark_row)) : option (loc_key * mark_row) :=
  match l with
  | [] => None
  | m :: l =>
      match oldest l with
      | Some m' => if mk_created_at m'.2 <? mk_created_at m.2 then Some m' else Some m
      | None => Some m
      end
  end.

Definition next_mark (marks : marks_table) : option (loc_key * mark_row) :=
  oldest (List.filter (fun m => mk_approved m.2) (enum (map_to_list marks))).

(** What happens in an iteration: the answer of [stillOwned], the query, the deletion
    of the mark, and what others do to the index between the look-up and the removal. *)
Record sweep_input := mkSweep { sw_owned : bool; sw_query : option sql_error; sw_delete : exec; sw_others : IX -> IX }.

Record sweep_state := mkSweepState { sw_marks : marks_table; sw_ix : IX; sw_removed : list string }.

Inductive sweep_next := SweepDone (r : result bool sweep_error) (s : sweep_state) | SweepNext (s : sweep_state).

Definition sweep_iter nd (f : sweep_input) (s : sweep_state) : sweep_next :=
  if negb (sw_owned f) then SweepDone (Ok false) s
  else
    match sw_query f with
    | Some e => SweepDone (Err (SweepSql e)) s
    | None =>
        match next_mark (sw_marks s) with
        | None => SweepDone (Ok true) s
        | Some ((sid, typ, storage), row) =>
            match mk_approved_at row with
            | None => SweepDone (Err NoApprovedAt) s
            | Some _ =>
                match ix_find sid typ 0 false (sw_ix s) with
                | (ix, Err e) => SweepDone (Err (SweepIndex e)) (mkSweepState (sw_marks s) ix (sw_removed s))
                | (ix, Ok si) =>
                    let ix := sw_others f ix in
                    let keepIn := List.filter (fun id => negb (bool_decide (id = storage))) (map ssi_ID si) in
                    match run_exec (sw_delete f) (sw_marks s) (delete (sid, typ, storage) (sw_marks s)) with
                    | (marks, Some e) => SweepDone (Err (SweepSql e)) (mkSweepState marks ix (sw_removed s))
                    | (marks, None) =>
                        match Remote_Remove nd sid typ true keepIn ix with
                        | (ix, rm, Some e) => SweepDone (Err (SweepRemove e)) (mkSweepState marks ix (sw_removed s ++ rm))
                        | (ix, rm, None) => SweepNext (mkSweepState marks ix (sw_removed s ++ rm))
                        end
                    end
                end
            end
        end
    end.

(** [StorageGCSweep.Do], over the inputs of its iterations; [None] is a run that is
    not over. *)
Fixpoint StorageGCSweep_Do nd (fs : list sweep_input) (s : sweep_state) : option (result bool sweep_error) * sweep_state :=
  match fs with
  | [] => (None, s)
  | f :: fs =>
      match sweep_iter nd f s with
      | SweepDone r s => (Some r, s)
      | SweepNext s => StorageGCSweep_Do nd fs s
      end
  end.
End Sweep.

(** ** What the sweep relies on *)

(** The files on attached paths: what [StorageFindSector] answers, and that the
    other operations take away at most the file they name. *)
Class SectorHolders (IX : Type) `{SectorIndex IX} := {
  ih_holds : IX -> loc_key -> Prop;
  ih_find : forall s ft ssize ix ix' l, ft ∈ PathTypes -> ix_find s ft ssize false ix = (ix', Ok l) ->
    forall id, id ∈ map ssi_ID l <-> ih_holds ix (s, ft, id);
  ih_find_same : forall s ft ssize fetch ix ix' r, ix_find s ft ssize fetch ix = (ix', r) ->
    forall k, ih_holds ix' k <-> ih_holds ix k;
  ih_drop : forall id s ft ix ix' e, ix_drop id s ft ix = (ix', e) ->
    forall k, (ih_holds ix' k -> ih_holds ix k) /\ (k <> (s, ft, id) -> ih_holds ix k -> ih_holds ix' k);
  ih_health : forall id st ix ix' e, ix_health id st ix = (ix', e) -> forall k, ih_holds ix' k <-> ih_holds ix k
}.
