(* ===== verification/GCSweepFacts.v ===== *)
(** * What the sweep task removes

    Nothing but approved files leaves the index or the disks in an iteration, whatever
    fails, apart from copies that are declared while it removes; and the task ends. *)

From stdpp Require Import base gmap sets list strings.
From Stdlib Require Import ZArith Lia Ascii.
From S2P Require Import Prelude FileType SectorLocks GoStd StorageIndex StorageIndexFacts IndexDbLocks IndexInterface LocalStorage LocalFacts LocalIndex LocalIndexFacts StorageGC GCSweep.

(** ** The database index holds what it finds *)

Section DbHolders.
Context `{Enum}.
Variable url_parse : string -> bool.
Variable url_sector : string -> SectorFileType -> SectorID -> option string.
Variable address_id : string -> option Z.

#[local] Instance db_index : SectorIndex DbIx := DbIx_index url_parse url_sector address_id.

Definition db_holds (ix : DbIx) (k : loc_key) : Prop :=
  is_Some (storage_path (ix_db ix) !! k.2) /\ is_Some (sector_location (ix_db ix) !! k).

Lemma find_sector_ids s ft ssize now q1 q2 db l id : ft ∈ PathTypes ->
  findSectorUncached url_sector address_id s ft ssize false now q1 q2 db = Ok l ->
  id ∈ map ssi_ID l <-> is_Some (storage_path db !! id) /\ is_Some (sector_location db !! (s, ft, id)).
Proof.
  intros Hft. unfold findSectorUncached. destruct q1; [done|]. case_match; [done|].
  destruct (holders_loop url_sector ft s _ (Some []) []) as [[res al]|] eqn:E; [|done]. cbn [negb]. intros [= <-].
  apply holders_loop_ok in E as (infos & -> & Hf & _). cbn [app]. rewrite (Forall2_infos _ _ _ _ _ Hf).
  assert (AllSet ft = [ft]) as Has.
  { repeat (apply elem_of_cons in Hft as [->|Hft]; [reflexivity|]). by apply not_elem_of_nil in Hft. }
  assert (types_on db s (AllSet ft) id <> [] <-> is_Some (sector_location db !! (s, ft, id))) as <-.
  { rewrite Has. unfold types_on. cbn [List.filter]. case_bool_decide; naive_solver. }
  split.
  - intros Hi. apply list_elem_of_In, in_map_iff in Hi as ([[[id' r] c] p] & <- & Hi). apply list_elem_of_In, elem_of_holder_rows in Hi as (Hr & Ht & _).
    cbn. split; [by exists r|done].
  - intros [[r Hr] Ht]. apply list_elem_of_In, in_map_iff. eexists (id, r, _, _). split; [done|]. apply list_elem_of_In, elem_of_holder_rows. by split_and!.
Qed.

Lemma health_db id st now x db db' e :
  match StorageReportHealth id st [(now, x)] None db with (d, Some e) => (d, e) | (d, None) => (d, Some (SqlFailed SqlSerialization)) end = (db', e) ->
  sector_location db' = sector_location db /\ forall i, is_Some (storage_path db' !! i) <-> is_Some (storage_path db !! i).
Proof.
  assert (sector_location (health_update id st now db) = sector_location db /\
          forall i, is_Some (storage_path (health_update id st now db) !! i) <-> is_Some (storage_path db !! i)) as Hu.
  { unfold health_update. cbn [sector_location storage_path]. split; [done|]. intros i. apply lookup_alter_is_Some. }
  cbn [StorageReportHealth]. destruct x; cbn; intros E; repeat (case_match; simplify_eq/=); simplify_eq; done.
Qed.

Lemma run_op_db f ix ix' e : run_op f ix = (ix', e) -> exists x, f x (ix_db ix) = (ix_db ix', e).
Proof.
  unfold run_op. destruct (pop ix) as [x ix1] eqn:Hp. destruct (f x (ix_db ix1)) as [db e'] eqn:Hf.
  intros [= <- <-]. exists x. apply pop_db in Hp. by rewrite <- Hp.
Qed.

#[export] Instance DbIx_holders : SectorHolders DbIx.
Proof.
  refine {| ih_holds := db_holds |}; unfold db_holds; cbn.
  - intros s ft ssize ix ix' l Hft. destruct (pop ix) as [x ix1] eqn:Hp. unfold run_query. destruct (pop ix1) as [x2 ix2] eqn:Hp2.
    intros [= <- E] id. apply pop_db in Hp, Hp2. rewrite (find_sector_ids _ _ _ _ _ _ _ _ id Hft E), Hp2, Hp. done.
  - intros s ft ssize fetch ix ix' r. destruct (pop ix) as [x ix1] eqn:Hp. unfold run_query. destruct (pop ix1) as [x2 ix2] eqn:Hp2.
    intros [= <- _] k. apply pop_db in Hp, Hp2. by rewrite Hp2, Hp.
  - intros id s ft ix ix' e E k. apply run_op_db in E as [x E]. unfold StorageDropSector in E.
    destruct (negb (checkFileType ft)); [by injection E as -> _|]. unfold sql_fail in E.
    assert (ix_db ix' = ix_db ix \/ ix_db ix' = mkIndex (storage_path (ix_db ix)) (delete (s, ft, id) (sector_location (ix_db ix)))) as [->| ->]; [|done|].
    { destruct x; cbn in E; injection E as <- _; auto. }
    cbn [storage_path sector_location]. destruct (decide (k = (s, ft, id))) as [->|Hne].
    + rewrite lookup_delete_eq. split; [by intros [_ [? ?]]|done].
    + by rewrite lookup_delete_ne.
  - intros id st ix ix' e E k. apply run_op_db in E as [x E]. apply health_db in E as [Hl Hs]. by rewrite Hs, Hl.
Defined.
End DbHolders.

Section SweepFacts.
Context {IX : Type} `{SectorIndex IX} `{Enum} `{!SectorHolders IX}.
Variable serve : string -> option (store_node * SectorID * SectorFileType).
Variable replies : string -> bool.
Variable nd : store_node.
(** The URLs that the index gives for a file name that file. *)
Hypothesis urls_name : forall s ft ssize (ix ix' : IX) l info url nd' s' ft', ix_find s ft ssize false ix = (ix', Ok l) ->
  info ∈ l -> url ∈ ssi_URLs info -> serve url = Some (nd', s', ft') -> s' = s /\ ft' = ft.

Definition a_node (nd' : store_node) : Prop := nd' = nd \/ exists url s ft, serve url = Some (nd', s, ft).

(** ** Losing files *)

(** Files are lost only to [P], in the index and on the disks of the nodes. *)
Definition loses (P : loc_key -> Prop) (a b : IX * list string) : Prop :=
  (forall k, ih_holds b.1 k -> ih_holds a.1 k) /\ (forall k, ih_holds a.1 k -> ~ P k -> ih_holds b.1 k) /\
  (forall f, f ∈ b.2 -> f ∈ a.2 \/ exists k nd' p, P k /\ a_node nd' /\ lookup_path (nd_local nd') k.2 = Some p /\ f = sectorPath p k.1.1 k.1.2).

Lemma loses_refl P a : loses P a a.
Proof. split_and!; auto. Qed.

Lemma loses_trans P a b c : loses P a b -> loses P b c -> loses P a c.
Proof.
  intros (H1 & H2 & H3) (G1 & G2 & G3). split_and!; [auto|auto|]. intros f Hf. apply G3 in Hf as [Hf|Hf]; [by apply H3|by right].
Qed.

Lemma loses_same P (a b : IX) rm : (forall k, ih_holds b k <-> ih_holds a k) -> loses P (a, rm) (b, rm).
Proof. intros Hs. split_and!; cbn; [apply Hs|intros k Hk _; by apply Hs|auto]. Qed.

Lemma loses_weaken (P Q : loc_key -> Prop) a b : (forall k, P k -> Q k) -> loses P a b -> loses Q a b.
Proof.
  intros HPQ (H1 & H2 & H3). split_and!; [done|auto|]. intros f Hf. apply H3 in Hf as [Hf|(k & nd' & p & Hk & Hr)]; [by left|right].
  exists k, nd', p. split; [by apply HPQ|done].
Qed.

Lemma reportStorage_holds fs du st (ix : IX) k : ih_holds (reportStorage fs du st ix) k <-> ih_holds ix k.
Proof.
  unfold reportStorage. generalize (enum (map_to_list (paths st))). intros l. revert ix. induction l as [|[id ptr] l IH]; intros ix; cbn [foldl]; [done|].
  rewrite IH. match goal with |- ih_holds (ix_health ?i ?s ix).1 _ <-> _ => destruct (ix_health i s ix) as [ix' e] eqn:E end.
  exact (ih_health _ _ _ _ _ E k).
Qed.

(** ** [Remove] on one node *)

Lemma remove_loop_loses nd' sid typ l (ix ix' : IX) rm rm' e : a_node nd' ->
  remove_loop (nd_stat nd') (nd_usage nd') sid typ l (nd_local nd') ix rm = (ix', rm', e) ->
  loses (fun k => exists id, id ∈ l /\ k = (sid, typ, id)) (ix, rm) (ix', rm').
Proof.
  intros Hnd. revert ix rm. induction l as [|id l IH]; intros ix rm; cbn [remove_loop].
  { intros [= <- <- <-]. apply loses_refl. }
  destruct (removeSector _ _ _ _ _ _ _ _) as [[ix1 rm1] e1] eqn:E1.
  assert (loses (fun k => k = (sid, typ, id)) (ix, rm) (ix1, rm1)) as L1.
  { unfold removeSector in E1. destruct (lookup_path (nd_local nd') id) as [p|] eqn:Hp; [|injection E1 as <- <- _; apply loses_refl].
    case_bool_decide; [injection E1 as <- <- _; apply loses_refl|]. destruct (ix_drop id sid typ ix) as [ix2 e2] eqn:Ed.
    pose proof (ih_drop _ _ _ _ _ _ Ed) as Hd. destruct e2; injection E1 as <- <- _.
    - split_and!; cbn; [apply Hd|intros k Hk Hne; by apply Hd|auto].
    - split_and!; cbn [fst snd].
      + intros k. rewrite reportStorage_holds. apply Hd.
      + intros k Hk Hne. rewrite reportStorage_holds. by apply Hd.
      + intros f Hf. apply elem_of_app in Hf as [Hf|Hf]; [by left|]. apply list_elem_of_singleton in Hf as ->. right.
        exists (sid, typ, id), nd', p. split_and!; done. }
  assert (loses (fun k => exists id0, id0 ∈ id :: l /\ k = (sid, typ, id0)) (ix, rm) (ix1, rm1)) as L1'.
  { eapply loses_weaken; [|exact L1]. intros k ->. exists id. split; [left|done]. }
  destruct e1 as [e1|]; [by intros [= <- <- <-]|]. intros E. eapply loses_trans; [exact L1'|].
  eapply loses_weaken; [|by apply IH]. intros k (i & Hi & ->). exists i. split; [by right|done].
Qed.

(** A removal with the exceptions [keepIn] takes files of one sector and type. *)
Definition removable (sid : SectorID) (typ : SectorFileType) (keepIn : list string) (k : loc_key) : Prop := k.1 = (sid, typ) /\ k.2 ∉ keepIn.

Lemma node_remove_loses nd' sid typ force keepIn (ix ix' : IX) rm e : a_node nd' -> typ ∈ PathTypes ->
  node_remove nd' sid typ force keepIn ix = (ix', rm, e) -> loses (removable sid typ keepIn) (ix, []) (ix', rm).
Proof.
  intros Hnd Hft. unfold node_remove, Remove. rewrite PathTypes_one_bit by done. cbn [negb].
  destruct (ix_find sid typ 0 false ix) as [ix1 [si|e1]] eqn:Ef; pose proof (ih_find_same _ _ _ _ _ _ _ Ef) as Hs.
  2: { intros [= <- <- <-]. by apply loses_same. }
  destruct (_ && _); [intros [= <- <- <-]; by apply loses_same|]. intros E. apply remove_loop_loses in E; [|done].
  eapply loses_trans; [by apply loses_same|]. eapply loses_weaken; [|exact E]. intros k (id & Hid & ->).
  apply list_elem_of_In, filter_In in Hid as [_ Hk]. rewrite negb_true_iff, bool_decide_eq_false in Hk. by split.
Qed.

Lemma loses_app P (ix ix' : IX) rm0 rm : loses P (ix, []) (ix', rm) -> loses P (ix, rm0) (ix', rm0 ++ rm).
Proof.
  intros (H1 & H2 & H3). split_and!; [done|done|]. cbn. intros f Hf. apply elem_of_app in Hf as [Hf|Hf]; [by left|].
  apply H3 in Hf as [Hf|Hf]; [by apply not_elem_of_nil in Hf|by right].
Qed.

(** The list of ids survives its way through the URL. *)
Lemma removable_parsed sid typ keepIn k : Forall (fun id => has_no IDSep id = true) keepIn ->
  removable sid typ (ParseIDList (IDList_String keepIn)) k -> removable sid typ keepIn k.
Proof.
  intros Hp [E Hk]. split; [done|]. intros Hin. apply Hk. unfold ParseIDList, IDList_String. rewrite Split_Join; [done| |done]. intros ->. by apply not_elem_of_nil in Hin.
Qed.

(** ** [Remote.Remove] *)

Section Remote.
Context (sid : SectorID) (typ : SectorFileType) (keepIn : list string).
Context (Hft : typ ∈ PathTypes) (Hplain : Forall (fun id => has_no IDSep id = true) keepIn).

Abbreviation target := (removable sid typ keepIn).

Lemma delete_urls_loses urls (ix ix' : IX) rm rm' :
  (forall url nd' s ft, url ∈ urls -> serve url = Some (nd', s, ft) -> s = sid /\ ft = typ) ->
  delete_urls serve replies urls keepIn ix rm = (ix', rm') -> loses target (ix, rm) (ix', rm').
Proof.
  intros Hu. revert ix rm. induction urls as [|url urls IH]; intros ix rm; cbn [delete_urls].
  { intros [= <- <-]. apply loses_refl. }
  unfold deleteFromRemote. destruct (serve url) as [[[nd' s] ft]|] eqn:Es.
  2: { apply IH. intros url' nd1 s1 ft1 Hin. apply Hu. by right. }
  destruct (Hu url nd' s ft ltac:(left) Es) as [-> ->].
  destruct (node_remove nd' sid typ false _ ix) as [[ix1 rm1] e] eqn:Er.
  assert (loses target (ix, rm) (ix1, rm ++ rm1)) as L1.
  { apply loses_app. eapply loses_weaken; [intros k; by apply removable_parsed|]. eapply node_remove_loses; [right; eauto|done|exact Er]. }
  destruct (match e with None => _ | Some _ => _ end); [by intros [= <- <-]|]. intros E. eapply loses_trans; [exact L1|].
  apply IH; [|done]. intros url' nd1 s1 ft1 Hin. apply Hu. by right.
Qed.

Lemma delete_paths_loses si (ix ix' : IX) rm rm' :
  (forall info url nd' s ft, info ∈ si -> url ∈ ssi_URLs info -> serve url = Some (nd', s, ft) -> s = sid /\ ft = typ) ->
  delete_paths serve replies si keepIn ix rm = (ix', rm') -> loses target (ix, rm) (ix', rm').
Proof.
  revert ix rm. induction si as [|info si IH]; intros ix rm Hu; cbn [delete_paths].
  { intros [= <- <-]. apply loses_refl. }
  assert (forall info' url nd' s ft, info' ∈ si -> url ∈ ssi_URLs info' -> serve url = Some (nd', s, ft) -> s = sid /\ ft = typ) as Hu'.
  { intros info' url nd1 s1 ft1 Hin. apply (Hu info'). by right. }
  case_bool_decide; [by apply IH|]. destruct (delete_urls _ _ _ _ _ _) as [ix1 rm1] eqn:E1. intros E.
  assert (loses target (ix, rm) (ix1, rm1)) as L1.
  { eapply delete_urls_loses; [|exact E1]. intros url nd1 s1 ft1. apply (Hu info). left. }
  eapply loses_trans; [exact L1|]. by apply IH.
Qed.

Lemma Remote_Remove_loses force (ix ix' : IX) rm e :
  Remote_Remove serve replies nd sid typ force keepIn ix = (ix', rm, e) -> loses target (ix, []) (ix', rm).
Proof.
  unfold Remote_Remove. rewrite PathTypes_one_bit by done. cbn [negb].
  destruct (node_remove nd sid typ force keepIn ix) as [[ix1 rm1] e1] eqn:E1.
  assert (loses target (ix, []) (ix1, rm1)) as L1 by (eapply node_remove_loses; [by left|done|exact E1]).
  destruct e1; [by intros [= <- <- <-]|]. destruct (ix_find sid typ 0 false ix1) as [ix2 [si|e2]] eqn:Ef.
  - destruct (delete_paths _ _ _ _ _ _) as [ix3 rm3] eqn:E3. intros [= <- <- <-].
    assert (loses target (ix1, rm1) (ix2, rm1)) as L2 by (apply loses_same; exact (ih_find_same _ _ _ _ _ _ _ Ef)).
    eapply loses_trans; [exact L1|]. eapply loses_trans; [exact L2|].
    eapply delete_paths_loses; [|exact E3].
    intros info url nd' s ft Hin Hurl Hs. eapply urls_name; eauto.
  - intros [= <- <- <-]. eapply loses_trans; [exact L1|]. apply loses_same. exact (ih_find_same _ _ _ _ _ _ _ Ef).
Qed.
End Remote.

(** ** The task *)

Definition approved (marks : marks_table) (k : loc_key) : Prop := exists r, marks !! k = Some r /\ mk_approved r = true.

Definition approved_count (marks : marks_table) : nat := size (filter (fun m => mk_approved m.2 = true) marks).

Lemma oldest_elem l m : oldest l = Some m -> m ∈ l.
Proof.
  revert m. induction l as [|m0 l IH]; intros m; cbn [oldest]; [done|]. destruct (oldest l) as [m'|] eqn:E.
  - destruct (_ <? _); intros [= <-]; [right; by apply IH|left].
  - intros [= <-]. left.
Qed.

Lemma oldest_none l : oldest l = None -> l = [].
Proof. destruct l as [|m l]; [done|]. cbn [oldest]. destruct (oldest l) as [m'|]; [by destruct (_ <? _)|done]. Qed.

Lemma next_mark_some marks k r : next_mark marks = Some (k, r) -> marks !! k = Some r /\ mk_approved r = true.
Proof.
  intros E. apply oldest_elem, list_elem_of_In, filter_In in E as [Hin Ha]. apply list_elem_of_In in Hin. rewrite elem_of_enum in Hin.
  split; [by apply elem_of_map_to_list|done].
Qed.

Lemma next_mark_none marks k : next_mark marks = None -> ~ approved marks k.
Proof.
  intros E%oldest_none (r & Hr & Ha). assert ((k, r) ∈ List.filter (fun m => mk_approved m.2) (enum (map_to_list marks))) as Hin.
  { apply list_elem_of_In, filter_In. split; [|done]. apply list_elem_of_In. rewrite elem_of_enum. by apply elem_of_map_to_list. }
  rewrite E in Hin. by apply not_elem_of_nil in Hin.
Qed.

(** The marks lose only rows that were approved. *)
Definition marks_after (a b : marks_table) : Prop :=
  (forall k r, b !! k = Some r -> a !! k = Some r) /\ (forall k r, a !! k = Some r -> mk_approved r = false -> b !! k = Some r).

Lemma marks_after_delete marks k r : marks !! k = Some r -> mk_approved r = true -> marks_after marks (delete k marks).
Proof.
  intros Hk Ha. split; intros k' r'; (destruct (decide (k' = k)) as [->|Hne]; [|by rewrite lookup_delete_ne]).
  - by rewrite lookup_delete_eq.
  - intros Hk' Ha'. congruence.
Qed.

Lemma approved_count_delete marks k r : marks !! k = Some r -> mk_approved r = true ->
  (approved_count (delete k marks) < approved_count marks)%nat.
Proof.
  intros Hk Ha. unfold approved_count. rewrite map_filter_delete. assert (filter (fun m => mk_approved m.2 = true) marks !! k = Some r) as Hf.
  { by apply map_lookup_filter_Some. }
  rewrite map_size_delete_Some by (by exists r). assert (size (filter (fun m => mk_approved m.2 = true) marks) <> 0%nat); [|lia].
  rewrite map_size_ne_0_lookup. exists k. by exists r.
Qed.

Definition sweep_ok (s : sweep_state (IX := IX)) : Prop :=
  (forall k r, sw_marks s !! k = Some r -> k.1.2 ∈ PathTypes) /\ (forall k, ih_holds (sw_ix s) k -> has_no IDSep k.2 = true).

(** A file of the sector and type of an approved mark that was not in the index when the
    paths to keep were computed. *)
Definition late_copy (s : sweep_state (IX := IX)) (k : loc_key) : Prop :=
  (exists storage, approved (sw_marks s) (k.1, storage)) /\ ~ ih_holds (sw_ix s) k.

(** What an iteration may lose of the index that it finds when it removes: the one it
    began with or what others have made of that. *)
Definition swept (f : sweep_input (IX := IX)) (s s' : sweep_state (IX := IX)) : Prop :=
  exists ix1 mid, (forall k, ih_holds ix1 k <-> ih_holds (sw_ix s) k) /\ (mid = ix1 \/ mid = sw_others f ix1) /\
    loses (fun k => approved (sw_marks s) k \/ late_copy s k) (mid, sw_removed s) (sw_ix s', sw_removed s').

Lemma swept_same f s ix marks : (forall k, ih_holds ix k <-> ih_holds (sw_ix s) k) -> swept f s (mkSweepState marks ix (sw_removed s)).
Proof. intros Hs. exists ix, ix. split; [done|]. split; [by left|]. apply loses_refl. Qed.

Lemma swept_refl f s : swept f s s.
Proof. destruct s. by apply swept_same. Qed.

Definition sweep_state_of (n : sweep_next (IX := IX)) : sweep_state := match n with SweepDone _ s => s | SweepNext s => s end.

(** An iteration and the marks. *)
Lemma sweep_iter_marks f s :
  marks_after (sw_marks s) (sw_marks (sweep_state_of (sweep_iter serve replies nd f s))) /\
  match sweep_iter serve replies nd f s with
  | SweepDone r s' => r = Ok true -> forall k, ~ approved (sw_marks s') k
  | SweepNext s' => (approved_count (sw_marks s') < approved_count (sw_marks s))%nat
  end.
Proof.
  unfold sweep_iter. assert (marks_after (sw_marks s) (sw_marks s)) as Hrefl by done. destruct (sw_owned f); cbn [negb]; [|by split].
  destruct (sw_query f); [by split|].
  destruct (next_mark (sw_marks s)) as [[[[sid typ] storage] row]|] eqn:En; [|split; [done|intros _ k; by apply next_mark_none]].
  apply next_mark_some in En as [Hrow Ha]. destruct (mk_approved_at row); [|by split].
  destruct (ix_find sid typ 0 false (sw_ix s)) as [ix1 [si|e]]; [|by split]. cbv zeta. pose proof (marks_after_delete _ _ _ Hrow Ha) as Hma.
  destruct (sw_delete f); cbn [run_exec]; try (by split).
  destruct (Remote_Remove _ _ _ _ _ _ _ _) as [[ix2 rm] [e|]]; (split; [done|]); [done|]. by eapply approved_count_delete.
Qed.

Lemma sweep_iter_swept f s : sweep_ok s -> swept f s (sweep_state_of (sweep_iter serve replies nd f s)).
Proof.
  intros [Hpt Hplain]. unfold sweep_iter. destruct (sw_owned f); cbn [negb]; [|apply swept_refl]. destruct (sw_query f); [apply swept_refl|].
  destruct (next_mark (sw_marks s)) as [[[[sid typ] storage] row]|] eqn:En; [|apply swept_refl].
  apply next_mark_some in En as [Hrow Ha]. destruct (mk_approved_at row); [|apply swept_refl].
  pose proof (Hpt _ _ Hrow) as Hft. cbn [fst snd] in Hft.
  destruct (ix_find sid typ 0 false (sw_ix s)) as [ix1 [si|e]] eqn:Ef; pose proof (ih_find_same _ _ _ _ _ _ _ Ef) as Hs; [|by apply swept_same].
  set (keepIn := List.filter _ _). cbv zeta.
  destruct (run_exec (sw_delete f) _ _) as [m [e|]]; [exists ix1, (sw_others f ix1); split; [done|]; split; [by right|]; apply loses_refl|].
  destruct (Remote_Remove serve replies nd sid typ true keepIn (sw_others f ix1)) as [[ix2 rm] e] eqn:Er.
  assert (forall id, id ∈ keepIn <-> ih_holds (sw_ix s) (sid, typ, id) /\ id <> storage) as Hkeep.
  { intros id. unfold keepIn. rewrite list_elem_of_In, filter_In, <- list_elem_of_In, negb_true_iff, bool_decide_eq_false.
    by rewrite (ih_find _ _ _ _ _ _ Hft Ef). }
  assert (swept f s (mkSweepState m ix2 (sw_removed s ++ rm))) as Hsw; [|by destruct e].
  exists ix1, (sw_others f ix1). split; [done|]. split; [by right|]. apply loses_app. eapply loses_weaken; [|eapply Remote_Remove_loses; [exact Hft| |exact Er]].
  - intros [[sid' typ'] id] [[= -> ->] Hk]. cbn [snd] in Hk. destruct (decide (id = storage)) as [->|Hne]; [left; by exists row|right].
    split; [by exists storage, row|]. intros Hh. apply Hk. by apply Hkeep.
  - apply Forall_forall. intros id Hid. apply Hkeep in Hid as [Hid _]. exact (Hplain _ Hid).
Qed.

(** C16: the sweep task removes nothing that was not approved, except late copies.  An
    iteration of its loop, from any marks of known file types and any index whose storage
    ids have no ['.'] (they travel in a URL separated by dots), with any failures of the
    database, the index and other nodes, and whatever others do to the index between the
    look-up of the copies and the removal (the removal itself runs alone): every file of an
    attached path in the index when the removal begins is still there, unless its mark was
    approved or it is a copy of such a file that was not in the index at the look-up
    ([late_copy_removed] shows that one to be removed); every file deleted from the disk of
    a node is one of these two; and marks that are not approved stay. *)
Theorem sweep_safe (f : sweep_input) (s : sweep_state) : sweep_ok s ->
  let s' := sweep_state_of (sweep_iter serve replies nd f s) in
  (exists ix1 mid, (forall k, ih_holds ix1 k <-> ih_holds (sw_ix s) k) /\ (mid = ix1 \/ mid = sw_others f ix1) /\
     forall k, ih_holds mid k -> ~ approved (sw_marks s) k -> ~ late_copy s k -> ih_holds (sw_ix s') k) /\
  (forall file, file ∈ sw_removed s' -> file ∈ sw_removed s \/ exists k nd' p, (approved (sw_marks s) k \/ late_copy s k) /\ a_node nd' /\
     lookup_path (nd_local nd') k.2 = Some p /\ file = sectorPath p k.1.1 k.1.2) /\
  (forall k row, sw_marks s !! k = Some row -> mk_approved row = false -> sw_marks s' !! k = Some row).
Proof.
  intros Hok s'. destruct (sweep_iter_swept f s Hok) as (ix1 & mid & H1 & H2 & _ & L2 & L3). split_and!; [|exact L3|apply sweep_iter_marks].
  exists ix1, mid. split_and!; [done|done|]. intros k Hk Ha Hl. apply L2; [done|tauto].
Qed.

(** the sweep task ends: it has returned after at most one iteration more than
    there are approved marks, and when it reports that it is done no approved mark
    is left. *)
Theorem sweep_ends (fs : list sweep_input) (s : sweep_state) : (approved_count (sw_marks s) < length fs)%nat ->
  exists r s', StorageGCSweep_Do serve replies nd fs s = (Some r, s') /\ (r = Ok true -> forall k, ~ approved (sw_marks s') k).
Proof.
  revert s. induction fs as [|f fs IH]; intros s Hlen; [cbn in Hlen; lia|]. cbn [StorageGCSweep_Do length] in *.
  pose proof (sweep_iter_marks f s) as [_ Hi]. destruct (sweep_iter serve replies nd f s) as [r1 s1|s1]; [by exists r1, s1|]. apply IH. lia.
Qed.
End SweepFacts.

(** ** A sweep over two nodes *)

Definition gs_url (u : string) (ft : SectorFileType) (s : SectorID) : option string :=
  if (ft =? FTCache) && bool_decide (s = ex_sector) then Some "http://b/remote/cache/s-t01001-7"%string else None.

#[local] Instance gs_ix : SectorIndex DbIx := DbIx_index (fun _ => true) gs_url ex_addr.
#[local] Instance gs_holders : SectorHolders DbIx := DbIx_holders (fun _ => true) gs_url ex_addr.

Definition gs_node (id : string) : store_node :=
  mkStoreNode (add_path (mkLocal ∅ ∅) id (mkLPath ("/data/" +:+ id) 0 0 ∅ true [] [])) (fun _ => None) (fun _ => NotExist).

(** The path "p2" is on another node. *)
Definition gs_serve (url : string) : option (store_node * SectorID * SectorFileType) :=
  if bool_decide (url = "http://b/remote/cache/s-t01001-7"%string) then Some (gs_node "p2", ex_sector, FTCache) else None.

Lemma gs_urls s ft ssize (ix ix' : DbIx) l info url nd' s' ft' : ix_find s ft ssize false ix = (ix', Ok l) ->
  info ∈ l -> url ∈ ssi_URLs info -> gs_serve url = Some (nd', s', ft') -> s' = s /\ ft' = ft.
Proof.
  cbn. destruct (pop ix) as [x ix1]. unfold run_query. destruct (pop ix1) as [x2 ix2]. intros [= _ E] Hi Hu Hs.
  unfold findSectorUncached in E. destruct (query_of x); [done|]. destruct (negb _); [done|].
  destruct (holders_loop gs_url ft s _ (Some []) []) as [[res al]|] eqn:El; [|done]. cbn [negb] in E. injection E as ->.
  apply holders_loop_ok in El as (infos & -> & Hf & _). cbn [app] in Hi. apply list_elem_of_lookup in Hi as [i Hi].
  apply (Forall2_lookup_r _ _ _ _ _ Hf) in Hi as ([[[id r] c] p] & _ & urls & Hurls & ->). cbn in Hu. unfold sector_urls in Hurls.
  destruct (mapM _ (row_urls r)) as [us|] eqn:Em; [|done]. injection Hurls as <-. apply mapM_Some in Em.
  apply list_elem_of_lookup in Hu as [j Hj]. apply (Forall2_lookup_r _ _ _ _ _ Em) in Hj as (u & _ & Hg).
  unfold gs_url in Hg. destruct (ft =? FTCache) eqn:Hft; [|done]. apply Z.eqb_eq in Hft. cbn [andb] in Hg. case_bool_decide; [|done].
  unfold gs_serve in Hs. case_bool_decide; [|done]. injection Hs as _ <- <-. by subst.
Qed.

Definition gs_key : loc_key := (ex_sector, FTCache, "p2"%string).

Definition gs_start : sweep_state :=
  mkSweepState {[ gs_key := mkMark 10 true (Some 20); (ex_sector, FTSealed, "p1"%string) := mkMark 5 false None ]} (mkDbIx ex_index 0 []) [].

Definition gs_input (others : DbIx -> DbIx) : sweep_input := mkSweep true None Applied others.

Lemma gs_ok : sweep_ok gs_start.
Proof.
  split.
  - intros k r. cbn [gs_start sw_marks]. intros [[<- _]|[_ [<- _]%lookup_singleton_Some]]%lookup_insert_Some; apply list_elem_of_In; vm_compute; tauto.
  - intros [[s ft] id] [[r Hr] _]. cbn [snd] in *. change (ix_db (sw_ix gs_start)) with ex_index in Hr.
    assert (forallb (has_no IDSep) (map_to_list (storage_path ex_index)).*1 = true) as Hall by (vm_compute; reflexivity).
    rewrite forallb_forall in Hall. apply Hall, list_elem_of_In, list_elem_of_fmap. exists (id, r). split; [done|]. by apply elem_of_map_to_list.
Qed.

(** Nobody interferes, and a file on another node is removed. *)
Lemma sweep_safe_witness :
  let s' := sweep_state_of (sweep_iter gs_serve (fun _ => true) (gs_node "p1") (gs_input id) gs_start) in
  sw_removed s' = ["/data/p2/cache/s-t01001-7"%string] /\
  (exists ix1 mid, (forall k, ih_holds ix1 k <-> ih_holds (sw_ix gs_start) k) /\ (mid = ix1 \/ mid = sw_others (gs_input id) ix1) /\
    forall k, ih_holds mid k -> ~ approved (sw_marks gs_start) k -> ~ late_copy gs_start k -> ih_holds (sw_ix s') k) /\
  (forall k row, sw_marks gs_start !! k = Some row -> mk_approved row = false -> sw_marks s' !! k = Some row).
Proof.
  destruct (sweep_safe gs_serve (fun _ => true) (gs_node "p1") gs_urls (gs_input id) gs_start gs_ok) as (H1 & _ & H3).
  split; [vm_compute; reflexivity|]. split; [exact H1|exact H3].
Defined.

Lemma sweep_ends_witness :
  exists r s', StorageGCSweep_Do gs_serve (fun _ => true) (gs_node "p1") [gs_input id; gs_input id; gs_input id] gs_start = (Some r, s') /\
    (r = Ok true -> forall k, ~ approved (sw_marks s') k).
Proof. apply (sweep_ends gs_serve (fun _ => true) (gs_node "p1")). vm_compute. lia. Defined.

(** A copy that is declared after the paths to keep were computed is removed with
    the marked one, although nobody marked it. *)
Lemma late_copy_removed :
  let declare (ix : DbIx) := (ix_declare "p3" ex_sector FTCache true ix).1 in
  let s' := sweep_state_of (sweep_iter gs_serve (fun _ => true) (gs_node "p3") (gs_input declare) gs_start) in
  bool_decide (is_Some (sector_location (ix_db (declare (sw_ix gs_start))) !! ((ex_sector, FTCache, "p3"%string) : loc_key))) = true /\
  bool_decide (is_Some (sector_location (ix_db (sw_ix s')) !! ((ex_sector, FTCache, "p3"%string) : loc_key))) = false /\
  sw_marks gs_start !! ((ex_sector, FTCache, "p3"%string) : loc_key) = None.
Proof. vm_compute. split_and!; reflexivity. Qed.
