(* ===== verification/EndpointGC.v ===== *)
(** * Removing dead endpoints

    [tasks/gc/storage_endpoint_gc.go]: a task that pings every URL of every storage
    path, keeps in a table since when each of them fails, and takes URLs that were
    down for two hours out of the index; a path without URLs is removed with the
    locations of its files.  The answer to a ping is a parameter. *)

From stdpp Require Import base gmap sets list strings.
From Stdlib Require Import ZArith Lia Ascii Sorted.
From S2P Require Import Prelude FileType SectorLocks GoStd StorageIndex StorageIndexFacts.

Definition StorageEndpointGCInterval : duration := 21 * Minute.
Definition StorageEndpointDeadTime : duration := StorageEndpointGCInterval * 6.

(** 1970-01-01 *)
Definition unix_epoch : time := 62135596800 * Second.

(** A row of [sector_path_url_liveness], by path and URL. *)
Record liveness_row := mkLiveness { lv_last_checked : time; lv_last_live : option time; lv_last_dead : option time }.

Abbreviation liveness := (gmap (string * string) liveness_row).

Inductive endpoint_error := EpSql (e : sql_error) | NoLongerOwned | EpNoPath | EpNullUrls.

Section EndpointGC.
Context `{Enum}.

(** ** Pings *)

(** The upsert of a result: [last_dead] is set by the first failure after the URL
    was live, and kept by the following ones. *)
Definition upsert_liveness (now : time) (ok : bool) (old : option liveness_row) : liveness_row :=
  let last_live := if ok then Some now else None in
  let last_dead := if ok then None else Some now in
  match old with
  | None => mkLiveness now last_live last_dead
  | Some r =>
      mkLiveness now (match last_live with Some t => Some t | None => lv_last_live r end)
        (match lv_last_dead r with
         | None => last_dead
         | Some d => match lv_last_live r with
                     | Some l => if d <? l then last_dead else Some d
                     | None => Some d
                     end
         end)
  end.

Definition record_ping (now : time) (lv : liveness) (p : string * string * bool) : liveness :=
  <[p.1 := upsert_liveness now p.2 (lv !! p.1)]> lv.

(** The results for all URLs, in the order in which they come back. *)
Definition ping_all (stat_url : string -> string -> bool) (rows : list (string * string)) : list (string * string * bool) :=
  enum (row ← rows; url ← Split "," row.2; [(row.1, url, stat_url url row.1)]).

(** ** Clean-up *)

(** [last_dead > COALESCE(last_live, '1970-01-01') AND last_dead < $1] *)
Definition is_dead (limit : time) (r : liveness_row) : bool :=
  match lv_last_dead r with
  | Some d => (default unix_epoch (lv_last_live r) <? d) && (d <? limit)
  | None => false
  end.

Definition dead_urls (limit : time) (lv : liveness) : list (string * string) :=
  (List.filter (fun kr => is_dead limit kr.2) (enum (map_to_list lv))).*1.

(** Deleting a path deletes its rows of the liveness table (the foreign key
    cascades). *)
Definition cleanup_one (db : index_db) (lv : liveness) (du : string * string) : result (index_db * liveness) endpoint_error :=
  match storage_path db !! du.1 with
  | None => Err EpNoPath
  | Some r =>
      match p_urls r with
      | None => Err EpNullUrls
      | Some URLs =>
          match List.filter (fun u => negb (bool_decide (u = du.2))) (Split "," URLs) with
          | [] => Ok (mkIndex (delete du.1 (storage_path db)) (drop_locations du.1 (sector_location db)),
                      filter (fun kr => kr.1.1 <> du.1) lv)
          | urls => Ok (mkIndex (<[du.1 := set_urls (Join "," urls) r]> (storage_path db)) (sector_location db), delete du lv)
          end
      end
  end.

Fixpoint cleanup (dead : list (string * string)) (db : index_db) (lv : liveness) : result (index_db * liveness) endpoint_error :=
  match dead with
  | [] => Ok (db, lv)
  | du :: dead =>
      match cleanup_one db lv du with
      | Err e => Err e
      | Ok (db, lv) => cleanup dead db lv
      end
  end.

(** ** The task *)

Definition path_urls (db : index_db) : result (list (string * string)) endpoint_error :=
  let rows := enum (map_to_list (storage_path db)) in
  match mapM (fun ir => (pair ir.1) <$> p_urls ir.2) rows with
  | None => Err EpNullUrls
  | Some l => Ok l
  end.

Definition StorageEndpointGC_Do (q : option sql_error) (stat_url : string -> string -> bool) (currentTime : time) (x1 : exec)
    (stillOwned : bool) (x2 : exec) (db : index_db) (lv : liveness) : index_db * liveness * option endpoint_error :=
  match q with
  | Some e => (db, lv, Some (EpSql e))
  | None =>
      match path_urls db with
      | Err e => (db, lv, Some e)
      | Ok [] => (db, lv, None)
      | Ok rows =>
          match run_exec x1 lv (foldl (record_ping currentTime) lv (ping_all stat_url rows)) with
          | (lv, Some e) => (db, lv, Some (EpSql e))
          | (lv, None) =>
              if negb stillOwned then (db, lv, Some NoLongerOwned)
              else
                match cleanup (dead_urls (currentTime - StorageEndpointDeadTime) lv) db lv with
                | Err e => (db, lv, Some e)
                | Ok (db', lv') =>
                    let '((db, lv), e) := run_exec x2 (db, lv) (db', lv') in (db, lv, EpSql <$> e)
                end
          end
      end
  end.
End EndpointGC.

(** ** Since when a URL is down *)

(** The first failure after the last success of a list of pings, oldest first. *)
Fixpoint streak (start : option time) (pings : list (time * bool)) : option time :=
  match pings with
  | [] => start
  | (t, true) :: pings => streak None pings
  | (t, false) :: pings => streak (Some (default t start)) pings
  end.

Definition after_pings (pings : list (time * bool)) (old : option liveness_row) : option liveness_row :=
  foldl (fun old p => Some (upsert_liveness p.1 p.2 old)) old pings.

(** A row agrees with the pings so far, which ended before [last]. *)
Definition agrees (last : time) (start : option time) (r : option liveness_row) : Prop :=
  match r with
  | None => start = None
  | Some r =>
      (forall l, lv_last_live r = Some l -> unix_epoch < l <= last) /\ (forall d, lv_last_dead r = Some d -> unix_epoch < d <= last) /\
      match start with
      | Some t0 => lv_last_dead r = Some t0 /\ forall l, lv_last_live r = Some l -> l < t0
      | None => exists l, lv_last_live r = Some l /\ forall d, lv_last_dead r = Some d -> d < l
      end
  end.

Lemma agrees_step (last : time) (start : option time) (r : option liveness_row) (t : time) (ok : bool) : agrees last start r -> last < t -> unix_epoch < t ->
  agrees t (if ok then None else Some (default t start)) (Some (upsert_liveness t ok r)).
Proof.
  intros Hr Hlt Hep. destruct r as [[c ll ld]|]; cbn in Hr.
  2: { subst start. destruct ok; cbn; (split; [intros l E; simplify_eq; lia|split; [intros l E; simplify_eq; lia|]]).
       - exists t. split; [done|]. intros d E. done.
       - split; [done|]. intros l E. done. }
  destruct Hr as (Hl & Hd & Hs). cbn in Hl, Hd, Hs. destruct ok; cbn.
  - assert (forall d, match ld with None => None | Some d => match ll with Some l => if d <? l then None else Some d | None => Some d end end = Some d ->
      unix_epoch < d <= last) as Hd'.
    { intros d E. destruct ld as [d0|]; [|done]. destruct ll as [l0|]; [destruct (d0 <? l0); [done|]|]; by apply Hd. }
    split; [intros l [= <-]; lia|split; [intros d E; specialize (Hd' d E); lia|]].
    exists t. split; [done|]. intros d E. specialize (Hd' d E). lia.
  - split; [|split].
    + intros l E. specialize (Hl l E). lia.
    + intros d E. destruct ld as [d0|]; [|injection E as <-; lia]. destruct ll as [l0|]; [destruct (d0 <? l0)|]; injection E as <-; try lia;
        specialize (Hd d0 eq_refl); lia.
    + destruct start as [t0|]; cbn [from_option id].
      * destruct Hs as [-> Hlt0]. split; [|done]. destruct ll as [l0|]; [|done]. specialize (Hlt0 l0 eq_refl). by rewrite (proj2 (Z.ltb_ge _ _)) by lia.
      * destruct Hs as (l0 & -> & Hd0). split; [|intros l [= <-]; specialize (Hl l0 eq_refl); lia].
        destruct ld as [d0|]; [|done]. specialize (Hd0 d0 eq_refl). by rewrite (proj2 (Z.ltb_lt _ _)) by lia.
Qed.

Lemma last_default {A} (x y : A) l : List.last (x :: l) y = List.last l x.
Proof. revert x y. induction l as [|z l IH]; intros x y; [done|]. transitivity (List.last l z); [|symmetry; apply IH]. apply (IH z y). Qed.

Lemma agrees_pings (last : time) (start : option time) (r : option liveness_row) (pings : list (time * bool)) : agrees last start r -> unix_epoch <= last -> StronglySorted Z.lt (last :: pings.*1) ->
  agrees (List.last (pings.*1) last) (streak start pings) (after_pings pings r).
Proof.
  revert last start r. induction pings as [|[t ok] pings IH]; intros last start r Hr Hep Hs; [done|].
  apply StronglySorted_inv in Hs as [Hs Hall]. rewrite Forall_forall in Hall. assert (last < t) as Hlt by (apply Hall; left).
  change (after_pings ((t, ok) :: pings) r) with (after_pings pings (Some (upsert_liveness t ok r))).
  assert (streak start ((t, ok) :: pings) = streak (if ok then None else Some (default t start)) pings) as -> by (by destruct ok).
  assert (List.last (((t, ok) :: pings).*1) last = List.last (pings.*1) t) as ->.
  { apply last_default. }
  apply IH; [apply (agrees_step last); [done|done|lia]|lia|done].
Qed.

(** the liveness table measures how long a URL is down: after any history of
    pings, at increasing times, a URL is selected as dead exactly when its last ping
    failed and the first failure since it last answered, or since it is known, is
    older than the limit. *)
Theorem liveness_streak (pings : list (time * bool)) (limit : time) (row : liveness_row) :
  StronglySorted Z.lt (unix_epoch :: pings.*1) -> after_pings pings None = Some row ->
  is_dead limit row = true <-> exists t0, streak None pings = Some t0 /\ t0 < limit.
Proof.
  intros Hs E. pose proof (agrees_pings unix_epoch None None pings eq_refl ltac:(lia) Hs) as Ha. rewrite E in Ha.
  destruct row as [c ll ld]. destruct Ha as (_ & Hd & Ha). cbn in Hd, Ha. unfold is_dead. cbn [lv_last_dead lv_last_live].
  destruct (streak None pings) as [t0|].
  - destruct Ha as [-> Hl]. assert (default unix_epoch ll < t0) as Hlt.
    { specialize (Hd t0 eq_refl). destruct ll as [l|]; cbn; [by apply Hl|lia]. }
    rewrite (proj2 (Z.ltb_lt _ _) Hlt). cbn [andb]. rewrite Z.ltb_lt. naive_solver.
  - destruct Ha as (l & -> & Hlt). split; [|by intros (t0 & ? & _)]. destruct ld as [d|]; [|done]. cbn [from_option id].
    specialize (Hlt d eq_refl). by rewrite (proj2 (Z.ltb_ge _ _)) by lia.
Qed.

(** ** What the clean-up removes *)

(** The URLs of a path that are not in a list of dead ones. *)
Definition alive_urls (dead : list (string * string)) (id : string) (urls : list string) : list string :=
  List.filter (fun u => negb (bool_decide ((id, u) ∈ dead))) urls.

(** The path [id] after the URLs in [dead] are taken out of it. *)
Definition cleaned (dead : list (string * string)) (db db' : index_db) (id : string) : Prop :=
  (forall u, (id, u) ∉ dead) /\ storage_path db' !! id = storage_path db !! id /\
    (forall k : loc_key, k.2 = id -> sector_location db' !! k = sector_location db !! k) \/
  (exists u, (id, u) ∈ dead) /\ exists r urls, storage_path db !! id = Some r /\ p_urls r = Some urls /\
    match alive_urls dead id (Split "," urls) with
    | [] => storage_path db' !! id = None /\ forall k : loc_key, k.2 = id -> sector_location db' !! k = None
    | l => storage_path db' !! id = Some (set_urls (Join "," l) r) /\
           forall k : loc_key, k.2 = id -> sector_location db' !! k = sector_location db !! k
    end.

Lemma alive_cons du dead id urls : alive_urls (du :: dead) id urls =
  if bool_decide (du.1 = id) then alive_urls dead id (List.filter (fun u => negb (bool_decide (u = du.2))) urls) else alive_urls dead id urls.
Proof.
  unfold alive_urls. destruct du as [di du]. cbn. case_bool_decide as Hid; [rewrite filter_twice|]; apply filter_ext; intros u.
  - rewrite <- negb_orb, <- bool_decide_or. f_equal. apply bool_decide_ext. rewrite elem_of_cons. naive_solver.
  - f_equal. apply bool_decide_ext. rewrite elem_of_cons. naive_solver.
Qed.

(** Every dead URL is one of the URLs of its path. *)
Definition known_urls (dead : list (string * string)) (db : index_db) : Prop :=
  forall id u, (id, u) ∈ dead -> exists r urls, storage_path db !! id = Some r /\ p_urls r = Some urls /\ u ∈ Split "," urls.

Lemma alive_none dead id urls : (forall u, (id, u) ∉ dead) -> alive_urls dead id urls = urls.
Proof.
  intros Hno. unfold alive_urls. induction urls as [|u urls IH]; [done|]. cbn. rewrite bool_decide_eq_false_2 by apply Hno. cbn. by rewrite IH.
Qed.

(** The two results of a step. *)
Definition drop_path (id : string) (db : index_db) : index_db :=
  mkIndex (delete id (storage_path db)) (drop_locations id (sector_location db)).

Definition keep_urls (id : string) (l : list string) (r : path_row) (db : index_db) : index_db :=
  mkIndex (<[id := set_urls (Join "," l) r]> (storage_path db)) (sector_location db).

Definition other_urls (u : string) (urls : string) : list string := List.filter (fun v => negb (bool_decide (v = u))) (Split "," urls).

Lemma elem_of_other u v urls : v ∈ other_urls u urls <-> v ∈ Split "," urls /\ v <> u.
Proof. unfold other_urls. rewrite !list_elem_of_In, filter_In, negb_true_iff, bool_decide_eq_false. done. Qed.

Lemma other_urls_plain u urls : other_urls u urls <> [] -> Split "," (Join "," (other_urls u urls)) = other_urls u urls.
Proof. intros Hne. apply Split_Join; [done|]. apply Forall_forall. intros v [Hv _]%elem_of_other.
  pose proof (Split_no_sep "," urls) as Hs. rewrite Forall_forall in Hs. auto. Qed.

Lemma cleaned_frame (du : string * string) dead (db db1 db' : index_db) id : du.1 <> id -> storage_path db1 !! id = storage_path db !! id ->
  (forall k : loc_key, k.2 = id -> sector_location db1 !! k = sector_location db !! k) -> cleaned dead db1 db' id -> cleaned (du :: dead) db db' id.
Proof.
  intros Hne Hp Hl [(Hno & Hp' & Hl')|((u & Hu) & r & urls & Hr & Hurls & Hc)].
  - left. split; [|split; [congruence|intros k Hk; rewrite Hl', Hl; done]].
    intros u [E|Hu]%elem_of_cons; [subst du; done|by apply (Hno u)].
  - right. split; [exists u; by right|]. exists r, urls. rewrite <- Hp. split; [done|split; [done|]].
    rewrite alive_cons, bool_decide_eq_false_2 by done.
    destruct (alive_urls dead id (Split "," urls)); [done|]. destruct Hc as [Hc1 Hc2]. split; [done|]. intros k Hk. by rewrite Hc2, Hl.
Qed.

Lemma cleaned_dropped (id u : string) dead (db db' : index_db) r urls : storage_path db !! id = Some r -> p_urls r = Some urls -> other_urls u urls = [] ->
  cleaned dead (drop_path id db) db' id -> cleaned ((id, u) :: dead) db db' id.
Proof.
  intros Hr Hurls Ho Hc. right. split; [exists u; left|]. exists r, urls. split; [done|split; [done|]].
  rewrite alive_cons. cbn. rewrite bool_decide_eq_true_2 by done. unfold other_urls in Ho. rewrite Ho. cbn.
  destruct Hc as [(_ & Hp & Hl)|(_ & r' & ? & Hr' & _)].
  - cbn in Hp, Hl. rewrite lookup_delete_eq in Hp. split; [done|]. intros k Hk. rewrite Hl by done. rewrite drop_locations_lookup. by rewrite bool_decide_eq_true_2.
  - cbn in Hr'. by rewrite lookup_delete_eq in Hr'.
Qed.

Lemma cleaned_kept (id u : string) dead (db db' : index_db) r urls : storage_path db !! id = Some r -> p_urls r = Some urls -> other_urls u urls <> [] ->
  cleaned dead (keep_urls id (other_urls u urls) r db) db' id -> cleaned ((id, u) :: dead) db db' id.
Proof.
  intros Hr Hurls Ho Hc. right. split; [exists u; left|]. exists r, urls. split; [done|split; [done|]].
  rewrite alive_cons. cbn. rewrite bool_decide_eq_true_2 by done. fold (other_urls u urls).
  destruct Hc as [(Hno & Hp & Hl)|(_ & r' & urls' & Hr' & Hu' & Hc)]; cbn in *.
  - rewrite alive_none by done. destruct (other_urls u urls) as [|x l] eqn:E; [done|]. rewrite lookup_insert_eq in Hp. done.
  - rewrite lookup_insert_eq in Hr'. injection Hr' as <-. cbn in Hu'. injection Hu' as <-. rewrite other_urls_plain in Hc by done.
    destruct (alive_urls dead id (other_urls u urls)); done.
Qed.

Lemma cleanup_one_eq (id u : string) (db : index_db) (lv : liveness) r urls : storage_path db !! id = Some r -> p_urls r = Some urls ->
  cleanup_one db lv (id, u) = match other_urls u urls with
                              | [] => Ok (drop_path id db, filter (fun kr => kr.1.1 <> id) lv)
                              | l => Ok (keep_urls id l r db, delete (id, u) lv)
                              end.
Proof. intros Hr Hu. unfold cleanup_one. cbn [fst snd]. by rewrite Hr, Hu. Qed.

(** One step of the clean-up keeps what is left to do meaningful. *)
Lemma cleanup_one_spec (id u : string) (dead : list (string * string)) (db : index_db) (lv : liveness) :
  NoDup ((id, u) :: dead) -> known_urls ((id, u) :: dead) db ->
  exists db1 lv1, cleanup_one db lv (id, u) = Ok (db1, lv1) /\ known_urls dead db1 /\ lv1 !! (id, u) = None /\ lv1 ⊆ lv /\
    forall db' i, cleaned dead db1 db' i -> cleaned ((id, u) :: dead) db db' i.
Proof.
  intros Hnd Hk. apply NoDup_cons in Hnd as [Hni _]. destruct (Hk id u) as (r & urls & Hr & Hurls & _); [left|].
  rewrite (cleanup_one_eq id u db lv r urls Hr Hurls).
  assert (forall v, (id, v) ∈ dead -> v ∈ other_urls u urls) as Hin.
  { intros v Hv. apply elem_of_other. split; [|intros ->; done]. destruct (Hk id v) as (r' & urls' & Hr' & Hu' & ?); [by right|]. congruence. }
  assert (forall i v, (i, v) ∈ dead -> i <> id -> exists r urls, storage_path db !! i = Some r /\ p_urls r = Some urls /\ v ∈ Split "," urls) as Hother.
  { intros i v Hv _. apply (Hk i v). by right. }
  destruct (other_urls u urls) as [|x l] eqn:E; do 2 eexists; (split; [done|]).
  - split; [|split; [|split]].
    + intros i v Hv. destruct (decide (i = id)) as [->|Hne]; [specialize (Hin v Hv); by apply not_elem_of_nil in Hin|].
      cbn. rewrite lookup_delete_ne by done. by apply Hother.
    + apply map_lookup_filter_None. right. intros y _ Hy. by apply Hy.
    + apply map_filter_subseteq.
    + intros db' i. destruct (decide (id = i)) as [->|Hne]; [by apply (cleaned_dropped i u _ _ _ r urls)|].
      apply cleaned_frame; [done|cbn; by rewrite lookup_delete_ne|]. intros k Hkk. cbn. rewrite drop_locations_lookup. rewrite bool_decide_eq_false_2; [done|congruence].
  - rewrite <- E. split; [|split; [|split]].
    + intros i v Hv. destruct (decide (i = id)) as [->|Hne]; cbn; [|rewrite lookup_insert_ne by done; by apply Hother].
      rewrite lookup_insert_eq. do 2 eexists. split; [done|split; [done|]]. rewrite other_urls_plain by (rewrite E; done). rewrite E. by apply Hin.
    + apply lookup_delete_eq.
    + apply delete_subseteq.
    + intros db' i. destruct (decide (id = i)) as [->|Hne]; [apply (cleaned_kept i u _ _ _ r urls); [done|done|rewrite E; done]|].
      apply cleaned_frame; [done|cbn; by rewrite lookup_insert_ne|done].
Qed.

(** removing dead endpoints is complete and touches nothing else: when every
    dead URL is still one of the URLs of its path, the transaction succeeds; a path
    keeps exactly its URLs that are not dead, in their order, and all its files; a
    path all of whose URLs are dead is deleted with the locations of its files; a
    path without a dead URL is unchanged; no row of a dead URL is left in the
    liveness table and none is added. *)
Theorem endpoint_cleanup (dead : list (string * string)) (db : index_db) (lv : liveness) : NoDup dead -> known_urls dead db ->
  exists db' lv', cleanup dead db lv = Ok (db', lv') /\ (forall id, cleaned dead db db' id) /\ lv' ⊆ lv /\ (forall du, du ∈ dead -> lv' !! du = None).
Proof.
  revert db lv. induction dead as [|[id u] dead IH]; intros db lv Hnd Hk.
  - exists db, lv. split; [done|]. split; [|split; [done|by intros du Hdu%not_elem_of_nil]]. intros id. left. split; [by intros u Hu%not_elem_of_nil|done].
  - destruct (cleanup_one_spec id u dead db lv Hnd Hk) as (db1 & lv1 & E & Hk1 & Hl1 & Hs1 & Hc).
    apply NoDup_cons in Hnd as [_ Hnd]. destruct (IH db1 lv1 Hnd Hk1) as (db' & lv' & E' & Hcl & Hs & Hd).
    exists db', lv'. cbn [cleanup]. rewrite E. split; [done|]. split; [intros i; apply Hc, Hcl|]. split; [by transitivity lv1|].
    intros du [->|Hdu]%elem_of_cons; [|by apply Hd]. by apply (lookup_weaken_None _ lv1).
Qed.

(** ** Examples *)

Definition ex_path_urls (urls : string) : path_row :=
  mkPath (Some urls) 1 0 true true "" "" "" "" 0 0 0 0 0 0 None "" "".

Definition ex_endpoints : index_db :=
  mkIndex {[ "p"%string := ex_path_urls "u1,u2,u3"; "q"%string := ex_path_urls "u1"; "r"%string := ex_path_urls "u2" ]}
    {[ (mkSectorID 1000 1, FTSealed, "q"%string) := mkLoc true None 0 None None; (mkSectorID 1000 1, FTCache, "p"%string) := mkLoc true None 0 None None ]}.

Definition ex_dead : list (string * string) := [("p", "u2"); ("q", "u1"); ("p", "u1")]%string.

Definition ex_dead_row : liveness_row := mkLiveness 0 None (Some 0).

Lemma endpoint_cleanup_witness : exists db' lv', cleanup ex_dead ex_endpoints {[ ("q"%string, "u1"%string) := ex_dead_row ]} = Ok (db', lv') /\
  p_urls <$> storage_path db' !! "p"%string = Some (Some "u3"%string) /\ ~ is_Some (storage_path db' !! "q"%string) /\ size (sector_location db') = 1%nat.
Proof.
  destruct (endpoint_cleanup ex_dead ex_endpoints {[ ("q"%string, "u1"%string) := ex_dead_row ]}) as (db' & lv' & E & _).
  - refine (bool_decide_eq_true_1 _ _). vm_compute. reflexivity.
  - intros id u Hin. repeat (apply elem_of_cons in Hin as [[= -> ->]|Hin]; [do 2 eexists; split; [reflexivity|split; [reflexivity|refine (bool_decide_eq_true_1 _ _); vm_compute; reflexivity]]|]).
    by apply not_elem_of_nil in Hin.
  - exists db', lv'. split; [done|]. assert ((fun r => match r with Ok (d, _) => Some d | Err _ => None end) (cleanup ex_dead ex_endpoints {[ ("q"%string, "u1"%string) := ex_dead_row ]}) = Some db') as E' by (by rewrite E).
    clear E. assert (forall P : index_db -> bool, match cleanup ex_dead ex_endpoints {[ ("q"%string, "u1"%string) := ex_dead_row ]} with Ok (d, _) => P d | Err _ => false end = true -> P db' = true) as HP.
    { intros P HP. cbv beta in E'. destruct (cleanup _ _ _) as [[d l]|]; [|done]. injection E' as ->. done. }
    split; [|split]; refine (bool_decide_eq_true_1 _ _); [apply (HP (fun d => bool_decide (p_urls <$> storage_path d !! "p"%string = Some (Some "u3"%string))))
      |apply (HP (fun d => bool_decide (~ is_Some (storage_path d !! "q"%string))))|apply (HP (fun d => bool_decide (size (sector_location d) = 1%nat)))]; vm_compute; reflexivity.
Defined.

(** The task runs every 21 minutes; a URL that answered once and then failed five
    times is not dead for the two hours that count, one that failed eight times is. *)
Definition ex_pings (n : nat) : list (time * bool) :=
  (unix_epoch + StorageEndpointGCInterval, true) :: ((fun i => (unix_epoch + StorageEndpointGCInterval * (2 + Z.of_nat i), false)) <$> seq 0 n).

Lemma liveness_streak_witness : exists row, after_pings (ex_pings 8) None = Some row /\
  is_dead (unix_epoch + StorageEndpointGCInterval * 9 - StorageEndpointDeadTime) row = true.
Proof.
  eexists. split; [reflexivity|]. apply (liveness_streak (ex_pings 8)); [|reflexivity|].
  - repeat constructor.
  - eexists. split; [reflexivity|]. reflexivity.
Defined.

(** A row of the liveness table outlives the URL it is about when the URL is taken
    out of the path by other means, a detach for instance: the dead URL that is the
    last one of the path removes the path, and the row of the other one then fails
    the whole transaction, now and on every later run. *)
Lemma stale_row_blocks : cleanup [("q", "u1"); ("q", "u0")]%string ex_endpoints ∅ = Err EpNoPath.
Proof. vm_compute. reflexivity. Qed.
