(* ===== verification/DealData.v ===== *)
(** * The data of a sector

    [lib/filler/filler.go] and [lib/dealdata/dealdata.go]: the pieces of a sector
    are put one after the other, with padding where the alignment of a piece
    requires it and fillers up to the size of the sector; the result is the list of
    pieces, the readers of their data and the commitment to all of it.  The sizes
    with and without fr32 bits, the padding between pieces, content identifiers,
    commitments, URLs and headers are those of libraries and are parameters. *)

From stdpp Require Import base gmap sets list strings.
From Stdlib Require Import ZArith Lia Ascii.
From S2P Require Import Prelude FileType GoStd TreeD.

(** ** Bits *)

(** [bits.OnesCount64] and [bits.TrailingZeros64] *)
Fixpoint ones_count (w : nat) (x : Z) : nat :=
  match w with
  | O => O
  | S w => (if Z.testbit x 0 then 1 else 0) + ones_count w (Z.shiftr x 1)
  end.

Definition OnesCount64 (x : Z) : nat := ones_count 64 x.

(** [strconv.ParseInt(s, 10, 64)] *)
Definition ParseInt (s : string) : option Z :=
  let '(neg, inp) :=
    match to_chars s with
    | c :: rest => if bool_decide (c = "-"%char) then (true, rest) else if bool_decide (c = "+"%char) then (false, rest) else (false, c :: rest)
    | [] => (false, [])
    end in
  match inp with
  | [] => None
  | _ => match scan_digits 0 inp with
         | (v, []) => if neg then (if v <=? 2 ^ 63 then Some (- v) else None) else if v <? 2 ^ 63 then Some v else None
         | (_, _ :: _) => None
         end
  end.

(** ** Data *)

(** A row of the initial pieces of a sector. *)
Record dealMetadata := mkDeal {
  PieceIndex : Z;
  PieceCID : string;
  PieceSize : Z;
  DataUrl : option string;
  DataHeaders : string;
  DataRawSize : option Z;
  DataDelOnFinalize : bool
}.

Inductive deal_error := DealSql (e : sql_error) | NoSectorSize | BadPieceCID | BadDataUrl | BadHeaders | BadRef | NoPieceID
  | NoPieceReader | CommDFailed | NotOneSector.

Section DealData.
Context {CID : Type}.
(** [abi.UnpaddedPieceSize.Padded] and [abi.PaddedPieceSize.Unpadded] *)
Variable Padded Unpadded : Z -> Z.
(** [proofs.GetRequiredPadding] *)
Variable GetRequiredPadding : Z -> Z -> list Z * Z.
Variable cid_Parse : string -> option CID.
Variable ZeroPieceCommitment : Z -> CID.
Variable PieceAggregateCommP : Z -> list (Z * CID) -> option CID.
Variable SectorSize : Z -> option Z.
(** [url.Parse] with the scheme and the opaque part; whether the headers parse. *)
Variable url_Parse : string -> option (string * string).
Variable headers_ok : string -> bool.
(** The piece reference table, and whether the piece store opens a piece. *)
Variable parked_piece_refs : gmap Z Z.
Variable refs_query : option sql_error.
Variable PieceReader : Z -> bool.

(** ** Fillers *)

Fixpoint fillers_loop (n : nat) (toFill : Z) : list Z :=
  match n with
  | O => []
  | S n =>
      let next := Z.of_nat (TrailingZeros toFill) in
      let psize := u64 (Z.shiftl 1 next) in
      Unpadded psize :: fillers_loop n (Z.lxor toFill psize)
  end.

Definition FillersFromRem (rem : Z) : list Z :=
  let toFill := u64 (rem + rem / 127) in
  fillers_loop (OnesCount64 toFill) toFill.

(** ** Readers *)

(** A reader of a part of the sector: zeros, a parked piece or a URL, the last two
    padded from their raw size. *)
Inductive reader := NullReader (size : Z) | RefReader (pieceID : Z) (rawSize : Z) | UrlReader (url : string) (rawSize : Z).

Record assembly := mkAssembly {
  as_pieceInfos : list (Z * CID);
  as_pieceReaders : list reader;
  as_offset : Z;
  as_closers : list Z;
  as_KeepUnsealed : bool
}.

Definition piece_reader (p : dealMetadata) : result (reader * list Z) deal_error :=
  match DataUrl p with
  | None => Ok (NullReader (Unpadded (u64 (PieceSize p))), [])
  | Some dataUrl =>
      match url_Parse dataUrl with
      | None => Err BadDataUrl
      | Some (scheme, opaque) =>
          if negb (headers_ok (DataHeaders p)) then Err BadHeaders
          else if bool_decide (scheme = "pieceref"%string) then
            match ParseInt opaque with
            | None => Err BadRef
            | Some refNum =>
                match refs_query with
                | Some e => Err (DealSql e)
                | None =>
                    match parked_piece_refs !! refNum with
                    | None => Err NoPieceID
                    | Some pieceID =>
                        if PieceReader pieceID then Ok (RefReader pieceID (u64 (default 0 (DataRawSize p))), [pieceID])
                        else Err NoPieceReader
                    end
                end
            end
          else Ok (UrlReader dataUrl (u64 (default 0 (DataRawSize p))), [])
      end
  end.

(** The body of the loop over the pieces; an error comes with the readers that
    are open. *)
Definition add_piece (commDOnly : bool) (p : dealMetadata) (a : assembly) : result assembly (deal_error * list Z) :=
  match cid_Parse (PieceCID p) with
  | None => Err (BadPieceCID, as_closers a)
  | Some c =>
      let '(pads, padLength) := GetRequiredPadding (Padded (as_offset a)) (u64 (PieceSize p)) in
      let infos := as_pieceInfos a ++ map (fun pad => (pad, ZeroPieceCommitment (Unpadded pad))) pads ++ [(u64 (PieceSize p), c)] in
      let readers := as_pieceReaders a ++ map (fun pad => NullReader (Unpadded pad)) pads in
      let offset := u64 (u64 (as_offset a + Unpadded padLength) + Unpadded (u64 (PieceSize p))) in
      let keep := as_KeepUnsealed a || negb (DataDelOnFinalize p) in
      if commDOnly then Ok (mkAssembly infos readers offset (as_closers a) keep)
      else
        match piece_reader p with
        | Err e => Err (e, as_closers a)
        | Ok (r, cl) => Ok (mkAssembly infos (readers ++ [r]) offset (as_closers a ++ cl) keep)
        end
  end.

Fixpoint add_pieces (commDOnly : bool) (ps : list dealMetadata) (a : assembly) : result assembly (deal_error * list Z) :=
  match ps with
  | [] => Ok a
  | p :: ps =>
      match add_piece commDOnly p a with
      | Err e => Err e
      | Ok a => add_pieces commDOnly ps a
      end
  end.

(** ** Deal data *)

(** [dd_Close] lists the readers that [Close] closes, when it is set. *)
Record DealData := mkDealData {
  dd_CommD : CID;
  dd_Data : option (list reader);
  dd_IsUnpadded : bool;
  dd_PieceInfos : list (Z * CID);
  dd_KeepUnsealed : bool;
  dd_Close : option (list Z)
}.

(** The second component is the readers that the deferred function closes. *)
Definition getDealMetadata (spt : Z) (pieces : list dealMetadata) (commDOnly : bool) : result DealData deal_error * list Z :=
  match SectorSize spt with
  | None => (Err NoSectorSize, [])
  | Some ssize =>
      match pieces with
      | [] =>
          let c := ZeroPieceCommitment (Unpadded ssize) in
          (Ok (mkDealData c (if commDOnly then None else Some [NullReader ssize]) false [(ssize, c)] false
                 (if commDOnly then None else Some [])), [])
      | _ =>
          match add_pieces commDOnly pieces (mkAssembly [] [] 0 [] false) with
          | Err (e, cl) => (Err e, cl)
          | Ok a =>
              let fillerSize := FillersFromRem (u64 (Unpadded ssize - as_offset a)) in
              let infos := as_pieceInfos a ++ map (fun fil => (Padded fil, ZeroPieceCommitment fil)) fillerSize in
              let readers := as_pieceReaders a ++ map NullReader fillerSize in
              match PieceAggregateCommP spt infos with
              | None => (Err CommDFailed, as_closers a)
              | Some c =>
                  (Ok (mkDealData c (Some readers) true infos (as_KeepUnsealed a) (if commDOnly then None else Some (as_closers a))),
                   if commDOnly then as_closers a else [])
              end
          end
      end
  end.

(** [UnsealedCidFromPieces]: the commitment from the pieces of a sector that is
    on chain. *)
Definition UnsealedCidFromPieces (q1 : option sql_error) (params : list Z) (q2 : option sql_error) (rows : list (Z * string * Z))
    : result CID deal_error :=
  match q1 with
  | Some e => Err (DealSql e)
  | None =>
      match params with
      | [spt] =>
          match q2 with
          | Some e => Err (DealSql e)
          | None =>
              match (getDealMetadata spt (map (fun r => mkDeal r.1.1 r.1.2 r.2 None "" None false) rows) true).1 with
              | Err e => Err e
              | Ok dd => Ok (dd_CommD dd)
              end
          end
      | _ => Err NotOneSector
      end
  end.
End DealData.
