(* ===== verification/DealDataFacts.v ===== *)
(** * How the pieces of a sector lie

    The pieces and fillers of [DealData] cover a sector exactly, each at a multiple
    of its size. *)

From stdpp Require Import base gmap sets list strings.
From Stdlib Require Import ZArith Lia Sorted.
From S2P Require Import Prelude FileType GoStd TreeD DealData.

(** ** Bits *)

Lemma low_bit w x : 0 < x < 2 ^ Z.of_nat w ->
  let p := 2 ^ Z.of_nat (trailing_zeros w x) in
  Z.testbit x (Z.of_nat (trailing_zeros w x)) = true /\ (p | x) /\ p <= x /\ ones_count w x = S (ones_count w (x - p)).
Proof.
  revert x. induction w as [|w IH]; intros x Hx; [cbn in Hx; lia|].
  rewrite Nat2Z.inj_succ, Z.pow_succ_r in Hx by lia. cbn [trailing_zeros ones_count]. rewrite !Z.bit0_odd, Z.shiftr_div_pow2 by lia.
  change (2 ^ 1) with 2. destruct (Z.odd x) eqn:Ho.
  - cbv zeta. change (Z.of_nat 0) with 0. change (2 ^ 0) with 1. rewrite Z.bit0_odd, Ho. split; [done|]. split; [apply Z.divide_1_l|]. split; [lia|].
    rewrite Z.odd_sub, Ho. cbn [Z.odd xorb]. rewrite Z.shiftr_div_pow2 by lia. change (2 ^ 1) with 2.
    apply Z.odd_spec in Ho as [y ->]. replace ((2 * y + 1) / 2) with y by (Z.div_mod_to_equations; lia). replace ((2 * y + 1 - 1) / 2) with y by (Z.div_mod_to_equations; lia). done.
  - assert (exists y, x = 2 * y) as [y ->] by (apply Z.even_spec; rewrite <- Z.negb_odd; by rewrite Ho).
    replace (2 * y / 2) with y by (Z.div_mod_to_equations; lia). destruct (IH y ltac:(lia)) as (Hb & Hd & Hle & Hc). cbv zeta.
    rewrite Nat2Z.inj_succ, Z.pow_succ_r by lia. set (p := 2 ^ Z.of_nat (trailing_zeros w y)) in *.
    split; [rewrite Z.testbit_even_succ by lia; done|]. split; [by apply Z.mul_divide_mono_l|]. split; [lia|].
    replace (2 * y - 2 * p) with (2 * (y - p)) by lia. rewrite Z.odd_mul. cbn [Z.odd andb Nat.add].
    rewrite Z.shiftr_div_pow2 by lia. change (2 ^ 1) with 2. replace (2 * (y - p) / 2) with (y - p) by (Z.div_mod_to_equations; lia). done.
Qed.

Lemma ones_count_zero w : ones_count w 0 = 0%nat.
Proof. induction w as [|w IH]; [done|]. cbn. done. Qed.

Lemma lxor_set_bit x n : 0 <= n -> Z.testbit x n = true -> Z.lxor x (2 ^ n) = x - 2 ^ n.
Proof.
  intros Hn Hb. rewrite Z.sub_nocarry_ldiff.
  - apply Z.bits_inj'. intros i Hi. rewrite Z.lxor_spec, Z.ldiff_spec, Z.pow2_bits_eqb by done.
    destruct (Z.eqb_spec n i) as [<-|]; [by rewrite Hb|]. by destruct (Z.testbit x i).
  - apply Z.bits_inj'. intros i Hi. rewrite Z.ldiff_spec, Z.bits_0, Z.pow2_bits_eqb by done.
    destruct (Z.eqb_spec n i) as [<-|]; [by rewrite Hb|done].
Qed.

(** ** Tilings *)

(** Parts that follow each other from an offset, each at a multiple of its size. *)
Fixpoint tiled (off : Z) (sizes : list Z) : Prop :=
  match sizes with
  | [] => True
  | s :: sizes => 0 < s /\ (s | off) /\ tiled (off + s) sizes
  end.

Lemma tiled_app off a b : tiled off (a ++ b) <-> tiled off a /\ tiled (off + Zsum id a) b.
Proof.
  revert off. induction a as [|s a IH]; intros off; cbn [app tiled]; [rewrite Zsum_nil, Z.add_0_r; tauto|].
  rewrite IH, Zsum_cons. unfold id at 2. rewrite Z.add_assoc. tauto.
Qed.

(** The size of a piece: a power of two that holds whole fr32 blocks. *)
Definition piece_size (s : Z) : Prop := exists j, 7 <= j <= 62 /\ s = 2 ^ j.

Lemma piece_size_pos s : piece_size s -> 128 <= s <= 2 ^ 62.
Proof.
  intros (j & Hj & ->). change 128 with (2 ^ 7). split; apply Z.pow_le_mono_r; lia.
Qed.

Lemma pow2_divide a b : 0 <= a <= b -> (2 ^ a | 2 ^ b).
Proof. intros H. exists (2 ^ (b - a)). rewrite <- Z.pow_add_r by lia. f_equal. lia. Qed.

Lemma piece_size_divide a b : piece_size a -> piece_size b -> a <= b -> (a | b).
Proof.
  intros (i & Hi & ->) (j & Hj & ->) Hle. apply pow2_divide. split; [lia|]. apply Z.pow_le_mono_r_iff in Hle; lia.
Qed.

(** Pieces in descending order fit without padding. *)
Lemma descending_tiled off sizes : Forall piece_size sizes -> StronglySorted Z.ge sizes -> Forall (fun s => (s | off)) sizes -> tiled off sizes.
Proof.
  revert off. induction sizes as [|s sizes IH]; intros off Hp Hs Ho; [done|]. inversion_clear Hp as [|?? Hp1 Hp2].
  apply StronglySorted_inv in Hs as [Hs Hge]. inversion_clear Ho as [|?? Ho1 Ho2]. cbn [tiled].
  split; [apply piece_size_pos in Hp1; lia|]. split; [done|]. apply IH; [done|done|].
  rewrite Forall_forall in Ho2, Hge, Hp2 |- *. intros t Ht. apply Z.divide_add_r; [by apply Ho2|].
  apply piece_size_divide; [by apply Hp2|done|]. specialize (Hge t Ht). lia.
Qed.

(** ** The sizes of the libraries *)

(** 127 bytes are 128 bytes with their fr32 bits, and no padding goes before a
    piece that is aligned. *)
Class PieceSizes (Padded Unpadded : Z -> Z) (GetRequiredPadding : Z -> Z -> list Z * Z) := {
  unpadded_ratio : forall n, 0 <= n < 2 ^ 57 -> Unpadded (128 * n) = 127 * n;
  padded_ratio : forall n, 0 <= n < 2 ^ 57 -> Padded (127 * n) = 128 * n;
  aligned_no_padding : forall old new, 0 < new -> (new | old) -> GetRequiredPadding old new = ([], 0)
}.

Section Layout.
Context {CID : Type} {Padded Unpadded : Z -> Z} {GetRequiredPadding : Z -> Z -> list Z * Z} `{!PieceSizes Padded Unpadded GetRequiredPadding}.

Lemma piece_unpadded s : piece_size s -> exists n, 0 < n < 2 ^ 57 /\ s = 128 * n /\ Unpadded s = 127 * n.
Proof.
  intros (j & Hj & ->). exists (2 ^ (j - 7)). assert (2 ^ j = 128 * 2 ^ (j - 7)) as E.
  { change 128 with (2 ^ 7). rewrite <- Z.pow_add_r by lia. f_equal. lia. }
  assert (0 < 2 ^ (j - 7) < 2 ^ 57) by (split; [apply Z.pow_pos_nonneg; lia|apply Z.pow_lt_mono_r; lia]).
  split; [lia|]. split; [done|]. rewrite E. apply unpadded_ratio. lia.
Qed.

(** The fillers of a rest of [x] bytes, at the end of a sector of size [S]. *)
Lemma fillers_tiled k x : 7 <= k <= 62 -> 0 <= x <= 2 ^ k -> (128 | x) ->
  let l := fillers_loop Unpadded (OnesCount64 x) x in
  tiled (2 ^ k - x) (Padded <$> l) /\ Zsum id (Padded <$> l) = x /\ Forall (fun f => Unpadded (Padded f) = f) l.
Proof.
  intros Hk. assert (2 ^ k < 2 ^ 64) as Hk64 by (apply Z.pow_lt_mono_r; lia).
  remember (OnesCount64 x) as n eqn:En. revert x En. induction n as [|n IH]; intros x En Hx Hd; cbv zeta.
  - destruct (decide (x = 0)) as [->|Hnz]; [done|]. destruct (low_bit 64 x) as (_ & _ & _ & Hc); [change (Z.of_nat 64) with 64; lia|].
    unfold OnesCount64 in En. lia.
  - destruct (decide (x = 0)) as [->|Hnz]; [unfold OnesCount64 in En; by rewrite ones_count_zero in En|].
    destruct (low_bit 64 x) as (Hb & Hdiv & Hle & Hc); [change (Z.of_nat 64) with 64; lia|].
    cbn [fillers_loop]. unfold TrailingZeros. rewrite Z.shiftl_1_l.
    set (t := Z.of_nat (trailing_zeros 64 x)) in *. set (p := 2 ^ t) in *.
    assert (7 <= t <= k) as Ht.
    { split.
      - destruct (decide (7 <= t)); [done|]. exfalso. destruct Hd as [q ->]. change 128 with (2 ^ 7) in Hb.
        rewrite Z.mul_pow2_bits_low in Hb by lia. done.
      - apply (Z.pow_le_mono_r_iff 2); [lia|lia|]. fold p. lia. }
    assert (u64 p = p) as -> by (apply wrap_u_small; lia).
    assert (Z.lxor x p = x - p) as -> by (apply lxor_set_bit; [lia|done]).
    assert (piece_size p) as Hp by (exists t; split; [lia|done]). destruct (piece_unpadded p Hp) as (m & Hm & Em & Eu).
    assert (Padded (Unpadded p) = p) as Epp by (rewrite Eu, padded_ratio by lia; lia).
    assert ((128 | p)) as H128 by (exists m; lia).
    destruct (IH (x - p)) as (Ht' & Hs' & Hf'); [unfold OnesCount64 in *; lia|lia|by apply Z.divide_sub_r|].
    cbn [fmap list_fmap tiled]. rewrite Epp. replace (2 ^ k - x + p) with (2 ^ k - (x - p)) by lia.
    change (list_fmap Z Z Padded) with (fmap Padded : list Z -> list Z) in *.
    split; [|split; [rewrite Zsum_cons; unfold id at 1; unfold fmap in Hs' |- *; rewrite Hs'; lia|constructor; [by rewrite Epp|done]]].
    split; [lia|]. split; [|done]. apply Z.divide_sub_r; [|done]. apply pow2_divide. lia.
Qed.

Lemma FillersFromRem_tiled k m : 7 <= k <= 62 -> 0 <= 128 * m <= 2 ^ k ->
  let l := FillersFromRem Unpadded (127 * m) in
  tiled (2 ^ k - 128 * m) (Padded <$> l) /\ Zsum id (Padded <$> l) = 128 * m /\ Forall (fun f => Unpadded (Padded f) = f) l.
Proof.
  intros Hk Hm. assert (2 ^ k < 2 ^ 64) as Hk64 by (apply Z.pow_lt_mono_r; lia). unfold FillersFromRem.
  replace (127 * m + 127 * m / 127) with (128 * m) by (Z.div_mod_to_equations; lia). assert (u64 (128 * m) = 128 * m) as -> by (apply wrap_u_small; lia).
  apply (fillers_tiled k); [done|done|]. exists m. lia.
Qed.

(** ** The pieces of a sector *)

Variable cid_Parse : string -> option CID.
Variable ZeroPieceCommitment : Z -> CID.
Variable PieceAggregateCommP : Z -> list (Z * CID) -> option CID.
Variable SectorSize : Z -> option Z.
Variable url_Parse : string -> option (string * string).
Variable headers_ok : string -> bool.
Variable parked_piece_refs : gmap Z Z.
Variable refs_query : option sql_error.
Variable PieceReader : Z -> bool.
(** [padreader.PaddedSize]: the length of a padded reader. *)
Variable PaddedSize : Z -> Z.

Let piece_reader := piece_reader Unpadded url_Parse headers_ok parked_piece_refs refs_query PieceReader.
Let add_pieces := add_pieces Padded Unpadded GetRequiredPadding cid_Parse ZeroPieceCommitment url_Parse headers_ok parked_piece_refs refs_query PieceReader.
Let getDealMetadata := getDealMetadata Padded Unpadded GetRequiredPadding cid_Parse ZeroPieceCommitment PieceAggregateCommP SectorSize
  url_Parse headers_ok parked_piece_refs refs_query PieceReader.

Definition reader_length (r : reader) : Z :=
  match r with
  | NullReader n => n
  | RefReader _ rawSize | UrlReader _ rawSize => PaddedSize rawSize
  end.

(** A piece whose content identifier parses, whose data, where it has some, is as
    long as the piece, and whose reader opens if it is needed. *)
Definition piece_ok (commDOnly : bool) (p : dealMetadata) : Prop :=
  is_Some (cid_Parse (PieceCID p)) /\ piece_size (PieceSize p) /\
  (is_Some (DataUrl p) -> PaddedSize (u64 (default 0 (DataRawSize p))) = Unpadded (PieceSize p)) /\
  (commDOnly = true \/ exists r, piece_reader p = Ok r).

Definition piece_info (p : dealMetadata) (i : Z * CID) : Prop := i.1 = PieceSize p /\ cid_Parse (PieceCID p) = Some i.2.

(** A reader for every part, with the length of the part. *)
Definition readers_fit (readers : list reader) (infos : list (Z * CID)) : Prop := Forall2 (fun r i => reader_length r = Unpadded i.1) readers infos.

Lemma piece_reader_length p r cl : piece_ok false p -> piece_reader p = Ok (r, cl) -> reader_length r = Unpadded (PieceSize p).
Proof.
  intros (_ & Hs & Hd & _). apply piece_size_pos in Hs. unfold piece_reader, DealData.piece_reader.
  destruct (DataUrl p) as [u|]; [|intros E; injection E as <- <-; cbn; f_equal; apply wrap_u_small; lia].
  specialize (Hd (ex_intro _ u eq_refl)). repeat case_match; intros E; simplify_eq; done.
Qed.

Lemma add_piece_layout commDOnly p (a : assembly) n : piece_ok commDOnly p -> (PieceSize p | 128 * n) -> 0 <= n -> 128 * n + PieceSize p <= 2 ^ 62 ->
  as_offset a = 127 * n ->
  exists a1 i r, add_piece Padded Unpadded GetRequiredPadding cid_Parse ZeroPieceCommitment url_Parse headers_ok parked_piece_refs refs_query PieceReader
      commDOnly p a = Ok a1 /\
    128 * as_offset a1 = 127 * (128 * n + PieceSize p) /\ as_pieceInfos a1 = as_pieceInfos a ++ [i] /\ piece_info p i /\
    as_pieceReaders a1 = as_pieceReaders a ++ r /\ (commDOnly = false -> readers_fit r [i]).
Proof.
  intros Hp Hd Hn Hb Ho. pose proof Hp as ([c Hc] & Hsz & _ & Hr). destruct (piece_unpadded _ Hsz) as (m & Hm & Em & Eu).
  unfold add_piece. rewrite Hc, Ho, padded_ratio by lia. assert (u64 (PieceSize p) = PieceSize p) as -> by (apply wrap_u_small; lia).
  rewrite aligned_no_padding by (lia || done). cbn [map app]. assert (Unpadded 0 = 0) as -> by (apply (unpadded_ratio 0); lia).
  rewrite Z.add_0_r, Eu. assert (u64 (127 * n) = 127 * n) as -> by (apply wrap_u_small; lia).
  assert (u64 (127 * n + 127 * m) = 127 * (n + m)) as -> by (rewrite <- Z.mul_add_distr_l; apply wrap_u_small; lia).
  destruct commDOnly.
  - eexists _, (PieceSize p, c), []. split; [reflexivity|]. cbn. by repeat (split; [done || lia|]).
  - destruct Hr as [|[[r cl] Hr]]; [done|]. fold piece_reader. rewrite Hr. eexists _, (PieceSize p, c), [r]. split; [reflexivity|]. cbn.
    rewrite app_nil_r. repeat (split; [done || lia|]). intros _. constructor; [|constructor]. by apply (piece_reader_length p r cl).
Qed.

Lemma add_pieces_layout commDOnly ps (a : assembly) n : Forall (piece_ok commDOnly) ps -> StronglySorted Z.ge (PieceSize <$> ps) ->
  Forall (fun p => (PieceSize p | 128 * n)) ps -> 0 <= n -> 128 * n + Zsum PieceSize ps <= 2 ^ 62 -> as_offset a = 127 * n ->
  exists a' n' infos readers, add_pieces commDOnly ps a = Ok a' /\ as_offset a' = 127 * n' /\ 128 * n' = 128 * n + Zsum PieceSize ps /\
    as_pieceInfos a' = as_pieceInfos a ++ infos /\ Forall2 piece_info ps infos /\
    as_pieceReaders a' = as_pieceReaders a ++ readers /\ (commDOnly = false -> readers_fit readers infos).
Proof.
  revert a n. induction ps as [|p ps IH]; intros a n Hok Hs Hd Hn Hb Ho.
  - exists a, n, [], []. rewrite Zsum_nil, !app_nil_r. repeat (split; [done || lia || by constructor|]). intros _. by constructor.
  - inversion_clear Hok as [|?? Hp Hok']. inversion_clear Hd as [|?? Hd1 Hd2]. apply StronglySorted_inv in Hs as [Hs Hge].
    rewrite Zsum_cons in *. pose proof Hp as (_ & Hsz & _). destruct (piece_unpadded _ Hsz) as (m & Hm & Em & _).
    rewrite Forall_forall in Hd2. rewrite Forall_forall in Hge. pose proof Hok' as Hok2. rewrite Forall_forall in Hok2.
    assert (0 <= Zsum PieceSize ps) as Hpos.
    { apply Zsum_nonneg. intros q Hq. destruct (Hok2 q Hq) as (_ & Hq' & _). apply piece_size_pos in Hq'. lia. }
    destruct (add_piece_layout commDOnly p a n) as (a1 & i & r & E1 & Eo & Ei & Hi & Er & Hf); [done|done|done|lia|done|].
    destruct (IH a1 (n + m) Hok' Hs) as (a' & n' & infos & readers & E & Eo' & En & Ei' & Hi' & Er' & Hf'); [|lia|lia|lia|].
    { apply Forall_forall. intros q Hq. rewrite Z.mul_add_distr_l. apply Z.divide_add_r; [by apply Hd2|]. rewrite <- Em.
      destruct (Hok2 q Hq) as (_ & Hq' & _). apply piece_size_divide; [done|done|].
      pose proof (Hge (PieceSize q) ltac:(apply list_elem_of_fmap; by exists q)). lia. }
    exists a', n', (i :: infos), (r ++ readers). split; [unfold add_pieces; cbn [DealData.add_pieces]; rewrite E1; exact E|].
    split; [done|]. split; [lia|]. split; [by rewrite Ei', Ei, <- app_assoc|]. split; [by constructor|].
    split; [by rewrite Er', Er, <- app_assoc|]. intros Ec. change (i :: infos) with ([i] ++ infos). unfold readers_fit. apply Forall2_app; [by apply Hf|by apply Hf'].
Qed.

Lemma piece_info_sizes ps infos : Forall2 piece_info ps infos -> infos.*1 = PieceSize <$> ps.
Proof. induction 1 as [|p i ps infos [E _] _ IH]; [done|]. cbn. by rewrite E, IH. Qed.

Definition filler_info (fil : Z) : Z * CID := (Padded fil, ZeroPieceCommitment fil).

Lemma fillers_fit l : Forall (fun f => Unpadded (Padded f) = f) l -> readers_fit (map NullReader l) (map filler_info l).
Proof. induction 1 as [|f l Hf _ IH]; constructor; [by rewrite <- Hf at 1|done]. Qed.

(** The outcome of an assembly: the pieces from the start of the sector without
    padding, then fillers with commitments of zeros; together they cover the sector
    exactly, each part at a multiple of its size, and when the data is read each has
    a reader of exactly its length.  Only the commitment to the parts can still
    fail. *)
Definition laid_out (spt k : Z) (pieces : list dealMetadata) (commDOnly : bool) (res : result DealData deal_error) : Prop :=
  exists infos fillers readers,
    Forall2 piece_info pieces infos /\ tiled 0 ((infos ++ map filler_info fillers).*1) /\ Zsum fst (infos ++ map filler_info fillers) = 2 ^ k /\
    (commDOnly = false -> readers_fit readers (infos ++ map filler_info fillers)) /\
    match PieceAggregateCommP spt (infos ++ map filler_info fillers) with
    | None => res = Err CommDFailed
    | Some c => exists keep close, res = Ok (mkDealData c (Some readers) true (infos ++ map filler_info fillers) keep close)
    end.

Lemma sector_layout (spt k : Z) (pieces : list dealMetadata) (commDOnly : bool) : 7 <= k <= 62 -> SectorSize spt = Some (2 ^ k) -> pieces <> [] ->
  Forall (piece_ok commDOnly) pieces -> StronglySorted Z.ge (PieceSize <$> pieces) -> Zsum PieceSize pieces <= 2 ^ k ->
  laid_out spt k pieces commDOnly (getDealMetadata spt pieces commDOnly).1.
Proof.
  intros Hk Hss Hne Hok Hs Hsum. assert (2 ^ k <= 2 ^ 62) as Hk62 by (apply Z.pow_le_mono_r; lia).
  destruct (add_pieces_layout commDOnly pieces (mkAssembly [] [] 0 [] false) 0) as (a & n & infos & readers & E & Eo & En & Ei & Hi & Er & Hf);
    [done|done|by apply Forall_forall; intros; exists 0|lia|lia|done|].
  cbn [as_pieceInfos as_pieceReaders app] in Ei, Er. rewrite Z.mul_0_r in En.
  assert (piece_size (2 ^ k)) as Hpk by (by exists k). destruct (piece_unpadded _ Hpk) as (m & Hm & Em & Eu).
  assert (0 <= n) as Hn.
  { assert (0 <= Zsum PieceSize pieces); [|lia]. apply Zsum_nonneg. intros q Hq. rewrite Forall_forall in Hok. destruct (Hok q Hq) as (_ & Hq' & _). apply piece_size_pos in Hq'. lia. }
  destruct (FillersFromRem_tiled k (m - n)) as (Ht & Hz & Hff); [done|lia|]. set (fillers := FillersFromRem Unpadded (127 * (m - n))) in *.
  assert (u64 (Unpadded (2 ^ k) - as_offset a) = 127 * (m - n)) as Erem by (rewrite Eu, Eo, <- Z.mul_sub_distr_l; apply wrap_u_small; lia).
  assert ((map filler_info fillers).*1 = Padded <$> fillers) as Efm by (rewrite <- list_fmap_compose; done).
  pose proof (piece_info_sizes _ _ Hi) as Esz.
  assert (Zsum id (PieceSize <$> pieces) = Zsum PieceSize pieces) as Ezs by exact (Zsum_fmap id PieceSize pieces).
  exists infos, fillers, (readers ++ map NullReader fillers). split; [done|]. split; [|split; [|split]].
  - rewrite fmap_app, Efm, Esz, tiled_app, Ezs. split; [|by replace (0 + Zsum PieceSize pieces) with (2 ^ k - 128 * (m - n)) by lia].
    apply descending_tiled; [|done|apply Forall_forall; intros; by exists 0].
    apply Forall_fmap, Forall_forall. intros q Hq. rewrite Forall_forall in Hok. by destruct (Hok q Hq) as (_ & Hq' & _).
  - transitivity (Zsum id ((infos ++ map filler_info fillers).*1)); [symmetry; exact (Zsum_fmap id fst _)|].
    rewrite fmap_app, Zsum_app, Efm, Esz, Ezs, Hz. lia.
  - intros Ec. apply Forall2_app; [by apply Hf|by apply fillers_fit].
  - unfold getDealMetadata, DealData.getDealMetadata. rewrite Hss. destruct pieces as [|p0 ps]; [done|]. fold add_pieces. rewrite E. cbv zeta.
    rewrite Erem, Ei, Er. fold fillers. change (fun fil => (Padded fil, ZeroPieceCommitment fil)) with filler_info.
    destruct (PieceAggregateCommP spt _) as [c|]; [by do 2 eexists|done].
Qed.
End Layout.
