(* ===== verification/DealIngest.v ===== *)
(** * Assigning deal data to sectors

    [market/storageingest/deal_ingest_seal.go], [deal_ingest_snap.go] and
    [seal_now.go] with [tasks/seal/sector_num_alloc.go] and the SQL functions they
    call: pieces of deals wait in open sectors, new ones or committed-capacity
    ones that are upgraded, until the sector is full, old or due; then its pieces
    move to the sealing or to the snap pipeline in descending order of their sizes.
    The chain node, the sizes of padded data and the JSON forms are parameters.  A
    bit field of sector numbers is the set of its numbers. *)

From stdpp Require Import base gmap sets list strings sorting.
From Stdlib Require Import ZArith Lia.
From S2P Require Import Prelude FileType GoStd DealData.

(** ** Tables *)

Record f05_columns := mkF05 { f05_publish_cid : option string; f05_deal_id : Z; f05_deal_proposal : string; f05_start : Z; f05_end : Z }.

Record direct_columns := mkDirect { direct_start : Z; direct_end : Z; direct_manifest : string }.

(** A row of [open_sector_pieces] and of the tables of initial pieces. *)
Record piece_row := mkPiece {
  op_piece_cid : string;
  op_piece_size : Z;
  op_data_url : string;
  op_data_headers : string;
  op_data_raw_size : Z;
  op_delete_on_finalize : bool;
  op_f05 : option f05_columns;
  op_direct : option direct_columns;
  op_created_at : time;
  op_is_snap : bool
}.

(** Miner, sector and piece index. *)
Abbreviation piece_key := (Z * Z * Z)%type.
Abbreviation piece_table := (gmap (Z * Z * Z) piece_row).

Record ingest_db := mkIngest {
  open_sector_pieces : piece_table;
  sectors_allocated_numbers : gmap Z (gset Z);
  sdr_pipeline : gmap (Z * Z) Z;
  sdr_initial_pieces : piece_table;
  snap_pipeline : gmap (Z * Z) Z;
  snap_initial_pieces : piece_table
}.

(** The columns of [sectors_meta] that the choice of a sector to upgrade reads. *)
Record cc_row := mkCc { cc_reg_seal_proof : Z; cc_is_cc : bool; cc_is_live : bool; cc_is_faulty : bool; cc_expiration : option Z; cc_deadline : option Z }.

Inductive ingest_error := IngSql (e : sql_error) | IndexConflict | NoOpenPieces | F05InSnap | NilPointer | RawSizeMismatch | HeaderJson | ProposalJson
  | AllocationQuery | NoAllocation | MinerNotFound | MinerAllocated | NotEnoughNumbers | ExpectedOneNumber | ChainCall | PartitionNotFound
  | NoSuitableSector | NegativeLifetime | ExpiresTooSoon | ExpiresTooLate | NoUpdateProof.

(** ** Pieces of deals *)

Record DealProposal := mkProposal { dp_PieceCID : string; dp_PieceSize : Z; dp_VerifiedDeal : bool; dp_Client : string }.

(** [VerifiedAllocationKey]: client and allocation; [Notify]: address and payload. *)
Record PieceActivationManifest := mkManifest { pm_CID : string; pm_Size : Z; pm_Key : option (Z * Z); pm_Notify : list (string * string) }.

Record PieceDealInfo := mkInfo {
  PublishCid : option string;
  DealID : Z;
  pi_Proposal : option DealProposal;
  StartEpoch : Z;
  EndEpoch : Z;
  pi_Manifest : option PieceActivationManifest;
  KeepUnsealed : bool
}.

(** ** SQL functions *)

Definition insert_piece (k : piece_key) (r : piece_row) (t : piece_table) : result piece_table ingest_error :=
  match t !! k with
  | Some _ => Err IndexConflict
  | None => Ok (<[k := r]> t)
  end.

(** The rows of a sector. *)
Definition sector_rows (m s : Z) (t : piece_table) : list (piece_key * piece_row) :=
  List.filter (fun kr => bool_decide (kr.1.1 = (m, s))) (map_to_list t).

Definition drop_sector (m s : Z) (t : piece_table) : piece_table := filter (fun kr => kr.1.1 <> (m, s)) t.

(** The loop of the transfer: the rows get the indices from [new_index] on. *)
Fixpoint insert_rows (m s new_index : Z) (rows : list piece_row) (t : piece_table) : result piece_table ingest_error :=
  match rows with
  | [] => Ok t
  | r :: rows =>
      match insert_piece (m, s, new_index) r t with
      | Err e => Err e
      | Ok t => insert_rows m s (new_index + 1) rows t
      end
  end.

Definition size_desc (a b : piece_key * piece_row) : Prop := op_piece_size b.2 <= op_piece_size a.2.

#[export] Instance size_desc_dec : RelDecision size_desc.
Proof. intros a b. unfold size_desc. apply _. Defined.

Definition index_desc (a b : piece_key * piece_row) : Prop := b.1.2 <= a.1.2.

#[export] Instance index_desc_dec : RelDecision index_desc.
Proof. intros a b. unfold index_desc. apply _. Defined.

Section Ingest.
Context `{Enum}.
(** [PieceDealInfo.PieceCID] and [Size], [padreader.PaddedSize] and [Padded]. *)
Variable Info_PieceCID : PieceDealInfo -> string.
Variable Info_Size : PieceDealInfo -> Z.
Variable PaddedSize Padded : Z -> Z.
Variable marshal_proposal : DealProposal -> option string.
Variable marshal_manifest : PieceActivationManifest -> option string.

(** [transfer_and_delete_sorted_open_piece] *)
Definition transfer_sdr (m s : Z) (db : ingest_db) : result ingest_db ingest_error :=
  match merge_sort size_desc (enum (sector_rows m s (open_sector_pieces db))) with
  | [] => Err NoOpenPieces
  | rows =>
      match insert_rows m s 0 rows.*2 (sdr_initial_pieces db) with
      | Err e => Err e
      | Ok t => Ok (mkIngest (drop_sector m s (open_sector_pieces db)) (sectors_allocated_numbers db) (sdr_pipeline db) t
                      (snap_pipeline db) (snap_initial_pieces db))
      end
  end.

Definition drop_f05 (r : piece_row) : piece_row :=
  mkPiece (op_piece_cid r) (op_piece_size r) (op_data_url r) (op_data_headers r) (op_data_raw_size r) (op_delete_on_finalize r)
    None (op_direct r) (op_created_at r) (op_is_snap r).

(** [transfer_and_delete_sorted_open_piece_snap] *)
Definition transfer_snap (m s : Z) (db : ingest_db) : result ingest_db ingest_error :=
  let rows := sector_rows m s (open_sector_pieces db) in
  if existsb (fun kr => match op_f05 kr.2 with Some _ => true | None => false end) rows then Err F05InSnap
  else
    match merge_sort size_desc (enum rows) with
    | [] => Err NoOpenPieces
    | rows =>
        match insert_rows m s 0 (drop_f05 <$> rows.*2) (snap_initial_pieces db) with
        | Err e => Err e
        | Ok t => Ok (mkIngest (drop_sector m s (open_sector_pieces db)) (sectors_allocated_numbers db) (sdr_pipeline db)
                        (sdr_initial_pieces db) (snap_pipeline db) t)
        end
    end.

(** [INSERT INTO sectors_sdr_pipeline] and the transfer; and the same for snap. *)
Definition start_sdr (m s proof : Z) (db : ingest_db) : result ingest_db ingest_error :=
  match sdr_pipeline db !! (m, s) with
  | Some _ => Err (IngSql SqlOther)
  | None => transfer_sdr m s (mkIngest (open_sector_pieces db) (sectors_allocated_numbers db) (<[(m, s) := proof]> (sdr_pipeline db))
              (sdr_initial_pieces db) (snap_pipeline db) (snap_initial_pieces db))
  end.

Definition start_snap (m s proof : Z) (db : ingest_db) : result ingest_db ingest_error :=
  match snap_pipeline db !! (m, s) with
  | Some _ => Err (IngSql SqlOther)
  | None => transfer_snap m s (mkIngest (open_sector_pieces db) (sectors_allocated_numbers db) (sdr_pipeline db)
              (sdr_initial_pieces db) (<[(m, s) := proof]> (snap_pipeline db)) (snap_initial_pieces db))
  end.

(** ** Open sectors *)

Record openSector := mkOpenSector {
  os_miner : Z;
  os_number : Z;
  os_currentSize : Z;
  os_earliestStartEpoch : Z;
  os_index : Z;
  os_openedAt : time;
  os_latestEndEpoch : Z;
  os_pieces : list (string * Z)
}.

Definition getStartEpoch (new cur : Z) : Z := if (cur >? 0) && (cur <? new) then cur else new.

Definition getEndEpoch (new cur : Z) : Z := if (cur >? 0) && (cur >? new) then cur else new.

(** [created_at] is never null. *)
Definition getOpenedAt (created cur : time) : time := if created <? cur then created else cur.

(** [COALESCE(direct_start_epoch, f05_deal_start_epoch, 0)] and its sibling. *)
Definition deal_start_epoch (r : piece_row) : Z :=
  match op_direct r with Some d => direct_start d | None => match op_f05 r with Some f => f05_start f | None => 0 end end.

Definition deal_end_epoch (r : piece_row) : Z :=
  match op_direct r with Some d => direct_end d | None => match op_f05 r with Some f => f05_end f | None => 0 end end.

Definition add_open_row (m : gmap Z openSector) (kr : piece_key * piece_row) : gmap Z openSector :=
  let '((miner, sec, idx), r) := kr in
  let size := u64 (op_piece_size r) in
  match m !! sec with
  | None =>
      <[sec := mkOpenSector miner sec size (getStartEpoch (deal_start_epoch r) 0) idx (op_created_at r)
                 (getEndEpoch (deal_end_epoch r) 0) [(op_piece_cid r, size)]]> m
  | Some s =>
      let start := getStartEpoch (deal_start_epoch r) (os_earliestStartEpoch s) in
      <[sec := mkOpenSector (os_miner s) (os_number s) (u64 (os_currentSize s + size)) start
                 (if os_index s <? idx then idx else os_index s) (getOpenedAt (op_created_at r) (os_openedAt s))
                 (getEndEpoch (deal_end_epoch r) start) (os_pieces s ++ [(op_piece_cid r, size)])]> m
  end.

(** [ORDER BY piece_index DESC] *)
Definition open_rows (snap : bool) (mid : Z) (t : piece_table) : list (piece_key * piece_row) :=
  merge_sort index_desc
    (enum (List.filter (fun kr => bool_decide (kr.1.1.1 = mid) && Bool.eqb (op_is_snap kr.2) snap) (map_to_list t))).

Definition open_sectors (snap : bool) (mid : Z) (t : piece_table) : list openSector :=
  (enum (map_to_list (foldl add_open_row ∅ (open_rows snap mid t)))).*2.

Definition getOpenSectors (q : option sql_error) (mid : Z) (db : ingest_db) : result (list openSector) ingest_error :=
  match q with Some e => Err (IngSql e) | None => Ok (open_sectors false mid (open_sector_pieces db)) end.

Definition snap_getOpenSectors (q : option sql_error) (mid : Z) (db : ingest_db) : result (list openSector) ingest_error :=
  match q with Some e => Err (IngSql e) | None => Ok (open_sectors true mid (open_sector_pieces db)) end.

(** ** The ingesters *)

Record mdetails := mkDetails { md_sealProof : Z; md_updateProof : Z; md_sectorSize : Z }.

Record PieceIngester := mkIngester {
  addToID : gmap string Z;
  minerDetails : gmap Z mdetails;
  maxWaitTime : duration;
  expectedSealDuration : Z
}.

(** What the chain says of a miner: its id, preferred proof, update proof and
    sector size; [None] when one of the queries fails. *)
Variable miner_info : string -> option (Z * mdetails).

Fixpoint add_miners (miners : list string) (ids : gmap string Z) (ds : gmap Z mdetails) : option (gmap string Z * gmap Z mdetails) :=
  match miners with
  | [] => Some (ids, ds)
  | maddr :: miners =>
      match miner_info maddr with
      | None => None
      | Some (mid, d) => add_miners miners (<[maddr := mid]> ids) (<[mid := d]> ds)
      end
  end.

Definition NewPieceIngester (miners : list string) (wait : duration) (dur : Z) : option PieceIngester :=
  match miners with
  | [] => None
  | _ => match add_miners miners ∅ ∅ with
         | None => None
         | Some (ids, ds) => Some (mkIngester ids ds wait dur)
         end
  end.

(** ** Starting to seal *)

Definition shouldSeal (p : PieceIngester) (height : Z) (now : time) (sec : openSector) : option bool :=
  match minerDetails p !! os_miner sec with
  | None => None
  | Some d =>
      Some (if os_currentSize sec =? md_sectorSize d then true
            else if time_sub now (os_openedAt sec) >? maxWaitTime p then true
            else os_earliestStartEpoch sec <? i64 (height + expectedSealDuration p))
  end.

Section SealLoop.
Variable start : Z -> Z -> Z -> ingest_db -> result ingest_db ingest_error.
Variable proof_of : mdetails -> Z.
Variable get : Z -> ingest_db -> result (list openSector) ingest_error.
Variables (p : PieceIngester) (height : Z) (now : time).

Fixpoint seal_sectors (mid : Z) (secs : list openSector) (db : ingest_db) : result ingest_db ingest_error :=
  match secs with
  | [] => Ok db
  | sec :: secs =>
      match shouldSeal p height now sec with
      | None => Err NilPointer
      | Some false => seal_sectors mid secs db
      | Some true =>
          match minerDetails p !! mid with
          | None => Err NilPointer
          | Some d =>
              match start mid (os_number sec) (proof_of d) db with
              | Err e => Err e
              | Ok db => seal_sectors mid secs db
              end
          end
      end
  end.

Fixpoint seal_miners (mids : list Z) (db : ingest_db) : result ingest_db ingest_error :=
  match mids with
  | [] => Ok db
  | mid :: mids =>
      match get mid db with
      | Err e => Err e
      | Ok secs =>
          match seal_sectors mid secs db with
          | Err e => Err e
          | Ok db => seal_miners mids db
          end
      end
  end.
End SealLoop.

Definition run_tx (x : exec) (db : ingest_db) (r : result ingest_db ingest_error) : ingest_db * option ingest_error :=
  match r with
  | Err e => (db, Some e)
  | Ok db' => let '(db, e) := run_exec x db db' in (db, IngSql <$> e)
  end.

Definition Seal (p : PieceIngester) (head : option Z) (now : time) (q : option sql_error) (x : exec) (db : ingest_db) : ingest_db * option ingest_error :=
  match head with
  | None => (db, Some ChainCall)
  | Some height =>
      run_tx x db (seal_miners start_sdr md_sealProof (getOpenSectors q) p height now (enum (map_to_list (addToID p))).*2 db)
  end.

Definition snap_Seal (p : PieceIngester) (head : option Z) (now : time) (q : option sql_error) (x : exec) (db : ingest_db) : ingest_db * option ingest_error :=
  match head with
  | None => (db, Some ChainCall)
  | Some height =>
      run_tx x db (seal_miners start_snap md_updateProof (snap_getOpenSectors q) p height now (enum (map_to_list (addToID p))).*2 db)
  end.

(** [SealNow]; the proofs are those of the miner and network at the head. *)
Definition SealNow (proofs : option (Z * Z * option Z)) (sector : Z) (q : option sql_error) (x : exec) (db : ingest_db) : ingest_db * option ingest_error :=
  match proofs with
  | None => (db, Some ChainCall)
  | Some (mid, spt, updateProof) =>
      match q with
      | Some e => (db, Some (IngSql e))
      | None =>
          match merge_sort index_desc (enum (sector_rows mid sector (open_sector_pieces db))) with
          | [] => (db, Some NoOpenPieces)
          | kr :: _ =>
              run_tx x db
                (if op_is_snap kr.2 then
                   match updateProof with
                   | None => Err NoUpdateProof
                   | Some upt => start_snap mid sector upt db
                   end
                 else start_sdr mid sector spt db)
          end
      end
  end.
End Ingest.
