(* ===== verification/DealIngestFacts.v ===== *)
(** * What is in open sectors

    The tables of pieces keep their shape under the ingesters: the pieces of a sector
    have the indices from zero on, fit the sector, and are in descending order of
    their sizes once the sector is in a pipeline. *)

From stdpp Require Import base gmap sets list strings sorting.
From Stdlib Require Import ZArith Lia Sorted.
From S2P Require Import Prelude FileType GoStd DealData DealDataFacts DealIngest.

(** ** Tables as lists *)

(** The rows of a sector are those of a list, at the indices of the list. *)
Definition indexed (m s : Z) (t : piece_table) (l : list piece_row) : Prop :=
  forall (i : Z) (r : piece_row), t !! (m, s, i) = Some r <-> 0 <= i /\ l !! Z.to_nat i = Some r.

Definition with_keys (m s : Z) (l : list piece_row) : list (piece_key * piece_row) := imap (fun i r => ((m, s, Z.of_nat i), r)) l.

Lemma elem_of_sector_rows (m s : Z) (t : piece_table) (k : piece_key) (r : piece_row) : (k, r) ∈ sector_rows m s t <-> t !! k = Some r /\ k.1 = (m, s).
Proof. unfold sector_rows. rewrite list_elem_of_In, filter_In, bool_decide_eq_true, <- list_elem_of_In, elem_of_map_to_list. done. Qed.

Lemma NoDup_filter_list {A} (f : A -> bool) l : NoDup l -> NoDup (List.filter f l).
Proof. rewrite !NoDup_ListNoDup. apply List.NoDup_filter. Qed.

Lemma list_filter_perm {A} (f : A -> bool) l k : l ≡ₚ k -> List.filter f l ≡ₚ List.filter f k.
Proof. induction 1; cbn; repeat case_match; by econstructor. Qed.

Lemma elem_of_with_keys (m s : Z) (l : list piece_row) (k : piece_key) (r : piece_row) : (k, r) ∈ with_keys m s l <-> exists i, k = (m, s, Z.of_nat i) /\ l !! i = Some r.
Proof.
  unfold with_keys. rewrite list_elem_of_lookup. split.
  - intros [i Hi]. rewrite list_lookup_imap in Hi. destruct (l !! i) eqn:E; cbn in Hi; [|done]. injection Hi as <- <-. by exists i.
  - intros (i & -> & Hi). exists i. rewrite list_lookup_imap, Hi. done.
Qed.

Lemma with_keys_NoDup (m s : Z) (l : list piece_row) : NoDup (with_keys m s l).
Proof.
  apply NoDup_alt. unfold with_keys. intros i j x Hi Hj. rewrite list_lookup_imap in Hi, Hj.
  destruct (l !! i); cbn in Hi; [|done]. destruct (l !! j); cbn in Hj; [|done]. simplify_eq. lia.
Qed.

Lemma rows_perm (m s : Z) (t : piece_table) (l : list piece_row) : indexed m s t l -> sector_rows m s t ≡ₚ with_keys m s l.
Proof.
  intros Hi. apply NoDup_Permutation; [apply NoDup_filter_list, NoDup_map_to_list|apply with_keys_NoDup|].
  intros [[[m' s'] i] r]. rewrite elem_of_sector_rows, elem_of_with_keys. cbn [fst]. split.
  - intros [Hl E]. injection E as -> ->. apply Hi in Hl as [H0 Hl]. exists (Z.to_nat i). split; [f_equal; lia|done].
  - intros (j & E & Hj). injection E as -> -> ->. split; [|done]. apply Hi. rewrite Nat2Z.id. split; [lia|done].
Qed.

Lemma with_keys_snd (m s : Z) (l : list piece_row) : (with_keys m s l).*2 = l.
Proof. apply list_eq. intros i. unfold with_keys. rewrite list_lookup_fmap, list_lookup_imap. by destruct (l !! i). Qed.

Lemma indexed_insert (m s : Z) (t : piece_table) (l : list piece_row) (r : piece_row) : indexed m s t l -> indexed m s (<[(m, s, Z.of_nat (length l)) := r]> t) (l ++ [r]).
Proof.
  intros Hi i r'. destruct (decide (i = Z.of_nat (length l))) as [->|Hne].
  - rewrite lookup_insert_eq, Nat2Z.id, list_lookup_middle by done. split; [intros ->; split; [lia|done]|by intros [_ ->]].
  - rewrite lookup_insert_ne by congruence. specialize (Hi i r'). split; [intros Hl; apply Hi in Hl as [H0 Hl]|intros [H0 Hl]; apply Hi].
    + split; [done|]. by apply lookup_app_l_Some.
    + split; [done|]. rewrite lookup_app_l in Hl; [done|]. apply lookup_lt_Some in Hl. rewrite length_app in Hl. cbn in Hl. lia.
Qed.

Lemma indexed_insert_ne (m s : Z) (k : piece_key) (t : piece_table) (l : list piece_row) (r : piece_row) : k.1 <> (m, s) -> indexed m s t l -> indexed m s (<[k := r]> t) l.
Proof. intros Hk Hi i r'. rewrite lookup_insert_ne; [apply Hi|]. intros ->. done. Qed.

(** A table in which the first index of the sector is free has no row of it. *)
Lemma indexed_free (m s : Z) (t : piece_table) (l : list piece_row) : indexed m s t l -> t !! (m, s, 0) = None -> l = [].
Proof.
  intros Hi Hn. destruct l as [|r l]; [done|]. assert (t !! (m, s, 0) = Some r) by (apply Hi; done). congruence.
Qed.

Lemma indexed_drop (m s : Z) (t : piece_table) : indexed m s (drop_sector m s t) [].
Proof.
  intros i r. unfold drop_sector. rewrite map_lookup_filter_Some. split; [|intros [_ E]; by rewrite lookup_nil in E]. intros [_ Hk]. by destruct Hk.
Qed.

Lemma indexed_drop_ne (m s m' s' : Z) (t : piece_table) (l : list piece_row) : (m', s') <> (m, s) -> indexed m s t l -> indexed m s (drop_sector m' s' t) l.
Proof.
  intros Hne Hi i r. unfold drop_sector. rewrite map_lookup_filter_Some. specialize (Hi i r). cbn. split; [intros [Hl _]; by apply Hi|]. intros Hl. split; [by apply Hi|congruence].
Qed.

Lemma insert_rows_spec (m s : Z) (rows : list piece_row) (t t' : piece_table) (n : Z) (l : list piece_row) : indexed m s t l -> n = Z.of_nat (length l) -> insert_rows m s n rows t = Ok t' ->
  indexed m s t' (l ++ rows) /\ forall m' s' l', (m', s') <> (m, s) -> indexed m' s' t l' -> indexed m' s' t' l'.
Proof.
  revert t n l. induction rows as [|r rows IH]; intros t n l Hi -> E; cbn [insert_rows] in E.
  - injection E as <-. rewrite app_nil_r. done.
  - unfold insert_piece in E. destruct (t !! _) eqn:Hl; [done|]. apply (IH _ _ (l ++ [r])) in E as [E1 E2].
    + rewrite <- app_assoc in E1. split; [done|]. intros m' s' l' Hne Hl'. apply E2; [done|]. by apply indexed_insert_ne.
    + by apply indexed_insert.
    + rewrite length_app. cbn. lia.
Qed.

(** Inserting from the first index requires that there is no row yet. *)
Lemma insert_rows_fresh (m s : Z) (rows : list piece_row) (t t' : piece_table) (l : list piece_row) : rows <> [] -> indexed m s t l -> insert_rows m s 0 rows t = Ok t' ->
  l = [] /\ indexed m s t' rows /\ forall m' s' l', (m', s') <> (m, s) -> indexed m' s' t l' -> indexed m' s' t' l'.
Proof.
  intros Hne Hi E. assert (l = []) as ->.
  { destruct rows as [|r rows]; [done|]. cbn [insert_rows] in E. unfold insert_piece in E. destruct (t !! _) eqn:Hl; [done|]. by apply (indexed_free m s t). }
  split; [done|]. by apply (insert_rows_spec m s rows t t' 0 []).
Qed.

(** ** Open sectors *)

Definition of_sector (s : Z) (rows : list (piece_key * piece_row)) : list (piece_key * piece_row) := List.filter (fun kr => kr.1.1.2 =? s) rows.

(** What [getOpenSectors] knows of a sector. *)
Record summary (mid s : Z) (rows : list (piece_key * piece_row)) (sec : openSector) : Prop := {
  sum_miner : os_miner sec = mid;
  sum_number : os_number sec = s;
  sum_rows : rows <> [];
  sum_size : os_currentSize sec = u64 (Zsum (fun kr => op_piece_size kr.2) rows);
  sum_pieces : os_pieces sec = (fun kr : piece_key * piece_row => (op_piece_cid kr.2, u64 (op_piece_size kr.2))) <$> rows;
  sum_index_le : forall kr, kr ∈ rows -> kr.1.2 <= os_index sec;
  sum_index : exists kr, kr ∈ rows /\ kr.1.2 = os_index sec
}.

Lemma u64_add a b : u64 (u64 a + u64 b) = u64 (a + b).
Proof. unfold u64, wrap_u. by rewrite <- Zplus_mod. Qed.

Lemma add_open_row_summary mid s rows sec (k : piece_key) (r : piece_row) : summary mid s rows sec -> k.1 = (mid, s) ->
  summary mid s (rows ++ [(k, r)])
    (mkOpenSector (os_miner sec) (os_number sec) (u64 (os_currentSize sec + u64 (op_piece_size r)))
       (getStartEpoch (deal_start_epoch r) (os_earliestStartEpoch sec)) (if os_index sec <? k.2 then k.2 else os_index sec)
       (getOpenedAt (op_created_at r) (os_openedAt sec)) (getEndEpoch (deal_end_epoch r) (getStartEpoch (deal_start_epoch r) (os_earliestStartEpoch sec)))
       (os_pieces sec ++ [(op_piece_cid r, u64 (op_piece_size r))])).
Proof.
  intros [Hm Hn Hr Hs Hp Hle (kr & Hkr & Hi)] Hk. split; cbn; [done|done|by destruct rows| | | |].
  - rewrite Hs, u64_add, Zsum_app, Zsum_cons, Zsum_nil, Z.add_0_r. done.
  - rewrite Hp, fmap_app. done.
  - intros kr' [H'|H']%elem_of_app; [specialize (Hle kr' H')|apply list_elem_of_singleton in H' as ->; cbn]; destruct (Z.ltb_spec (os_index sec) k.2); lia.
  - destruct (Z.ltb_spec (os_index sec) k.2); [exists (k, r)|exists kr]; (split; [apply elem_of_app|done]); [right; by apply list_elem_of_singleton|by left].
Qed.

Lemma fold_summary mid (rows : list (piece_key * piece_row)) : Forall (fun kr : piece_key * piece_row => kr.1.1.1 = mid) rows -> forall s,
  match foldl add_open_row ∅ rows !! s with
  | None => of_sector s rows = []
  | Some sec => summary mid s (of_sector s rows) sec
  end.
Proof.
  induction rows as [|[[[m s0] i] r] rows IH] using rev_ind; intros Hf s; [cbn [foldl]; by rewrite lookup_empty|].
  apply Forall_app in Hf as [Hf Hm]. apply Forall_inv in Hm. cbn in Hm. subst m. specialize (IH Hf). rewrite foldl_app. cbn [foldl].
  unfold of_sector in *. rewrite List.filter_app. cbn [List.filter fst snd]. unfold add_open_row at 1.
  destruct (Z.eqb_spec s0 s) as [->|Hne].
  - specialize (IH s). destruct (foldl add_open_row ∅ rows !! s) as [sec|] eqn:E; rewrite lookup_insert_eq.
    + exact (add_open_row_summary mid s _ sec (mid, s, i) r IH eq_refl).
    + rewrite IH. cbn [app]. split; cbn; try done.
      * rewrite Zsum_cons, Zsum_nil, Z.add_0_r. done.
      * intros kr ->%list_elem_of_singleton. cbn. lia.
      * eexists. split; [by apply list_elem_of_singleton|done].
  - rewrite app_nil_r. specialize (IH s). by destruct (foldl add_open_row ∅ rows !! s0); rewrite lookup_insert_ne by done.
Qed.

Lemma open_sectors_summary `{Enum} (snap : bool) (mid : Z) (t : piece_table) (sec : openSector) : sec ∈ open_sectors snap mid t ->
  exists rows, summary mid (os_number sec) rows sec /\
    rows ≡ₚ List.filter (fun kr => Bool.eqb (op_is_snap kr.2) snap) (sector_rows mid (os_number sec) t).
Proof.
  unfold open_sectors. intros ([s sec'] & -> & Hin)%list_elem_of_fmap. cbn [snd]. rewrite elem_of_enum in Hin. apply elem_of_map_to_list in Hin.
  assert (open_rows snap mid t ≡ₚ List.filter (fun kr => bool_decide (kr.1.1.1 = mid) && Bool.eqb (op_is_snap kr.2) snap) (map_to_list t)) as Hp.
  { unfold open_rows. rewrite merge_sort_Permutation. apply enum_perm. }
  pose proof (fold_summary mid (open_rows snap mid t)) as Hf. rewrite Hp in Hf at 1. specialize (fun h => Hf h s).
  rewrite Hin in Hf. destruct Hf as [? <- ? ? ? ? ?].
  { apply Forall_forall. intros kr Hkr%list_elem_of_In%filter_In. destruct Hkr as [_ Hkr]. bool_props. done. }
  exists (of_sector (os_number sec') (open_rows snap mid t)). split; [by split|].
  unfold of_sector, sector_rows. etrans; [apply list_filter_perm, Hp|]. rewrite !filter_twice. apply reflexive_eq, filter_ext.
  intros [[[m s] i] r]. cbn [fst snd]. rewrite Bool.andb_comm, !Bool.andb_assoc. f_equal. apply eq_true_iff_eq.
  rewrite andb_true_iff, Z.eqb_eq, !bool_decide_eq_true. split; [intros [-> ->]; done|intros E; injection E as -> ->; done].
Qed.

(** ** The invariant *)

Section Invariant.
Context `{Enum} {Padded PaddedSize : Z -> Z}.
(** The sector size of a miner. *)
Variable ssize : Z -> Z.
Hypothesis ssize_bound : forall m, ssize m <= 2 ^ 62.

Definition row_ok (r : piece_row) : Prop :=
  piece_size (op_piece_size r) /\ 0 <= op_data_raw_size r <= 2 ^ 61 /\ op_piece_size r = Padded (PaddedSize (u64 (op_data_raw_size r))).

Definition piece_id (r : piece_row) : string * Z := (op_piece_cid r, op_piece_size r).

(** One piece that is larger than the sector: a new sector is opened for it without a
    look at its size. *)
Definition oversized (m : Z) (l : list piece_row) : Prop := exists r, l = [r] /\ ssize m < op_piece_size r.

(** The pieces fit the sector, or it is one that does not, and none is there twice. *)
Definition pieces_ok (m : Z) (l : list piece_row) : Prop :=
  Forall row_ok l /\ (Zsum op_piece_size l <= ssize m \/ oversized m l) /\ NoDup (piece_id <$> l).

Definition open_ok (m : Z) (l : list piece_row) : Prop :=
  (l <> [] -> pieces_ok m l) /\ exists snap, Forall (fun r => op_is_snap r = snap /\ (snap = true -> op_f05 r = None)) l.

Definition initial_ok (m : Z) (l : list piece_row) : Prop := (l <> [] -> pieces_ok m l) /\ StronglySorted Z.ge (op_piece_size <$> l).

Definition table_inv (ok : Z -> list piece_row -> Prop) (t : piece_table) : Prop := forall m s, exists l, indexed m s t l /\ ok m l.

Record ingest_inv (db : ingest_db) : Prop := {
  inv_open : table_inv open_ok (open_sector_pieces db);
  inv_sdr : table_inv initial_ok (sdr_initial_pieces db);
  inv_snap : table_inv initial_ok (snap_initial_pieces db)
}.

#[local] Instance oversized_proper m : Proper ((≡ₚ) ==> iff) (oversized m).
Proof.
  intros l k E. split; intros (r & -> & Hr); exists r; (split; [|done]); [by apply Permutation_singleton_l in E as ->|by apply Permutation_singleton_r in E as ->].
Qed.

#[local] Instance pieces_ok_proper m : Proper ((≡ₚ) ==> iff) (pieces_ok m).
Proof.
  intros l k E. unfold pieces_ok. rewrite (Zsum_perm op_piece_size l k E). assert (oversized m l <-> oversized m k) as -> by (by rewrite E). by rewrite E.
Qed.

Lemma pieces_ok_bounds m l : pieces_ok m l -> 0 <= Zsum op_piece_size l <= 2 ^ 62 /\ 128 * Z.of_nat (length l) <= 2 ^ 62.
Proof.
  intros (Hr & [Hs|(r & -> & _)] & _); [|inversion Hr as [|? ? [Hp _] _]; subst; apply piece_size_pos in Hp; rewrite Zsum_cons, Zsum_nil; cbn; lia].
  specialize (ssize_bound m). assert (128 * Z.of_nat (length l) <= Zsum op_piece_size l) as Hl; [|lia].
  clear Hs. induction Hr as [|r l [Hr _] _ IH]; [done|]. rewrite Zsum_cons. apply piece_size_pos in Hr. cbn [length]. lia.
Qed.

(** A row at the end of the list of a sector. *)
Lemma table_insert (ok : Z -> list piece_row -> Prop) (t : piece_table) (m s : Z) (l : list piece_row) (r : piece_row) : table_inv ok t -> indexed m s t l -> ok m (l ++ [r]) ->
  table_inv ok (<[(m, s, Z.of_nat (length l)) := r]> t).
Proof.
  intros Ht Hl Hok m' s'. destruct (decide ((m', s') = (m, s))) as [E|Hne].
  - injection E as -> ->. exists (l ++ [r]). split; [by apply indexed_insert|done].
  - destruct (Ht m' s') as (l' & Hl' & Hok'). exists l'. split; [by apply indexed_insert_ne|done].
Qed.

Lemma table_drop (ok : Z -> list piece_row -> Prop) (t : piece_table) (m s : Z) : ok m [] -> table_inv ok t -> table_inv ok (drop_sector m s t).
Proof.
  intros Hok Ht m' s'. destruct (decide ((m, s) = (m', s'))) as [E|Hne].
  - injection E as -> ->. exists []. split; [apply indexed_drop|done].
  - destruct (Ht m' s') as (l' & Hl' & Hok'). exists l'. split; [by apply indexed_drop_ne|done].
Qed.

Lemma open_ok_nil m : open_ok m [].
Proof. split; [done|]. exists false. by constructor. Qed.

(** The rows of an entry are all the rows of its sector. *)
Lemma summary_rows (snap snap' : bool) (m s : Z) (l : list piece_row) rows (kr : piece_key * piece_row) :
  Forall (fun r => op_is_snap r = snap' /\ (snap' = true -> op_f05 r = None)) l -> kr ∈ rows ->
  rows ≡ₚ List.filter (fun kr => Bool.eqb (op_is_snap kr.2) snap) (with_keys m s l) -> snap' = snap /\ rows ≡ₚ with_keys m s l.
Proof.
  intros Hf Hkr Hp. rewrite Forall_forall in Hf.
  assert (forall kr, kr ∈ with_keys m s l -> op_is_snap kr.2 = snap') as Hall.
  { intros [k r] Hin. apply elem_of_with_keys in Hin as (i & _ & Hi). apply Hf. by apply list_elem_of_lookup_2 with i. }
  assert (snap' = snap) as ->.
  { rewrite Hp in Hkr. apply list_elem_of_In, filter_In in Hkr as [Hin Hs]. apply list_elem_of_In, Hall in Hin. apply eqb_prop in Hs. congruence. }
  split; [done|]. rewrite Hp. apply reflexive_eq, forallb_filter_id, forallb_forall. intros x Hx%list_elem_of_In%Hall. rewrite Hx. apply eqb_reflx.
Qed.

(** The sector of an open sector entry: its list, and what the entry says of it. *)
Lemma open_sector_list (snap : bool) (mid : Z) (t : piece_table) (sec : openSector) : table_inv open_ok t -> sec ∈ open_sectors snap mid t ->
  exists l, indexed mid (os_number sec) t l /\ pieces_ok mid l /\ Forall (fun r => op_is_snap r = snap /\ (snap = true -> op_f05 r = None)) l /\
    os_currentSize sec = Zsum op_piece_size l /\ i64 (os_index sec + 1) = Z.of_nat (length l) /\ os_pieces sec ≡ₚ piece_id <$> l.
Proof.
  intros Ht (rows & [_ _ Hne Hsz Hpc Hle (kr & Hkr & Hi)] & Hp)%open_sectors_summary.
  destruct (Ht mid (os_number sec)) as (l & Hl & Hok & snap' & Hf). pose proof (rows_perm _ _ _ _ Hl) as Hr.
  destruct (summary_rows snap snap' mid (os_number sec) l rows kr) as [-> Hrows]; [done|done|by rewrite Hp; apply list_filter_perm|].
  assert (l <> []) as Hln by (intros ->; apply Hne; by apply Permutation_nil_r).
  specialize (Hok Hln). destruct (pieces_ok_bounds _ _ Hok) as [Hb1 Hb2]. exists l. split; [done|]. split; [done|]. split; [done|]. split; [|split].
  - rewrite Hsz, (Zsum_perm _ _ _ Hrows), <- (Zsum_fmap op_piece_size snd), with_keys_snd. apply wrap_u_small. lia.
  - assert (os_index sec = Z.of_nat (length l) - 1) as ->; [|rewrite Z.sub_add; apply wrap_s_small; lia].
    rewrite Hrows in Hkr. destruct kr as [k r]. apply elem_of_with_keys in Hkr as (i & -> & Hkr). apply lookup_lt_Some in Hkr. cbn in Hi.
    destruct (lookup_lt_is_Some_2 l (length l - 1)) as [r' Hr']; [lia|].
    specialize (Hle ((mid, os_number sec, Z.of_nat (length l - 1)), r')). cbn in Hle. enough (Z.of_nat (length l - 1) <= os_index sec) by lia.
    apply Hle. rewrite Hrows. apply elem_of_with_keys. by exists (length l - 1)%nat.
  - rewrite Hpc, Hrows. rewrite <- (with_keys_snd mid (os_number sec) l) at 2. rewrite <- list_fmap_compose. apply reflexive_eq, list_fmap_ext.
    intros i [k r] Hkr'%list_elem_of_lookup_2. apply elem_of_with_keys in Hkr' as (j & _ & Hj%list_elem_of_lookup_2). cbn. unfold piece_id. f_equal.
    destruct Hok as [Hok _]. rewrite Forall_forall in Hok. destruct (Hok r Hj) as [Hs%piece_size_pos _]. apply wrap_u_small. lia.
Qed.

(** ** Into the pipelines *)

#[local] Instance size_desc_trans : Transitive size_desc.
Proof. intros a b c. unfold size_desc. lia. Qed.

#[local] Instance size_desc_total : Total size_desc.
Proof. intros a b. unfold size_desc. lia. Qed.

(** The rows of a transfer are those of the sector, the largest first. *)
Lemma sorted_rows (m s : Z) (t : piece_table) (l : list piece_row) : indexed m s t l ->
  let rows := merge_sort size_desc (enum (sector_rows m s t)) in rows.*2 ≡ₚ l /\ StronglySorted Z.ge (op_piece_size <$> rows.*2).
Proof.
  intros Hl rows. split.
  - unfold rows. rewrite merge_sort_Permutation, enum_perm, (rows_perm _ _ _ _ Hl), with_keys_snd. done.
  - assert (StronglySorted size_desc rows) as Hs by apply (StronglySorted_merge_sort size_desc _). induction Hs as [|kr rows' _ IH Hf]; [constructor|].
    rewrite !fmap_cons. constructor; [done|]. rewrite !Forall_fmap. apply (Forall_impl _ _ _ Hf). intros x Hx. unfold size_desc in Hx. cbn. lia.
Qed.

Lemma table_transfer (t t' : piece_table) (m s : Z) (rows : list piece_row) : table_inv initial_ok t -> rows <> [] -> initial_ok m rows ->
  insert_rows m s 0 rows t = Ok t' -> table_inv initial_ok t'.
Proof.
  intros Ht Hne Hok E m' s'. destruct (Ht m s) as (l & Hl & _). destruct (insert_rows_fresh _ _ _ _ _ _ Hne Hl E) as (_ & Hr & Hfr).
  destruct (decide ((m', s') = (m, s))) as [Em|Hn]; [injection Em as -> ->; by exists rows|].
  destruct (Ht m' s') as (l' & Hl' & Hok'). exists l'. split; [by apply Hfr|done].
Qed.

Lemma drop_f05_ok (m : Z) (l : list piece_row) : initial_ok m l -> initial_ok m (drop_f05 <$> l).
Proof.
  intros [Hp Hs]. split.
  - intros Hne. destruct Hp as (Hr & Hz & Hd); [by intros ->|]. split; [|split].
    + rewrite Forall_fmap. apply (Forall_impl _ _ _ Hr). done.
    + rewrite Zsum_fmap. destruct Hz as [|(r & -> & Hr')]; [by left|right]. by exists (drop_f05 r).
    + rewrite <- list_fmap_compose. exact Hd.
  - rewrite <- list_fmap_compose. exact Hs.
Qed.

Lemma sorted_initial (m s : Z) (t : piece_table) (l : list piece_row) : indexed m s t l -> open_ok m l ->
  initial_ok m (merge_sort size_desc (enum (sector_rows m s t))).*2.
Proof.
  intros Hl [Hok _]. destruct (sorted_rows m s t l Hl) as [Hp Hs]. split; [|done]. intros Hne. rewrite Hp. apply Hok. intros ->.
  apply Hne. by apply Permutation_nil_r.
Qed.

Lemma start_sdr_inv (m s proof : Z) (db db' : ingest_db) : ingest_inv db -> start_sdr m s proof db = Ok db' -> ingest_inv db'.
Proof.
  intros [Ho Hsd Hsn]. unfold start_sdr, transfer_sdr. destruct (sdr_pipeline db !! (m, s)); [done|]. cbn [open_sector_pieces sdr_initial_pieces].
  destruct (Ho m s) as (l & Hl & Hok). pose proof (sorted_initial m s _ l Hl Hok) as Hi.
  destruct (merge_sort size_desc _) as [|kr rows]; [done|]. destruct (insert_rows m s 0 _ _) as [t|] eqn:E; [|done]. intros [= <-].
  split; cbn; [apply table_drop; [apply open_ok_nil|done]| |done]. by apply (table_transfer _ _ _ _ _ Hsd) in E.
Qed.

Lemma start_snap_inv (m s proof : Z) (db db' : ingest_db) : ingest_inv db -> start_snap m s proof db = Ok db' -> ingest_inv db'.
Proof.
  intros [Ho Hsd Hsn]. unfold start_snap, transfer_snap. destruct (snap_pipeline db !! (m, s)); [done|]. cbn [open_sector_pieces snap_initial_pieces].
  destruct (existsb _ _); [done|]. destruct (Ho m s) as (l & Hl & Hok). pose proof (sorted_initial m s _ l Hl Hok) as Hi.
  destruct (merge_sort size_desc _) as [|kr rows]; [done|]. destruct (insert_rows m s 0 _ _) as [t|] eqn:E; [|done]. intros [= <-].
  split; cbn; [apply table_drop; [apply open_ok_nil|done]|done|]. apply (table_transfer _ _ _ _ _ Hsn) in E; [done|done|by apply drop_f05_ok].
Qed.

Lemma seal_miners_inv start proof_of get p height now mids (db db' : ingest_db) :
  (forall m s pr db db', ingest_inv db -> start m s pr db = Ok db' -> ingest_inv db') ->
  ingest_inv db -> seal_miners start proof_of get p height now mids db = Ok db' -> ingest_inv db'.
Proof.
  intros Hst. assert (forall mid secs db db', ingest_inv db -> seal_sectors start proof_of p height now mid secs db = Ok db' -> ingest_inv db') as Hsec.
  { clear - Hst. intros mid. induction secs as [|sec secs IH]; intros db db' Hi; cbn [seal_sectors]; [by intros [= <-]|].
    destruct (shouldSeal _ _ _ _) as [[]|]; [|by apply IH|done]. destruct (minerDetails p !! mid); [|done].
    destruct (start _ _ _ _) as [db1|] eqn:E; [|done]. apply IH. by apply (Hst _ _ _ _ _ Hi E). }
  revert db. induction mids as [|mid mids IH]; intros db Hi; cbn [seal_miners]; [by intros [= <-]|].
  destruct (get mid db) as [secs|]; [|done]. destruct (seal_sectors _ _ _ _ _ _ _ _) as [db1|] eqn:E; [|done]. apply IH. by apply (Hsec _ _ _ _ Hi E).
Qed.

Lemma run_tx_inv x (db : ingest_db) r : ingest_inv db -> (forall db', r = Ok db' -> ingest_inv db') -> ingest_inv (run_tx x db r).1.
Proof. intros Hi Hr. destruct r as [db'|]; [|done]. specialize (Hr db' eq_refl). by destruct x. Qed.

Lemma Seal_inv p head now q x (db : ingest_db) : ingest_inv db -> ingest_inv (Seal p head now q x db).1.
Proof.
  intros Hi. unfold Seal. destruct head as [h|]; [|done]. apply run_tx_inv; [done|]. intros db' E. apply seal_miners_inv in E; [done| |done].
  intros. by apply (start_sdr_inv m s pr db0).
Qed.

Lemma snap_Seal_inv p head now q x (db : ingest_db) : ingest_inv db -> ingest_inv (snap_Seal p head now q x db).1.
Proof.
  intros Hi. unfold snap_Seal. destruct head as [h|]; [|done]. apply run_tx_inv; [done|]. intros db' E. apply seal_miners_inv in E; [done| |done].
  intros. by apply (start_snap_inv m s pr db0).
Qed.

Lemma SealNow_inv proofs sector q x (db : ingest_db) : ingest_inv db -> ingest_inv (SealNow proofs sector q x db).1.
Proof.
  intros Hi. unfold SealNow. destruct proofs as [[[mid spt] upt]|]; [|done]. destruct q; [done|]. destruct (merge_sort index_desc _) as [|kr rows]; [done|].
  apply run_tx_inv; [done|]. intros db'. destruct (op_is_snap kr.2); [destruct upt; [|done]; by apply start_snap_inv|by apply start_sdr_inv].
Qed.

(** ** No piece is lost *)

(** A sector is left alone, or its pieces move to a pipeline where it has none. *)
Definition stays_or_goes (lo lo' li li' : list piece_row) : Prop := lo' = lo /\ li' = li \/ lo <> [] /\ lo' = [] /\ li = [] /\ li' ≡ₚ lo.

Definition moved (db db' : ingest_db) : Prop := forall m s lo ld ln,
  indexed m s (open_sector_pieces db) lo -> indexed m s (sdr_initial_pieces db) ld -> indexed m s (snap_initial_pieces db) ln ->
  exists lo' ld' ln', indexed m s (open_sector_pieces db') lo' /\ indexed m s (sdr_initial_pieces db') ld' /\ indexed m s (snap_initial_pieces db') ln' /\
    (stays_or_goes lo lo' ld ld' /\ ln' = ln \/ stays_or_goes lo lo' ln ln' /\ ld' = ld).

Lemma moved_refl db : moved db db.
Proof. intros m s lo ld ln Ho Hd Hn. exists lo, ld, ln. unfold stays_or_goes. tauto. Qed.

Lemma moved_trans a b c : moved a b -> moved b c -> moved a c.
Proof.
  intros H1 H2 m s lo ld ln Ho Hd Hn. destruct (H1 m s lo ld ln Ho Hd Hn) as (lo1 & ld1 & ln1 & Ho1 & Hd1 & Hn1 & C1).
  destruct (H2 m s lo1 ld1 ln1 Ho1 Hd1 Hn1) as (lo2 & ld2 & ln2 & Ho2 & Hd2 & Hn2 & C2). exists lo2, ld2, ln2.
  split; [done|]. split; [done|]. split; [done|]. unfold stays_or_goes in *. naive_solver.
Qed.

Lemma transfer_moved (topen ti ti' : piece_table) (m s : Z) (rows l : list piece_row) : rows <> [] -> indexed m s ti l -> insert_rows m s 0 rows ti = Ok ti' ->
  (forall lo, indexed m s topen lo -> rows ≡ₚ lo) -> forall m' s' lo li, indexed m' s' topen lo -> indexed m' s' ti li ->
  exists lo' li', indexed m' s' (drop_sector m s topen) lo' /\ indexed m' s' ti' li' /\ stays_or_goes lo lo' li li'.
Proof.
  intros Hne Hl E Hp m' s' lo li Ho Hi. destruct (insert_rows_fresh m s rows ti ti' l Hne Hl E) as (_ & Ht & Hfr).
  destruct (decide ((m, s) = (m', s'))) as [Em|Hn].
  - injection Em as -> ->. destruct (insert_rows_fresh m' s' rows ti ti' li Hne Hi E) as (-> & _ & _). specialize (Hp lo Ho).
    exists [], rows. split; [apply indexed_drop|]. split; [done|]. right. split; [|done]. intros ->. by apply Permutation_nil_r in Hp.
  - exists lo, li. split; [by apply indexed_drop_ne|]. split; [apply Hfr; [congruence|done]|by left].
Qed.

Lemma start_sdr_moved (m s proof : Z) (db db' : ingest_db) : ingest_inv db -> start_sdr m s proof db = Ok db' -> moved db db'.
Proof.
  intros [_ Hsd _]. destruct (Hsd m s) as (l & Hl & _). unfold start_sdr, transfer_sdr. destruct (sdr_pipeline db !! (m, s)); [done|].
  cbn [open_sector_pieces sdr_initial_pieces]. pose proof (fun lo h => proj1 (sorted_rows m s (open_sector_pieces db) lo h)) as Hp. cbv zeta in Hp.
  destruct (merge_sort size_desc _) as [|kr rows]; [done|]. destruct (insert_rows m s 0 _ _) as [t|] eqn:E; [|done]. intros [= <-] m' s' lo ld ln Ho Hd Hn.
  assert ((kr :: rows).*2 <> []) as Hne by done. destruct (transfer_moved _ _ _ m s (kr :: rows).*2 l Hne Hl E Hp m' s' lo ld Ho Hd) as (lo' & ld' & H1 & H2 & H3). exists lo', ld', ln. tauto.
Qed.

Lemma start_snap_moved (m s proof : Z) (db db' : ingest_db) : ingest_inv db -> start_snap m s proof db = Ok db' -> moved db db'.
Proof.
  intros [_ _ Hsn]. destruct (Hsn m s) as (l & Hl & _). unfold start_snap, transfer_snap. destruct (snap_pipeline db !! (m, s)); [done|].
  cbn [open_sector_pieces snap_initial_pieces]. destruct (existsb _ _) eqn:Ef; [done|].
  pose proof (fun lo h => proj1 (sorted_rows m s (open_sector_pieces db) lo h)) as Hp. cbv zeta in Hp.
  destruct (merge_sort size_desc _) as [|kr rows]; [done|]. destruct (insert_rows m s 0 _ _) as [t|] eqn:E; [|done]. intros [= <-] m' s' lo ld ln Ho Hd Hn.
  assert (forall lo, indexed m s (open_sector_pieces db) lo -> (drop_f05 <$> (kr :: rows).*2) ≡ₚ lo) as Hp'.
  { intros lo' Hlo'. rewrite (Hp lo' Hlo'). apply reflexive_eq. rewrite <- (list_fmap_id lo') at 2. apply list_fmap_ext. intros i r Hr.
    assert (op_f05 r = None) as Hf; [|destruct r; cbn in Hf; by subst]. destruct (op_f05 r) eqn:Hf; [|done]. exfalso.
    assert (existsb (fun kr => match op_f05 kr.2 with Some _ => true | None => false end) (sector_rows m s (open_sector_pieces db)) = true); [|congruence].
    apply existsb_exists. exists ((m, s, Z.of_nat i), r). split; [|cbn; by rewrite Hf]. apply list_elem_of_In, elem_of_sector_rows. split; [|done].
    apply Hlo'. rewrite Nat2Z.id. split; [lia|done]. }
  assert (drop_f05 <$> (kr :: rows).*2 <> []) as Hne by done. destruct (transfer_moved _ _ _ m s (drop_f05 <$> (kr :: rows).*2) l Hne Hl E Hp' m' s' lo ln Ho Hn) as (lo' & ln' & H1 & H2 & H3). exists lo', ld, ln'. tauto.
Qed.

Lemma seal_miners_moved start proof_of get p height now mids (db db' : ingest_db) :
  (forall m s pr db db', ingest_inv db -> start m s pr db = Ok db' -> ingest_inv db' /\ moved db db') ->
  ingest_inv db -> seal_miners start proof_of get p height now mids db = Ok db' -> moved db db'.
Proof.
  intros Hst. assert (forall mid secs db db', ingest_inv db -> seal_sectors start proof_of p height now mid secs db = Ok db' -> ingest_inv db' /\ moved db db') as Hsec.
  { clear - Hst. intros mid. induction secs as [|sec secs IH]; intros db db' Hi; cbn [seal_sectors]; [intros [= <-]; split; [done|apply moved_refl]|].
    destruct (shouldSeal _ _ _ _) as [[]|]; [|by apply IH|done]. destruct (minerDetails p !! mid); [|done].
    destruct (start _ _ _ _) as [db1|] eqn:E; [|done]. apply (Hst _ _ _ _ _ Hi) in E as [Hi1 Hm1]. intros [Hi2 Hm2]%IH; [|done].
    split; [done|]. by apply (moved_trans _ db1). }
  revert db. induction mids as [|mid mids IH]; intros db Hi; cbn [seal_miners]; [intros [= <-]; apply moved_refl|].
  destruct (get mid db) as [secs|]; [|done]. destruct (seal_sectors _ _ _ _ _ _ _ _) as [db1|] eqn:E; [|done]. apply Hsec in E as [Hi1 Hm1]; [|done].
  intros Hm2%IH; [|done]. by apply (moved_trans _ db1).
Qed.

Lemma run_tx_moved x (db : ingest_db) r : (forall db', r = Ok db' -> moved db db') -> moved db (run_tx x db r).1.
Proof. intros Hr. destruct r as [db'|]; [|apply moved_refl]. specialize (Hr db' eq_refl). destruct x; [done|apply moved_refl|done]. Qed.

(** C26: starting to seal loses no piece, whichever of the three ways it happens and
    whatever fails: for every sector, either its open pieces and its pieces in the
    pipelines stay as they are, or all its open pieces, which the pipeline had none
    of, are now in one pipeline, each once. *)
Theorem no_piece_lost p head now proofs sector (q : option sql_error) (x : exec) (db db' : ingest_db) : ingest_inv db ->
  db' ∈ [(Seal p head now q x db).1; (snap_Seal p head now q x db).1; (SealNow proofs sector q x db).1] -> moved db db'.
Proof.
  intros Hi. rewrite !elem_of_cons, elem_of_nil. intros [->|[->|[->|[]]]].
  - unfold Seal. destruct head as [h|]; [|apply moved_refl]. apply run_tx_moved. intros db1 E. apply seal_miners_moved in E; [done| |done].
    intros m s pr d1 d2 H1 H2. split; [by apply (start_sdr_inv m s pr d1)|by apply (start_sdr_moved m s pr d1)].
  - unfold snap_Seal. destruct head as [h|]; [|apply moved_refl]. apply run_tx_moved. intros db1 E. apply seal_miners_moved in E; [done| |done].
    intros m s pr d1 d2 H1 H2. split; [by apply (start_snap_inv m s pr d1)|by apply (start_snap_moved m s pr d1)].
  - unfold SealNow. destruct proofs as [[[mid spt] upt]|]; [|apply moved_refl]. destruct q; [apply moved_refl|].
    destruct (merge_sort index_desc _) as [|kr rows]; [apply moved_refl|]. apply run_tx_moved. intros db1.
    destruct (op_is_snap kr.2); [destruct upt; [|done]; by apply start_snap_moved|by apply start_sdr_moved].
Qed.
End Invariant.
