(* ===== verification/DealAlloc.v ===== *)
(** * Finding a sector for a piece

    [AllocatePieceToSector] of [market/storageingest/deal_ingest_seal.go] and
    [deal_ingest_snap.go], and [tasks/seal/sector_num_alloc.go].  A piece goes to an
    open sector that has room for it, to a new sector number, or to the
    committed-capacity sector that fits best.  What the chain node answers is a
    parameter: [None] is an error, a nil pointer an inner [None]. *)

From stdpp Require Import base gmap sets list strings sorting.
From Stdlib Require Import ZArith Lia.
From S2P Require Import Prelude FileType GoStd DealData DealIngest.

(** The bit fields of a partition, read at a sector number. *)
Record Partition := mkPartition {
  ActiveSectors : Z -> option bool;
  LiveSectors : Z -> option bool;
  FaultySectors : Z -> option bool;
  RecoveringSectors : Z -> option bool
}.

(** The fields of [dline.Info] that are read. *)
Record DeadlineInfo := mkDeadline { di_Index : Z; di_WPoStPeriodDeadlines : Z; di_CurrentEpoch : Z; di_Open : Z; di_WPoStProvingPeriod : Z }.

(** [PieceIngesterApi]; a term is its minimum and maximum, a sector its expiration
    and its proof type. *)
Record IngestApi := mkApi {
  StateMinerAllocated : string -> option (gset Z);
  IDFromAddress : string -> option Z;
  StateGetAllocationForPendingDeal : Z -> option (option (Z * Z));
  StateGetAllocation : Z -> Z -> option (option (Z * Z));
  StateGetAllocationIdForPendingDeal : Z -> option Z;
  StateLookupID : string -> option string;
  ChainHead : option Z;
  StateMinerProvingDeadline : string -> option DeadlineInfo;
  StateSectorPartition : string -> Z -> option (Z * Z);
  StateMinerPartitions : string -> Z -> option (list Partition);
  StateSectorGetInfo : string -> Z -> option (option (Z * Z))
}.

Record verifiedDeal := mkVerified { isVerified : bool; tmin : Z; tmax : Z }.

Definition SnapImmutableDeadlineEpochsBuffer : Z := 59.

Section Alloc.
Context `{Enum}.
Variable Info_PieceCID : PieceDealInfo -> string.
Variable Info_Size : PieceDealInfo -> Z.
Variable PaddedSize Padded : Z -> Z.
Variable marshal_proposal : DealProposal -> option string.
Variable marshal_manifest : PieceActivationManifest -> option string.
(** [abi.MaxSectorNumber], [builtin.EpochsInDay], [verifreg.NoAllocationID], the
    address of the market actor and the CBOR form of a deal id. *)
Variable MaxSectorNumber : Z.
Variable EpochsInDay : Z.
Variable NoAllocationID : Z.
Variable market_Address : string.
Variable cbor_Dump : Z -> option string.
Variable api : IngestApi.

(** ** Sector numbers *)

(** The first [count] numbers that are assignable and not in use. *)
Definition free_numbers (merged : gset Z) (count : nat) : list Z :=
  take count (List.filter (fun n => negb (bool_decide (n ∈ merged)) && (n <? MaxSectorNumber)) (seqZ 0 (Z.of_nat (size merged + count)))).

Definition AllocateSectorNumbers (maddr : string) (count : nat) (q x : option sql_error) (db : ingest_db) : result (ingest_db * list Z) ingest_error :=
  match StateMinerAllocated api maddr with
  | None => Err MinerAllocated
  | Some chainAlloc =>
      match IDFromAddress api maddr with
      | None => Err MinerNotFound
      | Some mid =>
          match q with
          | Some e => Err (IngSql e)
          | None =>
              let dbAllocated := default ∅ (sectors_allocated_numbers db !! mid) in
              let merged := chainAlloc ∪ dbAllocated in
              let res := free_numbers merged count in
              if (length res <? count)%nat then Err NotEnoughNumbers
              else
                match x with
                | Some e => Err (IngSql e)
                | None => Ok (mkIngest (open_sector_pieces db) (<[mid := merged ∪ list_to_set res]> (sectors_allocated_numbers db)) (sdr_pipeline db)
                                (sdr_initial_pieces db) (snap_pipeline db) (snap_initial_pieces db), res)
                end
          end
      end
  end.

(** ** Rows *)

Definition set_open (t : piece_table) (db : ingest_db) : ingest_db :=
  mkIngest t (sectors_allocated_numbers db) (sdr_pipeline db) (sdr_initial_pieces db) (snap_pipeline db) (snap_initial_pieces db).

(** What is known of a piece when its row is written. *)
Record piece_source := mkSource { ps_url : string; ps_headers : string; ps_rawSize : Z; ps_json : string; ps_now : time }.

Definition market_row (piece : PieceDealInfo) (dp : DealProposal) (s : piece_source) : piece_row :=
  mkPiece (dp_PieceCID dp) (dp_PieceSize dp) (ps_url s) (ps_headers s) (ps_rawSize s) (negb (KeepUnsealed piece))
    (Some (mkF05 (PublishCid piece) (DealID piece) (ps_json s) (StartEpoch piece) (EndEpoch piece))) None (ps_now s) false.

Definition ddo_row (snap : bool) (piece : PieceDealInfo) (pm : PieceActivationManifest) (s : piece_source) : piece_row :=
  mkPiece (pm_CID pm) (pm_Size pm) (ps_url s) (ps_headers s) (ps_rawSize s) (negb (KeepUnsealed piece))
    None (Some (mkDirect (StartEpoch piece) (EndEpoch piece) (ps_json s))) (ps_now s) snap.

(** [insert_sector_market_piece] or [insert_sector_ddo_piece] *)
Definition insert_deal (m s idx : Z) (piece : PieceDealInfo) (src : piece_source) (x : option sql_error) (db : ingest_db) : result ingest_db ingest_error :=
  match x with
  | Some e => Err (IngSql e)
  | None =>
      match (match pi_Proposal piece with
             | Some dp => Ok (market_row piece dp src)
             | None => match pi_Manifest piece with Some pm => Ok (ddo_row false piece pm src) | None => Err NilPointer end
             end) with
      | Err e => Err e
      | Ok r =>
          match insert_piece (m, s, idx) r (open_sector_pieces db) with
          | Err e => Err e
          | Ok t => Ok (set_open t db)
          end
      end
  end.

(** [insert_snap_ddo_piece] *)
Definition insert_snap (m s idx : Z) (piece : PieceDealInfo) (pm : PieceActivationManifest) (src : piece_source) (x : option sql_error) (db : ingest_db)
    : result ingest_db ingest_error :=
  match x with
  | Some e => Err (IngSql e)
  | None =>
      match insert_piece (m, s, idx) (ddo_row true piece pm src) (open_sector_pieces db) with
      | Err e => Err e
      | Ok t => Ok (set_open t db)
      end
  end.

Definition has_piece (sec : openSector) (piece : PieceDealInfo) : bool :=
  existsb (fun ci => bool_decide (ci.1 = Info_PieceCID piece) && (ci.2 =? Info_Size piece)) (os_pieces sec).

(** ** Open sectors *)

(** The sector of the loop of [allocateToExisting] that takes the piece. *)
Fixpoint find_existing (details : option mdetails) (piece : PieceDealInfo) (psize : Z) (vd : verifiedDeal) (secs : list openSector)
    : result (option openSector) ingest_error :=
  match secs with
  | [] => Ok None
  | sec :: secs =>
      if has_piece sec piece then find_existing details piece psize vd secs
      else
        match details with
        | None => Err NilPointer
        | Some d =>
            if u64 (os_currentSize sec + psize) <=? md_sectorSize d then
              let sectorLifeTime := i64 (os_latestEndEpoch sec - os_earliestStartEpoch sec) in
              if isVerified vd && ((sectorLifeTime <=? tmin vd) && (sectorLifeTime >=? tmax vd)) then find_existing details piece psize vd secs
              else Ok (Some sec)
            else find_existing details piece psize vd secs
        end
  end.

(** [None] in the result: no open sector has room. *)
Definition allocateToExisting (p : PieceIngester) (mid : Z) (piece : PieceDealInfo) (psize : Z) (vd : verifiedDeal) (src : piece_source)
    (q x : option sql_error) (db : ingest_db) : result (option (ingest_db * Z)) ingest_error :=
  match getOpenSectors q mid db with
  | Err e => Err e
  | Ok secs =>
      match find_existing (minerDetails p !! mid) piece psize vd secs with
      | Err e => Err e
      | Ok None => Ok None
      | Ok (Some sec) =>
          match insert_deal mid (os_number sec) (i64 (os_index sec + 1)) piece src x db with
          | Err e => Err e
          | Ok db => Ok (Some (db, os_number sec))
          end
      end
  end.

Definition piece_psize (piece : PieceDealInfo) : option Z :=
  match pi_Manifest piece with
  | Some pm => Some (pm_Size pm)
  | None => dp_PieceSize <$> pi_Proposal piece
  end.

(** The term of a verified deal and the JSON form of the piece. *)
Definition term_of (alloc : option (option (Z * Z))) : result verifiedDeal ingest_error :=
  match alloc with
  | None => Err AllocationQuery
  | Some None => Err NoAllocation
  | Some (Some (lo, hi)) => Ok (mkVerified true lo hi)
  end.

Definition unverified : verifiedDeal := mkVerified false 0 0.

Definition deal_terms (piece : PieceDealInfo) : result (verifiedDeal * string) ingest_error :=
  match pi_Proposal piece with
  | Some dp =>
      match (if dp_VerifiedDeal dp then term_of (StateGetAllocationForPendingDeal api (DealID piece)) else Ok unverified) with
      | Err e => Err e
      | Ok vd => match marshal_proposal dp with None => Err ProposalJson | Some j => Ok (vd, j) end
      end
  | None =>
      match pi_Manifest piece with
      | None => Err NilPointer
      | Some pm =>
          match (match pm_Key pm with Some (client, id) => term_of (StateGetAllocation api client id) | None => Ok unverified end) with
          | Err e => Err e
          | Ok vd => match marshal_manifest pm with None => Err ProposalJson | Some j => Ok (vd, j) end
          end
      end
  end.

(** The results of the statements of a call. *)
Record alloc_faults := mkFaults { af_open : option sql_error; af_existing : option sql_error; af_numbers : option sql_error; af_persist : option sql_error;
  af_candidates : option sql_error; af_insert : option sql_error }.

Definition AllocatePieceToSector (p : PieceIngester) (maddr : string) (piece : PieceDealInfo) (rawSize : Z) (source : string) (header : option string)
    (now : time) (f : alloc_faults) (db : ingest_db) : result (ingest_db * Z * Z) ingest_error :=
  match piece_psize piece with
  | None => Err NilPointer
  | Some psize =>
      if negb (psize =? Padded (PaddedSize (u64 rawSize))) then Err RawSizeMismatch
      else
        match header with
        | None => Err HeaderJson
        | Some hdr =>
            match deal_terms piece with
            | Err e => Err e
            | Ok (vd, propJson) =>
                match addToID p !! maddr with
                | None => Err MinerNotFound
                | Some mid =>
                    let src := mkSource source hdr rawSize propJson now in
                    match allocateToExisting p mid piece psize vd src (af_open f) (af_existing f) db with
                    | Err e => Err e
                    | Ok (Some (db, n)) =>
                        match minerDetails p !! mid with None => Err NilPointer | Some d => Ok (db, n, md_sealProof d) end
                    | Ok None =>
                        match AllocateSectorNumbers maddr 1 (af_numbers f) (af_persist f) db with
                        | Err e => Err e
                        | Ok (db, [n]) =>
                            match insert_deal mid n 0 piece src (af_insert f) db with
                            | Err e => Err e
                            | Ok db => match minerDetails p !! mid with None => Err NilPointer | Some d => Ok (db, n, md_sealProof d) end
                            end
                        | Ok (_, _) => Err ExpectedOneNumber
                        end
                    end
                end
            end
        end
  end.

(** ** Sectors to upgrade *)

(** The sector of the loop of [allocateToExisting] of the snap ingester, with its
    proof type; a sector whose info cannot be read is passed over. *)
Fixpoint snap_find_existing (details : option mdetails) (maddr : string) (height : Z) (piece : PieceDealInfo) (psize : Z) (vd : verifiedDeal)
    (secs : list openSector) : result (option (openSector * Z)) ingest_error :=
  match secs with
  | [] => Ok None
  | sec :: secs =>
      let next := snap_find_existing details maddr height piece psize vd secs in
      if has_piece sec piece then next
      else
        match details with
        | None => Err NilPointer
        | Some d =>
            if u64 (os_currentSize sec + psize) <=? md_sectorSize d then
              match StateSectorGetInfo api maddr (os_number sec) with
              | None => next
              | Some None => Err NilPointer
              | Some (Some (expiration, sealProof)) =>
                  let sectorLifeTime := i64 (expiration - height) in
                  if isVerified vd && ((sectorLifeTime <? 0) || ((sectorLifeTime <=? tmin vd) && (sectorLifeTime >=? tmax vd))) then next
                  else Ok (Some (sec, sealProof))
              end
            else next
        end
  end.

Definition snap_allocateToExisting (p : PieceIngester) (maddr : string) (mid : Z) (piece : PieceDealInfo) (pm : PieceActivationManifest) (psize : Z)
    (vd : verifiedDeal) (src : piece_source) (q x : option sql_error) (db : ingest_db) : result (option (ingest_db * Z * Z)) ingest_error :=
  match snap_getOpenSectors q mid db with
  | Err e => Err e
  | Ok secs =>
      match ChainHead api with
      | None => Err ChainCall
      | Some height =>
          match snap_find_existing (minerDetails p !! mid) maddr height piece psize vd secs with
          | Err e => Err e
          | Ok None => Ok None
          | Ok (Some (sec, sp)) =>
              match insert_snap mid (os_number sec) (i64 (os_index sec + 1)) piece pm src x db with
              | Err e => Err e
              | Ok db => Ok (Some (db, os_number sec, sp))
              end
          end
      end
  end.

(** Deals of the market actor become pieces with an activation manifest. *)
Definition to_manifest (piece : PieceDealInfo) : result (PieceDealInfo * PieceActivationManifest) ingest_error :=
  match pi_Proposal piece with
  | None => match pi_Manifest piece with None => Err NilPointer | Some pm => Ok (piece, pm) end
  | Some dp =>
      match StateGetAllocationIdForPendingDeal api (DealID piece) with
      | None => Err AllocationQuery
      | Some alloc =>
          match StateLookupID api (dp_Client dp) ≫= IDFromAddress api with
          | None => Err ChainCall
          | Some clientId =>
              match cbor_Dump (DealID piece) with
              | None => Err ProposalJson
              | Some payload =>
                  let pm := mkManifest (Info_PieceCID piece) (dp_PieceSize dp)
                              (if alloc =? NoAllocationID then None else Some (clientId, alloc)) [(market_Address, payload)] in
                  Ok (mkInfo None 0 None (StartEpoch piece) (EndEpoch piece) (Some pm) (KeepUnsealed piece), pm)
              end
          end
      end
  end.

(** The deadlines whose sectors cannot be upgraded now or soon. *)
Definition immutable_deadlines (d : DeadlineInfo) : Z * Z * Z :=
  let cur := di_Index d in
  let next := (di_Index d + 1) mod di_WPoStPeriodDeadlines d in
  let epochsInDeadline := i64 (di_CurrentEpoch d - di_Open d) in
  let epochsPerDeadline := Z.quot (di_WPoStProvingPeriod d) (di_WPoStPeriodDeadlines d) in
  let nextnext := if epochsInDeadline >=? epochsPerDeadline - SnapImmutableDeadlineEpochsBuffer
                  then (next + 1) mod di_WPoStPeriodDeadlines d else next in
  (cur, next, nextnext).

Definition IdealEndEpochBuffer : Z := 2 * EpochsInDay.
Definition MaxEndEpochBufferUnverified : Z := 180 * EpochsInDay.

(** The WHERE clause of the query for candidates. *)
Definition candidate_ok (mid endEpoch maxExpiration : Z) (dls : Z * Z * Z) (db : ingest_db) (kr : Z * Z * cc_row) : bool :=
  let r := kr.2 in
  (kr.1.1 =? mid) && cc_is_cc r && cc_is_live r && negb (cc_is_faulty r) &&
  match cc_expiration r with Some e => (e >? endEpoch) && (e <? maxExpiration) | None => false end &&
  match cc_deadline r with Some d => negb ((d =? dls.1.1) || (d =? dls.1.2) || (d =? dls.2)) | None => false end &&
  negb (bool_decide (is_Some (snap_pipeline db !! kr.1))) &&
  negb (bool_decide (is_Some (open_sector_pieces db !! (kr.1, 0)))).

Definition closer (ideal : Z) (a b : Z * Z * cc_row) : Prop :=
  Z.abs (default 0 (cc_expiration a.2) - ideal) <= Z.abs (default 0 (cc_expiration b.2) - ideal).

#[local] Instance closer_dec ideal : RelDecision (closer ideal).
Proof. intros a b. unfold closer. apply _. Defined.

Definition candidates (mid endEpoch maxExpiration : Z) (dls : Z * Z * Z) (meta : gmap (Z * Z) cc_row) (db : ingest_db) : list (Z * Z * cc_row) :=
  merge_sort (closer (endEpoch + IdealEndEpochBuffer)) (enum (List.filter (candidate_ok mid endEpoch maxExpiration dls db) (map_to_list meta))).

(** The first candidate that is active on chain. *)
Fixpoint find_candidate (maddr : string) (rows : list (Z * Z * cc_row)) : result (option (Z * Z * cc_row)) ingest_error :=
  match rows with
  | [] => Ok None
  | kr :: rows =>
      match StateSectorPartition api maddr kr.1.2 with
      | None => Err ChainCall
      | Some (deadline, partition) =>
          match StateMinerPartitions api maddr deadline with
          | None => Err ChainCall
          | Some dl =>
              match dl !! Z.to_nat partition with
              | None => Err PartitionNotFound
              | Some part =>
                  match ActiveSectors part kr.1.2 with
                  | None => Err ChainCall
                  | Some true => Ok (Some kr)
                  | Some false =>
                      match LiveSectors part kr.1.2, FaultySectors part kr.1.2, RecoveringSectors part kr.1.2 with
                      | Some _, Some _, Some _ => find_candidate maddr rows
                      | _, _, _ => Err ChainCall
                      end
                  end
              end
          end
      end
  end.

Definition check_lifetime (expiration height endEpoch maxExpiration : Z) : option ingest_error :=
  if i64 (expiration - height) <? 0 then Some NegativeLifetime
  else if endEpoch >? expiration then Some ExpiresTooSoon
  else if negb (maxExpiration =? 0) && (expiration >? maxExpiration) then Some ExpiresTooLate
  else None.

(** The part of [AllocatePieceToSector] that looks for a sector to upgrade. *)
Definition allocate_upgrade (maddr : string) (mid height maxExpiration : Z) (piece : PieceDealInfo) (pm : PieceActivationManifest) (src : piece_source)
    (meta : gmap (Z * Z) cc_row) (f : alloc_faults) (db : ingest_db) : result (ingest_db * Z * Z) ingest_error :=
  match StateMinerProvingDeadline api maddr with
  | None => Err ChainCall
  | Some d =>
      match af_candidates f with
      | Some e => Err (IngSql e)
      | None =>
          match find_candidate maddr (candidates mid (EndEpoch piece) maxExpiration (immutable_deadlines d) meta db) with
          | Err e => Err e
          | Ok None => Err NoSuitableSector
          | Ok (Some kr) =>
              match StateSectorGetInfo api maddr kr.1.2 with
              | None => Err ChainCall
              | Some None => Err NilPointer
              | Some (Some (expiration, _)) =>
                  match check_lifetime expiration height (EndEpoch piece) maxExpiration with
                  | Some e => Err e
                  | None =>
                      match insert_snap mid kr.1.2 0 piece pm src (af_insert f) db with
                      | Err e => Err e
                      | Ok db => Ok (db, kr.1.2, cc_reg_seal_proof kr.2)
                      end
                  end
              end
          end
      end
  end.

Definition snap_AllocatePieceToSector (p : PieceIngester) (maddr : string) (piece : PieceDealInfo) (rawSize : Z) (source : string) (header : option string)
    (now : time) (meta : gmap (Z * Z) cc_row) (f : alloc_faults) (db : ingest_db) : result (ingest_db * Z * Z) ingest_error :=
  match piece_psize piece with
  | None => Err NilPointer
  | Some psize =>
      if negb (psize =? Padded (PaddedSize (u64 rawSize))) then Err RawSizeMismatch
      else
        match header with
        | None => Err HeaderJson
        | Some hdr =>
            match to_manifest piece with
            | Err e => Err e
            | Ok (piece, pm) =>
                match ChainHead api with
                | None => Err ChainCall
                | Some height =>
                    match (match pm_Key pm with Some (client, id) => term_of (StateGetAllocation api client id) | None => Ok unverified end) with
                    | Err e => Err e
                    | Ok vd =>
                        let maxExpiration := if isVerified vd then i64 (height + tmax vd) else i64 (EndEpoch piece + MaxEndEpochBufferUnverified) in
                        match marshal_manifest pm with
                        | None => Err ProposalJson
                        | Some propJson =>
                            let mid := default 0 (addToID p !! maddr) in
                            let src := mkSource source hdr rawSize propJson now in
                            match snap_allocateToExisting p maddr mid piece pm psize vd src (af_open f) (af_existing f) db with
                            | Err e => Err e
                            | Ok (Some r) => Ok r
                            | Ok None => allocate_upgrade maddr mid height maxExpiration piece pm src meta f db
                            end
                        end
                    end
                end
            end
        end
  end.
End Alloc.
