(* ===== verification/DealAllocFacts.v ===== *)
(** * What the ingesters guarantee

    Sector numbers are given out once; the shape of the tables holds under any
    interleaving of the ingesters; a sector that is chosen for an upgrade is one
    that can be upgraded. *)

From stdpp Require Import base gmap sets list strings sorting.
From Stdlib Require Import ZArith Lia Sorted.
From S2P Require Import Prelude FileType GoStd DealData DealDataFacts DealIngest DealIngestFacts DealAlloc.

(** ** Sector numbers *)

Section Numbers.
Variable MaxSectorNumber : Z.
Let free_numbers := free_numbers MaxSectorNumber.

Lemma elem_of_free merged count n : n ∈ free_numbers merged count -> (n ∉ merged) /\ 0 <= n < MaxSectorNumber.
Proof.
  unfold free_numbers, DealAlloc.free_numbers. intros Hn%elem_of_take. destruct Hn as (i & Hi & _). apply list_elem_of_lookup_2, list_elem_of_In, filter_In in Hi.
  destruct Hi as [Hs Hb]. apply list_elem_of_In, elem_of_seqZ in Hs. bool_props. done || split; [done|lia].
Qed.

Lemma free_NoDup merged count : NoDup (free_numbers merged count).
Proof.
  unfold free_numbers, DealAlloc.free_numbers. set (l := List.filter _ _). assert (NoDup l) as Hl by apply NoDup_filter_list, NoDup_seqZ.
  rewrite <- (take_drop count l) in Hl. by apply NoDup_app in Hl as [Hl _].
Qed.

Lemma filter_split {A} (f : A -> bool) l : length l = (length (List.filter f l) + length (List.filter (fun x => negb (f x)) l))%nat.
Proof. induction l as [|x l IH]; [done|]. cbn. destruct (f x); cbn; lia. Qed.

(** While there are assignable numbers, enough of them are found. *)
Lemma free_numbers_enough merged count : Z.of_nat (size merged + count) <= MaxSectorNumber -> length (free_numbers merged count) = count.
Proof.
  intros Hmax. unfold free_numbers, DealAlloc.free_numbers. rewrite length_take. apply Nat.min_l.
  set (l := seqZ 0 (Z.of_nat (size merged + count))).
  rewrite (filter_ext_in _ (fun n => negb (bool_decide (n ∈ merged)))).
  2: { intros n Hn%list_elem_of_In%elem_of_seqZ. rewrite (proj2 (Z.ltb_lt _ _)) by lia. apply andb_true_r. }
  pose proof (filter_split (fun n => bool_decide (n ∈ merged)) l) as Hl. unfold l in Hl at 1. rewrite length_seqZ, Nat2Z.id in Hl.
  assert (length (List.filter (fun n => bool_decide (n ∈ merged)) l) <= size merged)%nat; [|lia].
  rewrite <- (size_list_to_set (C := gset Z) (List.filter _ l)) by (apply NoDup_filter_list, NoDup_seqZ).
  apply subseteq_size. intros n Hn%elem_of_list_to_set%list_elem_of_In%filter_In. destruct Hn as [_ Hn]. by bool_props.
Qed.

(** A call: the answers of the chain, the miner, the number of sectors and the
    results of its statements.  A call that fails is rolled back. *)
Record number_call := mkCall { nc_api : IngestApi; nc_maddr : string; nc_count : nat; nc_query : option sql_error; nc_persist : option sql_error }.

Fixpoint run_calls (calls : list number_call) (db : ingest_db) : ingest_db * list (Z * Z) :=
  match calls with
  | [] => (db, [])
  | c :: calls =>
      match AllocateSectorNumbers MaxSectorNumber (nc_api c) (nc_maddr c) (nc_count c) (nc_query c) (nc_persist c) db, IDFromAddress (nc_api c) (nc_maddr c) with
      | Ok (db, res), Some mid => let '(db, given) := run_calls calls db in (db, map (pair mid) res ++ given)
      | _, _ => run_calls calls db
      end
  end.

Definition taken (db : ingest_db) (m n : Z) : Prop := n ∈ default ∅ (sectors_allocated_numbers db !! m).

Lemma AllocateSectorNumbers_spec api maddr count q x (db db' : ingest_db) res : AllocateSectorNumbers MaxSectorNumber api maddr count q x db = Ok (db', res) ->
  exists mid chain, IDFromAddress api maddr = Some mid /\ StateMinerAllocated api maddr = Some chain /\ length res = count /\ NoDup res /\
    (forall n, n ∈ res -> ~ taken db mid n /\ (n ∉ chain) /\ taken db' mid n /\ 0 <= n < MaxSectorNumber) /\
    (forall m n, taken db m n -> taken db' m n) /\ open_sector_pieces db' = open_sector_pieces db /\
    sdr_initial_pieces db' = sdr_initial_pieces db /\ snap_initial_pieces db' = snap_initial_pieces db.
Proof.
  unfold AllocateSectorNumbers. destruct (StateMinerAllocated api maddr) as [chain|]; [|done]. destruct (IDFromAddress api maddr) as [mid|]; [|done].
  destruct q; [done|]. cbv zeta. set (merged := chain ∪ _). fold free_numbers. destruct (Nat.ltb_spec (length (free_numbers merged count)) count); [done|].
  destruct x; [done|]. intros [= <- <-]. exists mid, chain. split; [done|]. split; [done|].
  assert (length (free_numbers merged count) = count).
  { unfold free_numbers, DealAlloc.free_numbers in *. rewrite length_take in *. lia. }
  split; [done|]. split; [apply free_NoDup|]. unfold taken. cbn [sectors_allocated_numbers]. split; [|split; [|done]].
  - intros n Hn. pose proof (elem_of_free _ _ _ Hn) as [Hf Hb]. unfold merged in Hf. rewrite lookup_insert_eq. cbn [from_option id]. set_solver.
  - intros m n Hn. destruct (decide (m = mid)) as [->|Hne]; [rewrite lookup_insert_eq; cbn [from_option id]; set_solver|by rewrite lookup_insert_ne].
Qed.

(** C40: no sector number of a miner is given out twice, whatever the chain reports
    between the calls and whichever calls fail, and none that was recorded before. *)
Theorem sector_numbers_unique (calls : list number_call) (db : ingest_db) :
  NoDup (run_calls calls db).2 /\ forall m n, (m, n) ∈ (run_calls calls db).2 -> ~ taken db m n.
Proof.
  revert db. induction calls as [|c calls IH]; intros db; cbn [run_calls]; [split; [constructor|by intros m n []%not_elem_of_nil]|].
  destruct (AllocateSectorNumbers _ _ _ _ _ _ _) as [[db1 res]|] eqn:E; [|apply IH].
  apply AllocateSectorNumbers_spec in E as (mid & chain & -> & _ & _ & Hnd & Hres & Hmono & _). specialize (IH db1).
  destruct (run_calls calls db1) as [db2 given]. destruct IH as [IH1 IH2]. cbn [snd] in *. split.
  - apply NoDup_app. split; [by apply (NoDup_fmap_2 (pair mid))|]. split; [|done]. intros [m n] Hin Hg. apply list_elem_of_fmap in Hin as (n' & [= -> ->] & Hn').
    apply (IH2 _ _ Hg). by apply Hres.
  - intros m n [Hin|Hg]%elem_of_app; [apply list_elem_of_fmap in Hin as (n' & [= -> ->] & Hn'); by apply Hres|].
    intros Ht. by apply (IH2 _ _ Hg), Hmono.
Qed.
End Numbers.

(** ** Allocation keeps the invariant *)

Section Allocation.
Context `{Enum} {Padded PaddedSize : Z -> Z}.
Variable Info_PieceCID : PieceDealInfo -> string.
Variable Info_Size : PieceDealInfo -> Z.
Variable marshal_proposal : DealProposal -> option string.
Variable marshal_manifest : PieceActivationManifest -> option string.
Variables MaxSectorNumber EpochsInDay NoAllocationID : Z.
Variable market_Address : string.
Variable cbor_Dump : Z -> option string.
Variable ssize : Z -> Z.
Hypothesis ssize_bound : forall m, ssize m <= 2 ^ 62.

(** The identity of a piece is that of its proposal, or else of its manifest; data
    is padded to the size of a piece. *)
Hypothesis info_proposal : forall piece dp, pi_Proposal piece = Some dp -> Info_PieceCID piece = dp_PieceCID dp /\ Info_Size piece = dp_PieceSize dp.
Hypothesis info_manifest : forall piece pm, pi_Proposal piece = None -> pi_Manifest piece = Some pm ->
  Info_PieceCID piece = pm_CID pm /\ Info_Size piece = pm_Size pm.
Hypothesis padded_data : forall x, 0 <= x <= 2 ^ 61 -> piece_size (Padded (PaddedSize x)).

Let ingest_inv := ingest_inv (Padded := Padded) (PaddedSize := PaddedSize) ssize.
Let open_ok := open_ok (Padded := Padded) (PaddedSize := PaddedSize) ssize.
Let row_ok := row_ok (Padded := Padded) (PaddedSize := PaddedSize).

(** The ingester knows the sector sizes. *)
Definition details_ok (p : PieceIngester) : Prop := forall m d, minerDetails p !! m = Some d -> md_sectorSize d = ssize m.

(** A row that can be added for a piece. *)
Definition row_for (piece : PieceDealInfo) (psize : Z) (snap : bool) (r : piece_row) : Prop :=
  row_ok r /\ op_piece_size r = psize /\ op_is_snap r = snap /\ (snap = true -> op_f05 r = None) /\
  piece_id r = (Info_PieceCID piece, Info_Size piece).

Lemma open_insert (db : ingest_db) (m s idx : Z) (l : list piece_row) (r : piece_row) : ingest_inv db -> indexed m s (open_sector_pieces db) l ->
  idx = Z.of_nat (length l) -> open_ok m (l ++ [r]) -> ingest_inv (set_open (<[(m, s, idx) := r]> (open_sector_pieces db)) db).
Proof. intros [Ho Hs Hn] Hl -> Hok. split; cbn; [by apply table_insert|done|done]. Qed.

(** Into an open sector that has room and not this piece. *)
Lemma insert_existing (snap : bool) (db : ingest_db) (m : Z) (sec : openSector) (piece : PieceDealInfo) (psize : Z) (r : piece_row) (t : piece_table) :
  ingest_inv db -> sec ∈ open_sectors snap m (open_sector_pieces db) -> row_for piece psize snap r ->
  has_piece Info_PieceCID Info_Size sec piece = false -> u64 (os_currentSize sec + psize) <= ssize m ->
  insert_piece (m, os_number sec, i64 (os_index sec + 1)) r (open_sector_pieces db) = Ok t -> ingest_inv (set_open t db).
Proof.
  intros Hi Hsec (Hr & Hsz & Hsn & Hf & Hid) Hhas Hroom. unfold insert_piece. destruct (open_sector_pieces db !! _); [done|]. intros [= <-].
  destruct (open_sector_list ssize ssize_bound snap m _ sec (inv_open _ _ Hi) Hsec) as (l & Hl & Hok & Hall & Ecur & Eidx & Hpcs).
  destruct (pieces_ok_bounds ssize ssize_bound m l Hok) as [Hb _]. pose proof Hok as (Hrows & Hsum & Hnd).
  assert (piece_size psize) as Hps by (rewrite <- Hsz; apply Hr). apply piece_size_pos in Hps.
  apply (open_insert db m (os_number sec) _ l); [done|done|done|]. split.
  - intros _. split; [|split].
    + apply Forall_app. split; [done|]. by constructor.
    + left. rewrite Zsum_app, Zsum_cons, Zsum_nil, Hsz, Z.add_0_r, <- Ecur. rewrite <- (wrap_u_small 64 (os_currentSize sec + psize)); [done|lia].
    + rewrite fmap_app. apply NoDup_app. split; [done|]. split; [|apply NoDup_singleton]. intros x Hx ->%list_elem_of_singleton.
      rewrite <- Hpcs, Hid in Hx. assert (has_piece Info_PieceCID Info_Size sec piece = true); [|congruence].
      apply existsb_exists. eexists. split; [by apply list_elem_of_In|]. cbn. rewrite bool_decide_eq_true_2, Z.eqb_refl by done. done.
  - exists snap. apply Forall_app. split; [done|]. by constructor.
Qed.

(** As the first piece of a sector: the key of the table makes sure that there is
    no other. *)
Lemma insert_first (snap : bool) (db : ingest_db) (m s : Z) (piece : PieceDealInfo) (psize : Z) (r : piece_row) (t : piece_table) :
  ingest_inv db -> row_for piece psize snap r ->
  insert_piece (m, s, 0) r (open_sector_pieces db) = Ok t -> ingest_inv (set_open t db).
Proof.
  intros Hi (Hr & Hsz & Hsn & Hf & Hid). unfold insert_piece. destruct (open_sector_pieces db !! _) eqn:E; [done|]. intros [= <-].
  destruct (inv_open _ _ Hi m s) as (l & Hl & _). assert (l = []) as -> by (by apply (indexed_free m s _ l Hl)).
  apply (open_insert db m s 0 []); [done|done|done|]. split; [|exists snap; by constructor].
  intros _. split; [by constructor|]. split; [|apply NoDup_singleton]. cbn [app]. rewrite Zsum_cons, Zsum_nil, Z.add_0_r.
  destruct (Z_le_gt_dec (op_piece_size r) (ssize m)); [by left|right]. exists r. split; [done|lia].
Qed.

Lemma find_existing_spec details piece psize vd secs sec : find_existing Info_PieceCID Info_Size details piece psize vd secs = Ok (Some sec) ->
  sec ∈ secs /\ has_piece Info_PieceCID Info_Size sec piece = false /\ exists d, details = Some d /\ u64 (os_currentSize sec + psize) <= md_sectorSize d.
Proof.
  induction secs as [|sc secs IH]; cbn [find_existing]; [done|]. destruct (has_piece _ _ sc piece) eqn:Hh; [intros (? & ?)%IH; split; [by right|done]|].
  destruct details as [d|]; [|done]. destruct (Z.leb_spec (u64 (os_currentSize sc + psize)) (md_sectorSize d)); [|intros (? & ?)%IH; split; [by right|done]].
  cbv zeta. destruct (isVerified vd && _); [intros (? & ?)%IH; split; [by right|done]|]. intros [= <-]. split; [left|]. split; [done|]. by exists d.
Qed.

(** A piece has either a proposal or a manifest, and is as long as it says. *)
Definition one_kind (piece : PieceDealInfo) : Prop := pi_Proposal piece = None \/ pi_Manifest piece = None.

Lemma raw_row_ok rawSize (r : piece_row) : 0 <= rawSize <= 2 ^ 61 -> op_data_raw_size r = rawSize -> op_piece_size r = Padded (PaddedSize (u64 rawSize)) -> row_ok r.
Proof. intros Hr E Hs. split; [|by rewrite E]. rewrite Hs. apply padded_data. unfold u64. by rewrite wrap_u_small by lia. Qed.

Lemma insert_deal_row (m s idx : Z) (piece : PieceDealInfo) (src : piece_source) x (db db' : ingest_db) (psize : Z) : one_kind piece ->
  0 <= ps_rawSize src <= 2 ^ 61 -> piece_psize piece = Some psize -> psize = Padded (PaddedSize (u64 (ps_rawSize src))) ->
  insert_deal m s idx piece src x db = Ok db' ->
  exists r t, row_for piece psize false r /\ insert_piece (m, s, idx) r (open_sector_pieces db) = Ok t /\ db' = set_open t db.
Proof.
  intros Hk Hraw Hp Hs. unfold insert_deal, piece_psize in *. destruct x; [done|]. destruct (pi_Proposal piece) as [dp|] eqn:Ep.
  - destruct Hk as [|Hm]; [congruence|]. rewrite Hm in Hp. injection Hp as <-. destruct (insert_piece _ _ _) as [t|] eqn:E; [|done]. intros [= <-].
    exists (market_row piece dp src), t. split; [|done]. unfold row_for. destruct (info_proposal piece dp Ep) as [-> ->]. split; [|done]. by apply (raw_row_ok (ps_rawSize src)).
  - destruct (pi_Manifest piece) as [pm|] eqn:Em; [|done]. injection Hp as <-. destruct (insert_piece _ _ _) as [t|] eqn:E; [|done]. intros [= <-].
    exists (ddo_row false piece pm src), t. split; [|done]. unfold row_for. destruct (info_manifest piece pm Ep Em) as [-> ->]. split; [|done]. by apply (raw_row_ok (ps_rawSize src)).
Qed.

Lemma AllocatePieceToSector_inv api p maddr piece rawSize source header now f (db db' : ingest_db) n sp : ingest_inv db -> details_ok p -> one_kind piece ->
  0 <= rawSize <= 2 ^ 61 ->
  AllocatePieceToSector Info_PieceCID Info_Size PaddedSize Padded marshal_proposal marshal_manifest MaxSectorNumber api p maddr piece rawSize source header
    now f db = Ok (db', n, sp) -> ingest_inv db'.
Proof.
  intros Hi Hd Hk Hraw. unfold AllocatePieceToSector. destruct (piece_psize piece) as [psize|] eqn:Ep; [|done].
  destruct (Z.eqb_spec psize (Padded (PaddedSize (u64 rawSize)))) as [Es|]; [|done]. cbn [negb]. destruct header as [hdr|]; [|done].
  destruct (deal_terms _ _ _ _) as [[vd j]|]; [|done]. destruct (addToID p !! maddr) as [mid|] eqn:Em; [|done]. cbv zeta.
  set (src := mkSource source hdr rawSize j now). destruct (allocateToExisting _ _ _ _ _ _ _ _ _ _ _) as [[[db1 n1]|]|] eqn:E; [| |done].
  - destruct (minerDetails p !! mid); [|done]. intros [= <- _ _]. unfold allocateToExisting, getOpenSectors in E. destruct (af_open f); [done|].
    destruct (find_existing _ _ _ _ _ _ _) as [[sec|]|] eqn:Ef; try done. destruct (insert_deal _ _ _ _ _ _ _) as [db2|] eqn:Ei; [|done]. injection E as <- _.
    apply find_existing_spec in Ef as (Hsec & Hh & d & Ed & Hroom). rewrite (Hd mid d Ed) in Hroom.
    destruct (insert_deal_row _ _ _ _ src _ _ _ psize Hk Hraw Ep Es Ei) as (r & t & Hr & Et & ->). by apply (insert_existing false db mid sec piece psize r).
  - destruct (AllocateSectorNumbers _ _ _ _ _ _ _) as [[db1 [|n1 [|]]]|] eqn:Ea; try done. apply AllocateSectorNumbers_spec in Ea as (_ & _ & _ & _ & _ & _ & _ & _ & Eo & Es1 & En1).
    destruct (insert_deal _ _ _ _ _ _ _) as [db2|] eqn:Ei; [|done]. destruct (minerDetails p !! mid); [|done]. intros [= <- _ _].
    destruct (insert_deal_row _ _ _ _ src _ _ _ psize Hk Hraw Ep Es Ei) as (r & t & Hr & Et & ->). apply (insert_first false db1 mid n1 piece psize r t); [|done|done].
    destruct Hi as [H1 H2 H3]. split; [by rewrite Eo|by rewrite Es1|by rewrite En1].
Qed.

(** ** Upgrades *)

Lemma snap_find_existing_spec api details maddr height piece psize vd secs sec sp :
  snap_find_existing Info_PieceCID Info_Size api details maddr height piece psize vd secs = Ok (Some (sec, sp)) ->
  sec ∈ secs /\ has_piece Info_PieceCID Info_Size sec piece = false /\ exists d, details = Some d /\ u64 (os_currentSize sec + psize) <= md_sectorSize d.
Proof.
  induction secs as [|sc secs IH]; cbn [snap_find_existing]; [done|]. cbv zeta.
  assert (snap_find_existing Info_PieceCID Info_Size api details maddr height piece psize vd secs = Ok (Some (sec, sp)) ->
    sec ∈ sc :: secs /\ has_piece Info_PieceCID Info_Size sec piece = false /\ exists d, details = Some d /\ u64 (os_currentSize sec + psize) <= md_sectorSize d) as IH'.
  { intros (? & ?)%IH. split; [by right|done]. }
  destruct (has_piece _ _ sc piece) eqn:Hh; [done|]. destruct details as [d|]; [|done].
  destruct (Z.leb_spec (u64 (os_currentSize sc + psize)) (md_sectorSize d)); [|done]. destruct (StateSectorGetInfo api maddr _) as [[[ex pr]|]|]; [|done|done].
  destruct (isVerified vd && _); [done|]. intros E. injection E as <- <-. split; [left|]. split; [done|]. by exists d.
Qed.

Lemma to_manifest_spec api piece piece' pm psize : one_kind piece -> piece_psize piece = Some psize ->
  to_manifest Info_PieceCID NoAllocationID market_Address cbor_Dump api piece = Ok (piece', pm) ->
  pi_Proposal piece' = None /\ pi_Manifest piece' = Some pm /\ pm_Size pm = psize /\ EndEpoch piece' = EndEpoch piece.
Proof.
  unfold to_manifest, piece_psize, one_kind. intros Hk Hp. destruct (pi_Proposal piece) as [dp|] eqn:Ep.
  - destruct Hk as [|Hm]; [done|]. rewrite Hm in Hp. injection Hp as <-. destruct (StateGetAllocationIdForPendingDeal _ _); [|done].
    destruct (_ ≫= _); [|done]. destruct (cbor_Dump _); [|done]. intros E. injection E as <- <-. done.
  - destruct (pi_Manifest piece) as [pm'|] eqn:Em; [|done]. injection Hp as <-. intros E. injection E as <- <-. done.
Qed.

Lemma insert_snap_row (m s idx : Z) (piece : PieceDealInfo) (pm : PieceActivationManifest) (src : piece_source) x (db db' : ingest_db) :
  pi_Proposal piece = None -> pi_Manifest piece = Some pm -> 0 <= ps_rawSize src <= 2 ^ 61 -> pm_Size pm = Padded (PaddedSize (u64 (ps_rawSize src))) ->
  insert_snap m s idx piece pm src x db = Ok db' ->
  exists r t, row_for piece (pm_Size pm) true r /\ insert_piece (m, s, idx) r (open_sector_pieces db) = Ok t /\ db' = set_open t db.
Proof.
  intros Ep Em Hraw Hs. unfold insert_snap. destruct x; [done|]. destruct (insert_piece _ _ _) as [t|] eqn:E; [|done]. intros [= <-].
  exists (ddo_row true piece pm src), t. split; [|done]. unfold row_for. destruct (info_manifest piece pm Ep Em) as [-> ->]. split; [|done]. by apply (raw_row_ok (ps_rawSize src)).
Qed.

Lemma snap_AllocatePieceToSector_inv api p maddr piece rawSize source header now meta f (db db' : ingest_db) n sp : ingest_inv db -> details_ok p ->
  one_kind piece -> 0 <= rawSize <= 2 ^ 61 ->
  snap_AllocatePieceToSector Info_PieceCID Info_Size PaddedSize Padded marshal_manifest EpochsInDay NoAllocationID market_Address cbor_Dump api p maddr piece
    rawSize source header now meta f db = Ok (db', n, sp) -> ingest_inv db'.
Proof.
  intros Hi Hd Hk Hraw. unfold snap_AllocatePieceToSector. destruct (piece_psize piece) as [psize|] eqn:Ep; [|done].
  destruct (Z.eqb_spec psize (Padded (PaddedSize (u64 rawSize)))) as [Es|]; [|done]. cbn [negb]. destruct header as [hdr|]; [|done].
  destruct (to_manifest _ _ _ _ _ _) as [[pc pm]|] eqn:Et; [|done]. apply (to_manifest_spec _ _ _ _ psize Hk Ep) in Et as (Ep' & Em' & Esz & _).
  destruct (ChainHead api) as [height|] eqn:Eh; [|done]. destruct (match pm_Key pm with Some _ => _ | None => _ end) as [vd|]; [|done]. cbv zeta.
  destruct (marshal_manifest pm) as [j|]; [|done]. set (mid := default 0 (addToID p !! maddr)) in *. set (src := mkSource source hdr rawSize j now).
  rewrite <- Esz in Es |- *. clear Esz. destruct (snap_allocateToExisting _ _ _ _ _ _ _ _ _ _ _ _ _ _) as [[[[db1 n1] sp1]|]|] eqn:E; [| |done].
  - intros [= <- _ _]. unfold snap_allocateToExisting, snap_getOpenSectors in E. destruct (af_open f); [done|]. rewrite Eh in E.
    destruct (snap_find_existing _ _ _ _ _ _ _ _ _ _) as [[[sec sp2]|]|] eqn:Ef; try done. destruct (insert_snap _ _ _ _ _ _ _ _) as [db2|] eqn:Ei; [|done]. injection E as <- _ _.
    apply snap_find_existing_spec in Ef as (Hsec & Hh & d & Ed & Hroom). rewrite (Hd mid d Ed) in Hroom.
    destruct (insert_snap_row _ _ _ _ _ src _ _ _ Ep' Em' Hraw Es Ei) as (r & t & Hr & Ht & ->). by apply (insert_existing true db mid sec pc (pm_Size pm) r).
  - unfold allocate_upgrade. destruct (StateMinerProvingDeadline api maddr); [|done]. destruct (af_candidates f); [done|].
    destruct (find_candidate _ _ _) as [[kr|]|]; try done. destruct (StateSectorGetInfo api maddr _) as [[[ex pr]|]|]; try done. destruct (check_lifetime _ _ _ _); [done|].
    destruct (insert_snap _ _ _ _ _ _ _ _) as [db2|] eqn:Ei; [|done]. intros [= <- _ _].
    destruct (insert_snap_row _ _ _ _ _ src _ _ _ Ep' Em' Hraw Es Ei) as (r & t & Hr & Ht & ->). by apply (insert_first true db mid kr.1.2 pc (pm_Size pm) r).
Qed.

End Allocation.

(** ** The sector that is chosen *)

Section Choice.
Context `{Enum}.
Variable EpochsInDay : Z.

(** Whether a sector is active in its partition. *)
Definition active_on_chain (api : IngestApi) (maddr : string) (n : Z) : option bool :=
  match StateSectorPartition api maddr n with
  | None => None
  | Some (dl, pt) => match StateMinerPartitions api maddr dl with
                     | None => None
                     | Some parts => match parts !! Z.to_nat pt with None => None | Some part => ActiveSectors part n end
                     end
  end.

Lemma find_candidate_spec api maddr rows kr : find_candidate api maddr rows = Ok (Some kr) ->
  exists pre post, rows = pre ++ kr :: post /\ active_on_chain api maddr kr.1.2 = Some true /\
    Forall (fun x : Z * Z * cc_row => active_on_chain api maddr x.1.2 = Some false) pre.
Proof.
  induction rows as [|x rows IH]; cbn [find_candidate]; [done|].
  assert (active_on_chain api maddr x.1.2 = Some false -> find_candidate api maddr rows = Ok (Some kr) ->
    exists pre post, x :: rows = pre ++ kr :: post /\ active_on_chain api maddr kr.1.2 = Some true /\
      Forall (fun x : Z * Z * cc_row => active_on_chain api maddr x.1.2 = Some false) pre) as Hnext.
  { intros Hx (pre & post & -> & Ha & Hf)%IH. exists (x :: pre), post. split; [done|]. split; [done|]. by constructor. }
  unfold active_on_chain at 1 in Hnext. destruct (StateSectorPartition api maddr x.1.2) as [[dl pt]|] eqn:E1; [|done].
  destruct (StateMinerPartitions api maddr dl) as [parts|] eqn:E2; [|done]. destruct (parts !! Z.to_nat pt) as [part|] eqn:E3; [|done].
  destruct (ActiveSectors part x.1.2) as [[]|] eqn:E4; [|by repeat case_match; [apply Hnext| | |]|done]. intros E. injection E as <-.
  exists [], rows. split; [done|]. split; [|constructor]. unfold active_on_chain. by rewrite E1, E2, E3.
Qed.

(** The conditions on a sector to upgrade: committed capacity, healthy, neither in
    the pipeline nor open, expiring after the deal and before the limit, and in a
    deadline that can be changed. *)
Record upgradable (mid endEpoch maxExpiration : Z) (d : DeadlineInfo) (db : ingest_db) (n : Z) (r : cc_row) : Prop := {
  up_cc : cc_is_cc r = true;
  up_live : cc_is_live r = true;
  up_healthy : cc_is_faulty r = false;
  up_expiration : exists e, cc_expiration r = Some e /\ endEpoch < e < maxExpiration;
  up_deadline : exists dl, cc_deadline r = Some dl /\ dl <> di_Index d /\ dl <> (di_Index d + 1) mod di_WPoStPeriodDeadlines d;
  up_free : snap_pipeline db !! (mid, n) = None;
  up_closed : open_sector_pieces db !! (mid, n, 0) = None
}.

Lemma candidate_upgradable mid endEpoch maxExpiration d (db : ingest_db) (m n : Z) r :
  candidate_ok mid endEpoch maxExpiration (immutable_deadlines d) db ((m, n), r) = true -> m = mid /\ upgradable mid endEpoch maxExpiration d db n r.
Proof.
  unfold candidate_ok, immutable_deadlines. cbn [fst snd]. intros Hc. repeat (apply andb_true_iff in Hc as [Hc ?]). bool_props. subst m. split; [done|].
  destruct (cc_expiration r) as [e|] eqn:Ee; [|done]. destruct (cc_deadline r) as [dl|] eqn:Ed; [|done]. bool_props. split; try done.
  - exists e. split; [done|lia].
  - by exists dl.
  - apply eq_None_not_Some. done.
  - apply eq_None_not_Some. done.
Qed.

#[local] Instance closer_trans ideal : Transitive (closer ideal).
Proof. intros a b c. unfold closer. lia. Qed.

#[local] Instance closer_total ideal : Total (closer ideal).
Proof. intros a b. unfold closer. lia. Qed.

Definition distance (endEpoch : Z) (r : cc_row) : Z := Z.abs (default 0 (cc_expiration r) - (endEpoch + IdealEndEpochBuffer EpochsInDay)).

(** a sector that is chosen for an upgrade is one that can be upgraded: a row of
    the sectors of the miner that satisfies all the conditions, active on chain,
    and whose expiration on chain is not before the end of the deal nor after the
    limit; every sector that meets the conditions and expires closer to the ideal
    epoch is not active. *)
Theorem upgrade_choice (api : IngestApi) (maddr : string) (mid height maxExpiration : Z) (piece : PieceDealInfo) (pm : PieceActivationManifest) (src : piece_source) (meta : gmap (Z * Z) cc_row) (f : alloc_faults) (db db' : ingest_db) (n sp : Z) (d : DeadlineInfo) :
  StateMinerProvingDeadline api maddr = Some d ->
  allocate_upgrade EpochsInDay api maddr mid height maxExpiration piece pm src meta f db = Ok (db', n, sp) ->
  exists r expiration pr, meta !! (mid, n) = Some r /\ sp = cc_reg_seal_proof r /\ upgradable mid (EndEpoch piece) maxExpiration d db n r /\
    active_on_chain api maddr n = Some true /\ StateSectorGetInfo api maddr n = Some (Some (expiration, pr)) /\
    EndEpoch piece <= expiration /\ (maxExpiration <> 0 -> expiration <= maxExpiration) /\
    forall n' r', meta !! (mid, n') = Some r' -> candidate_ok mid (EndEpoch piece) maxExpiration (immutable_deadlines d) db ((mid, n'), r') = true ->
      distance (EndEpoch piece) r' < distance (EndEpoch piece) r -> active_on_chain api maddr n' = Some false.
Proof.
  intros Hd. unfold allocate_upgrade. rewrite Hd. destruct (af_candidates f); [done|]. set (rows := candidates _ _ _ _ _ _ _).
  destruct (find_candidate api maddr rows) as [[[[m k] r]|]|] eqn:Ef; try done. cbn [fst snd].
  destruct (StateSectorGetInfo api maddr k) as [[[ex pr]|]|] eqn:Ei; try done. destruct (check_lifetime _ _ _ _) eqn:Ec; [done|].
  destruct (insert_snap _ _ _ _ _ _ _ _) as [db2|]; [|done]. intros E. injection E as _ <- <-. clear db2.
  assert (forall x, x ∈ rows <-> candidate_ok mid (EndEpoch piece) maxExpiration (immutable_deadlines d) db x = true /\ x ∈ map_to_list meta) as Hrows.
  { intros x. unfold rows, candidates. rewrite merge_sort_Permutation, elem_of_enum, !list_elem_of_In, filter_In. tauto. }
  apply find_candidate_spec in Ef as (pre & post & Er & Ha & Hpre). cbn [fst snd] in Ha.
  destruct (proj1 (Hrows ((m, k), r))) as [Hok Hin]; [rewrite Er; apply elem_of_app; right; left|].
  destruct (candidate_upgradable _ _ _ _ _ _ _ _ Hok) as [-> Hup]. apply elem_of_map_to_list in Hin.
  exists r, ex, pr. split; [done|]. split; [done|]. split; [done|]. split; [done|]. split; [done|].
  unfold check_lifetime in Ec. destruct (_ <? 0); [done|]. destruct (Z.gtb_spec (EndEpoch piece) ex); [done|]. split; [lia|]. split.
  - intros Hz. rewrite (proj2 (Z.eqb_neq _ _) Hz) in Ec. cbn in Ec. destruct (Z.gtb_spec ex maxExpiration); [done|lia].
  - intros n' r' Hn' Hok' Hlt. assert (((mid, n'), r') ∈ rows) as Hx by (apply Hrows; split; [done|by apply elem_of_map_to_list]).
    rewrite Er in Hx. apply elem_of_app in Hx as [Hx|Hx]; [rewrite Forall_forall in Hpre; by apply (Hpre _ Hx)|]. exfalso.
    assert (StronglySorted (closer (EndEpoch piece + IdealEndEpochBuffer EpochsInDay)) rows) as Hs by apply (StronglySorted_merge_sort _ _).
    rewrite Er in Hs. apply StronglySorted_app in Hs as (_ & _ & Hs). apply StronglySorted_inv in Hs as [_ Hs]. rewrite Forall_forall in Hs.
    apply elem_of_cons in Hx as [Hx|Hx]; [injection Hx as -> ->; lia|]. specialize (Hs _ Hx). unfold closer in Hs. unfold distance in Hlt. cbn [snd] in Hs. lia.
Qed.
End Choice.
