(* ===== verification/SectorData.v ===== *)
(** * From deals to the data of a sector

    The readers of a sector's pieces in [lib/dealdata/dealdata.go], over the tables
    that the ingesters fill, and the whole path of a piece: what an open sector
    collects, the pipeline stores and the assembly reads is a sector that is covered
    exactly, if no piece is larger than the sector. *)

From stdpp Require Import base gmap sets list strings sorting.
From Stdlib Require Import ZArith Lia Sorted.
From S2P Require Import Prelude FileType GoStd DealData DealDataFacts DealIngest DealIngestFacts DealAlloc DealAllocFacts.

Definition index_asc (a b : piece_key * piece_row) : Prop := a.1.2 <= b.1.2.

#[export] Instance index_asc_dec : RelDecision index_asc.
Proof. intros a b. unfold index_asc. apply _. Defined.

#[export] Instance index_asc_trans : Transitive index_asc.
Proof. intros a b c. unfold index_asc. lia. Qed.

#[export] Instance index_asc_total : Total index_asc.
Proof. intros a b. unfold index_asc. lia. Qed.

Definition to_deal (kr : piece_key * piece_row) : dealMetadata :=
  mkDeal kr.1.2 (op_piece_cid kr.2) (op_piece_size kr.2) (Some (op_data_url kr.2)) (op_data_headers kr.2) (Some (op_data_raw_size kr.2))
    (op_delete_on_finalize kr.2).

(** [SELECT ... WHERE sp_id = $1 AND sector_number = $2 ORDER BY piece_index ASC] *)
Definition sector_deals `{Enum} (m s : Z) (t : piece_table) : list dealMetadata := to_deal <$> merge_sort index_asc (enum (sector_rows m s t)).

Lemma with_keys_sorted (m s : Z) (l : list piece_row) : StronglySorted index_asc (with_keys m s l).
Proof.
  unfold with_keys. assert (forall n, StronglySorted index_asc (imap (fun i r => ((m, s, Z.of_nat (n + i)), r)) l)) as Hn; [|apply (Hn 0%nat)].
  induction l as [|r l IH]; intros n; [constructor|]. rewrite imap_cons. constructor.
  - specialize (IH (S n)). erewrite imap_ext; [exact IH|]. intros i x _. cbn. do 3 f_equal. lia.
  - apply Forall_forall. intros x Hx. apply list_elem_of_lookup in Hx as [i Hx]. rewrite list_lookup_imap in Hx.
    destruct (l !! i); cbn in Hx; [|done]. injection Hx as <-. unfold index_asc. cbn. lia.
Qed.

Lemma sector_deals_indexed `{Enum} (m s : Z) (t : piece_table) (l : list piece_row) : indexed m s t l -> sector_deals m s t = to_deal <$> with_keys m s l.
Proof.
  intros Hl. unfold sector_deals. f_equal. apply (StronglySorted_unique_strong index_asc).
  - intros x y Hx Hy H1 H2. rewrite merge_sort_Permutation, elem_of_enum, (rows_perm _ _ _ _ Hl) in Hx. destruct x as [kx rx], y as [ky ry].
    apply elem_of_with_keys in Hx as (i & -> & Hi), Hy as (j & -> & Hj). unfold index_asc in *. cbn in *. assert (i = j) as -> by lia. congruence.
  - apply (StronglySorted_merge_sort index_asc _).
  - apply with_keys_sorted.
  - rewrite merge_sort_Permutation, enum_perm. by apply rows_perm.
Qed.

Lemma to_deal_sizes (m s : Z) (l : list piece_row) : PieceSize <$> (to_deal <$> with_keys m s l) = op_piece_size <$> l.
Proof. rewrite <- (with_keys_snd m s l) at 2. rewrite <- !list_fmap_compose. done. Qed.

Section System.
Context `{Enum} {CID : Type} {Padded Unpadded : Z -> Z} {GetRequiredPadding : Z -> Z -> list Z * Z} `{!PieceSizes Padded Unpadded GetRequiredPadding}.
Variable PaddedSize : Z -> Z.
Variable cid_Parse : string -> option CID.
Variable ZeroPieceCommitment : Z -> CID.
Variable PieceAggregateCommP : Z -> list (Z * CID) -> option CID.
Variable SectorSize : Z -> option Z.
Variable url_Parse : string -> option (string * string).
Variable headers_ok : string -> bool.
Variable parked_piece_refs : gmap Z Z.
Variable refs_query : option sql_error.
Variable PieceReader : Z -> bool.

Let getDealMetadata := getDealMetadata Padded Unpadded GetRequiredPadding cid_Parse ZeroPieceCommitment PieceAggregateCommP SectorSize
  url_Parse headers_ok parked_piece_refs refs_query PieceReader.
Let piece_reader := piece_reader Unpadded url_Parse headers_ok parked_piece_refs refs_query PieceReader.

Definition DealDataSDRPoRep (q : option sql_error) (m s spt : Z) (commDOnly : bool) (db : ingest_db) : result (DealData (CID := CID)) deal_error * list Z :=
  match q with
  | Some e => (Err (DealSql e), [])
  | None => getDealMetadata spt (sector_deals m s (sdr_initial_pieces db)) commDOnly
  end.

Definition DealDataSnap (q : option sql_error) (m s spt : Z) (db : ingest_db) : result (DealData (CID := CID)) deal_error * list Z :=
  match q with
  | Some e => (Err (DealSql e), [])
  | None => getDealMetadata spt (sector_deals m s (snap_initial_pieces db)) false
  end.

(** ** The ingesters together *)

Variable Info_PieceCID : PieceDealInfo -> string.
Variable Info_Size : PieceDealInfo -> Z.
Variable marshal_proposal : DealProposal -> option string.
Variable marshal_manifest : PieceActivationManifest -> option string.
Variables MaxSectorNumber EpochsInDay NoAllocationID : Z.
Variable market_Address : string.
Variable cbor_Dump : Z -> option string.
(** The sector sizes of the miners. *)
Variable ssize : Z -> Z.

(** What the nodes do to the tables: pieces are allocated, sectors start to seal, numbers
    are taken, and sectors leave the pipelines with their pieces.  The ingesters know the
    sector sizes of their miners, and are given pieces with a proposal or a manifest, not
    both, and with data of at most 2^61 bytes, as all their callers do; a piece may be of
    any size. *)
Inductive ingest_step (db : ingest_db) : ingest_db -> Prop :=
| step_allocate api p maddr piece rawSize source header now f db' n sp :
    details_ok ssize p -> one_kind piece -> 0 <= rawSize <= 2 ^ 61 ->
    AllocatePieceToSector Info_PieceCID Info_Size PaddedSize Padded marshal_proposal marshal_manifest MaxSectorNumber api p maddr piece rawSize
      source header now f db = Ok (db', n, sp) -> ingest_step db db'
| step_allocate_snap api p maddr piece rawSize source header now meta f db' n sp :
    details_ok ssize p -> one_kind piece -> 0 <= rawSize <= 2 ^ 61 ->
    snap_AllocatePieceToSector Info_PieceCID Info_Size PaddedSize Padded marshal_manifest EpochsInDay NoAllocationID market_Address cbor_Dump api p maddr
      piece rawSize source header now meta f db = Ok (db', n, sp) -> ingest_step db db'
| step_seal p head now q x : ingest_step db (Seal p head now q x db).1
| step_snap_seal p head now q x : ingest_step db (snap_Seal p head now q x db).1
| step_seal_now proofs sector q x : ingest_step db (SealNow proofs sector q x db).1
| step_numbers api maddr count q x db' res :
    AllocateSectorNumbers MaxSectorNumber api maddr count q x db = Ok (db', res) -> ingest_step db db'
| step_sdr_done m s : ingest_step db (mkIngest (open_sector_pieces db) (sectors_allocated_numbers db) (delete (m, s) (sdr_pipeline db))
    (drop_sector m s (sdr_initial_pieces db)) (snap_pipeline db) (snap_initial_pieces db))
| step_snap_done m s : ingest_step db (mkIngest (open_sector_pieces db) (sectors_allocated_numbers db) (sdr_pipeline db) (sdr_initial_pieces db)
    (delete (m, s) (snap_pipeline db)) (drop_sector m s (snap_initial_pieces db))).

(** What is relied on: sector sizes are bounded, a piece is known by its proposal or
    its manifest, and data is padded to the size of a piece. *)
Class IngestEnv : Prop := {
  env_ssize : forall m, ssize m <= 2 ^ 62;
  env_proposal : forall piece dp, pi_Proposal piece = Some dp -> Info_PieceCID piece = dp_PieceCID dp /\ Info_Size piece = dp_PieceSize dp;
  env_manifest : forall piece pm, pi_Proposal piece = None -> pi_Manifest piece = Some pm -> Info_PieceCID piece = pm_CID pm /\ Info_Size piece = pm_Size pm;
  env_padded : forall x, 0 <= x <= 2 ^ 61 -> exists n, PaddedSize x = 127 * n /\ piece_size (128 * n)
}.

Context `{!IngestEnv}.
Let ingest_inv := ingest_inv (Padded := Padded) (PaddedSize := PaddedSize) ssize.

Lemma env_piece_size x : 0 <= x <= 2 ^ 61 -> piece_size (Padded (PaddedSize x)) /\ Unpadded (Padded (PaddedSize x)) = PaddedSize x.
Proof.
  intros Hx. destruct (env_padded x Hx) as (n & -> & Hn). pose proof (piece_size_pos _ Hn).
  rewrite padded_ratio by lia. split; [done|]. apply unpadded_ratio. lia.
Qed.

Lemma initial_ok_nil m : initial_ok (Padded := Padded) (PaddedSize := PaddedSize) ssize m [].
Proof. split; [done|constructor]. Qed.

Lemma ingest_step_inv (db db' : ingest_db) : ingest_inv db -> ingest_step db db' -> ingest_inv db'.
Proof.
  pose proof env_ssize as Hb. pose proof env_proposal as Hp. pose proof env_manifest as Hm. pose proof (fun x h => proj1 (env_piece_size x h)) as Hd.
  intros Hi. destruct 1.
  - by eapply (AllocatePieceToSector_inv Info_PieceCID Info_Size marshal_proposal marshal_manifest MaxSectorNumber ssize Hb Hp Hm Hd api p maddr piece).
  - by eapply (snap_AllocatePieceToSector_inv Info_PieceCID Info_Size marshal_manifest EpochsInDay NoAllocationID market_Address cbor_Dump ssize Hb Hm Hd api p maddr piece).
  - by apply Seal_inv.
  - by apply snap_Seal_inv.
  - by apply SealNow_inv.
  - match goal with E : AllocateSectorNumbers _ _ _ _ _ _ _ = _ |- _ => apply AllocateSectorNumbers_spec in E as (_ & _ & _ & _ & _ & _ & _ & _ & Eo & Es & En) end.
    destruct Hi as [H1 H2 H3]. split; [by rewrite Eo|by rewrite Es|by rewrite En].
  - destruct Hi as [H1 H2 H3]. split; cbn; [done|apply table_drop; [apply initial_ok_nil|done]|done].
  - destruct Hi as [H1 H2 H3]. split; cbn; [done|done|apply table_drop; [apply initial_ok_nil|done]].
Qed.

(** C25: in every history of the nodes (whose ingesters know the sector sizes and are given
    pieces with either a proposal or a manifest and data of at most 2^61 bytes), the tables
    of pieces keep their shape: the pieces of a sector have the indices from zero on; their
    sizes are powers of two that agree with their data, and they fit the sector together,
    except that a new sector can hold one piece that is larger than the sector, whose size
    nobody checks ([oversized_piece_accepted]), and then nothing else; no piece is there
    twice; an open sector holds pieces of one kind only, without market deals if it
    is to be upgraded; and the pieces of a sector in a pipeline are in descending
    order of their sizes. *)
Theorem ingest_tables_ok (db db' : ingest_db) : ingest_inv db -> rtc ingest_step db db' -> ingest_inv db'.
Proof. intros Hi Hr. by apply (rtc_invariant ingest_step ingest_inv ingest_step_inv db db'). Qed.

(** A row whose content identifier parses, and whose reader opens if it is needed. *)
Definition readable (commDOnly : bool) (p : dealMetadata) : Prop :=
  is_Some (cid_Parse (PieceCID p)) /\ (commDOnly = true \/ exists r, piece_reader p = Ok r).

Lemma initial_layout (t : piece_table) (m s spt k : Z) (commDOnly : bool) : table_inv (initial_ok (Padded := Padded) (PaddedSize := PaddedSize) ssize) t ->
  7 <= k <= 62 -> ssize m = 2 ^ k -> SectorSize spt = Some (2 ^ k) -> sector_deals m s t <> [] -> Forall (readable commDOnly) (sector_deals m s t) ->
  (exists p, sector_deals m s t = [p] /\ 2 ^ k < PieceSize p) \/
  laid_out cid_Parse ZeroPieceCommitment PieceAggregateCommP (Padded := Padded) (Unpadded := Unpadded) PaddedSize spt k (sector_deals m s t) commDOnly
    (getDealMetadata spt (sector_deals m s t) commDOnly).1.
Proof.
  intros Ht Hk Hm Hspt Hne Hread. destruct (Ht m s) as (l & Hl & Hok & Hs). rewrite (sector_deals_indexed m s t l Hl) in *.
  assert (l <> []) as Hln by (intros ->; done). destruct (Hok Hln) as (Hrow & [Hsum|(r & -> & Hr)] & _); [right|left; eexists; split; [done|]; rewrite <- Hm; exact Hr].
  rewrite Forall_forall in Hrow. rewrite Forall_forall in Hread.
  apply (sector_layout cid_Parse ZeroPieceCommitment PieceAggregateCommP SectorSize url_Parse headers_ok parked_piece_refs refs_query PieceReader PaddedSize spt k);
    [done|done|done| |by rewrite to_deal_sizes|].
  - apply Forall_forall. intros p Hp. destruct (Hread p Hp) as [Hc Hr]. split; [done|]. apply list_elem_of_fmap in Hp as ([key r] & -> & Hin).
    apply elem_of_with_keys in Hin as (i & _ & Hi%list_elem_of_lookup_2). destruct (Hrow r Hi) as (Hps & Hraw & Esz). split; [done|]. split; [|done].
    intros _. cbn. rewrite Esz. assert (u64 (op_data_raw_size r) = op_data_raw_size r) as -> by (apply wrap_u_small; lia).
    symmetry. by apply env_piece_size.
  - rewrite <- (Zsum_fmap id PieceSize), to_deal_sizes, Zsum_fmap, <- Hm. done.
Qed.

(** C17: what the ingesters collect for a sector is a sector: for every sector of a
    reachable state (of ingesters that know the sector sizes and are given pieces with either
    a proposal or a manifest and data of at most 2^61 bytes) that is in the sealing or in the
    snap pipeline, whose content identifiers parse and whose readers open, the assembly of
    its data puts the pieces without padding from the start of the sector and fills the
    rest, so that the parts cover the sector exactly and each is at a multiple of its size
    with a reader of its length; unless it is a sector with one piece that is larger than
    the sector, which the ingesters do not refuse. *)
Theorem ingested_sector_layout (db db' : ingest_db) (m s spt k : Z) (commDOnly : bool) : ingest_inv db -> rtc ingest_step db db' ->
  7 <= k <= 62 -> ssize m = 2 ^ k -> SectorSize spt = Some (2 ^ k) ->
  (sector_deals m s (sdr_initial_pieces db') <> [] -> Forall (readable commDOnly) (sector_deals m s (sdr_initial_pieces db')) ->
   (exists p, sector_deals m s (sdr_initial_pieces db') = [p] /\ 2 ^ k < PieceSize p) \/
   laid_out cid_Parse ZeroPieceCommitment PieceAggregateCommP (Padded := Padded) (Unpadded := Unpadded) PaddedSize spt k
     (sector_deals m s (sdr_initial_pieces db')) commDOnly (DealDataSDRPoRep None m s spt commDOnly db').1) /\
  (sector_deals m s (snap_initial_pieces db') <> [] -> Forall (readable false) (sector_deals m s (snap_initial_pieces db')) ->
   (exists p, sector_deals m s (snap_initial_pieces db') = [p] /\ 2 ^ k < PieceSize p) \/
   laid_out cid_Parse ZeroPieceCommitment PieceAggregateCommP (Padded := Padded) (Unpadded := Unpadded) PaddedSize spt k
     (sector_deals m s (snap_initial_pieces db')) false (DealDataSnap None m s spt db').1).
Proof.
  intros Hi Hr Hk Hm Hspt. apply (rtc_invariant ingest_step ingest_inv ingest_step_inv) in Hr as [_ H1 H2]; [|done].
  split; intros Hne Hread; [by apply (initial_layout (sdr_initial_pieces db'))|by apply (initial_layout (snap_initial_pieces db'))].
Qed.
End System.
