(* ===== verification/DealExamples.v ===== *)
(** * Deals of a small miner

    A miner with sectors of 2 KiB, to which the theorems on deals are applied, and
    cases in which the ingesters accept what they should not. *)

From stdpp Require Import base gmap sets list strings sorting.
From Stdlib Require Import ZArith Lia Sorted.
From S2P Require Import Prelude FileType GoStd DealData DealDataFacts DealIngest DealIngestFacts DealAlloc DealAllocFacts SectorData.

(** ** Sizes *)

Definition ex_Padded (s : Z) : Z := s + s / 127.
Definition ex_Unpadded (s : Z) : Z := s - s / 128.
Definition ex_padding (old new : Z) : list Z * Z := if old mod new =? 0 then ([], 0) else ([new - old mod new], new - old mod new).
Definition ex_PaddedSize (x : Z) : Z := 127 * 2 ^ Z.log2_up ((x + 126) / 127).

#[export] Instance ex_sizes : PieceSizes ex_Padded ex_Unpadded ex_padding.
Proof.
  split.
  - intros n Hn. unfold ex_Unpadded. Z.div_mod_to_equations. lia.
  - intros n Hn. unfold ex_Padded. Z.div_mod_to_equations. lia.
  - intros old new Hnew Hd. unfold ex_padding. by rewrite (proj2 (Z.eqb_eq _ _) (Znumtheory.Zdivide_mod _ _ Hd)).
Qed.

Lemma ex_padded x : 0 <= x <= 2 ^ 61 -> exists n, ex_PaddedSize x = 127 * n /\ piece_size (128 * n).
Proof.
  intros Hx. exists (2 ^ Z.log2_up ((x + 126) / 127)). split; [done|]. exists (7 + Z.log2_up ((x + 126) / 127)).
  assert (0 <= Z.log2_up ((x + 126) / 127) <= 55) as Hl.
  { split; [apply Z.log2_up_nonneg|]. change 55 with (Z.log2_up (2 ^ 55)). apply Z.log2_up_le_mono. Z.div_mod_to_equations. lia. }
  split; [lia|]. rewrite Z.pow_add_r by lia. done.
Qed.

(** ** A miner and its deals *)

Definition ex_info_cid (piece : PieceDealInfo) : string :=
  match pi_Proposal piece, pi_Manifest piece with Some dp, _ => dp_PieceCID dp | None, Some pm => pm_CID pm | None, None => "" end.

Definition ex_info_size (piece : PieceDealInfo) : Z :=
  match pi_Proposal piece, pi_Manifest piece with Some dp, _ => dp_PieceSize dp | None, Some pm => pm_Size pm | None, None => 0 end.

Definition ex_ssize (m : Z) : Z := 2048.

#[export] Instance ex_env : IngestEnv ex_PaddedSize ex_info_cid ex_info_size ex_ssize.
Proof.
  split; [unfold ex_ssize; lia| | |apply ex_padded].
  - intros piece dp E. unfold ex_info_cid, ex_info_size. by rewrite E.
  - intros piece pm E1 E2. unfold ex_info_cid, ex_info_size. by rewrite E1, E2.
Qed.

Definition ex_ingester : PieceIngester :=
  mkIngester {["f01000"%string := 1000]} {[1000 := mkDetails 5 3 2048]} (60 * Minute) 100.

Definition ex_active : Partition := mkPartition (fun n => Some (bool_decide (n <> 9))) (fun _ => Some true) (fun _ => Some false) (fun _ => Some false).

Definition ex_api : IngestApi :=
  mkApi (fun _ => Some {[0]}) (fun _ => Some 1000) (fun _ => Some (Some (500, 5000))) (fun _ _ => Some (Some (500, 5000))) (fun _ => Some 0) (fun a => Some a)
    (Some 1000) (fun _ => Some (mkDeadline 3 48 1010 1000 2880)) (fun _ _ => Some (7, 0)) (fun _ _ => Some [ex_active])
    (fun _ n => Some (Some (if n =? 8 then 5000 else 200000, 5))).

Definition ex_deal (cid : string) (size start fin : Z) : PieceDealInfo :=
  mkInfo (Some "bafymsg"%string) 7 (Some (mkProposal cid size false "f0200")) start fin None false.

Definition ex_ddo (cid : string) (size start fin : Z) (key : option (Z * Z)) : PieceDealInfo :=
  mkInfo None 0 None start fin (Some (mkManifest cid size key [])) true.

Definition ex_faults : alloc_faults := mkFaults None None None None None None.
Definition ex_db0 : ingest_db := mkIngest ∅ ∅ ∅ ∅ ∅ ∅.

Definition ex_allocate (piece : PieceDealInfo) (raw : Z) (db : ingest_db) : result (ingest_db * Z * Z) ingest_error :=
  AllocatePieceToSector ex_info_cid ex_info_size ex_PaddedSize ex_Padded (fun dp => Some (dp_PieceCID dp)) (fun pm => Some (pm_CID pm)) (2 ^ 63) ex_api
    ex_ingester "f01000" piece raw "pieceref:12" (Some "{}"%string) 10 ex_faults db.

Definition alloc_db (r : result (ingest_db * Z * Z) ingest_error) : ingest_db := match r with Ok (db, _, _) => db | Err _ => ex_db0 end.

Definition ex_db1 : ingest_db := alloc_db (ex_allocate (ex_deal "baga1" 256 2000 9000) 254 ex_db0).
Definition ex_db2 : ingest_db := alloc_db (ex_allocate (ex_ddo "baga2" 1024 2000 9000 None) 1000 ex_db1).
Definition ex_db3 : ingest_db := alloc_db (ex_allocate (ex_ddo "baga3" 512 2000 9000 (Some (200, 4))) 508 ex_db2).
Definition ex_db4 : ingest_db := (Seal ex_ingester (Some 1950) 20 None Applied ex_db3).1.

Abbreviation ex_step := (ingest_step (Padded := ex_Padded) ex_PaddedSize ex_info_cid ex_info_size (fun dp => Some (dp_PieceCID dp)) (fun pm => Some (pm_CID pm)) (2 ^ 63) 2880 0
  "f05" (fun _ => Some ""%string) ex_ssize).

Lemma ex_details : details_ok ex_ssize ex_ingester.
Proof. intros m d. cbn. intros [<- <-]%lookup_singleton_Some. done. Qed.

Lemma ex_step_allocate piece raw db db' n sp : one_kind piece -> 0 <= raw <= 2 ^ 61 ->
  ex_allocate piece raw db = Ok (db', n, sp) -> ex_step db db'.
Proof. intros Hk Hr E. eapply step_allocate; [apply ex_details|done|done|exact E]. Qed.

Lemma ex_history : rtc ex_step ex_db0 ex_db4.
Proof.
  apply (rtc_l _ _ ex_db1); [apply (ex_step_allocate (ex_deal "baga1" 256 2000 9000) 254 _ _ 1 5); [by right|lia|vm_compute; reflexivity]|].
  apply (rtc_l _ _ ex_db2); [apply (ex_step_allocate (ex_ddo "baga2" 1024 2000 9000 None) 1000 _ _ 1 5); [by left|lia|vm_compute; reflexivity]|].
  apply (rtc_l _ _ ex_db3); [apply (ex_step_allocate (ex_ddo "baga3" 512 2000 9000 (Some (200, 4))) 508 _ _ 1 5); [by left|lia|vm_compute; reflexivity]|].
  apply rtc_once. apply step_seal.
Qed.

Lemma ex_inv0 : ingest_inv (Padded := ex_Padded) (PaddedSize := ex_PaddedSize) ex_ssize ex_db0.
Proof.
  assert (forall ok, (forall m, ok m []) -> table_inv ok ∅) as He.
  { intros ok Hok m s. exists []. split; [|done]. intros i r. rewrite lookup_empty, lookup_nil. naive_solver. }
  split; apply He; intros m; [apply open_ok_nil|split; [done|constructor]|split; [done|constructor]].
Qed.

Lemma ex_inv3 : ingest_inv (Padded := ex_Padded) (PaddedSize := ex_PaddedSize) ex_ssize ex_db3.
Proof.
  apply (rtc_invariant ex_step (ingest_inv ex_ssize) (ingest_step_inv ex_PaddedSize ex_info_cid ex_info_size _ _ _ _ _ _ _ ex_ssize) ex_db0); [|apply ex_inv0].
  apply (rtc_l _ _ ex_db1); [apply (ex_step_allocate (ex_deal "baga1" 256 2000 9000) 254 _ _ 1 5); [by right|lia|vm_compute; reflexivity]|].
  apply (rtc_l _ _ ex_db2); [apply (ex_step_allocate (ex_ddo "baga2" 1024 2000 9000 None) 1000 _ _ 1 5); [by left|lia|vm_compute; reflexivity]|].
  apply rtc_once. apply (ex_step_allocate (ex_ddo "baga3" 512 2000 9000 (Some (200, 4))) 508 _ _ 1 5); [by left|lia|vm_compute; reflexivity].
Qed.

(** ** The theorems at this miner *)

Lemma ingest_tables_ok_witness : ingest_inv (Padded := ex_Padded) (PaddedSize := ex_PaddedSize) ex_ssize ex_db4.
Proof. exact (ingest_tables_ok ex_PaddedSize _ _ _ _ _ _ _ _ _ _ ex_db0 ex_db4 ex_inv0 ex_history). Defined.

Lemma no_piece_lost_witness : moved ex_db3 ex_db4 /\ size (open_sector_pieces ex_db3) = 3%nat /\ size (open_sector_pieces ex_db4) = 0%nat /\ size (sdr_initial_pieces ex_db4) = 3%nat.
Proof.
  split; [|vm_compute; done]. apply (no_piece_lost ex_ssize ex_ingester (Some 1950) 20 None 0 None Applied ex_db3 ex_db4 ex_inv3). left.
Defined.

(** A piece that is larger than the sector is taken into a new one. *)
Lemma oversized_piece_accepted : exists db' n sp, ex_allocate (ex_ddo "baga5" 4096 2000 9000 None) 4000 ex_db0 = Ok (db', n, sp) /\
  op_piece_size <$> open_sector_pieces db' !! (1000, n, 0) = Some 4096 /\ ex_ssize 1000 = 2048.
Proof.
  destruct (ex_allocate (ex_ddo "baga5" 4096 2000 9000 None) 4000 ex_db0) as [[[db' n] sp]|] eqn:E; [|vm_compute in E; discriminate].
  exists db', n, sp. split; [done|]. vm_compute in E. injection E as <- <- <-. split; vm_compute; reflexivity.
Qed.

Definition ex_url_Parse (u : string) : option (string * string) := if bool_decide (u = "pieceref:12"%string) then Some ("pieceref", "12")%string else None.

Abbreviation ex_laid_out := (laid_out (fun c => Some c) (fun _ => "zero"%string) (fun _ l => Some "commd"%string) (Padded := ex_Padded) (Unpadded := ex_Unpadded) ex_PaddedSize).

Lemma ingested_sector_layout_witness :
  ex_laid_out 0 11 (sector_deals 1000 1 (sdr_initial_pieces ex_db4)) false
    (DealDataSDRPoRep (Padded := ex_Padded) (Unpadded := ex_Unpadded) (GetRequiredPadding := ex_padding) (fun c => Some c) (fun _ => "zero"%string) (fun _ l => Some "commd"%string)
       (fun _ => Some 2048) ex_url_Parse (fun _ => true) {[12 := 3]} None (fun _ => true) None 1000 1 0 false ex_db4).1 /\
  PieceSize <$> sector_deals 1000 1 (sdr_initial_pieces ex_db4) = [1024; 512; 256].
Proof.
  split; [|vm_compute; reflexivity].
  pose proof (ingested_sector_layout ex_PaddedSize (fun c => Some c) (fun _ => "zero"%string) (fun _ l => Some "commd"%string) (fun _ => Some 2048) ex_url_Parse (fun _ => true) {[12 := 3]} None
    (fun _ => true) ex_info_cid ex_info_size (fun dp => Some (dp_PieceCID dp)) (fun pm => Some (pm_CID pm)) (2 ^ 63) 2880 0 "f05" (fun _ => Some ""%string) ex_ssize ex_db0 ex_db4
    1000 1 0 11 false ex_inv0 ex_history ltac:(lia) eq_refl eq_refl) as [Hl _].
  destruct Hl as [(p & E & _)|Hl]; [vm_compute; discriminate| |vm_compute in E; discriminate|exact Hl].
  assert (sector_deals 1000 1 (sdr_initial_pieces ex_db4) = [mkDeal 0 "baga2" 1024 (Some "pieceref:12"%string) "{}" (Some 1000) false;
    mkDeal 1 "baga3" 512 (Some "pieceref:12"%string) "{}" (Some 508) false; mkDeal 2 "baga1" 256 (Some "pieceref:12"%string) "{}" (Some 254) true]) as -> by (vm_compute; reflexivity).
  do 3 (apply List.Forall_cons; [split; [by eexists|right; eexists; vm_compute; reflexivity]|]). apply List.Forall_nil.
Defined.

Definition ex_meta : gmap (Z * Z) cc_row :=
  {[ (1000, 8) := mkCc 5 true true false (Some 5000) (Some 20); (1000, 9) := mkCc 5 true true false (Some 15000) (Some 20);
     (1000, 10) := mkCc 5 true true false (Some 16000) (Some 20); (1000, 11) := mkCc 5 true true false (Some 14800) (Some 4) ]}.

Definition ex_src : piece_source := mkSource "pieceref:12" "{}" 254 "{}" 10.

Definition ex_upgrade : result (ingest_db * Z * Z) ingest_error :=
  allocate_upgrade 2880 ex_api "f01000" 1000 1000 200000 (ex_ddo "baga4" 256 2000 9000 None) (mkManifest "baga4" 256 None []) ex_src ex_meta ex_faults ex_db0.

Lemma upgrade_choice_witness : exists r, ex_upgrade = Ok (alloc_db ex_upgrade, 10, 5) /\ ex_meta !! (1000, 10) = Some r /\ active_on_chain ex_api "f01000" 10 = Some true.
Proof.
  destruct (upgrade_choice 2880 ex_api "f01000" 1000 1000 200000 (ex_ddo "baga4" 256 2000 9000 None) (mkManifest "baga4" 256 None []) ex_src ex_meta
    ex_faults ex_db0 (alloc_db ex_upgrade) 10 5 (mkDeadline 3 48 1010 1000 2880)) as (r & ex & pr & Hr & _ & _ & Ha & _); [reflexivity|vm_compute; reflexivity|].
  exists r. split; [vm_compute; reflexivity|]. split; [exact Hr|exact Ha].
Defined.

(** ** What is not checked *)

(** A verified piece whose allocation has a maximal term of 5000 epochs goes into an
    open sector whose pieces live for 7000: the test asks for a lifetime below the
    minimum and above the maximum at once. *)
Lemma term_not_checked : exists sec, find_existing ex_info_cid ex_info_size (minerDetails ex_ingester !! 1000) (ex_ddo "baga3" 512 2000 9000 (Some (200, 4))) 512
    (mkVerified true 500 5000) (open_sectors false 1000 (open_sector_pieces ex_db2)) = Ok (Some sec) /\ os_latestEndEpoch sec - os_earliestStartEpoch sec = 7000.
Proof. eexists. split; vm_compute; reflexivity. Qed.

(** The latest end of an open sector is that of its first piece, not the largest. *)
Definition ex_two_ends : ingest_db :=
  alloc_db (ex_allocate (ex_ddo "baga6" 256 2000 9000 None) 254 (alloc_db (ex_allocate (ex_ddo "baga5" 256 2000 5000 None) 254 ex_db0))).

Lemma latest_end_lost : os_latestEndEpoch <$> open_sectors false 1000 (open_sector_pieces ex_two_ends) = [5000].
Proof. vm_compute. reflexivity. Qed.

(** A deal that ends after the sector does is added to an open sector that is to be
    upgraded: the sector, which expires at 5000, is only compared with the deal when
    it is opened. *)
Definition ex_snap_allocate (piece : PieceDealInfo) (db : ingest_db) : result (ingest_db * Z * Z) ingest_error :=
  snap_AllocatePieceToSector ex_info_cid ex_info_size ex_PaddedSize ex_Padded (fun pm => Some (pm_CID pm)) 2880 0 "f05" (fun _ => Some ""%string) ex_api ex_ingester "f01000" piece
    254 "pieceref:12" (Some "{}"%string) 10 ex_meta ex_faults db.

Lemma snap_expiration_not_checked :
  exists db1 db2, ex_snap_allocate (ex_ddo "baga7" 256 2000 4000 None) ex_db0 = Ok (db1, 8, 5) /\
    ex_snap_allocate (ex_ddo "baga8" 256 2000 9000 None) db1 = Ok (db2, 8, 5) /\ StateSectorGetInfo ex_api "f01000" 8 = Some (Some (5000, 5)).
Proof. do 2 eexists. split; [vm_compute; reflexivity|]. split; vm_compute; reflexivity. Qed.
