(* ===== verification/WdPostProof.v ===== *)
(** * Computing window proofs

    [tasks/window/compute_do.go] and [tasks/window/faults_simple.go]: the sectors of
    a partition that have to be proved, the vanilla proofs of their challenges, the
    proof over them, its verification before it is stored, and the check whether
    sectors can be proved again.  The chain node, the storage, the prover and the
    verifier are parameters.  A bit field is the set of its numbers; [cid.Undef] is
    the empty string, as in the library. *)

From stdpp Require Import base gmap sets list strings sorting.
From Stdlib Require Import ZArith Lia.
From S2P Require Import Prelude FileType SectorLocks GoStd StorageIndex.

(** ** Data *)

(** [miner.SectorOnChainInfo] and [proof.ExtendedSectorInfo], as far as they are read. *)
Record ExtendedSectorInfo := mkExt { xs_SectorNumber : Z; xs_SealedCID : string; xs_SealProof : Z; xs_SectorKey : option string }.

(** [proof.SectorInfo] *)
Record SectorInfo := mkSI { si_SealProof : Z; si_SectorNumber : Z; si_SealedCID : string }.

Definition no_info : SectorInfo := mkSI 0 0 "".

Record partition := mkPart { AllSectors : gset Z; LiveSectors : gset Z; FaultySectors : gset Z; RecoveringSectors : gset Z }.

Record PostSectorChallenge := mkChallenge { ch_SealProof : Z; ch_SectorNumber : Z; ch_SealedCID : string; ch_Challenge : list Z; ch_Update : bool }.

(** The result of [GenerateSingleVanillaProof]: an error, a nil slice or a slice. *)
Inductive vanilla := VanillaErr | VanillaNil | VanillaBytes (b : list Z).

Inductive post_error := ApiFailed | EmptyPartition | InvalidPartition | NoSectors | NoProofType | ProveFailed | NoProofs | RandomnessChanged | VerifyFailed
  | ProofInvalid | TooManySectors | ChallengesFailed | MergeFailed | PostPanic | PostCancelled | NoPostProof.

Definition by_sector_number (a b : ExtendedSectorInfo) : Prop := xs_SectorNumber a <= xs_SectorNumber b.

#[export] Instance by_sector_number_dec : RelDecision by_sector_number.
Proof. intros a b. unfold by_sector_number. apply _. Defined.

Section Proof.
Context `{Enum} {Proof : Type}.

(** ** Sectors to prove *)

(** [StateMinerSectors] at the tipset of the challenge. *)
Variable StateMinerSectors : gset Z -> option (list ExtendedSectorInfo).

Definition ascending (s : gset Z) : list Z := merge_sort Z.le (elements s).

Definition sector_by_number (sset : list ExtendedSectorInfo) : gmap Z ExtendedSectorInfo :=
  foldl (fun m s => <[xs_SectorNumber s := s]> m) ∅ sset.

Definition SectorsForProof (good all : gset Z) : option (list ExtendedSectorInfo) :=
  match StateMinerSectors good with
  | None => None
  | Some [] => Some []
  | Some sset => Some (omap (fun n => sector_by_number sset !! n) (ascending all))
  end.

(** ** Vanilla proofs *)

Section Vanilla.
(** The answers of the storage, by sector number, and the prover. *)
Variable GenerateSingleVanillaProof : PostSectorChallenge -> vanilla.
Variable GenerateWindowPoStWithVanilla : list Z -> list (list Z) -> nat -> option Proof.

Definition vproof_of (s : PostSectorChallenge) : list Z :=
  match GenerateSingleVanillaProof s with VanillaBytes b => b | _ => [] end.

Definition unreadable (s : PostSectorChallenge) : bool :=
  match GenerateSingleVanillaProof s with VanillaBytes _ => false | _ => true end.

(** The loop that moves the proofs over the gaps; [arr] is the array it works in. *)
Fixpoint compact (n i skippedSoFar : nat) (arr : list (list Z)) : list (list Z) * nat :=
  match n with
  | O => (arr, skippedSoFar)
  | S n =>
      match arr !! i with
      | None => (arr, skippedSoFar)
      | Some [] => compact n (S i) (S skippedSoFar) arr
      | Some v => compact n (S i) skippedSoFar (if (0 <? skippedSoFar)%nat then <[(i - skippedSoFar)%nat := v]> arr else arr)
      end
  end.

Definition compact_proofs (vproofs : list (list Z)) : list (list Z) :=
  let '(arr, skippedSoFar) := compact (length vproofs) 0 0 vproofs in take (length vproofs - skippedSoFar) arr.

(** [GenerateWindowPoStAdv]: the goroutines write to their own place of [vproofs] and
    append to [skipped] in the order in which they fail.  [cancelled] is a context
    that ends while a goroutine waits for its turn. *)
Definition GenerateWindowPoStAdv (cancelled : bool) (mid : Z) (sectors : list PostSectorChallenge) (partitionIdx : nat) (randomness : list Z) (allowSkip : bool)
    : result (option Proof) post_error * list SectorID :=
  if cancelled then (Err PostCancelled, [])
  else
    let skipped := enum ((fun s => mkSectorID mid (ch_SectorNumber s)) <$> List.filter unreadable sectors) in
    if (0 <? length skipped)%nat && negb allowSkip then (Ok None, skipped)
    else
      match GenerateWindowPoStWithVanilla randomness (compact_proofs (vproof_of <$> sectors)) partitionIdx with
      | None => (Err ProveFailed, skipped)
      | Some p => (Ok (Some p), skipped)
      end.

(** ** The proof of a partition *)

(** [builtin.PoStProofWindowPoStPartitionSectors], the challenges of the sectors and
    the merge of partition proofs. *)
Variable PartitionSectors : Z -> option Z.
Variable PoStChallenges : Z -> Z -> list Z -> list Z -> option (list Z * (Z -> list Z)).
Variable MergePartitionProofs : Z -> list (option Proof) -> option Proof.

(** [randomness[31] &= 0x3f]; the slice is a copy. *)
Definition mask_randomness (r : list Z) : option (list Z) :=
  match r !! 31%nat with None => None | Some b => Some (<[31%nat := Z.land b 63]> r) end.

Definition key_given (x : ExtendedSectorInfo) : bool := match xs_SectorKey x with Some _ => true | None => false end.

Definition challenge_of (ms : gmap Z ExtendedSectorInfo) (challenges : Z -> list Z) (n : Z) : PostSectorChallenge :=
  match ms !! n with
  | Some s => mkChallenge (xs_SealProof s) n (xs_SealedCID s) (challenges n) (key_given s)
  | None => mkChallenge 0 n "" (challenges n) false
  end.

(** [generateWindowPoSt]; it sorts the caller's slice, which is returned too. *)
Definition generateWindowPoSt (cancelled : bool) (ppt mid : Z) (sectorInfo : list ExtendedSectorInfo) (rand : list Z)
    : list ExtendedSectorInfo * result (list Proof) post_error * list SectorID :=
  match mask_randomness rand with
  | None => (sectorInfo, Err PostPanic, [])
  | Some randomness =>
      match sectorInfo with
      | [] => (sectorInfo, Err NoSectors, [])
      | _ =>
          match PartitionSectors ppt with
          | None => (sectorInfo, Err NoProofType, [])
          | Some maxPartitionSize =>
              if maxPartitionSize <=? 0 then (sectorInfo, Err PostPanic, []) else
              let partitionCount := (Z.of_nat (length sectorInfo) + maxPartitionSize - 1) / maxPartitionSize in
              if partitionCount >? 1 then (sectorInfo, Err TooManySectors, [])
              else
                let sorted := merge_sort by_sector_number sectorInfo in
                let ms := sector_by_number sorted in
                match PoStChallenges ppt mid randomness (xs_SectorNumber <$> sorted) with
                | None => (sorted, Err ChallengesFailed, [])
                | Some (nums, challenges) =>
                    let sectors := challenge_of ms challenges <$> take (Z.to_nat maxPartitionSize) nums in
                    let '(pr, sk) := GenerateWindowPoStAdv cancelled mid sectors 0 randomness true in
                    match MergePartitionProofs ppt [match pr with Ok p => p | Err _ => None end] with
                    | None => (sorted, Err MergeFailed, sk)
                    | Some p => (sorted, match pr with Ok _ => Ok [p] | Err e => Err e end, sk)
                    end
                end
          end
      end
  end.

(** ** [DoPartition] *)

Variable randomness_at : nat -> option (list Z).
Variable StateMinerPartitions : option (list partition).
(** The proof type for the network version. *)
Variable WindowPoStProof : Z -> option Z.
Variable VerifyWindowPoSt : list Z -> list Proof -> list SectorInfo -> Z -> option bool.

Record PoStPartition := mkPostPartition { pp_Index : Z; pp_Skipped : gset Z }.
Record SubmitWindowedPoStParams := mkParams { sp_Deadline : Z; sp_Partitions : list PoStPartition; sp_Proofs : list Proof }.

(** The sectors of the verification; the first sector that is not skipped stands
    in for the ones that are. *)
Definition plain_info (x : ExtendedSectorInfo) : SectorInfo := mkSI (xs_SealProof x) (xs_SectorNumber x) (xs_SealedCID x).

Definition is_skipped (mid : Z) (skipped : list SectorID) (x : ExtendedSectorInfo) : bool := bool_decide (mkSectorID mid (xs_SectorNumber x) ∈ skipped).

Fixpoint fill_infos (mid : Z) (skipped : list SectorID) (xs : list ExtendedSectorInfo) (firstStandIn : SectorInfo) : list SectorInfo * SectorInfo :=
  match xs with
  | [] => ([], firstStandIn)
  | x :: xs =>
      if is_skipped mid skipped x then
        let '(l, f) := fill_infos mid skipped xs firstStandIn in (no_info :: l, f)
      else
        let si := plain_info x in
        let '(l, f) := fill_infos mid skipped xs (if bool_decide (si_SealedCID firstStandIn = ""%string) then si else firstStandIn) in (si :: l, f)
  end.

Definition challenged_sectors (mid : Z) (skipped : list SectorID) (xs : list ExtendedSectorInfo) : list SectorInfo :=
  let '(sinfos, firstStandIn) := fill_infos mid skipped xs no_info in
  (fun si => if bool_decide (si_SealedCID si = ""%string) then firstStandIn else si) <$> sinfos.

Definition to_prove (test : bool) (p : partition) : gset Z :=
  (if test then LiveSectors p else LiveSectors p ∖ FaultySectors p) ∪ RecoveringSectors p.

(** The randomness is read before and after the proof. *)
Definition DoPartition (cancelled : bool) (deadline partIdx : Z) (mid : Z) (test : bool) : result SubmitWindowedPoStParams post_error :=
  match randomness_at 0 with
  | None => Err ApiFailed
  | Some rand =>
      match StateMinerPartitions with
      | None => Err ApiFailed
      | Some [] => Err EmptyPartition
      | Some parts =>
          match parts !! Z.to_nat partIdx with
          | None => Err InvalidPartition
          | Some p =>
              if bool_decide (LiveSectors p = ∅) then Err EmptyPartition
              else
                match SectorsForProof (to_prove test p) (AllSectors p) with
                | None => Err ApiFailed
                | Some [] => Err NoSectors
                | Some ((x0 :: _) as xs) =>
                    match WindowPoStProof (xs_SealProof x0) with
                    | None => Err NoProofType
                    | Some ppt =>
                        match generateWindowPoSt cancelled ppt mid xs rand with
                        | (_, Err PostPanic, _) => Err PostPanic
                        | (_, Err _, _) => Err ProveFailed
                        | (_, Ok [], _) => Err NoProofs
                        | (xs, Ok postOut, computeSkipped) =>
                            match randomness_at 1 with
                            | None => Err ApiFailed
                            | Some checkRand =>
                                if negb (bool_decide (checkRand = rand)) then Err RandomnessChanged
                                else
                                  match VerifyWindowPoSt checkRand postOut (challenged_sectors mid computeSkipped xs) mid with
                                  | None => Err VerifyFailed
                                  | Some false => Err ProofInvalid
                                  | Some true =>
                                      Ok (mkParams deadline [mkPostPartition partIdx (list_to_set (Number <$> computeSkipped))] postOut)
                                  end
                            end
                        end
                    end
                end
          end
      end
  end.
End Vanilla.

(** ** Checking sectors *)

(** [storiface.SectorRef] and what the fault tracker calls: a place in the queue
    before the time for the partition is over, the lock of the sector files, the
    challenges and the vanilla proof. *)
Record SectorRef := mkRef { ref_ProofType : Z; ref_ID : SectorID }.

Record tracker := mkTracker {
  got_worker : SectorID -> bool;
  StorageTryLock : SectorID -> Z -> Z -> option bool;
  fallback_challenges : SectorID -> option (list Z);
  SingleVanillaProof : Z -> PostSectorChallenge -> vanilla
}.

Inductive fault := NoWorker | NoCommR | LockError | NotLocked | NoChallenge | NoVanilla.

(** The goroutine of a sector; [rg] is the caller's [RGetter]. *)
Definition check_sector (ft : tracker) (rg : SectorID -> option (string * bool)) (s : SectorRef) : option fault :=
  if negb (got_worker ft (ref_ID s)) then Some NoWorker
  else
    match rg (ref_ID s) with
    | None => Some NoCommR
    | Some (commr, update) =>
        let toLock := if update then Z.lor FTUpdate FTUpdateCache else Z.lor FTSealed FTCache in
        match StorageTryLock ft (ref_ID s) toLock FTNone with
        | None => Some LockError
        | Some false => Some NotLocked
        | Some true =>
            match fallback_challenges ft (ref_ID s) with
            | None => Some NoChallenge
            | Some ch =>
                match SingleVanillaProof ft (Miner (ref_ID s)) (mkChallenge (ref_ProofType s) (Number (ref_ID s)) commr ch update) with
                | VanillaErr => Some NoVanilla
                | _ => None
                end
            end
        end
    end.

(** [CheckProvable]: every goroutine adds its own sector to the shared map. *)
Definition CheckProvable (ft : tracker) (rg : SectorID -> option (string * bool)) (sectors : list SectorRef) : gmap SectorID fault :=
  foldl (fun bad s => match check_sector ft rg s with Some f => <[ref_ID s := f]> bad | None => bad end) ∅ (enum sectors).

(** [RegisteredWindowPoStProof] and [ToV1_1PostProof] of the first sector. *)
Variable window_proof : Z -> option Z.

Definition sector_ref (mid : Z) (x : ExtendedSectorInfo) : SectorRef := mkRef (xs_SealProof x) (mkSectorID mid (xs_SectorNumber x)).

Definition rgetter (sectors : gmap Z ExtendedSectorInfo) (id : SectorID) : option (string * bool) :=
  (fun x => (xs_SealedCID x, key_given x)) <$> sectors !! Number id.

Definition checkSectors (mid : Z) (ft : tracker) (check : gset Z) : option (gset Z) :=
  match StateMinerSectors check with
  | None => None
  | Some [] => Some ∅
  | Some ((i0 :: _) as sectorInfos) =>
      match window_proof (xs_SealProof i0) with
      | None => None
      | Some _ =>
          let sectors := sector_by_number sectorInfos in
          let bad := CheckProvable ft (rgetter sectors) (sector_ref mid <$> sectorInfos) in
          Some (dom (foldl (fun m (b : SectorID * fault) => delete (Number b.1) m) sectors (enum (map_to_list bad))))
      end
  end.
End Proof.
