(* ===== verification/WdPostProofFacts.v ===== *)
(** * Facts about window proofs

    The compaction of the vanilla proofs is the filter it stands for; the sectors of
    a proof are those of the partition that have to be proved, in ascending order;
    parameters are only handed out for a proof the verifier accepts, with exactly the
    unreadable sectors declared as skipped; and the sectors declared as recovered are
    exactly those whose files can be read. *)

From stdpp Require Import base gmap sets list strings sorting.
From Stdlib Require Import ZArith Lia.
From S2P Require Import Prelude FileType SectorLocks GoStd StorageIndex WdPostProof.

(** ** Compaction *)

Definition nonempty (v : list Z) : bool := match v with [] => false | _ => true end.

Lemma compact_split (R F J : list (list Z)) :
  exists J', compact (length R) (length F + length J) (length J) (F ++ J ++ R) = (F ++ List.filter nonempty R ++ J', length J')
    /\ (length (List.filter nonempty R) + length J' = length R + length J)%nat.
Proof.
  revert F J. induction R as [|v R IH]; intros F J; [exists J; by rewrite app_nil_r|].
  simpl. rewrite lookup_app_r by lia. rewrite lookup_app_r by lia.
  replace (length F + length J - length F - length J)%nat with 0%nat by lia. simpl.
  destruct v as [|b v]; simpl.
  - destruct (IH F (J ++ [[]])) as (J' & HJ' & Hl). exists J'. rewrite <- HJ'.
    rewrite length_app in *. simpl in *. split; [rewrite <- app_assoc; simpl; f_equal; lia|lia].
  - destruct J as [|j J]; simpl.
    + destruct (IH (F ++ [b :: v]) []) as (J' & HJ' & Hl). exists J'.
      rewrite length_app, <- !app_assoc in HJ'. simpl in *.
      replace (S (length F + 0)) with (length F + 1 + 0)%nat by lia. rewrite HJ'. split; [done|lia].
    + destruct (IH (F ++ [b :: v]) (J ++ [b :: v])) as (J' & HJ' & Hl). exists J'.
      rewrite !length_app, <- !app_assoc in HJ'. rewrite length_app in Hl. simpl in *.
      replace (length F + S (length J) - S (length J))%nat with (length F + 0)%nat by lia. rewrite insert_app_r. simpl.
      replace (S (length F + S (length J))) with (length F + 1 + (length J + 1))%nat by lia.
      replace (S (length J)) with (length J + 1)%nat by lia. rewrite HJ'. split; [done|lia].
Qed.

Lemma compact_filter (vproofs : list (list Z)) : compact_proofs vproofs = List.filter nonempty vproofs.
Proof.
  unfold compact_proofs. destruct (compact_split vproofs [] []) as (J' & HJ' & Hl). simpl in *. rewrite HJ'.
  rewrite take_app_length'; [done|lia].
Qed.

(** ** Sectors of the verification *)

(** The first sector that is not skipped; the zero value when there is none. *)
Definition stand_in (mid : Z) (skipped : list SectorID) (xs : list ExtendedSectorInfo) : SectorInfo :=
  default no_info (plain_info <$> head (List.filter (fun x => negb (is_skipped mid skipped x)) xs)).

Lemma fill_infos_spec (mid : Z) (skipped : list SectorID) (xs : list ExtendedSectorInfo) (f : SectorInfo) :
  Forall (fun x => xs_SealedCID x <> ""%string) xs ->
  fill_infos mid skipped xs f
  = ((fun x => if is_skipped mid skipped x then no_info else plain_info x) <$> xs,
     if bool_decide (si_SealedCID f = ""%string)
     then default f (plain_info <$> head (List.filter (fun x => negb (is_skipped mid skipped x)) xs)) else f).
Proof.
  intros Hd. revert f. induction Hd as [|x xs Hx Hd IH]; intros f; simpl; [by case_bool_decide|].
  destruct (is_skipped mid skipped x) eqn:Es; simpl; [by rewrite IH|].
  destruct (bool_decide (si_SealedCID f = ""%string)) eqn:Ef; rewrite IH; simpl.
  - rewrite bool_decide_eq_false_2 by done. done.
  - by rewrite Ef.
Qed.

Lemma challenged_spec (mid : Z) (skipped : list SectorID) (xs : list ExtendedSectorInfo) :
  Forall (fun x => xs_SealedCID x <> ""%string) xs ->
  challenged_sectors mid skipped xs = (fun x => if is_skipped mid skipped x then stand_in mid skipped xs else plain_info x) <$> xs.
Proof.
  intros Hd. unfold challenged_sectors. rewrite fill_infos_spec by done. rewrite bool_decide_eq_true_2 by done. fold (stand_in mid skipped xs).
  rewrite <- list_fmap_compose. apply list_fmap_ext. intros i x Hx. simpl.
  destruct (is_skipped mid skipped x); simpl; [done|].
  rewrite Forall_forall in Hd. rewrite bool_decide_eq_false_2; [done|]. apply Hd. by eapply list_elem_of_lookup_2.
Qed.

(** ** Sectors to prove *)

Lemma sector_by_number_app (l : list ExtendedSectorInfo) (x : ExtendedSectorInfo) : sector_by_number (l ++ [x]) = <[xs_SectorNumber x := x]> (sector_by_number l).
Proof. unfold sector_by_number. by rewrite foldl_app. Qed.

Lemma sector_by_number_sound (l : list ExtendedSectorInfo) (n : Z) (x : ExtendedSectorInfo) :
  sector_by_number l !! n = Some x -> x ∈ l /\ xs_SectorNumber x = n.
Proof.
  induction l as [|y l IH] using rev_ind; [done|]. rewrite sector_by_number_app, elem_of_app, list_elem_of_singleton.
  destruct (decide (xs_SectorNumber y = n)) as [<-|Hn].
  - rewrite lookup_insert_eq. intros [= ->]. auto.
  - rewrite lookup_insert_ne by done. intros H. apply IH in H as [??]. auto.
Qed.

Lemma sector_by_number_complete (l : list ExtendedSectorInfo) (x : ExtendedSectorInfo) :
  NoDup (xs_SectorNumber <$> l) -> x ∈ l -> sector_by_number l !! xs_SectorNumber x = Some x.
Proof.
  induction l as [|y l IH] using rev_ind; [by intros _ ?%elem_of_nil|].
  rewrite fmap_app, NoDup_app, sector_by_number_app, elem_of_app, list_elem_of_singleton. intros (Hn & Hd & _) [Hx| ->].
  - destruct (decide (xs_SectorNumber y = xs_SectorNumber x)) as [E|E].
    + exfalso. apply (Hd (xs_SectorNumber x)); [by apply list_elem_of_fmap_2|]. rewrite <- E. by apply list_elem_of_singleton.
    + rewrite lookup_insert_ne by done. auto.
  - by rewrite lookup_insert_eq.
Qed.

Lemma ascending_sorted (s : gset Z) : StronglySorted Z.lt (ascending s).
Proof.
  assert (NoDup (ascending s)) as Hn by (unfold ascending; rewrite merge_sort_Permutation; apply NoDup_elements).
  assert (StronglySorted Z.le (ascending s)) as Hs by (apply StronglySorted_merge_sort; intros a b; lia).
  induction Hs as [|a l Hs IH Ha]; [constructor|]. apply NoDup_cons in Hn as [Hal Hn].
  constructor; [auto|]. rewrite Forall_forall in Ha |- *. intros b Hb. specialize (Ha b Hb).
  assert (a <> b) by (intros ->; done). lia.
Qed.

Lemma elem_of_ascending (s : gset Z) (n : Z) : n ∈ ascending s <-> n ∈ s.
Proof. unfold ascending. rewrite merge_sort_Permutation. apply elem_of_elements. Qed.

Lemma omap_numbers_sorted (l : list ExtendedSectorInfo) (ns : list Z) :
  StronglySorted Z.lt ns -> StronglySorted (fun a b => xs_SectorNumber a < xs_SectorNumber b) (omap (fun n => sector_by_number l !! n) ns).
Proof.
  induction 1 as [|n ns Hs IH Hn]; [constructor|]. simpl. destruct (sector_by_number l !! n) as [x|] eqn:E; [|done].
  constructor; [done|]. apply sector_by_number_sound in E as [_ <-]. rewrite Forall_forall in Hn. rewrite Forall_forall.
  intros y (n' & Hn' & Hy)%list_elem_of_omap. apply sector_by_number_sound in Hy as [_ <-]. auto.
Qed.

Lemma omap_no_sectors (ns : list Z) : omap (fun n => sector_by_number [] !! n) ns = [].
Proof. induction ns as [|n ns IH]; [done|]. simpl. destruct (sector_by_number [] !! n) eqn:E; [by apply sector_by_number_sound in E as [?%elem_of_nil _]|exact IH]. Qed.

Lemma sort_sorted (xs : list ExtendedSectorInfo) :
  StronglySorted (fun a b => xs_SectorNumber a < xs_SectorNumber b) xs -> merge_sort by_sector_number xs = xs.
Proof.
  intros Hs. apply (StronglySorted_unique_strong by_sector_number).
  - intros a b Ha Hb Hab Hba. unfold by_sector_number in *. rewrite merge_sort_Permutation in Ha.
    assert (xs_SectorNumber a = xs_SectorNumber b) as E by lia. clear Hab Hba.
    induction Hs as [|c l Hs IH Hc]; [by apply elem_of_nil in Ha|]. rewrite Forall_forall in Hc.
    apply elem_of_cons in Ha as [->|Ha], Hb as [->|Hb]; [done|specialize (Hc b Hb); simpl in Hc; lia|specialize (Hc a Ha); simpl in Hc; lia|auto].
  - apply StronglySorted_merge_sort; [intros a b c|intros a b]; unfold by_sector_number; lia.
  - clear -Hs. induction Hs as [|c l Hs IH Hc]; constructor; [done|]. eapply Forall_impl; [exact Hc|]. unfold by_sector_number. simpl. lia.
  - apply merge_sort_Permutation.
Qed.

(** ** The proof of a partition *)

Section Partition.
Context `{Enum} {Proof : Type}.
Variable StateMinerSectors : gset Z -> option (list ExtendedSectorInfo).

(** [StateMinerSectors] answers with different sectors of the given set, which have
    a sealed CID. *)
Definition sectors_honest : Prop := forall (bf : gset Z) (l : list ExtendedSectorInfo), StateMinerSectors bf = Some l ->
  NoDup (xs_SectorNumber <$> l) /\ Forall (fun x => xs_SectorNumber x ∈ bf /\ xs_SealedCID x <> ""%string) l.

Lemma SectorsForProof_spec (good all : gset Z) (xs : list ExtendedSectorInfo) :
  sectors_honest -> SectorsForProof StateMinerSectors good all = Some xs ->
  StronglySorted (fun a b => xs_SectorNumber a < xs_SectorNumber b) xs
  /\ (exists sset, StateMinerSectors good = Some sset /\ forall x, x ∈ xs <-> x ∈ sset /\ xs_SectorNumber x ∈ all)
  /\ Forall (fun x => xs_SealedCID x <> ""%string) xs.
Proof.
  intros Hh. unfold SectorsForProof. destruct (StateMinerSectors good) as [sset|] eqn:E; [|done].
  destruct (Hh _ _ E) as [Hn Hf]. rewrite Forall_forall in Hf. intros Hx.
  assert (xs = omap (fun n => sector_by_number sset !! n) (ascending all)) as -> by (destruct sset; [injection Hx as <-; by rewrite omap_no_sectors|congruence]).
  clear Hx. split; [apply omap_numbers_sorted, ascending_sorted|].
  assert (forall x, x ∈ omap (fun n => sector_by_number sset !! n) (ascending all) <-> x ∈ sset /\ xs_SectorNumber x ∈ all) as Hin.
  { intros x. rewrite list_elem_of_omap. setoid_rewrite elem_of_ascending. split.
    - intros (n & Hall & Hs). apply sector_by_number_sound in Hs as [? <-]. done.
    - intros [Hs Hall]. exists (xs_SectorNumber x). split; [done|]. by apply sector_by_number_complete. }
  split; [by exists sset|]. rewrite Forall_forall. intros x [Hs _]%Hin. by apply Hf.
Qed.

Variable GenerateSingleVanillaProof : PostSectorChallenge -> vanilla.
Variable GenerateWindowPoStWithVanilla : list Z -> list (list Z) -> nat -> option Proof.
Variable PartitionSectors : Z -> option Z.
Variable PoStChallenges : Z -> Z -> list Z -> list Z -> option (list Z * (Z -> list Z)).
Variable MergePartitionProofs : Z -> list (option Proof) -> option Proof.

(** What the prover is given and what comes back: [sk] are the numbers of the
    challenged sectors without a vanilla proof, the prover gets the proofs of the
    others in the order of the challenges. *)
Definition proved_with (ppt mid : Z) (rand : list Z) (xs : list ExtendedSectorInfo) (sk : gset Z) (proofs : list Proof) : Prop :=
  exists masked maxPartitionSize nums challenges p0 p,
    mask_randomness rand = Some masked
    /\ PartitionSectors ppt = Some maxPartitionSize /\ Z.of_nat (length xs) <= maxPartitionSize
    /\ PoStChallenges ppt mid masked (xs_SectorNumber <$> xs) = Some (nums, challenges)
    /\ (let sectors := challenge_of (sector_by_number xs) challenges <$> take (Z.to_nat maxPartitionSize) nums in
        sk = list_to_set (ch_SectorNumber <$> List.filter (unreadable GenerateSingleVanillaProof) sectors)
        /\ GenerateWindowPoStWithVanilla masked (List.filter nonempty (vproof_of GenerateSingleVanillaProof <$> sectors)) 0 = Some p0)
    /\ MergePartitionProofs ppt [Some p0] = Some p /\ proofs = [p].

Lemma GenerateWindowPoStAdv_spec (cancelled : bool) (mid : Z) (sectors : list PostSectorChallenge) (idx : nat) (rand : list Z) (r : option Proof) (sk : list SectorID) :
  GenerateWindowPoStAdv GenerateSingleVanillaProof GenerateWindowPoStWithVanilla cancelled mid sectors idx rand true = (Ok r, sk) ->
  sk ≡ₚ (fun s => mkSectorID mid (ch_SectorNumber s)) <$> List.filter (unreadable GenerateSingleVanillaProof) sectors
  /\ exists p, r = Some p /\ GenerateWindowPoStWithVanilla rand (List.filter nonempty (vproof_of GenerateSingleVanillaProof <$> sectors)) idx = Some p.
Proof.
  unfold GenerateWindowPoStAdv. destruct cancelled; [done|]. rewrite andb_false_r, compact_filter.
  destruct (GenerateWindowPoStWithVanilla _ _ _) as [p|] eqn:E; [|done]. intros [= <- <-].
  split; [apply enum_perm|eauto].
Qed.

Lemma generateWindowPoSt_spec (cancelled : bool) (ppt mid : Z) (xs sorted : list ExtendedSectorInfo) (rand : list Z) (proofs : list Proof) (sk : list SectorID) :
  StronglySorted (fun a b => xs_SectorNumber a < xs_SectorNumber b) xs ->
  generateWindowPoSt GenerateSingleVanillaProof GenerateWindowPoStWithVanilla PartitionSectors PoStChallenges MergePartitionProofs cancelled ppt mid xs rand
  = (sorted, Ok proofs, sk) ->
  sorted = xs /\ Forall (fun s => Miner s = mid) sk /\ proved_with ppt mid rand xs (list_to_set (Number <$> sk)) proofs.
Proof.
  intros Hs. unfold generateWindowPoSt, proved_with. destruct (mask_randomness rand) as [masked|]; [|done].
  destruct xs as [|x0 xs']; [done|]. set (xs := x0 :: xs') in *. destruct (PartitionSectors ppt) as [mx|]; [|done].
  destruct (mx <=? 0) eqn:E0; [done|]. destruct (_ >? 1) eqn:Ec; [done|].
  rewrite sort_sorted by done. destruct (PoStChallenges _ _ _ _) as [[nums challenges]|] eqn:Ep; [|done].
  destruct (GenerateWindowPoStAdv _ _ _ _ _ _ _ _) as [pr sk'] eqn:Ea.
  destruct (MergePartitionProofs _ _) as [p|] eqn:Em; [|done]. destruct pr as [r|e]; [|done]. intros [= <- <- <-].
  apply GenerateWindowPoStAdv_spec in Ea as (Hsk & p0 & -> & Hp0). split; [done|]. split.
  { rewrite Hsk, Forall_fmap. apply Forall_true. done. }
  exists masked, mx, nums, challenges, p0, p. repeat split; try done.
  - rewrite Z.gtb_ltb, Z.ltb_ge in Ec. apply Z.leb_gt in E0. revert Ec. Z.div_mod_to_equations. nia.
  - rewrite Hsk, <- list_fmap_compose. done.
Qed.

Variable randomness_at : nat -> option (list Z).
Variable StateMinerPartitions : option (list partition).
Variable WindowPoStProof : Z -> option Z.
Variable VerifyWindowPoSt : list Z -> list Proof -> list SectorInfo -> Z -> option bool.

(** The sector the chain uses in the place of the skipped ones. *)
Definition chain_stand_in (sk : gset Z) (xs : list ExtendedSectorInfo) : SectorInfo :=
  default no_info (plain_info <$> head (List.filter (fun x => negb (bool_decide (xs_SectorNumber x ∈ sk))) xs)).

(** The sectors a proof with the skipped sectors [sk] is checked against. *)
Definition chain_sectors (sk : gset Z) (xs : list ExtendedSectorInfo) : list SectorInfo :=
  (fun x => if bool_decide (xs_SectorNumber x ∈ sk) then chain_stand_in sk xs else plain_info x) <$> xs.

Lemma is_skipped_set (mid : Z) (sk : list SectorID) (x : ExtendedSectorInfo) :
  Forall (fun s => Miner s = mid) sk ->
  is_skipped mid sk x = bool_decide (xs_SectorNumber x ∈ (list_to_set (Number <$> sk) : gset Z)).
Proof.
  intros Hm. apply bool_decide_ext. rewrite elem_of_list_to_set, list_elem_of_fmap. split.
  - intros Hx. by exists (mkSectorID mid (xs_SectorNumber x)).
  - intros ([m n] & -> & Hs). rewrite Forall_forall in Hm. by rewrite <- (Hm _ Hs).
Qed.

Lemma challenged_chain (mid : Z) (sk : list SectorID) (xs : list ExtendedSectorInfo) :
  Forall (fun s => Miner s = mid) sk -> Forall (fun x => xs_SealedCID x <> ""%string) xs ->
  challenged_sectors mid sk xs = chain_sectors (list_to_set (Number <$> sk)) xs.
Proof.
  intros Hm Hd. rewrite challenged_spec by done. unfold chain_sectors, stand_in, chain_stand_in.
  rewrite (filter_ext _ (fun x => negb (bool_decide (xs_SectorNumber x ∈ (list_to_set (Number <$> sk) : gset Z)))))
    by (intros x; by rewrite (is_skipped_set mid)).
  apply list_fmap_ext. intros i x _. by rewrite (is_skipped_set mid).
Qed.

(** C19: a window proof is only handed out when it is sound: [DoPartition] returns
    parameters only if the randomness read before and after proving is the same, the
    sectors are the ones of the partition that the chain wants proved (live and not
    faulty, or recovering; in a test run all live ones), in ascending order without
    repetition and within the size of a partition, the prover was given the vanilla
    proofs of the challenged sectors that could be read, in the order of the
    challenges, the others are exactly the set of skipped sectors in the parameters,
    and the verifier accepted the proof for that randomness against the sectors the
    chain will use, the first sector that is not skipped standing in for the skipped
    ones. *)
Theorem window_proof_sound (cancelled : bool) (deadline partIdx mid : Z) (test : bool) (params : SubmitWindowedPoStParams) :
  sectors_honest ->
  DoPartition StateMinerSectors GenerateSingleVanillaProof GenerateWindowPoStWithVanilla PartitionSectors PoStChallenges MergePartitionProofs
    randomness_at StateMinerPartitions WindowPoStProof VerifyWindowPoSt cancelled deadline partIdx mid test = Ok params ->
  exists rand parts p sset xs sk ppt,
    randomness_at 0 = Some rand /\ randomness_at 1 = Some rand
    /\ StateMinerPartitions = Some parts /\ parts !! Z.to_nat partIdx = Some p
    /\ StateMinerSectors (to_prove test p) = Some sset
    /\ StronglySorted (fun a b => xs_SectorNumber a < xs_SectorNumber b) xs
    /\ (forall x, x ∈ xs <-> x ∈ sset /\ xs_SectorNumber x ∈ AllSectors p)
    /\ proved_with ppt mid rand xs sk (sp_Proofs params)
    /\ sp_Deadline params = deadline /\ sp_Partitions params = [mkPostPartition partIdx sk]
    /\ VerifyWindowPoSt rand (sp_Proofs params) (chain_sectors sk xs) mid = Some true.
Proof.
  intros Hh. unfold DoPartition. destruct (randomness_at 0) as [rand|] eqn:E0; [|done].
  destruct StateMinerPartitions as [[|p0 parts']|]; [done| |done]. set (parts := p0 :: parts').
  destruct (parts !! Z.to_nat partIdx) as [p|] eqn:Ep; [|done]. case_bool_decide; [done|].
  destruct (SectorsForProof _ _ _) as [[|x0 xs']|] eqn:Ex; [done| |done]. set (xs := x0 :: xs') in *.
  apply SectorsForProof_spec in Ex as (Hs & (sset & Hset & Hin) & Hd); [|done].
  destruct (WindowPoStProof _) as [ppt|]; [|done].
  destruct (generateWindowPoSt _ _ _ _ _ _ _ _ _ _) as [[xs2 [postOut|e]] sk] eqn:Eg; [|destruct e; done].
  apply generateWindowPoSt_spec in Eg as (-> & Hm & Hp); [|done]. destruct postOut as [|pr prs]; [done|].
  destruct (randomness_at 1) as [checkRand|] eqn:E1; [|done]. destruct (bool_decide (checkRand = rand)) eqn:Er; [|done].
  apply bool_decide_eq_true in Er as ->. simpl. rewrite challenged_chain by done.
  destruct (VerifyWindowPoSt _ _ _ _) as [[]|] eqn:Ev; [|done|done]. intros [= <-].
  exists rand, parts, p, sset, xs, (list_to_set (Number <$> sk)), ppt. done.
Qed.
End Partition.

(** ** Checking sectors *)

Section Check.
Context `{Enum}.
Variable StateMinerSectors : gset Z -> option (list ExtendedSectorInfo).
Variable window_proof : Z -> option Z.
Variable ft : tracker.

Lemma elem_of_CheckProvable (rg : SectorID -> option (string * bool)) (sectors : list SectorRef) (id : SectorID) :
  id ∈ dom (CheckProvable ft rg sectors) <-> exists s, s ∈ sectors /\ ref_ID s = id /\ is_Some (check_sector ft rg s).
Proof.
  unfold CheckProvable. setoid_rewrite <- (enum_perm sectors) at 2. induction (enum sectors) as [|s l IH] using rev_ind.
  - simpl. rewrite dom_empty. split; [set_solver|]. by intros (? & ?%elem_of_nil & _).
  - rewrite foldl_app. simpl. setoid_rewrite elem_of_app. setoid_rewrite list_elem_of_singleton.
    destruct (check_sector ft rg s) as [f|] eqn:E.
    + rewrite dom_insert, elem_of_union, elem_of_singleton, IH. split.
      * intros [->|(s' & ? & ? & ?)]; [exists s; rewrite E; eauto|eauto].
      * intros (s' & [?| ->] & ? & ?); [right; eauto|by left].
    + rewrite IH. split; [intros (s' & ? & ? & ?); eauto|]. intros (s' & [?| ->] & ? & Hs); [eauto|]. rewrite E in Hs. by destruct Hs.
Qed.

Lemma elem_of_delete_all (m : gmap Z ExtendedSectorInfo) (l : list (SectorID * fault)) (n : Z) :
  n ∈ dom (foldl (fun m (b : SectorID * fault) => delete (Number b.1) m) m l) <-> n ∈ dom m /\ n ∉ (fun b => Number b.1) <$> l.
Proof.
  revert m. induction l as [|b l IH]; intros m; simpl; [split; [intros ?; split; [done|by intros ?%elem_of_nil]|by intros [? _]]|].
  rewrite IH, dom_delete, elem_of_difference, elem_of_singleton, not_elem_of_cons. tauto.
Qed.

(** The files of a sector can be read for a challenge. *)
Definition provable (mid : Z) (x : ExtendedSectorInfo) : Prop :=
  let id := mkSectorID mid (xs_SectorNumber x) in
  got_worker ft id = true
  /\ StorageTryLock ft id (if key_given x then Z.lor FTUpdate FTUpdateCache else Z.lor FTSealed FTCache) FTNone = Some true
  /\ exists ch, fallback_challenges ft id = Some ch
       /\ SingleVanillaProof ft mid (mkChallenge (xs_SealProof x) (xs_SectorNumber x) (xs_SealedCID x) ch (key_given x)) <> VanillaErr.

Lemma check_sector_provable (mid : Z) (sset : list ExtendedSectorInfo) (x : ExtendedSectorInfo) :
  NoDup (xs_SectorNumber <$> sset) -> x ∈ sset ->
  check_sector ft (rgetter (sector_by_number sset)) (sector_ref mid x) = None <-> provable mid x.
Proof.
  intros Hn Hx. unfold check_sector, provable, sector_ref, rgetter. cbn [ref_ID ref_ProofType Number Miner].
  rewrite sector_by_number_complete by done. cbn [fmap option_fmap option_map].
  destruct (got_worker ft _); simpl; [|naive_solver]. destruct (StorageTryLock ft _ _ _) as [[]|]; [|naive_solver..].
  destruct (fallback_challenges ft _) as [ch|]; [|naive_solver].
  destruct (SingleVanillaProof ft _ _) eqn:E; naive_solver congruence.
Qed.

(** sectors are declared recovered exactly when they can be proved: the result of
    [checkSectors] are the numbers of the sectors of the given set that the chain
    knows, whose files could be locked for reading (the update files for an upgraded
    sector, the sealed ones otherwise) and for which a vanilla proof of a random
    challenge was produced, whatever the order in which the checks finish. *)
Theorem recovered_exact (mid : Z) (check good : gset Z) :
  sectors_honest StateMinerSectors -> checkSectors StateMinerSectors window_proof mid ft check = Some good ->
  exists sset, StateMinerSectors check = Some sset
    /\ good ⊆ check
    /\ forall n, n ∈ good <-> exists x, x ∈ sset /\ xs_SectorNumber x = n /\ provable mid x.
Proof.
  intros Hh. unfold checkSectors. destruct (StateMinerSectors check) as [sset|] eqn:E; [|done]. intros Hg. exists sset.
  destruct (Hh _ _ E) as [Hn Hf]. rewrite Forall_forall in Hf.
  assert (forall n, n ∈ good <-> exists x, x ∈ sset /\ xs_SectorNumber x = n /\ provable mid x) as Hgood.
  2: { split; [done|]. split; [|done]. intros n (x & Hx & <- & _)%Hgood. by apply Hf. }
  destruct sset as [|i0 sset']; [injection Hg as <-; intros n; split; [set_solver|by intros (? & ?%elem_of_nil & _)]|].
  set (sset := i0 :: sset') in *. destruct (window_proof _); [|done]. injection Hg as <-. intros n.
  rewrite elem_of_delete_all, elem_of_dom. rewrite list_elem_of_fmap. split.
  - intros [[x Hx] Hb]. apply sector_by_number_sound in Hx as [Hx <-]. exists x. split; [done|]. split; [done|].
    apply (check_sector_provable mid sset); [done..|]. apply eq_None_not_Some. intros Hs. apply Hb.
    assert (mkSectorID mid (xs_SectorNumber x) ∈ dom (CheckProvable ft (rgetter (sector_by_number sset)) (sector_ref mid <$> sset))) as Hd.
    { apply elem_of_CheckProvable. exists (sector_ref mid x). split; [by apply list_elem_of_fmap_2|done]. }
    apply elem_of_dom in Hd as [f Hd]. exists (mkSectorID mid (xs_SectorNumber x), f). split; [done|].
    rewrite enum_perm. by apply elem_of_map_to_list.
  - intros (x & Hx & <- & Hp). split; [rewrite sector_by_number_complete by done; eauto|].
    intros ([id f] & Hid & Hb). simpl in Hid. rewrite enum_perm in Hb. apply elem_of_map_to_list in Hb.
    assert (id ∈ dom (CheckProvable ft (rgetter (sector_by_number sset)) (sector_ref mid <$> sset))) as Hd by (apply elem_of_dom; eauto).
    apply elem_of_CheckProvable in Hd as (s & (y & -> & Hy)%list_elem_of_fmap & <- & Hs). simpl in Hid.
    assert (x = y) as <- by (apply (f_equal Some) in Hid; assert (sector_by_number sset !! xs_SectorNumber x = Some x) by (by apply sector_by_number_complete);
      assert (sector_by_number sset !! xs_SectorNumber y = Some y) by (by apply sector_by_number_complete); congruence).
    apply (check_sector_provable mid sset) in Hp; [|done..]. rewrite Hp in Hs. by destruct Hs.
Qed.
End Check.
