(* ===== verification/CtlAddr.v ===== *)
(** * Addresses that send messages

    [lib/multictladdr]: which of the control addresses of a miner sends a message of a
    given kind, by the configuration of the node, and [preparePoStMessage] of
    [tasks/window/submit_task.go], which estimates the gas of a message and picks its
    sender.  The chain node and the choice among addr_candidates (by balance and key, in
    the chain library) are parameters. *)

From stdpp Require Import base gmap sets list strings.
From Stdlib Require Import ZArith Lia.
From S2P Require Import Prelude GoStd.

(** ** Data *)

(** [types.Message] as far as it is set here, and [api.MinerInfo]. *)
Record chain_message := mkMessage { From : string; To : string; Method : Z; Params : list Z; Value : Z; GasLimit : Z; GasFeeCap : Z; GasPremium : Z }.
Record MinerInfo := mkMinerInfo { Owner : string; Worker : string; ControlAddresses : list string }.

Record AddressConfig := mkAddressConfig {
  PreCommitControl : list string; CommitControl : list string; TerminateControl : list string; DealPublishControl : list string;
  DisableOwnerFallback : bool; DisableWorkerFallback : bool }.

Inductive AddrUse := PreCommitAddr | CommitAddr | DealPublishAddr | PoStAddr | TerminateSectorsAddr.

(** The section [Addresses] of the configuration, with addresses as text. *)
Record CurioAddresses := mkCurioAddresses {
  ca_PreCommitControl : list string; ca_CommitControl : list string; ca_DealPublishControl : list string; ca_TerminateControl : list string;
  ca_DisableOwnerFallback : bool; ca_DisableWorkerFallback : bool; ca_MinerAddresses : list string }.

(** ** The map of the selector *)

Section Selector.
(** [address.NewFromString] *)
Variable NewFromString : string -> option string.

Definition miner_config (c : CurioAddresses) : option AddressConfig :=
  match mapM NewFromString (ca_PreCommitControl c), mapM NewFromString (ca_CommitControl c),
        mapM NewFromString (ca_DealPublishControl c), mapM NewFromString (ca_TerminateControl c) with
  | Some pc, Some cc, Some dp, Some tc => Some (mkAddressConfig pc cc tc dp (ca_DisableOwnerFallback c) (ca_DisableWorkerFallback c))
  | _, _, _, _ => None
  end.

Fixpoint add_miners_of (c : CurioAddresses) (miners : list string) (m : gmap string AddressConfig) : gmap string AddressConfig * bool :=
  match miners with
  | [] => (m, true)
  | minerID :: miners =>
      match miner_config c with
      | None => (m, false)
      | Some tmp => match NewFromString minerID with None => (m, false) | Some a => add_miners_of c miners (<[a := tmp]> m) end
      end
  end.

(** [makeMinerMap], at the start and whenever the configuration changes: the map keeps
    what was in it, and what was added before an address that cannot be parsed. *)
Fixpoint makeMinerMap (confs : list CurioAddresses) (m : gmap string AddressConfig) : gmap string AddressConfig * bool :=
  match confs with
  | [] => (m, true)
  | c :: confs => match add_miners_of c (ca_MinerAddresses c) m with (m, false) => (m, false) | (m, true) => makeMinerMap confs m end
  end.
End Selector.

(** ** The choice *)

Section Messages.
Context `{Enum}.
(** The protocol of an address, [StateLookupID] and [ctladdr.PickAddress]. *)
Variable is_id : string -> bool.
Variable StateLookupID : string -> option string.
Variable PickAddress : MinerInfo -> Z -> Z -> list string -> option (string * Z).

(** The control addresses of the miner nobody configured for another use. *)
Definition default_control (tmp : AddressConfig) (mi : MinerInfo) : gset string :=
  let defaultCtl := (list_to_set (ControlAddresses mi) : gset string) ∖ {[Owner mi]} ∖ {[Worker mi]} in
  let configCtl := PreCommitControl tmp ++ CommitControl tmp ++ TerminateControl tmp ++ DealPublishControl tmp in
  foldl (fun ctl addr => match (if is_id addr then Some addr else StateLookupID addr) with Some a => ctl ∖ {[a]} | None => ctl end) defaultCtl configCtl.

Definition use_addresses (tmp : AddressConfig) (mi : MinerInfo) (use : AddrUse) : list string :=
  match use with
  | PreCommitAddr => PreCommitControl tmp
  | CommitAddr => CommitControl tmp
  | TerminateSectorsAddr => TerminateControl tmp
  | DealPublishAddr => DealPublishControl tmp
  | PoStAddr => enum (elements (default_control tmp mi))
  end.

Definition addr_candidates (tmp : AddressConfig) (mi : MinerInfo) (use : AddrUse) : list string :=
  let addrs := use_addresses tmp mi use in
  let addrs := if (length addrs =? 0)%nat || negb (DisableWorkerFallback tmp) then addrs ++ [Worker mi] else addrs in
  if negb (DisableOwnerFallback tmp) then addrs ++ [Owner mi] else addrs.

(** [AddressFor]; the selector can be nil. *)
Definition AddressFor (as_ : option (gmap string AddressConfig)) (minerID : string) (mi : MinerInfo) (use : AddrUse) (goodFunds minFunds : Z) : option (string * Z) :=
  match as_ with
  | None => Some (Worker mi, 0)
  | Some minerMap =>
      match minerMap !! minerID with
      | None => Some (Worker mi, 0)
      | Some tmp => PickAddress mi goodFunds minFunds (addr_candidates tmp mi use)
      end
  end.

(** The gas estimates of the chain node and the funds of a message. *)
Variable StateMinerInfo : string -> option MinerInfo.
Variable GasEstimateMessageGas : chain_message -> Z -> option chain_message.
Variable GasEstimateGasPremium : Z -> string -> Z -> option Z.
Variable GasEstimateFeeCap : chain_message -> Z -> option Z.
Variable RequiredFunds : chain_message -> Z.

Definition with_from (m : chain_message) (a : string) : chain_message := mkMessage a (To m) (Method m) (Params m) (Value m) (GasLimit m) (GasFeeCap m) (GasPremium m).
Definition with_gas (m : chain_message) (feeCap premium : Z) : chain_message := mkMessage (From m) (To m) (Method m) (Params m) (Value m) (GasLimit m) feeCap premium.

(** [preparePoStMessage]: the message and its highest fee. *)
Definition preparePoStMessage (as_ : option (gmap string AddressConfig)) (maddr : string) (msg : chain_message) (maxFee : Z) : option (chain_message * Z) :=
  match StateMinerInfo maddr with
  | None => None
  | Some mi =>
      match GasEstimateMessageGas (with_from msg (Worker mi)) maxFee with
      | None => None
      | Some msg =>
          let premium := default (GasPremium msg) (GasEstimateGasPremium 5 (From msg) (GasLimit msg)) in
          let minGasFeeMsg := with_gas msg (GasFeeCap msg) premium in
          let feeCap := default (GasFeeCap msg) (GasEstimateFeeCap minGasFeeMsg 4) in
          let minGasFeeMsg := with_gas msg feeCap premium in
          let goodFunds := RequiredFunds minGasFeeMsg + Value minGasFeeMsg in
          let minFunds := Z.min (RequiredFunds minGasFeeMsg + Value minGasFeeMsg) goodFunds in
          match AddressFor as_ maddr mi PoStAddr goodFunds minFunds with
          | None => None
          | Some (from, _) => Some (with_from msg from, maxFee)
          end
      end
  end.
End Messages.

(** ** Facts *)

Section CtlFacts.
Context `{Enum}.
Variable is_id : string -> bool.
Variable StateLookupID : string -> option string.
Variable NewFromString : string -> option string.

(** There is always a candidate. *)
Lemma candidates_nonempty (tmp : AddressConfig) (mi : MinerInfo) (use : AddrUse) : addr_candidates is_id StateLookupID tmp mi use <> [].
Proof.
  unfold addr_candidates. destruct (use_addresses _ _ _ _ _) as [|a l]; simpl; [by destruct (DisableOwnerFallback tmp)|].
  destruct (DisableWorkerFallback tmp), (DisableOwnerFallback tmp); done.
Qed.

Definition configured (tmp : AddressConfig) : list string := PreCommitControl tmp ++ CommitControl tmp ++ TerminateControl tmp ++ DealPublishControl tmp.

Definition resolve (addr : string) : option string := if is_id addr then Some addr else StateLookupID addr.

Lemma elem_of_default_control (tmp : AddressConfig) (mi : MinerInfo) (a : string) :
  a ∈ default_control is_id StateLookupID tmp mi
  <-> a ∈ ControlAddresses mi /\ a <> Owner mi /\ a <> Worker mi /\ forall c, c ∈ configured tmp -> resolve c <> Some a.
Proof.
  unfold default_control. fold (configured tmp).
  assert (forall (l : list string) (s : gset string),
    a ∈ foldl (fun ctl addr => match (if is_id addr then Some addr else StateLookupID addr) with Some a => ctl ∖ {[a]} | None => ctl end) s l
    <-> a ∈ s /\ forall c, c ∈ l -> resolve c <> Some a) as Hfold.
  { induction l as [|c l IH]; intros s; simpl; [split; [intros ?; split; [done|by intros ? ?%elem_of_nil]|by intros [? _]]|].
    rewrite IH. fold (resolve c). setoid_rewrite elem_of_cons. destruct (resolve c) as [b|] eqn:E.
    - rewrite elem_of_difference, elem_of_singleton. split.
      + intros [[Hs Hb] Hl]. split; [done|]. intros c' [->|Hc']; [congruence|auto].
      + intros [Hs Hl]. split; [split; [done|]|by eauto]. intros ->. by apply (Hl c); [left|].
    - split; intros [Hs Hl]; (split; [done|]); [intros c' [->|Hc']; [congruence|auto]|eauto]. }
  rewrite Hfold, !elem_of_difference, !elem_of_singleton, elem_of_list_to_set. tauto.
Qed.

(** An address configured for other messages never sends window proofs, unless it is
    the worker or the owner. *)
Lemma post_candidates (tmp : AddressConfig) (mi : MinerInfo) (a : string) :
  a ∈ addr_candidates is_id StateLookupID tmp mi PoStAddr -> a <> Worker mi -> a <> Owner mi ->
  a ∈ ControlAddresses mi /\ forall c, c ∈ configured tmp -> resolve c <> Some a.
Proof.
  intros Ha Hw Ho. assert (a ∈ use_addresses is_id StateLookupID tmp mi PoStAddr) as Hin.
  { unfold addr_candidates in Ha. revert Ha. destruct (_ || _), (negb (DisableOwnerFallback tmp)); rewrite ?elem_of_app, ?list_elem_of_singleton; tauto. }
  simpl in Hin. rewrite enum_perm, elem_of_elements, elem_of_default_control in Hin. tauto.
Qed.

(** Miners that are taken out of the configuration keep their addresses until the node
    restarts. *)
Lemma selector_keeps_miners (confs : list CurioAddresses) (m : gmap string AddressConfig) :
  dom m ⊆ dom (makeMinerMap NewFromString confs m).1.
Proof.
  assert (forall (c : CurioAddresses) (miners : list string) (m : gmap string AddressConfig), dom m ⊆ dom (add_miners_of NewFromString c miners m).1) as Hadd.
  { intros c miners. induction miners as [|x l IH]; intros m'; simpl; [done|]. destruct (miner_config NewFromString c); [|done].
    destruct (NewFromString x); [|done]. etransitivity; [|apply IH]. set_solver. }
  revert m. induction confs as [|c confs IH]; intros m; simpl; [done|]. specialize (Hadd c (ca_MinerAddresses c) m).
  destruct (add_miners_of _ _ _ m) as [m1 []]; [|done]. etransitivity; [exact Hadd|apply IH].
Qed.
End CtlFacts.
