(* ===== verification/WdPost.v ===== *)
(** * Scheduling window proofs

    [tasks/window/compute_task.go], [submit_task.go] and [recover_task.go]: tasks that
    compute the proofs of the partitions of the current deadline, tasks that send
    them to the chain while the deadline is open, and tasks that declare faulty
    sectors recovered two deadlines ahead.  The tasks are created by the handlers of
    chain head changes through the task engine's [AddTask], with the rows of their
    tables written in the same transaction.  The chain node, the CBOR forms, the
    choice of an address among candidates and the deadline arithmetic of the chain
    library are parameters. *)

From stdpp Require Import base gmap sets list strings sorting.
From Stdlib Require Import ZArith Lia.
From S2P Require Import Prelude FileType Float64 HarmonyDB Limiter Resources TaskEngine SectorLocks GoStd StorageIndex CtlAddr WdPostProof.
Import Taskhelp.

(** ** Data *)

Record wdTaskIdentity := mkIdent { SpID : Z; ProvingPeriodStart : Z; DeadlineIndex : Z; PartitionIndex : Z }.

#[export] Instance wdTaskIdentity_eq_dec : EqDecision wdTaskIdentity.
Proof. solve_decision. Defined.

#[export] Instance wdTaskIdentity_countable : Countable wdTaskIdentity.
Proof.
  refine (inj_countable' (fun i => (SpID i, ProvingPeriodStart i, DeadlineIndex i, PartitionIndex i))
    (fun '(a, b, c, d) => mkIdent a b c d) _). by intros [].
Defined.

(** A row of [wdpost_proofs] besides its identity; [proof_params] is the CBOR form of
    the parameters. *)
Record proof_row := mkProofRow {
  submit_at_epoch : Z; submit_by_epoch : Z; proof_params : list Z; submit_task_id : option TaskID; message_cid : option string }.

(** The JSON a test task leaves in [harmony_test.result]. *)
Record test_result := mkTestResult { tr_sp_id : Z; tr_proving_period_start : Z; tr_deadline : Z; tr_partition : Z; tr_submit_at_epoch : Z; tr_submit_by_epoch : Z; tr_proof_params : list Z }.

(** The three tables are unique in the identity, the task tables have the task id as
    primary key. *)
Record wd_tables := mkWd {
  wdpost_partition_tasks : gmap TaskID wdTaskIdentity;
  wdpost_proofs : gmap wdTaskIdentity proof_row;
  wdpost_recovery_tasks : gmap TaskID wdTaskIdentity;
  harmony_test : gmap TaskID (option test_result);
  wd_message_waits : list string
}.

Definition with_partition_tasks (t : gmap TaskID wdTaskIdentity) (x : wd_tables) : wd_tables :=
  mkWd t (wdpost_proofs x) (wdpost_recovery_tasks x) (harmony_test x) (wd_message_waits x).
Definition with_proofs (t : gmap wdTaskIdentity proof_row) (x : wd_tables) : wd_tables :=
  mkWd (wdpost_partition_tasks x) t (wdpost_recovery_tasks x) (harmony_test x) (wd_message_waits x).
Definition with_recovery_tasks (t : gmap TaskID wdTaskIdentity) (x : wd_tables) : wd_tables :=
  mkWd (wdpost_partition_tasks x) (wdpost_proofs x) t (harmony_test x) (wd_message_waits x).
Definition with_test (t : gmap TaskID (option test_result)) (x : wd_tables) : wd_tables :=
  mkWd (wdpost_partition_tasks x) (wdpost_proofs x) (wdpost_recovery_tasks x) t (wd_message_waits x).
Definition with_waits (t : list string) (x : wd_tables) : wd_tables :=
  mkWd (wdpost_partition_tasks x) (wdpost_proofs x) (wdpost_recovery_tasks x) (harmony_test x) t.

(** An insert into a task table. *)
Definition insert_ident (id : TaskID) (tid : wdTaskIdentity) (t : gmap TaskID wdTaskIdentity) : option (gmap TaskID wdTaskIdentity) :=
  match t !! id with
  | Some _ => None
  | None => if bool_decide (tid ∈ (map_to_list t).*2) then None else Some (<[id := tid]> t)
  end.

(** [dline.Info] *)
Record dline_info := mkDline {
  CurrentEpoch : Z; PeriodStart : Z; Index : Z; Open : Z; Close : Z; Challenge : Z; FaultCutoff : Z; WPoStPeriodDeadlines : Z; WPoStProvingPeriod : Z }.

(** The deadlines of the chain library and the constants of the miner actor. *)
Class Dlines := {
  NewInfo : Z -> Z -> Z -> Z -> Z -> Z -> Z -> Z -> dline_info;
  PeriodStarted : dline_info -> bool;
  PeriodElapsed : dline_info -> bool;
  FaultCutoffPassed : dline_info -> bool;
  NextPeriodStart : dline_info -> Z;
  actor_PeriodDeadlines : Z;
  actor_ProvingPeriod : Z;
  actor_ChallengeWindow : Z;
  actor_ChallengeLookback : Z;
  actor_FaultDeclarationCutoff : Z
}.

Definition NewDeadlineInfo `{Dlines} (periodStart deadlineIdx currEpoch : Z) : dline_info :=
  NewInfo periodStart deadlineIdx currEpoch actor_PeriodDeadlines actor_ProvingPeriod actor_ChallengeWindow actor_ChallengeLookback actor_FaultDeclarationCutoff.

Inductive wd_err := WdQuery | WdApi | WdPost (e : post_error) | WdMarshal | WdDb | WdNotReached | WdPrepare | WdSend | WdPanic | WdAddress | WdNoTaskFunc.

(** A [bigint] column read into a [uint64]. *)
Definition scan_uint64 (z : Z) : option Z := if z <? 0 then None else Some z.

(** What the head change handlers ask about a miner. *)
Record miner_view := mkMinerView {
  mv_id : option Z;
  mv_deadline : option dline_info;
  mv_partitions : Z -> option (list partition)
}.

(** The answers [DoPartition] gets. *)
Record post_env (Proof : Type) := mkPostEnv {
  pe_sectors : gset Z -> option (list ExtendedSectorInfo);
  pe_vanilla : PostSectorChallenge -> vanilla;
  pe_prover : list Z -> list (list Z) -> nat -> option Proof;
  pe_partition_sectors : Z -> option Z;
  pe_challenges : Z -> Z -> list Z -> list Z -> option (list Z * (Z -> list Z));
  pe_merge : Z -> list (option Proof) -> option Proof;
  pe_randomness : nat -> option (list Z);
  pe_partitions : option (list partition);
  pe_window_type : Z -> option Z;
  pe_verify : list Z -> list Proof -> list SectorInfo -> Z -> option bool;
  pe_cancelled : bool
}.
Arguments pe_sectors {Proof}. Arguments pe_vanilla {Proof}. Arguments pe_prover {Proof}. Arguments pe_partition_sectors {Proof}.
Arguments pe_challenges {Proof}. Arguments pe_merge {Proof}. Arguments pe_randomness {Proof}. Arguments pe_partitions {Proof}.
Arguments pe_window_type {Proof}. Arguments pe_verify {Proof}. Arguments pe_cancelled {Proof}.

Definition do_partition `{Enum} {Proof} (pe : post_env Proof) (di : dline_info) (partIdx mid : Z) (test : bool) : result (@SubmitWindowedPoStParams Proof) post_error :=
  DoPartition (pe_sectors pe) (pe_vanilla pe) (pe_prover pe) (pe_partition_sectors pe) (pe_challenges pe) (pe_merge pe)
    (pe_randomness pe) (pe_partitions pe) (pe_window_type pe) (pe_verify pe) (pe_cancelled pe) (Index di) partIdx mid test.

(** The parameters of the message: the proof and what the submission adds. *)
Record msg_params (Proof : Type) := mkMsgParams { mp_post : @SubmitWindowedPoStParams Proof; ChainCommitEpoch : Z; ChainCommitRand : list Z }.
Arguments mkMsgParams {Proof}. Arguments mp_post {Proof}. Arguments ChainCommitEpoch {Proof}. Arguments ChainCommitRand {Proof}.

Section WdPost.
Context `{Enum} {Proof ST : Type} `{StorageOps ST} `{Dlines}.
Abbreviation wdb := (db wd_tables).
Implicit Types (d : wdb) (e : engine ST) (h : handler).

(** [MarshalCBOR] and [UnmarshalCBOR] of the parameters. *)
Variable marshal : msg_params Proof -> option (list Z).
Variable unmarshal : list Z -> option (msg_params Proof).

(** ** Computing: [WdPostTask] *)

Definition addTaskToDB (taskIdent : wdTaskIdentity) : @extra wd_tables := fun taskId d =>
  match insert_ident taskId taskIdent (wdpost_partition_tasks (ext d)) with
  | None => Err UniqueConstraint
  | Some t => Ok (with_ext d (with_partition_tasks t (ext d)), true)
  end.

(** The database faults of each [AddTask], the engine and the handler of the type;
    [tf_set] tells whether the promise of the function was fulfilled. *)
Record adder_env := mkAdder { ad_engine : engine ST; ad_handler : handler; ad_now : time; ad_faults : wdTaskIdentity -> list tx_fault; ad_set : bool }.

Definition call_adder (ad : adder_env) (cb : @extra wd_tables) (tid : wdTaskIdentity) d : wdb :=
  (AddTask (ad_engine ad) (ad_handler ad) cb (ad_faults ad tid) d (ad_now ad)).1.

Fixpoint add_partitions (ad : adder_env) (aid pps idx pidx : Z) (n : nat) d : wdb * result unit wd_err :=
  match n with
  | O => (d, Ok tt)
  | S n =>
      if negb (ad_set ad) then (d, Err WdNoTaskFunc)
      else
        let tid := mkIdent aid pps idx pidx in
        add_partitions ad aid pps idx (pidx + 1) n (call_adder ad (addTaskToDB tid) tid d)
  end.

(** The loop over the miners; a miner whose first proving period has not started
    ends the loop. *)
Fixpoint compute_processHeadChange (ad : adder_env) (actors : list miner_view) d : wdb * result unit wd_err :=
  match actors with
  | [] => (d, Ok tt)
  | act :: actors =>
      match mv_id act with
      | None => (d, Err WdAddress)
      | Some aid =>
          match mv_deadline act with
          | None => (d, Err WdApi)
          | Some di =>
              if negb (PeriodStarted di) then (d, Ok tt)
              else
                match mv_partitions act (Index di) with
                | None => (d, Err WdApi)
                | Some partitions =>
                    match add_partitions ad aid (PeriodStart di) (Index di) 0 (length partitions) d with
                    | (d, Err err) => (d, Err err)
                    | (d, Ok _) => compute_processHeadChange ad actors d
                    end
                end
          end
      end
  end.

(** The answers of one [Do]: the height of the head, whether there is a row of
    [harmony_test] (and the query succeeds), the tipset after the challenge, the
    proof, and whether the statements at the end succeed. *)
Record compute_env := mkComputeEnv {
  ce_head : option Z;
  ce_test_query : bool;
  ce_tipset : Z -> bool;
  ce_post : dline_info -> post_env Proof;
  ce_exec : bool
}.

Definition scan_ident (tid : wdTaskIdentity) : option wdTaskIdentity :=
  match scan_uint64 (SpID tid), scan_uint64 (ProvingPeriodStart tid), scan_uint64 (DeadlineIndex tid), scan_uint64 (PartitionIndex tid) with
  | Some _, Some _, Some _, Some _ => Some tid
  | _, _, _, _ => None
  end.

Definition isTestTask (env : compute_env) (taskID : TaskID) d : bool :=
  ce_test_query env && bool_decide (is_Some (harmony_test (ext d) !! taskID)).

(** A test task of a challenge that lies ahead proves the period before. *)
Definition compute_deadline (env : compute_env) (test : bool) (head : Z) (tid : wdTaskIdentity) : dline_info :=
  let deadline := NewDeadlineInfo (ProvingPeriodStart tid) (DeadlineIndex tid) head in
  if (Challenge deadline >? head) && test
  then NewDeadlineInfo (ProvingPeriodStart tid - WPoStProvingPeriod deadline) (DeadlineIndex tid) (head - WPoStProvingPeriod deadline)
  else deadline.

Definition insert_proof (tid : wdTaskIdentity) (row : proof_row) d : option wdb :=
  match wdpost_proofs (ext d) !! tid with
  | Some _ => None
  | None => Some (with_ext d (with_proofs (<[tid := row]> (wdpost_proofs (ext d))) (ext d)))
  end.

(** [Do]: the database and whether the task is done, or the error. *)
Definition compute_Do (env : compute_env) (taskID : TaskID) d : wdb * result bool wd_err :=
  match wdpost_partition_tasks (ext d) !! taskID ≫= scan_ident with
  | None => (d, Err WdQuery)
  | Some tid =>
      match ce_head env with
      | None => (d, Err WdApi)
      | Some head =>
          let test := isTestTask env taskID d in
          if PeriodElapsed (NewDeadlineInfo (ProvingPeriodStart tid) (DeadlineIndex tid) head) && negb test then (d, Ok true)
          else
            let deadline := compute_deadline env test head tid in
            if negb (ce_tipset env (Challenge deadline)) then (d, Err WdApi)
            else
              match do_partition (ce_post env deadline) deadline (PartitionIndex tid) (SpID tid) test with
              | Err EmptyPartition => (d, Ok true)
              | Err err => (d, Err (WdPost err))
              | Ok postOut =>
                  match marshal (mkMsgParams postOut 0 []) with
                  | None => (d, Err WdMarshal)
                  | Some msgbuf =>
                      if test then
                        let data := mkTestResult (SpID tid) (ProvingPeriodStart tid) (Index deadline) (PartitionIndex tid) (Open deadline) (Close deadline) msgbuf in
                        if ce_exec env
                        then (with_ext d (with_test (alter (fun _ => Some data) taskID (harmony_test (ext d))) (ext d)), Ok true)
                        else (d, Err WdDb)
                      else if negb (ce_exec env) then (d, Err WdDb)
                      else
                        let key := mkIdent (SpID tid) (ProvingPeriodStart tid) (Index deadline) (PartitionIndex tid) in
                        match insert_proof key (mkProofRow (Open deadline) (Close deadline) msgbuf None None) d with
                        | None => (d, Err WdDb)
                        | Some d' => (d', Ok true)
                        end
                  end
              end
      end
  end.

Definition by_open (a b : TaskID * dline_info) : Prop := Open a.2 <= Open b.2.

#[local] Instance by_open_dec : RelDecision by_open.
Proof. intros a b. unfold by_open. apply _. Defined.

(** [CanAccept]; [failures] counts the failed runs of a task, [None] is an error of
    the query.  The order of equal elements after [sort.Slice] is not specified. *)
Definition compute_CanAccept (cuzk : bool) (paramsReady : option bool) (head : option Z) (failures : TaskID -> option Z) (ids : list TaskID) d
    : result (list TaskID) wd_err :=
  match (if cuzk then Some true else paramsReady) with
  | None => Err WdApi
  | Some false => Ok []
  | Some true =>
      match head with
      | None => Err WdApi
      | Some height =>
          let rows := enum (List.filter (fun r : TaskID * wdTaskIdentity => bool_decide (r.1 ∈ ids)) (map_to_list (wdpost_partition_tasks (ext d)))) in
          if List.existsb (fun r : TaskID * wdTaskIdentity => (SpID r.2 <? 0) || (DeadlineIndex r.2 <? 0) || (PartitionIndex r.2 <? 0)) rows then Err WdQuery
          else
            let tasks := (fun r : TaskID * wdTaskIdentity => (r.1, NewDeadlineInfo (ProvingPeriodStart r.2) (DeadlineIndex r.2) height)) <$> rows in
            let elapsed := List.filter (fun t : TaskID * dline_info => PeriodElapsed t.2) tasks in
            if (0 <? length elapsed)%nat then Ok elapsed.*1
            else if (length tasks =? 0)%nat then Ok []
            else
              let '(_, (tasks, _)) := SliceIfFound (fun t : TaskID * dline_info => default 0 (failures t.1) <? 2) tasks in
              Ok (merge_sort by_open (enum tasks)).*1
      end
  end.

(** ** Submitting: [WdPostSubmitTask] *)

(** The callback: the task is wanted while the proof has none. *)
Definition submit_extra (tid : wdTaskIdentity) : @extra wd_tables := fun id d =>
  match wdpost_proofs (ext d) !! tid with
  | Some (mkProofRow a b p None c) => Ok (with_ext d (with_proofs (<[tid := mkProofRow a b p (Some id) c]> (wdpost_proofs (ext d))) (ext d)), true)
  | _ => Ok (d, false)
  end.

Fixpoint add_submits (ad : adder_env) (rows : list (wdTaskIdentity * proof_row)) d : wdb * result unit wd_err :=
  match rows with
  | [] => (d, Ok tt)
  | (tid, row) :: rows =>
      if (DeadlineIndex tid <? 0) || (PartitionIndex tid <? 0) || (submit_at_epoch row <? 0) then (d, Err WdQuery)
      else if negb (ad_set ad) then (d, Err WdPanic)
      else add_submits ad rows (call_adder ad (submit_extra tid) tid d)
  end.

Definition submittable (height : Z) (r : wdTaskIdentity * proof_row) : bool :=
  match submit_task_id r.2 with None => submit_at_epoch r.2 <=? height | Some _ => false end.

(** The handler of head changes; the query reads one state of the table. *)
Definition submit_processHeadChange (ad : adder_env) (height : Z) (query_ok : bool) d : wdb * result unit wd_err :=
  if negb query_ok then (d, Err WdQuery)
  else add_submits ad (enum (List.filter (submittable height) (map_to_list (wdpost_proofs (ext d))))) d.

Record submit_env := mkSubmitEnv {
  se_head : option Z;
  se_commit_rand : Z -> option (list Z);       (* StateGetRandomnessFromTickets *)
  se_prepare : msg_params Proof -> list Z -> option chain_message;
  se_send : chain_message -> option string;
  se_update : bool;                            (* the statement that sets message_cid succeeds *)
  se_wait : bool                               (* the insert into message_waits succeeds *)
}.

(** A message handed to the sender: for which proof, by which task, at which height
    of the head, with which parameters. *)
Record sent := mkSent { st_ident : wdTaskIdentity; st_task : TaskID; st_height : Z; st_params : msg_params Proof }.

Definition with_cid (c : string) (r : proof_row) : proof_row := mkProofRow (submit_at_epoch r) (submit_by_epoch r) (proof_params r) (submit_task_id r) (Some c).

(** [Do]: the database, the message handed to the sender, and the result. *)
Definition submit_Do (env : submit_env) (taskID : TaskID) d : wdb * option sent * (bool * option wd_err) :=
  match enum (List.filter (fun r : wdTaskIdentity * proof_row => bool_decide (submit_task_id r.2 = Some taskID)) (map_to_list (wdpost_proofs (ext d)))) with
  | [] => (d, None, (false, Some WdQuery))
  | (tid, row) :: _ =>
      if (SpID tid <? 0) || (DeadlineIndex tid <? 0) || (PartitionIndex tid <? 0) then (d, None, (false, Some WdQuery))
      else
        match se_head env with
        | None => (d, None, (false, Some WdApi))
        | Some head =>
            if head >? submit_by_epoch row then (d, None, (true, None))
            else if head <? submit_at_epoch row then (d, None, (false, Some WdNotReached))
            else
              let dlInfo := NewDeadlineInfo (ProvingPeriodStart tid) (DeadlineIndex tid) head in
              match unmarshal (proof_params row) with
              | None => (d, None, (false, Some WdMarshal))
              | Some params =>
                  let commEpoch := Challenge dlInfo in
                  match se_commit_rand env commEpoch with
                  | None => (d, None, (false, Some WdApi))
                  | Some commRand =>
                      let params := mkMsgParams (mp_post params) commEpoch commRand in
                      match marshal params with
                      | None => (d, None, (false, Some WdMarshal))
                      | Some pbuf =>
                          match se_prepare env params pbuf with
                          | None => (d, None, (false, Some WdPrepare))
                          | Some msg =>
                              let s := mkSent tid taskID head params in
                              match se_send env msg with
                              | None => (d, Some s, (false, Some WdSend))
                              | Some smsg =>
                                  if negb (se_update env) then (d, Some s, (true, Some WdDb))
                                  else
                                    let d := with_ext d (with_proofs (alter (with_cid smsg) tid (wdpost_proofs (ext d))) (ext d)) in
                                    if negb (se_wait env) || bool_decide (smsg ∈ wd_message_waits (ext d)) then (d, Some s, (true, Some WdDb))
                                    else (with_ext d (with_waits (wd_message_waits (ext d) ++ [smsg]) (ext d)), Some s, (true, None))
                              end
                          end
                      end
                  end
              end
        end
  end.

(** [CanAccept] of the tasks that send messages. *)
Definition sender_CanAccept (has_sender : bool) (ids : list TaskID) : list TaskID :=
  if (length ids =? 0)%nat then [] else if negb has_sender then [] else ids.

(** ** Declaring recoveries: [WdPostRecoverDeclareTask] *)

Definition recover_addTaskToDB (taskIdent : wdTaskIdentity) : @extra wd_tables := fun taskId d =>
  match insert_ident taskId taskIdent (wdpost_recovery_tasks (ext d)) with
  | None => Err UniqueConstraint
  | Some t => Ok (with_ext d (with_recovery_tasks t (ext d)), true)
  end.

Definition unrecovered (p : partition) : gset Z := FaultySectors p ∖ RecoveringSectors p.

Fixpoint add_recoveries (ad : adder_env) (aid pps idx pidx : Z) (partitions : list partition) d : wdb * result unit wd_err :=
  match partitions with
  | [] => (d, Ok tt)
  | p :: partitions =>
      if bool_decide (unrecovered p = ∅) then add_recoveries ad aid pps idx (pidx + 1) partitions d
      else if negb (ad_set ad) then (d, Err WdPanic)
      else
        let tid := mkIdent aid pps idx pidx in
        add_recoveries ad aid pps idx (pidx + 1) partitions (call_adder ad (recover_addTaskToDB tid) tid d)
  end.

(** Two deadlines ahead, possibly in the next proving period. *)
Definition declare_deadline (di : dline_info) : Z := (Index di + 2) mod WPoStPeriodDeadlines di.

Definition declare_period (di : dline_info) : Z :=
  if negb (declare_deadline di =? Index di + 2) then NextPeriodStart di else PeriodStart di.

Fixpoint recover_processHeadChange (ad : adder_env) (actors : list miner_view) d : wdb * result unit wd_err :=
  match actors with
  | [] => (d, Ok tt)
  | act :: actors =>
      match mv_id act with
      | None => (d, Err WdAddress)
      | Some aid =>
          match mv_deadline act with
          | None => (d, Err WdApi)
          | Some di =>
              if negb (PeriodStarted di) then (d, Ok tt)
              else
                match mv_partitions act (declare_deadline di) with
                | None => (d, Err WdApi)
                | Some partitions =>
                    match add_recoveries ad aid (declare_period di) (declare_deadline di) 0 partitions d with
                    | (d, Err err) => (d, Err err)
                    | (d, Ok _) => recover_processHeadChange ad actors d
                    end
                end
          end
      end
  end.

(** [miner.RecoveryDeclaration] *)
Record RecoveryDeclaration := mkDecl { rd_Deadline : Z; rd_Partition : Z; rd_Sectors : gset Z }.

Record recover_env := mkRecoverEnv {
  re_head : option Z;
  re_partitions : Z -> Z -> option (list partition);
  re_sectors : gset Z -> option (list ExtendedSectorInfo);
  re_window_proof : Z -> option Z;
  re_tracker : tracker;
  re_prepare : list RecoveryDeclaration -> option chain_message;   (* SerializeParams and preparePoStMessage *)
  re_send : chain_message -> option string
}.

(** [Do]: the declaration handed to the sender, and the result. *)
Definition recover_Do (env : recover_env) (taskID : TaskID) d : option RecoveryDeclaration * (bool * option wd_err) :=
  match wdpost_recovery_tasks (ext d) !! taskID ≫= scan_ident with
  | None => (None, (false, Some WdQuery))
  | Some tid =>
      match re_head env with
      | None => (None, (false, Some WdApi))
      | Some head =>
          if FaultCutoffPassed (NewDeadlineInfo (ProvingPeriodStart tid) (DeadlineIndex tid) head) then (None, (true, None))
          else
            match re_partitions env (SpID tid) (DeadlineIndex tid) with
            | None => (None, (false, Some WdApi))
            | Some partitions =>
                match partitions !! Z.to_nat (PartitionIndex tid) with
                | None => (None, (false, None))
                | Some p =>
                    if bool_decide (unrecovered p = ∅) then (None, (true, None))
                    else
                      match checkSectors (re_sectors env) (re_window_proof env) (SpID tid) (re_tracker env) (unrecovered p) with
                      | None => (None, (false, Some WdApi))
                      | Some recovered =>
                          if bool_decide (recovered = ∅) then (None, (true, None))
                          else
                            let recDecl := mkDecl (DeadlineIndex tid) (PartitionIndex tid) recovered in
                            match re_prepare env [recDecl] with
                            | None => (None, (false, Some WdPrepare))
                            | Some msg =>
                                match re_send env msg with
                                | None => (Some recDecl, (false, Some WdSend))
                                | Some _ => (Some recDecl, (true, None))
                                end
                            end
                      end
                end
            end
      end
  end.

(** ** Test tasks *)

(** The transaction of [WdPostTaskStart]; [commit] is false when a statement or the
    commit fails. *)
Definition WdPostTaskStart (machine mid height deadlineIdx partitionIdx : Z) (now : time) (commit : bool) d : wdb * result TaskID wd_err :=
  let '(d1, taskID) := insert_task d "WdPost" machine now in
  match insert_ident taskID (mkIdent mid height deadlineIdx partitionIdx) (wdpost_partition_tasks (ext d)) with
  | Some t =>
      match harmony_test (ext d) !! taskID with
      | None =>
          if commit then (with_ext d1 (with_test (<[taskID := None]> (harmony_test (ext d))) (with_partition_tasks t (ext d))), Ok taskID)
          else (rollback_insert d, Err WdDb)
      | Some _ => (rollback_insert d, Err WdDb)
      end
  | None => (rollback_insert d, Err WdDb)
  end.
End WdPost.
