(* ===== verification/WdPostFacts.v ===== *)
(** * Facts about the scheduling of window proofs

    The tables of the window proof tasks stay unique in their identities and in the
    tasks that serve them; every message that is handed to the sender carries a proof
    that [DoPartition] handed out for that partition, at a height within the deadline;
    every partition of the current deadlines gets its task. *)

From stdpp Require Import base gmap sets list strings sorting.
From Stdlib Require Import ZArith Lia.
From S2P Require Import Prelude FileType Float64 HarmonyDB Limiter Resources TaskEngine TaskEngineFacts Capacity SectorLocks GoStd StorageIndex WdPostProof WdPost.
Import Taskhelp.

(** ** Task tables *)

(** One task per identity, and only ids that the sequence has given out. *)
Definition tasks_ok (seq : Z) (t : gmap TaskID wdTaskIdentity) : Prop :=
  (forall (a b : TaskID) (i : wdTaskIdentity), t !! a = Some i -> t !! b = Some i -> a = b)
  /\ (forall (a : TaskID) (i : wdTaskIdentity), t !! a = Some i -> a < seq).

Lemma tasks_ok_mono (seq seq' : Z) (t : gmap TaskID wdTaskIdentity) : seq <= seq' -> tasks_ok seq t -> tasks_ok seq' t.
Proof. intros Hs [Hi Hb]. split; [done|]. intros a i Ha. apply Hb in Ha. lia. Qed.

Lemma insert_ident_spec (id : TaskID) (tid : wdTaskIdentity) (t t' : gmap TaskID wdTaskIdentity) :
  insert_ident id tid t = Some t' -> t' = <[id := tid]> t /\ t !! id = None /\ forall a, t !! a <> Some tid.
Proof.
  unfold insert_ident. destruct (t !! id) eqn:E; [done|]. case_bool_decide as Hi; [done|]. intros [= <-].
  split; [done|]. split; [done|]. intros a Ha. apply Hi. apply list_elem_of_fmap. exists (a, tid). split; [done|]. by apply elem_of_map_to_list.
Qed.

Lemma insert_ident_none (id : TaskID) (tid : wdTaskIdentity) (t : gmap TaskID wdTaskIdentity) :
  insert_ident id tid t = None -> is_Some (t !! id) \/ exists a, t !! a = Some tid.
Proof.
  unfold insert_ident. destruct (t !! id) eqn:E; [eauto|]. case_bool_decide as Hi; [|done]. intros _. right.
  apply list_elem_of_fmap in Hi as ([a i] & -> & Ha). exists a. by apply elem_of_map_to_list in Ha.
Qed.

Lemma insert_ident_ok (seq : Z) (tid : wdTaskIdentity) (t t' : gmap TaskID wdTaskIdentity) (id : TaskID) :
  id < seq -> tasks_ok seq t -> insert_ident id tid t = Some t' -> tasks_ok seq t'.
Proof.
  intros Hid [Hi Hb] (-> & Hn & Hf)%insert_ident_spec. split.
  - intros a b i. rewrite !lookup_insert_Some. intros [[? ?]|[? Ha]] [[? ?]|[? Hb']]; simplify_eq; [done| | |by eapply Hi].
    + by apply Hf in Hb'.
    + by apply Hf in Ha.
  - intros a i. rewrite lookup_insert_Some. intros [[? ?]|[? Ha]]; [lia|]. by eapply Hb.
Qed.

Lemma filter_submseteq_b {A} (f : A -> bool) (l : list A) : List.filter f l ⊆+ l.
Proof. induction l as [|a l IH]; simpl; [done|]. destruct (f a); [by apply submseteq_skip|by apply submseteq_cons]. Qed.

Lemma NoDup_fst_filter {A B} (f : A * B -> bool) (l : list (A * B)) : NoDup l.*1 -> NoDup (List.filter f l).*1.
Proof.
  induction l as [|a l IH]; simpl; [done|]. rewrite NoDup_cons. intros [Ha Hl]. destruct (f a); simpl; [|auto].
  rewrite NoDup_cons. split; [|auto]. intros (b & E & [_ Hb]%elem_of_filter_b)%list_elem_of_fmap. apply Ha. rewrite E. by apply list_elem_of_fmap_2.
Qed.

Section Facts.
Context `{Enum} {Proof ST : Type} `{StorageOps ST} `{Dlines}.
Variable marshal : msg_params Proof -> option (list Z).
Variable unmarshal : list Z -> option (msg_params Proof).
Abbreviation wdb := (db wd_tables).
Implicit Types (d : wdb).

(** ** The state of the system *)

(** The database and the messages handed to the sender. *)
Record wd_state := mkWdState { ws_db : wdb; ws_sent : list (@sent Proof) }.

Inductive wd_step : wd_state -> wd_state -> Prop :=
| ws_heads d s (ad : adder_env) actors d' r :
    compute_processHeadChange (ST := ST) ad actors d = (d', r) -> wd_step (mkWdState d s) (mkWdState d' s)
| ws_submits d s (ad : adder_env) height ok d' r :
    submit_processHeadChange (ST := ST) ad height ok d = (d', r) -> wd_step (mkWdState d s) (mkWdState d' s)
| ws_recoveries d s (ad : adder_env) actors d' r :
    recover_processHeadChange (ST := ST) ad actors d = (d', r) -> wd_step (mkWdState d s) (mkWdState d' s)
| ws_test d s machine mid height deadline part now commit d' r :
    WdPostTaskStart machine mid height deadline part now commit d = (d', r) -> wd_step (mkWdState d s) (mkWdState d' s)
| ws_compute d s env taskID d' r :
    compute_Do marshal env taskID d = (d', r) -> wd_step (mkWdState d s) (mkWdState d' s)
| ws_submit d s env taskID d' m r :
    submit_Do marshal unmarshal env taskID d = (d', m, r) -> wd_step (mkWdState d s) (mkWdState d' (s ++ option_list m))
| ws_other d s d' :
    ext d' = ext d -> task_seq d <= task_seq d' -> wd_step (mkWdState d s) (mkWdState d' s).

(** Where a row of [wdpost_proofs] comes from: [DoPartition] returned the parameters
    for a deadline that had not elapsed. *)
Definition computed (key : wdTaskIdentity) (row : proof_row) : Prop :=
  exists idx head pe postOut,
    let di := NewDeadlineInfo (ProvingPeriodStart key) idx head in
    DeadlineIndex key = Index di /\ PeriodElapsed di = false
    /\ do_partition pe di (PartitionIndex key) (SpID key) false = Ok postOut
    /\ marshal (mkMsgParams postOut 0 []) = Some (proof_params row)
    /\ submit_at_epoch row = Open di /\ submit_by_epoch row = Close di.

(** A message of the log belongs to a row and its task. *)
Definition sent_ok (proofs : gmap wdTaskIdentity proof_row) (s : @sent Proof) : Prop :=
  exists row p, proofs !! st_ident s = Some row /\ submit_task_id row = Some (st_task s)
    /\ submit_at_epoch row <= st_height s <= submit_by_epoch row
    /\ unmarshal (proof_params row) = Some p /\ mp_post (st_params s) = mp_post p
    /\ ChainCommitEpoch (st_params s) = Challenge (NewDeadlineInfo (ProvingPeriodStart (st_ident s)) (DeadlineIndex (st_ident s)) (st_height s)).

Record proofs_ok (seq : Z) (proofs : gmap wdTaskIdentity proof_row) : Prop := {
  po_origin : forall (k : wdTaskIdentity) (r : proof_row), proofs !! k = Some r -> computed k r;
  po_once : forall (k1 k2 : wdTaskIdentity) (r1 r2 : proof_row) (t : TaskID), proofs !! k1 = Some r1 -> proofs !! k2 = Some r2 ->
    submit_task_id r1 = Some t -> submit_task_id r2 = Some t -> k1 = k2;
  po_seq : forall (k : wdTaskIdentity) (r : proof_row) (t : TaskID), proofs !! k = Some r -> submit_task_id r = Some t -> t < seq
}.

Record tables_ok (seq : Z) (x : wd_tables) : Prop := {
  to_tasks : tasks_ok seq (wdpost_partition_tasks x);
  to_recovery : tasks_ok seq (wdpost_recovery_tasks x);
  to_proofs : proofs_ok seq (wdpost_proofs x)
}.

(** What the steps keep of the proofs: the rows stay, with their task once they have
    one. *)
Definition proofs_grow (p p' : gmap wdTaskIdentity proof_row) : Prop :=
  forall (k : wdTaskIdentity) (r : proof_row), p !! k = Some r -> exists r', p' !! k = Some r'
    /\ submit_at_epoch r' = submit_at_epoch r /\ submit_by_epoch r' = submit_by_epoch r /\ proof_params r' = proof_params r
    /\ (forall t, submit_task_id r = Some t -> submit_task_id r' = Some t).

Definition wd_ok (st : wd_state) : Prop :=
  tables_ok (task_seq (ws_db st)) (ext (ws_db st)) /\ Forall (sent_ok (wdpost_proofs (ext (ws_db st)))) (ws_sent st).

(** The change of the database by one operation. *)
Definition wd_keeps d d' : Prop :=
  task_seq d <= task_seq d' /\ (tables_ok (task_seq d) (ext d) -> tables_ok (task_seq d') (ext d'))
  /\ proofs_grow (wdpost_proofs (ext d)) (wdpost_proofs (ext d')).

Lemma proofs_grow_refl (p : gmap wdTaskIdentity proof_row) : proofs_grow p p.
Proof. intros k r Hr. by exists r. Qed.

Lemma proofs_grow_trans (p q r : gmap wdTaskIdentity proof_row) : proofs_grow p q -> proofs_grow q r -> proofs_grow p r.
Proof.
  intros Hpq Hqr k x Hx. destruct (Hpq _ _ Hx) as (y & Hy & ? & ? & ? & Hty). destruct (Hqr _ _ Hy) as (z & Hz & ? & ? & ? & Htz).
  exists z. repeat split; try congruence. auto.
Qed.

Lemma wd_tables_mono (seq seq' : Z) (x : wd_tables) : seq <= seq' -> tables_ok seq x -> tables_ok seq' x.
Proof.
  intros Hs [Ht Hr [Ho Hn Hq]]. split; [by eapply tasks_ok_mono..|]. split; [done|done|].
  intros k r t Hk Ht'. specialize (Hq _ _ _ Hk Ht'). lia.
Qed.

Lemma wd_keeps_refl d : wd_keeps d d.
Proof. split; [lia|]. split; [done|apply proofs_grow_refl]. Qed.

Lemma wd_keeps_trans d1 d2 d3 : wd_keeps d1 d2 -> wd_keeps d2 d3 -> wd_keeps d1 d3.
Proof. intros (?&?&?) (?&?&?). split; [lia|]. split; [auto|by eapply proofs_grow_trans]. Qed.

Lemma wd_keeps_ext d d' : ext d' = ext d -> task_seq d <= task_seq d' -> wd_keeps d d'.
Proof. intros He Hs. split; [done|]. rewrite He. split; [by apply wd_tables_mono|apply proofs_grow_refl]. Qed.

(** ** Operations *)

(** What is needed of a callback of [AddTask]: its task id is new to the tables. *)
Definition cb_keeps (cb : @extra wd_tables) : Prop := forall (t : TaskID) d d', cb t d = Ok (d', true) -> t < task_seq d ->
  task_seq d' = task_seq d /\ (tables_ok t (ext d) -> tables_ok (task_seq d) (ext d')) /\ proofs_grow (wdpost_proofs (ext d)) (wdpost_proofs (ext d')).

Lemma call_adder_keeps (ad : @adder_env ST) (cb : @extra wd_tables) (tid : wdTaskIdentity) d : cb_keeps cb -> wd_keeps d (call_adder ad cb tid d).
Proof.
  intros Hcb. unfold call_adder. pose proof (AddTask_outcome (ad_engine ad) (ad_handler ad) cb (ad_faults ad tid) d (ad_now ad)) as Ho.
  destruct (AddTask _ _ _ _ _ _) as [d' ag]. destruct Ho as (n & Hn & Ho). simpl. destruct Ho as [Ho|[_ Hex]].
  2: { destruct (Hcb _ _ _ Hex) as (Hs & Ht & Hg); [unfold insert_task, spend; simpl; lia|].
    cbn in Hs, Ht, Hg. split; [lia|]. split; [|done].
    rewrite Hs. intros Hok. apply Ht. eapply wd_tables_mono; [|exact Hok]. lia. }
  rewrite Ho. apply wd_keeps_ext; [done|simpl; lia].
Qed.

Lemma addTaskToDB_keeps (tid : wdTaskIdentity) : cb_keeps (addTaskToDB tid).
Proof.
  intros t d d' Hcb Hlt. unfold addTaskToDB in Hcb. destruct (insert_ident _ _ _) as [x|] eqn:E; [|done]. injection Hcb as <-.
  split; [done|]. split; [|apply proofs_grow_refl]. intros Hok%(wd_tables_mono _ (task_seq d)); [|lia].
  destruct Hok as [Ht Hr Hp]. split; [exact (insert_ident_ok _ _ _ _ _ Hlt Ht E)|done|done].
Qed.

Lemma recover_addTaskToDB_keeps (tid : wdTaskIdentity) : cb_keeps (recover_addTaskToDB tid).
Proof.
  intros t d d' Hcb Hlt. unfold recover_addTaskToDB in Hcb. destruct (insert_ident _ _ _) as [x|] eqn:E; [|done]. injection Hcb as <-.
  split; [done|]. split; [|apply proofs_grow_refl]. intros Hok%(wd_tables_mono _ (task_seq d)); [|lia].
  destruct Hok as [Ht Hr Hp]. split; [done|exact (insert_ident_ok _ _ _ _ _ Hlt Hr E)|done].
Qed.

(** A row gets a new task. *)
Lemma proofs_assign (seq : Z) (t : TaskID) (p : gmap wdTaskIdentity proof_row) (k : wdTaskIdentity) (a b : Z) (ps : list Z) (c : option string) :
  t < seq -> proofs_ok t p -> p !! k = Some (mkProofRow a b ps None c) -> proofs_ok seq (<[k := mkProofRow a b ps (Some t) c]> p).
Proof.
  intros Hlt [Ho Hn Hq] Hk. split.
  - intros k' r. rewrite lookup_insert_Some. intros [[<- <-]|[_ Hr]]; [exact (Ho _ _ Hk)|by apply Ho].
  - intros k1 k2 r1 r2 t'. rewrite !lookup_insert_Some.
    intros [[<- <-]|[? H1']] [[<- <-]|[? H2']] Ht1 Ht2; [done| | |by eapply Hn].
    + simpl in Ht1. injection Ht1 as <-. specialize (Hq _ _ _ H2' Ht2). lia.
    + simpl in Ht2. injection Ht2 as <-. specialize (Hq _ _ _ H1' Ht1). lia.
  - intros k' r t'. rewrite lookup_insert_Some. intros [[<- <-]|[_ Hr]] Ht'; [simpl in Ht'; injection Ht' as <-; done|].
    specialize (Hq _ _ _ Hr Ht'). lia.
Qed.

Lemma submit_extra_keeps (tid : wdTaskIdentity) : cb_keeps (submit_extra tid).
Proof.
  intros t d d' Hcb Hlt. unfold submit_extra in Hcb. destruct (wdpost_proofs (ext d) !! tid) as [[a b ps [t'|] c]|] eqn:E; [done| |done].
  injection Hcb as <-. split; [done|]. split.
  - intros [Ht Hr Hp]. split; simpl; [eapply tasks_ok_mono; [|exact Ht]; lia|eapply tasks_ok_mono; [|exact Hr]; lia|by eapply proofs_assign].
  - intros k r Hr. simpl. destruct (decide (tid = k)) as [<-|Hne].
    + rewrite lookup_insert_eq. eexists. split; [done|]. rewrite E in Hr. injection Hr as <-. done.
    + rewrite lookup_insert_ne by done. by exists r.
Qed.

Lemma add_partitions_keeps (ad : @adder_env ST) (aid pps idx pidx : Z) (n : nat) d : wd_keeps d (add_partitions ad aid pps idx pidx n d).1.
Proof.
  revert pidx d. induction n as [|n IH]; intros pidx d; simpl; [apply wd_keeps_refl|].
  destruct (ad_set ad); simpl; [|apply wd_keeps_refl]. eapply wd_keeps_trans; [|apply IH]. apply call_adder_keeps, addTaskToDB_keeps.
Qed.

Lemma compute_heads_keeps (ad : @adder_env ST) (actors : list miner_view) d : wd_keeps d (compute_processHeadChange ad actors d).1.
Proof.
  revert d. induction actors as [|act actors IH]; intros d; simpl; [apply wd_keeps_refl|].
  destruct (mv_id act) as [aid|]; [|apply wd_keeps_refl]. destruct (mv_deadline act) as [di|]; [|apply wd_keeps_refl].
  destruct (PeriodStarted di); simpl; [|apply wd_keeps_refl]. destruct (mv_partitions act _) as [ps|]; [|apply wd_keeps_refl].
  pose proof (add_partitions_keeps ad aid (PeriodStart di) (Index di) 0 (length ps) d) as Hk.
  destruct (add_partitions _ _ _ _ _ _ _) as [d1 [u|err]]; [|done]. eapply wd_keeps_trans; [exact Hk|apply IH].
Qed.

Lemma add_submits_keeps (ad : @adder_env ST) (rows : list (wdTaskIdentity * proof_row)) d : wd_keeps d (add_submits ad rows d).1.
Proof.
  revert d. induction rows as [|[tid row] rows IH]; intros d; simpl; [apply wd_keeps_refl|].
  destruct (_ || _); simpl; [apply wd_keeps_refl|]. destruct (ad_set ad); simpl; [|apply wd_keeps_refl].
  eapply wd_keeps_trans; [|apply IH]. apply call_adder_keeps, submit_extra_keeps.
Qed.

Lemma add_recoveries_keeps (ad : @adder_env ST) (aid pps idx pidx : Z) (ps : list partition) d : wd_keeps d (add_recoveries ad aid pps idx pidx ps d).1.
Proof.
  revert pidx d. induction ps as [|p ps IH]; intros pidx d; simpl; [apply wd_keeps_refl|].
  case_bool_decide; [apply IH|]. destruct (ad_set ad); simpl; [|apply wd_keeps_refl].
  eapply wd_keeps_trans; [|apply IH]. apply call_adder_keeps, recover_addTaskToDB_keeps.
Qed.

Lemma recover_heads_keeps (ad : @adder_env ST) (actors : list miner_view) d : wd_keeps d (recover_processHeadChange ad actors d).1.
Proof.
  revert d. induction actors as [|act actors IH]; intros d; simpl; [apply wd_keeps_refl|].
  destruct (mv_id act) as [aid|]; [|apply wd_keeps_refl]. destruct (mv_deadline act) as [di|]; [|apply wd_keeps_refl].
  destruct (PeriodStarted di); simpl; [|apply wd_keeps_refl]. destruct (mv_partitions act _) as [ps|]; [|apply wd_keeps_refl].
  pose proof (add_recoveries_keeps ad aid (declare_period di) (declare_deadline di) 0 ps d) as Hk.
  destruct (add_recoveries _ _ _ _ _ _ _) as [d1 [u|err]]; [|done]. eapply wd_keeps_trans; [exact Hk|apply IH].
Qed.

Lemma test_start_keeps (machine mid height deadline part : Z) (now : time) (commit : bool) d :
  wd_keeps d (WdPostTaskStart machine mid height deadline part now commit d).1.
Proof.
  unfold WdPostTaskStart. cbn [insert_task]. destruct (insert_ident _ _ _) as [t|] eqn:E; [|apply wd_keeps_ext; [done|simpl; lia]].
  destruct (harmony_test _ !! _); [apply wd_keeps_ext; [done|simpl; lia]|].
  destruct commit; [|apply wd_keeps_ext; [done|simpl; lia]]. split; [simpl; lia|]. split; [|apply proofs_grow_refl].
  simpl. intros Hok%(wd_tables_mono _ (task_seq d + 1)); [|lia]. destruct Hok as [Ht Hr Hp].
  split; [|done|done]. eapply (insert_ident_ok (task_seq d + 1)); [|exact Ht|exact E]. lia.
Qed.

(** A proof is stored once. *)
Lemma insert_proof_keeps (k : wdTaskIdentity) (row : proof_row) d d' :
  computed k row -> submit_task_id row = None -> insert_proof k row d = Some d' -> wd_keeps d d'.
Proof.
  intros Hc Ht. unfold insert_proof. destruct (wdpost_proofs (ext d) !! k) eqn:E; [done|]. intros [= <-]. split; [simpl; lia|]. simpl. split.
  - intros [Hp Hr [Ho Hn Hq]]. split; [done|done|]. simpl. split.
    + intros k' r. rewrite lookup_insert_Some. intros [[<- <-]|[_ Hk]]; [done|by apply Ho].
    + intros k1 k2 r1 r2 t. rewrite !lookup_insert_Some. intros [[<- <-]|[? Hk1]] [[<- <-]|[? Hk2]] Ht1 Ht2; try congruence. by eapply Hn.
    + intros k' r t. rewrite lookup_insert_Some. intros [[<- <-]|[_ Hk]] Ht'; [congruence|by eapply Hq].
  - intros k' r Hr. assert (k <> k') by congruence. exists r. by rewrite lookup_insert_ne.
Qed.

Lemma compute_Do_keeps (env : @compute_env Proof) (taskID : TaskID) d : wd_keeps d (compute_Do marshal env taskID d).1.
Proof.
  unfold compute_Do. destruct (_ ≫= scan_ident) as [tid|]; [|apply wd_keeps_refl].
  destruct (ce_head env) as [head|]; [|apply wd_keeps_refl]. set (test := isTestTask env taskID d).
  destruct (PeriodElapsed _ && negb test) eqn:Ee; [apply wd_keeps_refl|].
  destruct (negb (ce_tipset env _)); [apply wd_keeps_refl|].
  destruct (do_partition _ _ _ _ _) as [postOut|err] eqn:Ep; [|destruct err; apply wd_keeps_refl].
  destruct (marshal _) as [buf|] eqn:Em; [|apply wd_keeps_refl]. destruct test.
  - destruct (ce_exec env); [|apply wd_keeps_refl]. split; [simpl; lia|]. split; [|apply proofs_grow_refl]. intros [? ? ?]; by split.
  - destruct (ce_exec env); simpl; [|apply wd_keeps_refl].
    destruct (insert_proof _ _ _) as [d'|] eqn:Ei; [|apply wd_keeps_refl]. simpl.
    eapply insert_proof_keeps; [| |exact Ei]; [|done]. unfold compute_deadline in *. rewrite andb_false_r in *. rewrite andb_true_r in Ee.
    exists (DeadlineIndex tid), head, (ce_post env (NewDeadlineInfo (ProvingPeriodStart tid) (DeadlineIndex tid) head)), postOut. done.
Qed.

Lemma proofs_grow_cid (p : gmap wdTaskIdentity proof_row) (k : wdTaskIdentity) (c : string) : proofs_grow p (alter (with_cid c) k p).
Proof.
  intros k' r Hr. destruct (decide (k = k')) as [<-|Hne].
  - rewrite lookup_alter_eq, Hr. by eexists.
  - rewrite lookup_alter_ne by done. by exists r.
Qed.

Lemma lookup_alter_cid (p : gmap wdTaskIdentity proof_row) (k k' : wdTaskIdentity) (c : string) (r : proof_row) :
  alter (with_cid c) k p !! k' = Some r -> exists r0, p !! k' = Some r0 /\ submit_at_epoch r = submit_at_epoch r0
    /\ submit_by_epoch r = submit_by_epoch r0 /\ proof_params r = proof_params r0 /\ submit_task_id r = submit_task_id r0.
Proof.
  destruct (decide (k = k')) as [<-|Hne]; [|rewrite lookup_alter_ne by done; by exists r].
  rewrite lookup_alter_eq. destruct (p !! k) as [r0|]; [|done]. intros [= <-]. by exists r0.
Qed.

Lemma proofs_ok_cid (seq : Z) (p : gmap wdTaskIdentity proof_row) (k : wdTaskIdentity) (c : string) :
  proofs_ok seq p -> proofs_ok seq (alter (with_cid c) k p).
Proof.
  intros [Ho Hn Hq]. split.
  - intros k' r (r0 & Hr & Ha & Hb & Hp & _)%lookup_alter_cid. destruct (Ho _ _ Hr) as (idx & head & pe & post & ? & ? & ? & ? & ? & ?).
    exists idx, head, pe, post. rewrite Ha, Hb, Hp. done.
  - intros k1 k2 r1 r2 t (r1' & H1' & _ & _ & _ & E1)%lookup_alter_cid (r2' & H2' & _ & _ & _ & E2)%lookup_alter_cid Ht1 Ht2.
    eapply Hn; [exact H1'|exact H2'|by rewrite <- E1, Ht1|by rewrite <- E2, Ht2].
  - intros k' r t (r0 & Hr & _ & _ & _ & E)%lookup_alter_cid Ht. eapply Hq; [exact Hr|]. by rewrite <- E, Ht.
Qed.

Lemma wd_keeps_cid (c : string) (k : wdTaskIdentity) d : wd_keeps d (with_ext d (with_proofs (alter (with_cid c) k (wdpost_proofs (ext d))) (ext d))).
Proof.
  split; [simpl; lia|]. simpl. split; [|apply proofs_grow_cid]. intros [Hp Hr Hq]. split; [done|done|]. by apply proofs_ok_cid.
Qed.

Lemma submit_Do_keeps (env : @submit_env Proof) (taskID : TaskID) d :
  let '(d', m, r) := submit_Do marshal unmarshal env taskID d in
  wd_keeps d d' /\ forall s, m = Some s -> sent_ok (wdpost_proofs (ext d)) s /\ st_task s = taskID.
Proof.
  unfold submit_Do. destruct (enum _) as [|[tid row] rows] eqn:Er; [split; [apply wd_keeps_refl|done]|].
  assert ((tid, row) ∈ enum (List.filter (fun r : wdTaskIdentity * proof_row => bool_decide (submit_task_id r.2 = Some taskID)) (map_to_list (wdpost_proofs (ext d))))) as Hin
    by (rewrite Er; left). clear Er. rewrite enum_perm, list_elem_of_In, filter_In, <- list_elem_of_In in Hin. destruct Hin as [Hin%elem_of_map_to_list Ht%bool_decide_eq_true].
  destruct (_ || _); [split; [apply wd_keeps_refl|done]|]. destruct (se_head env) as [head|]; [|split; [apply wd_keeps_refl|done]].
  destruct (head >? submit_by_epoch row) eqn:Eb; [split; [apply wd_keeps_refl|done]|]. destruct (head <? submit_at_epoch row) eqn:Ea; [split; [apply wd_keeps_refl|done]|].
  destruct (unmarshal _) as [params|] eqn:Eu; [|split; [apply wd_keeps_refl|done]]. destruct (se_commit_rand env _) as [rand|]; [|split; [apply wd_keeps_refl|done]].
  destruct (marshal _) as [pbuf|]; [|split; [apply wd_keeps_refl|done]]. destruct (se_prepare env _ _) as [msg|]; [|split; [apply wd_keeps_refl|done]].
  set (s := mkSent _ _ _ _). assert (sent_ok (wdpost_proofs (ext d)) s) as Hs.
  { exists row, params. simpl. repeat split; try done; lia. }
  assert (forall s0, Some s = Some s0 -> sent_ok (wdpost_proofs (ext d)) s0 /\ st_task s0 = taskID) as Hs' by (intros s0 [= <-]; done).
  destruct (se_send env msg) as [c|]; [|split; [apply wd_keeps_refl|done]]. destruct (negb (se_update env)); [split; [apply wd_keeps_refl|done]|].
  destruct (_ || _); [split; [apply wd_keeps_cid|done]|]. split; [|done].
  eapply wd_keeps_trans; [apply (wd_keeps_cid c tid)|]. split; [simpl; lia|]. split; [|apply proofs_grow_refl]. intros [? ? ?]; by split.
Qed.

Lemma sent_ok_grow (p p' : gmap wdTaskIdentity proof_row) (s : @sent Proof) : proofs_grow p p' -> sent_ok p s -> sent_ok p' s.
Proof.
  intros Hg (row & ps & Hr & Ht & Hh & Hu & Hp & He). destruct (Hg _ _ Hr) as (r' & Hr' & Ha & Hb & Hps & Ht').
  exists r', ps. rewrite Ha, Hb, Hps. auto 8.
Qed.

Lemma wd_keeps_ok d d' (l l' : list (@sent Proof)) :
  wd_keeps d d' -> Forall (sent_ok (wdpost_proofs (ext d))) l' -> wd_ok (mkWdState d l) -> wd_ok (mkWdState d' (l ++ l')).
Proof.
  intros (Hs & Ht & Hg) Hn [Hok Hl]. split; [by apply Ht|]. cbn [ws_db ws_sent] in *. apply Forall_app.
  split; (eapply Forall_impl; [eassumption|]); intros s; by apply sent_ok_grow.
Qed.

Lemma wd_step_ok (st st' : wd_state) : wd_step st st' -> wd_ok st -> wd_ok st'.
Proof.
  intros Hstep Hok.
  assert (forall d d' l r, wd_keeps d r -> r = d' -> wd_ok (mkWdState d l) -> wd_ok (mkWdState d' l)) as Hk
    by (intros d d' l r Hk <- Ho; rewrite <- (app_nil_r l); by eapply wd_keeps_ok).
  destruct Hstep as [d l ad actors d' r E|d l ad height ok d' r E|d l ad actors d' r E|d l ? ? ? ? ? ? ? d' r E|d l env t d' r E|d l env t d' m r E|d l d' He Hs].
  - eapply Hk; [apply (compute_heads_keeps ad actors)|by rewrite E|done].
  - unfold submit_processHeadChange in E. destruct ok; simpl in E; [|by injection E as <- _].
    eapply Hk; [apply (add_submits_keeps ad)|by rewrite E|done].
  - eapply Hk; [apply (recover_heads_keeps ad actors)|by rewrite E|done].
  - eapply Hk; [apply test_start_keeps|by rewrite E|done].
  - eapply Hk; [apply (compute_Do_keeps env t)|by rewrite E|done].
  - pose proof (submit_Do_keeps env t d) as Hs. rewrite E in Hs. destruct Hs as [Hs Hm]. eapply wd_keeps_ok; [done| |done].
    destruct m as [s|]; [|constructor]. constructor; [by apply Hm|constructor].
  - eapply Hk; [by apply wd_keeps_ext|done|done].
Qed.

Definition wd_init : wd_tables := mkWd ∅ ∅ ∅ ∅ [].

Lemma wd_init_ok d : ext d = wd_init -> wd_ok (mkWdState d []).
Proof.
  intros He. split; [|constructor]. cbn [ws_db]. rewrite He. split; [by split; intros ? ?; rewrite ?lookup_empty..|].
  split; simpl; intros *; rewrite !lookup_empty; done.
Qed.

(** C20: every window proof that is submitted was computed for its partition and is
    submitted by the one task that serves it.  Take any interleaving of head changes (which
    create tasks), test tasks, runs of the compute and submit tasks on any number of nodes,
    retries and errors included.  A message handed to the sender for a partition carries
    exactly the parameters [DoPartition] returned for that provider, partition and deadline,
    for a deadline that had not elapsed, in a run that did not take itself for a test (a test
    task does so when its query for [harmony_test] fails, [test_proof_stored]); the height of
    the head when it is handed over is at least the opening and at most the close of that
    deadline; the close itself, where the next deadline is open already, is included
    ([submitted_at_close]); the commit epoch is the challenge epoch of the deadline; two
    messages are for the same partition exactly when they come from the same task; and an
    identity has at most one compute and one recovery task. *)
Theorem wdpost_submissions (d0 : wdb) (st : wd_state) :
  (forall p b, marshal p = Some b -> unmarshal b = Some p) ->
  ext d0 = wd_init -> rtc wd_step (mkWdState d0 []) st ->
  (forall s, s ∈ ws_sent st -> exists idx head pe,
     let key := st_ident s in
     let di := NewDeadlineInfo (ProvingPeriodStart key) idx head in
     DeadlineIndex key = Index di /\ PeriodElapsed di = false
     /\ do_partition pe di (PartitionIndex key) (SpID key) false = Ok (mp_post (st_params s))
     /\ Open di <= st_height s <= Close di
     /\ ChainCommitEpoch (st_params s) = Challenge (NewDeadlineInfo (ProvingPeriodStart key) (DeadlineIndex key) (st_height s)))
  /\ (forall s1 s2, s1 ∈ ws_sent st -> s2 ∈ ws_sent st -> st_ident s1 = st_ident s2 <-> st_task s1 = st_task s2)
  /\ (forall t1 t2 i, wdpost_partition_tasks (ext (ws_db st)) !! t1 = Some i -> wdpost_partition_tasks (ext (ws_db st)) !! t2 = Some i -> t1 = t2)
  /\ (forall t1 t2 i, wdpost_recovery_tasks (ext (ws_db st)) !! t1 = Some i -> wdpost_recovery_tasks (ext (ws_db st)) !! t2 = Some i -> t1 = t2).
Proof.
  intros Hcbor Hinit Hr. assert (wd_ok st) as [[[Ht _] [Hrt _] [Ho Hn _]] Hs].
  { eapply (rtc_invariant wd_step wd_ok); [intros ? ? ? ?; by eapply wd_step_ok|exact Hr|by apply wd_init_ok]. }
  rewrite Forall_forall in Hs. split; [|split; [|done]].
  - intros s (row & p & Hrow & _ & Hh & Hu & Hp & He)%Hs. destruct (Ho _ _ Hrow) as (idx & head & pe & post & Hdi & Hel & Hdo & Hm & Ha & Hb).
    apply Hcbor in Hm. assert (mp_post p = post) by (rewrite Hm in Hu; by injection Hu as <-).
    exists idx, head, pe. simpl. rewrite <- Ha, <- Hb. repeat split; try done; try lia. congruence.
  - intros s1 s2 (r1 & ? & H1' & Ht1 & _)%Hs (r2 & ? & H2' & Ht2 & _)%Hs. split.
    + intros E. rewrite E, H2' in H1'. injection H1' as <-. congruence.
    + intros E. rewrite E in Ht1. by eapply Hn.
Qed.

(** ** Every partition gets its task *)

Definition scheduled d (i : wdTaskIdentity) : Prop := exists t : TaskID, wdpost_partition_tasks (ext d) !! t = Some i.

Definition ids_bounded d : Prop := forall (a : TaskID) (i : wdTaskIdentity), wdpost_partition_tasks (ext d) !! a = Some i -> a < task_seq d.

(** The faults that [AddTask] retries. *)
Definition retried (f : tx_fault) : Prop := f = InsertFault Serialization \/ f = CommitFault Serialization.

Lemma add_tx_schedules e h (tid : wdTaskIdentity) (fault : tx_fault) d (now : time) :
  ids_bounded d -> fault = NoFault \/ retried fault ->
  let '(d', res, _) := add_tx (ST := ST) e h (addTaskToDB tid) fault d now in
  ids_bounded d' /\ (forall i, scheduled d i -> scheduled d' i) /\ (scheduled d' tid \/ fault <> NoFault /\ res = Err Serialization)
  /\ (forall i, scheduled d' i -> scheduled d i \/ i = tid).
Proof.
  intros Hb Hf. assert (ids_bounded (rollback_insert d)) as Hb' by (intros a i Ha; specialize (Hb a i Ha); simpl; lia).
  unfold add_tx. cbn [insert_task]. destruct Hf as [->|[->| ->]].
  1, 3: unfold addTaskToDB; destruct (insert_ident _ _ _) as [x|] eqn:E; simpl in E.
  5: (split; [done|]; split; [done|]; split; [right; done|by left]).
  2, 4: (split; [done|]; split; [done|]; split; [|by left]; left; apply insert_ident_none in E as [[i Hi]|[a Ha]]; [specialize (Hb _ _ Hi); lia|by exists a]).
  2: (split; [done|]; split; [done|]; split; [right; done|by left]).
  apply insert_ident_spec in E as (-> & Hn & _). split; [|split; [|split]].
  - intros a i. simpl. rewrite lookup_insert_Some. intros [[<- _]|[_ Ha]]; [lia|]. specialize (Hb _ _ Ha). lia.
  - intros i [a Ha]. exists a. simpl. rewrite lookup_insert_ne; [done|]. intros <-. congruence.
  - left. exists (task_seq d). simpl. by rewrite lookup_insert_eq.
  - intros i [a Ha]. simpl in Ha. apply lookup_insert_Some in Ha as [[_ <-]|[_ Ha]]; [by right|left; by exists a].
Qed.

Lemma AddTask_schedules e h (tid : wdTaskIdentity) (faults : list tx_fault) d (now : time) :
  ids_bounded d -> Forall retried faults ->
  let d' := (AddTask (ST := ST) e h (addTaskToDB tid) faults d now).1 in
  ids_bounded d' /\ forall i, scheduled d' i <-> scheduled d i \/ i = tid.
Proof using.
  clear unmarshal.
  intros Hb Hf. revert d Hb. induction Hf as [|f faults Hf Hfs IH]; intros d Hb; cbn [AddTask].
  - pose proof (add_tx_schedules e h tid NoFault d now Hb (or_introl eq_refl)) as Ha.
    destruct (add_tx _ _ _ _ _ _) as [[d' res] ag]. destruct Ha as (? & ? & [?|[? _]] & ?); [|done]. split; [done|]. intros i. split; [auto|]. intros [?| ->]; auto.
  - pose proof (add_tx_schedules e h tid f d now Hb (or_intror Hf)) as Ha.
    destruct (add_tx _ _ _ _ _ _) as [[d' res] ag]. destruct Ha as (Hb' & Hg & Hs & Ho).
    assert (scheduled d' tid -> ids_bounded d' /\ forall i, scheduled d' i <-> scheduled d i \/ i = tid) as Hend.
    { intros Ht. split; [done|]. intros i. split; [auto|]. intros [?| ->]; auto. }
    destruct res as [id|err]; [destruct Hs as [?|[_ ?]]; [auto|done]|].
    destruct err; try (destruct Hs as [?|[_ ?]]; [by auto|done]).
    destruct (IH d' Hb') as (Hb2 & Hs2). destruct (AddTask _ _ _ faults d' now) as [d2 ags]. simpl in *. split; [done|].
    intros i. rewrite Hs2. split; [intros [?%Ho|?]; tauto|]. intros [?| ->]; auto.
Qed.

Lemma add_partitions_schedules (ad : @adder_env ST) (aid pps idx pidx : Z) (n : nat) d :
  ad_set ad = true -> (forall tid, Forall retried (ad_faults ad tid)) -> ids_bounded d ->
  exists d', add_partitions ad aid pps idx pidx n d = (d', Ok tt) /\ ids_bounded d'
    /\ forall i, scheduled d' i <-> scheduled d i \/ exists k, pidx <= k < pidx + Z.of_nat n /\ i = mkIdent aid pps idx k.
Proof.
  intros Hset Hf. revert pidx d. induction n as [|n IH]; intros pidx d Hb; cbn [add_partitions].
  { exists d. split; [done|]. split; [done|]. intros i. split; [by left|]. intros [?|(k & Hk & _)]; [done|lia]. }
  rewrite Hset. cbn [negb]. unfold call_adder.
  destruct (AddTask_schedules (ad_engine ad) (ad_handler ad) (mkIdent aid pps idx pidx) (ad_faults ad (mkIdent aid pps idx pidx)) d (ad_now ad) Hb (Hf _))
    as (Hb1 & Hs1).
  destruct (IH (pidx + 1) _ Hb1) as (d' & E & Hb' & Hs'). exists d'. split; [exact E|]. split; [done|]. intros i. rewrite Hs', Hs1. split.
  - intros [[?| ->]|(k & Hk & ->)]; [by left|right; exists pidx|right; exists k]; (split; [lia|done]).
  - intros [?|(k & Hk & ->)]; [by left; left|]. destruct (decide (k = pidx)) as [->|Hne]; [by left; right|right]. exists k. split; [lia|done].
Qed.

(** What a head change finds about a miner that has started proving. *)
Definition proving (act : miner_view) (aid : Z) (di : dline_info) (ps : list partition) : Prop :=
  mv_id act = Some aid /\ mv_deadline act = Some di /\ PeriodStarted di = true /\ mv_partitions act (Index di) = Some ps.

Definition is_proving (act : miner_view) : Prop := exists aid di ps, proving act aid di ps.

(** The compute tasks that the miners before the first one that does not prove ask for. *)
Definition wanted (pre : list miner_view) (i : wdTaskIdentity) : Prop :=
  exists act aid di ps k, act ∈ pre /\ proving act aid di ps /\ 0 <= k < Z.of_nat (length ps) /\ i = mkIdent aid (PeriodStart di) (Index di) k.

Lemma wanted_cons act aid di ps pre i : proving act aid di ps ->
  wanted (act :: pre) i <-> (exists k, 0 <= k < 0 + Z.of_nat (length ps) /\ i = mkIdent aid (PeriodStart di) (Index di) k) \/ wanted pre i.
Proof.
  intros Hp. split.
  - intros (a & aid' & di' & ps' & k & Hin & Hp' & Hk & ->). apply elem_of_cons in Hin as [->|Hin]; [left|right; by exists a, aid', di', ps', k].
    destruct Hp as (E1 & E2 & _ & E3), Hp' as (F1 & F2 & _ & F3). rewrite E1 in F1. rewrite E2 in F2. injection F1 as <-. injection F2 as <-.
    rewrite E3 in F3. injection F3 as <-. exists k. split; [lia|done].
  - intros [(k & Hk & ->)|(a & aid' & di' & ps' & k & Hin & Hw)]; [exists act, aid, di, ps, k|exists a, aid', di', ps', k]; split; [left| |by right|done].
    split; [done|]. split; [lia|done].
Qed.

(** C29: which partitions get their compute task.  When the handler of head changes runs
    with its task function set and its transactions meet no errors but serialization errors
    (which are retried), then it creates the task rows of the current deadline for exactly
    the partitions of the miners before the first one, in the order of the loop, that has
    not started its proving period or for which a call of the node fails, [rest]: these
    partitions have their row afterwards, from this run or an earlier one, the rows that
    were there before stay, and no other row is added.  If there is no such miner, every
    partition of every miner has its task and the handler returns without an error; else
    the miners from it on get nothing in this run ([waiting_miner_stops]). *)
Theorem partitions_scheduled (ad : @adder_env ST) (pre rest : list miner_view) d :
  ad_set ad = true -> (forall tid, Forall retried (ad_faults ad tid)) -> ids_bounded d ->
  Forall is_proving pre -> (forall act actors, rest = act :: actors -> ~ is_proving act) ->
  exists d' r, compute_processHeadChange ad (pre ++ rest) d = (d', r) /\ (rest = [] -> r = Ok tt)
    /\ forall i, scheduled d' i <-> scheduled d i \/ wanted pre i.
Proof.
  intros Hset Hf Hb Ha Hrest. revert d Hb. induction Ha as [|act pre (aid & di & ps & Hp) Ha IH]; intros d Hb; cbn [app].
  { exists d, (compute_processHeadChange ad rest d).2. assert ((compute_processHeadChange ad rest d).1 = d) as E.
    { destruct rest as [|act actors]; [done|]. cbn [compute_processHeadChange]. destruct (mv_id act) as [aid|] eqn:Hid; [|done].
      destruct (mv_deadline act) as [di|] eqn:Hdi; [|done]. destruct (PeriodStarted di) eqn:Hst; [|done]. cbn [negb].
      destruct (mv_partitions act (Index di)) as [ps|] eqn:Hps; [|done]. exfalso. apply (Hrest act actors eq_refl). by exists aid, di, ps. }
    split; [rewrite <- E at 2; apply surjective_pairing|]. split; [by intros ->|]. intros i. split; [by left|]. intros [?|(a & ? & ? & ? & ? & Hin & _)]; [done|].
    by apply elem_of_nil in Hin. }
  pose proof Hp as (Hid & Hdi & Hst & Hps). cbn [compute_processHeadChange]. rewrite Hid, Hdi, Hst, Hps. cbn [negb].
  destruct (add_partitions_schedules ad aid (PeriodStart di) (Index di) 0 (length ps) d Hset Hf Hb) as (d1 & -> & Hb1 & Hs1).
  destruct (IH d1 Hb1) as (d' & r & -> & Hr & Hs). exists d', r. split; [done|]. split; [done|]. intros i. rewrite Hs, Hs1, (wanted_cons _ _ _ _ _ _ Hp). tauto.
Qed.

(** One miner that has not started keeps the miners after it in the order of the
    loop from being proved. *)
Lemma waiting_miner_stops (ad : @adder_env ST) (act : miner_view) (aid : Z) (di : dline_info) (actors : list miner_view) d :
  mv_id act = Some aid -> mv_deadline act = Some di -> PeriodStarted di = false ->
  compute_processHeadChange ad (act :: actors) d = (d, Ok tt).
Proof. intros Hid Hdi Hst. simpl. by rewrite Hid, Hdi, Hst. Qed.

(** ** Accepting tasks *)

Lemma compute_accepts (cuzk : bool) (ready : option bool) (head : option Z) (failures : TaskID -> option Z) (ids l : list TaskID) d :
  compute_CanAccept cuzk ready head failures ids d = Ok l -> l ⊆+ ids.
Proof.
  unfold compute_CanAccept. destruct (if cuzk then _ else _) as [[]|]; [|intros [= <-]; apply submseteq_nil_l|done].
  destruct head as [height|]; [|done]. set (rows := enum _).
  assert (NoDup rows.*1 /\ forall r, r ∈ rows -> r.1 ∈ ids) as [Hnd Hin].
  { unfold rows. rewrite enum_perm. split.
    - apply NoDup_fst_filter, NoDup_fst_map_to_list.
    - intros r. rewrite enum_perm, list_elem_of_In, filter_In. by intros [_ ?%bool_decide_eq_true]. }
  destruct (existsb _ rows); [done|]. set (tasks := _ <$> rows).
  assert (tasks.*1 = rows.*1) as Ht by (unfold tasks; by rewrite <- list_fmap_compose).
  assert (forall ts : list (TaskID * dline_info), ts ⊆+ tasks -> ts.*1 ⊆+ ids) as Hsub.
  { intros ts Hts. transitivity rows.*1; [rewrite <- Ht; by apply fmap_submseteq|]. apply NoDup_submseteq; [done|].
    intros t (r & -> & Hr)%list_elem_of_fmap. auto. }
  destruct (0 <? _)%nat; [intros [= <-]; apply Hsub, filter_submseteq_b|].
  destruct (_ =? _)%nat; [intros [= <-]; apply submseteq_nil_l|].
  pose proof (SliceIfFound_spec (fun t : TaskID * dline_info => default 0 (failures t.1) <? 2) tasks) as [_ Hsl].
  destruct (SliceIfFound _ tasks) as [ts' [ts b]]. cbn [snd] in Hsl. intros [= <-]. apply Hsub. rewrite merge_sort_Permutation, enum_perm.
  destruct (existsb _ tasks); injection Hsl as -> _; [apply filter_submseteq_b|done].
Qed.

(** The compute task answers the engine as the engine expects it. *)
Lemma compute_accepts_some (env : work_env) (cuzk : bool) (ready : option bool) (head : option Z) (failures : TaskID -> option Z) d :
  we_can_accept env WorkSourceRecover = (fun ids => match compute_CanAccept cuzk ready head failures ids d with Ok l => Some l | Err _ => None end) ->
  accepts_some env.
Proof.
  intros He ids l. rewrite He. destruct (compute_CanAccept _ _ _ _ _ _) as [l'|] eqn:E; [|done]. intros [= <-]. by eapply compute_accepts.
Qed.
End Facts.
