(* ===== verification/WdPostExamples.v ===== *)
(** * Window proofs of a small miner

    One partition of three sectors, one of them faulty and one unreadable, from the
    head change to the message; the theorems on window proofs are applied to it. *)

From stdpp Require Import base gmap sets list strings sorting.
From Stdlib Require Import ZArith Lia.
From S2P Require Import Prelude FileType Float64 HarmonyDB Limiter Resources TaskEngine SectorLocks GoStd StorageIndex EngineExamples CtlAddr WdPostProof WdPostProofFacts WdPost WdPostFacts.

(** ** The chain *)

(** The deadlines as the chain library computes them. *)
#[local] Instance wx_dlines : Dlines := {
  NewInfo ps idx cur n period window lookback cutoff :=
    let op := ps + idx * window in mkDline cur ps idx op (op + window) (op - lookback) (op - cutoff) n period;
  PeriodStarted di := PeriodStart di <=? CurrentEpoch di;
  PeriodElapsed di := PeriodStart di + WPoStProvingPeriod di <=? CurrentEpoch di;
  FaultCutoffPassed di := FaultCutoff di <=? CurrentEpoch di;
  NextPeriodStart di := PeriodStart di + WPoStProvingPeriod di;
  actor_PeriodDeadlines := 48; actor_ProvingPeriod := 2880; actor_ChallengeWindow := 60; actor_ChallengeLookback := 20; actor_FaultDeclarationCutoff := 70
}.

Definition wx_sector (n : Z) : ExtendedSectorInfo := mkExt n "cid" 8 None.

(** The miner actor knows the sectors 1 to 4. *)
Definition wx_sectors (bf : gset Z) : option (list ExtendedSectorInfo) := Some (wx_sector <$> filter (fun n => n ∈ bf) [1; 2; 3; 4]).

Lemma wx_sectors_honest : sectors_honest wx_sectors.
Proof.
  intros bf l [= <-]. split.
  - rewrite <- list_fmap_compose. change (NoDup (id <$> filter (fun n => n ∈ bf) [1; 2; 3; 4])). rewrite list_fmap_id.
    apply NoDup_filter. apply (bool_decide_unpack _). reflexivity.
  - apply Forall_fmap, Forall_forall. intros n [Hn _]%list_elem_of_filter. done.
Qed.

Definition wx_partition : partition := mkPart {[1; 2; 3; 4]} {[1; 2; 3]} {[3]} ∅.

(** Sector 2 cannot be read. *)
Definition wx_vanilla (c : PostSectorChallenge) : vanilla := if ch_SectorNumber c =? 2 then VanillaErr else VanillaBytes [ch_SectorNumber c].

Definition wx_prover (rand : list Z) (vproofs : list (list Z)) (idx : nat) : option Z := Some (Z.of_nat (length vproofs)).

Definition wx_merge (ppt : Z) (ps : list (option Z)) : option Z := match ps with [Some p] => Some p | _ => None end.

(** The verifier expects as many sectors as were to be proved. *)
Definition wx_verify (rand : list Z) (proofs : list Z) (infos : list SectorInfo) (prover : Z) : option bool :=
  Some (bool_decide (proofs = [1]) && bool_decide (si_SectorNumber <$> infos = [1; 1])).

Definition wx_rand : list Z := replicate 32 255.

Definition wx_post : post_env Z :=
  mkPostEnv Z wx_sectors wx_vanilla wx_prover (fun _ => Some 2349) (fun _ _ _ nums => Some (nums, fun n => [n])) wx_merge
    (fun _ => Some wx_rand) (Some [wx_partition]) (fun _ => Some 3) wx_verify false.

Definition wx_params : @SubmitWindowedPoStParams Z := mkParams 0 [mkPostPartition 0 {[2]}] [1].

Lemma wx_do_partition : do_partition wx_post (NewDeadlineInfo 0 0 10) 0 1000 false = Ok wx_params.
Proof. vm_compute. reflexivity. Qed.

Lemma window_proof_sound_witness :
  exists rand xs, wx_verify rand [1] (chain_sectors {[2]} xs) 1000 = Some true.
Proof.
  pose proof (window_proof_sound wx_sectors wx_vanilla wx_prover (fun _ => Some 2349) (fun _ _ _ nums => Some (nums, fun n => [n])) wx_merge
    (fun _ => Some wx_rand) (Some [wx_partition]) (fun _ => Some 3) wx_verify false 0 0 1000 false wx_params wx_sectors_honest wx_do_partition) as Hw.
  destruct Hw as (rand & _ & _ & _ & xs & sk & _ & _ & _ & _ & _ & _ & _ & _ & _ & _ & Hp & Hv).
  exists rand, xs. injection Hp as <-. exact Hv.
Defined.

(** Sector 3 is readable again, sector 4 is locked. *)
Definition wx_tracker : tracker :=
  mkTracker (fun _ => true) (fun id _ _ => Some (negb (Number id =? 4))) (fun _ => Some [7]) (fun _ c => wx_vanilla c).

Lemma wx_check : checkSectors wx_sectors (fun _ => Some 3) 1000 wx_tracker {[3; 4]} = Some {[3]}.
Proof. vm_compute. reflexivity. Qed.

Lemma recovered_exact_witness :
  ({[3]} : gset Z) ⊆ {[3; 4]} /\ exists x, xs_SectorNumber x = 3 /\ provable wx_tracker 1000 x.
Proof.
  pose proof (recovered_exact wx_sectors (fun _ => Some 3) wx_tracker 1000 {[3; 4]} {[3]} wx_sectors_honest wx_check) as (sset & _ & Hs & Hg).
  split; [exact Hs|]. destruct (proj1 (Hg 3)) as (x & _ & Hn & Hp); [by apply elem_of_singleton|]. by exists x.
Defined.

(** ** From the head change to the message *)

(** A binary form of the parameters. *)
Definition wx_tuple (p : msg_params Z) : Z * list (Z * gset Z) * list Z * Z * list Z :=
  (sp_Deadline (mp_post p), (fun q => (pp_Index q, pp_Skipped q)) <$> sp_Partitions (mp_post p), sp_Proofs (mp_post p), ChainCommitEpoch p, ChainCommitRand p).

Definition wx_untuple (x : Z * list (Z * gset Z) * list Z * Z * list Z) : msg_params Z :=
  let '(dl, ps, prs, ep, rd) := x in mkMsgParams (mkParams dl ((fun q => mkPostPartition q.1 q.2) <$> ps) prs) ep rd.

Definition wx_marshal (p : msg_params Z) : option (list Z) := Some [Z.pos (encode (wx_tuple p))].
Definition wx_unmarshal (b : list Z) : option (msg_params Z) := match b with [Z.pos x] => wx_untuple <$> decode x | _ => None end.

Lemma wx_cbor p b : wx_marshal p = Some b -> wx_unmarshal b = Some p.
Proof.
  intros [= <-]. unfold wx_unmarshal. rewrite decode_encode. simpl. destruct p as [[dl ps prs] ep rd]. unfold wx_tuple, wx_untuple. simpl.
  assert ((fun q : Z * gset Z => mkPostPartition q.1 q.2) <$> ((fun q : PoStPartition => (pp_Index q, pp_Skipped q)) <$> ps) = ps) as ->; [|done].
  induction ps as [|[i s] ps IH]; [done|]. simpl. f_equal. exact IH.
Qed.

Definition wx_d0 : db wd_tables := mkDB ∅ 1 [] [] ∅ 1 ∅ wd_init.
Definition wx_adder : @adder_env unit := mkAdder ex_e1 ex_handler 100 (fun _ => [CommitFault Serialization]) true.
Definition wx_miner : miner_view := mkMinerView (Some 1000) (Some (NewDeadlineInfo 0 0 10)) (fun _ => Some [wx_partition]).
Definition wx_compute : @compute_env Z := mkComputeEnv (Some 10) true (fun _ => true) (fun _ => wx_post) true.
Definition wx_msg : chain_message := mkMessage "t3" "f01000" 5 [] 0 0 0 0.
Definition wx_submit : @submit_env Z := mkSubmitEnv (Some 12) (fun _ => Some [9]) (fun _ _ => Some wx_msg) (fun _ => Some "bafy"%string) true true.

Definition wx_d1 : db wd_tables := (compute_processHeadChange wx_adder [wx_miner] wx_d0).1.
Definition wx_d2 : db wd_tables := (compute_Do wx_marshal wx_compute 2 wx_d1).1.
Definition wx_d3 : db wd_tables := (submit_processHeadChange wx_adder 11 true wx_d2).1.
Definition wx_sent : option (@sent Z) := (submit_Do wx_marshal wx_unmarshal wx_submit 4 wx_d3).1.2.
Definition wx_d4 : db wd_tables := (submit_Do wx_marshal wx_unmarshal wx_submit 4 wx_d3).1.1.

Example wx_sent_message : wx_sent = Some (mkSent (mkIdent 1000 0 0 0) 4 12 (mkMsgParams wx_params (-20) [9])).
Proof. vm_compute. reflexivity. Qed.

Lemma wx_run : rtc (wd_step (ST := unit) wx_marshal wx_unmarshal) (mkWdState wx_d0 []) (mkWdState wx_d4 (option_list wx_sent)).
Proof.
  eapply rtc_l; [eapply (ws_heads _ _ wx_d0 [] wx_adder [wx_miner]); apply surjective_pairing|].
  eapply rtc_l; [eapply (ws_compute _ _ wx_d1 [] wx_compute 2); apply surjective_pairing|].
  eapply rtc_l; [eapply (ws_submits _ _ wx_d2 [] wx_adder 11 true); apply surjective_pairing|].
  apply rtc_once. apply (ws_submit _ _ wx_d3 [] wx_submit 4 wx_d4 wx_sent (submit_Do wx_marshal wx_unmarshal wx_submit 4 wx_d3).2).
  unfold wx_d4, wx_sent. by destruct (submit_Do _ _ _ _ _) as [[? ?] ?].
Qed.

Lemma wdpost_submissions_witness :
  exists s, option_list wx_sent = [s] /\ exists idx head, Open (NewDeadlineInfo 0 idx head) <= 12 <= Close (NewDeadlineInfo 0 idx head).
Proof.
  pose proof (wdpost_submissions wx_marshal wx_unmarshal wx_d0 (mkWdState wx_d4 (option_list wx_sent)) wx_cbor eq_refl wx_run) as [Hs _].
  eexists. split; [rewrite wx_sent_message; reflexivity|].
  destruct (Hs (mkSent (mkIdent 1000 0 0 0) 4 12 (mkMsgParams wx_params (-20) [9]))) as (idx & head & pe & _ & _ & _ & Hh & _).
  { cbn [ws_sent]. rewrite wx_sent_message. left. }
  exists idx, head. exact Hh.
Defined.

Lemma wx_bounded : ids_bounded wx_d0.
Proof. intros a i Ha. cbn in Ha. by rewrite lookup_empty in Ha. Qed.

Lemma wx_retried (tid : wdTaskIdentity) : Forall retried (ad_faults wx_adder tid).
Proof. constructor; [by right|constructor]. Qed.

Lemma wx_proving : proving wx_miner 1000 (NewDeadlineInfo 0 0 10) [wx_partition].
Proof. repeat split. Qed.

Lemma partitions_scheduled_witness : exists d', scheduled d' (mkIdent 1000 0 0 0).
Proof.
  destruct (partitions_scheduled wx_adder [wx_miner] [] wx_d0 eq_refl wx_retried wx_bounded) as (d' & _ & _ & _ & Hs).
  { constructor; [|constructor]. do 3 eexists. exact wx_proving. }
  { intros act actors E. discriminate E. }
  exists d'. apply Hs. right. exists wx_miner, 1000, (NewDeadlineInfo 0 0 10), [wx_partition], 0.
  split; [left|]. split; [exact wx_proving|]. split; [simpl; lia|reflexivity].
Defined.

(** A message is handed over when the head is at the close of the deadline. *)
Definition wx_late : @submit_env Z := mkSubmitEnv (Some (Close (NewDeadlineInfo 0 0 10))) (fun _ => Some [9]) (fun _ _ => Some wx_msg) (fun _ => Some "bafy"%string) true true.

Example submitted_at_close : st_height <$> (submit_Do wx_marshal wx_unmarshal wx_late 4 wx_d3).1.2 = Some (Close (NewDeadlineInfo 0 0 10))
  /\ Open (NewDeadlineInfo 0 1 10) = Close (NewDeadlineInfo 0 0 10).
Proof. split; vm_compute; reflexivity. Qed.

(** ** Test tasks *)

(** The answer of the query whether a task is a test is taken for no when the query
    fails, and the proof of the test is stored for submission. *)
Definition wx_test : db wd_tables := (WdPostTaskStart 1 1000 10 0 0 100 true wx_d0).1.
Definition wx_no_query : @compute_env Z := mkComputeEnv (Some 10) false (fun _ => true) (fun _ => wx_post) true.

Example test_proof_stored :
  harmony_test (ext wx_test) !! 1 = Some None
  /\ wdpost_proofs (ext (compute_Do wx_marshal wx_compute 1 wx_test).1) = ∅
  /\ is_Some (wdpost_proofs (ext (compute_Do wx_marshal wx_no_query 1 wx_test).1) !! mkIdent 1000 10 0 0).
Proof. split; [vm_compute; reflexivity|]. split; [vm_compute; reflexivity|]. vm_compute. eauto. Qed.
