(* ===== verification/Winning.v ===== *)
(** * Mining blocks

    [tasks/winning/winning_task.go] and [inclusion_check_task.go]: the loop that follows
    the head of the chain and creates a task per miner and round, the task that takes
    part in the election of the round, proves its sectors, builds a block and submits
    it, and the check that blocks ended up in the chain.  A miner that signs two blocks
    for a round, or two on the same parents, loses its collateral; the tables of the
    tasks are there to prevent it.  The chain node, the prover, and the tip sets of
    the chain library are parameters. *)

From stdpp Require Import base gmap sets list strings sorting.
From Stdlib Require Import ZArith Lia.
From S2P Require Import Prelude FileType Float64 HarmonyDB Limiter Resources TaskEngine SectorLocks GoStd StorageIndex WdPostProof.
Import Taskhelp.

(** ** Data *)

(** [types.BlockHeader] and [types.TipSet] as far as they are read. *)
Record BlockHeader := mkHeader { bh_Cid : string; bh_Ticket : list Z }.
Record TipSet := mkTipSet { ts_Blocks : list BlockHeader; ts_Height : Z; ts_MinTimestamp : Z }.

Definition ts_Cids (ts : TipSet) : list string := bh_Cid <$> ts_Blocks ts.

(** [TipSet.Equals] compares the keys. *)
Definition ts_Equals (a b : TipSet) : bool := bool_decide (ts_Cids a = ts_Cids b).

(** [api.MiningBaseInfo] *)
Record MiningBaseInfo := mkBaseInfo {
  EligibleForMining : bool; mbi_Sectors : list ExtendedSectorInfo; BeaconEntries : list (list Z); PrevBeaconEntry : list Z }.

Inductive base_answer := BaseError | NoBase | BaseInfo (mbi : MiningBaseInfo).

(** [api.BlockTemplate], and the block that is made of it. *)
Record BlockTemplate := mkTemplate {
  bt_Miner : Z; bt_Parents : list string; bt_Ticket : list Z; bt_Eproof : list Z; bt_BeaconValues : list (list Z);
  bt_Messages : list Z; bt_Epoch : Z; bt_Timestamp : Z; bt_WinningPoStProof : list Z }.

Record block := mkBlock { bl_cid : string; bl_template : BlockTemplate }.

(** ** Tables *)

(** A row of [mining_tasks]; it is unique in provider and epoch. *)
Record mining_row := mkMining {
  mt_sp_id : Z; mt_epoch : Z; base_compute_time : time; won : bool; mined_cid : option string; mt_submitted_at : option time; included : option bool }.

(** [mining_base_block], by task and block; unique in provider and block among the
    rows that are not marked [no_win]. *)
Record win_tables := mkWin {
  mining_tasks : gmap TaskID mining_row;
  mining_base_block : gmap (TaskID * string) (Z * bool)
}.

Definition insert_mining (id : TaskID) (row : mining_row) (x : win_tables) : option win_tables :=
  match mining_tasks x !! id with
  | Some _ => None
  | None =>
      if bool_decide (Exists (fun r : TaskID * mining_row => mt_sp_id r.2 = mt_sp_id row /\ mt_epoch r.2 = mt_epoch row) (map_to_list (mining_tasks x))) then None
      else Some (mkWin (<[id := row]> (mining_tasks x)) (mining_base_block x))
  end.

Definition insert_base (id : TaskID) (sp : Z) (c : string) (x : win_tables) : option win_tables :=
  match mining_base_block x !! (id, c) with
  | Some _ => None
  | None =>
      if bool_decide (Exists (fun r : (TaskID * string) * (Z * bool) => r.1.2 = c /\ r.2 = (sp, false)) (map_to_list (mining_base_block x))) then None
      else Some (mkWin (mining_tasks x) (<[(id, c) := (sp, false)]> (mining_base_block x)))
  end.

Fixpoint insert_bases (id : TaskID) (sp : Z) (cs : list string) (x : win_tables) : option win_tables :=
  match cs with
  | [] => Some x
  | c :: cs => match insert_base id sp c x with None => None | Some x => insert_bases id sp cs x end
  end.

Definition base_cids (t : TaskID) (x : win_tables) : list string :=
  (fun r : (TaskID * string) * (Z * bool) => r.1.2) <$> List.filter (fun r => r.1.1 =? t) (map_to_list (mining_base_block x)).

(** ** The base of a round *)

Record MiningBase := mkMiningBase { mb_TipSet : TipSet; ComputeTime : time; AddRounds : Z }.

Definition mb_epoch (mb : MiningBase) : Z := ts_Height (mb_TipSet mb) + AddRounds mb + 1.

Definition no_tipset : TipSet := mkTipSet [] 0 0.

Inductive win_err := WinQuery | WinCid | WinApi | NotIncluded | NoSectorsSelected | VanillaFailed | WinProve | AlreadyMined | NotOwned | SubmitFailed | WinDb | NoRows.

(** How an attempt ends: without a block (the task is done, or failed), with the
    election lost, or with a block to submit. *)
Inductive attempt := Stop (done_ : bool) (err : option win_err) | NoWin | Mined (b : block).

Section Winning.
Context `{Enum} {ST : Type} `{StorageOps ST}.
Abbreviation mdb := (db win_tables).
Implicit Types (d : mdb).

(** The loop [mineBasic]: the base of the next round from the head; [weight] is
    [ChainTipSetWeight]. *)
Definition next_base (weight : TipSet -> Z) (workBase : MiningBase) (maybeBase : TipSet) (now : time) : MiningBase :=
  if ts_Equals (mb_TipSet workBase) maybeBase then mkMiningBase (mb_TipSet workBase) (ComputeTime workBase) (AddRounds workBase + 1)
  else if weight maybeBase <=? weight (mb_TipSet workBase) then mkMiningBase (mb_TipSet workBase) (ComputeTime workBase) (AddRounds workBase + 1)
  else mkMiningBase maybeBase now 0.

(** The blocks this provider has won at the height of the base. *)
Definition own_blocks (sp epoch : Z) (x : win_tables) : list (option string) :=
  (fun r : TaskID * mining_row => mined_cid r.2)
    <$> List.filter (fun r => (mt_epoch r.2 =? epoch) && (mt_sp_id r.2 =? sp) && won r.2) (map_to_list (mining_tasks x)).

(** The callback that adds the task of a round; [parse] is [cid.Parse]. *)
Definition mine_extra (parse : string -> option string) (workBase : MiningBase) (spID : Z) : @extra win_tables := fun id d =>
  let insert :=
    match insert_mining id (mkMining spID (mb_epoch workBase) (ComputeTime workBase) false None None None) (ext d) with
    | None => Err UniqueConstraint
    | Some x =>
        match insert_bases id spID (ts_Cids (mb_TipSet workBase)) x with
        | None => Err UniqueConstraint
        | Some x => Ok (with_ext d x, true)
        end
    end in
  match enum (own_blocks spID (ts_Height (mb_TipSet workBase)) (ext d)) with
  | [] => insert
  | None :: _ => Err OtherError
  | Some baseBlockCid :: _ =>
      match parse baseBlockCid with
      | None => Err OtherError
      | Some c => if bool_decide (c ∈ ts_Cids (mb_TipSet workBase)) then insert else Err OtherError
      end
  end.

(** The tasks of a round; a provider whose address is no id is skipped. *)
Fixpoint dispatch (parse : string -> option string) (e : engine ST) (h : handler) (now : time) (faults : Z -> list tx_fault) (workBase : MiningBase) (actors : list (option Z)) d : mdb :=
  match actors with
  | [] => d
  | None :: actors => dispatch parse e h now faults workBase actors d
  | Some spID :: actors =>
      dispatch parse e h now faults workBase actors (AddTask e h (mine_extra parse workBase spID) (faults spID) d now).1
  end.

(** ** The attempt *)

(** The answers of the chain node and the prover in one run. *)
Record win_env := mkWinEnv {
  we_parse : string -> option string;                          (* cid.Parse *)
  we_tipset : list string -> option TipSet;                    (* ChainGetTipSet *)
  we_base_info : Z -> Z -> list string -> base_answer;         (* MinerGetBaseInfo *)
  we_age_head : option Z;                                      (* ChainHead after an error of it *)
  we_winner : Z -> list Z -> option (option (list Z));         (* gen.IsRoundWinner *)
  we_draw : list Z -> Z -> Z -> list Z -> option (list Z);     (* DrawRandomnessFromBase; data, tag, round, entropy *)
  we_proof_type : Z -> option Z;                               (* RegisteredWinningPoStProof *)
  we_challenges : list Z -> list Z -> option (Z -> list Z);    (* GeneratePoStFallbackSectorChallenges *)
  we_vanilla : PostSectorChallenge -> vanilla;
  we_prove : list Z -> list (list Z) -> option (list Z);
  we_vrf : list Z -> option (list Z);                          (* gen.ComputeVRF *)
  we_select : list string -> list Z -> option (list Z);        (* MpoolSelect *)
  we_best : option TipSet;                                     (* ChainHead *)
  we_weight : TipSet -> option Z;                              (* ChainTipSetWeight *)
  we_new_tipset : list BlockHeader -> option TipSet;           (* types.NewTipSet *)
  we_min_ticket : TipSet -> list Z;
  we_create : BlockTemplate -> option string                   (* MinerCreateBlock *)
}.

Variable address_bytes : Z -> list Z.                          (* maddr.MarshalCBOR *)
Variables ChainFinality UpgradeSmokeHeight TicketRandomnessLookback BlockDelaySecs : Z.
Variables tag_TicketProduction tag_WinningPoStChallengeSeed : Z.

Definition computeTicket (env : win_env) (sp : Z) (brand : list Z) (round : Z) (chainRand : list Z) : option (list Z) :=
  let buf := address_bytes sp ++ (if round >? UpgradeSmokeHeight then chainRand else []) in
  we_draw env brand tag_TicketProduction (round - TicketRandomnessLookback) buf ≫= we_vrf env.

(** [generateWinningPost]: every sector has to be read. *)
Definition generateWinningPost (env : win_env) (sectors : list PostSectorChallenge) (randomness : list Z) : option (list Z) :=
  match mapM (fun s => match we_vanilla env s with VanillaBytes b => Some b | _ => None end) sectors with
  | None => None
  | Some vproofs => we_prove env randomness vproofs
  end.

Definition win_challenge (ch : Z -> list Z) (s : ExtendedSectorInfo) : PostSectorChallenge :=
  mkChallenge (xs_SealProof s) (xs_SectorNumber s) (xs_SealedCID s) (ch (xs_SectorNumber s)) (key_given s).

(** The proof of the sectors the chain chose. *)
Definition winning_proof (env : win_env) (sp : Z) (rbase : list Z) (round : Z) (sectors : list ExtendedSectorInfo) : option (list Z) :=
  match we_draw env rbase tag_WinningPoStChallengeSeed round (address_bytes sp) ≫= mask_randomness, sectors with
  | Some prand, s0 :: _ =>
      match we_proof_type env (xs_SealProof s0) with
      | None => None
      | Some _ =>
          match we_challenges env prand (xs_SectorNumber <$> sectors) with
          | None => None
          | Some ch => generateWinningPost env (win_challenge ch <$> sectors) prand
          end
      end
  | _, _ => None
  end.

(** The tip set the block is built on, with its ticket and messages: when the head has
    changed at the same height, the blocks the two have in common. *)
Definition refresh_base (env : win_env) (sp : Z) (rbase : list Z) (round : Z) (base : TipSet) (ticket msgs : list Z) : option (TipSet * list Z * list Z) :=
  match we_best env with
  | None => None
  | Some bestTs =>
      match we_weight env bestTs, we_weight env base with
      | Some headWeight, Some baseWeight =>
          let bestTs := if headWeight <=? baseWeight then base else bestTs in
          if (ts_Height bestTs =? ts_Height base) && negb (ts_Equals bestTs base) then
            let refreshedBaseBlocks := List.filter (fun b => bool_decide (bh_Cid b ∈ ts_Cids bestTs)) (ts_Blocks base) in
            if negb (length refreshedBaseBlocks =? 0)%nat && negb (length refreshedBaseBlocks =? length (ts_Blocks base))%nat then
              match we_new_tipset env refreshedBaseBlocks with
              | None => None
              | Some refreshedBase =>
                  match (if bool_decide (we_min_ticket env base = we_min_ticket env refreshedBase) then Some ticket
                         else computeTicket env sp rbase round (we_min_ticket env refreshedBase)) with
                  | None => None
                  | Some ticket =>
                      match we_select env (ts_Cids refreshedBase) ticket with
                      | None => None
                      | Some msgs => Some (refreshedBase, ticket, msgs)
                      end
                  end
              end
            else Some (base, ticket, msgs)
          else Some (base, ticket, msgs)
      | _, _ => None
      end
  end.

(** The part of [Do] after the election is won, up to the block. *)
Definition build_block (env : win_env) (sp round : Z) (base : TipSet) (addRounds : Z) (mbi : MiningBaseInfo) (rbase eproof : list Z) : attempt :=
  match winning_proof env sp rbase round (mbi_Sectors mbi) with
  | None => Stop false (Some WinProve)
  | Some wpostProof =>
      match computeTicket env sp rbase round (we_min_ticket env base) with
      | None => Stop false (Some WinApi)
      | Some ticket =>
          match we_select env (ts_Cids base) ticket with
          | None => Stop false (Some WinApi)
          | Some msgs =>
              match refresh_base env sp rbase round base ticket msgs with
              | None => Stop false (Some WinApi)
              | Some (base, ticket, msgs) =>
                  let uts := u64 (ts_MinTimestamp base + u64 (BlockDelaySecs * u64 (addRounds + 1))) in
                  let template := mkTemplate sp (ts_Cids base) ticket eproof (BeaconEntries mbi) msgs round uts wpostProof in
                  match we_create env template with
                  | None => Stop false (Some WinApi)
                  | Some c => Mined (mkBlock c template)
                  end
              end
          end
      end
  end.

(** [Do] up to the statement that records its outcome. *)
Definition try_mine (env : win_env) (taskID : TaskID) d : attempt :=
  match mining_tasks (ext d) !! taskID with
  | None => Stop false (Some WinQuery)
  | Some row =>
      if (mt_sp_id row <? 0) || (mt_epoch row <? 0) then Stop false (Some WinQuery)
      else if won row then Stop true None
      else
        match mapM (we_parse env) (enum (base_cids taskID (ext d))) with
        | None => Stop false (Some WinCid)
        | Some bcids =>
            match we_tipset env bcids with
            | None => Stop false (Some WinApi)
            | Some baseTs =>
                let base := mkMiningBase baseTs (base_compute_time row) (mt_epoch row - ts_Height baseTs - 1) in
                let round := mb_epoch base in
                match we_base_info env (mt_sp_id row) round (ts_Cids baseTs) with
                | BaseError =>
                    match we_age_head env with
                    | None => Stop false (Some WinApi)
                    | Some curHead => if curHead >? ts_Height baseTs + ChainFinality then NoWin else Stop false (Some WinApi)
                    end
                | NoBase => NoWin
                | BaseInfo mbi =>
                    if negb (EligibleForMining mbi) then NoWin
                    else if (length (mbi_Sectors mbi) =? 0)%nat then Stop false (Some NoSectorsSelected)
                    else
                      let rbase := default (PrevBeaconEntry mbi) (last (BeaconEntries mbi)) in
                      match we_winner env round rbase with
                      | None => Stop false (Some WinApi)
                      | Some None => NoWin
                      | Some (Some eproof) => build_block env (mt_sp_id row) round baseTs (AddRounds base) mbi rbase eproof
                      end
                end
            end
        end
  end.

(** ** Recording the outcome *)

(** [UPDATE mining_base_block SET no_win = true WHERE task_id = $1] *)
Definition mark_no_win (t : TaskID) (x : win_tables) : win_tables :=
  mkWin (mining_tasks x) (map_imap (fun (k : TaskID * string) (v : Z * bool) => Some (if k.1 =? t then (v.1, true) else v)) (mining_base_block x)).

Definition persistNoWin (taskID : TaskID) (exec_ok : bool) d : mdb * (bool * option win_err) :=
  if negb exec_ok then (d, (false, Some WinDb))
  else
    let d' := with_ext d (mark_no_win taskID (ext d)) in
    if (length (base_cids taskID (ext d)) =? 0)%nat then (d', (false, Some NoRows)) else (d', (true, None)).

(** [UPDATE mining_tasks SET won = true, ... WHERE task_id = $1 AND won = false]: whether
    a row was changed. *)
Definition set_won (t : TaskID) (b : block) (x : win_tables) : option win_tables :=
  match mining_tasks x !! t with
  | Some (mkMining sp ep ct false _ sa inc) => Some (mkWin (<[t := mkMining sp ep ct true (Some (bl_cid b)) sa inc]> (mining_tasks x)) (mining_base_block x))
  | _ => None
  end.

Definition set_submitted (t : TaskID) (now : time) (x : win_tables) : win_tables :=
  mkWin (alter (fun r => mkMining (mt_sp_id r) (mt_epoch r) (base_compute_time r) (won r) (mined_cid r) (Some now) (included r)) t (mining_tasks x)) (mining_base_block x).

(** [Do]: the database, the block handed to [SyncSubmitBlock], and the result.
    [still_owned] is asked after the wait for the time of the block. *)
Definition win_Do (env : win_env) (taskID : TaskID) (exec_ok still_owned submit_ok mark_ok : bool) (now : time) d : mdb * option block * (bool * option win_err) :=
  match try_mine env taskID d with
  | Stop done_ err => (d, None, (done_, err))
  | NoWin => let '(d, r) := persistNoWin taskID exec_ok d in (d, None, r)
  | Mined b =>
      if negb exec_ok then (d, None, (false, Some WinDb))
      else
        match set_won taskID b (ext d) with
        | None => (d, None, (true, Some AlreadyMined))
        | Some x =>
            let d := with_ext d x in
            if negb still_owned then (d, None, (true, Some NotOwned))
            else if negb submit_ok then (d, Some b, (false, Some SubmitFailed))
            else if negb mark_ok then (d, Some b, (false, Some WinDb))
            else (with_ext d (set_submitted taskID now (ext d)), Some b, (true, None))
        end
  end.

(** [CanAccept]: the highest task ids first. *)
Definition win_CanAccept (cuzk : bool) (paramsReady : option bool) (ids : list TaskID) : result (list TaskID) win_err :=
  match (if cuzk then Some true else paramsReady) with
  | None => Err WinApi
  | Some false => Ok []
  | Some true => if (length ids =? 0)%nat then Ok [] else Ok (merge_sort Z.ge ids)
  end.

(** ** Inclusion in the chain *)

Definition MinInclusionEpochs : Z := 5.

Definition set_included (sp epoch : Z) (inc : bool) (x : win_tables) : win_tables :=
  mkWin ((fun r => if (mt_epoch r =? epoch) && (mt_sp_id r =? sp)
                   then mkMining (mt_sp_id r) (mt_epoch r) (base_compute_time r) (won r) (mined_cid r) (mt_submitted_at r) (Some inc) else r)
           <$> mining_tasks x) (mining_base_block x).

Fixpoint check_included (head : Z) (tipset_at : Z -> option TipSet) (exec_ok : Z -> bool) (rows : list mining_row) d : mdb * result bool win_err :=
  match rows with
  | [] => (d, Ok true)
  | r :: rows =>
      if mt_epoch r >? head - MinInclusionEpochs then check_included head tipset_at exec_ok rows d
      else
        match tipset_at (mt_epoch r) with
        | None => (d, Err WinApi)
        | Some tsAt =>
            let inc := existsb (fun b => bool_decide (Some (bh_Cid b) = mined_cid r)) (ts_Blocks tsAt) in
            if negb (exec_ok (mt_epoch r)) then (d, Err WinDb)
            else check_included head tipset_at exec_ok rows (with_ext d (set_included (mt_sp_id r) (mt_epoch r) inc (ext d)))
        end
  end.

Definition inclusion_Do (head : option Z) (tipset_at : Z -> option TipSet) (exec_ok : Z -> bool) d : mdb * result bool win_err :=
  let toCheck := enum (List.filter (fun r => won r && match included r with None => true | Some _ => false end) ((map_to_list (mining_tasks (ext d))).*2)) in
  if existsb (fun r => (mt_sp_id r <? 0) || match mined_cid r with None => true | Some _ => false end) toCheck then (d, Err WinQuery)
  else match head with None => (d, Err WinApi) | Some h => check_included h tipset_at exec_ok toCheck d end.
End Winning.
