(* ===== verification/WinningFacts.v ===== *)
(** * Facts about mining

    No miner is slashed for the blocks of a cluster: of two blocks that are submitted
    for a miner, in any interleaving of the mining loops and tasks of its nodes, the
    epochs are different and no block is a parent of both, unless the base of one of their
    tasks is marked as lost.  A base on which a task is
    created contains the block the miner has won at its height. *)

From stdpp Require Import base gmap sets list strings sorting.
From Stdlib Require Import ZArith Lia.
From S2P Require Import Prelude FileType Float64 HarmonyDB Limiter Resources TaskEngine TaskEngineFacts SectorLocks GoStd StorageIndex WdPostProof Winning.
Import Taskhelp.

(** ** The tables *)

(** The rows of the base of a task. *)
Definition in_base (x : win_tables) (t : TaskID) (c : string) : Prop := is_Some (mining_base_block x !! (t, c)).

Definition unmarked (x : win_tables) (t : TaskID) : Prop :=
  forall (c : string) (v : Z * bool), mining_base_block x !! (t, c) = Some v -> v.2 = false.

#[export] Instance unmarked_dec (x : win_tables) (t : TaskID) : Decision (unmarked x t).
Proof.
  refine (cast_if (decide (map_Forall (fun (k : TaskID * string) (v : Z * bool) => k.1 = t -> v.2 = false) (mining_base_block x)))).
  - abstract (intros c v Hv; by apply (m (t, c) v Hv)).
  - abstract (intros Hu; apply n; intros [t' c] v Hv Ht; simpl in Ht; subst t'; by apply (Hu c v)).
Defined.

Record tables_ok (seq : Z) (x : win_tables) : Prop := {
  wt_seq : forall (t : TaskID) (r : mining_row), mining_tasks x !! t = Some r -> t < seq;
  wt_epoch : forall (t1 t2 : TaskID) (r1 r2 : mining_row), mining_tasks x !! t1 = Some r1 -> mining_tasks x !! t2 = Some r2 ->
    mt_sp_id r1 = mt_sp_id r2 -> mt_epoch r1 = mt_epoch r2 -> t1 = t2;
  wt_owner : forall (t : TaskID) (c : string) (v : Z * bool), mining_base_block x !! (t, c) = Some v ->
    exists r, mining_tasks x !! t = Some r /\ mt_sp_id r = v.1;
  wt_base : forall (t1 t2 : TaskID) (c : string) (sp : Z), mining_base_block x !! (t1, c) = Some (sp, false) ->
    mining_base_block x !! (t2, c) = Some (sp, false) -> t1 = t2
}.

Lemma elem_of_base_cids (t : TaskID) (x : win_tables) (c : string) : c ∈ base_cids t x <-> in_base x t c.
Proof.
  unfold base_cids, in_base. rewrite list_elem_of_fmap. split.
  - intros ([[t' c'] v] & -> & [Ht Hin]%elem_of_filter_b). simpl in *. apply Z.eqb_eq in Ht as ->. exists v. by apply elem_of_map_to_list.
  - intros [v Hv]. exists ((t, c), v). split; [done|]. apply elem_of_filter_b. simpl. rewrite Z.eqb_refl. split; [done|]. by apply elem_of_map_to_list.
Qed.

Lemma insert_mining_spec (id : TaskID) (row : mining_row) (x x' : win_tables) :
  insert_mining id row x = Some x' ->
  x' = mkWin (<[id := row]> (mining_tasks x)) (mining_base_block x) /\ mining_tasks x !! id = None
  /\ forall (t : TaskID) (r : mining_row), mining_tasks x !! t = Some r -> mt_sp_id r = mt_sp_id row -> mt_epoch r <> mt_epoch row.
Proof.
  unfold insert_mining. destruct (mining_tasks x !! id) eqn:E; [done|]. case_bool_decide as Hx; [done|]. intros [= <-].
  split; [done|]. split; [done|]. intros t r Hr Hs He. apply Hx, Exists_exists. exists (t, r). split; [by apply elem_of_map_to_list|done].
Qed.

Lemma insert_base_spec (id : TaskID) (sp : Z) (c : string) (x x' : win_tables) :
  insert_base id sp c x = Some x' ->
  x' = mkWin (mining_tasks x) (<[(id, c) := (sp, false)]> (mining_base_block x)) /\ mining_base_block x !! (id, c) = None
  /\ forall t : TaskID, mining_base_block x !! (t, c) <> Some (sp, false).
Proof.
  unfold insert_base. destruct (mining_base_block x !! (id, c)) eqn:E; [done|]. case_bool_decide as Hx; [done|]. intros [= <-].
  split; [done|]. split; [done|]. intros t Ht. apply Hx, Exists_exists. exists ((t, c), (sp, false)). split; [by apply elem_of_map_to_list|done].
Qed.

(** What an insertion for a task leaves of the others. *)
Definition adds_task (id : TaskID) (x x' : win_tables) : Prop :=
  (forall t : TaskID, t <> id -> mining_tasks x' !! t = mining_tasks x !! t)
  /\ (forall (t : TaskID) (c : string), t <> id -> mining_base_block x' !! (t, c) = mining_base_block x !! (t, c)).

Lemma mine_tables_mono (seq seq' : Z) (x : win_tables) : seq <= seq' -> tables_ok seq x -> tables_ok seq' x.
Proof. intros Hs [Hq He Ho Hb]. split; try done. intros t r Hr. specialize (Hq t r Hr). lia. Qed.

Lemma insert_bases_ok (seq : Z) (id : TaskID) (sp : Z) (cs : list string) (x x' : win_tables) (row : mining_row) :
  mining_tasks x !! id = Some row -> mt_sp_id row = sp -> tables_ok seq x -> insert_bases id sp cs x = Some x' ->
  tables_ok seq x' /\ mining_tasks x' = mining_tasks x /\ adds_task id x x'
  /\ (forall c, in_base x' id c <-> in_base x id c \/ c ∈ cs).
Proof.
  revert x. induction cs as [|c cs IH]; intros x Hrow Hsp Hok; simpl.
  - intros [= <-]. split; [done|]. split; [done|]. split; [done|]. intros c. split; [auto|intros [?|?%elem_of_nil]; done].
  - destruct (insert_base id sp c x) as [x1|] eqn:E; [|done]. apply insert_base_spec in E as (-> & Hn & Hu). intros Hx'.
    destruct Hok as [Hq He Ho Hb]. apply IH in Hx' as (Hok' & Ht' & [Ha1 Ha2] & Hin); [|done|done|].
    + split; [done|]. split; [by rewrite Ht'|]. split.
      * split; [by rewrite Ht'|]. intros t c' Hne. rewrite Ha2 by done. simpl. rewrite lookup_insert_ne by congruence. done.
      * intros c'. rewrite Hin. unfold in_base. simpl. rewrite elem_of_cons. destruct (decide (c' = c)) as [->|Hne].
        -- rewrite lookup_insert_eq. split; [intros _; right; by left|intros _; left; by eexists].
        -- rewrite lookup_insert_ne by congruence. split; [intros [?|?]; auto|intros [?|[?|?]]; auto; done].
    + split; simpl; [done|done| |].
      * intros t c' v. rewrite lookup_insert_Some. intros [[? <-]|[_ Hv]]; [simplify_eq; by exists row|by eapply Ho].
      * intros t1 t2 c' sp'. rewrite !lookup_insert_Some.
        intros [[? ?]|[? H1']] [[? ?]|[? H2']]; simplify_eq; [done| | |by eapply Hb].
        -- by apply Hu in H2'.
        -- by apply Hu in H1'.
Qed.

Lemma insert_mining_ok (seq : Z) (id : TaskID) (row : mining_row) (x x' : win_tables) :
  id < seq -> tables_ok seq x -> insert_mining id row x = Some x' -> tables_ok seq x' /\ adds_task id x x'.
Proof.
  intros Hid [Hq He Ho Hb] (-> & Hn & Hu)%insert_mining_spec. split; [split; simpl|split; simpl].
  - intros t r. rewrite lookup_insert_Some. intros [[<- _]|[_ Hr]]; [lia|by eapply Hq].
  - intros t1 t2 r1 r2. rewrite !lookup_insert_Some. intros [[<- <-]|[? H1']] [[<- <-]|[? H2']] Hs Hep; [done| | |by eapply He].
    + exfalso. by apply (Hu _ _ H2' (eq_sym Hs)).
    + exfalso. by apply (Hu _ _ H1' Hs).
  - intros t c v Hv. destruct (Ho t c v Hv) as (r & Hr & Hs). exists r. split; [|done]. rewrite lookup_insert_ne; [done|congruence].
  - done.
  - intros t Hne. by rewrite lookup_insert_ne.
  - done.
Qed.

Section Mining.
Context `{Enum} {ST : Type} `{StorageOps ST}.
Variable address_bytes : Z -> list Z.
Variables ChainFinality UpgradeSmokeHeight TicketRandomnessLookback BlockDelaySecs : Z.
Variables tag_TicketProduction tag_WinningPoStChallengeSeed : Z.
Abbreviation mdb := (db win_tables).
Abbreviation mine := (try_mine address_bytes ChainFinality UpgradeSmokeHeight TicketRandomnessLookback BlockDelaySecs tag_TicketProduction tag_WinningPoStChallengeSeed).
Implicit Types (d : mdb).

(** Tip sets of the chain library: they have blocks, [ChainGetTipSet] returns the one
    of the given key, [NewTipSet] the one of the given blocks; a CID is its text. *)
Record env_ok (env : win_env) : Prop := {
  eo_parse : forall c c', we_parse env c = Some c' -> c' = c;
  eo_tipset : forall key ts, we_tipset env key = Some ts -> ts_Cids ts <> [] /\ forall c, c ∈ ts_Cids ts -> c ∈ key;
  eo_new : forall bs ts, we_new_tipset env bs = Some ts -> ts_Cids ts <> [] /\ forall c, c ∈ ts_Cids ts -> c ∈ bh_Cid <$> bs
}.

(** The block belongs to the task: its miner, its epoch, and parents from its base. *)
Definition fits (x : win_tables) (t : TaskID) (r : mining_row) (b : block) : Prop :=
  bt_Miner (bl_template b) = mt_sp_id r /\ bt_Epoch (bl_template b) = mt_epoch r
  /\ bt_Parents (bl_template b) <> [] /\ forall c, c ∈ bt_Parents (bl_template b) -> in_base x t c.

Lemma refresh_base_spec (env : win_env) (sp : Z) (rbase : list Z) (round : Z) (base base' : TipSet) (ticket msgs ticket' msgs' : list Z) :
  env_ok env -> refresh_base address_bytes UpgradeSmokeHeight TicketRandomnessLookback tag_TicketProduction env sp rbase round base ticket msgs = Some (base', ticket', msgs') ->
  ts_Cids base <> [] -> ts_Cids base' <> [] /\ forall c, c ∈ ts_Cids base' -> c ∈ ts_Cids base.
Proof.
  intros He. unfold refresh_base. destruct (we_best env) as [best|]; [|done].
  destruct (we_weight env best) as [hw|]; [|done]. destruct (we_weight env base) as [bw|]; [|done]. set (bst := if hw <=? bw then base else best).
  destruct (_ && _); [|intros [= <- <- <-]; done]. set (bs := List.filter _ _). destruct (_ && _); [|intros [= <- <- <-]; done].
  destruct (we_new_tipset env bs) as [ts|] eqn:En; [|done]. destruct (if bool_decide _ then _ else _) as [tk|]; [|done].
  destruct (we_select env _ _) as [ms|]; [|done]. intros [= <- <- <-] _. destruct (eo_new env He _ _ En) as [Hn Hc]. split; [done|].
  intros c Hin. apply Hc, list_elem_of_fmap in Hin as (b & -> & [_ Hb]%elem_of_filter_b). by apply list_elem_of_fmap_2.
Qed.

Lemma mapM_parse (env : win_env) (l k : list string) : env_ok env -> mapM (we_parse env) l = Some k -> k = l.
Proof.
  intros He. revert k. induction l as [|c l IH]; intros k; simpl; [by intros [= <-]|].
  destruct (we_parse env c) as [c'|] eqn:Ec; [|done]. apply (eo_parse env He) in Ec as ->. simpl.
  destruct (mapM (we_parse env) l) as [k'|]; [|done]. simpl. intros [= <-]. f_equal. by apply IH.
Qed.

Lemma try_mine_spec (env : win_env) (t : TaskID) d (a : attempt) :
  env_ok env -> mine env t d = a -> a = NoWin \/ (exists b, a = Mined b) ->
  exists r, mining_tasks (ext d) !! t = Some r /\ won r = false /\ forall b, a = Mined b -> fits (ext d) t r b.
Proof.
  intros He Ha Hcase. assert (forall s err, a <> Stop s err) as Hns by (intros s err ->; destruct Hcase as [?|[? ?]]; done). clear Hcase. revert Ha.
  unfold try_mine. destruct (mining_tasks (ext d) !! t) as [r|] eqn:Er; [|intros <-; by destruct (Hns false (Some WinQuery))].
  destruct (_ || _); [intros <-; by destruct (Hns false (Some WinQuery))|]. destruct (won r) eqn:Ew; [intros <-; by destruct (Hns true None)|].
  intros Ha. exists r. split; [done|]. split; [done|]. revert Ha.
  destruct (mapM _ _) as [bcids|] eqn:Em; [|intros <- b; done]. apply mapM_parse in Em as ->; [|done].
  destruct (we_tipset env _) as [ts|] eqn:Et; [|intros <- b; done]. destruct (eo_tipset env He _ _ Et) as [Hne Hk].
  destruct (we_base_info env _ _ _) as [| |mbi]; [destruct (we_age_head env); [destruct (_ >? _)|]; intros <- b; done|intros <- b; done|].
  destruct (negb (EligibleForMining mbi)); [intros <- b; done|]. destruct (_ =? 0)%nat; [intros <- b; done|].
  destruct (we_winner env _ _) as [[eproof|]|]; [|intros <- b; done..].
  unfold build_block. destruct (winning_proof _ _ _ _ _ _ _) as [wp|]; [|intros <- b; done].
  destruct (computeTicket _ _ _ _ _ _ _ _ _) as [ticket|]; [|intros <- b; done]. destruct (we_select env _ _) as [msgs|]; [|intros <- b; done].
  destruct (refresh_base _ _ _ _ _ _ _ _ _ _ _) as [[[base' ticket'] msgs']|] eqn:Eb; [|intros <- b; done].
  destruct (we_create env _) as [c|]; [|intros <- b; done]. intros <- b [= <-]. apply refresh_base_spec in Eb as [Hn' Hsub]; [|done|done].
  unfold fits, mb_epoch. simpl. split; [done|]. split; [lia|]. split; [done|].
  intros c' Hc'%Hsub%Hk. rewrite enum_perm in Hc'. by apply elem_of_base_cids.
Qed.

(** ** The system *)

(** A run of [Do] between its reads and its submission. *)
Inductive phase := Losing | Ready (b : block) | Winner (b : block).

Record mine_state := mkMineState { ms_db : mdb; ms_runs : gmap TaskID phase; ms_blocks : list (TaskID * block) }.

(** One run per task at a time, as the engine promises.  A run can stop anywhere, and a task
    can run again, even when its base is marked as lost. *)
Inductive mine_step : mine_state -> mine_state -> Prop :=
| wn_dispatch d runs blocks parse (e : engine ST) h now faults wb actors :
    (forall c c', parse c = Some c' -> c' = c) -> ts_Cids (mb_TipSet wb) <> [] ->
    mine_step (mkMineState d runs blocks) (mkMineState (dispatch parse e h now faults wb actors d) runs blocks)
| wn_start d runs blocks env t p :
    runs !! t = None -> env_ok env ->
    match mine env t d with NoWin => p = Losing | Mined b => p = Ready b | Stop _ _ => False end ->
    mine_step (mkMineState d runs blocks) (mkMineState d (<[t := p]> runs) blocks)
| wn_lose d runs blocks t ok :
    runs !! t = Some Losing -> mine_step (mkMineState d runs blocks) (mkMineState (persistNoWin t ok d).1 (delete t runs) blocks)
| wn_win d runs blocks t b x :
    runs !! t = Some (Ready b) -> set_won t b (ext d) = Some x ->
    mine_step (mkMineState d runs blocks) (mkMineState (with_ext d x) (<[t := Winner b]> runs) blocks)
| wn_submit d runs blocks t b :
    runs !! t = Some (Winner b) -> mine_step (mkMineState d runs blocks) (mkMineState d (delete t runs) (blocks ++ [(t, b)]))
| wn_stop d runs blocks t : mine_step (mkMineState d runs blocks) (mkMineState d (delete t runs) blocks)
| wn_mark d runs blocks t now : mine_step (mkMineState d runs blocks) (mkMineState (with_ext d (set_submitted t now (ext d))) runs blocks)
| wn_included d runs blocks head at_ ok :
    mine_step (mkMineState d runs blocks) (mkMineState (inclusion_Do head at_ ok d).1 runs blocks)
| wn_other d runs blocks d' :
    ext d' = ext d -> task_seq d <= task_seq d' -> mine_step (mkMineState d runs blocks) (mkMineState d' runs blocks).

(** What a phase says about the tables. *)
Definition phase_ok (x : win_tables) (blocks : list (TaskID * block)) (t : TaskID) (p : phase) : Prop :=
  exists r, mining_tasks x !! t = Some r /\
    match p with
    | Losing => won r = false
    | Ready b => won r = false /\ fits x t r b
    | Winner b => won r = true /\ fits x t r b /\ t ∉ blocks.*1
    end.

Definition block_ok (x : win_tables) (tb : TaskID * block) : Prop :=
  exists r, mining_tasks x !! tb.1 = Some r /\ won r = true /\ fits x tb.1 r tb.2.

Record mine_ok (st : mine_state) : Prop := {
  mo_tables : tables_ok (task_seq (ms_db st)) (ext (ms_db st));
  mo_runs : forall (t : TaskID) (p : phase), ms_runs st !! t = Some p -> phase_ok (ext (ms_db st)) (ms_blocks st) t p;
  mo_blocks : Forall (block_ok (ext (ms_db st))) (ms_blocks st);
  mo_once : NoDup (ms_blocks st).*1
}.

(** ** Changes of the tables *)

Definition same_task (r r' : mining_row) : Prop := mt_sp_id r' = mt_sp_id r /\ mt_epoch r' = mt_epoch r /\ won r' = won r.

Definition keeps_task (x x' : win_tables) (t : TaskID) : Prop :=
  (forall r, mining_tasks x !! t = Some r -> exists r', mining_tasks x' !! t = Some r' /\ same_task r r')
  /\ forall c, mining_base_block x' !! (t, c) = mining_base_block x !! (t, c).

Lemma keeps_task_refl (x : win_tables) (t : TaskID) : keeps_task x x t.
Proof. split; [|done]. intros r Hr. by exists r. Qed.

Lemma keeps_task_trans (x y z : win_tables) (t : TaskID) : keeps_task x y t -> keeps_task y z t -> keeps_task x z t.
Proof.
  intros [H1' H1b] [H2' H2b]. split; [|by intros c; rewrite H2b, H1b]. intros r Hr. destruct (H1' r Hr) as (r1 & Hr1 & ? & ? & ?).
  destruct (H2' r1 Hr1) as (r2 & Hr2 & ? & ? & ?). exists r2. split; [done|]. split; [congruence|]. split; congruence.
Qed.

Lemma keeps_fits (x x' : win_tables) (t : TaskID) (r r' : mining_row) (b : block) : keeps_task x x' t -> same_task r r' -> fits x t r b -> fits x' t r' b.
Proof.
  intros [_ Hb] (Hs & He & _) (Hm & Hep & Hne & Hp). split; [congruence|]. split; [congruence|]. split; [done|].
  intros c Hc. unfold in_base. rewrite Hb. by apply Hp.
Qed.

Lemma keeps_phase (x x' : win_tables) (bl : list (TaskID * block)) (t : TaskID) (p : phase) : keeps_task x x' t -> phase_ok x bl t p -> phase_ok x' bl t p.
Proof.
  intros Hk (r & Hr & Hp). destruct (proj1 Hk r Hr) as (r' & Hr' & Hst). exists r'. split; [done|]. pose proof Hst as (_ & _ & Hw).
  destruct p as [|b|b]; [by rewrite Hw| |]; rewrite Hw.
  - destruct Hp as (? & ?). split; [done|]. by eapply keeps_fits.
  - destruct Hp as (? & ? & ?). split; [done|]. split; [by eapply keeps_fits|done].
Qed.

Lemma keeps_block (x x' : win_tables) (tb : TaskID * block) : keeps_task x x' tb.1 -> block_ok x tb -> block_ok x' tb.
Proof.
  intros Hk (r & Hr & Hw & Hf). destruct (proj1 Hk r Hr) as (r' & Hr' & Hst). exists r'. split; [done|].
  split; [destruct Hst as (_ & _ & ->); done|]. by eapply keeps_fits.
Qed.

(** Rows of [mining_tasks] change in other columns. *)
Lemma tables_ok_rows (seq : Z) (x : win_tables) (m : gmap TaskID mining_row) :
  (forall (t : TaskID) (r' : mining_row), m !! t = Some r' -> exists r, mining_tasks x !! t = Some r /\ mt_sp_id r' = mt_sp_id r /\ mt_epoch r' = mt_epoch r) ->
  (forall (t : TaskID) (r : mining_row), mining_tasks x !! t = Some r -> is_Some (m !! t)) ->
  tables_ok seq x -> tables_ok seq (mkWin m (mining_base_block x)).
Proof.
  intros Hm Hback [Hq He Ho Hb]. split; simpl; [| | |done].
  - intros t r' Hr'. destruct (Hm t r' Hr') as (r & Hr & _). by eapply Hq.
  - intros t1 t2 r1 r2 H1' H2' Hs Hep. destruct (Hm _ _ H1') as (q1 & Hq1 & ? & ?), (Hm _ _ H2') as (q2 & Hq2 & ? & ?).
    eapply He; [exact Hq1|exact Hq2|congruence|congruence].
  - intros t c v Hv. destruct (Ho t c v Hv) as (r & Hr & Hs). destruct (Hback t r Hr) as [r' Hr']. destruct (Hm _ _ Hr') as (r0 & Hr0 & Hs0 & _).
    exists r'. split; [done|]. congruence.
Qed.

Lemma mine_extra_keeps (parse : string -> option string) (wb : MiningBase) (sp : Z) (t : TaskID) d d' :
  mine_extra parse wb sp t d = Ok (d', true) -> t < task_seq d -> tables_ok t (ext d) ->
  task_seq d' = task_seq d /\ tables_ok (task_seq d) (ext d')
  /\ (forall t' : TaskID, t' <> t -> keeps_task (ext d) (ext d') t')
  /\ (exists r, mining_tasks (ext d') !! t = Some r /\ mt_sp_id r = sp /\ mt_epoch r = mb_epoch wb)
  /\ forall c, in_base (ext d') t c <-> c ∈ ts_Cids (mb_TipSet wb).
Proof.
  intros Hex Hlt Hok. unfold mine_extra in Hex. set (ins := match insert_mining _ _ _ with Some _ => _ | None => _ end) in Hex.
  assert (ins = Ok (d', true)) as Hins.
  { destruct (enum _) as [|[c0|] l]; [done| |done]. destruct (parse c0) as [c|]; [|done]. by case_bool_decide. }
  clear Hex. unfold ins in Hins. destruct (insert_mining _ _ _) as [x1|] eqn:E1; [|done]. destruct (insert_bases _ _ _ _) as [x2|] eqn:E2; [|done].
  injection Hins as <-. simpl. split; [done|].
  assert (forall c, ~ in_base (ext d) t c) as Hfresh.
  { intros c [v Hv]. destruct (wt_owner _ _ Hok t c v Hv) as (r & Hr & _). apply (wt_seq _ _ Hok) in Hr. lia. }
  pose proof (insert_mining_spec _ _ _ _ E1) as (Hx1 & _ & _).
  eapply (insert_mining_ok (task_seq d)) in E1 as [Hok1 [Ha1 Ha2]]; [|done|eapply mine_tables_mono; [|exact Hok]; lia].
  eapply insert_bases_ok in E2 as (Hok2 & Ht2 & [_ Hb2] & Hin); [|by rewrite Hx1; apply lookup_insert_eq|done|exact Hok1].
  split; [done|]. split; [|split].
  - intros t' Hne. split; [intros r Hr; exists r; rewrite Ht2, Ha1 by done; done|]. intros c. by rewrite Hb2, Ha2.
  - rewrite Ht2, Hx1. simpl. rewrite lookup_insert_eq. by eexists.
  - intros c. rewrite Hin. rewrite Hx1. unfold in_base at 1. simpl. specialize (Hfresh c). unfold in_base in Hfresh. tauto.
Qed.

(** What the creation of tasks keeps. *)
Definition grows d d' : Prop :=
  tables_ok (task_seq d) (ext d) -> tables_ok (task_seq d') (ext d')
  /\ forall (t : TaskID) (r : mining_row), mining_tasks (ext d) !! t = Some r -> keeps_task (ext d) (ext d') t.

Lemma mine_grows_refl d : grows d d.
Proof. intros Hok. split; [done|]. intros t r _. apply keeps_task_refl. Qed.

Lemma mine_grows_trans d1 d2 d3 : grows d1 d2 -> grows d2 d3 -> grows d1 d3.
Proof.
  intros H12 H23 Hok. destruct (H12 Hok) as [Hok2 Hk2]. destruct (H23 Hok2) as [Hok3 Hk3]. split; [done|].
  intros t r Hr. specialize (Hk2 t r Hr). destruct (proj1 Hk2 r Hr) as (r2 & Hr2 & _). eapply keeps_task_trans; [exact Hk2|by eapply Hk3].
Qed.

Lemma add_mining_grows (parse : string -> option string) (e : engine ST) h (now : time) (faults : list tx_fault) (wb : MiningBase) (sp : Z) d :
  grows d (AddTask e h (mine_extra parse wb sp) faults d now).1.
Proof.
  pose proof (AddTask_outcome e h (mine_extra parse wb sp) faults d now) as Ho. destruct (AddTask _ _ _ _ _ _) as [d' ag].
  destruct Ho as (n & Hn & Ho). simpl. intros Hok. destruct Ho as [->|[_ Hex]].
  - split; [eapply mine_tables_mono; [|exact Hok]; simpl; lia|]. intros t r _. apply keeps_task_refl.
  - apply mine_extra_keeps in Hex as (Hs & Hok' & Hk & _); [| |].
    + rewrite Hs. split; [done|]. intros t r Hr. apply Hk. apply (wt_seq _ _ Hok) in Hr. lia.
    + unfold insert_task, spend. simpl. lia.
    + cbn. eapply mine_tables_mono; [|exact Hok]. lia.
Qed.

Lemma dispatch_grows (parse : string -> option string) (e : engine ST) h (now : time) (faults : Z -> list tx_fault) (wb : MiningBase) (actors : list (option Z)) d :
  grows d (dispatch parse e h now faults wb actors d).
Proof.
  revert d. induction actors as [|[sp|] actors IH]; intros d; simpl; [apply mine_grows_refl| |apply IH].
  eapply mine_grows_trans; [apply add_mining_grows|apply IH].
Qed.

Lemma lookup_mark_no_win (t t' : TaskID) (c : string) (x : win_tables) :
  mining_base_block (mark_no_win t x) !! (t', c) = (fun v : Z * bool => if t' =? t then (v.1, true) else v) <$> mining_base_block x !! (t', c).
Proof. unfold mark_no_win. simpl. rewrite map_lookup_imap. by destruct (mining_base_block x !! (t', c)). Qed.

Lemma mark_no_win_ok (seq : Z) (t : TaskID) (x : win_tables) :
  tables_ok seq x -> tables_ok seq (mark_no_win t x) /\ forall t' : TaskID, t' <> t -> keeps_task x (mark_no_win t x) t'.
Proof.
  intros [Hq He Ho Hb]. split.
  - split; [done|done| |].
    + intros t' c v. rewrite lookup_mark_no_win. destruct (mining_base_block x !! (t', c)) as [w|] eqn:E; [|done]. intros [= <-].
      destruct (Ho _ _ _ E) as (r & Hr & Hs). exists r. split; [done|]. by destruct (t' =? t).
    + intros t1 t2 c sp. rewrite !lookup_mark_no_win.
      destruct (mining_base_block x !! (t1, c)) as [[s1 m1]|] eqn:E1, (mining_base_block x !! (t2, c)) as [[s2 m2]|] eqn:E2; try done. simpl.
      destruct (t1 =? t), (t2 =? t); try done. intros [= -> ->] [= -> ->]. by eapply Hb.
  - intros t' Hne. split; [intros r Hr; by exists r|]. intros c. rewrite lookup_mark_no_win. rewrite (proj2 (Z.eqb_neq t' t) Hne).
    by destruct (mining_base_block x !! (t', c)).
Qed.

Lemma set_won_spec (t : TaskID) (b : block) (x x' : win_tables) :
  set_won t b x = Some x' -> exists r r', mining_tasks x !! t = Some r /\ won r = false /\ won r' = true /\ mined_cid r' = Some (bl_cid b)
    /\ mt_sp_id r' = mt_sp_id r /\ mt_epoch r' = mt_epoch r /\ x' = mkWin (<[t := r']> (mining_tasks x)) (mining_base_block x).
Proof.
  unfold set_won. destruct (mining_tasks x !! t) as [[sp ep ct [] mc sa inc]|]; [done| |done]. intros [= <-].
  exists (mkMining sp ep ct false mc sa inc), (mkMining sp ep ct true (Some (bl_cid b)) sa inc). done.
Qed.

Lemma set_won_ok (seq : Z) (t : TaskID) (b : block) (x x' : win_tables) :
  set_won t b x = Some x' -> tables_ok seq x -> tables_ok seq x' /\ forall t' : TaskID, t' <> t -> keeps_task x x' t'.
Proof.
  intros (r & r' & Hr & _ & _ & _ & Hs & He & ->)%set_won_spec Hok. split.
  - apply tables_ok_rows; [| |done].
    + intros t' q. rewrite lookup_insert_Some. intros [[<- <-]|[_ Hq]]; [by exists r|by exists q].
    + intros t' q Hq. destruct (decide (t = t')) as [<-|Hne]; [rewrite lookup_insert_eq|rewrite lookup_insert_ne by done]; eauto.
  - intros t' Hne. split; [|done]. intros q Hq. exists q. simpl. by rewrite lookup_insert_ne.
Qed.

Lemma set_submitted_ok (seq : Z) (t : TaskID) (now : time) (x : win_tables) :
  tables_ok seq x -> tables_ok seq (set_submitted t now x) /\ forall t' : TaskID, keeps_task x (set_submitted t now x) t'.
Proof.
  intros Hok. split.
  - apply tables_ok_rows; [| |done].
    + intros t' r'. rewrite lookup_alter_Some. intros [(<- & r & Hr & ->)|[_ Hr]]; [by exists r|by exists r'].
    + intros t' r Hr. destruct (decide (t = t')) as [<-|Hne]; [rewrite lookup_alter_eq, Hr|rewrite lookup_alter_ne by done]; eauto.
  - intros t'. split; [|done]. intros r Hr. simpl. destruct (decide (t = t')) as [<-|Hne].
    + rewrite lookup_alter_eq, Hr. by eexists.
    + rewrite lookup_alter_ne by done. by exists r.
Qed.

Lemma set_included_ok (seq sp epoch : Z) (inc : bool) (x : win_tables) :
  tables_ok seq x -> tables_ok seq (set_included sp epoch inc x) /\ forall t : TaskID, keeps_task x (set_included sp epoch inc x) t.
Proof.
  intros Hok. split.
  - apply tables_ok_rows; [| |done].
    + intros t' r'. rewrite lookup_fmap. destruct (mining_tasks x !! t') as [r|]; [|done]. intros [= <-]. exists r. by destruct (_ && _).
    + intros t' r Hr. rewrite lookup_fmap, Hr. eauto.
  - intros t. split; [|done]. intros r Hr. simpl. rewrite lookup_fmap, Hr. eexists. split; [done|]. by destruct (_ && _).
Qed.

Lemma inclusion_ok (head : option Z) (at_ : Z -> option TipSet) (ok : Z -> bool) d :
  tables_ok (task_seq d) (ext d) ->
  let d' := (inclusion_Do head at_ ok d).1 in
  task_seq d' = task_seq d /\ tables_ok (task_seq d) (ext d') /\ forall t : TaskID, keeps_task (ext d) (ext d') t.
Proof.
  unfold inclusion_Do. destruct (existsb _ _); [intros Hok; split; [done|]; split; [done|]; intros t; apply keeps_task_refl|].
  destruct head as [h|]; [|intros Hok; split; [done|]; split; [done|]; intros t; apply keeps_task_refl].
  generalize (enum (List.filter (fun r => won r && match included r with None => true | Some _ => false end) ((map_to_list (mining_tasks (ext d))).*2))).
  intros rows. revert d. induction rows as [|r rows IH]; intros d Hok; simpl; [split; [done|]; split; [done|]; intros t; apply keeps_task_refl|].
  destruct (_ >? _); [by apply IH|]. destruct (at_ _) as [ts|]; [|split; [done|]; split; [done|]; intros t; apply keeps_task_refl].
  destruct (negb _); [split; [done|]; split; [done|]; intros t; apply keeps_task_refl|]. set (inc := existsb _ _).
  destruct (set_included_ok (task_seq d) (mt_sp_id r) (mt_epoch r) inc (ext d) Hok) as [Hok1 Hk1].
  destruct (IH (with_ext d (set_included (mt_sp_id r) (mt_epoch r) inc (ext d))) Hok1) as (Hs2 & Hok2 & Hk2).
  split; [done|]. split; [done|]. intros t. eapply keeps_task_trans; [apply Hk1|apply Hk2].
Qed.

(** ** The invariant *)

Lemma mine_ok_change d d' (runs runs' : gmap TaskID phase) (bl : list (TaskID * block)) :
  mine_ok (mkMineState d runs bl) -> tables_ok (task_seq d') (ext d') ->
  (forall (t : TaskID) (p : phase), runs' !! t = Some p -> phase_ok (ext d') bl t p) ->
  (forall tb : TaskID * block, tb ∈ bl -> block_ok (ext d) tb -> keeps_task (ext d) (ext d') tb.1) ->
  mine_ok (mkMineState d' runs' bl).
Proof.
  intros [Ht Hr Hb Ho] Hok Hp Hk. split; [done|done| |done]. simpl in *. rewrite Forall_forall in Hb |- *.
  intros tb Htb. eapply keeps_block; [by apply Hk; [|apply Hb]|by apply Hb].
Qed.

(** Changes that keep every task. *)
Lemma mine_ok_keeps d d' (runs : gmap TaskID phase) (bl : list (TaskID * block)) :
  mine_ok (mkMineState d runs bl) -> tables_ok (task_seq d') (ext d') ->
  (forall (t : TaskID) (r : mining_row), mining_tasks (ext d) !! t = Some r -> keeps_task (ext d) (ext d') t) ->
  mine_ok (mkMineState d' runs bl).
Proof.
  intros Hm Hok Hk. eapply mine_ok_change; [done|done| |].
  - intros t p Hp. apply (mo_runs _ Hm) in Hp as Hph. simpl in Hph. pose proof Hph as (r & Hr & _). eapply keeps_phase; [by eapply Hk|done].
  - intros tb _ (r & Hr & _). by eapply Hk.
Qed.

(** A change of the run of one task, which has no block yet. *)
Lemma mine_ok_run d d' (runs runs' : gmap TaskID phase) (bl : list (TaskID * block)) (t : TaskID) (r : mining_row) :
  mine_ok (mkMineState d runs bl) -> tables_ok (task_seq d') (ext d') -> mining_tasks (ext d) !! t = Some r -> won r = false ->
  (forall t' : TaskID, t' <> t -> keeps_task (ext d) (ext d') t' /\ runs' !! t' = runs !! t') ->
  (forall p : phase, runs' !! t = Some p -> phase_ok (ext d') bl t p) ->
  mine_ok (mkMineState d' runs' bl).
Proof.
  intros Hm Hok Hr Hw Hother Ht. eapply mine_ok_change; [exact Hm|done| |].
  - intros t' p Hp. destruct (decide (t' = t)) as [->|Hne]; [by apply Ht|]. destruct (Hother t' Hne) as [Hk Hrun].
    rewrite Hrun in Hp. apply (mo_runs _ Hm) in Hp. by eapply keeps_phase.
  - intros tb _ (r' & Hr' & Hw' & _). apply Hother. intros E. rewrite E, Hr in Hr'. injection Hr' as <-. congruence.
Qed.

Lemma not_won_no_block d (runs : gmap TaskID phase) (bl : list (TaskID * block)) (t : TaskID) (r : mining_row) :
  mine_ok (mkMineState d runs bl) -> mining_tasks (ext d) !! t = Some r -> won r = false -> t ∉ bl.*1.
Proof.
  intros Hm Hr Hw (tb & -> & Htb)%list_elem_of_fmap. pose proof (mo_blocks _ Hm) as Hb. simpl in Hb. rewrite Forall_forall in Hb.
  destruct (Hb tb Htb) as (r' & Hr' & Hw' & _). rewrite Hr in Hr'. injection Hr' as <-. congruence.
Qed.

Lemma start_ok d (runs : gmap TaskID phase) (bl : list (TaskID * block)) (env : win_env) (t : TaskID) (p : phase) :
  mine_ok (mkMineState d runs bl) -> runs !! t = None -> env_ok env ->
  match mine env t d with NoWin => p = Losing | Mined b => p = Ready b | Stop _ _ => False end ->
  mine_ok (mkMineState d (<[t := p]> runs) bl).
Proof.
  intros Hm Hn He Hp. destruct (mine env t d) as [s err| |b] eqn:Ea; [done| |]; subst p.
  - apply try_mine_spec in Ea as (r & Hr & Hw & _); [|done|by left].
    eapply (mine_ok_run d d); [exact Hm|apply Hm|exact Hr|exact Hw| |].
    + intros t' Hne. split; [apply keeps_task_refl|by rewrite lookup_insert_ne].
    + intros p. rewrite lookup_insert_eq. intros [= <-]. by exists r.
  - apply try_mine_spec in Ea as (r & Hr & Hw & Hf); [|done|right; eauto].
    eapply (mine_ok_run d d); [exact Hm|apply Hm|exact Hr|exact Hw| |].
    + intros t' Hne. split; [apply keeps_task_refl|by rewrite lookup_insert_ne].
    + intros p. rewrite lookup_insert_eq. intros [= <-]. exists r. auto 6.
Qed.

Lemma win_ok d (runs : gmap TaskID phase) (bl : list (TaskID * block)) (t : TaskID) (b : block) (x : win_tables) :
  mine_ok (mkMineState d runs bl) -> runs !! t = Some (Ready b) -> set_won t b (ext d) = Some x ->
  mine_ok (mkMineState (with_ext d x) (<[t := Winner b]> runs) bl).
Proof.
  intros Hm Hrun Hw. destruct (mo_runs _ Hm t _ Hrun) as (r & Hr & Hnw & Hf). simpl in *.
  destruct (set_won_ok (task_seq d) _ _ _ _ Hw (mo_tables _ Hm)) as [Hok Hk].
  eapply (mine_ok_run d); [exact Hm|exact Hok|exact Hr|exact Hnw| |].
  - intros t' Hne. split; [by apply Hk|by rewrite lookup_insert_ne].
  - intros p. rewrite lookup_insert_eq. intros [= <-]. destruct (set_won_spec _ _ _ _ Hw) as (r0 & r' & Hr0 & _ & Hw' & _ & Hs & He & ->).
    rewrite Hr in Hr0. injection Hr0 as <-. exists r'. simpl. rewrite lookup_insert_eq. split; [done|]. split; [done|]. split.
    + destruct Hf as (? & ? & ? & ?). split; [congruence|]. split; [congruence|]. done.
    + by eapply not_won_no_block.
Qed.

Lemma stop_ok d (runs : gmap TaskID phase) (bl : list (TaskID * block)) (t : TaskID) : mine_ok (mkMineState d runs bl) -> mine_ok (mkMineState d (delete t runs) bl).
Proof.
  intros [Ht Hr Hb Ho]. split; try done. simpl in *. intros t' p. rewrite lookup_delete_Some. intros [_ Hp]. auto.
Qed.

Lemma lose_ok d (runs : gmap TaskID phase) (bl : list (TaskID * block)) (t : TaskID) (ok : bool) :
  mine_ok (mkMineState d runs bl) -> runs !! t = Some Losing -> mine_ok (mkMineState (persistNoWin t ok d).1 (delete t runs) bl).
Proof.
  intros Hm Hrun. unfold persistNoWin. destruct ok; simpl; [|by apply stop_ok].
  assert (mine_ok (mkMineState (with_ext d (mark_no_win t (ext d))) (delete t runs) bl)) as Hres; [|by destruct (_ =? 0)%nat].
  destruct (mo_runs _ Hm t _ Hrun) as (r & Hr & Hnw). simpl in *. destruct (mark_no_win_ok (task_seq d) t (ext d) (mo_tables _ Hm)) as [Hok Hk].
  eapply (mine_ok_run d); [exact Hm|exact Hok|exact Hr|exact Hnw| |].
  - intros t' Hne. split; [by apply Hk|by rewrite lookup_delete_ne].
  - intros p. by rewrite lookup_delete_eq.
Qed.

Lemma submit_ok d (runs : gmap TaskID phase) (bl : list (TaskID * block)) (t : TaskID) (b : block) :
  mine_ok (mkMineState d runs bl) -> runs !! t = Some (Winner b) -> mine_ok (mkMineState d (delete t runs) (bl ++ [(t, b)])).
Proof.
  intros Hm Hrun. destruct (mo_runs _ Hm t _ Hrun) as (r & Hr & Hw & Hf & Hnb). destruct Hm as [Ht Hrs Hb Ho]. simpl in *. split; simpl; [done| | |].
  - intros t' p. rewrite lookup_delete_Some. intros [Hne Hp]. destruct (Hrs t' p Hp) as (r' & Hr' & Hph). exists r'. split; [done|].
    destruct p as [|b'|b']; [done|done|]. destruct Hph as (? & ? & ?). split; [done|]. split; [done|].
    rewrite fmap_app, elem_of_app. simpl. rewrite list_elem_of_singleton. intros [?| ->]; done.
  - apply Forall_app. split; [done|]. constructor; [|constructor]. exists r. auto.
  - rewrite fmap_app. apply NoDup_app. split; [done|]. split; [|apply NoDup_singleton]. intros t' Ht' ->%list_elem_of_singleton. done.
Qed.

Lemma mine_step_ok (st st' : mine_state) : mine_step st st' -> mine_ok st -> mine_ok st'.
Proof.
  intros Hs Hm. destruct Hs as [d runs bl parse e h now faults wb actors Hp Hne|d runs bl env t p Hn He Hp|d runs bl t ok Hrun|d runs bl t b x Hrun Hx
    |d runs bl t b Hrun|d runs bl t|d runs bl t now|d runs bl head at_ ok|d runs bl d' He Hs].
  - destruct (dispatch_grows parse e h now faults wb actors d (mo_tables _ Hm)) as [Hok Hk]. by eapply mine_ok_keeps.
  - by eapply start_ok.
  - by apply lose_ok.
  - by apply win_ok.
  - by apply submit_ok.
  - by apply stop_ok.
  - destruct (set_submitted_ok (task_seq d) t now (ext d) (mo_tables _ Hm)) as [Hok Hk]. eapply mine_ok_keeps; [done|done|]. intros t' r _. apply Hk.
  - destruct (inclusion_ok head at_ ok d (mo_tables _ Hm)) as (Hs & Hok & Hk). eapply mine_ok_keeps; [done|by rewrite Hs|]. intros t' r _. apply Hk.
  - eapply mine_ok_keeps; [done|rewrite He; eapply mine_tables_mono; [exact Hs|apply Hm]|]. rewrite He. intros t r _. apply keeps_task_refl.
Qed.

Definition win_init : win_tables := mkWin ∅ ∅.

Lemma win_init_ok d : ext d = win_init -> mine_ok (mkMineState d ∅ []).
Proof.
  intros He. split; simpl; [|by intros t p; rewrite lookup_empty|constructor|constructor]. rewrite He.
  split; simpl; intros *; rewrite ?lookup_empty; done.
Qed.

Lemma mine_reachable_ok (d0 : mdb) (st : mine_state) : ext d0 = win_init -> rtc mine_step (mkMineState d0 ∅ []) st -> mine_ok st.
Proof. intros He Hr. eapply (rtc_invariant mine_step mine_ok); [intros ? ? ? ?; by eapply mine_step_ok|exact Hr|by apply win_init_ok]. Qed.

(** C18: no slashing: take any interleaving of the mining loops of the nodes, of the
    runs of their tasks (each task by one run at a time; a run may stop anywhere and the
    task run again), of inclusion checks and other transactions, with any answers of the
    chain node in which a tip set that is loaded or made has blocks, and only those of the
    key or the headers that were given ([env_ok]).  Two different blocks that are submitted
    for a miner have different epochs, so there is no double-fork fault; and they have no
    common parent, so there is no time-offset fault, unless the base of one of their tasks is
    marked as lost ([no_win]): [Do] does not look at the mark, so such a task can run again
    and win next to a task of a later round on the same base ([lost_task_slashed]). *)
Theorem no_slashing (d0 : mdb) (st : mine_state) (i j : nat) (t1 t2 : TaskID) (b1 b2 : block) :
  ext d0 = win_init -> rtc mine_step (mkMineState d0 ∅ []) st ->
  ms_blocks st !! i = Some (t1, b1) -> ms_blocks st !! j = Some (t2, b2) -> i <> j ->
  bt_Miner (bl_template b1) = bt_Miner (bl_template b2) ->
  bt_Epoch (bl_template b1) <> bt_Epoch (bl_template b2)
  /\ bt_Parents (bl_template b1) <> []
  /\ ((forall c, c ∈ bt_Parents (bl_template b1) -> c ∉ bt_Parents (bl_template b2))
      \/ ~ unmarked (ext (ms_db st)) t1 \/ ~ unmarked (ext (ms_db st)) t2).
Proof.
  intros He Hr Hi Hj Hij Hm. pose proof (mine_reachable_ok d0 st He Hr) as [[_ Hep Ho Hb] _ Hbl Hnd]. rewrite Forall_forall in Hbl.
  assert (t1 <> t2) as Ht.
  { intros ->. apply Hij. eapply (NoDup_lookup (ms_blocks st).*1); [done|..]; rewrite list_lookup_fmap; [by rewrite Hi|by rewrite Hj]. }
  destruct (Hbl (t1, b1)) as (r1 & Hr1 & _ & (Hm1 & He1 & Hn1 & Hp1)); [by eapply list_elem_of_lookup_2|].
  destruct (Hbl (t2, b2)) as (r2 & Hr2 & _ & (Hm2 & He2 & _ & Hp2)); [by eapply list_elem_of_lookup_2|]. simpl in *.
  split; [intros E; apply Ht; eapply Hep; [exact Hr1|exact Hr2|congruence|congruence]|]. split; [done|].
  destruct (decide (unmarked (ext (ms_db st)) t1)) as [Hu1|]; [|by right; left]. destruct (decide (unmarked (ext (ms_db st)) t2)) as [Hu2|]; [|by right; right]. left.
  intros c [[s1 m1] Hc1]%Hp1 [[s2 m2] Hc2]%Hp2. apply Ht.
  assert (m1 = false) as -> by exact (Hu1 _ _ Hc1). assert (m2 = false) as -> by exact (Hu2 _ _ Hc2).
  destruct (Ho _ _ _ Hc1) as (q1 & Hq1 & Hs1), (Ho _ _ _ Hc2) as (q2 & Hq2 & Hs2). simpl in *.
  rewrite Hr1 in Hq1. rewrite Hr2 in Hq2. injection Hq1 as <-. injection Hq2 as <-.
  assert (s1 = s2) as <- by congruence. by eapply Hb.
Qed.

(** A run of [Do] is a sequence of steps. *)
Lemma win_Do_steps d d' (runs : gmap TaskID phase) (bl : list (TaskID * block)) (env : win_env) (t : TaskID) (exec_ok owned submit_ok mark_ok : bool) (now : time)
    (ob : option block) (r : bool * option win_err) :
  runs !! t = None -> env_ok env ->
  win_Do address_bytes ChainFinality UpgradeSmokeHeight TicketRandomnessLookback BlockDelaySecs tag_TicketProduction tag_WinningPoStChallengeSeed
    env t exec_ok owned submit_ok mark_ok now d = (d', ob, r) ->
  rtc mine_step (mkMineState d runs bl) (mkMineState d' runs (bl ++ option_list (pair t <$> ob))).
Proof.
  intros Hn He. assert (forall p, delete t (<[t := p]> runs) = runs) as Hdel by (intros p; by rewrite delete_insert_id).
  unfold win_Do. destruct (mine env t d) as [s err| |b] eqn:Ea.
  - intros [= <- <- _]. simpl. by rewrite app_nil_r.
  - assert ((persistNoWin t exec_ok d).1 = d' -> ob = None -> rtc mine_step (mkMineState d runs bl) (mkMineState d' runs (bl ++ option_list (pair t <$> ob)))) as Hrun.
    { intros <- ->. simpl. rewrite app_nil_r. eapply rtc_l; [apply (wn_start d runs bl env t Losing); [done..|by rewrite Ea]|].
      apply rtc_once. rewrite <- (Hdel Losing) at 2. apply wn_lose, lookup_insert_eq. }
    destruct (persistNoWin t exec_ok d) as [d1 r1]. intros [= <- <- _]. by apply Hrun.
  - assert (mine_step (mkMineState d runs bl) (mkMineState d (<[t := Ready b]> runs) bl)) as H1' by (apply (wn_start d runs bl env t); [done..|by rewrite Ea]).
    assert (forall d1, rtc mine_step (mkMineState d runs bl) (mkMineState d1 runs bl) -> rtc mine_step (mkMineState d runs bl) (mkMineState d1 runs (bl ++ []))) as Hnil
      by (intros d1; by rewrite app_nil_r).
    destruct exec_ok; simpl; [|intros [= <- <- _]; apply Hnil; constructor]. destruct (set_won t b (ext d)) as [x|] eqn:Ew; [|intros [= <- <- _]; apply Hnil; constructor].
    assert (rtc mine_step (mkMineState d runs bl) (mkMineState (with_ext d x) (<[t := Winner b]> runs) bl)) as H2'.
    { eapply rtc_l; [exact H1'|]. apply rtc_once. rewrite <- (insert_insert_eq runs t (Winner b) (Ready b)). apply wn_win; [apply lookup_insert_eq|done]. }
    destruct owned; simpl.
    2: { intros [= <- <- _]. apply Hnil. eapply rtc_r; [exact H2'|]. rewrite <- (Hdel (Winner b)) at 2. apply wn_stop. }
    assert (rtc mine_step (mkMineState d runs bl) (mkMineState (with_ext d x) runs (bl ++ [(t, b)]))) as H3'.
    { eapply rtc_r; [exact H2'|]. rewrite <- (Hdel (Winner b)) at 2. apply wn_submit, lookup_insert_eq. }
    destruct submit_ok; simpl; [|intros [= <- <- _]; exact H3']. destruct mark_ok; simpl; [|intros [= <- <- _]; exact H3'].
    intros [= <- <- _]. eapply rtc_r; [exact H3'|]. apply (wn_mark (with_ext d x)).
Qed.

(** a task is only created on a base that contains the block its miner has already
    won at the height of the base: whenever the transaction of the mining loop
    commits, in any reachable state, the block recorded for the miner at that height,
    if there is one, is among the blocks the task will build on, which are exactly
    those of the tip set; so a block that is known when the next round starts is never
    left out of it. *)
Theorem won_block_in_base (d0 : mdb) (st : mine_state) (parse : string -> option string) (wb : MiningBase) (sp : Z) (id t : TaskID) (row : mining_row) d d' :
  ext d0 = win_init -> rtc mine_step (mkMineState d0 ∅ []) st ->
  (forall c c', parse c = Some c' -> c' = c) ->
  ext d = ext (ms_db st) -> task_seq (ms_db st) <= id < task_seq d -> mine_extra parse wb sp id d = Ok (d', true) ->
  (forall c, in_base (ext d') id c <-> c ∈ ts_Cids (mb_TipSet wb))
  /\ (mining_tasks (ext d) !! t = Some row -> mt_sp_id row = sp -> mt_epoch row = ts_Height (mb_TipSet wb) -> won row = true ->
      exists c, mined_cid row = Some c /\ in_base (ext d') id c).
Proof.
  intros He Hr Hparse Hd Hid Hex. pose proof (mo_tables _ (mine_reachable_ok d0 st He Hr)) as Hok. rewrite <- Hd in Hok.
  pose proof (mine_extra_keeps _ _ _ _ _ _ Hex) as Hk. destruct Hk as (_ & _ & _ & _ & Hin); [lia|eapply mine_tables_mono; [|exact Hok]; lia|].
  split; [exact Hin|]. intros Hrow Hsp Hep Hw. unfold mine_extra in Hex.
  assert (forall o, o ∈ enum (own_blocks sp (ts_Height (mb_TipSet wb)) (ext d)) <-> o = mined_cid row) as Hown.
  { intros o. rewrite enum_perm. unfold own_blocks. rewrite list_elem_of_fmap. split.
    - intros ([t' r'] & -> & [Hf Hin']%elem_of_filter_b). apply elem_of_map_to_list in Hin'. cbn [fst snd] in Hf.
      rewrite !andb_true_iff, !Z.eqb_eq in Hf. destruct Hf as [[? ?] ?].
      assert (t' = t) as -> by (eapply (wt_epoch _ _ Hok); [exact Hin'|exact Hrow|congruence|congruence]). simpl. congruence.
    - intros ->. exists (t, row). split; [done|]. apply elem_of_filter_b. cbn [fst snd]. rewrite !andb_true_iff, !Z.eqb_eq. split; [done|]. by apply elem_of_map_to_list. }
  destruct (enum _) as [|o l]; [by assert (mined_cid row ∈ []) as ?%elem_of_nil by (by apply Hown)|].
  assert (o = mined_cid row) as -> by (apply Hown; left). destruct (mined_cid row) as [c|]; [|done]. exists c. split; [done|].
  destruct (parse c) as [c'|] eqn:Ep; [|done]. apply Hparse in Ep as ->. case_bool_decide as Hc; [|done]. by apply Hin.
Qed.

(** The base of the loop only changes for a heavier one. *)
Lemma next_base_weight (weight : TipSet -> Z) (wb : MiningBase) (head : TipSet) (now : time) :
  weight (mb_TipSet wb) <= weight (mb_TipSet (next_base weight wb head now))
  /\ (mb_TipSet (next_base weight wb head now) = mb_TipSet wb -> mb_epoch (next_base weight wb head now) = mb_epoch wb + 1).
Proof.
  unfold next_base, mb_epoch. destruct (ts_Equals _ _); simpl; [lia|]. destruct (_ <=? _) eqn:E; simpl; [lia|]. split; [lia|]. intros ->. lia.
Qed.
End Mining.
