(* ===== verification/WinningExamples.v ===== *)
(** * Mining on a small chain

    A miner takes part in two rounds; the block of the first is finished after that of
    the second.  The theorems on mining are applied to this run, which also shows what
    they do not exclude. *)

From stdpp Require Import base gmap sets list strings sorting.
From Stdlib Require Import ZArith Lia.
From S2P Require Import Prelude FileType Float64 HarmonyDB Limiter Resources TaskEngine SectorLocks GoStd StorageIndex EngineExamples WdPostProof Winning WinningFacts.

(** ** The chain *)

Definition mx_T10 : TipSet := mkTipSet [mkHeader "p" []] 10 1000.
Definition mx_T11 : TipSet := mkTipSet [mkHeader "c" []] 11 1030.

Definition mx_tipset (key : list string) : option TipSet :=
  if bool_decide (key = ["p"%string]) then Some mx_T10 else if bool_decide (key = ["c"%string]) then Some mx_T11 else None.

Definition mx_info : MiningBaseInfo := mkBaseInfo true [mkExt 1 "cid" 8 None] [[3]] [2].

Definition mx_env : win_env :=
  mkWinEnv Some mx_tipset (fun _ _ _ => BaseInfo mx_info) None (fun _ _ => Some (Some [1])) (fun _ _ _ _ => Some (replicate 32 255))
    (fun _ => Some 1) (fun _ _ => Some (fun n => [n])) (fun c => VanillaBytes [ch_SectorNumber c]) (fun _ _ => Some [5]) (fun _ => Some [6])
    (fun _ _ => Some []) (Some mx_T11) (fun ts => Some (ts_Height ts))
    (fun bs => match bs with [] => None | _ => Some (mkTipSet bs 11 1030) end) (fun _ => [])
    (fun t => Some (if bt_Epoch t =? 11 then "a"%string else "b"%string)).

Lemma mx_env_ok : env_ok mx_env.
Proof.
  split; simpl.
  - by intros c c' [= <-].
  - intros key ts. unfold mx_tipset. case_bool_decide as H1; [|case_bool_decide as H2; [|done]]; intros [= <-]; subst key; done.
  - intros [|b bs] ts; [done|]. intros [= <-]. done.
Qed.

Definition mx_bytes (sp : Z) : list Z := [sp].
Abbreviation mx_mine := (try_mine mx_bytes 900 0 1 30 100 101).
Abbreviation mx_step := (mine_step (ST := unit) mx_bytes 900 0 1 30 100 101).

(** ** Two rounds *)

Definition mx_d0 : db win_tables := mkDB ∅ 1 [] [] ∅ 1 ∅ win_init.
Definition mx_base1 : MiningBase := mkMiningBase mx_T10 0 0.
Definition mx_base2 : MiningBase := mkMiningBase mx_T11 30 0.
Definition mx_dispatch (wb : MiningBase) (d : db win_tables) : db win_tables := dispatch Some ex_e1 ex_handler 100 (fun _ => []) wb [Some 1000] d.

Definition mx_d1 : db win_tables := mx_dispatch mx_base1 mx_d0.
Definition mx_d2 : db win_tables := mx_dispatch mx_base2 mx_d1.

Definition mx_block1 : block :=
  mkBlock "a" (mkTemplate 1000 ["p"%string] [6] [1] [[3]] [] 11 1030 [5]).
Definition mx_block2 : block :=
  mkBlock "b" (mkTemplate 1000 ["c"%string] [6] [1] [[3]] [] 12 1060 [5]).

Lemma mx_mined1 : mx_mine mx_env 1 mx_d1 = Mined mx_block1.
Proof. vm_compute. reflexivity. Qed.

Lemma mx_mined2 : mx_mine mx_env 2 mx_d2 = Mined mx_block2.
Proof. vm_compute. reflexivity. Qed.

Definition mx_won (t : TaskID) (b : block) (d : db win_tables) : db win_tables := with_ext d (default (ext d) (set_won t b (ext d))).

Definition mx_d3 : db win_tables := mx_won 2 mx_block2 mx_d2.
Definition mx_d4 : db win_tables := mx_won 1 mx_block1 mx_d3.

(** The first block is built, but not recorded, when the second round starts. *)
Lemma mx_run : exists runs, rtc mx_step (mkMineState mx_d0 ∅ []) (mkMineState mx_d4 runs [(2, mx_block2); (1, mx_block1)]).
Proof.
  eexists.
  eapply rtc_l; [apply (wn_dispatch _ _ _ _ _ _ _ mx_d0 ∅ [] Some ex_e1 ex_handler 100 (fun _ => []) mx_base1 [Some 1000]); [by intros ? ? [= <-]|done]|].
  eapply rtc_l; [apply (wn_start _ _ _ _ _ _ _ mx_d1 ∅ [] mx_env 1 (Ready mx_block1)); [done|apply mx_env_ok|by rewrite mx_mined1]|].
  eapply rtc_l; [apply (wn_dispatch _ _ _ _ _ _ _ mx_d1 _ [] Some ex_e1 ex_handler 100 (fun _ => []) mx_base2 [Some 1000]); [by intros ? ? [= <-]|done]|].
  eapply rtc_l; [apply (wn_start _ _ _ _ _ _ _ mx_d2 _ [] mx_env 2 (Ready mx_block2)); [done|apply mx_env_ok|by rewrite mx_mined2]|].
  eapply rtc_l; [apply (wn_win _ _ _ _ _ _ _ mx_d2 _ [] 2 mx_block2 (ext mx_d3)); vm_compute; reflexivity|].
  eapply rtc_l; [apply (wn_submit _ _ _ _ _ _ _ mx_d3 _ [] 2 mx_block2); vm_compute; reflexivity|].
  eapply rtc_l; [apply (wn_win _ _ _ _ _ _ _ mx_d3 _ _ 1 mx_block1 (ext mx_d4)); vm_compute; reflexivity|].
  apply rtc_once. apply (wn_submit _ _ _ _ _ _ _ mx_d4 _ [(2, mx_block2)] 1 mx_block1). vm_compute. reflexivity.
Qed.

Lemma no_slashing_witness :
  bt_Epoch (bl_template mx_block2) <> bt_Epoch (bl_template mx_block1)
  /\ forall c, c ∈ bt_Parents (bl_template mx_block2) -> c ∉ bt_Parents (bl_template mx_block1).
Proof.
  destruct mx_run as [runs Hr].
  assert (0%nat <> 1%nat) as Hij by done.
  pose proof (no_slashing mx_bytes 900 0 1 30 100 101 mx_d0 _ 0 1 2 1 mx_block2 mx_block1 eq_refl Hr eq_refl eq_refl Hij eq_refl) as (He & _ & Hp).
  split; [exact He|]. destruct Hp as [Hp|[Hp|Hp]]; [exact Hp|exfalso; apply Hp; apply (bool_decide_unpack _); vm_compute; exact I..].
Defined.

(** ** What is left open *)

(** The block of a round that is finished after the next round has started is not a
    parent of the block of that round, though both are submitted: the height of the
    parents of the second block is the epoch of the first. *)
Example late_block_left_out : exists runs,
  rtc mx_step (mkMineState mx_d0 ∅ []) (mkMineState mx_d4 runs [(2, mx_block2); (1, mx_block1)])
  /\ bt_Epoch (bl_template mx_block1) = ts_Height mx_T11 /\ bt_Parents (bl_template mx_block2) = ts_Cids mx_T11
  /\ bl_cid mx_block1 ∉ bt_Parents (bl_template mx_block2).
Proof.
  destruct mx_run as [runs Hr]. exists runs. split; [exact Hr|]. split; [done|]. split; [done|]. apply (bool_decide_unpack _). reflexivity.
Qed.

(** When the base is refreshed, the own block can be dropped from it. *)
Definition mx_both : TipSet := mkTipSet [mkHeader "a" []; mkHeader "c" []] 11 1030.
Definition mx_heavier : win_env :=
  mkWinEnv Some mx_tipset (fun _ _ _ => BaseInfo mx_info) None (fun _ _ => Some (Some [1])) (fun _ _ _ _ => Some (replicate 32 255))
    (fun _ => Some 1) (fun _ _ => Some (fun n => [n])) (fun c => VanillaBytes [ch_SectorNumber c]) (fun _ _ => Some [5]) (fun _ => Some [6])
    (fun _ _ => Some []) (Some (mkTipSet [mkHeader "c" []; mkHeader "d" []; mkHeader "e" []] 11 1030)) (fun ts => Some (Z.of_nat (length (ts_Blocks ts))))
    (fun bs => match bs with [] => None | _ => Some (mkTipSet bs 11 1030) end) (fun _ => []) (fun t => Some "b"%string).

Example own_block_dropped :
  ts_Cids <$> (fst ∘ fst <$> refresh_base mx_bytes 0 1 100 mx_heavier 1000 [3] 12 mx_both [6] []) = Some ["c"%string].
Proof. vm_compute. reflexivity. Qed.

(** A task whose base was marked as lost can still win when it runs again. *)
Example lost_task_mines : mx_mine mx_env 1 (with_ext mx_d1 (mark_no_win 1 (ext mx_d1))) = Mined mx_block1.
Proof. vm_compute. reflexivity. Qed.

(** So a miner can be slashed: the first task loses, the next round starts on the same base,
    the first task, whose completion was not recorded, runs again, and both win. *)
Definition mx_unlucky : win_env :=
  mkWinEnv Some mx_tipset (fun _ _ _ => BaseInfo mx_info) None (fun _ _ => Some None) (fun _ _ _ _ => Some (replicate 32 255))
    (fun _ => Some 1) (fun _ _ => Some (fun n => [n])) (fun c => VanillaBytes [ch_SectorNumber c]) (fun _ _ => Some [5]) (fun _ => Some [6])
    (fun _ _ => Some []) (Some mx_T11) (fun ts => Some (ts_Height ts))
    (fun bs => match bs with [] => None | _ => Some (mkTipSet bs 11 1030) end) (fun _ => []) (fun t => Some "b"%string).

Lemma mx_unlucky_ok : env_ok mx_unlucky.
Proof. destruct mx_env_ok as [A B C]. by split. Qed.

Definition mx_s1 : db win_tables := (persistNoWin 1 true mx_d1).1.
Definition mx_s2 : db win_tables := mx_dispatch (mkMiningBase mx_T10 0 1) mx_s1.
Definition mx_sblock (t : TaskID) (d : db win_tables) : block := match mx_mine mx_env t d with Mined b => b | _ => mx_block1 end.
Definition mx_s3 : db win_tables := mx_won 1 (mx_sblock 1 mx_s2) mx_s2.
Definition mx_s4 : db win_tables := mx_won 2 (mx_sblock 2 mx_s3) mx_s3.

Lemma lost_task_slashed : exists runs b1 b2, rtc mx_step (mkMineState mx_d0 ∅ []) (mkMineState mx_s4 runs [(1, b1); (2, b2)])
  /\ bt_Miner (bl_template b1) = bt_Miner (bl_template b2) /\ bt_Parents (bl_template b1) = ["p"%string] /\ bt_Parents (bl_template b2) = ["p"%string].
Proof.
  eexists _, (mx_sblock 1 mx_s2), (mx_sblock 2 mx_s3). split; [|vm_compute; done].
  eapply rtc_l; [apply (wn_dispatch _ _ _ _ _ _ _ mx_d0 ∅ [] Some ex_e1 ex_handler 100 (fun _ => []) mx_base1 [Some 1000]); [by intros ? ? [= <-]|done]|].
  eapply rtc_l; [apply (wn_start _ _ _ _ _ _ _ mx_d1 ∅ [] mx_unlucky 1 Losing); [done|apply mx_unlucky_ok|vm_compute; reflexivity]|].
  eapply rtc_l; [apply (wn_lose _ _ _ _ _ _ _ mx_d1 _ [] 1 true); vm_compute; reflexivity|].
  eapply rtc_l; [apply (wn_dispatch _ _ _ _ _ _ _ mx_s1 _ [] Some ex_e1 ex_handler 100 (fun _ => []) (mkMiningBase mx_T10 0 1) [Some 1000]); [by intros ? ? [= <-]|done]|].
  eapply rtc_l; [apply (wn_start _ _ _ _ _ _ _ mx_s2 _ [] mx_env 1 (Ready (mx_sblock 1 mx_s2))); [vm_compute; reflexivity|apply mx_env_ok|vm_compute; reflexivity]|].
  eapply rtc_l; [apply (wn_win _ _ _ _ _ _ _ mx_s2 _ [] 1 (mx_sblock 1 mx_s2) (ext mx_s3)); vm_compute; reflexivity|].
  eapply rtc_l; [apply (wn_submit _ _ _ _ _ _ _ mx_s3 _ [] 1 (mx_sblock 1 mx_s2)); vm_compute; reflexivity|].
  eapply rtc_l; [apply (wn_start _ _ _ _ _ _ _ mx_s3 _ _ mx_env 2 (Ready (mx_sblock 2 mx_s3))); [vm_compute; reflexivity|apply mx_env_ok|vm_compute; reflexivity]|].
  eapply rtc_l; [apply (wn_win _ _ _ _ _ _ _ mx_s3 _ _ 2 (mx_sblock 2 mx_s3) (ext mx_s4)); vm_compute; reflexivity|].
  apply rtc_once. apply (wn_submit _ _ _ _ _ _ _ mx_s4 _ [(1, mx_sblock 1 mx_s2)] 2 (mx_sblock 2 mx_s3)). vm_compute. reflexivity.
Qed.

(** ** The own block in the base *)

(** The first block is recorded before the next round starts, on a base with it. *)
Definition mx_d1w : db win_tables := mx_won 1 mx_block1 mx_d1.
Definition mx_base3 : MiningBase := mkMiningBase mx_both 30 0.

Lemma mx_run_won : exists runs bl, rtc mx_step (mkMineState mx_d0 ∅ []) (mkMineState mx_d1w runs bl).
Proof.
  do 2 eexists.
  eapply rtc_l; [apply (wn_dispatch _ _ _ _ _ _ _ mx_d0 ∅ [] Some ex_e1 ex_handler 100 (fun _ => []) mx_base1 [Some 1000]); [by intros ? ? [= <-]|done]|].
  eapply rtc_l; [apply (wn_start _ _ _ _ _ _ _ mx_d1 ∅ [] mx_env 1 (Ready mx_block1)); [done|apply mx_env_ok|by rewrite mx_mined1]|].
  apply rtc_once. apply (wn_win _ _ _ _ _ _ _ mx_d1 _ [] 1 mx_block1 (ext mx_d1w)); vm_compute; reflexivity.
Qed.

Definition mx_d1i : db win_tables := (insert_task mx_d1w "WinPost" 1 100).1.
Definition mx_d3i : db win_tables := match mine_extra Some mx_base3 1000 2 mx_d1i with Ok (d, _) => d | Err _ => mx_d1i end.
Definition mx_row1 : mining_row := mkMining 1000 11 0 true (Some "a"%string) None None.

Lemma mx_extra : mine_extra Some mx_base3 1000 2 mx_d1i = Ok (mx_d3i, true).
Proof. vm_compute. reflexivity. Qed.

Lemma won_block_in_base_witness : in_base (ext mx_d3i) 2 "a"%string.
Proof.
  destruct mx_run_won as (runs & bl & Hr).
  assert (forall c c' : string, Some c = Some c' -> c' = c) as Hparse by (by intros c c' [= <-]).
  assert (task_seq mx_d1w <= 2 < task_seq mx_d1i) as Hseq by (vm_compute; split; [discriminate|reflexivity]).
  pose proof (won_block_in_base mx_bytes 900 0 1 30 100 101 mx_d0 _ Some mx_base3 1000 2 1 mx_row1 mx_d1i mx_d3i eq_refl Hr Hparse eq_refl Hseq mx_extra) as [_ Hc].
  destruct Hc as (c & Hm & Hin); [vm_compute; reflexivity|reflexivity|reflexivity|reflexivity|].
  injection Hm as <-. exact Hin.
Defined.
