(* ===== verification/CachedProof.v ===== *)
(** * Inclusion proofs from a cached layer

    [lib/proof/cached_proof.go]: for a large piece the prover does not hash the whole
    piece for every challenge.  A middle layer of its tree is kept in a store; the
    prover hashes the section below one node of that layer and the tree above it, and
    joins the two inclusion proofs.  The result is the proof the whole tree gives.
    The store, the reader of pieces, the padding and the sizes of pieces are
    parameters. *)

From stdpp Require Import base gmap sets list strings.
From Stdlib Require Import ZArith Lia Strings.Byte.
From S2P Require Import Prelude Codec Memtree TreeD TreeDFacts.

(** ** Model *)

Record CacheProofParams := mkCacheParams {
  SnapshotNodeIndex : Z; StartLeaf : Z; LeavesPerNode : Z; SubTreeChallenge : Z; SectionOffset : Z; SectionLength : Z; SubrootSize : Z }.

(** [ProofCache] of a piece: [None] is an error. *)
Record ProofCache := mkProofCache {
  GetLayerIndex : option (option Z);
  GetNode : Z -> Z -> option (option bytes);
  GetLayer : Z -> option bytes
}.

Inductive cached_error := CacheError | ReaderError | TreeError (e : tree_error) | RootMismatch | ShiftPanic.

Section Cached.
(** SHA-256, the buffers of the pool, [fr32.Pad], [PaddedPieceSize.Unpadded],
    [UnpaddedPieceSize.Padded] and [padreader.PaddedSize]. *)
Context (Sum256 : bytes -> bytes) (Get : Z -> bytes) (Pad : bytes -> bytes) (Unpadded Padded PaddedSize : Z -> Z).

Definition ComputeCacheProofParams (layerIdx challengedLeaf : Z) : option CacheProofParams :=
  if layerIdx <? 0 then None
  else
    let leavesPerNode := i64 (Z.shiftl 1 layerIdx) in
    let snapshotNodeIndex := Z.shiftr challengedLeaf layerIdx in
    let startLeaf := i64 (Z.shiftl snapshotNodeIndex layerIdx) in
    let offset := i64 (Unpadded (u64 (i64 (startLeaf * NODE_SIZE)))) in
    let length := i64 (Unpadded (u64 (i64 (leavesPerNode * NODE_SIZE)))) in
    let subrootSize := Padded (PaddedSize (u64 length)) in
    Some (mkCacheParams snapshotNodeIndex startLeaf leavesPerNode (i64 (challengedLeaf - startLeaf)) offset length subrootSize).

Definition CombineSplitProofs (subProof upperProof : RawMerkleProof) : RawMerkleProof :=
  mkRawProof (Leaf subProof) (Proof_ subProof ++ Proof_ upperProof) (Root upperProof).

(** The bytes of a section reader, and of the section with the zeros after the end of
    the piece. *)
Definition section_reader (data : bytes) (off len : Z) : bytes :=
  if off <? 0 then [] else take (Z.to_nat len) (drop (Z.to_nat off) data).

Definition section_data (params : CacheProofParams) (data : bytes) (reportedSize : Z) : bytes :=
  let dataReader := section_reader data (SectionOffset params) (SectionLength params) in
  let fileRemaining := i64 (i64 reportedSize - SectionOffset params) in
  if fileRemaining <? SectionLength params
  then dataReader ++ replicate (Z.to_nat (u64 (i64 (i64 (Unpadded (SubrootSize params)) - fileRemaining)))) x00
  else dataReader.

(** [GenerateCachedProof]: no result when the piece has no cached layer. *)
Definition GenerateCachedProof (reader : option (bytes * Z)) (cache : ProofCache) (challengedLeaf : Z) : result (option RawMerkleProof) cached_error :=
  match GetLayerIndex cache with
  | None => Err CacheError
  | Some None => Ok None
  | Some (Some layerIdx) =>
      match ComputeCacheProofParams layerIdx challengedLeaf with
      | None => Err ShiftPanic
      | Some params =>
          match GetNode cache layerIdx (SnapshotNodeIndex params) with
          | None => Err CacheError
          | Some None => Ok None
          | Some (Some nodeHash) =>
              match reader with
              | None => Err ReaderError
              | Some (data, reportedSize) =>
                  match BuildSha254Memtree Sum256 Get Pad Padded (section_data params data reportedSize) (Unpadded (SubrootSize params)) with
                  | Err e => Err (TreeError e)
                  | Ok memtree =>
                      match MemtreeProof memtree (SubTreeChallenge params) with
                      | Err e => Err (TreeError e)
                      | Ok subTreeProof =>
                          if negb (bool_decide (Root subTreeProof = nodeHash)) then Err RootMismatch
                          else
                            match GetLayer cache layerIdx with
                            | None => Err CacheError
                            | Some layerBytes =>
                                match BuildSha254MemtreeFromSnapshot Sum256 Get layerBytes with
                                | Err e => Err (TreeError e)
                                | Ok mtree =>
                                    match MemtreeProof mtree (SnapshotNodeIndex params) with
                                    | Err e => Err (TreeError e)
                                    | Ok snapshotProof => Ok (Some (CombineSplitProofs subTreeProof snapshotProof))
                                    end
                                end
                            end
                      end
                  end
              end
          end
      end
  end.
End Cached.

(** ** The proof of the reference tree *)

Section RefProof.
Context (Sum256 : bytes -> bytes) (Sum256_length : forall x, length (Sum256 x) = 32%nat).
Abbreviation rf := (ref Sum256).

(** The other child of the parent. *)
Definition sibling (j : nat) : nat := if Nat.even j then S j else pred j.

Definition ref_path (leaves : list bytes) (k idx : nat) : list bytes := (fun l => rf leaves l (sibling (idx / 2 ^ l))) <$> seq 0 k.

Definition ref_proof (leaves : list bytes) (k idx : nat) : RawMerkleProof :=
  mkRawProof (leaves !!! idx) (ref_path leaves k idx) (rf leaves k 0).

Lemma sibling_lt (j k : nat) : (j < 2 ^ S k)%nat -> (sibling j < 2 ^ S k)%nat.
Proof.
  intros Hj. unfold sibling. destruct (Nat.even j) eqn:E; [|lia]. apply Nat.even_spec in E as [q ->].
  rewrite Nat.pow_succ_r' in *. lia.
Qed.

Lemma lxor_sibling (j : nat) : Z.lxor (Z.of_nat j) 1 = Z.of_nat (sibling j).
Proof.
  unfold sibling. destruct (Nat.even j) eqn:E.
  - apply Nat.even_spec in E as [q ->]. rewrite Nat2Z.inj_succ, Nat2Z.inj_mul. change (Z.of_nat 2) with 2. rewrite lxor_even. lia.
  - rewrite <- Nat.negb_odd, negb_false_iff, Nat.odd_spec in E. destruct E as [q ->]. replace (pred (2 * q + 1)) with (2 * q)%nat by lia.
    rewrite Nat2Z.inj_add, Nat2Z.inj_mul. apply lxor_odd.
Qed.

(** The siblings a buffer gives are those of its nodes. *)
Lemma siblings_up_nodes (k p : nat) (ns : list bytes) (idx : nat) : nodes_ok ns -> (p + 2 ^ S k - 1)%nat = length ns -> (idx < 2 ^ k)%nat ->
  siblings_up (concat ns) (level_starts (Z.of_nat p * NODE_SIZE) (pow_sizes k)) (Z.of_nat idx)
  = Some ((fun l => ns !!! (p + (level_pos k l + sibling (idx / 2 ^ l)))%nat) <$> seq 0 k).
Proof.
  revert p idx. induction k as [|k IH]; intros p idx Hok Hlen Hi; [done|].
  pose proof (Nat.pow_nonzero 2 k ltac:(lia)) as Hk0. pose proof (Nat.pow_succ_r' 2 k) as Hk1. pose proof (Nat.pow_succ_r' 2 (S k)) as Hk2.
  rewrite level_starts_pow. destruct (starts_cons (p + 2 ^ S k) k) as (s0 & rest & E0). rewrite E0, siblings_up_cons.
  rewrite lxor_sibling. pose proof (sibling_lt idx k Hi) as Hs.
  replace (Z.of_nat p * NODE_SIZE + Z.of_nat (sibling idx) * NODE_SIZE) with (Z.of_nat (p + sibling idx) * NODE_SIZE) by lia.
  rewrite slice_node by (done || lia). rewrite Z.quot_div_nonneg by lia. replace (Z.of_nat idx / 2) with (Z.of_nat (idx / 2)) by (by rewrite Nat2Z.inj_div).
  rewrite <- E0, IH; [|done|lia|apply Nat.Div0.div_lt_upper_bound; lia]. cbn [seq fmap list_fmap option_fmap option_map]. f_equal. f_equal.
  - unfold level_pos. rewrite Nat.sub_0_r, Nat.sub_diag. by rewrite Nat.pow_0_r, Nat.div_1_r.
  - rewrite <- fmap_S_seq. rewrite <- list_fmap_compose. apply list_fmap_ext. intros i l Hl%list_elem_of_lookup_2%elem_of_seq. unfold compose.
    rewrite level_pos_S by lia. rewrite Nat.Div0.div_div, <- Nat.pow_succ_r'. f_equal. lia.
Qed.

Lemma MemtreeProof_nodes (k : nat) (ns : list bytes) (idx : nat) : (k < 64)%nat -> nodes_ok ns -> (2 ^ S k - 1)%nat = length ns -> (idx < 2 ^ k)%nat ->
  MemtreeProof (concat ns) (Z.of_nat idx)
  = Ok (mkRawProof (ns !!! idx) ((fun l => ns !!! (level_pos k l + sibling (idx / 2 ^ l))%nat) <$> seq 0 k) (ns !!! (length ns - 1)%nat)).
Proof.
  intros Hk Hok Hlen Hi. pose proof (Nat.pow_nonzero 2 k ltac:(lia)) as Hk0. pose proof (Nat.pow_succ_r' 2 k) as Hk1.
  unfold MemtreeProof. rewrite concat_nodes_length by done.
  replace (Z.quot (Z.of_nat (32 * length ns)) NODE_SIZE) with (Z.of_nat (length ns)).
  2:{ rewrite Z.quot_div_nonneg by (unfold NODE_SIZE; lia). unfold NODE_SIZE. rewrite Nat2Z.inj_mul, Z.mul_comm. by rewrite Z.div_mul. }
  replace (Z.quot (Z.of_nat (length ns) + 1) 2) with (Z.of_nat (2 ^ k)).
  2:{ rewrite Z.quot_div_nonneg by lia. apply (Z.div_unique _ _ _ 0); lia. }
  rewrite level_sizes_pow, sum_pow by done. rewrite (proj2 (Z.eqb_eq _ _)) by lia. cbn [negb].
  rewrite (proj2 (Z.ltb_ge _ 0)) by lia. rewrite Z.geb_leb, (proj2 (Z.leb_gt _ _)) by lia. cbn [orb].
  rewrite slice_node by (done || lia). pose proof (siblings_up_nodes k 0 ns idx Hok ltac:(lia) Hi) as E. cbn [Z.of_nat] in E. rewrite Z.mul_0_l in E. rewrite E.
  pose proof (last_start k 0) as Hla. cbn [Z.of_nat] in Hla. rewrite Z.mul_0_l in Hla. rewrite Hla.
  replace (0 + 2 ^ S k - 2)%nat with (length ns - 1)%nat by lia. by rewrite slice_node by (done || lia).
Qed.

(** The tree of given leaves gives the proof of the reference tree. *)
Lemma build_tree_proof (Get : Z -> bytes) (n : nat) (leaves : list bytes) :
  (n < 64)%nat -> (forall k, 0 <= k -> Z.of_nat (length (Get k)) = k) -> nodes_ok leaves -> length leaves = (2 ^ n)%nat ->
  exists buf, build_tree Sum256 Get (Z.of_nat (32 * 2 ^ n)) (concat leaves) = Ok buf
    /\ forall idx, (idx < 2 ^ n)%nat -> MemtreeProof buf (Z.of_nat idx) = Ok (ref_proof leaves n idx).
Proof.
  intros Hn Hget Hok Hl. destruct (build_tree_ref Sum256 Sum256_length Get n leaves Hn Hget Hok Hl) as (ns & E & Hoks & Hlen & Href).
  exists (concat ns). split; [done|]. intros idx Hi. rewrite (MemtreeProof_nodes n) by done. unfold ref_proof, ref_path. do 2 f_equal.
  - change (leaves !!! idx) with (rf leaves 0 idx). rewrite <- (Href 0%nat idx) by (rewrite ?Nat.sub_0_r; lia).
    unfold level_pos. rewrite Nat.sub_0_r, Nat.sub_diag. done.
  - apply list_fmap_ext. intros i l Hlt%list_elem_of_lookup_2%elem_of_seq. apply Href; [lia|].
    replace (n - l)%nat with (S (n - S l))%nat by lia. apply sibling_lt. replace (S (n - S l))%nat with (n - l)%nat by lia.
    apply Nat.Div0.div_lt_upper_bound. rewrite <- Nat.pow_add_r. replace (l + (n - l))%nat with n by lia. done.
  - rewrite <- (Href n 0%nat) by (rewrite ?Nat.sub_diag; simpl; lia). f_equal. unfold level_pos. rewrite Hlen.
    replace (S n - n)%nat with 1%nat by lia. change (2 ^ 1)%nat with 2%nat. lia.
Qed.

(** The proof of the reference tree verifies. *)
Lemma ref_path_root (leaves : list bytes) (r l a : nat) :
  proof_root Sum256 (rf leaves l a) ((fun i => rf leaves (l + i) (sibling (a / 2 ^ i))) <$> seq 0 r) (Z.of_nat a) = rf leaves (l + r) (a / 2 ^ r).
Proof.
  revert l a. induction r as [|r IH]; intros l a; [cbn [seq fmap list_fmap proof_root]; by rewrite Nat.add_0_r, Nat.pow_0_r, Nat.div_1_r|].
  cbn [seq fmap list_fmap proof_root]. rewrite Nat.pow_0_r, Nat.div_1_r, Nat.add_0_r.
  assert ((if Z.of_nat a mod 2 =? 0 then ComputeBinShaParent Sum256 (rf leaves l a) (rf leaves l (sibling a)) else ComputeBinShaParent Sum256 (rf leaves l (sibling a)) (rf leaves l a))
    = rf leaves (S l) (a / 2)) as ->.
  { unfold sibling. destruct (Nat.even a) eqn:E.
    - apply Nat.even_spec in E as [q ->]. rewrite Nat2Z.inj_mul, Z.mul_comm, Z.mod_mul by lia. rewrite Nat.mul_comm, Nat.div_mul by lia.
      cbn [ref]. by rewrite (Nat.mul_comm q 2).
    - rewrite <- Nat.negb_odd, negb_false_iff, Nat.odd_spec in E. destruct E as [q ->]. replace (pred (2 * q + 1)) with (2 * q)%nat by lia.
      rewrite Nat2Z.inj_add, Nat2Z.inj_mul. change (Z.of_nat 2) with 2. change (Z.of_nat 1) with 1. rewrite Z.add_comm, Z.mul_comm, Z.mod_add by lia.
      change (1 mod 2 =? 0) with false. cbn [ref]. replace ((2 * q + 1) / 2)%nat with q; [by rewrite Nat.add_1_r|].
      apply (Nat.div_unique _ _ _ 1); lia. }
  replace (Z.of_nat a / 2) with (Z.of_nat (a / 2)) by (by rewrite Nat2Z.inj_div). rewrite <- fmap_S_seq, <- list_fmap_compose.
  rewrite Nat.add_succ_r, <- Nat.add_succ_l. rewrite Nat.pow_succ_r', <- Nat.Div0.div_div. rewrite <- (IH (S l) (a / 2)%nat). f_equal.
  apply list_fmap_ext. intros i j _. unfold compose. rewrite Nat.Div0.div_div, <- Nat.pow_succ_r'. by rewrite Nat.add_succ_r.
Qed.

Lemma ref_proof_verifies (leaves : list bytes) (k idx : nat) : (idx < 2 ^ k)%nat ->
  VerifyProof Sum256 (Leaf (ref_proof leaves k idx)) (Proof_ (ref_proof leaves k idx)) (Root (ref_proof leaves k idx)) (Z.of_nat idx) = true.
Proof.
  intros Hi. unfold VerifyProof. apply bool_decide_eq_true. cbn [ref_proof Leaf Proof_ Root]. unfold ref_path.
  pose proof (ref_path_root leaves k 0 idx) as Hr. cbn [ref plus] in Hr. rewrite Hr. by rewrite Nat.div_small.
Qed.

(** The proof splits at a layer. *)
Lemma sibling_offset (a b : nat) : sibling (2 * a + b) = (2 * a + sibling b)%nat.
Proof.
  unfold sibling. rewrite Nat.even_add, Nat.even_mul. change (Nat.even 2) with true. cbn [orb]. destruct (Nat.even b) eqn:E; cbn [Bool.eqb]; [lia|].
  rewrite <- Nat.negb_odd, negb_false_iff, Nat.odd_spec in E. destruct E as [q ->]. lia.
Qed.

Lemma ref_path_split (leaves : list bytes) (m n c : nat) : length leaves = (2 ^ (m + n))%nat -> (c < 2 ^ (m + n))%nat ->
  let j := (c / 2 ^ m)%nat in
  ref_path leaves (m + n) c
  = ref_path (take (2 ^ m) (drop (j * 2 ^ m) leaves)) m (c mod 2 ^ m) ++ ref_path (ref_nodes Sum256 leaves m 0 (2 ^ n)) n j.
Proof.
  intros Hl Hc j. pose proof (Nat.pow_nonzero 2 m ltac:(lia)) as Hm0. assert (j < 2 ^ n)%nat as Hj
    by (apply Nat.Div0.div_lt_upper_bound; by rewrite <- Nat.pow_add_r).
  pose proof (Nat.div_mod c (2 ^ m) Hm0) as Hcd. fold j in Hcd. pose proof (Nat.mod_upper_bound c (2 ^ m) Hm0) as Hr. set (r := (c mod 2 ^ m)%nat) in *.
  unfold ref_path. rewrite seq_app, fmap_app. f_equal.
  - apply list_fmap_ext. intros i l Hlt%list_elem_of_lookup_2%elem_of_seq.
    assert (2 ^ m = 2 ^ l * (2 * 2 ^ (m - S l)))%nat as Hp by (rewrite <- Nat.pow_succ_r', <- Nat.pow_add_r; f_equal; lia).
    assert (r / 2 ^ l < 2 ^ S (m - S l))%nat as Hq by (apply Nat.Div0.div_lt_upper_bound; rewrite <- Nat.pow_add_r; replace (l + S (m - S l))%nat with m by lia; lia).
    rewrite ref_chunk; [|lia|replace (m - l)%nat with (S (m - S l)) by lia; by apply sibling_lt|rewrite Hl, Nat.pow_add_r; nia].
    f_equal. replace (2 ^ (m - l))%nat with (2 * 2 ^ (m - S l))%nat by (rewrite <- Nat.pow_succ_r'; f_equal; lia).
    replace (j * (2 * 2 ^ (m - S l)))%nat with (2 * (j * 2 ^ (m - S l)))%nat by lia. rewrite <- sibling_offset. f_equal.
    rewrite Hcd at 1. rewrite Hp. replace (2 ^ l * (2 * 2 ^ (m - S l)) * j + r)%nat with (2 * (j * 2 ^ (m - S l)) * 2 ^ l + r)%nat by lia.
    apply Nat.div_add_l. apply Nat.pow_nonzero. lia.
  - cbn [plus]. replace (seq m n) with (Nat.add m <$> seq 0 n) by (rewrite fmap_add_seq; f_equal; lia). rewrite <- list_fmap_compose. apply list_fmap_ext. intros i l Hlt%list_elem_of_lookup_2%elem_of_seq. unfold compose.
    rewrite ref_stack; [|lia|]; [|replace (n - l)%nat with (S (n - S l))%nat by lia; apply sibling_lt; replace (S (n - S l))%nat with (n - l)%nat by lia;
      apply Nat.Div0.div_lt_upper_bound; rewrite <- Nat.pow_add_r; by replace (l + (n - l))%nat with n by lia].
    f_equal. unfold j. by rewrite Nat.Div0.div_div, <- Nat.pow_add_r.
Qed.
End RefProof.

(** ** The cached proof *)

Section Equivalence.
Context (Sum256 : bytes -> bytes) (Sum256_length : forall x, length (Sum256 x) = 32%nat).
Context (Get : Z -> bytes) (Get_length : forall k, 0 <= k -> Z.of_nat (length (Get k)) = k).

(** The padding maps 127 bytes to 128, block by block; the sizes follow it, and
    [padreader.PaddedSize] keeps a size that fills a piece. *)
Context (Pad : bytes -> bytes) (Pad_app : forall (q : nat) a b, length a = (127 * q)%nat -> Pad (a ++ b) = Pad a ++ Pad b).
Context (Pad_length : forall (q : nat) a, length a = (127 * q)%nat -> length (Pad a) = (128 * q)%nat).
Context (Unpadded Padded PaddedSize : Z -> Z).
Context (Unpadded_mul : forall q, 0 <= q -> Unpadded (128 * q) = 127 * q) (Padded_mul : forall q, 0 <= q -> Padded (127 * q) = 128 * q).
Context (PaddedSize_pow : forall k : nat, PaddedSize (127 * 2 ^ Z.of_nat k) = 127 * 2 ^ Z.of_nat k).

Lemma pow_quarter (m : nat) : (2 <= m)%nat -> (2 ^ m = 4 * 2 ^ (m - 2))%nat.
Proof. intros Hm. replace m with (S (S (m - 2))) at 1 by lia. rewrite !Nat.pow_succ_r'. lia. Qed.

Lemma i64_nat (x : nat) : Z.of_nat x < 2 ^ 63 -> i64 (Z.of_nat x) = Z.of_nat x.
Proof. intros Hx. apply i64_small. unfold in_i64, min_i64, max_i64. lia. Qed.

Lemma u64_nat (x : nat) : Z.of_nat x < 2 ^ 63 -> u64 (Z.of_nat x) = Z.of_nat x.
Proof. intros Hx. apply u64_small. unfold in_u64. lia. Qed.

(** The positions for a leaf [c] and a cached layer [m]. *)
Lemma params_spec (m c : nat) : (2 <= m)%nat -> Z.of_nat (32 * 2 ^ m) < 2 ^ 63 -> Z.of_nat (32 * c) < 2 ^ 63 ->
  let j := (c / 2 ^ m)%nat in let M := (2 ^ (m - 2))%nat in
  ComputeCacheProofParams Unpadded Padded PaddedSize (Z.of_nat m) (Z.of_nat c)
  = Some (mkCacheParams (Z.of_nat j) (Z.of_nat (j * 2 ^ m)) (Z.of_nat (2 ^ m)) (Z.of_nat (c mod 2 ^ m)) (Z.of_nat (127 * (j * M))) (Z.of_nat (127 * M)) (Z.of_nat (128 * M))).
Proof.
  intros Hm Hb Hc j M. pose proof (pow_quarter m Hm) as Hq. fold M in Hq. pose proof (Nat.pow_nonzero 2 m ltac:(lia)) as H0.
  pose proof (Nat.div_mod c (2 ^ m) H0) as Hdm. fold j in Hdm.
  unfold ComputeCacheProofParams. rewrite (proj2 (Z.ltb_ge _ 0)) by lia.
  rewrite (Z.shiftl_mul_pow2 1), Z.mul_1_l, Z.shiftr_div_pow2 by lia. replace (2 ^ Z.of_nat m) with (Z.of_nat (2 ^ m)) by (by rewrite Nat2Z.inj_pow).
  rewrite (i64_nat (2 ^ m)) by lia. replace (Z.of_nat c / Z.of_nat (2 ^ m)) with (Z.of_nat j) by (unfold j; by rewrite Nat2Z.inj_div).
  rewrite Z.shiftl_mul_pow2 by lia. replace (Z.of_nat j * 2 ^ Z.of_nat m) with (Z.of_nat (j * 2 ^ m)) by (by rewrite Nat2Z.inj_mul, Nat2Z.inj_pow).
  rewrite (i64_nat (j * 2 ^ m)) by lia. unfold NODE_SIZE.
  replace (Z.of_nat (j * 2 ^ m) * 32) with (Z.of_nat (128 * (j * M))) by lia. replace (Z.of_nat (2 ^ m) * 32) with (Z.of_nat (128 * M)) by lia.
  rewrite (i64_nat (128 * (j * M))), (u64_nat (128 * (j * M))), (i64_nat (128 * M)), (u64_nat (128 * M)) by lia.
  rewrite (Nat2Z.inj_mul 128 (j * M)), (Nat2Z.inj_mul 128 M). change (Z.of_nat 128) with 128. rewrite !Unpadded_mul by lia.
  replace (127 * Z.of_nat (j * M)) with (Z.of_nat (127 * (j * M))) by lia. replace (127 * Z.of_nat M) with (Z.of_nat (127 * M)) by lia.
  rewrite (i64_nat (127 * (j * M))), (i64_nat (127 * M)), (u64_nat (127 * M)) by lia.
  replace (Z.of_nat (127 * M)) with (127 * 2 ^ Z.of_nat (m - 2)) at 2 by (unfold M; rewrite Nat2Z.inj_mul, Nat2Z.inj_pow; done).
  rewrite PaddedSize_pow, Padded_mul by lia.
  replace (Z.of_nat c - Z.of_nat (j * 2 ^ m)) with (Z.of_nat (c mod 2 ^ m)) by lia. rewrite i64_nat by lia.
  do 2 f_equal. unfold M. rewrite Nat2Z.inj_pow. done.
Qed.

(** The bytes that are hashed for section [j] are those of the padded piece. *)
Lemma section_bytes (M j U : nat) (data : bytes) (params : CacheProofParams) :
  SectionOffset params = Z.of_nat (127 * (j * M)) -> SectionLength params = Z.of_nat (127 * M) -> SubrootSize params = Z.of_nat (128 * M) ->
  (length data <= 127 * U)%nat -> (j * M + M <= U)%nat -> Z.of_nat (127 * U) < 2 ^ 62 ->
  exists rest, section_data Unpadded params data (Z.of_nat (length data))
    = take (127 * M) (drop (127 * (j * M)) (data ++ replicate (127 * U - length data) x00)) ++ rest.
Proof.
  intros Ho Hl Hs Hd Hj Hu. unfold section_data, section_reader. rewrite Ho, Hl, Hs. rewrite (proj2 (Z.ltb_ge _ 0)) by lia. rewrite !Nat2Z.id.
  rewrite (i64_nat (length data)) by lia. rewrite (i64_small (Z.of_nat (length data) - _)) by (unfold in_u64, in_i64, min_i64, max_i64; lia).
  rewrite drop_app, take_app. destruct (_ <? _) eqn:E; [apply Z.ltb_lt in E|apply Z.ltb_ge in E; exists []].
  - rewrite (Nat2Z.inj_mul 128 M). change (Z.of_nat 128) with 128. rewrite Unpadded_mul by lia.
    rewrite (i64_small (127 * Z.of_nat M)) by (unfold in_u64, in_i64, min_i64, max_i64; lia). rewrite i64_small, u64_small by (unfold in_u64, in_i64, min_i64, max_i64; lia).
    set (zs := Z.to_nat _). rewrite length_drop. set (g := (127 * M - (length data - 127 * (j * M)))%nat).
    exists (replicate (zs - g) x00). rewrite <- app_assoc. f_equal. rewrite drop_replicate, take_replicate, <- replicate_add. f_equal. lia.
  - rewrite app_nil_r. rewrite length_drop.
    replace (127 * M - (length data - 127 * (j * M)))%nat with 0%nat by lia. rewrite take_0, app_nil_r. done.
Qed.

(** The leaves of a section. *)
Lemma section_leaves (m n j : nat) (full : bytes) (leaves : list bytes) :
  (2 <= m)%nat -> length full = (127 * 2 ^ (m + n - 2))%nat -> nodes_ok leaves -> length leaves = (2 ^ (m + n))%nat -> concat leaves = Pad full -> (j < 2 ^ n)%nat ->
  Pad (take (127 * 2 ^ (m - 2)) (drop (127 * (j * 2 ^ (m - 2))) full)) = concat (take (2 ^ m) (drop (j * 2 ^ m) leaves)).
Proof.
  intros Hm Hf Hok Hl Hc Hj. pose proof (pow_quarter m Hm) as Hq. set (M := (2 ^ (m - 2))%nat) in *.
  assert (2 ^ (m + n - 2) = M * 2 ^ n)%nat as HU by (unfold M; rewrite <- Nat.pow_add_r; f_equal; lia).
  assert (2 ^ (m + n) = 2 ^ m * 2 ^ n)%nat as HL by (by rewrite Nat.pow_add_r).
  set (A := take (127 * (j * M)) full). set (S := take (127 * M) (drop (127 * (j * M)) full)). set (R := drop (127 * M) (drop (127 * (j * M)) full)).
  assert (full = A ++ S ++ R) as Hfull by (unfold A, S, R; by rewrite take_drop, take_drop).
  assert (length A = 127 * (j * M))%nat as HA by (unfold A; rewrite length_take; nia).
  assert (length S = 127 * M)%nat as HS by (unfold S; rewrite length_take, length_drop; nia).
  set (LA := take (j * 2 ^ m) leaves). set (LS := take (2 ^ m) (drop (j * 2 ^ m) leaves)). set (LR := drop (2 ^ m) (drop (j * 2 ^ m) leaves)).
  assert (concat leaves = concat LA ++ concat LS ++ concat LR) as Hcl by (rewrite <- !concat_app; unfold LA, LS, LR; by rewrite !take_drop).
  assert (nodes_ok LA /\ nodes_ok LS) as [HoA HoS] by (split; [by apply Forall_take|by apply Forall_take, Forall_drop]).
  rewrite Hc, Hfull in Hcl. rewrite (Pad_app (j * M) A) in Hcl by done. rewrite (Pad_app M S) in Hcl by done.
  apply app_inj_1 in Hcl as [_ Hcl].
  - apply app_inj_1 in Hcl as [Hcl _]; [done|]. rewrite (Pad_length M S HS), concat_nodes_length by done. unfold LS. rewrite length_take, length_drop. nia.
  - rewrite (Pad_length (j * M) A HA), concat_nodes_length by done. unfold LA. rewrite length_take. nia.
Qed.

Lemma pow_le_25 (k : nat) : (k <= 25)%nat -> Z.of_nat (32 * 2 ^ k) <= MaxMemtreeSize.
Proof.
  intros Hk. rewrite Nat2Z.inj_mul, Nat2Z.inj_pow. assert (Z.of_nat 2 ^ Z.of_nat k <= 2 ^ 25) by (apply Z.pow_le_mono_r; lia).
  unfold MaxMemtreeSize. change (2 ^ 30) with (32 * 2 ^ 25). lia.
Qed.

(** A tree over raw data that fills its size. *)
Lemma raw_tree_proof (k : nat) (raw rest : bytes) (leaves : list bytes) :
  (2 <= k <= 25)%nat -> length raw = (127 * 2 ^ (k - 2))%nat -> nodes_ok leaves -> length leaves = (2 ^ k)%nat -> Pad raw = concat leaves ->
  exists buf, BuildSha254Memtree Sum256 Get Pad Padded (raw ++ rest) (Z.of_nat (127 * 2 ^ (k - 2))) = Ok buf
    /\ forall idx, (idx < 2 ^ k)%nat -> MemtreeProof buf (Z.of_nat idx) = Ok (ref_proof Sum256 leaves k idx).
Proof.
  intros Hk Hr Hok Hl Hp. destruct (build_tree_proof Sum256 Sum256_length Get k leaves ltac:(lia) Get_length Hok Hl) as (buf & E & Hb).
  exists buf. split; [|done]. unfold BuildSha254Memtree. rewrite (Nat2Z.inj_mul 127). change (Z.of_nat 127) with 127. rewrite Padded_mul by lia.
  assert (128 * Z.of_nat (2 ^ (k - 2)) = Z.of_nat (32 * 2 ^ k)) as Hs by (pose proof (pow_quarter k ltac:(lia)); lia). rewrite Hs.
  pose proof (pow_le_25 k ltac:(lia)). rewrite Z.gtb_ltb, (proj2 (Z.ltb_ge _ _)) by lia. unfold ReadFull.
  replace (Z.to_nat (127 * Z.of_nat (2 ^ (k - 2)))) with (length raw) by lia. rewrite decide_True by (rewrite length_app; lia).
  rewrite take_app_length, Hp. exact E.
Qed.

Section Piece.
(** A piece of [2 ^ (m + n)] leaves whose layer [m] is cached. *)
Context (m n : nat) (data : bytes) (leaves : list bytes).
Abbreviation full := (data ++ replicate (127 * 2 ^ (m + n - 2) - length data) x00).
Context (Hm : (2 <= m <= 25)%nat) (Hn : (n <= 25)%nat) (Hd : (length data <= 127 * 2 ^ (m + n - 2))%nat).
Context (Hok : nodes_ok leaves) (Hl : length leaves = (2 ^ (m + n))%nat) (Hcl : concat leaves = Pad full).

Lemma piece_sizes : (2 ^ (m + n) = 2 ^ m * 2 ^ n)%nat /\ (2 ^ (m + n - 2) = 2 ^ (m - 2) * 2 ^ n)%nat /\ (2 ^ m = 4 * 2 ^ (m - 2))%nat
  /\ Z.of_nat (32 * 2 ^ m) <= 2 ^ 30 /\ Z.of_nat (32 * 2 ^ n) <= 2 ^ 30 /\ Z.of_nat (128 * 2 ^ (m + n - 2)) <= 2 ^ 55
  /\ length full = (127 * 2 ^ (m + n - 2))%nat.
Proof using Hd Hm Hn.
  clear Hcl Hl Hok.
  pose proof (pow_le_25 m ltac:(lia)) as Hbm. pose proof (pow_le_25 n ltac:(lia)) as Hbn. unfold MaxMemtreeSize in Hbm, Hbn.
  assert (2 ^ (m + n - 2) = 2 ^ (m - 2) * 2 ^ n)%nat as HU by (rewrite <- Nat.pow_add_r; f_equal; lia).
  pose proof (pow_quarter m ltac:(lia)) as Hq. rewrite Nat.pow_add_r. repeat split; try done.
  - rewrite HU. nia.
  - rewrite length_app, length_replicate. lia.
Qed.

(** The tree of section [j]. *)
Lemma section_tree (j : nat) (params : CacheProofParams) :
  SectionOffset params = Z.of_nat (127 * (j * 2 ^ (m - 2))) -> SectionLength params = Z.of_nat (127 * 2 ^ (m - 2)) -> SubrootSize params = Z.of_nat (128 * 2 ^ (m - 2)) ->
  (j < 2 ^ n)%nat -> let ls := take (2 ^ m) (drop (j * 2 ^ m) leaves) in
  exists buf, BuildSha254Memtree Sum256 Get Pad Padded (section_data Unpadded params data (Z.of_nat (length data))) (Unpadded (SubrootSize params)) = Ok buf
    /\ ref Sum256 ls m 0 = ref Sum256 leaves m j
    /\ forall idx, (idx < 2 ^ m)%nat -> MemtreeProof buf (Z.of_nat idx) = Ok (ref_proof Sum256 ls m idx).
Proof.
  intros Ho Hle Hs Hj ls. destruct piece_sizes as (HL & HU & Hq & Hbm & Hbn & Hbig & Hfl).
  destruct (section_bytes (2 ^ (m - 2)) j (2 ^ (m + n - 2)) data params Ho Hle Hs Hd ltac:(nia) ltac:(nia)) as (rest & ->). rewrite Hs.
  rewrite (Nat2Z.inj_mul 128). change (Z.of_nat 128) with 128. rewrite Unpadded_mul by lia.
  replace (127 * Z.of_nat (2 ^ (m - 2))) with (Z.of_nat (127 * 2 ^ (m - 2))) by lia.
  assert (nodes_ok ls /\ length ls = 2 ^ m)%nat as [Hols Hlls] by (split; [by apply Forall_take, Forall_drop|unfold ls; rewrite length_take, length_drop; nia]).
  destruct (raw_tree_proof m (take (127 * 2 ^ (m - 2)) (drop (127 * (j * 2 ^ (m - 2))) full)) rest ls) as (buf & E & Hbuf);
    [lia|rewrite length_take, length_drop; nia|done|done|by apply (section_leaves m n); try lia|].
  exists buf. split; [done|]. split; [|done].
  unfold ls. rewrite ref_chunk; [f_equal; rewrite Nat.sub_diag; simpl; lia|lia|rewrite Nat.sub_diag; simpl; lia|nia].
Qed.

(** The tree above the cached layer. *)
Lemma layer_tree : let ups := ref_nodes Sum256 leaves m 0 (2 ^ n) in
  exists buf, BuildSha254MemtreeFromSnapshot Sum256 Get (concat ups) = Ok buf
    /\ forall idx, (idx < 2 ^ n)%nat -> MemtreeProof buf (Z.of_nat idx) = Ok (ref_proof Sum256 ups n idx).
Proof.
  intros ups. destruct piece_sizes as (HL & HU & Hq & Hbm & Hbn & Hbig & Hfl).
  assert (nodes_ok ups) as Hou by (apply (ref_nodes_ok Sum256 Sum256_length _ _ _ _ (m + n)); [done|done|lia|replace (m + n - m)%nat with n by lia; lia]).
  assert (length ups = 2 ^ n)%nat as Hlu by apply ref_nodes_length.
  destruct (build_tree_proof Sum256 Sum256_length Get n ups ltac:(lia) Get_length Hou Hlu) as (buf & E & Hbuf).
  exists buf. split; [|done]. unfold BuildSha254MemtreeFromSnapshot. rewrite concat_nodes_length, Hlu by done.
  unfold MaxMemtreeSize. by rewrite Z.gtb_ltb, (proj2 (Z.ltb_ge _ _)) by lia.
Qed.

(** The joined proof is the proof of the tree of the piece. *)
Lemma combine_ref (c : nat) : (c < 2 ^ (m + n))%nat -> let j := (c / 2 ^ m)%nat in
  CombineSplitProofs (ref_proof Sum256 (take (2 ^ m) (drop (j * 2 ^ m) leaves)) m (c mod 2 ^ m)) (ref_proof Sum256 (ref_nodes Sum256 leaves m 0 (2 ^ n)) n j)
  = ref_proof Sum256 leaves (m + n) c.
Proof.
  intros Hc j. pose proof (Nat.pow_nonzero 2 m ltac:(lia)) as Hm0. pose proof (Nat.div_mod c (2 ^ m) Hm0) as Hdm. fold j in Hdm.
  pose proof (Nat.mod_upper_bound c (2 ^ m) Hm0) as Hr. unfold CombineSplitProofs, ref_proof. cbn [Leaf Proof_ Root]. f_equal.
  - rewrite lookup_total_take_lt by lia. rewrite lookup_total_drop. f_equal. lia.
  - symmetry. by apply ref_path_split.
  - apply ref_stack; [lia|]. rewrite Nat.sub_diag. simpl. lia.
Qed.
End Piece.

(** With the layer in the store, the cached proof is the proof of the tree. *)
Lemma cached_proof_ref (m n c : nat) (data : bytes) (leaves : list bytes) (cache : ProofCache) :
  let full := data ++ replicate (127 * 2 ^ (m + n - 2) - length data) x00 in
  (2 <= m <= 25)%nat -> (n <= 25)%nat -> (c < 2 ^ (m + n))%nat -> (length data <= 127 * 2 ^ (m + n - 2))%nat ->
  nodes_ok leaves -> length leaves = (2 ^ (m + n))%nat -> concat leaves = Pad full ->
  GetLayerIndex cache = Some (Some (Z.of_nat m)) ->
  GetNode cache (Z.of_nat m) (Z.of_nat (c / 2 ^ m)) = Some (Some (ref Sum256 leaves m (c / 2 ^ m))) ->
  GetLayer cache (Z.of_nat m) = Some (concat (ref_nodes Sum256 leaves m 0 (2 ^ n))) ->
  GenerateCachedProof Sum256 Get Pad Unpadded Padded PaddedSize (Some (data, Z.of_nat (length data))) cache (Z.of_nat c)
  = Ok (Some (ref_proof Sum256 leaves (m + n) c)).
Proof.
  intros full Hm Hn Hc Hd Hok Hl Hcl Hli Hnode Hlay.
  destruct (piece_sizes m n data Hm Hn Hd) as (HL & HU & Hq & Hbm & Hbn & Hbig & Hfl). fold full in Hfl.
  pose proof (Nat.pow_nonzero 2 m ltac:(lia)) as Hm0. pose proof (Nat.mod_upper_bound c (2 ^ m) Hm0) as Hr.
  assert (c / 2 ^ m < 2 ^ n)%nat as Hj by (apply Nat.Div0.div_lt_upper_bound; lia).
  unfold GenerateCachedProof. rewrite Hli, params_spec by (rewrite ?HL in *; nia). cbn [SnapshotNodeIndex]. rewrite Hnode.
  set (params := mkCacheParams _ _ _ _ _ _ _).
  destruct (section_tree m n data leaves Hm Hn Hd Hok Hl Hcl (c / 2 ^ m) params eq_refl eq_refl eq_refl Hj) as (buf & -> & Hroot & Hbuf).
  cbn [params SubTreeChallenge]. rewrite Hbuf by done. cbn [ref_proof Root]. rewrite bool_decide_eq_true_2 by done. cbn [negb]. rewrite Hlay.
  destruct (layer_tree m n data leaves Hm Hn Hd Hok Hl) as (buf2 & -> & Hbuf2). rewrite Hbuf2 by done.
  rewrite <- (combine_ref m n data leaves Hm Hn Hd Hl c Hc). done.
Qed.

(** C10: the proof from a cached layer is the proof of the whole piece: for a piece of
    [2 ^ (m + n)] leaves whose layer [m] is cached, the cached proof of any leaf
    (also one in the zeros after the end of the data) has that leaf of the padded
    piece, the root of its tree, and exactly the siblings on its path; it verifies,
    and for a piece that fits in memory it is the proof the complete tree gives. *)
Theorem cached_proof_equiv (m n c : nat) (data : bytes) (leaves : list bytes) (cache : ProofCache) :
  let full := data ++ replicate (127 * 2 ^ (m + n - 2) - length data) x00 in
  (2 <= m <= 25)%nat -> (n <= 25)%nat -> (c < 2 ^ (m + n))%nat -> (length data <= 127 * 2 ^ (m + n - 2))%nat ->
  nodes_ok leaves -> length leaves = (2 ^ (m + n))%nat -> concat leaves = Pad full ->
  GetLayerIndex cache = Some (Some (Z.of_nat m)) ->
  GetNode cache (Z.of_nat m) (Z.of_nat (c / 2 ^ m)) = Some (Some (ref Sum256 leaves m (c / 2 ^ m))) ->
  GetLayer cache (Z.of_nat m) = Some (concat (ref_nodes Sum256 leaves m 0 (2 ^ n))) ->
  exists p, GenerateCachedProof Sum256 Get Pad Unpadded Padded PaddedSize (Some (data, Z.of_nat (length data))) cache (Z.of_nat c) = Ok (Some p)
    /\ Leaf p = leaves !!! c /\ Root p = ref Sum256 leaves (m + n) 0 /\ Proof_ p = ref_path Sum256 leaves (m + n) c
    /\ VerifyProof Sum256 (Leaf p) (Proof_ p) (Root p) (Z.of_nat c) = true
    /\ ((m + n <= 25)%nat -> exists buf, BuildSha254Memtree Sum256 Get Pad Padded full (Z.of_nat (127 * 2 ^ (m + n - 2))) = Ok buf
          /\ MemtreeProof buf (Z.of_nat c) = Ok p).
Proof.
  intros full Hm Hn Hc Hd Hok Hl Hcl Hli Hnode Hlay. exists (ref_proof Sum256 leaves (m + n) c).
  split; [by apply cached_proof_ref|]. split; [done|]. split; [done|]. split; [done|]. split; [by apply ref_proof_verifies|]. intros Hk.
  destruct (piece_sizes m n data Hm Hn Hd) as (_ & _ & _ & _ & _ & _ & Hfl). fold full in Hfl.
  destruct (raw_tree_proof (m + n) full [] leaves) as (buf & Eb & Hb); [lia|done|done|done|done|]. rewrite app_nil_r in Eb. exists buf. auto.
Qed.
End Equivalence.

(** ** A piece of eight leaves *)

(** A zero byte after every 127 bytes. *)
Definition cp_pad (x : bytes) : bytes := concat ((fun i => take 127 (drop (127 * i) x) ++ [x00]) <$> seq 0 (length x / 127)).
Definition cp_unpadded (p : Z) : Z := p - p / 128.
Definition cp_padded (p : Z) : Z := p + p / 127.

Lemma cp_pad_app (q : nat) (a b : bytes) : length a = (127 * q)%nat -> cp_pad (a ++ b) = cp_pad a ++ cp_pad b.
Proof.
  intros Ha. unfold cp_pad. rewrite length_app, Ha.
  replace (127 * q + length b)%nat with (q * 127 + length b)%nat by lia. rewrite Nat.div_add_l, (Nat.mul_comm 127 q), Nat.div_mul by lia.
  rewrite seq_app, fmap_app, concat_app. f_equal; f_equal.
  - apply list_fmap_ext. intros i j Hj%list_elem_of_lookup_2%elem_of_seq. rewrite drop_app_le by lia. rewrite take_app_le; [done|]. rewrite length_drop. lia.
  - cbn [plus]. replace (seq q (length b / 127)) with (Nat.add q <$> seq 0 (length b / 127)) by (rewrite fmap_add_seq; f_equal; lia).
    rewrite <- list_fmap_compose. apply list_fmap_ext. intros i j _. unfold compose. rewrite drop_app_ge by lia. do 3 f_equal. lia.
Qed.

Lemma cp_pad_length (q : nat) (a : bytes) : length a = (127 * q)%nat -> length (cp_pad a) = (128 * q)%nat.
Proof.
  intros Ha. unfold cp_pad. rewrite Ha, Nat.mul_comm, Nat.div_mul by lia. rewrite length_concat.
  assert (forall (r p : nat), (p + r <= q)%nat -> sum_list (length <$> ((fun i => take 127 (drop (127 * i) a) ++ [x00]) <$> seq p r)) = (128 * r)%nat) as H.
  { induction r as [|r IH]; intros p Hp; [done|]. cbn [seq fmap list_fmap sum_list]. rewrite IH by lia. rewrite length_app, length_take, length_drop. cbn [length id]. unfold id. lia. }
  apply H. lia.
Qed.

Definition cp_data : bytes := le_enc 200 123456789123456789.
Definition cp_full : bytes := cp_data ++ replicate (127 * 2 - length cp_data) x00.
Definition cp_leaves : list bytes := (fun i => take 32 (drop (32 * i) (cp_pad cp_full))) <$> seq 0 8.
Definition cp_cache : ProofCache :=
  mkProofCache (Some (Some 2)) (fun _ i => Some (Some (ref ex_sum cp_leaves 2 (Z.to_nat i)))) (fun _ => Some (concat (ref_nodes ex_sum cp_leaves 2 0 2))).

(** A leaf of the second section, half of which is after the end of the data. *)
Lemma cached_proof_equiv_witness :
  exists p, GenerateCachedProof ex_sum ex_get cp_pad cp_unpadded cp_padded id (Some (cp_data, Z.of_nat (length cp_data))) cp_cache (Z.of_nat 6) = Ok (Some p)
    /\ Leaf p = cp_leaves !!! 6%nat /\ Root p = ref ex_sum cp_leaves (2 + 1) 0 /\ Proof_ p = ref_path ex_sum cp_leaves (2 + 1) 6
    /\ VerifyProof ex_sum (Leaf p) (Proof_ p) (Root p) (Z.of_nat 6) = true
    /\ ((2 + 1 <= 25)%nat -> exists buf, BuildSha254Memtree ex_sum ex_get cp_pad cp_padded cp_full (Z.of_nat (127 * 2 ^ (2 + 1 - 2))) = Ok buf
          /\ MemtreeProof buf (Z.of_nat 6) = Ok p).
Proof.
  apply (cached_proof_equiv ex_sum ex_sum_length ex_get ex_get_length cp_pad cp_pad_app cp_pad_length cp_unpadded cp_padded id).
  - intros q Hq. unfold cp_unpadded. rewrite Z.mul_comm, Z.div_mul by lia. lia.
  - intros q Hq. unfold cp_padded. rewrite Z.mul_comm, Z.div_mul by lia. lia.
  - intros k. reflexivity.
  - lia.
  - lia.
  - simpl. lia.
  - vm_compute. lia.
  - unfold nodes_ok. vm_compute. repeat constructor.
  - reflexivity.
  - vm_compute. reflexivity.
  - reflexivity.
  - vm_compute. reflexivity.
  - vm_compute. reflexivity.
Defined.
