(* ===== verification/PdpProve.v ===== *)
(** * Proving possession of data

    [tasks/pdp/task_prove.go]: the leaves of a data set that are challenged are drawn from
    a seed, each is proved by an inclusion proof in the tree of its piece, and the
    proofs go to a contract.  A large piece is proved from a cached layer
    ([CachedProof.v]), which [tasks/pdp/task_save_cache.go] computes and keeps in the
    store of [market/indexstore/indexstore.go]. *)

From stdpp Require Import base gmap sets list strings sorting.
From Stdlib Require Import ZArith Lia Strings.Byte.
From S2P Require Import Prelude HarmonyDB Codec Memtree TreeD TreeDFacts CachedProof.

Definition MinSizeForCache : Z := 32 * 1024 * 1024.

(** ** The store of layers *)

(** [pdp_cache_layer]: the rows of a piece and layer by index. *)
Abbreviation layer_store := (gmap (string * Z) (gmap Z bytes)).

Record NodeDigest := mkNodeDigest { nd_Layer : Z; nd_Hash : bytes; nd_Index : Z }.

Definition insert_node (cid : string) (store : layer_store) (n : NodeDigest) : layer_store :=
  <[(cid, nd_Layer n) := <[nd_Index n := nd_Hash n]> (default ∅ (store !! (cid, nd_Layer n)))]> store.

(** A batch is executed, or fails with some of its entries written. *)
Inductive batch_result := BatchOk | BatchErr (written : list bool).

(** The batches of [AddPDPLayer]: a batch is full when it has [batchSize] entries. *)
Fixpoint node_batches (batchSize : Z) (batch layer : list NodeDigest) : list (list NodeDigest) :=
  match layer with
  | [] => match batch with [] => [] | _ => [batch] end
  | r :: rest =>
      let batch := batch ++ [r] in
      if Z.of_nat (length batch) >=? batchSize then batch :: node_batches batchSize [] rest else node_batches batchSize batch rest
  end.

Fixpoint exec_batches (cid : string) (bs : list (list NodeDigest)) (results : list batch_result) (store : layer_store) : layer_store * bool :=
  match bs with
  | [] => (store, true)
  | b :: bs' =>
      match results with
      | BatchErr written :: _ => (foldl (insert_node cid) store (base.filter (fun p : bool * NodeDigest => p.1 = true) (zip written b)).*2, false)
      | _ => exec_batches cid bs' (tail results) (foldl (insert_node cid) store b)
      end
  end.

Definition AddPDPLayer (batchSize : Z) (cid : string) (layer : list NodeDigest) (results : list batch_result) (store : layer_store) : layer_store * bool :=
  match layer with
  | [] => (store, false)
  | _ => exec_batches cid (node_batches batchSize [] layer) results store
  end.

(** The layer of some row of the piece. *)
Definition GetPDPLayerIndex (cid : string) (store : layer_store) : option Z :=
  head (omap (fun p : (string * Z) * gmap Z bytes => if bool_decide (p.1.1 = cid) then Some p.1.2 else None) (map_to_list store)).

(** The rows of a layer, sorted by their index. *)
Definition GetPDPLayer (cid : string) (layerIdx : Z) (store : layer_store) : list NodeDigest :=
  let rows := default ∅ (store !! (cid, layerIdx)) in
  omap (fun i => (fun h => mkNodeDigest layerIdx h i) <$> rows !! i) (merge_sort Z.le (map_to_list rows).*1).

Definition GetPDPNode (cid : string) (layerIdx index : Z) (store : layer_store) : option bytes :=
  store !! (cid, layerIdx) ≫= fun rows => rows !! index.

(** [DeletePDPLayer]: layer by layer until none is left. *)
Fixpoint DeletePDPLayer (fuel : nat) (cid : string) (store : layer_store) : option layer_store :=
  match fuel with
  | O => None
  | S f =>
      match GetPDPLayerIndex cid store with
      | None => Some store
      | Some l => DeletePDPLayer f cid (delete (cid, l) store)
      end
  end.

(** The store as the cache of [GenerateCachedProof]; [ok] says whether its queries work. *)
Definition idxProofCache (ok : bool) (cid : string) (store : layer_store) : ProofCache :=
  let ans {A} (a : A) := if ok then Some a else None in
  mkProofCache (ans (GetPDPLayerIndex cid store)) (fun l i => ans (GetPDPNode cid l i store)) (fun l => ans (concat (nd_Hash <$> GetPDPLayer cid l store))).

Section Pdp.
Context (Sum256 : bytes -> bytes) (Get : Z -> bytes) (Pad : bytes -> bytes) (Unpadded Padded PaddedSize : Z -> Z).

(** [commcid.PieceCidV1FromV2], [commcid.DataCommitmentToPieceCidv2], the calculation of
    go-fil-commp-hashhash with a snapshot (digest and, if there is one, layer and
    nodes), and Keccak-256. *)
Context (PieceCidV1FromV2 : string -> option (string * Z)) (DataCommitmentToPieceCidv2 : bytes -> Z -> option string).
Context (DigestWithSnapshot : bytes -> option (bytes * option (Z * list bytes))) (Keccak256 : bytes -> bytes).

(** [mk20.GetPieceInfo]: padded and raw size. *)
Definition GetPieceInfo (cid : string) : option (Z * Z) :=
  match PieceCidV1FromV2 cid with Some (_, rawSize) => Some (Padded (PaddedSize rawSize), rawSize) | None => None end.

(** [GetSharedPieceReader]: the data of a piece and its size. *)
Context (GetSharedPieceReader : string -> option (bytes * Z)).

(** ** [TaskPDPSaveCache.Do] *)

Inductive save_error := SelectFailed | RowCount | BadCid | StoreFailed | ReaderFailed | SizeMismatch | DigestFailed | NoSnapshot | CidMismatch | AddFailed | UpdateFailed.

(** The part that fills the store. *)
Definition save_layer (batchSize : Z) (query_ok : bool) (results : list batch_result) (cid : string) (store : layer_store) : layer_store * result () save_error :=
  match GetPieceInfo cid with
  | None => (store, Err BadCid)
  | Some (size, rawSize) =>
      if size >? MinSizeForCache then
        if negb query_ok then (store, Err StoreFailed)
        else
          match GetPDPLayerIndex cid store with
          | Some _ => (store, Ok ())
          | None =>
              match GetSharedPieceReader cid with
              | None => (store, Err ReaderFailed)
              | Some (data, _) =>
                  let n := Z.of_nat (length data) in
                  if negb (n =? rawSize) then (store, Err SizeMismatch)
                  else
                    match DigestWithSnapshot data with
                    | None => (store, Err DigestFailed)
                    | Some (_, None) => (store, Err NoSnapshot)
                    | Some (digest, Some (layerIndex, nodes)) =>
                        match DataCommitmentToPieceCidv2 digest (u64 n) with
                        | None => (store, Err DigestFailed)
                        | Some pcid2 =>
                            if negb (bool_decide (pcid2 = cid)) then (store, Err CidMismatch)
                            else
                              let leafs := imap (fun i s => mkNodeDigest layerIndex s (Z.of_nat i)) nodes in
                              let '(store', ok) := AddPDPLayer batchSize cid leafs results store in
                              (store', if ok then Ok () else Err AddFailed)
                        end
                    end
              end
          end
      else (store, Ok ())
  end.

(** A row of [pdp_pipeline], as far as this task uses it. *)
Record pipeline_row := mkPipeline { pp_cid : string; save_cache_task_id : option TaskID; after_save_cache : bool; after_add_piece_msg : bool }.

Definition save_Do (batchSize : Z) (select_ok query_ok update_ok : bool) (results : list batch_result) (taskID : TaskID)
    (pipeline : list pipeline_row) (store : layer_store) : list pipeline_row * layer_store * result () save_error :=
  if negb select_ok then (pipeline, store, Err SelectFailed)
  else
    match base.filter (fun r => save_cache_task_id r = Some taskID /\ after_save_cache r = false) pipeline with
    | [sc] =>
        match save_layer batchSize query_ok results (pp_cid sc) store with
        | (store', Err e) => (pipeline, store', Err e)
        | (store', Ok _) =>
            if negb update_ok then (pipeline, store', Err UpdateFailed)
            else
              let pipeline' := (fun r => if bool_decide (save_cache_task_id r = Some taskID) then mkPipeline (pp_cid r) None true (after_add_piece_msg r) else r) <$> pipeline in
              if (length (base.filter (fun r => save_cache_task_id r = Some taskID) pipeline) =? 1)%nat then (pipeline', store', Ok ())
              else (pipeline', store', Err UpdateFailed)
        end
    | _ => (pipeline, store, Err RowCount)
    end.

(** ** [ProveTask] *)

(** Go's big-endian forms: [big.Int.Bytes], [PutUint64], [big.Int.SetBytes]. *)
Definition be_nat (len : nat) (x : Z) : bytes := rev (le_enc len x).
Definition big_Bytes (x : Z) : bytes := be_nat (Z.to_nat ((Z.log2_up (Z.abs x + 1) + 7) / 8)) (Z.abs x).
Definition SetBytes (b : bytes) : Z := le_dec (rev b).

Definition padTo32Bytes (b : bytes) : bytes := replicate (32 - length b) x00 ++ b.

(** [None] is the division by zero of a data set without leaves. *)
Definition generateChallengeIndex (seed : bytes) (dataSetID proofIndex totalLeaves : Z) : option Z :=
  let data := seed ++ padTo32Bytes (big_Bytes dataSetID) ++ be_nat 8 (u64 proofIndex) in
  if totalLeaves =? 0 then None else Some (i64 (SetBytes (Keccak256 data) mod totalLeaves)).

Inductive prove_error := NoPiece | PieceCid | CachedFailed (e : cached_error) | NoCache | Reader | Size | Tree (e : tree_error) | NotVerified
| LeafCount | EmptyDataSet | FindPieces | IndexPanic.

(** [proveRoot] for the piece found in [pdp_dataset_piece]; [NoCache] also queues the
    piece for [TaskPDPSaveCache]. *)
Definition proveRoot (store_ok : bool) (store : layer_store) (pieceCid : option string) (challengedLeaf : Z) : result (bytes * list bytes) prove_error :=
  match pieceCid with
  | None => Err NoPiece
  | Some cid =>
      match GetPieceInfo cid with
      | None => Err PieceCid
      | Some (size, rawSize) =>
          let mProof :=
            if size >? MinSizeForCache then
              match GenerateCachedProof Sum256 Get Pad Unpadded Padded PaddedSize (GetSharedPieceReader cid) (idxProofCache store_ok cid store) challengedLeaf with
              | Err e => Err (CachedFailed e)
              | Ok None => Err NoCache
              | Ok (Some p) => Ok p
              end
            else
              match GetSharedPieceReader cid with
              | None => Err Reader
              | Some (data, readSize) =>
                  if negb (readSize =? rawSize) then Err Size
                  else if negb (Padded (PaddedSize readSize) =? size) then Err Size
                  else
                    let unp := Unpadded size in
                    let r := if readSize <? unp then data ++ replicate (Z.to_nat (unp - readSize)) x00 else data in
                    match BuildSha254Memtree Sum256 Get Pad Padded r unp with
                    | Err e => Err (Tree e)
                    | Ok memTree => match MemtreeProof memTree challengedLeaf with Err e => Err (Tree e) | Ok p => Ok p end
                    end
              end in
          match mProof with
          | Err e => Err e
          | Ok p => if VerifyProof Sum256 (Leaf p) (Proof_ p) (Root p) (u64 challengedLeaf) then Ok (Leaf p, Proof_ p) else Err NotVerified
          end
      end
  end.

(** [GenerateProofs]: [leafCount] and [FindPieceIds] are the contract's, [piece_of] the
    table of pieces of the data set. *)
Fixpoint prove_all (prove : Z -> Z -> result (bytes * list bytes) prove_error) (numChallenges : nat) (pieces : list (Z * Z)) : result (list (bytes * list bytes)) prove_error :=
  match numChallenges, pieces with
  | O, _ => Ok []
  | S _, [] => Err IndexPanic
  | S n, (pieceID, offset) :: rest =>
      match prove pieceID offset with
      | Err e => Err e
      | Ok p => match prove_all prove n rest with Err e => Err e | Ok ps => Ok (p :: ps) end
      end
  end.

Definition GenerateProofs (store_ok : bool) (store : layer_store) (leafCount : option Z) (FindPieceIds : list Z -> option (list (Z * Z))) (piece_of : Z -> option string)
    (dataSetID : Z) (seed : bytes) (numChallenges : nat) : result (list (bytes * list bytes)) prove_error :=
  match leafCount with
  | None => Err LeafCount
  | Some count =>
      match mapM (fun i => generateChallengeIndex seed dataSetID (Z.of_nat i) (u64 count)) (seq 0 numChallenges) with
      | None => Err EmptyDataSet
      | Some challenges =>
          match FindPieceIds challenges with
          | None => Err FindPieces
          | Some pieces => prove_all (fun pieceID offset => proveRoot store_ok store (piece_of pieceID) offset) numChallenges pieces
          end
      end
  end.
End Pdp.

(** ** The store keeps layers *)

(** The rows of a layer with these nodes. *)
Definition layer_rows (nodes : list bytes) : gmap Z bytes := list_to_map (imap (fun i h => (Z.of_nat i, h)) nodes).

(** The piece has this layer and no other. *)
Definition layer_saved (cid : string) (l : Z) (nodes : list bytes) (store : layer_store) : Prop :=
  store !! (cid, l) = Some (layer_rows nodes) /\ forall l' rows, store !! (cid, l') = Some rows -> l' = l.

Lemma layer_rows_lookup (nodes : list bytes) (i : nat) : layer_rows nodes !! Z.of_nat i = nodes !! i.
Proof.
  unfold layer_rows. destruct (nodes !! i) as [h|] eqn:E.
  - apply elem_of_list_to_map_1'.
    + intros h' Hin. apply list_elem_of_lookup in Hin as [j Hj]. rewrite list_lookup_imap in Hj. destruct (nodes !! j) as [x|] eqn:Ex; [|done].
      cbn in Hj. injection Hj as Hij ->. assert (j = i) as -> by lia. congruence.
    + apply list_elem_of_lookup. exists i. by rewrite list_lookup_imap, E.
  - apply not_elem_of_list_to_map_1. intros Hin. apply list_elem_of_fmap in Hin as ([z h] & Hz & Hin). cbn in Hz. subst z.
    apply list_elem_of_lookup in Hin as [j Hj]. rewrite list_lookup_imap in Hj. destruct (nodes !! j) as [x|] eqn:Ex; [|done].
    cbn in Hj. injection Hj as Hij ->. assert (j = i) as -> by lia. congruence.
Qed.

Lemma layer_rows_keys (nodes : list bytes) : (map_to_list (layer_rows nodes)).*1 ≡ₚ Z.of_nat <$> seq 0 (length nodes).
Proof.
  unfold layer_rows. assert ((imap (fun i h => (Z.of_nat i, h)) nodes).*1 = Z.of_nat <$> seq 0 (length nodes)) as E.
  { apply list_eq. intros i. rewrite !list_lookup_fmap, list_lookup_imap. destruct (nodes !! i) as [h|] eqn:Eh.
    - apply lookup_lt_Some in Eh. by rewrite lookup_seq_lt.
    - apply lookup_ge_None_1 in Eh. by rewrite lookup_seq_ge. }
  rewrite map_to_list_to_map by (rewrite E; apply NoDup_fmap_2; [apply _|apply NoDup_seq]). by rewrite E.
Qed.

(** Indices sorted by the store are the numbers from zero. *)
Lemma sorted_seq (l : list Z) (n : nat) : l ≡ₚ Z.of_nat <$> seq 0 n -> merge_sort Z.le l = Z.of_nat <$> seq 0 n.
Proof.
  intros Hp. apply (StronglySorted_unique Z.le).
  - apply StronglySorted_merge_sort; apply _.
  - clear Hp. generalize 0%nat. induction n as [|n IH]; intros a; cbn; [constructor|]. constructor; [apply IH|].
    apply Forall_fmap, Forall_forall. intros x Hx%elem_of_seq. cbn. lia.
  - by rewrite merge_sort_Permutation.
Qed.

Lemma saved_layer (cid : string) (l : Z) (nodes : list bytes) (store : layer_store) : layer_saved cid l nodes store ->
  nd_Hash <$> GetPDPLayer cid l store = nodes.
Proof.
  intros [Hs _]. unfold GetPDPLayer. rewrite Hs. change (default ∅ (Some (layer_rows nodes))) with (layer_rows nodes). cbn zeta. rewrite (sorted_seq _ _ (layer_rows_keys nodes)).
  assert (forall (ns : list bytes) (a : nat), (forall i, nodes !! (a + i)%nat = ns !! i) ->
    nd_Hash <$> omap (fun i => (fun h => mkNodeDigest l h i) <$> layer_rows nodes !! i) (Z.of_nat <$> seq a (length ns)) = ns) as H.
  { induction ns as [|x ns IH]; intros a Ha; [done|]. cbn [length seq fmap list_fmap omap list_omap]. rewrite layer_rows_lookup.
    pose proof (Ha 0%nat) as Hx. rewrite Nat.add_0_r in Hx. rewrite Hx. cbn. f_equal. apply IH. intros i. replace (S a + i)%nat with (a + S i)%nat by lia. apply (Ha (S i)). }
  apply H. done.
Qed.

Lemma saved_index (cid : string) (l : Z) (nodes : list bytes) (store : layer_store) : layer_saved cid l nodes store -> GetPDPLayerIndex cid store = Some l.
Proof.
  intros [Hs Hu]. unfold GetPDPLayerIndex.
  assert (forall x, x ∈ omap (fun p : (string * Z) * gmap Z bytes => if bool_decide (p.1.1 = cid) then Some p.1.2 else None) (map_to_list store) -> x = l) as Hall.
  { intros x Hx. apply list_elem_of_omap in Hx as ([[c l'] rows] & Hin & Hx). cbn in Hx. case_bool_decide; [|done]. injection Hx as <-. subst c.
    apply elem_of_map_to_list in Hin. by eapply Hu. }
  assert (l ∈ omap (fun p : (string * Z) * gmap Z bytes => if bool_decide (p.1.1 = cid) then Some p.1.2 else None) (map_to_list store)) as Hin.
  { apply list_elem_of_omap. exists ((cid, l), layer_rows nodes). split; [by apply elem_of_map_to_list|]. cbn. by rewrite bool_decide_eq_true_2. }
  destruct (omap _ _) as [|x xs]; [by apply not_elem_of_nil in Hin|]. cbn. f_equal. apply Hall. left.
Qed.

Lemma saved_node (cid : string) (l : Z) (nodes : list bytes) (store : layer_store) (i : nat) : layer_saved cid l nodes store ->
  GetPDPNode cid l (Z.of_nat i) store = nodes !! i.
Proof. intros [Hs _]. unfold GetPDPNode. rewrite Hs. cbn. apply layer_rows_lookup. Qed.

(** ** Saving a layer *)

Lemma node_batches_concat (batchSize : Z) (batch layer : list NodeDigest) : concat (node_batches batchSize batch layer) = batch ++ layer.
Proof.
  revert batch. induction layer as [|r rest IH]; intros batch; cbn [node_batches]; [destruct batch; cbn; by rewrite ?app_nil_r|].
  destruct (_ >=? _); [cbn [concat]; rewrite IH|rewrite IH]; by rewrite <- app_assoc.
Qed.

Lemma exec_batches_ok (cid : string) (bs : list (list NodeDigest)) (results : list batch_result) (store : layer_store) :
  Forall (fun r => r = BatchOk) results -> exec_batches cid bs results store = (foldl (insert_node cid) store (concat bs), true).
Proof.
  revert results store. induction bs as [|b bs IH]; intros results store Hr; [done|]. cbn [exec_batches concat]. rewrite foldl_app.
  destruct results as [|r results]; [by apply IH|]. inversion Hr as [|? ? -> Hr']; subst. by apply IH.
Qed.

(** Nodes of one layer go to its rows. *)
Lemma insert_nodes (cid : string) (l : Z) (nodes : list NodeDigest) (store : layer_store) : Forall (fun n => nd_Layer n = l) nodes -> nodes <> [] ->
  foldl (insert_node cid) store nodes = <[(cid, l) := foldl (fun m n => <[nd_Index n := nd_Hash n]> m) (default ∅ (store !! (cid, l))) nodes]> store.
Proof.
  intros Hl Hne. induction nodes as [|n nodes IH] using rev_ind; [done|]. apply Forall_app in Hl as [Hl Hn]. apply Forall_cons in Hn as [Hn _].
  rewrite !foldl_snoc. destruct nodes as [|n' nodes]; [cbn [foldl]; unfold insert_node; by rewrite Hn|]. rewrite IH by done.
  unfold insert_node at 1. rewrite Hn, lookup_insert_eq. by rewrite insert_insert_eq.
Qed.

Lemma insert_rows (l : Z) (nodes : list bytes) : foldl (fun (m : gmap Z bytes) n => <[nd_Index n := nd_Hash n]> m) ∅ (imap (fun i s => mkNodeDigest l s (Z.of_nat i)) nodes) = layer_rows nodes.
Proof.
  apply map_eq. intros z.
  assert (forall ns : list bytes, foldl (fun (m : gmap Z bytes) n => <[nd_Index n := nd_Hash n]> m) ∅ (imap (fun i s => mkNodeDigest l s (Z.of_nat i)) ns) !! z
    = if (0 <=? z) then ns !! Z.to_nat z else None) as H.
  { induction ns as [|x ns IH] using rev_ind; [cbn; rewrite lookup_empty; by destruct (0 <=? z)|]. rewrite imap_app. cbn [imap]. rewrite foldl_snoc. cbn [nd_Index nd_Hash].
    rewrite Nat.add_0_r. destruct (decide (z = Z.of_nat (length ns))) as [->|Hz].
    - rewrite lookup_insert_eq. rewrite (proj2 (Z.leb_le 0 _)) by lia. rewrite Nat2Z.id, lookup_app_r by lia. by rewrite Nat.sub_diag.
    - rewrite lookup_insert_ne by done. rewrite IH. destruct (0 <=? z) eqn:Ez; [|done]. apply Z.leb_le in Ez.
      destruct (decide (Z.to_nat z < length ns)%nat) as [Hlt|Hge]; [by rewrite lookup_app_l|]. rewrite !lookup_ge_None_2; [done|rewrite length_app; cbn; lia|lia]. }
  rewrite H. destruct (0 <=? z) eqn:Ez.
  - apply Z.leb_le in Ez. rewrite <- (layer_rows_lookup nodes (Z.to_nat z)). by rewrite Z2Nat.id.
  - apply Z.leb_gt in Ez. symmetry. unfold layer_rows. apply not_elem_of_list_to_map_1. intros Hin. apply list_elem_of_fmap in Hin as ([y h] & Hy & Hin). cbn in Hy. subst y.
    apply list_elem_of_lookup in Hin as [j Hj]. rewrite list_lookup_imap in Hj. destruct (nodes !! j); [|done]. cbn in Hj. injection Hj as Hj _. lia.
Qed.

(** A layer that is added without failures is saved, if the piece had none. *)
Lemma AddPDPLayer_saved (batchSize : Z) (cid : string) (l : Z) (nodes : list bytes) (results : list batch_result) (store : layer_store) :
  nodes <> [] -> (forall l', store !! (cid, l') = None) -> Forall (fun r => r = BatchOk) results ->
  exists store', AddPDPLayer batchSize cid (imap (fun i s => mkNodeDigest l s (Z.of_nat i)) nodes) results store = (store', true) /\ layer_saved cid l nodes store' /\
    forall c l', c <> cid -> store' !! (c, l') = store !! (c, l').
Proof.
  intros Hne Hnone Hr. assert (imap (fun i s => mkNodeDigest l s (Z.of_nat i)) nodes <> []) as Hne' by (by destruct nodes).
  unfold AddPDPLayer. destruct (imap _ nodes) as [|n0 ns] eqn:E; [done|]. rewrite <- E in *. rewrite exec_batches_ok, node_batches_concat by done. cbn [app].
  assert (Forall (fun n => nd_Layer n = l) (imap (fun i s => mkNodeDigest l s (Z.of_nat i)) nodes)) as Hl.
  { apply Forall_lookup. intros i n. rewrite list_lookup_imap. destruct (nodes !! i); [|done]. by intros [= <-]. }
  rewrite (insert_nodes cid l) by done. rewrite Hnone. change (default ∅ (@None (gmap Z bytes))) with (∅ : gmap Z bytes). rewrite insert_rows. eexists. split; [done|]. split; [split|].
  - apply lookup_insert_eq.
  - intros l' rows Hl'. destruct (decide (l' = l)) as [|Hd]; [done|]. rewrite lookup_insert_ne in Hl' by congruence. by rewrite Hnone in Hl'.
  - intros c l' Hc. by rewrite lookup_insert_ne by congruence.
Qed.

(** ** The proofs of a data set *)

(** A piece of a data set: its data, and its tree of [2 ^ dp_k] leaves. *)
Record ds_piece := mkDsPiece { dp_id : Z; dp_cid : string; dp_k : nat; dp_data : bytes; dp_leaves : list bytes }.

(** Where the contract finds a leaf: pieces take their leaves one after the other. *)
Fixpoint find_leaf (ds : list ds_piece) (c : Z) : option (Z * Z) :=
  match ds with
  | [] => None
  | d :: rest => if c <? 2 ^ Z.of_nat (dp_k d) then Some (dp_id d, c) else find_leaf rest (c - 2 ^ Z.of_nat (dp_k d))
  end.

Definition ds_leaves (ds : list ds_piece) : list bytes := concat (dp_leaves <$> ds).

Lemma find_leaf_spec (ds : list ds_piece) (c : nat) : Forall (fun d => length (dp_leaves d) = 2 ^ dp_k d)%nat ds -> (c < length (ds_leaves ds))%nat ->
  exists d o, d ∈ ds /\ (o < 2 ^ dp_k d)%nat /\ find_leaf ds (Z.of_nat c) = Some (dp_id d, Z.of_nat o) /\ dp_leaves d !!! o = ds_leaves ds !!! c.
Proof.
  intros Hf. revert c. induction Hf as [|d ds Hd Hf IH]; intros c Hc; [cbn in Hc; lia|].
  change (ds_leaves (d :: ds)) with (dp_leaves d ++ ds_leaves ds) in *. rewrite length_app in Hc. cbn [find_leaf].
  replace (2 ^ Z.of_nat (dp_k d)) with (Z.of_nat (2 ^ dp_k d)) by (by rewrite Nat2Z.inj_pow).
  destruct (Z.of_nat c <? Z.of_nat (2 ^ dp_k d)) eqn:E; [apply Z.ltb_lt in E|apply Z.ltb_ge in E].
  - exists d, c. split; [left|]. split; [lia|]. split; [done|]. rewrite !list_lookup_total_alt, lookup_app_l by lia. done.
  - destruct (IH (c - 2 ^ dp_k d)%nat ltac:(lia)) as (d' & o & Hin & Ho & Hfi & Hl). exists d', o. split; [by right|]. split; [done|].
    split; [rewrite <- Hfi; f_equal; lia|]. rewrite Hl, !list_lookup_total_alt, (lookup_app_r (dp_leaves d)) by lia. by rewrite Hd.
Qed.

(** The index of a challenge is a leaf of the challenge range. *)
Lemma challenge_range (Keccak256 : bytes -> bytes) (seed : bytes) (dataSetID proofIndex count : Z) : 0 < count < 2 ^ 63 ->
  exists c : nat, generateChallengeIndex Keccak256 seed dataSetID proofIndex count = Some (Z.of_nat c) /\ Z.of_nat c < count.
Proof.
  intros Hc. unfold generateChallengeIndex. rewrite (proj2 (Z.eqb_neq _ _)) by lia. set (x := SetBytes _).
  pose proof (Z.mod_pos_bound x count ltac:(lia)) as Hb. exists (Z.to_nat (x mod count)). rewrite Z2Nat.id by lia. split; [|lia].
  f_equal. apply i64_small. unfold in_i64, min_i64, max_i64. lia.
Qed.

Section Prove.
Context (Sum256 : bytes -> bytes) (Sum256_length : forall x, length (Sum256 x) = 32%nat).
Context (Get : Z -> bytes) (Get_length : forall k, 0 <= k -> Z.of_nat (length (Get k)) = k).
Context (Pad : bytes -> bytes) (Pad_app : forall (q : nat) a b, length a = (127 * q)%nat -> Pad (a ++ b) = Pad a ++ Pad b).
Context (Pad_length : forall (q : nat) a, length a = (127 * q)%nat -> length (Pad a) = (128 * q)%nat).
Context (Unpadded Padded PaddedSize : Z -> Z).
Context (Unpadded_mul : forall q, 0 <= q -> Unpadded (128 * q) = 127 * q) (Padded_mul : forall q, 0 <= q -> Padded (127 * q) = 128 * q).
Context (PaddedSize_pow : forall k : nat, PaddedSize (127 * 2 ^ Z.of_nat k) = 127 * 2 ^ Z.of_nat k).
Context (PieceCidV1FromV2 : string -> option (string * Z)) (GetSharedPieceReader : string -> option (bytes * Z)).

(** The piece is stored: its identifier has the size of its data, its reader gives the
    data, and its leaves are those of the padded data. *)
Definition piece_stored (d : ds_piece) : Prop :=
  (2 <= dp_k d)%nat /\ (length (dp_data d) <= 127 * 2 ^ (dp_k d - 2))%nat /\ nodes_ok (dp_leaves d) /\ length (dp_leaves d) = (2 ^ dp_k d)%nat
  /\ concat (dp_leaves d) = Pad (dp_data d ++ replicate (127 * 2 ^ (dp_k d - 2) - length (dp_data d)) x00)
  /\ PaddedSize (Z.of_nat (length (dp_data d))) = Z.of_nat (127 * 2 ^ (dp_k d - 2))
  /\ (exists c1, PieceCidV1FromV2 (dp_cid d) = Some (c1, Z.of_nat (length (dp_data d))))
  /\ GetSharedPieceReader (dp_cid d) = Some (dp_data d, Z.of_nat (length (dp_data d))).

(** A layer of the tree of the piece is in the store. *)
Definition layer_cached (store : layer_store) (d : ds_piece) : Prop :=
  exists m n, dp_k d = (m + n)%nat /\ (2 <= m <= 25)%nat /\ (n <= 25)%nat /\ layer_saved (dp_cid d) (Z.of_nat m) (ref_nodes Sum256 (dp_leaves d) m 0 (2 ^ n)) store.

(** Pieces that need a cached layer have one. *)
Definition piece_ready (store : layer_store) (d : ds_piece) : Prop :=
  piece_stored d /\ (MinSizeForCache < Z.of_nat (32 * 2 ^ dp_k d) -> layer_cached store d).

Lemma stored_info (d : ds_piece) : piece_stored d ->
  GetPieceInfo Padded PaddedSize PieceCidV1FromV2 (dp_cid d) = Some (Z.of_nat (32 * 2 ^ dp_k d), Z.of_nat (length (dp_data d))).
Proof using Padded_mul.
  clear Sum256_length Get_length Pad_app Pad_length Unpadded_mul PaddedSize_pow.
  intros (Hk & Hd & Hok & Hl & Hc & Hps & [c1 Hcid] & Hr). unfold GetPieceInfo. rewrite Hcid, Hps. do 2 f_equal.
  rewrite (Nat2Z.inj_mul 127). change (Z.of_nat 127) with 127. rewrite Padded_mul by lia. pose proof (pow_quarter (dp_k d) Hk). lia.
Qed.

Lemma cached_branch (store : layer_store) (d : ds_piece) (o : nat) : piece_stored d -> layer_cached store d -> (o < 2 ^ dp_k d)%nat ->
  GenerateCachedProof Sum256 Get Pad Unpadded Padded PaddedSize (GetSharedPieceReader (dp_cid d)) (idxProofCache true (dp_cid d) store) (Z.of_nat o)
  = Ok (Some (ref_proof Sum256 (dp_leaves d) (dp_k d) o)).
Proof.
  intros (Hk & Hd & Hok & Hl & Hc & Hps & Hcid & Hr) (m & n & Hmn & Hm & Hn & Hs) Ho. rewrite Hr. rewrite Hmn in *.
  assert (o / 2 ^ m < 2 ^ n)%nat as Hj by (apply Nat.Div0.div_lt_upper_bound; by rewrite <- Nat.pow_add_r).
  apply (cached_proof_ref Sum256 Sum256_length Get Get_length Pad Pad_app Pad_length Unpadded Padded PaddedSize Unpadded_mul Padded_mul PaddedSize_pow m n); try done.
  - cbn [GetLayerIndex idxProofCache]. by rewrite (saved_index _ _ _ _ Hs).
  - cbn [GetNode idxProofCache]. rewrite (saved_node _ _ _ _ _ Hs). unfold ref_nodes. rewrite list_lookup_fmap, lookup_seq_lt by lia. done.
  - cbn [GetLayer idxProofCache]. by rewrite (saved_layer _ _ _ _ Hs).
Qed.

Lemma small_k (k : nat) : ~ (MinSizeForCache < Z.of_nat (32 * 2 ^ k)) -> (k <= 25)%nat.
Proof using.
  clear. intros H. destruct (decide (k <= 25)%nat) as [|Hk]; [done|]. exfalso. apply H. rewrite Nat2Z.inj_mul, Nat2Z.inj_pow.
  assert (2 ^ 26 <= Z.of_nat 2 ^ Z.of_nat k) by (apply Z.pow_le_mono_r; lia). unfold MinSizeForCache. lia.
Qed.

(** [proveRoot] gives the proof of the tree of the piece, for every leaf of it. *)
Lemma proveRoot_spec (store : layer_store) (d : ds_piece) (o : nat) : piece_ready store d -> (o < 2 ^ dp_k d)%nat -> Z.of_nat o < 2 ^ 63 ->
  proveRoot Sum256 Get Pad Unpadded Padded PaddedSize PieceCidV1FromV2 GetSharedPieceReader true store (Some (dp_cid d)) (Z.of_nat o)
  = Ok (dp_leaves d !!! o, ref_path Sum256 (dp_leaves d) (dp_k d) o).
Proof.
  intros [Hst Hca] Ho Hb. unfold proveRoot. rewrite (stored_info d Hst). rewrite Z.gtb_ltb. destruct (_ <? _) eqn:E.
  - apply Z.ltb_lt in E. rewrite cached_branch by auto. rewrite u64_nat by done. by rewrite (ref_proof_verifies Sum256).
  - apply Z.ltb_ge in E. destruct Hst as (Hk & Hd & Hok & Hl & Hc & Hps & Hcid & Hr). rewrite Hr, Z.eqb_refl, Hps. cbn [negb].
    pose proof (pow_quarter (dp_k d) Hk) as Hq. assert (dp_k d <= 25)%nat as H25 by (apply small_k; lia).
    replace (Padded (Z.of_nat (127 * 2 ^ (dp_k d - 2)))) with (Z.of_nat (32 * 2 ^ dp_k d)) by (rewrite (Nat2Z.inj_mul 127); change (Z.of_nat 127) with 127; rewrite Padded_mul; lia).
    rewrite Z.eqb_refl. cbn [negb].
    replace (Unpadded (Z.of_nat (32 * 2 ^ dp_k d))) with (Z.of_nat (127 * 2 ^ (dp_k d - 2))).
    2:{ replace (Z.of_nat (32 * 2 ^ dp_k d)) with (128 * Z.of_nat (2 ^ (dp_k d - 2))) by lia. rewrite Unpadded_mul; lia. }
    set (full := dp_data d ++ replicate (127 * 2 ^ (dp_k d - 2) - length (dp_data d)) x00) in *.
    replace (if _ <? _ then _ else _) with (full ++ []).
    2:{ rewrite app_nil_r. unfold full. destruct (_ <? _) eqn:E'; [apply Z.ltb_lt in E'|apply Z.ltb_ge in E']; [do 2 f_equal; lia|].
        replace (_ - _)%nat with 0%nat by lia. cbn [replicate]. apply app_nil_r. }
    destruct (raw_tree_proof Sum256 Sum256_length Get Get_length Pad Padded Padded_mul (dp_k d) full [] (dp_leaves d)) as (buf & -> & Hbuf);
      [lia|unfold full; rewrite length_app, length_replicate; lia|done|done|done|].
    rewrite Hbuf by done. rewrite u64_nat by done. by rewrite (ref_proof_verifies Sum256).
Qed.

Lemma prove_all_spec (prove : Z -> Z -> result (bytes * list bytes) prove_error) (n : nat) (pieces : list (Z * Z)) (proofs : list (bytes * list bytes)) :
  length pieces = n -> Forall2 (fun p r => prove p.1 p.2 = Ok r) pieces proofs -> prove_all prove n pieces = Ok proofs.
Proof using.
  clear. intros Hn Hf. revert n Hn. induction Hf as [|[p o] r pieces proofs Hp Hf IH]; intros n Hn; [by subst n|]. cbn [length] in Hn. subst n. cbn [prove_all].
  cbn [fst snd] in Hp. rewrite Hp. by rewrite IH.
Qed.

(** What a proof of challenge [i] has to show: it is the inclusion proof, in the tree of a piece of
    the data set, of the leaf of the data set the challenge asks for. *)
Definition proves_challenge (Keccak256 : bytes -> bytes) (seed : bytes) (dataSetID count : Z) (ds : list ds_piece) (i : nat) (proof : bytes * list bytes) : Prop :=
  exists (c o : nat) (d : ds_piece), generateChallengeIndex Keccak256 seed dataSetID (Z.of_nat i) count = Some (Z.of_nat c) /\ Z.of_nat c < count
    /\ d ∈ ds /\ (o < 2 ^ dp_k d)%nat /\ find_leaf ds (Z.of_nat c) = Some (dp_id d, Z.of_nat o)
    /\ proof = (ds_leaves ds !!! c, ref_path Sum256 (dp_leaves d) (dp_k d) o)
    /\ VerifyProof Sum256 proof.1 proof.2 (ref Sum256 (dp_leaves d) (dp_k d) 0) (Z.of_nat o) = true.

Lemma challenge_proof (Keccak256 : bytes -> bytes) (store : layer_store) (piece_of : Z -> option string) (ds : list ds_piece) (seed : bytes) (dataSetID count : Z) (i : nat) :
  Forall (piece_ready store) ds -> (forall d, d ∈ ds -> piece_of (dp_id d) = Some (dp_cid d)) -> 0 < count <= Z.of_nat (length (ds_leaves ds)) -> count < 2 ^ 63 ->
  exists (c : nat) p proof, generateChallengeIndex Keccak256 seed dataSetID (Z.of_nat i) count = Some (Z.of_nat c) /\ find_leaf ds (Z.of_nat c) = Some p
    /\ proveRoot Sum256 Get Pad Unpadded Padded PaddedSize PieceCidV1FromV2 GetSharedPieceReader true store (piece_of p.1) p.2 = Ok proof
    /\ proves_challenge Keccak256 seed dataSetID count ds i proof.
Proof.
  intros Hr Hpo Hc Hc63. destruct (challenge_range Keccak256 seed dataSetID (Z.of_nat i) count ltac:(lia)) as (c & Hgc & Hlt).
  destruct (find_leaf_spec ds c) as (d & o & Hin & Ho & Hfi & Hlf); [eapply Forall_impl; [exact Hr|]; intros d [Hst _]; apply Hst|lia|].
  exists c, (dp_id d, Z.of_nat o), (dp_leaves d !!! o, ref_path Sum256 (dp_leaves d) (dp_k d) o). split; [done|]. split; [done|].
  assert (Z.of_nat o < 2 ^ 63) as Hob.
  { enough (Z.of_nat o <= Z.of_nat c) by lia. clear -Hfi. revert Hfi. generalize (Z.of_nat o). assert (0 <= Z.of_nat c) as H by lia. revert H. generalize (Z.of_nat c).
    generalize (dp_id d). clear. induction ds as [|e ds IH]; intros j x Hx y; cbn [find_leaf]; [done|]. destruct (_ <? _) eqn:E; [intros [= ? ?]; lia|].
    apply Z.ltb_ge in E. intros H. pose proof (Z.pow_pos_nonneg 2 (Z.of_nat (dp_k e)) ltac:(lia) ltac:(lia)). apply IH in H; lia. }
  split.
  - cbn [fst snd]. rewrite (Hpo d Hin). apply proveRoot_spec; [|done|done]. rewrite Forall_forall in Hr. by apply Hr.
  - exists c, o, d. rewrite <- Hlf. do 6 (split; [done|]). apply (ref_proof_verifies Sum256 (dp_leaves d) (dp_k d) o Ho).
Qed.

(** A result for every number below a bound. *)
Lemma collect {B} (P : nat -> B -> Prop) (n : nat) : (forall i, exists y, P i y) -> exists ys, length ys = n /\ forall i y, ys !! i = Some y -> P i y.
Proof using.
  clear. revert P. induction n as [|n IH]; intros P H; [by exists []|]. destruct (H 0%nat) as [y Hy].
  destruct (IH (fun i => P (S i)) (fun i => H (S i))) as (ys & Hl & Hys). exists (y :: ys). split; [cbn [length]; lia|].
  intros [|i] y'; [|apply Hys]. by intros [= <-].
Qed.

(** C11: proofs of possession are complete and right.  Take a data set whose pieces are all stored
    (small pieces are proved from their data, larger than 32 MiB from a layer of their tree that
    is in the layer store), a challenge range of at most its leaves, and the contract's way to
    find leaves.  Then [GenerateProofs] succeeds with one proof per challenge, and proof [i] is
    the inclusion proof of exactly the leaf of the data set which challenge [i] draws from the
    seed, in the tree of the piece that holds it; it verifies against the root of that tree. *)
Theorem possession_proved (Keccak256 : bytes -> bytes) (store : layer_store) (piece_of : Z -> option string) (ds : list ds_piece) (seed : bytes) (dataSetID count : Z) (n : nat) :
  Forall (piece_ready store) ds -> (forall d, d ∈ ds -> piece_of (dp_id d) = Some (dp_cid d)) -> 0 < count <= Z.of_nat (length (ds_leaves ds)) -> count < 2 ^ 63 ->
  exists proofs, GenerateProofs Sum256 Get Pad Unpadded Padded PaddedSize PieceCidV1FromV2 Keccak256 GetSharedPieceReader true store (Some count) (mapM (find_leaf ds)) piece_of dataSetID seed n = Ok proofs
    /\ length proofs = n /\ forall i proof, proofs !! i = Some proof -> proves_challenge Keccak256 seed dataSetID count ds i proof.
Proof.
  intros Hr Hpo Hc Hc63.
  destruct (collect (fun i (y : nat * (Z * Z) * (bytes * list bytes)) => generateChallengeIndex Keccak256 seed dataSetID (Z.of_nat i) count = Some (Z.of_nat y.1.1)
    /\ find_leaf ds (Z.of_nat y.1.1) = Some y.1.2
    /\ proveRoot Sum256 Get Pad Unpadded Padded PaddedSize PieceCidV1FromV2 GetSharedPieceReader true store (piece_of y.1.2.1) y.1.2.2 = Ok y.2
    /\ proves_challenge Keccak256 seed dataSetID count ds i y.2) n) as (ys & Hl & Hys).
  { intros i. destruct (challenge_proof Keccak256 store piece_of ds seed dataSetID count i Hr Hpo Hc Hc63) as (c & p & proof & H). by exists (c, p, proof). }
  exists ys.*2. unfold GenerateProofs. rewrite (u64_small count) by (unfold in_u64; lia).
  rewrite (proj2 (mapM_Some _ (seq 0 n) ((fun y => Z.of_nat y.1.1) <$> ys))).
  2:{ apply Forall2_fmap_r, Forall2_same_length_lookup_2; [rewrite length_seq; lia|]. intros i x y Hx Hy. apply lookup_seq in Hx as [-> _]. by destruct (Hys i y Hy). }
  rewrite (proj2 (mapM_Some _ ((fun y => Z.of_nat y.1.1) <$> ys) ((fun y => y.1.2) <$> ys))).
  2:{ apply Forall2_fmap, Forall_Forall2_diag, Forall_lookup. intros i y Hy. by destruct (Hys i y Hy) as (_ & ? & _). }
  split; [|split].
  - apply prove_all_spec; [by rewrite length_fmap|]. apply Forall2_fmap, Forall_Forall2_diag, Forall_lookup. intros i y Hy. by destruct (Hys i y Hy) as (_ & _ & ? & _).
  - by rewrite length_fmap.
  - intros i proof Hi. apply list_lookup_fmap_Some in Hi as (y & -> & Hy). by destruct (Hys i y Hy) as (_ & _ & _ & ?).
Qed.

(** ** Saving the layer makes a piece ready *)

Lemma no_layer_index (cid : string) (store : layer_store) : (forall l, store !! (cid, l) = None) -> GetPDPLayerIndex cid store = None.
Proof using.
  clear. intros Hn. unfold GetPDPLayerIndex. destruct (omap _ _) as [|x xs] eqn:E; [done|].
  assert (x ∈ x :: xs) as Hx by left. rewrite <- E in Hx. apply list_elem_of_omap in Hx as ([[c l] rows] & Hin & Hx). cbn in Hx.
  case_bool_decide; [|done]. subst c. apply elem_of_map_to_list in Hin. by rewrite Hn in Hin.
Qed.

(** The commitment library gives the commitment of the data, and with it layer [m] of the tree. *)
Definition snapshot_of (DataCommitmentToPieceCidv2 : bytes -> Z -> option string) (DigestWithSnapshot : bytes -> option (bytes * option (Z * list bytes)))
    (d : ds_piece) (m n : nat) : Prop :=
  dp_k d = (m + n)%nat /\ (2 <= m <= 25)%nat /\ (n <= 25)%nat /\ exists digest,
    DigestWithSnapshot (dp_data d) = Some (digest, Some (Z.of_nat m, ref_nodes Sum256 (dp_leaves d) m 0 (2 ^ n)))
    /\ DataCommitmentToPieceCidv2 digest (u64 (Z.of_nat (length (dp_data d)))) = Some (dp_cid d).

Lemma save_layer_ready (DataCommitmentToPieceCidv2 : bytes -> Z -> option string) (DigestWithSnapshot : bytes -> option (bytes * option (Z * list bytes)))
    (batchSize : Z) (results : list batch_result) (store : layer_store) (d : ds_piece) (m n : nat) :
  piece_stored d -> MinSizeForCache < Z.of_nat (32 * 2 ^ dp_k d) -> (forall l, store !! (dp_cid d, l) = None) ->
  snapshot_of DataCommitmentToPieceCidv2 DigestWithSnapshot d m n -> Forall (fun r => r = BatchOk) results ->
  exists store', save_layer Padded PaddedSize PieceCidV1FromV2 DataCommitmentToPieceCidv2 DigestWithSnapshot GetSharedPieceReader batchSize true results (dp_cid d) store = (store', Ok ())
    /\ piece_ready store' d /\ forall d', dp_cid d' <> dp_cid d -> piece_ready store d' -> piece_ready store' d'.
Proof using Padded_mul.
  clear Sum256_length Get_length Pad_app Pad_length Unpadded_mul PaddedSize_pow.
  intros Hst Hbig Hnone (Hk & Hm & Hn & digest & Hdig & Hcom) Hres. pose proof Hst as (_ & _ & _ & _ & _ & _ & _ & Hrd).
  unfold save_layer. rewrite (stored_info d Hst), Z.gtb_ltb, (proj2 (Z.ltb_lt _ _)) by done. cbn [negb]. rewrite no_layer_index by done.
  rewrite Hrd, Z.eqb_refl. cbn [negb]. rewrite Hdig, Hcom, bool_decide_eq_true_2 by done. cbn [negb].
  set (nodes := ref_nodes Sum256 (dp_leaves d) m 0 (2 ^ n)).
  assert (nodes <> []) as Hne by (intros E; apply (f_equal length) in E; unfold nodes in E; rewrite ref_nodes_length in E; cbn in E; pose proof (Nat.pow_nonzero 2 n); lia).
  destruct (AddPDPLayer_saved batchSize (dp_cid d) (Z.of_nat m) nodes results store Hne Hnone Hres) as (store' & E & Hsaved & Hother).
  exists store'. rewrite E. split; [done|]. split; [split; [done|]; intros _; by exists m, n|].
  intros d' Hcid [Hst' Hca]. split; [done|]. intros Hb. destruct (Hca Hb) as (m' & n' & Hk' & Hm' & Hn' & Hs & Hu). exists m', n'. do 3 (split; [done|]).
  split; [by rewrite Hother|]. intros l rows. rewrite Hother by done. apply Hu.
Qed.
End Prove.

Lemma node_batches_prefix (batchSize : Z) (b layer : list NodeDigest) : b <> [] -> exists b' bs, node_batches batchSize b layer = (b ++ b') :: bs.
Proof.
  revert b. induction layer as [|r rest IH]; intros b Hb; cbn [node_batches]; [destruct b; [done|]; exists [], []; by rewrite app_nil_r|].
  destruct (_ >=? _); [by eexists [r], _|]. destruct (IH (b ++ [r])) as (b' & bs & ->); [by destruct b|]. exists (r :: b'), bs. by rewrite <- app_assoc.
Qed.

Lemma AddPDPLayer_partial (batchSize : Z) (cid : string) (n : NodeDigest) (ns : list NodeDigest) (store : layer_store) :
  AddPDPLayer batchSize cid (n :: ns) [BatchErr [true]] store = (insert_node cid store n, false).
Proof.
  cbn [AddPDPLayer node_batches app]. destruct (_ >=? _); [done|]. by destruct (node_batches_prefix batchSize [n] ns) as (b & bs & ->).
Qed.

(** A run that fails in the middle of a layer leaves rows behind, and the next run takes
    them for the layer: the task ends with the layer incomplete. *)
Lemma partial_layer_kept (Padded PaddedSize : Z -> Z) (v1 : string -> option (string * Z)) (commit : bytes -> Z -> option string)
    (digest : bytes -> option (bytes * option (Z * list bytes))) (reader : string -> option (bytes * Z)) (batchSize size l : Z) (cid c1 : string) (data dg h0 h1 : bytes) (rest : list bytes) :
  v1 cid = Some (c1, Z.of_nat (length data)) -> MinSizeForCache < Padded (PaddedSize (Z.of_nat (length data))) -> reader cid = Some (data, size) ->
  digest data = Some (dg, Some (l, h0 :: h1 :: rest)) -> commit dg (u64 (Z.of_nat (length data))) = Some cid ->
  let run results := save_layer Padded PaddedSize v1 commit digest reader batchSize true results cid in
  exists store, run [BatchErr [true]] ∅ = (store, Err AddFailed) /\ run [] store = (store, Ok ())
    /\ GetPDPLayerIndex cid store = Some l /\ GetPDPNode cid l 1 store = None.
Proof.
  intros Hv Hbig Hr Hd Hc run. set (store := {[(cid, l) := {[0 := h0]}]} : layer_store). exists store.
  assert (GetPDPLayerIndex cid store = Some l) as Hi by (unfold GetPDPLayerIndex, store; rewrite map_to_list_singleton; cbn; by rewrite bool_decide_eq_true_2).
  assert (forall results st, run results st = save_layer Padded PaddedSize v1 commit digest reader batchSize true results cid st) as Hrun by done.
  split; [|split; [|split; [done|]]].
  - rewrite Hrun. unfold save_layer, GetPieceInfo. rewrite Hv, Z.gtb_ltb, (proj2 (Z.ltb_lt _ _)) by done. cbn [negb]. rewrite no_layer_index by (intros; apply lookup_empty).
    rewrite Hr, Z.eqb_refl. cbn [negb]. rewrite Hd, Hc, bool_decide_eq_true_2 by done. cbn [negb imap].
    rewrite AddPDPLayer_partial. unfold insert_node, store. cbn [nd_Layer nd_Index nd_Hash Z.of_nat]. by rewrite lookup_empty.
  - rewrite Hrun. unfold save_layer, GetPieceInfo. rewrite Hv, Z.gtb_ltb, (proj2 (Z.ltb_lt _ _)) by done. cbn [negb]. by rewrite Hi.
  - unfold GetPDPNode, store. rewrite lookup_singleton_eq. cbn. by rewrite lookup_singleton_ne.
Qed.

Lemma layer_index_some (cid : string) (l : Z) (store : layer_store) : GetPDPLayerIndex cid store = Some l -> is_Some (store !! (cid, l)).
Proof.
  unfold GetPDPLayerIndex. intros H%head_Some_elem_of. apply list_elem_of_omap in H as ([[c l'] rows] & Hin & Hx). cbn in Hx.
  case_bool_decide; [|done]. injection Hx as ->. subst c. apply elem_of_map_to_list in Hin. by exists rows.
Qed.

Lemma layer_index_none (cid : string) (l : Z) (store : layer_store) : GetPDPLayerIndex cid store = None -> store !! (cid, l) = None.
Proof.
  unfold GetPDPLayerIndex. intros H%head_None. destruct (store !! (cid, l)) as [rows|] eqn:E; [|done]. exfalso.
  apply (not_elem_of_nil l). rewrite <- H. apply list_elem_of_omap. exists ((cid, l), rows). split; [by apply elem_of_map_to_list|]. cbn. by rewrite bool_decide_eq_true_2.
Qed.

(** Deleting ends, with no layer of the piece and every other piece as before. *)
Theorem DeletePDPLayer_done (fuel : nat) (cid : string) (store : layer_store) : (size store < fuel)%nat ->
  exists store', DeletePDPLayer fuel cid store = Some store' /\ (forall l, store' !! (cid, l) = None) /\ forall c l, c <> cid -> store' !! (c, l) = store !! (c, l).
Proof.
  revert store. induction fuel as [|fuel IH]; intros store Hs; [lia|]. cbn [DeletePDPLayer]. destruct (GetPDPLayerIndex cid store) as [l|] eqn:E.
  - apply layer_index_some in E. destruct (IH (delete (cid, l) store)) as (store' & Hd & Hn & Ho).
    { rewrite map_size_delete. destruct E as [x Hx]. rewrite Hx. pose proof (map_size_ne_0_lookup_2 store (cid, l) ltac:(by eexists)). lia. }
    exists store'. split; [done|]. split; [done|]. intros c l' Hc. rewrite Ho by done. apply lookup_delete_ne. congruence.
  - exists store. split; [done|]. split; [|done]. intros l. by apply layer_index_none.
Qed.

(** ** A data set with a small and a large piece *)

Definition zero_data (k : nat) : bytes := replicate (127 * 2 ^ (k - 2)) x00.
Definition zero_leaves (k : nat) : list bytes := replicate (2 ^ k) (replicate 32 x00).
Definition ex_small : ds_piece := mkDsPiece 7 "small" 3 cp_data cp_leaves.
Definition ex_large (k : nat) : ds_piece := mkDsPiece 9 "large" k (zero_data k) (zero_leaves k).
Definition ex_v1 (k : nat) (cid : string) : option (string * Z) :=
  if String.eqb cid "small" then Some ("s"%string, 200) else if String.eqb cid "large" then Some ("l"%string, Z.of_nat (length (zero_data k))) else None.
Definition ex_reader (k : nat) (cid : string) : option (bytes * Z) :=
  if String.eqb cid "small" then Some (cp_data, 200) else if String.eqb cid "large" then Some (zero_data k, Z.of_nat (length (zero_data k))) else None.
Definition ex_size (x : Z) : Z := if x =? 200 then 254 else x.
Definition ex_store (k m : nat) : layer_store := {[("large"%string, Z.of_nat m) := layer_rows (ref_nodes ex_sum (zero_leaves k) m 0 (2 ^ (k - m)))]}.
Definition ex_piece_of (id : Z) : option string := if id =? 7 then Some "small"%string else if id =? 9 then Some "large"%string else None.

Lemma zero_pad (q : nat) : cp_pad (replicate (127 * q) x00) = replicate (128 * q) x00.
Proof.
  induction q as [|q IH]; [reflexivity|]. replace (127 * S q)%nat with (127 * 1 + 127 * q)%nat by lia. replace (128 * S q)%nat with (128 + 128 * q)%nat by lia.
  rewrite !replicate_add. rewrite (cp_pad_app 1) by (by rewrite length_replicate). rewrite IH. f_equal.
Qed.

Lemma zero_concat (q : nat) : concat (replicate q (replicate 32 x00)) = replicate (32 * q) x00.
Proof. induction q as [|q IH]; [reflexivity|]. rewrite replicate_S, concat_cons, IH, <- replicate_add. f_equal. lia. Qed.

Lemma ex_size_pow (k : nat) : ex_size (127 * 2 ^ Z.of_nat k) = 127 * 2 ^ Z.of_nat k.
Proof. unfold ex_size. by rewrite (proj2 (Z.eqb_neq _ _)) by lia. Qed.

Lemma ex_small_stored (k : nat) : piece_stored cp_pad ex_size (ex_v1 k) (ex_reader k) ex_small.
Proof. split; [cbn; lia|]. split; [vm_compute; lia|]. split; [unfold nodes_ok; vm_compute; repeat constructor|]. do 3 (split; [vm_compute; reflexivity|]). split; [by exists "s"%string|done]. Qed.

Lemma ex_large_stored (k : nat) : (2 <= k)%nat -> piece_stored cp_pad ex_size (ex_v1 k) (ex_reader k) (ex_large k).
Proof.
  intros Hk. assert (length (zero_data k) = 127 * 2 ^ (k - 2))%nat as Hl by apply length_replicate. unfold piece_stored. cbn [ex_large dp_k dp_data dp_leaves dp_cid].
  split; [done|]. split; [lia|]. split; [apply Forall_replicate, length_replicate|]. split; [apply length_replicate|]. split; [|split; [|split; [by eexists|done]]].
  - rewrite Hl, Nat.sub_diag. cbn [replicate]. rewrite app_nil_r. unfold zero_leaves, zero_data. rewrite zero_concat, zero_pad. f_equal. rewrite (pow_quarter k Hk) at 1. lia.
  - rewrite Hl, Nat2Z.inj_mul, Nat2Z.inj_pow. apply ex_size_pow.
Qed.

Lemma ex_ready (k m : nat) : (2 <= m <= 25)%nat -> (m <= k <= m + 25)%nat ->
  Forall (piece_ready ex_sum cp_pad ex_size (ex_v1 k) (ex_reader k) (ex_store k m)) [ex_small; ex_large k].
Proof.
  intros Hm Hk. repeat constructor; try (by apply ex_small_stored || (apply ex_large_stored; lia)).
  - intros H. exfalso. revert H. vm_compute. discriminate.
  - intros _. exists m, (k - m)%nat. split; [cbn [ex_large dp_k]; lia|]. split; [done|]. split; [lia|]. split.
    + unfold ex_store. apply lookup_singleton_eq.
    + unfold ex_store. intros l' rows Hl. apply lookup_singleton_Some in Hl as [Hl _]. by injection Hl as <-.
Qed.

Lemma possession_proved_witness :
  let ds := [ex_small; ex_large 21] in let keccak := fun x => x in
  exists proofs, GenerateProofs ex_sum ex_get cp_pad cp_unpadded cp_padded ex_size (ex_v1 21) keccak (ex_reader 21) true (ex_store 21 16) (Some 2000) (mapM (find_leaf ds)) ex_piece_of 3 [x01; x02] 5 = Ok proofs
    /\ length proofs = 5%nat /\ forall i proof, proofs !! i = Some proof -> proves_challenge ex_sum keccak [x01; x02] 3 2000 ds i proof.
Proof.
  apply (possession_proved ex_sum ex_sum_length ex_get ex_get_length cp_pad cp_pad_app cp_pad_length cp_unpadded cp_padded ex_size).
  - intros q Hq. unfold cp_unpadded. rewrite Z.mul_comm, Z.div_mul by lia. lia.
  - intros q Hq. unfold cp_padded. rewrite Z.mul_comm, Z.div_mul by lia. lia.
  - apply ex_size_pow.
  - apply ex_ready; lia.
  - intros d Hd. apply elem_of_cons in Hd as [->|Hd]; [reflexivity|]. apply list_elem_of_singleton in Hd as ->. reflexivity.
  - split; [lia|]. unfold ds_leaves. cbn [fmap list_fmap concat ex_small ex_large dp_leaves]. rewrite !length_app. unfold zero_leaves. rewrite length_replicate.
    rewrite !Nat2Z.inj_add, Nat2Z.inj_pow. change (Z.of_nat 2 ^ Z.of_nat 21) with 2097152. lia.
  - lia.
Defined.
