(* ===== verification/EthSender.v ===== *)
(** * Ethereum transactions ([tasks/message/sender_eth.go])

    [SenderETH.send] stores an unsigned transaction in [message_sends_eth] together
    with its task; [SendTaskETH.Do] takes the lock of the sending address, builds the
    transaction again with the next nonce, signs and stores it, sends it and records
    the result.  The protocol is that of [Sender.v], whose transactions are only their
    nonces; here the rows hold the transactions themselves.  [abs] forgets their
    content: every step of this file is a step of [Sender.v], or none.

    Transactions, their binary form and signatures are those of go-ethereum: a
    structure [EthTx] with the laws [EthTxSpec]. *)

From stdpp Require Import base gmap sets list strings.
From Stdlib Require Import ZArith Lia Strings.Byte.
From S2P Require Import Prelude HarmonyDB Codec Float64 Sender.

(** ** Transactions *)

(** [types.Transaction]: its accessors, [types.NewTransaction],
    [types.NewTx(&types.DynamicFeeTx{...})], the binary form, the hash and
    [types.SignTx] with [types.LatestSignerForChainID] and [crypto.ToECDSA]. *)
Class EthTx (Tx : Type) := {
  Nonce : Tx -> Z;
  To : Tx -> option string;
  Value : Tx -> Z;
  Gas : Tx -> Z;
  GasPrice : Tx -> Z;                        (* of a dynamic fee transaction, its fee cap *)
  GasTipCap : Tx -> Z;
  TxType : Tx -> Z;
  Data : Tx -> bytes;
  NewTransaction : Z -> string -> Z -> Z -> Z -> bytes -> Tx;
  DynamicFeeTx : forall (chainID nonce gasTipCap gasFeeCap gas : Z) (to : option string) (value : Z) (data : bytes), Tx;
  MarshalBinary : Tx -> option bytes;
  UnmarshalBinary : bytes -> option Tx;
  TxHash : Tx -> string;
  SignTx : Z -> bytes -> Tx -> option Tx
}.

Definition LegacyTxType : Z := 0.
Definition DynamicFeeTxType : Z := 2.

(** What a transaction asks for, and how it pays: its type and its tip. *)
Definition content {Tx} `{EthTx Tx} (tx : Tx) : option string * Z * Z * Z * bytes := (To tx, Value tx, Gas tx, GasPrice tx, Data tx).
Definition fees {Tx} `{EthTx Tx} (tx : Tx) : Z * Z := (TxType tx, GasTipCap tx).

(** What [Do] signs for a queued transaction. *)
Definition resigned {Tx} `{EthTx Tx} (n : Z) (utx tx : Tx) : Prop :=
  exists to key chainID, To utx = Some to /\
    SignTx chainID key (NewTransaction n to (Value utx) (Gas utx) (GasPrice utx) (Data utx)) = Some tx.

Class EthTxSpec (Tx : Type) `{EthTx Tx} := {
  NewTransaction_nonce : forall n to v g p d, Nonce (NewTransaction n to v g p d) = n;
  NewTransaction_content : forall n to v g p d, content (NewTransaction n to v g p d) = (Some to, v, g, p, d);
  NewTransaction_fees : forall n to v g p d, fees (NewTransaction n to v g p d) = (LegacyTxType, p);
  DynamicFeeTx_fees : forall c n tip cap g to v d, fees (DynamicFeeTx c n tip cap g to v d) = (DynamicFeeTxType, tip);
  DynamicFeeTx_content : forall c n tip cap g to v d, content (DynamicFeeTx c n tip cap g to v d) = (to, v, g, cap, d);
  SignTx_nonce : forall c k tx stx, SignTx c k tx = Some stx -> Nonce stx = Nonce tx;
  SignTx_content : forall c k tx stx, SignTx c k tx = Some stx -> content stx = content tx;
  SignTx_fees : forall c k tx stx, SignTx c k tx = Some stx -> fees stx = fees tx;
  Unmarshal_Marshal : forall tx b, MarshalBinary tx = Some b -> UnmarshalBinary b = Some tx
}.

Section Eth.
Context {Tx : Type} `{EthTx Tx}.

(** ** The tables *)

Record eth_row := mkEthRow {
  from_address : string; to_address : string; send_reason : string;
  unsigned_tx : bytes; unsigned_hash : string;
  nonce : option Z; signed_tx : option bytes; signed_hash : option string;
  send_success : option bool; send_error : option string
}.

(** What the columns say for the protocol: the signed transaction is its nonce. *)
Definition abs_row (r : eth_row) : send_row :=
  mkSend (from_address r) (nonce r) (Nonce <$> (signed_tx r ≫= UnmarshalBinary)) (send_success r).

(** [UPDATE message_sends_eth ... WHERE send_task_id = $t], refused by
    [message_sends_eth_success_index], which is the index of [message_sends] over the
    same columns. *)
Definition update_eth (t : TaskID) (r' : eth_row) (rows : gmap Z eth_row) : option (gmap Z eth_row) :=
  match update_send t (abs_row r') (abs_row <$> rows) with
  | None => None
  | Some _ => Some (<[t := r']> rows)
  end.

(** ** [SendTaskETH.Do] *)

(** Where a run is: the row as it was read, and the local variables. *)
Inductive eth_pc :=
| EAcquireLock (dbTx : eth_row) (tx : Tx)
| EPendingNonce (dbTx : eth_row) (tx : Tx)
| EDbNonce (dbTx : eth_row) (tx : Tx) (pendingNonce : Z)
| ESign (dbTx : eth_row) (tx : Tx) (assignedNonce : Z)
| ESend (dbTx : eth_row) (signedTx : Tx)
| EPersist (dbTx : eth_row) (signedTx : Tx) (sendError : option string)
| ERelease (dbTx : eth_row) (done_ err : bool).

Definition pc_row (p : eth_pc) : eth_row :=
  match p with
  | EAcquireLock r _ | EPendingNonce r _ | EDbNonce r _ _ | ESign r _ _ | ESend r _ | EPersist r _ _ | ERelease r _ _ => r
  end.

(** What the environment answers. *)
Inductive eth_answer :=
| EWorks
| EFails (applied : bool)
| ENotOwned
| PendingNonceAt (n : Z)
| Signing (key : option bytes) (chainID : option Z) (update : answer)
| SendTransaction (accepted : bool) (err : option string).

Record eth_sender := mkEthSender {
  e_rows : gmap Z eth_row;                (* message_sends_eth *)
  e_locks : gmap string Z;                (* message_send_eth_locks *)
  e_running : gmap Z eth_pc;
  e_pool : list (string * Tx * Z)         (* transactions the node accepted: address, transaction, task *)
}.

Definition e_at (t : TaskID) (p : eth_pc) (s : eth_sender) : eth_sender :=
  mkEthSender (e_rows s) (e_locks s) (<[t := p]> (e_running s)) (e_pool s).

Definition e_returns (t : TaskID) (s : eth_sender) : eth_sender :=
  mkEthSender (e_rows s) (e_locks s) (delete t (e_running s)) (e_pool s).

Definition with_rows (rs : gmap Z eth_row) (s : eth_sender) : eth_sender := mkEthSender rs (e_locks s) (e_running s) (e_pool s).
Definition with_locks (l : gmap string Z) (s : eth_sender) : eth_sender := mkEthSender (e_rows s) l (e_running s) (e_pool s).

(** The row is read and its transaction decoded; an error ends the run. *)
Definition eth_read (t : TaskID) (a : eth_answer) (s : eth_sender) : eth_sender :=
  match a, e_rows s !! t with
  | EWorks, Some r => match UnmarshalBinary (unsigned_tx r) with Some tx => e_at t (EAcquireLock r tx) s | None => s end
  | _, _ => s
  end.

(** One iteration of the loop for the lock, and the choice that follows it. *)
Definition eth_lock (t : TaskID) (r : eth_row) (tx : Tx) (a : eth_answer) (s : eth_sender) : eth_sender * option eth_pc :=
  match a with
  | ENotOwned => (s, None)
  | EFails applied => (if applied then with_locks (take_lock (from_address r) t (e_locks s)).1 s else s, None)
  | _ =>
      let '(l, cn) := take_lock (from_address r) t (e_locks s) in
      let s := with_locks l s in
      if cn =? 1 then
        match nonce r with
        | None => (s, Some (EPendingNonce r tx))
        | Some _ =>
            match signed_tx r ≫= UnmarshalBinary with
            | Some signedTx => (s, Some (ESend r signedTx))
            | None => (s, Some (ERelease r false true))
            end
        end
      else (s, Some (EAcquireLock r tx))
  end.

(** [signTransaction], with the answers of the query for the key and of the node. *)
Definition signTransaction (key : option bytes) (chainID : option Z) (tx : Tx) : option Tx :=
  match key, chainID with Some k, Some c => SignTx c k tx | _, _ => None end.

(** Signs and stores the transaction. *)
Definition eth_sign (t : TaskID) (r : eth_row) (tx : Tx) (assignedNonce : Z) (a : eth_answer) (s : eth_sender) : eth_sender * eth_pc :=
  let failed := ERelease r false true in
  match a, To tx with
  | Signing key chainID upd, Some to =>
      let tx := NewTransaction assignedNonce to (Value tx) (Gas tx) (GasPrice tx) (Data tx) in
      match signTransaction key chainID tx with
      | None => (s, failed)
      | Some signedTx =>
          match MarshalBinary signedTx with
          | None => (s, failed)
          | Some data =>
              match e_rows s !! t with
              | None => (s, failed)                       (* no row was updated *)
              | Some cur =>
                  let r' := mkEthRow (from_address cur) (to_address cur) (send_reason cur) (unsigned_tx cur) (unsigned_hash cur)
                              (Some assignedNonce) (Some data) (Some (TxHash signedTx)) (send_success cur) (send_error cur) in
                  match update_eth t r' (e_rows s), upd with
                  | Some rs, Works => (with_rows rs s, ESend r signedTx)
                  | Some rs, Fails true => (with_rows rs s, failed)
                  | _, _ => (s, failed)
                  end
              end
          end
      end
  | _, _ => (s, failed)
  end.

(** Stores the result; [send_error] is empty after a success. *)
Definition eth_persist (t : TaskID) (r : eth_row) (err : option string) (a : eth_answer) (s : eth_sender) : eth_sender * eth_pc :=
  let sendSuccess := match err with None => true | Some _ => false end in
  match e_rows s !! t with
  | None => (s, match a with EWorks => ERelease r true false | _ => ERelease r false true end)
  | Some cur =>
      let r' := mkEthRow (from_address cur) (to_address cur) (send_reason cur) (unsigned_tx cur) (unsigned_hash cur)
                  (nonce cur) (signed_tx cur) (signed_hash cur) (Some sendSuccess) (Some (default "" err)) in
      match update_eth t r' (e_rows s), a with
      | Some rs, EWorks => (with_rows rs s, ERelease r true false)
      | Some rs, EFails true => (with_rows rs s, ERelease r false true)
      | _, _ => (s, ERelease r false true)
      end
  end.

(** The deferred release. *)
Definition eth_release (t : TaskID) (r : eth_row) (done_ err : bool) (a : eth_answer) (s : eth_sender) : eth_sender * (bool * bool) :=
  let released := with_locks (release_lock (from_address r) t (e_locks s)) s in
  match a with
  | EWorks => (released, (done_, err))
  | EFails true => (released, (false, true))
  | _ => (s, (false, true))
  end.

(** One step of a run, with what [Do] returns if it ends. *)
Definition eth_Do (t : TaskID) (a : eth_answer) (s : eth_sender) : option (eth_sender * option (bool * bool)) :=
  match e_running s !! t with
  | None => None
  | Some p =>
      Some match p with
      | EAcquireLock r tx =>
          match eth_lock t r tx a s with
          | (s', Some p') => (e_at t p' s', None)
          | (s', None) => (e_returns t s', Some (false, true))
          end
      | EPendingNonce r tx =>
          match a with
          | PendingNonceAt n => (e_at t (EDbNonce r tx n) s, None)
          | _ => (e_at t (ERelease r false true) s, None)
          end
      | EDbNonce r tx n =>
          match a with
          | EWorks => (e_at t (ESign r tx (next_nonce n (max_nonce (from_address r) (abs_row <$> e_rows s)))) s, None)
          | _ => (e_at t (ERelease r false true) s, None)
          end
      | ESign r tx n => let '(s', p') := eth_sign t r tx n a s in (e_at t p' s', None)
      | ESend r signedTx =>
          let '(accepted, err) := match a with SendTransaction acc err => (acc, err) | _ => (false, Some "") end in
          let pool' := if accepted : bool then (from_address r, signedTx, t) :: e_pool s else e_pool s in
          (e_at t (EPersist r signedTx err) (mkEthSender (e_rows s) (e_locks s) (e_running s) pool'), None)
      | EPersist r _ err => let '(s', p') := eth_persist t r err a s in (e_at t p' s', None)
      | ERelease r d e => let '(s', res) := eth_release t r d e a s in (e_returns t s', Some res)
      end
  end.

(** [CanAccept] *)
Definition eth_CanAccept (ids : list TaskID) : list TaskID := match ids with [] => [] | _ => ids end.

(** ** [SenderETH.send] *)

Inductive eth_send_error :=
| NonceSet | EstimateFailed | EstimateZero | HeaderFailed | NoBaseFee | TipFailed | NetworkFailed | MarshalFailed
| NoRecipient                             (* tx.To() is nil: a panic *)
| TaskNotAdded | SendState (e : Sender.send_error).

(** The answers of the Ethereum client. *)
Record eth_client := mkClient {
  EstimateGas : option Z; BaseFee : option (option Z); SuggestGasTipCap : option Z; NetworkID : option Z }.

(** [min(uint64(float64(gasLimit)*overestimate), uint64(buildconstants.BlockGasLimit))] *)
Definition scaled_gas (BlockGasLimit : Z) (gasLimit : Z) (overestimate : float64) : Z :=
  Z.min (u64 (Z_of_f64 (f64_mul (f64_of_Z gasLimit) overestimate))) BlockGasLimit.

(** The transaction that is queued. *)
Definition prepare_tx (BlockGasLimit : Z) (client : eth_client) (tx : Tx) (overestimate : float64) : result Tx eth_send_error :=
  if negb (Nonce tx =? 0) then Err NonceSet
  else if negb (Gas tx =? 0) then Ok tx
  else
    match EstimateGas client with
    | None => Err EstimateFailed
    | Some gasLimit =>
        if gasLimit =? 0 then Err EstimateZero
        else
          let gasLimit := scaled_gas BlockGasLimit gasLimit overestimate in
          match BaseFee client with
          | None => Err HeaderFailed
          | Some None => Err NoBaseFee
          | Some (Some baseFee) =>
              match SuggestGasTipCap client with
              | None => Err TipFailed
              | Some gasTipCap =>
                  match NetworkID client with
                  | None => Err NetworkFailed
                  | Some chainID =>
                      Ok (DynamicFeeTx chainID 0 gasTipCap (baseFee + gasTipCap) gasLimit (To tx) (Value tx) (Data tx))
                  end
              end
          end
    end.

(** The row that is inserted together with its task. *)
Definition queue_row (from reason : string) (tx : Tx) : result eth_row eth_send_error :=
  match MarshalBinary tx with
  | None => Err MarshalFailed
  | Some data =>
      match To tx with
      | None => Err NoRecipient
      | Some to => Ok (mkEthRow from to reason data (TxHash tx) None None None None None)
      end
  end.

(** [send]: the row and its task, the sleeps, and the result once the status row has
    one. *)
Definition eth_send (BlockGasLimit : Z) (HexToHash : string -> string) (client : eth_client) (from reason : string) (tx : Tx) (overestimate : float64)
    (added : option TaskID) (reads : list (option send_status))
    : option (TaskID * eth_row) * list duration * option (result string eth_send_error) :=
  match prepare_tx BlockGasLimit client tx overestimate with
  | Err e => (None, [], Some (Err e))
  | Ok tx =>
      match queue_row from reason tx, added with
      | Err e, _ => (None, [], Some (Err e))
      | Ok _, None => (None, [], Some (Err TaskNotAdded))
      | Ok row, Some id =>
          let '(sleeps, res) := wait_exec (fun c => Some (HexToHash c)) reads (50 * Millisecond) in
          (Some (id, row), sleeps, match res with None => None | Some (Ok h) => Some (Ok h) | Some (Err e) => Some (Err (SendState e)) end)
      end
  end.

(** ** All nodes together *)

(** The node's pending nonce is above the transactions it accepted from the address,
    except those that are recorded as sent. *)
Definition eth_honest (t : TaskID) (a : eth_answer) (s : eth_sender) : Prop :=
  match a with
  | PendingNonceAt m =>
      0 <= m /\ forall p tx u, e_running s !! t = Some p -> (from_address (pc_row p), tx, u) ∈ e_pool s ->
        Nonce tx < m \/ exists r, e_rows s !! u = Some r /\ send_success r = Some true
  | _ => True
  end.

(** As in [Sender.v]: the tasks that are run again after their refusal was recorded and
    their lock released. *)
Definition eth_refused_and_released (t : TaskID) (s : eth_sender) : bool :=
  match e_rows s !! t with
  | Some r => bool_decide (send_success r = Some false) && bool_decide (e_locks s !! from_address r <> Some t)
  | None => false
  end.
Definition eth_note_rerun (t : TaskID) (s : eth_sender) (reruns : gset Z) : gset Z :=
  if eth_refused_and_released t s then {[ t ]} ∪ reruns else reruns.

Inductive eth_step : eth_sender * gset Z -> eth_sender * gset Z -> Prop :=
| es_send t from reason tx row s R :
    e_rows s !! t = None -> queue_row from reason tx = Ok row -> eth_step (s, R) (with_rows (<[t := row]> (e_rows s)) s, R)
| es_start t a s R : e_running s !! t = None -> eth_step (s, R) (eth_read t a s, eth_note_rerun t s R)
| es_do t a s s' res R : eth_honest t a s -> eth_Do t a s = Some (s', res) -> eth_step (s, R) (s', R)
| es_die t s R : eth_step (s, R) (e_returns t s, R).

Definition no_transactions : eth_sender * gset Z := (mkEthSender ∅ ∅ ∅ [], ∅).

(** ** The message sender as a specification *)

Definition decoded (r : eth_row) : option Tx := signed_tx r ≫= UnmarshalBinary.

Definition abs_pc (p : eth_pc) : pc :=
  match p with
  | EAcquireLock r _ => AcquireLock (sr_nonce (abs_row r)) (sr_signed (abs_row r))
  | EPendingNonce _ _ => GetMpoolNonce
  | EDbNonce _ _ n => GetDbNonce n
  | ESign _ _ n => SignAndStore n
  | ESend _ tx => Push (Nonce tx)
  | EPersist _ tx err => Persist (Nonce tx) (match err with None => true | Some _ => false end)
  | ERelease _ d e => Release d e
  end.

Definition abs_sent (x : string * Tx * Z) : string * Z * Z := (x.1.1, Nonce x.1.2, x.2).

Definition abs (s : eth_sender) : sender :=
  mkSender (abs_row <$> e_rows s) (e_locks s) (abs_pc <$> e_running s) (abs_sent <$> e_pool s).

(** ** The invariant *)

(** A stored transaction is the queued one with the nonce of the row. *)
Definition row_stored (r : eth_row) : Prop :=
  forall b, signed_tx r = Some b -> exists stx utx, UnmarshalBinary b = Some stx /\ UnmarshalBinary (unsigned_tx r) = Some utx /\
    resigned (Nonce stx) utx stx /\ nonce r = Some (Nonce stx) /\ signed_hash r = Some (TxHash stx).

(** What a run knows of the row as it is now. *)
Definition run_knows (r : eth_row) (p : eth_pc) : Prop :=
  from_address r = from_address (pc_row p) /\ unsigned_tx r = unsigned_tx (pc_row p) /\
  match p with
  | EAcquireLock r0 tx => UnmarshalBinary (unsigned_tx r0) = Some tx /\ nonce r = nonce r0 /\ signed_tx r = signed_tx r0
  | EPendingNonce r0 tx | EDbNonce r0 tx _ | ESign r0 tx _ => UnmarshalBinary (unsigned_tx r0) = Some tx /\ nonce r = None
  | ESend _ stx | EPersist _ stx _ => decoded r = Some stx
  | ERelease _ _ _ => True
  end.

Record eth_ok (s : eth_sender) : Prop := {
  eo_rows : forall t r, e_rows s !! t = Some r -> row_stored r;
  eo_runs : forall t p, e_running s !! t = Some p -> exists r, e_rows s !! t = Some r /\ run_knows r p;
  eo_pool : forall f tx t, (f, tx, t) ∈ e_pool s -> exists r, e_rows s !! t = Some r /\ from_address r = f /\ decoded r = Some tx
}.

(** The run of a task after a step: it goes on, or has returned. *)
Definition set_run (t : TaskID) (o : option eth_pc) (rn : gmap Z eth_pc) : gmap Z eth_pc :=
  match o with Some p => <[t := p]> rn | None => delete t rn end.

Lemma row_stored_new from to reason data h : row_stored (mkEthRow from to reason data h None None None None None).
Proof. by intros b. Qed.

(** A step of a task changes its row, its run and the pool. *)
Lemma eth_ok_step (t : TaskID) (r r' : eth_row) (o : option eth_pc) (ls : gmap string Z) (pl : list (string * Tx * Z)) (s : eth_sender) :
  eth_ok s -> e_rows s !! t = Some r -> from_address r' = from_address r -> row_stored r' ->
  (forall tx, decoded r = Some tx -> decoded r' = Some tx) -> (forall p, o = Some p -> run_knows r' p) ->
  (forall f tx u, (f, tx, u) ∈ pl -> (f, tx, u) ∈ e_pool s \/ f = from_address r /\ u = t /\ decoded r' = Some tx) ->
  eth_ok (mkEthSender (<[t := r']> (e_rows s)) ls (set_run t o (e_running s)) pl).
Proof.
  intros I Hr Hf Hs Hd Hp Hpl. constructor; cbn.
  - intros u x Hx. destruct (decide (u = t)) as [->|Hu]; [rewrite lookup_insert_eq in Hx; by injection Hx as <-|].
    rewrite lookup_insert_ne in Hx by done. by eapply eo_rows.
  - intros u p Hx. destruct (decide (u = t)) as [->|Hu].
    + exists r'. split; [apply lookup_insert_eq|]. apply Hp. destruct o; cbn in Hx; [by rewrite lookup_insert_eq in Hx|by rewrite lookup_delete_eq in Hx].
    + rewrite lookup_insert_ne by done. apply (eo_runs _ I).
      destruct o; cbn in Hx; [by rewrite lookup_insert_ne in Hx|by rewrite lookup_delete_ne in Hx].
  - intros f tx u Hin. destruct (Hpl f tx u Hin) as [Hin0|(-> & -> & Hdr)].
    + destruct (eo_pool _ I _ _ _ Hin0) as (x & Hx & Hxf & Hxd). destruct (decide (u = t)) as [->|Hu].
      * rewrite Hr in Hx. injection Hx as <-. exists r'. rewrite lookup_insert_eq. rewrite Hf. auto.
      * exists x. by rewrite lookup_insert_ne.
    + exists r'. rewrite lookup_insert_eq. auto.
Qed.

(** A step that leaves the row. *)
Lemma eth_ok_move (t : TaskID) (r : eth_row) (o : option eth_pc) (ls : gmap string Z) (pl : list (string * Tx * Z)) (s : eth_sender) :
  eth_ok s -> e_rows s !! t = Some r -> (forall p, o = Some p -> run_knows r p) ->
  (forall f tx u, (f, tx, u) ∈ pl -> (f, tx, u) ∈ e_pool s \/ f = from_address r /\ u = t /\ decoded r = Some tx) ->
  eth_ok (mkEthSender (e_rows s) ls (set_run t o (e_running s)) pl).
Proof.
  intros I Hr Hp Hpl. rewrite <- (insert_id (e_rows s) t r Hr). apply (eth_ok_step t r r); auto. by eapply eo_rows.
Qed.

Context `{!EthTxSpec Tx}.

Lemma update_eth_spec (t : TaskID) (r' : eth_row) (rs rs' : gmap Z eth_row) : update_eth t r' rs = Some rs' ->
  rs' = <[t := r']> rs /\ update_send t (abs_row r') (abs_row <$> rs) = Some (abs_row <$> rs').
Proof.
  unfold update_eth. destruct (update_send _ _ _) as [x|] eqn:E; [|done]. intros [= <-]. split; [done|].
  apply update_send_spec in E as [-> _]. by rewrite fmap_insert.
Qed.

(** What is signed and stored for a row. *)
Lemma eth_sign_spec (t : TaskID) (r0 r : eth_row) (tx : Tx) (n : Z) (a : eth_answer) (s s' : eth_sender) (p : eth_pc) :
  e_rows s !! t = Some r -> eth_sign t r0 tx n a s = (s', p) ->
  (s' = s /\ p = ERelease r0 false true) \/
  exists r' stx, s' = with_rows (<[t := r']> (e_rows s)) s /\ from_address r' = from_address r /\ unsigned_tx r' = unsigned_tx r /\
    send_success r' = send_success r /\ nonce r' = Some n /\ decoded r' = Some stx /\ Nonce stx = n /\ resigned n tx stx /\
    signed_hash r' = Some (TxHash stx) /\ update_send t (abs_row r') (abs_row <$> e_rows s) = Some (abs_row <$> e_rows s') /\
    (p = ESend r0 stx \/ p = ERelease r0 false true).
Proof.
  intros Hr. unfold eth_sign. destruct a as [| | | |key chain upd|]; try (intros [= <- <-]; by left).
  destruct (To tx) as [to|] eqn:Eto; [|intros [= <- <-]; by left].
  destruct (signTransaction key chain _) as [stx|] eqn:Es; [|intros [= <- <-]; by left].
  destruct (MarshalBinary stx) as [data|] eqn:Em; [|intros [= <- <-]; by left]. rewrite Hr.
  set (r' := mkEthRow _ _ _ _ _ _ _ _ _ _). destruct (update_eth t r' (e_rows s)) as [rs|] eqn:Eu; [|intros [= <- <-]; by left].
  apply update_eth_spec in Eu as [-> Eu]. intros E.
  assert (Nonce stx = n /\ resigned n tx stx) as [Hn Hc].
  { unfold signTransaction in Es. destruct key, chain; try done. split.
    - by rewrite (SignTx_nonce _ _ _ _ Es), NewTransaction_nonce.
    - by eexists to, _, _. }
  assert (decoded r' = Some stx) as Hd by (apply (Unmarshal_Marshal _ _ Em)).
  assert ((s' = s /\ p = ERelease r0 false true) \/ (s' = with_rows (<[t := r']> (e_rows s)) s /\ (p = ESend r0 stx \/ p = ERelease r0 false true))) as [?|[-> Hp]]
    by (destruct upd as [|[]| | |]; injection E as <- <-; auto); [by left|].
  right. exists r', stx. by split_and!.
Qed.

(** The result of the send, when the row is there. *)
Lemma eth_persist_spec (t : TaskID) (r0 r : eth_row) (err : option string) (a : eth_answer) (s s' : eth_sender) (p : eth_pc) :
  e_rows s !! t = Some r -> eth_persist t r0 err a s = (s', p) ->
  (s' = s /\ p = ERelease r0 false true) \/
  exists r' d e, s' = with_rows (<[t := r']> (e_rows s)) s /\ from_address r' = from_address r /\ unsigned_tx r' = unsigned_tx r /\
    nonce r' = nonce r /\ signed_tx r' = signed_tx r /\ signed_hash r' = signed_hash r /\
    send_success r' = Some (match err with None => true | Some _ => false end) /\
    update_send t (abs_row r') (abs_row <$> e_rows s) = Some (abs_row <$> e_rows s') /\ p = ERelease r0 d e /\ e = negb d.
Proof.
  intros Hr. unfold eth_persist. rewrite Hr. set (r' := mkEthRow _ _ _ _ _ _ _ _ _ _).
  destruct (update_eth t r' (e_rows s)) as [rs|] eqn:Eu; [|intros [= <- <-]; by left].
  apply update_eth_spec in Eu as [-> Eu]. intros E.
  assert ((s' = s /\ p = ERelease r0 false true) \/ exists d, s' = with_rows (<[t := r']> (e_rows s)) s /\ p = ERelease r0 d (negb d)) as [?|(d & -> & ->)]
    by (destruct a as [|[]| | | |]; injection E as <- <-; first [by left|right; by exists true|right; by exists false]); [by left|].
  right. exists r', d, (negb d). by split_and!.
Qed.

Lemma abs_at (t : TaskID) (p : eth_pc) (s : eth_sender) : abs (e_at t p s) = at_pc t (abs_pc p) (abs s).
Proof. unfold abs, e_at, at_pc. cbn. by rewrite fmap_insert. Qed.

Lemma abs_returns (t : TaskID) (s : eth_sender) : abs (e_returns t s) = returns t (abs s).
Proof. unfold abs, e_returns, returns. cbn. by rewrite fmap_delete. Qed.

(** ** Steps keep the invariant *)

Lemma run_release (r : eth_row) (p : eth_pc) (d e : bool) : run_knows r p -> run_knows r (ERelease (pc_row p) d e).
Proof. intros (? & ? & _). by split_and!. Qed.

(** The choice after the lock. *)
Lemma eth_lock_knows (t : TaskID) (r r0 : eth_row) (tx : Tx) (a : eth_answer) (s s' : eth_sender) (o : option eth_pc) :
  run_knows r (EAcquireLock r0 tx) -> eth_lock t r0 tx a s = (s', o) ->
  e_rows s' = e_rows s /\ e_running s' = e_running s /\ e_pool s' = e_pool s /\ (forall p, o = Some p -> run_knows r p).
Proof.
  intros Hk E. unfold eth_lock in E. destruct (take_lock (from_address r0) t (e_locks s)) as [l cn].
  assert (forall p, (if cn =? 1 then match nonce r0 with
      | None => Some (EPendingNonce r0 tx)
      | Some _ => match signed_tx r0 ≫= UnmarshalBinary with Some stx => Some (ESend r0 stx) | None => Some (ERelease r0 false true) end
      end else Some (EAcquireLock r0 tx)) = Some p -> run_knows r p) as Hgo.
  { destruct Hk as (Hf & Hu & Hd & Hn & Hsg). intros p. destruct (cn =? 1); [|intros [= <-]; by split_and!].
    destruct (nonce r0) as [n|] eqn:En; [|intros [= <-]; by split_and!].
    destruct (signed_tx r0 ≫= UnmarshalBinary) as [stx|] eqn:Es; intros [= <-]; split_and!; try done. cbn. unfold decoded. by rewrite Hsg. }
  destruct a as [|[]| | | |]; cbn in E;
    try (injection E as <- <-; by split_and!);
    (destruct (cn =? 1); [destruct (nonce r0); [destruct (signed_tx r0 ≫= UnmarshalBinary)|]|]; injection E as <- <-; split_and!; auto).
Qed.

Lemma eth_Do_ok (t : TaskID) (a : eth_answer) (s s' : eth_sender) (res : option (bool * bool)) : eth_ok s -> eth_Do t a s = Some (s', res) -> eth_ok s'.
Proof.
  intros I E. unfold eth_Do in E. destruct (e_running s !! t) as [p|] eqn:Hp; [|done].
  destruct (eo_runs _ I _ _ Hp) as (r & Hr & Hk).
  assert (forall q ls, run_knows r q -> eth_ok (mkEthSender (e_rows s) ls (<[t := q]> (e_running s)) (e_pool s))) as Hmove.
  { intros q ls Hq. apply (eth_ok_move t r (Some q)); auto. intros ? [= <-]. done. }
  assert (forall ls, eth_ok (mkEthSender (e_rows s) ls (delete t (e_running s)) (e_pool s))) as Hret.
  { intros ls. apply (eth_ok_move t r None); auto. done. }
  pose proof (run_release r p false true Hk) as Hrel. destruct p as [r0 tx|r0 tx|r0 tx n|r0 tx n|r0 stx|r0 stx err|r0 d e]; cbn [pc_row] in Hrel.
  - destruct (eth_lock t r0 tx a s) as [s1 o] eqn:El. destruct (eth_lock_knows _ _ _ _ _ _ _ _ Hk El) as (E1 & E2 & E3 & Hq).
    destruct o as [q|]; injection E as <- _; unfold e_at, e_returns; rewrite E1, E2, E3; auto.
  - destruct a; injection E as <- _; apply Hmove; done.
  - destruct a; injection E as <- _; apply Hmove; done.
  - destruct (eth_sign t r0 tx n a s) as [s1 q] eqn:Es. injection E as <- _. destruct Hk as (Hf & Hu & Hd & Hn). cbn in Hf, Hu.
    destruct (eth_sign_spec _ _ _ _ _ _ _ _ _ Hr Es) as [[-> ->]|(r' & stx & -> & Hf' & Hu' & Hs' & Hn' & Hd' & Hnn & Hc & Hh & _ & Hq)]; [by apply Hmove|].
    apply (eth_ok_step t r r' (Some q)); [done|done|done| | | |by left].
    + intros b Hb. unfold decoded in Hd'. rewrite Hb in Hd'. cbn in Hd'. exists stx, tx. rewrite Hu', Hu, Hn', Hnn. by split_and!.
    + intros x Hx. exfalso. unfold decoded in Hx. destruct (signed_tx r) as [b|] eqn:Eb; [|done].
      destruct (eo_rows _ I _ _ Hr b Eb) as (? & ? & _ & _ & _ & Hnr & _). congruence.
    + intros ? [= <-]. destruct Hq as [->| ->]; (split; [by rewrite Hf'|]; split; [by rewrite Hu'|]; done).
  - assert (decoded r = Some stx) as Hd by apply Hk. destruct Hk as (Hf & Hu & _). cbn in Hf, Hu.
    assert (forall (acc : bool) err, eth_ok (e_at t (EPersist r0 stx err)
      (mkEthSender (e_rows s) (e_locks s) (e_running s) (if acc then (from_address r0, stx, t) :: e_pool s else e_pool s)))) as Hsend.
    { intros acc err. apply (eth_ok_move t r (Some (EPersist r0 stx err)) _ _ s); [done|done|intros ? [= <-]; by split_and!|].
      intros f tx u Hin. destruct acc; [|by left]. apply elem_of_cons in Hin as [[= -> -> ->]|?]; [right|by left]. rewrite Hf. auto. }
    destruct a as [| | | | |acc err]; injection E as <- _; first [apply Hsend|apply (Hsend false)].
  - destruct (eth_persist t r0 err a s) as [s1 q] eqn:Es. injection E as <- _. destruct Hk as (Hf & Hu & Hd). cbn in Hf, Hu, Hd.
    destruct (eth_persist_spec _ _ _ _ _ _ _ _ Hr Es) as [[-> ->]|(r' & d & e & -> & Hf' & Hu' & Hn' & Hg' & Hh' & _ & _ & -> & _)]; [by apply Hmove|].
    apply (eth_ok_step t r r' (Some (ERelease r0 d e))); [done|done|done| | | |by left].
    + intros b Hb. rewrite Hg' in Hb. destruct (eo_rows _ I _ _ Hr b Hb) as (x & y & ?). exists x, y. by rewrite Hu', Hn', Hh'.
    + intros x Hx. unfold decoded in *. by rewrite Hg'.
    + intros ? [= <-]. split; [by rewrite Hf'|]. split; [by rewrite Hu'|done].
  - destruct (eth_release t r0 d e a s) as [s1 q] eqn:Es. injection E as <- _. unfold eth_release in Es.
    destruct a as [|[]| | | |]; injection Es as <- _; apply Hret.
Qed.

Lemma eth_step_ok (x y : eth_sender * gset Z) : eth_ok x.1 -> eth_step x y -> eth_ok y.1.
Proof.
  intros I Hs. destruct Hs as [t from reason tx row s R Hr Hq|t a s R Hrun|t a s s' res R _ E|t s R]; cbn [fst] in *.
  - unfold queue_row in Hq. destruct (MarshalBinary tx) as [data|] eqn:Em; [|done]. destruct (To tx) as [to|]; [|done]. injection Hq as <-.
    constructor; cbn.
    + intros u x. destruct (decide (u = t)) as [->|Hu]; [rewrite lookup_insert_eq; intros [= <-]; apply row_stored_new|].
      rewrite lookup_insert_ne by done. by apply eo_rows.
    + intros u p Hp. destruct (eo_runs _ I _ _ Hp) as (x & Hx & ?). exists x. by rewrite lookup_insert_ne by congruence.
    + intros f x u Hin. destruct (eo_pool _ I _ _ _ Hin) as (y & Hy & ?). exists y. by rewrite lookup_insert_ne by congruence.
  - unfold eth_read. destruct a; try done. destruct (e_rows s !! t) as [r|] eqn:Hr; [|done].
    destruct (UnmarshalBinary (unsigned_tx r)) as [tx|] eqn:Eu; [|done].
    apply (eth_ok_move t r (Some (EAcquireLock r tx))); auto. intros ? [= <-]. by split_and!.
  - by eapply eth_Do_ok.
  - destruct (e_running s !! t) as [p|] eqn:Hp.
    + destruct (eo_runs _ I _ _ Hp) as (r & Hr & _). apply (eth_ok_move t r None); auto. done.
    + unfold e_returns. rewrite delete_id by done. by destruct s.
Qed.

Lemma eth_ok_init : eth_ok no_transactions.1.
Proof.
  constructor; cbn.
  - intros t r Hx. by rewrite lookup_empty in Hx.
  - intros t p Hx. by rewrite lookup_empty in Hx.
  - intros f tx t Hx. by apply not_elem_of_nil in Hx.
Qed.

(** ** Steps are steps of the message sender *)

Lemma abs_running (t : TaskID) (p : eth_pc) (s : eth_sender) : e_running s !! t = Some p -> running (abs s) !! t = Some (abs_pc p).
Proof. intros Hp. cbn. by rewrite lookup_fmap, Hp. Qed.

Lemma abs_rows (t : TaskID) (r : eth_row) (s : eth_sender) : e_rows s !! t = Some r -> rows (abs s) !! t = Some (abs_row r).
Proof. intros Hr. cbn. by rewrite lookup_fmap, Hr. Qed.

Lemma abs_locks (l : gmap string Z) (s : eth_sender) : abs (with_locks l s) = mkSender (rows (abs s)) l (running (abs s)) (pool (abs s)).
Proof. done. Qed.

(** The loop for the lock. *)
Lemma eth_lock_sim (t : TaskID) (r r0 : eth_row) (tx : Tx) (a : eth_answer) (s s' : eth_sender) (o : option eth_pc) :
  from_address r = from_address r0 -> eth_lock t r0 tx a s = (s', o) ->
  exists a', honest t a' (abs s) /\ Do_lock t (abs_row r) (nonce r0) (Nonce <$> decoded r0) a' (abs s) = (abs s', abs_pc <$> o).
Proof.
  intros Hf E.
  assert (exists a', honest t a' (abs s) /\ match a with ENotOwned => a' = NotOwned | EFails b => a' = Fails b | _ => a' = Works end) as (a' & Hh & Ha)
    by (destruct a; eexists; (split; [|reflexivity]; done)).
  exists a'. split; [done|]. unfold eth_lock in E. unfold Do_lock, decoded. cbn [sr_from abs_row locks abs]. rewrite Hf.
  destruct (take_lock (from_address r0) t (e_locks s)) as [l cn] eqn:Et.
  destruct a as [|[]| | | |]; subst a'; cbn in E |- *; try (by injection E as <- <-);
    (destruct (cn =? 1); [destruct (nonce r0); [destruct (signed_tx r0 ≫= UnmarshalBinary)|]|]; by injection E as <- <-).
Qed.

Lemma eth_sign_sim (t : TaskID) (r r0 : eth_row) (tx : Tx) (n : Z) (a : eth_answer) (s s' : eth_sender) (p : eth_pc) :
  e_rows s !! t = Some r -> eth_sign t r0 tx n a s = (s', p) ->
  exists a', honest t a' (abs s) /\ Do_sign t (abs_row r) n a' (abs s) = (abs s', abs_pc p).
Proof.
  intros Hr E. destruct (eth_sign_spec _ _ _ _ _ _ _ _ _ Hr E) as [[-> ->]|(r' & stx & Es & Hf & _ & Hs & Hn & Hd & Hnn & _ & _ & Eu & Hp)].
  - exists (Fails false). split; [done|]. done.
  - assert (mkSend (sr_from (abs_row r)) (Some n) (Some n) (sr_success (abs_row r)) = abs_row r') as Hrow.
    { unfold decoded in Hd. unfold abs_row. cbn. rewrite Hf, Hs, Hn, Hd. cbn. by rewrite Hnn. }
    destruct Hp as [->| ->]; [exists Works|exists (Fails true)]; (split; [done|]); unfold Do_sign; rewrite Hrow; cbn [rows abs]; rewrite Eu, Es; cbn; by rewrite ?Hnn.
Qed.

Lemma eth_persist_sim (t : TaskID) (r r0 : eth_row) (err : option string) (a : eth_answer) (s s' : eth_sender) (p : eth_pc) :
  e_rows s !! t = Some r -> eth_persist t r0 err a s = (s', p) ->
  exists a', honest t a' (abs s) /\ Do_persist t (abs_row r) (match err with None => true | Some _ => false end) a' (abs s) = (abs s', abs_pc p).
Proof.
  intros Hr E. destruct (eth_persist_spec _ _ _ _ _ _ _ _ Hr E) as [[-> ->]|(r' & d & e & Es & Hf & _ & Hn & Hg & _ & Hs & Eu & -> & ->)].
  - exists (Fails false). split; [done|]. done.
  - assert (mkSend (sr_from (abs_row r)) (sr_nonce (abs_row r)) (sr_signed (abs_row r)) (Some (match err with None => true | Some _ => false end)) = abs_row r') as Hrow.
    { unfold abs_row. cbn. by rewrite Hf, Hs, Hn, Hg. }
    destruct d; [exists Works|exists (Fails true)]; (split; [done|]); unfold Do_persist; rewrite Hrow; cbn [rows abs]; rewrite Eu, Es; done.
Qed.

Lemma eth_release_sim (t : TaskID) (r r0 : eth_row) (d e : bool) (a : eth_answer) (s s' : eth_sender) (res : bool * bool) :
  from_address r = from_address r0 -> eth_release t r0 d e a s = (s', res) ->
  exists a', honest t a' (abs s) /\ Do_release t (abs_row r) d e a' (abs s) = (abs s', res).
Proof.
  intros Hf E. unfold eth_release in E. rewrite <- Hf in E.
  destruct a as [|[]| | | |]; injection E as <- <-; [exists Works|exists (Fails true)|exists (Fails false)..]; (split; done).
Qed.

Lemma eth_Do_sim (t : TaskID) (a : eth_answer) (s s' : eth_sender) (res : option (bool * bool)) :
  eth_ok s -> eth_honest t a s -> eth_Do t a s = Some (s', res) -> exists a', honest t a' (abs s) /\ Do t a' (abs s) = Some (abs s', res).
Proof.
  intros I Hh E. unfold eth_Do in E. destruct (e_running s !! t) as [p|] eqn:Hp; [|done].
  destruct (eo_runs _ I _ _ Hp) as (r & Hr & Hk). destruct Hk as (Hf & Hu & Hk). pose proof (abs_running _ _ _ Hp) as Hap. pose proof (abs_rows _ _ _ Hr) as Har.
  unfold Do. rewrite Hap, Har. destruct p as [r0 tx|r0 tx|r0 tx n|r0 tx n|r0 stx|r0 stx err|r0 d e]; cbn [abs_pc abs_row sr_nonce sr_signed pc_row] in *.
  - destruct (eth_lock t r0 tx a s) as [s1 o] eqn:El. destruct (eth_lock_sim _ r _ _ _ _ _ _ Hf El) as (a' & Hh' & Ed).
    exists a'. split; [done|]. unfold decoded in Ed. rewrite Ed. destruct o as [q|]; injection E as <- <-; cbn [fmap option_fmap option_map]; by rewrite ?abs_at, ?abs_returns.
  - destruct a as [| | |m| |]; injection E as <- <-; [exists Works|exists Works|exists Works| |exists Works|exists Works]; try (split; [done|]; by rewrite abs_at).
    exists (MpoolNonce m). split; [|by rewrite abs_at]. destruct Hh as [Hm Hah]. split; [done|]. intros r1 Hr1. rewrite Har in Hr1. injection Hr1 as <-.
    intros k u Hin. cbn in Hin. apply list_elem_of_fmap in Hin as ([[f y] v] & Hy & Hin). unfold abs_sent in Hy. cbn in Hy. injection Hy as Hy1 -> ->.
    destruct (Hah _ y v Hp) as [?|(z & Hz & Hzs)]; [cbn [pc_row]; rewrite <- Hf; by rewrite <- Hy1 in Hin|by left|]. right. exists (abs_row z). split; [by apply abs_rows|done].
  - destruct a; injection E as <- <-; [exists Works|exists (Fails false)..]; (split; [done|]); rewrite abs_at; cbn; by rewrite ?Hf.
  - destruct (eth_sign t r0 tx n a s) as [s1 q] eqn:Es. injection E as <- <-. destruct (eth_sign_sim _ _ _ _ _ _ _ _ _ Hr Es) as (a' & Hh' & Ed).
    exists a'. split; [done|]. rewrite Ed. by rewrite abs_at.
  - destruct a as [| | | | |acc err]; injection E as <- <-; [exists Works..|exists (PushResult acc (match err with None => true | Some _ => false end))];
      (split; [done|]); rewrite abs_at; try done. cbn. do 2 f_equal. unfold abs. cbn. rewrite <- Hf. by destruct acc.
  - destruct (eth_persist t r0 err a s) as [s1 q] eqn:Es. injection E as <- <-. destruct (eth_persist_sim _ _ _ _ _ _ _ _ Hr Es) as (a' & Hh' & Ed).
    exists a'. split; [done|]. rewrite Ed. by rewrite abs_at.
  - destruct (eth_release t r0 d e a s) as [s1 q] eqn:Es. injection E as <- <-. destruct (eth_release_sim _ _ _ _ _ _ _ _ _ Hf Es) as (a' & Hh' & Ed).
    exists a'. split; [done|]. rewrite Ed. by rewrite abs_returns.
Qed.

Lemma abs_note (t : TaskID) (s : eth_sender) (R : gset Z) : note_rerun t (abs s) R = eth_note_rerun t s R.
Proof.
  unfold note_rerun, eth_note_rerun, refused_and_released, eth_refused_and_released. cbn. rewrite lookup_fmap.
  by destruct (e_rows s !! t).
Qed.

Lemma eth_step_sim (x y : eth_sender * gset Z) : eth_ok x.1 -> eth_step x y -> rtc sender_step (abs x.1, x.2) (abs y.1, y.2).
Proof.
  intros I Hs. destruct Hs as [t from reason tx row s R Hr Hq|t a s R Hrun|t a s s' res R Ha E|t s R]; cbn [fst snd] in *; apply rtc_once.
  - unfold queue_row in Hq. destruct (MarshalBinary tx) as [data|]; [|done]. destruct (To tx) as [to|]; [|done]. injection Hq as <-.
    unfold abs, with_rows. cbn. rewrite fmap_insert. apply (ss_insert t from (abs s)). cbn. by rewrite lookup_fmap, Hr.
  - rewrite <- abs_note. assert (exists a', abs (eth_read t a s) = Do_read t a' (abs s)) as (a' & ->).
    { unfold eth_read. destruct a; try by exists NotOwned. destruct (e_rows s !! t) as [r|] eqn:Hr; [|by exists NotOwned].
      destruct (UnmarshalBinary (unsigned_tx r)) as [tx|]; [|by exists NotOwned]. exists Works. rewrite abs_at. unfold Do_read.
      by rewrite (abs_rows _ _ _ Hr). }
    apply ss_start. cbn. by rewrite lookup_fmap, Hrun.
  - destruct (eth_Do_sim _ _ _ _ _ I Ha E) as (a' & Ha' & E'). by eapply ss_do.
  - rewrite abs_returns. apply ss_die.
Qed.

Lemma eth_reach (s : eth_sender) (R : gset Z) : rtc eth_step no_transactions (s, R) -> eth_ok s /\ rtc sender_step no_messages (abs s, R).
Proof.
  intros Hr. apply (rtc_invariant eth_step (fun x => eth_ok x.1 /\ rtc sender_step no_messages (abs x.1, x.2))) with (s := no_transactions) (s' := (s, R)); [|done|].
  - intros x y [I Hx] Hs. split; [by eapply eth_step_ok|]. etransitivity; [exact Hx|]. by apply eth_step_sim.
  - split; [apply eth_ok_init|]. reflexivity.
Qed.

(** What signing gives: the content that was queued, as a legacy transaction whose tip is
    the gas price. *)
Lemma resigned_spec (n : Z) (utx tx : Tx) : resigned n utx tx ->
  Nonce tx = n /\ content tx = content utx /\ fees tx = (LegacyTxType, GasPrice utx).
Proof.
  intros (to & k & c & Hto & Es). rewrite (SignTx_nonce _ _ _ _ Es), (SignTx_content _ _ _ _ Es), (SignTx_fees _ _ _ _ Es).
  rewrite NewTransaction_nonce, NewTransaction_content, NewTransaction_fees. unfold content. by rewrite Hto.
Qed.

(** C21: the Ethereum sender implements the protocol of the message sender.  However its send
    tasks interleave, fail or die, under the conditions of the message sender, its states are
    states of that sender when transactions are only their nonces; two transactions of an
    address that the node accepted with the same nonce are one transaction of one task,
    unless one of their tasks was run again after its refusal was recorded and its lock
    released; and an accepted transaction is the signed form of the one its task was queued
    with, rebuilt with the nonce of its row: the recipient, value, gas limit, gas price and
    data are those that were queued, but it is a legacy transaction whose tip is the gas
    price, whatever type and tip were queued.  Its hash is the one that is reported. *)
Theorem eth_sends_once (s : eth_sender) (R : gset Z) : rtc eth_step no_transactions (s, R) ->
  rtc sender_step no_messages (abs s, R) /\
  (forall f tx tx' t u, (f, tx, t) ∈ e_pool s -> (f, tx', u) ∈ e_pool s -> Nonce tx = Nonce tx' -> (t = u /\ tx = tx') \/ t ∈ R \/ u ∈ R) /\
  (forall f tx t, (f, tx, t) ∈ e_pool s -> exists r utx, e_rows s !! t = Some r /\ from_address r = f /\
     UnmarshalBinary (unsigned_tx r) = Some utx /\ resigned (Nonce tx) utx tx /\ content tx = content utx /\
     TxType tx = LegacyTxType /\ GasTipCap tx = GasPrice utx /\ nonce r = Some (Nonce tx) /\ signed_hash r = Some (TxHash tx)).
Proof.
  intros Hr. destruct (eth_reach s R Hr) as [I Ha]. split; [done|]. split.
  - intros f tx tx' t u Ht Hu Hn. destruct (decide (t ∈ R)); [tauto|]. destruct (decide (u ∈ R)); [tauto|]. left. assert (t = u) as <-.
    { apply (so_claims _ _ (sender_ok_reach _ _ Ha) f (Nonce tx)); (split; [done|]); left; cbn; apply list_elem_of_fmap;
        [exists (f, tx, t)|exists (f, tx', u)]; (split; [|done]); unfold abs_sent; cbn; by rewrite ?Hn. }
    split; [done|]. destruct (eo_pool _ I _ _ _ Ht) as (r & Hrr & _ & Hd), (eo_pool _ I _ _ _ Hu) as (r' & Hrr' & _ & Hd'). congruence.
  - intros f tx t Ht. destruct (eo_pool _ I _ _ _ Ht) as (r & Hrr & Hf & Hd). unfold decoded in Hd.
    destruct (signed_tx r) as [b|] eqn:Eb; [|done]. destruct (eo_rows _ I _ _ Hrr b Eb) as (stx & utx & Hb & Hu & Hc & Hn & Hh).
    cbn in Hd. rewrite Hb in Hd. injection Hd as <-. destruct (resigned_spec _ _ _ Hc) as (_ & Hct & Hfe). injection Hfe as Hty Htip. exists r, utx. by split_and!.
Qed.

(** What is queued: the caller's recipient, value and data; a caller who gave no gas
    limit gets the estimate, at most a block, at the base fee and the tip. *)
Lemma prepare_tx_spec (BlockGasLimit : Z) (client : eth_client) (tx tx' : Tx) (overestimate : float64) :
  prepare_tx BlockGasLimit client tx overestimate = Ok tx' ->
  Nonce tx = 0 /\ To tx' = To tx /\ Value tx' = Value tx /\ Data tx' = Data tx /\
  (Gas tx <> 0 -> tx' = tx) /\
  (Gas tx = 0 -> Gas tx' <= BlockGasLimit /\ exists baseFee tip, BaseFee client = Some (Some baseFee) /\ SuggestGasTipCap client = Some tip /\ GasPrice tx' = baseFee + tip).
Proof.
  unfold prepare_tx. destruct (Nonce tx =? 0) eqn:En; [|done]. apply Z.eqb_eq in En. cbn [negb].
  destruct (Gas tx =? 0) eqn:Eg; cbn [negb]; [apply Z.eqb_eq in Eg|apply Z.eqb_neq in Eg; intros [= <-]; by split_and!].
  destruct (EstimateGas client) as [g|]; [|done]. destruct (g =? 0); [done|]. destruct (BaseFee client) as [[bf|]|]; [|done..].
  destruct (SuggestGasTipCap client) as [tip|]; [|done]. destruct (NetworkID client) as [c|]; [|done]. intros [= <-].
  set (g' := scaled_gas _ _ _). pose proof (DynamicFeeTx_content c 0 tip (bf + tip) g' (To tx) (Value tx) (Data tx)) as Hc. unfold content in Hc.
  injection Hc as -> -> -> -> ->. split_and!; try done. intros _. split; [unfold g', scaled_gas; lia|]. by exists bf, tip.
Qed.
End Eth.

(** ** Two transactions of an address *)

Record ex_tx := mkExTx { xt_nonce : Z; xt_to : option string; xt_value : Z; xt_gas : Z; xt_price : Z; xt_tip : Z; xt_type : Z; xt_data : bytes }.

#[export] Instance ex_tx_eq_dec : EqDecision ex_tx.
Proof. solve_decision. Defined.

Definition ex_encode (tx : ex_tx) : bytes :=
  le_enc 8 (xt_nonce tx) ++ le_enc 8 (xt_value tx) ++ le_enc 8 (xt_gas tx) ++ le_enc 8 (xt_price tx) ++
  le_enc 8 (xt_tip tx) ++ le_enc 8 (xt_type tx) ++ xt_data tx.
Definition ex_decode (b : bytes) : option ex_tx :=
  Some (mkExTx (le_dec (take 8 b)) (Some "0xc0") (le_dec (take 8 (drop 8 b))) (le_dec (take 8 (drop 16 b))) (le_dec (take 8 (drop 24 b)))
    (le_dec (take 8 (drop 32 b))) (le_dec (take 8 (drop 40 b))) (drop 48 b)).

(** A binary form for the transactions it can decode. *)
#[export] Instance ex_EthTx : EthTx ex_tx := {
  Nonce := xt_nonce; To := xt_to; Value := xt_value; Gas := xt_gas; GasPrice := xt_price; GasTipCap := xt_tip; TxType := xt_type; Data := xt_data;
  NewTransaction n to v g p d := mkExTx n (Some to) v g p p LegacyTxType d;
  DynamicFeeTx c n tip cap g to v d := mkExTx n to v g cap tip DynamicFeeTxType d;
  MarshalBinary tx := if bool_decide (ex_decode (ex_encode tx) = Some tx) then Some (ex_encode tx) else None;
  UnmarshalBinary := ex_decode;
  TxHash tx := if xt_nonce tx =? 0 then "0x0" else "0x1";
  SignTx _ _ tx := Some tx
}.

#[export] Instance ex_EthTxSpec : EthTxSpec ex_tx.
Proof.
  constructor; try done.
  - intros c k tx stx [= <-]. done.
  - intros c k tx stx [= <-]. done.
  - intros c k tx stx [= <-]. done.
  - intros tx b. cbn. case_bool_decide; [|done]. by intros [= <-].
Qed.

Definition ex_unsigned (v : Z) : ex_tx := mkExTx 0 (Some "0xc0") v 21000 7 2 DynamicFeeTxType [].
Definition ex_eth_row (v : Z) : eth_row := match queue_row "0xa1" "test" (ex_unsigned v) with Ok r => r | Err _ => mkEthRow "" "" "" [] "" None None None None None end.

Definition ex_eth_queued : @eth_sender ex_tx :=
  with_rows (<[2 := ex_eth_row 20]> (<[1 := ex_eth_row 10]> ∅)) no_transactions.1.

Fixpoint eth_run (t : TaskID) (l : list eth_answer) (s : @eth_sender ex_tx) : @eth_sender ex_tx :=
  match l with
  | [] => s
  | a :: l' => match eth_Do t a s with Some (s', _) => eth_run t l' s' | None => s end
  end.

Fixpoint eth_honest_run (t : TaskID) (l : list eth_answer) (s : @eth_sender ex_tx) : Prop :=
  match l with
  | [] => True
  | a :: l' => eth_honest t a s /\ match eth_Do t a s with Some (s', _) => eth_honest_run t l' s' | None => True end
  end.

Lemma eth_run_steps (t : TaskID) (l : list eth_answer) (s : @eth_sender ex_tx) (R : gset Z) : eth_honest_run t l s -> rtc eth_step (s, R) (eth_run t l s, R).
Proof.
  revert s. induction l as [|a l IH]; intros s Hh; [done|]. destruct Hh as [Ha Hl]. cbn [eth_run].
  destruct (eth_Do t a s) as [[s' res]|] eqn:E; [|done]. eapply rtc_l; [by eapply es_do|]. by apply IH.
Qed.

Definition ex_answers (pending : Z) : list eth_answer :=
  [EWorks; PendingNonceAt pending; EWorks; Signing (Some []) (Some 314) Works; SendTransaction true None; EWorks; EWorks].

(** The node has forgotten the first transaction when the second is sent. *)
Definition ex_eth_first : @eth_sender ex_tx := eth_run 1 (ex_answers 0) (eth_read 1 EWorks ex_eth_queued).
Definition ex_eth_second : @eth_sender ex_tx := eth_run 2 (ex_answers 0) (eth_read 2 EWorks ex_eth_first).

(** A run of a task that is no rerun. *)
Lemma ex_eth_run (t : TaskID) (l : list eth_answer) (s : @eth_sender ex_tx) (R : gset Z) : e_running s !! t = None -> eth_refused_and_released t s = false ->
  eth_honest_run t l (eth_read t EWorks s) -> rtc eth_step (s, R) (eth_run t l (eth_read t EWorks s), R).
Proof.
  intros Hn Hf Hh. eapply rtc_l; [by apply (es_start t EWorks)|]. unfold eth_note_rerun. rewrite Hf. by apply eth_run_steps.
Qed.

Lemma ex_eth_reachable : rtc eth_step no_transactions (ex_eth_second, ∅).
Proof.
  transitivity (ex_eth_queued, ∅ : gset Z).
  { eapply rtc_l; [by eapply (es_send 1 "0xa1" "test" (ex_unsigned 10) (ex_eth_row 10))|].
    apply rtc_once. by eapply (es_send 2 "0xa1" "test" (ex_unsigned 20) (ex_eth_row 20)). }
  transitivity (ex_eth_first, ∅ : gset Z); (apply ex_eth_run; [vm_compute; reflexivity|vm_compute; reflexivity|]).
  - vm_compute. split_and!; try done. intros p tx u _ Hx. by apply not_elem_of_nil in Hx.
  - vm_compute. split_and!; try done. intros p tx u _ Hx. apply elem_of_cons in Hx as [[= _ _ ->]|Hx]; [|by apply not_elem_of_nil in Hx].
    right. eexists. split; reflexivity.
Qed.

Lemma eth_sends_once_witness :
  (fun x => (xt_nonce x.1.2, xt_value x.1.2, fees x.1.2)) <$> e_pool ex_eth_second = [(1, 20, (0, 7)); (0, 10, (0, 7))] /\
  (forall f tx tx' t u, (f, tx, t) ∈ e_pool ex_eth_second -> (f, tx', u) ∈ e_pool ex_eth_second -> Nonce tx = Nonce tx' ->
     (t = u /\ tx = tx') \/ t ∈ (∅ : gset Z) \/ u ∈ (∅ : gset Z)).
Proof. split; [vm_compute; reflexivity|]. exact (proj1 (proj2 (eth_sends_once ex_eth_second ∅ ex_eth_reachable))). Defined.
