(* ===== verification/ChainSched.v ===== *)
(** * The chain scheduler ([lib/chainsched/chain_sched.go])

    One goroutine reads the head changes of the chain node and calls the functions
    that were registered: first the watchers, then the handlers.  An iteration of its
    loop is a function of what the node and the clock answer; the calls it makes are
    recorded in order. *)

From stdpp Require Import base list.
From Stdlib Require Import ZArith Lia.
From S2P Require Import Prelude.

Definition defaultNotificationTimeout : duration := 5 * Minute.

(** [store.HCRevert], [store.HCApply], [store.HCCurrent] *)
Inductive hc_type := HCRevert | HCApply | HCCurrent.

Section Sched.
Context {TipSet Func : Type}.

Record HeadChange := mkChange { hc_kind : hc_type; hc_val : option TipSet }.

(** The registered functions. *)
Record CurioChainSched := mkSched {
  watchers : list Func; callbacks : list Func; started : bool; notificationTimeout : duration }.

Definition NewWithNotificationTimeout (timeout : duration) : CurioChainSched := mkSched [] [] false timeout.
Definition New : CurioChainSched := NewWithNotificationTimeout defaultNotificationTimeout.

(** Registration, refused after the start. *)
Definition AddHandler (ch : Func) (s : CurioChainSched) : result CurioChainSched () :=
  if started s then Err () else Ok (mkSched (watchers s) (callbacks s ++ [ch]) (started s) (notificationTimeout s)).

Definition AddWatcher (ch : Func) (s : CurioChainSched) : result CurioChainSched () :=
  if started s then Err () else Ok (mkSched (watchers s ++ [ch]) (callbacks s) (started s) (notificationTimeout s)).

Definition HasSubscribers (s : CurioChainSched) : bool := (0 <? length (callbacks s))%nat || (0 <? length (watchers s))%nat.

(** A call of a registered function: the function, [revert] and [apply].  What it
    returns is only logged. *)
Definition call : Type := Func * option TipSet * option TipSet.

Definition update (s : CurioChainSched) (revert apply : option TipSet) : list call :=
  match apply with
  | None => []
  | Some _ => ((fun ch => (ch, revert, apply)) <$> watchers s) ++ ((fun ch => (ch, revert, apply)) <$> callbacks s)
  end.

(** ** [Run] *)

(** The local variables of the loop: whether there is a channel and whether it gave
    its first notification. *)
Record run_state := mkRun { has_ch : bool; gotFirstNotification : bool; lastNotif : time }.

(** What the select statement finds. *)
Inductive select_case :=
| Notification (changes : list HeadChange)
| ChannelClosed
| Ticker
| ContextDone.

(** The answers of one iteration: whether the context is still live, whether
    [ChainNotify] works when it is called, the time then, what is selected and the
    time then. *)
Record iteration := mkIter { ctx_live : bool; notify_ok : bool; subscribed_at : time; selected : select_case; selected_at : time }.

(** The last reverted and the last applied tip set of a notification. *)
Definition head_change (changes : list HeadChange) : option TipSet * option TipSet :=
  foldl (fun '(lowest, highest) change =>
    match hc_kind change with
    | HCRevert => (hc_val change, highest)
    | HCApply => (lowest, hc_val change)
    | HCCurrent => (lowest, highest)
    end) (None, None) changes.

(** The select statement with a channel: the state, the calls, and whether the loop
    goes on. *)
Definition on_select (s : CurioChainSched) (i : iteration) (st : run_state) : run_state * list call * bool :=
  match selected i with
  | ContextDone => (st, [], false)
  | ChannelClosed => (mkRun false (gotFirstNotification st) (lastNotif st), [], true)
  | Ticker =>
      let since := time_sub (selected_at i) (lastNotif st) in
      if since >? notificationTimeout s then (mkRun false (gotFirstNotification st) (lastNotif st), [], true) else (st, [], true)
  | Notification changes =>
      if negb (gotFirstNotification st) then
        match changes with
        | [chg] =>
            match hc_kind chg with
            | HCCurrent => (mkRun true true (selected_at i), update s None (hc_val chg), true)
            | _ => (mkRun false false (selected_at i), [], true)
            end
        | _ => (mkRun false false (selected_at i), [], true)
        end
      else
        let '(lowest, highest) := head_change changes in
        (mkRun true true (selected_at i), update s lowest highest, true)
  end.

(** One iteration of the loop. *)
Definition run_iter (s : CurioChainSched) (i : iteration) (st : run_state) : run_state * list call * bool :=
  if negb (ctx_live i) then (st, [], false)
  else if has_ch st then on_select s i st
  else if negb (notify_ok i) then (st, [], true)
  else on_select s i (mkRun true false (subscribed_at i)).

(** [Run] over the answers: the scheduler is started, and the calls it makes. *)
Fixpoint run_loop (s : CurioChainSched) (st : run_state) (answers : list iteration) : run_state * list call :=
  match answers with
  | [] => (st, [])
  | i :: rest =>
      let '(st', calls, more) := run_iter s i st in
      if more then let '(st'', calls') := run_loop s st' rest in (st'', calls ++ calls') else (st', calls)
  end.

Definition Run (s : CurioChainSched) (now : time) (answers : list iteration) : CurioChainSched * list call :=
  let s := mkSched (watchers s) (callbacks s) true (notificationTimeout s) in
  (s, (run_loop s (mkRun false false now) answers).2).

(** ** What the functions are called with *)

(** A block of calls: one head change, given to every function. *)
Definition round (s : CurioChainSched) (ra : option TipSet * TipSet) : list call := update s ra.1 (Some ra.2).

Lemma update_rounds (s : CurioChainSched) (r a : option TipSet) :
  update s r a = mjoin (round s <$> match a with Some v => [(r, v)] | None => [] end).
Proof. destruct a; cbn; by rewrite ?app_nil_r. Qed.

(** The head changes the loop passes on, without the registered functions. *)
Definition delivered_by (i : iteration) (st : run_state) : list (option TipSet * TipSet) :=
  if negb (ctx_live i) || (negb (has_ch st) && negb (notify_ok i)) then []
  else
    match selected i with
    | Notification changes =>
        if has_ch st && gotFirstNotification st then
          match head_change changes with (r, Some v) => [(r, v)] | _ => [] end
        else match changes with [mkChange HCCurrent (Some v)] => [(None, v)] | _ => [] end
    | _ => []
    end.

Lemma on_select_rounds (s : CurioChainSched) (i : iteration) (st : run_state) :
  (on_select s i st).1.2 = mjoin (round s <$>
    match selected i with
    | Notification changes =>
        if gotFirstNotification st then match head_change changes with (r, Some v) => [(r, v)] | _ => [] end
        else match changes with [mkChange HCCurrent (Some v)] => [(None, v)] | _ => [] end
    | _ => []
    end).
Proof.
  unfold on_select. destruct (selected i) as [changes| | |]; [|done|by destruct (_ >? _)|done].
  destruct (gotFirstNotification st); cbn [negb].
  - destruct (head_change changes) as [r a]. cbn [fst snd]. rewrite update_rounds. by destruct a.
  - destruct changes as [|[[] [v|]] [|c l]]; try done. cbn [hc_kind hc_val fst snd]. by rewrite update_rounds.
Qed.

Lemma run_iter_rounds (s : CurioChainSched) (i : iteration) (st : run_state) : (run_iter s i st).1.2 = mjoin (round s <$> delivered_by i st).
Proof.
  unfold run_iter, delivered_by. destruct (ctx_live i); cbn [negb orb]; [|done].
  destruct (has_ch st); cbn [negb andb]; [apply on_select_rounds|]. destruct (notify_ok i); cbn [negb]; [|done].
  rewrite on_select_rounds. done.
Qed.

(** The head changes of a run. *)
Fixpoint deliveries (s : CurioChainSched) (st : run_state) (answers : list iteration) : list (option TipSet * TipSet) :=
  match answers with
  | [] => []
  | i :: rest => let '(st', _, more) := run_iter s i st in delivered_by i st ++ (if more then deliveries s st' rest else [])
  end.

Lemma run_loop_rounds (s : CurioChainSched) (st : run_state) (answers : list iteration) :
  (run_loop s st answers).2 = mjoin (round s <$> deliveries s st answers).
Proof.
  revert st. induction answers as [|i rest IH]; intros st; [done|]. cbn [run_loop deliveries].
  pose proof (run_iter_rounds s i st) as Hi. destruct (run_iter s i st) as [[st' calls] more]. cbn [fst snd] in Hi. subst calls.
  rewrite fmap_app, list.join_app. destruct more; [|by rewrite app_nil_r].
  rewrite <- IH. by destruct (run_loop s st' rest).
Qed.

(** Every function is called with the same head changes in the same order, none of
    them without a new tip set, and for each of them the watchers come before the
    handlers. *)
Lemma Run_rounds (s : CurioChainSched) (now : time) (answers : list iteration) :
  exists heads : list (option TipSet * TipSet), (Run s now answers).2 = mjoin (round s <$> heads)
    /\ Forall (fun c : call => exists v, c.2 = Some v) (Run s now answers).2.
Proof.
  exists (deliveries (mkSched (watchers s) (callbacks s) true (notificationTimeout s)) (mkRun false false now) answers).
  assert (forall hs : list (option TipSet * TipSet), Forall (fun c : call => exists v, c.2 = Some v) (mjoin (round s <$> hs))) as Hall.
  { induction hs as [|[r v] hs IH]; [done|]. cbn. apply Forall_app. split; [|done].
    apply Forall_app; split; apply Forall_fmap, Forall_true; intros f; by exists v. }
  unfold Run. cbn [snd]. rewrite run_loop_rounds. split; [done|]. apply Hall.
Qed.

(** A notification of an honest node ends with the tip set it applied last. *)
Lemma head_change_last (changes : list HeadChange) (v : TipSet) :
  (head_change (changes ++ [mkChange HCApply (Some v)])).2 = Some v.
Proof. unfold head_change. rewrite foldl_snoc. by destruct (foldl _ _ changes). Qed.

(** One that only reverts reaches no function. *)
Lemma reverts_not_delivered (s : CurioChainSched) (i : iteration) (st : run_state) (changes : list HeadChange) :
  ctx_live i = true -> has_ch st = true -> gotFirstNotification st = true -> selected i = Notification changes ->
  Forall (fun c => hc_kind c = HCRevert) changes -> (run_iter s i st).1.2 = [].
Proof.
  intros Hc Hh Hg Hs Hr. rewrite run_iter_rounds. unfold delivered_by. rewrite Hc, Hh, Hs, Hg. cbn [negb orb andb].
  assert (forall l (o : option TipSet), Forall (fun c => hc_kind c = HCRevert) l -> (foldl (fun '(lowest, highest) change =>
    match hc_kind change with HCRevert => (hc_val change, highest) | HCApply => (lowest, hc_val change) | HCCurrent => (lowest, highest) end) (o, None) l).2 = None) as H.
  { induction l as [|c l IH]; intros o Hl; [done|]. inversion Hl as [|? ? Hk Hl']; subst. cbn. rewrite Hk. by apply IH. }
  specialize (H changes None Hr). fold (head_change changes) in H. destruct (head_change changes) as [r a]. cbn in H. by subst a.
Qed.

(** A silent node is left: at the first tick later than the timeout the channel is
    dropped, and the next iteration subscribes again. *)
Lemma silent_resubscribes (s : CurioChainSched) (i : iteration) (st : run_state) :
  ctx_live i = true -> has_ch st = true -> selected i = Ticker ->
  has_ch (run_iter s i st).1.1 = false <-> notificationTimeout s < time_sub (selected_at i) (lastNotif st).
Proof.
  intros Hc Hh Hs. unfold run_iter, on_select. rewrite Hc, Hh, Hs. cbn [negb]. rewrite Z.gtb_ltb.
  destruct (Z.ltb_spec (notificationTimeout s) (time_sub (selected_at i) (lastNotif st))); cbn; [tauto|]. rewrite Hh. split; [done|lia].
Qed.
End Sched.
