(* ===== verification/MsgWatch.v ===== *)
(** * Watching messages ([tasks/message/watch.go], [watch_eth.go], [eth_tx_manager.go], [watch_eth_gc.go])

    Messages and transactions that were sent wait in [message_waits] and
    [message_waits_eth] until the chain has executed them.  Every node runs a watcher
    of each kind: a head change wakes its goroutine, which takes the rows without
    owner, asks the chain node about its own and records what was executed.

    First the goroutines and their channels, then the tables: the statements, [update]
    as a function of what the node and the database answer, and all watchers of all
    nodes on one table. *)

From stdpp Require Import base gmap sets list strings sorting.
From Stdlib Require Import ZArith Lia.
From S2P Require Import Prelude HarmonyDB.

Definition MinConfidence : Z := 5.
Definition MinEthConfidence : Z := 1.

(** ** The goroutine and its channel *)

Section Loop.
Context {Head : Type}.

(** Where the goroutine is: at its select statement, at the start of [update] before
    the head is loaded, in the rest of [update], or returned. *)
Inductive loop_pc := Waiting | Entered | Working | Stopped.

Record loop := mkLoop {
  best : option Head;        (* bestTs, bestBlockNumber *)
  token : bool;              (* an element in the buffer of updateCh *)
  sending : bool;            (* processHeadChange is between its store and its send *)
  stopping : bool;           (* the channel stopping is closed *)
  at_ : loop_pc;
  loaded : option Head       (* the head the last update loaded *)
}.

Definition new_loop : loop := mkLoop None false false false Waiting None.

(** [processHeadChange]: the store, and the send that does not wait.  A channel with
    a buffer takes an element if it has none; one without a buffer only if the
    goroutine waits for it. *)
Definition store_head (h : Head) (l : loop) : loop := mkLoop (Some h) (token l) true (stopping l) (at_ l) (loaded l).

Definition send_buffered (l : loop) : loop := mkLoop (best l) true false (stopping l) (at_ l) (loaded l).

Definition send_unbuffered (l : loop) : loop :=
  mkLoop (best l) (token l) false (stopping l) (match at_ l with Waiting => Entered | p => p end) (loaded l).

(** [run]: its select statement, the load in [update], the end of [update]. *)
Definition receive (l : loop) : option loop :=
  match at_ l with
  | Waiting => if token l then Some (mkLoop (best l) false (sending l) (stopping l) Entered (loaded l)) else None
  | _ => None
  end.

Definition stop (l : loop) : option loop :=
  match at_ l with
  | Waiting => if stopping l then Some (mkLoop (best l) (token l) (sending l) (stopping l) Stopped (loaded l)) else None
  | _ => None
  end.

Definition load (l : loop) : option loop :=
  match at_ l with Entered => Some (mkLoop (best l) (token l) (sending l) (stopping l) Working (best l)) | _ => None end.

Definition finish (l : loop) : option loop :=
  match at_ l with Working => Some (mkLoop (best l) (token l) (sending l) (stopping l) Waiting (loaded l)) | _ => None end.

(** The steps of the goroutine, and of the scheduler, which calls
    [processHeadChange] from one goroutine. *)
Inductive own_step : loop -> loop -> Prop :=
| os_receive l l' : receive l = Some l' -> own_step l l'
| os_load l l' : load l = Some l' -> own_step l l'
| os_finish l l' : finish l = Some l' -> own_step l l'.

Inductive loop_step (buffered : bool) : loop -> loop -> Prop :=
| lp_store h l : sending l = false -> loop_step buffered l (store_head h l)
| lp_send l : sending l = true -> loop_step buffered l (if buffered then send_buffered l else send_unbuffered l)
| lp_own l l' : own_step l l' -> loop_step buffered l l'
| lp_Stop l : loop_step buffered l (mkLoop (best l) (token l) (sending l) true (at_ l) (loaded l))
| lp_stop l l' : stop l = Some l' -> loop_step buffered l l'.

(** The last head was loaded, or something is still to come that makes the goroutine
    load it. *)
Definition head_seen (l : loop) : Prop := sending l = true \/ token l = true \/ at_ l = Entered \/ loaded l = best l.

Lemma head_seen_step (l l' : loop) : head_seen l -> loop_step true l l' -> head_seen l'.
Proof.
  unfold head_seen. intros H Hs. destruct Hs as [h l Hn|l Hn|l l' Ho|l|l l' E]; cbn; try tauto.
  - destruct Ho as [l l' E|l l' E|l l' E]; [unfold receive in E|unfold load in E|unfold finish in E]; destruct (at_ l) eqn:Ea; try done.
    + destruct (token l); [|done]. injection E as <-. cbn. tauto.
    + injection E as <-. cbn. tauto.
    + injection E as <-. cbn. naive_solver.
  - unfold stop in E. destruct (at_ l) eqn:Ea; try done. destruct (stopping l); [|done]. injection E as <-. cbn. naive_solver.
Qed.

Lemma own_path (l : loop) : at_ l <> Stopped -> sending l = false ->
  exists l', rtc own_step l l' /\ at_ l' = Waiting /\ token l' = false /\ sending l' = false /\ best l' = best l.
Proof.
  destruct l as [b tk sd sp a ld]. cbn. intros Ha ->.
  assert (exists tk' ld', rtc own_step (mkLoop b tk false sp a ld) (mkLoop b tk' false sp Waiting ld')) as (tk' & ld' & H1).
  { destruct a; [by exists tk, ld| |exists tk, ld; by apply rtc_once, os_finish|done].
    exists tk, b. eapply rtc_l; [by apply os_load|]. by apply rtc_once, os_finish. }
  destruct tk'; [|by eexists].
  exists (mkLoop b false false sp Waiting b). split; [|done]. etrans; [exact H1|]. eapply rtc_l; [by apply os_receive|].
  eapply rtc_l; [by apply os_load|]. by apply rtc_once, os_finish.
Qed.

(** C31: the Ethereum watcher misses no head change: in every interleaving of the
    scheduler and the watcher's goroutine, when the goroutine waits and its channel is
    empty, its last update has used the latest head; and when the scheduler is not in
    the middle of a head change, the goroutine reaches such a state by its own steps
    alone, unless it was stopped. *)
Theorem eth_watch_current (l : loop) : rtc (loop_step true) new_loop l ->
  (at_ l = Waiting -> token l = false -> sending l = false -> loaded l = best l) /\
  (at_ l <> Stopped -> sending l = false ->
     exists l', rtc own_step l l' /\ at_ l' = Waiting /\ token l' = false /\ best l' = best l /\ loaded l' = best l').
Proof.
  intros Hr. assert (forall x, rtc (loop_step true) new_loop x -> head_seen x) as Hinv.
  { intros x Hx. apply (rtc_invariant (loop_step true) head_seen head_seen_step _ _ Hx). by right; right; right. }
  split; [intros Hw Ht Hs; destruct (Hinv l Hr) as [?|[?|[?|?]]]; congruence|].
  intros Hst Hs. destruct (own_path l Hst Hs) as (l' & Hp & Hw & Ht & Hs' & Hb). exists l'. split_and!; try done.
  assert (rtc (loop_step true) new_loop l') as Hr' by (etrans; [exact Hr|]; eapply rtc_subrel; [|exact Hp]; intros; by apply lp_own).
  destruct (Hinv l' Hr') as [?|[?|[?|?]]]; congruence.
Qed.

(** The message watcher has a channel without a buffer: a head change that comes
    while it works is dropped, and it waits with an outdated head. *)
Lemma message_watch_drops (h h' : Head) : h <> h' ->
  exists l, rtc (loop_step false) new_loop l /\ at_ l = Waiting /\ token l = false /\ sending l = false /\ best l = Some h' /\ loaded l = Some h.
Proof.
  intros Hh. exists (mkLoop (Some h') false false false Waiting (Some h)). split; [|done].
  eapply rtc_l; [by apply (lp_store _ h)|]. eapply rtc_l; [by apply lp_send|]. eapply rtc_l; [by apply lp_own, os_load|].
  eapply rtc_l; [by apply (lp_store _ h')|]. eapply rtc_l; [by apply lp_send|]. by apply rtc_once, lp_own, os_finish.
Qed.
End Loop.

#[global] Arguments loop : clear implicits.

(** ** [message_waits] *)

Record wait_row := mkWait {
  waiter_machine_id : option Z;
  executed_tsk_cid : option string; executed_tsk_epoch : option Z; executed_msg_cid : option string; executed_msg_data : option string;
  executed_rcpt_exitcode : option Z; executed_rcpt_return : option string; executed_rcpt_gas_used : option Z
}.

Abbreviation waits := (gmap string wait_row).

(** A new wait: [INSERT INTO message_waits (signed_message_cid) VALUES ($1)]. *)
Definition new_wait : wait_row := mkWait None None None None None None None None.

Definition with_waiter (m : option Z) (r : wait_row) : wait_row :=
  mkWait m (executed_tsk_cid r) (executed_tsk_epoch r) (executed_msg_cid r) (executed_msg_data r)
    (executed_rcpt_exitcode r) (executed_rcpt_return r) (executed_rcpt_gas_used r).

(** [UPDATE message_waits SET waiter_machine_id = $1 WHERE waiter_machine_id IS NULL
    AND executed_tsk_cid IS NULL] *)
Definition assign_pending (m : Z) (w : waits) : waits :=
  (fun r => match waiter_machine_id r, executed_tsk_cid r with None, None => with_waiter (Some m) r | _, _ => r end) <$> w.

(** The foreign key to the machines: [ON DELETE SET NULL]. *)
Definition machine_deleted (m : Z) (w : waits) : waits :=
  (fun r => if bool_decide (waiter_machine_id r = Some m) then with_waiter None r else r) <$> w.

(** What the chain node knows of an executed message: [api.MsgLookup] with the marshalled
    message. *)
Record execution := mkExec {
  ex_tsk_cid : string; ex_height : Z; ex_message : string; ex_data : string; ex_exitcode : Z; ex_return : string; ex_gas : Z }.

(** The statement that records it: it does not look at the owner. *)
Definition record_wait (cid : string) (e : execution) (w : waits) : waits :=
  match w !! cid with
  | None => w
  | Some _ =>
      <[cid := mkWait None (Some (ex_tsk_cid e)) (Some (ex_height e)) (Some (ex_message e)) (Some (ex_data e))
                 (Some (ex_exitcode e)) (Some (ex_return e)) (Some (ex_gas e))]> w
  end.

(** A message of the join with [message_sends]: [signed_cid], [from_key], [nonce]. *)
Record sent := mkSent { sn_cid : string; sn_from : string; sn_nonce : Z }.

(** The messages of the machine.  The order of rows is the database's. *)
Definition assigned (m : Z) (sends : list sent) (w : waits) : list sent :=
  base.filter (fun x => match w !! sn_cid x with Some r => bool_decide (waiter_machine_id r = Some m) | None => false end = true) sends.

Section Update.
Context {Tsk : Type}.

(** What the chain node answers: [ChainGetTipSet] (the height),
    [ChainGetTipSetByHeight], [StateGetActor] (the nonce), [StateSearchMsg] together with
    the key of its tip set, and [ChainGetMessage] with its JSON. *)
Record chain_node := mkNode {
  ChainGetTipSet : Tsk -> option Z;
  ChainGetTipSetByHeight : Z -> Tsk -> option Tsk;
  StateGetActor : string -> Tsk -> option Z;
  StateSearchMsg : Tsk -> string -> option (option (option string * Z * string * (Z * string * Z)));
  ChainGetMessage : string -> option string
}.

(** Go's parsers of addresses (to a canonical form) and of content ids. *)
Context (NewFromString : string -> option string) (valid_cid : string -> bool).

(** The tip set to ask at: [MinConfidence] epochs below the head. *)
Definition lookback (node : chain_node) (head : Tsk) : option Tsk :=
  match ChainGetTipSet node head with
  | None => None
  | Some height => ChainGetTipSetByHeight node (i64 (height - MinConfidence)) head
  end.

(** The nonces of the senders; an address that does not parse or has no actor ends
    the update. *)
Definition sender_nonces (node : chain_node) (lbtsk : Tsk) (msgs : list sent) : option (gmap string Z) :=
  match mapM (fun x => NewFromString (sn_from x)) msgs with
  | None => None
  | Some addrs => list_to_map <$> mapM (fun addr => (pair addr) <$> StateGetActor node addr lbtsk) addrs
  end.

(** What is recorded for a message, if anything. *)
Definition found (node : chain_node) (lbtsk : Tsk) (cid : string) : option execution :=
  match StateSearchMsg node lbtsk cid with
  | Some (Some (Some tskCid, height, message, (exitcode, ret, gas))) =>
      match ChainGetMessage node message with
      | Some data => Some (mkExec tskCid height message data exitcode ret gas)
      | None => None
      end
  | _ => None
  end.

(** The loop over the messages; a content id that does not parse is a panic, which
    ends the process.  [applied] says whether the recording statement takes effect. *)
Fixpoint check_msgs (node : chain_node) (lbtsk : Tsk) (nonces : gmap string Z) (applied : string -> bool) (msgs : list sent) (w : waits) : waits * bool :=
  match msgs with
  | [] => (w, false)
  | x :: rest =>
      let nonce := default 0 (NewFromString (sn_from x) ≫= fun a => nonces !! a) in
      if sn_nonce x >? nonce then check_msgs node lbtsk nonces applied rest w
      else if negb (valid_cid (sn_cid x)) then (w, true)
      else
        let w := match found node lbtsk (sn_cid x) with
                 | Some e => if applied (sn_cid x) then record_wait (sn_cid x) e w else w
                 | None => w
                 end in
        check_msgs node lbtsk nonces applied rest w
  end.

(** What the database does: the statement that assigns (with or without an error, and
    whether it took effect), the order in which rows are found, or an error, and the
    recording statements. *)
Record db_answers := mkDbAnswers {
  assign_ok : bool; assign_applied : bool; order_rows : option (list sent -> list sent); record_applied : string -> bool }.

(** [MessageWatcher.update]: the table after it, and whether it panicked. *)
Definition watch_update (node : chain_node) (db : db_answers) (machineID : Z) (head : Tsk) (sends : list sent) (w : waits) : waits * bool :=
  match lookback node head with
  | None => (w, false)
  | Some lbtsk =>
      let w := if assign_applied db then assign_pending machineID w else w in
      if negb (assign_ok db) then (w, false)
      else
        match order_rows db with
        | None => (w, false)
        | Some order =>
            let msgs := take (Z.to_nat 10000) (order (assigned machineID sends w)) in
            match sender_nonces node lbtsk msgs with
            | None => (w, false)
            | Some nonces => check_msgs node lbtsk nonces (record_applied db) msgs w
            end
        end
  end.

(** ** All watchers on the table *)

(** A message was found on the chain, [MinConfidence] epochs below some head. *)
Definition confirmed (node : chain_node) (cid : string) (e : execution) : Prop :=
  exists head lbtsk, lookback node head = Some lbtsk /\ found node lbtsk cid = Some e.

(** New waits, watchers that take and record, machines that are removed.  The node
    answers the same for the same tip set, or not at all. *)
Inductive waits_step (node : chain_node) : waits -> waits -> Prop :=
| ww_insert cid w : w !! cid = None -> waits_step node w (<[cid := new_wait]> w)
| ww_assign m w : waits_step node w (assign_pending m w)
| ww_record cid e w : confirmed node cid e -> waits_step node w (record_wait cid e w)
| ww_machine m w : waits_step node w (machine_deleted m w).

(** A row says nothing of an execution, or all of a confirmed one. *)
Definition wait_ok (node : chain_node) (cid : string) (r : wait_row) : Prop :=
  (exists m, r = with_waiter m new_wait) \/
  exists e, confirmed node cid e /\
    r = mkWait None (Some (ex_tsk_cid e)) (Some (ex_height e)) (Some (ex_message e)) (Some (ex_data e)) (Some (ex_exitcode e)) (Some (ex_return e)) (Some (ex_gas e)).

Definition waits_ok (node : chain_node) (w : waits) : Prop := map_Forall (wait_ok node) w.

Lemma waits_ok_step (node : chain_node) (w w' : waits) : waits_ok node w -> waits_step node w w' -> waits_ok node w'.
Proof.
  intros I Hs. destruct Hs as [cid w Hn|m w|cid e w Hc|m w].
  - apply map_Forall_insert_2; [|done]. left. by exists None.
  - intros cid r. unfold assign_pending. rewrite lookup_fmap_Some. intros (r0 & <- & Hr). specialize (I cid r0 Hr).
    destruct I as [(m0 & ->)|(e & Hc & ->)]; cbn; [|right; by exists e].
    destruct m0; [left; by eexists|]. left. by exists (Some m).
  - unfold record_wait. destruct (w !! cid) as [r|]; [|done]. apply map_Forall_insert_2; [|done]. right. by exists e.
  - intros cid r. unfold machine_deleted. rewrite lookup_fmap_Some. intros (r0 & <- & Hr). specialize (I cid r0 Hr).
    case_bool_decide as Hw; [|done]. destruct I as [(m0 & ->)|(e & Hc & ->)]; [|done]. left. by exists None.
Qed.

(** An execution that is recorded stays recorded. *)
Definition executed (w : waits) (cid : string) : Prop := exists r, w !! cid = Some r /\ executed_tsk_cid r <> None.

Lemma executed_step (node : chain_node) (w w' : waits) (cid : string) : executed w cid -> waits_step node w w' -> executed w' cid.
Proof.
  intros (r & Hr & He) Hs. destruct Hs as [c w Hn|m w|c e w Hc|m w].
  - exists r. by rewrite lookup_insert_ne by congruence.
  - unfold executed, assign_pending. setoid_rewrite lookup_fmap. rewrite Hr. cbn.
    destruct (waiter_machine_id r), (executed_tsk_cid r) eqn:E; try done; exists r; by rewrite E.
  - unfold record_wait. destruct (w !! c) as [x|] eqn:Ex; [|by exists r].
    destruct (decide (c = cid)) as [->|Hne]; [eexists; by rewrite lookup_insert_eq|exists r; by rewrite lookup_insert_ne].
  - unfold executed, machine_deleted. setoid_rewrite lookup_fmap. rewrite Hr. cbn. case_bool_decide; eexists; done.
Qed.

(** ** What an update does *)

Definition exec_row (e : execution) : wait_row :=
  mkWait None (Some (ex_tsk_cid e)) (Some (ex_height e)) (Some (ex_message e)) (Some (ex_data e)) (Some (ex_exitcode e)) (Some (ex_return e)) (Some (ex_gas e)).

Lemma check_msgs_steps (node : chain_node) (head lbtsk : Tsk) (nonces : gmap string Z) (applied : string -> bool) (msgs : list sent) (w : waits) :
  lookback node head = Some lbtsk -> rtc (waits_step node) w (check_msgs node lbtsk nonces applied msgs w).1.
Proof.
  intros Hl. revert w. induction msgs as [|x rest IH]; intros w; [done|]. cbn [check_msgs]. destruct (_ >? _); [apply IH|].
  destruct (valid_cid (sn_cid x)); [|done]. cbn [negb]. destruct (found node lbtsk (sn_cid x)) as [e|] eqn:Ef; [|apply IH].
  destruct (applied (sn_cid x)); [|apply IH]. eapply rtc_l; [|apply IH]. apply ww_record. by exists head, lbtsk.
Qed.

(** An update is a sequence of steps, whatever fails. *)
Lemma watch_update_steps (node : chain_node) (db : db_answers) (m : Z) (head : Tsk) (sends : list sent) (w : waits) :
  rtc (waits_step node) w (watch_update node db m head sends w).1.
Proof.
  unfold watch_update. destruct (lookback node head) as [lbtsk|] eqn:El; [|done].
  assert (rtc (waits_step node) w (if assign_applied db then assign_pending m w else w)) as Ha
    by (destruct (assign_applied db); [apply rtc_once, ww_assign|done]).
  destruct (assign_ok db); cbn [negb]; [|done]. destruct (order_rows db) as [order|]; [|done].
  destruct (sender_nonces node lbtsk _) as [nonces|]; [|done]. etrans; [exact Ha|]. by eapply check_msgs_steps.
Qed.

(** The messages a lookup is made for. *)
Definition passes (nonces : gmap string Z) (x : sent) : bool := negb (sn_nonce x >? default 0 (NewFromString (sn_from x) ≫= fun a => nonces !! a)).

Lemma check_msgs_spec (node : chain_node) (lbtsk : Tsk) (nonces : gmap string Z) (msgs : list sent) (w : waits) :
  Forall (fun x => valid_cid (sn_cid x) = true) msgs ->
  exists w', check_msgs node lbtsk nonces (fun _ => true) msgs w = (w', false) /\
    forall cid, w' !! cid = match w !! cid with
      | None => None
      | Some r =>
          if existsb (fun x => bool_decide (sn_cid x = cid) && passes nonces x) msgs
          then Some (from_option exec_row r (found node lbtsk cid)) else Some r
      end.
Proof.
  revert w. induction msgs as [|x rest IH]; intros w Hv; [exists w; split; [done|]; intros cid; cbn; by destruct (w !! cid)|].
  inversion Hv as [|? ? Hx Hv']; subst. cbn [check_msgs existsb]. unfold passes at 1.
  destruct (sn_nonce x >? _) eqn:Eg; cbn [negb].
  - destruct (IH w Hv') as (w' & -> & Hw'). exists w'. split; [done|]. intros cid. rewrite Hw', andb_false_r. done.
  - rewrite Hx. cbn [negb].
    set (w1 := match found node lbtsk (sn_cid x) with Some e => record_wait (sn_cid x) e w | None => w end).
    destruct (IH w1 Hv') as (w' & -> & Hw'). exists w'. split; [done|]. intros cid. rewrite Hw', andb_true_r.
    assert (w1 !! cid = match w !! cid with Some r => if bool_decide (sn_cid x = cid) then Some (from_option exec_row r (found node lbtsk cid)) else Some r | None => None end) as ->.
    { unfold w1, record_wait. case_bool_decide as Hc.
      - subst cid. destruct (found node lbtsk (sn_cid x)) as [e|]; [|by destruct (w !! sn_cid x)].
        destruct (w !! sn_cid x) as [r|] eqn:Er; [by rewrite lookup_insert_eq|done].
      - destruct (found node lbtsk (sn_cid x)) as [e|]; [|by destruct (w !! cid)].
        destruct (w !! sn_cid x) as [r|]; [rewrite lookup_insert_ne by done|]; by destruct (w !! cid). }
    destruct (w !! cid) as [r|]; [|done]. case_bool_decide; cbn [orb]; [|done].
    destruct (existsb _ rest); [|done]. by destruct (found node lbtsk cid).
Qed.

(** The nonce of the sender, when the chain has it. *)
Definition sender_known (node : chain_node) (lbtsk : Tsk) (x : sent) (n : Z) : Prop :=
  exists a, NewFromString (sn_from x) = Some a /\ StateGetActor node a lbtsk = Some n.

Lemma sender_nonces_spec (node : chain_node) (lbtsk : Tsk) (msgs : list sent) :
  (forall x, x ∈ msgs -> exists n, sender_known node lbtsk x n) ->
  exists nonces, sender_nonces node lbtsk msgs = Some nonces /\ forall x n, x ∈ msgs -> sender_known node lbtsk x n -> passes nonces x = (sn_nonce x <=? n).
Proof.
  intros Hk. unfold sender_nonces.
  destruct (mapM_is_Some_2 (fun x => NewFromString (sn_from x)) msgs) as [addrs Ha].
  { apply Forall_forall. intros x Hx. destruct (Hk x Hx) as (n & a & Ea & _). by exists a. }
  rewrite Ha. apply mapM_Some in Ha.
  destruct (mapM_is_Some_2 (fun addr => pair addr <$> StateGetActor node addr lbtsk) addrs) as [l El].
  { apply Forall_forall. intros a Hin. apply list_elem_of_lookup in Hin as [i Hi]. destruct (Forall2_lookup_r _ _ _ _ _ Ha Hi) as (x & Hx & Hxa).
    destruct (Hk x (list_elem_of_lookup_2 _ _ _ Hx)) as (n & a' & Ea & En). rewrite Hxa in Ea. injection Ea as <-. exists (a, n). unfold compose. by rewrite En. }
  rewrite El. apply mapM_Some in El. eexists. split; [reflexivity|]. intros x n Hx (a & Ea & En). unfold passes. rewrite Ea. cbn.
  assert (list_to_map l !! a = Some n) as ->.
  { apply elem_of_list_to_map_1'.
    - intros y Hy. apply list_elem_of_lookup in Hy as [i Hi]. destruct (Forall2_lookup_r _ _ _ _ _ El Hi) as (b & _ & Hb).
      destruct (StateGetActor node b lbtsk) as [k|] eqn:Ek; [|done]. injection Hb as -> ->. congruence.
    - apply list_elem_of_lookup in Hx as [i Hi]. destruct (Forall2_lookup_l _ _ _ _ _ Ha Hi) as (b & Hb & Hxb). rewrite Ea in Hxb. injection Hxb as <-.
      destruct (Forall2_lookup_l _ _ _ _ _ El Hb) as (p & Hp & Hpe). rewrite En in Hpe. injection Hpe as <-. by eapply list_elem_of_lookup_2. }
  cbn. rewrite Z.gtb_ltb. rewrite Z.leb_antisym. done.
Qed.

Definition owned_by (m : Z) (r : wait_row) : bool :=
  match waiter_machine_id r, executed_tsk_cid r with Some m', _ => m' =? m | None, None => true | None, Some _ => false end.

(** The row after the statement that assigns. *)
Lemma assign_pending_lookup (m : Z) (w : waits) (cid : string) :
  assign_pending m w !! cid = (fun r => if owned_by m r then with_waiter (Some m) r else r) <$> w !! cid.
Proof.
  unfold assign_pending. rewrite lookup_fmap. destruct (w !! cid) as [r|]; [|done]. cbn. f_equal. unfold owned_by.
  destruct r as [[m'|] [t|] ? ? ? ? ? ?]; cbn; try done; (destruct (m' =? m) eqn:E; [apply Z.eqb_eq in E as ->|]; done).
Qed.

Lemma owned_after (m : Z) (r : wait_row) : bool_decide (waiter_machine_id (if owned_by m r then with_waiter (Some m) r else r) = Some m) = owned_by m r.
Proof.
  destruct (owned_by m r) eqn:E; [by apply bool_decide_eq_true_2|]. apply bool_decide_eq_false_2. unfold owned_by in E.
  destruct (waiter_machine_id r) as [m'|]; [|done]. apply Z.eqb_neq in E. congruence.
Qed.

(** The messages that are found for the machine. *)
Lemma assigned_elem (m : Z) (sends : list sent) (w : waits) (x : sent) :
  x ∈ assigned m sends (assign_pending m w) <-> x ∈ sends /\ exists r, w !! sn_cid x = Some r /\ owned_by m r = true.
Proof.
  unfold assigned. rewrite list_elem_of_filter, assign_pending_lookup. destruct (w !! sn_cid x) as [r|]; cbn.
  - rewrite owned_after. naive_solver.
  - naive_solver.
Qed.

(** A message of the machine that the node would look for. *)
Definition ready (node : chain_node) (lbtsk : Tsk) (sends : list sent) (cid : string) : Prop :=
  exists x n, x ∈ sends /\ sn_cid x = cid /\ sender_known node lbtsk x n /\ sn_nonce x <= n.

(** an update records exactly what the chain has executed: when nothing fails, at
    most 10000 messages are waiting and the chain knows their senders, it returns, and
    afterwards each row that had no owner or was the machine's own is recorded with
    the execution the node found [MinConfidence] epochs below the head, if its nonce
    is not above the sender's and there is one, and else is owned by the machine; all
    other rows are as they were. *)
Theorem watch_update_exact (node : chain_node) (order : list sent -> list sent) (m : Z) (head lbtsk : Tsk) (sends : list sent) (w : waits) :
  lookback node head = Some lbtsk -> (forall l, order l ≡ₚ l) -> Z.of_nat (length sends) <= 10000 ->
  (forall x, x ∈ sends -> valid_cid (sn_cid x) = true /\ exists n, sender_known node lbtsk x n) ->
  exists w', watch_update node (mkDbAnswers true true (Some order) (fun _ => true)) m head sends w = (w', false) /\
    forall cid r, w !! cid = Some r -> exists r', w' !! cid = Some r' /\
      (owned_by m r = false -> r' = r) /\
      (owned_by m r = true -> ready node lbtsk sends cid -> r' = from_option exec_row (with_waiter (Some m) r) (found node lbtsk cid)) /\
      (owned_by m r = true -> ~ ready node lbtsk sends cid -> r' = with_waiter (Some m) r).
Proof.
  intros Hl Ho Hlen Hs. unfold watch_update. rewrite Hl. cbn [assign_applied assign_ok order_rows record_applied negb].
  set (rows := order (assigned m sends (assign_pending m w))).
  assert (take (Z.to_nat 10000) rows = rows) as Ht.
  { apply take_ge. unfold rows. rewrite Ho. pose proof (sublist_length _ _ (sublist_filter (fun x => match assign_pending m w !! sn_cid x with Some r => bool_decide (waiter_machine_id r = Some m) | None => false end = true) sends)).
    unfold assigned. lia. }
  assert (forall x, x ∈ rows <-> x ∈ sends /\ exists r, w !! sn_cid x = Some r /\ owned_by m r = true) as Hin
    by (intros x; unfold rows; rewrite Ho; apply assigned_elem).
  rewrite Ht. destruct (sender_nonces_spec node lbtsk rows) as (nonces & -> & Hn); [intros x [Hx _]%Hin; by apply Hs|].
  destruct (check_msgs_spec node lbtsk nonces rows (assign_pending m w)) as (w' & -> & Hw'); [apply Forall_forall; intros x [Hx _]%Hin; by apply Hs|].
  exists w'. split; [done|]. intros cid r Hr. specialize (Hw' cid). rewrite assign_pending_lookup, Hr in Hw'. cbn [fmap option_fmap option_map] in Hw'.
  assert (existsb (fun x => bool_decide (sn_cid x = cid) && passes nonces x) rows = true <-> owned_by m r = true /\ ready node lbtsk sends cid) as Hex.
  { rewrite existsb_exists. split.
    - intros (x & Hx%list_elem_of_In & [Hc%bool_decide_eq_true Hp]%andb_true_iff). destruct (proj1 (Hin x) Hx) as (Hxs & r0 & Hr0 & Hown).
      rewrite Hc, Hr in Hr0. injection Hr0 as <-. split; [done|]. destruct (Hs x Hxs) as (_ & n & Hk). exists x, n. split_and!; try done.
      rewrite (Hn x n Hx Hk) in Hp. by apply Z.leb_le.
    - intros (Hown & x & n & Hx & Hc & Hk & Hle). assert (x ∈ rows) as Hxr by (apply Hin; split; [done|]; exists r; by rewrite Hc).
      exists x. split; [by apply list_elem_of_In|]. rewrite (Hn x n Hxr Hk). apply andb_true_iff. split; [by apply bool_decide_eq_true|by apply Z.leb_le]. }
  destruct (existsb _ rows) eqn:Ee; (eexists; split; [exact Hw'|]); split_and!.
  - intros Hf. destruct (proj1 Hex eq_refl). congruence.
  - intros -> _. done.
  - intros _ Hnr. destruct (proj1 Hex eq_refl). done.
  - by intros ->.
  - intros Ho' Hr'. assert (false = true) by (apply Hex; done). done.
  - by intros -> _.
Qed.

(** C22: what the tables say of a message is true: with any number of watchers that
    take, record, fail and repeat in any order, and machines that are removed, a row
    either says nothing of an execution or says exactly what the node found for that
    message [MinConfidence] epochs below a head some watcher knew, and then has no
    owner; a recorded execution stays recorded; and every update, whatever fails in
    it, is made of such steps. *)
Theorem waits_true (node : chain_node) (w w' : waits) : rtc (waits_step node) ∅ w -> rtc (waits_step node) w w' ->
  (forall cid r, w !! cid = Some r -> (exists m, r = with_waiter m new_wait) \/ exists e, confirmed node cid e /\ r = exec_row e) /\
  (forall cid r e, w !! cid = Some r -> r = exec_row e -> exists e', confirmed node cid e' /\ w' !! cid = Some (exec_row e')) /\
  (forall db m head sends, rtc (waits_step node) w (watch_update node db m head sends w).1).
Proof.
  intros Hr Hr'. assert (forall x, rtc (waits_step node) ∅ x -> waits_ok node x) as Hok.
  { intros x Hx. apply (rtc_invariant (waits_step node) (waits_ok node) (waits_ok_step node) _ _ Hx). apply map_Forall_empty. }
  split_and!.
  - intros cid r Hc. exact (Hok w Hr cid r Hc).
  - intros cid r e Hc ->.
    assert (executed w' cid) as (r' & Hc' & He').
    { apply (rtc_invariant (waits_step node) (fun x => executed x cid) (fun x y Hx => executed_step node x y cid Hx) _ _ Hr'). by exists (exec_row e). }
    destruct (Hok w' ltac:(by etrans) cid r' Hc') as [(m & ->)|(e' & He & ->)]; [done|]. by exists e'.
  - intros. apply watch_update_steps.
Qed.
End Update.

(** ** A message that is executed *)

(** Tip sets are heights; the node has executed one message at epoch 10. *)
Definition ex_node : @chain_node Z := mkNode Some (fun h _ => Some h) (fun _ _ => Some 3)
  (fun lb cid => Some (if bool_decide (cid = "bafy1") && (10 <=? lb) then Some (Some "tsk10", 10, "bafy1", (0, "", 500)) else None))
  (fun _ => Some "{}").

Definition ex_sends : list sent := [mkSent "bafy1" "f1" 2; mkSent "bafy2" "f1" 3; mkSent "bafy3" "f1" 9].

Definition ex_waits : waits :=
  <["bafy3" := with_waiter (Some 7) new_wait]> (<["bafy2" := with_waiter (Some 8) new_wait]> (<["bafy1" := new_wait]> ∅)).

Lemma watch_update_exact_witness :
  exists w', watch_update Some (fun _ => true) ex_node (mkDbAnswers true true (Some id) (fun _ => true)) 7 16 ex_sends ex_waits = (w', false) /\
    w' !! "bafy1" = Some (exec_row (mkExec "tsk10" 10 "bafy1" "{}" 0 "" 500)) /\ w' !! "bafy2" = Some (with_waiter (Some 8) new_wait).
Proof.
  destruct (watch_update_exact Some (fun _ => true) ex_node id 7 16 11 ex_sends ex_waits eq_refl) as (w' & E & Hw').
  - intros l. reflexivity.
  - vm_compute. discriminate.
  - intros x _. split; [reflexivity|]. exists 3, (sn_from x). split; reflexivity.
  - exists w'. split; [exact E|]. split.
    + destruct (Hw' "bafy1" new_wait ltac:(vm_compute; reflexivity)) as (r' & Hr' & _ & Hrec & _). rewrite Hr'. f_equal. rewrite Hrec; [reflexivity|reflexivity|].
      exists (mkSent "bafy1" "f1" 2), 3. split_and!; [left|reflexivity|exists "f1"; split; reflexivity|cbn; lia].
    + destruct (Hw' "bafy2" (with_waiter (Some 8) new_wait) ltac:(vm_compute; reflexivity)) as (r' & Hr' & Hkeep & _). rewrite Hr'. f_equal. by apply Hkeep.
Defined.

Lemma waits_true_witness :
  let w := record_wait "bafy1" (mkExec "tsk10" 10 "bafy1" "{}" 0 "" 500) (assign_pending 7 (<["bafy1" := new_wait]> ∅)) in
  exists e', confirmed ex_node "bafy1" e' /\ machine_deleted 7 w !! "bafy1" = Some (exec_row e').
Proof.
  intros w. assert (confirmed ex_node "bafy1" (mkExec "tsk10" 10 "bafy1" "{}" 0 "" 500)) as Hc by (exists 16, 11; split; reflexivity).
  destruct (waits_true Some (fun _ => true) ex_node w (machine_deleted 7 w)) as (_ & Hk & _).
  - eapply rtc_l; [by apply (ww_insert _ "bafy1")|]. eapply rtc_l; [by apply (ww_assign _ 7)|]. by apply rtc_once, ww_record.
  - apply rtc_once, ww_machine.
  - apply (Hk "bafy1" (exec_row (mkExec "tsk10" 10 "bafy1" "{}" 0 "" 500)) (mkExec "tsk10" 10 "bafy1" "{}" 0 "" 500)); vm_compute; reflexivity.
Defined.

Lemma eth_watch_current_witness :
  let l := mkLoop (Some 5) true false false Waiting (Some 4) in
  at_ l <> Stopped /\ exists l', rtc own_step l l' /\ at_ l' = Waiting /\ token l' = false /\ best l' = best l /\ loaded l' = best l'.
Proof.
  intros l. split; [discriminate|]. apply (eth_watch_current l); [|discriminate|reflexivity].
  eapply rtc_l; [by apply (lp_store _ 4)|]. eapply rtc_l; [by apply lp_send|]. eapply rtc_l; [by apply lp_own, os_receive|].
  eapply rtc_l; [by apply lp_own, os_load|]. eapply rtc_l; [by apply (lp_store _ 5)|]. eapply rtc_l; [by apply lp_send|].
  by apply rtc_once, lp_own, os_finish.
Defined.
