(* ===== verification/EthWatch.v ===== *)
(** * Watching Ethereum transactions ([tasks/message/watch_eth.go], [eth_tx_manager.go], [watch_eth_gc.go])

    The rows of [message_waits_eth], the statements of [HarmonyEthTxManager], [update] of
    the watcher, whose goroutine is in [MsgWatch.v], and the task that removes rows of
    transactions that were confirmed long ago. *)

From stdpp Require Import base gmap sets list strings.
From Stdlib Require Import ZArith Lia.
From S2P Require Import Prelude HarmonyDB MsgWatch.

Inductive tx_state := TxPending | TxConfirmed | TxFailed.

#[export] Instance tx_state_eq_dec : EqDecision tx_state.
Proof. solve_decision. Defined.

Record eth_wait := mkEthWait {
  ew_waiter : option Z; ew_block : option Z; ew_hash : option string; ew_data : option string;
  ew_status : tx_state; ew_receipt : option string; ew_success : option bool
}.

Abbreviation eth_waits := (gmap string eth_wait).

(** [INSERT INTO message_waits_eth (signed_tx_hash, tx_status) VALUES ($1, 'pending')] *)
Definition new_eth_wait : eth_wait := mkEthWait None None None None TxPending None None.

Definition with_owner (m : option Z) (r : eth_wait) : eth_wait :=
  mkEthWait m (ew_block r) (ew_hash r) (ew_data r) (ew_status r) (ew_receipt r) (ew_success r).

Definition AssignPendingToMachine (m : Z) (w : eth_waits) : eth_waits :=
  (fun r => match ew_waiter r, ew_status r with None, TxPending => with_owner (Some m) r | _, _ => r end) <$> w.

Definition eth_machine_deleted (m : Z) (w : eth_waits) : eth_waits :=
  (fun r => if bool_decide (ew_waiter r = Some m) then with_owner None r else r) <$> w.

(** The transactions of the machine, in the order [order] the database finds them. *)
Definition GetPendingForMachine (order : list string -> list string) (m : Z) (w : eth_waits) : list string :=
  take (Z.to_nat 10000) (order ((base.filter (fun p : string * eth_wait => ew_waiter p.2 = Some m /\ ew_status p.2 = TxPending) (map_to_list w)).*1)).

(** A receipt: its block, hash and status, with its JSON if it can be marshalled. *)
Record receipt := mkReceipt { BlockNumber : Z; rc_hash : string; Status : Z; rc_json : option string }.

Definition confirmed_row (block : Z) (hash data rcpt : string) (success : bool) : eth_wait :=
  mkEthWait None (Some block) (Some hash) (Some data) TxConfirmed (Some rcpt) (Some success).

(** It does not look at the owner. *)
Definition UpdateToConfirmed (signedTxHash : string) (row : eth_wait) (w : eth_waits) : eth_waits :=
  match w !! signedTxHash with None => w | Some _ => <[signedTxHash := row]> w end.

Section Watch.
(** The node: [TransactionReceipt] and [TransactionByHash] with its JSON, [None] when
    there is none or the call fails; and [common.HexToHash]. *)
Context (TransactionReceipt : string -> option receipt) (TransactionByHash : string -> option string) (HexToHash : string -> string).

(** What a transaction is recorded with at a head, if it is confirmed there. *)
Definition tx_confirmed (bestBlockNumber : Z) (txHashStr : string) : option eth_wait :=
  let txHash := HexToHash txHashStr in
  match TransactionReceipt txHash with
  | None => None
  | Some rc =>
      if bestBlockNumber - BlockNumber rc <? MinEthConfidence then None
      else
        match TransactionByHash txHash, rc_json rc with
        | Some data, Some json => Some (confirmed_row (i64 (BlockNumber rc)) (rc_hash rc) data json (Status rc =? 1))
        | _, _ => None
        end
  end.

Definition check_tx (bestBlockNumber : Z) (applied : string -> bool) (w : eth_waits) (h : string) : eth_waits :=
  match tx_confirmed bestBlockNumber h with
  | Some row => if applied h then UpdateToConfirmed h row w else w
  | None => w
  end.

(** [MessageWatcherEth.update]: [assign] says whether the statement works and whether it
    took effect, [order] is the order of the rows or an error. *)
Definition eth_update (bestBlockNumber : Z) (assign : bool * bool) (order : option (list string -> list string)) (applied : string -> bool)
    (machineID : Z) (w : eth_waits) : eth_waits :=
  if bestBlockNumber - MinEthConfidence <? 0 then w
  else
    let w := if assign.2 then AssignPendingToMachine machineID w else w in
    if negb assign.1 then w
    else
      match order with
      | None => w
      | Some order => foldl (check_tx bestBlockNumber applied) w (GetPendingForMachine order machineID w)
      end.

(** ** The task that removes old rows *)

Context (EpochsInDay : Z).

Definition messageWaitsEthGCRetention : Z := EpochsInDay * 30.

(** [tx_status = 'confirmed' AND confirmed_block_number < $1] *)
Definition old_row (cutoffBlock : Z) (r : eth_wait) : bool :=
  bool_decide (ew_status r = TxConfirmed) && match ew_block r with Some b => b <? cutoffBlock | None => false end.

(** [EthMessageWaitsGCTask.Do]: done, with the table. *)
Definition eth_gc (head : option Z) (stmt_ok : bool) (w : eth_waits) : result eth_waits () :=
  match head with
  | None => Err ()
  | Some head =>
      let cutoffBlock := i64 (i64 head - messageWaitsEthGCRetention) in
      if cutoffBlock <=? 0 then Ok w
      else if negb stmt_ok then Err ()
      else Ok (base.filter (fun p : string * eth_wait => old_row cutoffBlock p.2 = false) w)
  end.

(** ** All watchers on the table *)

Inductive eth_waits_step : eth_waits -> eth_waits -> Prop :=
| ew_insert h w : w !! h = None -> eth_waits_step w (<[h := new_eth_wait]> w)
| ew_assign m w : eth_waits_step w (AssignPendingToMachine m w)
| ew_confirm best h row w : tx_confirmed best h = Some row -> eth_waits_step w (UpdateToConfirmed h row w)
| ew_machine m w : eth_waits_step w (eth_machine_deleted m w)
| ew_gc head ok w w' : eth_gc head ok w = Ok w' -> eth_waits_step w w'.

Definition eth_wait_ok (h : string) (r : eth_wait) : Prop :=
  (exists m, r = with_owner m new_eth_wait) \/ exists best, tx_confirmed best h = Some r.

Lemma tx_confirmed_shape (best : Z) (h : string) (r : eth_wait) : tx_confirmed best h = Some r ->
  ew_waiter r = None /\ ew_status r = TxConfirmed /\ exists rc, TransactionReceipt (HexToHash h) = Some rc /\
    ew_block r = Some (i64 (BlockNumber rc)) /\ BlockNumber rc + MinEthConfidence <= best /\ ew_success r = Some (Status rc =? 1).
Proof.
  unfold tx_confirmed. destruct (TransactionReceipt (HexToHash h)) as [rc|]; [|done]. destruct (_ <? _) eqn:E; [done|]. apply Z.ltb_ge in E.
  destruct (TransactionByHash _) as [d|]; [|done]. destruct (rc_json rc) as [j|]; [|done]. intros [= <-]. split_and!; try done.
  exists rc. split_and!; try done. lia.
Qed.

Lemma eth_gc_lookup (head : option Z) (ok : bool) (w w' : eth_waits) (h : string) (r : eth_wait) : eth_gc head ok w = Ok w' ->
  w' !! h = Some r -> w !! h = Some r.
Proof.
  unfold eth_gc. destruct head as [hd|]; [|done]. destruct (_ <=? _); [by intros [= <-]|]. destruct ok; [|done]. cbn [negb]. intros [= <-].
  rewrite map_lookup_filter_Some. tauto.
Qed.

Lemma eth_waits_ok_step (w w' : eth_waits) : map_Forall eth_wait_ok w -> eth_waits_step w w' -> map_Forall eth_wait_ok w'.
Proof.
  intros I Hs. destruct Hs as [h w Hn|m w|best h row w Hc|m w|head ok w w' E].
  - apply map_Forall_insert_2; [|done]. left. by exists None.
  - intros h r. unfold AssignPendingToMachine. rewrite lookup_fmap_Some. intros (r0 & <- & Hr). destruct (I h r0 Hr) as [(m0 & ->)|(best & Hc)].
    + left. destruct m0 as [m0|]; [by exists (Some m0)|by exists (Some m)].
    + right. exists best. destruct (tx_confirmed_shape _ _ _ Hc) as (-> & -> & _). done.
  - unfold UpdateToConfirmed. destruct (w !! h) as [r|]; [|done]. apply map_Forall_insert_2; [|done]. right. by exists best.
  - intros h r. unfold eth_machine_deleted. rewrite lookup_fmap_Some. intros (r0 & <- & Hr). case_bool_decide as Hw; [|by apply I].
    destruct (I h r0 Hr) as [(m0 & ->)|(best & Hc)]; [left; by exists None|]. destruct (tx_confirmed_shape _ _ _ Hc) as (He & _). congruence.
  - intros h r Hr. apply (I h r). by eapply eth_gc_lookup.
Qed.

Lemma check_txs_steps (best : Z) (applied : string -> bool) (l : list string) (w : eth_waits) : rtc eth_waits_step w (foldl (check_tx best applied) w l).
Proof.
  revert w. induction l as [|h l IH]; intros w; [done|]. cbn [foldl]. etrans; [|apply IH]. unfold check_tx.
  destruct (tx_confirmed best h) as [row|] eqn:E; [|done]. destruct (applied h); [by eapply rtc_once, ew_confirm|done].
Qed.

Lemma eth_update_steps (best : Z) (assign : bool * bool) (order : option (list string -> list string)) (applied : string -> bool) (m : Z) (w : eth_waits) :
  rtc eth_waits_step w (eth_update best assign order applied m w).
Proof.
  unfold eth_update. destruct (_ <? 0); [done|].
  assert (rtc eth_waits_step w (if assign.2 then AssignPendingToMachine m w else w)) as Ha by (destruct assign.2; [apply rtc_once, ew_assign|done]).
  destruct assign.1; cbn [negb]; [|done]. destruct order as [order|]; [|done]. etrans; [exact Ha|]. apply check_txs_steps.
Qed.

(** What the table says of a transaction is true, in every interleaving of watchers,
    removed machines and clean-ups: a row says nothing, or what a receipt that has its
    confirmations says, without an owner; only the latter are ever removed; and an
    update is made of such steps. *)
Theorem eth_waits_true (w : eth_waits) : rtc eth_waits_step ∅ w ->
  (forall h r, w !! h = Some r -> (exists m, r = with_owner m new_eth_wait) \/
     ew_waiter r = None /\ ew_status r = TxConfirmed /\ exists best rc, TransactionReceipt (HexToHash h) = Some rc /\
       ew_block r = Some (i64 (BlockNumber rc)) /\ BlockNumber rc + MinEthConfidence <= best /\ ew_success r = Some (Status rc =? 1)) /\
  (forall w' h r, eth_waits_step w w' -> w !! h = Some r -> w' !! h = None ->
     ew_status r = TxConfirmed /\ exists head b, ew_block r = Some b /\ b < i64 (i64 head - messageWaitsEthGCRetention)) /\
  (forall best assign order applied m, rtc eth_waits_step w (eth_update best assign order applied m w)).
Proof.
  intros Hr. assert (map_Forall eth_wait_ok w) as I
    by (apply (rtc_invariant eth_waits_step _ eth_waits_ok_step _ _ Hr); apply map_Forall_empty). split_and!.
  - intros h r Hh. destruct (I h r Hh) as [?|(best & Hc)]; [by left|]. right. destruct (tx_confirmed_shape _ _ _ Hc) as (? & ? & rc & ?). split_and!; try done. by exists best, rc.
  - intros w' h r Hs Hh Hn. destruct Hs as [c w ?|m w|best c row w ?|m w|head ok w w' E].
    + destruct (decide (c = h)) as [->|?]; [by rewrite lookup_insert_eq in Hn|]. rewrite lookup_insert_ne in Hn by done. congruence.
    + unfold AssignPendingToMachine in Hn. by rewrite lookup_fmap, Hh in Hn.
    + unfold UpdateToConfirmed in Hn. destruct (w !! c) as [x|] eqn:Ex; [|congruence]. destruct (decide (c = h)) as [->|?]; [by rewrite lookup_insert_eq in Hn|].
      rewrite lookup_insert_ne in Hn by done. congruence.
    + unfold eth_machine_deleted in Hn. by rewrite lookup_fmap, Hh in Hn.
    + unfold eth_gc in E. destruct head as [hd|]; [|done]. destruct (_ <=? _); [injection E as <-; congruence|]. destruct ok; [|done]. cbn [negb] in E. injection E as <-.
      apply map_lookup_filter_None in Hn as [Hn|Hn]; [congruence|]. specialize (Hn r Hh). cbn in Hn. apply not_false_is_true in Hn.
      unfold old_row in Hn. apply andb_true_iff in Hn as [Hst%bool_decide_eq_true Hb]. destruct (ew_block r) as [b|] eqn:Eb; [|done]. apply Z.ltb_lt in Hb.
      split; [done|]. by exists hd, b.
  - intros. apply eth_update_steps.
Qed.
End Watch.
