(* ===== verification/CachedReader.v ===== *)
(** * Shared piece readers ([lib/cachedreader/cachedreader.go], [cache.go])

    Readers of pieces are expensive to open, so all users of a piece share one: it is
    kept in a cache, counted, and closed when the cache has dropped it and the last
    user is done.  The cache keeps a piece under the keys of its content id: one for
    an id of version 1, two for an id of version 2.

    Entries are objects on a heap; the goroutines of the users and the callbacks of
    the cache interleave at the critical sections of [pieceReaderCacheMu].  The cache
    is a library: it may drop any key at any time, and then calls back once for it. *)

From stdpp Require Import base gmap sets list strings.
From Stdlib Require Import ZArith Lia.
From S2P Require Import Prelude.

(** ** Keys *)

(** A content id: of a piece in version 1, in version 2 (with the version 1 form), or
    something else. *)
Inductive piece_cid := PieceCidV1 (s : string) | PieceCidV2 (s v1 : string) | NoPieceCid (s : string).

Definition getCacheKeys (c : piece_cid) : list string :=
  match c with
  | PieceCidV2 s v1 => [s; v1]
  | PieceCidV1 s => [s]
  | NoPieceCid _ => []
  end.

(** The library: a map from keys to the addresses of entries. *)
Abbreviation keys := (gmap string nat).

Fixpoint cache_Get (ks : list string) (m : keys) : option nat :=
  match ks with
  | [] => None
  | k :: ks' => match m !! k with Some e => Some e | None => cache_Get ks' m end
  end.

Definition cache_Set (ks : list string) (e : nat) (m : keys) : keys := foldl (fun m k => <[k := e]> m) m ks.

(** Dropping a key: the map, and the entry to call back for. *)
Definition cache_drop (k : string) (m : keys) : keys * list nat := (delete k m, match m !! k with Some e => [e] | None => [] end).

Fixpoint cache_Remove (ks : list string) (m : keys) : keys * list nat :=
  match ks with
  | [] => (m, [])
  | k :: ks' => let '(m1, l1) := cache_drop k m in let '(m2, l2) := cache_Remove ks' m1 in (m2, l1 ++ l2)
  end.

(** ** Entries *)

(** [cachedSectionReader]: [opened] is whether [reader] and [cancel] are set, [closes]
    counts the calls of [reader.Close]. *)
Record cachedSectionReader := mkEntry {
  pieceCid : piece_cid; refs : Z; expired : bool; ready : bool; err : bool; opened : bool; closes : nat }.

(** [cancel] and [reader.Close]: [None] is the panic of a nil [cancel]. *)
Definition close_reader (r : cachedSectionReader) : option cachedSectionReader :=
  if opened r then Some (mkEntry (pieceCid r) (refs r) (expired r) (ready r) (err r) (opened r) (S (closes r))) else None.

Definition with_refs (n : Z) (r : cachedSectionReader) : cachedSectionReader :=
  mkEntry (pieceCid r) n (expired r) (ready r) (err r) (opened r) (closes r).

(** [cachedSectionReader.Close] *)
Definition Close (r : cachedSectionReader) : option cachedSectionReader :=
  let r := with_refs (refs r - 1) r in
  if (refs r =? 0) && expired r then close_reader r else Some r.

(** [expireCallback] *)
Definition expireCallback (r : cachedSectionReader) : option cachedSectionReader :=
  let r := mkEntry (pieceCid r) (refs r) true (ready r) (err r) (opened r) (closes r) in
  if refs r <=? 0 then close_reader r else Some r.

(** ** [GetSharedPieceReader] and its users *)

(** A goroutine: it resolves the reader of a new entry, waits for one, uses one it was
    given, or is done. *)
Inductive user := Creating (e : nat) | WaitReady (e : nat) | Using (e : nat) | Gone.

Record shared := mkShared {
  cached : keys;                            (* pieceReaderCache *)
  heap : gmap nat cachedSectionReader;
  callbacks : list nat;                     (* callbacks that were not run yet *)
  users : list user;
  panicked : bool
}.

(** A call after the cache of errors has nothing: a hit counts the user, a miss makes
    an entry at a new address. *)
Definition get_shared (c : piece_cid) (fresh : nat) (s : shared) : option shared :=
  match cache_Get (getCacheKeys c) (cached s) with
  | Some e =>
      match heap s !! e with
      | Some r => Some (mkShared (cached s) (<[e := with_refs (refs r + 1) r]> (heap s)) (callbacks s) (users s ++ [WaitReady e]) (panicked s))
      | None => None
      end
  | None =>
      match heap s !! fresh with
      | None => Some (mkShared (cache_Set (getCacheKeys c) fresh (cached s)) (<[fresh := mkEntry c 1 false false false false 0]> (heap s))
                        (callbacks s) (users s ++ [Creating fresh]) (panicked s))
      | Some _ => None
      end
  end.

(** The reader was resolved: its fields are set and [ready] is closed. *)
Definition resolved (r : cachedSectionReader) : cachedSectionReader :=
  mkEntry (pieceCid r) (refs r) (expired r) true false true (closes r).

(** Or not: the keys are removed, the error is set and [ready] is closed; the count
    stays. *)
Definition failed (r : cachedSectionReader) : cachedSectionReader :=
  mkEntry (pieceCid r) (refs r) (expired r) true true (opened r) (closes r).

(** The result of [Close] or of a callback on an entry; a panic ends the process. *)
Definition put (e : nat) (o : option cachedSectionReader) (s : shared) : shared :=
  match o with
  | Some r => mkShared (cached s) (<[e := r]> (heap s)) (callbacks s) (users s) (panicked s)
  | None => mkShared (cached s) (heap s) (callbacks s) (users s) true
  end.

Definition set_user (i : nat) (u : user) (s : shared) : shared :=
  mkShared (cached s) (heap s) (callbacks s) (<[i := u]> (users s)) (panicked s).

(** [allowed] are the content ids that are asked for. *)
Inductive shared_step (allowed : piece_cid -> Prop) : shared -> shared -> Prop :=
| sh_get c fresh s s' : allowed c -> get_shared c fresh s = Some s' -> shared_step allowed s s'
| sh_resolved i e r s : users s !! i = Some (Creating e) -> heap s !! e = Some r ->
    shared_step allowed s (set_user i (Using e) (put e (Some (resolved r)) s))
| sh_failed i e r s m l : users s !! i = Some (Creating e) -> heap s !! e = Some r ->
    cache_Remove (getCacheKeys (pieceCid r)) (cached s) = (m, l) ->
    shared_step allowed s (set_user i Gone (mkShared m (<[e := failed r]> (heap s)) (callbacks s ++ l) (users s) (panicked s)))
| sh_ready i e r s : users s !! i = Some (WaitReady e) -> heap s !! e = Some r -> ready r = true -> err r = false ->
    shared_step allowed s (set_user i (Using e) s)
| sh_error i e r s : users s !! i = Some (WaitReady e) -> heap s !! e = Some r -> ready r = true -> err r = true ->
    shared_step allowed s (set_user i Gone (put e (Close r) s))
| sh_cancelled i e r s : users s !! i = Some (WaitReady e) -> heap s !! e = Some r ->
    shared_step allowed s (set_user i Gone (put e (Close r) s))
| sh_close i e r s : users s !! i = Some (Using e) -> heap s !! e = Some r ->
    shared_step allowed s (set_user i Gone (put e (Close r) s))
| sh_drop k s : shared_step allowed s (mkShared (cache_drop k (cached s)).1 (heap s) (callbacks s ++ (cache_drop k (cached s)).2) (users s) (panicked s))
| sh_callback l1 e l2 r s : callbacks s = l1 ++ e :: l2 -> heap s !! e = Some r ->
    shared_step allowed s (put e (expireCallback r) (mkShared (cached s) (heap s) (l1 ++ l2) (users s) (panicked s))).

Definition no_readers : shared := mkShared ∅ ∅ [] [] false.

(** ** The invariant *)

Definition ind (b : bool) : Z := if b then 1 else 0.

Lemma Zsum_insert {A} (f : A -> Z) (l : list A) (i : nat) (x y : A) : l !! i = Some x -> Zsum f (<[i := y]> l) = Zsum f l - f x + f y.
Proof.
  intros Hi. rewrite insert_take_drop by (by eapply lookup_lt_Some). rewrite <- (take_drop_middle l i x Hi) at 3.
  rewrite !Zsum_app, !Zsum_cons. lia.
Qed.

Definition on (u : user) : option nat := match u with Creating e | WaitReady e | Using e => Some e | Gone => None end.

#[export] Instance user_eq_dec : EqDecision user.
Proof. solve_decision. Defined.

Definition count (e : nat) (l : list user) : Z := Zsum (fun u => ind (bool_decide (on u = Some e))) l.
Definition creators (e : nat) (l : list user) : Z := Zsum (fun u => ind (bool_decide (u = Creating e))) l.
Definition pending (e : nat) (l : list nat) : Z := Zsum (fun x => ind (bool_decide (x = e))) l.

(** The one key of an entry. *)
Definition key_of (r : cachedSectionReader) : string := match pieceCid r with PieceCidV1 k => k | _ => "" end.

(** An entry is in the cache, or its callback will come, or came. *)
Definition located (e : nat) (r : cachedSectionReader) (s : shared) : Z :=
  ind (bool_decide (cached s !! key_of r = Some e)) + pending e (callbacks s).

(** An entry with [n] users, [cr] of which create it. *)
Record entry_ok (n cr loc : Z) (r : cachedSectionReader) : Prop := {
  en_cid : exists k, pieceCid r = PieceCidV1 k;
  en_refs : refs r = n + ind (err r);
  en_loc : loc + ind (expired r) = 1;
  en_new : cr = ind (negb (ready r));
  en_unready : ready r = false -> err r = false;
  en_open : ready r = true -> err r = false -> opened r = true;
  en_closes : closes r = if expired r && (refs r =? 0) then 1%nat else 0%nat
}.

Record shared_ok (s : shared) : Prop := {
  sk_panic : panicked s = false;
  sk_heap : forall e r, heap s !! e = Some r -> entry_ok (count e (users s)) (creators e (users s)) (located e r s) r;
  sk_users : forall u e, u ∈ users s -> on u = Some e -> is_Some (heap s !! e);
  sk_cached : forall k e, cached s !! k = Some e -> exists r, heap s !! e = Some r /\ pieceCid r = PieceCidV1 k;
  sk_callbacks : forall e, e ∈ callbacks s -> is_Some (heap s !! e)
}.

Lemma ind_range (b : bool) : 0 <= ind b <= 1.
Proof. destruct b; cbn; lia. Qed.

Lemma count_nonneg (e : nat) (l : list user) : 0 <= count e l.
Proof. apply Zsum_nonneg. intros u _. apply ind_range. Qed.

Lemma pending_nonneg (e : nat) (l : list nat) : 0 <= pending e l.
Proof. apply Zsum_nonneg. intros u _. apply ind_range. Qed.

(** The creators are users. *)
Lemma creators_le (e : nat) (l : list user) : 0 <= creators e l <= count e l.
Proof.
  split; [apply Zsum_nonneg; intros u _; apply ind_range|]. unfold creators, count. induction l as [|u l IH]; [done|]. rewrite !Zsum_cons.
  enough (ind (bool_decide (u = Creating e)) <= ind (bool_decide (on u = Some e))) by lia.
  destruct (decide (u = Creating e)) as [->|Hu]; [by rewrite !bool_decide_eq_true_2|]. rewrite bool_decide_eq_false_2 by done. apply ind_range.
Qed.

(** A user that does not create the entry is one more than its creators. *)
Lemma count_strict (e : nat) (l : list user) (i : nat) (u : user) : l !! i = Some u -> on u = Some e -> u <> Creating e -> creators e l + 1 <= count e l.
Proof.
  intros Hi Ho Hu. pose proof (creators_le e (<[i := Gone]> l)) as H. unfold creators, count in *. rewrite !(Zsum_insert _ _ _ _ _ Hi) in H.
  rewrite (bool_decide_eq_false_2 (u = Creating e)), (bool_decide_eq_true_2 (on u = Some e)) in H by done.
  rewrite (bool_decide_eq_false_2 (Gone = Creating e)), (bool_decide_eq_false_2 (on Gone = Some e)) in H by done. cbn [ind] in H. lia.
Qed.

Lemma count_none (e : nat) (l : list user) : (forall u, u ∈ l -> on u <> Some e) -> count e l = 0 /\ creators e l = 0.
Proof.
  intros H. assert (count e l = 0) as Hc.
  { unfold count. rewrite (Zsum_ext _ (fun _ => 0)); [clear; induction l; [done|]; by rewrite Zsum_cons, IHl|].
    intros u Hu. by rewrite bool_decide_eq_false_2 by auto. }
  pose proof (creators_le e l). lia.
Qed.

Lemma pending_none (e : nat) (l : list nat) : e ∉ l -> pending e l = 0.
Proof.
  intros H. unfold pending. rewrite (Zsum_ext _ (fun _ => 0)); [clear; induction l; [done|]; by rewrite Zsum_cons, IHl|].
  intros x Hx. rewrite bool_decide_eq_false_2; [done|]. by intros ->.
Qed.

(** A user that comes and a user that moves on. *)
Lemma count_move (e : nat) (l : list user) (i : nat) (u u' : user) : l !! i = Some u ->
  count e (<[i := u']> l) = count e l - ind (bool_decide (on u = Some e)) + ind (bool_decide (on u' = Some e)) /\
  creators e (<[i := u']> l) = creators e l - ind (bool_decide (u = Creating e)) + ind (bool_decide (u' = Creating e)).
Proof. intros Hi. unfold count, creators. by rewrite !(Zsum_insert _ _ _ _ _ Hi). Qed.

(** The other entries are as they were. *)
Lemma count_other (e e' : nat) (l : list user) (i : nat) (u u' : user) : l !! i = Some u -> on u = Some e -> on u' = Some e \/ on u' = None -> e' <> e ->
  count e' (<[i := u']> l) = count e' l /\ creators e' (<[i := u']> l) = creators e' l.
Proof.
  intros Hi Ho Ho' Hne. destruct (count_move e' l i u u' Hi) as [-> ->].
  rewrite (bool_decide_eq_false_2 (on u = Some e')), (bool_decide_eq_false_2 (on u' = Some e')) by (destruct Ho'; congruence).
  rewrite (bool_decide_eq_false_2 (u = Creating e')), (bool_decide_eq_false_2 (u' = Creating e')); [cbn; lia|..]; intros ->; cbn in *; destruct Ho'; congruence.
Qed.

(** ** Steps keep the invariant *)

(** A step of the user [i] of the entry [e]. *)
Lemma user_step_ok (s : shared) (i e : nat) (u u' : user) (r r' : cachedSectionReader) :
  shared_ok s -> users s !! i = Some u -> on u = Some e -> on u' = Some e \/ on u' = None -> heap s !! e = Some r -> pieceCid r' = pieceCid r ->
  entry_ok (count e (<[i := u']> (users s))) (creators e (<[i := u']> (users s))) (located e r s) r' ->
  shared_ok (set_user i u' (put e (Some r') s)).
Proof.
  intros I Hi Ho Ho' Hr Hc Hok. assert (key_of r' = key_of r) as Hk by (unfold key_of; by rewrite Hc). constructor; cbn.
  - by apply sk_panic.
  - intros x y. destruct (decide (x = e)) as [->|Hx].
    + rewrite lookup_insert_eq. intros [= <-]. unfold located in *. cbn. by rewrite Hk.
    + rewrite lookup_insert_ne by done. intros Hy. destruct (count_other e x (users s) i u u' Hi Ho Ho' Hx) as [-> ->]. by apply (sk_heap _ I).
  - intros v x Hv Hx. destruct (decide (x = e)) as [->|Hxe]; [rewrite lookup_insert_eq; by eexists|]. rewrite lookup_insert_ne by done.
    apply list_elem_of_lookup in Hv as [j Hj]. destruct (decide (j = i)) as [->|Hji].
    + rewrite list_lookup_insert_eq in Hj by (by eapply lookup_lt_Some). injection Hj as <-. destruct Ho'; congruence.
    + rewrite list_lookup_insert_ne in Hj by done. eapply (sk_users _ I); [by eapply list_elem_of_lookup_2|done].
  - intros k x Hx. destruct (sk_cached _ I k x Hx) as (y & Hy & Hyc). destruct (decide (x = e)) as [->|Hxe].
    + exists r'. rewrite lookup_insert_eq. split; [done|]. congruence.
    + exists y. by rewrite lookup_insert_ne.
  - intros x Hx. destruct (decide (x = e)) as [->|Hxe]; [rewrite lookup_insert_eq; by eexists|]. rewrite lookup_insert_ne by done. by apply (sk_callbacks _ I).
Qed.

(** Dropping a key moves its entry to the callbacks. *)
Lemma drop_located (s : shared) (k : string) (e : nat) (r : cachedSectionReader) : shared_ok s -> heap s !! e = Some r ->
  located e r (mkShared (cache_drop k (cached s)).1 (heap s) (callbacks s ++ (cache_drop k (cached s)).2) (users s) (panicked s)) = located e r s.
Proof.
  intros I Hr. unfold located, cache_drop, pending. cbn [cached callbacks fst snd]. rewrite Zsum_app. destruct (decide (key_of r = k)) as [->|Hk].
  - rewrite lookup_delete_eq. rewrite (bool_decide_eq_false_2 (None = Some e)) by done. destruct (cached s !! k) as [x|] eqn:Ex; rewrite ?Zsum_cons, Zsum_nil.
    + destruct (decide (x = e)) as [->|Hx]; [rewrite !bool_decide_eq_true_2 by done|rewrite !bool_decide_eq_false_2 by congruence]; cbn [ind]; lia.
    + rewrite (bool_decide_eq_false_2 (None = Some e)) by done. cbn [ind]. lia.
  - rewrite lookup_delete_ne by done. destruct (cached s !! k) as [x|] eqn:Ex; rewrite ?Zsum_cons, Zsum_nil; [|lia].
    destruct (decide (x = e)) as [->|Hx]; [|rewrite (bool_decide_eq_false_2 (x = e)) by done; cbn [ind]; lia]. exfalso.
    destruct (sk_cached _ I k e Ex) as (y & Hy & Hyc). rewrite Hr in Hy. injection Hy as <-. apply Hk. unfold key_of. by rewrite Hyc.
Qed.

Lemma drop_ok (s : shared) (k : string) : shared_ok s ->
  shared_ok (mkShared (cache_drop k (cached s)).1 (heap s) (callbacks s ++ (cache_drop k (cached s)).2) (users s) (panicked s)).
Proof.
  intros I. constructor; cbn -[cache_drop].
  - by apply sk_panic.
  - intros e r Hr. rewrite drop_located by done. by apply (sk_heap _ I).
  - by apply sk_users.
  - intros k' e. cbn. intros He. apply (sk_cached _ I). by apply lookup_delete_Some in He as [_ ?].
  - intros e He. apply elem_of_app in He as [He|He]; [by apply (sk_callbacks _ I)|]. cbn in He. destruct (cached s !! k) as [x|] eqn:Ex; [|by apply not_elem_of_nil in He].
    apply list_elem_of_singleton in He as ->. destruct (sk_cached _ I k x Ex) as (y & Hy & _). by eexists.
Qed.

(** The last user of an entry that was dropped closes it. *)
Lemma Close_ok (s : shared) (i e : nat) (u : user) (r : cachedSectionReader) : shared_ok s -> users s !! i = Some u -> on u = Some e -> u <> Creating e ->
  heap s !! e = Some r -> shared_ok (set_user i Gone (put e (Close r) s)).
Proof.
  intros I Hi Ho Hu Hr. pose proof (sk_heap _ I _ _ Hr) as H. destruct H as [Hc Hn Hl Hnew Hun Hop Hcl].
  destruct (count_move e (users s) i u Gone Hi) as [En Ec].
  rewrite (bool_decide_eq_true_2 (on u = Some e)), (bool_decide_eq_false_2 (on Gone = Some e)) in En by done.
  rewrite (bool_decide_eq_false_2 (u = Creating e)), (bool_decide_eq_false_2 (Gone = Creating e)) in Ec by done. cbn [ind] in En, Ec.
  pose proof (count_strict e (users s) i u Hi Ho Hu) as Hs. pose proof (creators_le e (users s)) as Hcr. pose proof (ind_range (err r)) as Her.
  unfold Close. cbn [refs expired with_refs]. destruct ((refs r - 1 =? 0) && expired r) eqn:E.
  - apply andb_true_iff in E as [E1 E2]. apply Z.eqb_eq in E1. unfold close_reader. cbn [opened with_refs].
    assert (err r = false /\ ready r = true) as [Hr1 Hr2] by (destruct (err r), (ready r); cbn in *; (split; [done || lia|done || lia])).
    rewrite (Hop Hr2 Hr1). apply (user_step_ok s i e u Gone r); auto. rewrite En, Ec. constructor; cbn [pieceCid refs expired ready err opened closes with_refs]; auto; try lia.
    + rewrite Hcl, E2. rewrite (proj2 (Z.eqb_neq (refs r) 0)), (proj2 (Z.eqb_eq (refs r - 1) 0)) by lia. done.
  - apply (user_step_ok s i e u Gone r); auto. rewrite En, Ec. constructor; cbn [pieceCid refs expired ready err opened closes with_refs]; auto; try lia.
    rewrite Hcl. rewrite (proj2 (Z.eqb_neq (refs r) 0)) by lia. rewrite andb_false_r. by rewrite andb_comm, E.
Qed.

Lemma callback_ok (s : shared) (l1 l2 : list nat) (e : nat) (r : cachedSectionReader) : shared_ok s -> callbacks s = l1 ++ e :: l2 -> heap s !! e = Some r ->
  shared_ok (put e (expireCallback r) (mkShared (cached s) (heap s) (l1 ++ l2) (users s) (panicked s))).
Proof.
  intros I Hcb Hr. pose proof (sk_heap _ I _ _ Hr) as H. destruct H as [Hc Hn Hl Hnew Hun Hop Hcl].
  assert (forall x, pending x (callbacks s) = pending x (l1 ++ l2) + ind (bool_decide (e = x))) as Hp
    by (intros x; rewrite Hcb; unfold pending; rewrite !Zsum_app, Zsum_cons; lia).
  pose proof (count_nonneg e (users s)) as Hcn. pose proof (pending_nonneg e (l1 ++ l2)) as Hpn. pose proof (ind_range (err r)) as Her.
  unfold located in Hl. rewrite Hp, (bool_decide_eq_true_2 (e = e)) in Hl by done. cbn [ind] in Hl.
  pose proof (ind_range (bool_decide (cached s !! key_of r = Some e))). assert (expired r = false) as Hex by (destruct (expired r); cbn in Hl; [lia|done]).
  assert (forall r', pieceCid r' = pieceCid r -> expired r' = true -> entry_ok (count e (users s)) (creators e (users s)) 0 r' ->
    shared_ok (put e (Some r') (mkShared (cached s) (heap s) (l1 ++ l2) (users s) (panicked s)))) as Hput.
  { intros r' Hc' Hx' Hok. assert (key_of r' = key_of r) as Hk by (unfold key_of; by rewrite Hc'). constructor; cbn.
    - by apply sk_panic.
    - intros x y. destruct (decide (x = e)) as [->|Hx].
      + rewrite lookup_insert_eq. intros [= <-]. unfold located. cbn. rewrite Hk. rewrite Hex in Hl. cbn in Hl.
        replace (ind (bool_decide (cached s !! key_of r = Some e)) + pending e (l1 ++ l2)) with 0 by lia. done.
      + rewrite lookup_insert_ne by done. intros Hy. pose proof (sk_heap _ I _ _ Hy) as Hyo. unfold located in *. cbn. rewrite (Hp x), (bool_decide_eq_false_2 (e = x)) in Hyo by done.
        cbn [ind] in Hyo. by rewrite Z.add_0_r in Hyo.
    - intros v x Hv Hx. destruct (decide (x = e)) as [->|Hxe]; [rewrite lookup_insert_eq; by eexists|]. rewrite lookup_insert_ne by done. by eapply (sk_users _ I).
    - intros k x Hx. destruct (sk_cached _ I k x Hx) as (y & Hy & Hyc). destruct (decide (x = e)) as [->|Hxe].
      + exists r'. rewrite lookup_insert_eq. split; [done|]. congruence.
      + exists y. by rewrite lookup_insert_ne.
    - intros x Hx. destruct (decide (x = e)) as [->|Hxe]; [rewrite lookup_insert_eq; by eexists|]. rewrite lookup_insert_ne by done.
      apply (sk_callbacks _ I). rewrite Hcb. apply elem_of_app in Hx as [?|?]; apply elem_of_app; [by left|right; by right]. }
  unfold expireCallback. cbn [refs]. destruct (refs r <=? 0) eqn:E; [apply Z.leb_le in E|apply Z.leb_gt in E].
  - pose proof (creators_le e (users s)) as Hcr. unfold close_reader. cbn [opened].
    assert (err r = false /\ ready r = true) as [Hr1 Hr2] by (destruct (err r), (ready r); cbn in *; (split; [done || lia|done || lia])).
    rewrite (Hop Hr2 Hr1). apply Hput; [done|done|]. constructor; cbn; auto. rewrite Hcl, Hex. cbn. rewrite (proj2 (Z.eqb_eq (refs r) 0)) by (rewrite Hr1 in Hn; cbn in Hn; lia). done.
  - apply Hput; [done|done|]. constructor; cbn; auto. rewrite Hcl, Hex. cbn. by rewrite (proj2 (Z.eqb_neq (refs r) 0)) by lia.
Qed.

Lemma count_snoc (e : nat) (l : list user) (u : user) :
  count e (l ++ [u]) = count e l + ind (bool_decide (on u = Some e)) /\ creators e (l ++ [u]) = creators e l + ind (bool_decide (u = Creating e)).
Proof. unfold count, creators. rewrite !Zsum_app, !Zsum_cons, !Zsum_nil. lia. Qed.

(** Only ids of version 1 are asked for. *)
Definition v1_only (c : piece_cid) : Prop := exists k, c = PieceCidV1 k.

Lemma hit_ok (k : string) (e : nat) (r : cachedSectionReader) (s : shared) : shared_ok s -> cached s !! k = Some e -> heap s !! e = Some r ->
  shared_ok (mkShared (cached s) (<[e := with_refs (refs r + 1) r]> (heap s)) (callbacks s) (users s ++ [WaitReady e]) (panicked s)).
Proof.
  intros I Hk Hr. constructor; cbn.
  - by apply sk_panic.
  - intros x y. destruct (count_snoc x (users s) (WaitReady e)) as [-> ->]. rewrite (bool_decide_eq_false_2 (WaitReady e = Creating x)) by done.
    destruct (decide (x = e)) as [->|Hx].
    + rewrite lookup_insert_eq. intros [= <-]. destruct (sk_heap _ I _ _ Hr) as [Hc Hn Hl Hnew Hun Hop Hcl]. rewrite (bool_decide_eq_true_2 (on (WaitReady e) = Some e)) by done.
      destruct (sk_cached _ I k e Hk) as (y & Hy & Hyc). rewrite Hr in Hy. injection Hy as <-.
      assert (expired r = false) as Hex.
      { unfold located in Hl. unfold key_of in Hl. rewrite Hyc, bool_decide_eq_true_2 in Hl by done. pose proof (pending_nonneg e (callbacks s)). destruct (expired r); cbn in Hl; [lia|done]. }
      constructor; cbn [pieceCid refs expired ready err opened closes with_refs ind]; auto; try lia. by rewrite Hcl, Hex.
    + rewrite lookup_insert_ne by done. intros Hy. rewrite (bool_decide_eq_false_2 (on (WaitReady e) = Some x)) by (cbn; congruence). cbn [ind]. rewrite !Z.add_0_r.
      by apply (sk_heap _ I).
  - intros u x Hu Hx. destruct (decide (x = e)) as [->|Hxe]; [rewrite lookup_insert_eq; by eexists|]. rewrite lookup_insert_ne by done.
    apply elem_of_app in Hu as [Hu|Hu]; [by eapply (sk_users _ I)|]. apply list_elem_of_singleton in Hu as ->. cbn in Hx. congruence.
  - intros k' x Hx. destruct (sk_cached _ I k' x Hx) as (y & Hy & Hyc). destruct (decide (x = e)) as [->|Hxe].
    + exists (with_refs (refs r + 1) r). rewrite lookup_insert_eq. split; [done|]. cbn. congruence.
    + exists y. by rewrite lookup_insert_ne.
  - intros x Hx. destruct (decide (x = e)) as [->|Hxe]; [rewrite lookup_insert_eq; by eexists|]. rewrite lookup_insert_ne by done. by apply (sk_callbacks _ I).
Qed.

Lemma miss_ok (k : string) (e : nat) (s : shared) : shared_ok s -> cached s !! k = None -> heap s !! e = None ->
  shared_ok (mkShared (<[k := e]> (cached s)) (<[e := mkEntry (PieceCidV1 k) 1 false false false false 0]> (heap s)) (callbacks s) (users s ++ [Creating e]) (panicked s)).
Proof.
  intros I Hk Hr. destruct (count_none e (users s)) as [Hc0 Hcr0].
  { intros u Hu Ho. destruct (sk_users _ I u e Hu Ho) as [x Hx]. congruence. }
  assert (pending e (callbacks s) = 0) as Hp0.
  { apply pending_none. intros He. destruct (sk_callbacks _ I e He) as [x Hx]. congruence. }
  constructor; cbn.
  - by apply sk_panic.
  - intros x y. destruct (count_snoc x (users s) (Creating e)) as [-> ->]. destruct (decide (x = e)) as [->|Hx].
    + rewrite lookup_insert_eq. intros [= <-]. rewrite (bool_decide_eq_true_2 (on (Creating e) = Some e)), (bool_decide_eq_true_2 (Creating e = Creating e)) by done.
      rewrite Hc0, Hcr0. unfold located, key_of. cbn [cached callbacks pieceCid]. rewrite lookup_insert_eq, bool_decide_eq_true_2, Hp0 by done.
      constructor; cbn; try done. by exists k.
    + rewrite lookup_insert_ne by done. intros Hy. rewrite (bool_decide_eq_false_2 (on (Creating e) = Some x)), (bool_decide_eq_false_2 (Creating e = Creating x)) by (cbn; congruence).
      cbn [ind]. rewrite !Z.add_0_r. pose proof (sk_heap _ I _ _ Hy) as H. unfold located in *. cbn [cached callbacks].
      destruct (decide (key_of y = k)) as [Ek|Ek]; [|by rewrite lookup_insert_ne by done]. rewrite Ek, lookup_insert_eq. rewrite Ek, Hk in H.
      rewrite (bool_decide_eq_false_2 (None = Some x)) in H by done. by rewrite (bool_decide_eq_false_2 (Some e = Some x)) by congruence.
  - intros u x Hu Hx. destruct (decide (x = e)) as [->|Hxe]; [rewrite lookup_insert_eq; by eexists|]. rewrite lookup_insert_ne by done.
    apply elem_of_app in Hu as [Hu|Hu]; [by eapply (sk_users _ I)|]. apply list_elem_of_singleton in Hu as ->. cbn in Hx. congruence.
  - intros k' x Hx. destruct (decide (k' = k)) as [->|Hkk].
    + rewrite lookup_insert_eq in Hx. injection Hx as <-. rewrite lookup_insert_eq. by eexists.
    + rewrite lookup_insert_ne in Hx by done. destruct (sk_cached _ I k' x Hx) as (y & Hy & Hyc). exists y. by rewrite lookup_insert_ne by congruence.
  - intros x Hx. destruct (decide (x = e)) as [->|Hxe]; [rewrite lookup_insert_eq; by eexists|]. rewrite lookup_insert_ne by done. by apply (sk_callbacks _ I).
Qed.

(** The creator of an entry finds it not ready. *)
Lemma creating_unready (s : shared) (i e : nat) (r : cachedSectionReader) : shared_ok s -> users s !! i = Some (Creating e) -> heap s !! e = Some r -> ready r = false.
Proof.
  intros I Hi Hr. pose proof (en_new _ _ _ _ (sk_heap _ I _ _ Hr)) as Hn. destruct (count_move e (users s) i (Creating e) Gone Hi) as [_ Ec].
  rewrite bool_decide_eq_true_2, (bool_decide_eq_false_2 (Gone = Creating e)) in Ec by done. pose proof (creators_le e (<[i:=Gone]> (users s))) as Hle.
  cbn [ind] in Ec. destruct (ready r); [cbn in Hn; lia|done].
Qed.

Lemma shared_ok_step (s s' : shared) : shared_ok s -> shared_step v1_only s s' -> shared_ok s'.
Proof.
  intros I Hs. destruct Hs as [c fresh s s' (k & ->) E|i e r s Hi Hr|i e r s m l Hi Hr E|i e r s Hi Hr H1 H2|i e r s Hi Hr H1 H2|i e r s Hi Hr|i e r s Hi Hr|k s|l1 e l2 r s Hcb Hr].
  - unfold get_shared in E. cbn [getCacheKeys cache_Get] in E. destruct (cached s !! k) as [e|] eqn:Ek.
    + destruct (heap s !! e) as [r|] eqn:Er; [|done]. injection E as <-. by eapply hit_ok.
    + destruct (heap s !! fresh) eqn:Ef; [done|]. injection E as <-. by apply miss_ok.
  - pose proof (creating_unready s i e r I Hi Hr) as Hun. destruct (sk_heap _ I _ _ Hr) as [Hc Hn Hl Hnew Hun' Hop Hcl].
    destruct (count_move e (users s) i (Creating e) (Using e) Hi) as [En Ec].
    apply (user_step_ok s i e (Creating e) (Using e) r); auto. rewrite En, Ec, Hnew, Hun. rewrite Hun' in Hn by done.
    rewrite !(bool_decide_eq_true_2 (_ = Some e)), (bool_decide_eq_true_2 (Creating e = Creating e)), (bool_decide_eq_false_2 (Using e = Creating e)) by done.
    constructor; cbn [pieceCid refs expired ready err opened closes resolved ind negb] in *; auto; try done. lia.
  - pose proof (creating_unready s i e r I Hi Hr) as Hun. destruct (en_cid _ _ _ _ (sk_heap _ I _ _ Hr)) as (k & Hk). rewrite Hk in E. cbn [getCacheKeys cache_Remove] in E.
    pose proof (drop_ok s k I) as I'. destruct (cache_drop k (cached s)) as [m1 l1]. injection E as <- <-. rewrite app_nil_r. cbn [fst snd] in I'.
    set (s1 := mkShared m1 (heap s) (callbacks s ++ l1) (users s) (panicked s)) in *.
    destruct (sk_heap _ I' _ _ Hr) as [Hc Hn Hl Hnew Hun' Hop Hcl]. destruct (count_move e (users s) i (Creating e) Gone Hi) as [En Ec].
    apply (user_step_ok s1 i e (Creating e) Gone r); auto. cbn [users s1] in *. rewrite En, Ec, Hnew, Hun. rewrite (Hun' Hun) in Hn.
    rewrite (bool_decide_eq_true_2 (on (Creating e) = Some e)), (bool_decide_eq_true_2 (Creating e = Creating e)), (bool_decide_eq_false_2 (on Gone = Some e)), (bool_decide_eq_false_2 (Gone = Creating e)) by done.
    constructor; cbn [pieceCid refs expired ready err opened closes failed ind negb] in *; auto; try done. lia.
  - assert (set_user i (Using e) s = set_user i (Using e) (put e (Some r) s)) as -> by (unfold set_user, put; cbn; by rewrite insert_id).
    apply (user_step_ok s i e (WaitReady e) (Using e) r); auto. destruct (count_move e (users s) i (WaitReady e) (Using e) Hi) as [En Ec].
    rewrite !(bool_decide_eq_true_2 (_ = Some e)) in En by done. rewrite (bool_decide_eq_false_2 (Using e = _)), (bool_decide_eq_false_2 (WaitReady e = _)) in Ec by done.
    cbn [ind] in En, Ec. replace (count e (<[i:=Using e]> (users s))) with (count e (users s)) by lia. replace (creators e (<[i:=Using e]> (users s))) with (creators e (users s)) by lia. by apply (sk_heap _ I).
  - by apply (Close_ok s i e (WaitReady e)).
  - by apply (Close_ok s i e (WaitReady e)).
  - by apply (Close_ok s i e (Using e)).
  - by apply drop_ok.
  - by eapply callback_ok.
Qed.

(** ** What users get *)

Definition using_ok (s : shared) : Prop := forall e r, Using e ∈ users s -> heap s !! e = Some r -> ready r = true /\ err r = false.

Lemma Close_fields (r r' : cachedSectionReader) : Close r = Some r' -> ready r' = ready r /\ err r' = err r.
Proof. unfold Close, close_reader. cbn. destruct (_ && _); [destruct (opened r); [|done]|]; by intros [= <-]. Qed.

Lemma expireCallback_fields (r r' : cachedSectionReader) : expireCallback r = Some r' -> ready r' = ready r /\ err r' = err r.
Proof. unfold expireCallback, close_reader. cbn. destruct (_ <=? _); [destruct (opened r); [|done]|]; by intros [= <-]. Qed.

(** Users other than the one that moved were there. *)
Lemma using_moved (l : list user) (i e : nat) (u : user) : Using e ∈ <[i := u]> l -> Using e ∈ l \/ u = Using e.
Proof.
  intros He. apply list_elem_of_lookup in He as [j Hj]. destruct (decide (j = i)) as [->|Hji].
  - right. destruct (decide (i < length l)%nat) as [Hl|Hl]; [rewrite list_lookup_insert_eq in Hj by done; by injection Hj|].
    rewrite list_insert_ge in Hj by lia. apply lookup_lt_Some in Hj. lia.
  - left. rewrite list_lookup_insert_ne in Hj by done. by eapply list_elem_of_lookup_2.
Qed.

(** An entry whose state of readiness stays. *)
Lemma using_put (s : shared) (e : nat) (r : cachedSectionReader) (o : option cachedSectionReader) (m : keys) (l : list nat) (us : list user) (p : bool) :
  using_ok s -> heap s !! e = Some r -> (forall r', o = Some r' -> ready r' = ready r /\ err r' = err r) ->
  (forall x, Using x ∈ us -> Using x ∈ users s \/ x = e /\ ready r = true /\ err r = false) ->
  using_ok (mkShared m (match o with Some r' => <[e := r']> (heap s) | None => heap s end) l us p).
Proof.
  intros I Hr Ho Hu x y Hx Hy. cbn in Hx, Hy.
  assert (forall z, heap s !! x = Some z -> ready z = true /\ err z = false) as Hold.
  { intros z Hz. destruct (Hu x Hx) as [Hin|(-> & ? & ?)]; [by apply (I x)|]. rewrite Hr in Hz. by injection Hz as <-. }
  destruct o as [r'|]; [|by apply Hold]. destruct (decide (x = e)) as [->|Hne].
  - rewrite lookup_insert_eq in Hy. injection Hy as <-. destruct (Ho r' eq_refl) as [-> ->]. by apply Hold.
  - rewrite lookup_insert_ne in Hy by done. by apply Hold.
Qed.

Lemma put_eq (e : nat) (o : option cachedSectionReader) (s : shared) :
  put e o s = mkShared (cached s) (match o with Some r' => <[e := r']> (heap s) | None => heap s end) (callbacks s) (users s) (match o with Some _ => panicked s | None => true end).
Proof. by destruct o. Qed.

(** A user that closes its entry. *)
Lemma using_close (s : shared) (i e : nat) (r : cachedSectionReader) : using_ok s -> heap s !! e = Some r -> using_ok (set_user i Gone (put e (Close r) s)).
Proof.
  intros U Hr. rewrite put_eq. apply (using_put s e r (Close r)); [done|done|apply Close_fields|]. intros x Hx. apply using_moved in Hx as [?|?]; [by left|done].
Qed.

Lemma using_step (s s' : shared) : shared_ok s -> using_ok s -> shared_step v1_only s s' -> using_ok s'.
Proof.
  intros I U Hs. destruct Hs as [c fresh s s' (k & ->) E|i e r s Hi Hr|i e r s m l Hi Hr E|i e r s Hi Hr H1 H2|i e r s Hi Hr H1 H2|i e r s Hi Hr|i e r s Hi Hr|k s|l1 e l2 r s Hcb Hr].
  - unfold get_shared in E. destruct (cache_Get _ _) as [e|].
    + destruct (heap s !! e) as [r|] eqn:Er; [|done]. injection E as <-. apply (using_put s e r (Some (with_refs (refs r + 1) r))); [done|done|intros ? [= <-]; done|].
      intros x Hx. apply elem_of_app in Hx as [?|Hx]; [by left|]. by apply list_elem_of_singleton in Hx.
    + destruct (heap s !! fresh) eqn:Ef; [done|]. injection E as <-. intros x y Hx Hy. cbn in Hx, Hy.
      apply elem_of_app in Hx as [Hx|Hx]; [|by apply list_elem_of_singleton in Hx].
      destruct (sk_users _ I _ x Hx eq_refl) as [z Hz]. rewrite lookup_insert_ne in Hy by congruence. by apply (U x).
  - intros x y Hx Hy. cbn in Hx, Hy. destruct (decide (x = e)) as [->|Hne].
    + rewrite lookup_insert_eq in Hy. by injection Hy as <-.
    + rewrite lookup_insert_ne in Hy by done. apply using_moved in Hx as [Hx|[= ->]]; [by apply (U x)|done].
  - intros x y Hx Hy. cbn in Hx, Hy. apply using_moved in Hx as [Hx|?]; [|done]. destruct (decide (x = e)) as [->|Hne].
    + destruct (U e r Hx Hr) as [Hrd _]. by rewrite (creating_unready s i e r I Hi Hr) in Hrd.
    + rewrite lookup_insert_ne in Hy by done. by apply (U x).
  - apply (using_put s e r None); [done|done|done|]. intros x Hx. apply using_moved in Hx as [?|[= ->]]; auto.
  - by apply using_close.
  - by apply using_close.
  - by apply using_close.
  - exact U.
  - rewrite put_eq. apply (using_put s e r (expireCallback r)); [done|done|apply expireCallback_fields|]. auto.
Qed.

Lemma shared_reach (s : shared) : rtc (shared_step v1_only) no_readers s -> shared_ok s /\ using_ok s.
Proof.
  intros Hr. apply (rtc_invariant (shared_step v1_only) (fun s => shared_ok s /\ using_ok s)) with no_readers; [|done|].
  - intros x y [I U] Hs. split; [by eapply shared_ok_step|by eapply using_step].
  - split; [|intros e r He; by apply not_elem_of_nil in He]. constructor; cbn; try done.
    + intros u e Hu. by apply not_elem_of_nil in Hu.
    + intros e He. by apply not_elem_of_nil in He.
Qed.

(** C24: a shared reader outlives its users and is closed once.  For pieces asked for by
    ids of version 1, whatever the goroutines of the users do (wait, give up, read,
    close) and whenever the cache drops keys and runs its callbacks: no nil function
    is called, a user never has a reader that was closed, no reader is closed twice,
    and one that left the cache, has no callback to come and no user was closed. *)
Theorem shared_reader_safe (s : shared) : rtc (shared_step v1_only) no_readers s ->
  panicked s = false /\
  (forall e r, Using e ∈ users s -> heap s !! e = Some r -> opened r = true /\ closes r = 0%nat) /\
  (forall e r, heap s !! e = Some r -> (closes r <= 1)%nat) /\
  (forall e r, heap s !! e = Some r -> ready r = true -> err r = false ->
     cached s !! key_of r <> Some e -> e ∉ callbacks s -> (forall u, u ∈ users s -> on u <> Some e) -> closes r = 1%nat).
Proof.
  intros Hr. destruct (shared_reach s Hr) as [I U]. split_and!; [by apply sk_panic|..].
  - intros e r Hu He. destruct (U e r Hu He) as [H1 H2]. destruct (sk_heap _ I _ _ He) as [_ Hn _ _ _ Hop Hcl]. split; [by apply Hop|].
    apply list_elem_of_lookup in Hu as [i Hi]. pose proof (count_strict e (users s) i (Using e) Hi eq_refl ltac:(done)) as Hs. pose proof (creators_le e (users s)) as Hcr.
    rewrite H2 in Hn. cbn in Hn. rewrite Hcl, (proj2 (Z.eqb_neq (refs r) 0)) by lia. by rewrite andb_false_r.
  - intros e r He. rewrite (en_closes _ _ _ _ (sk_heap _ I _ _ He)). destruct (_ && _); lia.
  - intros e r He H1 H2 Hc Hcb Hu. destruct (sk_heap _ I _ _ He) as [_ Hn Hl _ _ _ Hcl]. destruct (count_none e (users s) Hu) as [Hn0 _].
    unfold located in Hl. rewrite bool_decide_eq_false_2, (pending_none e _ Hcb) in Hl by done. rewrite Hcl. rewrite Hn, H2, Hn0. cbn.
    destruct (expired r); [done|]. cbn in Hl. lia.
Qed.

(** A piece that is asked for by its id of version 2 has two keys.  When the cache
    drops one of them its reader is closed, and a user that finds it under the other
    key gets the closed reader. *)
Definition ex_v2 : piece_cid := PieceCidV2 "bafkz" "baga".

Lemma v2_reader_closed :
  exists s r, rtc (shared_step (fun _ => True)) no_readers s /\ Using 0 ∈ users s /\ heap s !! 0%nat = Some r /\ closes r = 1%nat.
Proof.
  exists (mkShared {[ "bafkz" := 0%nat ]} {[ 0%nat := mkEntry ex_v2 1 true true false true 1 ]} [] [Gone; Using 0] false), (mkEntry ex_v2 1 true true false true 1).
  split; [|split; [right; left|done]].
  eapply rtc_l; [by eapply (sh_get _ ex_v2 0)|]. eapply rtc_l; [by eapply (sh_resolved _ 0 0)|]. eapply rtc_l; [by eapply (sh_close _ 0 0)|].
  eapply rtc_l; [apply (sh_drop _ "baga")|]. eapply rtc_l; [by apply (sh_callback _ [] 0 [] (mkEntry ex_v2 0 false true false true 0))|].
  eapply rtc_l; [by eapply (sh_get _ ex_v2 1)|]. apply rtc_once.
  match goal with |- shared_step _ ?a ?b => assert (b = set_user 1 (Using 0) a) as -> by (vm_compute; reflexivity) end.
  by eapply (sh_ready _ 1 0).
Qed.

Definition ex_readers : shared :=
  mkShared ∅ {[ 0%nat := mkEntry (PieceCidV1 "baga") 1 true true false true 0 ]} [] [Gone; Using 0] false.

(** Two users share a reader; the key is dropped while the second still uses it. *)
Lemma ex_readers_reachable : rtc (shared_step v1_only) no_readers ex_readers.
Proof.
  assert (v1_only (PieceCidV1 "baga")) as Hv by (by exists "baga").
  eapply rtc_l; [by eapply (sh_get _ (PieceCidV1 "baga") 0)|]. eapply rtc_l; [by eapply (sh_get _ (PieceCidV1 "baga") 1)|].
  eapply rtc_l; [by eapply (sh_resolved _ 0 0)|]. eapply rtc_l; [by eapply (sh_ready _ 1 0)|]. eapply rtc_l; [by eapply (sh_close _ 0 0)|].
  eapply rtc_l; [apply (sh_drop _ "baga")|]. apply rtc_once.
  match goal with |- shared_step _ ?a ?b => assert (b = put 0 (expireCallback (mkEntry (PieceCidV1 "baga") 1 false true false true 0)) (mkShared (cached a) (heap a) [] (users a) (panicked a))) as -> by (vm_compute; reflexivity) end.
  by apply (sh_callback _ [] 0 []).
Qed.

Lemma shared_reader_safe_witness :
  opened (mkEntry (PieceCidV1 "baga") 1 true true false true 0) = true /\ closes (mkEntry (PieceCidV1 "baga") 1 true true false true 0) = 0%nat.
Proof.
  apply (shared_reader_safe ex_readers ex_readers_reachable) with (e := 0%nat); [right; left|reflexivity].
Defined.
