(* ===== verification/Prefetch.v ===== *)
(** * Reading ahead ([lib/cachedreader/prefetch.go])

    [PrefetchReader] reads its source in a goroutine of its own into a ring buffer; two
    atomic counters say how much was written and how much was read.  The worker and
    the reader interleave between their loads, copies and stores.  The counters are
    the numbers of bytes, which stay far below the 2^64 at which they wrap. *)

From stdpp Require Import base list relations.
From Stdlib Require Import ZArith Lia.
From S2P Require Import Prelude.

Definition minBufferDepth : Z := 1024.

Section Prefetch.
Context {byte error : Type} (zero : byte).

(** ** The ring buffer *)

(** [pr.buffer[i]] *)
Definition at_ring (buffer : list byte) (i : nat) : byte := nth i buffer zero.

(** The copy of the worker: byte [i] of the chunk goes to [(writePos + i) % bufferSize]. *)
Definition ring_write (buffer : list byte) (writePos : nat) (chunk : list byte) : list byte :=
  foldl (fun b '(i, x) => <[(writePos + i) mod length buffer := x]> b)%nat buffer (imap pair chunk).

(** The two copies of [Read]: up to the end of the buffer, then from its start. *)
Definition ring_read (buffer : list byte) (readPos available : nat) : list byte :=
  let start := (readPos mod length buffer)%nat in
  let firstChunk := if (length buffer <? start + available)%nat then (length buffer - start)%nat else available in
  take firstChunk (drop start buffer) ++ (if (firstChunk <? available)%nat then take (available - firstChunk) buffer else []).

(** ** The goroutines *)

(** The worker: at the top of its loop, with [readPtr] loaded, with a chunk copied, with
    its counter published and an error to store, with the error stored, or returned. *)
Inductive worker_pc := WTop | WLoaded (readPos : nat) | WCopied (n : nat) (err : option error) | WAdded (err : option error) | WStored | WDone.

(** The reader: no call, a call that has loaded [writePtr], one that found no bytes, one
    that found no error and looks at [workerDone], one that found it closed, and one
    with the bytes it copied. *)
Inductive reader_pc := RIdle | RLoaded (len writePos : nat) | REmpty (len : nat) | RNoError (len : nat) | RClosed | RCopied (out : list byte).

(** [result] is what the last call that returned without bytes returned: an error, or
    [io.EOF] without one.  [taken] and [given] are all bytes taken from the source and
    given to callers. *)
Record prefetch := mkPrefetch {
  buffer : list byte; readPtr : nat; writePtr : nat; perr : option error; doneClosed : bool;
  worker : worker_pc; reader : reader_pc; presult : option (option error);
  taken : list byte; given : list byte }.

Definition with_worker (w : worker_pc) (p : prefetch) : prefetch :=
  mkPrefetch (buffer p) (readPtr p) (writePtr p) (perr p) (doneClosed p) w (reader p) (presult p) (taken p) (given p).
Definition with_reader (r : reader_pc) (p : prefetch) : prefetch :=
  mkPrefetch (buffer p) (readPtr p) (writePtr p) (perr p) (doneClosed p) (worker p) r (presult p) (taken p) (given p).

(** [New]: a buffer of the pool, which may hold anything, of at least the minimal
    size; what follows holds for buffers of any size but zero. *)
Definition init (buf : list byte) : prefetch := mkPrefetch buf 0 0 None false WTop RIdle None [] [].

Definition New (Get : Z -> list byte) (bufferDepth : Z) : prefetch :=
  init (Get (if bufferDepth <? minBufferDepth then minBufferDepth else bufferDepth)).

(** The worker.  [chunk] and [err] are what the source returns, which is at most the
    space it is asked for. *)
Definition space (readPos : nat) (p : prefetch) : nat := Nat.min (length (buffer p) - (writePtr p - readPos)) 1024.

Inductive worker_step : prefetch -> prefetch -> Prop :=
| pw_done p : worker p = WTop -> doneClosed p = true -> worker_step p (with_worker WDone p)
| pw_load p : worker p = WTop -> doneClosed p = false -> worker_step p (with_worker (WLoaded (readPtr p)) p)
| pw_full r p : worker p = WLoaded r -> (length (buffer p) <= writePtr p - r)%nat -> worker_step p (with_worker WTop p)
| pw_read r chunk err p : worker p = WLoaded r -> (writePtr p - r < length (buffer p))%nat -> (length chunk <= space r p)%nat ->
    worker_step p (mkPrefetch (ring_write (buffer p) (writePtr p) chunk) (readPtr p) (writePtr p) (perr p) (doneClosed p)
                     (WCopied (length chunk) err) (reader p) (presult p) (taken p ++ chunk) (given p))
| pw_add n err p : worker p = WCopied n err ->
    worker_step p (mkPrefetch (buffer p) (readPtr p) (writePtr p + n) (perr p) (doneClosed p) (WAdded err) (reader p) (presult p) (taken p) (given p))
| pw_next p : worker p = WAdded None -> worker_step p (with_worker WTop p)
| pw_error e p : worker p = WAdded (Some e) ->
    worker_step p (mkPrefetch (buffer p) (readPtr p) (writePtr p) (Some e) (doneClosed p) WStored (reader p) (presult p) (taken p) (given p))
| pw_return p : worker p = WStored -> worker_step p (with_worker WDone p).

(** A call of [Read] with a buffer of [len] bytes. *)
Definition returns_empty (res : option error) (p : prefetch) : prefetch :=
  mkPrefetch (buffer p) (readPtr p) (writePtr p) (perr p) (doneClosed p) (worker p) RIdle (Some res) (taken p) (given p).

Inductive reader_step : prefetch -> prefetch -> Prop :=
| pr_call len p : reader p = RIdle -> (0 < len)%nat -> reader_step p (with_reader (RLoaded len (writePtr p)) p)
| pr_copy len w p : reader p = RLoaded len w -> readPtr p <> w ->
    reader_step p (with_reader (RCopied (ring_read (buffer p) (readPtr p) (Nat.min (w - readPtr p) len))) p)
| pr_add out p : reader p = RCopied out ->
    reader_step p (mkPrefetch (buffer p) (readPtr p + length out) (writePtr p) (perr p) (doneClosed p) (worker p) RIdle None (taken p) (given p ++ out))
| pr_empty len w p : reader p = RLoaded len w -> readPtr p = w -> reader_step p (with_reader (REmpty len) p)
| pr_error len e p : reader p = REmpty len -> perr p = Some e -> reader_step p (returns_empty (Some e) p)
| pr_no_error len p : reader p = REmpty len -> perr p = None -> reader_step p (with_reader (RNoError len) p)
| pr_again len p : reader p = RNoError len -> worker p <> WDone -> reader_step p (with_reader (RLoaded len (writePtr p)) p)
| pr_closed len p : reader p = RNoError len -> worker p = WDone -> reader_step p (with_reader RClosed p)
| pr_last p : reader p = RClosed -> reader_step p (returns_empty (perr p) p).

Inductive prefetch_step : prefetch -> prefetch -> Prop :=
| ps_worker p p' : worker_step p p' -> prefetch_step p p'
| ps_reader p p' : reader_step p p' -> prefetch_step p p'
| ps_close p : prefetch_step p (mkPrefetch (buffer p) (readPtr p) (writePtr p) (perr p) true (worker p) (reader p) (presult p) (taken p) (given p)).

(** ** The bytes in the ring *)

(** Byte [i] of the stream, for the bytes that are in the buffer. *)
Definition stream_at (p : prefetch) (i : nat) : byte := at_ring (buffer p) (i mod length (buffer p)).

Lemma mod_neq (a b n : nat) : (a < b < a + n)%nat -> (a mod n <> b mod n)%nat.
Proof.
  intros H E. assert (n <> 0)%nat as Hn by lia. pose proof (Nat.div_mod a n Hn) as Ha. pose proof (Nat.div_mod b n Hn) as Hb. rewrite E in Ha.
  assert (b - a = n * (b / n - a / n))%nat by nia. assert (b / n - a / n = 0 \/ 1 <= b / n - a / n)%nat as [Hq|Hq] by lia; nia.
Qed.

Lemma ring_write_snoc (b : list byte) (wp : nat) (chunk : list byte) (x : byte) :
  ring_write b wp (chunk ++ [x]) = <[((wp + length chunk) mod length b)%nat := x]> (ring_write b wp chunk).
Proof. unfold ring_write. rewrite imap_app. cbn [imap]. rewrite foldl_snoc. by rewrite Nat.add_0_r. Qed.

Lemma ring_write_length (b : list byte) (wp : nat) (chunk : list byte) : length (ring_write b wp chunk) = length b.
Proof. induction chunk as [|x chunk IH] using rev_ind; [done|]. by rewrite ring_write_snoc, length_insert. Qed.

(** After a chunk the last bytes of the stream are in the ring. *)
Lemma ring_write_at (b : list byte) (wp : nat) (chunk : list byte) (i : nat) : (length chunk <= length b)%nat -> (0 < length b)%nat ->
  (i < wp + length chunk <= i + length b)%nat ->
  at_ring (ring_write b wp chunk) (i mod length b) = if (i <? wp)%nat then at_ring b (i mod length b) else nth (i - wp) chunk zero.
Proof.
  revert i. induction chunk as [|x chunk IH] using rev_ind; intros i Hc Hb Hi; rewrite ?length_app in *; cbn [length] in *.
  - rewrite (proj2 (Nat.ltb_lt i wp)) by lia. done.
  - rewrite ring_write_snoc. unfold at_ring. rewrite !nth_lookup. destruct (decide (i = wp + length chunk)%nat) as [->|Hne].
    + rewrite list_lookup_insert_eq by (rewrite ring_write_length; apply Nat.mod_upper_bound; lia). rewrite (proj2 (Nat.ltb_ge _ wp)) by lia.
      rewrite lookup_app_r by lia. by replace (wp + length chunk - wp - length chunk)%nat with 0%nat by lia.
    + rewrite list_lookup_insert_ne by (apply not_eq_sym, mod_neq; lia). rewrite <- nth_lookup. fold (at_ring (ring_write b wp chunk) (i mod length b)).
      rewrite IH by lia. destruct (i <? wp)%nat eqn:E; [by unfold at_ring; rewrite nth_lookup|]. apply Nat.ltb_ge in E. rewrite nth_lookup. by rewrite lookup_app_l by lia.
Qed.

(** The copies of [Read] give the bytes of the stream. *)
Lemma ring_read_eq (b : list byte) (rp n : nat) : (n <= length b)%nat -> (0 < length b)%nat ->
  ring_read b rp n = (fun i => at_ring b (i mod length b)) <$> seq rp n.
Proof.
  intros Hn Hb. pose proof (Nat.mod_upper_bound rp (length b) ltac:(lia)) as Hs. pose proof (Nat.div_mod rp (length b) ltac:(lia)) as Hd.
  assert (forall i, (i < n)%nat -> ((rp + i) mod length b = if rp mod length b + i <? length b then rp mod length b + i else rp mod length b + i - length b)%nat) as Hm.
  { intros i Hi. destruct (_ <? _)%nat eqn:E; [apply Nat.ltb_lt in E|apply Nat.ltb_ge in E]; symmetry.
    - apply (Nat.mod_unique _ _ (rp / length b)); lia.
    - apply (Nat.mod_unique _ _ (rp / length b + 1)); nia. }
  unfold ring_read. set (start := (rp mod length b)%nat) in *. apply list_eq. intros i. rewrite list_lookup_fmap. destruct (decide (i < n)%nat) as [Hi|Hi].
  - rewrite lookup_seq_lt by done. cbn [fmap option_fmap option_map]. rewrite Hm by done. unfold at_ring. rewrite nth_lookup.
    assert (forall j, (j < length b)%nat -> Some (default zero (b !! j)) = b !! j) as Hsome by (intros j Hj; by destruct (lookup_lt_is_Some_2 b j Hj) as [x ->]).
    destruct (length b <? start + n)%nat eqn:E; [apply Nat.ltb_lt in E|apply Nat.ltb_ge in E].
    + rewrite (proj2 (Nat.ltb_lt _ n)) by lia. destruct (start + i <? length b)%nat eqn:E2; [apply Nat.ltb_lt in E2|apply Nat.ltb_ge in E2]; rewrite Hsome by lia.
      * rewrite lookup_app_l by (rewrite length_take, length_drop; lia). rewrite lookup_take_lt by lia. by rewrite lookup_drop.
      * rewrite lookup_app_r by (rewrite length_take, length_drop; lia). rewrite length_take, length_drop, lookup_take_lt by lia. f_equal. lia.
    + rewrite (proj2 (Nat.ltb_ge n n)) by lia. rewrite app_nil_r. rewrite (proj2 (Nat.ltb_lt _ _)) by lia. rewrite Hsome by lia.
      rewrite lookup_take_lt by lia. by rewrite lookup_drop.
  - rewrite lookup_seq_ge by lia. cbn [fmap option_fmap option_map]. apply lookup_ge_None_2. rewrite length_app, length_take, length_drop.
    destruct (length b <? start + n)%nat eqn:E; [apply Nat.ltb_lt in E|apply Nat.ltb_ge in E].
    + rewrite (proj2 (Nat.ltb_lt _ n)) by lia. rewrite length_take. lia.
    + rewrite (proj2 (Nat.ltb_ge n n)) by lia. cbn [length]. lia.
Qed.

(** ** The invariant *)

Definition in_flight (w : worker_pc) : nat := match w with WCopied n _ => n | _ => 0%nat end.

Definition reader_ok (p : prefetch) : Prop :=
  match reader p with
  | RLoaded len w => (0 < len)%nat /\ (readPtr p <= w <= writePtr p)%nat
  | RCopied out => out = take (length out) (drop (readPtr p) (taken p)) /\ (readPtr p + length out <= writePtr p)%nat
  | RNoError len | REmpty len => (0 < len)%nat
  | _ => True
  end.

Record prefetch_ok (p : prefetch) : Prop := {
  pf_size : (0 < length (buffer p))%nat;
  pf_taken : length (taken p) = (writePtr p + in_flight (worker p))%nat;
  pf_given : given p = take (readPtr p) (taken p);
  pf_order : (readPtr p <= writePtr p)%nat;
  pf_room : (length (taken p) <= readPtr p + length (buffer p))%nat;
  pf_ring : forall i, (readPtr p <= i < length (taken p))%nat -> nth i (taken p) zero = stream_at p i;
  pf_loaded : forall r, worker p = WLoaded r -> (r <= readPtr p)%nat;
  pf_reader : reader_ok p
}.

(** What is left in the ring is the rest of the stream. *)
Lemma ring_rest (p : prefetch) (n : nat) : prefetch_ok p -> (readPtr p + n <= writePtr p)%nat ->
  ring_read (buffer p) (readPtr p) n = take n (drop (readPtr p) (taken p)).
Proof.
  intros I Hn. pose proof (pf_taken _ I) as Ht. pose proof (pf_room _ I) as Hr. rewrite ring_read_eq by (try lia; apply (pf_size _ I)).
  apply list_eq. intros i. rewrite list_lookup_fmap. destruct (decide (i < n)%nat) as [Hi|Hi].
  - rewrite lookup_seq_lt, lookup_take_lt, lookup_drop by done. cbn [fmap option_fmap option_map]. fold (stream_at p (readPtr p + i)).
    rewrite <- (pf_ring _ I) by lia. rewrite nth_lookup. by destruct (lookup_lt_is_Some_2 (taken p) (readPtr p + i) ltac:(lia)) as [x ->].
  - rewrite lookup_seq_ge, lookup_take_ge by lia. done.
Qed.

Lemma worker_step_ok (p p' : prefetch) : prefetch_ok p -> worker_step p p' -> prefetch_ok p'.
Proof.
  intros I Hs. destruct I as [Hsz Ht Hg Ho Hrm Hring Hld Hrd]. destruct Hs as [p Hw Hd|p Hw Hd|r p Hw Hf|r chunk err p Hw Hf Hc|n err p Hw|p Hw|e p Hw|p Hw].
  all: rewrite Hw in Ht; cbn [in_flight] in Ht.
  4:{ assert (r <= readPtr p)%nat as Hr by (by apply Hld). unfold space in Hc.
    assert (forall i, (readPtr p <= i < length (taken p) + length chunk)%nat -> (writePtr p + length chunk <= i + length (buffer p))%nat) as Hfit by (intros i Hi; lia).
    constructor; cbn [buffer readPtr writePtr perr doneClosed worker reader presult taken given in_flight]; rewrite ?ring_write_length, ?length_app; try done; try lia.
    - by rewrite take_app_le by lia.
    - intros i Hi. unfold stream_at. cbn [buffer]. rewrite ring_write_length, ring_write_at by lia. destruct (i <? writePtr p)%nat eqn:E; [apply Nat.ltb_lt in E|apply Nat.ltb_ge in E].
      + rewrite app_nth1 by lia. apply Hring. lia.
      + rewrite app_nth2 by lia. f_equal. lia.
    - unfold reader_ok in *. cbn. destruct (reader p) as [|len w|len|len| |out]; try done. destruct Hrd as [Hout Hle]. split; [|done].
      rewrite drop_app_le by lia. rewrite take_app_le; [done|]. rewrite length_drop. lia. }
  all: constructor; cbn; try done; try lia; try (intros r' [= <-]; lia).
  unfold reader_ok in *. cbn. destruct (reader p) as [|len w|len|len| |out]; try done; intuition lia.
Qed.

Lemma reader_step_ok (p p' : prefetch) : prefetch_ok p -> reader_step p p' -> prefetch_ok p'.
Proof.
  intros I Hs. pose proof I as [Hsz Ht Hg Ho Hrm Hring Hld Hrd]. unfold reader_ok in Hrd.
  destruct Hs as [len p Hr Hl|len w p Hr Hne|out p Hr|len w p Hr He|len e p Hr He|len p Hr He|len p Hr Hw|len p Hr Hw|p Hr]; rewrite Hr in Hrd.
  3:{ destruct Hrd as [Hout Hle]. constructor; cbn; try done; try lia.
    - rewrite Hg, Hout at 1. rewrite <- take_take_drop. done.
    - intros i Hi. apply Hring. lia.
    - intros r Hw. specialize (Hld r Hw). lia. }
  all: constructor; unfold reader_ok; cbn [buffer readPtr writePtr perr doneClosed worker reader presult taken given in_flight with_reader with_worker returns_empty]; try done; try lia.
  destruct Hrd as [Hl [H1 H2]]. rewrite (ring_rest p) by (done || lia). split; [|rewrite length_take, length_drop; lia].
  rewrite length_take, length_drop. f_equal. lia.
Qed.

Lemma prefetch_ok_step (p p' : prefetch) : prefetch_ok p -> prefetch_step p p' -> prefetch_ok p'.
Proof.
  intros I Hs. destruct Hs as [p p' Hs|p p' Hs|p]; [by eapply worker_step_ok|by eapply reader_step_ok|].
  destruct I. by constructor.
Qed.

(** reading ahead keeps the stream: in every interleaving of the worker and of the
    calls of [Read], the bytes given to the caller are the first bytes taken from the
    source, in order, the others are the contents of the ring buffer, from the read
    position on, and there is always room for them. *)
Theorem prefetch_fifo (buf : list byte) (p : prefetch) : (0 < length buf)%nat -> rtc prefetch_step (init buf) p ->
  let left := (length (taken p) - length (given p))%nat in
  taken p = given p ++ ring_read (buffer p) (readPtr p) left /\ length (given p) = readPtr p /\ (left <= length buf)%nat.
Proof.
  intros Hb Hr left. assert (length (buffer p) = length buf /\ prefetch_ok p) as [Hl I].
  { apply (rtc_invariant prefetch_step (fun p => length (buffer p) = length buf /\ prefetch_ok p)) with (init buf); [|done|].
    - intros x y [Hx Ix] Hs. split; [|by eapply prefetch_ok_step]. rewrite <- Hx.
      destruct Hs as [x y Hs|x y Hs|x]; [destruct Hs|destruct Hs|]; cbn; rewrite ?ring_write_length; done.
    - split; [done|]. constructor; cbn; try done; lia. }
  pose proof (pf_taken _ I) as Ht. pose proof (pf_order _ I) as Ho. assert (length (given p) = readPtr p) as Hg by (rewrite (pf_given _ I), length_take; lia).
  pose proof (pf_room _ I) as Hrm. split_and!; [|done|unfold left; lia].
  rewrite ring_read_eq by (unfold left; try lia; apply (pf_size _ I)). rewrite (pf_given _ I) at 1. rewrite <- (take_drop (readPtr p) (taken p)) at 1. f_equal.
  apply list_eq. intros i. rewrite list_lookup_fmap, lookup_drop. destruct (decide (i < left)%nat) as [Hi|Hi].
  - rewrite lookup_seq_lt by done. cbn [fmap option_fmap option_map]. fold (stream_at p (readPtr p + i)). rewrite <- (pf_ring _ I) by (unfold left in Hi; lia). rewrite nth_lookup.
    by destruct (lookup_lt_is_Some_2 (taken p) (readPtr p + i) ltac:(unfold left in Hi; lia)) as [x ->].
  - rewrite lookup_seq_ge by lia. cbn. apply lookup_ge_None_2. unfold left in Hi. lia.
Qed.

(** A call can report the error of the source although bytes are in the buffer: it looks
    at the counter before the worker publishes them and at the error after. *)
Lemma early_error (x : byte) (e : error) (buf : list byte) : (0 < length buf)%nat ->
  exists p, rtc prefetch_step (init buf) p /\ presult p = Some (Some e) /\ taken p = [x] /\ given p = [].
Proof.
  intros Hb. eexists. split; [|split; [|split]].
  - eapply rtc_l; [apply ps_reader, (pr_call 1); [done|lia]|]. eapply rtc_l; [by eapply ps_reader, pr_empty|].
    eapply rtc_l; [by apply ps_worker, pw_load|]. eapply rtc_l; [apply ps_worker, (pw_read 0 [x] (Some e)); [done|cbn [buffer readPtr writePtr with_worker with_reader init length]; lia|unfold space; cbn [buffer readPtr writePtr with_worker with_reader init length]; lia]|].
    eapply rtc_l; [by eapply ps_worker, pw_add|]. eapply rtc_l; [by eapply ps_worker, pw_error|].
    apply rtc_once. eapply ps_reader, pr_error; reflexivity.
  - reflexivity.
  - reflexivity.
  - reflexivity.
Qed.
End Prefetch.

(** A stream longer than its buffer. *)
Definition ex_state (b : list nat) (r w : nat) (wk : worker_pc) (rd : reader_pc) (tk gv : list nat) : @prefetch nat () :=
  mkPrefetch b r w None false wk rd None tk gv.

Definition ex_states : list (@prefetch nat ()) :=
  let b0 := replicate 4 0%nat in let b1 := [1; 2; 3; 4]%nat in let b2 := [5; 2; 3; 4]%nat in
  [ ex_state b0 0 0 (WLoaded 0) RIdle [] []; ex_state b1 0 0 (WCopied 4 None) RIdle b1 [];
    ex_state b1 0 4 (WAdded None) RIdle b1 []; ex_state b1 0 4 WTop RIdle b1 [];
    ex_state b1 0 4 WTop (RLoaded 3 4) b1 []; ex_state b1 0 4 WTop (RCopied [1; 2; 3]%nat) b1 [];
    ex_state b1 3 4 WTop RIdle b1 [1; 2; 3]%nat; ex_state b1 3 4 (WLoaded 3) RIdle b1 [1; 2; 3]%nat;
    ex_state b2 3 4 (WCopied 1 None) RIdle [1; 2; 3; 4; 5]%nat [1; 2; 3]%nat; ex_state b2 3 5 (WAdded None) RIdle [1; 2; 3; 4; 5]%nat [1; 2; 3]%nat ].

Definition ex_last : @prefetch nat () := nth 9 ex_states (init []).

(** Consecutive states are steps. *)
Lemma ex_chain (a : @prefetch nat ()) (l : list (@prefetch nat ())) : (fix chain a l := match l with [] => True | b :: l' => prefetch_step a b /\ chain b l' end) a l ->
  rtc prefetch_step a (foldl (fun _ b => b) a l).
Proof. revert a. induction l as [|b l IH]; intros a H; [done|]. destruct H as [Hs Hc]. eapply rtc_l; [exact Hs|]. by apply IH. Qed.

Lemma ex_reach : rtc prefetch_step (init (replicate 4 0%nat)) ex_last.
Proof.
  apply (ex_chain _ ex_states). cbn [ex_states]. split_and!; [| | | | | | | | | |exact I].
  - by apply ps_worker, pw_load.
  - apply ps_worker. apply (pw_read 0 [1; 2; 3; 4]%nat None (ex_state (replicate 4 0%nat) 0 0 (WLoaded 0) RIdle [] [])); [done|apply Nat.ltb_lt; reflexivity|apply Nat.leb_le; reflexivity].
  - apply ps_worker. by apply (pw_add 4 None (ex_state [1; 2; 3; 4]%nat 0 0 (WCopied 4 None) RIdle [1; 2; 3; 4]%nat [])).
  - by apply ps_worker, pw_next.
  - apply ps_reader. apply (pr_call 3 (ex_state [1; 2; 3; 4]%nat 0 4 WTop RIdle [1; 2; 3; 4]%nat [])); [done|lia].
  - apply ps_reader. by apply (pr_copy 3 4 (ex_state [1; 2; 3; 4]%nat 0 4 WTop (RLoaded 3 4) [1; 2; 3; 4]%nat [])).
  - apply ps_reader. by apply (pr_add [1; 2; 3]%nat (ex_state [1; 2; 3; 4]%nat 0 4 WTop (RCopied [1; 2; 3]%nat) [1; 2; 3; 4]%nat [])).
  - by apply ps_worker, pw_load.
  - apply ps_worker. apply (pw_read 3 [5]%nat None (ex_state [1; 2; 3; 4]%nat 3 4 (WLoaded 3) RIdle [1; 2; 3; 4]%nat [1; 2; 3]%nat)); [done|apply Nat.ltb_lt; reflexivity|apply Nat.leb_le; reflexivity].
  - apply ps_worker. by apply (pw_add 1 None (ex_state [5; 2; 3; 4]%nat 3 4 (WCopied 1 None) RIdle [1; 2; 3; 4; 5]%nat [1; 2; 3]%nat)).
Qed.

Lemma prefetch_fifo_witness :
  taken ex_last = given ex_last ++ ring_read (buffer ex_last) (readPtr ex_last) 2 /\ length (given ex_last) = readPtr ex_last /\ (2 <= 4)%nat.
Proof. apply (prefetch_fifo 0%nat (replicate 4 0%nat) ex_last); [cbn; lia|exact ex_reach]. Defined.
