(* ===== verification/ParkPiece.v ===== *)
(** * Parked pieces

    Pieces that come from clients are kept in storage until they are sealed, or for
    good.  [parked_pieces] has a row per piece and [parked_piece_refs] a row per user of
    it, counted by triggers ([harmony/harmonydb/sql/20260601-parked-piece-refcount.sql]).
    [lib/parkpiece/upsert.go] finds or adds the row of a piece,
    [tasks/piece/task_park_piece.go] fetches its data, [task_cleanup_piece.go] removes
    pieces nobody refers to, and [task_fix_park_piece_unique.go] joins duplicates, which can
    appear as long as a unique index is missing. *)

From stdpp Require Import base gmap sets list strings sorting.
From Stdlib Require Import ZArith Lia.
From S2P Require Import Prelude HarmonyDB GoStd.

(** ** The tables *)

Record parked_piece := mkParked {
  pp_cid_v1 : string; pp_padded_size : Z; pp_raw_size : Z; pp_complete : bool; pp_task_id : option TaskID;
  pp_cleanup_task_id : option TaskID; pp_long_term : bool; pp_skip : bool; pp_ref_count : Z }.

#[export] Instance parked_piece_eq_dec : EqDecision parked_piece.
Proof. solve_decision. Defined.

Record piece_ref := mkRef { ref_piece_id : Z; ref_data_url : option string; ref_long_term : bool }.

(** The tables, their sequences, and whether [parked_pieces_active_piece_key] is
    there and valid. *)
Record park_db := mkParkDb {
  parked_pieces : gmap Z parked_piece; parked_piece_refs : gmap Z piece_ref; next_piece_id : Z; next_ref_id : Z; active_index : bool }.

Abbreviation piece_key := (string * Z * bool)%type.
Definition key_of (p : parked_piece) : piece_key := (pp_cid_v1 p, pp_padded_size p, pp_long_term p).

(** The rows the partial unique index is about. *)
Definition pp_active (p : parked_piece) : Prop := pp_cleanup_task_id p = None.
#[export] Instance active_dec (p : parked_piece) : Decision (pp_active p).
Proof. unfold pp_active. apply _. Defined.

Definition active_row (k : piece_key) (p : parked_piece) : Prop := key_of p = k /\ pp_active p.
#[export] Instance active_row_dec (k : piece_key) (p : parked_piece) : Decision (active_row k p).
Proof. unfold active_row. apply _. Defined.

Definition set_pieces (f : gmap Z parked_piece -> gmap Z parked_piece) (d : park_db) : park_db :=
  mkParkDb (f (parked_pieces d)) (parked_piece_refs d) (next_piece_id d) (next_ref_id d) (active_index d).

(** Rows by ascending id. *)
Definition rows_by_id (m : gmap Z parked_piece) : list (Z * parked_piece) :=
  omap (fun i => (fun p => (i, p)) <$> m !! i) (merge_sort Z.le (map_to_list m).*1).

(** The lowest active row of a key. *)
Definition select_active (k : piece_key) (d : park_db) : option Z :=
  fst <$> head (base.filter (fun r : Z * parked_piece => active_row k r.2) (rows_by_id (parked_pieces d))).

(** The triggers on [parked_piece_refs]. *)
Definition add_count (n : Z) (p : parked_piece) : parked_piece :=
  mkParked (pp_cid_v1 p) (pp_padded_size p) (pp_raw_size p) (pp_complete p) (pp_task_id p) (pp_cleanup_task_id p) (pp_long_term p) (pp_skip p) (pp_ref_count p + n).

Definition increment_parked_piece_ref_count (id : Z) : gmap Z parked_piece -> gmap Z parked_piece := alter (add_count 1) id.
Definition decrement_parked_piece_ref_count (id : Z) : gmap Z parked_piece -> gmap Z parked_piece := alter (add_count (-1)) id.

(** A new ref; the foreign key wants its piece. *)
Definition insert_ref (r : piece_ref) (d : park_db) : option (park_db * Z) :=
  match parked_pieces d !! ref_piece_id r with
  | None => None
  | Some _ =>
      Some (mkParkDb (increment_parked_piece_ref_count (ref_piece_id r) (parked_pieces d)) (<[next_ref_id d := r]> (parked_piece_refs d)) (next_piece_id d) (next_ref_id d + 1) (active_index d), next_ref_id d)
  end.

Definition delete_ref (id : Z) (d : park_db) : park_db :=
  match parked_piece_refs d !! id with
  | None => d
  | Some r => mkParkDb (decrement_parked_piece_ref_count (ref_piece_id r) (parked_pieces d)) (delete id (parked_piece_refs d)) (next_piece_id d) (next_ref_id d) (active_index d)
  end.

(** Deleting a piece deletes its refs ([on delete cascade]). *)
Definition delete_piece (id : Z) (d : park_db) : park_db :=
  mkParkDb (delete id (parked_pieces d)) (base.filter (fun r : Z * piece_ref => ref_piece_id r.2 <> id) (parked_piece_refs d)) (next_piece_id d) (next_ref_id d) (active_index d).

(** Moving the refs of a piece, with [adjust_parked_piece_ref_count_on_update] for each. *)
Definition move_refs (winner : Z) (losers : list Z) (d : park_db) : option park_db :=
  let moved := base.filter (fun r : Z * piece_ref => ref_piece_id r.2 ∈ losers) (map_to_list (parked_piece_refs d)) in
  match moved, parked_pieces d !! winner with
  | _ :: _, None => None
  | _, _ =>
      Some (foldl (fun d (r : Z * piece_ref) =>
        mkParkDb
          (if bool_decide (ref_piece_id r.2 = winner) then parked_pieces d
           else increment_parked_piece_ref_count winner (decrement_parked_piece_ref_count (ref_piece_id r.2) (parked_pieces d)))
          (<[r.1 := mkRef winner (ref_data_url r.2) (ref_long_term r.2)]> (parked_piece_refs d)) (next_piece_id d) (next_ref_id d) (active_index d)) d moved)
  end.

(** ** [lib/parkpiece/upsert.go] *)

Inductive upsert_error := UniqueViolation | NoMatchingIndex | NoExistingRow.

(** An insert; [id] is drawn from the sequence.  A valid index refuses a second active
    row of a key. *)
Definition insert_piece (k : piece_key) (raw : Z) (skip : bool) (d : park_db) : option (park_db * Z) :=
  match active_index d, select_active k d with
  | true, Some _ => None
  | _, _ =>
      let '(cid, padded, longTerm) := k in
      Some (mkParkDb (<[next_piece_id d := mkParked cid padded raw false None None longTerm skip 0]> (parked_pieces d)) (parked_piece_refs d)
              (next_piece_id d + 1) (next_ref_id d) (active_index d), next_piece_id d)
  end.

(** What the process remembers of the index, and the answer of [ActiveIndexValid]. *)
Definition RefreshActiveIndexValid (d : park_db) (known : bool) : bool * bool := (active_index d, active_index d).
Definition ActiveIndexValid (d : park_db) (known : bool) : bool * bool := if known then (true, true) else RefreshActiveIndexValid d known.

(** Two statements; others may change the tables between them, from [d1] to [d2]. *)
Definition upsertFallbackWithInserted (d1 d2 : park_db) (k : piece_key) (raw : Z) (skip : option bool) : result (park_db * Z * bool) upsert_error :=
  match select_active k d1 with
  | Some id => Ok (d2, id, false)
  | None => match insert_piece k raw (default false skip) d2 with Some (d', id) => Ok (d', id, true) | None => Err UniqueViolation end
  end.

Definition upsertFallback (d1 d2 : park_db) (k : piece_key) (raw : Z) (skip : option bool) : result (park_db * Z) upsert_error :=
  match upsertFallbackWithInserted d1 d2 k raw skip with Ok (d', id, _) => Ok (d', id) | Err e => Err e end.

(** [INSERT .. ON CONFLICT .. RETURNING id]: the row and whether it is new.  Without
    a valid index the statement fails. *)
Definition insert_on_conflict (k : piece_key) (raw : Z) (skip : bool) (d : park_db) : result (park_db * Z * bool) upsert_error :=
  if negb (active_index d) then Err NoMatchingIndex
  else
    match select_active k d with
    | Some id => Ok (d, id, false)
    | None => match insert_piece k raw skip d with Some (d', id) => Ok (d', id, true) | None => Err UniqueViolation end
    end.

Definition Upsert (known : bool) (d1 d2 : park_db) (k : piece_key) (raw : Z) : bool * result (park_db * Z) upsert_error :=
  let '(indexValid, known') := ActiveIndexValid d1 known in
  (known', if indexValid then match insert_on_conflict k raw false d2 with Ok (d', id, _) => Ok (d', id) | Err e => Err e end
           else upsertFallback d1 d2 k raw None).

(** [DO NOTHING] returns a row only when it is inserted; the existing one is selected after. *)
Definition UpsertSkipWithInserted (known : bool) (d1 d2 : park_db) (k : piece_key) (raw : Z) (skip : bool) : bool * result (park_db * Z * bool) upsert_error :=
  let '(indexValid, known') := ActiveIndexValid d1 known in
  (known', if indexValid then
             match insert_on_conflict k raw skip d1 with
             | Err e => Err e
             | Ok (d', id, true) => Ok (d', id, true)
             | Ok (_, _, false) => match select_active k d2 with Some id => Ok (d2, id, false) | None => Err NoExistingRow end
             end
           else upsertFallbackWithInserted d1 d2 k raw (Some skip)).

Definition UpsertSkip (known : bool) (d1 d2 : park_db) (k : piece_key) (raw : Z) (skip : bool) : bool * result (park_db * Z) upsert_error :=
  match UpsertSkipWithInserted known d1 d2 k raw skip with
  | (known', Ok (d', id, _)) => (known', Ok (d', id))
  | (known', Err e) => (known', Err e)
  end.

(** ** [ParkPieceTask] *)

Section Park.
Context `{Enum}.

Definition park_pollable (longTerm : bool) (p : parked_piece) : Prop := pp_long_term p = longTerm /\ pp_complete p = false /\ pp_skip p = false /\ pp_task_id p = None.
#[export] Instance park_pollable_dec (longTerm : bool) (p : parked_piece) : Decision (park_pollable longTerm p).
Proof. unfold park_pollable. apply _. Defined.

(** The pieces [pollPieceTasks] makes tasks for. *)
Definition poll_pieces (longTerm : bool) (d : park_db) : list Z :=
  enum (base.filter (fun r : Z * parked_piece => park_pollable longTerm r.2) (map_to_list (parked_pieces d))).*1.

Definition set_task (t : option TaskID) (p : parked_piece) : parked_piece :=
  mkParked (pp_cid_v1 p) (pp_padded_size p) (pp_raw_size p) (pp_complete p) t (pp_cleanup_task_id p) (pp_long_term p) (pp_skip p) (pp_ref_count p).

(** The extra transaction of a new task: [None] when it does not commit. *)
Definition park_claim (longTerm : bool) (taskID : TaskID) (id : Z) (d : park_db) : option park_db :=
  match parked_pieces d !! id with
  | Some p => if bool_decide (park_pollable longTerm p) then Some (set_pieces (insert id (set_task (Some taskID) p)) d) else None
  | None => None
  end.

(** What comes of one ref: its headers do not parse, writing the piece fails, or works. *)
Inductive fetch := BadHeaders | WriteFailed | Written.

Inductive park_error := NoPieceData | NoRefs | HeaderError | NoSuitableUrl | MarkFailed.

(** The loop over the refs, up to the first one that is written. *)
Fixpoint try_refs (get : piece_ref -> fetch) (refs : list piece_ref) : result () park_error :=
  match refs with
  | [] => Err NoSuitableUrl
  | r :: rest =>
      if bool_decide (default ""%string (ref_data_url r) <> ""%string) then
        match get r with BadHeaders => Err HeaderError | WriteFailed => try_refs get rest | Written => Ok () end
      else try_refs get rest
  end.

Definition set_complete (p : parked_piece) : parked_piece :=
  mkParked (pp_cid_v1 p) (pp_padded_size p) (pp_raw_size p) true None (pp_cleanup_task_id p) (pp_long_term p) (pp_skip p) (pp_ref_count p).

Definition complete_piece (id : Z) (d : park_db) : park_db := set_pieces (alter set_complete id) d.

(** [Do], up to the last statement: the piece that was written, if any. *)
Definition park_write (longTerm : bool) (taskID : TaskID) (get : piece_ref -> fetch) (d : park_db) : result (option Z) park_error :=
  match enum (base.filter (fun r : Z * parked_piece => pp_task_id r.2 = Some taskID /\ pp_long_term r.2 = longTerm) (map_to_list (parked_pieces d))) with
  | [] => Err NoPieceData
  | (id, p) :: _ =>
      if pp_complete p then Ok None
      else
        match enum (base.filter (fun r : piece_ref => ref_piece_id r = id /\ ref_data_url r <> None) (map_to_list (parked_piece_refs d)).*2) with
        | [] => Err NoRefs
        | refs => match try_refs get refs with Err e => Err e | Ok _ => Ok (Some id) end
        end
  end.

(** The whole of [Do]; the tables may change from [d1] to [d2] while data is written. *)
Definition park_Do (longTerm : bool) (taskID : TaskID) (get : piece_ref -> fetch) (mark_ok : bool) (d1 d2 : park_db) : park_db * option Z * result () park_error :=
  match park_write longTerm taskID get d1 with
  | Err e => (d2, None, Err e)
  | Ok None => (d2, None, Ok ())
  | Ok (Some id) => if mark_ok then (complete_piece id d2, Some id, Ok ()) else (d2, Some id, Err MarkFailed)
  end.

(** [CanAccept]: [count] pieces are in the local storage, [running] tasks on the node. *)
Definition park_CanAccept (p2Active : bool) (maxInPark count running : Z) (ids : list TaskID) : list TaskID :=
  if p2Active then []
  else if maxInPark <=? 0 then ids
  else if count >=? maxInPark then []
  else if count + running >=? maxInPark then []
  else take (Z.to_nat (Z.min (maxInPark - count - running) (Z.of_nat (length ids)))) ids.

(** ** [CleanupPieceTask] *)

Definition cleanupCandidateBatch : nat := Z.to_nat 256.

Definition cleanup_eligible (p : parked_piece) : Prop := pp_cleanup_task_id p = None /\ pp_ref_count p = 0.
#[export] Instance cleanup_eligible_dec (p : parked_piece) : Decision (cleanup_eligible p).
Proof. unfold cleanup_eligible. apply _. Defined.

Definition cleanup_candidates (d : park_db) : list Z :=
  take cleanupCandidateBatch (base.filter (fun r : Z * parked_piece => cleanup_eligible r.2) (rows_by_id (parked_pieces d))).*1.

Definition set_cleanup (t : option TaskID) (p : parked_piece) : parked_piece :=
  mkParked (pp_cid_v1 p) (pp_padded_size p) (pp_raw_size p) (pp_complete p) (pp_task_id p) t (pp_long_term p) (pp_skip p) (pp_ref_count p).

Definition cleanup_claim (taskID : TaskID) (id : Z) (d : park_db) : option park_db :=
  match parked_pieces d !! id with
  | Some p => if bool_decide (cleanup_eligible p) then Some (set_pieces (insert id (set_cleanup (Some taskID) p)) d) else None
  | None => None
  end.

(** The guarded deletion: the tables and whether a row went. *)
Definition cleanup_delete (id : Z) (d : park_db) : park_db * bool :=
  match parked_pieces d !! id with
  | None => (d, false)
  | Some _ => if bool_decide (map_Forall (fun _ r => ref_piece_id r <> id) (parked_piece_refs d)) then (delete_piece id d, true) else (d, false)
  end.

(** Giving the piece back: a valid index refuses it when its key has an active row. *)
Definition cleanup_reset (id : Z) (d : park_db) : option park_db :=
  match parked_pieces d !! id with
  | None => Some d
  | Some p =>
      match active_index d, select_active (key_of p) d with
      | true, Some other => if bool_decide (other = id) then Some (set_pieces (insert id (set_cleanup None p)) d) else None
      | _, _ => Some (set_pieces (insert id (set_cleanup None p)) d)
      end
  end.

Inductive cleanup_error := NoSuchTask | ResetFailed.

(** [Do]: select, delete, then reset or remove from storage; [others] is what happens
    to the tables between two statements. *)
Definition cleanup_Do (taskID : TaskID) (others : park_db -> park_db) (d : park_db) : park_db * option Z * result () cleanup_error :=
  match enum (base.filter (fun r : Z * parked_piece => pp_cleanup_task_id r.2 = Some taskID) (map_to_list (parked_pieces d))) with
  | [] => (d, None, Err NoSuchTask)
  | (id, _) :: _ =>
      match cleanup_delete id (others d) with
      | (d', true) => (d', Some id, Ok ())
      | (d', false) => match cleanup_reset id (others d') with Some d'' => (d'', None, Ok ()) | None => (others d', None, Err ResetFailed) end
      end
  end.

(** ** [FixParkPieceTask] *)

(** Active rows of keys that have several, complete ones first. *)
Definition group_of (k : piece_key) (d : park_db) : list (Z * parked_piece) :=
  let rows := base.filter (fun r : Z * parked_piece => active_row k r.2) (rows_by_id (parked_pieces d)) in
  base.filter (fun r : Z * parked_piece => pp_complete r.2 = true) rows ++ base.filter (fun r : Z * parked_piece => pp_complete r.2 = false) rows.

Definition duplicate_groups (d : park_db) : list (piece_key * list (Z * parked_piece)) :=
  base.filter (fun g : piece_key * list (Z * parked_piece) => (1 < length g.2)%nat)
    ((fun k => (k, group_of k d)) <$> enum (remove_dups ((fun r : Z * parked_piece => key_of r.2) <$> map_to_list (parked_pieces d)))).

(** [task_active]: the task of the row still is in [harmony_task]. *)
Definition task_active (tasks : gset TaskID) (p : parked_piece) : bool := match pp_task_id p with Some t => bool_decide (t ∈ tasks) | None => false end.

(** The first row that is complete and can be read, or else the first that is not active. *)
Fixpoint pick_winner (tasks : gset TaskID) (readable : Z -> bool) (fallback : option Z) (dup : list (Z * parked_piece)) : option Z :=
  match dup with
  | [] => fallback
  | (id, p) :: rest =>
      if task_active tasks p then pick_winner tasks readable fallback rest
      else
        let fallback := match fallback with None => Some id | Some f => Some f end in
        if negb (pp_complete p) then pick_winner tasks readable fallback rest
        else if readable id then Some id
        else pick_winner tasks readable fallback rest
  end.

Definition losers_of (tasks : gset TaskID) (winner : Z) (dup : list (Z * parked_piece)) : list Z :=
  (base.filter (fun r : Z * parked_piece => r.1 <> winner /\ task_active tasks r.2 = false) dup).*1.

(** The transaction of a group: [None] when it fails. *)
Definition consolidate (winner : Z) (losers : list Z) (d : park_db) : option park_db :=
  match move_refs winner losers d with Some d' => Some (foldl (fun d id => delete_piece id d) d' losers) | None => None end.

Inductive fix_error := ConsolidateFailed.

(** The loop over the groups: the tables, the pieces to remove from storage, and whether
    the task still is ours. *)
Fixpoint fix_groups (tasks : gset TaskID) (readable : Z -> bool) (stillOwned : piece_key -> bool) (groups : list (piece_key * list (Z * parked_piece))) (d : park_db) : park_db * list Z * result bool fix_error :=
  match groups with
  | [] => (d, [], Ok true)
  | (k, dup) :: rest =>
      if negb (stillOwned k) then (d, [], Ok false)
      else
        match pick_winner tasks readable None dup with
        | None => fix_groups tasks readable stillOwned rest d
        | Some winner =>
            match losers_of tasks winner dup with
            | [] => fix_groups tasks readable stillOwned rest d
            | losers =>
                match consolidate winner losers d with
                | None => (d, [], Err ConsolidateFailed)
                | Some d' => let '(d'', removed, r) := fix_groups tasks readable stillOwned rest d' in (d'', losers ++ removed, r)
                end
            end
        end
  end.

(** The index is created anew; that fails when a key has several active rows. *)
Definition recreate_index (d : park_db) : park_db :=
  mkParkDb (parked_pieces d) (parked_piece_refs d) (next_piece_id d) (next_ref_id d) (bool_decide (duplicate_groups d = [])).

Definition fix_Do (tasks : gset TaskID) (readable : Z -> bool) (stillOwned : piece_key -> bool) (d : park_db) : park_db * list Z * result bool fix_error :=
  if active_index d then (d, [], Ok true)
  else
    match fix_groups tasks readable stillOwned (duplicate_groups d) d with
    | (d', removed, Ok true) => (recreate_index d', removed, Ok true)
    | other => other
    end.
End Park.
