(* ===== verification/ParkPieceFacts.v ===== *)
(** * What holds of parked pieces

    Rows and their refs agree with each other whatever uploads, parking, clean-up
    and repair do at the same time; the data of complete pieces stays in storage; and
    the repair task brings the unique index back. *)

From stdpp Require Import base gmap sets list strings sorting.
From Stdlib Require Import ZArith Lia.
From S2P Require Import Prelude HarmonyDB GoStd ParkPiece.

(** ** Rows *)

Lemma elem_of_rows (m : gmap Z parked_piece) (i : Z) (p : parked_piece) : (i, p) ∈ rows_by_id m <-> m !! i = Some p.
Proof.
  unfold rows_by_id. rewrite list_elem_of_omap. split.
  - intros (j & _ & E). destruct (m !! j) as [q|] eqn:Eq; [|done]. cbn in E. by injection E as <- <-.
  - intros E. exists i. rewrite E. split; [|done]. rewrite merge_sort_Permutation. apply list_elem_of_fmap. exists (i, p). split; [done|]. by apply elem_of_map_to_list.
Qed.

Lemma select_active_Some (k : piece_key) (d : park_db) (id : Z) : select_active k d = Some id -> exists p, parked_pieces d !! id = Some p /\ active_row k p.
Proof.
  unfold select_active. intros E. apply fmap_Some in E as ([i p] & Eh & ->). apply head_Some_elem_of in Eh.
  apply list_elem_of_filter in Eh as [Ha Hin]. apply elem_of_rows in Hin. by exists p.
Qed.

Lemma select_active_None (k : piece_key) (d : park_db) (id : Z) (p : parked_piece) : select_active k d = None -> parked_pieces d !! id = Some p -> ~ active_row k p.
Proof.
  unfold select_active. intros E Hp Ha. apply fmap_None, head_None in E. apply (not_elem_of_nil (id, p)). rewrite <- E.
  apply list_elem_of_filter. split; [done|]. by apply elem_of_rows.
Qed.

(** ** Counting refs *)

Definition refs_of (id : Z) (refs : gmap Z piece_ref) : nat := size (base.filter (fun r : Z * piece_ref => ref_piece_id r.2 = id) refs).

Lemma refs_of_insert (id n : Z) (r : piece_ref) (refs : gmap Z piece_ref) : refs !! n = None ->
  refs_of id (<[n := r]> refs) = ((if bool_decide (ref_piece_id r = id) then 1 else 0) + refs_of id refs)%nat.
Proof.
  intros Hn. unfold refs_of. rewrite map_filter_insert. case_bool_decide as E; cbn [snd] in *.
  - rewrite decide_True by done. rewrite map_size_insert_None; [lia|]. apply map_lookup_filter_None. by left.
  - rewrite decide_False by done. rewrite delete_id by done. lia.
Qed.

Lemma refs_of_delete (id n : Z) (r : piece_ref) (refs : gmap Z piece_ref) : refs !! n = Some r ->
  refs_of id refs = ((if bool_decide (ref_piece_id r = id) then 1 else 0) + refs_of id (delete n refs))%nat.
Proof. intros Hn. rewrite <- (insert_delete_id refs n r) at 1 by done. apply refs_of_insert. apply lookup_delete_eq. Qed.

Lemma refs_of_filter (id x : Z) (refs : gmap Z piece_ref) : id <> x -> refs_of id (base.filter (fun r : Z * piece_ref => ref_piece_id r.2 <> x) refs) = refs_of id refs.
Proof.
  intros Hx. unfold refs_of. rewrite map_filter_filter. f_equal. apply map_filter_ext. intros i r _. cbn. split; [by intros [? _]|]. intros ->. by split.
Qed.

Lemma refs_of_none (id : Z) (refs : gmap Z piece_ref) : map_Forall (fun _ r => ref_piece_id r <> id) refs -> refs_of id refs = 0%nat.
Proof. intros Hf. unfold refs_of. apply map_size_empty_iff, map_empty_filter. intros n r Hn. by apply (Hf n r). Qed.

(** ** The invariant of the tables *)

Record db_ok (d : park_db) : Prop := mkDbOk {
  ok_pieces : forall id p, parked_pieces d !! id = Some p -> id < next_piece_id d;
  ok_refs : forall n r, parked_piece_refs d !! n = Some r -> n < next_ref_id d /\ is_Some (parked_pieces d !! ref_piece_id r);
  ok_count : forall id p, parked_pieces d !! id = Some p -> pp_ref_count p = Z.of_nat (refs_of id (parked_piece_refs d));
  ok_unique : active_index d = true -> forall i j p q, parked_pieces d !! i = Some p -> parked_pieces d !! j = Some q ->
    pp_active p -> pp_active q -> key_of p = key_of q -> i = j }.

(** Later tables: ids are not given out again, and a row keeps its key. *)
Definition grows (d d' : park_db) : Prop :=
  next_piece_id d <= next_piece_id d' /\
  forall id p', id < next_piece_id d -> parked_pieces d' !! id = Some p' -> exists p, parked_pieces d !! id = Some p /\ key_of p = key_of p'.

#[export] Instance grows_preorder : PreOrder grows.
Proof.
  split; [intros d; split; [lia|eauto]|]. intros a b c [H1 K1] [H2 K2]. split; [lia|]. intros id p Hid Hp.
  destruct (K2 id p ltac:(lia) Hp) as (q & Hq & Eq). destruct (K1 id q Hid Hq) as (s & Hs & Es). exists s. split; [done|congruence].
Qed.

(** An update of a row that leaves alone what the invariant is about. *)
Lemma alter_ok (f : parked_piece -> parked_piece) (id : Z) (d : park_db) :
  (forall p, key_of (f p) = key_of p /\ pp_ref_count (f p) = pp_ref_count p) ->
  (forall p, parked_pieces d !! id = Some p -> pp_active (f p) -> pp_active p \/ forall j q, j <> id -> parked_pieces d !! j = Some q -> pp_active q -> active_index d = true -> key_of q <> key_of p) ->
  db_ok d -> db_ok (set_pieces (alter f id) d) /\ grows d (set_pieces (alter f id) d).
Proof.
  intros Hf Ha []. split; [constructor; cbn [set_pieces parked_pieces parked_piece_refs next_piece_id next_ref_id active_index]|].
  - intros i p Hi. apply lookup_alter_Some in Hi as [(<- & q & Hq & ->)|[_ Hi]]; eauto.
  - intros n r Hr. destruct (ok_refs0 n r Hr) as [Hn [q Hq]]. split; [done|]. apply lookup_alter_is_Some. by eexists.
  - intros i p Hi. apply lookup_alter_Some in Hi as [(<- & q & Hq & ->)|[_ Hi]]; [|eauto]. rewrite (proj2 (Hf q)). eauto.
  - intros Hix i j p q Hi Hj Hpa Hqa Hk.
    apply lookup_alter_Some in Hi as [(<- & p0 & Hp0 & ->)|[Hni Hi]]; apply lookup_alter_Some in Hj as [(<- & q0 & Hq0 & ->)|[Hnj Hj]]; [done| | |eauto].
    + destruct (Hf p0) as [Kp _]. destruct (Ha p0 Hp0 Hpa) as [Hp|Hn]; [by apply (ok_unique0 Hix id j p0 q); try congruence|]. exfalso. apply (Hn j q); congruence.
    + destruct (Hf q0) as [Kq _]. destruct (Ha q0 Hq0 Hqa) as [Hq|Hn]; [by apply (ok_unique0 Hix i id p q0); try congruence|]. exfalso. apply (Hn i p); congruence.
  - split; [cbn; lia|]. cbn. intros i p' _ Hi. apply lookup_alter_Some in Hi as [(<- & q & Hq & ->)|[_ Hi]]; [|eauto]. exists q. split; [done|]. symmetry. apply Hf.
Qed.

Lemma insert_is_alter (f : parked_piece -> parked_piece) (id : Z) (p : parked_piece) (d : park_db) : parked_pieces d !! id = Some p ->
  set_pieces (insert id (f p)) d = set_pieces (alter f id) d.
Proof. intros Hp. unfold set_pieces. f_equal. apply map_eq. intros i. rewrite lookup_alter, lookup_insert. case_decide as E; [|done]. subst i. by rewrite Hp. Qed.

(** ** The statements keep the invariant *)

Ltac proj := cbn [parked_pieces parked_piece_refs next_piece_id next_ref_id active_index set_pieces] in *.

Lemma count_alter (n : Z) (id : Z) (m : gmap Z parked_piece) (i : Z) (p : parked_piece) : alter (add_count n) id m !! i = Some p ->
  exists q, m !! i = Some q /\ key_of p = key_of q /\ (pp_active p <-> pp_active q) /\ pp_ref_count p = pp_ref_count q + (if bool_decide (i = id) then n else 0).
Proof.
  intros Hi. apply lookup_alter_Some in Hi as [(<- & q & Hq & ->)|[Hne Hi]]; [exists q|exists p].
  - rewrite bool_decide_eq_true_2 by done. by repeat split.
  - rewrite bool_decide_eq_false_2 by done. repeat split; auto. lia.
Qed.

Lemma insert_ref_ok (r : piece_ref) (d d' : park_db) (n : Z) : insert_ref r d = Some (d', n) -> db_ok d ->
  db_ok d' /\ grows d d' /\ n = next_ref_id d /\ parked_piece_refs d' = <[n := r]> (parked_piece_refs d) /\
    forall id, is_Some (parked_pieces d' !! id) <-> is_Some (parked_pieces d !! id).
Proof.
  unfold insert_ref. intros E []. destruct (parked_pieces d !! ref_piece_id r) as [p0|] eqn:Ep; [|done]. injection E as <- <-.
  assert (parked_piece_refs d !! next_ref_id d = None) as Hfresh by (apply eq_None_not_Some; intros [x Hx]; apply ok_refs0 in Hx; lia).
  unfold increment_parked_piece_ref_count. split; [constructor; proj|split; [split; proj; [lia|]|split; [done|split; [done|]]]].
  - intros id p Hi. apply count_alter in Hi as (q & Hq & _). eauto.
  - intros n s Hs. rewrite lookup_alter_is_Some. apply lookup_insert_Some in Hs as [[<- <-]|[_ Hs]]; [split; [lia|by eexists]|]. apply ok_refs0 in Hs. split; [lia|apply Hs].
  - intros id p Hi. apply count_alter in Hi as (q & Hq & _ & _ & ->). rewrite (ok_count0 id q Hq), refs_of_insert by done.
    rewrite (bool_decide_ext (id = ref_piece_id r) (ref_piece_id r = id)) by done. case_bool_decide; lia.
  - intros Hix i j p q Hi Hj Ha Hb Hk. apply count_alter in Hi as (p1 & Hp1 & K1 & A1 & _). apply count_alter in Hj as (q1 & Hq1 & K2 & A2 & _).
    apply (ok_unique0 Hix i j p1 q1); try done; [by apply A1|by apply A2|congruence].
  - intros id p _ Hi. apply count_alter in Hi as (q & Hq & K & _). by exists q.
  - intros id. proj. apply lookup_alter_is_Some.
Qed.

Lemma delete_ref_ok (n : Z) (d : park_db) : db_ok d -> db_ok (delete_ref n d) /\ grows d (delete_ref n d).
Proof.
  intros Hok. unfold delete_ref. destruct (parked_piece_refs d !! n) as [r|] eqn:Er; [|by split]. destruct Hok. unfold decrement_parked_piece_ref_count.
  split; [constructor; proj|split; proj; [lia|]].
  - intros id p Hi. apply count_alter in Hi as (q & Hq & _). eauto.
  - intros m s Hs. rewrite lookup_alter_is_Some. apply lookup_delete_Some in Hs as [_ Hs]. eauto.
  - intros id p Hi. apply count_alter in Hi as (q & Hq & _ & _ & ->). rewrite (ok_count0 id q Hq), (refs_of_delete id n r) by done.
    rewrite (bool_decide_ext (id = ref_piece_id r) (ref_piece_id r = id)) by done. case_bool_decide; lia.
  - intros Hix i j p q Hi Hj Ha Hb Hk. apply count_alter in Hi as (p1 & Hp1 & K1 & A1 & _). apply count_alter in Hj as (q1 & Hq1 & K2 & A2 & _).
    apply (ok_unique0 Hix i j p1 q1); try done; [by apply A1|by apply A2|congruence].
  - intros id p _ Hi. apply count_alter in Hi as (q & Hq & K & _). by exists q.
Qed.

Lemma delete_piece_ok (id : Z) (d : park_db) : db_ok d -> db_ok (delete_piece id d) /\ grows d (delete_piece id d).
Proof.
  intros []. unfold delete_piece. split; [constructor; proj|split; proj; [lia|]].
  - intros i p Hi. apply lookup_delete_Some in Hi as [_ Hi]. eauto.
  - intros n r Hr. apply map_lookup_filter_Some in Hr as [Hr Hne]. cbn in Hne. destruct (ok_refs0 n r Hr) as [? ?]. split; [done|]. by rewrite lookup_delete_ne.
  - intros i p Hi. apply lookup_delete_Some in Hi as [Hne Hi]. rewrite (ok_count0 i p Hi). f_equal. symmetry. by apply refs_of_filter.
  - intros Hix i j p q Hi Hj. apply lookup_delete_Some in Hi as [_ Hi]. apply lookup_delete_Some in Hj as [_ Hj]. eauto.
  - intros i p _ Hi. apply lookup_delete_Some in Hi as [_ Hi]. eauto.
Qed.

Lemma insert_piece_ok (k : piece_key) (raw : Z) (skip : bool) (d d' : park_db) (id : Z) : insert_piece k raw skip d = Some (d', id) -> db_ok d ->
  db_ok d' /\ grows d d' /\ id = next_piece_id d /\ parked_piece_refs d' = parked_piece_refs d /\ active_index d' = active_index d
    /\ exists p, parked_pieces d' = <[id := p]> (parked_pieces d) /\ active_row k p /\ pp_complete p = false.
Proof.
  unfold insert_piece. intros E Hok. destruct k as [[cid padded] longTerm].
  set (p := mkParked cid padded raw false None None longTerm skip 0) in *.
  assert ((active_index d = true -> select_active (cid, padded, longTerm) d = None)
    /\ d' = mkParkDb (<[next_piece_id d := p]> (parked_pieces d)) (parked_piece_refs d) (next_piece_id d + 1) (next_ref_id d) (active_index d) /\ id = next_piece_id d) as (Hsel & -> & ->).
  { destruct (active_index d), (select_active (cid, padded, longTerm) d); try done; injection E as <- <-; done. }
  destruct Hok. assert (parked_pieces d !! next_piece_id d = None) as Hfresh by (apply eq_None_not_Some; intros [x Hx]; apply ok_pieces0 in Hx; lia).
  split; [constructor; proj|split; [split; proj; [lia|]|]].
  - intros i q Hi. apply lookup_insert_Some in Hi as [[<- _]|[_ Hi]]; [lia|]. apply ok_pieces0 in Hi. lia.
  - intros n r Hr. destruct (ok_refs0 n r Hr) as [Hn [q Hq]]. split; [done|]. rewrite lookup_insert_ne by (intros E'; rewrite <- E', Hfresh in Hq; done). by eexists.
  - intros i q Hi. apply lookup_insert_Some in Hi as [[<- <-]|[_ Hi]]; [|eauto]. rewrite refs_of_none; [done|]. intros n r Hr E'. apply ok_refs0 in Hr as [_ [x Hx]].
    rewrite E', Hfresh in Hx. done.
  - intros Hix i j q s Hi Hj Ha Hb Hk. specialize (Hsel Hix).
    apply lookup_insert_Some in Hi as [[<- <-]|[_ Hi]]; apply lookup_insert_Some in Hj as [[<- <-]|[_ Hj]]; [done| | |eauto].
    + destruct (select_active_None _ d j s Hsel Hj). by split.
    + destruct (select_active_None _ d i q Hsel Hi). by split.
  - intros i q Hlt Hi. apply lookup_insert_Some in Hi as [[<- _]|[_ Hi]]; [lia|]. eauto.
  - split; [done|]. split; [done|]. split; [done|]. by exists p.
Qed.

(** Statements of the tasks on one row. *)
Lemma park_claim_ok (longTerm : bool) (t : TaskID) (id : Z) (d d' : park_db) : park_claim longTerm t id d = Some d' -> db_ok d ->
  d' = set_pieces (alter (set_task (Some t)) id) d /\ db_ok d' /\ grows d d'.
Proof.
  unfold park_claim. intros E Hok. destruct (parked_pieces d !! id) as [p|] eqn:Ep; [|done]. case_bool_decide; [|done]. injection E as <-.
  rewrite (insert_is_alter (set_task (Some t)) id p d Ep). split; [done|]. by apply alter_ok; auto.
Qed.

Lemma complete_piece_ok (id : Z) (d : park_db) : db_ok d -> db_ok (complete_piece id d) /\ grows d (complete_piece id d).
Proof. apply alter_ok; auto. Qed.

Lemma cleanup_claim_ok (t : TaskID) (id : Z) (d d' : park_db) : cleanup_claim t id d = Some d' -> db_ok d ->
  d' = set_pieces (alter (set_cleanup (Some t)) id) d /\ db_ok d' /\ grows d d'.
Proof.
  unfold cleanup_claim. intros E Hok. destruct (parked_pieces d !! id) as [p|] eqn:Ep; [|done]. case_bool_decide; [|done]. injection E as <-.
  rewrite (insert_is_alter (set_cleanup (Some t)) id p d Ep). split; [done|]. by apply alter_ok; auto.
Qed.

Lemma cleanup_reset_ok (id : Z) (d d' : park_db) : cleanup_reset id d = Some d' -> db_ok d ->
  d' = set_pieces (alter (set_cleanup None) id) d /\ db_ok d' /\ grows d d'.
Proof.
  unfold cleanup_reset. intros E Hok. destruct (parked_pieces d !! id) as [p|] eqn:Ep.
  2:{ injection E as <-. split; [|done]. destruct d as [m rs n1 n2 ix]. unfold set_pieces. cbn [parked_pieces] in *. f_equal. apply map_eq. intros i. rewrite lookup_alter.
      case_decide as Ei; [|done]. subst i. by rewrite Ep. }
  assert (d' = set_pieces (insert id (set_cleanup None p)) d /\ (active_index d = true -> forall j q, j <> id -> parked_pieces d !! j = Some q -> pp_active q -> key_of q <> key_of p)) as [-> Hfree].
  { destruct (active_index d) eqn:Eix; [|injection E as <-; by split; [done|intros [=]]]. destruct (select_active (key_of p) d) as [o|] eqn:Es.
    - case_bool_decide as Eo; [|done]. injection E as <-. split; [done|]. intros _ j q Hj Hq Ha Hk. apply select_active_Some in Es as (x & Hx & Kx & Ax). subst o.
      apply Hj. by apply (ok_unique d Hok Eix j id q x); congruence.
    - injection E as <-. split; [done|]. intros _ j q Hj Hq Ha Hk. by apply (select_active_None _ d j q Es Hq). }
  rewrite (insert_is_alter (set_cleanup None) id p d Ep). split; [done|]. apply alter_ok; [done| |done].
  intros q Hq _. right. intros j s Hj Hs Ha Hix Hk. rewrite Ep in Hq. injection Hq as <-. by apply (Hfree Hix j s).
Qed.

(** ** Moving refs *)

Definition retarget (winner : Z) (losers : list Z) (r : piece_ref) : piece_ref :=
  if bool_decide (ref_piece_id r ∈ losers) then mkRef winner (ref_data_url r) (ref_long_term r) else r.

Definition move_one (winner : Z) (d : park_db) (r : Z * piece_ref) : park_db :=
  mkParkDb
    (if bool_decide (ref_piece_id r.2 = winner) then parked_pieces d
     else increment_parked_piece_ref_count winner (decrement_parked_piece_ref_count (ref_piece_id r.2) (parked_pieces d)))
    (<[r.1 := mkRef winner (ref_data_url r.2) (ref_long_term r.2)]> (parked_piece_refs d)) (next_piece_id d) (next_ref_id d) (active_index d).

(** The rows apart from their counts. *)
Definition same_rows (d d' : park_db) : Prop :=
  next_piece_id d' = next_piece_id d /\ next_ref_id d' = next_ref_id d /\ active_index d' = active_index d
  /\ forall id, match parked_pieces d' !! id, parked_pieces d !! id with
       | Some p', Some p => exists n, p' = add_count n p
       | None, None => True
       | _, _ => False
       end.

Lemma add_count_add (a b : Z) (p : parked_piece) : add_count a (add_count b p) = add_count (b + a) p.
Proof. unfold add_count. cbn. f_equal. lia. Qed.

Lemma move_one_ok (winner : Z) (d : park_db) (n : Z) (r : piece_ref) : db_ok d -> parked_piece_refs d !! n = Some r -> is_Some (parked_pieces d !! winner) ->
  db_ok (move_one winner d (n, r)) /\ same_rows d (move_one winner d (n, r)).
Proof.
  intros [] Hn Hw. unfold move_one. cbn [fst snd].
  set (m' := if bool_decide (ref_piece_id r = winner) then _ else _).
  assert (forall id p', m' !! id = Some p' -> exists p, parked_pieces d !! id = Some p /\
    p' = add_count ((if bool_decide (id = winner) then 1 else 0) - (if bool_decide (id = ref_piece_id r) then 1 else 0)) p) as Hm.
  { intros id p' Hp. unfold m' in Hp. case_bool_decide as Er.
    - exists p'. split; [done|]. subst winner. replace (_ - _) with 0 by lia. unfold add_count. destruct p'; cbn. f_equal. lia.
    - unfold increment_parked_piece_ref_count, decrement_parked_piece_ref_count in Hp.
      destruct (decide (id = winner)) as [->|Hw']; [rewrite lookup_alter_eq, lookup_alter_ne in Hp by done|rewrite lookup_alter_ne in Hp by done; destruct (decide (id = ref_piece_id r)) as [->|Hr']; [rewrite lookup_alter_eq in Hp|rewrite lookup_alter_ne in Hp by done]];
        (destruct (parked_pieces d !! _) as [p|] eqn:Ep in Hp; [|done]); exists p; (split; [done|]); destruct p; cbn in Hp; injection Hp as <-; repeat case_bool_decide; try done; unfold add_count; cbn; f_equal; lia. }
  assert (forall id, is_Some (m' !! id) <-> is_Some (parked_pieces d !! id)) as Hdom.
  { intros id. unfold m', increment_parked_piece_ref_count, decrement_parked_piece_ref_count. case_bool_decide; [done|]. by rewrite !lookup_alter_is_Some. }
  split; [constructor; proj|].
  - intros id p Hp. apply Hm in Hp as (q & Hq & _). eauto.
  - intros i s Hs. rewrite Hdom. apply lookup_insert_Some in Hs as [[<- <-]|[_ Hs]]; [|eauto]. split; [by apply (ok_refs0 n r)|done].
  - intros id p Hp. apply Hm in Hp as (q & Hq & ->). cbn [add_count pp_ref_count]. rewrite (ok_count0 id q Hq), (refs_of_delete id n r (parked_piece_refs d)) by done.
    rewrite <- insert_delete_eq, refs_of_insert by apply lookup_delete_eq. cbn [ref_piece_id].
    rewrite (bool_decide_ext (id = winner) (winner = id)), (bool_decide_ext (id = ref_piece_id r) (ref_piece_id r = id)) by done. repeat case_bool_decide; lia.
  - intros Hix i j p q Hp Hq Ha Hb Hk. apply Hm in Hp as (p1 & Hp1 & ->). apply Hm in Hq as (q1 & Hq1 & ->). by apply (ok_unique0 Hix i j p1 q1).
  - split; [done|]. split; [done|]. split; [done|]. intros id. proj. destruct (m' !! id) as [p'|] eqn:Ep'.
    + apply Hm in Ep' as (p & -> & ->). by eexists.
    + destruct (parked_pieces d !! id) as [p|] eqn:Ep; [|done]. destruct (proj2 (Hdom id)) as [x Hx]; [by eexists|congruence].
Qed.

Lemma same_rows_trans (a b c : park_db) : same_rows a b -> same_rows b c -> same_rows a c.
Proof.
  intros (A1 & A2 & A3 & A4) (B1 & B2 & B3 & B4). split; [congruence|]. split; [congruence|]. split; [congruence|]. intros id. specialize (A4 id). specialize (B4 id).
  destruct (parked_pieces a !! id), (parked_pieces b !! id), (parked_pieces c !! id); try done. destruct A4 as [x ->]. destruct B4 as [y ->]. eexists. apply add_count_add.
Qed.

Lemma same_rows_refl (d : park_db) : same_rows d d.
Proof. do 3 (split; [done|]). intros id. destruct (parked_pieces d !! id) as [p|]; [|done]. exists 0. unfold add_count. destruct p; cbn. f_equal. lia. Qed.

Lemma same_rows_Some (d d' : park_db) (id : Z) (p : parked_piece) : same_rows d d' -> parked_pieces d !! id = Some p -> exists n, parked_pieces d' !! id = Some (add_count n p).
Proof. intros (_ & _ & _ & H) Hp. specialize (H id). rewrite Hp in H. destruct (parked_pieces d' !! id); [|done]. destruct H as [n ->]. by exists n. Qed.

Lemma same_rows_inv (d d' : park_db) (id : Z) (p' : parked_piece) : same_rows d d' -> parked_pieces d' !! id = Some p' -> exists n p, parked_pieces d !! id = Some p /\ p' = add_count n p.
Proof. intros (_ & _ & _ & H) Hp. specialize (H id). rewrite Hp in H. destruct (parked_pieces d !! id) as [p|]; [|done]. destruct H as [n ->]. by exists n, p. Qed.

Lemma same_rows_grows (d d' : park_db) : same_rows d d' -> grows d d'.
Proof.
  intros H. split; [destruct H as (-> & _); lia|]. intros id p' _ Hp'. destruct (same_rows_inv d d' id p' H Hp') as (n & p & Hp & ->). by exists p.
Qed.

Lemma move_list_ok (winner : Z) (l : list (Z * piece_ref)) (d : park_db) : db_ok d -> is_Some (parked_pieces d !! winner) -> NoDup l.*1 ->
  (forall n r, (n, r) ∈ l -> parked_piece_refs d !! n = Some r) ->
  let d' := foldl (move_one winner) d l in
  db_ok d' /\ same_rows d d' /\ forall n, parked_piece_refs d' !! n = if bool_decide (n ∈ l.*1) then (fun r => mkRef winner (ref_data_url r) (ref_long_term r)) <$> parked_piece_refs d !! n else parked_piece_refs d !! n.
Proof.
  revert d. induction l as [|[n r] l IH]; intros d Hok Hw Hnd Hl; cbn [foldl fmap list_fmap].
  { split; [done|]. split; [apply same_rows_refl|]. intros n. by rewrite bool_decide_eq_false_2 by apply not_elem_of_nil. }
  cbn [fmap list_fmap fst] in Hnd. apply NoDup_cons in Hnd as [Hnin Hnd].
  destruct (move_one_ok winner d n r Hok (Hl n r ltac:(left)) Hw) as [Hok1 Hs1].
  destruct (IH (move_one winner d (n, r)) Hok1) as (Hok2 & Hs2 & Hr2); [destruct Hw as [w Hw]; destruct (same_rows_Some _ _ _ _ Hs1 Hw) as [z Hz]; by eexists|done| |].
  { intros m s Hin. unfold move_one. proj. cbn [fst]. rewrite lookup_insert_ne; [apply Hl; by right|]. intros <-. apply Hnin. apply list_elem_of_fmap. by exists (n, s). }
  split; [done|]. split; [by eapply same_rows_trans|]. intros m. rewrite Hr2. unfold move_one. proj. cbn [fst snd]. destruct (decide (m = n)) as [->|Hne].
  - rewrite bool_decide_eq_false_2 by done. rewrite (bool_decide_eq_true_2 (n ∈ n :: l.*1)) by left. rewrite lookup_insert_eq, (Hl n r) by left. done.
  - rewrite lookup_insert_ne by done. rewrite (bool_decide_ext (m ∈ n :: l.*1) (m ∈ l.*1)); [done|]. rewrite elem_of_cons. split; [by intros [?|?]|by right].
Qed.

Lemma move_refs_ok (winner : Z) (losers : list Z) (d d' : park_db) : move_refs winner losers d = Some d' -> db_ok d ->
  db_ok d' /\ same_rows d d' /\ parked_piece_refs d' = retarget winner losers <$> parked_piece_refs d.
Proof.
  unfold move_refs. set (moved := base.filter _ (map_to_list _)). intros E Hok.
  assert (forall n r, (n, r) ∈ moved <-> parked_piece_refs d !! n = Some r /\ ref_piece_id r ∈ losers) as Hin.
  { intros n r. unfold moved. rewrite list_elem_of_filter, elem_of_map_to_list. cbn. tauto. }
  assert (NoDup moved.*1) as Hnd.
  { apply (sublist_NoDup _ (map_to_list (parked_piece_refs d)).*1); [apply NoDup_fst_map_to_list|]. apply fmap_sublist. unfold moved. apply sublist_filter. }
  assert (d' = foldl (move_one winner) d moved /\ (moved <> [] -> is_Some (parked_pieces d !! winner))) as [-> Hw].
  { destruct moved as [|x l] eqn:El; [injection E as <-; done|]. destruct (parked_pieces d !! winner) as [w|]; [|done]. injection E as <-. split; [done|by eexists]. }
  assert (db_ok (foldl (move_one winner) d moved) /\ same_rows d (foldl (move_one winner) d moved)
    /\ forall n, parked_piece_refs (foldl (move_one winner) d moved) !! n = if bool_decide (n ∈ moved.*1) then (fun r => mkRef winner (ref_data_url r) (ref_long_term r)) <$> parked_piece_refs d !! n else parked_piece_refs d !! n) as (H1 & H2 & H3).
  { destruct (decide (moved = [])) as [->|Hne]; [|apply move_list_ok; [done|by apply Hw|done|intros n r; by rewrite Hin; intros [? _]]].
    split; [done|]. split; [apply same_rows_refl|]. intros n. by rewrite bool_decide_eq_false_2 by apply not_elem_of_nil. }
  split; [done|]. split; [done|]. apply map_eq. intros n. rewrite H3, lookup_fmap. destruct (parked_piece_refs d !! n) as [r|] eqn:Er; [|by case_bool_decide].
  cbn. unfold retarget. rewrite (bool_decide_ext (n ∈ moved.*1) (ref_piece_id r ∈ losers)); [by case_bool_decide|]. rewrite list_elem_of_fmap. split.
  - intros ([m s] & -> & Hm). apply Hin in Hm as [Hm Hl]. cbn in Er. rewrite Er in Hm. by injection Hm as <-.
  - intros Hl. exists (n, r). split; [done|]. by apply Hin.
Qed.

Lemma delete_pieces_ok (ids : list Z) (d : park_db) : db_ok d -> map_Forall (fun _ r => ref_piece_id r ∉ ids) (parked_piece_refs d) ->
  let d' := foldl (fun d id => delete_piece id d) d ids in
  db_ok d' /\ grows d d' /\ next_piece_id d' = next_piece_id d /\ active_index d' = active_index d /\ parked_piece_refs d' = parked_piece_refs d
  /\ forall id, parked_pieces d' !! id = if bool_decide (id ∈ ids) then None else parked_pieces d !! id.
Proof.
  revert d. induction ids as [|x ids IH]; intros d Hok Hf; cbn [foldl].
  { split; [done|]. split; [done|]. do 3 (split; [done|]). intros id. by rewrite bool_decide_eq_false_2 by apply not_elem_of_nil. }
  destruct (delete_piece_ok x d Hok) as [Hok1 Hg1].
  assert (parked_piece_refs (delete_piece x d) = parked_piece_refs d) as Hr1.
  { unfold delete_piece. proj. apply map_filter_id. intros n r Hn Hx. cbn in Hx. apply (Hf n r Hn). rewrite Hx. left. }
  destruct (IH (delete_piece x d) Hok1) as (H1 & H2 & H3 & H4 & H5 & H6); [rewrite Hr1; intros n r Hn Hx; apply (Hf n r Hn); by right|].
  split; [done|]. split; [by etrans|]. split; [done|]. split; [done|]. split; [congruence|]. intros id. rewrite H6. unfold delete_piece. proj.
  destruct (decide (id = x)) as [->|Hne].
  - rewrite lookup_delete_eq, (bool_decide_eq_true_2 (x ∈ x :: ids)) by left. by case_bool_decide.
  - rewrite lookup_delete_ne by done. rewrite (bool_decide_ext (id ∈ x :: ids) (id ∈ ids)); [done|]. rewrite elem_of_cons. split; [by intros [?|?]|by right].
Qed.

(** A group is joined: its losers are gone, every other row is as before, and the refs of
    losers are refs of the winner. *)
Lemma consolidate_ok (winner : Z) (losers : list Z) (d d' : park_db) : consolidate winner losers d = Some d' -> db_ok d -> winner ∉ losers ->
  db_ok d' /\ grows d d' /\ next_piece_id d' = next_piece_id d /\ active_index d' = active_index d
  /\ parked_piece_refs d' = retarget winner losers <$> parked_piece_refs d
  /\ (forall id, id ∈ losers -> parked_pieces d' !! id = None)
  /\ (forall id p', parked_pieces d' !! id = Some p' -> exists n p, parked_pieces d !! id = Some p /\ p' = add_count n p)
  /\ (forall id p, id ∉ losers -> parked_pieces d !! id = Some p -> exists n, parked_pieces d' !! id = Some (add_count n p)).
Proof.
  unfold consolidate. intros E Hok Hw. destruct (move_refs winner losers d) as [d1|] eqn:Em; [|done]. injection E as <-.
  destruct (move_refs_ok _ _ _ _ Em Hok) as (Hok1 & Hs1 & Hr1).
  destruct (delete_pieces_ok losers d1 Hok1) as (H1 & H2 & H3 & H4 & H5 & H6).
  { rewrite Hr1. intros n r Hn. apply lookup_fmap_Some in Hn as (r0 & <- & Hn). unfold retarget. by case_bool_decide. }
  pose proof Hs1 as (S1 & S2 & S3 & _). split; [done|]. split; [etrans; [by apply same_rows_grows|done]|]. split; [congruence|]. split; [congruence|]. split; [congruence|].
  split; [|split].
  - intros id Hid. rewrite H6. by rewrite bool_decide_eq_true_2.
  - intros id p' Hp. rewrite H6 in Hp. case_bool_decide; [done|]. by apply (same_rows_inv d d1).
  - intros id p Hid Hp. rewrite H6. rewrite bool_decide_eq_false_2 by done. by apply (same_rows_Some d d1).
Qed.

(** ** Groups of duplicates *)

Section Groups.
Context `{Enum}.

Lemma elem_of_group (k : piece_key) (d : park_db) (id : Z) (p : parked_piece) : (id, p) ∈ group_of k d <-> parked_pieces d !! id = Some p /\ active_row k p.
Proof.
  unfold group_of. rewrite elem_of_app, !list_elem_of_filter, elem_of_rows. cbn. destruct (pp_complete p); intuition discriminate.
Qed.

Lemma elem_of_groups (d : park_db) (k : piece_key) (dup : list (Z * parked_piece)) : (k, dup) ∈ duplicate_groups d -> dup = group_of k d /\ (1 < length dup)%nat.
Proof.
  unfold duplicate_groups. rewrite list_elem_of_filter. intros [Hl Hin]. apply list_elem_of_fmap in Hin as (k' & E & _). injection E as -> ->. done.
Qed.

(** Two active rows of a key are found. *)
Lemma duplicate_found (d : park_db) (i j : Z) (p q : parked_piece) : parked_pieces d !! i = Some p -> parked_pieces d !! j = Some q ->
  pp_active p -> pp_active q -> key_of p = key_of q -> i <> j -> (key_of p, group_of (key_of p) d) ∈ duplicate_groups d.
Proof.
  intros Hp Hq Ha Hb Hk Hij. unfold duplicate_groups. apply list_elem_of_filter. cbn [snd]. split.
  - assert ((i, p) ∈ group_of (key_of p) d) as H1 by (by apply elem_of_group). assert ((j, q) ∈ group_of (key_of p) d) as H2 by (by apply elem_of_group).
    destruct (group_of (key_of p) d) as [|x [|y l]]; [by apply not_elem_of_nil in H1| |cbn; lia].
    apply list_elem_of_singleton in H1, H2. congruence.
  - apply list_elem_of_fmap. exists (key_of p). split; [done|]. rewrite elem_of_enum, elem_of_remove_dups. apply list_elem_of_fmap. exists (i, p). split; [done|]. by apply elem_of_map_to_list.
Qed.

Lemma recreate_index_ok (d : park_db) : db_ok d -> db_ok (recreate_index d) /\ grows d (recreate_index d).
Proof.
  intros []. unfold recreate_index. split; [constructor; proj|split; proj; [lia|]]; eauto.
  intros Hix i j p q Hp Hq Ha Hb Hk. apply bool_decide_eq_true in Hix. destruct (decide (i = j)) as [|Hij]; [done|].
  pose proof (duplicate_found d i j p q Hp Hq Ha Hb Hk Hij) as Hf. rewrite Hix in Hf. by apply not_elem_of_nil in Hf.
Qed.

Lemma drop_index_ok (d : park_db) : db_ok d -> let d' := mkParkDb (parked_pieces d) (parked_piece_refs d) (next_piece_id d) (next_ref_id d) false in db_ok d' /\ grows d d'.
Proof. intros [] d'. unfold d'. split; [constructor; proj; eauto; done|split; proj; [lia|eauto]]. Qed.

(** ** The winner and the losers *)

Lemma pick_winner_in (tasks : gset TaskID) (readable : Z -> bool) (dup : list (Z * parked_piece)) (fb : option Z) (w : Z) :
  pick_winner tasks readable fb dup = Some w -> fb = Some w \/ exists p, (w, p) ∈ dup /\ task_active tasks p = false.
Proof.
  revert fb. induction dup as [|[id p] dup IH]; intros fb; cbn [pick_winner]; [by left|].
  destruct (task_active tasks p) eqn:Et; [intros E; destruct (IH fb E) as [|(q & Hq & Hn)]; [by left|right; exists q; split; [by right|done]]|].
  assert (forall fb', pick_winner tasks readable (match fb with None => Some id | Some f => Some f end) dup = Some w -> fb' = fb -> fb = Some w \/ exists p0, (w, p0) ∈ (id, p) :: dup /\ task_active tasks p0 = false) as Hrec.
  { intros _ E _. destruct (IH _ E) as [Ef|(q & Hq & Hn)]; [|right; exists q; split; [by right|done]].
    destruct fb as [f|]; [by left|]. injection Ef as ->. right. exists p. split; [left|done]. }
  destruct (pp_complete p); cbn [negb]; [destruct (readable id)|].
  - intros E. injection E as ->. right. exists p. split; [left|done].
  - intros E. by apply (Hrec fb).
  - intros E. by apply (Hrec fb).
Qed.

(** A group that is not all active has a winner. *)
Lemma pick_winner_some (tasks : gset TaskID) (readable : Z -> bool) (dup : list (Z * parked_piece)) (fb : option Z) :
  (is_Some fb \/ exists r, r ∈ dup /\ task_active tasks r.2 = false) -> is_Some (pick_winner tasks readable fb dup).
Proof.
  revert fb. induction dup as [|[id p] dup IH]; intros fb Hx; cbn [pick_winner]; [destruct Hx as [|(r & Hr & _)]; [done|by apply not_elem_of_nil in Hr]|].
  destruct (task_active tasks p) eqn:Et.
  - apply IH. destruct Hx as [|(r & Hr & Hn)]; [by left|right]. apply elem_of_cons in Hr as [->|Hr]; [cbn in Hn; congruence|]. by exists r.
  - destruct (pp_complete p); cbn [negb]; [destruct (readable id); [done|]|]; apply IH; left; by destruct fb.
Qed.

Lemma losers_spec (tasks : gset TaskID) (w : Z) (dup : list (Z * parked_piece)) (id : Z) :
  id ∈ losers_of tasks w dup <-> id <> w /\ exists p, (id, p) ∈ dup /\ task_active tasks p = false.
Proof.
  unfold losers_of. rewrite list_elem_of_fmap. setoid_rewrite list_elem_of_filter. split.
  - intros ([i p] & -> & [Hn Ht] & Hin). cbn in *. eauto.
  - intros (Hn & p & Hin & Ht). by exists (id, p).
Qed.
End Groups.
