(* ===== verification/ParkWorld.v ===== *)
(** * Parked pieces on all nodes

    Clients add and drop refs, pieces are fetched, cleaned up and joined, on all nodes
    at once, and uploads of the market rename, replace and complete rows; every step is a
    statement or a transaction, or changes the storage.  A
    process can stop between any two steps. *)

From stdpp Require Import base gmap sets list strings sorting relations.
From Stdlib Require Import ZArith Lia.
From S2P Require Import Prelude HarmonyDB GoStd ParkPiece ParkPieceFacts.

(** What a goroutine has to do next: write the data of a piece, mark it complete, remove
    data from storage, or join a group. *)
Inductive park_run := WriteRun (id : Z) | WroteRun (id : Z) | RemoveRun (id : Z) | FixRun (winner : Z) (losers : list Z).

(** [w_stored]: the pieces that have their data in storage. *)
Record park_world := mkParkWorld { w_park : park_db; w_stored : gset Z; w_runs : list park_run }.

Definition empty_park (index : bool) : park_world := mkParkWorld (mkParkDb ∅ ∅ 1 1 index) ∅ [].

(** The last statement of a client that has written a piece itself. *)
Definition upload_complete (id : Z) (d : park_db) : park_db :=
  set_pieces (alter (fun p => mkParked (pp_cid_v1 p) (pp_padded_size p) (pp_raw_size p) true (pp_task_id p) (pp_cleanup_task_id p) (pp_long_term p) (pp_skip p) (pp_ref_count p)) id) d.

(** The statements of [PDPv0_PullPiece] on these tables: a row it made is deleted when it is
    not complete and has no refs, given to the fetching task when it has some, and freed
    from a task that is gone. *)
Definition has_refs (id : Z) (d : park_db) : Prop := ~ map_Forall (fun _ r => ref_piece_id r <> id) (parked_piece_refs d).
#[export] Instance has_refs_dec (id : Z) (d : park_db) : Decision (has_refs id d).
Proof. unfold has_refs. apply _. Defined.

Definition pull_delete (id : Z) (d : park_db) : park_db * bool :=
  match parked_pieces d !! id with
  | Some p => if bool_decide (pp_complete p = false /\ ~ has_refs id d) then (delete_piece id d, true) else (d, false)
  | None => (d, false)
  end.

Definition set_skip (skip : bool) (p : parked_piece) : parked_piece :=
  mkParked (pp_cid_v1 p) (pp_padded_size p) (pp_raw_size p) (pp_complete p) (pp_task_id p) (pp_cleanup_task_id p) (pp_long_term p) skip (pp_ref_count p).

Definition pull_hand_back (id : Z) (d : park_db) : park_db :=
  set_pieces (alter (fun p => if bool_decide (pp_complete p = false /\ pp_skip p = true /\ has_refs id d) then set_skip false p else p) id) d.

Definition pull_clear_task (t : TaskID) (id : Z) (d : park_db) : park_db :=
  set_pieces (alter (fun p => if bool_decide (pp_task_id p = Some t /\ pp_complete p = false) then
    mkParked (pp_cid_v1 p) (pp_padded_size p) (pp_raw_size p) (pp_complete p) None (pp_cleanup_task_id p) (pp_long_term p) (pp_skip p) (pp_ref_count p) else p) id) d.

(** The statements of the uploads of [mk20_upload.go], which write data under a row with a
    temporary piece cid.  The row gets its piece: an index refuses a second active row. *)
Definition upload_rename (pnum : Z) (cid : string) (size raw : Z) (d : park_db) : option park_db :=
  match parked_pieces d !! pnum with
  | None => None
  | Some p =>
      let p' := mkParked cid size raw true (pp_task_id p) (pp_cleanup_task_id p) (pp_long_term p) (pp_skip p) (pp_ref_count p) in
      if active_index d && bool_decide (pp_active p') && bool_decide (is_Some (select_active (key_of p') (set_pieces (delete pnum) d))) then None
      else Some (set_pieces (insert pnum p') d)
  end.

(** A complete row of the piece whose data is gone is replaced by the row of the upload. *)
Definition upload_replace (pid pnum : Z) (cid : string) (size raw : Z) (d : park_db) : option park_db :=
  match consolidate pnum [pid] d with
  | Some d1 => upload_rename pnum cid size raw d1
  | None => None
  end.

(** What an upload finds under the piece it has written. *)
Definition upload_found (pid : Z) (cid : string) (size : Z) (complete : bool) (d : park_db) : Prop :=
  exists p, parked_pieces d !! pid = Some p /\ key_of p = (cid, size, true) /\ pp_complete p = complete.

Section World.
Context `{Enum}.

Inductive park_step : park_world -> park_world -> Prop :=
(* Clients: the piece of a ref is found or added, in one transaction; [d1] are the tables
   its first statement has seen, whatever has happened since. *)
| ps_upsert d1 d st runs known known' k raw d2 id url long d3 n : Upsert known d1 d k raw = (known', Ok (d2, id)) -> insert_ref (mkRef id url long) d2 = Some (d3, n) ->
    park_step (mkParkWorld d st runs) (mkParkWorld d3 st runs)
| ps_upsert_skip d st runs known known' k raw skip d2 id b url long d3 n : UpsertSkipWithInserted known d d k raw skip = (known', Ok (d2, id, b)) -> insert_ref (mkRef id url long) d2 = Some (d3, n) ->
    park_step (mkParkWorld d st runs) (mkParkWorld d3 st runs)
| ps_ref d st runs r d2 n : insert_ref r d = Some (d2, n) -> park_step (mkParkWorld d st runs) (mkParkWorld d2 st runs)
| ps_unref d st runs n : park_step (mkParkWorld d st runs) (mkParkWorld (delete_ref n d) st runs)
| ps_upload d st runs id : id < next_piece_id d -> park_step (mkParkWorld d st runs) (mkParkWorld d ({[id]} ∪ st) (WroteRun id :: runs))
| ps_uploaded d st r1 r2 id : park_step (mkParkWorld d st (r1 ++ WroteRun id :: r2)) (mkParkWorld (upload_complete id d) st (r1 ++ r2))
| ps_pull_delete d st runs id d2 : pull_delete id d = (d2, true) -> park_step (mkParkWorld d st runs) (mkParkWorld d2 st (RemoveRun id :: runs))
| ps_pull_back d st runs id : park_step (mkParkWorld d st runs) (mkParkWorld (pull_hand_back id d) st runs)
| ps_pull_clear d st runs t id : park_step (mkParkWorld d st runs) (mkParkWorld (pull_clear_task t id d) st runs)
(* [ParkPieceTask] *)
| ps_poll d st runs longTerm t id d2 : park_claim longTerm t id d = Some d2 -> park_step (mkParkWorld d st runs) (mkParkWorld d2 st runs)
| ps_fetch d st runs longTerm t get id : park_write longTerm t get d = Ok (Some id) -> park_step (mkParkWorld d st runs) (mkParkWorld d st (WriteRun id :: runs))
| ps_wrote d st r1 r2 id : park_step (mkParkWorld d st (r1 ++ WriteRun id :: r2)) (mkParkWorld d ({[id]} ∪ st) (r1 ++ WroteRun id :: r2))
| ps_mark d st r1 r2 id : park_step (mkParkWorld d st (r1 ++ WroteRun id :: r2)) (mkParkWorld (complete_piece id d) st (r1 ++ r2))
(* [CleanupPieceTask] *)
| ps_claim d st runs t id d2 : id ∈ cleanup_candidates d -> cleanup_claim t id d = Some d2 -> park_step (mkParkWorld d st runs) (mkParkWorld d2 st runs)
| ps_delete d st runs id d2 : cleanup_delete id d = (d2, true) -> park_step (mkParkWorld d st runs) (mkParkWorld d2 st (RemoveRun id :: runs))
| ps_reset d st runs id d2 : cleanup_reset id d = Some d2 -> park_step (mkParkWorld d st runs) (mkParkWorld d2 st runs)
| ps_remove d st r1 r2 id : park_step (mkParkWorld d st (r1 ++ RemoveRun id :: r2)) (mkParkWorld d (st ∖ {[id]}) (r1 ++ r2))
(* [FixParkPieceTask] *)
| ps_plan d st runs tasks readable k dup w : (k, dup) ∈ duplicate_groups d -> pick_winner tasks readable None dup = Some w ->
    park_step (mkParkWorld d st runs) (mkParkWorld d st (FixRun w (losers_of tasks w dup) :: runs))
| ps_join d st r1 r2 w losers d2 : consolidate w losers d = Some d2 ->
    park_step (mkParkWorld d st (r1 ++ FixRun w losers :: r2)) (mkParkWorld d2 st (r1 ++ (RemoveRun <$> losers) ++ r2))
| ps_drop_index d st runs : park_step (mkParkWorld d st runs) (mkParkWorld (mkParkDb (parked_pieces d) (parked_piece_refs d) (next_piece_id d) (next_ref_id d) false) st runs)
| ps_create_index d st runs : park_step (mkParkWorld d st runs) (mkParkWorld (recreate_index d) st runs)
(* A process stops. *)
| ps_stop d st r1 r r2 : park_step (mkParkWorld d st (r1 ++ r :: r2)) (mkParkWorld d st (r1 ++ r2)).

(** What the uploads of [mk20_upload.go] did: the row that the last step has given its piece;
    the rows that got theirs while a repair with them was under way; the rows that were
    marked complete for data that was written under another. *)
Record upload_history := mkHistory { named : gset Z; renamed_in_repair : gset Z; misled : gset Z }.

Definition no_uploads : upload_history := mkHistory ∅ ∅ ∅.

Definition in_repair (id : Z) (runs : list park_run) : bool :=
  existsb (fun r => match r with FixRun w losers => bool_decide (id ∈ w :: losers) | _ => false end) runs.

Definition note_rename (pnum : Z) (runs : list park_run) (h : upload_history) : upload_history :=
  mkHistory {[pnum]} (if in_repair pnum runs then {[pnum]} ∪ renamed_in_repair h else renamed_in_repair h) (misled h).

(** Everything that happens: the steps above, and the last transactions of the uploads. *)
Inductive world_step : park_world * upload_history -> park_world * upload_history -> Prop :=
| ws_step w w' h : park_step w w' -> world_step (w, h) (w', mkHistory ∅ (renamed_in_repair h) (misled h))
(* Nothing is found under the piece, or the upload is a chunk. *)
| ws_rename d st r1 r2 pnum cid size raw d2 h : upload_rename pnum cid size raw d = Some d2 ->
    world_step (mkParkWorld d st (r1 ++ WroteRun pnum :: r2), h) (mkParkWorld d2 st (r1 ++ r2), note_rename pnum (r1 ++ r2) h)
(* A complete row that cannot be read. *)
| ws_replace d st r1 r2 pid pnum cid size raw d2 h : upload_found pid cid size true d -> upload_replace pid pnum cid size raw d = Some d2 ->
    world_step (mkParkWorld d st (r1 ++ WroteRun pnum :: r2), h) (mkParkWorld d2 st (r1 ++ r2), note_rename pnum (r1 ++ r2) h)
(* A row that is not complete is marked, though the data is under [pnum].  (For a complete
   row that can be read the transaction is [ps_ref] and [ps_unref].) *)
| ws_mislead d st r1 r2 pid pnum cid size h : upload_found pid cid size false d ->
    world_step (mkParkWorld d st (r1 ++ WroteRun pnum :: r2), h) (mkParkWorld (upload_complete pid d) st (r1 ++ r2), mkHistory ∅ (renamed_in_repair h) ({[pid]} ∪ misled h)).

(** ** The invariant *)

(** What holds of a goroutine: no row will come back under the id it works on, and data
    it removes has no row.  [R] are the rows that were renamed during a repair, [M] those
    that were marked without data. *)
Definition run_ok (R : gset Z) (d : park_db) (st : gset Z) (r : park_run) : Prop :=
  match r with
  | WriteRun id => id < next_piece_id d
  | WroteRun id => id < next_piece_id d /\ (id ∈ st \/ parked_pieces d !! id = None)
  | RemoveRun id => id < next_piece_id d /\ parked_pieces d !! id = None
  | FixRun w losers => (w ∉ losers) /\ exists k, forall id, id ∈ w :: losers -> id < next_piece_id d /\ forall p, id ∉ R -> parked_pieces d !! id = Some p -> key_of p = k
  end.

Record world_ok (R M : gset Z) (w : park_world) : Prop := mkWorldOk {
  wo_db : db_ok (w_park w);
  wo_stored : forall id p, parked_pieces (w_park w) !! id = Some p -> pp_complete p = true -> id ∈ w_stored w \/ id ∈ M;
  wo_runs : Forall (run_ok R (w_park w) (w_stored w)) (w_runs w) }.

(** An update of a row that is not about its key, its refs, its state or its clean-up. *)
Definition same_state (p p' : parked_piece) : Prop :=
  key_of p' = key_of p /\ pp_ref_count p' = pp_ref_count p /\ pp_complete p' = pp_complete p /\ pp_cleanup_task_id p' = pp_cleanup_task_id p.

Lemma pull_hand_back_same (id : Z) (d : park_db) (p : parked_piece) :
  same_state p (if bool_decide (pp_complete p = false /\ pp_skip p = true /\ has_refs id d) then set_skip false p else p).
Proof. by case_bool_decide. Qed.

Lemma pull_clear_task_same (t : TaskID) (p : parked_piece) : same_state p (if bool_decide (pp_task_id p = Some t /\ pp_complete p = false) then
    mkParked (pp_cid_v1 p) (pp_padded_size p) (pp_raw_size p) (pp_complete p) None (pp_cleanup_task_id p) (pp_long_term p) (pp_skip p) (pp_ref_count p) else p).
Proof. by case_bool_decide. Qed.

Section Histories.
Context (R M : gset Z).

(** Goroutines do not mind later tables. *)
Lemma run_ok_grows (d d' : park_db) (st st' : gset Z) (r : park_run) : grows d d' ->
  (forall id, id ∈ st -> id ∈ st' \/ parked_pieces d' !! id = None) -> run_ok R d st r -> run_ok R d' st' r.
Proof.
  intros [Hn Hk] Hst. assert (forall id, id < next_piece_id d -> parked_pieces d !! id = None -> parked_pieces d' !! id = None) as Hgone.
  { intros id Hid Hd. destruct (parked_pieces d' !! id) as [p|] eqn:E; [|done]. destruct (Hk id p Hid E) as (q & Hq & _). congruence. }
  destruct r as [id|id|id|w losers]; cbn [run_ok].
  - lia.
  - intros [Hid [Hs|Hd]]; (split; [lia|]); [by apply Hst|right; by apply Hgone].
  - intros [Hid Hd]. split; [lia|]. by apply Hgone.
  - intros [Hw (k & Hl)]. split; [done|]. exists k. intros id Hid. destruct (Hl id Hid) as [Hlt Hkey]. split; [lia|]. intros p HR Hp.
    destruct (Hk id p Hlt Hp) as (q & Hq & <-). by apply Hkey.
Qed.

(** A change of the tables alone. *)
Lemma db_step_ok (d d' : park_db) (st : gset Z) (runs : list park_run) : world_ok R M (mkParkWorld d st runs) -> db_ok d' -> grows d d' ->
  (forall id p, parked_pieces d' !! id = Some p -> pp_complete p = true -> id ∈ st \/ id ∈ M) -> world_ok R M (mkParkWorld d' st runs).
Proof.
  intros [Hd Hs Hr] Hd' Hg Hs'. constructor; cbn [w_park w_stored w_runs] in *; [done|done|]. eapply Forall_impl; [exact Hr|]. intros r. by apply run_ok_grows; [|left].
Qed.

(** No piece becomes complete. *)
Definition keeps_complete (d d' : park_db) : Prop :=
  forall id p', parked_pieces d' !! id = Some p' -> pp_complete p' = true -> exists p, parked_pieces d !! id = Some p /\ pp_complete p = true.

Lemma quiet_step_ok (d d' : park_db) (st : gset Z) (runs : list park_run) : world_ok R M (mkParkWorld d st runs) -> db_ok d' -> grows d d' -> keeps_complete d d' ->
  world_ok R M (mkParkWorld d' st runs).
Proof. intros Hw Hd Hg Hk. apply (db_step_ok d); try done. intros id p Hp Hc. destruct (Hk id p Hp Hc) as (q & Hq & Hc'). by apply (wo_stored _ _ _ Hw id q). Qed.

Lemma keeps_trans (a b c : park_db) : keeps_complete a b -> keeps_complete b c -> keeps_complete a c.
Proof. intros H1 H2 id p Hp Hc. destruct (H2 id p Hp Hc) as (q & Hq & Hc'). by apply (H1 id q). Qed.

Lemma keeps_alter (f : parked_piece -> parked_piece) (id : Z) (d : park_db) : (forall p, pp_complete (f p) = pp_complete p) -> keeps_complete d (set_pieces (alter f id) d).
Proof.
  intros Hf i p Hp Hc. cbn in Hp. apply lookup_alter_Some in Hp as [(<- & q & Hq & ->)|[_ Hp]]; [|by exists p]. exists q. split; [done|]. by rewrite <- Hf.
Qed.

Lemma alter_quiet (f : parked_piece -> parked_piece) (id : Z) (d : park_db) : (forall p, same_state p (f p)) -> db_ok d ->
  db_ok (set_pieces (alter f id) d) /\ grows d (set_pieces (alter f id) d) /\ keeps_complete d (set_pieces (alter f id) d).
Proof.
  intros Hf Hd. destruct (alter_ok f id d) as [H1 H2]; [intros p; by destruct (Hf p) as (? & ? & _)|intros p _ Ha; left; unfold pp_active in *; destruct (Hf p) as (_ & _ & _ & E); congruence|done|].
  split; [done|]. split; [done|]. apply keeps_alter. intros p. apply Hf.
Qed.

Lemma keeps_insert_ref (r : piece_ref) (d d' : park_db) (n : Z) : insert_ref r d = Some (d', n) -> keeps_complete d d'.
Proof. unfold insert_ref. destruct (parked_pieces d !! _); [|done]. intros [= <- _]. apply (keeps_alter (add_count 1) (ref_piece_id r) d). done. Qed.

Lemma keeps_delete_ref (n : Z) (d : park_db) : keeps_complete d (delete_ref n d).
Proof. unfold delete_ref. destruct (parked_piece_refs d !! n) as [r|]; [|intros id p Hp Hc; by exists p]. apply (keeps_alter (add_count (-1)) (ref_piece_id r) d). done. Qed.

Lemma keeps_insert_piece (k : piece_key) (raw : Z) (skip : bool) (d d' : park_db) (id : Z) : insert_piece k raw skip d = Some (d', id) -> db_ok d -> keeps_complete d d'.
Proof.
  intros E Hok. destruct (insert_piece_ok _ _ _ _ _ _ E Hok) as (_ & _ & _ & _ & _ & p & Hp & _ & Hc). intros i q Hq Hqc. rewrite Hp in Hq.
  apply lookup_insert_Some in Hq as [[_ <-]|[_ Hq]]; [congruence|by exists q].
Qed.

(** Upserts add at most a row that is not complete. *)
Lemma on_conflict_ok (k : piece_key) (raw : Z) (skip b : bool) (d d' : park_db) (id : Z) : insert_on_conflict k raw skip d = Ok (d', id, b) -> db_ok d ->
  db_ok d' /\ grows d d' /\ keeps_complete d d'.
Proof.
  unfold insert_on_conflict. intros E Hok. destruct (active_index d); [cbn [negb] in E|done]. destruct (select_active k d); [injection E as <- <- <-; split; [done|]; split; [done|]; intros i p ? ?; by exists p|].
  destruct (insert_piece k raw skip d) as [[d1 i]|] eqn:Ei; [|done]. injection E as <- <- <-. destruct (insert_piece_ok _ _ _ _ _ _ Ei Hok) as (? & ? & _). split; [done|]. split; [done|].
  by eapply keeps_insert_piece.
Qed.

Lemma fallback_ok (k : piece_key) (raw : Z) (skip : option bool) (b : bool) (d1 d d' : park_db) (id : Z) : upsertFallbackWithInserted d1 d k raw skip = Ok (d', id, b) -> db_ok d ->
  db_ok d' /\ grows d d' /\ keeps_complete d d'.
Proof.
  unfold upsertFallbackWithInserted. intros E Hok. destruct (select_active k d1); [injection E as <- <- <-; split; [done|]; split; [done|]; intros i p ? ?; by exists p|].
  destruct (insert_piece k raw _ d) as [[d2 i]|] eqn:Ei; [|done]. injection E as <- <- <-. destruct (insert_piece_ok _ _ _ _ _ _ Ei Hok) as (? & ? & _). split; [done|]. split; [done|].
  by eapply keeps_insert_piece.
Qed.

Lemma Upsert_ok (known known' : bool) (k : piece_key) (raw : Z) (d1 d d' : park_db) (id : Z) : Upsert known d1 d k raw = (known', Ok (d', id)) -> db_ok d ->
  db_ok d' /\ grows d d' /\ keeps_complete d d'.
Proof.
  unfold Upsert. destruct (ActiveIndexValid d1 known) as [[] kn]; intros [= _ E] Hok.
  - destruct (insert_on_conflict k raw false d) as [[[d2 i] b]|] eqn:Ec; [|done]. injection E as <- <-. by eapply on_conflict_ok.
  - unfold upsertFallback in E. destruct (upsertFallbackWithInserted d1 d k raw None) as [[[d2 i] b]|] eqn:Ef; [|done]. injection E as <- <-. by eapply fallback_ok.
Qed.

Lemma UpsertSkip_ok (known known' : bool) (k : piece_key) (raw : Z) (skip b : bool) (d d' : park_db) (id : Z) : UpsertSkipWithInserted known d d k raw skip = (known', Ok (d', id, b)) -> db_ok d ->
  db_ok d' /\ grows d d' /\ keeps_complete d d'.
Proof.
  unfold UpsertSkipWithInserted. destruct (ActiveIndexValid d known) as [[] kn]; intros [= _ E] Hok; [|by eapply fallback_ok].
  destruct (insert_on_conflict k raw skip d) as [[[d2 i] b2]|] eqn:Ec; [|done]. destruct b2; [injection E as <- <- <-; by eapply on_conflict_ok|].
  destruct (select_active k d); [|done]. injection E as <- <- <-. split; [done|]. split; [done|]. intros j p ? ?; by exists p.
Qed.

(** ** Steps *)

Lemma runs_app (d : park_db) (st : gset Z) (r1 r2 : list park_run) (r : park_run) : Forall (run_ok R d st) (r1 ++ r :: r2) ->
  run_ok R d st r /\ Forall (run_ok R d st) (r1 ++ r2).
Proof. intros Hf. apply Forall_app in Hf as [H1 H2]. apply Forall_cons in H2 as [H2 H3]. split; [done|]. by apply Forall_app. Qed.

(** The goroutine with a written piece marks it. *)
Lemma mark_step_ok (f : parked_piece -> parked_piece) (d : park_db) (st : gset Z) (r1 r2 : list park_run) (id : Z) :
  (forall p, key_of (f p) = key_of p /\ pp_ref_count (f p) = pp_ref_count p) -> (forall p, pp_active (f p) -> pp_active p) ->
  world_ok R M (mkParkWorld d st (r1 ++ WroteRun id :: r2)) -> world_ok R M (mkParkWorld (set_pieces (alter f id) d) st (r1 ++ r2)).
Proof.
  intros Hf Ha [Hd Hs Hr]. cbn [w_park w_stored w_runs] in *. apply runs_app in Hr as [[Hid Hw] Hr].
  destruct (alter_ok f id d Hf (fun p _ H => or_introl (Ha p H)) Hd) as [Hd' Hg]. apply (db_step_ok d); [by constructor|done|done|].
  intros i p Hp Hc. cbn in Hp. apply lookup_alter_Some in Hp as [(<- & q & Hq & ->)|[_ Hp]]; [|by apply (Hs i p)]. left. destruct Hw as [|Hn]; [done|congruence].
Qed.

Lemma remove_step_ok (d : park_db) (st : gset Z) (r1 r2 : list park_run) (id : Z) : world_ok R M (mkParkWorld d st (r1 ++ RemoveRun id :: r2)) ->
  world_ok R M (mkParkWorld d (st ∖ {[id]}) (r1 ++ r2)).
Proof.
  intros [Hd Hs Hr]. cbn [w_park w_stored w_runs] in *. apply runs_app in Hr as [[Hid Hn] Hr]. constructor; cbn [w_park w_stored w_runs]; [done| |].
  - intros i p Hp Hc. destruct (Hs i p Hp Hc) as [Hi|]; [left|by right]. apply elem_of_difference. split; [done|]. intros ->%elem_of_singleton. congruence.
  - eapply Forall_impl; [exact Hr|]. intros r. apply run_ok_grows; [done|]. intros i Hi. destruct (decide (i = id)) as [->|Hne]; [by right|left]. set_solver.
Qed.

Lemma write_step_ok (d : park_db) (st : gset Z) (r1 r2 : list park_run) (id : Z) : id < next_piece_id d -> world_ok R M (mkParkWorld d st (r1 ++ r2)) ->
  world_ok R M (mkParkWorld d ({[id]} ∪ st) (r1 ++ WroteRun id :: r2)).
Proof.
  intros Hid [Hd Hs Hr]. cbn [w_park w_stored w_runs] in *. constructor; cbn [w_park w_stored w_runs]; [done|intros i p Hp Hc; destruct (Hs i p Hp Hc); [left; by apply elem_of_union_r|by right]|].
  assert (Forall (run_ok R d ({[id]} ∪ st)) (r1 ++ r2)) as Hr' by (eapply Forall_impl; [exact Hr|]; intros r; apply run_ok_grows; [done|]; intros i Hi; left; set_solver).
  apply Forall_app in Hr' as [H1 H2]. apply Forall_app. split; [done|]. constructor; [|done]. split; [done|]. left. set_solver.
Qed.

(** A row without refs goes. *)
Lemma unused_step_ok (d : park_db) (st : gset Z) (runs : list park_run) (id : Z) (p : parked_piece) : parked_pieces d !! id = Some p ->
  map_Forall (fun _ r => ref_piece_id r <> id) (parked_piece_refs d) -> world_ok R M (mkParkWorld d st runs) ->
  world_ok R M (mkParkWorld (delete_piece id d) st (RemoveRun id :: runs)) /\ parked_piece_refs (delete_piece id d) = parked_piece_refs d.
Proof.
  intros Ep Hf Hw. pose proof (wo_db _ _ _ Hw) as Hd. cbn [w_park] in Hd. destruct (delete_piece_ok id d Hd) as [Hd' Hg]. split.
  - apply (quiet_step_ok d (delete_piece id d)) in Hw; [|done|done|].
    + destruct Hw as [A B C]. constructor; [done|done|]. constructor; [|done]. split; [by apply (ok_pieces d Hd id p)|]. apply lookup_delete_eq.
    + intros i q Hq Hc. cbn in Hq. apply lookup_delete_Some in Hq as [_ Hq]. by exists q.
  - unfold delete_piece. cbn. apply map_filter_id. intros n r Hn. by apply (Hf n r).
Qed.

Lemma delete_step_ok (d d' : park_db) (st : gset Z) (runs : list park_run) (id : Z) : cleanup_delete id d = (d', true) -> world_ok R M (mkParkWorld d st runs) ->
  world_ok R M (mkParkWorld d' st (RemoveRun id :: runs)) /\ parked_piece_refs d' = parked_piece_refs d.
Proof.
  unfold cleanup_delete. intros E. destruct (parked_pieces d !! id) as [p|] eqn:Ep; [|done]. case_bool_decide as Hf; [|done]. injection E as <-. by apply (unused_step_ok d st runs id p).
Qed.

Lemma pull_delete_ok (d d' : park_db) (st : gset Z) (runs : list park_run) (id : Z) : pull_delete id d = (d', true) -> world_ok R M (mkParkWorld d st runs) ->
  world_ok R M (mkParkWorld d' st (RemoveRun id :: runs)) /\ parked_piece_refs d' = parked_piece_refs d.
Proof.
  unfold pull_delete. intros E. destruct (parked_pieces d !! id) as [p|] eqn:Ep; [|done]. case_bool_decide as Hf; [|done]. injection E as <-. destruct Hf as [_ Hf].
  apply (unused_step_ok d st runs id p Ep). unfold has_refs in Hf. by apply dec_stable in Hf.
Qed.

Lemma plan_step_ok (d : park_db) (st : gset Z) (runs : list park_run) (tasks : gset TaskID) (readable : Z -> bool) (k : piece_key) (dup : list (Z * parked_piece)) (w : Z) :
  (k, dup) ∈ duplicate_groups d -> pick_winner tasks readable None dup = Some w -> world_ok R M (mkParkWorld d st runs) -> world_ok R M (mkParkWorld d st (FixRun w (losers_of tasks w dup) :: runs)).
Proof.
  intros Hin Hpick [Hd Hs Hr]. cbn [w_park w_stored w_runs] in *. apply elem_of_groups in Hin as [-> _]. constructor; cbn [w_park w_stored w_runs]; [done|done|]. constructor; [|done].
  split; [intros Hl; apply losers_spec in Hl as [? _]; done|]. exists k.
  assert (forall id, id ∈ w :: losers_of tasks w (group_of k d) -> exists p, (id, p) ∈ group_of k d) as Hgrp.
  { intros id Hi. apply elem_of_cons in Hi as [->|Hi]; [|apply losers_spec in Hi as (_ & p & Hp & _); by exists p].
    apply pick_winner_in in Hpick as [|(p & Hp & _)]; [done|by exists p]. }
  intros id Hi. destruct (Hgrp id Hi) as (p & Hp). apply elem_of_group in Hp as [Hp [Hk _]]. split; [by apply (ok_pieces d Hd id p)|]. intros q _ Hq. congruence.
Qed.

Lemma join_step_ok (d d' : park_db) (st : gset Z) (r1 r2 : list park_run) (w : Z) (losers : list Z) : consolidate w losers d = Some d' ->
  world_ok R M (mkParkWorld d st (r1 ++ FixRun w losers :: r2)) -> world_ok R M (mkParkWorld d' st (r1 ++ (RemoveRun <$> losers) ++ r2)).
Proof.
  intros E [Hd Hs Hr]. cbn [w_park w_stored w_runs] in *. apply runs_app in Hr as [(Hw & k & Hk) Hr].
  destruct (consolidate_ok w losers d d' E Hd Hw) as (Hd' & Hg & Hn & Hix & Hrefs & Hgone & Hback & Hkept).
  destruct (quiet_step_ok d d' st (r1 ++ r2)) as [A B C]; [by constructor|done|done| |].
  - intros id p Hp Hc. destruct (Hback id p Hp) as (m & q & Hq & ->). by exists q.
  - constructor; cbn [w_park w_stored w_runs] in *; [done|done|]. apply Forall_app in C as [C1 C2]. apply Forall_app. split; [done|]. apply Forall_app. split; [|done].
    apply Forall_fmap, Forall_forall. intros id Hid. cbn. split; [|by apply Hgone]. rewrite Hn. apply Hk. by right.
Qed.

Lemma park_write_row (longTerm : bool) (t : TaskID) (get : piece_ref -> fetch) (d : park_db) (id : Z) : park_write longTerm t get d = Ok (Some id) -> is_Some (parked_pieces d !! id).
Proof.
  unfold park_write. destruct (enum _) as [|[i p] l] eqn:E; [done|]. assert ((i, p) ∈ (i, p) :: l) as Hin by left. rewrite <- E in Hin.
  apply elem_of_enum, list_elem_of_filter in Hin as [_ Hin]. apply elem_of_map_to_list in Hin. clear E. destruct (pp_complete p); [done|].
  destruct (enum _) as [|r rs]; [done|]. destruct (try_refs get (r :: rs)); [|done]. intros [= <-]. by exists p.
Qed.

Lemma park_step_ok (w w' : park_world) : world_ok R M w -> park_step w w' -> world_ok R M w'.
Proof.
  intros Hw Hs. pose proof (wo_db _ _ _ Hw) as Hd. destruct Hs as [d1 d st runs known known' k raw d2 id url long d3 n Hu Hr|d st runs known known' k raw skip d2 id b url long d3 n Hu Hr|
    d st runs r d2 n Hr|d st runs n|d st runs id Hid|d st r1 r2 id|d st runs id d2 E|d st runs id|d st runs t id|d st runs longTerm t id d2 E|d st runs longTerm t get id E|d st r1 r2 id|d st r1 r2 id|
    d st runs t id d2 _ E|d st runs id d2 E|d st runs id d2 E|d st r1 r2 id|d st runs tasks readable k dup win Hin Hp|d st r1 r2 win losers d2 E|d st runs|d st runs|d st r1 r r2]; cbn [w_park] in Hd.
  - destruct (Upsert_ok _ _ _ _ _ _ _ _ Hu Hd) as (Hd2 & Hg2 & Hk2). destruct (insert_ref_ok _ _ _ _ Hr Hd2) as (Hd3 & Hg3 & _).
    apply (quiet_step_ok d); [done|done|by etrans|]. eapply keeps_trans; [done|]. by eapply keeps_insert_ref.
  - destruct (UpsertSkip_ok _ _ _ _ _ _ _ _ _ Hu Hd) as (Hd2 & Hg2 & Hk2). destruct (insert_ref_ok _ _ _ _ Hr Hd2) as (Hd3 & Hg3 & _).
    apply (quiet_step_ok d); [done|done|by etrans|]. eapply keeps_trans; [done|]. by eapply keeps_insert_ref.
  - destruct (insert_ref_ok _ _ _ _ Hr Hd) as (Hd2 & Hg2 & _). apply (quiet_step_ok d); [done|done|done|]. by eapply keeps_insert_ref.
  - destruct (delete_ref_ok n d Hd) as [Hd2 Hg2]. apply (quiet_step_ok d); [done|done|done|]. apply keeps_delete_ref.
  - by apply (write_step_ok d st [] runs id Hid).
  - by apply mark_step_ok.
  - by destruct (pull_delete_ok d d2 st runs id E Hw).
  - destruct (alter_quiet _ id d (pull_hand_back_same id d) Hd) as (Hd2 & Hg2 & Hk2). by apply (quiet_step_ok d).
  - destruct (alter_quiet _ id d (pull_clear_task_same t) Hd) as (Hd2 & Hg2 & Hk2). by apply (quiet_step_ok d).
  - destruct (park_claim_ok _ _ _ _ _ E Hd) as (-> & Hd2 & Hg2). apply (quiet_step_ok d); [done|done|done|]. by apply keeps_alter.
  - destruct Hw as [A B C]. constructor; [done|done|]. constructor; [|done]. apply park_write_row in E as [p Hp]. by apply (ok_pieces d Hd id p).
  - pose proof (wo_runs _ _ _ Hw) as Hr. cbn [w_park w_stored w_runs] in Hr. apply runs_app in Hr as [Hid Hr]. apply write_step_ok; [done|]. destruct Hw as [A B C]. by constructor.
  - by apply mark_step_ok.
  - destruct (cleanup_claim_ok _ _ _ _ E Hd) as (-> & Hd2 & Hg2). apply (quiet_step_ok d); [done|done|done|]. by apply keeps_alter.
  - by destruct (delete_step_ok d d2 st runs id E Hw).
  - destruct (cleanup_reset_ok _ _ _ E Hd) as (-> & Hd2 & Hg2). apply (quiet_step_ok d); [done|done|done|]. by apply keeps_alter.
  - by apply remove_step_ok.
  - by apply (plan_step_ok d st runs tasks readable k dup win).
  - by apply (join_step_ok d d2 st r1 r2 win losers).
  - destruct (drop_index_ok d Hd) as [Hd2 Hg2]. apply (quiet_step_ok d); [done|done|done|]. intros id p Hp Hc. by exists p.
  - destruct (recreate_index_ok d Hd) as [Hd2 Hg2]. apply (quiet_step_ok d); [done|done|done|]. intros id p Hp Hc. by exists p.
  - destruct Hw as [A B C]. cbn [w_park w_stored w_runs] in *. apply runs_app in C as [_ C]. by constructor.
Qed.

Lemma empty_park_ok (index : bool) : world_ok R M (empty_park index).
Proof.
  constructor; cbn [empty_park w_park w_stored w_runs parked_pieces]; [|intros id p Hp; by rewrite lookup_empty in Hp|constructor].
  constructor; cbn [parked_pieces parked_piece_refs]; intros; rewrite ?lookup_empty in *; done.
Qed.

End Histories.

(** ** Refs *)

(** The ref stays, with the same key. *)
Definition ref_kept (d d' : park_db) (n : Z) : Prop :=
  forall r p, parked_piece_refs d !! n = Some r -> parked_pieces d !! ref_piece_id r = Some p ->
  exists r' p', parked_piece_refs d' !! n = Some r' /\ parked_pieces d' !! ref_piece_id r' = Some p' /\ key_of p' = key_of p
    /\ ref_data_url r' = ref_data_url r /\ ref_long_term r' = ref_long_term r.

(** The ref stays, with its URL, and with the same key unless it was or is on one of the
    rows [X]. *)
Definition ref_kept_but (X : gset Z) (d d' : park_db) (n : Z) : Prop :=
  forall r p, parked_piece_refs d !! n = Some r -> parked_pieces d !! ref_piece_id r = Some p ->
  exists r' p', parked_piece_refs d' !! n = Some r' /\ parked_pieces d' !! ref_piece_id r' = Some p'
    /\ (key_of p' = key_of p \/ ref_piece_id r ∈ X \/ ref_piece_id r' ∈ X)
    /\ ref_data_url r' = ref_data_url r /\ ref_long_term r' = ref_long_term r.

Lemma kept_but_none (d d' : park_db) (n : Z) : ref_kept_but ∅ d d' n -> ref_kept d d' n.
Proof.
  intros Hk r p Hn Hp. destruct (Hk r p Hn Hp) as (r' & p' & H1 & H2 & H3 & H4 & H5). exists r', p'. split_and!; try done.
  destruct H3 as [|[[]%not_elem_of_empty|[]%not_elem_of_empty]]; done.
Qed.

Section Refs.
Context (R M : gset Z).

Lemma kept_but_same (d d' : park_db) (n : Z) : db_ok d -> db_ok d' -> grows d d' -> (forall r, parked_piece_refs d !! n = Some r -> parked_piece_refs d' !! n = Some r) -> ref_kept_but R d d' n.
Proof.
  intros Hd Hd' [_ Hg] Hr r p Hn Hp. pose proof (Hr r Hn) as Hn'. destruct (ok_refs d' Hd' n r Hn') as [_ [p' Hp']]. exists r, p'. split; [done|]. split; [done|].
  destruct (Hg (ref_piece_id r) p' (ok_pieces d Hd _ _ Hp) Hp') as (q & Hq & Hk). split; [left; congruence|done].
Qed.

Lemma kept_but_join (d d' : park_db) (w : Z) (losers : list Z) (k : piece_key) (n : Z) : consolidate w losers d = Some d' -> db_ok d -> w ∉ losers ->
  (forall id p, id ∈ w :: losers -> id ∉ R -> parked_pieces d !! id = Some p -> key_of p = k) -> ref_kept_but R d d' n.
Proof.
  intros E Hd Hw Hk r p Hn Hp. destruct (consolidate_ok w losers d d' E Hd Hw) as (Hd' & Hg & _ & _ & Hrefs & Hgone & Hback & Hkept).
  assert (parked_piece_refs d' !! n = Some (retarget w losers r)) as Hn' by (by rewrite Hrefs, lookup_fmap, Hn).
  destruct (ok_refs d' Hd' n _ Hn') as [_ [p' Hp']]. exists (retarget w losers r), p'. split; [done|]. split; [done|].
  destruct (Hback _ p' Hp') as (m & q & Hq & ->). change (key_of (add_count m q)) with (key_of q). unfold retarget in *. case_bool_decide as Hl; cbn [ref_piece_id ref_data_url ref_long_term] in *.
  - split; [|done]. destruct (decide (w ∈ R)); [tauto|]. destruct (decide (ref_piece_id r ∈ R)); [tauto|]. left.
    rewrite (Hk w q ltac:(left) ltac:(done) Hq), (Hk (ref_piece_id r) p ltac:(by right) ltac:(done) Hp). done.
  - split; [left; congruence|done].
Qed.

Lemma insert_ref_kept (r : piece_ref) (d d0 d' : park_db) (m n : Z) : db_ok d -> db_ok d0 -> grows d d0 -> parked_piece_refs d0 = parked_piece_refs d -> insert_ref r d0 = Some (d', m) -> ref_kept_but R d d' n.
Proof.
  intros Hd Hd0 Hg Hr E. destruct (insert_ref_ok _ _ _ _ E Hd0) as (Hd' & Hg' & -> & Hr' & _). apply kept_but_same; [done|done|by etrans|].
  intros s Hs. rewrite Hr', Hr, lookup_insert_ne; [done|]. intros Heq. rewrite <- Hr in Hs. apply (ok_refs d0 Hd0) in Hs. lia.
Qed.

Lemma upsert_refs (known known' : bool) (k : piece_key) (raw : Z) (d1 d d' : park_db) (id : Z) : Upsert known d1 d k raw = (known', Ok (d', id)) -> db_ok d -> parked_piece_refs d' = parked_piece_refs d.
Proof.
  unfold Upsert. destruct (ActiveIndexValid d1 known) as [[] kn]; intros [= _ E] Hok.
  - unfold insert_on_conflict in E. destruct (active_index d); [cbn [negb] in E|done]. destruct (select_active k d); [by injection E as <- <-|].
    destruct (insert_piece k raw false d) as [[d2 i]|] eqn:Ei; [|done]. injection E as <- <-. apply (insert_piece_ok _ _ _ _ _ _ Ei Hok).
  - unfold upsertFallback, upsertFallbackWithInserted in E. destruct (select_active k d1); [by injection E as <- <-|].
    destruct (insert_piece k raw _ d) as [[d2 i]|] eqn:Ei; [|done]. injection E as <- <-. apply (insert_piece_ok _ _ _ _ _ _ Ei Hok).
Qed.

Lemma upsert_skip_refs (known known' : bool) (k : piece_key) (raw : Z) (skip b : bool) (d d' : park_db) (id : Z) : UpsertSkipWithInserted known d d k raw skip = (known', Ok (d', id, b)) -> db_ok d ->
  parked_piece_refs d' = parked_piece_refs d.
Proof.
  unfold UpsertSkipWithInserted, insert_on_conflict, upsertFallbackWithInserted. destruct (ActiveIndexValid d known) as [[] kn]; intros [= _ E] Hok.
  - destruct (active_index d); [cbn [negb] in E|done]. destruct (select_active k d) as [i|] eqn:Es; [by injection E as <- <- <-|].
    destruct (insert_piece k raw skip d) as [[d2 i]|] eqn:Ei; [|done]. injection E as <- <- <-. apply (insert_piece_ok _ _ _ _ _ _ Ei Hok).
  - destruct (select_active k d); [by injection E as <- <- <-|]. destruct (insert_piece k raw _ d) as [[d2 i]|] eqn:Ei; [|done]. injection E as <- <- <-. apply (insert_piece_ok _ _ _ _ _ _ Ei Hok).
Qed.

Lemma step_refs_kept (w w' : park_world) (n : Z) : world_ok R M w -> park_step w w' -> ref_kept_but R (w_park w) (w_park w') n \/ w_park w' = delete_ref n (w_park w).
Proof.
  intros Hw Hs. pose proof (wo_db _ _ _ Hw) as Hd. pose proof (wo_db _ _ _ (park_step_ok R M w w' Hw Hs)) as Hd'.
  destruct Hs as [d1 d st runs known known' k raw d2 id url long d3 m Hu Hr|d st runs known known' k raw skip d2 id b url long d3 m Hu Hr|
    d st runs r d2 m Hr|d st runs m|d st runs id Hid|d st r1 r2 id|d st runs id d2 E|d st runs id|d st runs t id|d st runs longTerm t id d2 E|d st runs longTerm t get id E|d st r1 r2 id|d st r1 r2 id|
    d st runs t id d2 _ E|d st runs id d2 E|d st runs id d2 E|d st r1 r2 id|d st runs tasks readable k dup win Hin Hp|d st r1 r2 win losers d2 E|d st runs|d st runs|d st r1 r r2];
    cbn [w_park] in *; try (by left; apply kept_but_same).
  - left. destruct (Upsert_ok _ _ _ _ _ _ _ _ Hu Hd) as (Hd2 & Hg2 & _). eapply insert_ref_kept; [exact Hd|exact Hd2|done|by eapply upsert_refs|done].
  - left. destruct (UpsertSkip_ok _ _ _ _ _ _ _ _ _ Hu Hd) as (Hd2 & Hg2 & _). eapply insert_ref_kept; [exact Hd|exact Hd2|done|by eapply upsert_skip_refs|done].
  - left. by eapply (insert_ref_kept r d d).
  - destruct (decide (m = n)) as [->|Hne]; [by right|left]. apply kept_but_same; [done|done|by apply delete_ref_ok|]. intros s Hs. unfold delete_ref.
    destruct (parked_piece_refs d !! m); [|done]. cbn. by rewrite lookup_delete_ne.
  - left. apply kept_but_same; try done. by apply alter_ok; auto.
  - left. destruct (pull_delete_ok R M d d2 st runs id E Hw) as [_ Hr]. apply kept_but_same; [done|done| |by rewrite Hr].
    unfold pull_delete in E. destruct (parked_pieces d !! id); [|done]. case_bool_decide; [|done]. injection E as <-. by apply delete_piece_ok.
  - left. apply kept_but_same; try done. by apply (alter_quiet _ id d (pull_hand_back_same id d) Hd).
  - left. apply kept_but_same; try done. by apply (alter_quiet _ id d (pull_clear_task_same t) Hd).
  - left. destruct (park_claim_ok _ _ _ _ _ E Hd) as (-> & _ & Hg). by apply kept_but_same.
  - left. apply kept_but_same; try done. by apply complete_piece_ok.
  - left. destruct (cleanup_claim_ok _ _ _ _ E Hd) as (-> & _ & Hg). by apply kept_but_same.
  - left. destruct (delete_step_ok R M d d2 st runs id E Hw) as [_ Hr]. apply kept_but_same; [done|done| |by rewrite Hr].
    unfold cleanup_delete in E. destruct (parked_pieces d !! id); [|done]. case_bool_decide; [|done]. injection E as <-. by apply delete_piece_ok.
  - left. destruct (cleanup_reset_ok _ _ _ E Hd) as (-> & _ & Hg). by apply kept_but_same.
  - left. pose proof (wo_runs _ _ _ Hw) as Hr. cbn [w_park w_stored w_runs] in Hr. apply runs_app in Hr as [(Hnw & k & Hk) _].
    apply (kept_but_join d d2 win losers k n E Hd Hnw). intros id p Hi. by apply Hk.
  - left. apply kept_but_same; try done. by apply drop_index_ok.
  - left. apply kept_but_same; try done. by apply recreate_index_ok.
Qed.
End Refs.

(** ** Uploads *)

Lemma world_ok_more (R R' M M' : gset Z) (w : park_world) : R ⊆ R' -> M ⊆ M' -> world_ok R M w -> world_ok R' M' w.
Proof.
  intros HR HM [A B C]. constructor; [done|intros id p Hp Hc; destruct (B id p Hp Hc); [by left|right; set_solver]|].
  eapply Forall_impl; [exact C|]. intros r. destruct r as [id|id|id|x losers]; try done. intros (Hw & k & Hk). split; [done|]. exists k. intros id Hid.
  destruct (Hk id Hid) as [H1 H2]. split; [done|]. intros p Hn. apply H2. set_solver.
Qed.

Lemma kept_but_more (R R' : gset Z) (d d' : park_db) (n : Z) : R ⊆ R' -> ref_kept_but R d d' n -> ref_kept_but R' d d' n.
Proof. intros HR Hk r p Hn Hp. destruct (Hk r p Hn Hp) as (r' & p' & H1 & H2 & H3 & H4). exists r', p'. split_and!; try apply H4; try done. destruct H3 as [|[|]]; [by left|right; left; set_solver|right; right; set_solver]. Qed.

(** The row of an upload gets its piece. *)
Lemma rename_ok (pnum : Z) (cid : string) (size raw : Z) (d d' : park_db) : upload_rename pnum cid size raw d = Some d' -> db_ok d ->
  db_ok d' /\ parked_piece_refs d' = parked_piece_refs d /\ next_piece_id d' = next_piece_id d
  /\ is_Some (parked_pieces d !! pnum) /\ is_Some (parked_pieces d' !! pnum) /\ forall id, id <> pnum -> parked_pieces d' !! id = parked_pieces d !! id.
Proof.
  unfold upload_rename. destruct (parked_pieces d !! pnum) as [p|] eqn:Ep; [|done]. set (p' := mkParked _ _ _ _ _ _ _ _ _). intros E Hd.
  destruct (active_index d && _ && _) eqn:Ei; [done|]. injection E as <-. destruct Hd as [K1 K2 K3 K4]. split; [constructor; proj|].
  - intros id q [[<- <-]|[_ Hq]]%lookup_insert_Some; eauto.
  - intros n r Hr. destruct (K2 n r Hr) as [Hn Hs]. split; [done|]. apply lookup_insert_is_Some. destruct (decide (pnum = ref_piece_id r)); [by left|by right].
  - intros id q [[<- <-]|[_ Hq]]%lookup_insert_Some; [|eauto]. cbn. eauto.
  - intros Hix.
    assert (forall j q, j <> pnum -> parked_pieces d !! j = Some q -> pp_active p' -> pp_active q -> key_of q <> key_of p') as Hfree.
    { intros j q Hj Hq Ha Hb Hk. rewrite Hix, (bool_decide_eq_true_2 (pp_active p')) in Ei by done. cbn [andb] in Ei. apply bool_decide_eq_false in Ei.
      destruct (select_active (key_of p') (set_pieces (delete pnum) d)) eqn:Es; [by destruct Ei|]. apply (select_active_None _ _ j q Es); [cbn; by rewrite lookup_delete_ne|by split]. }
    intros i j a b [[<- <-]|[Hi Ha]]%lookup_insert_Some [[<- <-]|[Hj Hb]]%lookup_insert_Some Hpa Hpb Hk; [done| | |eauto]; exfalso; [by apply (Hfree j b)|by apply (Hfree i a)].
  - proj. split; [done|]. split; [done|]. split; [by eexists|]. rewrite lookup_insert_eq. split; [by eexists|]. intros id Hne. by rewrite lookup_insert_ne.
Qed.

Lemma in_repair_true (id w : Z) (losers : list Z) (runs : list park_run) : FixRun w losers ∈ runs -> id ∈ w :: losers -> in_repair id runs = true.
Proof. intros Hin Hid. apply existsb_exists. exists (FixRun w losers). split; [by apply list_elem_of_In|]. by apply bool_decide_eq_true_2. Qed.

Lemma rename_step_ok (h : upload_history) (d d' : park_db) (st : gset Z) (runs : list park_run) (pnum : Z) (cid : string) (size raw : Z) :
  upload_rename pnum cid size raw d = Some d' -> pnum ∈ st -> world_ok (renamed_in_repair h) (misled h) (mkParkWorld d st runs) ->
  let h' := note_rename pnum runs h in world_ok (renamed_in_repair h') (misled h') (mkParkWorld d' st runs).
Proof.
  intros E Hst Hw h'. apply (world_ok_more _ (renamed_in_repair h') _ (misled h')) in Hw; [|unfold h', note_rename; cbn; destruct (in_repair _ _); set_solver|done].
  destruct Hw as [Hd Hs Hr]. cbn [w_park w_stored w_runs] in *. destruct (rename_ok _ _ _ _ _ _ E Hd) as (Hd' & _ & Hn & Hp & Hp' & Ho). constructor; cbn [w_park w_stored w_runs]; [done| |].
  - intros id p Hid Hc. destruct (decide (id = pnum)) as [->|Hne]; [by left|]. rewrite Ho in Hid by done. by apply (Hs id p).
  - assert (forall id, parked_pieces d !! id = None -> parked_pieces d' !! id = None) as Hnone.
    { intros id Hid. destruct (decide (id = pnum)) as [->|Hne]; [destruct Hp; congruence|]. by rewrite Ho. }
    apply Forall_forall. intros r Hin. rewrite Forall_forall in Hr. pose proof (Hr r Hin) as Hok. destruct r as [id|id|id|x losers]; cbn [run_ok] in *; rewrite Hn.
    + done.
    + destruct Hok as [? [?|?]]; (split; [done|]); [by left|right; auto].
    + destruct Hok as [? ?]. split; [done|auto].
    + destruct Hok as (Hx & k & Hk). split; [done|]. exists k. intros id Hid. destruct (Hk id Hid) as [Hlt Hkey]. split; [done|]. intros p HR Hpp.
      destruct (decide (id = pnum)) as [->|Hne]; [|rewrite Ho in Hpp by done; by apply Hkey]. exfalso. apply HR. unfold h', note_rename. rewrite (in_repair_true _ _ _ _ Hin Hid). cbn. set_solver.
Qed.

(** The refs of an upload's row stay on it. *)
Lemma rename_refs (X : gset Z) (pnum : Z) (cid : string) (size raw : Z) (d d' : park_db) (n : Z) : upload_rename pnum cid size raw d = Some d' -> db_ok d -> pnum ∈ X -> ref_kept_but X d d' n.
Proof.
  intros E Hd HX r p Hn Hp. destruct (rename_ok _ _ _ _ _ _ E Hd) as (Hd' & Hr & _ & _ & [p' Hp'] & Ho). exists r. destruct (decide (ref_piece_id r = pnum)) as [He|Hne].
  - exists p'. rewrite Hr, He. split_and!; try done. right; left. done.
  - exists p. rewrite Hr, Ho by done. split_and!; try done. by left.
Qed.

Lemma kept_but_trans (X : gset Z) (a b c : park_db) (n : Z) : (forall r r' , parked_piece_refs b !! n = Some r -> parked_piece_refs c !! n = Some r' -> ref_piece_id r' = ref_piece_id r) ->
  ref_kept_but X a b n -> ref_kept_but X b c n -> ref_kept_but X a c n.
Proof.
  intros Hsame H1 H2 r p Hn Hp. destruct (H1 r p Hn Hp) as (r1 & p1 & Hn1 & Hp1 & K1 & U1 & L1). destruct (H2 r1 p1 Hn1 Hp1) as (r2 & p2 & Hn2 & Hp2 & K2 & U2 & L2).
  exists r2, p2. pose proof (Hsame r1 r2 Hn1 Hn2) as He. split_and!; try congruence; try done. rewrite He in *. destruct K1 as [K1|[|]], K2 as [K2|[|]]; try tauto. left. congruence.
Qed.

(** A finished writer: its row has its data. *)
Lemma wrote_stored (R M : gset Z) (d : park_db) (st : gset Z) (r1 r2 : list park_run) (pnum : Z) : world_ok R M (mkParkWorld d st (r1 ++ WroteRun pnum :: r2)) ->
  world_ok R M (mkParkWorld d st (r1 ++ r2)) /\ (is_Some (parked_pieces d !! pnum) -> pnum ∈ st).
Proof.
  intros [A B C]. cbn [w_park w_stored w_runs] in *. apply runs_app in C as [[_ Hw] C]. split; [by constructor|]. intros [p Hp]. destruct Hw as [|Hn]; [done|congruence].
Qed.

Lemma replace_ok (pid pnum : Z) (cid : string) (size raw : Z) (d d' : park_db) : upload_replace pid pnum cid size raw d = Some d' -> db_ok d ->
  exists d1, consolidate pnum [pid] d = Some d1 /\ upload_rename pnum cid size raw d1 = Some d' /\ pid <> pnum /\ is_Some (parked_pieces d !! pnum).
Proof.
  unfold upload_replace. destruct (consolidate pnum [pid] d) as [d1|] eqn:E; [|done]. intros Er Hd. exists d1. split; [done|]. split; [done|].
  destruct (parked_pieces d1 !! pnum) as [q|] eqn:Hp; [|unfold upload_rename in Er; by rewrite Hp in Er]. assert (pid <> pnum) as Hne.
  { intros ->. unfold consolidate in E. destruct (move_refs pnum [pnum] d) as [d0|]; [|done]. injection E as <-. cbn in Hp. by rewrite lookup_delete_eq in Hp. }
  split; [done|]. destruct (consolidate_ok pnum [pid] d d1 E Hd) as (_ & _ & _ & _ & _ & _ & Hback & _); [rewrite list_elem_of_singleton; congruence|].
  destruct (Hback pnum q Hp) as (? & p & Hpp & _). by exists p.
Qed.

(** The data of the replaced row is not removed: nobody had found it. *)
Lemma replace_step_ok (R M : gset Z) (d d1 : park_db) (st : gset Z) (runs : list park_run) (pid pnum : Z) : consolidate pnum [pid] d = Some d1 -> pid <> pnum ->
  world_ok R M (mkParkWorld d st runs) -> world_ok R M (mkParkWorld d1 st runs) /\ (is_Some (parked_pieces d !! pnum) -> is_Some (parked_pieces d1 !! pnum)).
Proof.
  intros E Hne Hw. pose proof (wo_db _ _ _ Hw) as Hd. cbn [w_park] in Hd.
  destruct (consolidate_ok pnum [pid] d d1 E Hd) as (Hd1 & Hg & _ & _ & _ & _ & Hback & Hkept); [rewrite list_elem_of_singleton; congruence|]. split.
  - apply (quiet_step_ok R M d); [done|done|done|]. intros id p Hp Hc. destruct (Hback id p Hp) as (m & q & Hq & ->). by exists q.
  - intros [p Hp]. destruct (Hkept pnum p) as [m Hm]; [rewrite list_elem_of_singleton; congruence|done|by eexists].
Qed.

Lemma world_step_ok (w w' : park_world) (h h' : upload_history) : world_ok (renamed_in_repair h) (misled h) w -> world_step (w, h) (w', h') ->
  world_ok (renamed_in_repair h') (misled h') w'.
Proof.
  intros Hw Hs. inversion Hs as [? ? ? Hst|d st r1 r2 pnum cid size raw d2 ? E|d st r1 r2 pid pnum cid size raw d2 ? Hf E|d st r1 r2 pid pnum cid size ? Hf]; subst.
  - by apply (park_step_ok _ _ w).
  - apply wrote_stored in Hw as [Hw Hp]. apply (rename_step_ok h d d2 st (r1 ++ r2) pnum cid size raw E); [|done]. apply Hp. apply (rename_ok _ _ _ _ _ _ E (wo_db _ _ _ Hw)).
  - apply wrote_stored in Hw as [Hw Hp]. destruct (replace_ok _ _ _ _ _ _ _ E (wo_db _ _ _ Hw)) as (d1 & Ec & Er & Hne & Hrow).
    destruct (replace_step_ok _ _ d d1 st (r1 ++ r2) pid pnum Ec Hne Hw) as [Hw1 _]. by apply (rename_step_ok h d1 d2 st (r1 ++ r2) pnum cid size raw Er); [apply Hp|].
  - apply wrote_stored in Hw as [Hw _]. pose proof (wo_db _ _ _ Hw) as Hd. cbn [w_park renamed_in_repair misled] in *.
    destruct (alter_ok (fun p => mkParked (pp_cid_v1 p) (pp_padded_size p) (pp_raw_size p) true (pp_task_id p) (pp_cleanup_task_id p) (pp_long_term p) (pp_skip p) (pp_ref_count p)) pid d) as [Hd2 Hg2]; [done|by left|done|].
    apply (db_step_ok _ _ d); [apply (world_ok_more (renamed_in_repair h) _ (misled h)); [done|set_solver|done]|done|done|]. intros id p Hp Hc. cbn in Hp.
    apply lookup_alter_Some in Hp as [(<- & q & Hq & ->)|[_ Hp]]; [right; set_solver|]. destruct (wo_stored _ _ _ Hw id p Hp Hc); [by left|right; set_solver].
Qed.

(** No step but its own deletion takes a ref away. *)
Lemma world_refs_kept (w w' : park_world) (h h' : upload_history) (n : Z) : world_ok (renamed_in_repair h) (misled h) w -> world_step (w, h) (w', h') ->
  ref_kept_but (named h' ∪ renamed_in_repair h') (w_park w) (w_park w') n \/ w_park w' = delete_ref n (w_park w).
Proof.
  intros Hw Hs. pose proof (wo_db _ _ _ Hw) as Hd. pose proof (wo_db _ _ _ (world_step_ok _ _ _ _ Hw Hs)) as Hd'.
  inversion Hs as [? ? ? Hst|d st r1 r2 pnum cid size raw d2 ? E|d st r1 r2 pid pnum cid size raw d2 ? Hf E|d st r1 r2 pid pnum cid size ? Hf]; subst; cbn [w_park named renamed_in_repair note_rename] in *.
  - destruct (step_refs_kept _ _ w w' n Hw Hst) as [Hk|]; [left|by right]. eapply kept_but_more; [|exact Hk]. set_solver.
  - left. apply (rename_refs _ _ _ _ _ _ _ n E Hd). set_solver.
  - left. destruct (replace_ok _ _ _ _ _ _ _ E Hd) as (d1 & Ec & Er & Hne & Hrow). assert (pnum ∉ [pid]) as Hni by (rewrite list_elem_of_singleton; congruence).
    destruct (consolidate_ok pnum [pid] d d1 Ec Hd Hni) as (Hd1 & _). apply (kept_but_trans _ d d1).
    + intros r r' Hr Hr'. rewrite (proj1 (proj2 (rename_ok _ _ _ _ _ _ Er Hd1))) in Hr'. congruence.
    + destruct Hf as (p & Hp & Hk & _). apply (kept_but_join _ d d1 pnum [pid] (cid, size, true) n Ec Hd Hni). intros id q Hin HR Hq.
      apply elem_of_cons in Hin as [-> | ->%list_elem_of_singleton]; [set_solver|congruence].
    + apply (rename_refs _ _ _ _ _ _ _ n Er Hd1). set_solver.
  - left. apply kept_but_same; [done|done|by apply alter_ok; auto|done].
Qed.

(** C15: parked pieces are safe.  Let clients (deals, uploads, pulls, aggregations), fetches,
    clean-ups, repairs and crashes interleave in any way: a ref has its row, the counter of a
    row is the number of its refs, a valid index means one active row per piece, and a
    complete row has its data in storage, except a row that an upload of [mk20_upload.go] has
    marked although it had written the data under its own temporary row
    ([upload_misleads]).  No step but its own deletion takes a ref away: it stays, with its
    URL, on a row of the same piece, unless the step gives the temporary row of an upload its
    piece, or a repair joins a row that got its piece after the repair was planned. *)
Theorem parked_pieces_safe (index : bool) (w : park_world) (h : upload_history) : rtc world_step (empty_park index, no_uploads) (w, h) -> let d := w_park w in
  (forall n r, parked_piece_refs d !! n = Some r -> is_Some (parked_pieces d !! ref_piece_id r))
  /\ (forall id p, parked_pieces d !! id = Some p -> pp_ref_count p = Z.of_nat (refs_of id (parked_piece_refs d)))
  /\ (active_index d = true -> forall i j p q, parked_pieces d !! i = Some p -> parked_pieces d !! j = Some q -> pp_active p -> pp_active q -> key_of p = key_of q -> i = j)
  /\ (forall id p, parked_pieces d !! id = Some p -> pp_complete p = true -> id ∈ w_stored w \/ id ∈ misled h)
  /\ forall w' h' n, world_step (w, h) (w', h') -> ref_kept_but (named h' ∪ renamed_in_repair h') d (w_park w') n \/ w_park w' = delete_ref n d.
Proof.
  intros Hr d. assert (world_ok (renamed_in_repair h) (misled h) w) as Hw.
  { apply (rtc_invariant world_step (fun x => world_ok (renamed_in_repair x.2) (misled x.2) x.1) (fun x y Hx Hs => world_step_ok x.1 y.1 x.2 y.2 Hx ltac:(by destruct x, y)) _ _ Hr). apply empty_park_ok. }
  pose proof (wo_db _ _ _ Hw) as Hd. split; [intros n r Hn; by apply (ok_refs d Hd n r)|]. split; [apply (ok_count d Hd)|]. split; [apply (ok_unique d Hd)|].
  split; [apply (wo_stored _ _ _ Hw)|]. intros w' h' n Hs. by apply (world_refs_kept w w' h h').
Qed.
End World.

(** A piece of a client that was added, claimed, fetched and marked. *)
Definition ex_key : piece_key := ("piece"%string, 1024, true).
Definition ex_row (complete : bool) (t : option TaskID) : parked_piece := mkParked "piece" 1024 1000 complete t None true false 1.
Definition ex_park (complete : bool) (t : option TaskID) : park_db := mkParkDb {[1 := ex_row complete t]} {[1 := mkRef 1 (Some "http://client"%string) true]} 2 2 true.

Lemma ex_park_reachable : rtc park_step (empty_park true) (mkParkWorld (ex_park true None) {[1]} []).
Proof.
  eapply rtc_l; [apply (ps_upsert (w_park (empty_park true)) _ _ _ false true ex_key 1000 (mkParkDb {[1 := mkParked "piece" 1024 1000 false None None true false 0]} ∅ 2 1 true) 1
    (Some "http://client"%string) true (ex_park false None) 1); vm_compute; reflexivity|].
  eapply rtc_l; [apply (ps_poll _ _ _ true 5 1 (ex_park false (Some 5))); vm_compute; reflexivity|].
  eapply rtc_l; [apply (ps_fetch _ _ _ true 5 (fun _ => Written) 1); vm_compute; reflexivity|].
  eapply rtc_l; [apply (ps_wrote _ _ [] [] 1)|]. cbn [w_stored empty_park]. rewrite union_empty_r_L.
  apply rtc_once. replace (ex_park true None) with (complete_piece 1 (ex_park false (Some 5))) by (vm_compute; reflexivity). apply (ps_mark (ex_park false (Some 5)) {[1]} [] [] 1).
Qed.

Lemma park_steps_world `{Enum} (w w' : park_world) : rtc park_step w w' -> rtc world_step (w, no_uploads) (w', no_uploads).
Proof. induction 1 as [w|w w1 w' Hs _ IH]; [done|]. apply (rtc_l _ _ (w1, no_uploads)); [exact (ws_step _ _ no_uploads Hs)|exact IH]. Qed.

Lemma parked_pieces_safe_witness : let w := mkParkWorld (ex_park true None) {[1]} [] in let d := w_park w in
  (forall n r, parked_piece_refs d !! n = Some r -> is_Some (parked_pieces d !! ref_piece_id r))
  /\ (forall id p, parked_pieces d !! id = Some p -> pp_ref_count p = Z.of_nat (refs_of id (parked_piece_refs d)))
  /\ (active_index d = true -> forall i j p q, parked_pieces d !! i = Some p -> parked_pieces d !! j = Some q -> pp_active p -> pp_active q -> key_of p = key_of q -> i = j)
  /\ (forall id p, parked_pieces d !! id = Some p -> pp_complete p = true -> id ∈ w_stored w \/ id ∈ misled no_uploads)
  /\ forall w' h' n, world_step (w, no_uploads) (w', h') -> ref_kept_but (named h' ∪ renamed_in_repair h') d (w_park w') n \/ w_park w' = delete_ref n d.
Proof. apply (parked_pieces_safe true). apply park_steps_world. apply ex_park_reachable. Defined.

(** An upload without piece information: a temporary row, its data, and meanwhile another
    client that adds the piece.  The upload marks the row of that client, which has no
    data. *)
Definition up_row (cid : string) (complete skip : bool) : parked_piece := mkParked cid 1024 1000 complete None None true skip 1.
Definition up_db (complete : bool) : park_db :=
  mkParkDb {[1 := up_row "tmp" false true; 2 := up_row "piece" complete false]}
    {[1 := mkRef 1 (Some "/PUT"%string) true; 2 := mkRef 2 (Some "http://client"%string) true]} 3 3 true.

Lemma upload_misleads : exists h, rtc world_step (empty_park true, no_uploads) (mkParkWorld (up_db true) {[1]} [], h) /\ parked_pieces (up_db true) !! 2 = Some (up_row "piece" true false).
Proof.
  exists (mkHistory ∅ ∅ ({[2]} ∪ ∅)). split; [|vm_compute; reflexivity].
  assert (rtc park_step (empty_park true) (mkParkWorld (up_db false) {[1]} [WroteRun 1])) as Hp.
  { eapply rtc_l; [apply (ps_upsert_skip (w_park (empty_park true)) ∅ [] false true ("tmp"%string, 1024, true) 1000 true (mkParkDb {[1 := mkParked "tmp" 1024 1000 false None None true true 0]} ∅ 2 1 true) 1 true
      (Some "/PUT"%string) true (mkParkDb {[1 := up_row "tmp" false true]} {[1 := mkRef 1 (Some "/PUT"%string) true]} 2 2 true) 1); vm_compute; reflexivity|].
    eapply rtc_l; [apply (ps_upload _ _ _ 1); cbn; lia|]. rewrite union_empty_r_L. apply rtc_once.
    eapply (ps_upsert (mkParkDb {[1 := up_row "tmp" false true]} {[1 := mkRef 1 (Some "/PUT"%string) true]} 2 2 true) _ _ _ true true ("piece"%string, 1024, true) 1000
      (mkParkDb {[1 := up_row "tmp" false true; 2 := mkParked "piece" 1024 1000 false None None true false 0]} {[1 := mkRef 1 (Some "/PUT"%string) true]} 3 2 true) 2 (Some "http://client"%string) true (up_db false) 2);
      vm_compute; reflexivity. }
  etrans; [exact (park_steps_world _ _ Hp)|]. apply rtc_once.
  replace (up_db true) with (upload_complete 2 (up_db false)) by (vm_compute; reflexivity).
  apply (ws_mislead (up_db false) {[1]} [] [] 2 1 "piece" 1024). exists (up_row "piece" false false). split_and!; vm_compute; reflexivity.
Qed.
