(* ===== verification/ParkFix.v ===== *)
(** * The repair of parked pieces

    [FixParkPieceTask] on tables nobody else changes: it ends with one active row per
    piece, every ref on it, and the unique index in place.  And what an upsert gives its
    caller. *)

From stdpp Require Import base gmap sets list strings sorting relations.
From Stdlib Require Import ZArith Lia.
From S2P Require Import Prelude HarmonyDB GoStd ParkPiece ParkPieceFacts ParkWorld.

Section Fix.
Context `{Enum}.

(** A complete and readable row wins. *)
Lemma pick_winner_complete (tasks : gset TaskID) (readable : Z -> bool) (dup : list (Z * parked_piece)) (fb : option Z) (id : Z) (p : parked_piece) :
  (id, p) ∈ dup -> task_active tasks p = false -> pp_complete p = true -> readable id = true ->
  exists w q, pick_winner tasks readable fb dup = Some w /\ (w, q) ∈ dup /\ pp_complete q = true /\ readable w = true.
Proof.
  revert fb. induction dup as [|[i q] dup IH]; intros fb Hin Ht Hc Hr; [by apply not_elem_of_nil in Hin|]. cbn [pick_winner].
  assert (forall fb', (id, p) ∈ dup -> exists w s, pick_winner tasks readable fb' dup = Some w /\ (w, s) ∈ (i, q) :: dup /\ pp_complete s = true /\ readable w = true) as Hrec.
  { intros fb' Hd. destruct (IH fb' Hd Ht Hc Hr) as (w & s & E & Hs & H1 & H2). exists w, s. split; [done|]. split; [by right|done]. }
  apply elem_of_cons in Hin as [Heq|Hin].
  - injection Heq as <- <-. rewrite Ht, Hc, Hr. cbn [negb]. exists id, p. split; [done|]. split; [left|done].
  - destruct (task_active tasks q); [by apply Hrec|]. destruct (pp_complete q) eqn:Ec; cbn [negb]; [|by apply Hrec]. destruct (readable i) eqn:Er; [|by apply Hrec].
    exists i, q. split; [done|]. split; [left|done].
Qed.

(** The rows of a group as the tables have them. *)
Definition group_ok (tasks : gset TaskID) (d : park_db) (g : piece_key * list (Z * parked_piece)) : Prop :=
  g.2 <> [] /\ forall id p, (id, p) ∈ g.2 -> key_of p = g.1 /\ task_active tasks p = false /\ exists n, parked_pieces d !! id = Some (add_count n p).

(** Of the rows of a group the winner is left. *)
Definition group_done (tasks : gset TaskID) (readable : Z -> bool) (d : park_db) (g : piece_key * list (Z * parked_piece)) : Prop :=
  exists w n p, pick_winner tasks readable None g.2 = Some w /\ (w, p) ∈ g.2 /\ parked_pieces d !! w = Some (add_count n p) /\ forall id q, (id, q) ∈ g.2 -> id <> w -> parked_pieces d !! id = None.

Definition rows_from (d d' : park_db) : Prop := forall id p', parked_pieces d' !! id = Some p' -> exists n p, parked_pieces d !! id = Some p /\ p' = add_count n p.

Lemma rows_from_trans (a b c : park_db) : rows_from a b -> rows_from b c -> rows_from a c.
Proof.
  intros H1 H2 id p Hp. destruct (H2 id p Hp) as (n & q & Hq & ->). destruct (H1 id q Hq) as (m & s & Hs & ->). exists (m + n), s. split; [done|]. apply add_count_add.
Qed.

Lemma ref_kept_trans (a b c : park_db) (n : Z) : db_ok b -> ref_kept a b n -> ref_kept b c n -> ref_kept a c n.
Proof.
  intros Hb H1 H2 r p Hr Hp. destruct (H1 r p Hr Hp) as (r1 & p1 & Hr1 & Hp1 & K1 & U1 & L1). destruct (H2 r1 p1 Hr1 Hp1) as (r2 & p2 & Hr2 & Hp2 & K2 & U2 & L2).
  exists r2, p2. split; [done|]. split; [done|]. split; [congruence|]. split; congruence.
Qed.

(** One group. *)
Lemma join_group (tasks : gset TaskID) (readable : Z -> bool) (d : park_db) (k : piece_key) (dup : list (Z * parked_piece)) : db_ok d -> group_ok tasks d (k, dup) ->
  exists w d', pick_winner tasks readable None dup = Some w /\ consolidate w (losers_of tasks w dup) d = Some d' /\ db_ok d' /\ grows d d' /\ active_index d' = active_index d /\ rows_from d d'
    /\ group_done tasks readable d' (k, dup) /\ (forall id p, (forall q, (id, q) ∉ dup) -> parked_pieces d !! id = Some p -> exists n, parked_pieces d' !! id = Some (add_count n p))
    /\ forall n, ref_kept d d' n.
Proof.
  intros Hd [Hne Hg]. cbn [fst snd] in *.
  destruct (pick_winner_some tasks readable dup None) as [w Hw]; [right; destruct dup as [|[i p] dup]; [done|]; exists (i, p); split; [left|]; cbn; by apply (Hg i p ltac:(left))|].
  destruct (pick_winner_in tasks readable dup None w Hw) as [|(pw & Hpw & _)]; [done|]. destruct (Hg w pw Hpw) as (Kw & _ & nw & Hrow).
  assert (w ∉ losers_of tasks w dup) as Hnin by (intros Hl; apply losers_spec in Hl as [? _]; done).
  assert (exists d', consolidate w (losers_of tasks w dup) d = Some d') as [d' E].
  { unfold consolidate, move_refs. rewrite Hrow. destruct (base.filter _ _); by eexists. }
  destruct (consolidate_ok _ _ _ _ E Hd Hnin) as (Hd' & Hgr & _ & Hix & _ & Hgone & Hback & Hkept).
  exists w, d'. split; [done|]. split; [done|]. split; [done|]. split; [done|]. split; [done|]. split; [done|]. split; [|split].
  - destruct (Hkept w _ Hnin Hrow) as [m Hm]. exists w, (nw + m), pw. split; [done|]. split; [done|]. split; [by rewrite <- add_count_add|].
    intros id q Hq Hidw. apply Hgone, losers_spec. split; [done|]. exists q. split; [done|]. by apply (Hg id q Hq).
  - intros id p Hout Hp. apply Hkept; [|done]. intros Hl. apply losers_spec in Hl as (_ & q & Hq & _). by apply (Hout q).
  - intros n. apply kept_but_none, (kept_but_join ∅ d d' w (losers_of tasks w dup) k n E Hd Hnin). intros id p Hi _ Hp.
    assert (exists q, (id, q) ∈ dup) as [q Hq] by (apply elem_of_cons in Hi as [->|Hi]; [by exists pw|]; apply losers_spec in Hi as (_ & q & Hq & _); by exists q).
    destruct (Hg id q Hq) as (Kq & _ & m & Hm). rewrite Hp in Hm. injection Hm as ->. done.
Qed.

Lemma consolidate_nil (w : Z) (d : park_db) : consolidate w [] d = Some d.
Proof.
  unfold consolidate, move_refs. destruct (base.filter _ _) as [|[n r] l] eqn:E; [done|]. assert ((n, r) ∈ (n, r) :: l) as Hin by left. rewrite <- E in Hin.
  apply list_elem_of_filter in Hin as [Hin _]. by apply not_elem_of_nil in Hin.
Qed.

Lemma add_count_0 (p : parked_piece) : add_count 0 p = p.
Proof. destruct p. unfold add_count. cbn. f_equal. lia. Qed.

(** Groups of different keys have no row in common. *)
Lemma groups_disjoint (tasks : gset TaskID) (d : park_db) (g g' : piece_key * list (Z * parked_piece)) (id : Z) (q q' : parked_piece) :
  group_ok tasks d g -> group_ok tasks d g' -> (id, q) ∈ g.2 -> (id, q') ∈ g'.2 -> g.1 = g'.1.
Proof.
  intros [_ H1] [_ H2] Hq Hq'. destruct (H1 id q Hq) as (K1 & _ & m & Hm). destruct (H2 id q' Hq') as (K2 & _ & m' & Hm'). rewrite Hm in Hm'.
  apply (f_equal (fmap key_of)) in Hm'. change (Some (key_of q) = Some (key_of q')) in Hm'. congruence.
Qed.

(** A group that is done stays so. *)
Lemma group_done_later (tasks : gset TaskID) (readable : Z -> bool) (d d' : park_db) (g : piece_key * list (Z * parked_piece)) : group_done tasks readable d g -> rows_from d d' ->
  (forall id p q, (id, q) ∈ g.2 -> parked_pieces d !! id = Some p -> exists n, parked_pieces d' !! id = Some (add_count n p)) -> group_done tasks readable d' g.
Proof.
  intros (w & m & p & Hw & Hin & Hrow & Hout) Hfrom Hkeep. destruct (Hkeep w _ p Hin Hrow) as [m' Hm'].
  exists w, (m + m'), p. split; [done|]. split; [done|]. split; [by rewrite <- add_count_add|]. intros id q Hq Hid. destruct (parked_pieces d' !! id) as [s|] eqn:Es; [|done].
  destruct (Hfrom id s Es) as (z & s' & Hs' & _). by rewrite (Hout id q Hq Hid) in Hs'.
Qed.

Lemma fix_groups_spec (tasks : gset TaskID) (readable : Z -> bool) (stillOwned : piece_key -> bool) (groups : list (piece_key * list (Z * parked_piece))) (d : park_db) :
  db_ok d -> (forall k, stillOwned k = true) -> Forall (group_ok tasks d) groups -> NoDup groups.*1 ->
  exists d' removed, fix_groups tasks readable stillOwned groups d = (d', removed, Ok true) /\ db_ok d' /\ rows_from d d'
    /\ Forall (group_done tasks readable d') groups
    /\ (forall id p, (forall g q, g ∈ groups -> (id, q) ∉ g.2) -> parked_pieces d !! id = Some p -> exists n, parked_pieces d' !! id = Some (add_count n p))
    /\ forall n, ref_kept d d' n.
Proof.
  intros Hd Hown Hg Hnd. revert d Hd Hg. induction groups as [|[k dup] groups IH]; intros d Hd Hg; cbn [fix_groups].
  { exists d, []. split; [done|]. split; [done|]. split; [intros id p Hp; exists 0, p; by rewrite add_count_0|]. split; [constructor|].
    split; [intros id p _ Hp; exists 0; by rewrite add_count_0|]. intros n r p Hr Hp. by exists r, p. }
  cbn [fmap list_fmap fst] in Hnd. apply NoDup_cons in Hnd as [Hk Hnd]. apply Forall_cons in Hg as [Hg1 Hg2]. rewrite Hown. cbn [negb].
  destruct (join_group tasks readable d k dup Hd Hg1) as (w & d1 & Hw & E & Hd1 & Hgr & Hix & Hfrom & Hdone & Hkeep & Href). rewrite Hw.
  assert (forall g id q, g ∈ groups -> (id, q) ∈ g.2 -> forall q', (id, q') ∉ dup) as Hdisj.
  { intros g id q Hin Hq q' Hq'. rewrite Forall_forall in Hg2. apply Hk. apply list_elem_of_fmap. exists g. split; [|done].
    apply (groups_disjoint tasks d (k, dup) g id q' q); auto. }
  assert (Forall (group_ok tasks d1) groups) as Hg1'.
  { rewrite Forall_forall in *. intros g Hin. destruct (Hg2 g Hin) as [Hne Hgg]. split; [done|]. intros id q Hq. destruct (Hgg id q Hq) as (K & T & m & Hm). split; [done|]. split; [done|].
    destruct (Hkeep id _ (Hdisj g id q Hin Hq) Hm) as [m' Hm']. exists (m + m'). by rewrite <- add_count_add. }
  destruct (IH Hnd d1 Hd1 Hg1') as (d2 & removed & E2 & Hd2 & Hfrom2 & Hdone2 & Hkeep2 & Href2).
  assert (group_done tasks readable d2 (k, dup)) as Hdone'.
  { apply (group_done_later _ _ d1); [done|done|]. intros id p q Hq Hp. apply Hkeep2; [|done]. intros g s Hgin Hs. by apply (Hdisj g id s Hgin Hs q). }
  assert (forall removed' : list Z, exists d' rm, (d2, removed', @Ok bool fix_error true) = (d', rm, Ok true) /\ db_ok d' /\ rows_from d d' /\ Forall (group_done tasks readable d') ((k, dup) :: groups)
    /\ (forall id p, (forall g q, g ∈ (k, dup) :: groups -> (id, q) ∉ g.2) -> parked_pieces d !! id = Some p -> exists n, parked_pieces d' !! id = Some (add_count n p)) /\ forall n, ref_kept d d' n) as Hfin.
  { intros removed'. exists d2, removed'. split; [done|]. split; [done|]. split; [by apply (rows_from_trans d d1 d2)|]. split; [by constructor|]. split; [|intros n; by apply (ref_kept_trans d d1 d2)].
    intros id p Hout Hp. destruct (Hkeep id p (fun q => Hout (k, dup) q ltac:(left)) Hp) as [m Hm].
    destruct (Hkeep2 id _ (fun g q Hin => Hout g q ltac:(by right)) Hm) as [m' Hm']. exists (m + m'). by rewrite <- add_count_add. }
  destruct (losers_of tasks w dup) as [|l ls] eqn:El; [|rewrite E, E2; apply Hfin].
  rewrite consolidate_nil in E. injection E as <-. rewrite E2. apply Hfin.
Qed.

Lemma rows_NoDup (m : gmap Z parked_piece) : NoDup (rows_by_id m).*1.
Proof.
  assert ((rows_by_id m).*1 = merge_sort Z.le (map_to_list m).*1) as ->; [|rewrite merge_sort_Permutation; apply NoDup_fst_map_to_list].
  unfold rows_by_id. assert (forall i, i ∈ merge_sort Z.le (map_to_list m).*1 -> is_Some (m !! i)) as Hin.
  { intros i Hi. rewrite merge_sort_Permutation in Hi. apply list_elem_of_fmap in Hi as ([j p] & -> & Hp). apply elem_of_map_to_list in Hp. by exists p. }
  revert Hin. generalize (merge_sort Z.le (map_to_list m).*1). intros l. induction l as [|i l IH]; intros Hin; [done|]. cbn [omap list_omap].
  destruct (Hin i ltac:(left)) as [p ->]. cbn [fmap option_fmap option_map list_fmap fst]. f_equal. apply IH. intros j Hj. apply Hin. by right.
Qed.

Lemma group_NoDup (k : piece_key) (d : park_db) : NoDup (group_of k d).*1.
Proof.
  unfold group_of. set (rows := base.filter (fun r : Z * parked_piece => active_row k r.2) _). rewrite fmap_app. assert (NoDup rows.*1) as Hnd by (eapply sublist_NoDup; [apply (rows_NoDup (parked_pieces d))|apply fmap_sublist, sublist_filter]).
  apply NoDup_app. split; [by eapply sublist_NoDup; [exact Hnd|apply fmap_sublist, sublist_filter]|]. split; [|by eapply sublist_NoDup; [exact Hnd|apply fmap_sublist, sublist_filter]].
  intros i Hi Hi'. apply list_elem_of_fmap in Hi as ([i1 p] & -> & Hi). apply list_elem_of_fmap in Hi' as ([i2 q] & E & Hi'). cbn in E. subst i2.
  apply list_elem_of_filter in Hi as [Hc Hi]. apply list_elem_of_filter in Hi' as [Hc' Hi']. cbn in *. unfold rows in *. apply list_elem_of_filter in Hi as [_ Hi]. apply list_elem_of_filter in Hi' as [_ Hi'].
  apply elem_of_rows in Hi, Hi'. congruence.
Qed.

Lemma duplicate_groups_ok (tasks : gset TaskID) (d : park_db) : (forall id p, parked_pieces d !! id = Some p -> task_active tasks p = false) ->
  Forall (group_ok tasks d) (duplicate_groups d) /\ NoDup (duplicate_groups d).*1.
Proof.
  intros Ht. split.
  - apply Forall_forall. intros [k dup] Hin. apply elem_of_groups in Hin as [-> Hl]. split; [cbn; intros E; rewrite E in Hl; cbn in Hl; lia|]. cbn [fst snd].
    intros id p Hp. apply elem_of_group in Hp as [Hp [Hk _]]. split; [done|]. split; [by apply (Ht id p)|]. exists 0. by rewrite add_count_0.
  - unfold duplicate_groups. eapply sublist_NoDup; [|apply fmap_sublist, sublist_filter]. rewrite <- list_fmap_compose. rewrite (list_fmap_ext _ id); [|done].
    rewrite list_fmap_id, enum_perm. apply NoDup_remove_dups.
Qed.

(** After the loop no key has two active rows. *)
Lemma groups_done_unique (tasks : gset TaskID) (readable : Z -> bool) (d d' : park_db) : rows_from d d' -> Forall (group_done tasks readable d') (duplicate_groups d) -> duplicate_groups d' = [].
Proof.
  intros Hfrom Hdone. destruct (duplicate_groups d') as [|[k dup] l] eqn:E; [done|exfalso].
  assert ((k, dup) ∈ duplicate_groups d') as Hin by (rewrite E; left). apply elem_of_groups in Hin as [-> Hlen].
  assert (exists i j p q, (i, p) ∈ group_of k d' /\ (j, q) ∈ group_of k d' /\ i <> j) as (i & j & p & q & Hi & Hj & Hij).
  { pose proof (group_NoDup k d') as Hnd. destruct (group_of k d') as [|[i p] [|[j q] g]]; [cbn in Hlen; lia|cbn in Hlen; lia|]. exists i, j, p, q. split; [left|]. split; [right; left|].
    cbn [fmap list_fmap fst] in Hnd. apply NoDup_cons in Hnd as [Hn _]. intros ->. apply Hn. left. }
  apply elem_of_group in Hi as [Hi [Ki Ai]]. apply elem_of_group in Hj as [Hj [Kj Aj]].
  destruct (Hfrom i p Hi) as (n1 & p1 & Hp1 & ->). destruct (Hfrom j q Hj) as (n2 & q1 & Hq1 & ->).
  assert ((k, group_of k d) ∈ duplicate_groups d) as Hg by (rewrite <- Ki; change (key_of (add_count n1 p1)) with (key_of p1); apply (duplicate_found d i j p1 q1); try done; by transitivity k).
  rewrite Forall_forall in Hdone. destruct (Hdone _ Hg) as (w & m & pw & _ & _ & _ & Hout). cbn [snd] in Hout.
  destruct (decide (i = w)) as [->|Hiw].
  - rewrite (Hout j q1) in Hj; [done|by apply elem_of_group|done].
  - rewrite (Hout i p1) in Hi; [done|by apply elem_of_group|done].
Qed.

(** C30: the repair works: when no task holds a row and nobody else changes the tables,
    [FixParkPieceTask] succeeds, the unique index is valid afterwards, every ref still is there
    on a row of the same piece, every piece with an active row has one, and if one of its rows
    was complete and readable, the row that is left is. *)
Theorem fix_restores_index (tasks : gset TaskID) (readable : Z -> bool) (stillOwned : piece_key -> bool) (d : park_db) : db_ok d -> active_index d = false ->
  (forall id p, parked_pieces d !! id = Some p -> task_active tasks p = false) -> (forall k, stillOwned k = true) ->
  exists d' removed, fix_Do tasks readable stillOwned d = (d', removed, Ok true) /\ db_ok d' /\ active_index d' = true /\ (forall n, ref_kept d d' n)
    /\ (forall k id p, parked_pieces d !! id = Some p -> active_row k p -> exists id' p', parked_pieces d' !! id' = Some p' /\ active_row k p'
          /\ (pp_complete p = true -> readable id = true -> pp_complete p' = true /\ (id' = id \/ readable id' = true))).
Proof.
  intros Hd Hix Ht Hown. destruct (duplicate_groups_ok tasks d Ht) as [Hg Hnd].
  destruct (fix_groups_spec tasks readable stillOwned (duplicate_groups d) d Hd Hown Hg Hnd) as (d' & removed & E & Hd' & Hfrom & Hdone & Hkeep & Href).
  exists (recreate_index d'), removed. unfold fix_Do. rewrite Hix, E. split; [done|]. split; [by apply recreate_index_ok|]. split; [|split; [exact Href|]].
  - unfold recreate_index. cbn. apply bool_decide_eq_true. by eapply groups_done_unique.
  - intros k id p Hp Hrow. cbn [recreate_index parked_pieces]. destruct (decide ((k, group_of k d) ∈ duplicate_groups d)) as [Hin|Hout].
    + rewrite Forall_forall in Hdone. destruct (Hdone _ Hin) as (w & m & pw & Hw & Hpw & Hrw & _). cbn [snd] in *. exists w, (add_count m pw). split; [done|].
      pose proof Hpw as Hpw'. apply elem_of_group in Hpw' as [Hpw1 Hpw2]. split; [done|]. intros Hc Hr.
      destruct (pick_winner_complete tasks readable (group_of k d) None id p) as (w' & q & Hw' & Hq & Hcq & Hrq); [by apply elem_of_group|by apply (Ht id p)|done|done|].
      rewrite Hw in Hw'. injection Hw' as <-. apply elem_of_group in Hq as [Hq _]. rewrite Hpw1 in Hq. injection Hq as <-. split; [done|by right].
    + destruct (Hkeep id p) as [m Hm]; [|done|exists id, (add_count m p); split; [done|]; split; [done|]; intros; split; [done|by left]].
      intros [k' dup] q Hin Hq. cbn [snd] in Hq. pose proof Hin as Hin'. apply elem_of_groups in Hin' as [-> _]. apply elem_of_group in Hq as [Hq [Kq _]]. rewrite Hp in Hq. injection Hq as <-.
      destruct Hrow as [Kp _]. apply Hout. by rewrite <- Kp, Kq.
Qed.
End Fix.

(** ** Upserts *)

Lemma select_after_insert (k : piece_key) (raw : Z) (skip : bool) (d d' : park_db) (id : Z) : db_ok d -> select_active k d = None -> insert_piece k raw skip d = Some (d', id) ->
  select_active k d' = Some id.
Proof.
  intros Hd Hs E. destruct (insert_piece_ok _ _ _ _ _ _ E Hd) as (_ & _ & _ & _ & _ & p & Hp & Ha & _). destruct (select_active k d') as [i|] eqn:Ei.
  - apply select_active_Some in Ei as (q & Hq & Hqa). rewrite Hp in Hq. apply lookup_insert_Some in Hq as [[-> _]|[_ Hq]]; [done|]. by destruct (select_active_None k d i q Hs Hq).
  - exfalso. apply (select_active_None k d' id p Ei); [|done]. by rewrite Hp, lookup_insert_eq.
Qed.

(** What a caller gets when nobody is in between: an active row of its piece, at most one
    row more than before, and the same row when it asks again. *)
Lemma Upsert_spec (known : bool) (d : park_db) (k : piece_key) (raw : Z) : db_ok d -> (known = true -> active_index d = true) ->
  exists d' id p, Upsert known d d k raw = (active_index d, Ok (d', id)) /\ parked_pieces d' !! id = Some p /\ active_row k p
    /\ (d' = d \/ (select_active k d = None /\ parked_pieces d' = <[id := p]> (parked_pieces d)))
    /\ Upsert (active_index d) d' d' k raw = (active_index d, Ok (d', id)).
Proof.
  intros Hd Hk. assert (forall kn d0, (kn = true -> active_index d0 = true) -> Upsert kn d0 d0 k raw =
    (active_index d0, match select_active k d0 with Some id => Ok (d0, id) | None => match insert_piece k raw false d0 with Some (d', id) => Ok (d', id) | None => Err UniqueViolation end end)) as Hu.
  { intros kn d0 Hkn. unfold Upsert, ActiveIndexValid, RefreshActiveIndexValid, upsertFallback, upsertFallbackWithInserted, insert_on_conflict.
    destruct kn; [rewrite Hkn by done|destruct (active_index d0) eqn:E]; rewrite ?E; cbn [negb default]; destruct (select_active k d0); try done; destruct (insert_piece k raw false d0) as [[? ?]|]; done. }
  rewrite (Hu known d Hk). destruct (select_active k d) as [id|] eqn:Es.
  - destruct (select_active_Some k d id Es) as (p & Hp & Ha). exists d, id, p. split; [done|]. split; [done|]. split; [done|]. split; [by left|]. rewrite (Hu _ d) by done. by rewrite Es.
  - assert (exists d' id, insert_piece k raw false d = Some (d', id)) as (d' & id & E) by (unfold insert_piece; rewrite Es; destruct k as [[a b] c]; destruct (active_index d); by do 2 eexists).
    destruct (insert_piece_ok _ _ _ _ _ _ E Hd) as (Hd' & _ & _ & _ & Hix & p & Hp & Ha & _). exists d', id, p. rewrite E. split; [done|].
    split; [by rewrite Hp, lookup_insert_eq|]. split; [done|]. split; [by right|]. rewrite <- Hix, (Hu _ d') by done. by rewrite (select_after_insert k raw false d d' id Hd Es E).
Qed.

(** ** Runs *)

(** Without the index two clients that look at the same time both add the piece. *)
Definition race_first : park_db := mkParkDb {[1 := mkParked "piece" 1024 1000 false None None true false 1]} {[1 := mkRef 1 None true]} 2 2 false.
Definition race_second : park_db :=
  mkParkDb {[1 := mkParked "piece" 1024 1000 false None None true false 1; 2 := mkParked "piece" 1024 1000 false None None true false 1]} {[1 := mkRef 1 None true; 2 := mkRef 2 None true]} 3 3 false.

Lemma fallback_race : rtc park_step (empty_park false) (mkParkWorld race_second ∅ []) /\ duplicate_groups race_second <> [].
Proof.
  split; [|vm_compute; discriminate]. apply (rtc_l _ _ (mkParkWorld race_first ∅ [])).
  - eapply (ps_upsert (w_park (empty_park false)) _ _ _ false false ex_key 1000 _ _ None true); [reflexivity|vm_compute; reflexivity].
  - apply rtc_once. eapply (ps_upsert (w_park (empty_park false)) _ _ _ false false ex_key 1000 _ _ None true); [reflexivity|vm_compute; reflexivity].
Qed.

Lemma fix_restores_index_witness :
  exists d' removed, fix_Do ∅ (fun _ => false) (fun _ => true) race_second = (d', removed, Ok true) /\ db_ok d' /\ active_index d' = true /\ (forall n, ref_kept race_second d' n)
    /\ (forall k id p, parked_pieces race_second !! id = Some p -> active_row k p -> exists id' p', parked_pieces d' !! id' = Some p' /\ active_row k p'
          /\ (pp_complete p = true -> (fun _ : Z => false) id = true -> pp_complete p' = true /\ (id' = id \/ (fun _ : Z => false) id' = true))).
Proof.
  apply (fix_restores_index ∅ (fun _ => false) (fun _ => true) race_second).
  - assert (world_ok ∅ ∅ (mkParkWorld race_second ∅ [])) as Hw by (apply (rtc_invariant park_step (world_ok ∅ ∅) (park_step_ok ∅ ∅) (empty_park false)); [apply fallback_race|apply empty_park_ok]). apply (wo_db _ _ _ Hw).
  - reflexivity.
  - intros id p Hp. unfold task_active. destruct (pp_task_id p) eqn:E; [|reflexivity]. apply bool_decide_eq_false. apply not_elem_of_empty.
  - reflexivity.
Defined.

(** A client that attaches to a stored piece does not look whether it is being cleaned up.
    With a new row of the same piece next to it, the clean-up task can neither delete the
    old row nor give it back. *)
Definition conflict_db : park_db :=
  mkParkDb {[1 := mkParked "piece" 1024 1000 true None (Some 7) true false 1; 2 := mkParked "piece" 1024 1000 false None None true false 1]}
    {[2 := mkRef 2 None true; 3 := mkRef 1 None true]} 3 4 true.

Lemma step_to `{Enum} (w w1 w2 : park_world) : park_step w w1 -> w1 = w2 -> park_step w w2.
Proof. by intros Hs <-. Qed.

Lemma reset_conflict : rtc park_step (empty_park true) (mkParkWorld conflict_db {[1]} []) /\ cleanup_Do 7 (fun d => d) conflict_db = (conflict_db, None, Err ResetFailed).
Proof.
  split; [|vm_compute; reflexivity].
  set (row := fun c (t : option TaskID) n => mkParked "piece" 1024 1000 c None t true false n). set (r1 := mkRef 1 None true).
  apply (rtc_l _ _ (mkParkWorld (mkParkDb {[1 := row false None 1]} {[1 := r1]} 2 2 true) ∅ [])).
  { eapply (ps_upsert (w_park (empty_park true)) _ _ _ false true ex_key 1000 _ _ None true); [reflexivity|vm_compute; reflexivity]. }
  apply (rtc_l _ _ (mkParkWorld (mkParkDb {[1 := row false None 1]} {[1 := r1]} 2 2 true) ({[1]} ∪ ∅) [WroteRun 1])); [apply ps_upload; cbn; lia|].
  rewrite union_empty_r_L. apply (rtc_l _ _ (mkParkWorld (mkParkDb {[1 := row true None 1]} {[1 := r1]} 2 2 true) {[1]} [])).
  { eapply step_to; [apply (ps_uploaded (mkParkDb {[1 := row false None 1]} {[1 := r1]} 2 2 true) {[1]} [] [] 1)|vm_compute; reflexivity]. }
  apply (rtc_l _ _ (mkParkWorld (mkParkDb {[1 := row true None 0]} ∅ 2 2 true) {[1]} [])).
  { eapply step_to; [apply (ps_unref (mkParkDb {[1 := row true None 1]} {[1 := r1]} 2 2 true) {[1]} [] 1)|vm_compute; reflexivity]. }
  apply (rtc_l _ _ (mkParkWorld (mkParkDb {[1 := row true (Some 7) 0]} ∅ 2 2 true) {[1]} [])).
  { apply (ps_claim _ _ _ 7 1); [vm_compute; left|reflexivity]. }
  apply (rtc_l _ _ (mkParkWorld (mkParkDb {[1 := row true (Some 7) 0; 2 := row false None 1]} {[2 := mkRef 2 None true]} 3 3 true) {[1]} [])).
  { eapply (ps_upsert (mkParkDb {[1 := row true (Some 7) 0]} ∅ 2 2 true) _ _ _ true true ex_key 1000 _ _ None true); [reflexivity|vm_compute; reflexivity]. }
  apply rtc_once. apply (ps_ref _ _ _ r1 conflict_db 3). vm_compute. reflexivity.
Qed.

(** A row with a task is not polled again, whether or not the task still is there. *)
Lemma poll_needs_no_task `{Enum} (longTerm : bool) (d : park_db) (id : Z) : id ∈ poll_pieces longTerm d <-> exists p, parked_pieces d !! id = Some p /\ park_pollable longTerm p.
Proof.
  unfold poll_pieces. rewrite elem_of_enum, list_elem_of_fmap. split.
  - intros ([i p] & -> & Hin). apply list_elem_of_filter in Hin as [Hp Hin]. apply elem_of_map_to_list in Hin. by exists p.
  - intros (p & Hp & Hpoll). exists (id, p). split; [done|]. apply list_elem_of_filter. split; [done|]. by apply elem_of_map_to_list.
Qed.

(** The pieces in storage, those being written and those accepted fit the limit. *)
Lemma park_CanAccept_bound (p2Active : bool) (maxInPark count running : Z) (ids : list TaskID) : 0 < maxInPark -> 0 <= count -> 0 <= running ->
  count + running <= maxInPark -> count + running + Z.of_nat (length (park_CanAccept p2Active maxInPark count running ids)) <= maxInPark.
Proof.
  intros Hm Hc Hr Hb. unfold park_CanAccept. destruct p2Active; [cbn; lia|]. rewrite (proj2 (Z.leb_gt _ _)) by lia.
  destruct (count >=? maxInPark); [cbn; lia|]. destruct (count + running >=? maxInPark); [cbn; lia|]. rewrite length_take. lia.
Qed.
