(* ===== verification/DataCid.v ===== *)
(** * Commitments of streams

    [lib/proof/datacid.go]: [DataCidWriter] computes the commitment of a stream of
    unknown length.  Full buffers go to goroutines, which hash them while the stream
    goes on; a fixed set of copies of the buffer is handed round through a channel.
    [Sum] hashes the rest, adds zero pieces up to a power of two and joins the
    commitments. *)

From stdpp Require Import base gmap sets list relations.
From Stdlib Require Import ZArith Lia Strings.Byte.
From S2P Require Import Prelude Codec Memtree TreeD TreeDFacts.

Section Writer.
(** The size of a buffer: [128 * 2 ^ e] padded bytes; in the code [8 << 20], so that
    [e = 16]. *)
Context (e : nat).
Definition commPBufPad : Z := 128 * 2 ^ Z.of_nat e.
Definition CommPBuf : Z := commPBufPad - commPBufPad / 128.

(** [commp.Calc]: the digest and the padded size of what was written, if it takes it;
    [PaddedPieceSize.Unpadded]; the commitment of a piece of zeros;
    [commputils.PieceAggregateCommP] of a proof type and pieces of size [commPBufPad],
    which fails for pieces that do not fit the sector of the proof type. *)
Context (Digest : bytes -> option (bytes * Z)) (Unpadded : Z -> Z) (ZeroPieceCommitment : Z -> bytes) (PieceAggregateCommP : Z -> list bytes -> option (bytes * Z)).

Definition RegisteredSealProof_StackedDrg64GiBV1 : Z := 4.

Record DataCIDSize := mkDataCIDSize { PayloadSize : Z; PieceSize : Z; PieceCID : option bytes }.

(** ** [Write] *)

(** A goroutine: the buffer it hashes, its place in [leaves], and whether it has sent
    its result. *)
Record leaf_run := mkLeafRun { lr_buf : nat; lr_leaf : nat; lr_sent : bool }.

(** The writer, the rest of the slice the caller is writing, whether a full buffer is
    waiting for [throttle], and the slices still to be written.  A result that was not
    sent yet is [None]; what [Digest] gives for an error is dropped by the code. *)
Record DataCidWriter := mkWriter {
  cw_len : Z; cw_buf : bytes; cw_leaves : list (option (option bytes)); cw_tbufs : list bytes; cw_throttle : list nat; cw_runs : list leaf_run;
  cw_p : bytes; cw_full : bool; cw_todo : list bytes }.

(** [copy(w.buf[at:], src)] *)
Definition copy_at (buf : bytes) (at_ : nat) (src : bytes) : bytes := take at_ buf ++ src ++ drop (at_ + length src) buf.

(** One round of the loop, up to the test for a full buffer. *)
Definition copy_round (w : DataCidWriter) : DataCidWriter :=
  let buffered := Z.to_nat (cw_len w mod CommPBuf) in
  let toBuffer := Nat.min (Z.to_nat CommPBuf - buffered) (length (cw_p w)) in
  let len' := cw_len w + Z.of_nat toBuffer in
  mkWriter len' (copy_at (cw_buf w) buffered (take toBuffer (cw_p w))) (cw_leaves w) (cw_tbufs w) (cw_throttle w) (cw_runs w)
    (drop toBuffer (cw_p w)) (bool_decide (0 < toBuffer)%nat && (len' mod CommPBuf =? 0)) (cw_todo w).

(** A buffer is taken from [throttle] and given to a goroutine. *)
Definition start_leaf (idx : nat) (free : list nat) (w : DataCidWriter) : DataCidWriter :=
  mkWriter (cw_len w) (cw_buf w) (cw_leaves w ++ [None]) (<[idx := cw_buf w]> (cw_tbufs w)) free
    (cw_runs w ++ [mkLeafRun idx (length (cw_leaves w)) false]) (cw_p w) false (cw_todo w).

Definition send_leaf (i : nat) (r : leaf_run) (w : DataCidWriter) : DataCidWriter :=
  mkWriter (cw_len w) (cw_buf w) (<[lr_leaf r := Some (fst <$> Digest (cw_tbufs w !!! lr_buf r))]> (cw_leaves w)) (cw_tbufs w) (cw_throttle w)
    (<[i := mkLeafRun (lr_buf r) (lr_leaf r) true]> (cw_runs w)) (cw_p w) (cw_full w) (cw_todo w).

Definition free_buf (i : nat) (r : leaf_run) (w : DataCidWriter) : DataCidWriter :=
  mkWriter (cw_len w) (cw_buf w) (cw_leaves w) (cw_tbufs w) (cw_throttle w ++ [lr_buf r]) (take i (cw_runs w) ++ drop (S i) (cw_runs w)) (cw_p w) (cw_full w) (cw_todo w).

(** The caller and the goroutines. *)
Inductive cid_step : DataCidWriter -> DataCidWriter -> Prop :=
| cs_copy w : cw_p w <> [] -> cw_full w = false -> cid_step w (copy_round w)
| cs_start w idx free : cw_full w = true -> cw_throttle w = idx :: free -> cid_step w (start_leaf idx free w)
| cs_call w p todo : cw_p w = [] -> cw_full w = false -> cw_todo w = p :: todo ->
    cid_step w (mkWriter (cw_len w) (cw_buf w) (cw_leaves w) (cw_tbufs w) (cw_throttle w) (cw_runs w) p false todo)
| cs_send w i r : cw_runs w !! i = Some r -> lr_sent r = false -> cid_step w (send_leaf i r w)
| cs_free w i r : cw_runs w !! i = Some r -> lr_sent r = true -> cid_step w (free_buf i r w).

(** [new(DataCidWriter)], on a machine with [cpus] processors, and what will be written. *)
Definition new_writer (cpus : nat) (writes : list bytes) : DataCidWriter :=
  mkWriter 0 (replicate (Z.to_nat CommPBuf) x00) [] (replicate cpus (replicate (Z.to_nat CommPBuf) x00)) (seq 0 cpus) [] [] false writes.

(** All slices are written. *)
Definition all_written (w : DataCidWriter) : Prop := cw_p w = [] /\ cw_full w = false /\ cw_todo w = [].

(** ** [Sum] *)

(** [bits.Len] of a 64-bit word, and [1 << n] of an int. *)
Definition bits_Len (x : Z) : Z := if u64 x =? 0 then 0 else Z.log2 (u64 x) + 1.
Definition shl1 (n : Z) : Z := i64 (Z.shiftl 1 n).

(** The end of [Sum], from the commitments of all buffers. *)
Definition join_leaves (rawLen : Z) (leaves : list (option bytes)) : option DataCIDSize :=
  let n := Z.of_nat (length leaves) in
  let fillerLeaves := i64 (shl1 (bits_Len (n - 1)) - n) in
  match leaves ++ replicate (Z.to_nat fillerLeaves) (Some (ZeroPieceCommitment CommPBuf)) with
  | [c] => Some (mkDataCIDSize rawLen commPBufPad c)
  | pieces =>
      match mapM id pieces with
      | None => None
      | Some cs => match PieceAggregateCommP RegisteredSealProof_StackedDrg64GiBV1 cs with None => None | Some (p, paddedSize) => Some (mkDataCIDSize rawLen (u64 (paddedSize * commPBufPad)) (Some p)) end
      end
  end.

(** [Sum], when it has received the results of all goroutines; [None] is an error. *)
Definition Sum (w : DataCidWriter) : option DataCIDSize :=
  match mapM id (cw_leaves w) with
  | None => None
  | Some leaves =>
      let lastLen := cw_len w mod CommPBuf in
      if lastLen =? 0 then join_leaves (cw_len w) leaves
      else
        let '(buf, lastLen) := if bool_decide (leaves = []) then (cw_buf w, lastLen)
                               else (take (Z.to_nat lastLen) (cw_buf w) ++ replicate (Z.to_nat (CommPBuf - lastLen)) x00, CommPBuf) in
        let '(p, pps) := match Digest (take (Z.to_nat lastLen) buf) with Some (pb, pps) => (Some pb, pps) | None => (None, 0) end in
        if Unpadded pps <? CommPBuf then Some (mkDataCIDSize (cw_len w) pps p)
        else join_leaves (cw_len w) (leaves ++ [p])
  end.
End Writer.
