(* ===== verification/DataCidFacts.v ===== *)
(** * The commitment of a stream is that of its bytes

    However the stream is cut into slices and whenever the goroutines run, [Sum] gives the
    root of the tree over the padded bytes; and writing ends. *)

From stdpp Require Import base gmap sets list relations.
From Stdlib Require Import ZArith Lia Strings.Byte.
From S2P Require Import Prelude Codec Memtree TreeD TreeDFacts CachedProof DataCid.

Section Facts.
Context (e : nat).
Context (Digest : bytes -> option (bytes * Z)).
Abbreviation B := (127 * 2 ^ e)%nat.
Abbreviation step := (cid_step e Digest).

Lemma CommPBuf_B : CommPBuf e = Z.of_nat B.
Proof using.
  clear Digest. unfold CommPBuf, commPBufPad. rewrite Z.mul_comm, Z.div_mul by lia. rewrite Nat2Z.inj_mul, Nat2Z.inj_pow. change (Z.of_nat 127) with 127. change (Z.of_nat 2) with 2. lia.
Qed.

Lemma B_pos : (0 < B)%nat.
Proof using. clear Digest. pose proof (Nat.pow_nonzero 2 e). lia. Qed.

(** The [i]-th buffer of the stream. *)
Definition chunk (i : nat) (s : bytes) : bytes := take B (drop (i * B) s).

Lemma chunk_app (i : nat) (s t : bytes) : (i * B + B <= length s)%nat -> chunk i (s ++ t) = chunk i s.
Proof using. clear Digest. intros Hi. unfold chunk. rewrite drop_app_le by lia. rewrite take_app_le; [done|]. rewrite length_drop. lia. Qed.

(** ** The invariant *)

(** The leaf [i] of a stream [s]: being hashed, or there. *)
Definition leaf_ok (s : bytes) (w : DataCidWriter) (i : nat) (x : option (option bytes)) : Prop :=
  match x with
  | None => exists j r, cw_runs w !! j = Some r /\ lr_leaf r = i /\ lr_sent r = false
  | Some c => c = fst <$> Digest (chunk i s)
  end.

Record writer_ok (cpus : nat) (writes : list bytes) (s : bytes) (w : DataCidWriter) : Prop := mkWriterOk {
  wk_stream : s ++ cw_p w ++ concat (cw_todo w) = concat writes;
  wk_len : cw_len w = Z.of_nat (length s);
  wk_buf : length (cw_buf w) = B;
  wk_part : if cw_full w then length s = (S (length (cw_leaves w)) * B)%nat /\ cw_buf w = chunk (length (cw_leaves w)) s
            else (length (cw_leaves w) * B <= length s < S (length (cw_leaves w)) * B)%nat /\ take (length s - length (cw_leaves w) * B) (cw_buf w) = drop (length (cw_leaves w) * B) s;
  wk_leaves : forall i x, cw_leaves w !! i = Some x -> leaf_ok s w i x;
  wk_bufs : (lr_buf <$> cw_runs w) ++ cw_throttle w ≡ₚ seq 0 cpus;
  wk_tbufs : length (cw_tbufs w) = cpus;
  wk_runs : forall j r, cw_runs w !! j = Some r -> (lr_leaf r < length (cw_leaves w))%nat /\ (lr_sent r = false -> cw_tbufs w !!! lr_buf r = chunk (lr_leaf r) s) }.

Lemma new_writer_ok (cpus : nat) (writes : list bytes) : writer_ok cpus writes [] (new_writer e cpus writes).
Proof.
  pose proof B_pos. unfold new_writer. constructor; cbn [cw_p cw_todo cw_len cw_buf cw_full cw_leaves cw_runs cw_throttle cw_tbufs]; try done.
  - rewrite length_replicate, CommPBuf_B. lia.
  - cbn [length]. split; [lia|]. rewrite Nat.sub_diag. done.
  - apply length_replicate.
Qed.

Lemma full_chunks (s : bytes) (w : DataCidWriter) (cpus : nat) (writes : list bytes) : writer_ok cpus writes s w -> (length (cw_leaves w) * B <= length s)%nat.
Proof. intros []. destruct (cw_full w); lia. Qed.

(** A copy. *)
Lemma copy_ok (cpus : nat) (writes : list bytes) (s : bytes) (w : DataCidWriter) : writer_ok cpus writes s w -> cw_p w <> [] -> cw_full w = false ->
  exists t, writer_ok cpus writes (s ++ t) (copy_round e w).
Proof.
  intros Hok Hp Hf. pose proof B_pos as HB. destruct Hok. rewrite Hf in wk_part0. destruct wk_part0 as [Hpos Hpart].
  set (q := length (cw_leaves w)) in *. set (r := (length s - q * B)%nat) in *.
  assert (Z.to_nat (cw_len w mod CommPBuf e) = r) as Hr.
  { rewrite wk_len0, CommPBuf_B, <- Nat2Z.inj_mod, Nat2Z.id. symmetry. apply (Nat.mod_unique _ _ q); lia. }
  unfold copy_round. rewrite Hr, CommPBuf_B, Nat2Z.id. set (n := Nat.min (B - r) (length (cw_p w))).
  assert (0 < n)%nat as Hn by (unfold n; destruct (cw_p w); [done|cbn [length]; lia]).
  set (t := take n (cw_p w)). assert (length t = n) as Ht by (unfold t; rewrite length_take; lia).
  assert (length (copy_at (cw_buf w) r t) = B) as Hlb by (unfold copy_at; rewrite !length_app, length_take, length_drop; lia).
  assert (take (r + n) (copy_at (cw_buf w) r t) = drop (q * B) (s ++ t)) as Hcopy.
  { unfold copy_at. rewrite drop_app_le by lia. rewrite <- Hpart. rewrite app_assoc, take_app_le by (rewrite length_app, length_take; lia). apply take_ge. rewrite length_app, length_take. lia. }
  exists t. constructor; cbn [cw_p cw_todo cw_len cw_buf cw_full cw_leaves cw_runs cw_throttle cw_tbufs]; try done.
  - rewrite <- wk_stream0. unfold t. rewrite <- (take_drop n (cw_p w)) at 3. by rewrite <- !app_assoc.
  - rewrite wk_len0, length_app, Nat2Z.inj_add, Ht. done.
  - rewrite bool_decide_eq_true_2 by done. cbn [andb]. rewrite wk_len0, length_app, Ht. fold q. rewrite <- Nat2Z.inj_add, <- Nat2Z.inj_mod.
    destruct (decide (r + n = B)%nat) as [Hfull|Hnot].
    + rewrite (proj2 (Z.eqb_eq _ _)) by (replace (length s + n)%nat with (S q * B)%nat by lia; by rewrite Nat.Div0.mod_mul). split; [lia|].
      unfold chunk. fold q. rewrite <- Hcopy, Hfull. rewrite take_take, Nat.min_id, take_ge by lia. done.
    + rewrite (proj2 (Z.eqb_neq _ _)) by (rewrite <- (Nat.mod_unique (length s + n) B q (r + n)); lia). split; [lia|]. fold q. by replace (length s + n - q * B)%nat with (r + n)%nat by lia.
  - intros i x Hx. specialize (wk_leaves0 i x Hx). destruct x as [c|]; [|done]. unfold leaf_ok in *. rewrite chunk_app; [done|]. apply lookup_lt_Some in Hx. fold q in Hx. nia.
  - intros j x Hx. destruct (wk_runs0 j x Hx) as [H1 H2]. split; [done|]. intros Hs. rewrite chunk_app; [by apply H2|]. fold q in H1. nia.
Qed.

(** A goroutine starts. *)
Lemma cid_start_ok (cpus : nat) (writes : list bytes) (s : bytes) (w : DataCidWriter) (idx : nat) (free : list nat) : writer_ok cpus writes s w -> cw_full w = true -> cw_throttle w = idx :: free ->
  writer_ok cpus writes s (start_leaf idx free w).
Proof.
  intros [] Hf Ht. pose proof B_pos. rewrite Hf in wk_part0. destruct wk_part0 as [Hpos Hbuf]. unfold start_leaf.
  assert (NoDup ((lr_buf <$> cw_runs w) ++ idx :: free)) as Hnd by (rewrite <- Ht, wk_bufs0; apply NoDup_seq).
  assert (idx < cpus)%nat as Hidx.
  { assert (idx ∈ (lr_buf <$> cw_runs w) ++ cw_throttle w) as Hin by (rewrite Ht; apply elem_of_app; right; left). rewrite wk_bufs0 in Hin. apply elem_of_seq in Hin. lia. }
  constructor; cbn [cw_p cw_todo cw_len cw_buf cw_full cw_leaves cw_runs cw_throttle cw_tbufs]; try done.
  - rewrite length_app. cbn [length]. rewrite Nat.add_1_r. split; [lia|]. rewrite Hpos, Nat.sub_diag. symmetry. apply drop_ge. lia.
  - intros i x Hx. apply lookup_app_Some in Hx as [Hx|[Hge Hx]].
    + specialize (wk_leaves0 i x Hx). destruct x as [c|]; [done|]. destruct wk_leaves0 as (j & r & Hj & H1 & H2). exists j, r. split; [|done]. by apply lookup_app_l_Some.
    + apply list_lookup_singleton_Some in Hx as [Hi <-]. exists (length (cw_runs w)), (mkLeafRun idx (length (cw_leaves w)) false). cbn [cw_runs lr_leaf lr_sent].
      split; [rewrite lookup_app_r, Nat.sub_diag; done|]. split; [lia|done].
  - rewrite fmap_app. cbn [fmap list_fmap lr_buf]. rewrite <- app_assoc. cbn [app]. by rewrite <- Ht.
  - by rewrite length_insert.
  - intros j r Hj. rewrite length_app. cbn [length]. apply lookup_app_Some in Hj as [Hj|[Hge Hj]].
    + destruct (wk_runs0 j r Hj) as [H1 H2]. split; [lia|]. intros Hs. rewrite list_lookup_total_insert_ne; [by apply H2|]. intros Heq.
      apply NoDup_app in Hnd as (_ & Hnd & _). apply (Hnd (lr_buf r)); [|rewrite <- Heq; left]. apply list_elem_of_fmap. exists r. split; [done|]. by eapply list_elem_of_lookup_2.
    + apply list_lookup_singleton_Some in Hj as [_ <-]. cbn [lr_leaf lr_buf]. split; [lia|]. intros _. rewrite list_lookup_total_insert_eq by lia. exact Hbuf.
Qed.

(** A goroutine sends its result, and gives its buffer back. *)
Lemma send_ok (cpus : nat) (writes : list bytes) (s : bytes) (w : DataCidWriter) (i : nat) (r : leaf_run) : writer_ok cpus writes s w -> cw_runs w !! i = Some r -> lr_sent r = false ->
  writer_ok cpus writes s (send_leaf Digest i r w).
Proof.
  intros [] Hi Hr. destruct (wk_runs0 i r Hi) as [Hlt Hbuf]. unfold send_leaf.
  constructor; cbn [cw_p cw_todo cw_len cw_buf cw_full cw_leaves cw_runs cw_throttle cw_tbufs]; rewrite ?length_insert; try done.
  - intros k x Hx. destruct (decide (k = lr_leaf r)) as [->|Hne].
    + rewrite list_lookup_insert_eq in Hx by done. injection Hx as <-. unfold leaf_ok. by rewrite Hbuf.
    + rewrite list_lookup_insert_ne in Hx by done. specialize (wk_leaves0 k x Hx). destruct x as [c|]; [done|]. destruct wk_leaves0 as (j & r' & Hj & H1 & H2).
      exists j, r'. split; [|done]. cbn [cw_runs]. rewrite list_lookup_insert_ne; [done|]. intros ->. congruence.
  - rewrite list_fmap_insert. cbn [lr_buf]. rewrite list_insert_id; [done|]. by rewrite list_lookup_fmap, Hi.
  - intros j r' Hj. apply list_lookup_insert_Some in Hj as [(<- & <- & _)|[_ Hj]]; [|by apply (wk_runs0 j)]. by split.
Qed.

Lemma free_ok (cpus : nat) (writes : list bytes) (s : bytes) (w : DataCidWriter) (i : nat) (r : leaf_run) : writer_ok cpus writes s w -> cw_runs w !! i = Some r -> lr_sent r = true ->
  writer_ok cpus writes s (free_buf i r w).
Proof.
  intros [] Hi Hr. unfold free_buf. pose proof (take_drop_middle (cw_runs w) i r Hi) as Hsplit.
  assert (forall j r', cw_runs w !! j = Some r' -> j <> i -> exists j', (take i (cw_runs w) ++ drop (S i) (cw_runs w)) !! j' = Some r') as Hother.
  { intros j r' Hj Hne. assert (r' ∈ take i (cw_runs w) ++ drop (S i) (cw_runs w)) as Hin; [|by apply list_elem_of_lookup in Hin].
    apply elem_of_app. destruct (decide (j < i)%nat) as [Hlt|Hge]; [left|right].
    - apply list_elem_of_lookup. exists j. by rewrite lookup_take_lt.
    - apply list_elem_of_lookup. exists (j - S i)%nat. rewrite lookup_drop. by replace (S i + (j - S i))%nat with j by lia. }
  constructor; cbn [cw_p cw_todo cw_len cw_buf cw_full cw_leaves cw_runs cw_throttle cw_tbufs]; try done.
  - intros k x Hx. specialize (wk_leaves0 k x Hx). destruct x as [c|]; [done|]. destruct wk_leaves0 as (j & r' & Hj & H1 & H2).
    destruct (Hother j r' Hj) as [j' Hj']; [intros ->; congruence|]. by exists j', r'.
  - rewrite <- wk_bufs0. rewrite <- Hsplit at 3. rewrite !fmap_app. cbn [fmap list_fmap]. rewrite <- !app_assoc. f_equiv. cbn [app]. rewrite app_assoc. symmetry. rewrite Permutation_cons_append.
    by rewrite <- app_assoc.
  - intros j r' Hj. assert (r' ∈ cw_runs w) as Hin. { apply list_elem_of_lookup_2 in Hj. rewrite <- Hsplit. apply elem_of_app in Hj as [Hj|Hj]; apply elem_of_app; [by left|right; by right]. }
    apply list_elem_of_lookup in Hin as [k Hk]. by apply (wk_runs0 k).
Qed.

Lemma cid_step_ok (cpus : nat) (writes : list bytes) (w w' : DataCidWriter) : (exists s, writer_ok cpus writes s w) -> step w w' -> exists s, writer_ok cpus writes s w'.
Proof.
  intros [s Hok] Hs. destruct Hs as [w Hp Hf|w idx free Hf Ht|w p todo Hp Hf Htodo|w i r Hi Hr|w i r Hi Hr].
  - destruct (copy_ok cpus writes s w Hok Hp Hf) as [t Ht]. by exists (s ++ t).
  - exists s. by apply cid_start_ok.
  - exists s. destruct Hok. constructor; cbn [cw_p cw_todo cw_len cw_buf cw_full cw_leaves cw_runs cw_throttle cw_tbufs]; try done; [|by rewrite Hf in wk_part0].
    rewrite <- wk_stream0, Hp, Htodo. done.
  - exists s. by apply send_ok.
  - exists s. by apply free_ok.
Qed.

(** ** Writing ends *)

Definition run_weight (r : leaf_run) : nat := if lr_sent r then 1 else 2.
Definition weight (w : DataCidWriter) : nat :=
  5 * (length (cw_p w) + length (concat (cw_todo w))) + length (cw_todo w) + (if cw_full w then 4 else 0) + sum_list_with run_weight (cw_runs w).

Lemma runs_weight (runs : list leaf_run) (i : nat) (r : leaf_run) : runs !! i = Some r ->
  sum_list_with run_weight runs = (sum_list_with run_weight (take i runs) + (run_weight r + sum_list_with run_weight (drop (S i) runs)))%nat.
Proof using. clear Digest. intros Hi. rewrite <- (take_drop_middle runs i r Hi) at 1. by rewrite sum_list_with_app. Qed.

Lemma step_weight (cpus : nat) (writes : list bytes) (s : bytes) (w w' : DataCidWriter) : writer_ok cpus writes s w -> step w w' -> (weight w' < weight w)%nat.
Proof.
  intros Hok Hs. pose proof B_pos as HB. destruct Hs as [w Hp Hf|w idx free Hf Ht|w p todo Hp Hf Htodo|w i r Hi Hr|w i r Hi Hr]; unfold weight.
  - unfold copy_round. cbn [cw_p cw_todo cw_full cw_runs]. rewrite Hf. set (n := Nat.min _ _). rewrite length_drop.
    assert (0 < n <= length (cw_p w))%nat as Hn.
    { unfold n. split; [|lia]. destruct (cw_p w); [done|]. cbn [length]. rewrite CommPBuf_B. pose proof (Z.mod_pos_bound (cw_len w) (Z.of_nat B) ltac:(lia)). lia. }
    destruct (_ && _); lia.
  - unfold start_leaf. cbn [cw_p cw_todo cw_full cw_runs]. rewrite Hf, sum_list_with_app. cbn. lia.
  - cbn [cw_p cw_todo cw_full cw_runs]. rewrite Hp, Hf, Htodo. cbn [concat length]. rewrite length_app. lia.
  - unfold send_leaf. cbn [cw_p cw_todo cw_full cw_runs]. rewrite (runs_weight (cw_runs w) i r Hi).
    rewrite (runs_weight (<[i := mkLeafRun (lr_buf r) (lr_leaf r) true]> (cw_runs w)) i (mkLeafRun (lr_buf r) (lr_leaf r) true)) by (apply list_lookup_insert_eq; by eapply lookup_lt_Some).
    rewrite take_insert_ge, drop_insert_lt by lia. assert (run_weight r = 2%nat) as -> by (unfold run_weight; by rewrite Hr). change (run_weight (mkLeafRun (lr_buf r) (lr_leaf r) true)) with 1%nat. lia.
  - unfold free_buf. cbn [cw_p cw_todo cw_full cw_runs]. rewrite (runs_weight (cw_runs w) i r Hi), sum_list_with_app. assert (run_weight r = 1%nat) as -> by (unfold run_weight; by rewrite Hr). lia.
Qed.

Lemma steps_bounded (cpus : nat) (writes : list bytes) (n : nat) (s : bytes) (w w' : DataCidWriter) : writer_ok cpus writes s w -> nsteps step n w w' -> (n + weight w' <= weight w)%nat.
Proof.
  intros Hok Hn. revert s Hok. induction Hn as [w|n w w1 w' Hs Hn IH]; intros s Hok; [lia|]. pose proof (step_weight cpus writes s w w1 Hok Hs).
  destruct (cid_step_ok cpus writes w w1 (ex_intro _ s Hok) Hs) as [s' Hok']. specialize (IH s' Hok'). lia.
Qed.

(** Nothing is left to do only when all is written and all goroutines are done. *)
Lemma stuck_done (cpus : nat) (writes : list bytes) (s : bytes) (w : DataCidWriter) : (0 < cpus)%nat -> writer_ok cpus writes s w -> (forall w', ~ step w w') -> all_written w /\ cw_runs w = [].
Proof.
  intros Hc Hok Hst. assert (cw_runs w = []) as Hruns.
  { destruct (cw_runs w) as [|r rs] eqn:E; [done|exfalso]. destruct (lr_sent r) eqn:Er.
    - apply (Hst (free_buf 0 r w)). apply cs_free; [by rewrite E|done].
    - apply (Hst (send_leaf Digest 0 r w)). apply cs_send; [by rewrite E|done]. }
  split; [|done]. destruct (cw_full w) eqn:Ef.
  - exfalso. pose proof (wk_bufs _ _ _ _ Hok) as Hb. rewrite Hruns in Hb. cbn [fmap list_fmap app] in Hb. destruct (cw_throttle w) as [|idx free] eqn:Et.
    + apply Permutation_length in Hb. rewrite length_seq in Hb. cbn in Hb. lia.
    + apply (Hst (start_leaf idx free w)). by apply cs_start.
  - destruct (cw_p w) as [|b p] eqn:Ep; [|exfalso; apply (Hst (copy_round e w)); by apply cs_copy; [rewrite Ep|]].
    destruct (cw_todo w) as [|p todo] eqn:Et; [by repeat split|]. exfalso. eapply Hst. by apply (cs_call e Digest w p todo).
Qed.
End Facts.

(** * What [Sum] gives *)

(** The nodes of a buffer. *)
Definition nodes_of (n : nat) (b : bytes) : list bytes := (fun i => take 32 (drop (32 * i) b)) <$> seq 0 n.

Lemma nodes_of_length (n : nat) (b : bytes) : length (nodes_of n b) = n.
Proof. unfold nodes_of. by rewrite length_fmap, length_seq. Qed.

Lemma nodes_of_lookup (n : nat) (b : bytes) (i : nat) : (i < n)%nat -> nodes_of n b !!! i = take 32 (drop (32 * i) b).
Proof. intros Hi. unfold nodes_of. apply list_lookup_total_correct. by rewrite list_lookup_fmap, lookup_seq_lt. Qed.

Lemma nodes_of_slice (n m i : nat) (b : bytes) : (i * m + m <= n)%nat -> take m (drop (i * m) (nodes_of n b)) = nodes_of m (drop (32 * (i * m)) b).
Proof.
  intros Hi. apply list_eq_total; [rewrite length_take, length_drop, !nodes_of_length; lia|]. rewrite length_take, length_drop, nodes_of_length. intros k Hk.
  rewrite lookup_total_take_lt, lookup_total_drop, !nodes_of_lookup by lia. rewrite drop_drop. f_equal. f_equal. lia.
Qed.

Lemma nodes_of_app (n : nat) (a b : bytes) : length a = (32 * n)%nat -> nodes_of n (a ++ b) = nodes_of n a.
Proof.
  intros Ha. unfold nodes_of. apply list_fmap_ext. intros k i Hi%list_elem_of_lookup_2%elem_of_seq. rewrite drop_app_le by lia. rewrite take_app_le; [done|]. rewrite length_drop. lia.
Qed.

(** The least piece for a payload. *)
Definition min_exp (j len : nat) : Prop := (len <= 127 * 2 ^ j)%nat /\ (j = 0%nat \/ (127 * 2 ^ (j - 1) < len)%nat).

Lemma min_exp_unique (i j len : nat) : min_exp i len -> min_exp j len -> i = j.
Proof.
  assert (forall a b, min_exp a len -> min_exp b len -> (b <= a)%nat) as H.
  { intros a b [Ha _] [_ Hb]. destruct (decide (b <= a)%nat) as [|Hab]; [done|]. assert (2 ^ a <= 2 ^ (b - 1))%nat by (apply Nat.pow_le_mono_r; lia). lia. }
  intros Hi Hj. pose proof (H i j Hi Hj). pose proof (H j i Hj Hi). lia.
Qed.

Section Sum.
Context (Sum256 : bytes -> bytes) (Pad : bytes -> bytes) (Pad_app : forall (q : nat) a b, length a = (127 * q)%nat -> Pad (a ++ b) = Pad a ++ Pad b).
Context (Pad_length : forall (q : nat) a, length a = (127 * q)%nat -> length (Pad a) = (128 * q)%nat).

(** The commitment of a piece of [127 * 2 ^ j] bytes. *)
Definition comm_root (j : nat) (x : bytes) : bytes := ref Sum256 (nodes_of (2 ^ (j + 2)) (Pad x)) (j + 2) 0.

Lemma pow_add2 (j : nat) : (2 ^ (j + 2) = 4 * 2 ^ j)%nat.
Proof using. clear. rewrite Nat.pow_add_r. cbn. lia. Qed.

(** The commitment of a piece is that of its parts. *)
Lemma comm_root_join (e t : nat) (total : bytes) : length total = (127 * 2 ^ (e + t))%nat ->
  ref Sum256 ((fun i => comm_root e (chunk e i total)) <$> seq 0 (2 ^ t)) t 0 = comm_root (e + t) total.
Proof.
  intros Hl. set (leaves := nodes_of (2 ^ (e + t + 2)) (Pad total)). pose proof (pow_add2 e) as He. pose proof (Nat.pow_add_r 2 e t) as Het.
  assert (2 ^ (e + t + 2) = 2 ^ (e + 2) * 2 ^ t)%nat as Hn by (rewrite <- Nat.pow_add_r; f_equal; lia).
  assert ((fun i => comm_root e (chunk e i total)) <$> seq 0 (2 ^ t) = ref_nodes Sum256 leaves (e + 2) 0 (2 ^ t)) as ->.
  { unfold ref_nodes. apply list_fmap_ext. intros k i Hi%list_elem_of_lookup_2%elem_of_seq. cbn [plus]. unfold comm_root.
    pose proof (ref_chunk Sum256 leaves (e + 2) i (e + 2) 0) as Hc. rewrite Nat.sub_diag in Hc. cbn [Nat.pow] in Hc. rewrite Nat.mul_1_r, Nat.add_0_r in Hc.
    rewrite <- Hc; [|lia|lia|unfold leaves; rewrite nodes_of_length; nia]. f_equal. unfold leaves. rewrite nodes_of_slice by nia.
    set (a := take (127 * (i * 2 ^ e)) total). set (c := chunk e i total). set (r := drop (127 * 2 ^ e) (drop (127 * (i * 2 ^ e)) total)).
    assert (total = a ++ c ++ r) as Htot.
    { unfold a, c, r, chunk. replace (i * (127 * 2 ^ e))%nat with (127 * (i * 2 ^ e))%nat by lia. by rewrite take_drop, take_drop. }
    assert (length a = 127 * (i * 2 ^ e))%nat as Ha by (unfold a; rewrite length_take; nia).
    assert (length c = 127 * 2 ^ e)%nat as Hcl by (unfold c, chunk; rewrite length_take, length_drop; nia).
    rewrite Htot, (Pad_app (i * 2 ^ e)), (Pad_app (2 ^ e)) by done. rewrite drop_app_length' by (rewrite (Pad_length (i * 2 ^ e)) by done; nia).
    symmetry. apply nodes_of_app. rewrite (Pad_length (2 ^ e)) by done. lia. }
  rewrite ref_stack by (rewrite ?Nat.sub_diag; simpl; lia). unfold comm_root. fold leaves. f_equal. lia.
Qed.

(** What is relied on of the commitment libraries: the digest of a payload of at least 65
    bytes is the commitment of the least piece it fits, filled with zeros, and there is none of
    a shorter one; pieces of one size are joined as a tree, and the size of the result is in
    bytes, unless there are no pieces or they are more than the 64 GiB of a sector. *)
Context (e : nat).
Context (Digest : bytes -> option (bytes * Z)) (Unpadded : Z -> Z) (ZeroPieceCommitment : Z -> bytes) (PieceAggregateCommP : Z -> list bytes -> option (bytes * Z)).
Context (Unpadded_mul : forall q, 0 <= q -> Unpadded (128 * q) = 127 * q).
Context (Digest_spec : forall j x, (65 <= length x)%nat -> min_exp j (length x) -> Digest x = Some (comm_root j (x ++ replicate (127 * 2 ^ j - length x) x00), 128 * 2 ^ Z.of_nat j)).
Context (Digest_short : forall x, (length x < 65)%nat -> Digest x = None).
Context (Zero_spec : ZeroPieceCommitment (CommPBuf e) = comm_root e (replicate (127 * 2 ^ e) x00)).
Context (Aggregate_spec : forall t cs, (0 < t)%nat -> length cs = (2 ^ t)%nat -> PieceAggregateCommP RegisteredSealProof_StackedDrg64GiBV1 cs =
  if 2 ^ Z.of_nat t * commPBufPad e <=? 2 ^ 36 then Some (ref Sum256 cs t 0, 2 ^ Z.of_nat t * commPBufPad e) else None).
Context (Aggregate_nil : PieceAggregateCommP RegisteredSealProof_StackedDrg64GiBV1 [] = None).
Abbreviation B := (127 * 2 ^ e)%nat.

Lemma digest_chunk (x : bytes) : length x = B -> Digest x = Some (comm_root e x, commPBufPad e).
Proof using Digest_spec.
  clear Aggregate_nil Digest_short Aggregate_spec Zero_spec Unpadded_mul Pad_app Pad_length. intros Hx. pose proof (Nat.pow_nonzero 2 e ltac:(lia)).
  rewrite (Digest_spec e x); [|lia|]; [rewrite Hx, Nat.sub_diag; cbn [replicate]; by rewrite app_nil_r|]. split; [lia|]. destruct e as [|e']; [by left|right]. cbn [Nat.sub]. rewrite Nat.sub_0_r, Nat.pow_succ_r' in *. lia.
Qed.

Lemma mapM_id_Some {A} (l : list A) : mapM id (Some <$> l) = Some l.
Proof using. clear. apply mapM_Some. apply Forall2_fmap_l. apply Forall_Forall2_diag. by apply Forall_true. Qed.

(** How many buffers there are after filling up. *)
Definition least_pow (t n : nat) : Prop := (n <= 2 ^ t)%nat /\ (t = 0%nat \/ (2 ^ (t - 1) < n)%nat).

Lemma bits_Len_spec (t n : nat) : (0 < n)%nat -> Z.of_nat n < 2 ^ 62 -> least_pow t n -> bits_Len (Z.of_nat n - 1) = Z.of_nat t.
Proof using.
  clear. intros Hn Hb [Ht Hmin]. unfold bits_Len. rewrite u64_small by (unfold in_u64; lia). destruct Hmin as [->|Hmin].
  - cbn in Ht. assert (n = 1)%nat as -> by lia. done.
  - destruct (decide (t = 0)%nat) as [->|Ht0]; [cbn in *; lia|]. assert (2 ^ (t - 1) <> 0)%nat by (apply Nat.pow_nonzero; lia). rewrite (proj2 (Z.eqb_neq _ _)) by lia.
    rewrite (Z.log2_unique (Z.of_nat n - 1) (Z.of_nat (t - 1))); [lia|lia|]. rewrite <- Nat2Z.inj_succ. replace (S (t - 1)) with t by lia.
    replace (2 ^ Z.of_nat (t - 1)) with (Z.of_nat (2 ^ (t - 1))) by (by rewrite Nat2Z.inj_pow). replace (2 ^ Z.of_nat t) with (Z.of_nat (2 ^ t)) by (by rewrite Nat2Z.inj_pow). lia.
Qed.

Lemma filler_spec (t n : nat) : (0 < n)%nat -> Z.of_nat n < 2 ^ 61 -> least_pow t n -> i64 (shl1 (bits_Len (Z.of_nat n - 1)) - Z.of_nat n) = Z.of_nat (2 ^ t - n).
Proof using.
  clear. intros Hn Hb Hl. rewrite (bits_Len_spec t n) by (done || lia). unfold shl1. rewrite Z.shiftl_mul_pow2, Z.mul_1_l by lia. replace (2 ^ Z.of_nat t) with (Z.of_nat (2 ^ t)) by (by rewrite Nat2Z.inj_pow).
  assert (2 ^ t <= 2 * n)%nat as Hle. { destruct Hl as [_ [->|Hm]]; [cbn; lia|]. destruct t; [cbn; lia|]. rewrite Nat.pow_succ_r'. cbn [Nat.sub] in Hm. rewrite Nat.sub_0_r in Hm. lia. }
  destruct Hl as [Hl _]. rewrite !i64_small by (unfold in_i64, min_i64, max_i64; rewrite ?i64_small by (unfold in_i64, min_i64, max_i64; lia); lia). lia.
Qed.

(** The commitments of all buffers, filled up with zero pieces. *)
Lemma filled_leaves (n t : nat) (x : bytes) : length x = (n * B)%nat -> (n <= 2 ^ t)%nat ->
  ((fun i => Some (comm_root e (chunk e i x))) <$> seq 0 n) ++ replicate (2 ^ t - n) (Some (ZeroPieceCommitment (CommPBuf e)))
  = Some <$> ((fun i => comm_root e (chunk e i (x ++ replicate ((2 ^ t - n) * B) x00))) <$> seq 0 (2 ^ t)).
Proof using Zero_spec.
  clear Aggregate_nil Digest_short Aggregate_spec Digest_spec Unpadded_mul Pad_app Pad_length. intros Hx Hn. assert (seq 0 (2 ^ t) = seq 0 n ++ seq n (2 ^ t - n)) as -> by (pose proof (seq_app n (2 ^ t - n) 0) as Hs; cbn [plus] in Hs; rewrite <- Hs; f_equal; lia). rewrite !fmap_app. f_equal.
  - rewrite <- list_fmap_compose. apply list_fmap_ext. intros k i Hi%list_elem_of_lookup_2%elem_of_seq. unfold compose. rewrite chunk_app; [done|]. nia.
  - rewrite Zero_spec. apply list_eq_same_length with (n := (2 ^ t - n)%nat); [by rewrite !length_fmap, length_seq|by rewrite length_replicate|].
    intros i y z Hi Hy Hz. rewrite lookup_replicate_2 in Hy by done. injection Hy as <-. rewrite !list_lookup_fmap, lookup_seq_lt in Hz by done. injection Hz as <-. do 2 f_equal.
    unfold chunk. rewrite drop_app_ge by nia. rewrite drop_replicate, take_replicate. f_equal. rewrite Hx. nia.
Qed.

Lemma join_leaves_spec (rawLen : Z) (n t : nat) (x : bytes) : (0 < n)%nat -> Z.of_nat n < 2 ^ 61 -> least_pow t n -> length x = (n * B)%nat ->
  join_leaves e ZeroPieceCommitment PieceAggregateCommP rawLen ((fun i => Some (comm_root e (chunk e i x))) <$> seq 0 n)
  = if bool_decide (t = 0)%nat || (2 ^ Z.of_nat t * commPBufPad e <=? 2 ^ 36) then
      Some (mkDataCIDSize rawLen (if bool_decide (t = 0)%nat then commPBufPad e else u64 (2 ^ Z.of_nat t * commPBufPad e * commPBufPad e))
        (Some (comm_root (e + t) (x ++ replicate (127 * 2 ^ (e + t) - n * B) x00))))
    else None.
Proof.
  intros Hn Hb Hl Hx. unfold join_leaves. rewrite length_fmap, length_seq, (filler_spec t n) by done. rewrite Nat2Z.id. pose proof Hl as [Hle Hmin]. rewrite (filled_leaves n t x Hx Hle).
  replace ((2 ^ t - n) * B)%nat with (127 * 2 ^ (e + t) - n * B)%nat by (rewrite Nat.pow_add_r; nia). set (total := x ++ _).
  assert (length total = 127 * 2 ^ (e + t))%nat as Htot by (unfold total; rewrite length_app, length_replicate, Hx, Nat.pow_add_r; nia).
  pose proof (comm_root_join e t total Htot) as Hj. set (cs := (fun i => comm_root e (chunk e i total)) <$> seq 0 (2 ^ t)) in *.
  assert (length cs = 2 ^ t)%nat as Hlen by (unfold cs; by rewrite length_fmap, length_seq). case_bool_decide as Ht.
  - subst t. destruct cs as [|c [|? ?]]; cbn in Hlen; try lia. change (ref Sum256 [c] 0 0) with c in Hj. cbn [fmap list_fmap]. by rewrite Hj.
  - assert (1 < 2 ^ t)%nat. { destruct t; [done|]. rewrite Nat.pow_succ_r'. pose proof (Nat.pow_nonzero 2 t ltac:(lia)). lia. }
    assert (exists c1 c2 l, Some <$> cs = c1 :: c2 :: l) as (c1 & c2 & l & E) by (destruct cs as [|a [|b l]]; cbn in Hlen; try lia; by do 3 eexists). rewrite E, <- E, mapM_id_Some.
    rewrite (Aggregate_spec t cs) by (done || lia). cbn [orb]. destruct (_ <=? _); [by rewrite Hj|done].
Qed.

(** ** [Sum] *)

Lemma least_from_min (j n len : nat) : (0 < n)%nat -> ((n - 1) * B < len <= n * B)%nat -> (e <= j)%nat -> min_exp j len -> least_pow (j - e) n.
Proof using.
  clear. intros Hn Hlen Hj [Hle Hmin]. pose proof (Nat.pow_nonzero 2 e ltac:(lia)). assert (2 ^ j = 2 ^ (j - e) * 2 ^ e)%nat as Hp by (rewrite <- Nat.pow_add_r; f_equal; lia).
  split; [nia|]. destruct (decide (j = e)) as [->|Hne]; [left; lia|right]. destruct Hmin as [->|Hmin]; [lia|].
  assert (2 ^ (j - 1) = 2 ^ (j - e - 1) * 2 ^ e)%nat as Hp' by (rewrite <- Nat.pow_add_r; f_equal; lia). nia.
Qed.

Definition piece_size (j : nat) : Z := if bool_decide (j <= e)%nat then 128 * 2 ^ Z.of_nat j else u64 (128 * 2 ^ Z.of_nat j * commPBufPad e).

(** Up to one buffer nothing is aggregated; above, the piece must fit a sector of 64 GiB. *)
Definition fits (j : nat) : bool := bool_decide (j <= e)%nat || (128 * 2 ^ Z.of_nat j <=? 2 ^ 36).

(** What is promised for a stream [s] and the exponent [j] of the least piece it fits. *)
Definition stream_sum (j : nat) (s : bytes) : option DataCIDSize :=
  if bool_decide (s = []) then None
  else if bool_decide (length s < 65)%nat then Some (mkDataCIDSize (Z.of_nat (length s)) 0 None)
  else if fits j then Some (mkDataCIDSize (Z.of_nat (length s)) (piece_size j) (Some (comm_root j (s ++ replicate (127 * 2 ^ j - length s) x00))))
  else None.

(** The commitments of all buffers give that of the stream. *)
Lemma joined (j n : nat) (s : bytes) : (0 < n)%nat -> ((n - 1) * B < length s <= n * B)%nat -> Z.of_nat n < 2 ^ 61 -> (e <= j)%nat -> min_exp j (length s) ->
  join_leaves e ZeroPieceCommitment PieceAggregateCommP (Z.of_nat (length s)) ((fun i => Some (comm_root e (chunk e i (s ++ replicate (n * B - length s) x00)))) <$> seq 0 n)
  = if fits j then Some (mkDataCIDSize (Z.of_nat (length s)) (piece_size j) (Some (comm_root j (s ++ replicate (127 * 2 ^ j - length s) x00)))) else None.
Proof.
  intros Hn Hlen Hb Hj Hmin. pose proof (least_from_min j n (length s) Hn Hlen Hj Hmin) as Hl. set (x := s ++ _).
  assert (length x = n * B)%nat as Hx by (unfold x; rewrite length_app, length_replicate; lia). rewrite (join_leaves_spec _ n (j - e) x Hn Hb Hl Hx). replace (e + (j - e))%nat with j by lia.
  assert (bool_decide (j - e = 0)%nat || (2 ^ Z.of_nat (j - e) * commPBufPad e <=? 2 ^ 36) = fits j) as ->.
  { unfold fits, commPBufPad. f_equal; [apply bool_decide_ext; lia|]. f_equal.
    replace (2 ^ Z.of_nat j) with (2 ^ Z.of_nat (j - e) * 2 ^ Z.of_nat e) by (rewrite <- Z.pow_add_r by lia; f_equal; lia). lia. }
  destruct (fits j); [|done]. do 2 f_equal; [|f_equal; f_equal; unfold x; rewrite <- app_assoc, <- replicate_add; f_equal; f_equal].
  - unfold piece_size, commPBufPad. destruct (decide (j = e)) as [->|Hne].
    + rewrite !bool_decide_eq_true_2 by lia. done.
    + rewrite !bool_decide_eq_false_2 by lia. f_equal. replace (2 ^ Z.of_nat j) with (2 ^ Z.of_nat (j - e) * 2 ^ Z.of_nat e) by (rewrite <- Z.pow_add_r by lia; f_equal; lia). lia.
  - destruct Hl as [Hl _]. replace (2 ^ j)%nat with (2 ^ (j - e) * 2 ^ e)%nat by (rewrite <- Nat.pow_add_r; f_equal; lia). nia.
Qed.

Lemma done_leaves (cpus : nat) (writes : list bytes) (s : bytes) (w : DataCidWriter) : writer_ok e Digest cpus writes s w -> cw_runs w = [] ->
  mapM id (cw_leaves w) = Some ((fun i => Some (comm_root e (chunk e i s))) <$> seq 0 (length (cw_leaves w))).
Proof using Digest_spec.
  clear Aggregate_nil Digest_short Aggregate_spec Zero_spec Unpadded_mul Pad_app Pad_length. intros Hok Hr. pose proof (full_chunks e Digest s w cpus writes Hok) as Hfull. apply mapM_Some.
  apply Forall2_same_length_lookup_2; [by rewrite length_fmap, length_seq|]. intros i x y Hx Hy. pose proof (lookup_lt_Some _ _ _ Hx) as Hi.
  rewrite list_lookup_fmap, lookup_seq_lt in Hy by done. injection Hy as <-. pose proof (wk_leaves _ _ _ _ _ _ Hok i x Hx) as Hl. destruct x as [c|].
  - unfold leaf_ok in Hl. cbn [id plus]. rewrite Hl, digest_chunk; [done|]. unfold chunk. rewrite length_take, length_drop. nia.
  - destruct Hl as (k & r & Hk & _). by rewrite Hr in Hk.
Qed.

Lemma Sum_spec (cpus : nat) (writes : list bytes) (s : bytes) (w : DataCidWriter) (j : nat) : writer_ok e Digest cpus writes s w -> all_written w -> cw_runs w = [] ->
  (65 <= length s)%nat -> Z.of_nat (length s) < 2 ^ 60 -> min_exp j (length s) ->
  DataCid.Sum e Digest Unpadded ZeroPieceCommitment PieceAggregateCommP w
  = if fits j then Some (mkDataCIDSize (Z.of_nat (length s)) (piece_size j) (Some (comm_root j (s ++ replicate (127 * 2 ^ j - length s) x00)))) else None.
Proof.
  intros Hok [_ [Hf _]] Hr H65 Hb Hmin. pose proof (B_pos e) as HB. unfold DataCid.Sum. rewrite (done_leaves cpus writes s w Hok Hr).
  destruct Hok. rewrite Hf in wk_part0. destruct wk_part0 as [Hpos Hpart]. set (q := length (cw_leaves w)) in *. set (r := (length s - q * B)%nat) in *.
  assert (cw_len w mod CommPBuf e = Z.of_nat r) as Hmod. { rewrite wk_len0, CommPBuf_B, <- Nat2Z.inj_mod. f_equal. symmetry. apply (Nat.mod_unique _ _ q); lia. }
  rewrite Hmod, wk_len0. pose proof (Nat.pow_nonzero 2 e ltac:(lia)) as Hne.
  assert (forall i, (e <= i)%nat \/ (2 ^ S i <= 2 ^ e)%nat) as Hcmp by (intros i; destruct (decide (e <= i)%nat); [by left|right; apply Nat.pow_le_mono_r; lia]).
  destruct (decide (r = 0)%nat) as [Hr0|Hr0].
  - rewrite (proj2 (Z.eqb_eq _ _)) by lia. assert (0 < q)%nat by nia.
    rewrite <- (joined j q s); [|done|nia|nia| |done].
    + f_equal. replace (q * B - length s)%nat with 0%nat by lia. cbn [replicate]. by rewrite app_nil_r.
    + destruct (Hcmp j) as [|Hc]; [done|]. destruct Hmin as [Hm _]. rewrite Nat.pow_succ_r' in Hc. nia.
  - rewrite (proj2 (Z.eqb_neq _ _)) by lia. destruct (decide (q = 0)%nat) as [Hq|Hq].
    + rewrite bool_decide_eq_true_2 by (by rewrite Hq). rewrite Nat2Z.id, Hpart, Hq, Nat.mul_0_l, drop_0. rewrite (Digest_spec j s) by done. cbn [seq fmap list_fmap app].
      rewrite Unpadded_mul, CommPBuf_B by (apply Z.pow_nonneg; lia). replace (127 * 2 ^ Z.of_nat j) with (Z.of_nat (127 * 2 ^ j)) by (by rewrite Nat2Z.inj_mul, Nat2Z.inj_pow).
      destruct (Hcmp j) as [Hj|Hc].
      * assert (j = e) as ->. { apply (min_exp_unique _ _ (length s)); [done|]. split; [lia|]. destruct Hmin as [_ [->|Hm]]; [left; lia|right]. assert (2 ^ (e - 1) <= 2 ^ (j - 1))%nat by (apply Nat.pow_le_mono_r; lia). lia. }
        rewrite (proj2 (Z.ltb_ge _ _)) by lia. rewrite <- (joined e 1 s); [|lia|lia|lia|lia|done]. f_equal. cbn [seq fmap list_fmap]. do 3 f_equal. rewrite Nat.mul_1_l. unfold chunk.
        rewrite Nat.mul_0_l, drop_0, take_ge; [done|]. rewrite length_app, length_replicate. lia.
      * rewrite (proj2 (Z.ltb_lt _ _)) by (rewrite Nat.pow_succ_r' in Hc; pose proof (Nat.pow_nonzero 2 j); lia). assert (j <= e)%nat as Hje.
        { destruct (decide (j <= e)%nat); [done|]. rewrite Nat.pow_succ_r' in Hc. assert (2 ^ e <= 2 ^ j)%nat by (apply Nat.pow_le_mono_r; lia). lia. }
        unfold fits, piece_size. by rewrite !bool_decide_eq_true_2.
    + rewrite bool_decide_eq_false_2 by (intros E; apply (f_equal length) in E; rewrite length_fmap, length_seq in E; done).
      rewrite CommPBuf_B, !Nat2Z.id. replace (Z.to_nat (Z.of_nat B - Z.of_nat r)) with (B - r)%nat by lia. rewrite Hpart.
      set (last := drop (q * B) s ++ replicate (B - r) x00). assert (length last = B) as Hlast by (unfold last; rewrite length_app, length_drop, length_replicate; lia).
      rewrite take_ge by lia. rewrite digest_chunk by done. rewrite (proj2 (Z.ltb_ge _ _)) by (unfold commPBufPad; rewrite Unpadded_mul by (apply Z.pow_nonneg; lia); rewrite Nat2Z.inj_mul, Nat2Z.inj_pow; done).
      rewrite <- (joined j (S q) s); [|lia|nia|nia| |done].
      * f_equal. rewrite seq_S, fmap_app. cbn [plus fmap list_fmap]. set (x := s ++ _). f_equal.
        -- apply list_fmap_ext. intros k i Hi%list_elem_of_lookup_2%elem_of_seq. unfold x. rewrite chunk_app; [done|]. nia.
        -- do 3 f_equal. unfold last, x, chunk. rewrite drop_app_le by lia. rewrite take_ge; [f_equal; f_equal; lia|]. rewrite length_app, length_drop, length_replicate. lia.
      * destruct (Hcmp j) as [|Hc]; [done|]. destruct Hmin as [Hm _]. rewrite Nat.pow_succ_r' in Hc. nia.
Qed.

(** A payload the libraries do not take. *)
Lemma Sum_short (cpus : nat) (writes : list bytes) (s : bytes) (w : DataCidWriter) : writer_ok e Digest cpus writes s w -> all_written w -> cw_runs w = [] ->
  (length s < 65)%nat ->
  DataCid.Sum e Digest Unpadded ZeroPieceCommitment PieceAggregateCommP w
  = if bool_decide (s = []) then None else Some (mkDataCIDSize (Z.of_nat (length s)) 0 None).
Proof.
  intros Hok [_ [Hf _]] Hr H65. pose proof (Nat.pow_nonzero 2 e ltac:(lia)) as Hne. destruct Hok. rewrite Hf in wk_part0. destruct wk_part0 as [Hpos Hpart].
  assert (length (cw_leaves w) = 0)%nat as Hq by nia. apply length_zero_iff_nil in Hq. unfold DataCid.Sum. rewrite Hq in *. change (mapM id []) with (Some (A := list (option bytes)) []).
  cbn [length] in *. cbv beta iota.
  rewrite wk_len0, CommPBuf_B, Z.mod_small by lia. destruct (decide (s = [])) as [Hs|Hs].
  - rewrite (bool_decide_eq_true_2 (s = [])) by done. subst s. cbn [length Z.of_nat Z.eqb]. unfold join_leaves. cbn. by rewrite Aggregate_nil.
  - rewrite (proj2 (Z.eqb_neq _ _)) by (destruct s; [done|cbn [length]; lia]). rewrite bool_decide_eq_true_2 by done. rewrite bool_decide_eq_false_2 by done. rewrite Nat2Z.id.
    rewrite Nat.mul_0_l, Nat.sub_0_r, drop_0 in Hpart. rewrite Hpart, Digest_short by done.
    change 0 with (128 * 0) at 1. rewrite Unpadded_mul by lia. by rewrite (proj2 (Z.ltb_lt _ _)) by lia.
Qed.

(** C12: the commitment of a stream of less than 2^60 bytes does not depend on how it comes: for
    every way to cut it into slices, every number of processors and every interleaving of the
    goroutines, writing takes a bounded number of steps, and when no step is left [Sum] gives
    what [stream_sum] says: from 65 bytes on the number of bytes and the commitment of the least
    piece they fit, filled with zeros, or an error if this is more than one buffer and more than
    the 64 GiB of the proof type that is passed; for a payload of 1 to 64 bytes, which the
    commitment library refuses, no commitment and the size 0 without an error; an error for an
    empty one.  The size of the piece is right up to one buffer, and [8 << 20] times too large
    above ([piece_size]). *)
Theorem data_cid_equiv (cpus : nat) (writes : list bytes) (w : DataCidWriter) (j : nat) : (0 < cpus)%nat -> rtc (cid_step e Digest) (new_writer e cpus writes) w ->
  let s := concat writes in Z.of_nat (length s) < 2 ^ 60 -> min_exp j (length s) ->
  (forall n w', nsteps (cid_step e Digest) n w w' -> (n <= weight w)%nat)
  /\ ((forall w', ~ cid_step e Digest w w') -> DataCid.Sum e Digest Unpadded ZeroPieceCommitment PieceAggregateCommP w = stream_sum j s).
Proof.
  intros Hc Hr s Hb Hmin. assert (exists s', writer_ok e Digest cpus writes s' w) as [s' Hok].
  { apply (rtc_invariant (cid_step e Digest) (fun w => exists s', writer_ok e Digest cpus writes s' w)) with (new_writer e cpus writes); [apply cid_step_ok|done|]. exists []. apply new_writer_ok. }
  split.
  - intros n w' Hn. pose proof (steps_bounded e Digest cpus writes n s' w w' Hok Hn). lia.
  - intros Hst. destruct (stuck_done e Digest cpus writes s' w Hc Hok Hst) as [Ha Hruns]. pose proof Ha as (Hp & _ & Ht).
    assert (s' = s) as ->. { pose proof (wk_stream _ _ _ _ _ _ Hok) as Hs. rewrite Hp, Ht in Hs. cbn [concat app] in Hs. by rewrite app_nil_r in Hs. }
    unfold stream_sum. destruct (decide (length s < 65)%nat) as [Hlt|Hge].
    + rewrite (Sum_short cpus writes s w Hok Ha Hruns Hlt). by rewrite (bool_decide_eq_true_2 (length s < 65)%nat).
    + rewrite (Sum_spec cpus writes s w j) by (done || lia). rewrite !bool_decide_eq_false_2 by (lia || (intros ->; cbn in Hge; lia)). done.
Qed.
End Sum.

(** ** A concrete stream *)

(** The least piece, computed. *)
Definition exp_of (len : nat) : nat := Nat.log2_up ((len + 126) / 127).

Lemma exp_of_min (len : nat) : (0 < len)%nat -> min_exp (exp_of len) len.
Proof.
  intros Hl. unfold min_exp, exp_of. set (c := ((len + 126) / 127)%nat). pose proof (Nat.div_mod (len + 126) 127 ltac:(lia)) as Hd. fold c in Hd.
  pose proof (Nat.mod_upper_bound (len + 126) 127 ltac:(lia)). destruct (decide (c = 1)%nat) as [->|Hc]; [cbn; lia|].
  destruct (Nat.log2_up_spec c ltac:(lia)) as [H1 H2]. split; [lia|right]. rewrite Nat.sub_1_r. lia.
Qed.

Definition ds_digest (x : bytes) : option (bytes * Z) :=
  if (65 <=? length x)%nat then let j := exp_of (length x) in Some (comm_root ex_sum cp_pad j (x ++ replicate (127 * 2 ^ j - length x) x00), 128 * 2 ^ Z.of_nat j) else None.
Definition ds_zero (_ : Z) : bytes := comm_root ex_sum cp_pad 0 (replicate 127 x00).
Definition ds_aggregate (proof : Z) (cs : list bytes) : option (bytes * Z) :=
  let t := Nat.log2 (length cs) in
  if bool_decide (cs = []) then None
  else if 2 ^ Z.of_nat t * commPBufPad 0 <=? 2 ^ 36 then Some (ref ex_sum cs t 0, 2 ^ Z.of_nat t * commPBufPad 0) else None.

Definition ds_writes : list bytes := [replicate 100 x01; []; replicate 60 x02].

(** The first slice does not fill the buffer, the last one does, and one goroutine runs. *)
Definition ds_call (w : DataCidWriter) : DataCidWriter :=
  mkWriter (cw_len w) (cw_buf w) (cw_leaves w) (cw_tbufs w) (cw_throttle w) (cw_runs w) (hd [] (cw_todo w)) false (tl (cw_todo w)).
Definition ds_w4 : DataCidWriter := copy_round 0 (ds_call (ds_call (copy_round 0 (ds_call (new_writer 0 2 ds_writes))))).
Definition ds_final : DataCidWriter :=
  free_buf 0 (mkLeafRun 0 0 true) (send_leaf ds_digest 0 (mkLeafRun 0 0 false) (copy_round 0 (start_leaf 0 [1%nat] ds_w4))).

Lemma ds_run : rtc (cid_step 0 ds_digest) (new_writer 0 2 ds_writes) ds_final.
Proof.
  eapply rtc_l; [eapply cs_call; reflexivity|]. eapply rtc_l; [apply cs_copy; [discriminate|reflexivity]|]. eapply rtc_l; [eapply cs_call; reflexivity|]. eapply rtc_l; [eapply cs_call; reflexivity|].
  eapply rtc_l; [apply cs_copy; [discriminate|reflexivity]|]. eapply rtc_l; [apply (cs_start _ _ _ 0 [1%nat]); vm_compute; reflexivity|].
  eapply rtc_l; [apply cs_copy; [vm_compute; discriminate|reflexivity]|]. eapply rtc_l; [apply (cs_send _ _ _ 0 (mkLeafRun 0 0 false)); vm_compute; reflexivity|].
  apply rtc_once. apply (cs_free _ _ _ 0 (mkLeafRun 0 0 true)); vm_compute; reflexivity.
Qed.

Lemma ds_stuck (w' : DataCidWriter) : ~ cid_step 0 ds_digest ds_final w'.
Proof.
  assert (cw_p ds_final = [] /\ cw_full ds_final = false /\ cw_todo ds_final = [] /\ cw_runs ds_final = []) as (H1 & H2 & H3 & H4) by (vm_compute; repeat split; reflexivity).
  intros Hs. inversion Hs as [w Hp Hf|w idx free Hf|w p todo Hp Hf Ht|w i r Hi Hr|w i r Hi Hr]; subst; try congruence; by rewrite H4 in Hi.
Qed.

Lemma data_cid_equiv_witness :
  DataCid.Sum 0 ds_digest cp_unpadded ds_zero ds_aggregate ds_final
  = Some (mkDataCIDSize (Z.of_nat (length (concat ds_writes))) (piece_size 0 1) (Some (comm_root ex_sum cp_pad 1 (concat ds_writes ++ replicate (127 * 2 ^ 1 - length (concat ds_writes)) x00)))).
Proof.
  refine (proj2 (data_cid_equiv ex_sum cp_pad cp_pad_app cp_pad_length 0 ds_digest cp_unpadded ds_zero ds_aggregate _ _ _ _ _ _ 2 ds_writes ds_final 1 _ ds_run _ _) ds_stuck).
  - intros q Hq. unfold cp_unpadded. rewrite Z.mul_comm, Z.div_mul by lia. lia.
  - intros j x Hx Hj. unfold ds_digest. rewrite (proj2 (Nat.leb_le _ _)) by done. rewrite (min_exp_unique (exp_of (length x)) j (length x)); [done|apply exp_of_min; lia|done].
  - intros x Hx. unfold ds_digest. by rewrite (proj2 (Nat.leb_gt _ _)).
  - reflexivity.
  - intros t cs Ht Hl. unfold ds_aggregate. rewrite bool_decide_eq_false_2 by (intros ->; pose proof (Nat.pow_nonzero 2 t ltac:(lia)); cbn in Hl; lia). rewrite Hl, Nat.log2_pow2 by lia. done.
  - reflexivity.
  - lia.
  - vm_compute. reflexivity.
  - split; [vm_compute; lia|right; vm_compute; lia].
Defined.
