(* ===== verification/PostVProof.v ===== *)
(** * Vanilla proofs of window PoSt, and challenges of PoRep

    [lib/proof/post_vproof_types.go], [post_vproof_bin_decode.go],
    [post_vproof_verify.go] and [porep_vproof_challenges.go]: the proof that a sector
    is stored, its binary form and the check of it without a SNARK; and the nodes of a
    sector that a PoRep is challenged at.  Hashes are parameters. *)

From stdpp Require Import base gmap sets list strings.
From Stdlib Require Import ZArith Lia Strings.Byte.
From S2P Require Import Prelude Codec VanillaProof.

Local Open Scope go_scope.

(** ** The data *)

Record SectorProof := mkSectorProof { InclusionProofs : list MerkleProof; CommC : domain; CommRLast : domain }.
(** [VanillaProof] *)
Record PoStVanillaProof := mkPoStVanillaProof { Sectors : list SectorProof }.
Record FallbackPoStSectorProof := mkFallback { SectorID : Z; fb_CommR : domain; fb_VanillaProof : PoStVanillaProof }.

(** ** The decoder *)

Definition DecodeSectorProof : reader SectorProof :=
  read proofs := read_slice DecodeMerkleProof in
  read commC := DecodeHasherDomain in
  read commRLast := DecodeHasherDomain in
  ret (mkSectorProof proofs commC commRLast).

Definition DecodeVanillaProof : reader PoStVanillaProof :=
  read sectors := read_slice DecodeSectorProof in
  ret (mkPoStVanillaProof sectors).

Definition DecodeFallbackPoStSectorProof : reader FallbackPoStSectorProof :=
  read id := ReadLE 8 in
  read commR := DecodeHasherDomain in
  read proof := DecodeVanillaProof in
  ret (mkFallback id commR proof).

(** ** The configuration *)

Inductive PoStType := PoStTypeWindow | PoStTypeWinning.
Record PoStConfig := mkPoStConfig { pc_PoStType : PoStType; pc_SectorSize : Z; pc_SectorCount : Z; pc_ChallengeCount : Z; pc_Priority : bool }.

Definition windowPostSectorCount (size : Z) : Z :=
  if existsb (Z.eqb size) [Z.shiftl 2 10; Z.shiftl 4 10; Z.shiftl 16 10; Z.shiftl 32 10; Z.shiftl 8 20; Z.shiftl 16 20; Z.shiftl 512 20; Z.shiftl 1 30] then 2
  else if size =? Z.shiftl 32 30 then 2349
  else if size =? Z.shiftl 64 30 then 2300
  else 0.

Definition WindowPostChallengeCount : Z := 10.

Definition GetPoStConfig (sectorSize : Z) : PoStConfig := mkPoStConfig PoStTypeWindow sectorSize (windowPostSectorCount sectorSize) WindowPostChallengeCount true.

(** ** The check *)

Inductive post_error := RandomnessLength | BadReplicaCid | ProofCount | DecodeError | UnknownSize | WrongType | MissingReplica | CommRMismatch | CommRInvalid | NoVariant | RootWrong | CommRLastMismatch.

(** A result, an error, or a panic, which ends the process. *)
Inductive outcome (A : Type) := Value (a : A) | Failed (e : post_error) | Panics.
Arguments Value {A} a. Arguments Failed {A} e. Arguments Panics {A}.

Definition and_then {A B} (x : outcome A) (f : A -> outcome B) : outcome B :=
  match x with Value a => f a | Failed e => Failed e | Panics => Panics end.

Section Check.
(** Poseidon over the domain, by the number of inputs. *)
Context (poseidon : nat -> list domain -> domain).

Definition poseidonHashMulti (arity : nat) (vals : list domain) : outcome domain :=
  if (length vals =? arity)%nat then Value (poseidon arity vals) else Panics.

Definition checkCommR (commC commRLast claimed : domain) : bool := bool_decide (poseidon 2 [commC; commRLast] = claimed).

(** The loop over the positions of a node: the current hash goes to [idx], the siblings to
    the others; taking one that is not there panics. *)
Fixpoint combine (arity : nat) (x : Z) (idx : Z) (cur : domain) (hashes : list domain) : outcome (list domain) :=
  match arity with
  | O => Value []
  | S n =>
      if x =? idx then and_then (combine n (x + 1) idx cur hashes) (fun rest => Value (cur :: rest))
      else match hashes with
           | [] => Panics
           | h :: hs => and_then (combine n (x + 1) idx cur hs) (fun rest => Value (h :: rest))
           end
  end.

Fixpoint reconstructPath (leaf : domain) (path : list PathElement) : outcome domain :=
  match path with
  | [] => Value leaf
  | elem :: rest =>
      and_then (combine (length (Hashes elem) + 1) 0 (i64 (Index elem)) leaf (Hashes elem)) (fun combined =>
      and_then (poseidonHashMulti 8 combined) (fun cur => reconstructPath cur rest))
  end.

Definition root_is (root : domain) (x : outcome domain) : outcome domain :=
  and_then x (fun final => if bool_decide (final = root) then Value final else Failed RootWrong).

Definition doSingleProof (sp : SingleProof) : outcome domain := root_is (sg_Root sp) (reconstructPath (sg_Leaf sp) (Path (sg_Path sp))).

Definition doSubProof (sp : SubProof) : outcome domain :=
  root_is (sb_Root sp) (and_then (reconstructPath (sb_Leaf sp) (Path (sb_BaseProof sp))) (fun base => reconstructPath base (Path (sb_SubProof sp)))).

Definition doTopProof (tp : TopProof) : outcome domain :=
  root_is (tp_Root tp) (and_then (reconstructPath (tp_Leaf tp) (Path (tp_BaseProof tp))) (fun base =>
    and_then (reconstructPath base (Path (tp_SubProof tp))) (fun sub => reconstructPath sub (Path (tp_TopProof tp))))).

Definition checkMerkleProof (mp : MerkleProof) : outcome domain :=
  match Single (Data mp), Sub (Data mp), Top (Data mp) with
  | Some s, _, _ => doSingleProof s
  | None, Some s, _ => doSubProof s
  | None, None, Some t => doTopProof t
  | None, None, None => Failed NoVariant
  end.

(** The two loops of a goroutine. *)
Fixpoint check_inclusion (commRLast : domain) (mps : list MerkleProof) : outcome () :=
  match mps with
  | [] => Value ()
  | mp :: rest => and_then (checkMerkleProof mp) (fun root => if bool_decide (root = commRLast) then check_inclusion commRLast rest else Failed CommRLastMismatch)
  end.

Fixpoint check_sectors (commR : domain) (sps : list SectorProof) : outcome () :=
  match sps with
  | [] => Value ()
  | sp :: rest =>
      if negb (checkCommR (CommC sp) (CommRLast sp) commR) then Failed CommRInvalid
      else and_then (check_inclusion (CommRLast sp) (InclusionProofs sp)) (fun _ => check_sectors commR rest)
  end.

Definition check_sector (replicas : gmap Z domain) (sec : FallbackPoStSectorProof) : outcome () :=
  match replicas !! SectorID sec with
  | None => Failed MissingReplica
  | Some commR => if negb (bool_decide (commR = fb_CommR sec)) then Failed CommRMismatch else check_sectors (fb_CommR sec) (Sectors (fb_VanillaProof sec))
  end.

(** The randomness is not used. *)
Definition verifyWindowPoStVanilla (cfg : PoStConfig) (rand : domain) (replicas : gmap Z domain) (sectorProofs : list FallbackPoStSectorProof) : outcome bool :=
  match pc_PoStType cfg with
  | PoStTypeWinning => Failed WrongType
  | PoStTypeWindow =>
      match sectorProofs with
      | [sec] => and_then (check_sector replicas sec) (fun _ => Value true)
      | _ => Failed ProofCount
      end
  end.

(** [CIDToReplicaCommitmentV1] and the sector size of a kind of proof. *)
Context (CIDToReplicaCommitmentV1 : string -> option domain) (SectorSize : Z -> option Z).

Fixpoint replica_map (infos : list (Z * string)) (replicas : gmap Z domain) : option (gmap Z domain) :=
  match infos with
  | [] => Some replicas
  | (n, c) :: rest => match CIDToReplicaCommitmentV1 c with None => None | Some commR => replica_map rest (<[n := commR]> replicas) end
  end.

(** [ChallengedSectors] with number and sealed CID, proofs with kind and bytes. *)
Definition VerifyWindowPoStVanilla (randomness : bytes) (challenged : list (Z * string)) (proofs : list (Z * bytes)) : outcome bool :=
  if (length randomness <? 32)%nat then Failed RandomnessLength
  else
    match replica_map challenged ∅ with
    | None => Failed BadReplicaCid
    | Some replicas =>
        match proofs with
        | [(kind, pb)] =>
            match DecodeFallbackPoStSectorProof pb with
            | None => Failed DecodeError
            | Some (vp, _) => match SectorSize kind with None => Failed UnknownSize | Some ssize => verifyWindowPoStVanilla (GetPoStConfig ssize) (take 32 randomness) replicas [vp] end
            end
        | _ => Failed ProofCount
        end
    end.
End Check.

(** ** The challenges of a PoRep *)

(** [None] is the division by zero for a sector of one node. *)
Definition bigintToChallenge (bigint sectorNodes : Z) : option Z :=
  let m := i64 (u64 (sectorNodes - 1)) in
  if m =? 0 then None else Some (u64 (bigint mod Z.abs m + 1)).

Section Challenges.
Context (Sum256 : bytes -> bytes).

Definition DeriveInteractiveChallenges (challengesPerPartition sectorNodes : Z) (ReplicaID Seed : bytes) (k : Z) : option (list Z) :=
  mapM (fun i : nat =>
      let j := u64 (u64 (challengesPerPartition * k) + Z.of_nat i) mod 2 ^ 32 in
      bigintToChallenge (le_dec (rev (Sum256 (ReplicaID ++ Seed ++ le_enc 4 j)))) sectorNodes)
    (seq 0 (Z.to_nat challengesPerPartition)).
End Challenges.
