(* ===== verification/PostVProofFacts.v ===== *)
(** * What the check of a vanilla proof shows

    An accepted proof opens the committed tree of the sector, at the positions it names; an
    honest proof is accepted, as long as every node of the tree has eight children; and
    the binary form has one decoding. *)

From stdpp Require Import base gmap sets list strings.
From Stdlib Require Import ZArith Lia Strings.Byte.
From S2P Require Import Prelude Codec VanillaProof PostVProof.

Local Open Scope go_scope.

(** ** Nodes *)

Lemma combine_inv (m : nat) (x idx : Z) (cur : domain) (hs l : list domain) : combine m x idx cur hs = Value l ->
  length l = m /\ (x <= idx < x + Z.of_nat m -> l !! Z.to_nat (idx - x) = Some cur) /\ ((length hs < m)%nat -> x <= idx < x + Z.of_nat m).
Proof.
  revert x hs l. induction m as [|m IH]; intros x hs l; cbn [combine]; [intros [= <-]; split; [done|]; split; lia|].
  destruct (x =? idx) eqn:E; [apply Z.eqb_eq in E; subst x|apply Z.eqb_neq in E].
  - destruct (combine m (idx + 1) idx cur hs) as [rest| |] eqn:Er; [|done|done]. cbn. intros [= <-]. destruct (IH _ _ _ Er) as (Hl & _ & _).
    split; [cbn; lia|]. split; [|lia]. intros _. by rewrite Z.sub_diag.
  - destruct hs as [|h hs]; [done|]. destruct (combine m (x + 1) idx cur hs) as [rest| |] eqn:Er; [|done|done]. cbn. intros [= <-].
    destruct (IH _ _ _ Er) as (Hl & Hc & Hr). split; [cbn; lia|]. split; [|cbn [length]; intros; specialize (Hr ltac:(lia)); lia]. intros Hx.
    replace (Z.to_nat (idx - x)) with (S (Z.to_nat (idx - (x + 1)))) by lia. apply Hc. lia.
Qed.

Lemma combine_app (a b : list domain) (cur : domain) (x : Z) : combine (length a + S (length b)) x (x + Z.of_nat (length a)) cur (a ++ b) = Value (a ++ cur :: b).
Proof.
  revert x. induction a as [|h a IH]; intros x.
  - cbn [length app plus combine]. rewrite Z.add_0_r, Z.eqb_refl.
    assert (forall (b : list domain) (y : Z), x < y -> combine (length b) y x cur b = Value b) as H; [|by rewrite H by lia].
    clear. induction b as [|h b IH]; intros y Hy; [done|]. cbn [length combine]. rewrite (proj2 (Z.eqb_neq _ _)) by lia. by rewrite IH by lia.
  - cbn [length app plus combine]. rewrite (proj2 (Z.eqb_neq _ _)) by lia. replace (x + Z.of_nat (S (length a))) with ((x + 1) + Z.of_nat (length a)) by lia. by rewrite IH.
Qed.

Section Tree.
Context (poseidon : nat -> list domain -> domain).

(** The tree of a sector: every node hashes eight children. *)
Fixpoint oct (leaves : list domain) (l j : nat) : domain :=
  match l with
  | O => leaves !!! j
  | S l => poseidon 8 ((fun i => oct leaves l (8 * j + i)) <$> seq 0 8)
  end.

Definition children (leaves : list domain) (l j : nat) : list domain := (fun i => oct leaves l (8 * j + i)) <$> seq 0 8.

(** The position a path names, and the form of its elements. *)
Fixpoint position (path : list PathElement) : nat := match path with [] => 0%nat | el :: rest => (Z.to_nat (Index el) + 8 * position rest)%nat end.
Definition element_ok (el : PathElement) : Prop := length (Hashes el) = 7%nat /\ 0 <= i64 (Index el) < 8.

(** The nodes that are hashed along a path; and that the proof itself holds two lists of
    eight nodes with the same hash: one of them, and the children at its place in the tree. *)
Fixpoint trace (leaf : domain) (path : list PathElement) : list (list domain) :=
  match path with
  | [] => []
  | el :: rest => match combine (length (Hashes el) + 1) 0 (i64 (Index el)) leaf (Hashes el) with Value c => c :: trace (poseidon 8 c) rest | _ => [] end
  end.

Definition place (path : list PathElement) (i J : nat) : nat := (position (drop (S i) path) + 8 ^ (length path - S i) * J)%nat.
Definition collides (leaves : list domain) (l J : nat) (leaf : domain) (path : list PathElement) : Prop :=
  exists i c, trace leaf path !! i = Some c /\ c <> children leaves (l + i) (place path i J) /\ poseidon 8 c = poseidon 8 (children leaves (l + i) (place path i J)).

Lemma reconstruct_ok (path : list PathElement) (leaf root : domain) : reconstructPath poseidon leaf path = Value root -> Forall element_ok path.
Proof.
  revert leaf. induction path as [|el path IH]; intros leaf; cbn [reconstructPath]; [constructor|].
  destruct (combine _ 0 (i64 (Index el)) leaf (Hashes el)) as [l| |] eqn:Ec; [|done|done]. cbn [and_then]. unfold poseidonHashMulti. destruct (length l =? 8)%nat eqn:El; [|done]. cbn [and_then].
  intros H. constructor; [|by eapply IH]. apply Nat.eqb_eq in El. destruct (combine_inv _ _ _ _ _ _ Ec) as (Hl & _ & Hr). split; [lia|]. specialize (Hr ltac:(lia)). lia.
Qed.

Lemma i64_index (x : Z) : u64_ok x -> 0 <= i64 x < 8 -> i64 x = x.
Proof using.
  clear. unfold u64_ok. intros Hx Hi. destruct (Z_lt_le_dec x (2 ^ 63)) as [Hlt|Hge]; [apply i64_small; unfold in_i64, min_i64, max_i64; lia|].
  exfalso. change (256 ^ Z.of_nat 8) with (2 ^ 64) in Hx. unfold i64, wrap_s in Hi. revert Hi. change (64 - 1) with 63.
  replace ((x + 2 ^ 63) mod 2 ^ 64) with (x + 2 ^ 63 - 2 ^ 64) by (apply (Z.mod_unique _ _ 1); lia). lia.
Qed.

(** A path that ends in the root starts at the leaf of the tree, or shows a collision. *)
Lemma reconstruct_sound (leaves : list domain) (path : list PathElement) (leaf : domain) (l J : nat) : Forall (fun el => u64_ok (Index el)) path ->
  reconstructPath poseidon leaf path = Value (oct leaves (l + length path) J) ->
  leaf = oct leaves l (position path + 8 ^ length path * J) \/ collides leaves l J leaf path.
Proof.
  intros Hu. revert leaf l. induction Hu as [|el path Hel Hu IH]; intros leaf l; cbn [reconstructPath length position].
  - rewrite Nat.add_0_r. intros [= ->]. left. cbn [Nat.pow]. f_equal. lia.
  - destruct (combine _ 0 (i64 (Index el)) leaf (Hashes el)) as [c| |] eqn:Ec; [|done|done]. cbn [and_then]. unfold poseidonHashMulti. destruct (length c =? 8)%nat eqn:El; [|done]. cbn [and_then].
    apply Nat.eqb_eq in El. replace (l + S (length path))%nat with (S l + length path)%nat by lia. intros H.
    destruct (combine_inv _ _ _ _ _ _ Ec) as (Hl & Hc & Hr). specialize (Hr ltac:(lia)). specialize (Hc Hr). rewrite Z.sub_0_r in Hc.
    rewrite i64_index in Hc, Hr by (done || lia). destruct (IH _ _ H) as [Heq|(i & d & Ht & Hd & Hp)].
    2:{ right. exists (S i), d. cbn [trace]. rewrite Ec. unfold place in *. cbn [lookup list_lookup drop length Nat.sub]. by rewrite <- plus_n_Sm. }
    cbn [oct] in Heq. destruct (decide (c = children leaves l (position path + 8 ^ length path * J))) as [->|Hne].
    + left. unfold children in Hc. rewrite list_lookup_fmap, lookup_seq_lt in Hc by lia. injection Hc as <-. f_equal. rewrite Nat.pow_succ_r'. lia.
    + right. exists 0%nat, c. cbn [trace]. rewrite Ec. unfold place. cbn [drop length Nat.sub]. rewrite !Nat.sub_0_r, Nat.add_0_r. by split_and!.
Qed.

(** The siblings of an honest prover. *)
Definition honest_element (leaves : list domain) (l j : nat) : PathElement :=
  let c := children leaves l (j / 8) in mkPathElement (take (j mod 8) c ++ drop (S (j mod 8)) c) (Z.of_nat (j mod 8)).

Fixpoint honest_path (leaves : list domain) (l j k : nat) : list PathElement :=
  match k with O => [] | S k => honest_element leaves l j :: honest_path leaves (S l) (j / 8) k end.

Lemma honest_reconstruct (leaves : list domain) (l j k : nat) : reconstructPath poseidon (oct leaves l j) (honest_path leaves l j k) = Value (oct leaves (l + k) (j / 8 ^ k)).
Proof.
  revert l j. induction k as [|k IH]; intros l j; cbn [honest_path reconstructPath].
  - rewrite Nat.add_0_r. cbn [Nat.pow]. by rewrite Nat.div_1_r.
  - cbn [honest_element Hashes Index]. set (c := children leaves l (j / 8)). pose proof (Nat.mod_upper_bound j 8 ltac:(lia)) as Hm. pose proof (Nat.div_mod j 8 ltac:(lia)) as Hd.
    assert (c !! (j mod 8)%nat = Some (oct leaves l j)) as Hc by (unfold c, children; rewrite list_lookup_fmap, lookup_seq_lt by done; cbn [fmap option_fmap option_map plus]; by rewrite <- Hd).
    pose proof (take_drop_middle c _ _ Hc) as Hsplit. set (a := take (j mod 8) c) in *. set (b := drop (S (j mod 8)) c) in *.
    assert (length a = j mod 8)%nat as Ha by (unfold a; rewrite length_take; unfold c, children; rewrite length_fmap, length_seq; lia).
    rewrite i64_small by (unfold in_i64, min_i64, max_i64; lia). rewrite length_app, Nat.add_1_r, <- Nat.add_succ_r, <- Ha.
    pose proof (combine_app a b (oct leaves l j) 0) as Hco. rewrite Z.add_0_l in Hco. rewrite Hco. cbn [and_then]. rewrite Hsplit. unfold poseidonHashMulti. unfold c at 1, children at 1.
    rewrite length_fmap, length_seq. cbn [Nat.eqb and_then]. change (poseidon 8 c) with (oct leaves (S l) (j / 8)). rewrite IH. rewrite Nat.Div0.div_div, <- Nat.pow_succ_r'. f_equal. f_equal. lia.
Qed.
End Tree.

(** * Accepted vanilla proofs of window PoSt

    The laws of the binary form of these proofs (against an encoder that the repository
    does not have), what an accepted proof says of the sector, that honest proofs are
    accepted, and where the check goes wrong. *)

(** ** The binary form *)

Definition EncodeSectorProof (sp : SectorProof) : option bytes :=
  write_slice EncodeMerkleProof (InclusionProofs sp) +++ EncodeHasherDomain (CommC sp) +++ EncodeHasherDomain (CommRLast sp).
Definition EncodePoStVanillaProof (vp : PoStVanillaProof) : option bytes := write_slice EncodeSectorProof (Sectors vp).
Definition EncodeFallback (fp : FallbackPoStSectorProof) : option bytes :=
  WriteLE 8 (SectorID fp) +++ EncodeHasherDomain (fb_CommR fp) +++ EncodePoStVanillaProof (fb_VanillaProof fp).

Definition SectorProof_ok (sp : SectorProof) : Prop := slice_ok MerkleProof_ok (InclusionProofs sp) /\ domain_ok (CommC sp) /\ domain_ok (CommRLast sp).
Definition PoStVanillaProof_ok (vp : PoStVanillaProof) : Prop := slice_ok SectorProof_ok (Sectors vp).
Definition Fallback_ok (fp : FallbackPoStSectorProof) : Prop := u64_ok (SectorID fp) /\ domain_ok (fb_CommR fp) /\ PoStVanillaProof_ok (fb_VanillaProof fp).

#[export] Instance SectorProof_codec : Codec SectorProof_ok EncodeSectorProof DecodeSectorProof.
Proof.
  apply (codec_record (fun p => (InclusionProofs p, (CommC p, CommRLast p))) (fun q => mkSectorProof q.1 q.2.1 q.2.2) _ _ _ _ _ _
    (codec_pair _ _ _ _ _ _ (slice_codec MerkleProof_ok _ _) (codec_pair _ _ _ _ _ _ domain_codec domain_codec))); try done.
  - by intros [].
  - by intros [? []].
  - unfold DecodeSectorProof. read_fields.
Qed.

#[export] Instance PoStVanillaProof_codec : Codec PoStVanillaProof_ok EncodePoStVanillaProof DecodeVanillaProof.
Proof. apply (codec_record Sectors mkPoStVanillaProof _ _ _ _ _ _ (slice_codec SectorProof_ok _ _)); try done. by intros []. Qed.

#[export] Instance Fallback_codec : Codec Fallback_ok EncodeFallback DecodeFallbackPoStSectorProof.
Proof.
  apply (codec_record (fun p => (SectorID p, (fb_CommR p, fb_VanillaProof p))) (fun q => mkFallback q.1 q.2.1 q.2.2) _ _ _ _ _ _
    (codec_pair _ _ _ _ _ _ u64_codec (codec_pair _ _ _ _ _ _ domain_codec PoStVanillaProof_codec))); try done.
  - by intros [].
  - by intros [? []].
  - unfold DecodeFallbackPoStSectorProof. read_fields.
Qed.

(** ** The leaf and the whole path of an inclusion proof *)

Definition opens (mp : MerkleProof) : option (domain * list PathElement) :=
  match Single (Data mp), Sub (Data mp), Top (Data mp) with
  | Some s, _, _ => Some (sg_Leaf s, Path (sg_Path s))
  | None, Some s, _ => Some (sb_Leaf s, Path (sb_BaseProof s) ++ Path (sb_SubProof s))
  | None, None, Some t => Some (tp_Leaf t, Path (tp_BaseProof t) ++ Path (tp_SubProof t) ++ Path (tp_TopProof t))
  | None, None, None => None
  end.
Definition claimed_root (mp : MerkleProof) : option domain :=
  match Single (Data mp), Sub (Data mp), Top (Data mp) with
  | Some s, _, _ => Some (sg_Root s)
  | None, Some s, _ => Some (sb_Root s)
  | None, None, Some t => Some (tp_Root t)
  | None, None, None => None
  end.

Lemma and_then_value {A B} (x : outcome A) (f : A -> outcome B) (b : B) : and_then x f = Value b <-> exists a, x = Value a /\ f a = Value b.
Proof. destruct x as [a| |]; cbn; split; [by exists a|by intros (? & [= <-] & ?)|done|by intros (? & ? & _)|done|by intros (? & ? & _)]. Qed.

Lemma and_then_assoc {A B C} (x : outcome A) (f : A -> outcome B) (g : B -> outcome C) : and_then (and_then x f) g = and_then x (fun a => and_then (f a) g).
Proof. by destruct x. Qed.

Section Sound.
Context (poseidon : nat -> list domain -> domain).

Lemma reconstruct_app (p q : list PathElement) (leaf : domain) : reconstructPath poseidon leaf (p ++ q) = and_then (reconstructPath poseidon leaf p) (fun r => reconstructPath poseidon r q).
Proof.
  revert leaf. induction p as [|el p IH]; intros leaf; [done|]. cbn [app reconstructPath]. rewrite and_then_assoc. destruct (combine _ _ _ _ _) as [c| |]; [|done|done].
  cbn [and_then]. rewrite and_then_assoc. destruct (poseidonHashMulti poseidon 8 c); [|done|done]. cbn [and_then]. apply IH.
Qed.

(** The dispatch, in one equation. *)
Lemma checkMerkleProof_spec (mp : MerkleProof) (root : domain) : checkMerkleProof poseidon mp = Value root <->
  exists leaf path, opens mp = Some (leaf, path) /\ claimed_root mp = Some root /\ reconstructPath poseidon leaf path = Value root.
Proof.
  assert (forall (x : outcome domain) (c : domain), root_is c x = Value root <-> c = root /\ x = Value root) as Hroot.
  { intros x c. unfold root_is. rewrite and_then_value. split; [intros (a & -> & H)|intros [-> ->]; exists root; by rewrite bool_decide_true].
    destruct (bool_decide (a = c)) eqn:E; [|done]. apply bool_decide_eq_true in E. injection H as <-. by subst. }
  unfold checkMerkleProof, opens, claimed_root. destruct (Single (Data mp)) as [s|]; [|destruct (Sub (Data mp)) as [s|]; [|destruct (Top (Data mp)) as [s|]]].
  - unfold doSingleProof. rewrite Hroot. split; [intros [-> H]; by eexists _, _|intros (? & ? & [= <- <-] & [= ->] & H); done].
  - unfold doSubProof. rewrite Hroot, <- reconstruct_app. split; [intros [-> H]; by eexists _, _|intros (? & ? & [= <- <-] & [= ->] & H); done].
  - unfold doTopProof. rewrite Hroot.
    split; [intros [-> H]; eexists _, _; split; [done|]; split; [done|]|intros (? & ? & [= <- <-] & [= ->] & H); split; [done|]];
      rewrite reconstruct_app in *; destruct (reconstructPath poseidon (tp_Leaf s) _) as [b| |]; cbn [and_then] in *; (done || by rewrite reconstruct_app in *).
  - split; [done|intros (? & ? & ? & _); done].
Qed.

(** ** What is checked of a sector *)

Definition proof_valid (commRLast : domain) (mp : MerkleProof) : Prop :=
  claimed_root mp = Some commRLast /\ exists leaf path, opens mp = Some (leaf, path) /\ reconstructPath poseidon leaf path = Value commRLast.
Definition sector_valid (commR : domain) (sp : SectorProof) : Prop :=
  poseidon 2 [CommC sp; CommRLast sp] = commR /\ Forall (proof_valid (CommRLast sp)) (InclusionProofs sp).

Lemma check_inclusion_spec (last : domain) (mps : list MerkleProof) : check_inclusion poseidon last mps = Value () <-> Forall (proof_valid last) mps.
Proof.
  induction mps as [|mp mps IH]; cbn [check_inclusion]; [split; [constructor|done]|]. rewrite and_then_value, Forall_cons. split.
  - intros (root & Hc & H). destruct (bool_decide (root = last)) eqn:E; [|done]. apply bool_decide_eq_true in E. subst root. split; [|by apply IH].
    apply checkMerkleProof_spec in Hc as (leaf & path & Ho & Hr & H'). split; [done|]. by exists leaf, path.
  - intros [[Hr (leaf & path & Ho & H)] Hm]. exists last. rewrite bool_decide_true by done. split; [|by apply IH]. apply checkMerkleProof_spec. by exists leaf, path.
Qed.

Lemma check_sectors_spec (commR : domain) (sps : list SectorProof) : check_sectors poseidon commR sps = Value () <-> Forall (sector_valid commR) sps.
Proof.
  induction sps as [|sp sps IH]; cbn [check_sectors]; [split; [constructor|done]|]. rewrite Forall_cons. unfold sector_valid at 1, checkCommR. rewrite <- check_inclusion_spec.
  destruct (bool_decide (poseidon 2 [CommC sp; CommRLast sp] = commR)) eqn:E; cbn [negb].
  - apply bool_decide_eq_true in E. rewrite and_then_value. split; [intros ([] & H1 & H2)|intros [[_ H1] H2]; exists (); split; [done|by apply IH]]. split; [by split|by apply IH].
  - apply bool_decide_eq_false in E. split; [done|by intros [[? _] _]].
Qed.

Context (CIDToReplicaCommitmentV1 : string -> option domain) (SectorSize : Z -> option Z).

(** The last of the challenged sectors with a number counts. *)
Lemma replica_map_spec (infos : list (Z * string)) (acc replicas : gmap Z domain) (n : Z) (commR : domain) : replica_map CIDToReplicaCommitmentV1 infos acc = Some replicas ->
  replicas !! n = Some commR -> acc !! n = Some commR \/ exists c, (n, c) ∈ infos /\ CIDToReplicaCommitmentV1 c = Some commR.
Proof.
  revert acc. induction infos as [|[k c] infos IH]; intros acc; cbn [replica_map]; [intros [= ->]; by left|].
  destruct (CIDToReplicaCommitmentV1 c) as [d|] eqn:Ed; [|done]. intros H Hn. destruct (IH _ H Hn) as [Hl|(c' & Hc & He)]; [|right; exists c'; split; [by apply list_elem_of_further|done]].
  apply lookup_insert_Some in Hl as [[-> ->]|[_ Hl]]; [|by left]. right. exists c. split; [apply list_elem_of_here|done].
Qed.

(** A branch that does not accept. *)
Ltac refused := split; [done|intros Hno; repeat match goal with H : _ /\ _ |- _ => destruct H | H : exists _, _ |- _ => destruct H end; congruence].

(** What acceptance amounts to. *)
Lemma accepted_iff (randomness : bytes) (challenged : list (Z * string)) (proofs : list (Z * bytes)) (b : bool) :
  VerifyWindowPoStVanilla poseidon CIDToReplicaCommitmentV1 SectorSize randomness challenged proofs = Value b <->
  b = true /\ (32 <= length randomness)%nat /\ exists kind pb vp rest replicas ssize, proofs = [(kind, pb)] /\ DecodeFallbackPoStSectorProof pb = Some (vp, rest) /\ SectorSize kind = Some ssize /\
    replica_map CIDToReplicaCommitmentV1 challenged ∅ = Some replicas /\ replicas !! SectorID vp = Some (fb_CommR vp) /\ Forall (sector_valid (fb_CommR vp)) (Sectors (fb_VanillaProof vp)).
Proof.
  unfold VerifyWindowPoStVanilla. destruct (length randomness <? 32)%nat eqn:El; [apply Nat.ltb_lt in El; split; [done|lia]|apply Nat.ltb_ge in El].
  destruct (replica_map _ _ _) as [replicas|] eqn:Er; [|refused].
  destruct proofs as [|[kind pb] [|]]; [refused| |refused].
  destruct (DecodeFallbackPoStSectorProof pb) as [[vp rest]|] eqn:Ed; [|refused]. destruct (SectorSize kind) as [ssize|] eqn:Es; [|refused].
  unfold verifyWindowPoStVanilla. cbn [pc_PoStType GetPoStConfig]. rewrite and_then_value. unfold check_sector. split.
  - intros ([] & H & [= <-]). destruct (replicas !! SectorID vp) as [commR|] eqn:Ec; [|done]. destruct (bool_decide (commR = fb_CommR vp)) eqn:E; cbn [negb] in H; [|done].
    apply bool_decide_eq_true in E. subst commR. apply check_sectors_spec in H. split; [done|]. split; [done|]. eexists _, _, _, _, _, _. done.
  - intros (-> & _ & kind' & pb' & vp' & rest' & rep' & ss' & [= <- <-] & Ed' & _ & [= <-] & Hl & Hv). rewrite Ed in Ed'. injection Ed' as <- <-. exists (). split; [|done].
    rewrite Hl, bool_decide_true by done. cbn [negb]. by apply check_sectors_spec.
Qed.

(** ** Soundness *)

Lemma valid_indices (mp : MerkleProof) (leaf : domain) (path : list PathElement) : MerkleProof_ok mp -> opens mp = Some (leaf, path) -> Forall (fun el => u64_ok (Index el)) path.
Proof.
  assert (forall ip, InclusionPath_ok ip -> Forall (fun el => u64_ok (Index el)) (Path ip)) as Hip.
  { intros ip [H _]. eapply Forall_impl; [exact H|]. by intros el [_ ?]. }
  unfold MerkleProof_ok, ProofData_ok, opens. destruct (Single (Data mp)) as [s|], (Sub (Data mp)) as [b|], (Top (Data mp)) as [t|]; intros Hok; intros [= <- <-]; cbn in Hok;
    unfold SingleProof_ok, SubProof_ok, TopProof_ok in Hok; rewrite ?Forall_app; first [done|destruct_and?; split_and?; by apply Hip].
Qed.

(** What a sector whose proof is accepted shows of the tree under its commitment. *)
Definition opens_tree (commRLast : domain) (mp : MerkleProof) : Prop :=
  exists leaf path, opens mp = Some (leaf, path) /\ Forall element_ok path /\
    forall leaves, oct poseidon leaves (length path) 0 = commRLast -> leaf = leaves !!! position path \/ collides poseidon leaves 0 0 leaf path.

Lemma valid_opens_tree (last : domain) (mp : MerkleProof) : MerkleProof_ok mp -> proof_valid last mp -> opens_tree last mp.
Proof.
  intros Hok (_ & leaf & path & Ho & Hr). exists leaf, path. split; [done|]. split; [by eapply reconstruct_ok|]. intros leaves <-.
  destruct (reconstruct_sound poseidon leaves path leaf 0 0 (valid_indices _ _ _ Hok Ho) Hr) as [H|]; [left|by right].
  by rewrite Nat.mul_0_r, Nat.add_0_r in H.
Qed.

(** C13: an accepted proof is true of the sector: its number and commitment are those of a
    challenged sector, CommR is the hash of CommC and CommRLast, and every inclusion
    proof, made of steps with seven siblings and an index below eight, opens whatever
    tree of leaves CommRLast commits to at the position that its indices name, unless
    the proof itself shows two lists of nodes with one hash; nothing but [true] is
    returned without an error. *)
Theorem post_vanilla_sound (randomness : bytes) (challenged : list (Z * string)) (proofs : list (Z * bytes)) (b : bool) :
  VerifyWindowPoStVanilla poseidon CIDToReplicaCommitmentV1 SectorSize randomness challenged proofs = Value b ->
  b = true /\ exists kind pb vp rest, proofs = [(kind, pb)] /\ DecodeFallbackPoStSectorProof pb = Some (vp, rest) /\
    (exists c, (SectorID vp, c) ∈ challenged /\ CIDToReplicaCommitmentV1 c = Some (fb_CommR vp)) /\
    Forall (fun sp => poseidon 2 [CommC sp; CommRLast sp] = fb_CommR vp /\ Forall (opens_tree (CommRLast sp)) (InclusionProofs sp)) (Sectors (fb_VanillaProof vp)).
Proof.
  rewrite accepted_iff. intros (-> & _ & kind & pb & vp & rest & replicas & ssize & -> & Hd & _ & Hr & Hl & Hv). split; [done|]. exists kind, pb, vp, rest. split; [done|]. split; [done|].
  split; [destruct (replica_map_spec _ _ _ _ _ Hr Hl) as [H|H]; [by rewrite lookup_empty in H|done]|].
  destruct (codec_enc _ _ _ Hd) as [(_ & _ & Hok & _) _]. rewrite Forall_forall in *. intros sp Hsp. destruct (Hv sp Hsp) as [Hc Hi]. destruct (Hok sp Hsp) as [[Hmp _] _]. split; [done|].
  rewrite Forall_forall in *. intros mp Hin. apply valid_opens_tree; [by apply Hmp|by apply Hi].
Qed.
End Sound.

(** ** Honest proofs *)

Section Honest.
Context (poseidon : nat -> list domain -> domain) (CIDToReplicaCommitmentV1 : string -> option domain) (SectorSize : Z -> option Z).

(** A proof of a leaf of the tree, split over the parts of a proof in any way. *)
Definition honest_proof (leaves : list domain) (k : nat) (mp : MerkleProof) : Prop :=
  exists j, (j < 8 ^ k)%nat /\ opens mp = Some (oct poseidon leaves 0 j, honest_path poseidon leaves 0 j k) /\ claimed_root mp = Some (oct poseidon leaves k 0).

(** Proofs of the leaves of a sector, whose nodes have eight children, are accepted. *)
Theorem honest_accepted (leaves : list domain) (k : nat) (vp : FallbackPoStSectorProof) (pb randomness : bytes) (challenged : list (Z * string)) (replicas : gmap Z domain) (kind ssize : Z) :
  (32 <= length randomness)%nat -> Fallback_ok vp -> EncodeFallback vp = Some pb -> SectorSize kind = Some ssize ->
  replica_map CIDToReplicaCommitmentV1 challenged ∅ = Some replicas -> replicas !! SectorID vp = Some (fb_CommR vp) ->
  Forall (fun sp => poseidon 2 [CommC sp; CommRLast sp] = fb_CommR vp /\ CommRLast sp = oct poseidon leaves k 0 /\ Forall (honest_proof leaves k) (InclusionProofs sp)) (Sectors (fb_VanillaProof vp)) ->
  VerifyWindowPoStVanilla poseidon CIDToReplicaCommitmentV1 SectorSize randomness challenged [(kind, pb)] = Value true.
Proof.
  intros Hr Hok He Hs Hm Hl Hv. apply accepted_iff. split; [done|]. split; [done|]. exists kind, pb, vp, [], replicas, ssize. split; [done|].
  split; [rewrite <- (app_nil_r pb); by apply codec_dec|]. split; [done|]. split; [done|]. split; [done|].
  eapply Forall_impl; [exact Hv|]. intros sp (Hc & Hlast & Hi). split; [done|]. rewrite Hlast. eapply Forall_impl; [exact Hi|]. intros mp (j & Hj & Ho & Hroot). split; [done|].
  exists (oct poseidon leaves 0 j), (honest_path poseidon leaves 0 j k). split; [done|]. rewrite honest_reconstruct. by rewrite Nat.div_small.
Qed.

(** ** Where the check goes wrong *)

Lemma combine_never_fails (m : nat) (x idx : Z) (cur : domain) (hs : list domain) (e : post_error) : combine m x idx cur hs <> Failed e.
Proof.
  revert x hs. induction m as [|m IH]; intros x hs; cbn [combine]; [done|]. destruct (x =? idx).
  - destruct (combine m (x + 1) idx cur hs) eqn:E; cbn; [done|intros [= ->]; by apply IH in E|done].
  - destruct hs as [|h hs]; [done|]. destruct (combine m (x + 1) idx cur hs) eqn:E; cbn; [done|intros [= ->]; by apply IH in E|done].
Qed.

Lemma reconstruct_never_fails (path : list PathElement) (leaf : domain) (e : post_error) : reconstructPath poseidon leaf path <> Failed e.
Proof.
  revert leaf. induction path as [|el path IH]; intros leaf; cbn [reconstructPath]; [done|]. destruct (combine _ _ _ _ _) eqn:E; cbn [and_then]; [|by apply combine_never_fails in E|done].
  unfold poseidonHashMulti. destruct (length a =? 8)%nat; [apply IH|done].
Qed.

(** A step without exactly seven siblings, such as the step with one sibling that ends the
    proofs of 64 GiB sectors, or with an index from eight on, is no error: the process panics. *)
Lemma odd_step_panics (path : list PathElement) (leaf : domain) : ~ Forall element_ok path -> reconstructPath poseidon leaf path = Panics.
Proof.
  intros Hn. destruct (reconstructPath poseidon leaf path) as [root|e|] eqn:E; [by apply reconstruct_ok in E|by apply reconstruct_never_fails in E|done].
Qed.

(** A proof of nothing is accepted for a challenged sector; the randomness plays no part. *)
Lemma empty_proof_accepted (randomness pb : bytes) (challenged : list (Z * string)) (replicas : gmap Z domain) (kind ssize n : Z) (commR : domain) :
  (32 <= length randomness)%nat -> u64_ok n -> domain_ok commR -> SectorSize kind = Some ssize -> replica_map CIDToReplicaCommitmentV1 challenged ∅ = Some replicas -> replicas !! n = Some commR ->
  EncodeFallback (mkFallback n commR (mkPoStVanillaProof [])) = Some pb ->
  VerifyWindowPoStVanilla poseidon CIDToReplicaCommitmentV1 SectorSize randomness challenged [(kind, pb)] = Value true.
Proof.
  intros Hr Hn Hc Hs Hm Hl He. apply (honest_accepted [] 0 (mkFallback n commR (mkPoStVanillaProof [])) pb randomness challenged replicas kind ssize); [done| |done|done|done|done|constructor].
  split; [done|]. split; [done|]. split; [constructor|done].
Qed.

(** ** The challenges of a PoRep *)

Lemma challenges_in_range (Sum256 : bytes -> bytes) (n nodes k : Z) (replica seed : bytes) : 0 <= n -> 2 <= nodes < 2 ^ 63 ->
  exists l, DeriveInteractiveChallenges Sum256 n nodes replica seed k = Some l /\ Z.of_nat (length l) = n /\ Forall (fun c => 1 <= c <= nodes - 1) l.
Proof using.
  intros Hn Hb. unfold DeriveInteractiveChallenges.
  assert (forall big, exists c, bigintToChallenge big nodes = Some c /\ 1 <= c <= nodes - 1) as Hone.
  { intros big. unfold bigintToChallenge. rewrite u64_small by (unfold in_u64; lia). rewrite i64_small by (unfold in_i64, min_i64, max_i64; lia).
    rewrite (proj2 (Z.eqb_neq _ _)) by lia. eexists. split; [done|]. rewrite Z.abs_eq by lia. pose proof (Z.mod_pos_bound big (nodes - 1) ltac:(lia)). rewrite u64_small by (unfold in_u64; lia). lia. }
  match goal with |- exists l, mapM ?f ?ns = Some l /\ _ => assert (exists l, mapM f ns = Some l /\ length l = length ns /\ Forall (fun c => 1 <= c <= nodes - 1) l) as (l & H & Hlen & Hf) end.
  - induction (seq 0 (Z.to_nat n)) as [|i ns (l & Hl & Hlen & Hf)]; [by exists []|].
    destruct (Hone (le_dec (rev (Sum256 (replica ++ seed ++ le_enc 4 (u64 (u64 (n * k) + Z.of_nat i) mod 2 ^ 32)))))) as (c & Hc & Hcr).
    exists (c :: l). split; [|split; [by f_equal/=|by constructor]]. apply mapM_Some. constructor; [exact Hc|by apply mapM_Some].
  - exists l. split; [done|]. split; [|done]. rewrite Hlen, length_seq. lia.
Qed.
End Honest.

(** ** A concrete sector *)

(** A hash to compute with, and a sector of 64 leaves: two levels. *)
Definition toy_hash (arity : nat) (l : list domain) : domain := le_enc 32 (foldr (fun d acc => 31 * acc + le_dec d) (Z.of_nat arity) l).
Definition toy_leaves : list domain := (fun i => le_enc 32 (Z.of_nat i * 7919 + 5)) <$> seq 0 64.
Definition toy_root : domain := oct toy_hash toy_leaves 2 0.
Definition toy_comm_c : domain := le_enc 32 99.
Definition toy_comm_r : domain := toy_hash 2 [toy_comm_c; toy_root].
Definition toy_proof (j : nat) : MerkleProof :=
  let path := honest_path toy_hash toy_leaves 0 j 2 in
  mkMerkleProof (mkProofData None (Some (mkSubProof (mkInclusionPath (take 1 path)) (mkInclusionPath (drop 1 path)) toy_root (toy_leaves !!! j))) None).
Definition toy_fallback : FallbackPoStSectorProof := mkFallback 42 toy_comm_r (mkPoStVanillaProof [mkSectorProof [toy_proof 11; toy_proof 60] toy_comm_c toy_root]).
Definition toy_bytes : bytes := match EncodeFallback toy_fallback with Some p => p | None => [] end.
Definition toy_cid (c : string) : option domain := if decide (c = "bagsealed") then Some toy_comm_r else None.
Definition toy_size (kind : Z) : option Z := if kind =? 3 then Some (Z.shiftl 32 30) else None.

Lemma post_vanilla_sound_witness : VerifyWindowPoStVanilla toy_hash toy_cid toy_size (le_enc 32 1) [(42, "bagsealed")] [(3, toy_bytes)] = Value true /\
  exists vp rest, DecodeFallbackPoStSectorProof toy_bytes = Some (vp, rest) /\
    Forall (fun sp => Forall (opens_tree toy_hash (CommRLast sp)) (InclusionProofs sp)) (Sectors (fb_VanillaProof vp)).
Proof.
  assert (VerifyWindowPoStVanilla toy_hash toy_cid toy_size (le_enc 32 1) [(42, "bagsealed")] [(3, toy_bytes)] = Value true) as E by (vm_compute; reflexivity).
  split; [exact E|]. destruct (post_vanilla_sound toy_hash toy_cid toy_size _ _ _ _ E) as (_ & kind & pb & vp & rest & Hp & Hd & _ & Hv).
  injection Hp as <- <-. exists vp, rest. split; [exact Hd|]. eapply Forall_impl; [exact Hv|]. intros sp [_ H]. exact H.
Defined.
