(* ===== verification/AuxFiles.v ===== *)
(** * Auxiliary files of sealed sectors

    [lib/proof/t_aux_types.go], [t_aux_gen.go], [p_aux_util.go] and the strings of
    [bincode_util.go]: the file that tells the prover where the trees of a sector are, and
    the one with its two commitments. *)

From stdpp Require Import base gmap sets list strings.
From Stdlib Require Import ZArith Lia Strings.Byte.
From S2P Require Import Prelude Codec VanillaProof.

Local Open Scope go_scope.

(** ** Strings, as their bytes *)

Definition WriteString (s : bytes) : option bytes := WriteLE 8 (Z.of_nat (length s)) +++ Some s.

Definition ReadString : reader bytes :=
  read l := ReadLE 8 in
  fun bs => if l <=? Z.of_nat (length bs) then ReadFull (Z.to_nat l) bs else None.

(** ** [t_aux] *)

Record StoreConfig := mkStoreConfig { sc_Path : bytes; sc_ID : bytes; sc_Size : option Z; RowsToDiscard : Z }.
Record TAuxLabels := mkTAuxLabels { Labels : list StoreConfig }.
Record TemporaryAux := mkTemporaryAux { ta_Labels : TAuxLabels; TreeDConfig : StoreConfig; TreeRConfig : StoreConfig; TreeCConfig : StoreConfig }.

(** Any byte but one stands for a missing size. *)
Definition DecodeStoreConfig : reader StoreConfig :=
  read path := ReadString in
  read id := ReadString in
  read b := ReadFull 1 in
  read size := if bool_decide (b = [x01]) then read n := ReadLE 8 in ret (Some n) else ret None in
  read rows := ReadLE 8 in
  ret (mkStoreConfig path id size rows).

Definition DecodeLabels : reader TAuxLabels :=
  read labels := read_slice DecodeStoreConfig in
  ret (mkTAuxLabels labels).

Definition DecodeTAux : reader TemporaryAux :=
  read labels := DecodeLabels in
  read treeD := DecodeStoreConfig in
  read treeR := DecodeStoreConfig in
  read treeC := DecodeStoreConfig in
  ret (mkTemporaryAux labels treeD treeR treeC).

Definition EncodeStoreConfig (sc : StoreConfig) : option bytes :=
  WriteString (sc_Path sc) +++ WriteString (sc_ID sc) +++
  match sc_Size sc with Some n => Some [x01] +++ WriteLE 8 n | None => Some [x00] end +++
  WriteLE 8 (RowsToDiscard sc).

Definition EncodeLabels (l : TAuxLabels) : option bytes := write_slice EncodeStoreConfig (Labels l).

Definition EncodeTAux (ta : TemporaryAux) : option bytes :=
  EncodeLabels (ta_Labels ta) +++ EncodeStoreConfig (TreeDConfig ta) +++ EncodeStoreConfig (TreeRConfig ta) +++ EncodeStoreConfig (TreeCConfig ta).

(** ** The default [t_aux] *)

Definition ascii_bytes (s : string) : bytes := String.list_byte_of_string s.

Definition layer_ids : list string := ["layer-1"; "layer-2"; "layer-3"; "layer-4"; "layer-5"; "layer-6"; "layer-7"; "layer-8"; "layer-9"; "layer-10"; "layer-11"]%string.

Definition default_taux (path : bytes) (treeRRowsToDiscard : Z) : TemporaryAux :=
  mkTemporaryAux (mkTAuxLabels ((fun id => mkStoreConfig path (ascii_bytes id) (Some 1073741824) 0) <$> layer_ids))
    (mkStoreConfig path (ascii_bytes "tree-d") (Some 2147483647) 0)
    (mkStoreConfig path (ascii_bytes "tree-r-last") (Some 153391689) treeRRowsToDiscard)
    (mkStoreConfig path (ascii_bytes "tree-c") (Some 153391689) 0).

(** What [os.Stat] says of the file. *)
Inductive stat_result := StatFound (content : bytes) | StatMissing | StatError.
Inductive taux_error := UnsupportedProof | BadRowsToDiscard | EncodeFailed | WriteFailed.

Section Ensure.
(** The two kinds of seal proofs, constants of the chain's types. *)
Context (StackedDrg32GiBV1_1 StackedDrg32GiBV1_1_Synthetic : Z).

(** The file afterwards, if it was there or was written, or the error.  [env] is the
    number in FIL_PROOFS_ROWS_TO_DISCARD, if that is set ([Some None]: not a number); [wrote] says
    whether [os.WriteFile] succeeds. *)
Definition EnsureTauxForType (spt : Z) (path : bytes) (st : stat_result) (env : option (option Z)) (wrote : bool) : option bytes + taux_error :=
  match st with
  | StatFound c => inl (Some c)
  | StatError => inl None
  | StatMissing =>
      if negb (spt =? StackedDrg32GiBV1_1) && negb (spt =? StackedDrg32GiBV1_1_Synthetic) then inr UnsupportedProof
      else
        match env with
        | Some None => inr BadRowsToDiscard
        | None | Some (Some _) =>
            let rows := match env with Some (Some n) => n | _ => 2 end in
            match EncodeTAux (default_taux path rows) with
            | None => inr EncodeFailed
            | Some buf => if wrote then inl (Some buf) else inr WriteFailed
            end
        end
  end.
End Ensure.

(** ** [p_aux] *)

(** Of the bytes of the file; [None] is an error. *)
Definition ReadPAux (file : option bytes) : option (bytes * bytes) :=
  match file with
  | None => None
  | Some b => if negb (length b =? 64)%nat then None else Some (take 32 b, drop 32 b)
  end.

(** The file that is written. *)
Definition WritePAux (commC commRLast : bytes) : bytes := commC ++ commRLast.

(** ** What can be written *)

Definition str_ok (s : bytes) : Prop := in_u64 (Z.of_nat (length s)).
Definition size_ok (n : option Z) : Prop := match n with Some x => u64_ok x | None => True end.
Definition StoreConfig_ok (sc : StoreConfig) : Prop := str_ok (sc_Path sc) /\ str_ok (sc_ID sc) /\ size_ok (sc_Size sc) /\ u64_ok (RowsToDiscard sc).
Definition TAuxLabels_ok (l : TAuxLabels) : Prop := slice_ok StoreConfig_ok (Labels l).
Definition TemporaryAux_ok (ta : TemporaryAux) : Prop :=
  TAuxLabels_ok (ta_Labels ta) /\ StoreConfig_ok (TreeDConfig ta) /\ StoreConfig_ok (TreeRConfig ta) /\ StoreConfig_ok (TreeCConfig ta).

#[export] Instance string_codec : Codec str_ok WriteString ReadString.
Proof.
  constructor.
  - intros s _. by eexists.
  - intros s p rest Hs E. unfold WriteString in E. cbn [then_write WriteLE] in E. apply (inj Some) in E. subst p. unfold ReadString, bind. rewrite <- app_assoc.
    rewrite (codec_dec (Codec := le_codec 7) (Z.of_nat (length s)) _ _ Hs eq_refl). rewrite length_app, (proj2 (Z.leb_le _ _)) by lia. rewrite Nat2Z.id. by apply ReadFull_app.
  - intros bs s rest E. unfold ReadString, bind in E. destruct (ReadLE 8 bs) as [[n bs1]|] eqn:En; [|done].
    destruct (codec_enc (Codec := le_codec 7) _ _ _ En) as [Hn (p & Ep & ->)]. destruct (n <=? Z.of_nat (length bs1)) eqn:El; [|done].
    apply ReadFull_inv in E as [Hl ->]. assert (n = Z.of_nat (length s)) as -> by lia. split; [done|]. unfold WriteString. rewrite Ep. exists (p ++ s). split; [done|]. by rewrite app_assoc.
Qed.

(** ** Decoding with one form of a missing size *)

Definition write_size (n : option Z) : option bytes := match n with Some n => Some [x01] +++ WriteLE 8 n | None => Some [x00] end.
Definition strict_size : reader (option Z) :=
  read b := ReadFull 1 in
  if bool_decide (b = [x01]) then read n := ReadLE 8 in ret (Some n) else if bool_decide (b = [x00]) then ret None else Codec.fail.

#[export] Instance size_codec : Codec size_ok write_size strict_size.
Proof.
  constructor.
  - intros [n|] _; by eexists.
  - intros [n|] p rest Hn E; cbn [write_size then_write WriteLE] in E; apply (inj Some) in E; subst p; unfold strict_size, bind; [|done].
    rewrite <- app_assoc, (ReadFull_app 1 [x01]) by done. rewrite bool_decide_true by done. by rewrite (codec_dec (Codec := u64_codec) n _ _ Hn eq_refl).
  - intros bs n rest E. unfold strict_size, bind in E. destruct (ReadFull 1 bs) as [[b bs1]|] eqn:Eb; [|done]. apply ReadFull_inv in Eb as [Hb ->].
    destruct (bool_decide (b = [x01])) eqn:E1; [apply bool_decide_eq_true in E1; subst b|destruct (bool_decide (b = [x00])) eqn:E0; [apply bool_decide_eq_true in E0; subst b|done]].
    + destruct (ReadLE 8 bs1) as [[x bs2]|] eqn:Ex; [|done]. injection E as <- <-. destruct (codec_enc (Codec := u64_codec) _ _ _ Ex) as [Hx (q & Eq & ->)].
      split; [done|]. exists ([x01] ++ q). unfold write_size. rewrite Eq. by rewrite app_assoc.
    + injection E as <- <-. split; [done|]. by exists [x00].
Qed.

Definition strict_store : reader StoreConfig :=
  read path := ReadString in
  read id := ReadString in
  read size := strict_size in
  read rows := ReadLE 8 in
  ret (mkStoreConfig path id size rows).

#[export] Instance store_codec : Codec StoreConfig_ok EncodeStoreConfig strict_store.
Proof.
  apply (codec_record (fun c => (sc_Path c, (sc_ID c, (sc_Size c, RowsToDiscard c)))) (fun q => mkStoreConfig q.1 q.2.1 q.2.2.1 q.2.2.2) _ _ _ _ _ _
    (codec_pair _ _ _ _ _ _ string_codec (codec_pair _ _ _ _ _ _ string_codec (codec_pair _ _ _ _ _ _ size_codec u64_codec)))); try done.
  - by intros [].
  - by intros [? [? []]].
  - unfold strict_store. read_fields.
Qed.

(** The decoder of the code accepts more, with the same result where both accept. *)
Definition extends {A} (p q : reader A) : Prop := forall bs r, p bs = Some r -> q bs = Some r.

Lemma extends_store : extends strict_store DecodeStoreConfig.
Proof.
  intros bs r. unfold strict_store, DecodeStoreConfig, strict_size, bind, Codec.fail. destruct (ReadString bs) as [[? bs1]|]; [|done]. destruct (ReadString bs1) as [[? bs2]|]; [|done].
  destruct (ReadFull 1 bs2) as [[b bs3]|]; [|done]. destruct (bool_decide (b = [x01])); [done|]. by destruct (bool_decide (b = [x00])).
Qed.

Lemma extends_slice {A} (p q : reader A) : extends p q -> extends (read_slice p) (read_slice q).
Proof.
  intros H bs r. unfold read_slice, bind, read_n. destruct (ReadLE 8 bs) as [[n bs1]|]; [|done]. generalize bs1 at 1 3 as fuel. intros fuel. revert n bs1 r.
  induction fuel as [|f fuel IH]; intros n bs1 r; cbn [read_loop]; [done|]. destruct (n <=? 0); [done|]. destruct (p bs1) as [[x bs2]|] eqn:Ep; [|done]. rewrite (H _ _ Ep).
  destruct (read_loop p fuel (n - 1) bs2) as [r'|] eqn:El; [|done]. by rewrite (IH _ _ _ El).
Qed.

Lemma store_decodes (sc : StoreConfig) (p rest : bytes) : StoreConfig_ok sc -> EncodeStoreConfig sc = Some p -> DecodeStoreConfig (p ++ rest) = Some (sc, rest).
Proof. intros Hok He. apply extends_store. by apply codec_dec. Qed.

Lemma labels_decode (l : TAuxLabels) (p rest : bytes) : TAuxLabels_ok l -> EncodeLabels l = Some p -> DecodeLabels (p ++ rest) = Some (l, rest).
Proof.
  intros Hok He. unfold DecodeLabels, bind. rewrite (extends_slice _ _ extends_store _ _ (codec_dec (Codec := slice_codec _ _ _ (Codec0 := store_codec)) (Labels l) p rest Hok He)). by destruct l.
Qed.

Lemma store_encodes (sc : StoreConfig) : StoreConfig_ok sc -> exists p, EncodeStoreConfig sc = Some p.
Proof. intros H. destruct (codec_total sc H) as (p & ? & _). by exists p. Qed.

(** Every description of trees survives a round trip. *)
Lemma taux_roundtrip (ta : TemporaryAux) : TemporaryAux_ok ta -> exists p, EncodeTAux ta = Some p /\ forall rest, DecodeTAux (p ++ rest) = Some (ta, rest).
Proof.
  destruct ta as [l d r c]. intros (Hl & Hd & Hr & Hc). cbn in *. destruct (codec_total (Codec := slice_codec _ _ _ (Codec0 := store_codec)) (Labels l) Hl) as (pl & El & _).
  destruct (store_encodes d Hd) as (pd & Ed), (store_encodes r Hr) as (pr & Er), (store_encodes c Hc) as (pc & Ec). unfold EncodeTAux, EncodeLabels. cbn [ta_Labels TreeDConfig TreeRConfig TreeCConfig]. rewrite El, Ed, Er, Ec. eexists. split; [done|]. intros rest.
  unfold DecodeTAux, bind, ret. rewrite <- !app_assoc. rewrite (labels_decode l pl _ Hl El), (store_decodes d pd _ Hd Ed), (store_decodes r pr _ Hr Er), (store_decodes c pc _ Hc Ec). done.
Qed.

(** A size byte that is neither 0 nor 1 is read as a missing size, and written back differently. *)
Lemma size_byte_not_checked : exists bs sc, DecodeStoreConfig bs = Some (sc, []) /\ sc_Size sc = None /\ EncodeStoreConfig sc <> Some bs.
Proof. exists (le_enc 8 0 ++ le_enc 8 0 ++ [x02] ++ le_enc 8 3), (mkStoreConfig [] [] None 3). by vm_compute. Qed.

(** ** The files *)

Lemma paux_roundtrip (commC commRLast : bytes) : length commC = 32%nat -> length commRLast = 32%nat -> ReadPAux (Some (WritePAux commC commRLast)) = Some (commC, commRLast).
Proof. intros Hc Hr. unfold ReadPAux, WritePAux. rewrite length_app, Hc, Hr. cbn [Nat.add Nat.eqb negb]. by rewrite take_app_length', drop_app_length'. Qed.

Lemma default_ok (path : bytes) (rows : Z) : str_ok path -> u64_ok rows -> TemporaryAux_ok (default_taux path rows).
Proof.
  intros Hp Hr. assert (forall id n r, str_ok (ascii_bytes id) -> u64_ok n -> u64_ok r -> StoreConfig_ok (mkStoreConfig path (ascii_bytes id) (Some n) r)) as Hsc by (intros; split_and!; done).
  assert (forall x, 0 <= x < 2 ^ 63 -> u64_ok x) as Hu by (unfold u64_ok; intros x Hx; change (256 ^ Z.of_nat 8) with (2 ^ 64); lia).
  assert (Forall (fun id => str_ok (ascii_bytes id)) (["tree-d"; "tree-r-last"; "tree-c"]%string ++ layer_ids)) as Hids by (unfold str_ok, in_u64; repeat constructor; cbn; lia).
  apply Forall_app in Hids as [Ht Hl]. rewrite !Forall_cons in Ht. destruct Ht as (H1 & H2 & H3 & _). split_and!; [|by apply Hsc; auto; apply Hu; lia|by apply Hsc; auto; apply Hu; lia|by apply Hsc; auto; apply Hu; lia].
  split; [|cbn; unfold in_u64; lia]. cbn [Labels ta_Labels default_taux]. apply Forall_fmap. eapply Forall_impl; [exact Hl|]. intros id Hid. apply Hsc; [done|apply Hu; lia|apply Hu; lia].
Qed.

(** When no file is there, the one that [EnsureTauxForType] leaves for a 32 GiB sector
    decodes to the description of the sector's trees at its path: eleven layers, the
    data tree, the replica tree with the rows to discard that the environment asks for
    (two otherwise) and the column tree; a file that is there is never changed, and other
    kinds of sectors are refused. *)
Theorem ensure_taux (v1 v2 spt : Z) (path : bytes) (st : stat_result) (env : option (option Z)) (wrote : bool) : str_ok path -> (forall n, env = Some (Some n) -> u64_ok n) ->
  match EnsureTauxForType v1 v2 spt path st env wrote with
  | inl (Some c) => st = StatFound c \/ st = StatMissing /\ (spt = v1 \/ spt = v2) /\
      exists rows, (env = None /\ rows = 2 \/ env = Some (Some rows)) /\ DecodeTAux c = Some (default_taux path rows, []) /\ wrote = true
  | inl None => st = StatError
  | inr e => st = StatMissing /\ (e = UnsupportedProof <-> spt <> v1 /\ spt <> v2) /\ e <> EncodeFailed
  end.
Proof.
  intros Hp He. unfold EnsureTauxForType. destruct st as [c| |]; [by left| |done].
  destruct (spt =? v1) eqn:E1, (spt =? v2) eqn:E2; rewrite ?Z.eqb_eq, ?Z.eqb_neq in *; cbn [negb andb]; [| | |split; [done|]; by split].
  all: assert (~ (spt <> v1 /\ spt <> v2)) as Hs by tauto.
  all: assert (forall rows, u64_ok rows -> exists p, EncodeTAux (default_taux path rows) = Some p /\ DecodeTAux p = Some (default_taux path rows, [])) as Henc
    by (intros rows Hr; destruct (taux_roundtrip _ (default_ok path rows Hp Hr)) as (p & Ep & Hd); exists p; split; [done|]; rewrite <- (app_nil_r p) at 1; apply Hd).
  all: destruct env as [[n|]|]; [specialize (He n eq_refl)|split; [done|]; split; [split; [done|by intros ?%Hs]|done]|assert (u64_ok 2) as He2 by (unfold u64_ok; lia)].
  all: match goal with H : u64_ok ?rows |- _ => destruct (Henc rows H) as (p & Ep & Hd) end; rewrite Ep; destruct wrote;
    [right; split; [done|]; split; [tauto|]; eexists; split; [|by split]; auto|split; [done|]; split; [split; [done|by intros ?%Hs]|done]].
Qed.

Lemma ensure_taux_witness : exists c, EnsureTauxForType 8 13 8 (ascii_bytes "/cache/s-t01000-1") StatMissing None true = inl (Some c) /\ exists rows, DecodeTAux c = Some (default_taux (ascii_bytes "/cache/s-t01000-1") rows, []).
Proof.
  assert (str_ok (ascii_bytes "/cache/s-t01000-1")) as Hp by (unfold str_ok, in_u64; cbn; lia).
  assert (forall n, @None (option Z) = Some (Some n) -> u64_ok n) as He by (intros n [=]).
  pose proof (ensure_taux 8 13 8 (ascii_bytes "/cache/s-t01000-1") StatMissing None true Hp He) as H.
  destruct (EnsureTauxForType 8 13 8 (ascii_bytes "/cache/s-t01000-1") StatMissing None true) as [[c|]|e] eqn:E; [|discriminate E|discriminate E].
  exists c. split; [reflexivity|]. destruct H as [H|(_ & _ & rows & _ & Hd & _)]; [discriminate H|]. exists rows. exact Hd.
Defined.
