(* ===== verification/PartialFile.v ===== *)
(** * Partial unsealed files

    [lib/partialfile/partialfile.go]: an unsealed sector file holds the data of a sector and,
    behind it, a trailer that says which bytes are there.  A file is its content; what a
    handle knows of the trailer is what it read when it was opened. *)

From stdpp Require Import base gmap sets list strings.
From Stdlib Require Import ZArith Lia Strings.Byte.
From S2P Require Import Prelude Codec.

(** ** Sets of bytes *)

Record Run := mkRun { Val : bool; Len : Z }.

(** The library of run-length encoded bit fields.  [FromBuf] stands for decoding a
    buffer up to its iterator. *)
Class RLELib := {
  RLE : Type;
  RunSliceIterator : list Run -> RLE;
  EncodeRuns : RLE -> option bytes;
  FromBuf : bytes -> option RLE;
  Or : RLE -> RLE -> option RLE;
  And : RLE -> RLE -> option RLE;
  Subtract : RLE -> RLE -> option RLE;
  Fill : RLE -> option RLE;
  Count : RLE -> option Z
}.

Section File.
Context `{RLELib}.

Definition PieceRun (offset size : Z) : RLE :=
  RunSliceIterator ((if 0 <? offset then [mkRun false offset] else []) ++ [mkRun true size]).

(** ** The file system *)

(** A write at an offset; what lies between the end and the offset becomes zero. *)
Definition write_at (c : bytes) (off : nat) (data : bytes) : bytes :=
  take off c ++ replicate (off - length c) x00 ++ data ++ drop (off + length data) c.

(** Growing or cutting a file. *)
Definition truncate (c : bytes) (n : nat) : bytes := take n c ++ replicate (n - length c) x00.

(** [fallocate] allocates, is not supported, or fails; [Deallocate] of a range, with
    [None] an error. *)
Inductive falloc := FallocDone | FallocUnsupported | FallocError.
Context (Deallocate : bytes -> Z -> Z -> option bytes).

(** ** The trailer *)

(** The content afterwards and whether there was no error.  [steps] is how many of the three
    changes of the file happen before one fails, all of them from three on. *)
Definition writeTrailer (steps : nat) (maxPieceSize : Z) (c : bytes) (r : RLE) : bytes * bool :=
  match EncodeRuns r with
  | None => (c, false)
  | Some trailer =>
      let at_ := Z.to_nat maxPieceSize in
      let c1 := if (1 <=? steps)%nat then write_at c at_ trailer else c in
      let c2 := if (2 <=? steps)%nat then write_at c1 (at_ + length trailer) (le_enc 4 (Z.of_nat (length trailer) mod 2 ^ 32)) else c1 in
      (if (3 <=? steps)%nat then truncate c2 (at_ + length trailer + 4) else c2, (3 <=? steps)%nat)
  end.

(** ** Opening *)

Record PartialFile := mkPartialFile { maxPiece : Z; allocated : RLE }.

(** The trailer of a file that has one; [None] is an error. *)
Definition read_trailer (maxPieceSize : Z) (c : bytes) : option RLE :=
  let size := Z.of_nat (length c) in
  if size <? 4 then None
  else
    let trailerLen := le_dec (drop (length c - 4) c) in
    let expectLen := trailerLen + 4 + maxPieceSize in
    if negb (expectLen =? size) then None
    else
      let trailerStart := size - 4 - trailerLen in
      if negb (trailerStart =? maxPieceSize) then None
      else
        match FromBuf (take (Z.to_nat trailerLen) (drop (Z.to_nat trailerStart) c)) with
        | None => None
        | Some rle =>
            match Fill rle with
            | None => None
            | Some f => match Count f with None => None | Some lastSet => if maxPieceSize <? lastSet then None else Some rle end
            end
        end.

Definition OpenPartialFile (maxPieceSize : Z) (c : bytes) : option PartialFile :=
  let size := Z.of_nat (length c) in
  if size <? maxPieceSize then None
  else if size =? maxPieceSize then
    match EncodeRuns (RunSliceIterator [mkRun true maxPieceSize]) with
    | None => None
    | Some enc => match FromBuf enc with None => None | Some rle => Some (mkPartialFile maxPieceSize rle) end
    end
  else match read_trailer maxPieceSize c with None => None | Some rle => Some (mkPartialFile maxPieceSize rle) end.

(** The content afterwards, which may have been there before, and the handle. *)
Definition CreatePartialFile (fa : falloc) (steps : nat) (maxPieceSize : Z) (c : bytes) : bytes * option PartialFile :=
  match fa with
  | FallocError => (c, None)
  | FallocDone | FallocUnsupported =>
      let c1 := match fa with FallocDone => c ++ replicate (Z.to_nat maxPieceSize - length c) x00 | _ => c end in
      let '(c2, ok) := writeTrailer steps maxPieceSize c1 (RunSliceIterator []) in
      (c2, if ok then OpenPartialFile maxPieceSize c2 else None)
  end.

(** ** The handle *)

(** The set is only looked at for a warning; the position of the writer is [offset]. *)
Definition Writer (pf : PartialFile) (offset size : Z) : option Z :=
  match And (allocated pf) (PieceRun offset size) with
  | None => None
  | Some a => match Count a with None => None | Some _ => Some offset end
  end.

Definition MarkAllocated (steps : nat) (pf : PartialFile) (c : bytes) (offset size : Z) : bytes * bool :=
  match Or (allocated pf) (PieceRun offset size) with
  | None => (c, false)
  | Some ored => writeTrailer steps (maxPiece pf) c ored
  end.

Definition Free (steps : nat) (pf : PartialFile) (c : bytes) (offset size : Z) : bytes * bool :=
  match Deallocate c offset size with
  | None => (c, false)
  | Some c1 =>
      match Subtract (allocated pf) (PieceRun offset size) with
      | None => (c1, false)
      | Some s => writeTrailer steps (maxPiece pf) c1 s
      end
  end.

(** The bytes the reader gives. *)
Definition Reader (pf : PartialFile) (c : bytes) (offset size : Z) : option bytes :=
  match And (allocated pf) (PieceRun offset size) with
  | None => None
  | Some a => match Count a with None => None | Some _ => Some (take (Z.to_nat size) (drop (Z.to_nat offset) c)) end
  end.

(** [Padded] of an index and a size. *)
Context (Padded : Z -> Z).

Definition HasAllocated (pf : PartialFile) (offset size : Z) : option bool :=
  match And (allocated pf) (PieceRun (Padded offset) (Padded size)) with
  | None => None
  | Some u => match Count u with None => None | Some uc => Some (uc =? Padded size) end
  end.
End File.
