(* ===== verification/PartialFileFacts.v ===== *)
(** * What a partial file holds

    A file as the partial map of the bytes that were stored in it and not freed since: every
    session that opens it, stores or frees one range and closes it is the update of that
    map; a range can be read as stored exactly when it is reported as there. *)

From stdpp Require Import base gmap sets list list_numbers strings.
From Stdlib Require Import ZArith Lia Strings.Byte.
From S2P Require Import Prelude Codec PartialFile.

(** ** What is documented of the library *)

Fixpoint run_bit (runs : list Run) (i : Z) : bool :=
  match runs with
  | [] => false
  | r :: rest => if i <? Len r then Val r else run_bit rest (i - Len r)
  end.

(** Sets of bytes of a sector of size [m]: what the operations give, that they give something,
    and the round trip of the encoding, whose length fits into the trailer. *)
Class RLELaws `{RLELib} (m : Z) := {
  bit : RLE -> Z -> bool;
  within (a : RLE) : Prop := forall i, 0 <= i -> bit a i = true -> i < m;
  slice_bit : forall runs i, Forall (fun r => 0 <= Len r) runs -> 0 <= i -> bit (RunSliceIterator runs) i = run_bit runs i;
  Or_spec : forall a b, within a -> within b -> exists c, Or a b = Some c /\ forall i, 0 <= i -> bit c i = bit a i || bit b i;
  And_spec : forall a b, within a -> within b -> exists c, And a b = Some c /\ forall i, 0 <= i -> bit c i = bit a i && bit b i;
  Subtract_spec : forall a b, within a -> within b -> exists c, Subtract a b = Some c /\ forall i, 0 <= i -> bit c i = bit a i && negb (bit b i);
  Fill_spec : forall a, within a -> exists c, Fill a = Some c /\ forall i, 0 <= i -> bit c i = true <-> exists j, i <= j /\ bit a j = true;
  Count_spec : forall a, within a -> Count a = Some (Z.of_nat (length (filter (fun i => bit a i = true) (seqZ 0 m))));
  codec_spec : forall a, within a -> exists p b, EncodeRuns a = Some p /\ FromBuf p = Some b /\ Z.of_nat (length p) < 2 ^ 32 /\ forall i, 0 <= i -> bit b i = bit a i
}.

(** ** Writing at an offset *)

Lemma write_at_length (c data : bytes) (off : nat) : length (write_at c off data) = Nat.max (length c) (off + length data).
Proof. unfold write_at. rewrite !length_app, length_take, length_replicate, length_drop. lia. Qed.

Lemma write_at_inside (c data : bytes) (off : nat) : (off <= length c)%nat -> write_at c off data = take off c ++ data ++ drop (off + length data) c.
Proof. intros H. unfold write_at. by replace (off - length c)%nat with 0%nat by lia. Qed.

Lemma write_at_data (c data : bytes) (off i : nat) : (i < length data)%nat -> write_at c off data !! (off + i)%nat = data !! i.
Proof.
  intros Hi. unfold write_at. rewrite app_assoc, lookup_app_r by (rewrite length_app, length_take, length_replicate; lia).
  rewrite length_app, length_take, length_replicate. rewrite lookup_app_l by lia. f_equal. lia.
Qed.

Lemma write_at_other (c data : bytes) (off i : nat) : (i < length c)%nat -> (i < off \/ off + length data <= i)%nat -> write_at c off data !! i = c !! i.
Proof.
  intros Hi Ho. unfold write_at. destruct (decide (i < off)%nat) as [Hlt|Hge].
  - rewrite lookup_app_l by (rewrite length_take; lia). by rewrite lookup_take_lt.
  - rewrite !lookup_app_r; rewrite ?length_take, ?length_replicate; try lia. rewrite lookup_drop. f_equal. lia.
Qed.

(** The part of a file that holds data. *)
Lemma trailer_written (d p rest : bytes) (n : bytes) : length n = 4%nat ->
  truncate (write_at (write_at (d ++ rest) (length d) p) (length d + length p) n) (length d + length p + 4) = d ++ p ++ n.
Proof.
  intros Hn. rewrite (write_at_inside _ p) by (rewrite length_app; lia). rewrite take_app_length. set (r := drop _ _).
  rewrite write_at_inside by (rewrite !length_app; lia). rewrite (app_assoc d p r), take_app_length' by (rewrite length_app; lia). set (r' := drop _ _).
  unfold truncate. rewrite (app_assoc (d ++ p) n r'), take_app_length' by (rewrite !length_app; lia). rewrite !length_app.
  match goal with |- _ ++ replicate ?k _ = _ => replace k with 0%nat by lia end. cbn. by rewrite app_nil_r, <- app_assoc.
Qed.

Section Facts.
Context (max : Z) (Hmax : 0 <= max < 2 ^ 62) `{Lib : !RLELib} `{!RLELaws max}.
Context (Deallocate : bytes -> Z -> Z -> option bytes).
(** Freeing keeps the length, and the bytes outside of the range. *)
Hypothesis Deallocate_spec : forall c off size, 0 <= off -> 0 <= size -> off + size <= Z.of_nat (length c) ->
  exists c', Deallocate c off size = Some c' /\ length c' = length c /\ forall i, (Z.of_nat i < off \/ off + size <= Z.of_nat i) -> c' !! i = c !! i.

Definition in_range (off size i : Z) : bool := (off <=? i) && (i <? off + size).

Lemma piece_bit (off size i : Z) : 0 <= off -> 0 <= size -> 0 <= i -> bit (PieceRun off size) i = in_range off size i.
Proof using.
  intros Ho Hs Hi. unfold PieceRun. rewrite slice_bit; [|apply Forall_app; split; [destruct (0 <? off); repeat constructor; cbn; lia|repeat constructor; cbn; lia]|done]. unfold in_range. destruct (0 <? off) eqn:E; cbn [app run_bit Len Val].
  - destruct (Z.ltb_spec i off); [by rewrite (proj2 (Z.leb_gt _ _)) by lia|rewrite (proj2 (Z.leb_le _ _)) by lia]. destruct (Z.ltb_spec (i - off) size), (Z.ltb_spec i (off + size)); done || lia.
  - assert (off = 0) as -> by lia. rewrite (proj2 (Z.leb_le _ _)) by lia. destruct (Z.ltb_spec i size), (Z.ltb_spec i (0 + size)); done || lia.
Qed.

Lemma piece_within (off size : Z) : 0 <= off -> 0 <= size -> off + size <= max -> within (PieceRun off size).
Proof using. intros Ho Hs Hm i Hi. rewrite piece_bit by done. unfold in_range. lia. Qed.

(** ** The file and the map it stands for *)

Definition stored : Type := Z -> option byte.

(** A file with its data, the set of its trailer, and the map. *)
Record file_ok (d p : bytes) (a : RLE) (A : stored) : Prop := {
  fo_length : Z.of_nat (length d) = max;
  fo_small : Z.of_nat (length p) < 2 ^ 32;
  fo_buf : FromBuf p = Some a;
  fo_within : within a;
  fo_view : forall i, 0 <= i < max -> A i = if bit a i then d !! Z.to_nat i else None
}.
Definition content (d p : bytes) : bytes := d ++ p ++ le_enc 4 (Z.of_nat (length p)).

(** A trailer that is written completely. *)
Lemma writeTrailer_ok (d rest : bytes) (r : RLE) : Z.of_nat (length d) = max -> within r ->
  exists p b, writeTrailer 3 max (d ++ rest) r = (content d p, true) /\ FromBuf p = Some b /\ Z.of_nat (length p) < 2 ^ 32 /\ within b /\ forall i, 0 <= i -> bit b i = bit r i.
Proof using.
  intros Hd Hr. destruct (codec_spec r Hr) as (p & b & Ep & Eb & Hl & Hb). exists p, b. unfold writeTrailer. rewrite Ep. cbn [Nat.leb].
  replace (Z.to_nat max) with (length d) by lia. rewrite trailer_written by apply le_enc_length. split; [unfold content; by rewrite Z.mod_small by lia|].
  split; [done|]. split; [done|]. split; [|done]. intros i Hi Hbi. apply (Hr i Hi). by rewrite <- Hb.
Qed.

(** An interrupted one leaves the data alone. *)
Lemma writeTrailer_data (steps : nat) (d rest : bytes) (r : RLE) : Z.of_nat (length d) = max -> take (length d) (writeTrailer steps max (d ++ rest) r).1 = d.
Proof using.
  intros Hd. unfold writeTrailer. destruct (EncodeRuns r) as [p|]; cbn [fst]; [|apply take_app_length]. replace (Z.to_nat max) with (length d) by lia.
  assert (forall c data off, take (length d) c = d -> (length d <= off)%nat -> take (length d) (write_at c off data) = d) as Hw.
  { intros c data off Hc Ho. assert (length d <= length c)%nat by (rewrite <- Hc at 1; rewrite length_take; lia). unfold write_at.
    rewrite take_app_le by (rewrite length_take; lia). rewrite take_take. by replace (length d `min` off)%nat with (length d) by lia. }
  assert (forall c n, take (length d) c = d -> (length d <= n)%nat -> take (length d) (truncate c n) = d) as Ht.
  { intros c n Hc Ho. assert (length d <= length c)%nat by (rewrite <- Hc at 1; rewrite length_take; lia). unfold truncate.
    rewrite take_app_le by (rewrite length_take; lia). rewrite take_take. by replace (length d `min` n)%nat with (length d) by lia. }
  pose proof (take_app_length d rest). destruct (1 <=? steps)%nat, (2 <=? steps)%nat, (3 <=? steps)%nat; auto 6 with lia.
Qed.

(** Opening reads the trailer back. *)
Lemma pf_open_ok (d p : bytes) (a : RLE) (A : stored) : file_ok d p a A -> OpenPartialFile max (content d p) = Some (mkPartialFile max a).
Proof using Hmax.
  intros [Hd Hs Hb Hw _]. unfold OpenPartialFile. set (c := content d p). assert (length c = length d + length p + 4)%nat as Hl by (unfold c, content; rewrite !length_app, le_enc_length; lia).
  rewrite (proj2 (Z.ltb_ge _ _)), (proj2 (Z.eqb_neq _ _)) by lia. unfold read_trailer. rewrite (proj2 (Z.ltb_ge _ _)) by lia.
  assert (drop (length c - 4) c = le_enc 4 (Z.of_nat (length p))) as -> by (unfold c, content; rewrite app_assoc; apply drop_app_length'; rewrite !length_app, le_enc_length; lia).
  rewrite le_dec_enc by (change (256 ^ Z.of_nat 4) with (2 ^ 32); lia). rewrite (proj2 (Z.eqb_eq _ _)) by lia. cbn [negb]. rewrite (proj2 (Z.eqb_eq _ _)) by lia. cbn [negb].
  replace (Z.to_nat (Z.of_nat (length c) - 4 - Z.of_nat (length p))) with (length d) by lia. rewrite Nat2Z.id.
  replace (take _ (drop _ c)) with p by (unfold c, content; by rewrite drop_app_length, take_app_length).
  rewrite Hb. destruct (Fill_spec a Hw) as (f & Ef & Hf). rewrite Ef. assert (within f) as Hwf by (intros i Hi Hfi; apply Hf in Hfi as (j & Hj & Hbj); [specialize (Hw j ltac:(lia) Hbj); lia|done]).
  rewrite (Count_spec f Hwf). rewrite (proj2 (Z.ltb_ge _ _)); [done|]. pose proof (length_filter (fun i => bit f i = true) (seqZ 0 max)). rewrite length_seqZ in *. lia.
Qed.

(** ** Sessions *)

Inductive session := SStore (off : Z) (data : bytes) | SFree (off size : Z).

Definition session_in (s : session) : Prop :=
  match s with SStore off data => 0 <= off /\ off + Z.of_nat (length data) <= max | SFree off size => 0 <= off /\ 0 <= size /\ off + size <= max end.

(** Open, store or free, close; [None] when something fails. *)
Definition run_session (c : bytes) (s : session) : option bytes :=
  match OpenPartialFile max c with
  | None => None
  | Some pf =>
      match s with
      | SStore off data =>
          match Writer pf off (Z.of_nat (length data)) with
          | None => None
          | Some pos => let '(c', ok) := MarkAllocated 3 pf (write_at c (Z.to_nat pos) data) off (Z.of_nat (length data)) in if ok then Some c' else None
          end
      | SFree off size => let '(c', ok) := Free Deallocate 3 pf c off size in if ok then Some c' else None
      end
  end.
Fixpoint run_sessions (c : bytes) (l : list session) : option bytes :=
  match l with [] => Some c | s :: rest => match run_session c s with None => None | Some c' => run_sessions c' rest end end.

(** What a session means. *)
Definition apply_session (A : stored) (s : session) : stored :=
  match s with
  | SStore off data => fun i => if in_range off (Z.of_nat (length data)) i then data !! Z.to_nat (i - off) else A i
  | SFree off size => fun i => if in_range off size i then None else A i
  end.

Lemma in_range_spec (off size i : Z) : in_range off size i = true <-> off <= i < off + size.
Proof using. unfold in_range. rewrite andb_true_iff, Z.leb_le, Z.ltb_lt. done. Qed.

Lemma and_total (a : RLE) (off size : Z) : within a -> 0 <= off -> 0 <= size -> off + size <= max ->
  exists c, And a (PieceRun off size) = Some c /\ within c /\ forall i, 0 <= i -> bit c i = bit a i && in_range off size i.
Proof using.
  intros Ha Ho Hs Hm. destruct (And_spec a _ Ha (piece_within off size Ho Hs Hm)) as (c & Ec & Hc). exists c. split; [done|]. split.
  - intros i Hi. rewrite Hc by done. intros [Hai _]%andb_true_iff. by apply Ha.
  - intros i Hi. by rewrite Hc, piece_bit by done.
Qed.

Lemma write_at_app (d rest data : bytes) (off : nat) : (off + length data <= length d)%nat -> write_at (d ++ rest) off data = write_at d off data ++ rest.
Proof using. intros H. rewrite !write_at_inside by (rewrite ?length_app; lia). rewrite take_app_le, drop_app_le by lia. by rewrite <- !app_assoc. Qed.

Lemma store_session (d p : bytes) (a : RLE) (A : stored) (off : Z) (data : bytes) : file_ok d p a A -> session_in (SStore off data) ->
  exists d' p' a', run_session (content d p) (SStore off data) = Some (content d' p') /\ file_ok d' p' a' (apply_session A (SStore off data)).
Proof using Hmax.
  intros Hok [Ho Hm]. pose proof Hok as [Hd Hs Hb Hw Hv]. unfold run_session. rewrite (pf_open_ok d p a A Hok). unfold Writer. cbn [allocated maxPiece].
  destruct (and_total a off (Z.of_nat (length data)) Hw Ho ltac:(lia) Hm) as (u & Eu & Hu & _). rewrite Eu, (Count_spec u Hu).
  unfold MarkAllocated. cbn [allocated maxPiece]. destruct (Or_spec a _ Hw (piece_within off (Z.of_nat (length data)) Ho ltac:(lia) Hm)) as (o & Eo & Hor). rewrite Eo.
  assert (within o) as Hwo by (intros i Hi; rewrite Hor by done; intros [Hai|Hpi]%orb_true_iff; [by apply Hw|by apply (piece_within off (Z.of_nat (length data)) Ho ltac:(lia) Hm)]).
  unfold content at 1. rewrite write_at_app by lia. set (d' := write_at d (Z.to_nat off) data). assert (length d' = length d) as Hld by (unfold d'; rewrite write_at_length; lia).
  destruct (writeTrailer_ok d' (p ++ le_enc 4 (Z.of_nat (length p))) o ltac:(lia) Hwo) as (p' & b & Ew & Eb & Hl & Hwb & Hbit). rewrite Ew. exists d', p', b. split; [done|].
  constructor; [lia|done|done|done|]. intros i Hi. rewrite Hbit, Hor, piece_bit by lia. cbn [apply_session]. destruct (in_range off (Z.of_nat (length data)) i) eqn:Er.
  - apply in_range_spec in Er. rewrite orb_true_r. unfold d'. replace (Z.to_nat i) with (Z.to_nat off + Z.to_nat (i - off))%nat by lia. by rewrite write_at_data by lia.
  - rewrite orb_false_r, Hv by done. destruct (bit a i); [|done]. unfold d'. rewrite write_at_other; [done|lia|].
    destruct (decide (off <= i < off + Z.of_nat (length data))) as [Hin|]; [apply in_range_spec in Hin; congruence|lia].
Qed.

Lemma free_session (d p : bytes) (a : RLE) (A : stored) (off size : Z) : file_ok d p a A -> session_in (SFree off size) ->
  exists d' p' a', run_session (content d p) (SFree off size) = Some (content d' p') /\ file_ok d' p' a' (apply_session A (SFree off size)).
Proof using Hmax Deallocate_spec.
  intros Hok (Ho & Hsz & Hm). pose proof Hok as [Hd Hs Hb Hw Hv]. unfold run_session. rewrite (pf_open_ok d p a A Hok). unfold Free. cbn [allocated maxPiece].
  destruct (Deallocate_spec (content d p) off size Ho Hsz) as (c1 & Ec & Hl & Hc); [unfold content; rewrite !length_app; lia|]. rewrite Ec.
  destruct (Subtract_spec a _ Hw (piece_within off size Ho Hsz Hm)) as (o & Eo & Hsub). rewrite Eo.
  assert (within o) as Hwo by (intros i Hi; rewrite Hsub by done; intros [Hai _]%andb_true_iff; by apply Hw).
  assert (length d <= length c1)%nat as Hlc by (rewrite Hl; unfold content; rewrite length_app; lia). rewrite <- (take_drop (length d) c1). set (d' := take (length d) c1).
  assert (length d' = length d) as Hld by (unfold d'; rewrite length_take; lia).
  destruct (writeTrailer_ok d' (drop (length d) c1) o ltac:(lia) Hwo) as (p' & b & Ew & Eb & Hlp & Hwb & Hbit). rewrite Ew. exists d', p', b. split; [done|].
  constructor; [lia|done|done|done|]. intros i Hi. rewrite Hbit, Hsub, piece_bit by lia. cbn [apply_session]. destruct (in_range off size i) eqn:Er; [by rewrite andb_false_r|].
  rewrite andb_true_r, Hv by done. destruct (bit a i); [|done]. unfold d'. rewrite lookup_take_lt by lia. rewrite Hc.
  - unfold content. by rewrite lookup_app_l by lia.
  - destruct (decide (off <= i < off + size)) as [Hin|]; [apply in_range_spec in Hin; congruence|lia].
Qed.

Lemma sessions_ok (l : list session) (d p : bytes) (a : RLE) (A : stored) : file_ok d p a A -> Forall session_in l ->
  exists d' p' a', run_sessions (content d p) l = Some (content d' p') /\ file_ok d' p' a' (foldl apply_session A l).
Proof using Hmax Deallocate_spec.
  intros Hok Hl. revert d p a A Hok. induction Hl as [|s l Hs Hl IH]; intros d p a A Hok; [by exists d, p, a|]. cbn [run_sessions foldl].
  assert (exists d' p' a', run_session (content d p) s = Some (content d' p') /\ file_ok d' p' a' (apply_session A s)) as (d' & p' & a' & E & Hok')
    by (destruct s; [by eapply store_session|by eapply free_session]).
  rewrite E. by apply IH with (a := a').
Qed.
End Facts.

(** * Partial files against their specification

    From the creation of a file, through any sessions, to what can be read; two ways in
    which the record of what is there goes wrong; and a concrete file. *)

Section Spec.
Context (max : Z) (Hmax : 0 <= max < 2 ^ 62) `{Lib : !RLELib} `{!RLELaws max}.
Context (Deallocate : bytes -> Z -> Z -> option bytes).
Hypothesis Deallocate_spec : forall c off size, 0 <= off -> 0 <= size -> off + size <= Z.of_nat (length c) ->
  exists c', Deallocate c off size = Some c' /\ length c' = length c /\ forall i, (Z.of_nat i < off \/ off + size <= Z.of_nat i) -> c' !! i = c !! i.

(** ** Creation *)

Lemma write_at_padded (c p : bytes) (n : nat) : write_at c n p = write_at (c ++ replicate (n - length c) x00) n p.
Proof using.
  unfold write_at. rewrite length_app, length_replicate. replace (n - (length c + (n - length c)))%nat with 0%nat by lia. cbn [replicate app].
  destruct (decide (length c <= n)%nat) as [Hle|Hgt].
  - rewrite (take_ge c), (take_ge (c ++ _)) by (rewrite ?length_app, ?length_replicate; lia). rewrite !drop_ge by (rewrite ?length_app, ?length_replicate; lia). by rewrite <- app_assoc.
  - replace (n - length c)%nat with 0%nat by lia. cbn. by rewrite app_nil_r.
Qed.

Lemma writeTrailer_padded (c : bytes) (r : RLE) : within r -> writeTrailer 3 max c r = writeTrailer 3 max (c ++ replicate (Z.to_nat max - length c) x00) r.
Proof using. intros Hr. destruct (codec_spec r Hr) as (p & _ & E & _). unfold writeTrailer. rewrite E. cbn [Nat.leb]. by rewrite (write_at_padded c p). Qed.

Lemma create_ok (fa : falloc) (c : bytes) : fa <> FallocError ->
  exists d p a, CreatePartialFile fa 3 max c = (content d p, Some (mkPartialFile max a)) /\ file_ok max d p a (fun _ => None).
Proof using Hmax.
  intros Hfa. set (cp := c ++ replicate (Z.to_nat max - length c) x00).
  assert (within (RunSliceIterator [])) as Hw by (intros i Hi; by rewrite slice_bit by done).
  assert (length cp >= Z.to_nat max)%nat as Hlc by (unfold cp; rewrite length_app, length_replicate; lia).
  destruct (writeTrailer_ok max (take (Z.to_nat max) cp) (drop (Z.to_nat max) cp) _ ltac:(rewrite length_take; lia) Hw) as (p & b & Ew & Eb & Hl & Hwb & Hbit). rewrite take_drop in Ew.
  assert (file_ok max (take (Z.to_nat max) cp) p b (fun _ => None)) as Hok
    by (constructor; [rewrite length_take; lia|done|done|done|intros i Hi; by rewrite Hbit, slice_bit by (done || lia)]).
  exists (take (Z.to_nat max) cp), p, b. split; [|done]. destruct fa; [| |done]; cbn [CreatePartialFile].
  - fold cp. rewrite Ew. by rewrite (pf_open_ok max Hmax _ _ _ _ Hok).
  - rewrite writeTrailer_padded by done. fold cp. rewrite Ew. by rewrite (pf_open_ok max Hmax _ _ _ _ Hok).
Qed.

(** ** Reading *)

Lemma filter_full {X} (g : X -> bool) (l : list X) : length (filter (fun x => g x = true) l) = length l <-> Forall (fun x => g x = true) l.
Proof using.
  induction l as [|x l IH]; [split; [constructor|done]|]. rewrite filter_cons, Forall_cons. pose proof (length_filter (fun x => g x = true) l). destruct (decide (g x = true)); cbn [length]; [|split; [lia|by intros [? _]]].
  rewrite <- IH. split; [intros [= H']; done|intros [_ H']; by rewrite H'].
Qed.

Lemma piece_count (g : Z -> bool) (off size : Z) : 0 <= off -> 0 <= size -> off + size <= max -> (forall i, 0 <= i -> g i = true -> off <= i < off + size) ->
  Z.of_nat (length (filter (fun i => g i = true) (seqZ 0 max))) = size <-> forall i, off <= i < off + size -> g i = true.
Proof using.
  intros Ho Hs Hm Hg.
  assert (seqZ 0 max = seqZ 0 off ++ seqZ off size ++ seqZ (off + size) (max - (off + size))) as ->.
  { rewrite <- (seqZ_app off size (max - (off + size))) by lia. replace (size + (max - (off + size))) with (max - off) by lia.
    replace (seqZ off (max - off)) with (seqZ (0 + off) (max - off)) by done. rewrite <- (seqZ_app 0 off (max - off)) by lia. f_equal. lia. }
  assert (forall k n, 0 <= k -> (forall i, k <= i < k + n -> ~ (off <= i < off + size)) -> filter (fun i => g i = true) (seqZ k n) = []) as Hout.
  { intros k n Hk Hkn. apply elem_of_nil_inv. intros i. rewrite list_elem_of_filter, elem_of_seqZ. intros [Hr Hi]. apply (Hkn i Hi), Hg; [lia|done]. }
  rewrite !filter_app, (Hout 0 off), (Hout (off + size)) by lia. cbn [app]. rewrite app_nil_r. split.
  - intros Hl i Hi. assert (Forall (fun i => g i = true) (seqZ off size)) as Hall by (apply (filter_full g); rewrite length_seqZ; lia). rewrite Forall_forall in Hall.
    apply Hall, elem_of_seqZ. lia.
  - intros Hall. rewrite (proj2 (filter_full g _)); [rewrite length_seqZ; lia|]. apply Forall_forall. intros i [Hi1 Hi2]%elem_of_seqZ. by apply Hall.
Qed.

Context (Padded : Z -> Z).

(** What a handle says of a range, and what it reads. *)
Lemma reads_ok (d p : bytes) (a : RLE) (A : stored) (off size : Z) : file_ok max d p a A -> 0 <= Padded off -> 0 <= Padded size -> Padded off + Padded size <= max ->
  exists b bs, HasAllocated Padded (mkPartialFile max a) off size = Some b /\ Reader (mkPartialFile max a) (content d p) (Padded off) (Padded size) = Some bs /\
    Z.of_nat (length bs) = Padded size /\ (b = true <-> forall i, Padded off <= i < Padded off + Padded size -> is_Some (A i)) /\
    (b = true -> forall k : nat, (k < length bs)%nat -> A (Padded off + Z.of_nat k) = bs !! k).
Proof using.
  intros [Hd Hs Hb Hw Hv] Ho Hz Hm. set (o := Padded off) in *. set (z := Padded size) in *.
  destruct (and_total max a o z Hw Ho Hz Hm) as (u & Eu & Hu & Hbit). unfold HasAllocated, Reader. cbn [allocated]. fold o z. rewrite Eu, (Count_spec u Hu).
  assert (take (Z.to_nat z) (drop (Z.to_nat o) (content d p)) = take (Z.to_nat z) (drop (Z.to_nat o) d)) as -> by (unfold content; rewrite drop_app_le by lia; apply take_app_le; rewrite length_drop; lia).
  assert (Z.of_nat (length (filter (fun i => bit u i = true) (seqZ 0 max))) = z <-> forall i, o <= i < o + z -> is_Some (A i)) as Hcount.
  { rewrite (piece_count (bit u) o z Ho Hz Hm) by (intros i Hi; rewrite Hbit by done; intros [_ ?%in_range_spec]%andb_true_iff; done).
    apply forall_proper. intros i. split; intros H Hi; specialize (H Hi).
    - rewrite Hbit in H by lia. apply andb_true_iff in H as [H _]. rewrite Hv, H by lia. apply lookup_lt_is_Some. lia.
    - rewrite Hv in H by lia. destruct (bit a i) eqn:E; [|by destruct H]. rewrite Hbit, E by lia. by apply in_range_spec. }
  eexists _, _. split; [done|]. split; [done|]. rewrite length_take, length_drop. split; [lia|]. rewrite Z.eqb_eq. split; [done|].
  intros Hall k Hk. rewrite Hcount in Hall. specialize (Hall (o + Z.of_nat k) ltac:(lia)). rewrite Hv in Hall |- * by lia. destruct (bit a (o + Z.of_nat k)); [|by destruct Hall].
  rewrite lookup_take_lt, lookup_drop by lia. f_equal. lia.
Qed.

(** C14: a partial file is the map of the bytes stored in it: after it was created, and any
    sessions of which each opens it, stores or frees one range inside of the sector and
    closes it, it opens again; a range is reported as there exactly when every byte of it
    was stored and not freed since, and then reading it gives the bytes that were stored
    last.  None of this fails when the file system works. *)
Theorem partial_file_refines (fa : falloc) (c0 : bytes) (l : list session) : fa <> FallocError -> Forall (session_in max) l ->
  exists c pf c' pf', CreatePartialFile fa 3 max c0 = (c, Some pf) /\ run_sessions max Deallocate c l = Some c' /\ OpenPartialFile max c' = Some pf' /\
    forall off size, 0 <= Padded off -> 0 <= Padded size -> Padded off + Padded size <= max ->
      exists b bs, HasAllocated Padded pf' off size = Some b /\ Reader pf' c' (Padded off) (Padded size) = Some bs /\ Z.of_nat (length bs) = Padded size /\
        (b = true <-> forall i, Padded off <= i < Padded off + Padded size -> is_Some (foldl apply_session (fun _ => None) l i)) /\
        (b = true -> forall k : nat, (k < length bs)%nat -> foldl apply_session (fun _ => None) l (Padded off + Z.of_nat k) = bs !! k).
Proof.
  intros Hfa Hl. destruct (create_ok fa c0 Hfa) as (d & p & a & Ec & Hok). destruct (sessions_ok max Hmax Deallocate Deallocate_spec l d p a _ Hok Hl) as (d' & p' & a' & Er & Hok').
  exists (content d p), (mkPartialFile max a), (content d' p'), (mkPartialFile max a'). split; [done|]. split; [done|]. split; [by eapply pf_open_ok|]. intros off size Ho Hz Hm. by eapply reads_ok.
Qed.

(** ** Where the record goes wrong *)

(** A handle does not see its own changes: of two ranges that are marked through one handle
    only the second is there afterwards. *)
Lemma second_mark_forgets (d p : bytes) (a : RLE) (A : stored) (o1 s1 o2 s2 : Z) : file_ok max d p a A -> session_in max (SFree o1 s1) -> session_in max (SFree o2 s2) ->
  exists c1 c2 a2, MarkAllocated 3 (mkPartialFile max a) (content d p) o1 s1 = (c1, true) /\ MarkAllocated 3 (mkPartialFile max a) c1 o2 s2 = (c2, true) /\
    OpenPartialFile max c2 = Some (mkPartialFile max a2) /\ forall i, 0 <= i -> bit a2 i = bit a i || in_range o2 s2 i.
Proof using Hmax.
  intros [Hd Hs Hb Hw Hv] (Ho1 & Hs1 & Hm1) (Ho2 & Hs2 & Hm2).
  assert (forall o s rest, 0 <= o -> 0 <= s -> o + s <= max -> exists p' b, MarkAllocated 3 (mkPartialFile max a) (d ++ rest) o s = (content d p', true) /\ FromBuf p' = Some b /\
    Z.of_nat (length p') < 2 ^ 32 /\ within b /\ forall i, 0 <= i -> bit b i = bit a i || in_range o s i) as Hmark.
  { intros o s rest Ho Hz Hm. unfold MarkAllocated. cbn [allocated maxPiece]. destruct (Or_spec a _ Hw (piece_within max o s Ho Hz Hm)) as (r & Er & Hr). rewrite Er.
    assert (within r) as Hwr by (intros i Hi; rewrite Hr by done; intros [?|?]%orb_true_iff; [by apply Hw|by apply (piece_within max o s Ho Hz Hm)]).
    destruct (writeTrailer_ok max d rest r Hd Hwr) as (p' & b & Ew & Eb & Hl & Hwb & Hbit). exists p', b. split; [done|]. split; [done|]. split; [done|]. split; [done|]. intros i Hi. by rewrite Hbit, Hr, piece_bit. }
  destruct (Hmark o1 s1 (p ++ le_enc 4 (Z.of_nat (length p))) Ho1 Hs1 Hm1) as (p1 & b1 & E1 & _). destruct (Hmark o2 s2 (p1 ++ le_enc 4 (Z.of_nat (length p1))) Ho2 Hs2 Hm2) as (p2 & b2 & E2 & Eb2 & Hl2 & Hw2 & Hbit2).
  exists (content d p1), (content d p2), b2. split; [exact E1|]. split; [exact E2|]. split; [|done]. eapply (pf_open_ok max Hmax d p2 b2). by constructor.
Qed.

(** When the creation of a file stops before its trailer is written, the file is taken to hold
    the whole sector, which is zeros. *)
Lemma create_interrupted : 0 < max -> exists pf, CreatePartialFile FallocDone 0 max [] = (replicate (Z.to_nat max) x00, None) /\
  OpenPartialFile max (replicate (Z.to_nat max) x00) = Some pf /\ forall i, 0 <= i < max -> bit (allocated pf) i = true.
Proof using Hmax.
  intros Hpos. assert (within (RunSliceIterator [])) as Hw by (intros i Hi; by rewrite slice_bit by done). destruct (codec_spec _ Hw) as (p & _ & E & _).
  assert (forall i, 0 <= i -> bit (RunSliceIterator [mkRun true max]) i = (i <? max)) as Hfull by (intros i Hi; rewrite slice_bit by (done || (repeat constructor; cbn; lia)); cbn; by destruct (i <? max)).
  assert (within (RunSliceIterator [mkRun true max])) as Hwf by (intros i Hi; rewrite Hfull by done; lia). destruct (codec_spec _ Hwf) as (q & b & Eq & Eb & _ & Hb).
  exists (mkPartialFile max b). split; [|split].
  - unfold CreatePartialFile, writeTrailer. rewrite E. cbn. by rewrite Nat.sub_0_r.
  - unfold OpenPartialFile. rewrite length_replicate, Z2Nat.id, Z.ltb_irrefl, Z.eqb_refl by lia. by rewrite Eq, Eb.
  - intros i Hi. cbn [allocated]. rewrite Hb, Hfull by lia. lia.
Qed.
End Spec.

(** ** A concrete file: a sector of 256 bytes, with sets as bit masks *)

Fixpoint mask (runs : list Run) : N :=
  match runs with [] => 0%N | r :: rest => N.lor (N.shiftl (mask rest) (Z.to_N (Len r))) (if Val r then N.ones (Z.to_N (Len r)) else 0%N) end.

#[local] Instance MaskLib : RLELib := {|
  RLE := N; RunSliceIterator := mask; EncodeRuns a := Some (le_enc 32 (Z.of_N a)); FromBuf p := Some (Z.to_N (le_dec p));
  Or a b := Some (N.lor a b); And a b := Some (N.land a b); Subtract a b := Some (N.ldiff a b); Fill a := Some (N.ones (N.size a));
  Count a := Some (Z.of_nat (length (filter (fun i => N.testbit a (Z.to_N i) = true) (seqZ 0 256)))) |}.

Lemma mask_bit (runs : list Run) (i : Z) : Forall (fun r => 0 <= Len r) runs -> 0 <= i -> N.testbit (mask runs) (Z.to_N i) = run_bit runs i.
Proof.
  intros Hr. revert i. induction Hr as [|r runs Hl Hr IH]; intros i Hi; cbn [mask run_bit]; [apply N.bits_0|]. rewrite N.lor_spec. destruct (Z.ltb_spec i (Len r)) as [Hlt|Hge].
  - rewrite N.shiftl_spec_low by lia. destruct (Val r); [apply N.ones_spec_low; lia|apply N.bits_0].
  - rewrite N.shiftl_spec_high' by lia. replace (Z.to_N i - Z.to_N (Len r))%N with (Z.to_N (i - Len r)) by lia. rewrite IH by lia.
    destruct (Val r); [rewrite N.ones_spec_high by lia|rewrite N.bits_0]; by rewrite orb_false_r.
Qed.

Lemma mask_small (a : N) : (forall i, 0 <= i -> N.testbit a (Z.to_N i) = true -> i < 256) -> (a < 2 ^ 256)%N.
Proof.
  intros H. destruct (N.eq_dec a 0) as [->|Hne]; [done|]. apply N.log2_lt_pow2; [lia|]. specialize (H (Z.of_N (N.log2 a)) ltac:(lia)). rewrite N2Z.id in H. specialize (H (N.bit_log2 a Hne)). lia.
Qed.

#[local] Instance MaskLaws : RLELaws 256.
Proof.
  refine {| bit := fun (a : @RLE MaskLib) i => N.testbit a (Z.to_N i) |}.
  - apply mask_bit.
  - intros a b _ _. eexists. split; [reflexivity|]. intros i _. apply N.lor_spec.
  - intros a b _ _. eexists. split; [reflexivity|]. intros i _. apply N.land_spec.
  - intros a b _ _. eexists. split; [reflexivity|]. intros i _. apply N.ldiff_spec.
  - intros a _. eexists. split; [reflexivity|]. intros i Hi. destruct (N.eq_dec a 0) as [->|Hne].
    + split; [by rewrite N.bits_0|by intros (j & _ & Hj); rewrite N.bits_0 in Hj].
    + assert (N.size a = N.succ (N.log2 a)) as -> by (by apply N.size_log2). split.
      * intros Hb. exists (Z.of_N (N.log2 a)). rewrite N2Z.id. split; [|by apply N.bit_log2]. destruct (N.le_gt_cases (N.succ (N.log2 a)) (Z.to_N i)) as [Hle|]; [by rewrite N.ones_spec_high in Hb|lia].
      * intros (j & Hj & Hb). apply N.ones_spec_low. destruct (N.le_gt_cases (N.succ (N.log2 a)) (Z.to_N i)) as [Hle|]; [|done]. rewrite N.bits_above_log2 in Hb by lia. done.
  - intros a _. reflexivity.
  - intros a Hw. apply mask_small in Hw. exists (le_enc 32 (Z.of_N a)), a. split; [reflexivity|]. split; [|split; [done|done]]. cbn [FromBuf MaskLib]. rewrite le_dec_enc; [by rewrite N2Z.id|].
    change (256 ^ Z.of_nat 32) with (Z.of_N (2 ^ 256)). lia.
Defined.

Definition zero_range (c : bytes) (off size : Z) : option bytes := Some (write_at c (Z.to_nat off) (replicate (Z.to_nat size) x00)).

Lemma zero_range_spec c off size : 0 <= off -> 0 <= size -> off + size <= Z.of_nat (length c) ->
  exists c', zero_range c off size = Some c' /\ length c' = length c /\ forall i, (Z.of_nat i < off \/ off + size <= Z.of_nat i) -> c' !! i = c !! i.
Proof.
  intros Ho Hs Hl. eexists. split; [done|]. split; [rewrite write_at_length, length_replicate; lia|]. intros i Hi. destruct (decide (i < length c)%nat).
  - apply write_at_other; [done|]. rewrite length_replicate. lia.
  - rewrite !lookup_ge_None_2; [done|lia|rewrite write_at_length, length_replicate; lia].
Qed.

Definition demo_sessions : list session := [SStore 0 (replicate 128 x07); SStore 128 (replicate 128 x09); SFree 0 128].
Definition demo_padded (i : Z) : Z := i + i / 127.

Definition demo_start : bytes := fst (CreatePartialFile FallocUnsupported 3 256 []).
Definition demo_end : bytes := match run_sessions 256 zero_range demo_start demo_sessions with Some c => c | None => [] end.
Definition demo_ask {A} (f : PartialFile -> option A) : option A := match OpenPartialFile 256 demo_end with Some q => f q | None => None end.

Lemma partial_file_refines_witness : exists c' pf', match CreatePartialFile FallocUnsupported 3 256 [] with (c, _) => run_sessions 256 zero_range c demo_sessions = Some c' end /\
  OpenPartialFile 256 c' = Some pf' /\ HasAllocated demo_padded pf' 127 127 = Some true /\ HasAllocated demo_padded pf' 0 127 = Some false /\ Reader pf' c' 128 128 = Some (replicate 128 x09).
Proof.
  assert (0 <= 256 < 2 ^ 62) as Hmax by lia. assert (FallocUnsupported <> FallocError) as Hfa by discriminate.
  assert (Forall (session_in 256) demo_sessions) as Hs by (repeat constructor; cbn; lia).
  destruct (partial_file_refines 256 Hmax zero_range zero_range_spec demo_padded FallocUnsupported [] demo_sessions Hfa Hs) as (c & pf & c' & pf' & Ec & Er & Eo & _).
  assert (c = demo_start) as -> by (unfold demo_start; rewrite Ec; reflexivity). assert (c' = demo_end) as -> by (unfold demo_end; rewrite Er; reflexivity).
  exists demo_end, pf'. split; [rewrite Ec; exact Er|]. split; [exact Eo|].
  assert (demo_ask (fun q => HasAllocated demo_padded q 127 127) = Some true) as H1 by (vm_compute; reflexivity).
  assert (demo_ask (fun q => HasAllocated demo_padded q 0 127) = Some false) as H2 by (vm_compute; reflexivity).
  assert (demo_ask (fun q => Reader q demo_end 128 128) = Some (replicate 128 x09)) as H3 by (vm_compute; reflexivity).
  unfold demo_ask in H1, H2, H3. rewrite Eo in H1, H2, H3. split; [exact H1|]. split; [exact H2|exact H3].
Defined.
