(* ===== verification/SnapPipeline.v ===== *)
(** * Snap deals

    [tasks/snap]: the update of a sector without data to one with data.  A row of
    [sectors_snap_pipeline] goes through encoding, proving, the submission of a
    message and its confirmation; storage is moved beside it.  [AllocationCheck] is in
    [tasks/seal/task_submit_commit.go], the clean-up of finished rows in
    [tasks/gc/pipeline_meta_gc.go], the removal by hand in
    [web/api/webrpcporep/upgrade.go].  A column pair [task_id_X], [after_X] is the pair of
    functions [sn_task], [sn_after] at the stage [X]. *)

From stdpp Require Import base gmap sets list strings sorting.
From Stdlib Require Import ZArith Lia.
From S2P Require Import Prelude GoStd SealPipeline DealData ParkPiece.

Inductive snap_stage := Encode | Prove | Submit | Move.
#[export] Instance snap_stage_eq_dec : EqDecision snap_stage.
Proof. solve_decision. Defined.

(** ** The tables *)

Abbreviation sector_key := (Z * Z)%type.

Record snap_row := mkSnap {
  sn_upgrade : Z; sn_start : time; sn_assigned : bool; sn_unsealed : option string; sn_sealed : option string; sn_proof : option string;
  sn_task : snap_stage -> option Z; sn_after : snap_stage -> bool; sn_ready : option time;
  sn_msg : option string; sn_ok : bool; sn_msg_tsk : option string; sn_failed : option string; sn_submit_after : option time
}.
Record meta_row := mkMeta {
  sm_reg_proof : Z; sm_orig_sealed : string; sm_cur_sealed : string; sm_cur_unsealed : string; sm_msg_update : option string; sm_has_key : bool; sm_deadline : option Z }.
Record snap_piece := mkSnapPiece { ip_cid : string; ip_size : Z; ip_url : string; ip_raw : Z; ip_delete : bool; ip_start : option Z; ip_end : option Z; ip_pam : option string }.
Record meta_piece := mkMetaPiece { mp_cid : string; mp_size : Z; mp_keep : bool; mp_raw : Z; mp_start : option Z; mp_end : option Z; mp_pam : option string }.
Record deal_row := mkDealRow { dr_sector : sector_key; dr_sealed : bool; dr_indexing : option time }.

(** The exit codes the code tells apart, and the columns of an executed message. *)
Inductive exitcode := ExitOk | SysErrInsufficientFunds | ErrInsufficientFunds | SysErrOutOfGas | ErrIllegalArgument | ErrNotFound | OtherExit (n : Z).
Record exec_result := mkExec { ex_tsk : string; ex_code : exitcode }.

Record snap_db := mkSnapDb {
  snaps : gmap sector_key snap_row; metas : gmap sector_key meta_row;
  snap_pieces : gmap (sector_key * Z) snap_piece; meta_pieces : gmap (sector_key * Z) meta_piece;
  msg_waits : gmap string (option exec_result); mk12_deals : gmap Z deal_row; mk20_deals : gmap Z deal_row; snap_park : park_db
}.

Definition with_snaps (t : gmap sector_key snap_row) (d : snap_db) : snap_db :=
  mkSnapDb t (metas d) (snap_pieces d) (meta_pieces d) (msg_waits d) (mk12_deals d) (mk20_deals d) (snap_park d).

(** [UPDATE ... WHERE c] *)
Definition update_where (c : sector_key -> snap_row -> bool) (f : snap_row -> snap_row) (t : gmap sector_key snap_row) : gmap sector_key snap_row :=
  map_imap (fun k r => Some (if c k r then f r else r)) t.

(** ** Columns *)

Definition set_snap_stage (st : snap_stage) (task : option Z) (after : bool) (r : snap_row) : snap_row :=
  mkSnap (sn_upgrade r) (sn_start r) (sn_assigned r) (sn_unsealed r) (sn_sealed r) (sn_proof r)
    (fun s => if decide (s = st) then task else sn_task r s) (fun s => if decide (s = st) then after else sn_after r s)
    (sn_ready r) (sn_msg r) (sn_ok r) (sn_msg_tsk r) (sn_failed r) (sn_submit_after r).

Definition set_snap_task (st : snap_stage) (id : Z) (r : snap_row) : snap_row := set_snap_stage st (Some id) (sn_after r st) r.

Definition set_encoded (unsealed sealed : string) (r : snap_row) : snap_row :=
  set_snap_stage Encode None true
    (mkSnap (sn_upgrade r) (sn_start r) (sn_assigned r) (Some unsealed) (Some sealed) (sn_proof r) (sn_task r) (sn_after r) (sn_ready r) (sn_msg r) (sn_ok r) (sn_msg_tsk r) (sn_failed r) (sn_submit_after r)).

(** With the trigger [set_update_ready_at]. *)
Definition set_proved (now : time) (proof : string) (r : snap_row) : snap_row :=
  set_snap_stage Prove None true
    (mkSnap (sn_upgrade r) (sn_start r) (sn_assigned r) (sn_unsealed r) (sn_sealed r) (Some proof) (sn_task r) (sn_after r)
      (if sn_after r Prove then sn_ready r else Some now) (sn_msg r) (sn_ok r) (sn_msg_tsk r) (sn_failed r) (sn_submit_after r)).

Definition set_snap_failed (reason : string) (r : snap_row) : snap_row :=
  set_snap_stage Submit None false
    (mkSnap (sn_upgrade r) (sn_start r) (sn_assigned r) (sn_unsealed r) (sn_sealed r) (sn_proof r) (sn_task r) (sn_after r) (sn_ready r) (sn_msg r) (sn_ok r) (sn_msg_tsk r) (Some reason) (sn_submit_after r)).

Definition set_submit_after (t : option time) (r : snap_row) : snap_row :=
  mkSnap (sn_upgrade r) (sn_start r) (sn_assigned r) (sn_unsealed r) (sn_sealed r) (sn_proof r) (sn_task r) (sn_after r) (sn_ready r) (sn_msg r) (sn_ok r) (sn_msg_tsk r) (sn_failed r) t.

Definition set_msg (cid : string) (r : snap_row) : snap_row :=
  set_snap_stage Submit None true
    (mkSnap (sn_upgrade r) (sn_start r) (sn_assigned r) (sn_unsealed r) (sn_sealed r) (sn_proof r) (sn_task r) (sn_after r) (sn_ready r) (Some cid) (sn_ok r) (sn_msg_tsk r) (sn_failed r) (sn_submit_after r)).

Definition set_landed (tsk : string) (r : snap_row) : snap_row :=
  mkSnap (sn_upgrade r) (sn_start r) (sn_assigned r) (sn_unsealed r) (sn_sealed r) (sn_proof r) (sn_task r) (sn_after r) (sn_ready r) (sn_msg r) true (Some tsk) (sn_failed r) (sn_submit_after r).

(** [INSERT INTO sectors_snap_pipeline (sp_id, sector_number, upgrade_proof)], with its defaults. *)
Definition new_snap (upgrade : Z) (now : time) : snap_row :=
  mkSnap upgrade now true None None None (fun _ => None) (fun _ => false) None None false None None None.

Section Snap.
Context `{!Enum}.

(** ** Giving tasks to rows *)

Definition encode_ready (r : snap_row) : bool := sn_assigned r && negb (sn_after r Encode) && is_null (sn_task r Encode).
Definition prove_ready (r : snap_row) : bool := sn_after r Encode && negb (sn_after r Prove) && is_null (sn_task r Prove).
Definition move_ready (r : snap_row) : bool := sn_after r Encode && negb (sn_after r Move) && is_null (sn_task r Move).

Definition ready_rows (ready : snap_row -> bool) (d : snap_db) : list (sector_key * snap_row) :=
  enum (List.filter (fun kr => ready kr.2) (map_to_list (snaps d))).

(** The transaction of [EncodeTask.schedule] and [ProveTask.schedule]: [pick] is the random
    choice; [None] is no row. *)
Definition add_random (st : snap_stage) (ready : snap_row -> bool) (id : Z) (pick : nat) (d : snap_db) : option snap_db :=
  match ready_rows ready d with
  | [] => None
  | tasks => match tasks !! (pick mod length tasks)%nat with Some (k, _) => Some (with_snaps (alter (set_snap_task st id) k (snaps d)) d) | None => None end
  end.

(** The oldest of the rows; of several, the first that the query gives. *)
Fixpoint oldest_row (l : list (sector_key * snap_row)) : option (sector_key * snap_row) :=
  match l with
  | [] => None
  | x :: rest => match oldest_row rest with Some y => if sn_start y.2 <? sn_start x.2 then Some y else Some x | None => Some x end
  end.

Definition add_move (id : Z) (pick : nat) (d : snap_db) : option snap_db :=
  match oldest_row (ready_rows move_ready d) with
  | None => None
  | Some (k, _) => Some (with_snaps (update_where (fun k' r => bool_decide (k' = k) && move_ready r) (set_snap_task Move id) (snaps d)) d)
  end.

(** The loop of the three [schedule]s: every round asks for a task id, makes its choice and
    commits or not; the flag says that the loop has ended. *)
Fixpoint schedule_loop (add : Z -> nat -> snap_db -> option snap_db) (rounds : list (Z * nat * bool)) (d : snap_db) : snap_db * bool :=
  match rounds with
  | [] => (d, false)
  | (id, pick, commit) :: rest =>
      match add id pick d with
      | None => (d, true)
      | Some d' => schedule_loop add rest (if commit then d' else d)
      end
  end.

Definition encode_add : Z -> nat -> snap_db -> option snap_db := add_random Encode encode_ready.
Definition prove_add : Z -> nat -> snap_db -> option snap_db := add_random Prove prove_ready.

(** ** Running the tasks of one sector *)

(** The row of a task, joined with its [sectors_meta]; there must be one. *)
Definition task_rows (st : snap_stage) (id : Z) (d : snap_db) : list (sector_key * (snap_row * meta_row)) :=
  enum (omap (fun kr => if bool_decide (sn_task kr.2 st = Some id) then (fun m => (kr.1, (kr.2, m))) <$> metas d !! kr.1 else None) (map_to_list (snaps d))).
Definition task_sector (st : snap_stage) (id : Z) (d : snap_db) : option sector_key := match task_rows st id d with [(k, _)] => Some k | _ => None end.

Context (url_Parse : string -> option (string * string)).

(** [DropSectorPieceRefsSnap]; errors are logged. *)
Definition drop_ref (p : snap_piece) (park : park_db) : park_db :=
  match url_Parse (ip_url p) with
  | Some (scheme, opaque) => if bool_decide (scheme = "pieceref"%string) then match ParseInt opaque with Some ref => delete_ref ref park | None => park end else park
  | None => park
  end.
Definition sector_pieces (k : sector_key) (d : snap_db) : list ((sector_key * Z) * snap_piece) := List.filter (fun kp => bool_decide (kp.1.1 = k)) (map_to_list (snap_pieces d)).
Definition DropSectorPieceRefsSnap (k : sector_key) (d : snap_db) : snap_db :=
  mkSnapDb (snaps d) (metas d) (snap_pieces d) (meta_pieces d) (msg_waits d) (mk12_deals d) (mk20_deals d)
    (foldl (fun park kp => drop_ref kp.2 park) (snap_park d) (enum (sector_pieces k d))).

(** The end of [EncodeTask.Do], after the encoder returned. *)
Definition encode_finish (k : sector_key) (commD unsealed sealed : string) (d : snap_db) : snap_db * bool :=
  if negb (bool_decide (commD = unsealed)) then (d, false)
  else (DropSectorPieceRefsSnap k (with_snaps (alter (set_encoded unsealed sealed) k (snaps d)) d), true).

(** [ProveTask.Do]: what is proved, and its end. *)
Definition prove_inputs (id : Z) (d : snap_db) : option (sector_key * string * string * string) :=
  match task_rows Prove id d with
  | [(k, (r, m))] => match sn_sealed r, sn_unsealed r with Some s, Some u => Some (k, sm_orig_sealed m, s, u) | _, _ => None end
  | _ => None
  end.
Definition prove_finish (id : Z) (now : time) (proof : string) (d : snap_db) : snap_db :=
  with_snaps (update_where (fun _ r => bool_decide (sn_task r Prove = Some id)) (set_proved now proof) (snaps d)) d.

(** [MoveStorageTask.Do], after the files were moved. *)
Definition mark_indexing (k : sector_key) (now : time) (t : gmap Z deal_row) : gmap Z deal_row :=
  (fun r => if bool_decide (dr_sector r = k) then mkDealRow (dr_sector r) (dr_sealed r) (Some now) else r) <$> t.
Definition move_finish (id : Z) (k : sector_key) (now : time) (d : snap_db) : snap_db :=
  mkSnapDb (update_where (fun _ r => bool_decide (sn_task r Move = Some id)) (set_snap_stage Move None true) (snaps d)) (metas d) (snap_pieces d) (meta_pieces d) (msg_waits d)
    (mark_indexing k now (mk12_deals d)) (mark_indexing k now (mk20_deals d)) (snap_park d).

(** ** [EncodeTask.CanAccept] with [bindToData] *)

(** The storage of a parked piece, if the index has one. *)
Context (piece_location : Z -> option string).

(** The loop over the URLs of a sector: the storage that was found, and whether there was a
    reference to a parked piece. *)
Fixpoint piece_storage (urls : list string) (park : park_db) : option string * bool :=
  match urls with
  | [] => (None, false)
  | u :: rest =>
      match (if bool_decide (u = ""%string) then None else url_Parse u) with
      | Some (scheme, opaque) =>
          if bool_decide (scheme = "pieceref"%string) then
            match (match ParseInt opaque with Some ref => match parked_piece_refs park !! ref with Some r => piece_location (ref_piece_id r) | None => None end | None => None end) with
            | Some loc => if bool_decide (loc = ""%string) then (fst (piece_storage rest park), true) else (Some loc, true)
            | None => (fst (piece_storage rest park), true)
            end
          else piece_storage rest park
      | None => piece_storage rest park
      end
  end.

Definition encode_CanAccept (bindToData : bool) (ids : list Z) (local : list string) (d : snap_db) : list Z :=
  if negb bindToData then ids
  else
    let tasks := enum (omap (fun kr => match sn_task kr.2 Encode with Some id => if bool_decide (id ∈ ids) then Some (id, piece_storage ((fun kp => ip_url kp.2) <$> enum (sector_pieces kr.1 d)) (snap_park d)) else None | None => None end) (map_to_list (snaps d))) in
    omap (fun t : Z * (option string * bool) => match t.2.1 with Some loc => if bool_decide (loc ∈ local) then Some t.1 else None | None => None end) tasks ++
    omap (fun t : Z * (option string * bool) => if t.2.2 then None else Some t.1) tasks.

(** ** Submitting *)

(** What the chain says of a sector, of an allocation and of the fees. *)
Record onchain := mkOnchain { oc_seal_proof : Z; oc_key : option string; oc_sealed : string; oc_expiration : Z; oc_pledge : Z }.
Record allocation := mkAllocation { al_provider : Z; al_size : Z; al_term_min : Z; al_term_max : Z }.
Record manifest := mkManifest { pm_cid : string; pm_size : Z; pm_key : option (Z * Z) }.

(** The answers of the node in one run; [None] is an error.  [se_deadline] is the next
    deadline of a sector that has not elapsed: its opening, its closing, and the challenge
    window. *)
Record submit_env := mkSubmitEnv {
  se_height : Z; se_timestamp : Z;
  se_info : sector_key -> option (option onchain); se_location : sector_key -> option (Z * Z); se_deadline : Z -> option (Z * Z * Z);
  se_alloc : Z * Z -> option (option allocation); se_pam : option string -> option manifest; se_cid_ok : string -> bool;
  se_size : Z -> option Z; se_pledge : Z -> Z -> Z -> option Z; se_balance : option Z
}.

(** The time between epochs, in seconds. *)
Context (BlockDelaySecs : Z).

Definition ImmutableSubmitGate : Z := 2.

(** [curiochain.EpochTime] *)
Definition EpochTime (env : submit_env) (e : Z) : time := (se_timestamp env + BlockDelaySecs * (e - se_height env)) * Second.

Inductive alloc_check := AllocOk | AllocRetry | AllocPermanent.

Definition AllocationCheck (env : submit_env) (pam : manifest) (expiration miner : Z) : alloc_check :=
  match pm_key pam with
  | None => AllocOk
  | Some key =>
      match se_alloc env key with
      | None => AllocRetry
      | Some None => AllocPermanent
      | Some (Some alloc) =>
          if negb (al_provider alloc =? miner) then AllocPermanent
          else if negb (al_size alloc =? pm_size pam) then AllocPermanent
          else if expiration <? se_height env + al_term_min alloc then AllocPermanent
          else if se_height env + al_term_max alloc <? expiration then AllocPermanent
          else AllocOk
      end
  end.

(** A row as it was read for the task. *)
Record update_task := mkUpdateTask { ut_key : sector_key; ut_upgrade : Z; ut_reg_proof : Z; ut_sealed : string; ut_unsealed : string; ut_proof : option string }.

(** The join; a NULL that has no place in the struct is an error. *)
Definition update_tasks (id : Z) (d : snap_db) : option (list update_task) :=
  mapM (fun x : sector_key * (snap_row * meta_row) => match sn_sealed x.2.1, sn_unsealed x.2.1, sm_deadline x.2.2 with
                 | Some s, Some u, Some _ => Some (mkUpdateTask x.1 (sn_upgrade x.2.1) (sm_reg_proof x.2.2) s u (sn_proof x.2.1))
                 | _, _, _ => None end) (task_rows Submit id d).

(** [SectorUpdateManifest] with its proof. *)
Record sector_update := mkUpdate { su_sector : Z; su_deadline : Z; su_partition : Z; su_sealed : string; su_pieces : list manifest; su_proof : option string }.
Record update_msg := mkMsg { um_miner : Z; um_proof_type : Z; um_updates : list sector_update; um_value : Z }.

(** The pieces of a sector in the order of their index; the start epoch must not be NULL. *)
Definition piece_le (a b : (sector_key * Z) * snap_piece) : Prop := a.1.2 <= b.1.2.
#[export] Instance piece_le_dec : RelDecision piece_le := fun a b => Z_le_dec a.1.2 b.1.2.
Definition ordered_pieces (k : sector_key) (d : snap_db) : list snap_piece :=
  (merge_sort piece_le (sector_pieces k d)).*2.

(** The loop over the pieces: the manifests and the verified size. *)
Inductive pieces_result := PiecesOk (pams : list manifest) (verified : Z) | PiecesRetry | PiecesPermanent | PiecesError.
Fixpoint check_pieces (env : submit_env) (expiration miner : Z) (ps : list snap_piece) (pams : list manifest) (verified : Z) : pieces_result :=
  match ps with
  | [] => PiecesOk pams verified
  | p :: rest =>
      match se_pam env (ip_pam p) with
      | None => PiecesError
      | Some pam =>
          match AllocationCheck env pam expiration miner with
          | AllocPermanent => PiecesPermanent
          | AllocRetry => PiecesRetry
          | AllocOk => check_pieces env expiration miner rest (pams ++ [pam]) (match pm_key pam with Some _ => i64 (verified + ip_size p) | None => verified end)
          end
      end
  end.

(** One sector of the batch. *)
Inductive sector_result :=
| Added (u : sector_update) (collateral : Z)
| Skipped (d : snap_db)
| Stopped (d : snap_db) (finished : bool).

Definition in_unsafe_window (env : submit_env) (dl : Z * Z * Z) : bool :=
  let '(open, close, window) := dl in
  (open - window - ImmutableSubmitGate <? se_height env) && (se_height env <? close).

Definition submit_sector (env : submit_env) (miner regProof updateProof : Z) (u : update_task) (d : snap_db) : sector_result :=
  let k := ut_key u in
  if negb (k.1 =? miner) then Stopped d false
  else if negb (ut_reg_proof u =? regProof) then Stopped d false
  else if negb (ut_upgrade u =? updateProof) then Stopped d false
  else if existsb (fun p => is_null (ip_start p)) (ordered_pieces k d) then Stopped d false
  else
    match se_info env k with
    | None | Some None => Stopped d false
    | Some (Some info) =>
        if negb (oc_seal_proof info =? regProof) then Stopped d false
        else
          match oc_key info with
          | Some _ => Skipped (with_snaps (alter (set_snap_failed "not-cc") k (snaps d)) d)
          | None =>
              match se_location env k with
              | None => Stopped d false
              | Some (dl, part) =>
                  match se_deadline env dl with
                  | None => Stopped d false
                  | Some info_dl =>
                      if in_unsafe_window env info_dl then
                        Skipped (with_snaps (alter (fun r => set_submit_after (Some (EpochTime env info_dl.1.2)) (set_snap_stage Submit None false r)) k (snaps d)) d)
                      else
                        match check_pieces env (oc_expiration info) miner (ordered_pieces k d) [] 0 with
                        | PiecesError => Stopped d false
                        | PiecesPermanent => Stopped (with_snaps (alter (set_snap_failed "alloc-check") k (snaps d)) d) true
                        | PiecesRetry => Skipped d
                        | PiecesOk pams verified =>
                            if negb (se_cid_ok env (ut_sealed u) && se_cid_ok env (ut_unsealed u)) then Stopped d false
                            else
                              match se_size env (oc_seal_proof info) with
                              | None => Stopped d false
                              | Some ssize =>
                                  match se_pledge env (oc_expiration info - se_height env) ssize (u64 verified) with
                                  | None => Stopped d false
                                  | Some pledge => Added (mkUpdate k.2 dl part (ut_sealed u) pams (ut_proof u)) (Z.max 0 (pledge - oc_pledge info))
                                  end
                              end
                        end
                  end
              end
          end
    end.

(** What a run of [Do] has when it gets to its message. *)
Inductive prepared :=
| Finished (ok : bool)
| ToSend (msg : update_msg) (transfer : list (sector_key * (string * string))).

Fixpoint submit_loop (env : submit_env) (miner regProof updateProof : Z) (us : list update_task) (d : snap_db) (acc : list sector_update) (collateral : Z) (transfer : list (sector_key * (string * string))) : snap_db * (bool + list sector_update * Z * list (sector_key * (string * string))) :=
  match us with
  | [] => (d, inr (acc, collateral, transfer))
  | u :: rest =>
      match submit_sector env miner regProof updateProof u d with
      | Stopped d' fin => (d', inl fin)
      | Skipped d' => submit_loop env miner regProof updateProof rest d' acc collateral transfer
      | Added su c => submit_loop env miner regProof updateProof rest d (acc ++ [su]) (collateral + c) (transfer ++ [(ut_key u, (ut_sealed u, ut_unsealed u))])
      end
  end.

(** [SubmitTask.Do] up to the message. *)
Definition submit_prepare (fromMiner noFallback : bool) (env : submit_env) (id : Z) (d : snap_db) : snap_db * prepared :=
  match update_tasks id d with
  | None => (d, Finished false)
  | Some [] => (d, Finished true)
  | Some (u :: us) =>
      match submit_loop env (ut_key u).1 (ut_reg_proof u) (ut_upgrade u) (u :: us) d [] 0 [] with
      | (d', inl fin) => (d', Finished fin)
      | (d', inr ([], _, _)) => (d', Finished true)
      | (d', inr (updates, collateral, transfer)) =>
          if fromMiner then
            match se_balance env with
            | None => (d', Finished false)
            | Some balance => (d', ToSend (mkMsg (ut_key u).1 (ut_upgrade u) updates (Z.max 0 ((if noFallback then 0 else collateral) - balance))) transfer)
            end
          else (d', ToSend (mkMsg (ut_key u).1 (ut_upgrade u) updates collateral) transfer)
      end
  end.

(** The statements that follow the message, one by one. *)
Definition submit_record (id : Z) (mcid : string) (d : snap_db) : snap_db :=
  with_snaps (update_where (fun _ r => bool_decide (sn_task r Submit = Some id)) (set_msg mcid) (snaps d)) d.

Definition submit_wait (mcid : string) (d : snap_db) : option snap_db :=
  match msg_waits d !! mcid with
  | Some _ => None
  | None => Some (mkSnapDb (snaps d) (metas d) (snap_pieces d) (meta_pieces d) (<[mcid := None]> (msg_waits d)) (mk12_deals d) (mk20_deals d) (snap_park d))
  end.

Definition set_updated (sealed unsealed mcid : string) (m : meta_row) : meta_row := mkMeta (sm_reg_proof m) (sm_orig_sealed m) sealed unsealed (Some mcid) true (sm_deadline m).

(** The transaction on [sectors_meta]: every sector must be there. *)
Fixpoint transfer_meta (mcid : string) (l : list (sector_key * (string * string))) (t : gmap sector_key meta_row) : option (gmap sector_key meta_row) :=
  match l with
  | [] => Some t
  | (k, (s, u)) :: rest => match t !! k with Some m => transfer_meta mcid rest (<[k := set_updated s u mcid m]> t) | None => None end
  end.
Definition submit_meta (mcid : string) (l : list (sector_key * (string * string))) (d : snap_db) : option snap_db :=
  match transfer_meta mcid (enum l) (metas d) with
  | None => None
  | Some t => Some (mkSnapDb (snaps d) t (snap_pieces d) (meta_pieces d) (msg_waits d) (mk12_deals d) (mk20_deals d) (snap_park d))
  end.

Definition to_meta_piece (p : snap_piece) : meta_piece := mkMetaPiece (ip_cid p) (ip_size p) (negb (ip_delete p)) (ip_raw p) (ip_start p) (ip_end p) (ip_pam p).

(** The pieces of the sectors replace those that are there. *)
Definition submit_pieces (ks : list sector_key) (d : snap_db) : snap_db :=
  mkSnapDb (snaps d) (metas d) (snap_pieces d) ((to_meta_piece <$> base.filter (fun kp => kp.1.1 ∈ ks) (snap_pieces d)) ∪ meta_pieces d)
    (msg_waits d) (mk12_deals d) (mk20_deals d) (snap_park d).

(** ** [SubmitTask.schedule] *)

Record submit_cfg := mkSubmitCfg { MaxUpdateBatch : nat; sc_slack : duration; sc_timeout : duration; sc_base_fee : Z }.
(** The batch that [NewSubmitTask] allows. *)
Definition max_update_batch : nat := 16.

Record candidate := mkCandidate { cd_key : sector_key; cd_upgrade : Z; cd_ready : time; cd_start : Z }.

Definition submit_ready (now : time) (r : snap_row) : bool :=
  is_null (sn_failed r) && sn_after r Encode && sn_after r Prove && negb (sn_after r Submit) &&
  (match sn_submit_after r with None => true | Some t => t <? now end) && is_null (sn_task r Submit) && negb (is_null (sn_ready r)).

(** [MIN(direct_start_epoch)] over the pieces of a sector: NULLs do not count, and a sector without
    pieces is not in the join. *)
Definition min_start (l : list (option Z)) : option Z :=
  foldr (fun x acc => match x, acc with Some a, Some b => Some (Z.min a b) | Some a, None => Some a | None, _ => acc end) None l.

Definition key_le (a b : candidate) : Prop := (cd_key a).1 < (cd_key b).1 \/ (cd_key a).1 = (cd_key b).1 /\ (cd_key a).2 <= (cd_key b).2.
#[export] Instance key_le_dec : RelDecision key_le.
Proof. intros a b. unfold key_le. apply _. Defined.

(** [None] is a start epoch that is NULL. *)
Definition submit_candidates (now : time) (d : snap_db) : option (list candidate) :=
  merge_sort key_le <$> mapM (fun kr : sector_key * snap_row => match sn_ready kr.2, min_start ((fun kp => ip_start kp.2) <$> sector_pieces kr.1 d) with
                                   | Some t, Some e => Some (mkCandidate kr.1 (sn_upgrade kr.2) t e)
                                   | _, _ => None end)
    (List.filter (fun kr => submit_ready now kr.2 && negb (bool_decide (sector_pieces kr.1 d = []))) (map_to_list (snaps d))).

(** The groups in the order of the nested maps. *)
Definition candidate_group (c : candidate) : Z * Z := ((cd_key c).1, cd_upgrade c).
Definition groups (cs : list candidate) : list (Z * Z) :=
  sp ← enum (remove_dups ((fun c => (cd_key c).1) <$> cs)); (fun p => (sp, p)) <$> enum (remove_dups (cd_upgrade <$> List.filter (fun c => (cd_key c).1 =? sp) cs)).

(** The rows of a group that one message takes. *)
Definition batch_of (cfg : submit_cfg) (cs : list candidate) (g : Z * Z) : list candidate :=
  let rows := List.filter (fun c => bool_decide (candidate_group c = g)) cs in
  if (MaxUpdateBatch cfg =? 0)%nat then rows else take (MaxUpdateBatch cfg) rows.

Definition schedule_now (cfg : submit_cfg) (now : time) (height baseFee : Z) (batch : list candidate) : bool :=
  let earliestStart := foldl (fun acc c => Z.min acc (cd_start c)) max_i64 batch in
  let earliestTime := foldl (fun acc c => match acc with None => Some (cd_ready c) | Some t => Some (Z.min t (cd_ready c)) end) None batch in
  let timeUntil := i64 (i64 (i64 (earliestStart - height) * BlockDelaySecs) * Second) in
  (timeUntil <? sc_slack cfg) || (baseFee <? sc_base_fee cfg) ||
  match earliestTime with Some t => sc_timeout cfg <? time_sub now t | None => false end.

(** The transaction: an error, nothing to do, or the new rows. *)
Definition submit_add (cfg : submit_cfg) (now : time) (height baseFee id : Z) (d : snap_db) : option (option snap_db) :=
  match submit_candidates now d with
  | None => None
  | Some cs =>
      match List.filter (fun g => schedule_now cfg now height baseFee (batch_of cfg cs g)) (groups cs) with
      | [] => Some None
      | g :: _ =>
          let ks := cd_key <$> batch_of cfg cs g in
          Some (Some (with_snaps (update_where (fun k r => bool_decide (k ∈ ks) && is_null (sn_task r Submit)) (fun r => set_submit_after None (set_snap_task Submit id r)) (snaps d)) d))
      end
  end.

(** ** [updateLanded] *)

Definition mark_sealed (k : sector_key) (t : gmap Z deal_row) : gmap Z deal_row :=
  (fun r => if bool_decide (dr_sector r = k) then mkDealRow (dr_sector r) true (dr_indexing r) else r) <$> t.

(** What the chain says of the sector; [None] is an error, as is a result of [None]. *)
Definition updateLanded (info : sector_key -> option (option onchain)) (k : sector_key) (d : snap_db) : option snap_db :=
  match snaps d !! k with
  | None => Some d
  | Some r =>
      match (match sn_msg r with Some m => match msg_waits d !! m with Some (Some ex) => Some ex | _ => None end | None => None end) with
      | None => Some d
      | Some ex =>
          match sn_sealed r with
          | None => None
          | Some sealed =>
              match ex_code ex with
              | SysErrInsufficientFunds | ErrInsufficientFunds | SysErrOutOfGas | ErrIllegalArgument =>
                  if negb (sn_ok r) && sn_after r Submit then Some (with_snaps (<[k := set_snap_stage Submit (sn_task r Submit) false r]> (snaps d)) d) else None
              | ErrNotFound => match info k with Some (Some si) => if bool_decide (oc_sealed si = sealed) then Some d else None | _ => None end
              | OtherExit _ => None
              | ExitOk =>
                  match info k with
                  | Some (Some si) =>
                      if negb (bool_decide (oc_sealed si = sealed)) then None
                      else Some (mkSnapDb (if sn_ok r then snaps d else <[k := set_landed (ex_tsk ex) r]> (snaps d)) (metas d) (snap_pieces d) (meta_pieces d) (msg_waits d)
                                   (mark_sealed k (mk12_deals d)) (mark_sealed k (mk20_deals d)) (snap_park d))
                  | _ => None
                  end
              end
          end
      end
  end.

Definition landing (r : snap_row) : bool := sn_after r Encode && sn_after r Prove && negb (sn_ok r) && sn_after r Submit.

Fixpoint landed_loop (info : sector_key -> option (option onchain)) (ks : list sector_key) (d : snap_db) : option snap_db :=
  match ks with [] => Some d | k :: rest => match updateLanded info k d with None => None | Some d' => landed_loop info rest d' end end.

(** The transaction over all submitted rows: one error undoes all of it. *)
Definition landed_poll (info : sector_key -> option (option onchain)) (d : snap_db) : option snap_db :=
  landed_loop info (fst <$> ready_rows landing d) d.

(** ** Removing rows *)

Definition delete_snap (k : sector_key) (d : snap_db) : snap_db :=
  mkSnapDb (delete k (snaps d)) (metas d) (base.filter (fun kp => kp.1.1 <> k) (snap_pieces d)) (meta_pieces d) (msg_waits d) (mk12_deals d) (mk20_deals d) (snap_park d).

(** [cleanupUpgrade] of the pipeline GC: rows that are finished and whose pieces are all in
    [sectors_meta_pieces]. *)
Definition snap_finished (d : snap_db) (k : sector_key) (r : snap_row) : bool :=
  sn_ok r && sn_after r Move && bool_decide (is_Some (metas d !! k)) && forallb (fun kp => bool_decide (is_Some (meta_pieces d !! kp.1))) (sector_pieces k d).
Definition cleanup_snaps (d : snap_db) : snap_db :=
  foldl (fun d k => delete_snap k d) d (fst <$> List.filter (fun kr => snap_finished d kr.1 kr.2) (map_to_list (snaps d))).

(** The removal by hand. *)
Definition remove_snap (k : sector_key) (d : snap_db) : snap_db := delete_snap k (DropSectorPieceRefsSnap k d).

(** ** The nodes of a cluster *)

Inductive submit_phase :=
| SReady (msg : update_msg) (transfer : list (sector_key * (string * string)))
| SSent (mcid : string) (transfer : list (sector_key * (string * string)))
| SRecorded (mcid : string) (transfer : list (sector_key * (string * string)))
| SWaited (mcid : string) (transfer : list (sector_key * (string * string)))
| SMeta (transfer : list (sector_key * (string * string))).
Inductive snap_run := REncode (k : sector_key) | RProve (k : sector_key) | RMove (k : sector_key) | RSubmit (p : submit_phase).

(** The database, the next task id, the running tasks and the messages that were sent. *)
Record snap_world := mkSnapWorld { sw_db : snap_db; sw_next : Z; sw_runs : gmap Z snap_run; sw_sent : list (string * update_msg) }.

Definition sw_set (w : snap_world) (d : snap_db) : snap_world := mkSnapWorld d (sw_next w) (sw_runs w) (sw_sent w).
Definition sw_task (w : snap_world) (d : snap_db) : snap_world := mkSnapWorld d (sw_next w + 1) (sw_runs w) (sw_sent w).
Definition sw_run (w : snap_world) (id : Z) (r : option snap_run) (d : snap_db) : snap_world :=
  mkSnapWorld d (sw_next w) (match r with Some r => <[id := r]> (sw_runs w) | None => delete id (sw_runs w) end) (sw_sent w).

Definition begin_run (st : snap_stage) (k : sector_key) : option snap_run :=
  match st with Encode => Some (REncode k) | Prove => Some (RProve k) | Move => Some (RMove k) | Submit => None end.

(** A new row with its pieces. *)
Definition ingest_snap (k : sector_key) (upgrade : Z) (now : time) (ps : gmap Z snap_piece) (d : snap_db) : snap_db :=
  mkSnapDb (<[k := new_snap upgrade now]> (snaps d)) (metas d) (kmap (fun i => (k, i)) ps ∪ snap_pieces d) (meta_pieces d) (msg_waits d) (mk12_deals d) (mk20_deals d) (snap_park d).

Inductive snap_step (cfg : submit_cfg) : snap_world -> snap_world -> Prop :=
| sws_ingest w k upgrade now ps : snaps (sw_db w) !! k = None -> is_Some (metas (sw_db w) !! k) -> snap_step cfg w (sw_set w (ingest_snap k upgrade now ps (sw_db w)))
| sws_encode_add w pick d : encode_add (sw_next w) pick (sw_db w) = Some d -> snap_step cfg w (sw_task w d)
| sws_prove_add w pick d : prove_add (sw_next w) pick (sw_db w) = Some d -> snap_step cfg w (sw_task w d)
| sws_move_add w pick d : add_move (sw_next w) pick (sw_db w) = Some d -> snap_step cfg w (sw_task w d)
| sws_submit_add w now height fee d : submit_add cfg now height fee (sw_next w) (sw_db w) = Some (Some d) -> snap_step cfg w (sw_task w d)
| sws_begin w id st k r : sw_runs w !! id = None -> task_sector st id (sw_db w) = Some k -> begin_run st k = Some r -> snap_step cfg w (sw_run w id (Some r) (sw_db w))
| sws_encode w id k commD u s : sw_runs w !! id = Some (REncode k) -> snap_step cfg w (sw_run w id None (encode_finish k commD u s (sw_db w)).1)
| sws_prove w id k now proof : sw_runs w !! id = Some (RProve k) -> snap_step cfg w (sw_run w id None (prove_finish id now proof (sw_db w)))
| sws_move w id k now : sw_runs w !! id = Some (RMove k) -> snap_step cfg w (sw_run w id None (move_finish id k now (sw_db w)))
| sws_prepare w id fm nf env d msg tr : sw_runs w !! id = None -> submit_prepare fm nf env id (sw_db w) = (d, ToSend msg tr) -> snap_step cfg w (sw_run w id (Some (RSubmit (SReady msg tr))) d)
| sws_nothing w id fm nf env d b : sw_runs w !! id = None -> submit_prepare fm nf env id (sw_db w) = (d, Finished b) -> snap_step cfg w (sw_set w d)
| sws_send w id msg tr mcid : sw_runs w !! id = Some (RSubmit (SReady msg tr)) -> mcid ∉ (sw_sent w).*1 ->
    snap_step cfg w (mkSnapWorld (sw_db w) (sw_next w) (<[id := RSubmit (SSent mcid tr)]> (sw_runs w)) (sw_sent w ++ [(mcid, msg)]))
| sws_record w id mcid tr : sw_runs w !! id = Some (RSubmit (SSent mcid tr)) -> snap_step cfg w (sw_run w id (Some (RSubmit (SRecorded mcid tr))) (submit_record id mcid (sw_db w)))
| sws_wait w id mcid tr d : sw_runs w !! id = Some (RSubmit (SRecorded mcid tr)) -> submit_wait mcid (sw_db w) = Some d -> snap_step cfg w (sw_run w id (Some (RSubmit (SWaited mcid tr))) d)
| sws_meta w id mcid tr d : sw_runs w !! id = Some (RSubmit (SWaited mcid tr)) -> submit_meta mcid tr (sw_db w) = Some d -> snap_step cfg w (sw_run w id (Some (RSubmit (SMeta tr))) d)
| sws_pieces w id tr : sw_runs w !! id = Some (RSubmit (SMeta tr)) -> snap_step cfg w (sw_run w id None (submit_pieces tr.*1 (sw_db w)))
| sws_die w id : snap_step cfg w (sw_run w id None (sw_db w))
| sws_executed w m ex : msg_waits (sw_db w) !! m = Some None ->
    snap_step cfg w (sw_set w (mkSnapDb (snaps (sw_db w)) (metas (sw_db w)) (snap_pieces (sw_db w)) (meta_pieces (sw_db w)) (<[m := Some ex]> (msg_waits (sw_db w))) (mk12_deals (sw_db w)) (mk20_deals (sw_db w)) (snap_park (sw_db w))))
| sws_landed w info d : landed_poll info (sw_db w) = Some d -> snap_step cfg w (sw_set w d)
| sws_cleanup w : snap_step cfg w (sw_set w (cleanup_snaps (sw_db w)))
| sws_remove w k : snap_step cfg w (sw_set w (remove_snap k (sw_db w))).
End Snap.
