(* ===== verification/SnapFacts.v ===== *)
(** * What holds of snap deals

    The stages of an update keep their order on every row, whatever runs at the same time
    and wherever it dies; a row is only taken as landed when its message was executed; the
    messages are bounded; what a message says of a sector; and what goes wrong with a
    sector that a batch leaves out. *)

From stdpp Require Import base gmap sets list strings sorting.
From Stdlib Require Import ZArith Lia.
From S2P Require Import Prelude GoStd SealPipeline DealData ParkPiece SnapPipeline.

(** ** Rows *)

(** The cids of the messages that were sent, the waits, and the next task id. *)
Record row_ok (S : list string) (W : gmap string (option exec_result)) (next : Z) (r : snap_row) : Prop := {
  ro_prove : sn_after r Prove = true -> sn_after r Encode = true /\ is_Some (sn_proof r) /\ is_Some (sn_ready r);
  ro_encode : sn_after r Encode = true -> is_Some (sn_sealed r) /\ is_Some (sn_unsealed r);
  ro_submit : sn_after r Submit = true -> sn_after r Prove = true /\ is_Some (sn_msg r);
  ro_move : sn_after r Move = true -> sn_after r Encode = true;
  ro_landed : sn_ok r = true -> sn_after r Submit = true /\ exists m ex, sn_msg r = Some m /\ W !! m = Some (Some ex) /\ ex_code ex = ExitOk;
  ro_task_prove : is_Some (sn_task r Prove) -> sn_after r Encode = true;
  ro_task_move : is_Some (sn_task r Move) -> sn_after r Encode = true;
  ro_task_submit : forall id, sn_task r Submit = Some id -> sn_after r Prove = true /\ sn_after r Submit = false /\ id < next;
  ro_msg : forall m, sn_msg r = Some m -> m ∈ S
}.

Lemma row_ok_mono (S S' : list string) (W W' : gmap string (option exec_result)) (n n' : Z) (r : snap_row) : row_ok S W n r -> S ⊆ S' -> (forall m ex, W !! m = Some (Some ex) -> W' !! m = Some (Some ex)) -> n <= n' -> row_ok S' W' n' r.
Proof.
  intros [] HS HW Hn. constructor; try done.
  - intros Ho. destruct (ro_landed0 Ho) as (? & m & ex & ? & ? & ?). split; [done|]. exists m, ex. auto.
  - intros id Hid. destruct (ro_task_submit0 id Hid) as (? & ? & ?). split; [done|]. split; [done|lia].
  - intros m Hm. apply HS. auto.
Qed.

(** A row that is not submitted has not landed. *)
Lemma task_not_ok (S : list string) (W : gmap string (option exec_result)) (n : Z) (r : snap_row) (id : Z) : row_ok S W n r -> sn_task r Submit = Some id -> sn_ok r = false.
Proof. intros [] Ht. destruct (ro_task_submit0 id Ht) as (_ & Ha & _). destruct (sn_ok r) eqn:E; [|done]. destruct (ro_landed0 eq_refl). congruence. Qed.

Ltac row := intros []; constructor; cbn [sn_upgrade sn_start sn_assigned sn_unsealed sn_sealed sn_proof sn_task sn_after sn_ready sn_msg sn_ok sn_msg_tsk sn_failed sn_submit_after
    set_snap_stage set_snap_task set_encoded set_proved set_snap_failed set_submit_after set_msg set_landed];
  try assumption; intros; repeat (case_decide; try done; try congruence); simplify_eq; try done; try congruence; try (by eauto); split_and?; eauto;
  repeat match goal with
  | |- is_Some (if ?b then _ else _) => destruct b eqn:?
  | H : ?b = true -> _ /\ _, H' : ?b = true |- _ => destruct (H H') as [? ?]; clear H
  | H : forall id, sn_task ?r Submit = Some id -> _, H' : sn_task ?r Submit = Some _ |- _ => destruct (H _ H') as (? & ? & ?); clear H
  | H : true = true -> _ |- _ => specialize (H eq_refl)
  | H : _ /\ _ |- _ => destruct H
  end; eauto.

Section Rows.
Context (S : list string) (W : gmap string (option exec_result)) (n : Z).

Lemma new_snap_ok (upgrade : Z) (now : time) : row_ok S W n (new_snap upgrade now).
Proof. constructor; cbn; try done; by intros []. Qed.

Lemma set_task_encode (id : Z) (r : snap_row) : row_ok S W n r -> row_ok S W n (set_snap_task Encode id r).
Proof. row. Qed.
Lemma set_task_prove (id : Z) (r : snap_row) : row_ok S W n r -> sn_after r Encode = true -> row_ok S W n (set_snap_task Prove id r).
Proof. row. Qed.
Lemma set_task_move (id : Z) (r : snap_row) : row_ok S W n r -> sn_after r Encode = true -> row_ok S W n (set_snap_task Move id r).
Proof. row. Qed.
Lemma set_task_submit (id : Z) (r : snap_row) : row_ok S W n r -> sn_after r Prove = true -> sn_after r Submit = false -> id < n -> row_ok S W n (set_submit_after None (set_snap_task Submit id r)).
Proof. row. Qed.
Lemma set_encoded_ok (u s : string) (r : snap_row) : row_ok S W n r -> row_ok S W n (set_encoded u s r).
Proof. row. Qed.
Lemma set_proved_ok (now : time) (p : string) (r : snap_row) : row_ok S W n r -> sn_after r Encode = true -> row_ok S W n (set_proved now p r).
Proof. row. Qed.
Lemma set_moved_ok (r : snap_row) : row_ok S W n r -> sn_after r Encode = true -> row_ok S W n (set_snap_stage Move None true r).
Proof. row. Qed.
Lemma set_failed_ok (reason : string) (r : snap_row) : row_ok S W n r -> sn_ok r = false -> row_ok S W n (set_snap_failed reason r).
Proof. row. Qed.
Lemma set_delayed_ok (t : option time) (r : snap_row) : row_ok S W n r -> sn_ok r = false -> row_ok S W n (set_submit_after t (set_snap_stage Submit None false r)).
Proof. row. Qed.
Lemma set_retry_ok (r : snap_row) : row_ok S W n r -> sn_ok r = false -> row_ok S W n (set_snap_stage Submit (sn_task r Submit) false r).
Proof. row. Qed.
Lemma set_msg_ok (m : string) (r : snap_row) : row_ok S W n r -> sn_after r Prove = true -> sn_ok r = false -> m ∈ S -> row_ok S W n (set_msg m r).
Proof. row. Qed.
Lemma set_landed_ok (m : string) (ex : exec_result) (r : snap_row) : row_ok S W n r -> sn_after r Submit = true -> sn_msg r = Some m -> W !! m = Some (Some ex) -> ex_code ex = ExitOk -> row_ok S W n (set_landed (ex_tsk ex) r).
Proof. row. Qed.
End Rows.

(** ** Tables *)

Lemma lookup_update_where (c : sector_key -> snap_row -> bool) (f : snap_row -> snap_row) (t : gmap sector_key snap_row) (k : sector_key) :
  update_where c f t !! k = (fun r => if c k r then f r else r) <$> t !! k.
Proof. unfold update_where. rewrite map_lookup_imap. by destruct (t !! k). Qed.

Section Tables.
Context (S : list string) (W : gmap string (option exec_result)) (n : Z).

(** One row after another: it is better than before, and no submit task is new. *)
Definition better (r r' : snap_row) : Prop := (row_ok S W n r -> row_ok S W n r') /\ (sn_task r' Submit = None \/ sn_task r' Submit = sn_task r Submit).
Definition evolve (t t' : gmap sector_key snap_row) : Prop :=
  forall k r', t' !! k = Some r' -> (exists r, t !! k = Some r /\ better r r') \/ row_ok S W n r' /\ sn_task r' Submit = None.

Lemma better_refl (r : snap_row) : better r r.
Proof. split; [done|by right]. Qed.
Lemma evolve_refl (t : gmap sector_key snap_row) : evolve t t.
Proof. intros k r Hr. left. exists r. split; [done|apply better_refl]. Qed.
Lemma evolve_trans (t1 t2 t3 : gmap sector_key snap_row) : evolve t1 t2 -> evolve t2 t3 -> evolve t1 t3.
Proof.
  intros H12 H23 k r3 H3. destruct (H23 k r3 H3) as [(r2 & H2 & Hb & Ht)|]; [|by right]. destruct (H12 k r2 H2) as [(r1 & H1 & Hb' & Ht')|[Hr Hn]].
  - left. exists r1. split; [done|]. split; [auto|]. destruct Ht as [|Ht]; [by left|]. rewrite Ht. done.
  - right. split; [auto|]. destruct Ht as [|Ht]; [done|]. by rewrite Ht.
Qed.

Lemma evolve_where (c : sector_key -> snap_row -> bool) (f : snap_row -> snap_row) (t : gmap sector_key snap_row) :
  (forall k r, t !! k = Some r -> c k r = true -> better r (f r)) -> evolve t (update_where c f t).
Proof.
  intros H k r'. rewrite lookup_update_where. destruct (t !! k) as [r|] eqn:E; [|done]. cbn. intros [= <-]. left. exists r. split; [done|]. destruct (c k r) eqn:Ec; [by eapply H|apply better_refl].
Qed.

Lemma evolve_alter (f : snap_row -> snap_row) (k : sector_key) (t : gmap sector_key snap_row) : (forall r, t !! k = Some r -> better r (f r)) -> evolve t (alter f k t).
Proof.
  intros H k' r'. destruct (decide (k' = k)) as [->|Hne].
  - rewrite lookup_alter_eq. destruct (t !! k) as [r|] eqn:E; [|done]. cbn. intros [= <-]. left. exists r. split; [done|auto].
  - rewrite lookup_alter_ne by done. intros Hr. left. exists r'. split; [done|apply better_refl].
Qed.

Lemma evolve_insert (k : sector_key) (r' : snap_row) (t : gmap sector_key snap_row) : (exists r, t !! k = Some r /\ better r r') \/ row_ok S W n r' /\ sn_task r' Submit = None -> evolve t (<[k := r']> t).
Proof. intros H k' x [[-> ->]|[_ Hx]]%lookup_insert_Some; [done|]. left. exists x. split; [done|apply better_refl]. Qed.

Lemma evolve_delete (k : sector_key) (t : gmap sector_key snap_row) : evolve t (delete k t).
Proof. intros k' x [_ Hx]%lookup_delete_Some. left. exists x. split; [done|apply better_refl]. Qed.

Definition rows_ok (t : gmap sector_key snap_row) : Prop := map_Forall (fun _ r => row_ok S W n r) t.

Lemma evolve_rows (t t' : gmap sector_key snap_row) : evolve t t' -> rows_ok t -> rows_ok t'.
Proof. intros He Hr k r' Hk. destruct (He k r' Hk) as [(r & H & Hb & _)|[? _]]; [apply Hb; by apply (Hr k)|done]. Qed.

(** The rows of a batch. *)
Definition batch (id : Z) (t : gmap sector_key snap_row) : gset sector_key := dom (base.filter (fun kr => sn_task kr.2 Submit = Some id) t).

Lemma elem_of_batch (id : Z) (t : gmap sector_key snap_row) (k : sector_key) : k ∈ batch id t <-> exists r, t !! k = Some r /\ sn_task r Submit = Some id.
Proof.
  unfold batch. rewrite elem_of_dom. split.
  - intros [r Hr]. apply map_lookup_filter_Some in Hr as [Hr Ht]. by exists r.
  - intros (r & Hr & Ht). exists r. by apply map_lookup_filter_Some.
Qed.

Lemma evolve_batch (id : Z) (t t' : gmap sector_key snap_row) : evolve t t' -> batch id t' ⊆ batch id t.
Proof.
  intros He k. rewrite !elem_of_batch. intros (r' & Hk & Ht). destruct (He k r' Hk) as [(r & H & _ & Hs)|[_ Hn]]; [|congruence]. exists r. split; [done|]. destruct Hs; congruence.
Qed.
End Tables.

(** ** The operations *)

Section Operations.
Context `{HE : !Enum} (S : list string) (W : gmap string (option exec_result)) (n : Z).
Context (url_Parse : string -> option (string * string)) (BlockDelaySecs : Z).
Abbreviation evolve := (evolve S W n).

Lemma elem_of_ready (ready : snap_row -> bool) (d : snap_db) (k : sector_key) (r : snap_row) : (k, r) ∈ ready_rows ready d <-> snaps d !! k = Some r /\ ready r = true.
Proof using.
  unfold ready_rows. rewrite elem_of_enum, list_elem_of_In, filter_In, <- list_elem_of_In, elem_of_map_to_list. done.
Qed.

Lemma add_random_step (st : snap_stage) (ready : snap_row -> bool) (id : Z) (pick : nat) (d d' : snap_db) : add_random st ready id pick d = Some d' ->
  exists k r, snaps d !! k = Some r /\ ready r = true /\ d' = with_snaps (alter (set_snap_task st id) k (snaps d)) d.
Proof using.
  unfold add_random. destruct (ready_rows ready d) as [|x l] eqn:E; [done|]. destruct ((x :: l) !! _) as [[k r]|] eqn:El; [|done]. intros [= <-]. exists k, r.
  apply list_elem_of_lookup_2 in El. rewrite <- E in El. apply elem_of_ready in El as [? ?]. done.
Qed.

Lemma task_same (st : snap_stage) (id : Z) (r : snap_row) : st <> Submit -> sn_task (set_snap_task st id r) Submit = sn_task r Submit.
Proof using. intros H. cbn. by rewrite decide_False by congruence. Qed.

Lemma encode_add_evolves (id : Z) (pick : nat) (d d' : snap_db) : encode_add id pick d = Some d' -> evolve (snaps d) (snaps d').
Proof using.
  intros (k & r & Hk & Hr & ->)%add_random_step. apply evolve_alter. intros x Hx. split; [apply set_task_encode|right; by apply task_same].
Qed.
Lemma prove_add_evolves (id : Z) (pick : nat) (d d' : snap_db) : prove_add id pick d = Some d' -> evolve (snaps d) (snaps d').
Proof using.
  intros (k & r & Hk & Hr & ->)%add_random_step. apply evolve_alter. intros x Hx. rewrite Hk in Hx. injection Hx as <-. unfold prove_ready in Hr. split; [|right; by apply task_same].
  intros H. apply set_task_prove; [done|]. by destruct (sn_after r Encode).
Qed.
Lemma add_move_evolves (id : Z) (pick : nat) (d d' : snap_db) : add_move id pick d = Some d' -> evolve (snaps d) (snaps d').
Proof using.
  unfold add_move. destruct (oldest_row _) as [[k r]|]; [|done]. intros [= <-]. apply evolve_where. intros k' x Hx [_ Hm]%andb_true_iff. unfold move_ready in Hm. split; [|right; by apply task_same].
  intros H. apply set_task_move; [done|]. by destruct (sn_after x Encode).
Qed.

Lemma encode_finish_evolves (k : sector_key) (commD u s : string) (d : snap_db) : evolve (snaps d) (snaps (encode_finish url_Parse k commD u s d).1).
Proof using. unfold encode_finish. destruct (negb _); [apply evolve_refl|]. apply evolve_alter. intros r Hr. split; [apply set_encoded_ok|by right]. Qed.
Lemma prove_finish_evolves (id : Z) (now : time) (proof : string) (d : snap_db) : evolve (snaps d) (snaps (prove_finish id now proof d)).
Proof using.
  apply evolve_where. intros k r Hr Ht%bool_decide_eq_true. split; [|by right]. intros H. apply set_proved_ok; [done|]. apply (ro_task_prove _ _ _ _ H). by rewrite Ht.
Qed.
Lemma move_finish_evolves (id : Z) (k : sector_key) (now : time) (d : snap_db) : evolve (snaps d) (snaps (move_finish id k now d)).
Proof using.
  apply evolve_where. intros k' r Hr Ht%bool_decide_eq_true. split; [|by right]. intros H. apply set_moved_ok; [done|]. apply (ro_task_move _ _ _ _ H). by rewrite Ht.
Qed.
Lemma record_evolves (id : Z) (m : string) (d : snap_db) : m ∈ S -> evolve (snaps d) (snaps (submit_record id m d)).
Proof using.
  intros Hm. apply evolve_where. intros k r Hr Ht%bool_decide_eq_true. split; [|by left]. intros H. apply set_msg_ok; [done| |by eapply task_not_ok|done]. by apply (ro_task_submit _ _ _ _ H id).
Qed.

(** The loop of a submission keeps rows that have not landed. *)
Definition unlanded (us : list update_task) (d : snap_db) : Prop := forall u r, u ∈ us -> snaps d !! ut_key u = Some r -> sn_ok r = false.

Lemma alter_unlanded (us : list update_task) (f : snap_row -> snap_row) (k : sector_key) (d : snap_db) : (forall r, sn_ok (f r) = sn_ok r) -> unlanded us d -> unlanded us (with_snaps (alter f k (snaps d)) d).
Proof using.
  intros Hf Hu u r Hin. cbn. intros Hr. destruct (decide (ut_key u = k)) as [Heq|Hne].
  - rewrite Heq, lookup_alter_eq in Hr. destruct (snaps d !! k) as [x|] eqn:E; [|done]. cbn in Hr. injection Hr as <-. rewrite Hf. apply (Hu u x Hin). by rewrite Heq.
  - rewrite lookup_alter_ne in Hr by done. by apply (Hu u r Hin).
Qed.

Lemma submit_sector_evolves (env : submit_env) (miner rp up : Z) (u : update_task) (us : list update_task) (d : snap_db) : unlanded (u :: us) d ->
  match submit_sector BlockDelaySecs env miner rp up u d with
  | Added _ _ => True
  | Skipped d' => evolve (snaps d) (snaps d') /\ unlanded us d'
  | Stopped d' _ => evolve (snaps d) (snaps d')
  end.
Proof using.
  intros Hu. assert (forall r, snaps d !! ut_key u = Some r -> sn_ok r = false) as Hk by (intros r; apply Hu; apply list_elem_of_here).
  assert (unlanded us d) as Hus by (intros x r Hx; apply Hu; by apply list_elem_of_further).
  assert (forall reason, evolve (snaps d) (alter (set_snap_failed reason) (ut_key u) (snaps d))) as Hf
    by (intros reason; apply evolve_alter; intros r Hr; split; [intros H; by apply set_failed_ok; [|apply Hk]|by left]).
  unfold submit_sector. do 3 (destruct (negb _); [apply evolve_refl|]). destruct (existsb _ _); [apply evolve_refl|].
  destruct (se_info env (ut_key u)) as [[info|]|]; try apply evolve_refl. destruct (negb (oc_seal_proof info =? rp)); [apply evolve_refl|].
  destruct (oc_key info); [split; [apply Hf|by apply alter_unlanded]|]. destruct (se_location env (ut_key u)) as [[dl part]|]; [|apply evolve_refl]. destruct (se_deadline env dl) as [idl|]; [|apply evolve_refl].
  destruct (in_unsafe_window env idl).
  { split; [|by apply alter_unlanded]. apply evolve_alter. intros r Hr. split; [intros H; by apply set_delayed_ok; [|apply Hk]|by left]. }
  destruct (check_pieces _ _ _ _ _ _); [|split; [apply evolve_refl|done]|apply Hf|apply evolve_refl]. destruct (negb _); [apply evolve_refl|]. destruct (se_size env _); [|apply evolve_refl]. by destruct (se_pledge env _ _ _); [|apply evolve_refl].
Qed.

(** ** What a message says *)

Lemma check_pieces_spec (env : submit_env) (exp miner : Z) (ps : list snap_piece) (acc pams : list manifest) (v v' : Z) : check_pieces env exp miner ps acc v = PiecesOk pams v' ->
  exists l, mapM (fun p => se_pam env (ip_pam p)) ps = Some l /\ pams = acc ++ l /\ Forall (fun pam => AllocationCheck env pam exp miner = AllocOk) l.
Proof using.
  revert acc v. induction ps as [|p ps IH]; intros acc v; cbn [check_pieces]; [intros [= <- <-]; exists []; by rewrite app_nil_r|].
  destruct (se_pam env (ip_pam p)) as [pam|] eqn:Ep; [|done]. destruct (AllocationCheck env pam exp miner) eqn:Ea; [|done|done]. intros (l & Hl & -> & Hf)%IH.
  exists (pam :: l). split; [apply mapM_Some; constructor; [done|by apply mapM_Some]|]. split; [by rewrite <- app_assoc|by constructor].
Qed.

(** An update in a message: of a sector of the miner that has no data, away from its deadline,
    with its row's commitment and proof and the manifests of all its pieces, whose allocations
    are good. *)
Definition update_ok (env : submit_env) (d : snap_db) (miner rp up : Z) (u : update_task) (su : sector_update) : Prop :=
  (ut_key u).1 = miner /\ ut_reg_proof u = rp /\ ut_upgrade u = up /\
  exists info dl part idl pams, se_info env (ut_key u) = Some (Some info) /\ oc_key info = None /\ oc_seal_proof info = rp /\
    se_location env (ut_key u) = Some (dl, part) /\ se_deadline env dl = Some idl /\ in_unsafe_window env idl = false /\
    mapM (fun p => se_pam env (ip_pam p)) (ordered_pieces (ut_key u) d) = Some pams /\ Forall (fun pam => AllocationCheck env pam (oc_expiration info) miner = AllocOk) pams /\
    su = mkUpdate (ut_key u).2 dl part (ut_sealed u) pams (ut_proof u).

Lemma submit_sector_added (env : submit_env) (miner rp up : Z) (u : update_task) (d : snap_db) (su : sector_update) (c : Z) :
  submit_sector BlockDelaySecs env miner rp up u d = Added su c -> update_ok env d miner rp up u su /\ 0 <= c.
Proof using.
  unfold submit_sector. destruct (Z.eqb_spec (ut_key u).1 miner) as [H1|]; [|done]. destruct (Z.eqb_spec (ut_reg_proof u) rp) as [H2|]; [|done]. destruct (Z.eqb_spec (ut_upgrade u) up) as [H3|]; [|done]. cbn [negb].
  destruct (existsb _ _); [done|]. destruct (se_info env (ut_key u)) as [[info|]|] eqn:Ei; [|done|done]. destruct (Z.eqb_spec (oc_seal_proof info) rp) as [H4|]; [|done]. cbn [negb].
  destruct (oc_key info) eqn:Ek; [done|]. destruct (se_location env (ut_key u)) as [[dl part]|] eqn:El; [|done]. destruct (se_deadline env dl) as [idl|] eqn:Ed; [|done].
  destruct (in_unsafe_window env idl) eqn:Eu; [done|]. destruct (check_pieces _ _ _ _ _ _) as [pams v| | |] eqn:Ec; [|done|done|done]. destruct (negb _); [done|]. destruct (se_size env _); [|done]. destruct (se_pledge env _ _ _); [|done].
  intros [= <- <-]. apply check_pieces_spec in Ec as (l & Hl & -> & Hf). split; [|lia]. split; [done|]. split; [done|]. split; [done|]. by exists info, dl, part, idl, l.
Qed.

Lemma submit_sector_pieces (env : submit_env) (miner rp up : Z) (u : update_task) (d d' : snap_db) : submit_sector BlockDelaySecs env miner rp up u d = Skipped d' -> snap_pieces d' = snap_pieces d.
Proof using.
  unfold submit_sector. do 3 (destruct (negb _); [done|]). destruct (existsb _ _); [done|]. destruct (se_info env (ut_key u)) as [[info|]|]; [|done|done]. destruct (negb _); [done|].
  destruct (oc_key info); [by intros [= <-]|]. destruct (se_location env (ut_key u)) as [[dl part]|]; [|done]. destruct (se_deadline env dl) as [idl|]; [|done]. destruct (in_unsafe_window env idl); [by intros [= <-]|].
  destruct (check_pieces _ _ _ _ _ _); [|by intros [= <-]|done|done]. destruct (negb _); [done|]. destruct (se_size env _); [|done]. by destruct (se_pledge env _ _ _).
Qed.

Lemma update_ok_pieces (env : submit_env) (d d' : snap_db) (miner rp up : Z) (u : update_task) (su : sector_update) : snap_pieces d' = snap_pieces d -> update_ok env d' miner rp up u su -> update_ok env d miner rp up u su.
Proof using. intros Hp. unfold update_ok, ordered_pieces, sector_pieces. by rewrite Hp. Qed.

Lemma submit_loop_spec (env : submit_env) (miner rp up : Z) (us : list update_task) (d d' : snap_db) (acc : list sector_update) (c : Z) (tr : list (sector_key * (string * string))) res : unlanded us d -> 0 <= c ->
  submit_loop BlockDelaySecs env miner rp up us d acc c tr = (d', res) -> evolve (snaps d) (snaps d') /\
  match res with
  | inl _ => True
  | inr (acc', c', tr') => 0 <= c' /\ exists added : list (update_task * sector_update), acc' = acc ++ added.*2 /\ tr' = tr ++ ((fun x => (ut_key x.1, (ut_sealed x.1, ut_unsealed x.1))) <$> added) /\
      added.*1 `sublist_of` us /\ Forall (fun x => update_ok env d miner rp up x.1 x.2) added
  end.
Proof using.
  revert d acc c tr. induction us as [|u us IH]; intros d acc c tr Hu Hc; cbn [submit_loop].
  { intros [= <- <-]. split; [apply evolve_refl|]. split; [done|]. exists []. cbn. by rewrite !app_nil_r. }
  pose proof (submit_sector_evolves env miner rp up u us d Hu) as He. destruct (submit_sector _ env miner rp up u d) as [su c1|d1|d1 fin] eqn:Es; [| |intros [= <- <-]; done].
  - destruct (submit_sector_added _ _ _ _ _ _ _ _ Es) as [Hok Hc1]. assert (unlanded us d) as Hus by (intros x r Hx; apply Hu; by apply list_elem_of_further).
    intros E. destruct (IH _ _ (c + c1) _ Hus ltac:(lia) E) as [Hev Hres]. split; [done|]. destruct res as [|[[acc' c'] tr']]; [done|]. destruct Hres as (Hc' & added & -> & -> & Hsub & Hf).
    split; [done|]. exists ((u, su) :: added). cbn. rewrite <- !app_assoc. split; [done|]. split; [done|]. split; [by constructor|by constructor].
  - destruct He as [Hev1 Hus]. intros E. destruct (IH _ _ _ _ Hus Hc E) as [Hev Hres]. split; [by eapply evolve_trans|]. destruct res as [|[[acc' c'] tr']]; [done|]. destruct Hres as (Hc' & added & Ha & Ht & Hsub & Hf).
    split; [done|]. exists added. split; [done|]. split; [done|]. split; [by constructor|]. eapply Forall_impl; [exact Hf|]. intros x. apply update_ok_pieces. by eapply submit_sector_pieces.
Qed.

(** The rows of a task. *)
Lemma elem_of_task_rows (st : snap_stage) (id : Z) (d : snap_db) (k : sector_key) (r : snap_row) (m : meta_row) :
  (k, (r, m)) ∈ task_rows st id d <-> snaps d !! k = Some r /\ sn_task r st = Some id /\ metas d !! k = Some m.
Proof using.
  unfold task_rows. rewrite elem_of_enum, list_elem_of_omap. split.
  - intros ([k' r'] & Hin & H). apply elem_of_map_to_list in Hin. cbn in H. destruct (bool_decide _) eqn:E; [|done]. apply bool_decide_eq_true in E. destruct (metas d !! k') eqn:Em; [|done]. cbn in H. injection H as <- <- <-. done.
  - intros (Hr & Ht & Hm). exists (k, r). split; [by apply elem_of_map_to_list|]. cbn. rewrite bool_decide_true by done. by rewrite Hm.
Qed.

Lemma omap_keys {A B C} (f : A * B -> option (A * C)) (l : list (A * B)) : (forall x y, f x = Some y -> y.1 = x.1) -> (omap f l).*1 `sublist_of` l.*1.
Proof using.
  intros Hf. induction l as [|x l IH]; [constructor|]. cbn. destruct (f x) as [y|] eqn:E; cbn; [rewrite (Hf _ _ E); by constructor|by constructor].
Qed.

Lemma Forall_of_sublist {A} (P : A -> Prop) (l1 l2 : list A) : l1 `sublist_of` l2 -> Forall P l2 -> Forall P l1.
Proof using. induction 1 as [|x l1 l2 _ IH|x l1 l2 _ IH]; [done|intros [? ?]%Forall_cons; constructor; auto|intros [_ ?]%Forall_cons; auto]. Qed.

Lemma task_rows_NoDup (st : snap_stage) (id : Z) (d : snap_db) : NoDup (task_rows st id d).*1.
Proof using.
  unfold task_rows. rewrite enum_perm. eapply sublist_NoDup; [apply (NoDup_fst_map_to_list (snaps d))|]. apply omap_keys. intros [k r] y. cbn. destruct (bool_decide _); [|done]. destruct (metas d !! k); [|done]. by intros [= <-].
Qed.

Lemma update_tasks_spec (id : Z) (d : snap_db) (us : list update_task) : update_tasks id d = Some us -> NoDup (ut_key <$> us) /\
  Forall (fun u => exists r, snaps d !! ut_key u = Some r /\ sn_task r Submit = Some id /\ sn_sealed r = Some (ut_sealed u) /\ sn_proof r = ut_proof u) us.
Proof using.
  unfold update_tasks. intros H%mapM_Some. assert (ut_key <$> us = (task_rows Submit id d).*1) as Hk.
  { clear -H. induction H as [|[k [r m]] u l us Hx _ IH]; [done|]. cbn. rewrite IH. f_equal. cbn in Hx. destruct (sn_sealed r), (sn_unsealed r), (sm_deadline m); try done. by injection Hx as <-. }
  split; [rewrite Hk; apply task_rows_NoDup|]. apply Forall_forall. intros u Hu. apply list_elem_of_lookup in Hu as [i Hi]. destruct (Forall2_lookup_r _ _ _ _ _ H Hi) as ([k [r m]] & Hx & Hf).
  apply list_elem_of_lookup_2, elem_of_task_rows in Hx as (Hr & Ht & _). cbn in Hf. exists r. destruct (sn_sealed r) eqn:Es, (sn_unsealed r), (sm_deadline m); try done. injection Hf as <-. done.
Qed.

Lemma NoDup_sectors (m : Z) (l : list update_task) : NoDup (ut_key <$> l) -> Forall (fun u => (ut_key u).1 = m) l -> NoDup ((fun u => (ut_key u).2) <$> l).
Proof using.
  induction l as [|u l IH]; cbn; [constructor|]. intros [Hn Hd]%NoDup_cons [Hm Hf]%Forall_cons. constructor; [|by apply IH]. intros (v & Hv & Hin)%list_elem_of_fmap. apply Hn.
  rewrite Forall_forall in Hf. replace (ut_key u) with (ut_key v); [by apply list_elem_of_fmap_2|]. pose proof (Hf v Hin). destruct (ut_key u), (ut_key v). cbn in *. congruence.
Qed.

(** What a prepared message says, of the rows as they are. *)
Definition msg_true (env : submit_env) (id : Z) (d : snap_db) (msg : update_msg) : Prop :=
  um_updates msg <> [] /\ 0 <= um_value msg /\ NoDup (su_sector <$> um_updates msg) /\
  exists rp, Forall (fun su => exists u r, snaps d !! ut_key u = Some r /\ sn_task r Submit = Some id /\ sn_sealed r = Some (ut_sealed u) /\ sn_proof r = ut_proof u /\
    update_ok env d (um_miner msg) rp (um_proof_type msg) u su) (um_updates msg).

Lemma prepare_spec (fm nf : bool) (env : submit_env) (id : Z) (d d' : snap_db) (res : prepared) : rows_ok S W n (snaps d) -> submit_prepare BlockDelaySecs fm nf env id d = (d', res) ->
  evolve (snaps d) (snaps d') /\
  match res with Finished _ => True | ToSend msg tr => msg_true env id d msg /\ (length (um_updates msg) <= size (batch id (snaps d)))%nat end.
Proof using.
  intros Hrows. unfold submit_prepare. destruct (update_tasks id d) as [[|u us]|] eqn:Eu; [by intros [= <- <-]; split; [apply evolve_refl|]| |by intros [= <- <-]; split; [apply evolve_refl|]].
  destruct (update_tasks_spec id d _ Eu) as [Hnd Hall]. set (l := u :: us) in *.
  assert (unlanded l d) as Hun. { intros x r Hx Hr. rewrite Forall_forall in Hall. destruct (Hall x Hx) as (r' & Hr' & Ht & _). rewrite Hr in Hr'. injection Hr' as <-. eapply task_not_ok; [by apply (Hrows (ut_key x))|done]. }
  destruct (submit_loop _ env _ _ _ l d [] 0 []) as [d1 lres] eqn:El. destruct (submit_loop_spec env _ _ _ l d d1 [] 0 [] lres Hun (Z.le_refl 0) El) as [Hev Hl].
  destruct lres as [fin|[[ups c] tr]]; [by intros [= <- <-]|]. destruct Hl as (Hc & added & Hups & Htr & Hsub & Hok). cbn in Hups. subst ups.
  assert (forall v, 0 <= v -> added.*2 <> [] -> msg_true env id d (mkMsg (ut_key u).1 (ut_upgrade u) added.*2 v) /\ (length added.*2 <= size (batch id (snaps d)))%nat) as Hmsg.
  { intros v Hv Hne. assert (Forall (fun x => exists r, snaps d !! ut_key x = Some r /\ sn_task r Submit = Some id /\ sn_sealed r = Some (ut_sealed x) /\ sn_proof r = ut_proof x) added.*1) as Hrow by (by eapply Forall_of_sublist).
    assert (NoDup (ut_key <$> added.*1)) as Hnd' by (eapply sublist_NoDup; [exact Hnd|apply fmap_sublist, Hsub]). split.
    - split; [done|]. split; [done|]. cbn [um_updates um_miner um_proof_type]. split.
      + assert (su_sector <$> added.*2 = (fun x => (ut_key x).2) <$> added.*1) as -> by (rewrite <- !list_fmap_compose; apply Forall_fmap_ext_1; eapply Forall_impl; [exact Hok|]; intros x (_ & _ & _ & ? & ? & ? & ? & ? & _ & _ & _ & _ & _ & _ & _ & _ & Heq); cbn; by rewrite Heq).
        eapply NoDup_sectors; [exact Hnd'|]. apply Forall_fmap. eapply Forall_impl; [exact Hok|]. intros x [Hx _]. exact Hx.
      + exists (ut_reg_proof u). apply Forall_fmap. rewrite Forall_fmap in Hrow. eapply Forall_impl; [apply Forall_and; split; [exact Hok|exact Hrow]|]. intros x [Hx (r & ? & ? & ? & ?)]. by exists x.1, r.
    - rewrite length_fmap, <- (length_fmap fst), <- (length_fmap ut_key), <- (size_list_to_set (C := gset sector_key)) by done. apply subseteq_size. intros k Hk.
      apply elem_of_list_to_set, list_elem_of_fmap in Hk as (x & -> & Hx). rewrite Forall_forall in Hrow. destruct (Hrow x Hx) as (r & Hr & Ht & _). apply elem_of_batch. by exists r. }
  destruct added.*2 as [|su rest] eqn:Ea; [by intros [= <- <-]|]. destruct fm; [destruct (se_balance env); [|by intros [= <- <-]]|]; intros [= <- <-]; split; try done; apply Hmsg; done || lia.
Qed.
End Operations.

(** A preparation does not touch the waits. *)
Lemma prepare_waits (BlockDelaySecs : Z) `{HE : !Enum} (fm nf : bool) (env : submit_env) (id : Z) (d d' : snap_db) (res : prepared) : submit_prepare BlockDelaySecs fm nf env id d = (d', res) -> msg_waits d' = msg_waits d.
Proof.
  assert (forall miner rp up u d0, match submit_sector BlockDelaySecs env miner rp up u d0 with Added _ _ => True | Skipped d1 | Stopped d1 _ => msg_waits d1 = msg_waits d0 end) as Hsec.
  { intros miner rp up u d0. unfold submit_sector. do 3 (destruct (negb _); [done|]). destruct (existsb _ _); [done|]. destruct (se_info env (ut_key u)) as [[info|]|]; [|done|done]. destruct (negb _); [done|].
    destruct (oc_key info); [done|]. destruct (se_location env (ut_key u)) as [[dl part]|]; [|done]. destruct (se_deadline env dl) as [idl|]; [|done]. destruct (in_unsafe_window env idl); [done|].
    destruct (check_pieces _ _ _ _ _ _); [|done|done|done]. destruct (negb _); [done|]. destruct (se_size env _); [|done]. by destruct (se_pledge env _ _ _). }
  assert (forall miner rp up us d0 acc c tr, msg_waits (submit_loop BlockDelaySecs env miner rp up us d0 acc c tr).1 = msg_waits d0) as Hloop.
  { intros miner rp up us. induction us as [|u us IH]; intros d0 acc c tr; cbn [submit_loop]; [done|]. specialize (Hsec miner rp up u d0). destruct (submit_sector _ env miner rp up u d0); [apply IH|by rewrite IH|done]. }
  unfold submit_prepare. destruct (update_tasks id d) as [[|u us]|]; [by intros [= <- <-]| |by intros [= <- <-]].
  specialize (Hloop (ut_key u).1 (ut_reg_proof u) (ut_upgrade u) (u :: us) d [] 0 []). destruct (submit_loop _ _ _ _ _ _ _ _ _ _) as [d1 [fin|[[ups c] tr]]]; cbn in Hloop; [by intros [= <- <-]|].
  destruct ups; [by intros [= <- <-]|]. destruct fm; [destruct (se_balance env)|]; by intros [= <- <-].
Qed.

(** ** Landing, scheduling and removal *)

Section Landing.
Context `{HE : !Enum} (S : list string) (n : Z) (url_Parse : string -> option (string * string)) (BlockDelaySecs : Z).

Lemma updateLanded_evolves (info : sector_key -> option (option onchain)) (k : sector_key) (d d' : snap_db) : (forall r, snaps d !! k = Some r -> landing r = true) ->
  updateLanded info k d = Some d' -> evolve S (msg_waits d) n (snaps d) (snaps d') /\ msg_waits d' = msg_waits d /\ forall k', k' <> k -> snaps d' !! k' = snaps d !! k'.
Proof using.
  intros Hl. unfold updateLanded. destruct (snaps d !! k) as [r|] eqn:Ek; [|intros [= <-]; split; [apply evolve_refl|done]]. specialize (Hl r eq_refl).
  assert (sn_ok r = false /\ sn_after r Submit = true) as [Hok Hsub] by (unfold landing in Hl; destruct (sn_after r Encode), (sn_after r Prove), (sn_ok r), (sn_after r Submit); done).
  destruct (sn_msg r) as [m|] eqn:Em; [|intros [= <-]; split; [apply evolve_refl|done]]. destruct (msg_waits d !! m) as [[ex|]|] eqn:Ew; [|intros [= <-]; split; [apply evolve_refl|done]|intros [= <-]; split; [apply evolve_refl|done]].
  destruct (sn_sealed r) as [sealed|]; [|done]. rewrite Hok, Hsub. cbn [negb andb].
  assert (evolve S (msg_waits d) n (snaps d) (<[k := set_snap_stage Submit (sn_task r Submit) false r]> (snaps d))) as Hretry.
  { apply evolve_insert. left. exists r. split; [done|]. split; [intros H; by apply set_retry_ok|by right]. }
  destruct (ex_code ex) eqn:Ec; try (intros [= <-]; split; [exact Hretry|split; [done|intros k' Hk'; by apply lookup_insert_ne]]); try done.
  - destruct (info k) as [[si|]|]; [|done|done]. destruct (negb _); [done|]. intros [= <-]. split; [|split; [done|intros k' Hk'; by apply lookup_insert_ne]].
    apply evolve_insert. left. exists r. split; [done|]. split; [intros H; by eapply set_landed_ok|by right].
  - destruct (info k) as [[si|]|]; [|done|done]. destruct (bool_decide _); [|done]. intros [= <-]. split; [apply evolve_refl|done].
Qed.

Lemma landed_loop_evolves (info : sector_key -> option (option onchain)) (ks : list sector_key) (d d' : snap_db) : NoDup ks -> (forall k r, k ∈ ks -> snaps d !! k = Some r -> landing r = true) ->
  landed_loop info ks d = Some d' -> evolve S (msg_waits d) n (snaps d) (snaps d') /\ msg_waits d' = msg_waits d.
Proof using.
  revert d. induction ks as [|k ks IH]; intros d Hnd Hl; cbn [landed_loop]; [intros [= <-]; split; [apply evolve_refl|done]|]. apply NoDup_cons in Hnd as [Hk Hnd].
  destruct (updateLanded info k d) as [d1|] eqn:E; [|done]. destruct (updateLanded_evolves info k d d1) as (He & Hw & Hoth); [intros r; apply Hl, list_elem_of_here|done|].
  intros H. destruct (IH d1 Hnd) as [He' Hw']; [|done|]. { intros k' r Hin. rewrite Hoth by (intros ->; done). apply Hl. by apply list_elem_of_further. }
  rewrite Hw in He', Hw'. split; [by eapply evolve_trans|done].
Qed.

Lemma landed_poll_evolves (info : sector_key -> option (option onchain)) (d d' : snap_db) : landed_poll info d = Some d' -> evolve S (msg_waits d) n (snaps d) (snaps d') /\ msg_waits d' = msg_waits d.
Proof using.
  apply landed_loop_evolves.
  - unfold ready_rows. rewrite enum_perm. eapply sublist_NoDup; [apply (NoDup_fst_map_to_list (snaps d))|]. apply fmap_sublist. clear. induction (map_to_list (snaps d)) as [|x l IH]; [done|]. cbn. destruct (landing x.2); by constructor.
  - intros k r ([k' r'] & -> & Hin)%list_elem_of_fmap Hr. apply elem_of_ready in Hin as [Hr' Hl]. cbn in Hr. rewrite Hr in Hr'. by injection Hr' as ->.
Qed.

(** The rows that are given to a submit task. *)
Lemma candidates_ready (now : time) (d : snap_db) (cs : list candidate) (c : candidate) : submit_candidates now d = Some cs -> c ∈ cs -> exists r, snaps d !! cd_key c = Some r /\ submit_ready now r = true.
Proof using.
  unfold submit_candidates. destruct (mapM _ _) as [l|] eqn:E; [|done]. cbn. intros [= <-]. rewrite merge_sort_Permutation. apply mapM_Some in E. intros [i Hi]%list_elem_of_lookup.
  destruct (Forall2_lookup_r _ _ _ _ _ E Hi) as ([k r] & Hx & Hf). apply list_elem_of_lookup_2, list_elem_of_In, filter_In in Hx as [Hin [Hr _]%andb_true_iff]. apply list_elem_of_In, elem_of_map_to_list in Hin.
  cbn in Hf. destruct (sn_ready r); [|done]. destruct (min_start _); [|done]. injection Hf as <-. by exists r.
Qed.

Lemma size_list_le (l : list sector_key) : (size (list_to_set l : gset sector_key) <= length l)%nat.
Proof using.
  induction l as [|x l IH]; [done|]. cbn [list_to_set length]. change (list_to_set (x :: l)) with ({[x]} ∪ list_to_set l : gset sector_key). rewrite size_union_alt, size_singleton.
  pose proof (subseteq_size ((list_to_set l : gset sector_key) ∖ {[x]}) (list_to_set l) ltac:(set_solver)). lia.
Qed.

Lemma submit_add_spec (cfg : submit_cfg) (now : time) (height fee id : Z) (W : gmap string (option exec_result)) (d d' : snap_db) : MaxUpdateBatch cfg <> 0%nat -> rows_ok S W id (snaps d) ->
  submit_add BlockDelaySecs cfg now height fee id d = Some (Some d') -> rows_ok S W (id + 1) (snaps d') /\ msg_waits d' = msg_waits d /\
    (size (batch id (snaps d')) <= MaxUpdateBatch cfg)%nat /\ forall id', id' <> id -> batch id' (snaps d') ⊆ batch id' (snaps d).
Proof using.
  intros Hmax Hrows. unfold submit_add. destruct (submit_candidates now d) as [cs|] eqn:Ec; [|done]. destruct (List.filter _ (groups cs)) as [|g gs]; [done|]. intros [= <-]. set (ks := cd_key <$> batch_of cfg cs g).
  assert (length ks <= MaxUpdateBatch cfg)%nat as Hlen by (unfold ks, batch_of; rewrite length_fmap, (proj2 (Nat.eqb_neq _ _)) by done; rewrite length_take; lia).
  assert (forall k r, k ∈ ks -> snaps d !! k = Some r -> submit_ready now r = true) as Hready.
  { intros k r (c & -> & Hc)%list_elem_of_fmap Hr. assert (c ∈ cs) as Hin.
    { unfold batch_of in Hc. destruct (_ =? 0)%nat; [|apply elem_of_take in Hc as (j & Hj & _); apply list_elem_of_lookup_2 in Hj; rename Hj into Hc]; apply list_elem_of_In, filter_In in Hc as [Hc _]; by apply list_elem_of_In. }
    destruct (candidates_ready now d cs c Ec Hin) as (r' & Hr' & Hs). rewrite Hr in Hr'. by injection Hr' as <-. }
  assert (forall k r', snaps (with_snaps (update_where (fun k r => bool_decide (k ∈ ks) && is_null (sn_task r Submit)) (fun r => set_submit_after None (set_snap_task Submit id r)) (snaps d)) d) !! k = Some r' ->
    exists r, snaps d !! k = Some r /\ (k ∈ ks /\ r' = set_submit_after None (set_snap_task Submit id r) \/ r' = r)) as Hlook.
  { intros k r'. cbn [snaps with_snaps]. rewrite lookup_update_where. destruct (snaps d !! k) as [r|]; [|done]. cbn. intros [= <-]. exists r. split; [done|].
    destruct (bool_decide (k ∈ ks)) eqn:E; [apply bool_decide_eq_true in E|by right]. destruct (is_null _); [by left|by right]. }
  split; [|split; [done|split]].
  - intros k r' H'. apply Hlook in H' as (r & Hr & [[Hk ->]| ->]); [|eapply row_ok_mono; [by apply (Hrows k)|done|done|lia]].
    pose proof (Hready k r Hk Hr) as Hs. unfold submit_ready in Hs. apply set_task_submit; [eapply row_ok_mono; [by apply (Hrows k)|done|done|lia]| | |lia]; destruct (sn_after r Prove), (sn_after r Submit), (is_null (sn_failed r)), (sn_after r Encode); done.
  - transitivity (length ks); [|done]. transitivity (size (list_to_set ks : gset sector_key)); [|apply size_list_le]. apply subseteq_size. intros k. rewrite elem_of_batch, elem_of_list_to_set.
    intros (r' & H' & Ht). apply Hlook in H' as (r & Hr & [[Hk _]| ->]); [done|]. destruct (ro_task_submit _ _ _ _ (Hrows k r Hr) id Ht) as (_ & _ & ?). lia.
  - intros id' Hne k. rewrite !elem_of_batch. intros (r' & H' & Ht). apply Hlook in H' as (r & Hr & [[_ ->]| ->]); [cbn in Ht; rewrite decide_True in Ht by done; congruence|by exists r].
Qed.

Lemma cleanup_evolves (W : gmap string (option exec_result)) (d : snap_db) : evolve S W n (snaps d) (snaps (cleanup_snaps d)) /\ msg_waits (cleanup_snaps d) = msg_waits d.
Proof using.
  unfold cleanup_snaps. generalize (fst <$> List.filter (fun kr => snap_finished d kr.1 kr.2) (map_to_list (snaps d))). intros ks. revert d. induction ks as [|k ks IH]; intros d; cbn [foldl]; [split; [apply evolve_refl|done]|].
  destruct (IH (delete_snap k d)) as [He Hw]. split; [|by rewrite Hw]. eapply evolve_trans; [|exact He]. apply evolve_delete.
Qed.
End Landing.

(** ** The cluster *)

Section World.
Context `{HE : !Enum} (url_Parse : string -> option (string * string)) (BlockDelaySecs : Z) (cfg : submit_cfg) (Hcfg : MaxUpdateBatch cfg <> 0%nat).

Definition msg_small (msg : update_msg) : Prop := um_updates msg <> [] /\ (length (um_updates msg) <= MaxUpdateBatch cfg)%nat /\ NoDup (su_sector <$> um_updates msg) /\ 0 <= um_value msg.

Definition phase_ok (sent : list (string * update_msg)) (p : submit_phase) : Prop :=
  match p with SReady msg _ => msg_small msg | SSent m _ => m ∈ sent.*1 | _ => True end.

Record snap_inv (w : snap_world) : Prop := {
  si_rows : rows_ok (sw_sent w).*1 (msg_waits (sw_db w)) (sw_next w) (snaps (sw_db w));
  si_batch : forall id, (size (batch id (snaps (sw_db w))) <= MaxUpdateBatch cfg)%nat;
  si_sent : Forall (fun x => msg_small x.2) (sw_sent w) /\ NoDup (sw_sent w).*1;
  si_runs : forall id p, sw_runs w !! id = Some (RSubmit p) -> phase_ok (sw_sent w) p
}.

(** Every step but a new submit task and a message. *)
Lemma inv_evolve (w : snap_world) (d : snap_db) (next : Z) (runs : gmap Z snap_run) : snap_inv w ->
  evolve (sw_sent w).*1 (msg_waits (sw_db w)) (sw_next w) (snaps (sw_db w)) (snaps d) ->
  (forall m ex, msg_waits (sw_db w) !! m = Some (Some ex) -> msg_waits d !! m = Some (Some ex)) -> sw_next w <= next ->
  (forall id p, runs !! id = Some (RSubmit p) -> sw_runs w !! id = Some (RSubmit p) \/ phase_ok (sw_sent w) p) -> snap_inv (mkSnapWorld d next runs (sw_sent w)).
Proof using.
  intros [Hr Hb Hs Hp] He Hw Hn Hruns. constructor; cbn [sw_db sw_next sw_runs sw_sent]; [| |done|].
  - intros k r Hk. eapply row_ok_mono; [by apply (evolve_rows _ _ _ _ _ He Hr k)|done|done|done].
  - intros id. etransitivity; [|apply (Hb id)]. apply subseteq_size. by eapply evolve_batch.
  - intros id p Hid. destruct (Hruns id p Hid) as [H|H]; [by apply (Hp id)|done].
Qed.

Lemma runs_delete (w : snap_world) (id : Z) : forall id' p, delete id (sw_runs w) !! id' = Some (RSubmit p) -> sw_runs w !! id' = Some (RSubmit p) \/ phase_ok (sw_sent w) p.
Proof using. intros id' p [_ H]%lookup_delete_Some. by left. Qed.
Lemma runs_insert (w : snap_world) (id : Z) (r : snap_run) : (forall p, r = RSubmit p -> phase_ok (sw_sent w) p) ->
  forall id' p, <[id := r]> (sw_runs w) !! id' = Some (RSubmit p) -> sw_runs w !! id' = Some (RSubmit p) \/ phase_ok (sw_sent w) p.
Proof using. intros Hr id' p [[-> H]|[_ H]]%lookup_insert_Some; [right; by apply Hr|by left]. Qed.

(** A step that only changes rows or only runs. *)
Lemma inv_set (w : snap_world) (d : snap_db) : snap_inv w -> evolve (sw_sent w).*1 (msg_waits (sw_db w)) (sw_next w) (snaps (sw_db w)) (snaps d) -> msg_waits d = msg_waits (sw_db w) -> snap_inv (sw_set w d).
Proof using. intros Hi He Hw. apply inv_evolve; [done|done|by rewrite Hw|apply Z.le_refl|by left]. Qed.
Lemma inv_task (w : snap_world) (d : snap_db) : snap_inv w -> evolve (sw_sent w).*1 (msg_waits (sw_db w)) (sw_next w) (snaps (sw_db w)) (snaps d) -> msg_waits d = msg_waits (sw_db w) -> snap_inv (sw_task w d).
Proof using. intros Hi He Hw. apply inv_evolve; [done|done|by rewrite Hw|apply Z.le_succ_diag_r|by left]. Qed.
Lemma inv_run (w : snap_world) (id : Z) (r : option snap_run) (d : snap_db) : snap_inv w -> evolve (sw_sent w).*1 (msg_waits (sw_db w)) (sw_next w) (snaps (sw_db w)) (snaps d) ->
  msg_waits d = msg_waits (sw_db w) -> (forall p, r = Some (RSubmit p) -> phase_ok (sw_sent w) p) -> snap_inv (sw_run w id r d).
Proof using.
  intros Hi He Hw Hp. apply inv_evolve; [done|done|by rewrite Hw|apply Z.le_refl|]. destruct r as [r|]; [apply runs_insert; intros p ->; by apply Hp|apply runs_delete].
Qed.

Lemma inv_send (w : snap_world) (id : Z) (msg : update_msg) (tr : list (sector_key * (string * string))) (mcid : string) : snap_inv w -> sw_runs w !! id = Some (RSubmit (SReady msg tr)) -> mcid ∉ (sw_sent w).*1 ->
  snap_inv (mkSnapWorld (sw_db w) (sw_next w) (<[id := RSubmit (SSent mcid tr)]> (sw_runs w)) (sw_sent w ++ [(mcid, msg)])).
Proof using.
  intros [Hr Hb Hs Hp] Hid Hfresh. assert ((sw_sent w).*1 ⊆ (sw_sent w ++ [(mcid, msg)]).*1) as Hsub by (intros x Hx; rewrite fmap_app; apply elem_of_app; by left). assert (msg_small msg) as Hm by by eapply (Hp id (SReady msg tr)).
  constructor; cbn [sw_db sw_next sw_runs sw_sent]; [|done| |].
  - intros k r Hk. eapply row_ok_mono; [by apply (Hr k)|done|done|apply Z.le_refl].
  - destruct Hs as [Hs Hn]. split; [apply Forall_app; split; [done|by constructor]|]. rewrite fmap_app. apply NoDup_app. split; [done|]. split; [|apply NoDup_singleton]. intros x Hx ->%list_elem_of_singleton. done.
  - intros id' p [[-> [= <-]]|[_ H']]%lookup_insert_Some; [cbn; rewrite fmap_app; apply elem_of_app; right; apply list_elem_of_here|]. specialize (Hp id' p H'). destruct p; cbn in *; try done. by apply Hsub.
Qed.

Lemma snap_step_inv (w w' : snap_world) : snap_inv w -> snap_step url_Parse BlockDelaySecs cfg w w' -> snap_inv w'.
Proof using Hcfg.
  intros Hi Hstep. pose proof Hi as [Hr Hb Hs Hp]. destruct Hstep.
  - apply inv_set; [done| |done]. apply evolve_insert. right. split; [apply new_snap_ok|done].
  - apply inv_task; [done|by eapply encode_add_evolves|]. match goal with H : encode_add _ _ _ = _ |- _ => destruct (add_random_step _ _ _ _ _ _ H) as (? & ? & _ & _ & ->) end. done.
  - apply inv_task; [done|by eapply prove_add_evolves|]. match goal with H : prove_add _ _ _ = _ |- _ => destruct (add_random_step _ _ _ _ _ _ H) as (? & ? & _ & _ & ->) end. done.
  - apply inv_task; [done|by eapply add_move_evolves|]. unfold add_move in *. destruct (oldest_row _) as [[? ?]|]; [|done]. by match goal with H : Some _ = Some _ |- _ => injection H as <- end.
  - match goal with H : submit_add _ _ _ _ _ _ _ = _ |- _ => destruct (submit_add_spec _ _ _ _ _ _ _ _ _ _ Hcfg Hr H) as (Hr' & Hw' & Hb' & Hoth) end.
    constructor; cbn [sw_task sw_db sw_next sw_runs sw_sent]; [by rewrite Hw'| |done|done]. intros id. destruct (decide (id = sw_next w)) as [->|Hne]; [done|]. etransitivity; [|apply (Hb id)]. apply subseteq_size. by apply Hoth.
  - apply inv_run; [done|apply evolve_refl|done|]. intros p [= ->]. by destruct st.
  - apply inv_run; [done|apply encode_finish_evolves|unfold encode_finish; by destruct (negb _)|done].
  - apply inv_run; [done|apply prove_finish_evolves|done|done].
  - apply inv_run; [done|apply move_finish_evolves|done|done].
  - match goal with H : submit_prepare _ _ _ _ _ _ = _ |- _ => destruct (prepare_spec _ _ _ _ _ _ _ _ _ _ _ Hr H) as [He [(Hne & Hv & Hnd & _) Hlen]]; pose proof (prepare_waits _ _ _ _ _ _ _ _ H) as Hw end.
    apply inv_run; [done|done|done|]. intros p [= <-]. split; [done|]. split; [specialize (Hb id); lia|done].
  - match goal with H : submit_prepare _ _ _ _ _ _ = _ |- _ => destruct (prepare_spec _ _ _ _ _ _ _ _ _ _ _ Hr H) as [He _]; pose proof (prepare_waits _ _ _ _ _ _ _ _ H) as Hw end. by apply inv_set.
  - by eapply inv_send.
  - apply inv_run; [done|apply record_evolves; by apply (Hp id (SSent mcid tr))|done|by intros p [= <-]].
  - match goal with H : submit_wait _ _ = _ |- _ => unfold submit_wait in H; destruct (msg_waits (sw_db w) !! mcid) eqn:Em; [done|]; injection H as <- end.
    apply inv_evolve; [done|apply evolve_refl| |apply Z.le_refl|apply runs_insert; by intros p [= <-]]. intros m ex Hm. cbn. rewrite lookup_insert_ne; [done|congruence].
  - match goal with H : submit_meta _ _ _ = _ |- _ => unfold submit_meta in H; destruct (transfer_meta _ _ _); [|done]; injection H as <- end. apply inv_run; [done|apply evolve_refl|done|by intros p [= <-]].
  - apply inv_run; [done|apply evolve_refl|done|done].
  - apply inv_run; [done|apply evolve_refl|done|done].
  - apply inv_evolve; [done|apply evolve_refl| |apply Z.le_refl|by left]. intros m' ex' Hm'. cbn. rewrite lookup_insert_ne; [done|congruence].
  - match goal with H : landed_poll _ _ = _ |- _ => destruct (landed_poll_evolves (sw_sent w).*1 (sw_next w) _ _ _ H) as [He Hw] end. by apply inv_set.
  - destruct (cleanup_evolves (sw_sent w).*1 (sw_next w) (msg_waits (sw_db w)) (sw_db w)) as [He Hw]. by apply inv_set.
  - apply inv_set; [done|apply evolve_delete|done].
Qed.

Lemma snap_reachable (w0 w : snap_world) : snaps (sw_db w0) = ∅ -> sw_runs w0 = ∅ -> sw_sent w0 = [] -> rtc (snap_step url_Parse BlockDelaySecs cfg) w0 w -> snap_inv w.
Proof using Hcfg.
  intros Hd Hr Hs H. refine (rtc_invariant (snap_step url_Parse BlockDelaySecs cfg) snap_inv snap_step_inv w0 w H _). constructor.
  - rewrite Hd. apply map_Forall_empty.
  - intros id. rewrite Hd. unfold batch. rewrite map_filter_empty, dom_empty_L, size_empty. lia.
  - rewrite Hs. split; [constructor|apply NoDup_nil_2].
  - intros id p. by rewrite Hr, lookup_empty.
Qed.
End World.

(** C6: sector updates keep their stages in order, whatever the tasks of the cluster do and wherever
    a process dies: a row is proved only after it was encoded, submitted only after it was
    proved and under the cid of a message that was sent, and taken as landed only when that
    message was executed successfully; its tasks are only those of the next stages.  A
    message has at least one and at most the 16 updates that fit into it, no sector
    twice, no negative value; and when one is prepared, every update in it is of a row of
    its task and its miner, with that row's commitment and proof, for a sector that the
    chain shows without data and away from its deadline, and with good allocations. *)
Theorem snap_updates_safe `{HE : !Enum} (url_Parse : string -> option (string * string)) (BlockDelaySecs : Z) (cfg : submit_cfg) (w0 w : snap_world) :
  MaxUpdateBatch cfg = max_update_batch -> snaps (sw_db w0) = ∅ -> sw_runs w0 = ∅ -> sw_sent w0 = [] -> rtc (snap_step url_Parse BlockDelaySecs cfg) w0 w ->
  map_Forall (fun _ r => row_ok (sw_sent w).*1 (msg_waits (sw_db w)) (sw_next w) r) (snaps (sw_db w)) /\
  Forall (fun x => um_updates x.2 <> [] /\ (length (um_updates x.2) <= 16)%nat /\ NoDup (su_sector <$> um_updates x.2) /\ 0 <= um_value x.2) (sw_sent w) /\ NoDup (sw_sent w).*1 /\
  forall fm nf env id d msg tr, submit_prepare BlockDelaySecs fm nf env id (sw_db w) = (d, ToSend msg tr) -> msg_true env id (sw_db w) msg.
Proof.
  intros Hc Hd Hr Hs H. assert (MaxUpdateBatch cfg <> 0%nat) as Hne by (by rewrite Hc). pose proof (snap_reachable url_Parse BlockDelaySecs cfg Hne w0 w Hd Hr Hs H) as Hi. split; [by apply (si_rows _ _ Hi)|].
  destruct (si_sent _ _ Hi) as [Hsent Hnd]. split; [|split; [done|]].
  - eapply Forall_impl; [exact Hsent|]. intros x (? & Hl & ? & ?). rewrite Hc in Hl. done.
  - intros fm nf env id d msg tr E. by destruct (prepare_spec _ _ _ _ _ _ _ _ _ _ _ (si_rows _ _ Hi) E) as [_ [Hm _]].
Qed.

(** ** The loops that give tasks to rows *)

Section Schedule.
Context `{HE : !Enum}.

Definition ready_keys (ready : snap_row -> bool) (d : snap_db) : gset sector_key := dom (base.filter (fun kr => ready kr.2 = true) (snaps d)).

Lemma elem_of_ready_keys (ready : snap_row -> bool) (d : snap_db) (k : sector_key) : k ∈ ready_keys ready d <-> exists r, snaps d !! k = Some r /\ ready r = true.
Proof using.
  unfold ready_keys. rewrite elem_of_dom. split; [intros [r [? ?]%map_lookup_filter_Some]; by exists r|intros (r & ? & ?); exists r; by apply map_lookup_filter_Some].
Qed.

(** A transaction takes one ready row, and gives up only when there is none. *)
Definition takes_one (add : Z -> nat -> snap_db -> option snap_db) (ready : snap_row -> bool) : Prop :=
  forall id pick d, match add id pick d with
                    | None => ready_keys ready d = ∅
                    | Some d' => exists k, k ∈ ready_keys ready d /\ ready_keys ready d' ⊆ ready_keys ready d ∖ {[k]}
                    end.

Lemma ready_none (ready : snap_row -> bool) (d : snap_db) : ready_rows ready d = [] -> ready_keys ready d = ∅.
Proof using. intros H. apply elem_of_equiv_empty_L. intros k (r & Hr & Hk)%elem_of_ready_keys. assert ((k, r) ∈ ready_rows ready d) as Hin by by apply elem_of_ready. by rewrite H, elem_of_nil in Hin. Qed.

Lemma alter_takes (ready : snap_row -> bool) (f : snap_row -> snap_row) (k : sector_key) (d d' : snap_db) : (forall r, ready (f r) = false) ->
  (forall k', snaps d' !! k' = if decide (k' = k) then f <$> snaps d !! k else snaps d !! k') -> ready_keys ready d' ⊆ ready_keys ready d ∖ {[k]}.
Proof using.
  intros Hf Hd k' (r & Hr & Hk)%elem_of_ready_keys. rewrite Hd in Hr. destruct (decide (k' = k)) as [->|Hne].
  - destruct (snaps d !! k); [|done]. cbn in Hr. injection Hr as <-. congruence.
  - apply elem_of_difference. split; [apply elem_of_ready_keys; by exists r|by rewrite elem_of_singleton].
Qed.

Lemma task_not_ready (st : snap_stage) (id : Z) (r : snap_row) (a b : bool) : a && b && is_null (sn_task (set_snap_task st id r) st) = false.
Proof using. cbn. rewrite decide_True by done. by rewrite andb_false_r. Qed.

Lemma random_takes_one (st : snap_stage) (ready : snap_row -> bool) : (forall r, exists a b, ready r = a && b && is_null (sn_task r st)) -> takes_one (add_random st ready) ready.
Proof using.
  intros Hready id pick d. destruct (add_random st ready id pick d) as [d'|] eqn:E.
  - destruct (add_random_step _ _ _ _ _ _ E) as (k & r & Hk & Hr & ->). exists k. split; [apply elem_of_ready_keys; by exists r|]. apply (alter_takes ready (set_snap_task st id)).
    + intros x. destruct (Hready (set_snap_task st id x)) as (a & b & ->). apply task_not_ready.
    + intros k'. cbn [snaps with_snaps]. destruct (decide (k' = k)) as [->|]; [by rewrite lookup_alter_eq|by rewrite lookup_alter_ne].
  - unfold add_random in E. destruct (ready_rows ready d) as [|x l] eqn:El; [by apply ready_none|]. exfalso. destruct ((x :: l) !! (pick mod length (x :: l))%nat) as [[k r]|] eqn:E'; [done|].
    apply lookup_ge_None in E'. pose proof (Nat.mod_upper_bound pick (length (x :: l)) ltac:(done)). lia.
Qed.

Lemma oldest_row_elem (l : list (sector_key * snap_row)) : match oldest_row l with Some x => x ∈ l | None => l = [] end.
Proof using.
  induction l as [|x l IH]; [done|]. cbn [oldest_row]. destruct (oldest_row l) as [y|]; [|apply list_elem_of_here]. destruct (_ <? _); [by apply list_elem_of_further|apply list_elem_of_here].
Qed.

Lemma move_takes_one : takes_one add_move move_ready.
Proof using.
  intros id pick d. unfold add_move. pose proof (oldest_row_elem (ready_rows move_ready d)) as Ho. destruct (oldest_row _) as [[k r]|]; [|by apply ready_none]. apply elem_of_ready in Ho as [Hk Hr].
  exists k. split; [apply elem_of_ready_keys; by exists r|]. intros k' (x & Hx & Hxr)%elem_of_ready_keys. cbn [snaps with_snaps] in Hx. rewrite lookup_update_where in Hx. destruct (snaps d !! k') as [y|] eqn:Ey; [|done]. cbn in Hx. injection Hx as <-.
  destruct (bool_decide (k' = k)) eqn:E; cbn [andb] in Hxr.
  - apply bool_decide_eq_true in E. subst k'. rewrite Hk in Ey. injection Ey as <-. rewrite Hr in Hxr. unfold move_ready in Hxr. by rewrite task_not_ready in Hxr.
  - apply bool_decide_eq_false in E. apply elem_of_difference. split; [apply elem_of_ready_keys; by exists y|by rewrite elem_of_singleton].
Qed.

(** Every such loop ends after as many rounds as there are ready rows, and leaves none. *)
Theorem schedule_ends (add : Z -> nat -> snap_db -> option snap_db) (ready : snap_row -> bool) (rounds : list (Z * nat * bool)) (d : snap_db) : takes_one add ready ->
  Forall (fun r => r.2 = true) rounds -> (size (ready_keys ready d) < length rounds)%nat -> (schedule_loop add rounds d).2 = true /\ ready_keys ready (schedule_loop add rounds d).1 = ∅.
Proof using.
  intros Ht Hc. revert d. induction Hc as [|[[id pick] c] rounds Hr Hc IH]; intros d Hl; [cbn in Hl; lia|]. cbn [schedule_loop]. cbn in Hr. subst c. specialize (Ht id pick d). destruct (add id pick d) as [d'|]; [|done].
  destruct Ht as (k & Hk & Hsub). apply IH. assert ({[k]} ⊆ ready_keys ready d) as Hin by (by apply singleton_subseteq_l).
  pose proof (subseteq_size _ _ Hsub) as Hs. pose proof (subseteq_size _ _ Hin) as H1. rewrite size_difference in Hs by done. rewrite size_singleton in *. cbn [length] in Hl. lia.
Qed.

Lemma schedules_end (rounds : list (Z * nat * bool)) (d : snap_db) : Forall (fun r => r.2 = true) rounds -> (size (snaps d) < length rounds)%nat ->
  (schedule_loop encode_add rounds d).2 = true /\ (schedule_loop prove_add rounds d).2 = true /\ (schedule_loop add_move rounds d).2 = true.
Proof using.
  intros Hc Hl. assert (forall ready, (size (ready_keys ready d) < length rounds)%nat) as Hs.
  { intros ready. eapply Nat.le_lt_trans; [|exact Hl]. unfold ready_keys. rewrite size_dom. apply map_subseteq_size, map_filter_subseteq. }
  split_and!; [eapply (schedule_ends _ encode_ready); [|done|done]|eapply (schedule_ends _ prove_ready); [|done|done]|eapply (schedule_ends _ move_ready); [apply move_takes_one|done|done]];
    apply random_takes_one; intros r; eexists _, _; reflexivity.
Qed.
End Schedule.

(** ** A sector that a batch leaves out *)

Section Blocked.
Context `{HE : !Enum}.

Lemma landed_loop_blocked (info : sector_key -> option (option onchain)) (k : sector_key) (ks : list sector_key) (d : snap_db) : k ∈ ks -> NoDup ks -> (forall k' r, k' ∈ ks -> snaps d !! k' = Some r -> landing r = true) ->
  (forall d', snaps d' !! k = snaps d !! k -> msg_waits d' = msg_waits d -> updateLanded info k d' = None) -> landed_loop info ks d = None.
Proof using.
  intros Hk Hnd Hl Hnone. revert d Hl Hnone. induction ks as [|k1 ks IH]; intros d Hl Hnone; [by apply elem_of_nil in Hk|]. apply NoDup_cons in Hnd as [Hn Hnd]. cbn [landed_loop].
  destruct (updateLanded info k1 d) as [d1|] eqn:E; [|done]. destruct (decide (k1 = k)) as [->|Hne]; [by rewrite Hnone in E|].
  destruct (updateLanded_evolves [] 0 info k1 d d1) as (_ & Hw & Hoth); [intros r; apply Hl, list_elem_of_here|done|]. apply IH.
  - apply elem_of_cons in Hk as [->|]; done.
  - done.
  - intros k' r Hin. rewrite Hoth by (intros ->; done). apply Hl. by apply list_elem_of_further.
  - intros d' Hs Hw'. apply Hnone; [by rewrite Hs, Hoth|by rewrite Hw', Hw].
Qed.

(** A submitted row whose message was executed but that the chain shows with another commitment
    stops the confirmation of all sectors. *)
Theorem one_sector_blocks_all (info : sector_key -> option (option onchain)) (k : sector_key) (d : snap_db) (r : snap_row) (m sealed : string) (ex : exec_result) (si : onchain) :
  snaps d !! k = Some r -> landing r = true -> sn_msg r = Some m -> msg_waits d !! m = Some (Some ex) -> ex_code ex = ExitOk -> sn_sealed r = Some sealed ->
  info k = Some (Some si) -> oc_sealed si <> sealed -> landed_poll info d = None.
Proof using.
  intros Hk Hl Hm Hw Hc Hs Hi Hne. apply (landed_loop_blocked info k).
  - apply list_elem_of_fmap. exists (k, r). split; [done|]. by apply elem_of_ready.
  - unfold ready_rows. rewrite enum_perm. eapply sublist_NoDup; [apply (NoDup_fst_map_to_list (snaps d))|]. apply fmap_sublist. clear. induction (map_to_list (snaps d)) as [|x l IH]; [done|]. cbn. destruct (landing x.2); by constructor.
  - intros k' r' ([k1 r1] & -> & Hin)%list_elem_of_fmap Hr. apply elem_of_ready in Hin as [Hr' Hl']. cbn in Hr. rewrite Hr in Hr'. by injection Hr' as ->.
  - intros d' Hd' Hw'. unfold updateLanded. rewrite Hd', Hk, Hm, Hw', Hw, Hs, Hc, Hi. by rewrite bool_decide_false.
Qed.
End Blocked.

(** Two sectors of a miner in one batch; the node cannot answer for the allocation of the second. *)
Module SnapDemo.
Definition k1 : sector_key := (1000, 1).
Definition k2 : sector_key := (1000, 2).
Definition meta (orig : string) : meta_row := mkMeta 8 orig orig "zero" None false (Some 3).
Definition db0 : snap_db := mkSnapDb ∅ {[k1 := meta "r1"; k2 := meta "r2"]} ∅ ∅ ∅ ∅ ∅ (mkParkDb ∅ ∅ 1 1 true).
Definition w0 : snap_world := mkSnapWorld db0 1 ∅ [].
Definition piece (pam : string) : gmap Z snap_piece := {[0 := mkSnapPiece "p" 1024 "pieceref:1" 1000 false (Some 5000) (Some 9000) (Some pam)]}.
Definition parse (u : string) : option (string * string) := if bool_decide (u = "pieceref:1"%string) then Some ("pieceref", "1")%string else None.
Definition cfg : submit_cfg := mkSubmitCfg max_update_batch 0 0 100.
Definition env : submit_env := {|
  se_height := 100; se_timestamp := 3000; se_info k := Some (Some (mkOnchain 8 None "r" 5000 0)); se_location k := Some (3, 0); se_deadline dl := Some (1000, 1060, 60);
  se_alloc key := if bool_decide (key.2 = 1) then Some (Some (mkAllocation 1000 1024 0 10000)) else None;
  se_pam s := match s with Some s => Some (mkManifest "p" 1024 (Some (7, if bool_decide (s = "one"%string) then 1 else 2))) | None => None end; se_cid_ok _ := true;
  se_size _ := Some 34359738368; se_pledge _ _ _ := Some 5; se_balance := Some 0 |}.

Definition took (o : option snap_db) (w : snap_world) : snap_world := match o with Some d => sw_task w d | None => w end.
Definition w1 := sw_set w0 (ingest_snap k1 3 0 (piece "one") (sw_db w0)).
Definition w2 := sw_set w1 (ingest_snap k2 3 0 (piece "two") (sw_db w1)).
Definition w3 := took (encode_add (sw_next w2) 0 (sw_db w2)) w2.
Definition w4 := took (encode_add (sw_next w3) 0 (sw_db w3)) w3.
Definition ran (st : snap_stage) (id : Z) (w : snap_world) : snap_world :=
  match task_sector st id (sw_db w) with Some k => match begin_run st k with Some r => sw_run w id (Some r) (sw_db w) | None => w end | None => w end.
Definition sector_of (id : Z) (w : snap_world) : sector_key := match sw_runs w !! id with Some (REncode k) | Some (RProve k) => k | _ => (0, 0) end.
Definition w5 := ran Encode 1 w4.
Definition w6 := sw_run w5 1 None (encode_finish parse (sector_of 1 w5) "u" "u" "s" (sw_db w5)).1.
Definition w7 := ran Encode 2 w6.
Definition w8 := sw_run w7 2 None (encode_finish parse (sector_of 2 w7) "u" "u" "s" (sw_db w7)).1.
Definition w9 := took (prove_add (sw_next w8) 0 (sw_db w8)) w8.
Definition w10 := took (prove_add (sw_next w9) 0 (sw_db w9)) w9.
Definition w11 := ran Prove 3 w10.
Definition w12 := sw_run w11 3 None (prove_finish 3 50 "proof" (sw_db w11)).
Definition w13 := ran Prove 4 w12.
Definition w14 := sw_run w13 4 None (prove_finish 4 50 "proof" (sw_db w13)).
Definition w15 := match submit_add 30 cfg 60 100 10 (sw_next w14) (sw_db w14) with Some o => took o w14 | None => w14 end.
Definition prep := submit_prepare 30 false false env 5 (sw_db w15).
Definition msg : update_msg := match prep.2 with ToSend m _ => m | _ => mkMsg 0 0 [] 0 end.
Definition tr : list (sector_key * (string * string)) := match prep.2 with ToSend _ t => t | _ => [] end.
Definition w16 := sw_run w15 5 (Some (RSubmit (SReady msg tr))) prep.1.
Definition w17 := mkSnapWorld (sw_db w16) (sw_next w16) (<[5 := RSubmit (SSent "m" tr)]> (sw_runs w16)) (sw_sent w16 ++ [("m"%string, msg)]).
Definition w18 := sw_run w17 5 (Some (RSubmit (SRecorded "m" tr))) (submit_record 5 "m" (sw_db w17)).

Definition is_taken (o : option snap_db) : bool := match o with Some _ => true | None => false end.

Abbreviation step := (snap_step parse 30 cfg).

Lemma step_encode_add w : is_taken (encode_add (sw_next w) 0 (sw_db w)) = true -> step w (took (encode_add (sw_next w) 0 (sw_db w)) w).
Proof. destruct (encode_add _ 0 _) as [d|] eqn:E; [|done]. intros _. by eapply sws_encode_add. Qed.
Lemma step_prove_add w : is_taken (prove_add (sw_next w) 0 (sw_db w)) = true -> step w (took (prove_add (sw_next w) 0 (sw_db w)) w).
Proof. destruct (prove_add _ 0 _) as [d|] eqn:E; [|done]. intros _. by eapply sws_prove_add. Qed.
Lemma step_begin st id w k : st <> Submit -> sw_runs w !! id = None -> task_sector st id (sw_db w) = Some k -> step w (ran st id w).
Proof. intros Hst Hr Ht. unfold ran. rewrite Ht. destruct st; [| |done|]; by eapply sws_begin. Qed.
Lemma step_encode id w : (match sw_runs w !! id with Some (REncode _) => true | _ => false end) = true -> step w (sw_run w id None (encode_finish parse (sector_of id w) "u" "u" "s" (sw_db w)).1).
Proof. unfold sector_of. destruct (sw_runs w !! id) as [[k| | |]|] eqn:E; try done. intros _. by eapply sws_encode. Qed.
Lemma step_prove id w : (match sw_runs w !! id with Some (RProve _) => true | _ => false end) = true -> step w (sw_run w id None (prove_finish id 50 "proof" (sw_db w))).
Proof. destruct (sw_runs w !! id) as [[|k| |]|] eqn:E; try done. intros _. by eapply sws_prove. Qed.

Lemma reach8 : rtc step w0 w8.
Proof.
  eapply rtc_l; [by apply (sws_ingest parse 30 cfg w0 k1 3 0 (piece "one"))|]. eapply rtc_l; [by apply (sws_ingest parse 30 cfg w1 k2 3 0 (piece "two"))|].
  eapply rtc_l; [apply (step_encode_add w2); vm_compute; reflexivity|]. eapply rtc_l; [apply (step_encode_add w3); vm_compute; reflexivity|].
  eapply rtc_l; [apply (step_begin Encode 1 w4 (sector_of 1 w5)); [done|vm_compute; reflexivity|vm_compute; reflexivity]|]. eapply rtc_l; [apply (step_encode 1 w5); vm_compute; reflexivity|].
  eapply rtc_l; [apply (step_begin Encode 2 w6 (sector_of 2 w7)); [done|vm_compute; reflexivity|vm_compute; reflexivity]|]. eapply rtc_l; [apply (step_encode 2 w7); vm_compute; reflexivity|]. apply rtc_refl.
Qed.

Lemma reach15 : rtc step w8 w15.
Proof.
  eapply rtc_l; [apply (step_prove_add w8); vm_compute; reflexivity|]. eapply rtc_l; [apply (step_prove_add w9); vm_compute; reflexivity|].
  eapply rtc_l; [apply (step_begin Prove 3 w10 (sector_of 3 w11)); [done|vm_compute; reflexivity|vm_compute; reflexivity]|]. eapply rtc_l; [apply (step_prove 3 w11); vm_compute; reflexivity|].
  eapply rtc_l; [apply (step_begin Prove 4 w12 (sector_of 4 w13)); [done|vm_compute; reflexivity|vm_compute; reflexivity]|]. eapply rtc_l; [apply (step_prove 4 w13); vm_compute; reflexivity|].
  eapply rtc_l; [|apply rtc_refl]. unfold w15. assert ((match submit_add 30 cfg 60 100 10 (sw_next w14) (sw_db w14) with Some (Some _) => true | _ => false end) = true) as H by (vm_compute; reflexivity).
  destruct (submit_add 30 cfg 60 100 10 (sw_next w14) (sw_db w14)) as [[d|]|] eqn:E; [|discriminate H|discriminate H]. by eapply (sws_submit_add parse 30 cfg w14 60 100 10).
Qed.

Lemma prepared_msg : prep = (prep.1, ToSend msg tr) /\ su_sector <$> um_updates msg = [1].
Proof. split; [|vm_compute; reflexivity]. unfold msg, tr. assert ((match prep.2 with ToSend _ _ => true | _ => false end) = true) as H by (vm_compute; reflexivity). by destruct prep as [d [b|m t]]. Qed.

Lemma reach18 : rtc step w15 w18.
Proof.
  eapply rtc_l; [apply (sws_prepare parse 30 cfg w15 5 false false env prep.1 msg tr); [vm_compute; reflexivity|apply prepared_msg]|].
  eapply rtc_l; [apply (sws_send parse 30 cfg w16 5 msg tr "m"); [apply lookup_insert_eq|vm_compute; by intros ?%elem_of_nil]|]. eapply rtc_l; [apply (sws_record parse 30 cfg w17 5 "m" tr); apply lookup_insert_eq|]. apply rtc_refl.
Qed.

Lemma reach_all : rtc step w0 w18.
Proof. etransitivity; [exact reach8|]. etransitivity; [exact reach15|exact reach18]. Qed.

(** Both rows are marked as submitted with the message, although it has the first sector only. *)
Theorem skipped_marked_submitted : rtc step w0 w18 /\ sw_sent w18 = [("m"%string, msg)] /\ su_sector <$> um_updates msg = [1] /\
  exists r, snaps (sw_db w18) !! k2 = Some r /\ sn_after r Submit = true /\ sn_msg r = Some "m"%string /\ landing r = true /\ sn_task r Submit = None.
Proof.
  split; [exact reach_all|]. split; [reflexivity|]. split; [apply prepared_msg|].
  assert ((match snaps (sw_db w18) !! k2 with Some r => sn_after r Submit && bool_decide (sn_msg r = Some "m"%string) && landing r && is_null (sn_task r Submit) | None => false end) = true) as H by (vm_compute; reflexivity).
  destruct (snaps (sw_db w18) !! k2) as [r|]; [|discriminate H]. exists r. rewrite !andb_true_iff, bool_decide_eq_true in H. destruct H as [[[H1 H2] H3] H4]. split; [done|]. split; [done|]. split; [done|]. split; [done|]. by destruct (sn_task r Submit).
Qed.

Lemma snap_updates_safe_witness : rtc step w0 w18 /\ map_Forall (fun _ r => row_ok (sw_sent w18).*1 (msg_waits (sw_db w18)) (sw_next w18) r) (snaps (sw_db w18)).
Proof.
  assert (rtc step w0 w18) as H by exact reach_all. split; [exact H|].
  exact (proj1 (snap_updates_safe parse 30 cfg w0 w18 eq_refl eq_refl eq_refl eq_refl H)).
Defined.
End SnapDemo.
